(* ===== verification/_CoqProject ===== *)
-Q . S2P
Prelude.v
Utils.v
Protocol.v
AckFrame.v
Frames.v
FrameCodec.v
StreamFrame.v
FrameParser.v
Header.v
GoFloat.v
Rtt.v
FlowControl.v
Congestion.v
LinkedList.v
LinkedListSpec.v
SentPackets.v
SentPacketsSpec.v
SentPacketsRun.v
ReceivedPackets.v
FrameSorter.v
FrameSorterSpec.v
SendStream.v
SendStreamSpec.v
ReceiveStream.v
ReceiveStreamSpec.v
Stream.v
TransportParams.v
StreamsMap.v
StreamsMapSpec.v
Framer.v
FramerSpec.v
FrameQueues.v
CryptoStream.v
CryptoStreamSpec.v
Protection.v
KeyUpdate.v
KeyUpdateSpec.v
CryptoSetup.v
PacketPacker.v
PacketUnpacker.v
PacketRoundTrip.v
PackerSpec.v
PackerRun.v
Session.v
SessionSpec.v
SessionRun.v
SessionSend.v
SessionPackets.v
SessionBuffers.v
ClosedSession.v
TokenStore.v
Tokens.v
PacketHandlers.v
Server.v
ServerSpec.v
Client.v
Replay.v
ReplaySpec.v
Scheduler.v
SchedulerSpec.v
H3Frames.v
H3FramesSpec.v
H3.v
H3Spec.v
H3Clients.v
Timers.v
SendQueue.v
Qerr.v
Trace.v
Handshake.v
HandshakeSpec.v
