(* ===== verification/Prelude.v ===== *)
(** * A verification of qperf and its QUIC implementation

    qperf is a QUIC benchmark that replays the requests of a web page over its own
    copy of quic-go.  Most of the logic is under src/quic-go: this development
    models that code, package by package, and the replay of qperf itself, as
    executable definitions, and proves the properties the rest of the program
    relies on.  Paths below are relative to src/quic-go, those of qperf's own files
    to src.

    ** The parts of the program and the files that model them

    - Bytes on the wire.  [Utils] models core/utils (varint.go,
      byteorder_big_endian.go, minmax.go); [Protocol] models core/protocol
      (packet numbers, stream numbers, versions, connection IDs, constants).
      [AckFrame], [Frames], [StreamFrame] model the frame types of core/wire,
      [FrameCodec] the law their parsers and writers share, [FrameParser] the
      [Frame] interface and frame_parser.go, [Header] the packet headers and
      version negotiation packets.
    - Loss recovery.  [LinkedList] models core/utils/linkedlist with its
      pointers and [LinkedListSpec] refines it to lists, for the generic code
      and its generated instances; [ReceivedPackets] models the receiving half
      of core/ackhandler (history, tracker, handler); [SentPackets] the sending
      half (packet number generator, history, sent packet handler),
      [SentPacketsSpec] its correctness and [SentPacketsRun] the properties of
      its reachable states.
    - Congestion control.  [GoFloat] models float32 and float64 arithmetic;
      [Rtt] models rtt_stats.go; [Congestion] models the PRR, hybrid slow start,
      CUBIC and the cubic sender of core/congestion.
    - Flow control.  [FlowControl] models core/flowcontrol: the base, connection
      and stream flow controllers and their shared connection state.
    - Reassembly.  [FrameSorter] models frame_sorter.go, [FrameSorterSpec] what
      it promises to the streams and the crypto streams above it.
    - Streams.  [SendStream] and [ReceiveStream] model the two halves of a
      stream (send_stream.go, receive_stream.go), [SendStreamSpec] and
      [ReceiveStreamSpec] their runs; [Stream] models stream.go, which joins two
      halves on one flow controller; [StreamsMap] models the maps of incoming
      and outgoing streams and streams_map.go, [StreamsMapSpec] what they
      promise.
    - What a packet carries.  [Framer] models framer.go, against an interface to
      the streams that [FramerSpec] shows the sending streams to satisfy;
      [FrameQueues] the retransmission queue and the window update queue.
    - Handshake.  [TransportParams] models transport_parameters.go;
      [CryptoStream] the CRYPTO streams and their manager, with TLS as an
      interface, and [CryptoStreamSpec] their properties; [CryptoSetup] the keys
      per encryption level and the messages of crypto_setup.go; [Handshake] the
      goroutines that meet in its channels, as a transition system, and the
      extension of tls_extension_handler.go, [HandshakeSpec] that they do not
      deadlock.
    - Packet protection.  [Protection] models aead.go, header_protector.go and
      initial_aead.go over a class of cryptographic primitives; [KeyUpdate]
      models updatable_aead.go, [KeyUpdateSpec] two endpoints that update their
      keys over a network.
    - Packets.  [PacketPacker] and [PacketUnpacker] model packet_packer.go and
      packet_unpacker.go; [PacketRoundTrip] follows a sealed packet to the
      receiver, [PackerSpec] what the packer puts into a packet, against classes
      for the packet numbers and the ACK frames, and [PackerRun] discharges these
      classes with the handlers of core/ackhandler.
    - The connection.  [Session] models session.go, the event loop, over one class
      of components, with buffer_pool.go; [SessionSpec] is the way its properties
      are proved: relations between states that every operation keeps;
      [SessionRun] its runs, [SessionSend], [SessionPackets] and
      [SessionBuffers] what it does with packets; [ClosedSession] models
      closed_session.go.
    - Endpoints.  [PacketHandlers] models packet_handler_map.go and multiplexer.go,
      the dispatch of datagrams to sessions; [Tokens] models token_generator.go and
      token_protector.go with the parts of encoding/asn1 and net they use; [Server]
      models server.go and [ServerSpec] the validation of addresses; [Client]
      models client.go; [TokenStore] models token_store.go; [SendQueue] models
      send_queue.go, between a session and its socket; [Timers] models
      core/utils/timer.go; [Qerr] the texts of core/qerr; [Trace] models quictrace.
    - HTTP/3.  [H3Frames] models frames.go and body.go of http3 on streams that cut
      their data in any way, [H3FramesSpec] what is read back; [H3] models
      request.go, request_writer.go, response_writer.go and the handling of requests
      in server.go and client.go, [H3Spec] what client and server get from each
      other; [H3Clients] models roundtrip.go, the clients and the listeners.
    - qperf.  [Replay] models datastructures, common and the requests and responses
      of client.go and server.go, [ReplaySpec] their properties; [Scheduler] models
      schedulers/dynamic_fcfs_scheduler.go with the start of a replay and the end
      of a request in client.go, [SchedulerSpec] what the end of a request releases.

    This file holds what they share: Go's errors and panics, machine integers,
    byte readers and writers, tactics, hint databases and generic lemmas.

    ** How the code is represented

    A w-bit integer is a [Z] wrapped by [u8] ... [u64], [i64]; a byte is a [Z]
    in [0, 256); a [bytes.Reader] is the list of the bytes left and a
    [bytes.Buffer] the list written so far; [time.Time] and [time.Duration] are
    nanoseconds, the zero time being 0.  A fallible function returns an
    [outcome]: a value, a returned [error], or a run-time panic (nil
    dereference, index out of range, division by zero, explicit panic).  Where
    the code changes its receiver before it returns an error, the definition
    returns the state together with [option goerr].  The current time and
    random numbers are arguments.  Callbacks are numbered, and an operation
    returns the calls it makes, in order.  Log output and trace callbacks are
    left out.  An operation under a mutex is one step; a call that blocks is
    split at its waits, and channels of capacity one are booleans.  Maps are
    [gmap]s; linked lists are modelled with their pointers
    once, and their clients use the list of values the refinement provides.

    Loops are structural recursions over the data they traverse; the few that
    are not (binary search, [sort.Search]; the ring traversal; Newton steps of
    the cube root) carry fuel bounded by the size of the data, and the lemmas
    about them show that it suffices.  Floating point operations round each
    result on its own: the compiler is assumed not to fuse multiplications and
    additions, which holds on amd64.

    ** What the theorems show

    - Wire format: every well-formed frame and every header is read back as it
      was written, in exactly the announced number of bytes; parsers never panic
      on arbitrary input and only return well-formed values.
    - Acknowledgements: received packets are recorded exactly, ACK frames only
      acknowledge received packets; [AcksPacket]'s binary search decides
      membership; an ACK removes exactly the covered packets, declares exactly
      the overdue ones lost, and every frame sent is reported acknowledged or
      lost exactly once; packet numbers are never reused.
    - Congestion control: the window stays within its bounds, is cut once per
      round trip, PRR's test is the formula of RFC 6937.
    - Flow control: connection counters are the sums of what the streams received,
      read, gave up and sent, and never exceed what was granted; every error branch.
    - Reassembly: reads return a prefix of the stream; absent the replacement of
      a queued frame by a longer one, all received data becomes readable.
    - Streams: the frames of a sending stream always tile the bytes written;
      reading returns a prefix of the peer's stream; completion is reported
      exactly once; no wake-up of a blocked [Write] or [Read] is lost; the maps
      of streams implement their abstract state, and the only panics are those of
      closing the incoming map twice or using it after it was closed.
    - Packets are filled without overflow, streams in turn; frames queued for
      retransmission keep their order and none is lost.
    - Handshake messages reach TLS whole, in order and once, whatever order
      their frames arrive in; post-handshake writes end.
    - Transport parameters: round trip, and the exact set of accepted data.
    - Packets: what was packed and sealed at any level is what the peer unpacks;
      after the handshake packing never fails and loses no frame; the first packet
      of a client carries the start of its handshake; endpoints that update their
      keys stay in step.
    - The connection is closed once and leaves the packet handlers once, whoever
      closes it; packets that cannot be processed change nothing, except that those
      that came before their keys are kept for later; buffers in use are not put
      back; a turn of sending ends, with the modelled sent packet handler, whatever
      packer it sends with that returns; closed sessions answer less and less.
    - Endpoints: tokens and Retry packets validate exactly the address they were
      made for, within the documented five seconds of a Retry and not after ten,
      which is the limit of the code; stateless resets reach the session they are for and are not
      answered; version negotiation ends in a version both sides know; the token
      store is a bounded cache of bounded stacks.
    - The goroutines of a handshake end and leave no call waiting, for TLS that
      behaves or fails, within the capacity of the channel of messages; a timer
      reports each deadline once; the sending goroutine writes packets in order.
    - HTTP/3: requests and responses arrive as they were made, whatever the sizes of
      reads and writes; a round tripper keeps one connection per host.
    - qperf: the end of a request releases exactly the requests that waited for it,
      where the identifiers are the positions in the list; the client accepts the
      responses the server makes for distinct, non-empty resources numbered below 256;
      the averages of the report are exact.
    - Behaviour the comments do not describe is stated as theorems on concrete
      runs (the loss alarm, ACK frames without ranges, oversized ACK frames,
      replaced frames in the sorter, streams abandoned twice, lost wake-ups of
      [AcceptStream] and [OpenStreamSync], delays that wrap around, a ClientHello
      that is too long for its packet, a handshake blocked by a flood of messages or
      closed during an alert, responses lost by closing a body, a scheduler that
      waits for itself).

    ** Not modelled

    The cryptographic primitives, TLS, QPACK and the parsing of URLs (external
    packages, classes or arguments here), the constructors that wire a connection
    together and its TLS configurations, sockets and the Listen, Dial and
    ListenAndServe functions that open them, decompression and contexts of HTTP/3,
    the encoding of traces, logging, qperf's command line and JSON files, and the
    examples and tools of the tests.

    Of the class of components of [Session] only the sent packet handler is
    instantiated with the component modelled here, in [SessionSend]: the other
    theorems of the session hold for every implementation, and those of the
    components for every caller. *)

From stdpp Require Export base option list numbers gmap strings.
From Stdlib Require Export ZArith Lia Bool.
From Stdlib Require Import Zbitwise.

#[global] Open Scope Z_scope.
#[export] Set Warnings "-clear-no-such-hyp".

(** * Go values *)

(** Go errors.  [Errorf f args] stands for [errors.New f] and
    [fmt.Errorf f args...] with its numeric arguments kept unformatted;
    [QuicError code msg] is [qerr.Error code msg.Error()] and [ApplicationError]
    alike.  The next four are
    the error types of the streams: [errDeadline], [streamCanceledError],
    [streamError], [streamOpenErr]; the last is the error of a
    cancelled context. *)
Inductive goerr :=
  | EOF
  | UnexpectedEOF
  | Errorf (format : string) (args : list Z)
  | QuicError (code : Z) (msg : goerr)
  | ApplicationError (code : Z) (msg : goerr)
  | DeadlineError
  | StreamCanceledError (errorCode : Z) (e : goerr)
  | StreamNumError (message : string) (nums : list Z)
  | StreamOpenErr (e : goerr)
  | ContextErr.

#[export] Instance goerr_eq_dec : EqDecision goerr.
Proof. unfold EqDecision, Decision. fix go 1; intros x y; decide equality; solve_decision. Defined.

(** The outcome of a fallible computation: a value, a returned [error], or a
    Go run-time panic. *)
Inductive outcome (A : Type) :=
  | Ok (a : A)
  | Err (e : goerr)
  | Panic (msg : string).
Arguments Ok {A} a.
Arguments Err {A} e.
Arguments Panic {A} msg.

#[export] Instance outcome_ret : MRet outcome := @Ok.
#[export] Instance outcome_bind : MBind outcome := λ A B f m,
  match m with Ok a => f a | Err e => Err e | Panic s => Panic s end.

Definition is_ok {A} (m : outcome A) : bool :=
  match m with Ok _ => true | _ => false end.

(** * Machine integers *)

Definition u8 (z : Z) : Z := z mod 2 ^ 8.
Definition u16 (z : Z) : Z := z mod 2 ^ 16.
Definition u32 (z : Z) : Z := z mod 2 ^ 32.
Definition u64 (z : Z) : Z := z mod 2 ^ 64.
Definition i32 (z : Z) : Z := (z + 2 ^ 31) mod 2 ^ 32 - 2 ^ 31.
Definition i64 (z : Z) : Z := (z + 2 ^ 63) mod 2 ^ 64 - 2 ^ 63.

Lemma u8_small z : 0 <= z < 2 ^ 8 → u8 z = z.
Proof. apply Z.mod_small. Qed.
Lemma u16_small z : 0 <= z < 2 ^ 16 → u16 z = z.
Proof. apply Z.mod_small. Qed.
Lemma u32_small z : 0 <= z < 2 ^ 32 → u32 z = z.
Proof. apply Z.mod_small. Qed.
Lemma u64_small z : 0 <= z < 2 ^ 64 → u64 z = z.
Proof. apply Z.mod_small. Qed.
Lemma i32_small z : - 2 ^ 31 <= z < 2 ^ 31 → i32 z = z.
Proof. intros. unfold i32. rewrite Z.mod_small; lia. Qed.
Lemma i64_small z : - 2 ^ 63 <= z < 2 ^ 63 → i64 z = z.
Proof. intros. unfold i64. rewrite Z.mod_small; lia. Qed.

Lemma u8_range z : 0 <= u8 z < 2 ^ 8.
Proof. apply Z.mod_pos_bound; lia. Qed.
Lemma u64_range z : 0 <= u64 z < 2 ^ 64.
Proof. apply Z.mod_pos_bound; lia. Qed.
Lemma i64_range z : - 2 ^ 63 <= i64 z < 2 ^ 63.
Proof. unfold i64. pose proof (Z.mod_pos_bound (z + 2 ^ 63) (2 ^ 64) ltac:(lia)). lia. Qed.
Lemma u64_sub_wrap a b : 0 <= a < b → b < 2 ^ 64 → u64 (a - b) = a - b + 2 ^ 64.
Proof.
  intros. unfold u64. replace (a - b) with (a - b + 2 ^ 64 + (-1) * 2 ^ 64) by lia.
  rewrite Z.mod_add by lia. rewrite Z.mod_small; lia.
Qed.

(** [unwrap] removes every wrap-around whose argument is provably in range. *)
Ltac unwrap_step :=
  match goal with
  | |- context [u8 ?z] => rewrite (u8_small z) by lia
  | |- context [u16 ?z] => rewrite (u16_small z) by lia
  | |- context [u32 ?z] => rewrite (u32_small z) by lia
  | |- context [u64 ?z] => rewrite (u64_small z) by lia
  | |- context [i32 ?z] => rewrite (i32_small z) by lia
  | |- context [i64 ?z] => rewrite (i64_small z) by lia
  end.
Ltac unwrap := repeat unwrap_step.
Ltac unwrap_in_step H :=
  match type of H with
  | context [u8 ?z] => rewrite (u8_small z) in H by lia
  | context [u16 ?z] => rewrite (u16_small z) in H by lia
  | context [u32 ?z] => rewrite (u32_small z) in H by lia
  | context [u64 ?z] => rewrite (u64_small z) in H by lia
  | context [i32 ?z] => rewrite (i32_small z) in H by lia
  | context [i64 ?z] => rewrite (i64_small z) in H by lia
  end.
Tactic Notation "unwrap" "in" hyp(H) := repeat unwrap_in_step H.

(** [zcases] splits every boolean integer comparison in sight. *)
Ltac zcase_step :=
  match goal with
  | |- context [Z.eqb ?a ?b] => destruct (Z.eqb_spec a b)
  | |- context [Z.ltb ?a ?b] => destruct (Z.ltb_spec a b)
  | |- context [Z.leb ?a ?b] => destruct (Z.leb_spec a b)
  | H : context [Z.eqb ?a ?b] |- _ => destruct (Z.eqb_spec a b)
  | H : context [Z.ltb ?a ?b] |- _ => destruct (Z.ltb_spec a b)
  | H : context [Z.leb ?a ?b] |- _ => destruct (Z.leb_spec a b)
  end.
Ltac zcases := repeat (zcase_step; simpl in * ).

(** * Bytes, readers and writers *)

(** A byte is an integer below 256; a byte slice is a list of them. *)
Definition byte_ok (b : Z) : Prop := 0 <= b < 256.
Definition bytes_ok (l : list Z) : Prop := Forall byte_ok l.
(** Go's [len] on a slice. *)
Definition len {A} (l : list A) : Z := Z.of_nat (length l).

(** A parser consumes a prefix of the bytes a [*bytes.Reader] still holds. *)
Definition parser (A : Type) : Type := list Z → outcome (A * list Z).
#[export] Instance parser_ret : MRet parser := λ A a r, Ok (a, r).
#[export] Instance parser_bind : MBind parser := λ A B f p r,
  match p r with Ok (a, r') => f a r' | Err e => Err e | Panic s => Panic s end.

Definition fail {A} (e : goerr) : parser A := λ _, Err e.
(** [r.ReadByte()] *)
Definition ReadByte : parser Z := λ r,
  match r with [] => Err EOF | b :: r' => Ok (b, r') end.
(** [r.Len()] *)
Definition ReaderLen : parser Z := λ r, Ok (len r, r).
(** [io.ReadFull(r, buf)] for a buffer of [n] bytes *)
Definition ReadFull (n : Z) : parser (list Z) := λ r,
  if n =? 0 then Ok ([], r)
  else match r with
       | [] => Err EOF
       | _ => if len r <? n then Err UnexpectedEOF
              else Ok (take (Z.to_nat n) r, drop (Z.to_nat n) r)
       end.

(** A writer appends to a [*bytes.Buffer]; what was written before an error is
    kept in the buffer. *)
Definition writer : Type := list Z → list Z * outcome unit.
Definition wdone : writer := λ b, (b, Ok ()).
Definition wthen (w1 w2 : writer) : writer := λ b,
  match w1 b with (b', Ok _) => w2 b' | r => r end.
Definition wfail (e : goerr) : writer := λ b, (b, Err e).
Definition wpanic (s : string) : writer := λ b, (b, Panic s).
(** [b.Write(p)], [b.WriteByte(c)] *)
Definition WriteBytes (p : list Z) : writer := λ b, (b ++ p, Ok ()).
Definition WriteByte (c : Z) : writer := WriteBytes [c].

Declare Scope go_scope.
Delimit Scope go_scope with go.
Infix ">>>" := wthen (at level 60, right associativity) : go_scope.
#[global] Open Scope go_scope.

(** [emits w p]: [w] succeeds and appends exactly [p]. *)
Definition emits (w : writer) (p : list Z) : Prop := ∀ b, w b = (b ++ p, Ok ()).
(** The buffer after a writer that succeeds. *)
Definition run_writer (w : writer) (b : list Z) : outcome (list Z) :=
  match w b with (b', Ok _) => Ok b' | (_, Err e) => Err e | (_, Panic m) => Panic m end.
Lemma run_writer_emits w p b : emits w p → run_writer w b = Ok (b ++ p).
Proof. intros Hw. unfold run_writer. by rewrite Hw. Qed.
(** [reads p s a]: on any input starting with [s], [p] consumes [s] and returns [a]. *)
Definition reads {A} (p : parser A) (s : list Z) (a : A) : Prop :=
  ∀ rest, p (s ++ rest) = Ok (a, rest).

Create HintDb wire.

Lemma emits_done : emits wdone [].
Proof. intros b. by rewrite app_nil_r. Qed.
Lemma emits_bytes p : emits (WriteBytes p) p.
Proof. done. Qed.
Lemma emits_byte c : emits (WriteByte c) [c].
Proof. done. Qed.
Lemma emits_then w1 w2 p1 p2 : emits w1 p1 → emits w2 p2 → emits (w1 >>> w2) (p1 ++ p2).
Proof. intros H1 H2 b. unfold wthen. by rewrite H1, H2, app_assoc. Qed.

Lemma reads_ret {A} (a : A) : reads (mret a) [] a.
Proof. done. Qed.
Lemma reads_bind {A B} (p : parser A) (f : A → parser B) s1 s2 a b :
  reads p s1 a → reads (f a) s2 b → reads (p ≫= f) (s1 ++ s2) b.
Proof.
  intros H1 H2 rest. rewrite <- app_assoc.
  unfold mbind, parser_bind. rewrite H1. apply H2.
Qed.
(** The last step of a parser is a [bind] that consumes nothing more. *)
Lemma reads_map {A B} (p : parser A) (f : A → parser B) s a b :
  reads p s a → reads (f a) [] b → reads (p ≫= f) s b.
Proof. intros H1 H2. rewrite <- (app_nil_r s). by eapply reads_bind. Qed.
Lemma reads_ReadByte c : reads ReadByte [c] c.
Proof. done. Qed.
Lemma reads_ReadFull l : reads (ReadFull (len l)) l l.
Proof.
  intros rest. unfold ReadFull. destruct (Z.eqb_spec (len l) 0) as [E|E].
  - destruct l; [done|]. unfold len in E; simpl in E; lia.
  - remember (l ++ rest) as k eqn:Hk. destruct k as [|c k].
    { destruct l; [done|discriminate]. }
    rewrite Hk. destruct (Z.ltb_spec (len (l ++ rest)) (len l)) as [L|L].
    { unfold len in L. rewrite length_app in L. lia. }
    unfold len. by rewrite Nat2Z.id, take_app_length, drop_app_length.
Qed.

(** [yields p P]: on a byte slice, [p] consumes a prefix and returns a value in [P]. *)
Definition yields {A} (p : parser A) (P : A → Prop) : Prop :=
  ∀ r a rest, bytes_ok r → p r = Ok (a, rest) → (∃ k, r = k ++ rest) ∧ P a.
Lemma yields_ret {A} (a : A) (P : A → Prop) : P a → yields (mret a) P.
Proof. intros Ha r b rest _ [= <- <-]. split; [by exists []|done]. Qed.
Lemma yields_fail {A} e (P : A → Prop) : yields (fail e) P.
Proof. intros r a rest _ [=]. Qed.
Lemma yields_bind {A B} (p : parser A) (f : A → parser B) (P : A → Prop) (Q : B → Prop) :
  yields p P → (∀ a, P a → yields (f a) Q) → yields (p ≫= f) Q.
Proof.
  intros Hp Hf r b rest Hr. unfold mbind, parser_bind.
  destruct (p r) as [[a r']| |] eqn:E; intros Hb; try discriminate.
  apply Hp in E as [[k ->] Ha]; [|done]. apply Forall_app in Hr as [Hk Hr'].
  apply (Hf a Ha) in Hb as [[k' ->] Hb]; [|done].
  split; [exists (k ++ k'); by rewrite app_assoc|done].
Qed.
Lemma yields_weaken {A} (p : parser A) (P Q : A → Prop) :
  yields p P → (∀ a, P a → Q a) → yields p Q.
Proof. intros Hp HPQ r a rest Hr E. destruct (Hp r a rest Hr E). eauto. Qed.
Lemma yields_ReadByte : yields ReadByte byte_ok.
Proof.
  intros [|c r] b rest Hr; [discriminate|]. intros [= <- <-].
  apply Forall_cons in Hr as [??]. split; [by exists [c]|done].
Qed.
Lemma yields_ReaderLen : yields ReaderLen (λ n, 0 <= n).
Proof. intros r n rest Hr [= <- <-]. split; [by exists []|unfold len; lia]. Qed.
Lemma yields_ReadFull n : 0 <= n → yields (ReadFull n) (λ l, bytes_ok l ∧ len l = n).
Proof.
  intros Hn r l rest Hr. unfold ReadFull. destruct (Z.eqb_spec n 0) as [->|].
  { intros [= <- <-]. split; [by exists []|]. split; [constructor|done]. }
  destruct r as [|c r]; [discriminate|].
  destruct (Z.ltb_spec (len (c :: r)) n) as [|L]; [discriminate|].
  intros [= <- <-]. rewrite <- (take_drop (Z.to_nat n) (c :: r)) in Hr.
  apply Forall_app in Hr as [Ht _].
  split; [eexists; symmetry; apply take_drop|]. split; [done|].
  unfold len in *. rewrite length_take. lia.
Qed.

(** [safe p]: [p] never panics and never un-reads input. *)
Definition safe {A} (p : parser A) : Prop := ∀ r,
  match p r with Ok (_, r') => (length r' <= length r)%nat | Err _ => True | Panic _ => False end.
Lemma safe_ret {A} (a : A) : safe (mret a).
Proof. intros r. simpl. lia. Qed.
Lemma safe_fail {A} e : safe (@fail A e).
Proof. done. Qed.
Lemma safe_bind {A B} (p : parser A) (f : A → parser B) :
  safe p → (∀ a, safe (f a)) → safe (p ≫= f).
Proof.
  intros Hp Hf r. unfold mbind, parser_bind. specialize (Hp r).
  destruct (p r) as [[a r']| |]; [|done..]. specialize (Hf a r').
  destruct (f a r') as [[b r'']| |]; [lia|done..].
Qed.
Lemma safe_ReadByte : safe ReadByte.
Proof. intros [|c r]; simpl; [done|lia]. Qed.
Lemma safe_ReaderLen : safe ReaderLen.
Proof. intros r. simpl. lia. Qed.
Lemma safe_ReadFull n : safe (ReadFull n).
Proof.
  intros r. unfold ReadFull. destruct (n =? 0); [lia|]. destruct r as [|c r]; [done|].
  destruct (_ <? _); [done|]. rewrite length_drop. lia.
Qed.

(** A parser that reads at least one byte when it succeeds. *)
Definition consumes {A} (p : parser A) : Prop :=
  ∀ r a r', p r = Ok (a, r') → (length r' < length r)%nat.
Lemma consumes_first {A} (k : Z → parser A) : (∀ c, safe (k c)) → consumes (ReadByte ≫= k).
Proof.
  intros Hk [|c r] a r' E; [discriminate|]. unfold mbind, parser_bind in E. simpl in E.
  specialize (Hk c r). rewrite E in Hk. simpl. lia.
Qed.
Lemma consumes_bind {A B} (p : parser A) (k : A → parser B) :
  consumes p → (∀ a, safe (k a)) → consumes (p ≫= k).
Proof.
  intros Hp Hk r b r' E. unfold mbind, parser_bind in E. destruct (p r) as [[a s]| |] eqn:Ep; try discriminate.
  apply Hp in Ep. specialize (Hk a s). rewrite E in Hk. lia.
Qed.
(** [exact_reads p]: a successful run depends only on the bytes it consumes. *)
Definition exact_reads {A} (p : parser A) : Prop :=
  ∀ r a rest, p r = Ok (a, rest) → ∃ k, r = k ++ rest ∧ reads p k a.
Lemma exact_ret {A} (a : A) : exact_reads (mret a).
Proof. intros r b rest [= <- <-]. by exists []. Qed.
Lemma exact_fail {A} e : exact_reads (@fail A e).
Proof. intros r b rest [=]. Qed.
Lemma exact_ReadByte : exact_reads ReadByte.
Proof. intros [|c r] b rest [=]; subst. by exists [b]. Qed.
Lemma exact_bind {A B} (p : parser A) (f : A → parser B) :
  exact_reads p → (∀ a, exact_reads (f a)) → exact_reads (p ≫= f).
Proof.
  intros Hp Hf r b rest. unfold mbind at 1, parser_bind at 1. destruct (p r) as [[a r1]| |] eqn:Ep; [|intros [=]..].
  intros E. apply Hp in Ep as (k & -> & Hk). apply Hf in E as (k' & -> & Hk').
  exists (k ++ k'). rewrite app_assoc. split; [done|]. by eapply reads_bind.
Qed.
(** What a successful [bind] says of its parts. *)
Lemma parser_bind_Ok {A B} (p : parser A) (f : A → parser B) r b r' :
  (p ≫= f) r = Ok (b, r') → ∃ a r1, p r = Ok (a, r1) ∧ f a r1 = Ok (b, r').
Proof. unfold mbind, parser_bind. destruct (p r) as [[a r1]| |]; intros [=]; eauto. Qed.

Create HintDb safe.
#[export] Hint Resolve safe_ret safe_fail safe_bind safe_ReadByte safe_ReaderLen safe_ReadFull : safe.
(** Discharges [safe] goals through binds, conditionals and the hints. *)
Ltac solve_safe :=
  repeat first
    [ solve [eauto with safe]
    | progress intros
    | apply safe_bind
    | match goal with |- safe (if ?b then _ else _) => destruct b end
    | match goal with |- safe (match ?b with _ => _ end) => destruct b end
    | progress cbv zeta ].

#[export] Hint Resolve yields_ReadByte yields_ReaderLen yields_fail : wire.
#[export] Hint Resolve emits_done emits_bytes emits_byte emits_then
  reads_ret reads_ReadByte reads_ReadFull : wire.

Lemma len_nonneg {A} (l : list A) : 0 <= len l.
Proof. unfold len. lia. Qed.
Lemma len_app {A} (l k : list A) : len (l ++ k) = len l + len k.
Proof. unfold len. rewrite length_app. lia. Qed.
Lemma len_cons {A} (a : A) l : len (a :: l) = 1 + len l.
Proof. unfold len. simpl length. lia. Qed.
Lemma len_nil {A} : len (@nil A) = 0.
Proof. done. Qed.
Create Rewrite HintDb len.
#[export] Hint Rewrite @len_app @len_cons @len_nil : len.

(** * Exhaustive checks over small ranges *)

Fixpoint forall_below (n : nat) (P : Z → bool) : bool :=
  match n with O => true | S m => P (Z.of_nat m) && forall_below m P end.
Lemma forall_below_spec n P :
  forall_below n P = true → ∀ z, 0 <= z < Z.of_nat n → P z = true.
Proof.
  induction n as [|n IH]; simpl; intros H z Hz; [lia|].
  apply andb_true_iff in H as [H1 H2].
  destruct (decide (z = Z.of_nat n)) as [->|]; [done|]. apply IH; [done|lia].
Qed.
(** A decidable statement about [0 <= z < n], by running it. *)
Lemma forall_below_bool n (P : Z → Prop) `{∀ z, Decision (P z)} :
  forall_below n (λ z, bool_decide (P z)) = true → ∀ z, 0 <= z < Z.of_nat n → P z.
Proof. intros Hb z Hz. apply (bool_decide_unpack _). rewrite (forall_below_spec _ _ Hb z Hz). done. Qed.
