(* ===== verification/Utils.v ===== *)
(** Utils: package core/utils.  The QUIC variable-length integers (varint.go),
    the big-endian fixed-width integers (byteorder_big_endian.go) and the
    min/max helpers (minmax.go), with the encode/decode round trips the wire
    format is built on. *)

From S2P Require Import Prelude.

(** * varint.go *)

Definition maxVarInt1 : Z := 63.
Definition maxVarInt2 : Z := 16383.
Definition maxVarInt4 : Z := 1073741823.
Definition maxVarInt8 : Z := 4611686018427387903.

(** [byte_at i k] is Go's [uint8(i >> k)]. *)
Definition byte_at (i k : Z) : Z := u8 (Z.shiftr i k).

Definition ReadVarInt : parser Z :=
  firstByte ← ReadByte;
  let n := Z.shiftl 1 (Z.shiftr (Z.land firstByte 0xc0) 6) in
  let b1 := Z.land firstByte (0xff - 0xc0) in
  if n =? 1 then mret b1 else
  b2 ← ReadByte;
  if n =? 2 then mret (u64 (b2 + u64 (Z.shiftl b1 8))) else
  b3 ← ReadByte;
  b4 ← ReadByte;
  if n =? 4 then
    mret (u64 (b4 + u64 (Z.shiftl b3 8) + u64 (Z.shiftl b2 16) + u64 (Z.shiftl b1 24)))
  else
  b5 ← ReadByte;
  b6 ← ReadByte;
  b7 ← ReadByte;
  b8 ← ReadByte;
  mret (u64 (b8 + u64 (Z.shiftl b7 8) + u64 (Z.shiftl b6 16) + u64 (Z.shiftl b5 24)
        + u64 (Z.shiftl b4 32) + u64 (Z.shiftl b3 40) + u64 (Z.shiftl b2 48)
        + u64 (Z.shiftl b1 56))).

Definition WriteVarInt (i : Z) : writer :=
  if i <=? maxVarInt1 then WriteByte (u8 i)
  else if i <=? maxVarInt2 then
    WriteBytes [Z.lor (byte_at i 8) 0x40; u8 i]
  else if i <=? maxVarInt4 then
    WriteBytes [Z.lor (byte_at i 24) 0x80; byte_at i 16; byte_at i 8; u8 i]
  else if i <=? maxVarInt8 then
    WriteBytes [Z.lor (byte_at i 56) 0xc0; byte_at i 48; byte_at i 40; byte_at i 32;
                byte_at i 24; byte_at i 16; byte_at i 8; u8 i]
  else wpanic "doesn't fit into 62 bits".

Definition VarIntLen (i : Z) : outcome Z :=
  if i <=? maxVarInt1 then Ok 1
  else if i <=? maxVarInt2 then Ok 2
  else if i <=? maxVarInt4 then Ok 4
  else if i <=? maxVarInt8 then Ok 8
  else Panic "value doesn't fit into 62 bits: ".

(** * byteorder_big_endian.go *)

(** The loop of [ReadUintN]; [i] counts up to [length], [res] accumulates.  The
    shift count is a [uint8], so it wraps. *)
Fixpoint ReadUintN_loop (todo : nat) (i length res : Z) : parser Z :=
  match todo with
  | O => mret res
  | S todo =>
      bt ← ReadByte;
      ReadUintN_loop todo (i + 1) length
        (Z.lxor res (u64 (Z.shiftl bt (u8 (u8 (length - 1 - i) * 8)))))
  end.
Definition ReadUintN (length : Z) : parser Z := ReadUintN_loop (Z.to_nat length) 0 length 0.

Definition ReadUint32 : parser Z :=
  b4 ← ReadByte; b3 ← ReadByte; b2 ← ReadByte; b1 ← ReadByte;
  mret (u32 (b1 + u32 (Z.shiftl b2 8) + u32 (Z.shiftl b3 16) + u32 (Z.shiftl b4 24))).
Definition ReadUint24 : parser Z :=
  b3 ← ReadByte; b2 ← ReadByte; b1 ← ReadByte;
  mret (u32 (b1 + u32 (Z.shiftl b2 8) + u32 (Z.shiftl b3 16))).
Definition ReadUint16 : parser Z :=
  b2 ← ReadByte; b1 ← ReadByte;
  mret (u16 (b1 + u16 (Z.shiftl b2 8))).

Definition WriteUint32 (i : Z) : writer :=
  WriteBytes [byte_at i 24; byte_at i 16; byte_at i 8; u8 i].
Definition WriteUint24 (i : Z) : writer :=
  WriteBytes [byte_at i 16; byte_at i 8; u8 i].
Definition WriteUint16 (i : Z) : writer :=
  WriteBytes [byte_at i 8; u8 i].

(** * minmax.go *)

Definition InfDuration : Z := 2 ^ 63 - 1.
Definition Max (a b : Z) : Z := if a <? b then b else a.
Definition MaxUint32 (a b : Z) : Z := if a <? b then b else a.
Definition MaxUint64 (a b : Z) : Z := if a <? b then b else a.
Definition MinUint64 (a b : Z) : Z := if a <? b then a else b.
Definition Min (a b : Z) : Z := if a <? b then a else b.
Definition MinUint32 (a b : Z) : Z := if a <? b then a else b.
Definition MinInt64 (a b : Z) : Z := if a <? b then a else b.
Definition MaxInt64 (a b : Z) : Z := if b <? a then a else b.
Definition MinByteCount (a b : Z) : Z := if a <? b then a else b.
Definition MaxByteCount_of (a b : Z) : Z := if a <? b then b else a.
Definition MaxDuration (a b : Z) : Z := if b <? a then a else b.
Definition MinDuration (a b : Z) : Z := if b <? a then b else a.
Definition AbsDuration (d : Z) : Z := if 0 <=? d then d else i64 (- d).
Definition MaxPacketNumber (a b : Z) : Z := if b <? a then a else b.
Definition MinPacketNumber (a b : Z) : Z := if a <? b then a else b.

(** [time.Time]: nanoseconds, with [0] for the zero time. *)
Definition time_zero : Z := 0.
Definition IsZero (t : Z) : bool := t =? time_zero.
Definition Before (a b : Z) : bool := a <? b.
Definition After (a b : Z) : bool := b <? a.
Definition MinTime (a b : Z) : Z := if After a b then b else a.
Definition MinNonZeroTime (a b : Z) : Z :=
  if IsZero a then b else if IsZero b then a else MinTime a b.
Definition MaxTime (a b : Z) : Z := if After a b then a else b.
(** [t.Add(d)] and [a.Sub(b)], which saturates at the largest durations. *)
Definition time_Add (t d : Z) : Z := t + d.
Definition time_Sub (a b : Z) : Z := Z.max (- 2 ^ 63) (Z.min (2 ^ 63 - 1) (a - b)).

(** * Facts about varints *)

(** The canonical encoding: what [WriteVarInt] appends. *)
Definition varint (i : Z) : list Z := fst (WriteVarInt i []).

Lemma emits_WriteVarInt i : i <= maxVarInt8 → emits (WriteVarInt i) (varint i).
Proof.
  intros Hi b. unfold varint, WriteVarInt. zcases; try done. lia.
Qed.

(** The first byte of a varint carries the length class in its two top bits. *)
Lemma varint_first_byte k a :
  0 <= k < 4 → 0 <= a < 64 →
  Z.shiftl 1 (Z.shiftr (Z.land (Z.lor a (k * 64)) 0xc0) 6) = 2 ^ k ∧
  Z.land (Z.lor a (k * 64)) (0xff - 0xc0) = a.
Proof.
  intros Hk Ha.
  assert (∀ z, 0 <= z < Z.of_nat 256 →
    Z.shiftl 1 (Z.shiftr (Z.land (Z.lor (z mod 64) (z / 64 * 64)) 0xc0) 6) = 2 ^ (z / 64) ∧
    Z.land (Z.lor (z mod 64) (z / 64 * 64)) (0xff - 0xc0) = z mod 64) as H.
  { apply (forall_below_bool 256 (λ z,
      Z.shiftl 1 (Z.shiftr (Z.land (Z.lor (z mod 64) (z / 64 * 64)) 0xc0) 6) = 2 ^ (z / 64) ∧
      Z.land (Z.lor (z mod 64) (z / 64 * 64)) (0xff - 0xc0) = z mod 64)).
    vm_compute. reflexivity. }
  specialize (H (a + k * 64) ltac:(lia)).
  rewrite Z.div_add, Z.div_small in H by lia.
  rewrite Z.mod_add, Z.mod_small in H by lia. exact H.
Qed.

Lemma byte_at_div i k : 0 <= k → byte_at i k = (i / 2 ^ k) mod 256.
Proof. intros. unfold byte_at, u8. by rewrite Z.shiftr_div_pow2. Qed.
Lemma byte_at_range i k : 0 <= byte_at i k < 256.
Proof. apply u8_range. Qed.
Lemma byte_at_top i k : 0 <= k → 0 <= i < 2 ^ k * 64 → 0 <= byte_at i k < 64.
Proof.
  intros. rewrite byte_at_div by done.
  assert (0 < 2 ^ k) by (apply Z.pow_pos_nonneg; lia).
  assert (0 <= i / 2 ^ k < 64) by (split; [apply Z.div_pos|apply Z.div_lt_upper_bound]; lia).
  rewrite Z.mod_small; lia.
Qed.

(** Reassembling an integer from its bytes. *)
Lemma byte_split i k k' :
  0 <= k → k' = k + 8 → i / 2 ^ k = byte_at i k + 256 * (i / 2 ^ k').
Proof.
  intros ? ->. rewrite byte_at_div by done. rewrite Z.pow_add_r by lia.
  rewrite <- Z.div_div by lia. change (2 ^ 8) with 256.
  pose proof (Z.div_mod (i / 2 ^ k) 256 ltac:(lia)). lia.
Qed.
Lemma byte_split0 i : i = u8 i + 256 * (i / 2 ^ 8).
Proof. unfold u8. change (2 ^ 8) with 256. pose proof (Z.div_mod i 256 ltac:(lia)). lia. Qed.

Lemma u8_byte i : 0 <= u8 i < 256.
Proof. apply u8_range. Qed.

(** [bytes i] brings the base-256 digits of [i] into the context. *)
Ltac bytes_of i :=
  pose proof (byte_split0 i); pose proof (u8_byte i);
  pose proof (byte_split i 8 16 ltac:(lia) eq_refl); pose proof (byte_at_range i 8);
  pose proof (byte_split i 16 24 ltac:(lia) eq_refl); pose proof (byte_at_range i 16);
  pose proof (byte_split i 24 32 ltac:(lia) eq_refl); pose proof (byte_at_range i 24);
  pose proof (byte_split i 32 40 ltac:(lia) eq_refl); pose proof (byte_at_range i 32);
  pose proof (byte_split i 40 48 ltac:(lia) eq_refl); pose proof (byte_at_range i 40);
  pose proof (byte_split i 48 56 ltac:(lia) eq_refl); pose proof (byte_at_range i 48);
  pose proof (byte_split i 56 64 ltac:(lia) eq_refl); pose proof (byte_at_range i 56).

Lemma ReadVarInt_first b r :
  ReadVarInt (b :: r) =
  (let n := Z.shiftl 1 (Z.shiftr (Z.land b 0xc0) 6) in
   let b1 := Z.land b (0xff - 0xc0) in
   if n =? 1 then Ok (b1, r) else
   (b2 ← ReadByte;
    if n =? 2 then mret (u64 (b2 + u64 (Z.shiftl b1 8))) else
    b3 ← ReadByte; b4 ← ReadByte;
    if n =? 4 then
      mret (u64 (b4 + u64 (Z.shiftl b3 8) + u64 (Z.shiftl b2 16) + u64 (Z.shiftl b1 24)))
    else
    b5 ← ReadByte; b6 ← ReadByte; b7 ← ReadByte; b8 ← ReadByte;
    mret (u64 (b8 + u64 (Z.shiftl b7 8) + u64 (Z.shiftl b6 16) + u64 (Z.shiftl b5 24)
        + u64 (Z.shiftl b4 32) + u64 (Z.shiftl b3 40) + u64 (Z.shiftl b2 48)
        + u64 (Z.shiftl b1 56)))) r).
Proof. unfold ReadVarInt, mbind at 1, parser_bind at 1, ReadByte at 1. cbv zeta. by destruct (Z.eqb _ 1). Qed.

Ltac shifts := rewrite ?Z.shiftl_mul_pow2 by lia.

(** Runs the byte reads of a parser and turns its shifts into products. *)
Ltac run_reader :=
  cbv beta iota zeta delta [mbind parser_bind ReadByte mret parser_ret Z.eqb Z.pow
    Z.pow_pos Pos.iter Z.mul Pos.mul Pos.eqb];
  shifts; unwrap.

Lemma reads_ReadVarInt i : 0 <= i <= maxVarInt8 → reads ReadVarInt (varint i) i.
Proof.
  intros [H0 Hi] rest. unfold varint, WriteVarInt, maxVarInt1, maxVarInt2, maxVarInt4, maxVarInt8 in *.
  bytes_of i. zcases; [| | | |lia].
  - rewrite ReadVarInt_first. rewrite u8_small by lia.
    destruct (varint_first_byte 0 i) as [E1 E2]; [lia..|].
    rewrite Z.lor_0_r in E1, E2. rewrite E1, E2. done.
  - rewrite ReadVarInt_first.
    assert (i / 2 ^ 16 = 0) by (apply Z.div_small; lia).
    destruct (varint_first_byte 1 (byte_at i 8)) as [E1 E2]; [lia|apply byte_at_top; lia|].
    change (1 * 64) with 0x40 in *. rewrite E1, E2.
    run_reader. do 2 f_equal. lia.
  - rewrite ReadVarInt_first.
    assert (i / 2 ^ 32 = 0) by (apply Z.div_small; lia).
    destruct (varint_first_byte 2 (byte_at i 24)) as [E1 E2]; [lia|apply byte_at_top; lia|].
    change (2 * 64) with 0x80 in *. rewrite E1, E2.
    run_reader. do 2 f_equal. lia.
  - rewrite ReadVarInt_first.
    destruct (varint_first_byte 3 (byte_at i 56)) as [E1 E2]; [lia|apply byte_at_top; lia|].
    change (3 * 64) with 0xc0 in *. rewrite E1, E2.
    assert (i / 2 ^ 64 = 0) by (apply Z.div_small; lia).
    run_reader. do 2 f_equal. lia.
Qed.

Lemma VarIntLen_varint i : i <= maxVarInt8 → VarIntLen i = Ok (len (varint i)).
Proof. intros. unfold VarIntLen, varint, WriteVarInt. zcases; try done. lia. Qed.
Lemma VarIntLen_panics i : maxVarInt8 < i → is_ok (VarIntLen i) = false.
Proof. intros. unfold VarIntLen, maxVarInt1, maxVarInt2, maxVarInt4, maxVarInt8 in *. zcases; lia || done. Qed.
Lemma varint_len i : i <= maxVarInt8 → 1 <= len (varint i) <= 8.
Proof. intros. unfold varint, WriteVarInt. zcases; unfold len; simpl; lia. Qed.
Lemma varint_len_mono i j : 0 <= i <= j → j <= maxVarInt8 → len (varint i) <= len (varint j).
Proof.
  intros. unfold varint, WriteVarInt. zcases; unfold len; simpl; try lia;
  unfold maxVarInt1, maxVarInt2, maxVarInt4 in *; lia.
Qed.
Lemma len_varint_eq i :
  i <= maxVarInt8 →
  len (varint i) =
    (if i <=? maxVarInt1 then 1 else if i <=? maxVarInt2 then 2
     else if i <=? maxVarInt4 then 4 else 8).
Proof. intros. unfold varint, WriteVarInt. zcases; try done. lia. Qed.
Lemma varint_len_small n : 0 <= n < 16384 → len (varint n) = if n <? 64 then 1 else 2.
Proof.
  intros. unfold varint, WriteVarInt, maxVarInt1, maxVarInt2. destruct (Z.ltb_spec n 64).
  - by rewrite (proj2 (Z.leb_le n 63)) by lia.
  - rewrite (proj2 (Z.leb_gt n 63)) by lia. by rewrite (proj2 (Z.leb_le n 16383)) by lia.
Qed.
Lemma lor_byte_ok a k : 0 <= k < 4 → 0 <= a < 64 → byte_ok (Z.lor a (k * 64)).
Proof.
  intros Hk Ha.
  assert (∀ z, 0 <= z < Z.of_nat 256 →
    0 <= Z.lor (z mod 64) (z / 64 * 64) < 256) as H.
  { apply (forall_below_bool 256 (λ z, 0 <= Z.lor (z mod 64) (z / 64 * 64) < 256)).
    vm_compute. reflexivity. }
  specialize (H (a + k * 64) ltac:(lia)).
  rewrite Z.div_add, Z.div_small, Z.mod_add, Z.mod_small in H by lia. exact H.
Qed.
Lemma varint_bytes_ok i : 0 <= i → bytes_ok (varint i).
Proof.
  intros. unfold varint, WriteVarInt, maxVarInt1, maxVarInt2, maxVarInt4, maxVarInt8, bytes_ok.
  zcases; repeat (apply Forall_cons; split); try apply Forall_nil; try done;
    try apply u8_range; try apply byte_at_range.
  - apply (lor_byte_ok _ 1); [lia|apply byte_at_top; lia].
  - apply (lor_byte_ok _ 2); [lia|apply byte_at_top; lia].
  - apply (lor_byte_ok _ 3); [lia|apply byte_at_top; lia].
Qed.

Lemma varint_low_bits b : byte_ok b → 0 <= Z.land b (0xff - 0xc0) < 64.
Proof.
  apply (forall_below_bool 256 (λ b, 0 <= Z.land b (0xff - 0xc0) < 64)).
  vm_compute. reflexivity.
Qed.

Lemma yields_ReadVarInt : yields ReadVarInt (λ v, 0 <= v <= maxVarInt8).
Proof.
  unfold ReadVarInt, maxVarInt8.
  eapply yields_bind; [apply yields_ReadByte|]. intros b Hb.
  pose proof (varint_low_bits b Hb). cbv zeta.
  destruct (Z.eqb _ 1); [apply yields_ret; lia|].
  eapply yields_bind; [apply yields_ReadByte|]. unfold byte_ok. intros b2 Hb2.
  destruct (Z.eqb _ 2); [apply yields_ret; shifts; unwrap; lia|].
  do 2 (eapply yields_bind; [apply yields_ReadByte|]; unfold byte_ok; intros ? ?).
  destruct (Z.eqb _ 4); [apply yields_ret; shifts; unwrap; lia|].
  do 4 (eapply yields_bind; [apply yields_ReadByte|]; unfold byte_ok; intros ? ?).
  apply yields_ret. shifts. unwrap. lia.
Qed.

(** * Facts about fixed-width integers *)

Lemma reads_Uint32 i : 0 <= i < 2 ^ 32 → reads ReadUint32 [byte_at i 24; byte_at i 16; byte_at i 8; u8 i] i.
Proof.
  intros Hi rest. bytes_of i. assert (i / 2 ^ 32 = 0) by (apply Z.div_small; lia).
  unfold ReadUint32. simpl app. run_reader. do 2 f_equal. lia.
Qed.
Lemma reads_Uint24 i : 0 <= i < 2 ^ 24 → reads ReadUint24 [byte_at i 16; byte_at i 8; u8 i] i.
Proof.
  intros Hi rest. bytes_of i. assert (i / 2 ^ 24 = 0) by (apply Z.div_small; lia).
  unfold ReadUint24. simpl app. run_reader. do 2 f_equal. lia.
Qed.
Lemma reads_Uint16 i : 0 <= i < 2 ^ 16 → reads ReadUint16 [byte_at i 8; u8 i] i.
Proof.
  intros Hi rest. bytes_of i. assert (i / 2 ^ 16 = 0) by (apply Z.div_small; lia).
  unfold ReadUint16. simpl app. run_reader. do 2 f_equal. lia.
Qed.
Lemma emits_Uint32 i : emits (WriteUint32 i) [byte_at i 24; byte_at i 16; byte_at i 8; u8 i].
Proof. done. Qed.
Lemma emits_Uint24 i : emits (WriteUint24 i) [byte_at i 16; byte_at i 8; u8 i].
Proof. done. Qed.
Lemma emits_Uint16 i : emits (WriteUint16 i) [byte_at i 8; u8 i].
Proof. done. Qed.
Lemma yields_ReadUint16 : yields ReadUint16 (λ v, 0 <= v < 2 ^ 16).
Proof.
  unfold ReadUint16.
  do 2 (eapply yields_bind; [apply yields_ReadByte|]; intros ? ?).
  apply yields_ret. unfold u16. apply Z.mod_pos_bound. lia.
Qed.
#[export] Hint Resolve emits_WriteVarInt reads_ReadVarInt yields_ReadVarInt
  reads_Uint32 reads_Uint24 reads_Uint16 emits_Uint32 emits_Uint24 emits_Uint16
  yields_ReadUint16 : wire.

Lemma safe_ReadVarInt : safe ReadVarInt.
Proof. unfold ReadVarInt. solve_safe. Qed.
Lemma ReadVarInt_consumes r v r' : ReadVarInt r = Ok (v, r') → (length r' < length r)%nat.
Proof.
  destruct r as [|b r]; [discriminate|]. rewrite ReadVarInt_first. cbv zeta.
  destruct (Z.eqb _ 1); [intros [= _ <-]; simpl; lia|].
  match goal with |- ?p r = _ → _ =>
    assert (Hs : safe p) by solve_safe; specialize (Hs r); intros E; rewrite E in Hs end.
  simpl. lia.
Qed.
Lemma safe_ReadUint32 : safe ReadUint32.
Proof. unfold ReadUint32. solve_safe. Qed.
Lemma safe_ReadUint24 : safe ReadUint24.
Proof. unfold ReadUint24. solve_safe. Qed.
Lemma safe_ReadUint16 : safe ReadUint16.
Proof. unfold ReadUint16. solve_safe. Qed.
#[export] Hint Resolve safe_ReadVarInt safe_ReadUint32 safe_ReadUint24 safe_ReadUint16 : safe.
