(* ===== verification/Protocol.v ===== *)
(** Protocol: package core/protocol.  Packet number truncation and recovery
    (packet_number.go), stream numbering (stream.go), version negotiation
    helpers (version.go), connection IDs (connection_id.go), and the constants
    of params.go, protocol.go, perspective.go, encryption_level.go and
    key_phase.go. *)

From S2P Require Import Prelude Utils.

(** * protocol.go, params.go *)

Definition MaxByteCount : Z := 2 ^ 62 - 1.
Definition MaxReceivePacketSize : Z := 1452.
Definition DefaultTCPMSS : Z := 1460.
Definition MinConnectionIDLenInitial : Z := 8.
Definition DefaultAckDelayExponent : Z := 3.
Definition MaxConnIDLen : Z := 20.

Definition Microsecond : Z := 1000.
Definition Millisecond : Z := 1000 * Microsecond.
Definition Second : Z := 1000 * Millisecond.

Definition DefaultMaxCongestionWindow : Z := 1000 * DefaultTCPMSS.
Definition InitialCongestionWindow : Z := 32 * DefaultTCPMSS.
Definition SkipPacketAveragePeriodLength : Z := 500.
Definition MaxTrackedSkippedPackets : Z := 10.
Definition MaxOutstandingSentPackets : Z := 2 * 1000.
Definition MaxTrackedSentPackets : Z := MaxOutstandingSentPackets * 5 / 4.
Definition MaxStreamFrameSorterGaps : Z := 1000.
Definition MinStreamFrameBufferSize : Z := 128.
Definition MaxCryptoStreamOffset : Z := 16 * 2 ^ 10.
Definition MinStreamFrameSize : Z := 128.
Definition MaxAckFrameSize : Z := 1000.
Definition MaxNumAckRanges : Z := 500.
Definition MinPacingDelay : Z := 100 * Microsecond.
Definition AckDelayExponent : Z := 3.
Definition TimerGranularity : Z := Millisecond.
Definition MaxAckDelay : Z := 25 * Millisecond.

Inductive PacketType := PacketTypeInitial | PacketTypeRetry | PacketTypeHandshake | PacketType0RTT.
#[export] Instance PacketType_eq_dec : EqDecision PacketType.
Proof. solve_decision. Defined.

(** * encryption_level.go, key_phase.go *)

Inductive EncryptionLevel :=
  | EncryptionUnspecified | EncryptionInitial | EncryptionHandshake | Encryption1RTT.
#[export] Instance EncryptionLevel_eq_dec : EqDecision EncryptionLevel.
Proof. solve_decision. Defined.
Definition EncryptionLevel_String (e : EncryptionLevel) : string :=
  match e with
  | EncryptionInitial => "Initial" | EncryptionHandshake => "Handshake"
  | Encryption1RTT => "1-RTT" | EncryptionUnspecified => "unknown"
  end.

Definition KeyPhase_Bit (p : Z) : bool := p mod 2 =? 1.

(** * perspective.go *)

Inductive Perspective := PerspectiveServer | PerspectiveClient.
#[export] Instance Perspective_eq_dec : EqDecision Perspective.
Proof. solve_decision. Defined.
(** The Go constants are [1] and [2], and [Opposite] is [3 - p]. *)
Definition Perspective_int (p : Perspective) : Z :=
  match p with PerspectiveServer => 1 | PerspectiveClient => 2 end.
Definition Opposite (p : Perspective) : Perspective :=
  if 3 - Perspective_int p =? 1 then PerspectiveServer else PerspectiveClient.

(** * packet_number.go *)

Definition InvalidPacketNumber : Z := -1.

Definition delta (a b : Z) : Z := if a <? b then i64 (b - a) else i64 (a - b).
Definition closestTo (target a b : Z) : Z :=
  if delta target a <? delta target b then a else b.

(** [epochDelta]: for a length outside 1..4 no case matches and it stays 0. *)
Definition epochDelta_of (packetNumberLength : Z) : Z :=
  if packetNumberLength =? 1 then Z.shiftl 1 8
  else if packetNumberLength =? 2 then Z.shiftl 1 16
  else if packetNumberLength =? 3 then Z.shiftl 1 24
  else if packetNumberLength =? 4 then Z.shiftl 1 32
  else 0.

Definition DecodePacketNumber
    (packetNumberLength lastPacketNumber wirePacketNumber : Z) : Z :=
  let epochDelta := epochDelta_of packetNumberLength in
  let epoch := Z.land lastPacketNumber (Z.lnot (i64 (epochDelta - 1))) in
  let prevEpochBegin := if epochDelta <? epoch then i64 (epoch - epochDelta) else 0 in
  let nextEpochBegin := i64 (epoch + epochDelta) in
  closestTo (i64 (lastPacketNumber + 1)) (i64 (epoch + wirePacketNumber))
    (closestTo (i64 (lastPacketNumber + 1)) (i64 (prevEpochBegin + wirePacketNumber))
       (i64 (nextEpochBegin + wirePacketNumber))).

Definition GetPacketNumberLengthForHeader (packetNumber leastUnacked : Z) : Z :=
  let diff := u64 (i64 (packetNumber - leastUnacked)) in
  if diff <? Z.shiftl 1 (16 - 1) then 2
  else if diff <? Z.shiftl 1 (24 - 1) then 3
  else 4.

(** * stream.go *)

Inductive StreamType := StreamTypeUni | StreamTypeBidi.
#[export] Instance StreamType_eq_dec : EqDecision StreamType.
Proof. solve_decision. Defined.

Definition InvalidStreamID : Z := -1.
Definition InvalidStreamNum : Z := -1.
Definition MaxStreamCount : Z := 2 ^ 60.

(** [StreamNum.StreamID(stype, pers)] *)
Definition StreamNum_StreamID (s : Z) (stype : StreamType) (pers : Perspective) : Z :=
  if s =? 0 then InvalidStreamID
  else
    let first := match stype, pers with
      | StreamTypeBidi, PerspectiveClient => 0
      | StreamTypeBidi, PerspectiveServer => 1
      | StreamTypeUni, PerspectiveClient => 2
      | StreamTypeUni, PerspectiveServer => 3
      end in
    i64 (first + i64 (4 * i64 (s - 1))).
(** Go's [%] and [/] on signed integers truncate towards zero. *)
Definition StreamID_InitiatedBy (s : Z) : Perspective :=
  if Z.rem s 2 =? 0 then PerspectiveClient else PerspectiveServer.
Definition StreamID_Type (s : Z) : StreamType :=
  if 2 <=? Z.rem s 4 then StreamTypeUni else StreamTypeBidi.
Definition StreamID_StreamNum (s : Z) : Z := i64 (Z.quot s 4 + 1).

(** * version.go *)

Definition VersionTLS : Z := 0x51474fff.
Definition SupportedVersions : list Z := [VersionTLS].

Fixpoint IsSupportedVersion (supported : list Z) (v : Z) : bool :=
  match supported with
  | [] => false
  | t :: rest => if t =? v then true else IsSupportedVersion rest v
  end.
Definition IsValidVersion (v : Z) : bool :=
  (v =? VersionTLS) || IsSupportedVersion SupportedVersions v.

Fixpoint ChooseSupportedVersion (ours theirs : list Z) : Z * bool :=
  match ours with
  | [] => (0, false)
  | ourVer :: rest =>
      if IsSupportedVersion theirs ourVer then (ourVer, true)
      else ChooseSupportedVersion rest theirs
  end.

(** [rand32] is what [binary.BigEndian.Uint32] reads from the four random bytes. *)
Definition generateReservedVersion (rand32 : Z) : Z :=
  Z.land (Z.lor rand32 0x0a0a0a0a) 0xfafafafa.
(** [b0] is the random byte that picks the position. *)
Definition GetGreasedVersions (b0 rand32 : Z) (supported : list Z) : list Z :=
  let randPos := Z.to_nat (b0 mod (len supported + 1)) in
  take randPos supported ++ [generateReservedVersion rand32] ++ drop randPos supported.
Fixpoint StripGreasedVersions (versions : list Z) : list Z :=
  match versions with
  | [] => []
  | v :: rest =>
      if negb (Z.land v 0x0f0f0f0f =? 0x0a0a0a0a)
      then v :: StripGreasedVersions rest else StripGreasedVersions rest
  end.

(** * connection_id.go *)

Definition maxConnectionIDLen : Z := 18.
(** The length chosen by [GenerateConnectionIDForInitial] from its random byte. *)
Definition connIDLenForInitial (r0 : Z) : Z :=
  MinConnectionIDLenInitial + r0 mod (maxConnectionIDLen - MinConnectionIDLenInitial + 1).
(** [io.ReadFull] into [len] bytes, with [io.ErrUnexpectedEOF] turned into [io.EOF]. *)
Definition ReadConnectionID (n : Z) : parser (list Z) := λ r,
  if n =? 0 then Ok ([], r)
  else match ReadFull n r with
       | Err UnexpectedEOF => Err EOF
       | res => res
       end.

(** * Facts *)

(** The epoch of a packet number: clearing the low bits is rounding down. *)
Lemma land_epoch last k : 0 <= k < 63 → Z.land last (Z.lnot (i64 (2 ^ k - 1))) = last - last mod 2 ^ k.
Proof.
  intros Hk. assert (1 <= 2 ^ k < 2 ^ 63).
  { split; [pose proof (Z.pow_pos_nonneg 2 k); lia|apply Z.pow_lt_mono_r; lia]. }
  rewrite i64_small by lia.
  replace (2 ^ k - 1) with (Z.ones k) by (rewrite Z.ones_equiv; lia).
  rewrite <- Z.ldiff_land, Z.ldiff_ones_r by lia.
  rewrite Z.shiftl_mul_pow2, Z.shiftr_div_pow2 by lia.
  pose proof (Z.div_mod last (2 ^ k) ltac:(lia)). lia.
Qed.

Lemma epochDelta_pow n : 1 <= n <= 4 → epochDelta_of n = 2 ^ (8 * n).
Proof. intros. assert (n = 1 ∨ n = 2 ∨ n = 3 ∨ n = 4) as [->|[->|[->| ->]]] by lia; done. Qed.

(** Distances to the target, on 62-bit packet numbers. *)
Lemma delta_abs a b : - 2 ^ 62 <= a < 2 ^ 62 → - 2 ^ 62 <= b < 2 ^ 62 → delta a b = Z.abs (a - b).
Proof. intros. unfold delta. zcases; unwrap; lia. Qed.

(** Rounding a number to its epoch, as linear facts for [lia]. *)
Lemma epoch_facts z D : 0 < D → ∃ q r, z = D * q + r ∧ 0 <= r < D ∧ z mod D = r.
Proof.
  intros. exists (z / D), (z mod D). pose proof (Z.div_mod z D). pose proof (Z.mod_pos_bound z D). lia.
Qed.

Lemma DecodePacketNumber_window n last pn :
  1 <= n <= 4 → 0 <= last < 2 ^ 61 → 0 <= pn →
  2 * Z.abs (pn - (last + 1)) < 2 ^ (8 * n) →
  DecodePacketNumber n last (pn mod 2 ^ (8 * n)) = pn.
Proof.
  intros Hn Hl Hp Hw. unfold DecodePacketNumber. rewrite epochDelta_pow by lia.
  rewrite land_epoch by lia.
  assert (0 < 2 ^ (8 * n) <= 2 ^ 32).
  { split; [apply Z.pow_pos_nonneg; lia|apply Z.pow_le_mono_r; lia]. }
  set (D := 2 ^ (8 * n)) in *. clearbody D.
  destruct (epoch_facts last D) as (q & r & -> & Hr & ->); [lia|].
  destruct (epoch_facts pn D) as (q' & w & -> & Hw' & ->); [lia|].
  replace (D * q + r - r) with (D * q) by lia.
  assert (0 <= q) by nia. assert (0 <= q') by nia.
  assert (q' = q ∨ q' = q - 1 ∨ q' = q + 1) as Hq by nia.
  assert (0 <= D * q <= D * q + r) by nia.
  assert (0 <= D * q') by nia.
  rewrite (i64_small (D * q + r + 1)) by lia.
  rewrite (i64_small (D * q + D)) by lia.
  rewrite (i64_small (D * q + w)) by lia.
  rewrite (i64_small (D * q + D + w)) by lia.
  assert (HD : D * (q - 1) = D * q - D) by lia. assert (HD' : D * (q + 1) = D * q + D) by lia.
  destruct (Z.ltb_spec D (D * q)) as [L|L].
  - rewrite (i64_small (D * q - D)), (i64_small (D * q - D + w)) by lia. unfold closestTo.
    rewrite (delta_abs _ (D * q - D + w)), (delta_abs _ (D * q + D + w)) by lia.
    destruct (Z.ltb_spec (Z.abs (D * q + r + 1 - (D * q - D + w))) (Z.abs (D * q + r + 1 - (D * q + D + w))));
      rewrite !delta_abs by lia; destruct Hq as [->|[->| ->]]; rewrite ?HD, ?HD' in *; zcases; lia.
  - rewrite (i64_small (0 + w)) by lia. unfold closestTo.
    rewrite (delta_abs _ (0 + w)), (delta_abs _ (D * q + D + w)) by lia.
    assert (q <= 1) as Hq1.
    { apply Z.nlt_ge. intros ?. assert (D * 2 <= D * q) by (apply Z.mul_le_mono_nonneg_l; lia). lia. }
    assert (D * q = 0 ∨ D * q = D) as HDq by (assert (q = 0 ∨ q = 1) as [-> | ->] by lia; lia).
    destruct (Z.ltb_spec (Z.abs (D * q + r + 1 - (0 + w))) (Z.abs (D * q + r + 1 - (D * q + D + w))));
      rewrite !delta_abs by lia; destruct Hq as [->|[->| ->]]; rewrite ?HD, ?HD' in *; zcases; lia.
Qed.

(** Packet numbers survive truncation.  If the peer has already received
    [last], which is no older than the packet below the sender's lowest
    unacknowledged one, and fewer than [2^31] packets are in flight, then
    sending the low bytes chosen by [GetPacketNumberLengthForHeader] and
    recovering them with [DecodePacketNumber] gives the packet number back. *)
Theorem packet_number_roundtrip (pn leastUnacked last : Z)
    (Hleast : 0 <= leastUnacked <= last + 1) (Hlast : 0 <= last < pn)
    (Hpn : pn < 2 ^ 61) (Hflight : pn - leastUnacked < 2 ^ 31) :
  let n := GetPacketNumberLengthForHeader pn leastUnacked in
  DecodePacketNumber n last (pn mod 2 ^ (8 * n)) = pn.
Proof.
  unfold GetPacketNumberLengthForHeader. unwrap. cbv zeta.
  change (Z.shiftl 1 (16 - 1)) with (2 ^ 15). change (Z.shiftl 1 (24 - 1)) with (2 ^ 23).
  destruct (Z.ltb_spec (pn - leastUnacked) (2 ^ 15)); [|destruct (Z.ltb_spec (pn - leastUnacked) (2 ^ 23))];
  apply DecodePacketNumber_window; lia.
Qed.

Lemma packet_number_roundtrip_witness :
  DecodePacketNumber 3 1000010 (1040000 mod 2 ^ 24) = 1040000.
Proof. apply (packet_number_roundtrip 1040000 1000000 1000010); lia. Defined.

Lemma StreamNum_StreamID_eq s t p :
  1 <= s <= MaxStreamCount →
  StreamNum_StreamID s t p =
    4 * (s - 1) + match t, p with
      | StreamTypeBidi, PerspectiveClient => 0 | StreamTypeBidi, PerspectiveServer => 1
      | StreamTypeUni, PerspectiveClient => 2 | StreamTypeUni, PerspectiveServer => 3 end.
Proof.
  unfold MaxStreamCount. intros. unfold StreamNum_StreamID.
  destruct (Z.eqb_spec s 0); [lia|]. unwrap. destruct t, p; unwrap; lia.
Qed.

(** Stream IDs and (stream number, type, initiator) triples are in
    bijection: decoding the ID of stream number [s] gives back the number, the
    directionality and the perspective it was built from. *)
Theorem stream_id_roundtrip (s : Z) (t : StreamType) (p : Perspective)
    (Hs : 1 <= s <= MaxStreamCount) :
  let id := StreamNum_StreamID s t p in
  StreamID_StreamNum id = s ∧ StreamID_Type id = t ∧ StreamID_InitiatedBy id = p.
Proof.
  cbv zeta. rewrite StreamNum_StreamID_eq by done. unfold MaxStreamCount in Hs.
  unfold StreamID_StreamNum, StreamID_Type, StreamID_InitiatedBy.
  rewrite Z.quot_div_nonneg, !Z.rem_mod_nonneg by (destruct t, p; lia).
  set (c := match t, p with StreamTypeBidi, PerspectiveClient => 0 | _, _ => _ end).
  assert (Hc : 0 <= c < 4) by (destruct t, p; simpl; lia).
  replace (4 * (s - 1) + c) with (c + (s - 1) * 4) by lia.
  rewrite Z.div_add, (Z.div_small c), Z.mod_add, (Z.mod_small c) by lia.
  replace (c + (s - 1) * 4) with (c + (2 * (s - 1)) * 2) by lia.
  rewrite Z.mod_add by lia. unwrap.
  split; [lia|]. destruct t, p; done.
Qed.

Lemma stream_id_roundtrip_witness :
  StreamID_StreamNum (StreamNum_StreamID 3 StreamTypeUni PerspectiveServer) = 3.
Proof. apply (stream_id_roundtrip 3 StreamTypeUni PerspectiveServer). unfold MaxStreamCount. lia. Defined.

(** Reserved versions are recognised as such whatever the random bits. *)
Lemma generateReservedVersion_reserved r :
  Z.land (generateReservedVersion r) 0x0f0f0f0f = 0x0a0a0a0a.
Proof.
  unfold generateReservedVersion. rewrite <- Z.land_assoc.
  change (Z.land 0xfafafafa 0x0f0f0f0f) with 0x0a0a0a0a.
  rewrite Z.land_lor_distr_l, Z.land_diag.
  apply Z.bits_inj'. intros n _. rewrite Z.lor_spec, Z.land_spec.
  by destruct (Z.testbit r n), (Z.testbit 0x0a0a0a0a n).
Qed.

Lemma StripGreasedVersions_app l k :
  StripGreasedVersions (l ++ k) = StripGreasedVersions l ++ StripGreasedVersions k.
Proof. induction l as [|v l IH]; simpl; [done|]. destruct (negb _); simpl; by rewrite IH. Qed.

(** Greasing is invisible after stripping, whatever the random position and
    the random version. *)
Lemma StripGreasedVersions_greased b0 r l :
  StripGreasedVersions (GetGreasedVersions b0 r l) = StripGreasedVersions l.
Proof.
  unfold GetGreasedVersions. rewrite !StripGreasedVersions_app. simpl.
  rewrite generateReservedVersion_reserved. simpl.
  rewrite <- StripGreasedVersions_app. f_equal. apply take_drop.
Qed.

Lemma IsSupportedVersion_spec l v : IsSupportedVersion l v = true ↔ v ∈ l.
Proof.
  induction l as [|t l IH]; simpl; [split; [done|set_solver]|].
  rewrite elem_of_cons. zcases; [subst; tauto|]. rewrite IH. intuition congruence.
Qed.

(** Version negotiation.  [ChooseSupportedVersion] returns the first of our
    versions that the peer offers and reports failure exactly when there is no
    common version; a peer that strips greased versions sees the same list
    whatever the random version inserted by [GetGreasedVersions] was. *)
Theorem version_negotiation (ours theirs : list Z) (b0 rand32 : Z) :
  (match ChooseSupportedVersion ours theirs with
   | (v, true) => ∃ pre post, ours = pre ++ v :: post ∧ v ∈ theirs ∧ Forall (.∉ theirs) pre
   | (v, false) => v = 0 ∧ Forall (.∉ theirs) ours
   end) ∧
  StripGreasedVersions (GetGreasedVersions b0 rand32 ours) = StripGreasedVersions ours.
Proof.
  split; [|apply StripGreasedVersions_greased].
  induction ours as [|o ours IH]; simpl; [done|].
  destruct (IsSupportedVersion theirs o) eqn:E.
  - exists [], ours. rewrite IsSupportedVersion_spec in E. done.
  - assert (o ∉ theirs) by (rewrite <- IsSupportedVersion_spec; congruence).
    destruct (ChooseSupportedVersion ours theirs) as [v []].
    + destruct IH as (pre & post & -> & Hv & Hp). exists (o :: pre), post. auto.
    + destruct IH. auto.
Qed.

Lemma Opposite_involutive p : Opposite (Opposite p) = p.
Proof. by destruct p. Qed.

Lemma reads_ReadConnectionID c : reads (ReadConnectionID (len c)) c c.
Proof.
  intros rest. unfold ReadConnectionID. destruct (Z.eqb_spec (len c) 0) as [E|E].
  - destruct c; [done|]. unfold len in E. simpl in E. lia.
  - by rewrite reads_ReadFull.
Qed.
Lemma yields_ReadConnectionID n :
  0 <= n → yields (ReadConnectionID n) (λ c, bytes_ok c ∧ len c = n).
Proof.
  intros Hn r c rest Hr. unfold ReadConnectionID. destruct (Z.eqb_spec n 0) as [->|E].
  - intros [= <- <-]. split; [by exists []|]. split; [constructor|done].
  - destruct (ReadFull n r) as [[a r']|[]|] eqn:F; intros [=]; subst.
    eapply yields_ReadFull in F; eauto.
Qed.
#[export] Hint Resolve reads_ReadConnectionID : wire.
Lemma safe_ReadConnectionID n : safe (ReadConnectionID n).
Proof.
  intros r. unfold ReadConnectionID. destruct (n =? 0); [lia|].
  pose proof (safe_ReadFull n r). destruct (ReadFull n r) as [[]|[]|]; done || lia.
Qed.
#[export] Hint Resolve safe_ReadConnectionID : safe.
