(* ===== verification/AckFrame.v ===== *)
(** AckFrame: core/wire/ack_frame.go and ack_range.go.  Parsing, writing and
    measuring ACK frames, and the packet lookup [AcksPacket] that the loss
    recovery relies on. *)

From S2P Require Import Prelude Utils Protocol.

(** * ack_range.go *)

Record AckRange := mkAckRange { Smallest : Z; Largest : Z }.
#[export] Instance AckRange_eq_dec : EqDecision AckRange.
Proof. solve_decision. Defined.
#[export] Instance AckRange_inhabited : Inhabited AckRange := populate (mkAckRange 0 0).
Definition AckRange_Len (r : AckRange) : Z := i64 (Largest r - Smallest r + 1).

(** * ack_frame.go *)

Record AckFrame := mkAckFrame { AckRanges : list AckRange; DelayTime : Z }.

Definition errInvalidAckRanges : goerr :=
  Errorf "AckFrame: ACK frame contains invalid ACK ranges" [].

Fixpoint validate_each (l : list AckRange) : bool :=
  match l with
  | [] => true
  | r :: l => if Largest r <? Smallest r then false else validate_each l
  end.
Fixpoint validate_order (last : AckRange) (l : list AckRange) : bool :=
  match l with
  | [] => true
  | r :: l =>
      if Smallest last <=? Smallest r then false
      else if Smallest last <=? i64 (Largest r + 1) then false
      else validate_order r l
  end.
Definition validateAckRanges (f : AckFrame) : bool :=
  match AckRanges f with
  | [] => false
  | r :: l => validate_each (r :: l) && validate_order r l
  end.

(** The loop over the ACK blocks.  Every iteration reads at least two bytes, so
    the number of bytes left bounds the number of iterations. *)
Fixpoint parseAckBlocks (fuel : nat) (i numBlocks smallest : Z) (acc : list AckRange)
    : parser (list AckRange) :=
  match fuel with
  | O => λ _, Panic "out of fuel"
  | S fuel =>
      if i <? numBlocks then
        g ← ReadVarInt;
        let gap := i64 g in
        if smallest <? i64 (gap + 2) then fail errInvalidAckRanges else
        let largest := i64 (smallest - gap - 2) in
        ab ← ReadVarInt;
        let ackBlock := i64 ab in
        if largest <? ackBlock then fail errInvalidAckRanges else
        let smallest := i64 (largest - ackBlock) in
        parseAckBlocks fuel (i + 1) numBlocks smallest (acc ++ [mkAckRange smallest largest])
      else mret acc
  end.

(** [time.Duration(delay*1<<ackDelayExponent) * time.Microsecond], clamped. *)
Definition decodeAckDelay (ackDelayExponent delay : Z) : Z :=
  let delayTime := i64 (i64 (u64 (Z.shiftl (u64 (delay * 1)) ackDelayExponent)) * Microsecond) in
  if delayTime <? 0 then InfDuration else delayTime.

(** The three ECN counters are parsed and dropped. *)
Definition skipECN (ecn : bool) : parser () :=
  if ecn then (_ ← ReadVarInt; _ ← ReadVarInt; _ ← ReadVarInt; mret ()) else mret ().

Definition parseAckFrame (ackDelayExponent : Z) : parser AckFrame :=
  typeByte ← ReadByte;
  let ecn := 0 <? Z.land typeByte 0x1 in
  la ← ReadVarInt;
  let largestAcked := i64 la in
  delay ← ReadVarInt;
  let delayTime := decodeAckDelay ackDelayExponent delay in
  numBlocks ← ReadVarInt;
  ab ← ReadVarInt;
  let ackBlock := i64 ab in
  if largestAcked <? ackBlock then fail (Errorf "invalid first ACK range" []) else
  let smallest := i64 (largestAcked - ackBlock) in
  n ← ReaderLen;
  ranges ← parseAckBlocks (S (Z.to_nat n)) 0 numBlocks smallest [mkAckRange smallest largestAcked];
  let frame := mkAckFrame ranges delayTime in
  if negb (validateAckRanges frame) then fail errInvalidAckRanges else
  _ ← skipECN ecn;
  mret frame.

Definition LargestAcked (f : AckFrame) : outcome Z :=
  match AckRanges f with [] => Panic "index out of range" | r :: _ => Ok (Largest r) end.
Definition LowestAcked (f : AckFrame) : outcome Z :=
  match last (AckRanges f) with None => Panic "index out of range" | Some r => Ok (Smallest r) end.
Definition HasMissingRanges (f : AckFrame) : bool := 1 <? len (AckRanges f).

Definition encodeAckDelay (delay : Z) : Z :=
  u64 (Z.quot delay (1000 * Z.shiftl 1 AckDelayExponent)).

(** (gap, length) of range [i]; indexing out of range panics. *)
Definition encodeAckRange (f : AckFrame) (i : nat) : outcome (Z * Z) :=
  match i with
  | O =>
      match AckRanges f !! 0%nat with
      | Some r => Ok (0, u64 (i64 (Largest r - Smallest r)))
      | None => Panic "index out of range"
      end
  | S j =>
      match AckRanges f !! j, AckRanges f !! i with
      | Some prev, Some r =>
          Ok (u64 (i64 (Smallest prev - Largest r - 2)), u64 (i64 (Largest r - Smallest r)))
      | _, _ => Panic "index out of range"
      end
  end.

#[global] Arguments encodeAckRange : simpl never.

(** The loop of [numEncodableAckRanges], from index [i] over the [todo] ranges left. *)
Fixpoint numEncodable_loop (f : AckFrame) (todo i : nat) (length : Z) : outcome Z :=
  match todo with
  | O => Ok (len (AckRanges f))
  | S todo =>
      '(gap, n) ← encodeAckRange f i;
      lg ← VarIntLen gap; ln ← VarIntLen n;
      let rangeLen := lg + ln in
      if MaxAckFrameSize <? length + rangeLen then Ok (Z.of_nat i - 1)
      else numEncodable_loop f todo (S i) (length + rangeLen)
  end.
Definition numEncodableAckRanges (f : AckFrame) : outcome Z :=
  la ← LargestAcked f;
  l1 ← VarIntLen (u64 la);
  l2 ← VarIntLen (encodeAckDelay (DelayTime f));
  numEncodable_loop f (length (AckRanges f) - 1) 1 (1 + l1 + l2 + 2).

Definition wlift {A} (m : outcome A) (k : A → writer) : writer := λ b,
  match m with Ok a => k a b | Err e => (b, Err e) | Panic s => (b, Panic s) end.

(** The loop writing ranges [i], [i+1], ... *)
Fixpoint writeAckRanges (f : AckFrame) (todo i : nat) : writer :=
  match todo with
  | O => wdone
  | S todo =>
      wlift (encodeAckRange f i) (λ '(gap, n),
        WriteVarInt gap >>> WriteVarInt n >>> writeAckRanges f todo (S i))
  end.
Definition AckFrame_Write (f : AckFrame) : writer :=
  WriteByte 0x2 >>>
  wlift (LargestAcked f) (λ la, WriteVarInt (u64 la)) >>>
  WriteVarInt (encodeAckDelay (DelayTime f)) >>>
  wlift (numEncodableAckRanges f) (λ numRanges,
    WriteVarInt (u64 (numRanges - 1)) >>>
    wlift (encodeAckRange f 0) (λ '(_, firstRange), WriteVarInt firstRange) >>>
    writeAckRanges f (Z.to_nat (numRanges - 1)) 1).

Fixpoint lengthAckRanges (f : AckFrame) (todo i : nat) (length : Z) : outcome Z :=
  match todo with
  | O => Ok length
  | S todo =>
      '(gap, n) ← encodeAckRange f i;
      lg ← VarIntLen gap; ln ← VarIntLen n;
      lengthAckRanges f todo (S i) (length + lg + ln)
  end.
Definition AckFrame_Length (f : AckFrame) : outcome Z :=
  match AckRanges f with
  | [] => Panic "index out of range"
  | r :: _ =>
      let largestAcked := Largest r in
      numRanges ← numEncodableAckRanges f;
      l1 ← VarIntLen (u64 largestAcked);
      l2 ← VarIntLen (encodeAckDelay (DelayTime f));
      l3 ← VarIntLen (u64 (numRanges - 1));
      l4 ← VarIntLen (u64 (i64 (largestAcked - Smallest r)));
      lengthAckRanges f (Z.to_nat (numRanges - 1)) 1 (1 + l1 + l2 + l3 + l4)
  end.

(** [sort.Search(n, f)]: binary search; [j - i] decreases, so [n] rounds are enough. *)
Fixpoint sort_Search_loop (fuel : nat) (f : nat → bool) (i j : nat) : nat :=
  match fuel with
  | O => i
  | S fuel =>
      if (i <? j)%nat then
        let h := Nat.div2 (i + j) in
        if f h then sort_Search_loop fuel f i h else sort_Search_loop fuel f (S h) j
      else i
  end.
Definition sort_Search (n : nat) (f : nat → bool) : nat := sort_Search_loop n f 0 n.

Definition AcksPacket (f : AckFrame) (p : Z) : outcome bool :=
  lowest ← LowestAcked f;
  largest ← LargestAcked f;
  if (p <? lowest) || (largest <? p) then Ok false else
  let i := sort_Search (length (AckRanges f))
             (λ i, match AckRanges f !! i with Some r => Smallest r <=? p | None => true end) in
  match AckRanges f !! i with
  | Some r => Ok (p <=? Largest r)
  | None => Panic "index out of range"
  end.

(** * Well-formed ACK frames *)

(** Ranges in descending order with at least one missing packet between
    neighbours, all strictly below [hi - 1]. *)
Fixpoint ranges_below (hi : Z) (l : list AckRange) : Prop :=
  match l with
  | [] => True
  | r :: l => 0 <= Smallest r <= Largest r ∧ Largest r + 1 < hi ∧ ranges_below (Smallest r) l
  end.
Definition ack_ok (f : AckFrame) : Prop :=
  AckRanges f ≠ [] ∧ ranges_below (2 ^ 62 + 1) (AckRanges f) ∧ 0 <= DelayTime f < 2 ^ 63.
(** The packets a list of ranges acknowledges. *)
Definition covers (l : list AckRange) (p : Z) : Prop :=
  Exists (λ r, Smallest r <= p <= Largest r) l.

#[export] Instance ranges_below_dec hi l : Decision (ranges_below hi l).
Proof. revert hi. induction l as [|r l IH]; intros hi; simpl; apply _. Defined.

Lemma ranges_below_weaken hi hi' l : hi <= hi' → ranges_below hi l → ranges_below hi' l.
Proof. destruct l; simpl; [done|]. intros ? (? & ? & ?). repeat split; try done; lia. Qed.
Lemma ranges_below_Forall hi l :
  ranges_below hi l → Forall (λ r, 0 <= Smallest r <= Largest r ∧ Largest r + 1 < hi) l.
Proof.
  revert hi. induction l as [|r l IH]; intros hi; simpl; [constructor|].
  intros (H1 & H2 & H3). constructor; [done|]. apply IH in H3.
  eapply Forall_impl; [exact H3|]. intros ? ?. simpl in *. lia.
Qed.
Lemma ranges_below_at hi l (i : nat) r :
  ranges_below hi l → l !! i = Some r → 0 <= Smallest r <= Largest r ∧ Largest r + 1 < hi.
Proof. intros H. apply ranges_below_Forall in H. rewrite Forall_lookup in H. apply H. Qed.
Lemma ranges_below_app hi l k : ranges_below hi (l ++ k) → ranges_below hi l.
Proof. revert hi. induction l as [|r l IH]; intros hi; simpl; [done|]. naive_solver. Qed.
Lemma ranges_below_lookup hi l (i j : nat) r r' :
  ranges_below hi l → l !! i = Some r → l !! j = Some r' → (i < j)%nat →
  Largest r' + 1 < Smallest r.
Proof.
  revert hi i j. induction l as [|a l IH]; intros hi i j; [by destruct i|].
  simpl. intros (H1 & H2 & H3) Hi Hj Hij. destruct j as [|j]; [lia|].
  destruct i as [|i]; simpl in *.
  - simplify_eq. eapply ranges_below_at in H3; [|exact Hj]. lia.
  - eapply IH; eauto. lia.
Qed.

Lemma validate_order_below r l :
  0 <= Smallest r < 2 ^ 62 + 1 → ranges_below (Smallest r) l → validate_order r l = true.
Proof.
  revert r. induction l as [|a l IH]; intros r Hr; simpl; [done|]. intros (H1 & H2 & H3).
  rewrite (i64_small (Largest a + 1)) by lia. zcases; try lia. apply IH; [lia|done].
Qed.
Lemma validate_each_below hi l : ranges_below hi l → validate_each l = true.
Proof.
  revert hi. induction l as [|r l IH]; intros hi; simpl; [done|]. intros (H1 & H2 & H3).
  zcases; [lia|]. eauto.
Qed.
Lemma validate_below l d :
  l ≠ [] → ranges_below (2 ^ 62 + 1) l → validateAckRanges (mkAckFrame l d) = true.
Proof.
  destruct l as [|r l]; [done|]. intros _ H.
  change (validate_each (r :: l) && validate_order r l = true). rewrite (validate_each_below _ _ H). destruct H as (H1 & H2 & H3).
  apply validate_order_below; [lia|done].
Qed.

(** * Packet lookup *)

Lemma sort_Search_loop_spec fuel f i j n :
  (∀ a b, (a <= b)%nat → f a = true → f b = true) →
  (j - i <= fuel)%nat → (i <= j <= n)%nat →
  (∀ k, (k < i)%nat → f k = false) → (∀ k, (j <= k < n)%nat → f k = true) →
  let k := sort_Search_loop fuel f i j in
  (k <= n)%nat ∧ (∀ m, (m < k)%nat → f m = false) ∧ (∀ m, (k <= m < n)%nat → f m = true).
Proof.
  intros Hmono. revert i j. induction fuel as [|fuel IH]; intros i j Hf Hij Hlo Hhi; simpl.
  { split; [lia|]. split; [done|]. intros m Hm. apply Hhi. lia. }
  destruct (Nat.ltb_spec i j) as [L|L].
  2:{ split; [lia|]. split; [done|]. intros m Hm. apply Hhi. lia. }
  pose proof (Nat.div2_odd (i + j)) as Hd. rewrite Nat.div2_div in *.
  assert (i <= (i + j) / 2 < j)%nat.
  { split; [apply Nat.div_le_lower_bound|apply Nat.Div0.div_lt_upper_bound]; lia. }
  destruct (f _) eqn:E.
  - apply IH; try lia; try done. intros k Hk. eapply Hmono; [|exact E]. lia.
  - apply IH; try lia; [|done]. intros k Hk. destruct (f k) eqn:E'; [|done].
    rewrite (Hmono k ((i + j) / 2)%nat) in E; [done|lia|done].
Qed.

Lemma sort_Search_spec n f :
  (∀ a b, (a <= b)%nat → f a = true → f b = true) →
  let k := sort_Search n f in
  (k <= n)%nat ∧ (∀ m, (m < k)%nat → f m = false) ∧ (∀ m, (k <= m < n)%nat → f m = true).
Proof. intros. apply (sort_Search_loop_spec n f 0 n n); done || lia. Qed.

Lemma search_pred_mono hi l p a b :
  ranges_below hi l → (a <= b)%nat →
  match l !! a with Some r => Smallest r <=? p | None => true end = true →
  match l !! b with Some r => Smallest r <=? p | None => true end = true.
Proof.
  intros Hl Hab Ha. destruct (l !! b) as [r'|] eqn:Eb; [|done].
  destruct (l !! a) as [r|] eqn:Ea.
  - destruct (decide (a = b)) as [->|]; [congruence|].
    pose proof (ranges_below_lookup _ _ a b _ _ Hl Ea Eb ltac:(lia)).
    pose proof (ranges_below_at _ _ _ _ Hl Eb). zcases; lia.
  - apply lookup_ge_None in Ea. apply lookup_lt_Some in Eb. lia.
Qed.

(** Acknowledged packets lie between the lowest and the highest range. *)
Lemma covers_bounds hi l r0 rl p :
  ranges_below hi l → l !! 0%nat = Some r0 → last l = Some rl →
  covers l p → Smallest rl <= p <= Largest r0.
Proof.
  intros Hl H0 Hrl (r & [i Hi]%list_elem_of_lookup & Hp)%Exists_exists.
  rewrite last_lookup in Hrl. pose proof (lookup_lt_Some _ _ _ Hi).
  pose proof (ranges_below_at _ _ _ _ Hl H0). pose proof (ranges_below_at _ _ _ _ Hl Hrl). split.
  - destruct (decide (i = pred (length l))) as [->|]; [assert (r = rl) by congruence; subst; lia|].
    pose proof (ranges_below_lookup _ _ i (pred (length l)) _ _ Hl Hi Hrl ltac:(lia)). lia.
  - destruct i as [|i]; [assert (r = r0) by congruence; subst; lia|].
    pose proof (ranges_below_lookup _ _ 0 (S i) _ _ Hl H0 Hi ltac:(lia)). lia.
Qed.

(** The range found by the binary search decides membership. *)
Lemma covers_at hi l p (k : nat) r :
  ranges_below hi l → l !! k = Some r → Smallest r <= p →
  (∀ i r', (i < k)%nat → l !! i = Some r' → p < Smallest r') →
  covers l p ↔ p <= Largest r.
Proof.
  intros Hl Hr Hp Hlt. pose proof (ranges_below_at _ _ _ _ Hl Hr).
  unfold covers. rewrite Exists_exists. split.
  - intros (r' & [i Hi]%list_elem_of_lookup & Hp').
    destruct (decide (i = k)) as [->|]; [assert (r = r') by congruence; subst; lia|].
    destruct (decide (i < k)%nat) as [L|L].
    + specialize (Hlt i r' L Hi). lia.
    + pose proof (ranges_below_lookup _ _ k i _ _ Hl Hr Hi ltac:(lia)). lia.
  - intros. exists r. split; [eapply list_elem_of_lookup_2; eauto|lia].
Qed.

Lemma AcksPacket_ranges f p :
  AckRanges f ≠ [] → ranges_below (2 ^ 62 + 1) (AckRanges f) →
  ∃ b, AcksPacket f p = Ok b ∧ (b = true ↔ covers (AckRanges f) p).
Proof.
  intros Hne Hl. unfold AcksPacket, LowestAcked, LargestAcked. set (l := AckRanges f) in *.
  set (F := λ i : nat, match l !! i with Some r => Smallest r <=? p | None => true end).
  destruct (sort_Search_spec (length l) F) as (K1 & K2 & K3).
  { intros a b. apply (search_pred_mono _ l p a b Hl). }
  destruct (last l) as [rl|] eqn:Hrl; [|by apply last_None in Hrl].
  destruct (l !! 0%nat) as [r0|] eqn:H0; [|apply lookup_ge_None in H0; destruct l; [done|simpl in H0; lia]].
  assert (match l with [] => Panic "index out of range" | r :: _ => Ok (Largest r) end = Ok (Largest r0)) as ->
    by (destruct l; [done|]; simpl in H0; congruence).
  simpl mbind. set (k := sort_Search (length l) F) in *.
  destruct ((p <? Smallest rl) || (Largest r0 <? p)) eqn:Eb.
  { exists false. split; [done|]. split; [done|]. intros Hc.
    pose proof (covers_bounds _ _ _ _ _ Hl H0 Hrl Hc).
    apply orb_true_iff in Eb as [?%Z.ltb_lt|?%Z.ltb_lt]; lia. }
  apply orb_false_iff in Eb as [Eb1%Z.ltb_ge Eb2%Z.ltb_ge].
  destruct (l !! k) as [r|] eqn:Hr.
  - exists (p <=? Largest r). split; [done|]. rewrite Z.leb_le. symmetry.
    pose proof (lookup_lt_Some _ _ _ Hr). specialize (K3 k ltac:(lia)). unfold F in K3.
    rewrite Hr in K3. apply Z.leb_le in K3. eapply covers_at; eauto.
    intros i r' Hi Hr'. specialize (K2 i Hi). unfold F in K2. rewrite Hr' in K2. by apply Z.leb_gt.
  - apply lookup_ge_None in Hr. rewrite last_lookup in Hrl. pose proof (lookup_lt_Some _ _ _ Hrl).
    specialize (K2 (pred (length l)) ltac:(lia)). unfold F in K2. rewrite Hrl in K2.
    apply Z.leb_gt in K2. lia.
Qed.

(** * What is written *)

(** The blocks following the first range, as on the wire. *)
Fixpoint enc_ranges (smallest : Z) (l : list AckRange) : list Z :=
  match l with
  | [] => []
  | r :: l => varint (smallest - Largest r - 2) ++ varint (Largest r - Smallest r)
              ++ enc_ranges (Smallest r) l
  end.

Lemma encodeAckRange_next f pre prev r post :
  AckRanges f = pre ++ prev :: r :: post →
  0 <= Smallest prev < 2 ^ 62 → ranges_below (Smallest prev) (r :: post) →
  encodeAckRange f (S (length pre)) =
    Ok (Smallest prev - Largest r - 2, Largest r - Smallest r).
Proof.
  intros Hf Hp (H1 & H2 & _). unfold encodeAckRange. rewrite Hf.
  rewrite list_lookup_middle by done.
  replace (pre ++ prev :: r :: post) with ((pre ++ [prev]) ++ r :: post) by (by rewrite <- app_assoc).
  rewrite list_lookup_middle by (rewrite length_app; simpl; lia).
  rewrite !i64_small, !u64_small by lia. done.
Qed.

Lemma writeAckRanges_emits f pre prev l post :
  AckRanges f = pre ++ prev :: l ++ post →
  0 <= Smallest prev < 2 ^ 62 → ranges_below (Smallest prev) (l ++ post) →
  emits (writeAckRanges f (length l) (S (length pre))) (enc_ranges (Smallest prev) l).
Proof.
  revert pre prev. induction l as [|r l IH]; intros pre prev Hf Hp Hl; simpl; [apply emits_done|].
  simpl in Hf, Hl. unfold wlift. rewrite (encodeAckRange_next f pre prev r (l ++ post)) by done.
  destruct Hl as (H1 & H2 & H3). intros b. revert b.
  change (emits (WriteVarInt (Smallest prev - Largest r - 2) >>> WriteVarInt (Largest r - Smallest r)
    >>> writeAckRanges f (length l) (S (S (length pre))))
    (varint (Smallest prev - Largest r - 2) ++ varint (Largest r - Smallest r) ++ enc_ranges (Smallest r) l)).
  repeat apply emits_then; try (apply emits_WriteVarInt; unfold maxVarInt8; lia).
  replace (S (length pre)) with (length (pre ++ [prev])) by (rewrite length_app; simpl; lia).
  apply IH; [by rewrite <- app_assoc|lia|done].
Qed.

Lemma lengthAckRanges_ok f pre prev l post n :
  AckRanges f = pre ++ prev :: l ++ post →
  0 <= Smallest prev < 2 ^ 62 → ranges_below (Smallest prev) (l ++ post) →
  lengthAckRanges f (length l) (S (length pre)) n = Ok (n + len (enc_ranges (Smallest prev) l)).
Proof.
  revert pre prev n. induction l as [|r l IH]; intros pre prev n Hf Hp Hl; simpl.
  { autorewrite with len. by rewrite Z.add_0_r. }
  simpl in Hf, Hl. rewrite (encodeAckRange_next f pre prev r (l ++ post)) by done.
  destruct Hl as (H1 & H2 & H3). simpl mbind.
  rewrite !VarIntLen_varint by (unfold maxVarInt8; lia). simpl mbind.
  replace (S (length pre)) with (length (pre ++ [prev])) by (rewrite length_app; simpl; lia).
  rewrite (IH (pre ++ [prev]) r) by (done || lia || by rewrite <- app_assoc).
  autorewrite with len. f_equal. lia.
Qed.

(** How many ranges fit: counting from range [i], what is kept stays within the
    maximum frame size. *)
Lemma numEncodable_loop_spec f pre prev post n :
  AckRanges f = pre ++ prev :: post →
  0 <= Smallest prev < 2 ^ 62 → ranges_below (Smallest prev) post → n <= MaxAckFrameSize →
  let i := S (length pre) in
  ∃ m : nat, numEncodable_loop f (length post) i n = Ok (Z.of_nat m) ∧
    (i - 1 <= m <= i + length post)%nat ∧
    n + len (enc_ranges (Smallest prev) (take (m - i) post)) <= MaxAckFrameSize.
Proof.
  revert pre prev n. induction post as [|r post IH]; intros pre prev n Hf Hp Hl Hn.
  { exists (S (length pre)). simpl. rewrite Hf. unfold len. rewrite length_app. simpl.
    split; [f_equal; lia|]. split; [lia|]. rewrite take_nil. simpl. lia. }
  cbn [numEncodable_loop length]. rewrite (encodeAckRange_next f pre prev r post) by done.
  destruct Hl as (H1 & H2 & H3). simpl mbind.
  rewrite !VarIntLen_varint by (unfold maxVarInt8; lia). simpl mbind.
  pose proof (len_nonneg (enc_ranges (Smallest prev) [])).
  destruct (Z.ltb_spec MaxAckFrameSize (n + (len (varint (Smallest prev - Largest r - 2)) + len (varint (Largest r - Smallest r))))) as [L|L].
  { exists (length pre). split; [f_equal; lia|]. split; [lia|].
    replace (length pre - S (length pre))%nat with 0%nat by lia. simpl. autorewrite with len. lia. }
  replace (S (length pre)) with (length (pre ++ [prev])) by (rewrite length_app; simpl; lia).
  destruct (IH (pre ++ [prev]) r _ ltac:(by rewrite <- app_assoc) ltac:(lia) H3 L) as (m & -> & Hm & Hlen).
  exists m. split; [done|]. rewrite length_app in *. simpl in *. split; [lia|].
  destruct (decide (m = length pre + 1)%nat) as [->|].
  { replace (length pre + 1 - (length pre + 1))%nat with 0%nat by lia. simpl. autorewrite with len. lia. }
  replace (m - (length pre + 1))%nat with (S (m - S (length pre + 1))) by lia.
  simpl. autorewrite with len. lia.
Qed.

(** If not all ranges are kept, one more than those kept and the next do not fit. *)
Lemma numEncodable_loop_max f pre prev post n res :
  AckRanges f = pre ++ prev :: post → 0 <= Smallest prev < 2 ^ 62 → ranges_below (Smallest prev) post →
  numEncodable_loop f (length post) (S (length pre)) n = Ok res →
  res = len (AckRanges f) ∨ ∃ k : nat, res = Z.of_nat (length pre + k) ∧ MaxAckFrameSize < n + len (enc_ranges (Smallest prev) (take (S k) post)).
Proof.
  revert pre prev n. induction post as [|r post IH]; intros pre prev n Hf Hp Hl; cbn [numEncodable_loop length]; [intros [= <-]; by left|].
  rewrite (encodeAckRange_next f pre prev r post) by done. destruct Hl as (H1 & H2 & H3). simpl mbind. rewrite !VarIntLen_varint by (unfold maxVarInt8; lia). simpl mbind.
  destruct (Z.ltb_spec MaxAckFrameSize (n + (len (varint (Smallest prev - Largest r - 2)) + len (varint (Largest r - Smallest r))))) as [L|L].
  - intros [= <-]. right. exists 0%nat. split; [lia|]. change (take 1 (r :: post)) with [r]. cbn [enc_ranges]. autorewrite with len. lia.
  - replace (S (length pre)) with (length (pre ++ [prev])) by (rewrite length_app; simpl; lia). intros E.
    destruct (IH (pre ++ [prev]) r _ ltac:(by rewrite <- app_assoc) ltac:(lia) H3 E) as [->|(k & -> & Hk)]; [by left|right]. exists (S k).
    split; [rewrite length_app; cbn [length]; lia|]. change (take (S (S k)) (r :: post)) with (r :: take (S k) post). cbn [enc_ranges]. rewrite !len_app. lia.
Qed.

Lemma encodeAckDelay_ok d : 0 <= d < 2 ^ 63 → encodeAckDelay d = d / 8000 ∧ 0 <= d / 8000 < 2 ^ 51.
Proof.
  intros. unfold encodeAckDelay. change (1000 * Z.shiftl 1 AckDelayExponent) with 8000.
  rewrite Z.quot_div_nonneg by lia.
  assert (0 <= d / 8000 < 2 ^ 51) by (split; [apply Z.div_pos|apply Z.div_lt_upper_bound]; lia).
  by rewrite u64_small by lia.
Qed.

(** The number of ranges written and the space they take. *)
Lemma numEncodableAckRanges_spec r0 post d :
  ack_ok (mkAckFrame (r0 :: post) d) →
  ∃ m : nat, numEncodableAckRanges (mkAckFrame (r0 :: post) d) = Ok (Z.of_nat (S m)) ∧
    (m <= length post)%nat ∧
    1 + len (varint (Largest r0)) + len (varint (d / 8000)) + 2
      + len (enc_ranges (Smallest r0) (take m post)) <= MaxAckFrameSize.
Proof.
  intros (_ & (H1 & H2 & H3) & Hd). cbn [AckRanges DelayTime] in *. destruct (encodeAckDelay_ok d Hd) as [Ed Hd'].
  unfold numEncodableAckRanges, LargestAcked. simpl mbind. rewrite Ed, u64_small by lia.
  rewrite !VarIntLen_varint by (unfold maxVarInt8; lia). simpl mbind.
  pose proof (varint_len (Largest r0) ltac:(unfold maxVarInt8; lia)).
  pose proof (varint_len (d / 8000) ltac:(unfold maxVarInt8; lia)).
  rewrite Nat.sub_0_r.
  set (f := mkAckFrame (r0 :: post) d). set (n := 1 + _ + _ + 2).
  assert (n <= 19) by lia.
  destruct (numEncodable_loop_spec f [] r0 post n) as (m & Em & Hm & Hn); try done; [lia|unfold MaxAckFrameSize; lia|].
  simpl length in *. destruct m as [|m].
  - exfalso. destruct post as [|r post]; [simpl in Em; by rewrite len_cons, len_nil in Em|].
    revert Em. cbn [numEncodable_loop length].
    change 1%nat with (S (length (@nil AckRange))).
    rewrite (encodeAckRange_next f [] r0 r post) by (done || lia). simpl mbind.
    destruct H3 as (H31 & H32 & H33).
    rewrite !VarIntLen_varint by (unfold maxVarInt8; lia). simpl mbind.
    pose proof (varint_len (Smallest r0 - Largest r - 2) ltac:(unfold maxVarInt8; lia)).
    pose proof (varint_len (Largest r - Smallest r) ltac:(unfold maxVarInt8; lia)).
    destruct (Z.ltb_spec MaxAckFrameSize (n + (len (varint (Smallest r0 - Largest r - 2)) + len (varint (Largest r - Smallest r))))) as [L|L]; [unfold MaxAckFrameSize in L; lia|].
    destruct (numEncodable_loop_spec f [r0] r post _ ltac:(done) ltac:(lia) H33 L) as (m & E' & Hm' & _).
    intros Em'. cbn [length] in Em', E'. rewrite E' in Em'. injection Em' as Em'. simpl in Hm'. lia.
  - exists m. split; [done|]. split; [lia|]. replace (S m - 1)%nat with m in Hn by lia. exact Hn.
Qed.

(** The bytes of a well-formed frame of which [m] further ranges are kept. *)
Definition enc_ack (r0 : AckRange) (l : list AckRange) (d : Z) : list Z :=
  [0x2] ++ varint (Largest r0) ++ varint (d / 8000) ++ varint (len l)
  ++ varint (Largest r0 - Smallest r0) ++ enc_ranges (Smallest r0) l.

Lemma enc_ranges_min s l :
  0 <= s < 2 ^ 62 → ranges_below s l → 2 * Z.of_nat (length l) <= len (enc_ranges s l).
Proof.
  revert s. induction l as [|r l IH]; intros s Hs; simpl; autorewrite with len; [lia|].
  intros (H1 & H2 & H3). specialize (IH (Smallest r) ltac:(lia) H3).
  pose proof (varint_len (s - Largest r - 2) ltac:(unfold maxVarInt8; lia)).
  pose proof (varint_len (Largest r - Smallest r) ltac:(unfold maxVarInt8; lia)). lia.
Qed.

(** What [numEncodableAckRanges] decides for a frame: [m] ranges after the first. *)
Definition keeps (r0 : AckRange) (post : list AckRange) (d : Z) (m : nat) : Prop :=
  numEncodableAckRanges (mkAckFrame (r0 :: post) d) = Ok (Z.of_nat (S m)) ∧
  (m <= length post)%nat ∧ Z.of_nat m <= maxVarInt2 ∧ len (take m post) = Z.of_nat m ∧
  1 + len (varint (Largest r0)) + len (varint (d / 8000)) + 2
    + len (enc_ranges (Smallest r0) (take m post)) <= MaxAckFrameSize.

Lemma keeps_exists r0 post d : ack_ok (mkAckFrame (r0 :: post) d) → ∃ m, keeps r0 post d m.
Proof.
  intros Hok. destruct (numEncodableAckRanges_spec _ _ _ Hok) as (m & En & Hm & Hsz).
  destruct Hok as (_ & (H1 & H2 & H3) & _). exists m. repeat split; try done.
  - rewrite <- (take_drop m post) in H3. apply ranges_below_app in H3.
    pose proof (enc_ranges_min (Smallest r0) (take m post) ltac:(lia) H3) as Hmin.
    rewrite length_take in Hmin. unfold MaxAckFrameSize, maxVarInt2 in *.
    pose proof (len_nonneg (varint (Largest r0))). pose proof (len_nonneg (varint (d / 8000))). lia.
  - unfold len. rewrite length_take. lia.
Qed.

(** The space of the first [k] ranges, as it is counted: two bytes for their number, and
    none for the length of the first. *)
Definition ack_space (f : AckFrame) (k : nat) : Z :=
  match AckRanges f with
  | [] => 0
  | r0 :: post => 1 + len (varint (Largest r0)) + len (varint (DelayTime f / 8000)) + 2 + len (enc_ranges (Smallest r0) (take (k - 1) post))
  end.
(** [m] ranges are kept: they fit, and if they are not all, two more do not. *)
Definition ack_kept (f : AckFrame) (m : nat) : Prop :=
  (1 <= m <= length (AckRanges f))%nat ∧ ack_space f m <= MaxAckFrameSize ∧ (m = length (AckRanges f) ∨ MaxAckFrameSize < ack_space f (m + 2)).
Lemma keeps_kept r0 post d m : ack_ok (mkAckFrame (r0 :: post) d) → keeps r0 post d m → ack_kept (mkAckFrame (r0 :: post) d) (S m).
Proof.
  intros (_ & (H1 & H2 & H3) & Hd) (En & Hle & _ & _ & Hfit). unfold ack_kept, ack_space. cbn [AckRanges DelayTime length] in *. split; [lia|].
  replace (S m - 1)%nat with m by lia. split; [done|]. unfold numEncodableAckRanges, LargestAcked in En. cbn [AckRanges DelayTime length hd_error] in En. simpl mbind in En.
  destruct (encodeAckDelay_ok d Hd) as [Ed Hd']. rewrite Ed, u64_small in En by lia. rewrite !VarIntLen_varint in En by (unfold maxVarInt8; lia). simpl mbind in En. rewrite Nat.sub_0_r in En.
  destruct (numEncodable_loop_max (mkAckFrame (r0 :: post) d) [] r0 post _ _ eq_refl ltac:(lia) H3 En) as [E|(k & E & Hk)]; cbn [AckRanges length Nat.add] in E.
  - left. rewrite len_cons in E. unfold len in E. lia.
  - right. replace (S m + 2 - 1)%nat with (S k) by lia. exact Hk.
Qed.

Section Written.
Context (r0 : AckRange) (post : list AckRange) (d : Z) (m : nat).
Context (Hok : ack_ok (mkAckFrame (r0 :: post) d)) (Hm : keeps r0 post d m).

Lemma written_counts :
  u64 (Z.of_nat (S m) - 1) = len (take m post) ∧
  Z.to_nat (Z.of_nat (S m) - 1) = length (take m post).
Proof.
  destruct Hm as (_ & Hle & Hm2 & Hl & _). unfold maxVarInt2 in Hm2.
  rewrite length_take. unwrap. lia.
Qed.

Lemma AckFrame_emits :
  emits (AckFrame_Write (mkAckFrame (r0 :: post) d)) (enc_ack r0 (take m post) d).
Proof.
  destruct Hok as (_ & (H1 & H2 & H3) & Hd). cbn [AckRanges DelayTime] in *.
  destruct (encodeAckDelay_ok d Hd) as [Ed Hd']. destruct written_counts as [En1 En2].
  destruct Hm as (En & Hle & Hm2 & Hl & _). unfold maxVarInt2 in Hm2.
  unfold AckFrame_Write, enc_ack, wlift. rewrite En. cbn [LargestAcked AckRanges DelayTime].
  rewrite Ed, En1, En2, u64_small by lia.
  repeat apply emits_then; try apply emits_byte;
    try (apply emits_WriteVarInt; unfold maxVarInt8; lia).
  - unfold encodeAckRange. cbn. rewrite i64_small, u64_small by lia.
    apply emits_WriteVarInt. unfold maxVarInt8. lia.
  - apply (writeAckRanges_emits _ [] r0 (take m post) (drop m post)); try rewrite take_drop; done || lia.
Qed.

Lemma AckFrame_Length_ok :
  AckFrame_Length (mkAckFrame (r0 :: post) d) = Ok (len (enc_ack r0 (take m post) d)).
Proof.
  destruct Hok as (_ & (H1 & H2 & H3) & Hd). cbn [AckRanges DelayTime] in *.
  destruct (encodeAckDelay_ok d Hd) as [Ed Hd']. destruct written_counts as [En1 En2].
  destruct Hm as (En & Hle & Hm2 & Hl & _). unfold maxVarInt2 in Hm2.
  unfold AckFrame_Length. cbn [AckRanges DelayTime]. rewrite En. simpl mbind.
  rewrite Ed, En1, En2, (i64_small (Largest r0 - Smallest r0)), !u64_small by lia.
  rewrite !VarIntLen_varint by (unfold maxVarInt8; lia). simpl mbind.
  rewrite (lengthAckRanges_ok _ [] r0 (take m post) (drop m post)); try rewrite take_drop; try done; try lia.
  unfold enc_ack. autorewrite with len. f_equal. lia.
Qed.

Lemma AckFrame_size : len (enc_ack r0 (take m post) d) <= MaxAckFrameSize + 8.
Proof.
  destruct Hok as (_ & (H1 & H2 & H3) & Hd). destruct Hm as (_ & _ & Hm2 & Hl & Hsz).
  unfold enc_ack. autorewrite with len. rewrite Hl.
  rewrite (len_varint_eq (Z.of_nat m)) by (unfold maxVarInt8, maxVarInt2 in *; lia).
  pose proof (varint_len (Largest r0 - Smallest r0) ltac:(unfold maxVarInt8; lia)).
  unfold maxVarInt1 in *. zcases; lia.
Qed.
End Written.

(** * What is read back *)

Lemma bind_reads {A B} (p : parser A) (f : A → parser B) s a r :
  reads p s a → (p ≫= f) (s ++ r) = f a r.
Proof. intros H. unfold mbind, parser_bind. by rewrite H. Qed.

Lemma parseAckBlocks_reads fuel i n s l acc :
  0 <= s < 2 ^ 62 → ranges_below s l → (length l < fuel)%nat → n = i + len l →
  reads (parseAckBlocks fuel i n s acc) (enc_ranges s l) (acc ++ l).
Proof.
  revert fuel i n s acc. induction l as [|r l IH]; intros fuel i n s acc Hs Hl Hf ->.
  - destruct fuel; [simpl in Hf; lia|]. intros rest. simpl. rewrite len_nil, app_nil_r.
    destruct (Z.ltb_spec i (i + 0)); [lia|done].
  - destruct fuel as [|fuel]; [simpl in Hf; lia|]. destruct Hl as (H1 & H2 & H3).
    intros rest. cbn [parseAckBlocks enc_ranges]. rewrite len_cons.
    pose proof (len_nonneg l). destruct (Z.ltb_spec i (i + (1 + len l))); [|lia].
    rewrite <- !app_assoc. rewrite (bind_reads _ _ _ (s - Largest r - 2))
      by (apply reads_ReadVarInt; unfold maxVarInt8; lia).
    cbv zeta. rewrite (i64_small (s - Largest r - 2)), i64_small by lia.
    destruct (Z.ltb_spec s (s - Largest r - 2 + 2)); [lia|].
    rewrite (bind_reads _ _ _ (Largest r - Smallest r))
      by (apply reads_ReadVarInt; unfold maxVarInt8; lia).
    cbv zeta. rewrite (i64_small (Largest r - Smallest r)), (i64_small (s - (s - Largest r - 2) - 2)) by lia.
    replace (s - (s - Largest r - 2) - 2) with (Largest r) by lia.
    destruct (Z.ltb_spec (Largest r) (Largest r - Smallest r)); [lia|].
    rewrite i64_small by lia. replace (Largest r - (Largest r - Smallest r)) with (Smallest r) by lia.
    rewrite (IH fuel (i + 1) _ (Smallest r) (acc ++ [mkAckRange (Smallest r) (Largest r)])) by (done || simpl in Hf; lia).
    rewrite <- app_assoc. by destruct r.
Qed.

Lemma decodeAckDelay_ok d : 0 <= d < 2 ^ 63 → decodeAckDelay AckDelayExponent (d / 8000) = d / 8000 * 8000.
Proof.
  intros Hd. destruct (encodeAckDelay_ok d Hd) as [_ Hd'].
  assert (d / 8000 * 8000 <= d) by (pose proof (Z.div_mod d 8000 ltac:(lia)); pose proof (Z.mod_pos_bound d 8000); lia).
  unfold decodeAckDelay, AckDelayExponent, Microsecond. rewrite Z.mul_1_r, Z.shiftl_mul_pow2 by lia.
  rewrite (u64_small (d / 8000)) by lia. change (2 ^ 3) with 8. rewrite u64_small, (i64_small (d / 8000 * 8)) by lia.
  rewrite i64_small by lia. zcases; lia.
Qed.

Lemma parseAckFrame_enc r0 l d :
  ranges_below (2 ^ 62 + 1) (r0 :: l) → len l <= maxVarInt2 → 0 <= d < 2 ^ 63 →
  reads (parseAckFrame AckDelayExponent) (enc_ack r0 l d) (mkAckFrame (r0 :: l) (d / 8000 * 8000)).
Proof.
  intros Hr Hl Hd rest. pose proof Hr as (H1 & H2 & H3). unfold maxVarInt2 in Hl.
  destruct (encodeAckDelay_ok d Hd) as [_ Hd']. pose proof (len_nonneg l).
  unfold parseAckFrame, enc_ack. rewrite <- !app_assoc.
  rewrite (bind_reads _ _ [0x2] 0x2) by done. cbv zeta.
  rewrite (bind_reads _ _ _ (Largest r0)) by (apply reads_ReadVarInt; unfold maxVarInt8; lia).
  rewrite (bind_reads _ _ _ (d / 8000)) by (apply reads_ReadVarInt; unfold maxVarInt8; lia).
  rewrite (bind_reads _ _ _ (len l)) by (apply reads_ReadVarInt; unfold maxVarInt8; lia).
  rewrite (bind_reads _ _ _ (Largest r0 - Smallest r0)) by (apply reads_ReadVarInt; unfold maxVarInt8; lia).
  rewrite !i64_small by lia.
  destruct (Z.ltb_spec (Largest r0) (Largest r0 - Smallest r0)); [lia|].
  replace (Largest r0 - (Largest r0 - Smallest r0)) with (Smallest r0) by lia.
  rewrite decodeAckDelay_ok by done.
  unfold mbind at 1, parser_bind at 1, ReaderLen at 1.
  rewrite (bind_reads _ _ _ ([r0] ++ l)).
  2:{ destruct r0 as [s0 l0]. apply parseAckBlocks_reads; [simpl in *; lia|done| |done].
      pose proof (enc_ranges_min s0 l ltac:(simpl in *; lia) H3).
      rewrite len_app. pose proof (len_nonneg rest). simpl in *. lia. }
  cbn [app]. rewrite validate_below by done. done.
Qed.

(** * Parsing arbitrary bytes *)

Lemma safe_parseAckBlocks fuel i n s acc r :
  (length r < fuel)%nat →
  match parseAckBlocks fuel i n s acc r with
  | Ok (_, r') => (length r' <= length r)%nat | Err _ => True | Panic _ => False end.
Proof.
  revert i s acc r. induction fuel as [|fuel IH]; intros i s acc r Hf; [lia|]. simpl.
  destruct (i <? n); [|simpl; lia]. unfold mbind at 1, parser_bind at 1.
  pose proof (safe_ReadVarInt r). destruct (ReadVarInt r) as [[g r1]| |] eqn:E1; [|done..].
  apply ReadVarInt_consumes in E1. destruct (s <? _); [done|].
  unfold mbind at 1, parser_bind at 1.
  pose proof (safe_ReadVarInt r1). destruct (ReadVarInt r1) as [[ab r2]| |]; [|done..].
  destruct (_ <? _); [done|].
  match goal with |- context [parseAckBlocks fuel ?a n ?b ?c r2] => specialize (IH a b c r2 ltac:(lia)) end.
  destruct (parseAckBlocks _ _ _ _ _ r2) as [[]| |]; [lia|done..].
Qed.

(** After the type byte everything is safe. *)
Lemma parseAckFrame_safe_body e :
  ∃ k, parseAckFrame e = (ReadByte ≫= k) ∧ ∀ c, safe (k c).
Proof.
  eexists. split; [reflexivity|]. intros c.
  unfold skipECN. cbv zeta. do 4 (apply safe_bind; [solve_safe|intros ?]).
  destruct (_ <? _); [solve_safe|]. intros r. unfold mbind at 1, parser_bind at 1, ReaderLen at 1.
  unfold mbind at 1, parser_bind at 1. unfold len. rewrite Nat2Z.id.
  match goal with |- context [parseAckBlocks ?f ?a ?b ?c ?d r] =>
    pose proof (safe_parseAckBlocks f a b c d r ltac:(lia)) as Hb;
    destruct (parseAckBlocks f a b c d r) as [[l r']| |] end; [|done..].
  destruct (negb _); [done|].
  match goal with |- context [?p r'] => assert (Hs : safe p) by solve_safe; specialize (Hs r');
    destruct (p r') as [[]| |]; [lia|done..] end.
Qed.
Lemma safe_parseAckFrame e : safe (parseAckFrame e).
Proof. destruct (parseAckFrame_safe_body e) as (k & -> & Hk). apply safe_bind; [apply safe_ReadByte|done]. Qed.
#[export] Hint Resolve safe_parseAckFrame : safe.

(** Appending a range below the last one keeps the list well formed. *)
Lemma ranges_below_snoc hi l r0 r :
  ranges_below hi l → last l = Some r0 → 0 <= Smallest r <= Largest r → Largest r + 1 < Smallest r0 →
  ranges_below hi (l ++ [r]).
Proof.
  revert hi. induction l as [|a l IH]; intros hi Hl Hlast Hr Hlt; [done|].
  destruct Hl as (H1 & H2 & H3). simpl. split; [done|]. split; [done|].
  destruct l as [|a' l]; simpl in Hlast |- *.
  - simplify_eq. auto.
  - apply IH; auto.
Qed.

Lemma yields_parseAckBlocks hi fuel i n s acc :
  ranges_below hi acc → (∃ r0, last acc = Some r0 ∧ Smallest r0 = s) → 0 <= s < 2 ^ 62 →
  yields (parseAckBlocks fuel i n s acc) (λ l, l ≠ [] ∧ ranges_below hi l).
Proof.
  revert i s acc. induction fuel as [|fuel IH]; intros i s acc Hacc (r0 & Hlast & Hs) Hs2; [done|].
  cbn [parseAckBlocks]. destruct (i <? n).
  2:{ apply yields_ret. split; [|done]. by destruct acc. }
  eapply yields_bind; [apply yields_ReadVarInt|]. unfold maxVarInt8. intros g Hg.
  cbv zeta. rewrite (i64_small g), (i64_small (g + 2)) by lia.
  destruct (Z.ltb_spec s (g + 2)); [apply yields_fail|].
  eapply yields_bind; [apply yields_ReadVarInt|]. unfold maxVarInt8. intros ab Hab.
  rewrite (i64_small ab), (i64_small (s - g - 2)) by lia.
  destruct (Z.ltb_spec (s - g - 2) ab); [apply yields_fail|]. rewrite i64_small by lia.
  apply IH.
  - eapply ranges_below_snoc; eauto; simpl; lia.
  - eexists. rewrite last_snoc. eauto.
  - lia.
Qed.

Lemma decodeAckDelay_range e delay : 0 <= decodeAckDelay e delay < 2 ^ 63.
Proof.
  unfold decodeAckDelay, InfDuration. destruct (Z.ltb_spec (i64 (i64 (u64 (Z.shiftl (u64 (delay * 1)) e)) * Microsecond)) 0);
  pose proof (i64_range (i64 (u64 (Z.shiftl (u64 (delay * 1)) e)) * Microsecond)); lia.
Qed.

Lemma yields_parseAckFrame e : yields (parseAckFrame e) ack_ok.
Proof.
  unfold parseAckFrame. eapply yields_bind; [apply yields_ReadByte|intros tb _]. cbv zeta.
  do 4 (eapply yields_bind; [apply yields_ReadVarInt|]; unfold maxVarInt8; intros ? ?).
  rewrite !i64_small by lia. destruct (Z.ltb_spec a a2); [apply yields_fail|].
  eapply yields_bind; [apply yields_ReaderLen|intros len _].
  eapply yields_bind.
  { apply (yields_parseAckBlocks (2 ^ 62 + 1)); simpl; [lia| |lia]. eauto. }
  intros l [Hne Hl]. destruct (negb _); [apply yields_fail|].
  eapply (yields_bind _ _ (λ _, True)).
  { unfold skipECN. destruct (0 <? Z.land tb 1); [|by apply yields_ret].
    do 3 (eapply yields_bind; [apply yields_ReadVarInt|]; intros ? _). by apply yields_ret. }
  intros _ _. apply yields_ret. split; [done|]. split; [done|]. apply decodeAckDelay_range.
Qed.
#[export] Hint Resolve yields_parseAckFrame : wire.

(** * Claims *)

(** An ACK frame survives the wire.  Writing a well-formed frame succeeds,
    and parsing the bytes gives back its highest ranges -- all those the size
    limit lets it encode, at least one -- with the delay rounded down to the
    8 microsecond unit of the ack delay exponent. *)
Theorem ack_frame_roundtrip (f : AckFrame) (Hok : ack_ok f) :
  ∃ (m : nat) p, (1 <= m <= length (AckRanges f))%nat ∧
    emits (AckFrame_Write f) p ∧
    reads (parseAckFrame AckDelayExponent) p
      (mkAckFrame (take m (AckRanges f)) (DelayTime f / 8000 * 8000)).
Proof.
  destruct f as [[|r0 post] d]; [by destruct Hok|].
  destruct (keeps_exists _ _ _ Hok) as [m Hm].
  exists (S m), (enc_ack r0 (take m post) d). pose proof Hm as (_ & Hle & Hm2 & Hl & _).
  split; [simpl; lia|]. split; [by apply AckFrame_emits|].
  destruct Hok as (_ & Hr & Hd). cbn [AckRanges DelayTime take] in *.
  apply parseAckFrame_enc; [|lia|done].
  apply (ranges_below_app _ _ (drop m post)). cbn [app]. by rewrite take_drop.
Qed.

Definition ack_example : AckFrame :=
  mkAckFrame [mkAckRange 100 120; mkAckRange 90 95; mkAckRange 3 3] 20000.
Lemma ack_example_ok : ack_ok ack_example.
Proof. split; [done|]. split; [|simpl; lia]. by apply (bool_decide_unpack _). Qed.

Lemma ack_frame_roundtrip_witness :
  ∃ (m : nat) p, (1 <= m <= 3)%nat ∧ emits (AckFrame_Write ack_example) p ∧
    reads (parseAckFrame AckDelayExponent) p (mkAckFrame (take m (AckRanges ack_example)) 16000).
Proof. exact (ack_frame_roundtrip ack_example ack_example_ok). Defined.

(** 495 ranges, the first of them more than 16384 packets wide: the count of
    [numEncodableAckRanges] leaves out the length of the first range. *)
Definition ack_oversize : AckFrame :=
  mkAckFrame (mkAckRange 2000 (2 ^ 30) ::
    map (λ i, mkAckRange (Z.of_nat (4 * i)) (Z.of_nat (4 * i + 1))) (reverse (seq 0 494))) 0.

(** The size of a written ACK frame.  [Length] is exactly the number of
    bytes [Write] produces and is at most 8 bytes above [MaxAckFrameSize]; the
    limit itself is not respected: a well-formed frame of 495 ranges takes 1004
    bytes, because [numEncodableAckRanges] does not count the first range. *)
Theorem ack_frame_size (f : AckFrame) (Hok : ack_ok f) :
  (∃ p n, emits (AckFrame_Write f) p ∧ AckFrame_Length f = Ok n ∧ len p = n ∧
     n <= MaxAckFrameSize + 8) ∧
  (ack_ok ack_oversize ∧ AckFrame_Length ack_oversize = Ok 1004 ∧ MaxAckFrameSize < 1004).
Proof.
  split.
  - destruct f as [[|r0 post] d]; [by destruct Hok|].
    destruct (keeps_exists _ _ _ Hok) as [m Hm].
    exists (enc_ack r0 (take m post) d), (len (enc_ack r0 (take m post) d)).
    split; [by apply AckFrame_emits|]. split; [by apply AckFrame_Length_ok|].
    split; [done|]. by apply AckFrame_size.
  - split; [|split; [by vm_compute|done]].
    split; [done|]. split; [|simpl; lia]. apply (bool_decide_unpack _). by vm_compute.
Qed.

Lemma ack_frame_size_witness :
  ∃ p n, emits (AckFrame_Write ack_example) p ∧ AckFrame_Length ack_example = Ok n ∧ len p = n ∧
    n <= MaxAckFrameSize + 8.
Proof. exact (proj1 (ack_frame_size ack_example ack_example_ok)). Defined.

(** [AcksPacket] decides membership.  On a well-formed frame the binary
    search never indexes out of range and answers whether some range contains
    the packet number. *)
Theorem acks_packet_correct (f : AckFrame) (p : Z) (Hok : ack_ok f) :
  ∃ b, AcksPacket f p = Ok b ∧ (b = true ↔ covers (AckRanges f) p).
Proof. destruct Hok as (Hne & Hl & _). by apply AcksPacket_ranges. Qed.

Lemma acks_packet_correct_witness :
  ∃ b, AcksPacket ack_example 93 = Ok b ∧ (b = true ↔ covers (AckRanges ack_example) 93).
Proof. exact (acks_packet_correct ack_example 93 ack_example_ok). Defined.
