(* ===== verification/Frames.v ===== *)
(** Frames: package core/wire.  The QUIC frames other than ACK, each with its
    parser, its writer and its length.  bytes.Reader is a byte list, bytes.Buffer
    an accumulated one. *)

From S2P Require Import Prelude Utils Protocol AckFrame.

(** qerr error codes (core/qerr/error_codes.go) *)
Definition NoError : Z := 0x0.
Definition InternalError : Z := 0x1.
Definition ServerBusy : Z := 0x2.
Definition FlowControlError : Z := 0x3.
Definition StreamLimitError : Z := 0x4.
Definition StreamStateError : Z := 0x5.
Definition FinalSizeError : Z := 0x6.
Definition FrameEncodingError : Z := 0x7.
Definition TransportParameterError : Z := 0x8.
Definition VersionNegotiationError : Z := 0x9.
Definition ProtocolViolation : Z := 0xa.
Definition InvalidMigration : Z := 0xc.

(** Sum of the lengths in a [Length] method. *)
Definition sum_len (l : list (outcome Z)) : outcome Z :=
  foldr (λ m acc, a ← m; n ← acc; Ok (a + n)) (Ok 0) l.

(** * reset_stream_frame.go, stop_sending_frame.go *)

Record ResetStreamFrame := mkResetStream { rs_StreamID : Z; rs_ErrorCode : Z; rs_ByteOffset : Z }.
Definition parseResetStreamFrame : parser ResetStreamFrame :=
  _ ← ReadByte;
  sid ← ReadVarInt; errorCode ← ReadVarInt; bo ← ReadVarInt;
  mret (mkResetStream (i64 sid) errorCode bo).
Definition ResetStreamFrame_Write (f : ResetStreamFrame) : writer :=
  WriteByte 0x4 >>> WriteVarInt (u64 (rs_StreamID f)) >>> WriteVarInt (rs_ErrorCode f)
  >>> WriteVarInt (rs_ByteOffset f).
Definition ResetStreamFrame_Length (f : ResetStreamFrame) : outcome Z :=
  sum_len [Ok 1; VarIntLen (u64 (rs_StreamID f)); VarIntLen (rs_ErrorCode f); VarIntLen (rs_ByteOffset f)].

Record StopSendingFrame := mkStopSending { ss_StreamID : Z; ss_ErrorCode : Z }.
Definition parseStopSendingFrame : parser StopSendingFrame :=
  _ ← ReadByte;
  streamID ← ReadVarInt; errorCode ← ReadUint16;
  mret (mkStopSending (i64 streamID) errorCode).
Definition StopSendingFrame_Length (f : StopSendingFrame) : outcome Z :=
  sum_len [Ok 1; VarIntLen (u64 (ss_StreamID f)); Ok 2].
Definition StopSendingFrame_Write (f : StopSendingFrame) : writer :=
  WriteByte 0x5 >>> WriteVarInt (u64 (ss_StreamID f)) >>> WriteUint16 (u16 (ss_ErrorCode f)).

(** * crypto_frame.go, new_token_frame.go *)

Record CryptoFrame := mkCrypto { c_Offset : Z; c_Data : list Z }.
Definition parseCryptoFrame : parser CryptoFrame :=
  _ ← ReadByte;
  offset ← ReadVarInt; dataLen ← ReadVarInt;
  rlen ← ReaderLen;
  if rlen <? dataLen then fail EOF
  else if negb (dataLen =? 0) then data ← ReadFull dataLen; mret (mkCrypto offset data)
  else mret (mkCrypto offset []).
Definition CryptoFrame_Write (f : CryptoFrame) : writer :=
  WriteByte 0x6 >>> WriteVarInt (c_Offset f) >>> WriteVarInt (len (c_Data f)) >>> WriteBytes (c_Data f).
Definition CryptoFrame_Length (f : CryptoFrame) : outcome Z :=
  sum_len [Ok 1; VarIntLen (c_Offset f); VarIntLen (len (c_Data f)); Ok (len (c_Data f))].
Definition CryptoFrame_MaxDataLen (f : CryptoFrame) (maxSize : Z) : outcome Z :=
  lo ← VarIntLen (c_Offset f);
  let headerLen := 1 + lo + 1 in
  if maxSize <? headerLen then Ok 0 else
  let maxDataLen := maxSize - headerLen in
  l ← VarIntLen maxDataLen;
  if negb (l =? 1) then Ok (maxDataLen - 1) else Ok maxDataLen.

Record NewTokenFrame := mkNewToken { nt_Token : list Z }.
Definition parseNewTokenFrame : parser NewTokenFrame :=
  _ ← ReadByte;
  tokenLen ← ReadVarInt;
  rlen ← ReaderLen;
  if rlen <? tokenLen then fail EOF
  else if tokenLen =? 0 then fail (Errorf "token must not be empty" [])
  else token ← ReadFull tokenLen; mret (mkNewToken token).
Definition NewTokenFrame_Write (f : NewTokenFrame) : writer :=
  WriteByte 0x7 >>> WriteVarInt (len (nt_Token f)) >>> WriteBytes (nt_Token f).
Definition NewTokenFrame_Length (f : NewTokenFrame) : outcome Z :=
  sum_len [Ok 1; VarIntLen (len (nt_Token f)); Ok (len (nt_Token f))].

(** * max_data_frame.go, max_stream_data_frame.go, max_streams_frame.go *)

Record MaxDataFrame := mkMaxData { md_ByteOffset : Z }.
Definition parseMaxDataFrame : parser MaxDataFrame :=
  _ ← ReadByte; byteOffset ← ReadVarInt; mret (mkMaxData byteOffset).
Definition MaxDataFrame_Write (f : MaxDataFrame) : writer :=
  WriteByte 0x10 >>> WriteVarInt (md_ByteOffset f).
Definition MaxDataFrame_Length (f : MaxDataFrame) : outcome Z :=
  sum_len [Ok 1; VarIntLen (md_ByteOffset f)].

Record MaxStreamDataFrame := mkMaxStreamData { msd_StreamID : Z; msd_ByteOffset : Z }.
Definition parseMaxStreamDataFrame : parser MaxStreamDataFrame :=
  _ ← ReadByte; sid ← ReadVarInt; offset ← ReadVarInt;
  mret (mkMaxStreamData (i64 sid) offset).
Definition MaxStreamDataFrame_Write (f : MaxStreamDataFrame) : writer :=
  WriteByte 0x11 >>> WriteVarInt (u64 (msd_StreamID f)) >>> WriteVarInt (msd_ByteOffset f).
Definition MaxStreamDataFrame_Length (f : MaxStreamDataFrame) : outcome Z :=
  sum_len [Ok 1; VarIntLen (u64 (msd_StreamID f)); VarIntLen (msd_ByteOffset f)].

(** In the Go struct the type field is a [uint8] whose zero value is [StreamTypeUni]. *)
Record MaxStreamsFrame := mkMaxStreams { ms_Type : StreamType; ms_MaxStreamNum : Z }.
Definition parseMaxStreamsFrame : parser MaxStreamsFrame :=
  typeByte ← ReadByte;
  let ty := if typeByte =? 0x12 then StreamTypeBidi else StreamTypeUni in
  streamID ← ReadVarInt;
  mret (mkMaxStreams ty (i64 streamID)).
Definition MaxStreamsFrame_Write (f : MaxStreamsFrame) : writer :=
  match ms_Type f with StreamTypeBidi => WriteByte 0x12 | StreamTypeUni => WriteByte 0x13 end
  >>> WriteVarInt (u64 (ms_MaxStreamNum f)).
Definition MaxStreamsFrame_Length (f : MaxStreamsFrame) : outcome Z :=
  sum_len [Ok 1; VarIntLen (u64 (ms_MaxStreamNum f))].

(** * data_blocked_frame.go, stream_data_blocked_frame.go, streams_blocked_frame.go *)

Record DataBlockedFrame := mkDataBlocked { db_DataLimit : Z }.
Definition parseDataBlockedFrame : parser DataBlockedFrame :=
  _ ← ReadByte; offset ← ReadVarInt; mret (mkDataBlocked offset).
Definition DataBlockedFrame_Write (f : DataBlockedFrame) : writer :=
  WriteByte 0x14 >>> WriteVarInt (db_DataLimit f).
Definition DataBlockedFrame_Length (f : DataBlockedFrame) : outcome Z :=
  sum_len [Ok 1; VarIntLen (db_DataLimit f)].

Record StreamDataBlockedFrame := mkStreamDataBlocked { sdb_StreamID : Z; sdb_DataLimit : Z }.
Definition parseStreamDataBlockedFrame : parser StreamDataBlockedFrame :=
  _ ← ReadByte; sid ← ReadVarInt; offset ← ReadVarInt;
  mret (mkStreamDataBlocked (i64 sid) offset).
Definition StreamDataBlockedFrame_Write (f : StreamDataBlockedFrame) : writer :=
  WriteByte 0x15 >>> WriteVarInt (u64 (sdb_StreamID f)) >>> WriteVarInt (sdb_DataLimit f).
Definition StreamDataBlockedFrame_Length (f : StreamDataBlockedFrame) : outcome Z :=
  sum_len [Ok 1; VarIntLen (u64 (sdb_StreamID f)); VarIntLen (sdb_DataLimit f)].

Record StreamsBlockedFrame := mkStreamsBlocked { sb_Type : StreamType; sb_StreamLimit : Z }.
Definition parseStreamsBlockedFrame : parser StreamsBlockedFrame :=
  typeByte ← ReadByte;
  let ty := if typeByte =? 0x16 then StreamTypeBidi else StreamTypeUni in
  streamLimit ← ReadVarInt;
  mret (mkStreamsBlocked ty (i64 streamLimit)).
Definition StreamsBlockedFrame_Write (f : StreamsBlockedFrame) : writer :=
  match sb_Type f with StreamTypeBidi => WriteByte 0x16 | StreamTypeUni => WriteByte 0x17 end
  >>> WriteVarInt (u64 (sb_StreamLimit f)).
Definition StreamsBlockedFrame_Length (f : StreamsBlockedFrame) : outcome Z :=
  sum_len [Ok 1; VarIntLen (u64 (sb_StreamLimit f))].

(** * new_connection_id_frame.go, retire_connection_id_frame.go *)

Record NewConnectionIDFrame := mkNewConnectionID {
  nc_SequenceNumber : Z; nc_RetirePriorTo : Z; nc_ConnectionID : list Z;
  nc_StatelessResetToken : list Z }.
(** [io.ReadFull] into a fixed array, with [io.ErrUnexpectedEOF] turned into [io.EOF]. *)
Definition ReadArray (n : Z) : parser (list Z) := λ r,
  match ReadFull n r with Err UnexpectedEOF => Err EOF | res => res end.
Definition parseNewConnectionIDFrame : parser NewConnectionIDFrame :=
  _ ← ReadByte;
  seq ← ReadVarInt; ret ← ReadVarInt;
  if seq <? ret then
    fail (Errorf "Retire Prior To value (%d) larger than Sequence Number (%d)" [ret; seq]) else
  connIDLen ← ReadByte;
  if MaxConnIDLen <? connIDLen then fail (Errorf "invalid connection ID length: %d" [connIDLen]) else
  connID ← ReadConnectionID connIDLen;
  token ← ReadArray 16;
  mret (mkNewConnectionID seq ret connID token).
Definition NewConnectionIDFrame_Write (f : NewConnectionIDFrame) : writer :=
  WriteByte 0x18 >>> WriteVarInt (nc_SequenceNumber f) >>> WriteVarInt (nc_RetirePriorTo f)
  >>> (let connIDLen := len (nc_ConnectionID f) in
       if MaxConnIDLen <? connIDLen then wfail (Errorf "invalid connection ID length: %d" [connIDLen])
       else WriteByte (u8 connIDLen) >>> WriteBytes (nc_ConnectionID f)
            >>> WriteBytes (nc_StatelessResetToken f)).
Definition NewConnectionIDFrame_Length (f : NewConnectionIDFrame) : outcome Z :=
  sum_len [Ok 1; VarIntLen (nc_SequenceNumber f); VarIntLen (nc_RetirePriorTo f); Ok 1;
           Ok (len (nc_ConnectionID f)); Ok 16].

Record RetireConnectionIDFrame := mkRetireConnectionID { rc_SequenceNumber : Z }.
Definition parseRetireConnectionIDFrame : parser RetireConnectionIDFrame :=
  _ ← ReadByte; seq ← ReadVarInt; mret (mkRetireConnectionID seq).
Definition RetireConnectionIDFrame_Write (f : RetireConnectionIDFrame) : writer :=
  WriteByte 0x19 >>> WriteVarInt (rc_SequenceNumber f).
Definition RetireConnectionIDFrame_Length (f : RetireConnectionIDFrame) : outcome Z :=
  sum_len [Ok 1; VarIntLen (rc_SequenceNumber f)].

(** * path_challenge_frame.go, path_response_frame.go, ping_frame.go *)

Record PathChallengeFrame := mkPathChallenge { pc_Data : list Z }.
Definition parsePathChallengeFrame : parser PathChallengeFrame :=
  _ ← ReadByte; data ← ReadArray 8; mret (mkPathChallenge data).
Definition PathChallengeFrame_Write (f : PathChallengeFrame) : writer :=
  WriteByte 0x1a >>> WriteBytes (pc_Data f).
Definition PathChallengeFrame_Length (f : PathChallengeFrame) : outcome Z := Ok (1 + 8).

Record PathResponseFrame := mkPathResponse { pr_Data : list Z }.
Definition parsePathResponseFrame : parser PathResponseFrame :=
  _ ← ReadByte; data ← ReadArray 8; mret (mkPathResponse data).
Definition PathResponseFrame_Write (f : PathResponseFrame) : writer :=
  WriteByte 0x1b >>> WriteBytes (pr_Data f).
Definition PathResponseFrame_Length (f : PathResponseFrame) : outcome Z := Ok (1 + 8).

Definition parsePingFrame : parser () := _ ← ReadByte; mret ().
Definition PingFrame_Write : writer := WriteByte 0x1.
Definition PingFrame_Length : outcome Z := Ok 1.

(** * connection_close_frame.go *)

Record ConnectionCloseFrame := mkConnectionClose {
  cc_IsApplicationError : bool; cc_ErrorCode : Z; cc_FrameType : Z; cc_ReasonPhrase : list Z }.
Definition parseConnectionCloseFrame : parser ConnectionCloseFrame :=
  typeByte ← ReadByte;
  let isApp := typeByte =? 0x1d in
  ec ← ReadVarInt;
  ft ← (if negb isApp then ReadVarInt else mret 0);
  reasonPhraseLen ← ReadVarInt;
  rlen ← ReaderLen;
  if rlen <? i64 reasonPhraseLen then fail EOF else
  reasonPhrase ← ReadFull reasonPhraseLen;
  mret (mkConnectionClose isApp ec ft reasonPhrase).
Definition ConnectionCloseFrame_Length (f : ConnectionCloseFrame) : outcome Z :=
  sum_len ([Ok 1; VarIntLen (cc_ErrorCode f); VarIntLen (len (cc_ReasonPhrase f));
            Ok (len (cc_ReasonPhrase f))]
           ++ if negb (cc_IsApplicationError f) then [VarIntLen (cc_FrameType f)] else []).
Definition ConnectionCloseFrame_Write (f : ConnectionCloseFrame) : writer :=
  (if cc_IsApplicationError f then WriteByte 0x1d else WriteByte 0x1c)
  >>> WriteVarInt (cc_ErrorCode f)
  >>> (if negb (cc_IsApplicationError f) then WriteVarInt (cc_FrameType f) else wdone)
  >>> WriteVarInt (len (cc_ReasonPhrase f)) >>> WriteBytes (cc_ReasonPhrase f).
