(* ===== verification/FrameCodec.v ===== *)
(** FrameCodec: the law every simple frame of core/wire obeys, and the proof that
    each of the sixteen frame types of Frames obeys it. *)

From S2P Require Import Prelude Utils Protocol AckFrame Frames.

#[local] Unset Program Cases.

(** What the [Frame] interface of interface.go promises, for the frames whose
    parser inverts their writer: on a well-formed value, [Write] emits a type byte
    and a body, [Length] is the number of bytes emitted, the parser reads the
    value back, never panics and only returns well-formed values. *)
Class FrameCodec (A : Type) := {
  fc_write : A → writer;
  fc_length : A → outcome Z;
  fc_parse : parser A;
  fc_ok : A → Prop;
  fc_type : A → Z;
  fc_body : A → list Z;
  fc_emits a : fc_ok a → emits (fc_write a) ([fc_type a] ++ fc_body a);
  fc_len a : fc_ok a → fc_length a = Ok (1 + len (fc_body a));
  fc_reads a : fc_ok a → reads fc_parse ([fc_type a] ++ fc_body a) a;
  fc_yields : yields fc_parse fc_ok;
  fc_safe : safe fc_parse }.

Definition vi_ok (z : Z) : Prop := 0 <= z <= maxVarInt8.

Lemma reads_guard {A} (k : Z → parser A) s a :
  (∀ n, len s <= n → reads (k n) s a) → reads (ReaderLen ≫= k) s a.
Proof.
  intros H rest. unfold mbind, parser_bind, ReaderLen. apply H.
  autorewrite with len. pose proof (len_nonneg rest). lia.
Qed.
Lemma reads_ReadArray l n : len l = n → reads (ReadArray n) l l.
Proof. intros <- rest. unfold ReadArray. by rewrite (reads_ReadFull l rest). Qed.
Lemma reads_if_ok {A} (b : bool) (p q : parser A) s a :
  b = false → reads q s a → reads (if b then p else q) s a.
Proof. by intros ->. Qed.
Lemma yields_ReadArray n : 0 <= n → yields (ReadArray n) (λ l, bytes_ok l ∧ len l = n).
Proof.
  intros Hn r a rest Hr E. apply (yields_ReadFull n Hn r a rest Hr). unfold ReadArray in E.
  by destruct (ReadFull n r) as [|[]|].
Qed.
Lemma safe_ReadArray n : safe (ReadArray n).
Proof.
  intros r. unfold ReadArray. pose proof (safe_ReadFull n r). by destruct (ReadFull n r) as [|[]|].
Qed.
#[export] Hint Resolve safe_ReadArray safe_ReadVarInt safe_ReadUint16 safe_ReadConnectionID : safe.

Lemma emits_cons c w p : emits w p → emits (WriteByte c >>> w) (c :: p).
Proof. apply (emits_then _ _ [c]). apply emits_byte. Qed.
Lemma emits_done_then w p : emits w p → emits (wdone >>> w) p.
Proof. apply (emits_then _ _ []). apply emits_done. Qed.
Lemma reads_cons {B} c (f : Z → parser B) s b : reads (f c) s b → reads (ReadByte ≫= f) (c :: s) b.
Proof. apply (reads_bind _ _ [c]). apply reads_ReadByte. Qed.

(** Tactics for the five laws. *)
Ltac codec_ok :=
  repeat match goal with
  | H : _ ∧ _ |- _ => destruct H
  end; unfold vi_ok, maxVarInt8, MaxConnIDLen in *; simpl in *.
Ltac codec_emits :=
  codec_ok; unwrap;
  repeat first [ apply emits_byte | apply emits_bytes
               | apply emits_WriteVarInt; unfold maxVarInt8; lia
               | apply emits_Uint16
               | match goal with
                 | |- emits (wdone >>> _) _ => apply emits_done_then
                 | |- emits (WriteByte _ >>> _) (_ :: _) => apply emits_cons
                 end | apply emits_then ].
Ltac codec_length :=
  codec_ok; unfold sum_len; simpl; unwrap;
  rewrite ?VarIntLen_varint by (unfold maxVarInt8; lia);
  simpl; autorewrite with len; f_equal; lia.
Ltac codec_read :=
  first [ apply reads_Uint16; lia | apply reads_ReadByte | apply reads_ReadVarInt; unfold maxVarInt8; lia
        | apply reads_ReadFull | apply reads_ReadConnectionID
        | apply reads_ReadArray; lia ].
Ltac codec_reads :=
  codec_ok; cbv zeta;
  repeat first [ eapply reads_map; [codec_read|] | apply reads_cons | eapply reads_bind; [codec_read|] ];
  simpl; unwrap; try apply reads_ret.
Ltac codec_yield :=
  first [ apply yields_ReadByte | apply yields_ReadVarInt | apply yields_ReadUint16
        | apply yields_ReaderLen ].
Ltac codec_yields :=
  repeat (eapply yields_bind; [codec_yield|]; cbv beta zeta; intros ? ?);
  try (apply yields_ret; codec_ok; unwrap; repeat split; lia).


#[export] Program Instance ResetStream_codec : FrameCodec ResetStreamFrame := {|
  fc_write := ResetStreamFrame_Write; fc_length := ResetStreamFrame_Length;
  fc_parse := parseResetStreamFrame;
  fc_ok f := vi_ok (rs_StreamID f) ∧ vi_ok (rs_ErrorCode f) ∧ vi_ok (rs_ByteOffset f);
  fc_type f := 0x4;
  fc_body f := varint (rs_StreamID f) ++ varint (rs_ErrorCode f) ++ varint (rs_ByteOffset f) |}.
Next Obligation. intros [? ? ?] Hok. unfold ResetStreamFrame_Write. codec_emits. Qed.
Next Obligation. intros [? ? ?] Hok. unfold ResetStreamFrame_Length. codec_length. Qed.
Next Obligation. intros [? ? ?] Hok. unfold parseResetStreamFrame. codec_reads. Qed.
Next Obligation. unfold parseResetStreamFrame. codec_yields. Qed.
Next Obligation. unfold parseResetStreamFrame. solve_safe. Qed.

Lemma len_zero {A} (l : list A) : len l = 0 → l = [].
Proof. destruct l; [done|]. rewrite len_cons. pose proof (len_nonneg l). lia. Qed.
Ltac codec_reads_more :=
  repeat first [ eapply reads_map; [codec_read|] | apply reads_cons | eapply reads_bind; [codec_read|] ];
  simpl; unwrap.
Ltac codec_reads_end := codec_reads_more; try apply reads_ret.

#[export] Program Instance StopSending_codec : FrameCodec StopSendingFrame := {|
  fc_write := StopSendingFrame_Write; fc_length := StopSendingFrame_Length;
  fc_parse := parseStopSendingFrame;
  fc_ok f := vi_ok (ss_StreamID f) ∧ 0 <= ss_ErrorCode f < 2 ^ 16;
  fc_type f := 0x5;
  fc_body f := varint (ss_StreamID f) ++ [byte_at (ss_ErrorCode f) 8; u8 (ss_ErrorCode f)] |}.
Next Obligation. intros [? ?] Hok. unfold StopSendingFrame_Write. codec_emits. Qed.
Next Obligation. intros [? ?] Hok. unfold StopSendingFrame_Length. codec_length. Qed.
Next Obligation. intros [? ?] Hok. unfold parseStopSendingFrame. codec_reads. Qed.
Next Obligation. unfold parseStopSendingFrame. codec_yields. Qed.
Next Obligation. unfold parseStopSendingFrame. solve_safe. Qed.

#[export] Program Instance MaxData_codec : FrameCodec MaxDataFrame := {|
  fc_write := MaxDataFrame_Write; fc_length := MaxDataFrame_Length;
  fc_parse := parseMaxDataFrame;
  fc_ok f := vi_ok (md_ByteOffset f);
  fc_type f := 0x10;
  fc_body f := varint (md_ByteOffset f) |}.
Next Obligation. intros [?] Hok. unfold MaxDataFrame_Write. codec_emits. Qed.
Next Obligation. intros [?] Hok. unfold MaxDataFrame_Length. codec_length. Qed.
Next Obligation. intros [?] Hok. unfold parseMaxDataFrame. codec_reads. Qed.
Next Obligation. unfold parseMaxDataFrame. codec_yields. Qed.
Next Obligation. unfold parseMaxDataFrame. solve_safe. Qed.

#[export] Program Instance MaxStreamData_codec : FrameCodec MaxStreamDataFrame := {|
  fc_write := MaxStreamDataFrame_Write; fc_length := MaxStreamDataFrame_Length;
  fc_parse := parseMaxStreamDataFrame;
  fc_ok f := vi_ok (msd_StreamID f) ∧ vi_ok (msd_ByteOffset f);
  fc_type f := 0x11;
  fc_body f := varint (msd_StreamID f) ++ varint (msd_ByteOffset f) |}.
Next Obligation. intros [? ?] Hok. unfold MaxStreamDataFrame_Write. codec_emits. Qed.
Next Obligation. intros [? ?] Hok. unfold MaxStreamDataFrame_Length. codec_length. Qed.
Next Obligation. intros [? ?] Hok. unfold parseMaxStreamDataFrame. codec_reads. Qed.
Next Obligation. unfold parseMaxStreamDataFrame. codec_yields. Qed.
Next Obligation. unfold parseMaxStreamDataFrame. solve_safe. Qed.

#[export] Program Instance DataBlocked_codec : FrameCodec DataBlockedFrame := {|
  fc_write := DataBlockedFrame_Write; fc_length := DataBlockedFrame_Length;
  fc_parse := parseDataBlockedFrame;
  fc_ok f := vi_ok (db_DataLimit f);
  fc_type f := 0x14;
  fc_body f := varint (db_DataLimit f) |}.
Next Obligation. intros [?] Hok. unfold DataBlockedFrame_Write. codec_emits. Qed.
Next Obligation. intros [?] Hok. unfold DataBlockedFrame_Length. codec_length. Qed.
Next Obligation. intros [?] Hok. unfold parseDataBlockedFrame. codec_reads. Qed.
Next Obligation. unfold parseDataBlockedFrame. codec_yields. Qed.
Next Obligation. unfold parseDataBlockedFrame. solve_safe. Qed.

#[export] Program Instance StreamDataBlocked_codec : FrameCodec StreamDataBlockedFrame := {|
  fc_write := StreamDataBlockedFrame_Write; fc_length := StreamDataBlockedFrame_Length;
  fc_parse := parseStreamDataBlockedFrame;
  fc_ok f := vi_ok (sdb_StreamID f) ∧ vi_ok (sdb_DataLimit f);
  fc_type f := 0x15;
  fc_body f := varint (sdb_StreamID f) ++ varint (sdb_DataLimit f) |}.
Next Obligation. intros [? ?] Hok. unfold StreamDataBlockedFrame_Write. codec_emits. Qed.
Next Obligation. intros [? ?] Hok. unfold StreamDataBlockedFrame_Length. codec_length. Qed.
Next Obligation. intros [? ?] Hok. unfold parseStreamDataBlockedFrame. codec_reads. Qed.
Next Obligation. unfold parseStreamDataBlockedFrame. codec_yields. Qed.
Next Obligation. unfold parseStreamDataBlockedFrame. solve_safe. Qed.

#[export] Program Instance RetireConnectionID_codec : FrameCodec RetireConnectionIDFrame := {|
  fc_write := RetireConnectionIDFrame_Write; fc_length := RetireConnectionIDFrame_Length;
  fc_parse := parseRetireConnectionIDFrame;
  fc_ok f := vi_ok (rc_SequenceNumber f);
  fc_type f := 0x19;
  fc_body f := varint (rc_SequenceNumber f) |}.
Next Obligation. intros [?] Hok. unfold RetireConnectionIDFrame_Write. codec_emits. Qed.
Next Obligation. intros [?] Hok. unfold RetireConnectionIDFrame_Length. codec_length. Qed.
Next Obligation. intros [?] Hok. unfold parseRetireConnectionIDFrame. codec_reads. Qed.
Next Obligation. unfold parseRetireConnectionIDFrame. codec_yields. Qed.
Next Obligation. unfold parseRetireConnectionIDFrame. solve_safe. Qed.

#[export] Program Instance MaxStreams_codec : FrameCodec MaxStreamsFrame := {|
  fc_write := MaxStreamsFrame_Write; fc_length := MaxStreamsFrame_Length;
  fc_parse := parseMaxStreamsFrame;
  fc_ok f := vi_ok (ms_MaxStreamNum f);
  fc_type f := match ms_Type f with StreamTypeBidi => 0x12 | StreamTypeUni => 0x13 end;
  fc_body f := varint (ms_MaxStreamNum f) |}.
Next Obligation. intros [[] ?] Hok; unfold MaxStreamsFrame_Write; codec_emits. Qed.
Next Obligation. intros [[] ?] Hok; unfold MaxStreamsFrame_Length; codec_length. Qed.
Next Obligation. intros [[] ?] Hok; unfold parseMaxStreamsFrame; codec_reads. Qed.
Next Obligation. unfold parseMaxStreamsFrame. codec_yields. Qed.
Next Obligation. unfold parseMaxStreamsFrame. solve_safe. Qed.

#[export] Program Instance StreamsBlocked_codec : FrameCodec StreamsBlockedFrame := {|
  fc_write := StreamsBlockedFrame_Write; fc_length := StreamsBlockedFrame_Length;
  fc_parse := parseStreamsBlockedFrame;
  fc_ok f := vi_ok (sb_StreamLimit f);
  fc_type f := match sb_Type f with StreamTypeBidi => 0x16 | StreamTypeUni => 0x17 end;
  fc_body f := varint (sb_StreamLimit f) |}.
Next Obligation. intros [[] ?] Hok; unfold StreamsBlockedFrame_Write; codec_emits. Qed.
Next Obligation. intros [[] ?] Hok; unfold StreamsBlockedFrame_Length; codec_length. Qed.
Next Obligation. intros [[] ?] Hok; unfold parseStreamsBlockedFrame; codec_reads. Qed.
Next Obligation. unfold parseStreamsBlockedFrame. codec_yields. Qed.
Next Obligation. unfold parseStreamsBlockedFrame. solve_safe. Qed.

#[export] Program Instance Crypto_codec : FrameCodec CryptoFrame := {|
  fc_write := CryptoFrame_Write; fc_length := CryptoFrame_Length;
  fc_parse := parseCryptoFrame;
  fc_ok f := vi_ok (c_Offset f) ∧ len (c_Data f) <= maxVarInt8 ∧ bytes_ok (c_Data f);
  fc_type f := 0x6;
  fc_body f := varint (c_Offset f) ++ varint (len (c_Data f)) ++ c_Data f |}.
Next Obligation. intros [o d] Hok. unfold CryptoFrame_Write. pose proof (len_nonneg d). codec_emits. Qed.
Next Obligation. intros [o d] Hok. unfold CryptoFrame_Length. codec_length. Qed.
Next Obligation. intros [o d] Hok. unfold parseCryptoFrame. pose proof (len_nonneg d). codec_reads.
  apply reads_guard. intros n Hn. apply reads_if_ok; [zcases; lia|].
  destruct (Z.eqb_spec (len d) 0) as [E|E]; simpl; [|codec_reads_end].
  apply len_zero in E as ->. apply reads_ret. Qed.
Next Obligation. unfold parseCryptoFrame. codec_yields. destruct (_ <? _); [apply yields_fail|].
  destruct (Z.eqb_spec a1 0); simpl.
  - apply yields_ret. codec_ok. repeat split; try lia; [unfold len; simpl; lia|constructor].
  - eapply yields_bind; [apply yields_ReadFull; lia|]. intros d [Hd <-]. apply yields_ret. codec_ok. repeat split; lia || done. Qed.
Next Obligation. unfold parseCryptoFrame. solve_safe. Qed.

#[export] Program Instance NewToken_codec : FrameCodec NewTokenFrame := {|
  fc_write := NewTokenFrame_Write; fc_length := NewTokenFrame_Length;
  fc_parse := parseNewTokenFrame;
  fc_ok f := 0 < len (nt_Token f) <= maxVarInt8 ∧ bytes_ok (nt_Token f);
  fc_type f := 0x7;
  fc_body f := varint (len (nt_Token f)) ++ nt_Token f |}.
Next Obligation. intros [d] Hok. unfold NewTokenFrame_Write. codec_emits. Qed.
Next Obligation. intros [d] Hok. unfold NewTokenFrame_Length. codec_length. Qed.
Next Obligation. intros [d] Hok. unfold parseNewTokenFrame. codec_reads.
  apply reads_guard. intros n Hn. apply reads_if_ok; [zcases; lia|]. apply reads_if_ok; [zcases; lia|]. codec_reads_end. Qed.
Next Obligation. unfold parseNewTokenFrame. codec_yields. destruct (_ <? _); [apply yields_fail|].
  destruct (Z.eqb_spec a0 0); [apply yields_fail|].
  eapply yields_bind; [apply yields_ReadFull; lia|]. intros d [Hd <-]. apply yields_ret. codec_ok. repeat split; lia || done. Qed.
Next Obligation. unfold parseNewTokenFrame. solve_safe. Qed.

#[export] Program Instance NewConnectionID_codec : FrameCodec NewConnectionIDFrame := {|
  fc_write := NewConnectionIDFrame_Write; fc_length := NewConnectionIDFrame_Length;
  fc_parse := parseNewConnectionIDFrame;
  fc_ok f := vi_ok (nc_SequenceNumber f) ∧ 0 <= nc_RetirePriorTo f <= nc_SequenceNumber f ∧
    len (nc_ConnectionID f) <= MaxConnIDLen ∧ bytes_ok (nc_ConnectionID f) ∧
    len (nc_StatelessResetToken f) = 16 ∧ bytes_ok (nc_StatelessResetToken f);
  fc_type f := 0x18;
  fc_body f := varint (nc_SequenceNumber f) ++ varint (nc_RetirePriorTo f) ++ [len (nc_ConnectionID f)]
    ++ nc_ConnectionID f ++ nc_StatelessResetToken f |}.
Next Obligation. intros [s r c t] Hok. unfold NewConnectionIDFrame_Write. pose proof (len_nonneg c). codec_ok.
  destruct (Z.ltb_spec 20 (len c)); [lia|]. codec_emits. Qed.
Next Obligation. intros [s r c t] Hok. unfold NewConnectionIDFrame_Length. codec_length. Qed.
Next Obligation. intros [s r c t] Hok. unfold parseNewConnectionIDFrame. pose proof (len_nonneg c). codec_reads.
  apply reads_if_ok; [zcases; lia|]. apply reads_cons.
  apply reads_if_ok; [unfold MaxConnIDLen; zcases; lia|]. codec_reads_end. Qed.
Next Obligation. unfold parseNewConnectionIDFrame. codec_yields. destruct (Z.ltb_spec a0 a1); [apply yields_fail|].
  codec_yields. destruct (Z.ltb_spec MaxConnIDLen a2); [apply yields_fail|]. unfold byte_ok in *.
  eapply yields_bind; [apply yields_ReadConnectionID; lia|]. intros c [Hc <-].
  eapply yields_bind; [apply yields_ReadArray; lia|]. intros t [Ht Htl]. apply yields_ret. codec_ok. repeat split; lia || done. Qed.
Next Obligation. unfold parseNewConnectionIDFrame. solve_safe. Qed.

#[export] Program Instance PathChallenge_codec : FrameCodec PathChallengeFrame := {|
  fc_write := PathChallengeFrame_Write; fc_length := PathChallengeFrame_Length;
  fc_parse := parsePathChallengeFrame;
  fc_ok f := len (pc_Data f) = 8 ∧ bytes_ok (pc_Data f);
  fc_type f := 0x1a;
  fc_body f := pc_Data f |}.
Next Obligation. intros [d] Hok. unfold PathChallengeFrame_Write. codec_emits. Qed.
Next Obligation. intros [d] Hok. unfold PathChallengeFrame_Length. codec_ok. f_equal. lia. Qed.
Next Obligation. intros [d] Hok. unfold parsePathChallengeFrame. codec_reads. Qed.
Next Obligation. unfold parsePathChallengeFrame. codec_yields. eapply yields_bind; [apply yields_ReadArray; lia|]. intros d [Hd Hl]. by apply yields_ret. Qed.
Next Obligation. unfold parsePathChallengeFrame. solve_safe. Qed.

#[export] Program Instance PathResponse_codec : FrameCodec PathResponseFrame := {|
  fc_write := PathResponseFrame_Write; fc_length := PathResponseFrame_Length;
  fc_parse := parsePathResponseFrame;
  fc_ok f := len (pr_Data f) = 8 ∧ bytes_ok (pr_Data f);
  fc_type f := 0x1b;
  fc_body f := pr_Data f |}.
Next Obligation. intros [d] Hok. unfold PathResponseFrame_Write. codec_emits. Qed.
Next Obligation. intros [d] Hok. unfold PathResponseFrame_Length. codec_ok. f_equal. lia. Qed.
Next Obligation. intros [d] Hok. unfold parsePathResponseFrame. codec_reads. Qed.
Next Obligation. unfold parsePathResponseFrame. codec_yields. eapply yields_bind; [apply yields_ReadArray; lia|]. intros d [Hd Hl]. by apply yields_ret. Qed.
Next Obligation. unfold parsePathResponseFrame. solve_safe. Qed.

#[export] Program Instance Ping_codec : FrameCodec () := {|
  fc_write := (λ _, PingFrame_Write); fc_length := (λ _, PingFrame_Length);
  fc_parse := parsePingFrame;
  fc_ok f := True;
  fc_type f := 0x1;
  fc_body f := [] |}.
Next Obligation. intros [] _. apply emits_byte. Qed.
Next Obligation. done. Qed.
Next Obligation. intros [] _ rest. done. Qed.
Next Obligation. unfold parsePingFrame. codec_yields. Qed.
Next Obligation. unfold parsePingFrame. solve_safe. Qed.

#[export] Program Instance ConnectionClose_codec : FrameCodec ConnectionCloseFrame := {|
  fc_write := ConnectionCloseFrame_Write; fc_length := ConnectionCloseFrame_Length;
  fc_parse := parseConnectionCloseFrame;
  fc_ok f := vi_ok (cc_ErrorCode f) ∧ vi_ok (cc_FrameType f) ∧
    (cc_IsApplicationError f = true → cc_FrameType f = 0) ∧
    len (cc_ReasonPhrase f) <= maxVarInt8 ∧ bytes_ok (cc_ReasonPhrase f);
  fc_type f := if cc_IsApplicationError f then 0x1d else 0x1c;
  fc_body f := varint (cc_ErrorCode f) ++ (if cc_IsApplicationError f then [] else varint (cc_FrameType f))
    ++ varint (len (cc_ReasonPhrase f)) ++ cc_ReasonPhrase f |}.
Next Obligation. intros [b e t p] Hok. unfold ConnectionCloseFrame_Write. pose proof (len_nonneg p).
  destruct b; codec_emits. Qed.
Next Obligation. intros [b e t p] Hok. unfold ConnectionCloseFrame_Length. pose proof (len_nonneg p). destruct b; codec_length. Qed.
Next Obligation. intros [b e t p] Hok. unfold parseConnectionCloseFrame. pose proof (len_nonneg p).
  destruct b; codec_reads;
  (apply reads_guard; intros n Hn; apply reads_if_ok; [try rewrite i64_small by lia; zcases; lia|]; codec_reads_end).
  rewrite (H2 eq_refl). apply reads_ret. Qed.
Next Obligation. unfold parseConnectionCloseFrame. codec_yields.
  eapply (yields_bind _ _ (λ t, vi_ok t ∧ ((a =? 0x1d) = true → t = 0))).
  { destruct (a =? 0x1d); simpl; [apply yields_ret; codec_ok; split; [lia|done]|].
    eapply yields_weaken; [apply yields_ReadVarInt|]. done. }
  intros t [Ht Ht']. codec_yields. destruct (_ <? _); [apply yields_fail|].
  eapply yields_bind; [apply yields_ReadFull; lia|]. intros d [Hd <-]. apply yields_ret. codec_ok. repeat split; lia || done. Qed.
Next Obligation. unfold parseConnectionCloseFrame. solve_safe. Qed.
