(* ===== verification/StreamFrame.v ===== *)
(** StreamFrame: core/wire/stream_frame.go and pool.go.  STREAM frames: parsing,
    writing, sizing to a packet and splitting for retransmission. *)

From S2P Require Import Prelude Utils Protocol AckFrame Frames.

(** [Data] is the content of the slice.  A frame obtained from the pool has a
    buffer of capacity [MaxReceivePacketSize]. *)
Record StreamFrame := mkStreamFrame {
  StreamID : Z; Offset : Z; Data : list Z; FinBit : bool; DataLenPresent : bool;
  fromPool : bool }.

Definition pool_cap : Z := MaxReceivePacketSize.
(** What [GetStreamFrame] hands out: the fields are those of whatever frame was
    last put back, every caller overwrites them. *)
Definition GetStreamFrame (stale : StreamFrame) : StreamFrame :=
  mkStreamFrame (StreamID stale) (Offset stale) (Data stale) (FinBit stale) (DataLenPresent stale) true.
(** [putStreamFrame]: [cap] is the capacity of the frame's buffer.  Returns the
    frame to put back into the pool, if any. *)
Definition putStreamFrame (cap : Z) (f : StreamFrame) : outcome (option StreamFrame) :=
  if negb (fromPool f) then Ok None
  else if negb (cap =? MaxReceivePacketSize) then
    Panic "wire.PutStreamFrame called with packet of wrong size!"
  else Ok (Some f).

Definition DataLen (f : StreamFrame) : Z := len (Data f).

Definition parseStreamFrame : parser StreamFrame :=
  typeByte ← ReadByte;
  let hasOffset := 0 <? Z.land typeByte 0x4 in
  let fin := 0 <? Z.land typeByte 0x1 in
  let hasDataLen := 0 <? Z.land typeByte 0x2 in
  streamID ← ReadVarInt;
  offset ← (if hasOffset then ReadVarInt else mret 0);
  dataLen ← (if hasDataLen then ReadVarInt else ReaderLen);
  let pooled := negb (dataLen <? MinStreamFrameBufferSize) in
  if pooled && (pool_cap <? dataLen) then fail EOF else
  data ← (if negb (dataLen =? 0) then ReadFull dataLen else mret []);
  let frame := mkStreamFrame (i64 streamID) offset data fin hasDataLen pooled in
  if MaxByteCount <? u64 (Offset frame + DataLen frame) then
    fail (QuicError FrameEncodingError (Errorf "stream data overflows maximum offset" []))
  else mret frame.

Definition StreamFrame_Write (f : StreamFrame) : writer :=
  if (len (Data f) =? 0) && negb (FinBit f) then
    wfail (Errorf "StreamFrame: attempting to write empty frame without FIN" [])
  else
    let typeByte := 0x8 in
    let typeByte := if FinBit f then Z.lxor typeByte 0x1 else typeByte in
    let hasOffset := negb (Offset f =? 0) in
    let typeByte := if DataLenPresent f then Z.lxor typeByte 0x2 else typeByte in
    let typeByte := if hasOffset then Z.lxor typeByte 0x4 else typeByte in
    WriteByte typeByte
    >>> WriteVarInt (u64 (StreamID f))
    >>> (if hasOffset then WriteVarInt (Offset f) else wdone)
    >>> (if DataLenPresent f then WriteVarInt (DataLen f) else wdone)
    >>> WriteBytes (Data f).

Definition StreamFrame_Length (f : StreamFrame) : outcome Z :=
  l ← VarIntLen (u64 (StreamID f));
  let length := 1 + l in
  length ← (if negb (Offset f =? 0) then l ← VarIntLen (Offset f); Ok (length + l) else Ok length);
  length ← (if DataLenPresent f then l ← VarIntLen (DataLen f); Ok (length + l) else Ok length);
  Ok (length + DataLen f).

Definition MaxDataLen (f : StreamFrame) (maxSize : Z) : outcome Z :=
  l ← VarIntLen (u64 (StreamID f));
  let headerLen := 1 + l in
  headerLen ← (if negb (Offset f =? 0) then l ← VarIntLen (Offset f); Ok (headerLen + l) else Ok headerLen);
  let headerLen := if DataLenPresent f then headerLen + 1 else headerLen in
  if maxSize <? headerLen then Ok 0 else
  let maxDataLen := maxSize - headerLen in
  if DataLenPresent f then
    l ← VarIntLen maxDataLen;
    Ok (if negb (l =? 1) then maxDataLen - 1 else maxDataLen)
  else Ok maxDataLen.

(** Returns (the frame split off if any, was splitting required, the frame left).
    The data left moves into the pool buffer, so it must fit its capacity. *)
Definition MaybeSplitOffFrame (f : StreamFrame) (maxSize : Z)
    : outcome (option StreamFrame * bool * StreamFrame) :=
  flen ← StreamFrame_Length f;
  if flen <=? maxSize then Ok (None, false, f) else
  n ← MaxDataLen f maxSize;
  if n =? 0 then Ok (None, true, f) else
  let rest := len (Data f) - n in
  if rest <? 0 then Panic "slice bounds out of range" else
  if pool_cap <? rest then Panic "slice bounds out of range" else
  let new := mkStreamFrame (StreamID f) (Offset f) (take (Z.to_nat n) (Data f)) false
               (DataLenPresent f) (fromPool f) in
  let f' := mkStreamFrame (StreamID f) (u64 (Offset f + n)) (drop (Z.to_nat n) (Data f)) (FinBit f)
              (DataLenPresent f) true in
  Ok (Some new, true, f').

(** * Well-formed STREAM frames *)

Definition stream_ok (f : StreamFrame) : Prop :=
  0 <= StreamID f <= maxVarInt8 ∧ 0 <= Offset f ∧ Offset f + DataLen f <= MaxByteCount ∧
  DataLen f <= MaxReceivePacketSize ∧ bytes_ok (Data f).
(** What the parser returns for a written frame. *)
Definition stream_canon (f : StreamFrame) : StreamFrame :=
  mkStreamFrame (StreamID f) (Offset f) (Data f) (FinBit f) (DataLenPresent f)
    (negb (DataLen f <? MinStreamFrameBufferSize)).

Definition stream_type_byte (f : StreamFrame) : Z :=
  0x8 + (if FinBit f then 1 else 0) + (if DataLenPresent f then 2 else 0)
  + (if Offset f =? 0 then 0 else 4).
Definition enc_stream_header (f : StreamFrame) : list Z :=
  [stream_type_byte f] ++ varint (StreamID f) ++ (if Offset f =? 0 then [] else varint (Offset f)).
Definition enc_stream (f : StreamFrame) : list Z :=
  enc_stream_header f ++ (if DataLenPresent f then varint (DataLen f) else []) ++ Data f.

Lemma stream_writable f : stream_ok f → ¬ (Data f = [] ∧ FinBit f = false) →
  emits (StreamFrame_Write f) (enc_stream f).
Proof.
  intros (H1 & H2 & H3 & H4 & _) Hne. unfold MaxByteCount, maxVarInt8, MaxReceivePacketSize in *.
  unfold StreamFrame_Write. pose proof (len_nonneg (Data f)). unfold DataLen in *.
  assert ((len (Data f) =? 0) && negb (FinBit f) = false) as ->.
  { destruct (Z.eqb_spec (len (Data f)) 0) as [E|]; [|done]. destruct (FinBit f) eqn:F; [done|].
    destruct Hne. split; [|done]. destruct (Data f); [done|]. rewrite len_cons in E.
    pose proof (len_nonneg l). lia. }
  rewrite u64_small by lia. unfold enc_stream, enc_stream_header, stream_type_byte. rewrite <- !app_assoc.
  assert (∀ b1 b2 b3 : bool, (let t := if b1 then Z.lxor 8 1 else 8 in
    let t := if b2 then Z.lxor t 2 else t in if b3 then Z.lxor t 4 else t) =
    8 + (if b1 then 1 else 0) + (if b2 then 2 else 0) + (if negb b3 then 0 else 4)) as Ht
    by (by intros [] [] []).
  cbv zeta in Ht |- *. rewrite Ht, negb_involutive.
  repeat apply emits_then; try apply emits_byte; try apply emits_bytes;
    try (apply emits_WriteVarInt; unfold maxVarInt8; lia).
  - destruct (Offset f =? 0); [apply emits_done|apply emits_WriteVarInt; unfold maxVarInt8; lia].
  - destruct (DataLenPresent f); [apply emits_WriteVarInt; unfold maxVarInt8, DataLen in *; lia|apply emits_done].
Qed.

Lemma len_enc_stream_header f : stream_ok f →
  len (enc_stream_header f) = 1 + len (varint (StreamID f)) + (if Offset f =? 0 then 0 else len (varint (Offset f))).
Proof. intros. unfold enc_stream_header. autorewrite with len. destruct (_ =? 0); autorewrite with len; lia. Qed.

Lemma StreamFrame_Length_ok f : stream_ok f → StreamFrame_Length f = Ok (len (enc_stream f)).
Proof.
  intros Hok. pose proof Hok as (H1 & H2 & H3 & H4 & _).
  unfold MaxByteCount, maxVarInt8, MaxReceivePacketSize, DataLen in *. pose proof (len_nonneg (Data f)).
  unfold StreamFrame_Length, enc_stream, DataLen. autorewrite with len. rewrite len_enc_stream_header by done.
  rewrite u64_small by lia. rewrite !VarIntLen_varint by (unfold maxVarInt8; lia). simpl mbind.
  destruct (Offset f =? 0), (DataLenPresent f); simpl mbind; autorewrite with len; f_equal; lia.
Qed.

Lemma stream_type_bits f :
  (0 <? Z.land (stream_type_byte f) 0x4) = negb (Offset f =? 0) ∧
  (0 <? Z.land (stream_type_byte f) 0x1) = FinBit f ∧
  (0 <? Z.land (stream_type_byte f) 0x2) = DataLenPresent f ∧
  Z.land (stream_type_byte f) 0xf8 = 0x8 ∧ stream_type_byte f ≠ 0.
Proof. unfold stream_type_byte. by destruct (FinBit f), (DataLenPresent f), (Offset f =? 0). Qed.

(** Reading a frame back; without a length field it extends to the end of the packet. *)
Lemma parseStreamFrame_enc f rest :
  stream_ok f → (DataLenPresent f = false → rest = []) →
  parseStreamFrame (enc_stream f ++ rest) = Ok (stream_canon f, rest).
Proof.
  intros (H1 & H2 & H3 & H4 & _) Hrest.
  unfold MaxByteCount, maxVarInt8, MaxReceivePacketSize, DataLen in *. pose proof (len_nonneg (Data f)).
  destruct (stream_type_bits f) as (B4 & B1 & B2 & _ & _).
  unfold parseStreamFrame, enc_stream, enc_stream_header. rewrite <- !app_assoc.
  rewrite (bind_reads _ _ [stream_type_byte f] (stream_type_byte f)) by done. cbv zeta.
  rewrite B4, B1, B2.
  rewrite (bind_reads _ _ _ (StreamID f)) by (apply reads_ReadVarInt; unfold maxVarInt8; lia).
  rewrite (bind_reads _ _ (if Offset f =? 0 then [] else varint (Offset f)) (Offset f)).
  2:{ destruct (Z.eqb_spec (Offset f) 0) as [->|]; simpl; [apply reads_ret|].
      apply reads_ReadVarInt. unfold maxVarInt8. lia. }
  assert (Hdl : ∀ (k : Z → parser StreamFrame),
    ((if DataLenPresent f then ReadVarInt else ReaderLen) ≫= k)
      ((if DataLenPresent f then varint (DataLen f) else []) ++ Data f ++ rest)
    = k (len (Data f)) (Data f ++ rest)).
  { intros k. destruct (DataLenPresent f) eqn:E.
    - apply bind_reads. apply reads_ReadVarInt. unfold maxVarInt8. unfold DataLen. lia.
    - rewrite (Hrest eq_refl), app_nil_r. done. }
  rewrite Hdl. unfold pool_cap, MaxReceivePacketSize.
  destruct (Z.ltb_spec 1452 (len (Data f))); [lia|]. rewrite andb_false_r.
  rewrite (bind_reads _ _ (Data f) (Data f)).
  2:{ destruct (Z.eqb_spec (len (Data f)) 0) as [E|E]; simpl; [|apply reads_ReadFull].
      destruct (Data f); [apply reads_ret|]. rewrite len_cons in E. pose proof (len_nonneg l). lia. }
  cbn [Offset DataLen Data]. unfold DataLen. cbn [Data]. rewrite u64_small, i64_small by lia.
  destruct (Z.ltb_spec MaxByteCount (Offset f + len (Data f))); [unfold MaxByteCount in *; lia|done].
Qed.

(** * Sizing and splitting *)

(** Bytes of everything before the data of [f] when it carries [n] bytes. *)
Definition stream_overhead (f : StreamFrame) (n : Z) : Z :=
  len (enc_stream_header f) + (if DataLenPresent f then len (varint n) else 0).
Definition with_data (f : StreamFrame) (d : list Z) : StreamFrame :=
  mkStreamFrame (StreamID f) (Offset f) d (FinBit f) (DataLenPresent f) (fromPool f).

Lemma enc_stream_size f : len (enc_stream f) = stream_overhead f (DataLen f) + DataLen f.
Proof.
  unfold enc_stream, stream_overhead, DataLen. autorewrite with len.
  destruct (DataLenPresent f); autorewrite with len; lia.
Qed.

Lemma MaxDataLen_spec f maxSize :
  stream_ok f → 0 <= maxSize < 16384 →
  ∃ n, MaxDataLen f maxSize = Ok n ∧ 0 <= n ∧
    (n = 0 ∨ stream_overhead f n + n <= maxSize) ∧
    (∀ m, n < m < 16384 → maxSize < stream_overhead f m + m).
Proof.
  intros Hok Hm. pose proof Hok as (H1 & H2 & H3 & H4 & _).
  unfold MaxByteCount, maxVarInt8, MaxReceivePacketSize, DataLen in *. pose proof (len_nonneg (Data f)).
  pose proof (len_enc_stream_header f Hok) as HL. set (h := len (enc_stream_header f)) in *.
  assert (E : MaxDataLen f maxSize =
    (let h' := if DataLenPresent f then h + 1 else h in
     if maxSize <? h' then Ok 0 else
     if DataLenPresent f then l ← VarIntLen (maxSize - h'); Ok (if negb (l =? 1) then maxSize - h' - 1 else maxSize - h')
     else Ok (maxSize - h'))).
  { unfold MaxDataLen. rewrite u64_small by lia. rewrite !VarIntLen_varint by (unfold maxVarInt8; lia).
    simpl mbind. destruct (Offset f =? 0); simpl mbind.
    - by replace (1 + len (varint (StreamID f))) with h by lia.
    - by replace (1 + len (varint (StreamID f)) + len (varint (Offset f))) with h by lia. }
  rewrite E. cbv zeta. clear E. unfold stream_overhead. fold h.
  assert (0 < h). { subst h. rewrite HL. pose proof (len_nonneg (varint (StreamID f))).
    pose proof (len_nonneg (varint (Offset f))). destruct (Offset f =? 0); lia. }
  clearbody h. destruct (DataLenPresent f).
  - destruct (Z.ltb_spec maxSize (h + 1)).
    { exists 0. split; [done|]. split; [lia|]. split; [by left|]. intros m ?. pose proof (varint_len m ltac:(unfold maxVarInt8; lia)). lia. }
    rewrite VarIntLen_varint by (unfold maxVarInt8; lia). simpl mbind.
    eexists; split; [reflexivity|].
    rewrite (len_varint_eq (maxSize - _)) by (unfold maxVarInt8; lia).
    assert (Hv : ∀ m, m < 16384 → len (varint m) = if m <=? 63 then 1 else 2).
    { intros m ?. rewrite len_varint_eq by (unfold maxVarInt8; lia).
      unfold maxVarInt1, maxVarInt2. zcases; lia. }
    unfold maxVarInt1, maxVarInt2.
    split; [zcases; lia|]. split; [right|intros m Hm']; rewrite Hv by (zcases; lia); zcases; lia.
  - destruct (Z.ltb_spec maxSize h).
    + exists 0. split; [done|]. split; [lia|]. split; [by left|]. intros; lia.
    + eexists; split; [done|]. split; [lia|]. split; [right; lia|]. intros; lia.
Qed.

Lemma with_data_ok f d : stream_ok f → bytes_ok d → Offset f + len d <= MaxByteCount →
  len d <= MaxReceivePacketSize → stream_ok (with_data f d).
Proof. intros (?&?&?&?&?) ???. unfold stream_ok, DataLen; simpl. tauto. Qed.

(** Length of [f] with other data, through the header size. *)
Lemma with_data_Length f d : stream_ok (with_data f d) →
  StreamFrame_Length (with_data f d) = Ok (stream_overhead f (len d) + len d).
Proof. intros. rewrite StreamFrame_Length_ok by done. by rewrite enc_stream_size. Qed.

(** [MaxDataLen] is exact for every size a packet can have (below 2^14):
    a frame with at least one and at most that many data bytes fits in [maxSize],
    and no frame with more data does. *)
Theorem max_data_len_exact f maxSize :
  stream_ok f → 0 <= maxSize < 16384 →
  ∃ n, MaxDataLen f maxSize = Ok n ∧ 0 <= n ∧
    ∀ d, stream_ok (with_data f d) → 0 < len d →
      ∃ l, StreamFrame_Length (with_data f d) = Ok l ∧ (l <= maxSize ↔ len d <= n).
Proof.
  intros Hok Hm. destruct (MaxDataLen_spec f maxSize Hok Hm) as (n & En & H0 & Hfit & Hmax).
  exists n. split; [done|]. split; [done|]. intros d Hd Hpos.
  eexists; split; [by apply with_data_Length|].
  destruct Hd as (_ & _ & _ & Hd & _). unfold DataLen, with_data, MaxReceivePacketSize in Hd. simpl in Hd.
  split; intros Hl.
  - destruct (Z.le_gt_cases (len d) n); [done|]. specialize (Hmax (len d) ltac:(lia)). lia.
  - destruct Hfit as [->|Hfit]; [lia|].
    assert (stream_overhead f (len d) <= stream_overhead f n); [|lia].
    unfold stream_overhead. destruct (DataLenPresent f); [|lia].
    destruct (Z.le_gt_cases n maxVarInt8); [pose proof (varint_len_mono (len d) n); lia|].
    unfold maxVarInt8 in *. pose proof (len_nonneg (varint n)).
    pose proof (len_nonneg (enc_stream_header f)). unfold stream_overhead in Hfit.
    destruct (DataLenPresent f); lia.
Qed.
Lemma max_data_len_exact_witness :
  let f := mkStreamFrame 4 1000 [1; 2; 3] true true false in
  ∃ n, MaxDataLen f 100 = Ok n ∧ 0 <= n ∧
    ∀ d, stream_ok (with_data f d) → 0 < len d →
      ∃ l, StreamFrame_Length (with_data f d) = Ok l ∧ (l <= 100 ↔ len d <= n).
Proof.
  intros f. apply (max_data_len_exact f 100); [|lia].
  unfold stream_ok, f, DataLen, bytes_ok; simpl.
  repeat split; try (vm_compute; intros [=]; fail); repeat constructor; lia.
Defined.

Lemma MaybeSplitOffFrame_spec f maxSize :
  stream_ok f → 0 <= maxSize < 16384 →
  match MaybeSplitOffFrame f maxSize with
  | Ok (None, false, f') => f' = f ∧ ∃ l, StreamFrame_Length f = Ok l ∧ l <= maxSize
  | Ok (None, true, f') => f' = f ∧
      ∀ d, stream_ok (with_data f d) → 0 < len d →
        ∃ l, StreamFrame_Length (with_data f d) = Ok l ∧ maxSize < l
  | Ok (Some new, true, f') =>
      stream_ok new ∧ stream_ok f' ∧ Data f = Data new ++ Data f' ∧
      0 < DataLen new ∧ 0 < DataLen f' ∧
      Offset new = Offset f ∧ Offset f' = Offset new + DataLen new ∧
      StreamID new = StreamID f ∧ StreamID f' = StreamID f ∧
      FinBit new = false ∧ FinBit f' = FinBit f ∧
      DataLenPresent new = DataLenPresent f ∧ DataLenPresent f' = DataLenPresent f ∧
      ∃ l, StreamFrame_Length new = Ok l ∧ l <= maxSize
  | _ => False
  end.
Proof.
  intros Hok Hm. unfold MaybeSplitOffFrame. rewrite StreamFrame_Length_ok by done. simpl mbind.
  pose proof (enc_stream_size f) as Hsz. destruct (Z.leb_spec (len (enc_stream f)) maxSize); [by eauto|].
  destruct (MaxDataLen_spec f maxSize Hok Hm) as (n & En & H0 & Hfit & Hmax). rewrite En. simpl mbind.
  destruct (Z.eqb_spec n 0) as [->|Hn].
  { split; [done|]. intros d Hd Hpos. eexists; split; [by apply with_data_Length|].
    destruct Hd as (_ & _ & _ & Hd & _). unfold DataLen, with_data, MaxReceivePacketSize in Hd. simpl in Hd.
    apply Hmax. lia. }
  destruct Hfit as [|Hfit]; [lia|].
  destruct Hok as (H1 & H2 & H3 & H4 & H5).
  unfold stream_ok, DataLen, MaxByteCount, maxVarInt8, MaxReceivePacketSize, pool_cap in *. simpl.
  pose proof (len_nonneg (enc_stream_header f)).
  assert (n < len (Data f)).
  { destruct (Z.lt_ge_cases n (len (Data f))); [done|]. unfold stream_overhead in *.
    destruct (DataLenPresent f); [|lia].
    assert (n <= 16384) by (pose proof (len_nonneg (varint n)); lia).
    pose proof (varint_len_mono (len (Data f)) n). pose proof (len_nonneg (Data f)). unfold maxVarInt8 in *. lia. }
  unfold MaxReceivePacketSize.
  destruct (Z.ltb_spec (len (Data f) - n) 0); [lia|]. destruct (Z.ltb_spec 1452 (len (Data f) - n)); [lia|].
  rewrite <- (take_drop (Z.to_nat n) (Data f)) in H5. apply Forall_app in H5 as [Hb1 Hb2].
  assert (Ht : len (take (Z.to_nat n) (Data f)) = n) by (unfold len in *; rewrite length_take; lia).
  assert (Hd : len (drop (Z.to_nat n) (Data f)) = len (Data f) - n) by (unfold len in *; rewrite length_drop; lia).
  simpl. rewrite Ht, Hd, u64_small by lia.
  repeat split; try done; try lia; [by rewrite take_drop|].
  exists (stream_overhead f n + n). split; [|lia]. rewrite StreamFrame_Length_ok.
  - rewrite enc_stream_size. unfold stream_overhead, DataLen. simpl. rewrite Ht.
    unfold enc_stream_header. simpl. by autorewrite with len.
  - unfold stream_ok, DataLen, MaxByteCount, maxVarInt8, MaxReceivePacketSize. simpl. rewrite Ht. repeat split; try done; lia.
Qed.
(** [MaybeSplitOffFrame] on a well-formed frame never panics and loses no
    byte.  Either the frame fits and is untouched, or not even one byte fits and
    it is untouched, or it is split into two non-empty well-formed frames with
    contiguous offsets whose data concatenate to the original data, the first
    one fits [maxSize] and never carries FIN, the second keeps the FIN. *)
Theorem split_off_frame f maxSize :
  stream_ok f → 0 <= maxSize < 16384 →
  match MaybeSplitOffFrame f maxSize with
  | Ok (None, false, f') => f' = f ∧ ∃ l, StreamFrame_Length f = Ok l ∧ l <= maxSize
  | Ok (None, true, f') => f' = f ∧
      ∀ d, stream_ok (with_data f d) → 0 < len d →
        ∃ l, StreamFrame_Length (with_data f d) = Ok l ∧ maxSize < l
  | Ok (Some new, true, f') =>
      stream_ok new ∧ stream_ok f' ∧ Data f = Data new ++ Data f' ∧
      0 < DataLen new ∧ 0 < DataLen f' ∧
      Offset new = Offset f ∧ Offset f' = Offset new + DataLen new ∧
      StreamID new = StreamID f ∧ StreamID f' = StreamID f ∧
      FinBit new = false ∧ FinBit f' = FinBit f ∧
      ∃ l, StreamFrame_Length new = Ok l ∧ l <= maxSize
  | _ => False
  end.
Proof.
  intros Hok Hm. pose proof (MaybeSplitOffFrame_spec f maxSize Hok Hm) as H.
  destruct (MaybeSplitOffFrame f maxSize) as [[[[new|] []] f']| |]; try done. naive_solver.
Qed.

Lemma split_off_frame_witness :
  let f := mkStreamFrame 4 1000 [1; 2; 3; 4; 5; 6] true true false in
  match MaybeSplitOffFrame f 8 with
  | Ok (Some new, true, f') => Data f = Data new ++ Data f' ∧ FinBit f' = true
  | _ => False
  end.
Proof.
  assert (H : stream_ok (mkStreamFrame 4 1000 [1; 2; 3; 4; 5; 6] true true false)).
  { unfold stream_ok, DataLen, bytes_ok; simpl.
    repeat split; try (vm_compute; intros [=]; fail); repeat constructor; lia. }
  intros f. pose proof (split_off_frame f 8 H ltac:(lia)) as Hs. vm_compute in Hs. vm_compute. intuition.
Defined.

Lemma yields_parseStreamFrame : yields parseStreamFrame stream_ok.
Proof.
  unfold parseStreamFrame.
  eapply yields_bind; [apply yields_ReadByte|]. intros t Ht.
  eapply yields_bind; [apply yields_ReadVarInt|]. intros sid Hsid.
  eapply (yields_bind _ _ (λ v, 0 <= v <= maxVarInt8)).
  { destruct (0 <? _); [apply yields_ReadVarInt|apply yields_ret; unfold maxVarInt8; lia]. }
  intros off Hoff. eapply (yields_bind _ _ (λ v, 0 <= v)).
  { destruct (0 <? _); [eapply yields_weaken; [apply yields_ReadVarInt|simpl; intros; lia]|apply yields_ReaderLen]. }
  intros dl Hdl. cbv zeta. destruct (_ && _) eqn:Ep; [apply yields_fail|].
  eapply (yields_bind _ _ (λ d, bytes_ok d ∧ len d = dl)).
  { destruct (Z.eqb_spec dl 0) as [->|]; simpl; [apply yields_ret; split; [constructor|done]|].
    by apply yields_ReadFull. }
  intros d [Hd <-]. unfold stream_ok, DataLen, pool_cap, MinStreamFrameBufferSize, MaxReceivePacketSize, MaxByteCount, maxVarInt8 in *.
  simpl. pose proof (len_nonneg d).
  assert (len d <= 1452). { destruct (Z.ltb_spec (len d) 128), (Z.ltb_spec 1452 (len d)); simpl in Ep; lia || discriminate. }
  rewrite u64_small, i64_small by lia.
  destruct (Z.ltb_spec (2 ^ 62 - 1) (off + len d)); [apply yields_fail|]. apply yields_ret. simpl.
  repeat split; try done; lia.
Qed.
Lemma safe_parseStreamFrame : safe parseStreamFrame.
Proof. unfold parseStreamFrame. pose proof safe_ReadVarInt. solve_safe. Qed.
#[export] Hint Resolve safe_parseStreamFrame : safe.
