(* ===== verification/FrameParser.v ===== *)
(** FrameParser: core/wire/interface.go and frame_parser.go.  The [Frame]
    interface as a sum of the frame types, dispatch of [Write] and [Length], and
    the parser that turns a packet payload into frames. *)

From S2P Require Import Prelude Utils Protocol AckFrame Frames FrameCodec StreamFrame.

(** The dynamic types of a [Frame]. *)
Inductive Frame :=
  | FPing
  | FAck (f : AckFrame)
  | FResetStream (f : ResetStreamFrame)
  | FStopSending (f : StopSendingFrame)
  | FCrypto (f : CryptoFrame)
  | FNewToken (f : NewTokenFrame)
  | FStream (f : StreamFrame)
  | FMaxData (f : MaxDataFrame)
  | FMaxStreamData (f : MaxStreamDataFrame)
  | FMaxStreams (f : MaxStreamsFrame)
  | FDataBlocked (f : DataBlockedFrame)
  | FStreamDataBlocked (f : StreamDataBlockedFrame)
  | FStreamsBlocked (f : StreamsBlockedFrame)
  | FNewConnectionID (f : NewConnectionIDFrame)
  | FRetireConnectionID (f : RetireConnectionIDFrame)
  | FPathChallenge (f : PathChallengeFrame)
  | FPathResponse (f : PathResponseFrame)
  | FConnectionClose (f : ConnectionCloseFrame).

Definition Frame_Write (f : Frame) : writer :=
  match f with
  | FPing => PingFrame_Write
  | FAck f => AckFrame_Write f
  | FResetStream f => ResetStreamFrame_Write f
  | FStopSending f => StopSendingFrame_Write f
  | FCrypto f => CryptoFrame_Write f
  | FNewToken f => NewTokenFrame_Write f
  | FStream f => StreamFrame_Write f
  | FMaxData f => MaxDataFrame_Write f
  | FMaxStreamData f => MaxStreamDataFrame_Write f
  | FMaxStreams f => MaxStreamsFrame_Write f
  | FDataBlocked f => DataBlockedFrame_Write f
  | FStreamDataBlocked f => StreamDataBlockedFrame_Write f
  | FStreamsBlocked f => StreamsBlockedFrame_Write f
  | FNewConnectionID f => NewConnectionIDFrame_Write f
  | FRetireConnectionID f => RetireConnectionIDFrame_Write f
  | FPathChallenge f => PathChallengeFrame_Write f
  | FPathResponse f => PathResponseFrame_Write f
  | FConnectionClose f => ConnectionCloseFrame_Write f
  end.

Definition Frame_Length (f : Frame) : outcome Z :=
  match f with
  | FPing => PingFrame_Length
  | FAck f => AckFrame_Length f
  | FResetStream f => ResetStreamFrame_Length f
  | FStopSending f => StopSendingFrame_Length f
  | FCrypto f => CryptoFrame_Length f
  | FNewToken f => NewTokenFrame_Length f
  | FStream f => StreamFrame_Length f
  | FMaxData f => MaxDataFrame_Length f
  | FMaxStreamData f => MaxStreamDataFrame_Length f
  | FMaxStreams f => MaxStreamsFrame_Length f
  | FDataBlocked f => DataBlockedFrame_Length f
  | FStreamDataBlocked f => StreamDataBlockedFrame_Length f
  | FStreamsBlocked f => StreamsBlockedFrame_Length f
  | FNewConnectionID f => NewConnectionIDFrame_Length f
  | FRetireConnectionID f => RetireConnectionIDFrame_Length f
  | FPathChallenge f => PathChallengeFrame_Length f
  | FPathResponse f => PathResponseFrame_Length f
  | FConnectionClose f => ConnectionCloseFrame_Length f
  end.

Record frameParser := mkFrameParser { fp_ackDelayExponent : Z; fp_version : Z }.
Definition NewFrameParser (v : Z) : frameParser := mkFrameParser 0 v.
Definition SetAckDelayExponent (p : frameParser) (exp : Z) : frameParser :=
  mkFrameParser exp (fp_version p).

Definition isAllowedAtEncLevel (f : Frame) (encLevel : EncryptionLevel) : bool :=
  match encLevel with
  | EncryptionInitial | EncryptionHandshake =>
      match f with FCrypto _ | FAck _ | FConnectionClose _ => true | _ => false end
  | Encryption1RTT => true
  | EncryptionUnspecified => false
  end.

(** [reflect.TypeOf(frame).Elem().Name()] *)
Definition frame_name (f : Frame) : string :=
  match f with
  | FPing => "PingFrame"
  | FAck _ => "AckFrame"
  | FResetStream _ => "ResetStreamFrame"
  | FStopSending _ => "StopSendingFrame"
  | FCrypto _ => "CryptoFrame"
  | FNewToken _ => "NewTokenFrame"
  | FStream _ => "StreamFrame"
  | FMaxData _ => "MaxDataFrame"
  | FMaxStreamData _ => "MaxStreamDataFrame"
  | FMaxStreams _ => "MaxStreamsFrame"
  | FDataBlocked _ => "DataBlockedFrame"
  | FStreamDataBlocked _ => "StreamDataBlockedFrame"
  | FStreamsBlocked _ => "StreamsBlockedFrame"
  | FNewConnectionID _ => "NewConnectionIDFrame"
  | FRetireConnectionID _ => "RetireConnectionIDFrame"
  | FPathChallenge _ => "PathChallengeFrame"
  | FPathResponse _ => "PathResponseFrame"
  | FConnectionClose _ => "ConnectionCloseFrame"
  end.

(** The parser chosen by the type byte; the type byte itself is still unread. *)
Definition frame_body (p : frameParser) (typeByte : Z) (encLevel : EncryptionLevel) : parser Frame :=
  if Z.land typeByte 0xf8 =? 0x8 then f ← parseStreamFrame; mret (FStream f)
  else if typeByte =? 0x1 then _ ← parsePingFrame; mret FPing
  else if (typeByte =? 0x2) || (typeByte =? 0x3) then
    let ackDelayExponent :=
      if decide (encLevel = Encryption1RTT) then fp_ackDelayExponent p else DefaultAckDelayExponent in
    f ← parseAckFrame ackDelayExponent; mret (FAck f)
  else if typeByte =? 0x4 then f ← parseResetStreamFrame; mret (FResetStream f)
  else if typeByte =? 0x5 then f ← parseStopSendingFrame; mret (FStopSending f)
  else if typeByte =? 0x6 then f ← parseCryptoFrame; mret (FCrypto f)
  else if typeByte =? 0x7 then f ← parseNewTokenFrame; mret (FNewToken f)
  else if typeByte =? 0x10 then f ← parseMaxDataFrame; mret (FMaxData f)
  else if typeByte =? 0x11 then f ← parseMaxStreamDataFrame; mret (FMaxStreamData f)
  else if (typeByte =? 0x12) || (typeByte =? 0x13) then f ← parseMaxStreamsFrame; mret (FMaxStreams f)
  else if typeByte =? 0x14 then f ← parseDataBlockedFrame; mret (FDataBlocked f)
  else if typeByte =? 0x15 then f ← parseStreamDataBlockedFrame; mret (FStreamDataBlocked f)
  else if (typeByte =? 0x16) || (typeByte =? 0x17) then f ← parseStreamsBlockedFrame; mret (FStreamsBlocked f)
  else if typeByte =? 0x18 then f ← parseNewConnectionIDFrame; mret (FNewConnectionID f)
  else if typeByte =? 0x19 then f ← parseRetireConnectionIDFrame; mret (FRetireConnectionID f)
  else if typeByte =? 0x1a then f ← parsePathChallengeFrame; mret (FPathChallenge f)
  else if typeByte =? 0x1b then f ← parsePathResponseFrame; mret (FPathResponse f)
  else if (typeByte =? 0x1c) || (typeByte =? 0x1d) then f ← parseConnectionCloseFrame; mret (FConnectionClose f)
  else fail (Errorf "unknown type byte 0x%x" [typeByte]).

Definition parseFrame (p : frameParser) (typeByte : Z) (encLevel : EncryptionLevel) : parser Frame :=
  frame ← frame_body p typeByte encLevel;
  if negb (isAllowedAtEncLevel frame encLevel)
  then fail (Errorf (frame_name frame +:+ " not allowed at encryption level "
                     +:+ EncryptionLevel_String encLevel) [])
  else mret frame.

(** [nil, nil] at the end of the payload is [None]. *)
Fixpoint ParseNext (p : frameParser) (encLevel : EncryptionLevel) (r : list Z)
    : outcome (option Frame * list Z) :=
  match r with
  | [] => Ok (None, [])
  | typeByte :: r' =>
      if typeByte =? 0x0 then ParseNext p encLevel r'
      else match parseFrame p typeByte encLevel r with
           | Ok (f, rest) => Ok (Some f, rest)
           | Err e => Err (QuicError FrameEncodingError e)
           | Panic s => Panic s
           end
  end.

(** * Well-formed frames and what they are read back as *)

Definition frame_ok (f : Frame) : Prop :=
  match f with
  | FPing => True
  | FAck f => ack_ok f
  | FStream f => stream_ok f
  | FResetStream f => fc_ok f | FStopSending f => fc_ok f | FCrypto f => fc_ok f
  | FNewToken f => fc_ok f | FMaxData f => fc_ok f | FMaxStreamData f => fc_ok f
  | FMaxStreams f => fc_ok f | FDataBlocked f => fc_ok f | FStreamDataBlocked f => fc_ok f
  | FStreamsBlocked f => fc_ok f | FNewConnectionID f => fc_ok f
  | FRetireConnectionID f => fc_ok f | FPathChallenge f => fc_ok f
  | FPathResponse f => fc_ok f | FConnectionClose f => fc_ok f
  end.
(** A STREAM frame without data and without FIN is refused by its writer. *)
Definition frame_sendable (f : Frame) : Prop :=
  match f with FStream s => ¬ (Data s = [] ∧ FinBit s = false) | _ => True end.
(** A STREAM frame without a length extends to the end of the packet. *)
Definition fills_packet (f : Frame) : bool :=
  match f with FStream s => negb (DataLenPresent s) | _ => false end.

(** [read_as f f']: what a receiver sees of [f]: an ACK that does not fit loses its
    lowest ranges, and the delay its low bits, a STREAM frame remembers where its buffer is from,
    every other frame arrives as it was sent. *)
Definition read_as (f f' : Frame) : Prop :=
  match f with
  | FAck a => ∃ m : nat, ack_kept a m ∧
      f' = FAck (mkAckFrame (take m (AckRanges a)) (DelayTime a / 8000 * 8000))
  | FStream s => f' = FStream (stream_canon s)
  | _ => f' = f
  end.

(** One frame, written and read back. *)
Lemma codec_frame {A} `{FrameCodec A} (C : A → Frame) (a : A) p lvl rest :
  fc_ok a → fc_type a ≠ 0 →
  frame_body p (fc_type a) lvl = (f ← fc_parse; mret (C f)) →
  ∃ t e, t ≠ 0 ∧ emits (fc_write a) (t :: e) ∧ fc_length a = Ok (1 + len e) ∧
    frame_body p t lvl ((t :: e) ++ rest) = Ok (C a, rest).
Proof.
  intros Ha Ht Hb. exists (fc_type a), (fc_body a).
  split_and!; [done|by apply fc_emits|by apply fc_len|].
  rewrite Hb. change (fc_type a :: fc_body a) with ([fc_type a] ++ fc_body a).
  by rewrite (bind_reads _ _ _ a) by (by apply fc_reads).
Qed.

Lemma frame_law p lvl f rest :
  frame_ok f → frame_sendable f →
  (lvl = Encryption1RTT → fp_ackDelayExponent p = AckDelayExponent) →
  (fills_packet f = true → rest = []) →
  ∃ t e f', t ≠ 0 ∧ emits (Frame_Write f) (t :: e) ∧ Frame_Length f = Ok (1 + len e) ∧
    read_as f f' ∧ frame_body p t lvl ((t :: e) ++ rest) = Ok (f', rest).
Proof.
  intros Hok Hs Hexp Hrest.
  assert (Hsimple : ∀ A (H : FrameCodec A) (C : A → Frame) (a : A), f = C a →
    fc_ok a → Frame_Write (C a) = fc_write a → Frame_Length (C a) = fc_length a →
    read_as (C a) (C a) → fc_type a ≠ 0 → frame_body p (fc_type a) lvl = (f ← fc_parse; mret (C f)) →
    ∃ t e f', t ≠ 0 ∧ emits (Frame_Write f) (t :: e) ∧ Frame_Length f = Ok (1 + len e) ∧
    read_as f f' ∧ frame_body p t lvl ((t :: e) ++ rest) = Ok (f', rest)).
  { intros A H C a -> Ha Hw Hl Hr Ht Hb. destruct (codec_frame C a p lvl rest Ha Ht Hb) as (t & e & ?).
    exists t, e, (C a). rewrite Hw, Hl. tauto. }
  destruct f; simpl in Hok;
    try (match goal with |- context [Frame_Write (?C ?f)] => apply (Hsimple _ _ C f) end;
         [done|exact Hok|done|done|done|simpl; by repeat case_match|simpl; by repeat case_match]).
  - by apply (Hsimple _ Ping_codec (λ _, FPing) ()).
  - destruct f as [[|r0 post] d]; [by destruct Hok|].
    destruct (keeps_exists _ _ _ Hok) as [m Hm]. pose proof Hm as (_ & Hle & Hm2 & Hl & _).
    exists 0x2, (tail (enc_ack r0 (take m post) d)), (FAck (mkAckFrame (r0 :: take m post) (d / 8000 * 8000))).
    assert (E : 2 :: tail (enc_ack r0 (take m post) d) = enc_ack r0 (take m post) d) by done. rewrite E.
    split_and!; [done|by apply AckFrame_emits| |exists (S m); simpl; split; [by apply keeps_kept|done]|].
    + simpl. rewrite (AckFrame_Length_ok r0 post d m) by done. f_equal. by rewrite <- E, len_cons.
    + assert (Hb : frame_body p 0x2 lvl = (f ← parseAckFrame AckDelayExponent; mret (FAck f))).
      { unfold frame_body. simpl. case_decide as D; [by rewrite Hexp|done]. }
      rewrite Hb.
      rewrite (bind_reads _ _ _ (mkAckFrame (r0 :: take m post) (d / 8000 * 8000))); [done|].
      destruct Hok as (_ & Hr & Hd). cbn [AckRanges DelayTime] in *. apply parseAckFrame_enc; [|lia|done].
      apply (ranges_below_app _ _ (drop m post)). cbn [app]. by rewrite take_drop.
  - pose proof (stream_type_bits f) as (_ & _ & _ & Hty & Hnz).
    exists (stream_type_byte f), (tail (enc_stream f)), (FStream (stream_canon f)).
    assert (E : stream_type_byte f :: tail (enc_stream f) = enc_stream f) by done. rewrite E.
    split_and!; [done|by apply stream_writable| |done|].
    + simpl. rewrite StreamFrame_Length_ok by done. f_equal. by rewrite <- E, len_cons.
    + unfold frame_body. rewrite Hty. change (0x8 =? 0x8) with true. unfold mbind, parser_bind.
      rewrite parseStreamFrame_enc; [done..|]. intros D. apply Hrest. simpl. by rewrite D.
Qed.

Lemma parseFrame_allowed p t lvl r f rest :
  frame_body p t lvl r = Ok (f, rest) → isAllowedAtEncLevel f lvl = true →
  parseFrame p t lvl r = Ok (f, rest).
Proof. intros E Ha. unfold parseFrame, mbind, parser_bind. rewrite E, Ha. done. Qed.
Lemma read_as_allowed f f' lvl : read_as f f' → isAllowedAtEncLevel f' lvl = isAllowedAtEncLevel f lvl.
Proof. destruct f; simpl; intros; destruct_and?; repeat match goal with H : ∃ _, _ |- _ => destruct H as (? & ? & ->) end; subst; by destruct lvl. Qed.
Lemma ParseNext_padding p lvl n r : ParseNext p lvl (replicate n 0 ++ r) = ParseNext p lvl r.
Proof. by induction n. Qed.

(** C35: Frames survive the wire.  [Write] on a well-formed frame that may be sent emits
    exactly [Length] bytes, and [ParseNext], at any encryption level where the frame is
    allowed, skips any PADDING before them, consumes exactly those bytes and returns
    the frame.  Only an ACK frame may come back different: its delay is rounded down to
    the ACK delay granularity, and if its ranges do not fit into [MaxAckFrameSize], as
    the code counts, it is cut to the highest ones, of which it keeps at least one and
    at most one less than fit. *)
Theorem frame_roundtrip p lvl f (n : nat) rest :
  frame_ok f → frame_sendable f → isAllowedAtEncLevel f lvl = true →
  (lvl = Encryption1RTT → fp_ackDelayExponent p = AckDelayExponent) →
  (fills_packet f = true → rest = []) →
  ∃ enc f', emits (Frame_Write f) enc ∧ Frame_Length f = Ok (len enc) ∧ read_as f f' ∧
    ParseNext p lvl (replicate n 0 ++ enc ++ rest) = Ok (Some f', rest).
Proof.
  intros Hok Hs Hal Hexp Hrest.
  destruct (frame_law p lvl f rest Hok Hs Hexp Hrest) as (t & e & f' & Ht & He & Hl & Hr & Hb).
  exists (t :: e), f'. rewrite len_cons. split_and!; [done..|].
  rewrite ParseNext_padding. simpl. destruct (Z.eqb_spec t 0); [done|].
  simpl in Hb. rewrite (parseFrame_allowed _ _ _ _ _ _ Hb); [done|]. by rewrite (read_as_allowed f f').
Qed.

Definition sample_reset : Frame := FResetStream (mkResetStream 4 0x1337 100000).
Lemma frame_roundtrip_witness :
  let p := SetAckDelayExponent (NewFrameParser 1) AckDelayExponent in
  (∃ enc f', emits (Frame_Write sample_reset) enc ∧ Frame_Length sample_reset = Ok (len enc) ∧
    read_as sample_reset f' ∧ ParseNext p Encryption1RTT (replicate 3 0 ++ enc ++ [1; 0]) = Ok (Some f', [1; 0])) ∧
  (∃ enc f', emits (Frame_Write (FAck ack_example)) enc ∧ Frame_Length (FAck ack_example) = Ok (len enc) ∧
    read_as (FAck ack_example) f' ∧ ParseNext p Encryption1RTT (replicate 1 0 ++ enc ++ [1]) = Ok (Some f', [1])).
Proof.
  intros p. split; [apply (frame_roundtrip p Encryption1RTT sample_reset 3 [1; 0]); done|].
  apply (frame_roundtrip p Encryption1RTT (FAck ack_example) 1 [1]); done.
Defined.

(** * Arbitrary input *)

Lemma yields_frame_body p t lvl : yields (frame_body p t lvl) frame_ok.
Proof.
  unfold frame_body.
  repeat match goal with |- yields (if ?b then _ else _) _ => destruct b end;
    try apply yields_fail; cbv zeta;
    (eapply yields_bind;
     [ first [ apply yields_parseStreamFrame | apply yields_parseAckFrame
             | match goal with |- @yields ?A _ _ => let I := constr:(_ : FrameCodec A) in exact (@fc_yields A I) end ]
     | intros a Ha; apply yields_ret; exact Ha || exact I ]).
Qed.
Lemma safe_frame_body p t lvl : safe (frame_body p t lvl).
Proof.
  unfold frame_body.
  repeat match goal with |- safe (if ?b then _ else _) => destruct b end;
    apply safe_fail || (apply safe_bind; [|intros; apply safe_ret]);
    first [apply safe_parseStreamFrame | apply safe_parseAckFrame 
      | match goal with |- @safe ?A _ => let I := constr:(_ : FrameCodec A) in exact (@fc_safe A I) end].
Qed.

Lemma consumes_parseAckFrame e : consumes (parseAckFrame e).
Proof. destruct (parseAckFrame_safe_body e) as (k & -> & Hk). by apply consumes_first. Qed.
Lemma frame_body_consumes p t lvl : consumes (frame_body p t lvl).
Proof.
  unfold frame_body.
  repeat match goal with |- consumes (if ?b then _ else _) => destruct b end;
    try (by intros ???);
    (apply consumes_bind; [|intros; apply safe_ret]);
    first [ apply consumes_parseAckFrame | apply consumes_first; intros; cbv zeta; solve_safe ].
Qed.

Lemma ParseNext_spec p lvl r :
  bytes_ok r →
  match ParseNext p lvl r with
  | Ok (Some f, rest) =>
      frame_ok f ∧ isAllowedAtEncLevel f lvl = true ∧ ∃ k, k ≠ [] ∧ r = k ++ rest
  | Ok (None, rest) => rest = [] ∧ r = replicate (length r) 0
  | Err e => ∃ e', e = QuicError FrameEncodingError e'
  | Panic _ => False
  end.
Proof.
  induction r as [|t r IH]; intros Hr; [done|]. simpl ParseNext.
  destruct (Z.eqb_spec t 0) as [->|Ht].
  { apply Forall_cons in Hr as [_ Hr]. specialize (IH Hr).
    destruct (ParseNext p lvl r) as [[[f|] rest]| |]; [|destruct IH as [-> IH]; simpl; by rewrite <- IH|done..].
    destruct IH as (? & ? & k & ? & ->). split_and!; [done..|]. by exists (0 :: k). }
  unfold parseFrame, mbind, parser_bind.
  pose proof (safe_frame_body p t lvl (t :: r)) as Hsafe.
  pose proof (yields_frame_body p t lvl (t :: r)) as Hy.
  pose proof (frame_body_consumes p t lvl (t :: r)) as Hc.
  destruct (frame_body p t lvl (t :: r)) as [[f rest]|e|] eqn:E; [|by eauto|done].
  destruct (isAllowedAtEncLevel f lvl) eqn:Ea; [simpl|by eexists].
  destruct (Hy f rest Hr eq_refl) as [[k Hk] Hf]. split_and!; [done..|]. exists k. split; [|done].
  intros ->. simpl in Hk. subst rest. specialize (Hc _ _ eq_refl). lia.
Qed.

(** C36: whatever bytes arrive, parsing the next frame never panics: it returns
    a well-formed frame that is allowed at the encryption level of the packet
    and consumes at least one byte, or it reports the end of a payload of nothing
    but PADDING, or it fails with FRAME_ENCODING_ERROR. *)
Theorem parse_next_total p lvl r :
  bytes_ok r →
  match ParseNext p lvl r with
  | Ok (Some f, rest) =>
      frame_ok f ∧ isAllowedAtEncLevel f lvl = true ∧ ∃ k, k ≠ [] ∧ r = k ++ rest
  | Ok (None, rest) => rest = [] ∧ r = replicate (length r) 0
  | Err e => ∃ e', e = QuicError FrameEncodingError e'
  | Panic _ => False
  end.
Proof. apply ParseNext_spec. Qed.
Lemma parse_next_total_witness :
  match ParseNext (NewFrameParser 1) EncryptionInitial [0; 6; 0; 2; 7; 8] with
  | Ok (Some f, rest) => frame_ok f ∧ isAllowedAtEncLevel f EncryptionInitial = true ∧
      ∃ k, k ≠ [] ∧ [0; 6; 0; 2; 7; 8] = k ++ rest
  | _ => False
  end.
Proof.
  refine (parse_next_total (NewFrameParser 1) EncryptionInitial [0; 6; 0; 2; 7; 8] _).
  repeat constructor; unfold byte_ok; lia.
Defined.
