(* ===== verification/Header.v ===== *)
(** Header: core/wire/header.go, extended_header.go and version_negotiation.go.
    The version-independent header, the extended header behind header protection,
    and Version Negotiation packets. *)

From S2P Require Import Prelude Utils Protocol AckFrame Frames FrameCodec.

(** [Type] is [None] for the zero value of [protocol.PacketType].  A nil byte slice
    and an empty one are the same list. *)
Record Header := mkHeader {
  IsLongHeader : bool; h_typeByte : Z; Type_ : option PacketType;
  Version : Z; SrcConnectionID : list Z; DestConnectionID : list Z;
  h_Length : Z; Token : list Z; h_SupportedVersions : list Z; OrigDestConnectionID : list Z;
  parsedLen : Z }.

Definition ParseConnectionID (data : list Z) (shortHeaderConnIDLen : Z) : outcome (list Z) :=
  match data with
  | [] => Err EOF
  | b0 :: _ =>
      let isLongHeader := 0 <? Z.land b0 0x80 in
      if negb isLongHeader then
        if len data <? shortHeaderConnIDLen + 1 then Err EOF
        else Ok (take (Z.to_nat shortHeaderConnIDLen) (drop 1 data))
      else if len data <? 6 then Err EOF
      else match data !! 5%nat with
           | None => Panic "index out of range"
           | Some destConnIDLen =>
               if len data <? 6 + destConnIDLen then Err EOF
               else Ok (take (Z.to_nat destConnIDLen) (drop 6 data))
           end
  end.

Definition IsVersionNegotiationPacket (b : list Z) : bool :=
  match b with
  | b0 :: b1 :: b2 :: b3 :: b4 :: _ =>
      (0 <? Z.land b0 0x80) && (b1 =? 0) && (b2 =? 0) && (b3 =? 0) && (b4 =? 0)
  | _ => false
  end.

Definition not_a_QUIC_packet : goerr := Errorf "not a QUIC packet" [].

(** The loop over the version list, while bytes are left; [fuel] bounds their number. *)
Fixpoint readVersions (fuel : nat) (acc : list Z) : parser (list Z) := λ r,
  if 0 <? len r then
    match fuel with
    | O => Panic "out of fuel"
    | S fuel =>
        match ReadUint32 r with
        | Ok (v, r') => readVersions fuel (acc ++ [v]) r'
        | Err e => Err e
        | Panic s => Panic s
        end
    end
  else Ok (acc, r).
Definition parseVersionNegotiationPacket : parser (list Z) :=
  n ← ReaderLen;
  if n =? 0 then fail (Errorf "Version Negotiation packet has empty version list" [])
  else if negb (n mod 4 =? 0) then
    fail (Errorf "Version Negotiation packet has a version list with an invalid length" [])
  else readVersions (Z.to_nat n) [].

Definition header_type (typeByte : Z) : PacketType :=
  match Z.shiftr (Z.land typeByte 0x30) 4 with
  | 0x0 => PacketTypeInitial
  | 0x1 => PacketType0RTT
  | 0x2 => PacketTypeHandshake
  | _ => PacketTypeRetry
  end.

(** Returns the header, and whether it comes with [errUnsupportedVersion]. *)
Definition parseLongHeader (typeByte : Z) : parser (Header * bool) :=
  v ← ReadUint32;
  if negb (v =? 0) && (Z.land typeByte 0x40 =? 0) then fail not_a_QUIC_packet else
  destConnIDLen ← ReadByte;
  dest ← ReadConnectionID destConnIDLen;
  srcConnIDLen ← ReadByte;
  src ← ReadConnectionID srcConnIDLen;
  let h ty length token versions orig :=
    mkHeader true typeByte ty v src dest length token versions orig 0 in
  if v =? 0 then vs ← parseVersionNegotiationPacket; mret (h None 0 [] vs [], false)
  else if negb (IsSupportedVersion SupportedVersions v) then mret (h None 0 [] [] [], true)
  else match header_type typeByte with
  | PacketTypeRetry =>
      origLen ← ReadByte;
      orig ← ReadConnectionID origLen;
      n ← ReaderLen;
      token ← ReadFull n;
      mret (h (Some PacketTypeRetry) 0 token [] orig, false)
  | ty =>
      token ← (if decide (ty = PacketTypeInitial) then
                 tokenLen ← ReadVarInt;
                 n ← ReaderLen;
                 if n <? tokenLen then fail EOF else ReadFull tokenLen
               else mret []);
      pl ← ReadVarInt;
      mret (h (Some ty) pl token [] [], false)
  end.

Definition parseShortHeader (typeByte shortHeaderConnIDLen : Z) : parser Header :=
  dest ← ReadConnectionID shortHeaderConnIDLen;
  mret (mkHeader false typeByte None 0 [] dest 0 [] [] [] 0).

Definition parseHeaderImpl (shortHeaderConnIDLen : Z) : parser (Header * bool) :=
  typeByte ← ReadByte;
  if negb (0 <? Z.land typeByte 0x80) then
    if Z.land typeByte 0x40 =? 0 then fail not_a_QUIC_packet
    else h ← parseShortHeader typeByte shortHeaderConnIDLen; mret (h, false)
  else parseLongHeader typeByte.

Definition set_parsedLen (h : Header) (n : Z) : Header :=
  mkHeader (IsLongHeader h) (h_typeByte h) (Type_ h) (Version h) (SrcConnectionID h) (DestConnectionID h)
    (h_Length h) (Token h) (h_SupportedVersions h) (OrigDestConnectionID h) n.
Definition parseHeader (shortHeaderConnIDLen : Z) : parser (Header * bool) := λ r,
  match parseHeaderImpl shortHeaderConnIDLen r with
  | Ok ((h, true), r') => Ok ((h, true), r')
  | Ok ((h, false), r') => Ok ((set_parsedLen h (len r - len r'), false), r')
  | Err e => Err e
  | Panic s => Panic s
  end.

(** Returns (header, packet data, rest); data and rest are nil for a version the
    code does not know. *)
Definition ParsePacket (data : list Z) (shortHeaderConnIDLen : Z) : outcome (Header * list Z * list Z) :=
  match parseHeader shortHeaderConnIDLen data with
  | Ok ((hdr, true), _) => Ok (hdr, [], [])
  | Ok ((hdr, false), _) =>
      if IsLongHeader hdr then
        if len data <? u64 (parsedLen hdr + h_Length hdr) then
          Err (Errorf "packet length (%d bytes) is smaller than the expected length (%d bytes)"
                 [len data - parsedLen hdr; h_Length hdr])
        else
          let packetLen := i64 (u64 (parsedLen hdr + h_Length hdr)) in
          if (packetLen <? 0) || (len data <? packetLen) then Panic "slice bounds out of range"
          else Ok (hdr, take (Z.to_nat packetLen) data, drop (Z.to_nat packetLen) data)
      else Ok (hdr, data, [])
  | Err e => Err e
  | Panic s => Panic s
  end.

(** * extended_header.go *)

Record ExtendedHeader := mkExtendedHeader {
  eh_Header : Header; eh_typeByte : Z; KeyPhase : bool;
  PacketNumberLen : Z; PacketNumber : Z }.

Definition readPacketNumber (pnLen : Z) : parser Z :=
  if pnLen =? 1 then ReadByte
  else if pnLen =? 2 then ReadUint16
  else if pnLen =? 3 then ReadUint24
  else if pnLen =? 4 then ReadUint32
  else fail (Errorf "invalid packet number length: %d" [pnLen]).

(** The rest of a header, behind the invariant part.  The flag is
    [ErrInvalidReservedBits], with which the header is returned. *)
Definition ext_parseLongHeader (h : Header) (typeByte : Z) : parser (ExtendedHeader * bool) :=
  let pnLen := Z.land typeByte 0x3 + 1 in
  pn ← readPacketNumber pnLen;
  mret (mkExtendedHeader h typeByte false pnLen pn, negb (Z.land typeByte 0xc =? 0)).
Definition ext_parseShortHeader (h : Header) (typeByte : Z) : parser (ExtendedHeader * bool) :=
  let pnLen := Z.land typeByte 0x3 + 1 in
  pn ← readPacketNumber pnLen;
  mret (mkExtendedHeader h typeByte (0 <? Z.land typeByte 0x4) pnLen pn, negb (Z.land typeByte 0x18 =? 0)).
Definition ext_parse (h : Header) (data : list Z) : outcome (ExtendedHeader * bool * list Z) :=
  match data with
  | [] => Err EOF
  | typeByte :: _ => (if IsLongHeader h then ext_parseLongHeader h typeByte else ext_parseShortHeader h typeByte) (drop (Z.to_nat (parsedLen h)) data)
  end.
(** [ParseExtended] on the bytes of a packet, starting at the first byte of its
    header.  Returns the header, whether it comes with [ErrInvalidReservedBits],
    and what is left unread. *)
Definition ParseExtended (h : Header) (data : list Z) : outcome (ExtendedHeader * bool * list Z) := ext_parse h data.

Definition writePacketNumber (h : ExtendedHeader) : writer :=
  if PacketNumberLen h =? 1 then WriteByte (u8 (PacketNumber h))
  else if PacketNumberLen h =? 2 then WriteUint16 (u16 (PacketNumber h))
  else if PacketNumberLen h =? 3 then WriteUint24 (u32 (PacketNumber h))
  else if PacketNumberLen h =? 4 then WriteUint32 (u32 (PacketNumber h))
  else wfail (Errorf "invalid packet number length: %d" [PacketNumberLen h]).

Definition packet_type_bits (t : option PacketType) : Z :=
  match t with
  | Some PacketTypeInitial => 0x0
  | Some PacketType0RTT => 0x1
  | Some PacketTypeHandshake => 0x2
  | Some PacketTypeRetry => 0x3
  | None => 0x0
  end.
Definition writeLongHeader (h : ExtendedHeader) : writer :=
  let hd := eh_Header h in
  let firstByte := Z.lor 0xc0 (u8 (Z.shiftl (packet_type_bits (Type_ hd)) 4)) in
  let firstByte := if decide (Type_ hd = Some PacketTypeRetry) then firstByte
                   else Z.lor firstByte (u8 (PacketNumberLen h - 1)) in
  WriteByte firstByte
  >>> WriteUint32 (u32 (Version hd))
  >>> WriteByte (u8 (len (DestConnectionID hd))) >>> WriteBytes (DestConnectionID hd)
  >>> WriteByte (u8 (len (SrcConnectionID hd))) >>> WriteBytes (SrcConnectionID hd)
  >>> match Type_ hd with
      | Some PacketTypeRetry =>
          WriteByte (u8 (len (OrigDestConnectionID hd))) >>> WriteBytes (OrigDestConnectionID hd)
          >>> WriteBytes (Token hd)
      | ty =>
          (if decide (ty = Some PacketTypeInitial)
           then WriteVarInt (len (Token hd)) >>> WriteBytes (Token hd) else wdone)
          >>> WriteVarInt (h_Length hd) >>> writePacketNumber h
      end.
Definition writeShortHeader (h : ExtendedHeader) : writer :=
  let typeByte := Z.lor 0x40 (u8 (PacketNumberLen h - 1)) in
  let typeByte := if KeyPhase h then Z.lor typeByte (Z.shiftl 1 2) else typeByte in
  WriteByte typeByte >>> WriteBytes (DestConnectionID (eh_Header h)) >>> writePacketNumber h.
Definition ExtendedHeader_Write (h : ExtendedHeader) : writer :=
  let hd := eh_Header h in
  let bad n := wfail (Errorf "invalid connection ID length: %d bytes" [n]) in
  if MaxConnIDLen <? len (DestConnectionID hd) then bad (len (DestConnectionID hd))
  else if MaxConnIDLen <? len (SrcConnectionID hd) then bad (len (SrcConnectionID hd))
  else if MaxConnIDLen <? len (OrigDestConnectionID hd) then bad (len (OrigDestConnectionID hd))
  else if IsLongHeader hd then writeLongHeader h else writeShortHeader h.

Definition GetLength (h : ExtendedHeader) : outcome Z :=
  let hd := eh_Header h in
  if IsLongHeader hd then
    l ← VarIntLen (h_Length hd);
    let length := 1 + 4 + 1 + len (DestConnectionID hd) + 1 + len (SrcConnectionID hd) + PacketNumberLen h + l in
    if decide (Type_ hd = Some PacketTypeInitial) then
      t ← VarIntLen (len (Token hd)); Ok (length + (t + len (Token hd)))
    else Ok length
  else Ok (1 + len (DestConnectionID hd) + PacketNumberLen h).

(** * version_negotiation.go *)

(** [r0] is the random type byte; [b0] and [rand32] are what [GetGreasedVersions] draws. *)
Definition ComposeVersionNegotiation (destConnID srcConnID versions : list Z) (r0 b0 rand32 : Z) : list Z :=
  let greasedVersions := GetGreasedVersions b0 rand32 versions in
  fst ((WriteByte (Z.lor r0 0xc0) >>> WriteUint32 0
        >>> WriteByte (u8 (len destConnID)) >>> WriteBytes destConnID
        >>> WriteByte (u8 (len srcConnID)) >>> WriteBytes srcConnID
        >>> foldr (λ v w, WriteUint32 (u32 v) >>> w) wdone greasedVersions) []).

(** * Round trips *)

Definition pn_ok (n pn : Z) : Prop := 1 <= n <= 4 ∧ 0 <= pn < 2 ^ (8 * n).
Definition pn_bytes (n pn : Z) : list Z :=
  if n =? 1 then [pn]
  else if n =? 2 then [byte_at pn 8; u8 pn]
  else if n =? 3 then [byte_at pn 16; byte_at pn 8; u8 pn]
  else [byte_at pn 24; byte_at pn 16; byte_at pn 8; u8 pn].
Lemma pn_len_cases n : 1 <= n <= 4 → n = 1 ∨ n = 2 ∨ n = 3 ∨ n = 4.
Proof. lia. Qed.
Lemma pn_roundtrip h : pn_ok (PacketNumberLen h) (PacketNumber h) →
  emits (writePacketNumber h) (pn_bytes (PacketNumberLen h) (PacketNumber h)) ∧
  reads (readPacketNumber (PacketNumberLen h)) (pn_bytes (PacketNumberLen h) (PacketNumber h)) (PacketNumber h) ∧
  len (pn_bytes (PacketNumberLen h) (PacketNumber h)) = PacketNumberLen h.
Proof.
  intros [Hn Hp]. unfold writePacketNumber, readPacketNumber, pn_bytes.
  destruct (pn_len_cases _ Hn) as [E|[E|[E|E]]]; rewrite E in *; cbn [Z.eqb Pos.eqb]; unwrap.
  - split_and!; [apply emits_byte|apply reads_ReadByte|done].
  - split_and!; [apply emits_Uint16|apply reads_Uint16; lia|done].
  - split_and!; [apply emits_Uint24|apply reads_Uint24; lia|done].
  - split_and!; [apply emits_Uint32|apply reads_Uint32; lia|done].
Qed.

Definition first_byte (ty : PacketType) (n : Z) : Z :=
  Z.lor (Z.lor 0xc0 (u8 (Z.shiftl (packet_type_bits (Some ty)) 4))) (u8 (n - 1)).
Lemma first_byte_bits ty n : 1 <= n <= 4 →
  let b := first_byte ty n in
  (0 <? Z.land b 0x80) = true ∧ (Z.land b 0x40 =? 0) = false ∧ header_type b = ty ∧
  Z.land b 0x3 + 1 = n ∧ Z.land b 0xc = 0 ∧ byte_ok b.
Proof.
  intros Hn. unfold first_byte, byte_ok.
  destruct (pn_len_cases _ Hn) as [-> | [-> | [-> | ->]]], ty; vm_compute; split_and!; done.
Qed.
Definition short_byte (kp : bool) (n : Z) : Z :=
  if kp then Z.lor (Z.lor 0x40 (u8 (n - 1))) (Z.shiftl 1 2) else Z.lor 0x40 (u8 (n - 1)).
Lemma short_byte_bits kp n : 1 <= n <= 4 →
  let b := short_byte kp n in
  (0 <? Z.land b 0x80) = false ∧ (Z.land b 0x40 =? 0) = false ∧ (0 <? Z.land b 0x4) = kp ∧
  Z.land b 0x3 + 1 = n ∧ Z.land b 0x18 = 0 ∧ byte_ok b.
Proof.
  intros Hn. unfold short_byte, byte_ok.
  destruct (pn_len_cases _ Hn) as [-> | [-> | [-> | ->]]], kp; vm_compute; split_and!; done.
Qed.

Definition cid_ok (c : list Z) : Prop := len c <= MaxConnIDLen.
(** A long header packet with a packet number, as the packer builds it. *)
Definition long_ok (h : ExtendedHeader) : Prop :=
  let hd := eh_Header h in
  IsLongHeader hd = true ∧ Version hd = VersionTLS ∧
  (∃ ty, Type_ hd = Some ty ∧ ty ≠ PacketTypeRetry ∧ (ty ≠ PacketTypeInitial → Token hd = [])) ∧
  cid_ok (DestConnectionID hd) ∧ cid_ok (SrcConnectionID hd) ∧ OrigDestConnectionID hd = [] ∧
  h_SupportedVersions hd = [] ∧ vi_ok (h_Length hd) ∧ vi_ok (len (Token hd)) ∧ KeyPhase h = false ∧
  pn_ok (PacketNumberLen h) (PacketNumber h).
Definition short_ok (h : ExtendedHeader) : Prop :=
  let hd := eh_Header h in
  IsLongHeader hd = false ∧ Type_ hd = None ∧ Version hd = 0 ∧ SrcConnectionID hd = [] ∧
  cid_ok (DestConnectionID hd) ∧ h_Length hd = 0 ∧ Token hd = [] ∧ OrigDestConnectionID hd = [] ∧
  h_SupportedVersions hd = [] ∧ pn_ok (PacketNumberLen h) (PacketNumber h).

(** Everything a header says on the wire. *)
Definition wire_fields (h : ExtendedHeader) :=
  let hd := eh_Header h in
  (IsLongHeader hd, Type_ hd, Version hd, SrcConnectionID hd, DestConnectionID hd, h_Length hd,
   Token hd, h_SupportedVersions hd, OrigDestConnectionID hd, (KeyPhase h, PacketNumberLen h, PacketNumber h)).

Definition u32_bytes (v : Z) : list Z := [byte_at v 24; byte_at v 16; byte_at v 8; u8 v].
(** The bytes before the packet number. *)
Definition long_prefix (ty : PacketType) (h : ExtendedHeader) : list Z :=
  let hd := eh_Header h in
  [first_byte ty (PacketNumberLen h)] ++ u32_bytes VersionTLS
  ++ [len (DestConnectionID hd)] ++ DestConnectionID hd
  ++ [len (SrcConnectionID hd)] ++ SrcConnectionID hd
  ++ (if decide (ty = PacketTypeInitial) then varint (len (Token hd)) ++ Token hd else [])
  ++ varint (h_Length hd).
Definition short_prefix (h : ExtendedHeader) : list Z :=
  [short_byte (KeyPhase h) (PacketNumberLen h)] ++ DestConnectionID (eh_Header h).

Lemma long_emits h ty : long_ok h → Type_ (eh_Header h) = Some ty →
  emits (ExtendedHeader_Write h) (long_prefix ty h ++ pn_bytes (PacketNumberLen h) (PacketNumber h)).
Proof.
  intros (Hl & Hv & (ty' & Hty & Hr & Ht) & Hd & Hs & Ho & _ & HL & HT & _ & Hpn) Hty'.
  rewrite Hty in Hty'. injection Hty' as ->. destruct (pn_roundtrip h Hpn) as [Hpe _].
  unfold ExtendedHeader_Write, cid_ok, MaxConnIDLen, vi_ok in *. rewrite Ho, Hl.
  destruct (Z.ltb_spec 20 (len (DestConnectionID (eh_Header h)))); [lia|].
  destruct (Z.ltb_spec 20 (len (SrcConnectionID (eh_Header h)))); [lia|]. change (20 <? len []) with false. cbv iota.
  pose proof (len_nonneg (DestConnectionID (eh_Header h))). pose proof (len_nonneg (SrcConnectionID (eh_Header h))).
  unfold writeLongHeader, long_prefix. rewrite Hv, Hty. rewrite !(u8_small (len _)) by lia.
  rewrite decide_False by congruence. fold (first_byte ty (PacketNumberLen h)).
  rewrite <- !app_assoc. change (u32 VersionTLS) with VersionTLS.
  apply (emits_then _ _ [_]); [apply emits_byte|]. apply emits_then; [apply emits_Uint32|].
  apply (emits_then _ _ [_]); [apply emits_byte|]. apply emits_then; [apply emits_bytes|].
  apply (emits_then _ _ [_]); [apply emits_byte|]. apply emits_then; [apply emits_bytes|].
  assert (Hrest : emits (WriteVarInt (h_Length (eh_Header h)) >>> writePacketNumber h)
    (varint (h_Length (eh_Header h)) ++ pn_bytes (PacketNumberLen h) (PacketNumber h))).
  { apply emits_then; [apply emits_WriteVarInt; lia|done]. }
  destruct ty; repeat case_decide; try congruence; simplify_eq; (apply emits_then; [|done]);
    try apply emits_done. apply emits_then; [apply emits_WriteVarInt; lia|apply emits_bytes].
Qed.

Lemma reads_Uint32_bytes v : 0 <= v < 2 ^ 32 → reads ReadUint32 (u32_bytes v) v.
Proof. apply reads_Uint32. Qed.

(** Header protection changes the low bits of the first byte: any byte with the
    same upper bits is parsed alike. *)
Lemma long_reads_any h ty fb scl : long_ok h → Type_ (eh_Header h) = Some ty →
  (0 <? Z.land fb 0x80) = true → (Z.land fb 0x40 =? 0) = false → header_type fb = ty →
  reads (parseHeaderImpl scl) (fb :: tail (long_prefix ty h))
    (mkHeader true fb (Some ty) VersionTLS (SrcConnectionID (eh_Header h))
       (DestConnectionID (eh_Header h)) (h_Length (eh_Header h)) (Token (eh_Header h)) [] [] 0, false).
Proof.
  intros (Hl & Hv & (ty' & Hty & Hr & Ht) & Hd & Hs & Ho & _ & HL & HT & _ & [Hn _]) Hty' B1 B2 B3.
  rewrite Hty in Hty'. injection Hty' as ->.
  unfold parseHeaderImpl, long_prefix. apply (reads_bind _ _ [_] _ fb); [apply reads_ReadByte|].
  rewrite B1. cbn [negb]. unfold parseLongHeader.
  eapply reads_bind; [apply reads_Uint32_bytes; by vm_compute|].
  rewrite B2, andb_false_r.
  eapply (reads_bind _ _ [_]); [apply reads_ReadByte|]. eapply reads_bind; [apply reads_ReadConnectionID|].
  eapply (reads_bind _ _ [_]); [apply reads_ReadByte|]. eapply reads_bind; [apply reads_ReadConnectionID|].
  cbv zeta. change (VersionTLS =? 0) with false. cbv iota.
  change (negb (IsSupportedVersion SupportedVersions VersionTLS)) with false. cbv iota. rewrite B3.
  assert (Htok : reads (if decide (ty = PacketTypeInitial) then
                 tokenLen ← ReadVarInt; n ← ReaderLen; if n <? tokenLen then fail EOF else ReadFull tokenLen
               else mret []) (if decide (ty = PacketTypeInitial) then varint (len (Token (eh_Header h))) ++ Token (eh_Header h) else [])
               (Token (eh_Header h))).
  { case_decide; [|rewrite Ht by done; apply reads_ret]. eapply reads_bind; [by apply reads_ReadVarInt|].
    apply reads_guard. intros n Hn'. apply reads_if_ok; [by apply Z.ltb_ge|]. apply reads_ReadFull. }
  destruct ty; try done; (eapply reads_bind; [exact Htok|]); (eapply reads_map; [by apply reads_ReadVarInt|apply reads_ret]).
Qed.
Lemma long_reads h ty scl : long_ok h → Type_ (eh_Header h) = Some ty →
  reads (parseHeaderImpl scl) (long_prefix ty h)
    (mkHeader true (first_byte ty (PacketNumberLen h)) (Some ty) VersionTLS (SrcConnectionID (eh_Header h))
       (DestConnectionID (eh_Header h)) (h_Length (eh_Header h)) (Token (eh_Header h)) [] [] 0, false).
Proof.
  intros Hok Hty. destruct (first_byte_bits ty (PacketNumberLen h)) as (B1 & B2 & B3 & _); [apply Hok|].
  exact (long_reads_any h ty _ scl Hok Hty B1 B2 B3).
Qed.

Lemma short_emits h : short_ok h →
  emits (ExtendedHeader_Write h) (short_prefix h ++ pn_bytes (PacketNumberLen h) (PacketNumber h)).
Proof.
  intros (Hl & _ & _ & Hs & Hd & _ & _ & Ho & _ & Hpn). destruct (pn_roundtrip h Hpn) as [Hpe _].
  unfold ExtendedHeader_Write, cid_ok, MaxConnIDLen in *. rewrite Hs, Ho, Hl.
  destruct (Z.ltb_spec 20 (len (DestConnectionID (eh_Header h)))); [lia|]. change (20 <? len []) with false. cbv iota.
  unfold writeShortHeader, short_prefix. rewrite <- !app_assoc.
  apply (emits_then _ _ [_]); [apply emits_byte|]. apply emits_then; [apply emits_bytes|done].
Qed.
Lemma short_reads_any h fb : short_ok h → (0 <? Z.land fb 0x80) = false → (Z.land fb 0x40 =? 0) = false →
  reads (parseHeaderImpl (len (DestConnectionID (eh_Header h)))) (fb :: tail (short_prefix h))
    (mkHeader false fb None 0 [] (DestConnectionID (eh_Header h)) 0 [] [] [] 0, false).
Proof.
  intros (Hl & _ & _ & _ & Hd & _ & _ & _ & _ & [Hn _]) B1 B2.
  unfold parseHeaderImpl, short_prefix. apply (reads_bind _ _ [_] _ fb); [apply reads_ReadByte|].
  rewrite B1, B2. cbn [negb]. eapply reads_map; [|apply reads_ret].
  unfold parseShortHeader. eapply reads_map; [apply reads_ReadConnectionID|apply reads_ret].
Qed.
Lemma short_reads h : short_ok h →
  reads (parseHeaderImpl (len (DestConnectionID (eh_Header h)))) (short_prefix h)
    (mkHeader false (short_byte (KeyPhase h) (PacketNumberLen h)) None 0 [] (DestConnectionID (eh_Header h)) 0 [] [] [] 0, false).
Proof.
  intros Hok. destruct (short_byte_bits (KeyPhase h) (PacketNumberLen h)) as (B1 & B2 & _); [apply Hok|].
  exact (short_reads_any h _ Hok B1 B2).
Qed.

(** Parsing the header, given how its first part reads. *)
Lemma parse_packet_step scl H hd data rest :
  reads (parseHeaderImpl scl) H (hd, false) →
  (if IsLongHeader hd then h_Length hd = len data else rest = []) →
  len H + h_Length hd < 2 ^ 63 → 0 <= h_Length hd →
  ParsePacket ((H ++ data) ++ rest) scl = Ok (set_parsedLen hd (len H), H ++ data, rest).
Proof.
  intros Hread Hlen Hbig Hnn. unfold ParsePacket, parseHeader. rewrite <- app_assoc, Hread.
  assert (El : len (H ++ data ++ rest) - len (data ++ rest) = len H) by (autorewrite with len; lia).
  rewrite El. set (hd' := set_parsedLen hd (len H)). change (IsLongHeader hd') with (IsLongHeader hd).
  change (h_Length hd') with (h_Length hd). change (parsedLen hd') with (len H). destruct (IsLongHeader hd).
  - pose proof (len_nonneg H). rewrite u64_small by lia. rewrite i64_small by lia.
    destruct (Z.ltb_spec (len (H ++ data ++ rest)) (len H + h_Length hd)) as [L|?].
    { rewrite Hlen in L. autorewrite with len in L. pose proof (len_nonneg rest). lia. }
    rewrite (proj2 (Z.ltb_ge _ 0)) by lia. cbn [orb]. rewrite Hlen. rewrite <- len_app. unfold len. rewrite Nat2Z.id.
    rewrite app_assoc, take_app_length, drop_app_length. done.
  - subst rest. by rewrite app_nil_r.
Qed.
(** Parsing the packet number, with the header's first byte in the clear. *)
Lemma parse_extended_step hd H fb b n pn kp rest :
  H = fb :: b → Z.land fb 0x3 + 1 = n → reads (readPacketNumber n) (pn_bytes n pn) pn →
  Z.land fb (if IsLongHeader hd then 0xc else 0x18) = 0 →
  (if IsLongHeader hd then false else 0 <? Z.land fb 0x4) = kp →
  let hd' := set_parsedLen hd (len H) in
  ParseExtended hd' (H ++ pn_bytes n pn ++ rest) = Ok (mkExtendedHeader hd' fb kp n pn, false, rest).
Proof.
  intros -> Hn Hpn Hres Hkp hd'. unfold ParseExtended, ext_parse. cbn [app].
  change (fb :: b ++ pn_bytes n pn ++ rest) with ((fb :: b) ++ pn_bytes n pn ++ rest).
  change (parsedLen hd') with (len (fb :: b)). unfold len at 1. rewrite Nat2Z.id, drop_app_length.
  change (IsLongHeader hd') with (IsLongHeader hd). unfold ext_parseLongHeader, ext_parseShortHeader. rewrite Hn.
  unfold mbind, parser_bind, mret, parser_ret. destruct (IsLongHeader hd); rewrite Hpn, Hres, ?Hkp; [by subst kp|done].
Qed.
(** Both together. *)
Lemma parse_two_steps scl H hd pn n kp b payload rest fb :
  reads (parseHeaderImpl scl) H (hd, false) → H = fb :: b → Z.land fb 0x3 + 1 = n →
  reads (readPacketNumber n) (pn_bytes n pn) pn →
  Z.land fb (if IsLongHeader hd then 0xc else 0x18) = 0 →
  (if IsLongHeader hd then false else 0 <? Z.land fb 0x4) = kp →
  (if IsLongHeader hd then h_Length hd = len (pn_bytes n pn ++ payload) else rest = []) →
  len H + h_Length hd < 2 ^ 63 → 0 <= h_Length hd →
  let data := H ++ pn_bytes n pn ++ payload in
  let hd' := set_parsedLen hd (len H) in
  ParsePacket (data ++ rest) scl = Ok (hd', data, rest) ∧
  ParseExtended hd' data = Ok (mkExtendedHeader hd' fb kp n pn, false, payload).
Proof. intros. split; [by apply parse_packet_step|by eapply parse_extended_step]. Qed.

(** Headers survive the wire.  A long header packet (Initial, 0-RTT or
    Handshake) whose Length covers the packet number and the payload, or a short
    header packet, is written in exactly [GetLength] bytes; [ParsePacket] cuts it
    off at its end and leaves the coalesced packets after it, and
    [ParseExtended] recovers every field and the payload with no reserved-bits
    error. *)
Theorem header_roundtrip h payload rest scl :
  (long_ok h ∧ h_Length (eh_Header h) = PacketNumberLen h + len payload) ∨
  (short_ok h ∧ scl = len (DestConnectionID (eh_Header h)) ∧ rest = []) →
  len payload < 2 ^ 60 → len (Token (eh_Header h)) < 2 ^ 60 →
  ∃ enc hdr h', emits (ExtendedHeader_Write h) enc ∧ GetLength h = Ok (len enc) ∧
    ParsePacket (enc ++ payload ++ rest) scl = Ok (hdr, enc ++ payload, rest) ∧
    ParseExtended hdr (enc ++ payload) = Ok (h', false, payload) ∧ wire_fields h' = wire_fields h.
Proof.
  intros [[Hok HL]|(Hok & -> & ->)] Hp Htk.
  - pose proof Hok as (Hl & Hv & (ty & Hty & Hr & Ht) & Hd & Hs & Ho & Hsv & HLv & HT & Hkp & Hpn).
    pose proof (pn_roundtrip h Hpn) as (_ & Hpr & Hpl).
    destruct (first_byte_bits ty _ (proj1 Hpn)) as (_ & _ & _ & B4 & B5 & _).
    assert (Hplen : len (long_prefix ty h) <= 2 ^ 61).
    { unfold long_prefix, cid_ok, MaxConnIDLen, vi_ok in *. pose proof (varint_len _ (proj2 HLv)). pose proof (varint_len _ (proj2 HT)).
      autorewrite with len. case_decide; autorewrite with len; unfold u32_bytes; simpl len; autorewrite with len; lia. }
    destruct (parse_two_steps scl (long_prefix ty h) _ (PacketNumber h) (PacketNumberLen h) false
      (tail (long_prefix ty h)) payload rest (first_byte ty (PacketNumberLen h)) (long_reads h ty scl Hok Hty))
      as [P1 P2]; try done.
    { cbn [IsLongHeader h_Length]. autorewrite with len. lia. }
    { cbn [h_Length]. unfold pn_ok in *. lia. }
    { cbn [h_Length]. apply HLv. }
    eexists (long_prefix ty h ++ pn_bytes (PacketNumberLen h) (PacketNumber h)), _, _.
    split; [by apply long_emits|]. rewrite <- !app_assoc. rewrite <- !app_assoc in P1. split; [|split; [exact P1|split; [exact P2|]]].
    + unfold GetLength. rewrite Hl, Hty. rewrite (VarIntLen_varint (h_Length _)) by apply HLv. simpl mbind.
      unfold long_prefix, u32_bytes. rewrite (VarIntLen_varint (len (Token _))) by apply HT. simpl mbind.
      autorewrite with len. rewrite Hpl.
      destruct ty; repeat case_decide; try congruence; autorewrite with len; f_equal; lia.
    + unfold wire_fields; cbn. by rewrite Hl, Hty, Hv, Ho, Hsv, Hkp.
  - pose proof Hok as (Hl & Hty & Hv & Hs & Hd & HL & HT & Ho & Hsv & Hpn).
    pose proof (pn_roundtrip h Hpn) as (_ & Hpr & Hpl).
    destruct (short_byte_bits (KeyPhase h) _ (proj1 Hpn)) as (_ & _ & B3 & B4 & B5 & _).
    destruct (parse_two_steps (len (DestConnectionID (eh_Header h))) (short_prefix h) _ (PacketNumber h) (PacketNumberLen h) (KeyPhase h)
      (tail (short_prefix h)) payload [] (short_byte (KeyPhase h) (PacketNumberLen h)) (short_reads h Hok))
      as [P1 P2]; try done.
    { unfold short_prefix, cid_ok, MaxConnIDLen in *. autorewrite with len. cbn [h_Length]. lia. }
    eexists (short_prefix h ++ pn_bytes (PacketNumberLen h) (PacketNumber h)), _, _.
    split; [by apply short_emits|]. rewrite <- !app_assoc. rewrite <- !app_assoc in P1. split; [|split; [exact P1|split; [exact P2|]]].
    + unfold GetLength. rewrite Hl. unfold short_prefix. autorewrite with len. rewrite Hpl. f_equal; lia.
    + unfold wire_fields; cbn. by rewrite Hl, Hty, Hv, Hs, HL, HT, Ho, Hsv.
Qed.
Definition sample_header : ExtendedHeader :=
  mkExtendedHeader (mkHeader true 0 (Some PacketTypeInitial) VersionTLS [1; 2] [3; 4; 5] 7 [9; 9] [] [] 0)
    0 false 2 0xbeef.
Lemma header_roundtrip_witness :
  ∃ enc hdr h', emits (ExtendedHeader_Write sample_header) enc ∧ GetLength sample_header = Ok (len enc) ∧
    ParsePacket (enc ++ [1; 2; 3; 4; 5] ++ [77]) 0 = Ok (hdr, enc ++ [1; 2; 3; 4; 5], [77]) ∧
    ParseExtended hdr (enc ++ [1; 2; 3; 4; 5]) = Ok (h', false, [1; 2; 3; 4; 5]) ∧
    wire_fields h' = wire_fields sample_header.
Proof.
  apply (header_roundtrip sample_header [1; 2; 3; 4; 5] [77] 0); [left|done|done].
  split; [|reflexivity]. unfold long_ok, sample_header, cid_ok, vi_ok, pn_ok; cbn.
  split_and!; try (by vm_compute). exists PacketTypeInitial. done.
Defined.

(** * Version Negotiation *)

Definition enc_versions (vs : list Z) : list Z := concat (map u32_bytes vs).
Lemma readVersions_enc vs acc fuel :
  Forall (λ v, 0 <= v < 2 ^ 32) vs → (length vs <= fuel)%nat →
  readVersions fuel acc (enc_versions vs) = Ok (acc ++ vs, []).
Proof.
  revert acc fuel. induction vs as [|v vs IH]; intros acc fuel Hv Hf.
  - destruct fuel; simpl; by rewrite app_nil_r.
  - apply Forall_cons in Hv as [Hv Hvs]. destruct fuel as [|fuel]; simpl in Hf; [lia|].
    change (enc_versions (v :: vs)) with (u32_bytes v ++ enc_versions vs). cbn [readVersions].
    rewrite (reads_Uint32_bytes v Hv). rewrite IH by (done || lia). by rewrite <- app_assoc.
Qed.
Lemma len_enc_versions vs : len (enc_versions vs) = 4 * len vs.
Proof. induction vs as [|v vs IH]; [done|]. change (enc_versions (v :: vs)) with (u32_bytes v ++ enc_versions vs).
  rewrite len_app, IH, len_cons. change (len (u32_bytes v)) with 4. lia. Qed.
Lemma emits_versions vs : Forall (λ v, 0 <= v < 2 ^ 32) vs →
  emits (foldr (λ v w, WriteUint32 (u32 v) >>> w) wdone vs) (enc_versions vs).
Proof.
  induction 1 as [|v vs Hv _ IH]; [apply emits_done|]. cbn [foldr]. rewrite u32_small by done.
  apply (emits_then _ _ (u32_bytes v)); [apply emits_Uint32|done].
Qed.

Lemma vn_byte r0 : byte_ok r0 → (0 <? Z.land (Z.lor r0 0xc0) 0x80) = true.
Proof.
  intros H. revert r0 H. unfold byte_ok. change 256 with (Z.of_nat 256).
  apply (forall_below_bool 256 (λ r0, (0 <? Z.land (Z.lor r0 0xc0) 0x80) = true)). vm_compute. reflexivity.
Qed.

Lemma ComposeVersionNegotiation_bytes dest src versions r0 b0 rand32 :
  cid_ok dest → cid_ok src → Forall (λ v, 0 <= v < 2 ^ 32) (GetGreasedVersions b0 rand32 versions) →
  ComposeVersionNegotiation dest src versions r0 b0 rand32 =
    [Z.lor r0 0xc0] ++ u32_bytes 0 ++ [len dest] ++ dest ++ [len src] ++ src
    ++ enc_versions (GetGreasedVersions b0 rand32 versions).
Proof.
  intros Hd Hs Hv. unfold ComposeVersionNegotiation, cid_ok, MaxConnIDLen in *.
  pose proof (len_nonneg dest). pose proof (len_nonneg src). rewrite !u8_small by lia.
  set (w := foldr _ _ _).
  assert (He : emits (WriteByte (Z.lor r0 0xc0) >>> WriteUint32 0 >>> WriteByte (len dest) >>> WriteBytes dest
        >>> WriteByte (len src) >>> WriteBytes src >>> w)
      ([Z.lor r0 0xc0] ++ u32_bytes 0 ++ [len dest] ++ dest ++ [len src] ++ src
       ++ enc_versions (GetGreasedVersions b0 rand32 versions))).
  { repeat (apply emits_then; [first [apply emits_byte | apply emits_Uint32 | apply emits_bytes]|]). by apply emits_versions. }
  by rewrite He.
Qed.
Lemma greased_range b0 rand32 versions :
  Forall (λ v, 0 <= v < 2 ^ 32) versions → Forall (λ v, 0 <= v < 2 ^ 32) (GetGreasedVersions b0 rand32 versions).
Proof.
  intros Hv. unfold GetGreasedVersions. set (n := Z.to_nat _).
  rewrite <- (take_drop n versions) in Hv. apply Forall_app in Hv as [? ?].
  apply Forall_app. split; [done|]. constructor; [|done]. unfold generateReservedVersion.
  change 0xfafafafa with (Z.land 0xfafafafa (Z.ones 32)). rewrite Z.land_assoc, Z.land_ones by lia.
  apply Z.mod_pos_bound. lia.
Qed.

(** A composed Version Negotiation packet is recognised as one and parses
    back to its connection IDs and, after the reserved versions are stripped, to
    the offered versions, in order. *)
Theorem version_negotiation_packet dest src versions r0 b0 rand32 scl :
  cid_ok dest → cid_ok src → byte_ok r0 → Forall (λ v, 0 <= v < 2 ^ 32) versions →
  let p := ComposeVersionNegotiation dest src versions r0 b0 rand32 in
  len versions < 2 ^ 32 →
  IsVersionNegotiationPacket p = true ∧
  ∃ hdr, ParsePacket p scl = Ok (hdr, p, []) ∧ DestConnectionID hdr = dest ∧ SrcConnectionID hdr = src ∧
    StripGreasedVersions (h_SupportedVersions hdr) = StripGreasedVersions versions.
Proof.
  intros Hd Hs Hr Hv p Hl. pose proof (greased_range b0 rand32 versions Hv) as Hg.
  pose proof (StripGreasedVersions_greased b0 rand32 versions) as Hstrip.
  assert (Hgl : 0 < len (GetGreasedVersions b0 rand32 versions) <= 1 + len versions).
  { unfold GetGreasedVersions, len. rewrite !length_app, length_take, length_drop. simpl. lia. }
  assert (Hp : p = [Z.lor r0 0xc0] ++ u32_bytes 0 ++ [len dest] ++ dest ++ [len src] ++ src
    ++ enc_versions (GetGreasedVersions b0 rand32 versions)) by (by apply ComposeVersionNegotiation_bytes).
  set (gv := GetGreasedVersions b0 rand32 versions) in *. clearbody gv. clearbody p.
  pose proof (vn_byte r0 Hr) as B1.
  split; [rewrite Hp; cbn; by rewrite B1|].
  assert (Hparse : parseHeaderImpl scl p =
    Ok ((mkHeader true (Z.lor r0 0xc0) None 0 src dest 0 [] gv [] 0, false), [])).
  { rewrite Hp. unfold parseHeaderImpl.
    rewrite (bind_reads _ _ [_] (Z.lor r0 0xc0)) by done. rewrite B1. cbn [negb]. unfold parseLongHeader.
    rewrite (bind_reads _ _ _ 0) by (by apply reads_Uint32_bytes). cbn [Z.eqb negb andb].
    rewrite (bind_reads _ _ [_] (len dest)) by done. rewrite (bind_reads _ _ _ dest) by apply reads_ReadConnectionID.
    rewrite (bind_reads _ _ [_] (len src)) by done. rewrite (bind_reads _ _ _ src) by apply reads_ReadConnectionID.
    unfold parseVersionNegotiationPacket, mbind, parser_bind, ReaderLen. rewrite len_enc_versions.
    destruct (Z.eqb_spec (4 * len gv) 0); [lia|].
    rewrite Z.mul_comm, Z.mod_mul by lia. cbn [Z.eqb negb].
    rewrite readVersions_enc; [done|done|unfold len in *; lia]. }
  unfold ParsePacket, parseHeader. rewrite Hparse. cbn [IsLongHeader set_parsedLen parsedLen h_Length].
  rewrite len_nil, Z.sub_0_r, Z.add_0_r.
  assert (len p < 2 ^ 40) by (rewrite Hp; unfold cid_ok, MaxConnIDLen in *; autorewrite with len;
    rewrite len_enc_versions; change (len (u32_bytes 0)) with 4; lia).
  pose proof (len_nonneg p). rewrite u64_small, i64_small by lia. rewrite !Z.ltb_irrefl.
  rewrite (proj2 (Z.ltb_ge (len p) 0)) by lia. cbn [orb]. unfold len at 2 3. rewrite Nat2Z.id, firstn_all, drop_all.
  eexists; split; [reflexivity|]. cbn. by split_and!.
Qed.
Lemma version_negotiation_packet_witness :
  ∃ hdr, ParsePacket (ComposeVersionNegotiation [1; 2; 3] [4; 5] [VersionTLS; 7] 0x13 1 0xdeadbeef) 0
    = Ok (hdr, ComposeVersionNegotiation [1; 2; 3] [4; 5] [VersionTLS; 7] 0x13 1 0xdeadbeef, []) ∧
  StripGreasedVersions (h_SupportedVersions hdr) = [VersionTLS; 7].
Proof.
  destruct (version_negotiation_packet [1; 2; 3] [4; 5] [VersionTLS; 7] 0x13 1 0xdeadbeef 0)
    as [_ (hdr & H1 & _ & _ & H2)].
  - by vm_compute.
  - by vm_compute.
  - unfold byte_ok; lia.
  - repeat constructor; by vm_compute.
  - by vm_compute.
  - exists hdr. split; [exact H1|]. rewrite H2. reflexivity.
Defined.

(** * Arbitrary datagrams *)

Lemma consumes_ReadUint32 : consumes ReadUint32.
Proof. unfold ReadUint32. apply consumes_first. intros. solve_safe. Qed.
Lemma readVersions_total fuel acc r : (length r <= fuel)%nat →
  match readVersions fuel acc r with
  | Ok (_, r') => (length r' <= length r)%nat | Err _ => True | Panic _ => False end.
Proof.
  revert acc r. induction fuel as [|fuel IH]; intros acc r Hf; cbn [readVersions].
  - destruct r; [done|]. simpl in Hf. lia.
  - destruct (0 <? len r); [|done]. pose proof (safe_ReadUint32 r).
    destruct (ReadUint32 r) as [[v r']| |] eqn:E; [|done..]. apply consumes_ReadUint32 in E.
    specialize (IH (acc ++ [v]) r' ltac:(lia)). destruct (readVersions _ _ r') as [[]| |]; [lia|done..].
Qed.
Lemma safe_parseVersionNegotiationPacket : safe parseVersionNegotiationPacket.
Proof.
  intros r. unfold parseVersionNegotiationPacket, mbind, parser_bind, ReaderLen.
  destruct (len r =? 0); [done|]. destruct (negb _); [done|].
  unfold len. rewrite Nat2Z.id. by apply readVersions_total.
Qed.
#[local] Hint Resolve safe_parseVersionNegotiationPacket safe_ReadUint32 : safe.
Lemma safe_parseHeaderImpl scl : safe (parseHeaderImpl scl).
Proof.
  unfold parseHeaderImpl, parseLongHeader, parseShortHeader. solve_safe.
Qed.

Lemma ReadConnectionID_Ok n r c r' : 0 <= n → ReadConnectionID n r = Ok (c, r') →
  n <= len r ∧ c = take (Z.to_nat n) r ∧ r' = drop (Z.to_nat n) r.
Proof.
  intros Hn. unfold ReadConnectionID, ReadFull. destruct (Z.eqb_spec n 0) as [->|].
  { intros [= <- <-]. pose proof (len_nonneg r). done. }
  destruct r as [|b r]; [done|]. destruct (Z.ltb_spec (len (b :: r)) n); intros [= <- <-]. split; [lia|done].
Qed.
Lemma ReadUint32_Ok r v r' : ReadUint32 r = Ok (v, r') → ∃ a b c d, r = a :: b :: c :: d :: r'.
Proof.
  unfold ReadUint32. intros H.
  repeat (apply parser_bind_Ok in H as (? & ? & ?E & H); match goal with E : ReadByte ?r = _ |- _ =>
    destruct r; [discriminate E|]; injection E as <- <- end).
  injection H as _ <-. eauto.
Qed.

(** Parsers whose value does not matter. *)
Lemma yields_any {A} (p : parser A) : (∀ r a r', p r = Ok (a, r') → ∃ k, r = k ++ r') → yields p (λ _, True).
Proof. intros H r a r' _ E. split; [by eapply H|done]. Qed.
Lemma yields_readVersions fuel acc : yields (readVersions fuel acc) (λ _, True).
Proof.
  apply yields_any. revert acc. induction fuel as [|fuel IH]; intros acc r a r'; cbn [readVersions].
  - destruct (0 <? len r); [done|]. intros [= _ <-]. by exists [].
  - destruct (0 <? len r); [|intros [= _ <-]; by exists []].
    destruct (ReadUint32 r) as [[v r1]| |] eqn:E; [|done..]. apply ReadUint32_Ok in E as (b1 & b2 & b3 & b4 & ->).
    intros H. apply IH in H as [k ->]. by exists (b1 :: b2 :: b3 :: b4 :: k).
Qed.
Lemma yields_ReadUint32 : yields ReadUint32 (λ _, True).
Proof. apply yields_any. intros r v r' E. apply ReadUint32_Ok in E as (b1 & b2 & b3 & b4 & ->). by exists [b1; b2; b3; b4]. Qed.
Lemma yields_parseHeaderImpl scl : 0 <= scl →
  yields (parseHeaderImpl scl) (λ hu, 0 <= h_Length hu.1 <= maxVarInt8).
Proof.
  intros Hscl. unfold parseHeaderImpl.
  eapply yields_bind; [apply yields_ReadByte|]. intros b _. destruct (negb _).
  { destruct (_ =? 0); [apply yields_fail|]. unfold parseShortHeader.
    eapply (yields_bind _ _ (λ h, h_Length h = 0)).
    - eapply yields_bind; [by apply yields_ReadConnectionID|]. intros. by apply yields_ret.
    - intros h Hh. apply yields_ret. cbn. by rewrite Hh. }
  unfold parseLongHeader. eapply yields_bind; [apply yields_ReadUint32|]. intros v _.
  destruct (_ && _); [apply yields_fail|].
  eapply yields_bind; [apply yields_ReadByte|]. intros dl Hdl. unfold byte_ok in Hdl.
  eapply yields_bind; [apply yields_ReadConnectionID; lia|]. intros dest _.
  eapply yields_bind; [apply yields_ReadByte|]. intros sl Hsl. unfold byte_ok in Hsl.
  eapply yields_bind; [apply yields_ReadConnectionID; lia|]. intros src _. cbv zeta.
  destruct (v =? 0).
  { unfold parseVersionNegotiationPacket. eapply (yields_bind _ _ (λ _, True)); [|intros; by apply yields_ret].
    eapply yields_bind; [apply yields_ReaderLen|]. intros n _.
    destruct (n =? 0); [apply yields_fail|]. destruct (negb _); [apply yields_fail|]. apply yields_readVersions. }
  destruct (negb _); [by apply yields_ret|].
  assert (Hrest : ∀ ty (p : parser (list Z)) , yields p (λ _, True) →
    yields (token ← p; pl ← ReadVarInt; mret (mkHeader true b (Some ty) v src dest pl token [] [] 0, false))
      (λ hu, 0 <= h_Length hu.1 <= maxVarInt8)).
  { intros ty p Hp. eapply yields_bind; [exact Hp|]. intros t _. eapply yields_bind; [apply yields_ReadVarInt|].
    intros pl Hpl. by apply yields_ret. }
  assert (Htok : ∀ ty, yields (if decide (ty = PacketTypeInitial) then
                 tokenLen ← ReadVarInt; n ← ReaderLen; if n <? tokenLen then fail EOF else ReadFull tokenLen
               else mret []) (λ _, True)).
  { intros ty. case_decide; [|by apply yields_ret]. eapply yields_bind; [apply yields_ReadVarInt|]. intros t [Ht _].
    eapply yields_bind; [apply yields_ReaderLen|]. intros n _. destruct (_ <? _); [apply yields_fail|].
    eapply yields_weaken; [by apply yields_ReadFull|done]. }
  destruct (header_type b); try apply Hrest, Htok.
  eapply yields_bind; [apply yields_ReadByte|]. intros ol Hol. unfold byte_ok in Hol.
  eapply yields_bind; [apply yields_ReadConnectionID; lia|]. intros orig _.
  eapply yields_bind; [apply yields_ReaderLen|]. intros n Hn. eapply yields_bind; [by apply yields_ReadFull|].
  intros t _. by apply yields_ret.
Qed.

(** The destination connection ID that routes a packet is the one its header has. *)
Lemma parseHeaderImpl_dest scl r hd u r' : bytes_ok r → 0 <= scl →
  parseHeaderImpl scl r = Ok ((hd, u), r') →
  ParseConnectionID r scl = Ok (DestConnectionID hd) ∧
  (u = true → Version hd ≠ 0 ∧ IsSupportedVersion SupportedVersions (Version hd) = false).
Proof.
  intros Hr Hscl H. unfold parseHeaderImpl in H.
  apply parser_bind_Ok in H as (b0 & r1 & E & H). destruct r as [|b0' r]; [discriminate E|].
  injection E as <- <-. unfold ParseConnectionID. destruct (0 <? Z.land b0' 0x80); cbn [negb] in *.
  - unfold parseLongHeader in H. apply parser_bind_Ok in H as (v & r2 & E & H).
    apply ReadUint32_Ok in E as (x1 & x2 & x3 & x4 & ->).
    destruct (negb (v =? 0) && _); [discriminate|].
    apply parser_bind_Ok in H as (dl & r3 & E & H). destruct r2 as [|dl' r2]; [discriminate E|]. injection E as <- <-.
    apply parser_bind_Ok in H as (dest & r4 & E & H).
    assert (byte_ok dl') as Hdl by (do 6 (apply Forall_cons in Hr as [? Hr]); done).
    apply ReadConnectionID_Ok in E as (Hdle & -> & ->); [|unfold byte_ok in Hdl; lia].
    apply parser_bind_Ok in H as (sl & r5 & _ & H). apply parser_bind_Ok in H as (src & r6 & _ & H). cbv zeta in H.
    assert (Hgoal : DestConnectionID hd = take (Z.to_nat dl') r2 ∧
      (u = true → Version hd ≠ 0 ∧ IsSupportedVersion SupportedVersions (Version hd) = false)).
    { destruct (Z.eqb_spec v 0).
      { apply parser_bind_Ok in H as (vs & r7 & _ & H). injection H as <- <- _. done. }
      destruct (negb (IsSupportedVersion SupportedVersions v)) eqn:Es.
      { injection H as <- <- _. cbn. apply negb_true_iff in Es. split_and!; done. }
      destruct (header_type b0').
      all: repeat (apply parser_bind_Ok in H as (? & ? & ? & H)); injection H as <- <- _; by cbn. }
    destruct Hgoal as (-> & Hu). split; [|done].
    rewrite !len_cons. pose proof (len_nonneg r2). destruct (Z.ltb_spec (1 + (1 + (1 + (1 + (1 + (1 + len r2)))))) 6); [lia|].
    cbn [lookup list_lookup]. destruct (Z.ltb_spec (1 + (1 + (1 + (1 + (1 + (1 + len r2)))))) (6 + dl')); [lia|]. done.
  - destruct (_ =? 0); [discriminate|]. unfold parseShortHeader in H.
    apply parser_bind_Ok in H as (h & r2 & E & H). injection H as -> <- _.
    apply parser_bind_Ok in E as (dest & r3 & E & H). injection H as <- _.
    apply ReadConnectionID_Ok in E as (Hle & -> & ->); [|done]. rewrite len_cons.
    destruct (Z.ltb_spec (1 + len r) (scl + 1)); [lia|]. done.
Qed.

(** Any datagram.  [ParsePacket] never panics on any bytes; when it returns a
    header, the destination connection ID in it is the one [ParseConnectionID]
    used to route the datagram, and the packet and the rest put together are the
    datagram (a version we do not know is returned with no data at all). *)
Theorem parse_packet_total data scl :
  bytes_ok data → len data < 2 ^ 61 → 0 <= scl →
  match ParsePacket data scl with
  | Ok (hdr, packet, rest) =>
      ParseConnectionID data scl = Ok (DestConnectionID hdr) ∧
      (packet ++ rest = data ∨
       packet = [] ∧ rest = [] ∧ Version hdr ≠ 0 ∧ IsSupportedVersion SupportedVersions (Version hdr) = false)
  | Err _ => True
  | Panic _ => False
  end.
Proof.
  intros Hb Hl Hscl. unfold ParsePacket, parseHeader.
  pose proof (safe_parseHeaderImpl scl data) as Hsafe. pose proof (yields_parseHeaderImpl scl Hscl data) as Hy.
  destruct (parseHeaderImpl scl data) as [[[hd u] r']| |] eqn:E; [|done..].
  destruct (Hy (hd, u) r' Hb eq_refl) as [_ HL]. cbn in HL.
  apply parseHeaderImpl_dest in E as [Hd Hu]; [|done..].
  destruct u; [split; [done|right; split_and!; by try apply Hu]|].
  change (IsLongHeader (set_parsedLen hd _)) with (IsLongHeader hd).
  destruct (IsLongHeader hd); [|split; [done|left; by rewrite app_nil_r]].
  cbn [parsedLen h_Length set_parsedLen].
  pose proof (len_nonneg r'). assert (len r' <= len data) by (unfold len; lia). unfold maxVarInt8 in HL.
  rewrite u64_small, i64_small by lia. destruct (Z.ltb_spec (len data) (len data - len r' + h_Length hd)); [done|].
  rewrite (proj2 (Z.ltb_ge _ 0)) by lia. cbn [orb]. split; [done|left; apply take_drop].
Qed.
Lemma parse_packet_total_witness :
  match ParsePacket [0x43; 1; 2; 3; 99] 3 with
  | Ok (hdr, packet, rest) => ParseConnectionID [0x43; 1; 2; 3; 99] 3 = Ok (DestConnectionID hdr) ∧
      (packet ++ rest = [0x43; 1; 2; 3; 99] ∨
       packet = [] ∧ rest = [] ∧ Version hdr ≠ 0 ∧ IsSupportedVersion SupportedVersions (Version hdr) = false)
  | _ => False
  end.
Proof.
  refine (parse_packet_total [0x43; 1; 2; 3; 99] 3 _ _ _); [|by vm_compute|lia].
  repeat constructor; lia.
Defined.
