(* ===== verification/GoFloat.v ===== *)
(** GoFloat: Go's [float32] and [float64] arithmetic as exact fractions rounded to
    24 and 53 significant bits, ties to even.  The code only computes with
    magnitudes far inside the exponent range (byte counts, nanoseconds and their
    quotients), so overflow to infinity and subnormals are not represented. *)

From S2P Require Import Prelude.

(** A finite floating-point value: numerator and positive denominator. *)
Record float := mkFloat { fnum : Z; fden : Z }.

Definition round_half_even (n d : Z) : Z :=
  let q := n / d in
  let r := n mod d in
  if 2 * r <? d then q else if d <? 2 * r then q + 1 else if Z.even q then q else q + 1.

(** Exponent of the last of [p] significant bits of [n / d]. *)
Definition ulp_exp (p n d : Z) : Z :=
  let e := Z.log2 n - Z.log2 d - p in
  let scaled := if 0 <=? e then n <? d * 2 ^ e * 2 ^ p else n * 2 ^ (- e) <? d * 2 ^ p in
  if scaled then e else e + 1.

Definition fround_pos (p n d : Z) : float :=
  let e := ulp_exp p n d in
  if 0 <=? e then mkFloat (round_half_even n (d * 2 ^ e) * 2 ^ e) 1
  else mkFloat (round_half_even (n * 2 ^ (- e)) d) (2 ^ (- e)).

Definition fround (p : Z) (x : float) : float :=
  if fnum x =? 0 then mkFloat 0 1
  else if 0 <? fnum x then fround_pos p (fnum x) (fden x)
  else let y := fround_pos p (- fnum x) (fden x) in mkFloat (- fnum y) (fden y).

Section Ops.
Context (p : Z).
Definition f_of_int (z : Z) : float := fround p (mkFloat z 1).
Definition f_mul (x y : float) : float := fround p (mkFloat (fnum x * fnum y) (fden x * fden y)).
Definition f_add (x y : float) : float :=
  fround p (mkFloat (fnum x * fden y + fnum y * fden x) (fden x * fden y)).
Definition f_sub (x y : float) : float :=
  fround p (mkFloat (fnum x * fden y - fnum y * fden x) (fden x * fden y)).
(** Division by a positive value. *)
Definition f_div (x y : float) : float := fround p (mkFloat (fnum x * fden y) (fden x * fnum y)).
End Ops.
(** Conversion to an integer truncates. *)
Definition f_to_int (x : float) : Z := Z.quot (fnum x) (fden x).
Definition f_ltb (x y : float) : bool := fnum x * fden y <? fnum y * fden x.

Definition float32_of : Z → float := f_of_int 24.
Definition float64_of : Z → float := f_of_int 53.

(** * Rounding error *)

Lemma round_half_even_err n d :
  0 < d → 2 * Z.abs (round_half_even n d * d - n) <= d.
Proof.
  intros Hd. unfold round_half_even. pose proof (Z.div_mod n d ltac:(lia)) as E.
  pose proof (Z.mod_pos_bound n d Hd). set (q := n / d) in *. set (r := n mod d) in *. clearbody q r.
  destruct (Z.ltb_spec (2 * r) d), (Z.ltb_spec d (2 * r)), (Z.even q); nia.
Qed.
Lemma round_half_even_exact n d : 0 < d → round_half_even (n * d) d = n.
Proof.
  intros. unfold round_half_even. rewrite Z.div_mul, Z.mod_mul by lia.
  destruct (Z.ltb_spec (2 * 0) d); lia.
Qed.

(** The scaled value has exactly [p] significant bits. *)
Lemma ulp_exp_spec p n d : 0 < n → 0 < d → 0 < p →
  let e := ulp_exp p n d in
  if 0 <=? e then d * 2 ^ e * 2 ^ (p - 1) <= n < d * 2 ^ e * 2 ^ p
  else d * 2 ^ (p - 1) <= n * 2 ^ (- e) < d * 2 ^ p.
Proof.
  intros Hn Hd Hp. unfold ulp_exp.
  pose proof (Z.log2_spec n Hn) as [N1 N2]. pose proof (Z.log2_spec d Hd) as [D1 D2].
  pose proof (Z.log2_nonneg n). pose proof (Z.log2_nonneg d).
  set (a := Z.log2 n) in *. set (b := Z.log2 d) in *. clearbody a b.
  rewrite Z.pow_succ_r in N2, D2 by lia.
  assert (Pp : 2 ^ p = 2 * 2 ^ (p - 1)) by (rewrite <- Z.pow_succ_r by lia; f_equal; lia).
  assert (0 < 2 ^ (p - 1)) by (apply Z.pow_pos_nonneg; lia).
  assert (0 < 2 ^ a) by (apply Z.pow_pos_nonneg; lia).
  assert (0 < 2 ^ b) by (apply Z.pow_pos_nonneg; lia).
  destruct (Z.leb_spec 0 (a - b - p)) as [He|He].
  - assert (Ea : 2 ^ a = 2 ^ b * 2 ^ (a - b - p) * 2 ^ p) by (rewrite <- !Z.pow_add_r by lia; f_equal; lia).
    assert (0 < 2 ^ (a - b - p)) by (apply Z.pow_pos_nonneg; lia).
    destruct (Z.ltb_spec n (d * 2 ^ (a - b - p) * 2 ^ p)).
    + rewrite (proj2 (Z.leb_le _ _) He). nia.
    + destruct (Z.leb_spec 0 (a - b - p + 1)); [|lia].
      rewrite Z.pow_add_r by lia. change (2 ^ 1) with 2. nia.
  - assert (Ea : 2 ^ a * 2 ^ (- (a - b - p)) = 2 ^ b * 2 ^ p) by (rewrite <- !Z.pow_add_r by lia; f_equal; lia).
    assert (0 < 2 ^ (- (a - b - p))) by (apply Z.pow_pos_nonneg; lia).
    destruct (Z.ltb_spec (n * 2 ^ (- (a - b - p))) (d * 2 ^ p)).
    + destruct (Z.leb_spec 0 (a - b - p)); [lia|]. nia.
    + destruct (Z.leb_spec 0 (a - b - p + 1)).
      * replace (a - b - p + 1) with 0 by lia. assert (E1 : - (a - b - p) = 1) by lia. rewrite E1 in *.
        change (2 ^ 1) with 2 in *. change (2 ^ 0) with 1. nia.
      * assert (E1 : 2 ^ (- (a - b - p)) = 2 * 2 ^ (- (a - b - p + 1)))
          by (rewrite <- Z.pow_succ_r by lia; f_equal; lia).
        rewrite E1 in *. nia.
Qed.

(** Every rounding has relative error at most [2^-p]. *)
Definition rounds_to (p : Z) (x y : float) : Prop :=
  0 < fden y ∧ 2 ^ p * Z.abs (fnum y * fden x - fnum x * fden y) <= Z.abs (fnum x) * fden y.

Lemma fround_pos_err p n d : 0 < n → 0 < d → 0 < p →
  rounds_to p (mkFloat n d) (fround_pos p n d) ∧ 0 < fnum (fround_pos p n d).
Proof.
  intros Hn Hd Hp. unfold rounds_to, fround_pos. pose proof (ulp_exp_spec p n d Hn Hd Hp) as Hs. simpl in Hs.
  set (e := ulp_exp p n d) in *. clearbody e. cbn [fnum fden]. rewrite (Z.abs_eq n) by lia.
  assert (Pp : 2 ^ p = 2 * 2 ^ (p - 1)) by (rewrite <- Z.pow_succ_r by lia; f_equal; lia).
  assert (0 < 2 ^ (p - 1)) by (apply Z.pow_pos_nonneg; lia).
  destruct (Z.leb_spec 0 e) as [He|He]; cbn [fnum fden].
  - assert (0 < 2 ^ e) by (apply Z.pow_pos_nonneg; lia).
    pose proof (round_half_even_err n (d * 2 ^ e) ltac:(nia)) as Herr.
    set (q := round_half_even n (d * 2 ^ e)) in *. clearbody q.
    replace (q * 2 ^ e * d - n * 1) with (q * (d * 2 ^ e) - n) by lia.
    split; [split; [lia|]; nia|]. nia.
  - assert (0 < 2 ^ (- e)) by (apply Z.pow_pos_nonneg; lia).
    pose proof (round_half_even_err (n * 2 ^ (- e)) d Hd) as Herr.
    set (q := round_half_even (n * 2 ^ (- e)) d) in *. clearbody q.
    split; [split; [lia|]; nia|]. nia.
Qed.
Lemma fround_err p x : 0 < fden x → 0 < p → rounds_to p x (fround p x).
Proof.
  intros Hd Hp. unfold fround. destruct (Z.eqb_spec (fnum x) 0) as [E|E].
  { unfold rounds_to. simpl. rewrite E. lia. }
  destruct (Z.ltb_spec 0 (fnum x)).
  - destruct x as [n d]. by apply fround_pos_err.
  - destruct x as [n d]; cbn [fnum fden] in *.
    destruct (fround_pos_err p (- n) d ltac:(lia) Hd Hp) as [[H1 H2] _].
    unfold rounds_to. cbn [fnum fden] in *. split; [done|].
    set (y := fround_pos p (- n) d) in *. replace (- fnum y * d - n * fden y) with (- (fnum y * d - - n * fden y)) by lia.
    by rewrite Z.abs_opp, <- (Z.abs_opp n).
Qed.
Lemma fround_nonneg p x : 0 < fden x → 0 < p → 0 <= fnum x → 0 <= fnum (fround p x).
Proof.
  intros Hd Hp Hn. unfold fround. destruct (Z.eqb_spec (fnum x) 0); [done|].
  destruct (Z.ltb_spec 0 (fnum x)); [|lia].
  pose proof (fround_pos_err p (fnum x) (fden x) ltac:(lia) Hd Hp). lia.
Qed.

(** Integers of at most [p] bits are exact. *)
Lemma fround_pos_int p z : 0 < p → 0 < z < 2 ^ p →
  0 < fden (fround_pos p z 1) ∧ fnum (fround_pos p z 1) = z * fden (fround_pos p z 1).
Proof.
  intros Hp Hz. unfold fround_pos. pose proof (ulp_exp_spec p z 1 ltac:(lia) ltac:(lia) Hp) as Hs. simpl in Hs.
  set (e := ulp_exp p z 1) in *. clearbody e. destruct (Z.leb_spec 0 e) as [He|He]; cbn [fnum fden].
  - assert (Pp : 2 ^ p = 2 * 2 ^ (p - 1)) by (rewrite <- Z.pow_succ_r by lia; f_equal; lia).
    assert (e = 0) as ->.
    { destruct (Z.eq_dec e 0) as [|]; [done|]. pose proof (Z.pow_le_mono_r 2 1 e ltac:(lia) ltac:(lia)).
      change (2 ^ 1) with 2 in *. nia. }
    split; [lia|]. rewrite <- (Z.mul_1_r z) at 1. change (1 * 2 ^ 0) with 1. rewrite round_half_even_exact; lia.
  - split; [apply Z.pow_pos_nonneg; lia|]. rewrite <- (Z.mul_1_r (z * _)) at 1. by apply round_half_even_exact.
Qed.
Lemma f_of_int_exact p z : 0 < p → Z.abs z < 2 ^ p →
  0 < fden (f_of_int p z) ∧ fnum (f_of_int p z) = z * fden (f_of_int p z).
Proof.
  intros Hp Hz. unfold f_of_int, fround. cbn [fnum fden]. destruct (Z.eqb_spec z 0) as [->|]; [done|].
  destruct (Z.ltb_spec 0 z); [by apply fround_pos_int; lia|].
  destruct (fround_pos_int p (- z) Hp ltac:(lia)) as [? ?]. cbn [fnum fden]. lia.
Qed.

(** What the error bound gives for truncated products with a constant [a / b <= 1]. *)
Lemma f_to_int_nonneg x : 0 < fden x → 0 <= fnum x → 0 <= f_to_int x.
Proof. intros. unfold f_to_int. by apply Z.quot_pos. Qed.
Lemma f_to_int_le x n : 0 < fden x → 0 <= fnum x → fnum x <= n * fden x → f_to_int x <= n.
Proof.
  intros. unfold f_to_int. rewrite Z.quot_div_nonneg by lia. apply Z.div_le_upper_bound; lia.
Qed.
Lemma f_to_int_ge x n : 0 < fden x → n * fden x <= fnum x → 0 <= fnum x → n <= f_to_int x.
Proof.
  intros. unfold f_to_int. rewrite Z.quot_div_nonneg by lia. apply Z.div_le_lower_bound; lia.
Qed.

(** * Values as rationals *)

From Stdlib Require Import QArith Qround Qabs Lqa.
Local Open Scope Q_scope.

Definition fval (x : float) : Q := inject_Z (fnum x) / inject_Z (fden x).
(** A non-negative float with a positive denominator. *)
Definition fpos (x : float) : Prop := (0 < fden x)%Z ∧ (0 <= fnum x)%Z.
(** Unit round-off [2^-p]. *)
Definition eps (p : Z) : Q := 1 / inject_Z (2 ^ p).

Lemma inject_pos z : (0 < z)%Z → 0 < inject_Z z.
Proof. intros. unfold Qlt; simpl; lia. Qed.
Lemma inject_nonneg z : (0 <= z)%Z → 0 <= inject_Z z.
Proof. intros. unfold Qle; simpl; lia. Qed.
Lemma inject_nonzero z : (0 < z)%Z → ¬ inject_Z z == 0.
Proof. intros H E. unfold Qeq in E. simpl in E. lia. Qed.
Lemma fval_nonneg x : fpos x → 0 <= fval x.
Proof.
  intros [Hd Hn]. unfold fval. apply Qle_shift_div_l; [by apply inject_pos|].
  rewrite Qmult_0_l. by apply inject_nonneg.
Qed.
Lemma fval_mul n d n' d' : (0 < d)%Z → (0 < d')%Z →
  fval (mkFloat (n * n') (d * d')) == fval (mkFloat n d) * fval (mkFloat n' d').
Proof.
  intros. unfold fval; cbn [fnum fden]. rewrite !inject_Z_mult.
  field. split; by apply inject_nonzero.
Qed.

Lemma fround_pos_ok p x : (0 < p)%Z → fpos x → fpos (fround p x).
Proof. intros Hp [Hd Hn]. split; [by apply fround_err|by apply fround_nonneg]. Qed.

Lemma fround_bounds p x : (0 < p)%Z → fpos x →
  (1 - eps p) * fval x <= fval (fround p x) <= (1 + eps p) * fval x.
Proof.
  intros Hp [Hd Hn]. destruct (fround_err p x Hd Hp) as [Hk Herr]. rewrite (Z.abs_eq (fnum x)) in Herr by done.
  assert (HP : (0 < 2 ^ p)%Z) by (apply Z.pow_pos_nonneg; lia).
  unfold fval, eps. set (m := fnum (fround p x)) in *. set (k := fden (fround p x)) in *. clearbody m k.
  set (n := fnum x) in *. set (d := fden x) in *. set (P := (2 ^ p)%Z) in *. clearbody n d P.
  assert (B : (P * (m * d) <= (P + 1) * (n * k) ∧ (P - 1) * (n * k) <= P * (m * d))%Z).
  { assert (0 <= n * k)%Z by nia. set (u := (m * d)%Z) in *. set (v := (n * k)%Z) in *. clearbody u v.
    destruct (Z.abs_spec (u - v)) as [[? E]|[? E]]; rewrite E in Herr; nia. }
  destruct B as [B1 B2].
  pose proof (inject_pos _ HP). pose proof (inject_pos _ Hk). pose proof (inject_pos _ Hd).
  split.
  - apply Qle_shift_div_l; [done|].
    setoid_replace ((1 - 1 / inject_Z P) * (inject_Z n / inject_Z d) * inject_Z k)
      with (inject_Z ((P - 1) * (n * k)) / (inject_Z P * inject_Z d)) using relation Qeq.
    2:{ unfold Z.sub. rewrite !inject_Z_mult, inject_Z_plus. change (inject_Z (- (1))) with (-(1)). field. split; by apply inject_nonzero. }
    apply Qle_shift_div_r; [nra|]. rewrite <- !inject_Z_mult. rewrite <- Zle_Qle. lia.
  - apply Qle_shift_div_r; [done|].
    setoid_replace ((1 + 1 / inject_Z P) * (inject_Z n / inject_Z d) * inject_Z k)
      with (inject_Z ((P + 1) * (n * k)) / (inject_Z P * inject_Z d)) using relation Qeq.
    2:{ rewrite !inject_Z_mult, inject_Z_plus. change (inject_Z 1) with 1. field. split; by apply inject_nonzero. }
    apply Qle_shift_div_l; [nra|]. rewrite <- !inject_Z_mult. rewrite <- Zle_Qle. lia.
Qed.

(** [near p x q]: the float [x] is non-negative and within one rounding of [q]. *)
Definition near (p : Z) (x : float) (q : Q) : Prop :=
  fpos x ∧ (1 - eps p) * q <= fval x <= (1 + eps p) * q.

Lemma fround_near p x q : (0 < p)%Z → fpos x → fval x == q → near p (fround p x) q.
Proof.
  intros Hp Hx E. split; [by apply fround_pos_ok|]. rewrite <- E. by apply fround_bounds.
Qed.
Lemma f_of_int_near p z : (0 < p)%Z → (0 <= z)%Z → near p (f_of_int p z) (inject_Z z).
Proof.
  intros Hp Hz. apply fround_near; [done|by split|]. unfold fval; cbn [fnum fden]. field.
Qed.
Lemma f_mul_near p x y : (0 < p)%Z → fpos x → fpos y → near p (f_mul p x y) (fval x * fval y).
Proof.
  intros Hp [Hd Hn] [Hd' Hn']. apply fround_near; [done| |].
  - split; cbn [fnum fden]; nia.
  - destruct x, y. by apply fval_mul.
Qed.
Lemma f_add_near p x y : (0 < p)%Z → fpos x → fpos y → near p (f_add p x y) (fval x + fval y).
Proof.
  intros Hp [Hd Hn] [Hd' Hn']. apply fround_near; [done| |].
  - split; cbn [fnum fden]; nia.
  - unfold fval; cbn [fnum fden]. rewrite inject_Z_plus, !inject_Z_mult.
    field. split; by apply inject_nonzero.
Qed.
Lemma f_div_near p x y : (0 < p)%Z → fpos x → fpos y → (0 < fnum y)%Z →
  near p (f_div p x y) (fval x / fval y).
Proof.
  intros Hp [Hd Hn] [Hd' Hn'] Hy. apply fround_near; [done| |].
  - split; cbn [fnum fden]; nia.
  - unfold fval; cbn [fnum fden]. rewrite !inject_Z_mult.
    field. split_and!; by apply inject_nonzero.
Qed.
Lemma f_to_int_bounds x : fpos x →
  (0 <= f_to_int x)%Z ∧ inject_Z (f_to_int x) <= fval x < inject_Z (f_to_int x) + 1.
Proof.
  intros [Hd Hn]. split; [by apply f_to_int_nonneg|].
  unfold f_to_int, fval. rewrite Z.quot_div_nonneg by lia.
  pose proof (Z.div_mod (fnum x) (fden x) ltac:(lia)). pose proof (Z.mod_pos_bound (fnum x) (fden x) Hd).
  set (q := (fnum x / fden x)%Z) in *. split.
  - apply Qle_shift_div_l; [by apply inject_pos|]. rewrite <- inject_Z_mult, <- Zle_Qle. nia.
  - apply Qlt_shift_div_r; [by apply inject_pos|]. change 1 with (inject_Z 1).
    rewrite <- inject_Z_plus, <- inject_Z_mult, <- Zlt_Qlt. nia.
Qed.

(** Rounding to [p] bits, truncating, and then comparing to integers. *)
Lemma eps24 : eps 24 == 1 # 16777216.
Proof. reflexivity. Qed.
Lemma eps53 : eps 53 == 1 # 9007199254740992.
Proof. reflexivity. Qed.

(** The exponentially weighted moving average [(a x + b y) / c] of two
    non-negative integers in [float32], truncated: within one unit and a relative
    error of [2^-22] of the exact value. *)
Lemma ewma32 a b c x y : (0 <= a)%Z → (0 <= b)%Z → (0 < c)%Z → (0 <= x)%Z → (0 <= y)%Z →
  let r := f_to_int (f_add 24 (f_mul 24 (mkFloat a c) (f_of_int 24 x)) (f_mul 24 (mkFloat b c) (f_of_int 24 y))) in
  let v := (inject_Z (a * x + b * y) / inject_Z c) in
  (0 <= r)%Z ∧ (1 - (1 # 4194304)) * v - 1 <= inject_Z r <= (1 + (1 # 4194304)) * v.
Proof.
  intros Ha Hb Hc Hx Hy r v.
  destruct (f_of_int_near 24 x ltac:(lia) Hx) as [Px [X1 X2]].
  destruct (f_of_int_near 24 y ltac:(lia) Hy) as [Py [Y1 Y2]].
  assert (Pa : fpos (mkFloat a c)) by (split; cbn; lia). assert (Pb : fpos (mkFloat b c)) by (split; cbn; lia).
  destruct (f_mul_near 24 _ _ ltac:(lia) Pa Px) as [Pax [AX1 AX2]].
  destruct (f_mul_near 24 _ _ ltac:(lia) Pb Py) as [Pby [BY1 BY2]].
  destruct (f_add_near 24 _ _ ltac:(lia) Pax Pby) as [Ps [S1 S2]].
  destruct (f_to_int_bounds _ Ps) as [R0 [R1 R2]]. fold r in R0, R1, R2.
  split; [done|].
  assert (Ev : v == fval (mkFloat a c) * inject_Z x + fval (mkFloat b c) * inject_Z y).
  { unfold v, fval; cbn [fnum fden]. rewrite inject_Z_plus, !inject_Z_mult. field. by apply inject_nonzero. }
  rewrite Ev. rewrite eps24 in *.
  pose proof (fval_nonneg _ Pa). pose proof (fval_nonneg _ Pb).
  pose proof (inject_nonneg _ Hx). pose proof (inject_nonneg _ Hy).
  set (A := fval (mkFloat a c)) in *. set (B := fval (mkFloat b c)) in *.
  set (X := fval (f_of_int 24 x)) in *. set (Y := fval (f_of_int 24 y)) in *.
  set (AX := fval (f_mul 24 (mkFloat a c) (f_of_int 24 x))) in *.
  set (BY := fval (f_mul 24 (mkFloat b c) (f_of_int 24 y))) in *.
  assert (A * ((1 - (1 # 16777216)) * inject_Z x) <= A * X <= A * ((1 + (1 # 16777216)) * inject_Z x)) by (split; nra).
  assert (B * ((1 - (1 # 16777216)) * inject_Z y) <= B * Y <= B * ((1 + (1 # 16777216)) * inject_Z y)) by (split; nra).
  assert (0 <= A * inject_Z x) by nra. assert (0 <= B * inject_Z y) by nra.
  split; lra.
Qed.

(** The same in integers. *)
Lemma ewma32_Z a b c x y : (0 <= a)%Z → (0 <= b)%Z → (0 < c)%Z → (0 <= x)%Z → (0 <= y)%Z →
  let r := f_to_int (f_add 24 (f_mul 24 (mkFloat a c) (f_of_int 24 x)) (f_mul 24 (mkFloat b c) (f_of_int 24 y))) in
  (0 <= r ∧ (2 ^ 22 - 1) * (a * x + b * y) <= 2 ^ 22 * c * (r + 1) ∧
   2 ^ 22 * c * r <= (2 ^ 22 + 1) * (a * x + b * y))%Z.
Proof.
  intros Ha Hb Hc Hx Hy. destruct (ewma32 a b c x y Ha Hb Hc Hx Hy) as [R0 [R1 R2]].
  set (r := f_to_int _) in *. intros r'. subst r'. clearbody r. set (n := (a * x + b * y)%Z) in *. clearbody n.
  pose proof (inject_pos _ Hc) as HC.
  assert (Ev : inject_Z n == (inject_Z n / inject_Z c) * inject_Z c) by (field; by apply inject_nonzero).
  set (v := inject_Z n / inject_Z c) in *. clearbody v.
  split; [done|]. rewrite !Zle_Qle, !inject_Z_mult, !inject_Z_plus, Ev.
  change (inject_Z (2 ^ 22 - 1)) with (4194303 # 1). change (inject_Z (2 ^ 22)) with (4194304 # 1).
  change (inject_Z 1) with 1. split; nra.
Qed.

(** * Rounding never crosses a representable bound *)

Local Open Scope Z_scope.

Lemma round_half_even_le n d m : 0 < d → n <= m * d → round_half_even n d <= m.
Proof.
  intros Hd Hn. unfold round_half_even.
  pose proof (Z.div_mod n d ltac:(lia)). pose proof (Z.mod_pos_bound n d Hd).
  destruct (Z.eq_dec (n mod d) 0) as [E|E].
  - rewrite E. destruct (Z.ltb_spec (2 * 0) d); [|lia]. nia.
  - assert (n / d < m) by nia. repeat case_match; lia.
Qed.

(** [m * 2^j] with [m] of at most [p] bits bounds the rounding of anything below it. *)
Lemma fround_le p x m j : 0 < p → fpos x → 0 <= j → 0 < m < 2 ^ p →
  fnum x <= m * 2 ^ j * fden x →
  fnum (fround p x) <= m * 2 ^ j * fden (fround p x).
Proof.
  intros Hp [Hd Hn] Hj Hm Hx. assert (0 < 2 ^ j) by (apply Z.pow_pos_nonneg; lia).
  unfold fround. destruct (Z.eqb_spec (fnum x) 0) as [|Hx0]; [cbn [fnum fden]; nia|].
  destruct (Z.ltb_spec 0 (fnum x)); [|lia]. set (n := fnum x) in *. set (d := fden x) in *. clearbody n d.
  unfold fround_pos. pose proof (ulp_exp_spec p n d ltac:(lia) Hd Hp) as Hs. simpl in Hs.
  set (e := ulp_exp p n d) in *. clearbody e.
  assert (Pp : 2 ^ p = 2 * 2 ^ (p - 1)) by (rewrite <- Z.pow_succ_r by lia; f_equal; lia).
  assert (0 < 2 ^ (p - 1)) by (apply Z.pow_pos_nonneg; lia).
  destruct (Z.leb_spec 0 e) as [He|He]; cbn [fnum fden].
  - assert (0 < 2 ^ e) by (apply Z.pow_pos_nonneg; lia).
    assert (Hej : e <= j).
    { destruct (Z.le_gt_cases e j) as [|Hgt]; [done|]. exfalso.
      assert (2 ^ e = 2 * 2 ^ (e - 1)) by (rewrite <- Z.pow_succ_r by lia; f_equal; lia).
      pose proof (Z.pow_le_mono_r 2 j (e - 1) ltac:(lia) ltac:(lia)).
      assert (d * 2 ^ e * 2 ^ (p - 1) <= m * 2 ^ j * d) by lia.
      assert (2 ^ e * 2 ^ (p - 1) <= m * 2 ^ j) by nia. nia. }
    assert (Ej : 2 ^ j = 2 ^ (j - e) * 2 ^ e) by (rewrite <- Z.pow_add_r by lia; f_equal; lia).
    pose proof (round_half_even_le n (d * 2 ^ e) (m * 2 ^ (j - e)) ltac:(nia) ltac:(nia)). nia.
  - assert (0 < 2 ^ (- e)) by (apply Z.pow_pos_nonneg; lia).
    apply round_half_even_le; [done|]. nia.
Qed.

(** The float is at most the integer [q]. *)
Definition fle (x : float) (q : Z) : Prop := fpos x ∧ fnum x <= q * fden x.
Lemma fle_to_int x q : fle x q → 0 <= f_to_int x <= q.
Proof.
  intros [[Hd Hn] Hq]. split; [by apply f_to_int_nonneg|by apply f_to_int_le].
Qed.
Lemma fle_of_int p z m j : 0 < p → 0 <= j → 0 < m < 2 ^ p → 0 <= z <= m * 2 ^ j →
  fle (f_of_int p z) (m * 2 ^ j).
Proof.
  intros. assert (Hp : fpos (mkFloat z 1)) by (split; cbn; lia).
  split; [by apply fround_pos_ok|]. apply fround_le; try done. cbn. lia.
Qed.
Lemma fle_mul p a c x k m j : 0 < p → 0 <= j → 0 < m < 2 ^ p → 0 <= a → 0 < c →
  fle x k → a * k <= m * 2 ^ j * c → fle (f_mul p (mkFloat a c) x) (m * 2 ^ j).
Proof.
  intros ? ? ? ? ? [[Hd Hn] Hk] Hak. assert (Hp : fpos (mkFloat (a * fnum x) (c * fden x))) by (split; cbn; nia).
  split; [by apply fround_pos_ok|]. apply fround_le; try done. cbn [fnum fden].
  assert (a * fnum x <= a * (k * fden x)) by nia. nia.
Qed.
Lemma fle_add p x y k k' m j : 0 < p → 0 <= j → 0 < m < 2 ^ p →
  fle x k → fle y k' → k + k' <= m * 2 ^ j → fle (f_add p x y) (m * 2 ^ j).
Proof.
  intros ? ? ? [[Hd Hn] Hk] [[Hd' Hn'] Hk'] Hs.
  assert (Hp : fpos (mkFloat (fnum x * fden y + fnum y * fden x) (fden x * fden y))) by (split; cbn; nia).
  split; [by apply fround_pos_ok|]. apply fround_le; try done. cbn [fnum fden].
  assert (fnum x * fden y <= k * fden x * fden y) by nia.
  assert (fnum y * fden x <= k' * fden y * fden x) by nia.
  assert ((k + k') * (fden x * fden y) <= m * 2 ^ j * (fden x * fden y)) by (apply Z.mul_le_mono_nonneg_r; nia).
  lia.
Qed.

(** Values with at most [p] significant bits, [z / 2^j], are exact. *)
Lemma fround_pos_exact p n d z j : 0 < p → 0 < d → 0 <= j → 0 < z < 2 ^ p → n * 2 ^ j = z * d →
  fnum (fround_pos p n d) * 2 ^ j = z * fden (fround_pos p n d).
Proof.
  intros Hp Hd Hj Hz E. assert (0 < 2 ^ j) by (apply Z.pow_pos_nonneg; lia). assert (Hn : 0 < n) by nia.
  unfold fround_pos. pose proof (ulp_exp_spec p n d Hn Hd Hp) as Hs. simpl in Hs.
  set (e := ulp_exp p n d) in *. clearbody e.
  assert (Pp : 2 ^ p = 2 * 2 ^ (p - 1)) by (rewrite <- Z.pow_succ_r by lia; f_equal; lia).
  assert (0 < 2 ^ (p - 1)) by (apply Z.pow_pos_nonneg; lia).
  assert (Hej : e + j <= 0).
  { destruct (Z.le_gt_cases (e + j) 0) as [|Hgt]; [done|]. exfalso. destruct (Z.leb_spec 0 e).
    - assert (P1 : 2 * 1 <= 2 ^ e * 2 ^ j).
      { rewrite <- Z.pow_add_r by lia. pose proof (Z.pow_le_mono_r 2 1 (e + j) ltac:(lia) ltac:(lia)). lia. }
      assert (d * 2 ^ e * 2 ^ (p - 1) * 2 ^ j <= z * d) by nia.
      assert (2 ^ (p - 1) * (2 ^ e * 2 ^ j) <= z) by nia. nia.
    - assert (P1 : 2 ^ j = 2 ^ (- e) * 2 ^ (e + j)) by (rewrite <- Z.pow_add_r by lia; f_equal; lia).
      assert (2 <= 2 ^ (e + j)) by (pose proof (Z.pow_le_mono_r 2 1 (e + j) ltac:(lia) ltac:(lia)); lia).
      assert (0 < 2 ^ (- e)) by (apply Z.pow_pos_nonneg; lia).
      assert (n * 2 ^ (- e) * 2 ^ (e + j) = z * d) by (rewrite P1 in E; lia). nia. }
  destruct (Z.leb_spec 0 e) as [He|He]; cbn [fnum fden].
  - assert (e = 0) as -> by lia. assert (j = 0) as -> by lia. change (2 ^ 0) with 1 in *.
    replace n with (z * (d * 1)) by lia. rewrite round_half_even_exact by lia. lia.
  - assert (P1 : 2 ^ (- e) = 2 ^ (- e - j) * 2 ^ j) by (rewrite <- Z.pow_add_r by lia; f_equal; lia).
    replace (n * 2 ^ (- e)) with (z * 2 ^ (- e - j) * d) by (rewrite P1; nia).
    rewrite round_half_even_exact by lia. rewrite P1. ring.
Qed.
(** A product of an exact integer with [a / 2^j] that fits [p] bits truncates exactly. *)
Lemma f_mul_int_exact p z a j : 0 < p → 0 <= j → 0 < a → 0 <= z → z < 2 ^ p → z * a < 2 ^ p →
  f_to_int (f_mul p (f_of_int p z) (mkFloat a (2 ^ j))) = z * a / 2 ^ j.
Proof.
  intros Hp Hj Ha Hz Hzp Hza. assert (0 < 2 ^ j) by (apply Z.pow_pos_nonneg; lia).
  destruct (f_of_int_exact p z Hp ltac:(lia)) as [Hd Hn]. set (x := f_of_int p z) in *. clearbody x.
  destruct (Z.eq_dec z 0) as [->|].
  { unfold f_mul, fround. cbn [fnum fden]. rewrite Hn. simpl. by rewrite Z.div_0_l by lia. }
  unfold f_mul, fround. cbn [fnum fden]. rewrite Hn.
  destruct (Z.eqb_spec (z * fden x * a) 0); [nia|]. destruct (Z.ltb_spec 0 (z * fden x * a)); [|nia].
  pose proof (fround_pos_exact p (z * fden x * a) (fden x * 2 ^ j) (z * a) j Hp ltac:(nia) Hj ltac:(nia) ltac:(nia)) as Ex.
  pose proof (fround_pos_err p (z * fden x * a) (fden x * 2 ^ j) ltac:(nia) ltac:(nia) Hp) as [[Hk _] Hm].
  set (y := fround_pos _ _ _) in *. clearbody y. unfold f_to_int. rewrite Z.quot_div_nonneg by lia.
  rewrite <- (Z.div_mul_cancel_r (fnum y) (fden y) (2 ^ j)) by lia.
  rewrite Ex, (Z.mul_comm (fden y)). apply Z.div_mul_cancel_r; lia.
Qed.
