(* ===== verification/Rtt.v ===== *)
(** Rtt: core/congestion/rtt_stats.go.  Durations are int64 nanoseconds; the moving
    averages are computed in float32 microseconds, as the code does. *)

From S2P Require Import Prelude Utils Protocol GoFloat.

Definition rttAlpha : float := mkFloat 1 8.
Definition oneMinusAlpha : float := mkFloat 7 8.
Definition rttBeta : float := mkFloat 1 4.
Definition oneMinusBeta : float := mkFloat 3 4.
Definition defaultInitialRTT : Z := 100 * Millisecond.

Record RTTStats := mkRTTStats {
  minRTT : Z; latestRTT : Z; smoothedRTT : Z; meanDeviation : Z; maxAckDelay : Z }.

Definition NewRTTStats : RTTStats := mkRTTStats 0 0 0 0 0.

Definition PTO (r : RTTStats) : Z :=
  if smoothedRTT r =? 0 then i64 (2 * defaultInitialRTT)
  else i64 (i64 (smoothedRTT r + MaxDuration (i64 (4 * meanDeviation r)) TimerGranularity) + maxAckDelay r).

(** The [float32] weighted sums of [UpdateRTT], converted back to a duration. *)
Definition update_meanDeviation (meanDev smoothed sample : Z) : Z :=
  i64 (i64 (f_to_int (f_add 24
    (f_mul 24 oneMinusBeta (f_of_int 24 (Z.quot meanDev Microsecond)))
    (f_mul 24 rttBeta (f_of_int 24 (Z.quot (AbsDuration (i64 (smoothed - sample))) Microsecond)))))
    * Microsecond).
Definition update_smoothedRTT (smoothed sample : Z) : Z :=
  i64 (i64 (f_to_int (f_add 24
    (f_mul 24 oneMinusAlpha (f_of_int 24 (Z.quot smoothed Microsecond)))
    (f_mul 24 rttAlpha (f_of_int 24 (Z.quot sample Microsecond)))))
    * Microsecond).

Definition UpdateRTT (r : RTTStats) (sendDelta ackDelay : Z) : RTTStats :=
  if (sendDelta =? InfDuration) || (sendDelta <=? 0) then r else
  let min' := if (minRTT r =? 0) || (sendDelta <? minRTT r) then sendDelta else minRTT r in
  let sample := if ackDelay <=? i64 (sendDelta - min') then i64 (sendDelta - ackDelay) else sendDelta in
  if smoothedRTT r =? 0 then
    mkRTTStats min' sample sample (Z.quot sample 2) (maxAckDelay r)
  else
    mkRTTStats min' sample (update_smoothedRTT (smoothedRTT r) sample)
      (update_meanDeviation (meanDeviation r) (smoothedRTT r) sample) (maxAckDelay r).

Definition SetMaxAckDelay (r : RTTStats) (mad : Z) : RTTStats :=
  mkRTTStats (minRTT r) (latestRTT r) (smoothedRTT r) (meanDeviation r) mad.
Definition OnConnectionMigration (r : RTTStats) : RTTStats :=
  mkRTTStats 0 0 0 0 (maxAckDelay r).
Definition ExpireSmoothedMetrics (r : RTTStats) : RTTStats :=
  mkRTTStats (minRTT r) (latestRTT r) (MaxDuration (smoothedRTT r) (latestRTT r))
    (MaxDuration (meanDeviation r) (AbsDuration (i64 (smoothedRTT r - latestRTT r)))) (maxAckDelay r).

(** * Properties *)

(** Durations of at most [2^38] microseconds (three days): no arithmetic of this
    file overflows, and the bound is kept by every rounding. *)
Definition max_dur : Z := 2 ^ 38 * Microsecond.
Definition dur_ok (d : Z) : Prop := 0 <= d <= max_dur.
Definition rtt_ok (r : RTTStats) : Prop :=
  dur_ok (minRTT r) ∧ dur_ok (latestRTT r) ∧ dur_ok (smoothedRTT r) ∧ dur_ok (meanDeviation r) ∧
  dur_ok (maxAckDelay r) ∧ (smoothedRTT r ≠ 0 ∨ latestRTT r ≠ 0 → 0 < minRTT r).

(** [avg a b c x y r]: [r] nanoseconds is the average [(a x + b y) / c] of two
    durations up to two microseconds and a relative error of [2^-22]. *)
Definition avg (a b c x y r : Z) : Prop :=
  2 ^ 22 * c * r <= (2 ^ 22 + 1) * (a * x + b * y) ∧
  (2 ^ 22 - 1) * (a * x + b * y) <= 2 ^ 22 * c * (r + 2 * Microsecond).

Lemma ewma_le a b c x y : 0 < a → 0 < b → c = a + b → c = 8 ∨ c = 4 → 0 <= x <= 2 ^ 38 → 0 <= y <= 2 ^ 38 →
  0 <= f_to_int (f_add 24 (f_mul 24 (mkFloat a c) (f_of_int 24 x)) (f_mul 24 (mkFloat b c) (f_of_int 24 y))) <= 2 ^ 38.
Proof.
  intros Ha Hb -> Hc Hx Hy.
  assert (Hm : ∀ k z, 0 < k < a + b → 0 <= z <= 2 ^ 38 →
    fle (f_mul 24 (mkFloat k (a + b)) (f_of_int 24 z)) (k * (2 ^ 38 / (a + b)))).
  { intros k z Hk Hz. destruct Hc as [Hc|Hc]; rewrite Hc in *.
    - apply (fle_mul 24 k 8 _ (1 * 2 ^ 38) k 35); try lia. apply fle_of_int; lia.
    - apply (fle_mul 24 k 4 _ (1 * 2 ^ 38) k 36); try lia. apply fle_of_int; lia. }
  apply (fle_to_int _ (1 * 2 ^ 38)). eapply (fle_add 24 _ _ _ _ 1 38); [lia|lia|lia|apply Hm; lia|apply Hm; lia|].
  destruct Hc as [Hc|Hc]; rewrite Hc; [change (2 ^ 38 / 8) with (2 ^ 35)|change (2 ^ 38 / 4) with (2 ^ 36)]; lia.
Qed.

(** A rounded average of microseconds is an average of the nanoseconds. *)
Lemma avg_us a b c x y : 0 < a → 0 < b → c = a + b → c = 8 ∨ c = 4 → dur_ok x → dur_ok y →
  let r := i64 (i64 (f_to_int (f_add 24
    (f_mul 24 (mkFloat a c) (f_of_int 24 (Z.quot x Microsecond)))
    (f_mul 24 (mkFloat b c) (f_of_int 24 (Z.quot y Microsecond))))) * Microsecond) in
  avg a b c x y r ∧ dur_ok r.
Proof.
  intros Ha Hb Hc Hc' Hx Hy. unfold dur_ok, max_dur, avg, Microsecond in *.
  rewrite !Z.quot_div_nonneg by lia.
  pose proof (Z.div_mod x 1000 ltac:(lia)). pose proof (Z.mod_pos_bound x 1000 ltac:(lia)).
  pose proof (Z.div_mod y 1000 ltac:(lia)). pose proof (Z.mod_pos_bound y 1000 ltac:(lia)).
  set (x' := x / 1000) in *. set (y' := y / 1000) in *.
  destruct (ewma32_Z a b c x' y' ltac:(lia) ltac:(lia) ltac:(lia) ltac:(lia) ltac:(lia)) as (R0 & R1 & R2).
  pose proof (ewma_le a b c x' y' Ha Hb Hc Hc' ltac:(lia) ltac:(lia)) as Hr.
  set (r := f_to_int _) in *. clearbody r.
  assert (Hscale : ∀ k z z', 0 < k → 1000 * z' <= z <= 1000 * z' + 999 →
    1000 * (k * z') <= k * z <= 1000 * (k * z') + 999 * k) by (clear; intros; split; nia).
  pose proof (Hscale a x x' Ha ltac:(lia)) as Ax. pose proof (Hscale b y y' Hb ltac:(lia)) as By.
  rewrite (i64_small r) by lia. rewrite i64_small by lia. cbv zeta.
  split; [|lia].
  assert (2 ^ 22 * c * (r * 1000) = 1000 * (2 ^ 22 * c * r)) as -> by ring.
  assert (2 ^ 22 * c * (r * 1000 + 2 * 1000) = 1000 * (2 ^ 22 * c * (r + 1)) + 1000 * 2 ^ 22 * c) as -> by ring.
  split; lia.
Qed.

(** The RTT sample of a measurement: the send delta, less the peer's reported
    delay when that does not undercut the minimum. *)
Lemma UpdateRTT_spec r sendDelta ackDelay :
  rtt_ok r → 0 < sendDelta <= max_dur → dur_ok ackDelay →
  let r' := UpdateRTT r sendDelta ackDelay in
  minRTT r' = (if minRTT r =? 0 then sendDelta else Z.min (minRTT r) sendDelta) ∧
  minRTT r' <= latestRTT r' <= sendDelta ∧
  latestRTT r' = (if ackDelay <=? sendDelta - minRTT r' then sendDelta - ackDelay else sendDelta) ∧
  (smoothedRTT r = 0 → smoothedRTT r' = latestRTT r' ∧ meanDeviation r' = latestRTT r' / 2) ∧
  (smoothedRTT r ≠ 0 →
     avg 7 1 8 (smoothedRTT r) (latestRTT r') (smoothedRTT r') ∧
     avg 3 1 4 (meanDeviation r) (Z.abs (smoothedRTT r - latestRTT r')) (meanDeviation r')) ∧
  maxAckDelay r' = maxAckDelay r ∧ rtt_ok r'.
Proof.
  intros (H1 & H2 & H3 & H4 & H5 & H6) Hs Ha. unfold UpdateRTT, InfDuration.
  unfold rtt_ok, dur_ok, max_dur, Microsecond in *.
  destruct (Z.eqb_spec sendDelta (2 ^ 63 - 1)); [lia|]. destruct (Z.leb_spec sendDelta 0); [lia|]. cbn [orb].
  set (min' := if (minRTT r =? 0) || (sendDelta <? minRTT r) then sendDelta else minRTT r).
  assert (Hmin : min' = (if minRTT r =? 0 then sendDelta else Z.min (minRTT r) sendDelta)).
  { unfold min'. destruct (Z.eqb_spec (minRTT r) 0); [done|]. simpl. destruct (Z.ltb_spec sendDelta (minRTT r)); lia. }
  assert (0 < min' <= sendDelta) by (rewrite Hmin; destruct (Z.eqb_spec (minRTT r) 0); lia).
  rewrite (i64_small (sendDelta - min')) by lia. rewrite (i64_small (sendDelta - ackDelay)) by lia.
  set (sample := if ackDelay <=? sendDelta - min' then sendDelta - ackDelay else sendDelta).
  assert (Hsample : min' <= sample <= sendDelta) by (unfold sample; destruct (Z.leb_spec ackDelay (sendDelta - min')); lia).
  destruct (Z.eqb_spec (smoothedRTT r) 0) as [E|E]; cbn [minRTT latestRTT smoothedRTT meanDeviation maxAckDelay].
  - rewrite Z.quot_div_nonneg by lia. split_and!; try done; try lia; Z.div_mod_to_equations; lia.
  - destruct (avg_us 7 1 8 (smoothedRTT r) sample) as [A1 B1]; [lia..|by left| | |].
    1,2: unfold dur_ok, max_dur, Microsecond; lia.
    destruct (avg_us 3 1 4 (meanDeviation r) (Z.abs (smoothedRTT r - sample))) as [A2 B2]; [lia..|by right| | |].
    1,2: unfold dur_ok, max_dur, Microsecond; lia.
    assert (Habs : AbsDuration (i64 (smoothedRTT r - sample)) = Z.abs (smoothedRTT r - sample)).
    { rewrite i64_small by lia. unfold AbsDuration. destruct (Z.leb_spec 0 (smoothedRTT r - sample)); [lia|].
      rewrite i64_small; lia. }
    unfold update_meanDeviation, update_smoothedRTT. rewrite Habs. unfold dur_ok, max_dur, Microsecond in B1, B2.
    split_and!; try done; try lia; try apply B1; try apply B2.
Qed.

(** One RTT measurement.  For any state in range and any sample of at most
    [2^38] microseconds, [UpdateRTT] keeps the minimum of the raw send deltas,
    takes as sample the send delta less the reported ACK delay exactly when that
    stays above the minimum, starts the averages at the first sample, and
    afterwards moves the smoothed RTT and the mean deviation to the weighted
    averages 7/8 : 1/8 and 3/4 : 1/4 up to two microseconds and float32 error. *)
Theorem update_rtt_correct r sendDelta ackDelay :
  rtt_ok r → 0 < sendDelta <= max_dur → dur_ok ackDelay →
  let r' := UpdateRTT r sendDelta ackDelay in
  minRTT r' = (if minRTT r =? 0 then sendDelta else Z.min (minRTT r) sendDelta) ∧
  minRTT r' <= latestRTT r' <= sendDelta ∧
  latestRTT r' = (if ackDelay <=? sendDelta - minRTT r' then sendDelta - ackDelay else sendDelta) ∧
  (smoothedRTT r = 0 → smoothedRTT r' = latestRTT r' ∧ meanDeviation r' = latestRTT r' / 2) ∧
  (smoothedRTT r ≠ 0 →
     avg 7 1 8 (smoothedRTT r) (latestRTT r') (smoothedRTT r') ∧
     avg 3 1 4 (meanDeviation r) (Z.abs (smoothedRTT r - latestRTT r')) (meanDeviation r')) ∧
  maxAckDelay r' = maxAckDelay r ∧ rtt_ok r'.
Proof. apply UpdateRTT_spec. Qed.
Definition rtt_sample : RTTStats := mkRTTStats 30000000 40000000 41000000 5000000 25000000.
Lemma update_rtt_correct_witness :
  minRTT (UpdateRTT rtt_sample 60000000 10000000) = 30000000 ∧
  latestRTT (UpdateRTT rtt_sample 60000000 10000000) = 50000000 ∧
  avg 7 1 8 41000000 50000000 (smoothedRTT (UpdateRTT rtt_sample 60000000 10000000)).
Proof.
  assert (rtt_ok rtt_sample) as Hr by (unfold rtt_ok, dur_ok, rtt_sample, max_dur, Microsecond; simpl; lia).
  destruct (update_rtt_correct rtt_sample 60000000 10000000 Hr) as (H1 & H2 & H3 & _ & H5 & _);
    [unfold max_dur, Microsecond; lia|unfold dur_ok, max_dur, Microsecond; lia|].
  split; [exact H1|]. split; [exact H3|]. apply H5. done.
Defined.

(** The operations of the connection on its RTT statistics. *)
Inductive rtt_op :=
  | OpUpdateRTT (sendDelta ackDelay : Z) | OpSetMaxAckDelay (mad : Z)
  | OpMigration | OpExpire.
Definition rtt_apply (r : RTTStats) (op : rtt_op) : RTTStats :=
  match op with
  | OpUpdateRTT s a => UpdateRTT r s a
  | OpSetMaxAckDelay m => SetMaxAckDelay r m
  | OpMigration => OnConnectionMigration r
  | OpExpire => ExpireSmoothedMetrics r
  end.
Definition rtt_op_ok (op : rtt_op) : Prop :=
  match op with
  | OpUpdateRTT s a => s <= max_dur ∧ dur_ok a
  | OpSetMaxAckDelay m => dur_ok m
  | _ => True
  end.
Lemma UpdateRTT_ignored r s a : s <= 0 → UpdateRTT r s a = r.
Proof. intros. unfold UpdateRTT. destruct (Z.leb_spec s 0); [|lia]. by rewrite orb_true_r. Qed.
Lemma rtt_apply_ok r op : rtt_ok r → rtt_op_ok op → rtt_ok (rtt_apply r op).
Proof.
  intros Hr Hop. destruct op as [s a|m| |]; simpl in *.
  - destruct (Z.le_gt_cases s 0); [by rewrite UpdateRTT_ignored|]. apply UpdateRTT_spec; [done|lia|tauto].
  - destruct Hr as (?&?&?&?&?&?). unfold rtt_ok, SetMaxAckDelay; simpl; tauto.
  - destruct Hr as (?&?&?&?&?&?). unfold rtt_ok, dur_ok, max_dur, Microsecond in *; simpl; lia.
  - destruct Hr as (?&?&?&?&?&?). unfold rtt_ok, dur_ok, max_dur, Microsecond in *; cbn -[Z.pow Z.mul].
    assert (Habs : AbsDuration (i64 (smoothedRTT r - latestRTT r)) = Z.abs (smoothedRTT r - latestRTT r)).
    { rewrite i64_small by lia. unfold AbsDuration. destruct (Z.leb_spec 0 (smoothedRTT r - latestRTT r)); [lia|].
      rewrite i64_small; lia. }
    rewrite Habs. unfold MaxDuration.
    destruct (Z.ltb_spec (latestRTT r) (smoothedRTT r)),
      (Z.ltb_spec (Z.abs (smoothedRTT r - latestRTT r)) (meanDeviation r)); lia.
Qed.

(** The statistics stay in range.  Whatever sequence of measurements,
    migrations, expirations and peer parameters is applied to a fresh RTTStats,
    every duration stays between 0 and [2^38] microseconds, a non-zero smoothed
    RTT comes with a positive minimum, and the probe timeout is positive and
    computed without overflow. *)
Theorem rtt_stats_invariant ops :
  Forall rtt_op_ok ops →
  let r := fold_left rtt_apply ops NewRTTStats in
  rtt_ok r ∧ 0 < PTO r ∧
  (smoothedRTT r ≠ 0 →
     PTO r = smoothedRTT r + Z.max (4 * meanDeviation r) TimerGranularity + maxAckDelay r).
Proof.
  intros Hops. assert (Hr : rtt_ok (fold_left rtt_apply ops NewRTTStats)).
  { assert (rtt_ok NewRTTStats) as H0 by (unfold rtt_ok, dur_ok, max_dur, Microsecond; simpl; lia).
    revert H0. generalize NewRTTStats as r. induction Hops as [|op ops Hop Hops IH]; intros r Hr; [done|].
    simpl. apply IH. by apply rtt_apply_ok. }
  set (r := fold_left _ _ _) in *. intros r'. subst r'. split; [done|]. destruct Hr as (?&?&?&?&?&?).
  unfold PTO, dur_ok, max_dur, MaxDuration, TimerGranularity, Millisecond, Microsecond in *.
  rewrite (i64_small (4 * meanDeviation r)) by lia.
  destruct (Z.eqb_spec (smoothedRTT r) 0) as [E|E]; [split; [by vm_compute|done]|].
  destruct (Z.ltb_spec (1000 * 1000) (4 * meanDeviation r)); unwrap; lia.
Qed.
Lemma rtt_stats_invariant_witness :
  rtt_ok (fold_left rtt_apply [OpSetMaxAckDelay 25000000; OpUpdateRTT 300000000 0; OpUpdateRTT 350000000 50000000; OpExpire] NewRTTStats).
Proof.
  apply (rtt_stats_invariant [OpSetMaxAckDelay 25000000; OpUpdateRTT 300000000 0; OpUpdateRTT 350000000 50000000; OpExpire]).
  repeat constructor; unfold dur_ok, max_dur, Microsecond; lia.
Defined.
