(* ===== verification/FlowControl.v ===== *)
(** FlowControl: package core/flowcontrol.  Byte counts are uint64 with their
    wrap-around; the clock is an argument.  A stream flow controller holds a
    pointer to the connection's, so every stream operation takes and returns the
    connection's state too.  The [queueWindowUpdate] callbacks are returned as
    events. *)

From S2P Require Import Prelude Utils Protocol Frames GoFloat Rtt.

(** params.go *)
Definition ConnectionFlowControlMultiplier : float := mkFloat 3 2.
Definition InitialMaxStreamData : Z := 2 ^ 10 * 512.
Definition InitialMaxData : Z := InitialMaxStreamData * 3 / 2.
Definition WindowUpdateThreshold : float := mkFloat 1 4.

(** * base_flow_controller.go *)

Record baseFlowController := mkBase {
  bytesSent : Z; sendWindow : Z; lastBlockedAt : Z;
  bytesRead : Z; highestReceived : Z; receiveWindow : Z; receiveWindowSize : Z;
  maxReceiveWindowSize : Z;
  epochStartTime : Z; epochStartOffset : Z }.

Definition sendWindowSize (c : baseFlowController) : Z :=
  if sendWindow c <? bytesSent c then 0 else u64 (sendWindow c - bytesSent c).

Definition IsNewlyBlocked (c : baseFlowController) : baseFlowController * (bool * Z) :=
  if negb (sendWindowSize c =? 0) || (sendWindow c =? lastBlockedAt c) then (c, (false, 0))
  else (mkBase (bytesSent c) (sendWindow c) (sendWindow c) (bytesRead c) (highestReceived c)
          (receiveWindow c) (receiveWindowSize c) (maxReceiveWindowSize c)
          (epochStartTime c) (epochStartOffset c), (true, sendWindow c)).

Definition base_AddBytesSent (c : baseFlowController) (n : Z) : baseFlowController :=
  mkBase (u64 (bytesSent c + n)) (sendWindow c) (lastBlockedAt c) (bytesRead c) (highestReceived c)
    (receiveWindow c) (receiveWindowSize c) (maxReceiveWindowSize c) (epochStartTime c) (epochStartOffset c).

Definition UpdateSendWindow (c : baseFlowController) (offset : Z) : baseFlowController :=
  if sendWindow c <? offset then
    mkBase (bytesSent c) offset (lastBlockedAt c) (bytesRead c) (highestReceived c)
      (receiveWindow c) (receiveWindowSize c) (maxReceiveWindowSize c) (epochStartTime c) (epochStartOffset c)
  else c.

Definition startNewAutoTuningEpoch (c : baseFlowController) (now : Z) : baseFlowController :=
  mkBase (bytesSent c) (sendWindow c) (lastBlockedAt c) (bytesRead c) (highestReceived c)
    (receiveWindow c) (receiveWindowSize c) (maxReceiveWindowSize c) now (bytesRead c).

Definition base_AddBytesRead (c : baseFlowController) (now n : Z) : baseFlowController :=
  let c := if bytesRead c =? 0 then startNewAutoTuningEpoch c now else c in
  mkBase (bytesSent c) (sendWindow c) (lastBlockedAt c) (u64 (bytesRead c + n)) (highestReceived c)
    (receiveWindow c) (receiveWindowSize c) (maxReceiveWindowSize c) (epochStartTime c) (epochStartOffset c).

(** [ByteCount(float64(receiveWindowSize) * float64(1 - WindowUpdateThreshold))] *)
Definition update_threshold (size : Z) : Z :=
  u64 (f_to_int (f_mul 53 (f_of_int 53 size) (mkFloat 3 4))).
Definition hasWindowUpdate (c : baseFlowController) : bool :=
  let bytesRemaining := u64 (receiveWindow c - bytesRead c) in
  bytesRemaining <=? update_threshold (receiveWindowSize c).

Definition set_receiveWindowSize (c : baseFlowController) (size : Z) : baseFlowController :=
  mkBase (bytesSent c) (sendWindow c) (lastBlockedAt c) (bytesRead c) (highestReceived c)
    (receiveWindow c) size (maxReceiveWindowSize c) (epochStartTime c) (epochStartOffset c).

(** [time.Duration(4*fraction*float64(rtt))] *)
Definition expected_epoch (bytesReadInEpoch size rtt : Z) : Z :=
  let fraction := f_div 53 (f_of_int 53 bytesReadInEpoch) (f_of_int 53 size) in
  i64 (f_to_int (f_mul 53 (f_mul 53 (mkFloat 4 1) fraction) (f_of_int 53 rtt))).
Definition maybeAdjustWindowSize (c : baseFlowController) (rttStats : RTTStats) (now : Z) : baseFlowController :=
  let bytesReadInEpoch := u64 (bytesRead c - epochStartOffset c) in
  if bytesReadInEpoch <=? receiveWindowSize c / 2 then c else
  let rtt := smoothedRTT rttStats in
  if rtt =? 0 then c else
  let c :=
    if time_Sub now (epochStartTime c) <? expected_epoch bytesReadInEpoch (receiveWindowSize c) rtt
    then set_receiveWindowSize c (MinByteCount (u64 (2 * receiveWindowSize c)) (maxReceiveWindowSize c))
    else c in
  startNewAutoTuningEpoch c now.

Definition getWindowUpdate (c : baseFlowController) (rttStats : RTTStats) (now : Z) : baseFlowController * Z :=
  if negb (hasWindowUpdate c) then (c, 0) else
  let c := maybeAdjustWindowSize c rttStats now in
  let w := u64 (bytesRead c + receiveWindowSize c) in
  (mkBase (bytesSent c) (sendWindow c) (lastBlockedAt c) (bytesRead c) (highestReceived c)
     w (receiveWindowSize c) (maxReceiveWindowSize c) (epochStartTime c) (epochStartOffset c), w).

Definition set_highestReceived (c : baseFlowController) (h : Z) : baseFlowController :=
  mkBase (bytesSent c) (sendWindow c) (lastBlockedAt c) (bytesRead c) h
    (receiveWindow c) (receiveWindowSize c) (maxReceiveWindowSize c) (epochStartTime c) (epochStartOffset c).
Definition checkFlowControlViolation (c : baseFlowController) : bool :=
  receiveWindow c <? highestReceived c.

(** * connection_flow_controller.go *)

(** A window update queued by a callback. *)
Inductive fc_event := QueueConnUpdate | QueueStreamUpdate (id : Z).

Definition NewConnectionFlowController (rw maxRw : Z) : baseFlowController :=
  mkBase 0 0 0 0 0 rw rw maxRw time_zero 0.
Definition conn_SendWindowSize (c : baseFlowController) : Z := sendWindowSize c.
Definition IncrementHighestReceived (c : baseFlowController) (increment : Z)
    : baseFlowController * option goerr :=
  let c := set_highestReceived c (u64 (highestReceived c + increment)) in
  if checkFlowControlViolation c then
    (c, Some (QuicError FlowControlError
      (Errorf "Received %d bytes for the connection, allowed %d bytes" [highestReceived c; receiveWindow c])))
  else (c, None).
Definition conn_maybeQueueWindowUpdate (c : baseFlowController) : list fc_event :=
  if hasWindowUpdate c then [QueueConnUpdate] else [].
Definition conn_AddBytesRead (c : baseFlowController) (now n : Z) : baseFlowController * list fc_event :=
  let c := base_AddBytesRead c now n in (c, conn_maybeQueueWindowUpdate c).
Definition conn_GetWindowUpdate (c : baseFlowController) (rttStats : RTTStats) (now : Z)
    : baseFlowController * Z := getWindowUpdate c rttStats now.
Definition EnsureMinimumWindowSize (c : baseFlowController) (now inc : Z) : baseFlowController :=
  if receiveWindowSize c <? inc then
    startNewAutoTuningEpoch (set_receiveWindowSize c (MinByteCount inc (maxReceiveWindowSize c))) now
  else c.

(** * stream_flow_controller.go *)

Record streamFlowController := mkStreamFC {
  sfc : baseFlowController; sfc_streamID : Z; receivedFinalOffset : bool }.

Definition NewStreamFlowController (streamID rw maxRw initialSendWindow : Z) : streamFlowController :=
  mkStreamFC (mkBase 0 initialSendWindow 0 0 0 rw rw maxRw time_zero 0) streamID false.

Definition UpdateHighestReceived (c : streamFlowController) (conn : baseFlowController)
    (offset : Z) (final : bool) : streamFlowController * baseFlowController * option goerr :=
  let highest := highestReceived (sfc c) in
  if receivedFinalOffset c && final && negb (offset =? highest) then
    (c, conn, Some (QuicError FinalSizeError
      (Errorf "Received inconsistent final offset for stream %d (old: %#x, new: %#x bytes)"
         [sfc_streamID c; highest; offset])))
  else if receivedFinalOffset c && (highest <? offset) then
    (c, conn, Some (QuicError FinalSizeError
      (Errorf "Received offset %#x for stream %d. Final offset was already received at %#x"
         [offset; sfc_streamID c; highest])))
  else
  let c := mkStreamFC (sfc c) (sfc_streamID c) (if final then true else receivedFinalOffset c) in
  if offset =? highest then (c, conn, None)
  else if offset <=? highest then
    if final then
      (c, conn, Some (QuicError FinalSizeError
        (Errorf "Received final offset %#x for stream %d, but already received offset %#x before"
           [offset; sfc_streamID c; highest])))
    else (c, conn, None)
  else
  let increment := u64 (offset - highest) in
  let c := mkStreamFC (set_highestReceived (sfc c) offset) (sfc_streamID c) (receivedFinalOffset c) in
  if checkFlowControlViolation (sfc c) then
    (c, conn, Some (QuicError FlowControlError
      (Errorf "Received %#x bytes on stream %d, allowed %#x bytes"
         [offset; sfc_streamID c; receiveWindow (sfc c)])))
  else
  let '(conn, err) := IncrementHighestReceived conn increment in
  (c, conn, err).

Definition set_sfc (c : streamFlowController) (b : baseFlowController) : streamFlowController :=
  mkStreamFC b (sfc_streamID c) (receivedFinalOffset c).

Definition maybeQueueWindowUpdate (c : streamFlowController) : list fc_event :=
  if negb (receivedFinalOffset c) && hasWindowUpdate (sfc c) then [QueueStreamUpdate (sfc_streamID c)] else [].
Definition AddBytesRead (c : streamFlowController) (conn : baseFlowController) (now n : Z)
    : streamFlowController * baseFlowController * list fc_event :=
  let c := set_sfc c (base_AddBytesRead (sfc c) now n) in
  let ev := maybeQueueWindowUpdate c in
  let '(conn, ev') := conn_AddBytesRead conn now n in
  (c, conn, ev ++ ev').
Definition Abandon (c : streamFlowController) (conn : baseFlowController) (now : Z)
    : baseFlowController * list fc_event :=
  let unread := u64 (highestReceived (sfc c) - bytesRead (sfc c)) in
  if 0 <? unread then conn_AddBytesRead conn now unread else (conn, []).
Definition AddBytesSent (c : streamFlowController) (conn : baseFlowController) (n : Z)
    : streamFlowController * baseFlowController :=
  (set_sfc c (base_AddBytesSent (sfc c) n), base_AddBytesSent conn n).
Definition SendWindowSize (c : streamFlowController) (conn : baseFlowController) : Z :=
  MinByteCount (sendWindowSize (sfc c)) (conn_SendWindowSize conn).
(** [ByteCount(float64(size) * ConnectionFlowControlMultiplier)] *)
Definition conn_minimum (size : Z) : Z :=
  u64 (f_to_int (f_mul 53 (f_of_int 53 size) ConnectionFlowControlMultiplier)).
Definition GetWindowUpdate (c : streamFlowController) (conn : baseFlowController)
    (rttStats : RTTStats) (now : Z) : streamFlowController * baseFlowController * Z :=
  if receivedFinalOffset c then (c, conn, 0) else
  let oldWindowSize := receiveWindowSize (sfc c) in
  let '(b, offset) := getWindowUpdate (sfc c) rttStats now in
  let conn := if oldWindowSize <? receiveWindowSize b
              then EnsureMinimumWindowSize conn now (conn_minimum (receiveWindowSize b)) else conn in
  (set_sfc c b, conn, offset).

(** * Invariant of a flow controller *)

(** Windows stay far below the 53 bits of a float64. *)
Definition max_window : Z := 2 ^ 50.
Definition base_ok (c : baseFlowController) : Prop :=
  0 <= bytesSent c <= sendWindow c ∧ sendWindow c <= MaxByteCount ∧
  0 <= bytesRead c <= highestReceived c ∧ highestReceived c <= receiveWindow c ∧
  receiveWindow c <= bytesRead c + maxReceiveWindowSize c ∧ receiveWindow c <= 2 ^ 62 + max_window ∧
  0 <= receiveWindowSize c <= maxReceiveWindowSize c ∧ maxReceiveWindowSize c <= max_window.

Ltac fc_unfold := unfold base_ok, max_window, MaxByteCount in *; cbn [bytesSent sendWindow lastBlockedAt
  bytesRead highestReceived receiveWindow receiveWindowSize maxReceiveWindowSize epochStartTime epochStartOffset
  sfc sfc_streamID receivedFinalOffset set_sfc] in *.

Lemma update_threshold_eq size : 0 <= size <= max_window → update_threshold size = size * 3 / 4.
Proof.
  intros Hs. unfold max_window in *. unfold update_threshold. change (mkFloat 3 4) with (mkFloat 3 (2 ^ 2)).
  rewrite f_mul_int_exact by lia. change (2 ^ 2) with 4. apply u64_small. Z.div_mod_to_equations; lia.
Qed.
(** A window update is due exactly when a quarter of the window was consumed. *)
Lemma hasWindowUpdate_spec c : base_ok c →
  hasWindowUpdate c = (4 * (receiveWindow c - bytesRead c) <=? 3 * receiveWindowSize c).
Proof.
  intros H. unfold hasWindowUpdate. rewrite update_threshold_eq by (fc_unfold; lia). fc_unfold.
  rewrite u64_small by lia.
  destruct (Z.leb_spec (receiveWindow c - bytesRead c) (receiveWindowSize c * 3 / 4)),
    (Z.leb_spec (4 * (receiveWindow c - bytesRead c)) (3 * receiveWindowSize c)); Z.div_mod_to_equations; lia.
Qed.

Lemma maybeAdjust_spec c rtt now : base_ok c →
  let c' := maybeAdjustWindowSize c rtt now in
  receiveWindowSize c <= receiveWindowSize c' <= maxReceiveWindowSize c ∧
  receiveWindowSize c' <= 2 * receiveWindowSize c ∧
  bytesSent c' = bytesSent c ∧ sendWindow c' = sendWindow c ∧ lastBlockedAt c' = lastBlockedAt c ∧
  bytesRead c' = bytesRead c ∧ highestReceived c' = highestReceived c ∧
  receiveWindow c' = receiveWindow c ∧ maxReceiveWindowSize c' = maxReceiveWindowSize c.
Proof.
  intros H. fc_unfold. unfold maybeAdjustWindowSize.
  destruct (_ <=? _); [split_and!; done || lia|]. destruct (_ =? 0); [split_and!; done || lia|].
  cbv zeta. destruct (_ <? _); unfold startNewAutoTuningEpoch, set_receiveWindowSize, MinByteCount; fc_unfold;
    [|split_and!; done || lia].
  rewrite (u64_small (2 * _)) by lia.
  destruct (Z.ltb_spec (2 * receiveWindowSize c) (maxReceiveWindowSize c)); split_and!; done || lia.
Qed.

Lemma getWindowUpdate_spec c rtt now : base_ok c → bytesRead c <= 2 ^ 62 →
  let '(c', offset) := getWindowUpdate c rtt now in
  base_ok c' ∧ bytesRead c' = bytesRead c ∧ highestReceived c' = highestReceived c ∧
  bytesSent c' = bytesSent c ∧ sendWindow c' = sendWindow c ∧
  maxReceiveWindowSize c' = maxReceiveWindowSize c ∧
  receiveWindowSize c <= receiveWindowSize c' <= 2 * receiveWindowSize c ∧
  (if 4 * (receiveWindow c - bytesRead c) <=? 3 * receiveWindowSize c
   then offset = receiveWindow c' ∧ offset = bytesRead c + receiveWindowSize c' ∧ receiveWindow c <= offset
   else offset = 0 ∧ c' = c).
Proof.
  intros H Hr. unfold getWindowUpdate. rewrite hasWindowUpdate_spec by done.
  destruct (Z.leb_spec (4 * (receiveWindow c - bytesRead c)) (3 * receiveWindowSize c)); cbn [negb].
  2:{ fc_unfold. split_and!; done || lia. }
  pose proof (maybeAdjust_spec c rtt now H) as (? & ? & ? & ? & ? & ? & ? & ? & ?).
  set (c' := maybeAdjustWindowSize c rtt now) in *. clearbody c'. fc_unfold.
  rewrite u64_small by lia. split_and!; lia.
Qed.

(** A window update is sent exactly when at least a quarter of the window is
    consumed; then the advertised offset never moves backwards, is the bytes
    read plus the (possibly auto-tuned) window size, and the window size never
    shrinks, at most doubles and never exceeds its maximum. *)
Theorem window_update_correct c rtt now : base_ok c → bytesRead c <= 2 ^ 62 →
  let '(c', offset) := conn_GetWindowUpdate c rtt now in
  base_ok c' ∧ bytesRead c' = bytesRead c ∧ highestReceived c' = highestReceived c ∧
  bytesSent c' = bytesSent c ∧ sendWindow c' = sendWindow c ∧
  maxReceiveWindowSize c' = maxReceiveWindowSize c ∧
  receiveWindowSize c <= receiveWindowSize c' <= 2 * receiveWindowSize c ∧
  (if 4 * (receiveWindow c - bytesRead c) <=? 3 * receiveWindowSize c
   then offset = receiveWindow c' ∧ offset = bytesRead c + receiveWindowSize c' ∧ receiveWindow c <= offset
   else offset = 0 ∧ c' = c).
Proof. apply getWindowUpdate_spec. Qed.
Definition fc_sample : baseFlowController := mkBase 0 0 0 700 900 1000 1000 5000 1000000 100.
Lemma window_update_correct_witness :
  conn_GetWindowUpdate fc_sample rtt_sample 50000000 =
    (mkBase 0 0 0 700 900 2700 2000 5000 50000000 700, 2700) ∧
  base_ok (mkBase 0 0 0 700 900 2700 2000 5000 50000000 700).
Proof.
  assert (E : conn_GetWindowUpdate fc_sample rtt_sample 50000000 =
    (mkBase 0 0 0 700 900 2700 2000 5000 50000000 700, 2700)) by (vm_compute; reflexivity).
  assert (Hs : base_ok fc_sample) by (unfold fc_sample; fc_unfold; lia).
  pose proof (window_update_correct fc_sample rtt_sample 50000000 Hs ltac:(simpl; lia)) as Hw.
  rewrite E in Hw. split; [exact E|apply Hw].
Defined.

(** * Receiving *)

Definition fc_error (code : Z) (e : option goerr) : Prop := ∃ m, e = Some (QuicError code m).

Lemma UpdateHighestReceived_spec c conn offset final :
  base_ok (sfc c) → base_ok conn → 0 <= offset <= MaxByteCount →
  let old := highestReceived (sfc c) in
  let '(c', conn', err) := UpdateHighestReceived c conn offset final in
  if (receivedFinalOffset c && (if final then negb (offset =? old) else old <? offset))
     || (final && (offset <? old))
  then fc_error FinalSizeError err ∧ conn' = conn ∧ sfc c' = sfc c
  else if receiveWindow (sfc c) <? offset then fc_error FlowControlError err ∧ conn' = conn
  else if receiveWindow conn <? highestReceived conn + (Z.max old offset - old) then fc_error FlowControlError err
  else err = None ∧
    c' = mkStreamFC (set_highestReceived (sfc c) (Z.max old offset)) (sfc_streamID c) (receivedFinalOffset c || final) ∧
    conn' = set_highestReceived conn (highestReceived conn + (Z.max old offset - old)).
Proof.
  intros Hc Hn Ho old. unfold UpdateHighestReceived. fold old.
  assert (Hrefl : ∀ b, set_highestReceived b (highestReceived b) = b) by (by intros []).
  unfold IncrementHighestReceived, checkFlowControlViolation, fc_error. unfold old in *. fc_unfold.
  destruct c as [b id rf]; cbn [sfc receivedFinalOffset sfc_streamID] in *.
  destruct (Z.eqb_spec offset (highestReceived b)) as [->|Hne].
  { rewrite !Z.ltb_irrefl, Z.max_id, Z.sub_diag, Z.add_0_r, !Hrefl. simpl. rewrite !andb_false_r. simpl.
    destruct (Z.ltb_spec (receiveWindow b) (highestReceived b)); [lia|].
    destruct (Z.ltb_spec (receiveWindow conn) (highestReceived conn)); [lia|].
    by destruct rf, final. }
  destruct (Z.ltb_spec (highestReceived b) offset) as [Hlt|Hge].
  - destruct (Z.ltb_spec offset (highestReceived b)); [lia|]. destruct (Z.leb_spec offset (highestReceived b)); [lia|].
    rewrite Z.max_r by lia. rewrite !u64_small by (rewrite ?u64_small; lia).
    destruct rf; simpl; [destruct final; simpl; split_and!; try done; by eexists|]. rewrite !andb_false_r. simpl.
    destruct (Z.ltb_spec (receiveWindow b) offset); [split; [by eexists|done]|].
    destruct (Z.ltb_spec (receiveWindow conn) (highestReceived conn + (offset - highestReceived b))); [by eexists|].
    by destruct final.
  - destruct (Z.ltb_spec offset (highestReceived b)); [|lia]. destruct (Z.leb_spec offset (highestReceived b)); [|lia].
    rewrite Z.max_l, Z.sub_diag, Z.add_0_r by lia. rewrite !Hrefl.
    destruct (Z.ltb_spec (receiveWindow b) offset); [lia|].
    destruct (Z.ltb_spec (receiveWindow conn) (highestReceived conn)); [lia|].
    destruct rf, final; simpl; split_and!; try done; by eexists.
Qed.

(** C39: receiving data or a final size on a stream, on every branch.  A final
    size that contradicts what was received (or data beyond a known final size) is
    FINAL_SIZE_ERROR and counts nothing; data beyond the stream's window or, for
    the new bytes, the connection's window is FLOW_CONTROL_ERROR; otherwise the
    stream's highest offset becomes the maximum and the connection's grows by
    exactly the difference. *)
Theorem update_highest_received_correct c conn offset final :
  base_ok (sfc c) → base_ok conn → 0 <= offset <= MaxByteCount →
  let old := highestReceived (sfc c) in
  let '(c', conn', err) := UpdateHighestReceived c conn offset final in
  if (receivedFinalOffset c && (if final then negb (offset =? old) else old <? offset))
     || (final && (offset <? old))
  then fc_error FinalSizeError err ∧ conn' = conn ∧ sfc c' = sfc c
  else if receiveWindow (sfc c) <? offset then fc_error FlowControlError err ∧ conn' = conn
  else if receiveWindow conn <? highestReceived conn + (Z.max old offset - old) then fc_error FlowControlError err
  else err = None ∧
    c' = mkStreamFC (set_highestReceived (sfc c) (Z.max old offset)) (sfc_streamID c) (receivedFinalOffset c || final) ∧
    conn' = set_highestReceived conn (highestReceived conn + (Z.max old offset - old)).
Proof. apply UpdateHighestReceived_spec. Qed.
Lemma update_highest_received_correct_witness :
  let c := mkStreamFC fc_sample 4 false in
  let conn := mkBase 0 0 0 700 5000 5150 6000 9000 0 0 in
  fc_error FlowControlError (UpdateHighestReceived c conn 1001 false).2 ∧
  UpdateHighestReceived c conn 1000 true =
    (mkStreamFC (set_highestReceived fc_sample 1000) 4 true, set_highestReceived conn 5100, None).
Proof.
  assert (Hs : base_ok fc_sample) by (unfold fc_sample; fc_unfold; lia).
  assert (Hc : base_ok (mkBase 0 0 0 700 5000 5150 6000 9000 0 0)) by (fc_unfold; lia).
  split.
  - exact (proj1 (update_highest_received_correct (mkStreamFC fc_sample 4 false) _ 1001 false Hs Hc ltac:(done))).
  - vm_compute. reflexivity.
Defined.

(** * A connection and its streams *)

(** A stream's controller, and the bytes that [Abandon] gave up for it, once it was
    abandoned: it stays, as the other half of the stream may go on sending. *)
Record fc_stream := mkFcStream { fc_ctl : streamFlowController; fc_given_up : option Z }.
Record fc_sys := mkFcSys {
  fs_conn : baseFlowController;
  fs_streams : gmap Z fc_stream;
  (** the bytes received, read or given up, and sent on streams that are gone *)
  fs_gone_recv : Z; fs_gone_read : Z; fs_gone_sent : Z }.
Definition fc_received (s : fc_stream) : Z := highestReceived (sfc (fc_ctl s)).
Definition fc_consumed (s : fc_stream) : Z := bytesRead (sfc (fc_ctl s)) + default 0 (fc_given_up s).
Definition fc_sent (s : fc_stream) : Z := bytesSent (sfc (fc_ctl s)).
Definition fc_new (s : streamFlowController) : fc_stream := mkFcStream s None.
Definition fc_set (x : fc_stream) (s : streamFlowController) : fc_stream := mkFcStream s (fc_given_up x).

Definition sum_streams (f : fc_stream → Z) (m : gmap Z fc_stream) : Z := map_fold (λ _ s acc, f s + acc) 0 m.
Lemma sum_insert_new f m k s :
  m !! k = None → sum_streams f (<[k := s]> m) = f s + sum_streams f m.
Proof. intros Hk. unfold sum_streams. rewrite map_fold_insert_L; [done|intros; lia|done]. Qed.
Lemma sum_delete f m k s : m !! k = Some s → sum_streams f m = f s + sum_streams f (delete k m).
Proof.
  intros Hk. rewrite <- (insert_delete_id m k s Hk) at 1. apply sum_insert_new. apply lookup_delete_eq.
Qed.
Lemma sum_update f m k s s' :
  m !! k = Some s → sum_streams f (<[k := s']> m) = sum_streams f m - f s + f s'.
Proof.
  intros Hk. rewrite <- insert_delete_eq, sum_insert_new by apply lookup_delete_eq.
  rewrite (sum_delete f m k s Hk). lia.
Qed.

(** What the connection, its streams and the peer can do, in any order.  The
    guards are the callers' contracts: only received bytes are read, and none of a
    stream that was abandoned, which happens once, sends stay within
    [SendWindowSize], frames carry varint offsets.  A stream may go at any time. *)
Inductive fc_step : fc_sys → fc_sys → Prop :=
  | fc_open conn m g k h id rw maxRw sw :
      m !! id = None → 0 <= rw <= maxRw → maxRw <= max_window → 0 <= sw <= MaxByteCount →
      fc_step (mkFcSys conn m g k h)
              (mkFcSys conn (<[id := fc_new (NewStreamFlowController id rw maxRw sw)]> m) g k h)
  | fc_receive conn m g k h id x offset final s' conn' :
      m !! id = Some x → 0 <= offset <= MaxByteCount →
      UpdateHighestReceived (fc_ctl x) conn offset final = (s', conn', None) →
      fc_step (mkFcSys conn m g k h) (mkFcSys conn' (<[id := fc_set x s']> m) g k h)
  | fc_read conn m g k h id x n now s' conn' ev :
      m !! id = Some x → fc_given_up x = None → 0 <= n <= highestReceived (sfc (fc_ctl x)) - bytesRead (sfc (fc_ctl x)) →
      AddBytesRead (fc_ctl x) conn now n = (s', conn', ev) →
      fc_step (mkFcSys conn m g k h) (mkFcSys conn' (<[id := fc_set x s']> m) g k h)
  | fc_abandon conn m g k h id x now conn' ev :
      m !! id = Some x → fc_given_up x = None → Abandon (fc_ctl x) conn now = (conn', ev) →
      fc_step (mkFcSys conn m g k h)
              (mkFcSys conn' (<[id := mkFcStream (fc_ctl x) (Some (highestReceived (sfc (fc_ctl x)) - bytesRead (sfc (fc_ctl x))))]> m) g k h)
  | fc_gone conn m g k h id x :
      m !! id = Some x →
      fc_step (mkFcSys conn m g k h) (mkFcSys conn (delete id m) (g + fc_received x) (k + fc_consumed x) (h + fc_sent x))
  | fc_send conn m g k h id x n s' conn' :
      m !! id = Some x → 0 <= n <= SendWindowSize (fc_ctl x) conn →
      AddBytesSent (fc_ctl x) conn n = (s', conn') →
      fc_step (mkFcSys conn m g k h) (mkFcSys conn' (<[id := fc_set x s']> m) g k h)
  | fc_update conn m g k h id x rtt now s' conn' off :
      m !! id = Some x → GetWindowUpdate (fc_ctl x) conn rtt now = (s', conn', off) →
      fc_step (mkFcSys conn m g k h) (mkFcSys conn' (<[id := fc_set x s']> m) g k h)
  | fc_conn_update conn m g k h rtt now conn' off :
      bytesRead conn <= 2 ^ 62 → conn_GetWindowUpdate conn rtt now = (conn', off) →
      fc_step (mkFcSys conn m g k h) (mkFcSys conn' m g k h)
  | fc_max_data conn m g k h off :
      0 <= off <= MaxByteCount →
      fc_step (mkFcSys conn m g k h) (mkFcSys (UpdateSendWindow conn off) m g k h)
  | fc_max_stream_data conn m g k h id x off :
      m !! id = Some x → 0 <= off <= MaxByteCount →
      fc_step (mkFcSys conn m g k h) (mkFcSys conn (<[id := fc_set x (set_sfc (fc_ctl x) (UpdateSendWindow (sfc (fc_ctl x)) off))]> m) g k h)
  | fc_blocked conn m g k h :
      fc_step (mkFcSys conn m g k h) (mkFcSys (IsNewlyBlocked conn).1 m g k h)
  | fc_stream_blocked conn m g k h id x :
      m !! id = Some x →
      fc_step (mkFcSys conn m g k h) (mkFcSys conn (<[id := fc_set x (set_sfc (fc_ctl x) (IsNewlyBlocked (sfc (fc_ctl x))).1)]> m) g k h).

Definition fc_stream_ok (s : fc_stream) : Prop :=
  base_ok (sfc (fc_ctl s)) ∧ fc_received s <= MaxByteCount ∧ 0 <= default 0 (fc_given_up s) ∧ fc_consumed s <= fc_received s.
Definition fc_inv (σ : fc_sys) : Prop :=
  base_ok (fs_conn σ) ∧ map_Forall (λ _, fc_stream_ok) (fs_streams σ) ∧ 0 <= fs_gone_read σ <= fs_gone_recv σ ∧
  highestReceived (fs_conn σ) = fs_gone_recv σ + sum_streams fc_received (fs_streams σ) ∧
  bytesRead (fs_conn σ) = fs_gone_read σ + sum_streams fc_consumed (fs_streams σ) ∧
  bytesSent (fs_conn σ) = fs_gone_sent σ + sum_streams fc_sent (fs_streams σ).

Lemma base_AddBytesRead_spec c now n : base_ok c → 0 <= n <= highestReceived c - bytesRead c →
  let c' := base_AddBytesRead c now n in
  base_ok c' ∧ bytesRead c' = bytesRead c + n ∧ highestReceived c' = highestReceived c ∧ bytesSent c' = bytesSent c.
Proof.
  intros H Hn. unfold base_AddBytesRead, startNewAutoTuningEpoch. fc_unfold.
  destruct (bytesRead c =? 0); fc_unfold; rewrite u64_small by lia; lia.
Qed.
Lemma UpdateSendWindow_spec c off : base_ok c → 0 <= off <= MaxByteCount →
  let c' := UpdateSendWindow c off in
  base_ok c' ∧ bytesRead c' = bytesRead c ∧ highestReceived c' = highestReceived c ∧ bytesSent c' = bytesSent c.
Proof. intros H Ho. unfold UpdateSendWindow. destruct (Z.ltb_spec (sendWindow c) off); fc_unfold; lia. Qed.
Lemma IsNewlyBlocked_spec c : base_ok c →
  let c' := (IsNewlyBlocked c).1 in
  base_ok c' ∧ bytesRead c' = bytesRead c ∧ highestReceived c' = highestReceived c ∧ bytesSent c' = bytesSent c.
Proof. intros H. unfold IsNewlyBlocked. destruct (_ || _); cbn [fst]; fc_unfold; lia. Qed.
Lemma base_AddBytesSent_spec c n : base_ok c → 0 <= n <= sendWindowSize c →
  let c' := base_AddBytesSent c n in
  base_ok c' ∧ bytesRead c' = bytesRead c ∧ highestReceived c' = highestReceived c ∧ bytesSent c' = bytesSent c + n.
Proof.
  intros H Hn. unfold base_AddBytesSent, sendWindowSize in *. fc_unfold.
  destruct (Z.ltb_spec (sendWindow c) (bytesSent c)); [lia|]. rewrite u64_small in Hn by lia.
  rewrite u64_small by lia. lia.
Qed.
Lemma EnsureMinimumWindowSize_spec c now inc : base_ok c →
  let c' := EnsureMinimumWindowSize c now inc in
  base_ok c' ∧ bytesRead c' = bytesRead c ∧ highestReceived c' = highestReceived c ∧ bytesSent c' = bytesSent c.
Proof.
  intros H. unfold EnsureMinimumWindowSize. destruct (Z.ltb_spec (receiveWindowSize c) inc); [|by fc_unfold].
  unfold startNewAutoTuningEpoch, set_receiveWindowSize, MinByteCount. fc_unfold.
  destruct (Z.ltb_spec inc (maxReceiveWindowSize c)); lia.
Qed.

Lemma GetWindowUpdate_spec s conn rtt now s' conn' off :
  base_ok (sfc s) → highestReceived (sfc s) <= MaxByteCount → base_ok conn →
  GetWindowUpdate s conn rtt now = (s', conn', off) →
  base_ok (sfc s') ∧ base_ok conn' ∧
  bytesRead (sfc s') = bytesRead (sfc s) ∧ highestReceived (sfc s') = highestReceived (sfc s) ∧
  bytesSent (sfc s') = bytesSent (sfc s) ∧
  bytesRead conn' = bytesRead conn ∧ highestReceived conn' = highestReceived conn ∧ bytesSent conn' = bytesSent conn.
Proof.
  intros Hs Hm Hc. unfold GetWindowUpdate. destruct (receivedFinalOffset s); [by intros [= <- <- <-]|].
  pose proof (getWindowUpdate_spec (sfc s) rtt now Hs ltac:(fc_unfold; lia)) as Hg.
  destruct (getWindowUpdate (sfc s) rtt now) as [b o]. destruct Hg as (Hb & E1 & E2 & E3 & _).
  destruct (_ <? _); intros [= <- <- <-]; cbn [sfc set_sfc]; [|by split_and!].
  pose proof (EnsureMinimumWindowSize_spec conn now (conn_minimum (receiveWindowSize b)) Hc) as (?&?&?&?).
  by split_and!.
Qed.

Lemma map_Forall_update {A} (P : Z → A → Prop) (m : gmap Z A) k x : map_Forall P m → P k x → map_Forall P (<[k := x]> m).
Proof. intros. by apply map_Forall_insert_2. Qed.

(** Replacing one stream and the connection, with all counters moving together. *)
Lemma fc_inv_update conn m g k h id x x' conn' :
  fc_inv (mkFcSys conn m g k h) → m !! id = Some x → fc_stream_ok x' → base_ok conn' →
  highestReceived conn' - highestReceived conn = fc_received x' - fc_received x →
  bytesRead conn' - bytesRead conn = fc_consumed x' - fc_consumed x →
  bytesSent conn' - bytesSent conn = fc_sent x' - fc_sent x →
  fc_inv (mkFcSys conn' (<[id := x']> m) g k h).
Proof.
  intros (Hc & Hm & Hg & E1 & E2 & E3) Hid Hx' Hc' D1 D2 D3. unfold fc_inv; cbn [fs_conn fs_streams fs_gone_recv fs_gone_read fs_gone_sent] in *.
  rewrite !(sum_update _ _ _ _ _ Hid). split_and!; try done; try lia. by apply map_Forall_update.
Qed.
(** The same for a stream whose receiving half does not move. *)
Lemma fc_inv_set conn m g k h id x s' conn' :
  fc_inv (mkFcSys conn m g k h) → m !! id = Some x → base_ok (sfc s') → base_ok conn' →
  highestReceived (sfc s') = highestReceived (sfc (fc_ctl x)) → bytesRead (sfc s') = bytesRead (sfc (fc_ctl x)) →
  highestReceived conn' = highestReceived conn → bytesRead conn' = bytesRead conn →
  bytesSent conn' - bytesSent conn = bytesSent (sfc s') - bytesSent (sfc (fc_ctl x)) →
  fc_inv (mkFcSys conn' (<[id := fc_set x s']> m) g k h).
Proof.
  intros Hi Hid Hs' Hc' E1 E2 E3 E4 E5. pose proof Hi as (_ & Hm & _). destruct (Hm id x Hid) as (_ & H1 & H2 & H3). cbn [fs_streams] in *.
  apply (fc_inv_update conn m g k h id x); unfold fc_stream_ok, fc_received, fc_consumed, fc_sent, fc_set in *; cbn [fc_ctl fc_given_up] in *; try done; rewrite ?E1, ?E2; try lia. done.
Qed.

Lemma Abandon_spec s conn now conn' ev : base_ok (sfc s) → base_ok conn →
  highestReceived (sfc s) - bytesRead (sfc s) <= highestReceived conn - bytesRead conn →
  Abandon s conn now = (conn', ev) →
  base_ok conn' ∧ bytesRead conn' = bytesRead conn + (highestReceived (sfc s) - bytesRead (sfc s)) ∧
  highestReceived conn' = highestReceived conn ∧ bytesSent conn' = bytesSent conn.
Proof.
  intros Hs Hc Hle. unfold Abandon, conn_AddBytesRead. rewrite u64_small by (fc_unfold; lia).
  destruct (Z.ltb_spec 0 (highestReceived (sfc s) - bytesRead (sfc s))) as [Hlt|Hge]; intros [= <- <-].
  - apply base_AddBytesRead_spec; [done|]. lia.
  - fc_unfold. lia.
Qed.

(** Streams never read or give up more than they received. *)
Lemma sum_consumed_le m : map_Forall (λ _, fc_stream_ok) m → sum_streams fc_consumed m <= sum_streams fc_received m.
Proof.
  induction m as [|k s m Hk IH] using map_ind; [done|]. intros [(_ & _ & _ & Hs) Hm]%map_Forall_insert; [|done].
  rewrite !sum_insert_new by done. specialize (IH Hm). lia.
Qed.
Lemma fc_room conn m g k h id x : fc_inv (mkFcSys conn m g k h) → m !! id = Some x → fc_received x - fc_consumed x <= highestReceived conn - bytesRead conn.
Proof.
  intros (_ & Hm & Hg & E1 & E2 & _) Hid. cbn [fs_conn fs_streams fs_gone_recv fs_gone_read fs_gone_sent] in *.
  rewrite E1, E2, (sum_delete fc_received m id x Hid), (sum_delete fc_consumed m id x Hid).
  pose proof (sum_consumed_le (delete id m) (map_Forall_delete _ _ _ Hm)). lia.
Qed.

Lemma fc_step_inv σ σ' : fc_step σ σ' → fc_inv σ → fc_inv σ'.
Proof.
  intros Hstep Hinv. pose proof Hinv as (Hc & Hm & Hg & E1 & E2 & E3).
  destruct Hstep as [conn m g k h id rw maxRw sw Hid Hrw Hmx Hsw|conn m g k h id x offset final s' conn' Hid Ho Hu
    |conn m g k h id x n now s' conn' ev Hid Hna Hn Hu|conn m g k h id x now conn' ev Hid Hna Hu|conn m g k h id x Hid
    |conn m g k h id x n s' conn' Hid Hn Hu|conn m g k h id x rtt now s' conn' off Hid Hu
    |conn m g k h rtt now conn' off Hr Hu|conn m g k h off Ho|conn m g k h id x off Hid Ho|conn m g k h|conn m g k h id x Hid];
    cbn [fs_conn fs_streams fs_gone_recv fs_gone_read fs_gone_sent] in *; try pose proof (Hm id x Hid) as (Hs & Hsm & Hgu & Hcr); try pose proof (fc_room _ _ _ _ _ _ _ Hinv Hid) as Hroom.
  - unfold fc_inv; cbn [fs_conn fs_streams fs_gone_recv fs_gone_read fs_gone_sent]. rewrite !sum_insert_new by done.
    change (fc_received (fc_new _)) with 0. change (fc_consumed (fc_new _)) with 0. change (fc_sent (fc_new _)) with 0.
    split_and!; try done; try lia. apply map_Forall_update; [done|].
    unfold fc_stream_ok, fc_consumed, fc_received, fc_new, NewStreamFlowController. cbn [fc_ctl fc_given_up default]. fc_unfold. lia.
  - pose proof (UpdateHighestReceived_spec (fc_ctl x) conn offset final Hs Hc Ho) as Hspec. rewrite Hu in Hspec. cbv zeta in Hspec.
    destruct (_ || _); [by destruct Hspec as [[? ?] _]|]. destruct (Z.ltb_spec (receiveWindow (sfc (fc_ctl x))) offset); [by destruct Hspec as [[? ?] _]|].
    destruct (Z.ltb_spec (receiveWindow conn) (highestReceived conn + (Z.max (highestReceived (sfc (fc_ctl x))) offset - highestReceived (sfc (fc_ctl x)))));
      [by destruct Hspec as [? ?]|]. destruct Hspec as (_ & -> & ->).
    apply (fc_inv_update conn m g k h id x); unfold fc_stream_ok, fc_received, fc_consumed, fc_sent, fc_set, set_highestReceived in *; cbn [fc_ctl fc_given_up] in *; fc_unfold; try done; lia.
  - unfold AddBytesRead, conn_AddBytesRead in Hu. injection Hu as <- <- <-.
    pose proof (base_AddBytesRead_spec (sfc (fc_ctl x)) now n Hs Hn) as (B1&B2&B3&B4). unfold fc_received, fc_consumed in Hroom. rewrite Hna in Hroom. cbn [default] in Hroom.
    pose proof (base_AddBytesRead_spec conn now n Hc ltac:(lia)) as (?&?&?&?).
    apply (fc_inv_update conn m g k h id x); unfold fc_stream_ok, fc_received, fc_consumed, fc_sent, fc_set in *; cbn [fc_ctl fc_given_up sfc set_sfc] in *; rewrite ?Hna, ?B2, ?B3, ?B4 in *; cbn [default] in *; try done; try lia.
    split_and!; done || lia.
  - unfold fc_received, fc_consumed in Hroom. rewrite Hna in Hroom. cbn [default] in Hroom. destruct (Abandon_spec (fc_ctl x) conn now conn' ev Hs Hc ltac:(lia) Hu) as (?&?&?&?).
    apply (fc_inv_update conn m g k h id x); unfold fc_stream_ok, fc_received, fc_consumed, fc_sent in *; cbn [fc_ctl fc_given_up default] in *; rewrite ?Hna in *; cbn [default] in *; try done; try lia.
    all: unfold Datatypes.id; repeat split; done || (fc_unfold; lia).
  - pose proof (sum_delete fc_received m id x Hid). pose proof (sum_delete fc_consumed m id x Hid). pose proof (sum_delete fc_sent m id x Hid).
    assert (0 <= fc_consumed x) by (unfold fc_consumed; fc_unfold; lia).
    unfold fc_inv; cbn [fs_conn fs_streams fs_gone_recv fs_gone_read fs_gone_sent]. split_and!; try done; try lia. by apply map_Forall_delete.
  - unfold AddBytesSent in Hu. injection Hu as <- <-. unfold SendWindowSize, conn_SendWindowSize, MinByteCount in Hn. set (b := sfc (fc_ctl x)) in *.
    pose proof (base_AddBytesSent_spec b n Hs ltac:(destruct (Z.ltb_spec (sendWindowSize b) (sendWindowSize conn)); lia)) as (?&?&?&?).
    pose proof (base_AddBytesSent_spec conn n Hc ltac:(destruct (Z.ltb_spec (sendWindowSize b) (sendWindowSize conn)); lia)) as (?&?&?&?).
    apply (fc_inv_set conn m g k h id x); cbn [sfc set_sfc]; try fold b; try done; lia.
  - destruct (GetWindowUpdate_spec _ _ _ _ _ _ _ Hs Hsm Hc Hu) as (?&?&?&?&?&?&?&?). apply (fc_inv_set conn m g k h id x); try done; lia.
  - unfold conn_GetWindowUpdate in Hu. pose proof (getWindowUpdate_spec conn rtt now Hc Hr) as Hgw. rewrite Hu in Hgw.
    destruct Hgw as (?&?&?&?&_). unfold fc_inv; cbn. split_and!; try done; lia.
  - destruct (UpdateSendWindow_spec conn off Hc Ho) as (?&?&?&?). unfold fc_inv; cbn. split_and!; try done; lia.
  - destruct (UpdateSendWindow_spec (sfc (fc_ctl x)) off Hs Ho) as (?&?&?&?). apply (fc_inv_set conn m g k h id x); cbn [sfc set_sfc]; try done; lia.
  - destruct (IsNewlyBlocked_spec conn Hc) as (?&?&?&?). unfold fc_inv; cbn. split_and!; try done; lia.
  - destruct (IsNewlyBlocked_spec (sfc (fc_ctl x)) Hs) as (?&?&?&?). apply (fc_inv_set conn m g k h id x); cbn [sfc set_sfc]; try done; lia.
Qed.

(** C38: Flow-control accounting.  Starting from a fresh connection, after any
    interleaving of stream opens, receives, reads, sends, window updates, streams that
    go and streams that are abandoned once each, after which they may go on sending and
    receiving, the connection's counters are exactly the sums of its streams' counters,
    an abandoned stream counting as read what it gave up: nothing was received beyond an
    advertised window, nothing was sent beyond a granted one, and no window exceeds its
    maximum.  Abandoning a stream again, as a repeated FIN does, is not among the steps:
    it counts the bytes that were given up a second time. *)
Theorem flow_control_accounting rw maxRw σ :
  0 <= rw <= maxRw → maxRw <= max_window →
  rtc fc_step (mkFcSys (NewConnectionFlowController rw maxRw) ∅ 0 0 0) σ →
  fc_inv σ ∧
  ∀ id x n now, fs_streams σ !! id = Some x → fc_given_up x = Some n →
    bytesRead (Abandon (fc_ctl x) (fs_conn σ) now).1 = u64 (bytesRead (fs_conn σ) + (highestReceived (sfc (fc_ctl x)) - bytesRead (sfc (fc_ctl x)))).
Proof.
  intros Hrw Hmx Hsteps.
  assert (H0 : fc_inv (mkFcSys (NewConnectionFlowController rw maxRw) ∅ 0 0 0)).
  { unfold fc_inv, NewConnectionFlowController; cbn. split_and!; try done. fc_unfold. lia. }
  assert (fc_inv σ) as Hinv.
  { revert H0. induction Hsteps as [|σ1 σ2 σ3 Hstep _ IH]; [done|]. intros H1. apply IH. by eapply fc_step_inv. }
  split; [done|]. intros id x n now Hid _. destruct Hinv as (Hc & Hm & _). destruct (Hm id x Hid) as (Hs & _). unfold Abandon. rewrite u64_small by (fc_unfold; lia).
  destruct (Z.ltb_spec 0 (highestReceived (sfc (fc_ctl x)) - bytesRead (sfc (fc_ctl x)))) as [Hlt|Hge].
  - cbn [conn_AddBytesRead fst]. unfold base_AddBytesRead, startNewAutoTuningEpoch. by destruct (_ =? 0).
  - cbn [fst]. fc_unfold. rewrite u64_small; lia.
Qed.
(** A stream receives ten bytes, is abandoned, and then sends seven. *)
Definition fc_sample_stream : streamFlowController :=
  mkStreamFC (mkBase 7 100 0 0 10 512 512 2048 0 0) 4 true.
Definition fc_sample_sys : fc_sys := mkFcSys (mkBase 7 50 0 10 10 1024 1024 4096 9 0) {[4 := mkFcStream fc_sample_stream (Some 10)]} 0 0 0.
Lemma flow_control_accounting_witness :
  fc_inv fc_sample_sys ∧ bytesRead (Abandon fc_sample_stream (fs_conn fc_sample_sys) 9).1 = 20.
Proof.
  assert (rtc fc_step (mkFcSys (NewConnectionFlowController 1024 4096) ∅ 0 0 0) fc_sample_sys) as Hrun.
  { set (s0 := NewStreamFlowController 4 512 2048 100). set (s1 := mkStreamFC (mkBase 0 100 0 0 10 512 512 2048 0 0) 4 true).
    eapply rtc_l; [eapply (fc_max_data _ ∅ 0 0 0 50); by vm_compute|].
    eapply rtc_l; [eapply (fc_open _ ∅ 0 0 0 4 512 2048 100); [done|lia|unfold max_window; lia|by vm_compute]|].
    eapply rtc_l; [eapply (fc_receive _ _ 0 0 0 4 (fc_new s0) 10 true); [vm_compute; reflexivity|by vm_compute|vm_compute; reflexivity]|].
    eapply rtc_l; [eapply (fc_abandon _ _ 0 0 0 4 (fc_new s1) 9); [vm_compute; reflexivity|reflexivity|vm_compute; reflexivity]|].
    eapply rtc_l; [eapply (fc_send _ _ 0 0 0 4 (mkFcStream s1 (Some 10)) 7); [vm_compute; reflexivity|by vm_compute|vm_compute; reflexivity]|].
    unfold fc_sample_sys. replace {[4 := mkFcStream fc_sample_stream (Some 10)]} with
      (<[4 := fc_set (mkFcStream s1 (Some 10)) fc_sample_stream]> (<[4 := mkFcStream s1 (Some 10)]> (<[4 := fc_set (fc_new s0) s1]> (<[4 := fc_new s0]> (∅ : gmap Z fc_stream)))))
      by (vm_compute; reflexivity). apply rtc_refl. }
  destruct (flow_control_accounting 1024 4096 fc_sample_sys) as [Hinv Hagain]; [lia|unfold max_window; lia|exact Hrun|].
  split; [exact Hinv|]. etransitivity; [apply (Hagain 4 (mkFcStream fc_sample_stream (Some 10)) 10); reflexivity|]. vm_compute. reflexivity.
Defined.

(** Blocked signals.  [IsNewlyBlocked] reports the current limit exactly when
    the controller is blocked there and did not report this limit before; asking
    again without a larger limit from the peer is always false. *)
Theorem is_newly_blocked_once c :
  base_ok c →
  let '(c', (blocked, offset)) := IsNewlyBlocked c in
  (blocked = true ↔ bytesSent c = sendWindow c ∧ lastBlockedAt c ≠ sendWindow c) ∧
  (blocked = true → offset = sendWindow c) ∧
  (∀ off, off <= sendWindow c → (IsNewlyBlocked (UpdateSendWindow c' off)).2 = (false, 0)).
Proof.
  intros H. assert (Hsw : sendWindowSize c = sendWindow c - bytesSent c).
  { unfold sendWindowSize. fc_unfold. destruct (Z.ltb_spec (sendWindow c) (bytesSent c)); [lia|]. apply u64_small; lia. }
  unfold IsNewlyBlocked at 1. rewrite Hsw.
  assert (Hup : ∀ c0 off, off <= sendWindow c0 → UpdateSendWindow c0 off = c0).
  { intros c0 off Ho. unfold UpdateSendWindow. destruct (Z.ltb_spec (sendWindow c0) off); [lia|done]. }
  destruct (negb (sendWindow c - bytesSent c =? 0) || (sendWindow c =? lastBlockedAt c)) eqn:E.
  - split_and!; [split; [done|]|done|].
    + intros [? ?]. destruct (Z.eqb_spec (sendWindow c - bytesSent c) 0), (Z.eqb_spec (sendWindow c) (lastBlockedAt c));
        simpl in E; done || lia.
    + intros off Ho. rewrite Hup by done. unfold IsNewlyBlocked. by rewrite Hsw, E.
  - apply orb_false_iff in E as [E1 E2]. apply negb_false_iff, Z.eqb_eq in E1. apply Z.eqb_neq in E2.
    split_and!; [split; [intros; split; lia|done]|done|].
    intros off Ho. rewrite Hup by done. unfold IsNewlyBlocked. cbn. by rewrite Z.eqb_refl, orb_true_r.
Qed.
Lemma is_newly_blocked_once_witness :
  let c := mkBase 100 100 0 0 0 0 0 0 0 0 in
  (IsNewlyBlocked c).2 = (true, 100) ∧
  (IsNewlyBlocked (UpdateSendWindow (IsNewlyBlocked c).1 100)).2 = (false, 0).
Proof.
  assert (H : base_ok (mkBase 100 100 0 0 0 0 0 0 0 0)) by (fc_unfold; lia).
  intros c. split; [reflexivity|].
  exact (proj2 (proj2 (is_newly_blocked_once c H)) 100 ltac:(simpl; lia)).
Defined.
