(* ===== verification/Congestion.v ===== *)
(** Congestion: package core/congestion.  Proportional rate reduction, hybrid
    slow start, CUBIC and the cubic sender.  Byte counts are uint64, times int64
    nanoseconds, the window arithmetic runs in float32 and [math.Cbrt] in
    float64, every operation rounded on its own (no fused multiply-add). *)

From S2P Require Import Prelude Utils Protocol GoFloat Rtt.

(** * prr_sender.go *)

Record PrrSender := mkPrr {
  bytesSentSinceLoss : Z; bytesDeliveredSinceLoss : Z; ackCountSinceLoss : Z; bytesInFlightBeforeLoss : Z }.
Definition prr_OnPacketSent (p : PrrSender) (sentBytes : Z) : PrrSender :=
  mkPrr (u64 (bytesSentSinceLoss p + sentBytes)) (bytesDeliveredSinceLoss p) (ackCountSinceLoss p) (bytesInFlightBeforeLoss p).
Definition prr_OnPacketLost (p : PrrSender) (priorInFlight : Z) : PrrSender := mkPrr 0 0 0 priorInFlight.
Definition prr_OnPacketAcked (p : PrrSender) (ackedBytes : Z) : PrrSender :=
  mkPrr (bytesSentSinceLoss p) (u64 (bytesDeliveredSinceLoss p + ackedBytes)) (u64 (ackCountSinceLoss p + 1)) (bytesInFlightBeforeLoss p).
Definition prr_CanSend (p : PrrSender) (congestionWindow bytesInFlight slowstartThreshold : Z) : bool :=
  if (bytesSentSinceLoss p =? 0) || (bytesInFlight <? DefaultTCPMSS) then true
  else if bytesInFlight <? congestionWindow then
    bytesSentSinceLoss p <? u64 (bytesDeliveredSinceLoss p + u64 (ackCountSinceLoss p * DefaultTCPMSS))
  else
    u64 (bytesSentSinceLoss p * bytesInFlightBeforeLoss p) <? u64 (bytesDeliveredSinceLoss p * slowstartThreshold).

(** * hybrid_slow_start.go *)

Definition hybridStartLowWindow : Z := 16.
Definition hybridStartMinSamples : Z := 8.
Definition hybridStartDelayFactorExp : Z := 3.
Definition hybridStartDelayMinThresholdUs : Z := 4000.
Definition hybridStartDelayMaxThresholdUs : Z := 16000.

Record HybridSlowStart := mkHSS {
  endPacketNumber : Z; lastSentPacketNumber : Z; started : bool; currentMinRTT : Z; rttSampleCount : Z; hystartFound : bool }.
Definition StartReceiveRound (s : HybridSlowStart) (lastSent : Z) : HybridSlowStart :=
  mkHSS lastSent (lastSentPacketNumber s) true 0 0 (hystartFound s).
Definition IsEndOfRound (s : HybridSlowStart) (ack : Z) : bool := endPacketNumber s <? ack.
(** The increase over the session's minimum that ends slow start. *)
Definition hystart_threshold (minRTT : Z) : Z :=
  let us := Z.shiftr (Z.quot minRTT Microsecond) hybridStartDelayFactorExp in
  let us := MinInt64 us hybridStartDelayMaxThresholdUs in
  i64 (MaxInt64 us hybridStartDelayMinThresholdUs * Microsecond).
Definition ShouldExitSlowStart (s : HybridSlowStart) (latestRTT minRTT congestionWindow : Z) : HybridSlowStart * bool :=
  let s := if negb (started s) then StartReceiveRound s (lastSentPacketNumber s) else s in
  if hystartFound s then (s, true) else
  let count := u32 (rttSampleCount s + 1) in
  let cur := if (count <=? hybridStartMinSamples) && ((currentMinRTT s =? 0) || (latestRTT <? currentMinRTT s))
             then latestRTT else currentMinRTT s in
  let found := (count =? hybridStartMinSamples) && (i64 (minRTT + hystart_threshold minRTT) <? cur) in
  (mkHSS (endPacketNumber s) (lastSentPacketNumber s) (started s) cur count found,
   (hybridStartLowWindow <=? congestionWindow) && found).
Definition hss_OnPacketSent (s : HybridSlowStart) (packetNumber : Z) : HybridSlowStart :=
  mkHSS (endPacketNumber s) packetNumber (started s) (currentMinRTT s) (rttSampleCount s) (hystartFound s).
Definition hss_OnPacketAcked (s : HybridSlowStart) (ackedPacketNumber : Z) : HybridSlowStart :=
  if IsEndOfRound s ackedPacketNumber
  then mkHSS (endPacketNumber s) (lastSentPacketNumber s) false (currentMinRTT s) (rttSampleCount s) (hystartFound s)
  else s.
Definition Restart (s : HybridSlowStart) : HybridSlowStart :=
  mkHSS (endPacketNumber s) (lastSentPacketNumber s) false (currentMinRTT s) (rttSampleCount s) false.

(** * bandwidth.go *)

Definition BytesPerSecond : Z := 8.
Definition BandwidthFromDelta (bytes delta : Z) : outcome Z :=
  if u64 delta =? 0 then Panic "integer divide by zero"
  else Ok (u64 (u64 (bytes * Second) / u64 delta * BytesPerSecond)).

(** * math.Cbrt *)

(** [math.Float64bits] and [math.Float64frombits] of positive normal numbers. *)
Definition Float64bits (x : float) : Z :=
  let e := ulp_exp 53 (fnum x) (fden x) in
  let m := if 0 <=? e then fnum x / (fden x * 2 ^ e) else fnum x * 2 ^ (- e) / fden x in
  (e + 52 + 1023) * 2 ^ 52 + (m - 2 ^ 52).
Definition Float64frombits (b : Z) : float :=
  let e := Z.shiftr b 52 - 1023 - 52 in
  let m := b mod 2 ^ 52 + 2 ^ 52 in
  if 0 <=? e then mkFloat (m * 2 ^ e) 1 else mkFloat m (2 ^ (- e)).
(** A rough cube root from the exponent, a rational step to 23 bits and a Newton step. *)
Definition Cbrt (x : float) : float :=
  if fnum x =? 0 then x else
  let B1 := 715094163 in
  let C := fround 53 (mkFloat 19 35) in let D := fround 53 (mkFloat (-864) 1225) in
  let E := fround 53 (mkFloat 99 70) in let F := fround 53 (mkFloat 45 28) in let G := fround 53 (mkFloat 5 14) in
  let t := Float64frombits (Float64bits x / 3 + Z.shiftl B1 32) in
  let r := f_div 53 (f_mul 53 t t) x in
  let s := f_add 53 C (f_mul 53 r t) in
  let t := f_mul 53 t (f_add 53 G (f_div 53 F (f_add 53 (f_add 53 s E) (f_div 53 D s)))) in
  let t := Float64frombits (Z.land (Float64bits t) (Z.shiftl 0xFFFFFFFFC 28) + Z.shiftl 1 30) in
  let s := f_mul 53 t t in
  let r := f_div 53 x s in
  let w := f_add 53 t t in
  let r := f_div 53 (f_sub 53 r t) (f_add 53 w r) in
  f_add 53 t (f_mul 53 t r).

(** * cubic.go *)

Definition cubeScale : Z := 40.
Definition cubeCongestionWindowScale : Z := 410.
Definition cubeFactor : Z := Z.shiftl 1 cubeScale / cubeCongestionWindowScale / DefaultTCPMSS.
Definition defaultNumConnections : Z := 1.
Definition beta_const : float := fround 24 (mkFloat 7 10).
Definition betaLastMax_const : float := fround 24 (mkFloat 85 100).

Record Cubic := mkCubic {
  cb_numConnections : Z; epoch : Z; lastMaxCongestionWindow : Z; ackedBytesCount : Z;
  estimatedTCPcongestionWindow : Z; originPointCongestionWindow : Z; timeToOriginPoint : Z;
  lastTargetCongestionWindow : Z }.
Definition Reset (c : Cubic) : Cubic := mkCubic (cb_numConnections c) 0 0 0 0 0 0 0.
Definition NewCubic : Cubic := Reset (mkCubic defaultNumConnections 0 0 0 0 0 0 0).

(** [(float32(n) - 1 + b) / float32(n)] *)
Definition n_connection_beta (n : Z) (b : float) : float :=
  f_div 24 (f_add 24 (f_sub 24 (float32_of n) (mkFloat 1 1)) b) (float32_of n).
Definition beta (c : Cubic) : float := n_connection_beta (cb_numConnections c) beta_const.
Definition betaLastMax (c : Cubic) : float := n_connection_beta (cb_numConnections c) betaLastMax_const.
Definition alpha (c : Cubic) : float :=
  let b := beta c in
  let n := float32_of (cb_numConnections c) in
  f_div 24 (f_mul 24 (f_mul 24 (f_mul 24 (mkFloat 3 1) n) n) (f_sub 24 (mkFloat 1 1) b)) (f_add 24 (mkFloat 1 1) b).

Definition set_epoch (c : Cubic) (t : Z) : Cubic :=
  mkCubic (cb_numConnections c) t (lastMaxCongestionWindow c) (ackedBytesCount c) (estimatedTCPcongestionWindow c)
    (originPointCongestionWindow c) (timeToOriginPoint c) (lastTargetCongestionWindow c).
Definition OnApplicationLimited (c : Cubic) : Cubic := set_epoch c 0.

Definition CongestionWindowAfterPacketLoss (c : Cubic) (currentCongestionWindow : Z) : Cubic * Z :=
  let lastMax :=
    if u64 (currentCongestionWindow + DefaultTCPMSS) <? lastMaxCongestionWindow c
    then u64 (f_to_int (f_mul 24 (betaLastMax c) (float32_of currentCongestionWindow)))
    else currentCongestionWindow in
  (mkCubic (cb_numConnections c) 0 lastMax (ackedBytesCount c) (estimatedTCPcongestionWindow c)
     (originPointCongestionWindow c) (timeToOriginPoint c) (lastTargetCongestionWindow c),
   u64 (f_to_int (f_mul 24 (float32_of currentCongestionWindow) (beta c)))).

(** The start of an epoch at the first ACK after a loss. *)
Definition start_epoch (c : Cubic) (ackedBytes currentCongestionWindow eventTime : Z) : Cubic :=
  let '(tto, origin) :=
    if lastMaxCongestionWindow c <=? currentCongestionWindow then (0, currentCongestionWindow)
    else (u32 (f_to_int (Cbrt (float64_of (u64 (cubeFactor * u64 (lastMaxCongestionWindow c - currentCongestionWindow)))))),
          lastMaxCongestionWindow c) in
  mkCubic (cb_numConnections c) eventTime (lastMaxCongestionWindow c) ackedBytes currentCongestionWindow
    origin tto (lastTargetCongestionWindow c).
(** The cubic function at [eventTime + delayMin]. *)
Definition cubic_target (c : Cubic) (delayMin eventTime : Z) : Z :=
  let elapsedTime := Z.quot (i64 (Z.shiftl (Z.quot (time_Sub (eventTime + delayMin) (epoch c)) Microsecond) 10)) (1000 * 1000) in
  let offset := i64 (timeToOriginPoint c - elapsedTime) in
  let offset := if offset <? 0 then i64 (- offset) else offset in
  let cube := i64 (i64 (i64 (cubeCongestionWindowScale * offset) * offset) * offset) in
  let deltaCongestionWindow := Z.shiftr (u64 (u64 cube * DefaultTCPMSS)) cubeScale in
  if timeToOriginPoint c <? elapsedTime
  then u64 (originPointCongestionWindow c + deltaCongestionWindow)
  else u64 (originPointCongestionWindow c - deltaCongestionWindow).
(** The Reno-friendly estimate grows by this much. *)
Definition estimate_increase (c : Cubic) : Z :=
  u64 (f_to_int (f_div 24 (f_mul 24 (f_mul 24 (float32_of (ackedBytesCount c)) (alpha c)) (float32_of DefaultTCPMSS))
                          (float32_of (estimatedTCPcongestionWindow c)))).
Definition CongestionWindowAfterAck (c : Cubic) (ackedBytes currentCongestionWindow delayMin eventTime : Z) : Cubic * Z :=
  let c := mkCubic (cb_numConnections c) (epoch c) (lastMaxCongestionWindow c) (u64 (ackedBytesCount c + ackedBytes))
             (estimatedTCPcongestionWindow c) (originPointCongestionWindow c) (timeToOriginPoint c) (lastTargetCongestionWindow c) in
  let c := if epoch c =? 0 then start_epoch c ackedBytes currentCongestionWindow eventTime else c in
  let target := MinByteCount (cubic_target c delayMin eventTime) (u64 (currentCongestionWindow + ackedBytesCount c / 2)) in
  let estimate := u64 (estimatedTCPcongestionWindow c + estimate_increase c) in
  (mkCubic (cb_numConnections c) (epoch c) (lastMaxCongestionWindow c) 0 estimate
     (originPointCongestionWindow c) (timeToOriginPoint c) target,
   if target <? estimate then estimate else target).
Definition SetNumConnections (c : Cubic) (n : Z) : Cubic :=
  mkCubic n (epoch c) (lastMaxCongestionWindow c) (ackedBytesCount c) (estimatedTCPcongestionWindow c)
    (originPointCongestionWindow c) (timeToOriginPoint c) (lastTargetCongestionWindow c).

(** * cubic_sender.go, stats.go *)

Definition maxBurstBytes : Z := 3 * DefaultTCPMSS.
Definition renoBeta : float := fround 24 (mkFloat 7 10).
Definition defaultMinimumCongestionWindow : Z := 2 * DefaultTCPMSS.
Record connectionStats := mkStats { slowstartPacketsLost : Z; slowstartBytesLost : Z }.

Record cubicSender := mkSender {
  hybridSlowStart : HybridSlowStart; prr : PrrSender; stats : connectionStats; cubic : Cubic;
  noPRR : bool; reno : bool;
  largestSentPacketNumber : Z; largestAckedPacketNumber : Z; largestSentAtLastCutback : Z;
  lastCutbackExitedSlowstart : bool; slowStartLargeReduction : bool;
  congestionWindow : Z; minCongestionWindow : Z; maxCongestionWindow : Z; slowstartThreshold : Z;
  numConnections : Z; numAckedPackets : Z;
  initialCongestionWindow : Z; initialMaxCongestionWindow : Z; minSlowStartExitWindow : Z }.

Definition NewCubicSender (reno : bool) (initialCongestionWindow initialMaxCongestionWindow : Z) : cubicSender :=
  mkSender (mkHSS 0 0 false 0 0 false) (mkPrr 0 0 0 0) (mkStats 0 0) NewCubic false reno
    InvalidPacketNumber InvalidPacketNumber InvalidPacketNumber false false
    initialCongestionWindow defaultMinimumCongestionWindow initialMaxCongestionWindow initialMaxCongestionWindow
    defaultNumConnections 0 initialCongestionWindow initialMaxCongestionWindow 0.

(** Field updates. *)
Definition set_hss (c : cubicSender) (h : HybridSlowStart) : cubicSender :=
  mkSender h (prr c) (stats c) (cubic c) (noPRR c) (reno c) (largestSentPacketNumber c) (largestAckedPacketNumber c)
    (largestSentAtLastCutback c) (lastCutbackExitedSlowstart c) (slowStartLargeReduction c) (congestionWindow c)
    (minCongestionWindow c) (maxCongestionWindow c) (slowstartThreshold c) (numConnections c) (numAckedPackets c)
    (initialCongestionWindow c) (initialMaxCongestionWindow c) (minSlowStartExitWindow c).
Definition set_prr (c : cubicSender) (p : PrrSender) : cubicSender :=
  mkSender (hybridSlowStart c) p (stats c) (cubic c) (noPRR c) (reno c) (largestSentPacketNumber c) (largestAckedPacketNumber c)
    (largestSentAtLastCutback c) (lastCutbackExitedSlowstart c) (slowStartLargeReduction c) (congestionWindow c)
    (minCongestionWindow c) (maxCongestionWindow c) (slowstartThreshold c) (numConnections c) (numAckedPackets c)
    (initialCongestionWindow c) (initialMaxCongestionWindow c) (minSlowStartExitWindow c).
Definition set_largest (c : cubicSender) (sent acked cutback : Z) : cubicSender :=
  mkSender (hybridSlowStart c) (prr c) (stats c) (cubic c) (noPRR c) (reno c) sent acked
    cutback (lastCutbackExitedSlowstart c) (slowStartLargeReduction c) (congestionWindow c)
    (minCongestionWindow c) (maxCongestionWindow c) (slowstartThreshold c) (numConnections c) (numAckedPackets c)
    (initialCongestionWindow c) (initialMaxCongestionWindow c) (minSlowStartExitWindow c).
(** The congestion window, the threshold, the CUBIC state and the Reno counter. *)
Definition set_window (c : cubicSender) (cwnd ssthresh : Z) (cb : Cubic) (acks : Z) : cubicSender :=
  mkSender (hybridSlowStart c) (prr c) (stats c) cb (noPRR c) (reno c) (largestSentPacketNumber c) (largestAckedPacketNumber c)
    (largestSentAtLastCutback c) (lastCutbackExitedSlowstart c) (slowStartLargeReduction c) cwnd
    (minCongestionWindow c) (maxCongestionWindow c) ssthresh (numConnections c) acks
    (initialCongestionWindow c) (initialMaxCongestionWindow c) (minSlowStartExitWindow c).
Definition set_loss (c : cubicSender) (st : connectionStats) (exited : bool) (minExit : Z) : cubicSender :=
  mkSender (hybridSlowStart c) (prr c) st (cubic c) (noPRR c) (reno c) (largestSentPacketNumber c) (largestAckedPacketNumber c)
    (largestSentAtLastCutback c) exited (slowStartLargeReduction c) (congestionWindow c)
    (minCongestionWindow c) (maxCongestionWindow c) (slowstartThreshold c) (numConnections c) (numAckedPackets c)
    (initialCongestionWindow c) (initialMaxCongestionWindow c) minExit.

Definition InRecovery (c : cubicSender) : bool :=
  negb (largestAckedPacketNumber c =? InvalidPacketNumber) && (largestAckedPacketNumber c <=? largestSentAtLastCutback c).
Definition InSlowStart (c : cubicSender) : bool := congestionWindow c <? slowstartThreshold c.

Definition TimeUntilSend (c : cubicSender) (rttStats : RTTStats) (bytesInFlight : Z) : outcome Z :=
  if negb (noPRR c) && InRecovery c && prr_CanSend (prr c) (congestionWindow c) bytesInFlight (slowstartThreshold c)
  then Ok 0
  else
    let d := i64 (u64 (2 * congestionWindow c)) in
    if d =? 0 then Panic "integer divide by zero"
    else Ok (i64 (Z.quot (i64 (smoothedRTT rttStats * DefaultTCPMSS)) d)).
Definition CanSend (c : cubicSender) (bytesInFlight : Z) : bool :=
  if negb (noPRR c) && InRecovery c
  then prr_CanSend (prr c) (congestionWindow c) bytesInFlight (slowstartThreshold c)
  else bytesInFlight <? congestionWindow c.

Definition OnPacketSent (c : cubicSender) (packetNumber bytes : Z) (isRetransmittable : bool) : cubicSender :=
  if negb isRetransmittable then c else
  let c := if InRecovery c then set_prr c (prr_OnPacketSent (prr c) bytes) else c in
  let c := set_largest c packetNumber (largestAckedPacketNumber c) (largestSentAtLastCutback c) in
  set_hss c (hss_OnPacketSent (hybridSlowStart c) packetNumber).

Definition ExitSlowstart (c : cubicSender) : cubicSender :=
  set_window c (congestionWindow c) (congestionWindow c) (cubic c) (numAckedPackets c).
Definition MaybeExitSlowStart (c : cubicSender) (rttStats : RTTStats) : cubicSender :=
  if InSlowStart c then
    let '(h, exit) := ShouldExitSlowStart (hybridSlowStart c) (latestRTT rttStats) (minRTT rttStats) (congestionWindow c / DefaultTCPMSS) in
    let c := set_hss c h in
    if exit then ExitSlowstart c else c
  else c.

Definition isCwndLimited (c : cubicSender) (bytesInFlight : Z) : bool :=
  if congestionWindow c <=? bytesInFlight then true else
  let availableBytes := u64 (congestionWindow c - bytesInFlight) in
  let slowStartLimited := InSlowStart c && (congestionWindow c / 2 <? bytesInFlight) in
  slowStartLimited || (availableBytes <=? maxBurstBytes).
Definition maybeIncreaseCwnd (c : cubicSender) (rttStats : RTTStats) (ackedBytes priorInFlight eventTime : Z) : cubicSender :=
  if negb (isCwndLimited c priorInFlight)
  then set_window c (congestionWindow c) (slowstartThreshold c) (OnApplicationLimited (cubic c)) (numAckedPackets c)
  else if maxCongestionWindow c <=? congestionWindow c then c
  else if InSlowStart c
  then set_window c (u64 (congestionWindow c + DefaultTCPMSS)) (slowstartThreshold c) (cubic c) (numAckedPackets c)
  else if reno c then
    let acks := u64 (numAckedPackets c + 1) in
    if congestionWindow c / DefaultTCPMSS <=? u64 (acks * u64 (numConnections c))
    then set_window c (u64 (congestionWindow c + DefaultTCPMSS)) (slowstartThreshold c) (cubic c) 0
    else set_window c (congestionWindow c) (slowstartThreshold c) (cubic c) acks
  else
    let '(cb, w) := CongestionWindowAfterAck (cubic c) ackedBytes (congestionWindow c) (minRTT rttStats) eventTime in
    set_window c (MinByteCount (maxCongestionWindow c) w) (slowstartThreshold c) cb (numAckedPackets c).
Definition OnPacketAcked (c : cubicSender) (rttStats : RTTStats) (ackedPacketNumber ackedBytes priorInFlight eventTime : Z) : cubicSender :=
  let c := set_largest c (largestSentPacketNumber c) (MaxPacketNumber ackedPacketNumber (largestAckedPacketNumber c)) (largestSentAtLastCutback c) in
  if InRecovery c then
    (if negb (noPRR c) then set_prr c (prr_OnPacketAcked (prr c) ackedBytes) else c)
  else
    let c := maybeIncreaseCwnd c rttStats ackedBytes priorInFlight eventTime in
    if InSlowStart c then set_hss c (hss_OnPacketAcked (hybridSlowStart c) ackedPacketNumber) else c.

Definition RenoBeta (c : cubicSender) : float := n_connection_beta (numConnections c) renoBeta.
Definition add_lost (s : connectionStats) (bytes : Z) : connectionStats :=
  mkStats (i64 (slowstartPacketsLost s + 1)) (u64 (slowstartBytesLost s + bytes)).
Definition OnPacketLost (c : cubicSender) (packetNumber lostBytes priorInFlight : Z) : cubicSender :=
  if packetNumber <=? largestSentAtLastCutback c then
    if lastCutbackExitedSlowstart c then
      let c := set_loss c (add_lost (stats c) lostBytes) (lastCutbackExitedSlowstart c) (minSlowStartExitWindow c) in
      if slowStartLargeReduction c then
        let w := MaxByteCount_of (u64 (congestionWindow c - lostBytes)) (minSlowStartExitWindow c) in
        set_window c w w (cubic c) (numAckedPackets c)
      else c
    else c
  else
  let inSlowStart := InSlowStart c in
  let c := set_loss c (if inSlowStart then mkStats (i64 (slowstartPacketsLost (stats c) + 1)) (slowstartBytesLost (stats c)) else stats c)
             inSlowStart (minSlowStartExitWindow c) in
  let c := if negb (noPRR c) then set_prr c (prr_OnPacketLost (prr c) priorInFlight) else c in
  let '(c, w, cb) :=
    if slowStartLargeReduction c && InSlowStart c then
      (if u64 (2 * initialCongestionWindow c) <=? congestionWindow c
       then set_loss c (stats c) (lastCutbackExitedSlowstart c) (congestionWindow c / 2) else c,
       u64 (congestionWindow c - DefaultTCPMSS), cubic c)
    else if reno c then (c, u64 (f_to_int (f_mul 24 (float32_of (congestionWindow c)) (RenoBeta c))), cubic c)
    else let '(cb, w) := CongestionWindowAfterPacketLoss (cubic c) (congestionWindow c) in (c, w, cb) in
  let w := if w <? minCongestionWindow c then minCongestionWindow c else w in
  let c := set_window c w w cb 0 in
  set_largest c (largestSentPacketNumber c) (largestAckedPacketNumber c) (largestSentPacketNumber c).

Definition BandwidthEstimate (c : cubicSender) (rttStats : RTTStats) : outcome Z :=
  let srtt := smoothedRTT rttStats in
  if srtt =? 0 then Ok 0 else BandwidthFromDelta (congestionWindow c) srtt.
Definition OnRetransmissionTimeout (c : cubicSender) (packetsRetransmitted : bool) : cubicSender :=
  let c := set_largest c (largestSentPacketNumber c) (largestAckedPacketNumber c) InvalidPacketNumber in
  if negb packetsRetransmitted then c else
  let c := set_hss c (Restart (hybridSlowStart c)) in
  set_window c (minCongestionWindow c) (congestionWindow c / 2) (Reset (cubic c)) (numAckedPackets c).
Definition cs_OnConnectionMigration (c : cubicSender) : cubicSender :=
  mkSender (Restart (hybridSlowStart c)) (mkPrr 0 0 0 0) (stats c) (Reset (cubic c)) (noPRR c) (reno c)
    InvalidPacketNumber InvalidPacketNumber InvalidPacketNumber false (slowStartLargeReduction c)
    (initialCongestionWindow c) (minCongestionWindow c) (initialMaxCongestionWindow c) (initialMaxCongestionWindow c)
    (numConnections c) 0 (initialCongestionWindow c) (initialMaxCongestionWindow c) (minSlowStartExitWindow c).
Definition SetSlowStartLargeReduction (c : cubicSender) (enabled : bool) : cubicSender :=
  mkSender (hybridSlowStart c) (prr c) (stats c) (cubic c) (noPRR c) (reno c) (largestSentPacketNumber c) (largestAckedPacketNumber c)
    (largestSentAtLastCutback c) (lastCutbackExitedSlowstart c) enabled (congestionWindow c)
    (minCongestionWindow c) (maxCongestionWindow c) (slowstartThreshold c) (numConnections c) (numAckedPackets c)
    (initialCongestionWindow c) (initialMaxCongestionWindow c) (minSlowStartExitWindow c).
Definition SetNumEmulatedConnections (c : cubicSender) (n : Z) : cubicSender :=
  let n := Max n 1 in
  mkSender (hybridSlowStart c) (prr c) (stats c) (SetNumConnections (cubic c) n) (noPRR c) (reno c) (largestSentPacketNumber c)
    (largestAckedPacketNumber c) (largestSentAtLastCutback c) (lastCutbackExitedSlowstart c) (slowStartLargeReduction c)
    (congestionWindow c) (minCongestionWindow c) (maxCongestionWindow c) (slowstartThreshold c) n (numAckedPackets c)
    (initialCongestionWindow c) (initialMaxCongestionWindow c) (minSlowStartExitWindow c).

(** * Window arithmetic *)

Lemma beta_one c : cb_numConnections c = 1 → beta c = mkFloat 11744051 16777216.
Proof. intros E. unfold beta. rewrite E. vm_compute. done. Qed.
Lemma RenoBeta_one c : numConnections c = 1 → RenoBeta c = mkFloat 11744051 16777216.
Proof. intros E. unfold RenoBeta. rewrite E. vm_compute. done. Qed.
Lemma alpha_one c : cb_numConnections c = 1 → alpha c = mkFloat 8882056 16777216.
Proof. intros E. unfold alpha, beta. rewrite E. vm_compute. done. Qed.

From Stdlib Require Import QArith Qround Lqa.
Local Open Scope Q_scope.

(** Multiplying by the backoff factor loses less than one byte and one part in ten million. *)
Lemma backoff_bounds c : (0 <= c)%Z →
  let w := f_to_int (f_mul 24 (float32_of c) (mkFloat 11744051 16777216)) in
  (0 <= w ∧ 10000000 * w <= 7000001 * c ∧ 6999999 * c < 10000000 * (w + 1))%Z.
Proof.
  intros Hc w. unfold float32_of in w. destruct (f_of_int_near 24 c ltac:(done) Hc) as [P1 [L1 U1]].
  assert (Pb : fpos (mkFloat 11744051 16777216)) by done.
  destruct (f_mul_near 24 (f_of_int 24 c) _ ltac:(done) P1 Pb) as [P2 [L2 U2]].
  destruct (f_to_int_bounds _ P2) as [W0 [W1 W2]]. fold w in W0, W1, W2.
  assert (Eb : fval (mkFloat 11744051 16777216) == 11744051 # 16777216) by reflexivity.
  rewrite Eb in L2, U2. rewrite eps24 in *. assert (Hc' : 0 <= inject_Z c) by (by apply inject_nonneg).
  set (x := fval (f_of_int 24 c)) in *. set (y := fval (f_mul _ _ _)) in *. clearbody w x y.
  split; [done|]. rewrite Zle_Qle, Zlt_Qlt, !inject_Z_mult, inject_Z_plus.
  change (inject_Z 10000000) with 10000000%Q. change (inject_Z 7000001) with 7000001%Q.
  change (inject_Z 6999999) with 6999999%Q. change (inject_Z 1) with 1%Q. split; lra.
Qed.

(** The Reno-friendly estimate never grows by more than what was acknowledged. *)
Lemma estimate_increase_bounds c :
  cb_numConnections c = 1%Z → (0 <= ackedBytesCount c < 2 ^ 60)%Z → (2920 <= estimatedTCPcongestionWindow c)%Z →
  (0 <= estimate_increase c <= ackedBytesCount c)%Z.
Proof.
  intros Hn Ha He. unfold estimate_increase. rewrite (alpha_one c Hn).
  set (A := ackedBytesCount c) in *. set (E := estimatedTCPcongestionWindow c) in *.
  destruct (f_of_int_near 24 A ltac:(done) ltac:(lia)) as [P1 [L1 U1]]. fold float32_of in P1, L1, U1.
  destruct (f_of_int_near 24 E ltac:(done) ltac:(lia)) as [P5 [L5 U5]]. fold float32_of in P5, L5, U5.
  assert (Pa : fpos (mkFloat 8882056 16777216)) by done. assert (Pm : fpos (float32_of DefaultTCPMSS)) by (by vm_compute).
  destruct (f_mul_near 24 (float32_of A) _ ltac:(done) P1 Pa) as [P2 [L2 U2]].
  destruct (f_mul_near 24 _ _ ltac:(done) P2 Pm) as [P3 [L3 U3]].
  assert (E1 : fval (mkFloat 8882056 16777216) == 8882056 # 16777216) by reflexivity.
  assert (E2 : fval (float32_of DefaultTCPMSS) == 1460 # 1) by (vm_compute; reflexivity).
  rewrite E1 in L2, U2. rewrite E2 in L3, U3. rewrite eps24 in *.
  assert (HA : 0 <= inject_Z A) by (apply inject_nonneg; lia).
  assert (HE : 2920 <= inject_Z E) by (change 2920 with (inject_Z 2920); rewrite <- Zle_Qle; lia).
  assert (Hy : 2919 <= fval (float32_of E)) by lra.
  assert (Hyn : (0 < fnum (float32_of E))%Z).
  { destruct (Z.lt_trichotomy (fnum (float32_of E)) 0) as [L|[L|L]]; [destruct P5; lia| |done].
    exfalso. unfold fval in Hy. rewrite L in Hy. unfold Qdiv in Hy. change (inject_Z 0) with 0 in Hy. lra. }
  destruct (f_div_near 24 _ _ ltac:(done) P3 P5 Hyn) as [P4 [L4 U4]]. rewrite eps24 in L4, U4.
  destruct (f_to_int_bounds _ P4) as [W0 [W1 W2]].
  set (r := f_to_int _) in *. set (v := fval (f_div _ _ _)) in *. set (x1 := fval (float32_of A)) in *.
  set (x2 := fval (f_mul 24 (float32_of A) _)) in *. set (x3 := fval (f_mul 24 (f_mul _ _ _) _)) in *.
  set (y := fval (float32_of E)) in *.
  assert (Hx3 : 0 <= x3) by (by apply fval_nonneg).
  assert (Hq : x3 / y <= x3 * (1 # 2919)) by (apply Qle_shift_div_r; [lra|nra]).
  clearbody r v x1 x2 x3 y.
  assert (Hr : (0 <= r <= A)%Z).
  { split; [done|]. rewrite Zle_Qle. lra. }
  rewrite u64_small by lia. done.
Qed.

Local Open Scope Z_scope.

(** * The congestion window stays within its bounds *)

(** [T] is the number of bytes acknowledged so far. *)
Record cs_ok (T : Z) (c : cubicSender) : Prop := mkCsOk {
  co_n : numConnections c = 1; co_cn : cb_numConnections (cubic c) = 1; co_lr : slowStartLargeReduction c = false;
  co_min : minCongestionWindow c = defaultMinimumCongestionWindow; co_max : maxCongestionWindow c = initialMaxCongestionWindow c;
  co_init : defaultMinimumCongestionWindow <= initialCongestionWindow c <= initialMaxCongestionWindow c;
  co_big : initialMaxCongestionWindow c <= 2 ^ 40;
  co_cwnd : defaultMinimumCongestionWindow <= congestionWindow c <= maxCongestionWindow c + DefaultTCPMSS;
  co_acked : ackedBytesCount (cubic c) = 0;
  co_est : epoch (cubic c) ≠ 0 →
    defaultMinimumCongestionWindow <= estimatedTCPcongestionWindow (cubic c) <= maxCongestionWindow c + DefaultTCPMSS + T }.

Inductive cs_op :=
  | CSent (packetNumber bytes : Z) (isRetransmittable : bool)
  | CAcked (rttStats : RTTStats) (packetNumber bytes priorInFlight eventTime : Z)
  | CLost (packetNumber bytes priorInFlight : Z)
  | CMaybeExit (rttStats : RTTStats)
  | CTimeout (packetsRetransmitted : bool)
  | CMigration.
Definition cs_apply (c : cubicSender) (op : cs_op) : cubicSender :=
  match op with
  | CSent pn n r => OnPacketSent c pn n r
  | CAcked rtt pn n prior t => OnPacketAcked c rtt pn n prior t
  | CLost pn n prior => OnPacketLost c pn n prior
  | CMaybeExit rtt => MaybeExitSlowStart c rtt
  | CTimeout r => OnRetransmissionTimeout c r
  | CMigration => cs_OnConnectionMigration c
  end.
Definition acked_bytes (op : cs_op) : Z := match op with CAcked _ _ n _ _ => n | _ => 0 end.
Definition cs_op_ok (op : cs_op) : Prop :=
  match op with CAcked _ _ n _ t => 0 <= n ∧ t ≠ 0 | _ => True end.

Lemma after_ack_bounds T c cb w n cur delayMin t :
  cb_numConnections c = 1 → ackedBytesCount c = 0 → 0 <= n → 0 <= T → T + n < 2 ^ 60 → t ≠ 0 →
  defaultMinimumCongestionWindow <= cur <= 2 ^ 50 →
  (epoch c ≠ 0 → defaultMinimumCongestionWindow <= estimatedTCPcongestionWindow c <= 2 ^ 50 + T) →
  CongestionWindowAfterAck c n cur delayMin t = (cb, w) →
  cb_numConnections cb = 1 ∧ ackedBytesCount cb = 0 ∧ defaultMinimumCongestionWindow <= w
  ∧ estimatedTCPcongestionWindow cb <= Z.max cur (estimatedTCPcongestionWindow c) + n
  ∧ defaultMinimumCongestionWindow <= estimatedTCPcongestionWindow cb
  ∧ (epoch c = 0 → estimatedTCPcongestionWindow cb <= cur + n).
Proof.
  intros Hn Ha H0 HT Hs Ht Hcur He E. unfold CongestionWindowAfterAck in E. rewrite Ha in E.
  rewrite (u64_small (0 + n)) in E by lia.
  set (c1 := if _ =? 0 then _ else _) in E.
  assert (H1 : cb_numConnections c1 = 1 ∧ ackedBytesCount c1 = n
    ∧ estimatedTCPcongestionWindow c1 = if epoch c =? 0 then cur else estimatedTCPcongestionWindow c).
  { unfold c1. cbn [epoch]. destruct (Z.eqb_spec (epoch c) 0); [|cbn; auto with lia].
    unfold start_epoch. destruct (_ <=? _); cbn; auto. }
  destruct H1 as (N1 & A1 & E1). unfold defaultMinimumCongestionWindow, DefaultTCPMSS in *.
  assert (Hest : 2920 <= estimatedTCPcongestionWindow c1 <= 2 ^ 50 + T).
  { rewrite E1. destruct (Z.eqb_spec (epoch c) 0); [lia|]. specialize (He ltac:(done)). lia. }
  pose proof (estimate_increase_bounds c1 N1 ltac:(lia) ltac:(lia)) as Hi. rewrite A1 in Hi.
  injection E as <- <-. cbn [cb_numConnections ackedBytesCount estimatedTCPcongestionWindow].
  rewrite (u64_small (estimatedTCPcongestionWindow c1 + _)) by lia.
  split; [done|]. split; [done|]. rewrite E1 in *. split.
  { match goal with |- _ <= if ?a <? ?b then _ else _ => destruct (Z.ltb_spec a b) end; lia. }
  destruct (Z.eqb_spec (epoch c) 0); lia.
Qed.
Lemma increase_ok T c rtt n prior t : cs_ok T c → 0 <= n → 0 <= T → T + n < 2 ^ 60 → t ≠ 0 →
  cs_ok (T + n) (maybeIncreaseCwnd c rtt n prior t).
Proof.
  intros [H1 H2 H3 H4 H5 H6 H7 H8 H9 H10] Hn HT Hs Ht. unfold maybeIncreaseCwnd.
  assert (H10' : epoch (cubic c) ≠ 0 → defaultMinimumCongestionWindow <= estimatedTCPcongestionWindow (cubic c)
     <= maxCongestionWindow c + DefaultTCPMSS + (T + n)) by (intros Hx; specialize (H10 Hx); lia).
  destruct (negb _); [by split|]. destruct (Z.leb_spec (maxCongestionWindow c) (congestionWindow c)); [by split|].
  unfold defaultMinimumCongestionWindow, DefaultTCPMSS in *.
  destruct (InSlowStart c). { split; cbn; try done. unfold defaultMinimumCongestionWindow, DefaultTCPMSS in *. rewrite u64_small; lia. }
  destruct (reno c).
  { destruct (_ <=? _); split; cbn; try done. unfold defaultMinimumCongestionWindow, DefaultTCPMSS in *. rewrite u64_small; lia. }
  destruct (CongestionWindowAfterAck _ _ _ _ _) as [cb w] eqn:E.
  apply (after_ack_bounds T) in E as (E1 & E2 & E3 & E4 & E5 & E6); try done; unfold defaultMinimumCongestionWindow, DefaultTCPMSS in *;
    [|lia|intros Hx; specialize (H10 Hx); lia].
  split; cbn; try done; unfold defaultMinimumCongestionWindow, DefaultTCPMSS, MinByteCount in *; [zcases; lia|].
  intros _. destruct (Z.eq_dec (epoch (cubic c)) 0) as [Hz|Hz]; [specialize (E6 Hz); lia|specialize (H10 Hz); lia].
Qed.
Lemma loss_ok T c pn n prior : cs_ok T c → cs_ok T (OnPacketLost c pn n prior).
Proof.
  intros [H1 H2 H3 H4 H5 H6 H7 H8 H9 H10]. unfold OnPacketLost. destruct (pn <=? _).
  { destruct (lastCutbackExitedSlowstart c); [|by split]. cbn [slowStartLargeReduction set_loss]. rewrite H3. by split. }
  assert (Hb : ∀ x, 0 <= x → let w := u64 (f_to_int (f_mul 24 (float32_of x) (mkFloat 11744051 16777216))) in
    x <= 2 ^ 50 → 0 <= w <= x).
  { intros x Hx w Hx'. pose proof (backoff_bounds x Hx) as (?&?&?). unfold w. rewrite u64_small; lia. }
  set (c1 := if negb _ then _ else _).
  assert (C1 : InSlowStart c1 = InSlowStart c ∧ slowStartLargeReduction c1 = false ∧ reno c1 = reno c ∧ congestionWindow c1 = congestionWindow c
     ∧ cubic c1 = cubic c ∧ numConnections c1 = 1).
  { unfold c1. destruct (negb _); split_and!; done. }
  destruct C1 as (_ & C2 & C3 & C4 & C5 & C6). rewrite C2. cbn [andb]. rewrite C3, C4, C5.
  assert (Hcw : 0 <= congestionWindow c <= 2 ^ 50) by (unfold defaultMinimumCongestionWindow, DefaultTCPMSS in *; lia).
  specialize (Hb (congestionWindow c) ltac:(lia)). cbv zeta in Hb. specialize (Hb ltac:(lia)).
  assert (Hfin : ∀ w cb, 0 <= w <= congestionWindow c → cb_numConnections cb = 1 → ackedBytesCount cb = 0 →
     (epoch cb ≠ 0 → cb = cubic c) →
     cs_ok T (let w' := if w <? minCongestionWindow c1 then minCongestionWindow c1 else w in
       let c2 := set_window c1 w' w' cb 0 in
       set_largest c2 (largestSentPacketNumber c2) (largestAckedPacketNumber c2) (largestSentPacketNumber c2))).
  { intros w cb Hw Hcb1 Hcb2 Hcb3. assert (Hm : minCongestionWindow c1 = minCongestionWindow c) by (unfold c1; by destruct (negb _)).
    rewrite Hm, H4. unfold c1. destruct (negb (noPRR _)); split; cbn; try done;
      try (destruct (Z.ltb_spec w defaultMinimumCongestionWindow); unfold defaultMinimumCongestionWindow, DefaultTCPMSS in *; lia);
      intros Hx; specialize (Hcb3 Hx); subst cb; by apply H10. }
  destruct (reno c).
  - rewrite (RenoBeta_one c1 C6). apply Hfin; done.
  - unfold CongestionWindowAfterPacketLoss. rewrite (beta_one _ H2). apply Hfin; done.
Qed.
Lemma cs_apply_ok T c op : cs_ok T c → cs_op_ok op → 0 <= T → T + acked_bytes op < 2 ^ 60 → cs_ok (T + acked_bytes op) (cs_apply c op).
Proof.
  intros Hc Hop HT Hs. destruct op as [pn n r|rtt pn n prior t|pn n prior|rtt|r|]; simpl in *; rewrite ?Z.add_0_r.
  - unfold OnPacketSent. destruct Hc. destruct (negb r); [by split|]. destruct (InRecovery c); by split.
  - destruct Hop as [Hn Ht]. unfold OnPacketAcked. set (c0 := set_largest c _ _ _).
    assert (H0 : cs_ok T c0) by (destruct Hc; by split).
    destruct (InRecovery c0).
    + assert (H0' : cs_ok (T + n) c0).
      { destruct H0 as [? ? ? ? ? ? ? ? ? He]. split; try done. intros Hx. specialize (He Hx). lia. }
      destruct (negb _); [|done]. destruct H0'. by split.
    + pose proof (increase_ok T c0 rtt n prior t H0 Hn HT Hs Ht) as H1. destruct (InSlowStart _); [|done]. destruct H1. by split.
  - by apply loss_ok.
  - unfold MaybeExitSlowStart. destruct (InSlowStart c); [|done]. destruct (ShouldExitSlowStart _ _ _ _) as [h b]. destruct Hc. destruct b; by split.
  - unfold OnRetransmissionTimeout. destruct Hc. destruct (negb r); [by split|].
    split; cbn; try done. unfold defaultMinimumCongestionWindow, DefaultTCPMSS in *. lia.
  - destruct Hc. split; cbn; try done. unfold defaultMinimumCongestionWindow, DefaultTCPMSS in *. lia.
Qed.

(** The sender the packet handler uses runs Reno: its window bounds need no
    bound on the number of bytes acknowledged. *)
Definition reno_ok (c : cubicSender) : Prop := cs_ok 0 c ∧ reno c = true.
Lemma increase_reno c rtt n prior t : reno_ok c → reno_ok (maybeIncreaseCwnd c rtt n prior t).
Proof.
  intros [[H1 H2 H3 H4 H5 H6 H7 H8 H9 H10] Hr]. unfold maybeIncreaseCwnd. rewrite Hr.
  destruct (negb _); [by split|]. destruct (Z.leb_spec (maxCongestionWindow c) (congestionWindow c)); [by split|].
  destruct (InSlowStart c); [|destruct (_ <=? _)]; (split; [|done]); split; cbn; try done;
    unfold defaultMinimumCongestionWindow, DefaultTCPMSS in *; rewrite u64_small; lia.
Qed.
Lemma reno_apply c op : reno_ok c → reno_ok (cs_apply c op).
Proof.
  intros Hc. destruct op as [pn n r|rtt pn n prior t|pn n prior|rtt|r|]; simpl.
  2:{ unfold OnPacketAcked. set (c0 := set_largest c _ _ _). assert (H0 : reno_ok c0) by (destruct Hc as [[] Hr]; by split).
      destruct (InRecovery c0); [destruct (negb _); [destruct H0 as [[] Hr]; by split|done]|].
      pose proof (increase_reno c0 rtt n prior t H0) as H1. destruct (InSlowStart _); [destruct H1 as [[] Hr]; by split|done]. }
  all: destruct Hc as [Hc Hr]; split; [|].
  1,3,5,7,9: (match goal with |- cs_ok 0 ?x => idtac end);
    first [exact (cs_apply_ok 0 c (CSent pn n r) Hc I ltac:(lia) ltac:(simpl; lia)) | exact (loss_ok 0 c pn n prior Hc)
      | exact (cs_apply_ok 0 c (CMaybeExit rtt) Hc I ltac:(lia) ltac:(simpl; lia)) | exact (cs_apply_ok 0 c (CTimeout r) Hc I ltac:(lia) ltac:(simpl; lia))
      | exact (cs_apply_ok 0 c CMigration Hc I ltac:(lia) ltac:(simpl; lia))].
  all: unfold OnPacketSent, OnPacketLost, MaybeExitSlowStart, OnRetransmissionTimeout; simpl; rewrite ?Hr; simpl; repeat case_match; simplify_eq; done.
Qed.
Lemma reno_pacing c rtt n : reno_ok c → ∃ d, TimeUntilSend c rtt n = Ok d.
Proof.
  intros [[] _]. unfold TimeUntilSend. destruct (_ && _); [by eauto|]. unfold defaultMinimumCongestionWindow, DefaultTCPMSS in *.
  rewrite u64_small, i64_small by lia. destruct (Z.eqb_spec (2 * congestionWindow c) 0); [lia|by eauto].
Qed.

Definition total_acked (ops : list cs_op) : Z := foldr (λ op n, acked_bytes op + n) 0 ops.
Lemma acked_nonneg op : cs_op_ok op → 0 <= acked_bytes op.
Proof. destruct op; simpl; lia. Qed.
Lemma total_acked_nonneg ops : Forall cs_op_ok ops → 0 <= total_acked ops.
Proof. induction 1 as [|op ops H _ IH]; simpl; [lia|]. apply acked_nonneg in H. lia. Qed.
Lemma cs_run_ok ops : ∀ T c, cs_ok T c → Forall cs_op_ok ops → 0 <= T → T + total_acked ops < 2 ^ 60 →
  cs_ok (T + total_acked ops) (foldl cs_apply c ops).
Proof.
  induction ops as [|op ops IH]; intros T c Hc Hops HT Hs; simpl in *; [by rewrite Z.add_0_r|].
  apply Forall_cons in Hops as [Hop Hops]. pose proof (acked_nonneg _ Hop). pose proof (total_acked_nonneg _ Hops).
  replace (T + (acked_bytes op + total_acked ops)) with (T + acked_bytes op + total_acked ops) by lia.
  apply IH; try lia; [|done]. apply cs_apply_ok; try done; lia.
Qed.
Lemma new_sender_ok reno ic im : defaultMinimumCongestionWindow <= ic <= im → im <= 2 ^ 40 → cs_ok 0 (NewCubicSender reno ic im).
Proof. intros. split; try done; simpl. unfold defaultMinimumCongestionWindow, DefaultTCPMSS in *; lia. Qed.

(** C40: whatever packets are sent, acknowledged (fewer than 2^60 bytes in all)
    and lost, in whatever order, through timeouts, slow-start exits and
    migrations, with CUBIC or Reno: the congestion window never falls below
    two segments, never exceeds the configured maximum by more than one
    segment, and the pacing interval is always defined (no division by zero). *)
Theorem congestion_window_bounded (reno : bool) (ic im : Z) (ops : list cs_op) :
  defaultMinimumCongestionWindow <= ic <= im → im <= 2 ^ 40 →
  Forall cs_op_ok ops → total_acked ops < 2 ^ 60 →
  let c := foldl cs_apply (NewCubicSender reno ic im) ops in
  defaultMinimumCongestionWindow <= congestionWindow c <= im + DefaultTCPMSS
  ∧ ∀ rttStats bytesInFlight, is_ok (TimeUntilSend c rttStats bytesInFlight) = true.
Proof.
  intros Hic Him Hops Hs c.
  pose proof (cs_run_ok ops 0 _ (new_sender_ok reno ic im Hic Him) Hops ltac:(lia) ltac:(lia)) as Hc. fold c in Hc.
  assert (Hinit : initialMaxCongestionWindow c = im).
  { unfold c. clear Hc c Hs Hops. assert (H : ∀ ops c0, initialMaxCongestionWindow (foldl cs_apply c0 ops) = initialMaxCongestionWindow c0);
      [|by rewrite H].
    clear. induction ops as [|op ops IH]; intros c0; [done|]. simpl. rewrite IH. destruct op; simpl;
      unfold OnPacketSent, OnPacketAcked, OnPacketLost, MaybeExitSlowStart, OnRetransmissionTimeout, maybeIncreaseCwnd; simpl;
      repeat case_match; simplify_eq; done. }
  destruct Hc. rewrite co_max0, Hinit in *. split; [done|]. intros rtt n. unfold TimeUntilSend.
  destruct (_ && _); [done|]. unfold defaultMinimumCongestionWindow, DefaultTCPMSS in *.
  rewrite u64_small, i64_small by lia. destruct (Z.eqb_spec (2 * congestionWindow c) 0); [lia|done].
Qed.
Definition sample_rtt : RTTStats := mkRTTStats 30000000 40000000 41000000 5000000 25000000.
Definition sample_cs_ops : list cs_op :=
  [CSent 1 1400 true; CSent 2 1400 true; CMaybeExit sample_rtt; CAcked sample_rtt 1 1400 46000 1000000000;
   CLost 2 1400 45000; CSent 3 1400 true; CAcked sample_rtt 3 1400 46000 1100000000; CTimeout true].
Lemma sample_cs_ops_ok : Forall cs_op_ok sample_cs_ops.
Proof. repeat (constructor; [done|]). constructor. Qed.
Lemma congestion_window_bounded_witness :
  congestionWindow (foldl cs_apply (NewCubicSender false InitialCongestionWindow DefaultMaxCongestionWindow) sample_cs_ops) = 2920
  ∧ ∀ n, is_ok (TimeUntilSend (foldl cs_apply (NewCubicSender false InitialCongestionWindow DefaultMaxCongestionWindow) sample_cs_ops) sample_rtt n) = true.
Proof.
  destruct (congestion_window_bounded false InitialCongestionWindow DefaultMaxCongestionWindow sample_cs_ops
    ltac:(vm_compute; split; discriminate) ltac:(vm_compute; discriminate) sample_cs_ops_ok ltac:(vm_compute; reflexivity)) as [_ H].
  split; [vm_compute; reflexivity|]. intros n. apply H.
Defined.

(** The reaction to a loss.  The first loss of a packet sent after the
    last cutback multiplies the window by 0.7 (to less than a byte and one
    part in ten million), not below two segments, and leaves slow start;
    until a packet sent later is acknowledged, no further loss and no
    acknowledgement changes the window: one cutback per round trip. *)
Theorem one_cutback_per_round (c : cubicSender) (T pn n prior : Z) :
  cs_ok T c → largestSentAtLastCutback c < pn →
  let c' := OnPacketLost c pn n prior in
  (∃ w, congestionWindow c' = Z.max defaultMinimumCongestionWindow w
     ∧ 10000000 * w <= 7000001 * congestionWindow c ∧ 6999999 * congestionWindow c < 10000000 * (w + 1))
  ∧ InSlowStart c' = false
  ∧ (∀ pn' n' prior', pn' <= largestSentPacketNumber c → congestionWindow (OnPacketLost c' pn' n' prior') = congestionWindow c')
  ∧ (∀ rtt pn' n' prior' t', 0 <= pn' → Z.max pn' (largestAckedPacketNumber c) <= largestSentPacketNumber c →
       congestionWindow (OnPacketAcked c' rtt pn' n' prior' t') = congestionWindow c').
Proof.
  intros Hok Hpn c'. destruct Hok as [H1 H2 H3 H4 H5 H6 H7 H8 H9 H10].
  assert (Hcw : 0 <= congestionWindow c <= 2 ^ 50) by (unfold defaultMinimumCongestionWindow, DefaultTCPMSS in *; lia).
  pose proof (backoff_bounds (congestionWindow c) ltac:(lia)) as (B1 & B2 & B3).
  set (w := f_to_int (f_mul 24 (float32_of (congestionWindow c)) (mkFloat 11744051 16777216))) in *.
  assert (Hc' : congestionWindow c' = Z.max defaultMinimumCongestionWindow w ∧ slowstartThreshold c' = congestionWindow c'
    ∧ largestSentAtLastCutback c' = largestSentPacketNumber c ∧ largestAckedPacketNumber c' = largestAckedPacketNumber c
    ∧ slowStartLargeReduction c' = false).
  { unfold c', OnPacketLost. destruct (Z.leb_spec pn (largestSentAtLastCutback c)); [lia|].
    set (c1 := if negb _ then _ else _).
    assert (C1 : slowStartLargeReduction c1 = false ∧ reno c1 = reno c ∧ congestionWindow c1 = congestionWindow c ∧ cubic c1 = cubic c
       ∧ numConnections c1 = 1 ∧ minCongestionWindow c1 = defaultMinimumCongestionWindow
       ∧ largestSentPacketNumber c1 = largestSentPacketNumber c ∧ largestAckedPacketNumber c1 = largestAckedPacketNumber c).
    { unfold c1. destruct (negb _); split_and!; done. }
    destruct C1 as (C2 & C3 & C4 & C5 & C6 & C7 & C8 & C9). rewrite C2. cbn [andb]. rewrite C3, C4, C5, (RenoBeta_one c1 C6).
    unfold CongestionWindowAfterPacketLoss. rewrite (beta_one _ H2). fold w. rewrite (u64_small w) by lia.
    destruct (reno c); cbn; rewrite C2, C7, C8, C9; (split; [|done]); destruct (Z.ltb_spec w defaultMinimumCongestionWindow); lia. }
  clearbody c'. destruct Hc' as (E1 & E2 & E3 & E4 & E5).
  split; [by exists w|]. split; [unfold InSlowStart; rewrite E2; lia|]. split.
  - intros pn' n' prior' Hp. unfold OnPacketLost. rewrite E3. destruct (Z.leb_spec pn' (largestSentPacketNumber c)); [|lia].
    destruct (lastCutbackExitedSlowstart c'); [|done]. cbn [slowStartLargeReduction set_loss]. by rewrite E5.
  - intros rtt pn' n' prior' t' H0 Hp. unfold OnPacketAcked. set (c2 := set_largest c' _ _ _).
    assert (Hr : InRecovery c2 = true).
    { unfold InRecovery, c2. cbn. rewrite E3, E4. unfold MaxPacketNumber, InvalidPacketNumber.
      destruct (Z.ltb_spec (largestAckedPacketNumber c) pn');
        match goal with |- context [?a =? -1] => destruct (Z.eqb_spec a (-1)) end; simpl; try lia. }
    rewrite Hr. by destruct (negb _).
Qed.
Definition sample_sender : cubicSender :=
  foldl cs_apply (NewCubicSender false InitialCongestionWindow DefaultMaxCongestionWindow) [CSent 7 1400 true].
Lemma one_cutback_per_round_witness :
  congestionWindow (OnPacketLost sample_sender 5 1400 40000) = 32704
  ∧ congestionWindow (OnPacketLost (OnPacketLost sample_sender 5 1400 40000) 6 1400 40000) = congestionWindow (OnPacketLost sample_sender 5 1400 40000).
Proof.
  assert (Hok : cs_ok 0 sample_sender).
  { apply (cs_apply_ok 0 _ (CSent 7 1400 true)); [by apply new_sender_ok|done..]. }
  destruct (one_cutback_per_round sample_sender 0 5 1400 40000 Hok ltac:(vm_compute; reflexivity)) as (_ & _ & H & _).
  split; [vm_compute; reflexivity|]. apply H. vm_compute. discriminate.
Defined.

(** The division-free test of PRR decides RFC 6937's formula.  When the
    products fit 64 bits: outside limited transmit, a packet may be sent with
    the window open iff less was sent than delivered plus one segment per
    acknowledgement, and with the window full iff
    ceil(delivered * ssthresh / inFlightAtLoss) - sent is positive. *)
Theorem prr_can_send_formula (p : PrrSender) (cwnd inFlight ssthresh : Z) :
  0 < bytesSentSinceLoss p → DefaultTCPMSS <= inFlight → 0 <= ackCountSinceLoss p → 0 <= bytesDeliveredSinceLoss p →
  0 < bytesInFlightBeforeLoss p → 0 <= ssthresh →
  bytesDeliveredSinceLoss p + ackCountSinceLoss p * DefaultTCPMSS < 2 ^ 64 →
  bytesDeliveredSinceLoss p * ssthresh < 2 ^ 64 → bytesSentSinceLoss p * bytesInFlightBeforeLoss p < 2 ^ 64 →
  prr_CanSend p cwnd inFlight ssthresh = true ↔
    if inFlight <? cwnd
    then bytesSentSinceLoss p < bytesDeliveredSinceLoss p + ackCountSinceLoss p * DefaultTCPMSS
    else 0 < (bytesDeliveredSinceLoss p * ssthresh + bytesInFlightBeforeLoss p - 1) / bytesInFlightBeforeLoss p - bytesSentSinceLoss p.
Proof.
  intros Hs Hf Ha Hd Hb Ht B1 B2 B3. unfold prr_CanSend. unfold DefaultTCPMSS in *.
  destruct (Z.eqb_spec (bytesSentSinceLoss p) 0); [lia|]. destruct (Z.ltb_spec inFlight 1460); [lia|]. simpl.
  destruct (Z.ltb_spec inFlight cwnd).
  - unwrap. apply Z.ltb_lt.
  - rewrite !u64_small by nia. rewrite Z.ltb_lt.
    set (b := bytesInFlightBeforeLoss p) in *. set (d := bytesDeliveredSinceLoss p * ssthresh) in *. set (s := bytesSentSinceLoss p) in *.
    split; intros H1.
    + assert (s + 1 <= (d + b - 1) / b); [|lia]. apply Z.div_le_lower_bound; [lia|]. nia.
    + assert (s + 1 <= (d + b - 1) / b) by lia. pose proof (Z.mul_div_le (d + b - 1) b Hb). nia.
Qed.
Lemma prr_can_send_formula_witness :
  prr_CanSend (mkPrr 5000 8000 4 40000) 20000 30000 28000 = true ∧ 0 < (8000 * 28000 + 40000 - 1) / 40000 - 5000.
Proof.
  split; [vm_compute; reflexivity|].
  apply (prr_can_send_formula (mkPrr 5000 8000 4 40000) 20000 30000 28000);
    try (vm_compute; reflexivity); vm_compute; discriminate.
Defined.

(** * Hybrid slow start *)

(** The RTT samples of one round, in order. *)
Definition hss_round (minRTT cwnd : Z) (s : HybridSlowStart) (samples : list Z) : HybridSlowStart * bool :=
  foldl (λ sb rtt, ShouldExitSlowStart (fst sb) rtt minRTT cwnd) (s, false) samples.
(** All of the first eight samples exceed [limit]. *)
Definition delayed (limit : Z) (samples : list Z) : Prop :=
  hybridStartMinSamples <= len samples ∧ Forall (λ r, limit < r) (take 8 samples).
Definition round_state (limit : Z) (samples : list Z) (sb : HybridSlowStart * bool) : Prop :=
  let s := fst sb in
  started s = true ∧ (hystartFound s = true ↔ delayed limit samples) ∧ snd sb = hystartFound s
  ∧ (hystartFound s = false → rttSampleCount s = len samples
     ∧ currentMinRTT s ∈ take 8 samples ∧ Forall (λ r, currentMinRTT s <= r) (take 8 samples)).

Lemma take8_snoc {A} (l : list A) x :
  take 8 (l ++ [x]) = if len l <? 8 then take 8 l ++ [x] else take 8 l.
Proof.
  destruct (Z.ltb_spec (len l) 8) as [H|H]; unfold len in H.
  - rewrite !take_ge; [done|lia|]. rewrite length_app. simpl. lia.
  - rewrite take_app_le by lia. done.
Qed.
Lemma delayed_snoc limit l r : 8 <= len l → delayed limit (l ++ [r]) ↔ delayed limit l.
Proof.
  intros Hl. unfold delayed. rewrite take8_snoc, len_app. destruct (Z.ltb_spec (len l) 8); [lia|].
  change (len [r]) with 1. unfold hybridStartMinSamples. split; intros [? ?]; (split; [lia|done]).
Qed.
Lemma round_step minRTT cwnd limit l r s b :
  hybridStartLowWindow <= cwnd → limit = i64 (minRTT + hystart_threshold minRTT) →
  Forall (λ r, 0 < r) (l ++ [r]) → len l < 2 ^ 32 - 1 →
  (l = [] ∧ started s = false ∧ hystartFound s = false ∨ l ≠ [] ∧ round_state limit l (s, b)) →
  round_state limit (l ++ [r]) (ShouldExitSlowStart s r minRTT cwnd).
Proof.
  intros Hw Hlim Hpos Hlen Hs. pose proof (len_nonneg l) as Hl0.
  unfold ShouldExitSlowStart. set (s1 := if negb (started s) then _ else s).
  assert (Hs1 : started s1 = true ∧ (hystartFound s1 = true ↔ delayed limit l) ∧ (hystartFound s1 = false → rttSampleCount s1 = len l
     ∧ (l = [] ∧ currentMinRTT s1 = 0 ∨ currentMinRTT s1 ∈ take 8 l ∧ Forall (λ r, currentMinRTT s1 <= r) (take 8 l)))).
  { unfold s1. destruct Hs as [(-> & E1 & E2)|(Hne & R1 & R2 & R3 & R4)].
    - rewrite E1. cbn. split; [done|]. split; [|auto]. rewrite E2. split; [done|]. intros [Hd _]. by vm_compute in Hd.
    - simpl in *. rewrite R1. cbn. split; [done|]. split; [done|]. intros Hf. destruct (R4 Hf) as (?&?&?). auto. }
  clearbody s1. clear Hs s b. destruct Hs1 as (S1 & S2 & S3). destruct (hystartFound s1) eqn:Ef.
  { assert (Hd : delayed limit l) by (by apply S2). split; [done|]. simpl. rewrite Ef. split; [|done].
    rewrite delayed_snoc; [done|]. by destruct Hd. }
  destruct (S3 eq_refl) as [Ec Hc]. unfold round_state. cbn [fst snd started hystartFound rttSampleCount currentMinRTT].
  rewrite Ec, (u32_small (len l + 1)) by lia. split; [done|].
  assert (Hnd : ¬ delayed limit l) by (intros Hd; by apply S2 in Hd).
  set (cur := if _ && _ then r else currentMinRTT s1).
  assert (Hcur : cur ∈ take 8 (l ++ [r]) ∧ Forall (λ x, cur <= x) (take 8 (l ++ [r]))).
  { rewrite take8_snoc. unfold cur, hybridStartMinSamples. destruct (Z.leb_spec (len l + 1) 8); destruct (Z.ltb_spec (len l) 8); try lia; cbn [andb].
    - destruct Hc as [[-> Hc]|[Hin Hall]].
      + rewrite Hc. cbn. split; [constructor|]. constructor; [lia|constructor].
      + assert (0 < currentMinRTT s1).
        { apply Forall_app in Hpos as [Hp _]. rewrite Forall_forall in Hp. apply Hp. rewrite <- (take_drop 8 l). set_solver. }
        destruct (Z.eqb_spec (currentMinRTT s1) 0); [lia|]. cbn [orb]. destruct (Z.ltb_spec r (currentMinRTT s1)).
        * split; [set_solver|]. apply Forall_app. split; [|constructor; [lia|constructor]]. eapply Forall_impl; [done|]. simpl. lia.
        * split; [set_solver|]. apply Forall_app. split; [done|constructor; [lia|constructor]].
    - destruct Hc as [[-> _]|Hc]; [rewrite len_nil in *; lia|done]. }
  clearbody cur. destruct Hcur as [Hin Hall].
  split.
  - rewrite <- Hlim, andb_true_iff, Z.eqb_eq, Z.ltb_lt. unfold hybridStartMinSamples in *. split.
    + intros [E1 E2]. split; [rewrite len_app; change (len [r]) with 1; unfold hybridStartMinSamples; lia|]. eapply Forall_impl; [done|]. simpl. lia.
    + intros Hd. destruct (Z.lt_ge_cases (len l) 8) as [L|L]; [|by apply delayed_snoc in Hd].
      destruct Hd as [D1 D2]. rewrite len_app in D1. change (len [r]) with 1 in D1. unfold hybridStartMinSamples in D1.
      split; [lia|]. rewrite Forall_forall in D2. by apply D2.
  - split; [destruct (Z.leb_spec hybridStartLowWindow cwnd); [done|lia]|]. intros _. rewrite len_app. done.
Qed.
Lemma hss_round_snoc minRTT cwnd s l r :
  hss_round minRTT cwnd s (l ++ [r]) = ShouldExitSlowStart (fst (hss_round minRTT cwnd s l)) r minRTT cwnd.
Proof. unfold hss_round. by rewrite foldl_app. Qed.

(** Hybrid slow start.  In a round that begins with a sender still in slow
    start and a window of at least 16 packets, slow start is left exactly when
    eight RTT samples have been taken and every one of the first eight exceeds
    the session's minimum by more than an eighth of it, clamped to 4 to 16
    milliseconds. *)
Theorem hystart_detects (minRTT cwnd : Z) (s : HybridSlowStart) (samples : list Z) :
  started s = false → hystartFound s = false → hybridStartLowWindow <= cwnd → 0 <= minRTT < 2 ^ 62 →
  Forall (λ r, 0 < r) samples → len samples < 2 ^ 32 →
  snd (hss_round minRTT cwnd s samples) = true
    ↔ delayed (minRTT + Z.max (4 * Millisecond) (Z.min (minRTT / Microsecond / 8 * Microsecond) (16 * Millisecond))) samples.
Proof.
  intros Hs1 Hs2 Hw Hm Hpos Hlen. set (limit := minRTT + _).
  assert (Hlim : limit = i64 (minRTT + hystart_threshold minRTT)).
  { unfold limit, hystart_threshold, MinInt64, MaxInt64, hybridStartDelayMaxThresholdUs, hybridStartDelayMinThresholdUs, hybridStartDelayFactorExp,
      Millisecond, Microsecond in *.
    rewrite Z.shiftr_div_pow2, Z.quot_div_nonneg by lia. change (2 ^ 3) with 8.
    set (q := minRTT / 1000 / 8). assert (0 <= q) by (unfold q; apply Z.div_pos; [apply Z.div_pos|]; lia).
    repeat zcase_step; unwrap; lia. }
  assert (H : samples = [] ∧ hss_round minRTT cwnd s samples = (s, false) ∨ samples ≠ [] ∧ round_state limit samples (hss_round minRTT cwnd s samples)).
  { revert Hpos Hlen. induction samples as [|r l IH] using rev_ind; intros Hpos Hlen; [by left|right].
    split; [by destruct l|]. rewrite hss_round_snoc. rewrite len_app in Hlen. change (len [r]) with 1 in Hlen.
    apply Forall_app in Hpos as Hpos'. destruct Hpos' as [Hp _].
    destruct (IH Hp ltac:(lia)) as [(-> & E)|(Hne & E)].
    - rewrite E. apply (round_step minRTT cwnd limit [] r s false); try done. by left.
    - destruct (hss_round minRTT cwnd s l) as [s' b]. eapply round_step; try done; [lia|]. by right. }
  destruct H as [[-> E]|[_ (_ & R2 & R3 & _)]].
  - rewrite E. simpl. split; [done|]. intros [Hd _]. by vm_compute in Hd.
  - rewrite R3. done.
Qed.
Lemma hystart_detects_witness :
  snd (hss_round (32 * Millisecond) 20 (mkHSS 0 9 false 0 0 false) (replicate 9 (37 * Millisecond))) = true.
Proof.
  apply (hystart_detects (32 * Millisecond) 20 (mkHSS 0 9 false 0 0 false) (replicate 9 (37 * Millisecond)));
    try (vm_compute; reflexivity); try (vm_compute; split; [discriminate|reflexivity]); try (vm_compute; discriminate).
  - repeat constructor.
  - split; [vm_compute; discriminate|]. repeat constructor.
Defined.
