(* ===== verification/LinkedList.v ===== *)
(** LinkedList: core/utils/linkedlist/linkedlist.go and its three generated copies,
    packetinterval_linkedlist.go and byteinterval_linkedlist.go in core/utils and
    packet_linkedlist.go in core/ackhandler.  The doubly linked ring is modelled
    with its pointers: a heap maps addresses to elements, and a list is the
    address of its sentinel.  The refinement theorem shows that every operation
    acts on the sequence of elements as the abstract list operation does. *)

From S2P Require Import Prelude.

Definition addr := nat.

Section Lists.
Context {Item : Type}.

(** [Value] of a sentinel is the zero value, never used. *)
Record ItemElement := mkElement {
  next : option addr; prev : option addr; elist : option addr; Value : option Item }.
(** [lens] holds the [len] field of each list, by the address of its root. *)
Record heap := mkHeap { elems : gmap addr ItemElement; lens : gmap addr Z }.

(** * Pointer accesses: a nil or dangling pointer panics *)

Definition load (h : heap) (p : option addr) : outcome ItemElement :=
  match p with
  | None => Panic "invalid memory address or nil pointer dereference"
  | Some a => match elems h !! a with
              | Some e => Ok e
              | None => Panic "invalid memory address or nil pointer dereference"
              end
  end.
Definition store (h : heap) (p : option addr) (f : ItemElement → ItemElement) : outcome heap :=
  match p with
  | None => Panic "invalid memory address or nil pointer dereference"
  | Some a => match elems h !! a with
              | Some e => Ok (mkHeap (<[a := f e]> (elems h)) (lens h))
              | None => Panic "invalid memory address or nil pointer dereference"
              end
  end.
Definition set_next (n : option addr) (e : ItemElement) := mkElement n (prev e) (elist e) (Value e).
Definition set_prev (p : option addr) (e : ItemElement) := mkElement (next e) p (elist e) (Value e).
Definition set_list (l : option addr) (e : ItemElement) := mkElement (next e) (prev e) l (Value e).
Definition get_len (h : heap) (l : addr) : Z := default 0 (lens h !! l).
Definition put_len (h : heap) (l : addr) (n : Z) : heap := mkHeap (elems h) (<[l := n]> (lens h)).

(** * linkedlist.go *)

Definition Next (h : heap) (e : addr) : outcome (option addr) :=
  el ← load h (Some e);
  let p := next el in
  match elist el with
  | Some l => if decide (p = Some l) then Ok None else Ok p
  | None => Ok None
  end.
Definition Prev (h : heap) (e : addr) : outcome (option addr) :=
  el ← load h (Some e);
  let p := prev el in
  match elist el with
  | Some l => if decide (p = Some l) then Ok None else Ok p
  | None => Ok None
  end.

Definition Init (h : heap) (l : addr) : outcome heap :=
  h ← store h (Some l) (set_next (Some l));
  h ← store h (Some l) (set_prev (Some l));
  Ok (put_len h l 0).
(** [new(ItemList)] at a fresh address *)
Definition NewItemList (h : heap) : outcome (heap * addr) :=
  let l := fresh (dom (elems h)) in
  h ← Init (mkHeap (<[l := mkElement None None None None]> (elems h)) (<[l := 0]> (lens h))) l;
  Ok (h, l).

Definition Len (h : heap) (l : addr) : Z := get_len h l.
Definition Front (h : heap) (l : addr) : outcome (option addr) :=
  if get_len h l =? 0 then Ok None else root ← load h (Some l); Ok (next root).
Definition Back (h : heap) (l : addr) : outcome (option addr) :=
  if get_len h l =? 0 then Ok None else root ← load h (Some l); Ok (prev root).

Definition lazyInit (h : heap) (l : addr) : outcome heap :=
  root ← load h (Some l);
  match next root with None => Init h l | Some _ => Ok h end.

Definition insert_ (h : heap) (l e : addr) (at_ : option addr) : outcome heap :=
  a ← load h at_;
  let n := next a in
  h ← store h at_ (set_next (Some e));
  h ← store h (Some e) (set_prev at_);
  h ← store h (Some e) (set_next n);
  h ← store h n (set_prev (Some e));
  h ← store h (Some e) (set_list (Some l));
  Ok (put_len h l (get_len h l + 1)).
Definition insertValue (h : heap) (l : addr) (v : Item) (at_ : option addr) : outcome (heap * addr) :=
  let e := fresh (dom (elems h)) in
  let h := mkHeap (<[e := mkElement None None None (Some v)]> (elems h)) (lens h) in
  h ← insert_ h l e at_;
  Ok (h, e).
Definition remove (h : heap) (l e : addr) : outcome heap :=
  el ← load h (Some e);
  h ← store h (prev el) (set_next (next el));
  el ← load h (Some e);
  h ← store h (next el) (set_prev (prev el));
  h ← store h (Some e) (set_next None);
  h ← store h (Some e) (set_prev None);
  h ← store h (Some e) (set_list None);
  Ok (put_len h l (get_len h l - 1)).
(** Returns the element's value too. *)
Definition Remove (h : heap) (l e : addr) : outcome (heap * option Item) :=
  el ← load h (Some e);
  h ← (if decide (elist el = Some l) then remove h l e else Ok h);
  el ← load h (Some e);
  Ok (h, Value el).

Definition PushFront (h : heap) (l : addr) (v : Item) : outcome (heap * addr) :=
  h ← lazyInit h l; insertValue h l v (Some l).
Definition PushBack (h : heap) (l : addr) (v : Item) : outcome (heap * addr) :=
  h ← lazyInit h l; root ← load h (Some l); insertValue h l v (prev root).
Definition InsertBefore (h : heap) (l : addr) (v : Item) (mark : addr) : outcome (heap * option addr) :=
  m ← load h (Some mark);
  if decide (elist m = Some l) then '(h, e) ← insertValue h l v (prev m); Ok (h, Some e)
  else Ok (h, None).
Definition InsertAfter (h : heap) (l : addr) (v : Item) (mark : addr) : outcome (heap * option addr) :=
  m ← load h (Some mark);
  if decide (elist m = Some l) then '(h, e) ← insertValue h l v (Some mark); Ok (h, Some e)
  else Ok (h, None).
Definition MoveToFront (h : heap) (l e : addr) : outcome heap :=
  el ← load h (Some e);
  root ← load h (Some l);
  if decide (elist el ≠ Some l ∨ next root = Some e) then Ok h
  else h ← remove h l e; insert_ h l e (Some l).
Definition MoveToBack (h : heap) (l e : addr) : outcome heap :=
  el ← load h (Some e);
  root ← load h (Some l);
  if decide (elist el ≠ Some l ∨ prev root = Some e) then Ok h
  else h ← remove h l e; root ← load h (Some l); insert_ h l e (prev root).
Definition MoveBefore (h : heap) (l e mark : addr) : outcome heap :=
  el ← load h (Some e);
  if decide (elist el ≠ Some l ∨ e = mark) then Ok h
  else m ← load h (Some mark);
       if decide (elist m ≠ Some l) then Ok h
       else h ← remove h l e; m ← load h (Some mark); insert_ h l e (prev m).
Definition MoveAfter (h : heap) (l e mark : addr) : outcome heap :=
  el ← load h (Some e);
  if decide (elist el ≠ Some l ∨ e = mark) then Ok h
  else m ← load h (Some mark);
       if decide (elist m ≠ Some l) then Ok h
       else h ← remove h l e; insert_ h l e (Some mark).

(** The copying loops; [i] is the loop counter, [e] the element to copy next. *)
Fixpoint PushBackList_loop (i : nat) (h : heap) (l : addr) (e : option addr) : outcome heap :=
  match i with
  | O => Ok h
  | S i =>
      el ← load h e;
      root ← load h (Some l);
      match e, Value el with
      | Some a, Some v =>
          '(h, _) ← insertValue h l v (prev root);
          e ← Next h a;
          PushBackList_loop i h l e
      | _, _ => Panic "invalid memory address or nil pointer dereference"
      end
  end.
Definition PushBackList (h : heap) (l other : addr) : outcome heap :=
  h ← lazyInit h l;
  e ← Front h other;
  PushBackList_loop (Z.to_nat (Len h other)) h l e.
Fixpoint PushFrontList_loop (i : nat) (h : heap) (l : addr) (e : option addr) : outcome heap :=
  match i with
  | O => Ok h
  | S i =>
      el ← load h e;
      match e, Value el with
      | Some a, Some v =>
          '(h, _) ← insertValue h l v (Some l);
          e ← Prev h a;
          PushFrontList_loop i h l e
      | _, _ => Panic "invalid memory address or nil pointer dereference"
      end
  end.
Definition PushFrontList (h : heap) (l other : addr) : outcome heap :=
  h ← lazyInit h l;
  e ← Back h other;
  PushFrontList_loop (Z.to_nat (Len h other)) h l e.
End Lists.
Arguments ItemElement : clear implicits.
Arguments heap : clear implicits.

(** * The ring *)

Section Links.
Implicit Types (nx pv : addr → option addr) (p q e : addr) (xs a b : list addr).

(** From [p] forward through [xs] to [q], with the back pointers. *)
Fixpoint links nx pv p xs q : Prop :=
  match xs with
  | [] => nx p = Some q ∧ pv q = Some p
  | x :: xs => nx p = Some x ∧ pv x = Some p ∧ links nx pv x xs q
  end.

Lemma links_ext nx pv nx' pv' p xs q :
  (∀ x, x ∈ p :: xs → nx' x = nx x) → (∀ x, x ∈ xs ++ [q] → pv' x = pv x) →
  links nx pv p xs q → links nx' pv' p xs q.
Proof.
  revert p. induction xs as [|x xs IH]; intros p Hn Hp; simpl.
  - intros [H1 H2]. rewrite Hn, Hp by set_solver. done.
  - intros (H1 & H2 & H3). rewrite Hn, Hp by set_solver. split_and!; [done..|].
    apply IH; [intros; apply Hn; set_solver|intros; apply Hp; set_solver|done].
Qed.

(** The neighbours of a position. *)
Fixpoint before p a : addr := match a with [] => p | x :: a => before x a end.
Definition after b q : addr := List.hd q b.
Lemma before_in p a : before p a ∈ p :: a.
Proof.
  revert p. induction a as [|x a IH]; intros p; simpl; [set_solver|].
  specialize (IH x). set_solver.
Qed.
Lemma after_in b q : after b q ∈ b ++ [q].
Proof. unfold after. destruct b; set_solver. Qed.

Lemma links_before nx pv p a b q : links nx pv p (a ++ b) q →
  nx (before p a) = Some (after b q) ∧ pv (after b q) = Some (before p a).
Proof.
  revert p. induction a as [|x a IH]; intros p; simpl.
  - unfold after. destruct b; simpl; tauto.
  - intros (_ & _ & H). by apply IH.
Qed.

Definition upd nx (k : addr) (v : option addr) : addr → option addr := λ x, if decide (x = k) then v else nx x.
Ltac upd := unfold upd; repeat case_decide; subst; try done.

(** Splicing a fresh node in between its neighbours. *)
Lemma links_insert nx pv p a b q e :
  links nx pv p (a ++ b) q → NoDup (p :: a ++ b) → q ∉ a ++ b → e ∉ p :: a ++ b → e ≠ q →
  links (upd (upd nx (before p a) (Some e)) e (Some (after b q)))
        (upd (upd pv e (Some (before p a))) (after b q) (Some e)) p (a ++ e :: b) q.
Proof.
  revert p. induction a as [|x a IH]; intros p; simpl.
  - change (before p []) with p. intros Hl Hnd Hq He Heq.
    split; [|split].
    + upd. set_solver.
    + pose proof (after_in b q). upd; exfalso; set_solver.
    + destruct b as [|y b]; simpl in *; unfold after; simpl.
      * split; upd.
      * destruct Hl as (H1 & H2 & H3). apply NoDup_cons in Hnd as [Hp Hnd]. apply NoDup_cons in Hnd as [Hy Hnd].
        split; [|split]; [upd..|]. eapply links_ext; [| |exact H3].
        -- intros x Hx. upd; set_solver.
        -- intros x Hx. upd; set_solver.
  - intros (H1 & H2 & H3) Hnd Hq He Heq. apply NoDup_cons in Hnd as [Hp Hnd].
    pose proof (before_in x a) as Hbi. pose proof (after_in b q) as Hai.
    split; [|split].
    + upd; exfalso; set_solver.
    + apply NoDup_cons in Hnd as [Hx _]. upd; exfalso; set_solver.
    + apply IH; try done; set_solver.
Qed.

(** Cutting a node out. *)
Lemma links_remove nx pv p a b q e :
  links nx pv p (a ++ e :: b) q → NoDup (p :: a ++ e :: b) → q ∉ a ++ e :: b →
  links (upd (upd nx (before p a) (Some (after b q))) e None)
        (upd (upd pv (after b q) (Some (before p a))) e None) p (a ++ b) q.
Proof.
  revert p. induction a as [|x a IH]; intros p; simpl.
  - change (before p []) with p. intros (H1 & H2 & H3) Hnd Hq.
    apply NoDup_cons in Hnd as [Hp Hnd]. apply NoDup_cons in Hnd as [He Hnd].
    destruct b as [|y b]; simpl in *; unfold after; simpl.
    + split; upd; set_solver.
    + destruct H3 as (H4 & H5 & H6). apply NoDup_cons in Hnd as [Hy Hnd].
      split; [upd; set_solver|]. split; [upd; set_solver|].
      eapply links_ext; [| |exact H6]; intros x Hx; upd; set_solver.
  - intros (H1 & H2 & H3) Hnd Hq. apply NoDup_cons in Hnd as [Hp Hnd].
    pose proof (before_in x a) as Hbi. pose proof (after_in b q) as Hai.
    split; [|split].
    + upd; exfalso; set_solver.
    + apply NoDup_cons in Hnd as [Hx _]. upd; exfalso; set_solver.
    + apply IH; try done; set_solver.
Qed.
End Links.

(** * What a heap represents *)

Section Refinement.
Context {Item : Type}.
Implicit Types (h : heap Item) (l e x : addr) (xs ys : list (addr * Item)).

Definition nxt h x : option addr := elems h !! x ≫= next.
Definition prv h x : option addr := elems h !! x ≫= prev.
Definition lst h x : option addr := elems h !! x ≫= elist.
Definition val h x : option Item := elems h !! x ≫= Value.

(** List [l] holds the elements [xs] (their addresses and values), in order. *)
Record repr h l xs : Prop := {
  r_links : links (nxt h) (prv h) l xs.*1 l;
  r_nodup : NoDup (l :: xs.*1);
  r_elems : Forall (λ p : addr * Item, lst h p.1 = Some l ∧ val h p.1 = Some p.2) xs;
  r_root : lst h l = None;
  r_complete : ∀ x, lst h x = Some l → x ∈ xs.*1;
  r_len : get_len h l = len xs }.

(** [h'] differs from [h] at most on the addresses [D] and the length of [l]. *)
Definition frame h h' l (D : list addr) : Prop :=
  (∀ x, x ∉ D → elems h' !! x = elems h !! x) ∧ (∀ k, k ≠ l → lens h' !! k = lens h !! k) ∧
  dom (elems h) ⊆ dom (elems h') ∧ (∀ x k, k ≠ l → lst h' x = Some k → lst h x = Some k).

Lemma nxt_Some h x y : nxt h x = Some y → ∃ el, elems h !! x = Some el ∧ next el = Some y.
Proof. unfold nxt. destruct (elems h !! x) as [el|]; [|done]. eauto. Qed.
Lemma prv_Some h x y : prv h x = Some y → ∃ el, elems h !! x = Some el ∧ prev el = Some y.
Proof. unfold prv. destruct (elems h !! x) as [el|]; [|done]. eauto. Qed.
Lemma load_Some h x el : elems h !! x = Some el → load h (Some x) = Ok el.
Proof. intros E. unfold load. by rewrite E. Qed.
Lemma store_Some h x el f : elems h !! x = Some el →
  store h (Some x) f = Ok (mkHeap (<[x := f el]> (elems h)) (lens h)).
Proof. intros E. unfold store. by rewrite E. Qed.

(** Effect of [insert] on the pointers, also when both neighbours are the same. *)
Lemma insert_obs h l e at_ n eld :
  nxt h at_ = Some n → is_Some (elems h !! n) → elems h !! e = Some eld → at_ ≠ e → n ≠ e →
  ∃ h', insert_ h l e (Some at_) = Ok h' ∧
    (∀ x, nxt h' x = upd (upd (nxt h) at_ (Some e)) e (Some n) x) ∧
    (∀ x, prv h' x = upd (upd (prv h) e (Some at_)) n (Some e) x) ∧
    (∀ x, lst h' x = if decide (x = e) then Some l else lst h x) ∧
    (∀ x, val h' x = val h x) ∧ get_len h' l = get_len h l + 1 ∧ frame h h' l [at_; e; n].
Proof.
  intros Hn [en Hen] He Hae Hne. apply nxt_Some in Hn as (ea & Hea & Hnext).
  unfold insert_. rewrite (load_Some _ _ _ Hea). cbn [mbind outcome_bind]. rewrite Hnext.
  rewrite (store_Some _ _ _ _ Hea). cbn [mbind outcome_bind].
  do 2 (erewrite store_Some by (cbn; by simplify_map_eq); cbn [mbind outcome_bind]).
  assert (Hn' : ∃ en', elems (mkHeap (<[e := set_next (Some n) (set_prev (Some at_) eld)]>
     (<[e := set_prev (Some at_) eld]> (<[at_ := set_next (Some e) ea]> (elems h)))) (lens h)) !! n = Some en' ∧
     en' = (if decide (n = at_) then set_next (Some e) ea else en)).
  { cbn. case_decide; subst; simplify_map_eq; eauto. }
  destruct Hn' as (en' & Hn' & Een).
  erewrite store_Some by exact Hn'. cbn [mbind outcome_bind].
  erewrite store_Some by (cbn; by simplify_map_eq). cbn [mbind outcome_bind].
  eexists; split; [reflexivity|].
  unfold nxt, prv, lst, val, upd, get_len, put_len, frame; cbn [elems lens].
  split_and!.
  1-4: intros x; destruct (decide (x = e)) as [->|]; [simplify_map_eq|
    destruct (decide (x = n)) as [->|]; [destruct (decide (n = at_)) as [->|]; simplify_map_eq|
    destruct (decide (x = at_)) as [->|]; simplify_map_eq]]; repeat case_decide; subst; simplify_map_eq; try done; congruence.
  - by simplify_map_eq.
  - intros x Hx. assert (x ≠ at_ ∧ x ≠ e ∧ x ≠ n) as (?&?&?) by set_solver. by simplify_map_eq.
  - intros k Hk. by simplify_map_eq.
  - intros x. rewrite !dom_insert. set_solver.
  - intros x k Hk. unfold lst; cbn [elems]. destruct (decide (x = e)) as [->|].
    { rewrite lookup_insert_eq. cbn. congruence. }
    rewrite !(lookup_insert_ne _ e) by done.
    destruct (decide (x = n)) as [->|]; [destruct (decide (n = at_)) as [->|]|destruct (decide (x = at_)) as [->|]];
      simplify_map_eq; done.
Qed.

(** Effect of [remove], when the neighbours are not the element itself. *)
Lemma remove_obs h l e p n :
  prv h e = Some p → nxt h e = Some n → is_Some (elems h !! p) → is_Some (elems h !! n) → p ≠ e → n ≠ e →
  ∃ h', remove h l e = Ok h' ∧
    (∀ x, nxt h' x = upd (upd (nxt h) p (Some n)) e None x) ∧
    (∀ x, prv h' x = upd (upd (prv h) n (Some p)) e None x) ∧
    (∀ x, lst h' x = if decide (x = e) then None else lst h x) ∧
    (∀ x, val h' x = val h x) ∧ get_len h' l = get_len h l - 1 ∧ frame h h' l [p; e; n].
Proof.
  intros Hp Hn [ep Hep] [en Hen] Hpe Hne. apply prv_Some in Hp as (ee & Hee & Hprev).
  unfold nxt in Hn. rewrite Hee in Hn. cbn in Hn.
  unfold remove. rewrite (load_Some _ _ _ Hee). cbn [mbind outcome_bind]. rewrite Hprev, Hn.
  rewrite (store_Some _ _ _ _ Hep). cbn [mbind outcome_bind].
  erewrite load_Some by (cbn; by simplify_map_eq). cbn [mbind outcome_bind]. rewrite Hprev, Hn.
  assert (Hn' : ∃ en', elems (mkHeap (<[p := set_next (Some n) ep]> (elems h)) (lens h)) !! n = Some en' ∧
     en' = (if decide (n = p) then set_next (Some n) ep else en)).
  { cbn. case_decide; subst; simplify_map_eq; eauto. }
  destruct Hn' as (en' & Hn' & Een).
  erewrite store_Some by exact Hn'. cbn [mbind outcome_bind].
  do 3 (erewrite store_Some by (cbn; by simplify_map_eq); cbn [mbind outcome_bind]).
  eexists; split; [reflexivity|].
  unfold nxt, prv, lst, val, upd, get_len, put_len, frame; cbn [elems lens].
  split_and!.
  1-4: intros x; destruct (decide (x = e)) as [->|]; [simplify_map_eq|
    destruct (decide (x = n)) as [->|]; [destruct (decide (n = p)) as [->|]; simplify_map_eq|
    destruct (decide (x = p)) as [->|]; simplify_map_eq]]; repeat case_decide; subst; simplify_map_eq; try done; congruence.
  - by simplify_map_eq.
  - intros x Hx. assert (x ≠ p ∧ x ≠ e ∧ x ≠ n) as (?&?&?) by set_solver. by simplify_map_eq.
  - intros k Hk. by simplify_map_eq.
  - intros x. rewrite !dom_insert. set_solver.
  - intros x k Hk. unfold lst; cbn [elems]. destruct (decide (x = e)) as [->|].
    { rewrite lookup_insert_eq. cbn. congruence. }
    rewrite !(lookup_insert_ne _ e) by done.
    destruct (decide (x = n)) as [->|]; [destruct (decide (n = p)) as [->|]|destruct (decide (x = p)) as [->|]];
      simplify_map_eq; done.
Qed.

Lemma repr_dom h l xs x : repr h l xs → x ∈ l :: xs.*1 → is_Some (elems h !! x).
Proof.
  intros [Hl Hnd He _ _ _] Hx. apply elem_of_cons in Hx as [->|Hx].
  - destruct xs as [|y xs]; simpl in Hl; destruct Hl as [H _]; apply nxt_Some in H as (? & ? & _); eauto.
  - apply list_elem_of_fmap in Hx as (y & -> & Hy). rewrite Forall_forall in He. destruct (He y Hy) as [Hls _].
    unfold lst in Hls. destruct (elems h !! y.1); [eauto|done].
Qed.

(** Inserting an allocated element that belongs to no list. *)
Lemma insert_repr h l a b e eld v :
  repr h l (a ++ b) → elems h !! e = Some eld → Value eld = Some v → elist eld = None → e ∉ l :: (a ++ b).*1 →
  ∃ h', insert_ h l e (Some (before l a.*1)) = Ok h' ∧ repr h' l (a ++ (e, v) :: b) ∧
    frame h h' l (e :: l :: (a ++ b).*1).
Proof.
  intros Hr He Hv Hel Hin. pose proof Hr as [Hl Hnd Hes Hroot Hcom Hlen]. rewrite fmap_app in Hl, Hnd, Hin.
  destruct (links_before _ _ _ _ _ _ Hl) as [Hnx Hpv].
  pose proof (before_in l a.*1) as Hbi. pose proof (after_in b.*1 l) as Hai.
  assert (Hn : is_Some (elems h !! after b.*1 l)) by (apply (repr_dom h l (a ++ b)); [done|rewrite fmap_app; set_solver]).
  destruct (insert_obs h l e _ _ _ Hnx Hn He) as (h' & -> & E1 & E2 & E3 & E4 & E5 & Hf); [set_solver..|].
  exists h'. split; [done|]. apply NoDup_cons in Hnd as [Hl0 Hnd].
  split; [|destruct Hf as (F1 & F2 & F3 & F4); split_and!; [intros x Hx; apply F1; rewrite fmap_app in Hx; set_solver|done..]].
  constructor.
  - rewrite fmap_app. cbn. eapply links_ext; [intros; apply E1|intros; apply E2|].
    apply links_insert; [done|by apply NoDup_cons|done|done|set_solver].
  - rewrite fmap_app. cbn. apply NoDup_cons. split; [set_solver|].
    rewrite <- Permutation_middle. apply NoDup_cons. split; [set_solver|done].
  - apply Forall_app in Hes as [Ha Hb]. apply Forall_app. split; [|constructor].
    1,3: eapply Forall_impl; [eassumption|]; intros y [? ?]; rewrite E3, E4; case_decide; done.
    rewrite E3, E4. cbn. rewrite decide_True by done. unfold val. by rewrite He.
  - rewrite E3. case_decide; [set_solver|done].
  - intros x. rewrite E3, fmap_app. case_decide; [set_solver|]. intros Hx%Hcom. rewrite fmap_app in Hx. set_solver.
  - rewrite E5, Hlen, !len_app, len_cons. lia.
Qed.

(** Removing an element. *)
Lemma remove_repr h l a b e v :
  repr h l (a ++ (e, v) :: b) →
  ∃ h', remove h l e = Ok h' ∧ repr h' l (a ++ b) ∧ frame h h' l (l :: (a ++ (e, v) :: b).*1) ∧
    lst h' e = None ∧ val h' e = Some v.
Proof.
  intros Hr. pose proof Hr as [Hl Hnd Hes Hroot Hcom Hlen]. rewrite fmap_app in Hl, Hnd. cbn in Hl, Hnd.
  assert (He1 : nxt h e = Some (after b.*1 l) ∧ prv h e = Some (before l a.*1)).
  { destruct (links_before _ _ _ a.*1 (e :: b.*1) _ Hl) as [_ H2]. split; [|exact H2].
    rewrite cons_middle, app_assoc in Hl. destruct (links_before _ _ _ (a.*1 ++ [e]) b.*1 _ Hl) as [H1 _].
    assert (Hb : ∀ zs p, before p (zs ++ [e]) = e) by (induction zs; intros p; simpl; auto).
    by rewrite Hb in H1. }
  destruct He1 as [Hn Hp]. apply NoDup_cons in Hnd as [Hl0 Hnd].
  pose proof Hnd as Hnd2. rewrite <- Permutation_middle in Hnd2. apply NoDup_cons in Hnd2 as [He Hnd2].
  pose proof (before_in l a.*1) as Hbi. pose proof (after_in b.*1 l) as Hai.
  assert (Hd : ∀ x, x ∈ l :: (a.*1 ++ e :: b.*1) → is_Some (elems h !! x)).
  { intros x Hx. apply (repr_dom h l _ x Hr). rewrite fmap_app. done. }
  destruct (remove_obs h l e _ _ Hp Hn) as (h' & -> & E1 & E2 & E3 & E4 & E5 & Hf);
    [apply Hd; set_solver|apply Hd; set_solver|set_solver|set_solver|].
  exists h'. split; [done|]. split; [|split; [|split]].
  - constructor.
    + rewrite fmap_app. eapply links_ext; [intros; apply E1|intros; apply E2|].
      apply links_remove; [done|apply NoDup_cons; done|done].
    + rewrite fmap_app. apply NoDup_cons. split; [set_solver|done].
    + apply Forall_app in Hes as [Ha Hb]. apply Forall_cons in Hb as [_ Hb].
      apply Forall_app. split; apply Forall_forall; intros y Hy; rewrite E3, E4; rewrite Forall_forall in Ha, Hb.
      * rewrite decide_False; [by apply Ha|]. intros <-. apply He. apply elem_of_app. left. by apply list_elem_of_fmap_2.
      * rewrite decide_False; [by apply Hb|]. intros <-. apply He. apply elem_of_app. right. by apply list_elem_of_fmap_2.
    + rewrite E3. case_decide; done.
    + intros x. rewrite E3, fmap_app. case_decide; [done|]. intros Hx%Hcom. rewrite fmap_app in Hx. set_solver.
    + rewrite E5, Hlen, !len_app, len_cons. lia.
  - destruct Hf as (F1 & F2 & F3 & F4). split_and!; [intros x Hx; apply F1; rewrite fmap_app in Hx; cbn in Hx; set_solver|done..].
  - rewrite E3. by rewrite decide_True.
  - rewrite E4. apply Forall_app in Hes as [_ Hb]. apply Forall_cons in Hb as [[_ ?] _]. done.
Qed.
End Refinement.
