(* ===== verification/LinkedListSpec.v ===== *)
(** LinkedListSpec: the abstract list operations and the proof that the pointer
    operations of LinkedList refine them, without touching any other list; and the
    instances of the generated copies. *)

From S2P Require Import Prelude LinkedList.

Section Spec.
Context {Item : Type}.
Implicit Types (h : heap Item) (l e x : addr) (xs ys : list (addr * Item)).

Inductive list_op :=
  | OpPushFront (v : Item) | OpPushBack (v : Item)
  | OpInsertBefore (v : Item) (mark : addr) | OpInsertAfter (v : Item) (mark : addr)
  | OpRemove (e : addr) | OpMoveToFront (e : addr) | OpMoveToBack (e : addr)
  | OpMoveBefore (e mark : addr) | OpMoveAfter (e mark : addr).

Definition run_op h l (op : list_op) : outcome (heap Item) :=
  match op with
  | OpPushFront v => r ← PushFront h l v; Ok r.1
  | OpPushBack v => r ← PushBack h l v; Ok r.1
  | OpInsertBefore v m => r ← InsertBefore h l v m; Ok r.1
  | OpInsertAfter v m => r ← InsertAfter h l v m; Ok r.1
  | OpRemove e => r ← Remove h l e; Ok r.1
  | OpMoveToFront e => MoveToFront h l e
  | OpMoveToBack e => MoveToBack h l e
  | OpMoveBefore e m => MoveBefore h l e m
  | OpMoveAfter e m => MoveAfter h l e m
  end.

(** The abstract list: elements in order, found by address. *)
Definition without e xs : list (addr * Item) := filter (λ p, p.1 ≠ e) xs.
Fixpoint insert_at (after_ : bool) (p : addr * Item) (mark : addr) xs : list (addr * Item) :=
  match xs with
  | [] => []
  | q :: xs =>
      if decide (q.1 = mark) then if after_ then q :: p :: xs else p :: q :: xs
      else q :: insert_at after_ p mark xs
  end.
Definition find_elem e xs : option (addr * Item) := head (filter (λ p, p.1 = e) xs).
(** [new] is the address the operation allocates, if it does. *)
Definition abs_op (new : addr) xs (op : list_op) : list (addr * Item) :=
  match op with
  | OpPushFront v => (new, v) :: xs
  | OpPushBack v => xs ++ [(new, v)]
  | OpInsertBefore v m => insert_at false (new, v) m xs
  | OpInsertAfter v m => insert_at true (new, v) m xs
  | OpRemove e => without e xs
  | OpMoveToFront e => match find_elem e xs with Some p => p :: without e xs | None => xs end
  | OpMoveToBack e => match find_elem e xs with Some p => without e xs ++ [p] | None => xs end
  | OpMoveBefore e m =>
      match find_elem e xs, find_elem m xs with
      | Some p, Some _ => if decide (e = m) then xs else insert_at false p m (without e xs)
      | _, _ => xs
      end
  | OpMoveAfter e m =>
      match find_elem e xs, find_elem m xs with
      | Some p, Some _ => if decide (e = m) then xs else insert_at true p m (without e xs)
      | _, _ => xs
      end
  end.
(** The pointers an operation is given point to elements. *)
Definition op_ok h (op : list_op) : Prop :=
  match op with
  | OpPushFront _ | OpPushBack _ => True
  | OpInsertBefore _ m | OpInsertAfter _ m => is_Some (elems h !! m)
  | OpRemove e | OpMoveToFront e | OpMoveToBack e => is_Some (elems h !! e)
  | OpMoveBefore e m | OpMoveAfter e m => is_Some (elems h !! e) ∧ is_Some (elems h !! m)
  end.

(** * Facts about the abstract list *)

Lemma split_elem e xs : e ∈ xs.*1 → ∃ a v b, xs = a ++ (e, v) :: b.
Proof.
  intros H. apply list_elem_of_fmap in H as ([e' v] & -> & H). apply list_elem_of_split in H as (a & b & ->).
  by exists a, v, b.
Qed.
Lemma without_notin e xs : e ∉ xs.*1 → without e xs = xs.
Proof.
  unfold without. induction xs as [|[x v] xs IH]; [done|]. intros H. cbn in H. rewrite filter_cons_True by (cbn; set_solver).
  f_equal. apply IH. set_solver.
Qed.
Lemma without_split e v a b : NoDup (a ++ (e, v) :: b).*1 → without e (a ++ (e, v) :: b) = a ++ b.
Proof.
  intros H. rewrite fmap_app in H. cbn in H. rewrite <- Permutation_middle in H. apply NoDup_cons in H as [He _].
  unfold without. rewrite filter_app, filter_cons_False by (cbn; naive_solver).
  change (filter _ a) with (without e a). change (filter _ b) with (without e b).
  rewrite !without_notin by set_solver. done.
Qed.
Lemma insert_at_split f p e v a b : e ∉ a.*1 →
  insert_at f p e (a ++ (e, v) :: b) = a ++ (if f then (e, v) :: p :: b else p :: (e, v) :: b).
Proof.
  induction a as [|q a IH]; cbn; intros H; [by rewrite decide_True; destruct f|].
  rewrite decide_False by set_solver. by rewrite IH by set_solver.
Qed.
Lemma insert_at_notin f p e xs : e ∉ xs.*1 → insert_at f p e xs = xs.
Proof.
  induction xs as [|q xs IH]; cbn; intros H; [done|]. rewrite decide_False by set_solver. by rewrite IH by set_solver.
Qed.
Lemma find_elem_notin e xs : e ∉ xs.*1 → find_elem e xs = None.
Proof.
  unfold find_elem. induction xs as [|q xs IH]; intros H; [done|]. cbn in H.
  rewrite filter_cons_False by set_solver. apply IH. set_solver.
Qed.
Lemma find_elem_split e v a b : e ∉ a.*1 → find_elem e (a ++ (e, v) :: b) = Some (e, v).
Proof.
  intros H. unfold find_elem. rewrite filter_app. replace (filter (λ p, p.1 = e) a) with (@nil (addr * Item)).
  - by rewrite filter_cons_True.
  - symmetry. induction a as [|q a IH]; [done|]. cbn in H. rewrite filter_cons_False by set_solver. apply IH. set_solver.
Qed.

(** * Framing *)

Lemma frame_trans h1 h2 h3 l D D' : frame h1 h2 l D → frame h2 h3 l D' → frame h1 h3 l (D ++ D').
Proof.
  intros (A1 & A2 & A3 & A4) (B1 & B2 & B3 & B4). split_and!.
  - intros x Hx. rewrite B1, A1 by set_solver. done.
  - intros k Hk. by rewrite B2, A2.
  - set_solver.
  - eauto.
Qed.
(** A list disjoint from the frame keeps its elements. *)
Lemma repr_frame h h' l D l2 ys :
  repr h l2 ys → frame h h' l D → l2 ≠ l → (∀ x, x ∈ D → x ∉ l2 :: ys.*1) → repr h' l2 ys.
Proof.
  intros [Hl Hnd He Hr Hc Hlen] (F1 & F2 & _ & F4) Hne HD.
  assert (Hsame : ∀ x, x ∈ l2 :: ys.*1 → elems h' !! x = elems h !! x).
  { intros x Hx. apply F1. intros Hx'. by apply (HD x). }
  constructor.
  - eapply links_ext; [| |exact Hl]; intros x Hx; unfold nxt, prv; rewrite Hsame; set_solver.
  - done.
  - rewrite Forall_forall in He |- *. intros [x v] Hx. unfold lst, val. cbn.
    rewrite Hsame; [by apply (He (x, v))|]. apply elem_of_cons. right. by apply (list_elem_of_fmap_2 fst _ (x, v)).
  - unfold lst in *. by rewrite Hsame by set_solver.
  - intros x Hx. apply Hc. eauto.
  - unfold get_len in *. by rewrite F2.
Qed.
Lemma repr_disjoint h l l2 xs ys x :
  repr h l xs → repr h l2 ys → l2 ≠ l → x ∈ l :: xs.*1 → x ∉ l2 :: ys.*1.
Proof.
  assert (Hm : ∀ k zs y, repr h k zs → y ∈ k :: zs.*1 → (y = k ∧ lst h y = None) ∨ lst h y = Some k).
  { intros k zs y [_ _ He Hr _ _] Hy. apply elem_of_cons in Hy as [->|Hy]; [by left|]. right.
    apply list_elem_of_fmap in Hy as ([y' v] & -> & Hy). rewrite Forall_forall in He. by apply (He _ Hy). }
  intros H1 H2 Hne Hx Hx'. destruct (Hm l xs x H1 Hx) as [[? ?]|?], (Hm l2 ys x H2 Hx') as [[? ?]|?]; congruence.
Qed.

(** * Operations *)

Lemma lazyInit_repr h l xs : repr h l xs → lazyInit h l = Ok h.
Proof.
  intros [Hl _ _ _ _ _]. unfold lazyInit.
  assert (∃ y, nxt h l = Some y) as [y Hy] by (destruct xs; cbn in Hl; destruct Hl; eauto).
  apply nxt_Some in Hy as (el & He & Hn). rewrite (load_Some _ _ _ He). cbn. by rewrite Hn.
Qed.
Lemma repr_root_prev h l xs : repr h l xs → prv h l = Some (before l xs.*1).
Proof.
  intros [Hl _ _ _ _ _]. rewrite <- (app_nil_r xs.*1) in Hl. by apply links_before in Hl as [_ ?].
Qed.
Lemma repr_member h l xs x el : repr h l xs → elems h !! x = Some el → (elist el = Some l ↔ x ∈ xs.*1).
Proof.
  intros [_ _ He _ Hc _] Hx. split.
  - intros Hl. apply Hc. unfold lst. by rewrite Hx.
  - intros Hin. apply list_elem_of_fmap in Hin as ([y v] & -> & Hin). rewrite Forall_forall in He.
    destruct (He _ Hin) as [Hl _]. unfold lst in Hl. cbn in *. by rewrite Hx in Hl.
Qed.

(** Allocating and inserting, next to the neighbour [before l a]. *)
Lemma insertValue_repr h l a b v :
  repr h l (a ++ b) →
  ∃ h' e, insertValue h l v (Some (before l a.*1)) = Ok (h', e) ∧ e = fresh (dom (elems h)) ∧
    repr h' l (a ++ (e, v) :: b) ∧ frame h h' l (e :: l :: (a ++ b).*1).
Proof.
  intros Hr. unfold insertValue. set (e := fresh (dom (elems h))).
  assert (Hfresh : elems h !! e = None) by (apply not_elem_of_dom, is_fresh).
  set (h1 := mkHeap (<[e := mkElement None None None (Some v)]> (elems h)) (lens h)).
  assert (Hfr : frame h h1 l [e]).
  { split_and!; [|done| |].
    - intros x Hx. cbn. rewrite lookup_insert_ne; [done|set_solver].
    - cbn. rewrite dom_insert. set_solver.
    - intros x k _. unfold lst. cbn. destruct (decide (x = e)) as [->|]; [by rewrite lookup_insert_eq|by rewrite lookup_insert_ne]. }
  assert (Hnot : e ∉ l :: (a ++ b).*1).
  { intros Hin. apply (repr_dom h l _ _ Hr) in Hin as [? Hin]. congruence. }
  assert (Hr1 : repr h1 l (a ++ b)).
  { destruct Hr as [Hl Hnd He Hroot Hc Hlen]. 
    assert (Hsame : ∀ x, x ≠ e → elems h1 !! x = elems h !! x) by (intros x Hx; cbn; by rewrite lookup_insert_ne).
    constructor; try done.
    - eapply links_ext; [| |exact Hl]; intros x Hx; unfold nxt, prv; rewrite Hsame; set_solver.
    - rewrite Forall_forall in He |- *. intros [x w] Hx. unfold lst, val. cbn [fst snd].
      rewrite Hsame; [by apply (He (x, w))|]. intros ->. apply Hnot, elem_of_cons. right. by apply (list_elem_of_fmap_2 fst _ (e, w)).
    - unfold lst in *. rewrite Hsame; [done|set_solver].
    - intros x. unfold lst. destruct (decide (x = e)) as [->|]; [cbn; by rewrite lookup_insert_eq|].
      rewrite Hsame by done. apply Hc. }
  destruct (insert_repr h1 l a b e (mkElement None None None (Some v)) v Hr1) as (h' & -> & Hr' & Hf');
    [by cbn; rewrite lookup_insert_eq|done..|].
  exists h', e. split; [done|]. split; [done|]. split; [done|].
  pose proof (frame_trans _ _ _ _ _ _ Hfr Hf') as (G1 & G2 & G3 & G4). split_and!; try done.
  intros x Hx. apply G1. set_solver.
Qed.

(** What an operation promises: the new sequence, and every other list untouched. *)
Definition refines h l (r : outcome (heap Item)) xs' : Prop :=
  ∃ h', r = Ok h' ∧ repr h' l xs' ∧ ∀ l2 ys, l2 ≠ l → repr h l2 ys → repr h' l2 ys.

Lemma refines_insert h l a b v (r : outcome (heap Item)) :
  repr h l (a ++ b) →
  r = (x ← insertValue h l v (Some (before l a.*1)); Ok x.1) →
  refines h l r (a ++ (fresh (dom (elems h)), v) :: b).
Proof.
  intros Hr ->. destruct (insertValue_repr h l a b v Hr) as (h' & e & -> & -> & Hr' & Hf).
  exists h'. split; [done|]. split; [done|]. intros l2 ys Hne H2. eapply repr_frame; [exact H2|exact Hf|done|].
  intros x Hx. apply elem_of_cons in Hx as [->|Hx].
  - intros Hin. apply (repr_dom h l2 ys _ H2) in Hin. apply (is_fresh (dom (elems h))). by apply elem_of_dom.
  - by apply (repr_disjoint h l l2 (a ++ b) ys).
Qed.
Lemma refines_same h l xs : repr h l xs → refines h l (Ok h) xs.
Proof. intros. exists h. auto. Qed.

Lemma remove_frame h l a b e v : repr h l (a ++ (e, v) :: b) → 
  refines h l (remove h l e) (a ++ b).
Proof.
  intros Hr. destruct (remove_repr h l a b e v Hr) as (h' & -> & Hr' & Hf & _).
  exists h'. split; [done|]. split; [done|]. intros l2 ys Hne H2. eapply repr_frame; [exact H2|exact Hf|done|].
  intros x Hx. by apply (repr_disjoint h l l2 (a ++ (e, v) :: b) ys).
Qed.

(** Moving: cut [e] out of [a ++ e :: b], splice it back in between [c] and [d]. *)
Lemma move_refines h l a b c d e v :
  repr h l (a ++ (e, v) :: b) → a ++ b = c ++ d →
  refines h l (h1 ← remove h l e; insert_ h1 l e (Some (before l c.*1))) (c ++ (e, v) :: d) ∧
  ∃ h1, remove h l e = Ok h1 ∧ repr h1 l (c ++ d).
Proof.
  intros Hr Hcd. destruct (remove_repr h l a b e v Hr) as (h1 & E1 & Hr1 & Hf1 & Hl1 & Hv1). rewrite Hcd in Hr1.
  split; [|exists h1; done]. rewrite E1. cbn [mbind outcome_bind].
  pose proof Hr as [_ Hnd _ _ _ _]. apply NoDup_cons in Hnd as [Hl0 Hnd].
  assert (Hne : e ∉ l :: (c ++ d).*1).
  { rewrite <- Hcd. rewrite fmap_app in *. cbn in *. rewrite <- Permutation_middle in Hnd. apply NoDup_cons in Hnd as [He _]. set_solver. }
  unfold val in Hv1. destruct (elems h1 !! e) as [el|] eqn:Ee; [|done]. cbn in Hv1.
  unfold lst in Hl1. rewrite Ee in Hl1. cbn in Hl1.
  destruct (insert_repr h1 l c d e el v Hr1 Ee Hv1 Hl1 Hne) as (h2 & -> & Hr2 & Hf2).
  exists h2. split; [done|]. split; [done|]. intros l2 ys Hn2 H2.
  eapply repr_frame; [exact H2|exact (frame_trans _ _ _ _ _ _ Hf1 Hf2)|done|].
  intros x Hx. apply (repr_disjoint h l l2 (a ++ (e, v) :: b) ys); try done.
  apply elem_of_app in Hx as [Hx|Hx]; [done|]. rewrite <- Hcd in Hx. rewrite fmap_app in *. cbn in *. set_solver.
Qed.

Lemma split_unique (e : addr) (v v' : Item) a b a' b' :
  a ++ (e, v) :: b = a' ++ (e, v') :: b' → e ∉ a.*1 → e ∉ a'.*1 → a = a' ∧ b = b'.
Proof.
  revert a'. induction a as [|p a IH]; intros [|p' a']; cbn; intros Heq Ha Ha'; injection Heq; intros E1.
  - intros. by subst.
  - intros E2. subst p'. set_solver.
  - intros E2. subst p. set_solver.
  - intros E2. destruct (IH a' E1 ltac:(set_solver) ltac:(set_solver)) as [-> ->]. by subst.
Qed.
Lemma before_snoc l (zs : list addr) e : before l (zs ++ [e]) = e.
Proof. revert l. induction zs as [|z zs IH]; intros l; [done|]. apply IH. Qed.

(** An element of the list, with what surrounds it. *)
Lemma member_split h l xs x el : repr h l xs → elems h !! x = Some el → elist el = Some l →
  ∃ a v b, xs = a ++ (x, v) :: b ∧ (x ∉ a.*1) ∧ (x ∉ b.*1) ∧ x ≠ l ∧
    prev el = Some (before l a.*1) ∧ next el = Some (after b.*1 l) ∧ Value el = Some v.
Proof.
  intros Hr Hx Hm. pose proof Hr as [Hl Hnd He _ _ _]. apply (repr_member _ _ _ _ _ Hr Hx) in Hm.
  destruct (split_elem x xs Hm) as (a & v & b & ->). exists a, v, b. split; [done|].
  rewrite fmap_app in Hl, Hnd. cbn in Hl, Hnd. apply NoDup_cons in Hnd as [Hl0 Hnd].
  rewrite <- Permutation_middle in Hnd. apply NoDup_cons in Hnd as [Hx0 _].
  split; [set_solver|]. split; [set_solver|]. split; [set_solver|].
  destruct (links_before _ _ _ a.*1 (x :: b.*1) _ Hl) as [_ H2]. cbn in H2. unfold prv in H2. rewrite Hx in H2. cbn in H2.
  rewrite cons_middle, app_assoc in Hl. destruct (links_before _ _ _ (a.*1 ++ [x]) b.*1 _ Hl) as [H3 _].
  rewrite before_snoc in H3. unfold nxt in H3. rewrite Hx in H3. cbn in H3.
  split; [done|]. split; [done|]. apply Forall_app in He as [_ He]. apply Forall_cons in He as [[_ Hv] _].
  cbn in Hv. unfold val in Hv. by rewrite Hx in Hv.
Qed.
Lemma nonmember h l xs x el : repr h l xs → elems h !! x = Some el → elist el ≠ Some l → x ∉ xs.*1.
Proof. intros Hr Hx Hm Hin. by apply Hm, (repr_member h l xs x el Hr Hx). Qed.
Lemma repr_nodup h l xs : repr h l xs → NoDup xs.*1.
Proof. intros [_ Hnd _ _ _ _]. by apply NoDup_cons in Hnd as [_ ?]. Qed.
Lemma repr_root h l xs : repr h l xs → ∃ root, elems h !! l = Some root ∧
  prev root = Some (before l xs.*1) ∧ next root = Some (after xs.*1 l).
Proof.
  intros Hr. destruct (repr_dom h l xs l Hr) as [root E]; [set_solver|]. exists root. split; [done|].
  pose proof (repr_root_prev h l xs Hr) as Hp. unfold prv in Hp. rewrite E in Hp. split; [done|].
  destruct Hr as [Hl _ _ _ _ _]. change xs.*1 with ([] ++ xs.*1) in Hl. apply links_before in Hl as [Hn _].
  cbn in Hn. unfold nxt in Hn. by rewrite E in Hn.
Qed.

Lemma push_refines h l xs op :
  repr h l xs → match op with OpPushFront _ | OpPushBack _ => True | _ => False end →
  refines h l (run_op h l op) (abs_op (fresh (dom (elems h))) xs op).
Proof.
  intros Hr Hop. destruct op as [v|v|v m|v m|e|e|e|e m|e m]; try done; cbn [run_op abs_op];
    unfold PushFront, PushBack; rewrite (lazyInit_repr h l xs Hr); cbn [mbind outcome_bind].
  - by apply (refines_insert h l [] xs v).
  - destruct (repr_root h l xs Hr) as (root & E & Hp & _). rewrite (load_Some _ _ _ E). cbn [mbind outcome_bind]. rewrite Hp.
    apply (refines_insert h l xs [] v); [by rewrite app_nil_r|done].
Qed.
Lemma insert_refines h l xs v m :
  repr h l xs → is_Some (elems h !! m) →
  refines h l (run_op h l (OpInsertBefore v m)) (abs_op (fresh (dom (elems h))) xs (OpInsertBefore v m)) ∧
  refines h l (run_op h l (OpInsertAfter v m)) (abs_op (fresh (dom (elems h))) xs (OpInsertAfter v m)).
Proof.
  intros Hr [el E]. cbn [run_op abs_op]. unfold InsertBefore, InsertAfter. rewrite (load_Some _ _ _ E). cbn [mbind outcome_bind].
  case_decide as D.
  - destruct (member_split h l xs m el Hr E D) as (a & w & b & -> & Ha & Hb & _ & Hp & _).
    rewrite !insert_at_split by done. rewrite Hp. split.
    + apply (refines_insert h l a ((m, w) :: b) v); [done|]. by destruct (insertValue _ _ _ _) as [[]| |].
    + rewrite cons_middle, app_assoc. apply (refines_insert h l (a ++ [(m, w)]) b v); [by rewrite <- app_assoc|].
      rewrite fmap_app. cbn [fmap list_fmap fst]. rewrite before_snoc. by destruct (insertValue _ _ _ _) as [[]| |].
  - rewrite !insert_at_notin by (by eapply nonmember). split; by apply refines_same.
Qed.
Lemma remove_refines h l xs e :
  repr h l xs → is_Some (elems h !! e) →
  refines h l (run_op h l (OpRemove e)) (abs_op (fresh (dom (elems h))) xs (OpRemove e)) ∧
  ∃ el h', elems h !! e = Some el ∧ Remove h l e = Ok (h', Value el).
Proof.
  intros Hr [el E]. cbn [run_op abs_op]. unfold Remove. rewrite (load_Some _ _ _ E). cbn [mbind outcome_bind].
  case_decide as D.
  - destruct (member_split h l xs e el Hr E D) as (a & w & b & -> & Ha & Hb & _ & Hp & Hn & Hv).
    destruct (remove_frame h l a b e w Hr) as (h' & E' & Hr' & Hf). rewrite without_split by (by apply (repr_nodup h l)).
    destruct (remove_repr h l a b e w Hr) as (h2 & E2 & _ & _ & _ & Hv2). rewrite E' in E2. injection E2 as <-.
    rewrite E'. cbn [mbind outcome_bind]. unfold val in Hv2. destruct (elems h' !! e) as [el'|] eqn:Ee; [|done].
    rewrite (load_Some _ _ _ Ee). cbn in *. split; [exists h'; auto|]. exists el, h'. split; [done|]. by rewrite Hv2, Hv.
  - cbn [mbind outcome_bind]. rewrite (load_Some _ _ _ E). cbn. rewrite without_notin by (by eapply nonmember).
    split; [by apply refines_same|eauto].
Qed.
Lemma move_end_refines h l xs e :
  repr h l xs → is_Some (elems h !! e) →
  refines h l (run_op h l (OpMoveToFront e)) (abs_op (fresh (dom (elems h))) xs (OpMoveToFront e)) ∧
  refines h l (run_op h l (OpMoveToBack e)) (abs_op (fresh (dom (elems h))) xs (OpMoveToBack e)).
Proof.
  intros Hr [el E]. cbn [run_op abs_op]. unfold MoveToFront, MoveToBack. rewrite (load_Some _ _ _ E). cbn [mbind outcome_bind].
  destruct (repr_root h l xs Hr) as (root & Er & Hrp & Hrn). rewrite (load_Some _ _ _ Er). cbn [mbind outcome_bind].
  destruct (decide (elist el = Some l)) as [D|D].
  2:{ rewrite !decide_True by tauto. rewrite find_elem_notin by (by eapply nonmember). split; by apply refines_same. }
  destruct (member_split h l xs e el Hr E D) as (a & w & b & -> & Ha & Hb & Hel & _).
  rewrite find_elem_split by done. rewrite without_split by (by apply (repr_nodup h l)). split.
  - case_decide as D'.
    + destruct D' as [?|D']; [done|]. rewrite Hrn in D'. destruct a as [|[y u] a]; [by apply refines_same|].
      cbn in D'. injection D' as ->. cbn in Ha. set_solver.
    + by apply (move_refines h l a b [] (a ++ b) e w).
  - case_decide as D'.
    + destruct D' as [?|D']; [done|]. rewrite Hrp in D'. injection D' as D'. rewrite fmap_app in D'.
      destruct (decide (b = [])) as [->|Hb0]; [rewrite app_nil_r; by apply refines_same|].
      exfalso. destruct b as [|q b _] using rev_ind; [done|]. cbn in D'. rewrite fmap_app, app_comm_cons, app_assoc in D'.
      cbn in D'. rewrite before_snoc in D'. rewrite fmap_app in Hb. cbn in Hb. set_solver.
    + destruct (move_refines h l a b (a ++ b) [] e w Hr) as [Hm (h1 & E1 & Hr1)]; [by rewrite app_nil_r|].
      rewrite E1 in *. cbn [mbind outcome_bind] in *. rewrite app_nil_r in Hr1.
      destruct (repr_root h1 l _ Hr1) as (root1 & Er1 & Hrp1 & _). rewrite (load_Some _ _ _ Er1). cbn [mbind outcome_bind]. by rewrite Hrp1.
Qed.
Lemma move_mark_refines h l xs e m :
  repr h l xs → is_Some (elems h !! e) → is_Some (elems h !! m) →
  refines h l (run_op h l (OpMoveBefore e m)) (abs_op (fresh (dom (elems h))) xs (OpMoveBefore e m)) ∧
  refines h l (run_op h l (OpMoveAfter e m)) (abs_op (fresh (dom (elems h))) xs (OpMoveAfter e m)).
Proof.
  intros Hr [el E] [ml M]. cbn [run_op abs_op]. unfold MoveBefore, MoveAfter. rewrite (load_Some _ _ _ E). cbn [mbind outcome_bind].
  destruct (decide (elist el = Some l)) as [D|D].
  2:{ rewrite !decide_True by tauto. rewrite find_elem_notin by (by eapply nonmember). split; by apply refines_same. }
  destruct (member_split h l xs e el Hr E D) as (a & w & b & -> & Ha & Hb & Hel & _).
  rewrite find_elem_split by done. destruct (decide (e = m)) as [->|Hem].
  { rewrite !decide_True by tauto. rewrite find_elem_split by done. split; by apply refines_same. }
  rewrite !decide_False by tauto. rewrite (load_Some _ _ _ M). cbn [mbind outcome_bind].
  destruct (decide (elist ml = Some l)) as [Dm|Dm].
  2:{ rewrite !decide_True by done. rewrite (find_elem_notin m) by (by eapply nonmember). split; by apply refines_same. }
  rewrite !decide_False by tauto.
  assert (Hmin : m ∈ (a ++ b).*1).
  { apply (repr_member h l _ m ml Hr M) in Dm. rewrite fmap_app in *. cbn in *. set_solver. }
  destruct (split_elem m _ Hmin) as (c & u & d & Hcd).
  assert (Hmc : m ∉ c.*1).
  { pose proof (repr_nodup h l _ Hr) as Hnd. rewrite fmap_app in Hnd. cbn in Hnd. rewrite <- Permutation_middle in Hnd.
    apply NoDup_cons in Hnd as [_ Hnd]. rewrite <- fmap_app, Hcd, fmap_app in Hnd. cbn in Hnd.
    rewrite <- Permutation_middle in Hnd. apply NoDup_cons in Hnd as [Hnd _]. set_solver. }
  assert (Hfm : ∃ p, find_elem m (a ++ (e, w) :: b) = Some p).
  { destruct (member_split h l _ m ml Hr M Dm) as (a' & u' & b' & -> & Ha' & _). eexists. by apply find_elem_split. }
  destruct Hfm as [pm ->]. rewrite without_split by (by apply (repr_nodup h l)). rewrite Hcd, !insert_at_split by done. split.
  - destruct (move_refines h l a b c ((m, u) :: d) e w Hr Hcd) as [Hm (h1 & E1 & Hr1)].
    rewrite E1 in *. cbn [mbind outcome_bind] in *.
    destruct (repr_dom h1 l _ m Hr1) as [m1 M1]; [rewrite fmap_app; set_solver|].
    assert (D1 : elist m1 = Some l) by (apply (repr_member h1 l _ m m1 Hr1 M1); rewrite fmap_app; set_solver).
    rewrite (load_Some _ _ _ M1). cbn [mbind outcome_bind].
    destruct Hr1 as [Hl1 _ _ _ _ _]. rewrite fmap_app in Hl1. apply links_before in Hl1 as [_ Hp1]. cbn in Hp1.
    unfold prv in Hp1. rewrite M1 in Hp1. cbn in Hp1. by rewrite Hp1.
  - rewrite cons_middle, app_assoc in Hcd. destruct (move_refines h l a b (c ++ [(m, u)]) d e w Hr Hcd) as [Hm _].
    rewrite <- app_assoc in Hm. rewrite fmap_app in Hm. cbn in Hm. by rewrite before_snoc in Hm.
Qed.

(** The linked list refines the mathematical list.  On a heap where list [l]
    holds the sequence [xs], every operation of the package, given pointers to
    existing elements, succeeds without a nil dereference, leaves [l] holding
    exactly the sequence the abstract operation yields (elements of other
    lists are ignored), and leaves every other list as it was. *)
Theorem linked_list_refines h l xs op :
  repr h l xs → op_ok h op →
  refines h l (run_op h l op) (abs_op (fresh (dom (elems h))) xs op).
Proof.
  intros Hr Hop. destruct op; cbn [op_ok] in Hop;
    first [by apply push_refines | by apply insert_refines | by apply remove_refines
          | by apply move_end_refines | destruct Hop; by apply move_mark_refines].
Qed.

(** Traversal.  [Len] is the length; [Front] and [Back] are the ends of the
    sequence or nil; [Next] and [Prev] walk to the neighbours and stop with nil at
    the ends. *)
Theorem linked_list_traversal h l xs :
  repr h l xs →
  Len h l = len xs ∧ Front h l = Ok (head xs.*1) ∧ Back h l = Ok (last xs.*1) ∧
  ∀ a e v b, xs = a ++ (e, v) :: b → Next h e = Ok (head b.*1) ∧ Prev h e = Ok (last a.*1).
Proof.
  intros Hr. destruct (repr_root h l xs Hr) as (root & Er & Hrp & Hrn). pose proof Hr as [_ _ _ _ _ Hlen].
  assert (Hlast : ∀ zs p, zs ≠ [] → last zs = Some (before p zs)).
  { induction zs as [|z zs IH]; intros p Hz; [done|]. destruct zs as [|y zs]; [done|]. exact (IH z ltac:(done)). }
  split; [done|]. unfold Front, Back. rewrite Hlen, (load_Some _ _ _ Er). cbn [mbind outcome_bind].
  rewrite Hrp, Hrn. split_and!.
  - destruct xs as [|[x v] xs]; [done|]. rewrite len_cons. pose proof (len_nonneg xs). destruct (Z.eqb_spec (1 + len xs) 0); [lia|done].
  - destruct xs as [|[x v] xs]; [done|]. rewrite len_cons. pose proof (len_nonneg xs). destruct (Z.eqb_spec (1 + len xs) 0); [lia|].
    by rewrite <- Hlast.
  - intros a e v b ->. destruct (repr_dom h l _ e Hr) as [el E]; [rewrite fmap_app; set_solver|].
    assert (D : elist el = Some l) by (apply (repr_member h l _ e el Hr E); rewrite fmap_app; set_solver).
    pose proof (repr_nodup h l _ Hr) as Hnd. pose proof Hr as [_ Hnd2 _ _ _ _]. apply NoDup_cons in Hnd2 as [Hl0 _].
    destruct (member_split h l _ e el Hr E D) as (a' & v' & b' & Heq & Ha' & Hb' & _ & Hp & Hn & _).
    assert (a' = a ∧ b' = b) as [-> ->].
    { rewrite fmap_app in Hnd. cbn in Hnd. rewrite <- Permutation_middle in Hnd. apply NoDup_cons in Hnd as [He _].
      symmetry in Heq. eapply split_unique; [exact Heq|done|set_solver]. }
    unfold Next, Prev. rewrite (load_Some _ _ _ E). cbn [mbind outcome_bind]. rewrite D, Hp, Hn.
    rewrite fmap_app in Hl0. cbn in Hl0. split.
    + unfold after. destruct b as [|[y u] b]; cbn; case_decide; try done. simplify_eq. set_solver.
    + destruct (decide (a = [])) as [->|Hne]; [cbn; by rewrite decide_True|].
      rewrite (Hlast a.*1 l) by (by destruct a). case_decide as D'; [|done]. injection D' as D'. exfalso.
      pose proof (before_in l a.*1) as Hb. destruct a as [|[y u] a]; [done|]. cbn in *.
      pose proof (before_in y a.*1). set_solver.
Qed.
End Spec.

(** * New lists and a sample *)

Section New.
Context {Item : Type}.
Implicit Types h : heap Item.

(** No element belongs to a list that does not exist. *)
Definition heap_ok h : Prop := ∀ x l, lst h x = Some l → is_Some (elems h !! l).

Lemma NewItemList_repr h : heap_ok h →
  ∃ h' l, NewItemList h = Ok (h', l) ∧ l = fresh (dom (elems h)) ∧ repr h' l [] ∧
    ∀ l2 ys, repr h l2 ys → repr h' l2 ys.
Proof.
  intros Hok. unfold NewItemList. set (l := fresh (dom (elems h))).
  assert (Hfresh : elems h !! l = None) by (apply not_elem_of_dom, is_fresh).
  unfold Init. erewrite store_Some by (cbn; apply lookup_insert_eq). cbn [mbind outcome_bind].
  erewrite store_Some by (cbn; apply lookup_insert_eq). cbn [mbind outcome_bind].
  eexists _, l. split; [reflexivity|]. split; [done|]. split.
  - constructor; unfold nxt, prv, lst, get_len, put_len; cbn [elems lens links fmap list_fmap].
    + by rewrite !lookup_insert_eq.
    + apply NoDup_singleton.
    + constructor.
    + by rewrite lookup_insert_eq.
    + intros x. destruct (decide (x = l)) as [->|]; [by rewrite lookup_insert_eq|].
      rewrite !lookup_insert_ne by done. intros Hx. destruct (Hok x l Hx). congruence.
    + by rewrite lookup_insert_eq.
  - intros l2 ys Hr. assert (Hne : ∀ x, x ∈ l2 :: ys.*1 → x ≠ l).
    { intros x Hx ->. apply (repr_dom h l2 ys _ Hr) in Hx as [? ?]. congruence. }
    eapply (repr_frame h _ l [l]); [exact Hr| |apply Hne; set_solver|].
    + split_and!; cbn.
      * intros x Hx. rewrite !lookup_insert_ne by set_solver. done.
      * intros k Hk. by rewrite !lookup_insert_ne.
      * rewrite !dom_insert. set_solver.
      * intros x k Hk. unfold lst. cbn. destruct (decide (x = l)) as [->|]; [by rewrite lookup_insert_eq|by rewrite !lookup_insert_ne].
    + intros x Hx Hx'. apply (Hne x); [done|set_solver].
Qed.
End New.

Definition empty_heap : heap Z := mkHeap ∅ ∅.
Definition sample_list : heap Z * addr :=
  match (r ← NewItemList empty_heap; let '(h, l) := r in
         r ← PushBack h l 10; r ← PushBack r.1 l 20; r ← PushFront r.1 l 5; Ok (r.1, l)) with
  | Ok r => r | _ => (empty_heap, 0%nat) end.
Lemma sample_list_repr : repr sample_list.1 0%nat [(3%nat, 5); (1%nat, 10); (2%nat, 20)].
Proof.
  constructor.
  - by vm_compute.
  - apply (bool_decide_unpack _). by vm_compute.
  - repeat constructor.
  - by vm_compute.
  - intros x Hx. assert (Hd : x ∈ dom (elems sample_list.1)).
    { apply elem_of_dom. unfold lst in Hx. destruct (elems sample_list.1 !! x); [eauto|done]. }
    assert (x = 0%nat ∨ x = 1%nat ∨ x = 2%nat ∨ x = 3%nat) as Hc.
    { change (dom (elems sample_list.1)) with (dom (elems sample_list.1) : gset nat) in Hd.
      assert (E : (dom (elems sample_list.1) : gset nat) = {[0; 1; 2; 3]}%nat) by (apply (bool_decide_unpack _); by vm_compute).
      rewrite E in Hd. clear -Hd. set_solver. }
    destruct Hc as [-> | [-> | [-> | ->]]]; [by vm_compute in Hx|clear; set_solver..].
  - by vm_compute.
Qed.
Lemma linked_list_refines_witness :
  refines sample_list.1 0%nat (run_op sample_list.1 0%nat (OpMoveBefore 2%nat 3%nat)) [(2%nat, 20); (3%nat, 5); (1%nat, 10)].
Proof.
  refine (linked_list_refines sample_list.1 0%nat [(3%nat, 5); (1%nat, 10); (2%nat, 20)] (OpMoveBefore 2%nat 3%nat) sample_list_repr _).
  split; vm_compute; eauto.
Defined.
Lemma linked_list_traversal_witness :
  Len sample_list.1 0%nat = 3 ∧ Front sample_list.1 0%nat = Ok (Some 3%nat) ∧
  Next sample_list.1 1%nat = Ok (Some 2%nat).
Proof.
  destruct (linked_list_traversal _ _ _ sample_list_repr) as (H1 & H2 & _ & H4).
  split; [exact H1|]. split; [exact H2|]. exact (proj1 (H4 [(3%nat, 5)] 1%nat 10 [(2%nat, 20)] eq_refl)).
Defined.

(** * The generated copies *)

(** packet_interval.go, streamframe_interval.go *)
Record PacketInterval := mkPacketInterval { pi_Start : Z; pi_End : Z }.
Record ByteInterval := mkByteInterval { bi_Start : Z; bi_End : Z }.
#[export] Instance PacketInterval_eq_dec : EqDecision PacketInterval.
Proof. solve_decision. Defined.
#[export] Instance ByteInterval_eq_dec : EqDecision ByteInterval.
Proof. solve_decision. Defined.

(** packetinterval_linkedlist.go *)
Definition PacketIntervalElement := ItemElement PacketInterval.
Definition PacketIntervalList := heap PacketInterval.
Definition NewPacketIntervalList := NewItemList (Item := PacketInterval).
Definition PacketIntervalList_Next := Next (Item := PacketInterval).
Definition PacketIntervalList_Prev := Prev (Item := PacketInterval).
Definition PacketIntervalList_Init := Init (Item := PacketInterval).
Definition PacketIntervalList_Len := Len (Item := PacketInterval).
Definition PacketIntervalList_Front := Front (Item := PacketInterval).
Definition PacketIntervalList_Back := Back (Item := PacketInterval).
Definition PacketIntervalList_lazyInit := lazyInit (Item := PacketInterval).
Definition PacketIntervalList_insert := insert_ (Item := PacketInterval).
Definition PacketIntervalList_insertValue := insertValue (Item := PacketInterval).
Definition PacketIntervalList_remove := remove (Item := PacketInterval).
Definition PacketIntervalList_Remove := Remove (Item := PacketInterval).
Definition PacketIntervalList_PushFront := PushFront (Item := PacketInterval).
Definition PacketIntervalList_PushBack := PushBack (Item := PacketInterval).
Definition PacketIntervalList_InsertBefore := InsertBefore (Item := PacketInterval).
Definition PacketIntervalList_InsertAfter := InsertAfter (Item := PacketInterval).
Definition PacketIntervalList_MoveToFront := MoveToFront (Item := PacketInterval).
Definition PacketIntervalList_MoveToBack := MoveToBack (Item := PacketInterval).
Definition PacketIntervalList_MoveBefore := MoveBefore (Item := PacketInterval).
Definition PacketIntervalList_MoveAfter := MoveAfter (Item := PacketInterval).
Definition PacketIntervalList_PushBackList := PushBackList (Item := PacketInterval).
Definition PacketIntervalList_PushFrontList := PushFrontList (Item := PacketInterval).

(** byteinterval_linkedlist.go *)
Definition ByteIntervalElement := ItemElement ByteInterval.
Definition ByteIntervalList := heap ByteInterval.
Definition NewByteIntervalList := NewItemList (Item := ByteInterval).
Definition ByteIntervalList_Next := Next (Item := ByteInterval).
Definition ByteIntervalList_Prev := Prev (Item := ByteInterval).
Definition ByteIntervalList_Init := Init (Item := ByteInterval).
Definition ByteIntervalList_Len := Len (Item := ByteInterval).
Definition ByteIntervalList_Front := Front (Item := ByteInterval).
Definition ByteIntervalList_Back := Back (Item := ByteInterval).
Definition ByteIntervalList_lazyInit := lazyInit (Item := ByteInterval).
Definition ByteIntervalList_insert := insert_ (Item := ByteInterval).
Definition ByteIntervalList_insertValue := insertValue (Item := ByteInterval).
Definition ByteIntervalList_remove := remove (Item := ByteInterval).
Definition ByteIntervalList_Remove := Remove (Item := ByteInterval).
Definition ByteIntervalList_PushFront := PushFront (Item := ByteInterval).
Definition ByteIntervalList_PushBack := PushBack (Item := ByteInterval).
Definition ByteIntervalList_InsertBefore := InsertBefore (Item := ByteInterval).
Definition ByteIntervalList_InsertAfter := InsertAfter (Item := ByteInterval).
Definition ByteIntervalList_MoveToFront := MoveToFront (Item := ByteInterval).
Definition ByteIntervalList_MoveToBack := MoveToBack (Item := ByteInterval).
Definition ByteIntervalList_MoveBefore := MoveBefore (Item := ByteInterval).
Definition ByteIntervalList_MoveAfter := MoveAfter (Item := ByteInterval).
Definition ByteIntervalList_PushBackList := PushBackList (Item := ByteInterval).
Definition ByteIntervalList_PushFrontList := PushFrontList (Item := ByteInterval).
