(* ===== verification/SentPackets.v ===== *)
(** SentPackets: the sending side of core/ackhandler.  Packet number generator,
    history of sent packets, and the sent packet handler with its three packet
    number spaces, loss detection and probe timeouts.  The callbacks of frames
    are numbered; an operation returns the calls it makes, in order.  Go's
    [error] is an [option goerr] returned with the state reached; nil
    dereferences and panics are [Panic].  Random numbers and the current time
    are arguments. *)

From S2P Require Import Prelude Utils Protocol AckFrame Frames StreamFrame FrameParser GoFloat Rtt Congestion LinkedList LinkedListSpec.

(** * interfaces.go, frame.go, ack_eliciting.go, send_mode.go *)

Record AhFrame := mkAhFrame { af_Frame : Frame; OnLost : option nat; OnAcked : option nat }.
Record Packet := mkPacket {
  PacketNumber : Z; pk_Frames : list AhFrame; pk_LargestAcked : Z; pk_Length : Z;
  pk_EncryptionLevel : EncryptionLevel; SendTime : Z; includedInBytesInFlight : bool }.
Inductive SendMode := SendNone | SendAck | SendPTO | SendAny.
#[export] Instance SendMode_eq_dec : EqDecision SendMode.
Proof. solve_decision. Defined.
Definition SendMode_String (s : SendMode) : string :=
  match s with SendNone => "none" | SendAck => "ack" | SendPTO => "pto" | SendAny => "any" end.
Definition IsFrameAckEliciting (f : Frame) : bool := match f with FAck _ => false | _ => true end.
Fixpoint HasAckElicitingFrames (fs : list AhFrame) : bool :=
  match fs with [] => false | f :: fs => if IsFrameAckEliciting (af_Frame f) then true else HasAckElicitingFrames fs end.

(** * packet_number_generator.go *)

Record packetNumberGenerator := mkPng { averagePeriod : Z; png_next : Z; nextToSkip : Z; png_history : list Z }.
(** [num] is the random number of [getRandomNumber]. *)
Definition generateNewSkip (p : packetNumberGenerator) (num : Z) : packetNumberGenerator :=
  let skip := Z.quot (i64 (num * i64 (averagePeriod p - 1))) (65535 / 2) in
  mkPng (averagePeriod p) (png_next p) (i64 (i64 (png_next p + 2) + skip)) (png_history p).
Definition newPacketNumberGenerator (initial averagePeriod num : Z) : packetNumberGenerator :=
  generateNewSkip (mkPng averagePeriod initial 0 []) num.
Definition getRandomNumber (b0 b1 : Z) : Z := u16 (u16 (Z.shiftl b0 8) + b1).
Definition Peek (p : packetNumberGenerator) : Z := png_next p.
Definition png_Pop (p : packetNumberGenerator) (num : Z) : packetNumberGenerator * Z :=
  let next := png_next p in
  let p := mkPng (averagePeriod p) (i64 (next + 1)) (nextToSkip p) (png_history p) in
  if png_next p =? nextToSkip p then
    let hist := if MaxTrackedSkippedPackets <? len (png_history p) + 1 then tail (png_history p) else png_history p in
    (generateNewSkip (mkPng (averagePeriod p) (i64 (png_next p + 1)) (nextToSkip p) (hist ++ [png_next p])) num, next)
  else (p, next).
Fixpoint validate_skipped (ack : AckFrame) (l : list Z) : outcome bool :=
  match l with
  | [] => Ok true
  | pn :: l => b ← AcksPacket ack pn; if (b : bool) then Ok false else validate_skipped ack l
  end.
Definition Validate (p : packetNumberGenerator) (ack : AckFrame) : outcome bool := validate_skipped ack (png_history p).

(** * sent_packet_history.go *)

(** The list is the sequence of its elements (address and value), the map
    leads from packet numbers to addresses. *)
Record sentPacketHistory := mkSentHistory { packetList : list (addr * Packet); packetMap : gmap Z addr; nextAddr : addr }.
Definition newSentPacketHistory : sentPacketHistory := mkSentHistory [] ∅ 0%nat.
Definition history_SentPacket (h : sentPacketHistory) (p : Packet) : sentPacketHistory :=
  mkSentHistory (packetList h ++ [(nextAddr h, p)]) (<[PacketNumber p := nextAddr h]> (packetMap h)) (S (nextAddr h)).
Definition GetPacket (h : sentPacketHistory) (p : Z) : option Packet :=
  a ← packetMap h !! p; snd <$> find_elem a (packetList h).
(** The packets [Iterate] visits, front first. *)
Definition history_packets (h : sentPacketHistory) : list Packet := map snd (packetList h).
Definition HasOutstandingPackets (h : sentPacketHistory) : bool := 0 <? len (packetList h).
Definition FirstOutstanding (h : sentPacketHistory) : option Packet :=
  if negb (HasOutstandingPackets h) then None else head (history_packets h).
Definition history_Len (h : sentPacketHistory) : Z := Z.of_nat (size (packetMap h)).
Definition history_Remove (h : sentPacketHistory) (p : Z) : sentPacketHistory * option goerr :=
  match packetMap h !! p with
  | None => (h, Some (Errorf "packet %d not found in sent packet history" [p]))
  | Some el => (mkSentHistory (without el (packetList h)) (delete p (packetMap h)) (nextAddr h), None)
  end.

(** * sent_packet_handler.go: state *)

Definition timeThreshold : float := mkFloat 9 8.
Definition packetThreshold : Z := 3.
Record packetNumberSpace := mkSpace {
  history : sentPacketHistory; pns : packetNumberGenerator; lossTime : Z; largestAcked : Z; largestSent : Z }.
Definition newPacketNumberSpace (initialPN num : Z) : packetNumberSpace :=
  mkSpace newSentPacketHistory (newPacketNumberGenerator initialPN SkipPacketAveragePeriodLength num) 0 InvalidPacketNumber InvalidPacketNumber.

Record sentPacketHandler := mkHandler {
  lastSentAckElicitingPacketTime : Z; lastSentCryptoPacketTime : Z; nextSendTime : Z;
  initialPackets : option packetNumberSpace; handshakePackets : option packetNumberSpace; oneRTTPackets : packetNumberSpace;
  lowestNotConfirmedAcked : Z; bytesInFlight : Z; congestion : cubicSender; rttStats : RTTStats;
  ptoCount : Z; numProbesToSend : Z; alarm : Z; traceCallback : bool }.
Definition NewSentPacketHandler (initialPacketNumber : Z) (rtt : RTTStats) (trace : bool) (n1 n2 n3 : Z) : sentPacketHandler :=
  mkHandler 0 0 0 (Some (newPacketNumberSpace initialPacketNumber n1)) (Some (newPacketNumberSpace 0 n2)) (newPacketNumberSpace 0 n3)
    0 0 (NewCubicSender true InitialCongestionWindow DefaultMaxCongestionWindow) rtt 0 0 0 trace.

Record TransportState := mkTransportState {
  ts_MinRTT : Z; ts_SmoothedRTT : Z; ts_LatestRTT : Z; ts_BytesInFlight : Z; ts_CongestionWindow : Z; ts_InSlowStart : bool; ts_InRecovery : bool }.
Definition GetStats (h : sentPacketHandler) : TransportState :=
  mkTransportState (minRTT (rttStats h)) (smoothedRTT (rttStats h)) (latestRTT (rttStats h)) (bytesInFlight h)
    (congestionWindow (congestion h)) (InSlowStart (congestion h)) (InRecovery (congestion h)).
(** The calls an operation makes: frame callbacks and trace events. *)
Inductive sph_event :=
  | CallAcked (cb : nat) (f : Frame)
  | CallLost (cb : nat) (f : Frame)
  | TraceLost (time : Z) (encLevel : EncryptionLevel) (pn size : Z) (state : TransportState).

(** Field updates. *)
Definition set_space (h : sentPacketHandler) (lvl : EncryptionLevel) (sp : packetNumberSpace) : sentPacketHandler :=
  mkHandler (lastSentAckElicitingPacketTime h) (lastSentCryptoPacketTime h) (nextSendTime h)
    (if decide (lvl = EncryptionInitial) then Some sp else initialPackets h)
    (if decide (lvl = EncryptionHandshake) then Some sp else handshakePackets h)
    (if decide (lvl = Encryption1RTT) then sp else oneRTTPackets h)
    (lowestNotConfirmedAcked h) (bytesInFlight h) (congestion h) (rttStats h) (ptoCount h) (numProbesToSend h) (alarm h) (traceCallback h).
Definition set_flight (h : sentPacketHandler) (n : Z) (c : cubicSender) : sentPacketHandler :=
  mkHandler (lastSentAckElicitingPacketTime h) (lastSentCryptoPacketTime h) (nextSendTime h) (initialPackets h) (handshakePackets h)
    (oneRTTPackets h) (lowestNotConfirmedAcked h) n c (rttStats h) (ptoCount h) (numProbesToSend h) (alarm h) (traceCallback h).
Definition set_rtt (h : sentPacketHandler) (r : RTTStats) (c : cubicSender) : sentPacketHandler :=
  mkHandler (lastSentAckElicitingPacketTime h) (lastSentCryptoPacketTime h) (nextSendTime h) (initialPackets h) (handshakePackets h)
    (oneRTTPackets h) (lowestNotConfirmedAcked h) (bytesInFlight h) c r (ptoCount h) (numProbesToSend h) (alarm h) (traceCallback h).
Definition set_lowest (h : sentPacketHandler) (n : Z) : sentPacketHandler :=
  mkHandler (lastSentAckElicitingPacketTime h) (lastSentCryptoPacketTime h) (nextSendTime h) (initialPackets h) (handshakePackets h)
    (oneRTTPackets h) n (bytesInFlight h) (congestion h) (rttStats h) (ptoCount h) (numProbesToSend h) (alarm h) (traceCallback h).
Definition set_pto (h : sentPacketHandler) (count probes : Z) : sentPacketHandler :=
  mkHandler (lastSentAckElicitingPacketTime h) (lastSentCryptoPacketTime h) (nextSendTime h) (initialPackets h) (handshakePackets h)
    (oneRTTPackets h) (lowestNotConfirmedAcked h) (bytesInFlight h) (congestion h) (rttStats h) count probes (alarm h) (traceCallback h).
Definition set_alarm (h : sentPacketHandler) (t : Z) : sentPacketHandler :=
  mkHandler (lastSentAckElicitingPacketTime h) (lastSentCryptoPacketTime h) (nextSendTime h) (initialPackets h) (handshakePackets h)
    (oneRTTPackets h) (lowestNotConfirmedAcked h) (bytesInFlight h) (congestion h) (rttStats h) (ptoCount h) (numProbesToSend h) t (traceCallback h).
Definition set_times (h : sentPacketHandler) (eliciting crypto next : Z) : sentPacketHandler :=
  mkHandler eliciting crypto next (initialPackets h) (handshakePackets h)
    (oneRTTPackets h) (lowestNotConfirmedAcked h) (bytesInFlight h) (congestion h) (rttStats h) (ptoCount h) (numProbesToSend h) (alarm h) (traceCallback h).
Definition set_history (sp : packetNumberSpace) (hi : sentPacketHistory) : packetNumberSpace :=
  mkSpace hi (pns sp) (lossTime sp) (largestAcked sp) (largestSent sp).
Definition set_lossTime (sp : packetNumberSpace) (t : Z) : packetNumberSpace :=
  mkSpace (history sp) (pns sp) t (largestAcked sp) (largestSent sp).
Definition set_largestAcked (sp : packetNumberSpace) (n : Z) : packetNumberSpace :=
  mkSpace (history sp) (pns sp) (lossTime sp) n (largestSent sp).
Definition set_largestSent (sp : packetNumberSpace) (n : Z) : packetNumberSpace :=
  mkSpace (history sp) (pns sp) (lossTime sp) (largestAcked sp) n.
Definition set_pns (sp : packetNumberSpace) (g : packetNumberGenerator) : packetNumberSpace :=
  mkSpace (history sp) g (lossTime sp) (largestAcked sp) (largestSent sp).

(** The space, dereferenced: every caller uses its fields at once. *)
Definition nil_space : string := "invalid memory address or nil pointer dereference".
Definition getPacketNumberSpace (h : sentPacketHandler) (encLevel : EncryptionLevel) : outcome packetNumberSpace :=
  match encLevel with
  | EncryptionInitial => match initialPackets h with Some sp => Ok sp | None => Panic nil_space end
  | EncryptionHandshake => match handshakePackets h with Some sp => Ok sp | None => Panic nil_space end
  | Encryption1RTT => Ok (oneRTTPackets h)
  | _ => Panic "invalid packet number space"
  end.

(** * sent_packet_handler.go: operations *)

Fixpoint subtract_lengths (n : Z) (ps : list Packet) : Z :=
  match ps with [] => n | p :: ps => subtract_lengths (if includedInBytesInFlight p then u64 (n - pk_Length p) else n) ps end.
Definition DropPackets (h : sentPacketHandler) (encLevel : EncryptionLevel) : outcome sentPacketHandler :=
  pnSpace ← getPacketNumberSpace h encLevel;
  let h := set_flight h (subtract_lengths (bytesInFlight h) (history_packets (history pnSpace))) (congestion h) in
  match encLevel with
  | EncryptionInitial =>
      Ok (mkHandler (lastSentAckElicitingPacketTime h) (lastSentCryptoPacketTime h) (nextSendTime h) None (handshakePackets h)
        (oneRTTPackets h) (lowestNotConfirmedAcked h) (bytesInFlight h) (congestion h) (rttStats h) (ptoCount h) (numProbesToSend h) (alarm h) (traceCallback h))
  | EncryptionHandshake =>
      Ok (mkHandler (lastSentAckElicitingPacketTime h) (lastSentCryptoPacketTime h) (nextSendTime h) (initialPackets h) None
        (oneRTTPackets h) (lowestNotConfirmedAcked h) (bytesInFlight h) (congestion h) (rttStats h) (ptoCount h) (numProbesToSend h) (alarm h) (traceCallback h))
  | _ => Panic "Cannot drop keys for encryption level"
  end.

(** The earliest loss time and its level; the last comparison needs no nil check. *)
Definition getEarliestLossTime (h : sentPacketHandler) : Z * EncryptionLevel :=
  let '(t, lvl) := match initialPackets h with Some sp => (lossTime sp, EncryptionInitial) | None => (0, EncryptionUnspecified) end in
  let earlier t' t := IsZero t || (negb (IsZero t') && (t' <? t)) in
  let '(t, lvl) :=
    match handshakePackets h with
    | Some sp => if earlier (lossTime sp) t then (lossTime sp, EncryptionHandshake) else (t, lvl)
    | None => (t, lvl)
    end in
  if earlier (lossTime (oneRTTPackets h)) t then (lossTime (oneRTTPackets h), Encryption1RTT) else (t, lvl).
Definition space_outstanding (sp : option packetNumberSpace) : bool :=
  match sp with Some sp => HasOutstandingPackets (history sp) | None => false end.
Definition hasOutstandingCryptoPackets (h : sentPacketHandler) : bool :=
  space_outstanding (initialPackets h) || space_outstanding (handshakePackets h).
Definition hasOutstandingPackets (h : sentPacketHandler) : bool :=
  HasOutstandingPackets (history (oneRTTPackets h)) || hasOutstandingCryptoPackets h.
Definition setLossDetectionTimer (h : sentPacketHandler) : sentPacketHandler :=
  let '(lossTime, _) := getEarliestLossTime h in
  let h := if negb (IsZero lossTime) then set_alarm h lossTime else h in
  if negb (hasOutstandingPackets h) then set_alarm h 0
  else set_alarm h (lastSentAckElicitingPacketTime h + i64 (Z.shiftl (PTO (rttStats h)) (ptoCount h))).

Definition set_included (p : Packet) : Packet :=
  mkPacket (PacketNumber p) (pk_Frames p) (pk_LargestAcked p) (pk_Length p) (pk_EncryptionLevel p) (SendTime p) true.
(** Returns the packet as the call leaves it. *)
Definition sentPacketImpl (h : sentPacketHandler) (packet : Packet) : outcome (sentPacketHandler * Packet * bool) :=
  pnSpace ← getPacketNumberSpace h (pk_EncryptionLevel packet);
  let h := set_space h (pk_EncryptionLevel packet) (set_largestSent pnSpace (PacketNumber packet)) in
  let isAckEliciting := 0 <? len (pk_Frames packet) in
  let '(h, packet) :=
    if isAckEliciting then
      let crypto := if decide (pk_EncryptionLevel packet = Encryption1RTT) then lastSentCryptoPacketTime h else SendTime packet in
      let h := set_times h (SendTime packet) crypto (nextSendTime h) in
      let h := set_flight h (u64 (bytesInFlight h + pk_Length packet)) (congestion h) in
      let h := if 0 <? numProbesToSend h then set_pto h (ptoCount h) (i64 (numProbesToSend h - 1)) else h in
      (h, set_included packet)
    else (h, packet) in
  let h := set_flight h (bytesInFlight h) (OnPacketSent (congestion h) (PacketNumber packet) (pk_Length packet) isAckEliciting) in
  delay ← TimeUntilSend (congestion h) (rttStats h) (bytesInFlight h);
  let h := set_times h (lastSentAckElicitingPacketTime h) (lastSentCryptoPacketTime h) (MaxTime (nextSendTime h) (SendTime packet) + delay) in
  Ok (h, packet, isAckEliciting).
Definition SentPacket (h : sentPacketHandler) (packet : Packet) : outcome sentPacketHandler :=
  r ← sentPacketImpl h packet;
  let '(h, packet, isAckEliciting) := r in
  if (isAckEliciting : bool) then
    pnSpace ← getPacketNumberSpace h (pk_EncryptionLevel packet);
    let h := set_space h (pk_EncryptionLevel packet) (set_history pnSpace (history_SentPacket (history pnSpace) packet)) in
    Ok (setLossDetectionTimer h)
  else Ok h.

(** The inner loop over the ranges, lowest first: [rs] starts with the current one. *)
Fixpoint advance_range (pn : Z) (rs : list AckRange) : list AckRange :=
  match rs with
  | [] => []
  | r :: rs' =>
      match rs' with
      | [] => rs
      | _ :: _ => if Largest r <? pn then advance_range pn rs' else rs
      end
  end.
Definition errAckBug (pn : Z) (r : AckRange) : goerr :=
  Errorf "BUG: ackhandler would have acked wrong packet 0x%x, while evaluating range 0x%x -> 0x%x" [pn; Smallest r; Largest r].
(** The callback of [Iterate] over the packets from the front. *)
Fixpoint newly_acked (missing : bool) (lowest largest : Z) (rs : list AckRange) (ps : list Packet) : outcome (list Packet * option goerr) :=
  match ps with
  | [] => Ok ([], None)
  | p :: ps =>
      if PacketNumber p <? lowest then newly_acked missing lowest largest rs ps
      else if largest <? PacketNumber p then Ok ([], None)
      else if missing then
        match advance_range (PacketNumber p) rs with
        | [] => Panic "index out of range"
        | (r :: _) as rs =>
            if Smallest r <=? PacketNumber p then
              if Largest r <? PacketNumber p then Ok ([], Some (errAckBug (PacketNumber p) r))
              else '(l, e) ← newly_acked missing lowest largest rs ps; Ok (p :: l, e)
            else newly_acked missing lowest largest rs ps
        end
      else '(l, e) ← newly_acked missing lowest largest rs ps; Ok (p :: l, e)
  end.
Definition determineNewlyAckedPackets (h : sentPacketHandler) (ackFrame : AckFrame) (encLevel : EncryptionLevel)
    : outcome (list Packet * option goerr) :=
  pnSpace ← getPacketNumberSpace h encLevel;
  lowestAcked ← LowestAcked ackFrame;
  largestAcked ← LargestAcked ackFrame;
  newly_acked (HasMissingRanges ackFrame) lowestAcked largestAcked (rev (AckRanges ackFrame)) (history_packets (history pnSpace)).

Definition acked_calls (p : Packet) : list sph_event :=
  concat (map (λ f, match OnAcked f with Some cb => [CallAcked cb (af_Frame f)] | None => [] end) (pk_Frames p)).
Definition onPacketAcked (h : sentPacketHandler) (p : Packet) : outcome (sentPacketHandler * list sph_event * option goerr) :=
  pnSpace ← getPacketNumberSpace h (pk_EncryptionLevel p);
  match GetPacket (history pnSpace) (PacketNumber p) with
  | None => Ok (h, [], None)
  | Some _ =>
      let h := if includedInBytesInFlight p then set_flight h (u64 (bytesInFlight h - pk_Length p)) (congestion h) else h in
      let '(hi, err) := history_Remove (history pnSpace) (PacketNumber p) in
      Ok (set_space h (pk_EncryptionLevel p) (set_history pnSpace hi), acked_calls p, err)
  end.

(** [f.OnLost(f.Frame)] for every frame; a nil function panics. *)
Fixpoint lost_calls (fs : list AhFrame) : outcome (list sph_event) :=
  match fs with
  | [] => Ok []
  | f :: fs => match OnLost f with Some cb => l ← lost_calls fs; Ok (CallLost cb (af_Frame f) :: l) | None => Panic nil_space end
  end.
Definition queueFramesForRetransmission (p : Packet) : outcome (list sph_event) := lost_calls (pk_Frames p).

(** The callback of [Iterate] in [detectLostPackets]: the lost packets and the loss time. *)
Fixpoint find_lost (largestAcked lostSendTime lossDelay lossTime : Z) (ps : list Packet) : list Packet * Z :=
  match ps with
  | [] => ([], lossTime)
  | p :: ps =>
      if largestAcked <? PacketNumber p then ([], lossTime)
      else if (SendTime p <? lostSendTime) || (i64 (PacketNumber p + packetThreshold) <=? largestAcked) then
        let '(l, t) := find_lost largestAcked lostSendTime lossDelay lossTime ps in (p :: l, t)
      else if IsZero lossTime then find_lost largestAcked lostSendTime lossDelay (SendTime p + lossDelay) ps
      else find_lost largestAcked lostSendTime lossDelay lossTime ps
  end.
Definition lossDelay_of (r : RTTStats) : Z :=
  MaxDuration (i64 (f_to_int (f_mul 53 timeThreshold (float64_of (MaxDuration (latestRTT r) (smoothedRTT r)))))) TimerGranularity.
(** The final loop over the lost packets. *)
Fixpoint declare_lost (h : sentPacketHandler) (now : Z) (encLevel : EncryptionLevel) (priorInFlight : Z) (ps : list Packet)
    : outcome (sentPacketHandler * list sph_event) :=
  match ps with
  | [] => Ok (h, [])
  | p :: ps =>
      calls ← queueFramesForRetransmission p;
      let h := if includedInBytesInFlight p
               then set_flight h (u64 (bytesInFlight h - pk_Length p)) (Congestion.OnPacketLost (congestion h) (PacketNumber p) (pk_Length p) priorInFlight)
               else h in
      pnSpace ← getPacketNumberSpace h encLevel;
      let h := set_space h encLevel (set_history pnSpace (fst (history_Remove (history pnSpace) (PacketNumber p)))) in
      let trace := if traceCallback h then [TraceLost now (pk_EncryptionLevel p) (PacketNumber p) (pk_Length p) (GetStats h)] else [] in
      '(h, calls') ← declare_lost h now encLevel priorInFlight ps;
      Ok (h, calls ++ trace ++ calls')
  end.
Definition detectLostPackets (h : sentPacketHandler) (now : Z) (encLevel : EncryptionLevel) (priorInFlight : Z)
    : outcome (sentPacketHandler * list sph_event) :=
  pnSpace ← getPacketNumberSpace h encLevel;
  let lossDelay := lossDelay_of (rttStats h) in
  let '(lostPackets, lossTime) := find_lost (largestAcked pnSpace) (now - lossDelay) lossDelay 0 (history_packets (history pnSpace)) in
  let h := set_space h encLevel (set_lossTime pnSpace lossTime) in
  declare_lost h now encLevel priorInFlight lostPackets.

(** The loop of [ReceivedAck] over the newly acknowledged packets. *)
Fixpoint ack_packets (h : sentPacketHandler) (encLevel : EncryptionLevel) (priorInFlight rcvTime : Z) (ps : list Packet)
    : outcome (sentPacketHandler * list sph_event * option goerr) :=
  match ps with
  | [] => Ok (h, [], None)
  | p :: ps =>
      let h := if negb (pk_LargestAcked p =? InvalidPacketNumber) && bool_decide (encLevel = Encryption1RTT)
               then set_lowest h (MaxPacketNumber (lowestNotConfirmedAcked h) (i64 (pk_LargestAcked p + 1))) else h in
      '(h, calls, err) ← onPacketAcked h p;
      match err with
      | Some _ => Ok (h, calls, err)
      | None =>
          let h := if includedInBytesInFlight p
                   then set_flight h (bytesInFlight h) (OnPacketAcked (congestion h) (rttStats h) (PacketNumber p) (pk_Length p) priorInFlight rcvTime)
                   else h in
          '(h, calls', err) ← ack_packets h encLevel priorInFlight rcvTime ps;
          Ok (h, calls ++ calls', err)
      end
  end.
Definition errUnsent : goerr := QuicError ProtocolViolation (Errorf "Received ACK for an unsent packet" []).
Definition errSkipped : goerr := QuicError ProtocolViolation (Errorf "Received an ACK for a skipped packet number" []).
Definition ReceivedAck (h : sentPacketHandler) (ackFrame : AckFrame) (encLevel : EncryptionLevel) (rcvTime : Z)
    : outcome (sentPacketHandler * list sph_event * option goerr) :=
  pnSpace ← getPacketNumberSpace h encLevel;
  largest ← LargestAcked ackFrame;
  if largestSent pnSpace <? largest then Ok (h, [], Some errUnsent) else
  let pnSpace := set_largestAcked pnSpace (MaxPacketNumber (largestAcked pnSpace) largest) in
  let h := set_space h encLevel pnSpace in
  valid ← Validate (pns pnSpace) ackFrame;
  if negb valid then Ok (h, [], Some errSkipped) else
  let h :=
    match GetPacket (history pnSpace) largest with
    | Some p =>
        let ackDelay := if decide (encLevel = Encryption1RTT) then MinDuration (DelayTime ackFrame) (maxAckDelay (rttStats h)) else 0 in
        let rtt := UpdateRTT (rttStats h) (time_Sub rcvTime (SendTime p)) ackDelay in
        set_rtt h rtt (MaybeExitSlowStart (congestion h) rtt)
    | None => h
    end in
  '(ackedPackets, err) ← determineNewlyAckedPackets h ackFrame encLevel;
  match err with
  | Some e => Ok (h, [], Some e)
  | None =>
      if len ackedPackets =? 0 then Ok (h, [], None) else
      let priorInFlight := bytesInFlight h in
      '(h, calls, err) ← ack_packets h encLevel priorInFlight rcvTime ackedPackets;
      match err with
      | Some e => Ok (h, calls, Some e)
      | None =>
          '(h, calls') ← detectLostPackets h rcvTime encLevel priorInFlight;
          Ok (setLossDetectionTimer (set_pto h 0 0), calls ++ calls', None)
      end
  end.

Definition onVerifiedLossDetectionTimeout (h : sentPacketHandler) (now : Z) : outcome (sentPacketHandler * list sph_event) :=
  let '(lossTime, encLevel) := getEarliestLossTime h in
  if negb (IsZero lossTime) then detectLostPackets h now encLevel (bytesInFlight h)
  else Ok (set_pto h (u32 (ptoCount h + 1)) (i64 (numProbesToSend h + 2)), []).
Definition OnLossDetectionTimeout (h : sentPacketHandler) (now : Z) : outcome (sentPacketHandler * list sph_event) :=
  '(h, calls) ← (if hasOutstandingPackets h then onVerifiedLossDetectionTimeout h now else Ok (h, []));
  Ok (setLossDetectionTimer h, calls).

Definition PeekPacketNumber (h : sentPacketHandler) (encLevel : EncryptionLevel) : outcome (Z * Z) :=
  pnSpace ← getPacketNumberSpace h encLevel;
  let lowestUnacked := match FirstOutstanding (history pnSpace) with Some p => PacketNumber p | None => i64 (largestAcked pnSpace + 1) end in
  let pn := Peek (pns pnSpace) in
  Ok (pn, GetPacketNumberLengthForHeader pn lowestUnacked).
Definition PopPacketNumber (h : sentPacketHandler) (encLevel : EncryptionLevel) (num : Z) : outcome (sentPacketHandler * Z) :=
  pnSpace ← getPacketNumberSpace h encLevel;
  let '(g, pn) := png_Pop (pns pnSpace) num in
  Ok (set_space h encLevel (set_pns pnSpace g), pn).

Definition space_Len (sp : option packetNumberSpace) : Z := match sp with Some sp => history_Len (history sp) | None => 0 end.
Definition SendMode_of (h : sentPacketHandler) : SendMode :=
  let numTrackedPackets := history_Len (history (oneRTTPackets h)) + space_Len (initialPackets h) + space_Len (handshakePackets h) in
  if MaxTrackedSentPackets <=? numTrackedPackets then SendNone
  else if 0 <? numProbesToSend h then SendPTO
  else if negb (CanSend (congestion h) (bytesInFlight h)) then SendAck
  else if MaxOutstandingSentPackets <=? numTrackedPackets then SendAck
  else SendAny.
(** [math.Ceil] *)
Definition f_ceil (x : float) : Z := - ((- fnum x) / fden x).
Definition ShouldSendNumPackets (h : sentPacketHandler) : outcome Z :=
  if 0 <? numProbesToSend h then Ok (numProbesToSend h) else
  delay ← TimeUntilSend (congestion h) (rttStats h) (bytesInFlight h);
  if (delay =? 0) || (MinPacingDelay <? delay) then Ok 1
  else if delay <? 0 then Ok (i64 (f_ceil (f_div 53 (float64_of (- MinPacingDelay)) (float64_of (- delay)))))
  else Ok (i64 (f_ceil (f_div 53 (float64_of MinPacingDelay) (float64_of delay)))).

Definition space_first (sp : option packetNumberSpace) : option Packet := sp ≫= λ sp, FirstOutstanding (history sp).
Definition QueueProbePacket (h : sentPacketHandler) : outcome (sentPacketHandler * list sph_event * bool) :=
  let p := match space_first (initialPackets h) with Some p => Some p | None =>
           match space_first (handshakePackets h) with Some p => Some p | None => FirstOutstanding (history (oneRTTPackets h)) end end in
  match p with
  | None => Ok (h, [], false)
  | Some p =>
      calls ← queueFramesForRetransmission p;
      let h := if includedInBytesInFlight p then set_flight h (u64 (bytesInFlight h - pk_Length p)) (congestion h) else h in
      pnSpace ← getPacketNumberSpace h (pk_EncryptionLevel p);
      match history_Remove (history pnSpace) (PacketNumber p) with
      | (_, Some _) => Panic "packet not found in sent packet history"
      | (hi, None) => Ok (set_space h (pk_EncryptionLevel p) (set_history pnSpace hi), calls, true)
      end
  end.

Fixpoint all_lost_calls (ps : list Packet) : outcome (list sph_event) :=
  match ps with [] => Ok [] | p :: ps => l ← queueFramesForRetransmission p; l' ← all_lost_calls ps; Ok (l ++ l') end.
(** [n1], [n2]: the random numbers of the pop and of the new generator. *)
Definition ResetForRetry (h : sentPacketHandler) (n1 n2 : Z) : outcome (sentPacketHandler * list sph_event) :=
  let h := set_flight h 0 (congestion h) in
  pnSpace ← getPacketNumberSpace h EncryptionInitial;
  calls ← all_lost_calls (history_packets (history pnSpace));
  let h := set_space h EncryptionInitial (newPacketNumberSpace (snd (png_Pop (pns pnSpace) n1)) n2) in
  Ok (setLossDetectionTimer h, calls).

(** * packet_linkedlist.go: the list of linkedlist.go at packets *)

Definition PacketElement := ItemElement Packet.
Definition PacketList := heap Packet.
Definition NewPacketList := NewItemList (Item := Packet).
Definition PacketList_Next := Next (Item := Packet).
Definition PacketList_Prev := Prev (Item := Packet).
Definition PacketList_Init := Init (Item := Packet).
Definition PacketList_Len := Len (Item := Packet).
Definition PacketList_Front := Front (Item := Packet).
Definition PacketList_Back := Back (Item := Packet).
Definition PacketList_lazyInit := lazyInit (Item := Packet).
Definition PacketList_insert := insert_ (Item := Packet).
Definition PacketList_insertValue := insertValue (Item := Packet).
Definition PacketList_remove := remove (Item := Packet).
Definition PacketList_Remove := Remove (Item := Packet).
Definition PacketList_PushFront := PushFront (Item := Packet).
Definition PacketList_PushBack := PushBack (Item := Packet).
Definition PacketList_InsertBefore := InsertBefore (Item := Packet).
Definition PacketList_InsertAfter := InsertAfter (Item := Packet).
Definition PacketList_MoveToFront := MoveToFront (Item := Packet).
Definition PacketList_MoveToBack := MoveToBack (Item := Packet).
Definition PacketList_MoveBefore := MoveBefore (Item := Packet).
Definition PacketList_MoveAfter := MoveAfter (Item := Packet).
Definition PacketList_PushBackList := PushBackList (Item := Packet).
Definition PacketList_PushFrontList := PushFrontList (Item := Packet).
