(* ===== verification/SentPacketsSpec.v ===== *)
(** SentPacketsSpec: correctness of the sent packet handler.  A history is a list
    of packets with ascending numbers; acknowledging and losing packets are
    filters of that list; bytes in flight are the sum of the lengths; no frame
    is forgotten or reported twice. *)

From stdpp Require Import sorting.
From S2P Require Import Prelude Utils Protocol AckFrame Frames StreamFrame FrameParser GoFloat Rtt Congestion LinkedList LinkedListSpec SentPackets.

(** * The history *)

Definition pn_lt (p q : Packet) : Prop := PacketNumber p < PacketNumber q.
Record hist_ok (h : sentPacketHistory) : Prop := mkHistOk {
  ho_nodup : NoDup (map fst (packetList h));
  ho_fresh : ∀ a p, (a, p) ∈ packetList h → (a < nextAddr h)%nat;
  ho_sorted : StronglySorted pn_lt (history_packets h);
  ho_map : ∀ pn a, packetMap h !! pn = Some a ↔ ∃ p, (a, p) ∈ packetList h ∧ PacketNumber p = pn }.

Lemma hist_ok_new : hist_ok newSentPacketHistory.
Proof.
  split; simpl; [constructor|intros a p H; inversion H|constructor|]. intros pn a. rewrite lookup_empty.
  split; [done|]. intros (p & H & _). inversion H.
Qed.
Lemma sorted_pn_inj l p q : StronglySorted pn_lt l → p ∈ l → q ∈ l → PacketNumber p = PacketNumber q → p = q.
Proof.
  induction 1 as [|x l Hs IH Hall]; intros Hp Hq E; [inversion Hp|]. rewrite Forall_forall in Hall.
  apply elem_of_cons in Hp as [->|Hp]; apply elem_of_cons in Hq as [->|Hq]; [done| | |by apply IH].
  - specialize (Hall q Hq). unfold pn_lt in Hall. lia.
  - specialize (Hall p Hp). unfold pn_lt in Hall. lia.
Qed.
Lemma elem_packets h p : p ∈ history_packets h ↔ ∃ a, (a, p) ∈ packetList h.
Proof.
  unfold history_packets. split.
  - intros ([a q] & -> & H)%list_elem_of_fmap. by exists a.
  - intros [a H]. apply list_elem_of_fmap. by exists (a, p).
Qed.
Lemma nodup_fst_inj {A B} (l : list (A * B)) a p q : NoDup (map fst l) → (a, p) ∈ l → (a, q) ∈ l → p = q.
Proof.
  induction l as [|[b r] l IH]; simpl; intros Hn Hp Hq; [inversion Hp|]. apply NoDup_cons in Hn as [Hb Hn].
  apply elem_of_cons in Hp as [Ep|Hp]; apply elem_of_cons in Hq as [Eq|Hq]; simplify_eq; try done; [| |by apply IH].
  - exfalso. apply Hb. apply list_elem_of_fmap. by exists (b, q).
  - exfalso. apply Hb. apply list_elem_of_fmap. by exists (b, p).
Qed.
Lemma find_elem_in {B} a p (l : list (addr * B)) : NoDup (map fst l) → (a, p) ∈ l → find_elem a l = Some (a, p).
Proof.
  intros Hn Hp. unfold find_elem. destruct (filter (λ q : addr * B, q.1 = a) l) as [|[b q] k] eqn:E.
  - exfalso. assert (H : (a, p) ∈ filter (λ q : addr * B, q.1 = a) l) by (apply list_elem_of_filter; done). rewrite E in H. inversion H.
  - assert (H : (b, q) ∈ filter (λ q : addr * B, q.1 = a) l) by (rewrite E; constructor).
    apply list_elem_of_filter in H as [Hb H]. simpl in Hb. subst b. simpl. by rewrite (nodup_fst_inj _ _ _ _ Hn Hp H).
Qed.

Lemma GetPacket_spec h pn p : hist_ok h → GetPacket h pn = Some p ↔ p ∈ history_packets h ∧ PacketNumber p = pn.
Proof.
  intros Hh. unfold GetPacket. split.
  - destruct (packetMap h !! pn) as [a|] eqn:E; [|done]. apply (ho_map _ Hh) in E as (q & Hq & Eq). simpl.
    rewrite (find_elem_in a q _ (ho_nodup _ Hh) Hq). intros [= <-]. split; [|done]. apply elem_packets. by exists a.
  - intros [[a Ha]%elem_packets E]. assert (Em : packetMap h !! pn = Some a) by (apply (ho_map _ Hh); by exists p).
    rewrite Em. simpl. by rewrite (find_elem_in a p _ (ho_nodup _ Hh) Ha).
Qed.
Lemma GetPacket_None h pn : hist_ok h → GetPacket h pn = None ↔ ∀ p, p ∈ history_packets h → PacketNumber p ≠ pn.
Proof.
  intros Hh. split.
  - intros E p Hp Ep. assert (H : GetPacket h pn = Some p) by (by apply GetPacket_spec). congruence.
  - intros H. destruct (GetPacket h pn) as [p|] eqn:E; [|done]. apply GetPacket_spec in E as [Hp Ep]; [|done]. by destruct (H p Hp).
Qed.

Definition without_pn (pn : Z) (l : list Packet) : list Packet := filter (λ q, PacketNumber q ≠ pn) l.
Lemma filter_sorted (P : Packet → Prop) `{∀ x, Decision (P x)} l : StronglySorted pn_lt l → StronglySorted pn_lt (filter P l).
Proof.
  induction 1 as [|x l Hs IH Hall]; [constructor|]. rewrite filter_cons. destruct (decide (P x)); [|done]. constructor; [done|].
  apply Forall_forall. intros y [_ Hy]%list_elem_of_filter. rewrite Forall_forall in Hall. by apply Hall.
Qed.
(** Removing a tracked packet filters it out of the list. *)
Lemma Remove_spec h p : hist_ok h → p ∈ history_packets h →
  ∃ h', history_Remove h (PacketNumber p) = (h', None) ∧ hist_ok h' ∧ history_packets h' = without_pn (PacketNumber p) (history_packets h).
Proof.
  intros Hh Hp. apply elem_packets in Hp as Hp'. destruct Hp' as [a Ha].
  assert (Em : packetMap h !! PacketNumber p = Some a) by (apply (ho_map _ Hh); by exists p).
  unfold history_Remove. rewrite Em. eexists. split; [done|]. pose proof (ho_sorted _ Hh) as Hs.
  assert (Hiff : ∀ b q, (b, q) ∈ packetList h → b = a ↔ PacketNumber q = PacketNumber p).
  { intros b q Hq. split.
    - intros ->. by rewrite (nodup_fst_inj _ _ _ _ (ho_nodup _ Hh) Hq Ha).
    - intros E. assert (q = p) as -> by (eapply sorted_pn_inj; [done| |done|done]; apply elem_packets; by exists b).
      assert (Eb : packetMap h !! PacketNumber p = Some b) by (apply (ho_map _ Hh); by exists p). congruence. }
  assert (Hpk : map snd (without a (packetList h)) = without_pn (PacketNumber p) (history_packets h)).
  { unfold history_packets, without, without_pn. clear -Hiff. induction (packetList h) as [|[b q] l IH]; [done|].
    rewrite filter_cons. simpl map. rewrite filter_cons. simpl.
    assert (Hb := Hiff b q (list_elem_of_here _ _)).
    rewrite <- IH by (intros b' q' H'; apply Hiff; by constructor).
    destruct (decide (b ≠ a)), (decide (PacketNumber q ≠ PacketNumber p)); simpl; try done; tauto. }
  split; [|done]. split; simpl.
  - unfold without. pose proof (ho_nodup _ Hh) as Hn. clear -Hn. induction (packetList h) as [|x l IH]; [constructor|].
    rewrite filter_cons. simpl in Hn. apply NoDup_cons in Hn as [Hx Hn]. destruct (decide _); [|auto]. simpl. constructor; [|auto].
    intros (y & E & [_ Hy]%list_elem_of_filter)%list_elem_of_fmap. apply Hx. rewrite E. apply list_elem_of_fmap. by exists y.
  - intros b q [_ Hb]%list_elem_of_filter. by eapply ho_fresh.
  - unfold history_packets. simpl. rewrite Hpk. by apply filter_sorted.
  - intros pn b. rewrite lookup_delete_Some, (ho_map _ Hh). unfold without. split.
    + intros (Hne & q & Hq & <-). exists q. split; [|done]. apply list_elem_of_filter. split; [|done]. simpl. intros Eb. by apply Hne; symmetry; apply (Hiff b q).
    + intros (q & [Hb Hq]%list_elem_of_filter & <-). split; [|by exists q]. simpl in Hb. intros E. by apply Hb, (Hiff b q).
Qed.
Lemma SentPacket_hist h p : hist_ok h → (∀ q, q ∈ history_packets h → PacketNumber q < PacketNumber p) →
  hist_ok (history_SentPacket h p) ∧ history_packets (history_SentPacket h p) = history_packets h ++ [p].
Proof.
  intros Hh Hlt. assert (Hpk : history_packets (history_SentPacket h p) = history_packets h ++ [p]).
  { unfold history_packets. simpl. by rewrite map_app. }
  split; [|done]. split; simpl.
  - rewrite map_app. apply NoDup_app. split; [apply (ho_nodup _ Hh)|]. split; [|apply NoDup_singleton].
    intros a ([b q] & -> & Hb)%list_elem_of_fmap. simpl. intros ->%list_elem_of_singleton. pose proof (ho_fresh _ Hh _ _ Hb). lia.
  - intros a q [Ha|[= -> ->]%list_elem_of_singleton]%elem_of_app; [|lia]. pose proof (ho_fresh _ Hh _ _ Ha). lia.
  - rewrite Hpk. pose proof (ho_sorted _ Hh) as Hs. clear Hpk. revert Hlt Hs. induction (history_packets h) as [|x l IH]; intros Hlt Hs; simpl; [repeat constructor|].
    apply StronglySorted_inv in Hs as [Hs Hall]. constructor; [apply IH; [|done]; intros q Hq; apply Hlt; by constructor|].
    apply Forall_app. split; [done|]. constructor; [|constructor]. apply Hlt. constructor.
  - intros pn a. rewrite lookup_insert_Some, (ho_map _ Hh). split.
    + intros [[<- <-]|[Hne (q & Hq & Eq)]]; [exists p; split; [set_solver|done]|exists q; split; [set_solver|done]].
    + intros (q & [Hq|[= -> ->]%list_elem_of_singleton]%elem_of_app & <-); [|by left]. right. split; [|by exists q].
      assert (q ∈ history_packets h) as Hq' by (apply elem_packets; by exists a). specialize (Hlt q Hq'). lia.
Qed.

(** * Which packets an ACK frame acknowledges *)

Lemma filter_ext_in {A} (P Q : A → Prop) `{∀ x, Decision (P x), ∀ x, Decision (Q x)} (l : list A) :
  (∀ x, x ∈ l → P x ↔ Q x) → filter P l = filter Q l.
Proof.
  induction l as [|x l IH]; intros HPQ; [done|]. rewrite !filter_cons. rewrite IH by (intros y Hy; apply HPQ; by constructor).
  pose proof (HPQ x (list_elem_of_here _ _)). destruct (decide (P x)), (decide (Q x)); try done; tauto.
Qed.
Lemma filter_none {A} (P : A → Prop) `{∀ x, Decision (P x)} (l : list A) : (∀ x, x ∈ l → ¬ P x) → filter P l = [].
Proof.
  induction l as [|x l IH]; intros HP; [done|]. rewrite filter_cons. rewrite decide_False by (apply HP; constructor).
  apply IH. intros y Hy. apply HP. by constructor.
Qed.
#[export] Instance covers_dec l p : Decision (covers l p).
Proof. unfold covers. apply _. Defined.
Definition range_lt (r r' : AckRange) : Prop := Largest r < Smallest r'.
Definition asc_ranges (rs : list AckRange) : Prop := StronglySorted range_lt rs ∧ Forall (λ r, Smallest r <= Largest r) rs.

Lemma rev_asc hi l : ranges_below hi l → asc_ranges (rev l).
Proof.
  intros Hl. split.
  - revert hi Hl. induction l as [|r l IH]; intros hi Hl; simpl; [constructor|]. destruct Hl as (H1 & H2 & H3).
    specialize (IH _ H3). apply ranges_below_Forall in H3. rewrite Forall_forall in H3.
    assert (Hall : Forall (λ x, range_lt x r) (rev l)).
    { apply Forall_forall. intros x Hx. unfold range_lt. specialize (H3 x). rewrite list_elem_of_In, <- in_rev, <- list_elem_of_In in Hx. specialize (H3 Hx). lia. }
    clear -IH Hall. induction (rev l) as [|x k IHk]; simpl; [repeat constructor|].
    apply StronglySorted_inv in IH as [IH Hx]. apply Forall_cons in Hall as [Hx' Hall]. constructor; [by apply IHk|].
    apply Forall_app. split; [done|by constructor].
  - apply ranges_below_Forall in Hl. apply Forall_rev. eapply Forall_impl; [done|]. simpl. lia.
Qed.
Lemma advance_range_spec pn rs rl : last rs = Some rl → pn <= Largest rl →
  ∃ pre r rs', advance_range pn rs = r :: rs' ∧ rs = pre ++ r :: rs' ∧ (∀ x, x ∈ pre → Largest x < pn) ∧ pn <= Largest r.
Proof.
  induction rs as [|r rs IH]; intros Hl Hp; [done|]. destruct rs as [|r' rs].
  - simpl in Hl. simplify_eq. exists [], rl, []. split; [done|]. split; [done|]. split; [intros x Hx; inversion Hx|done].
  - destruct (IH Hl Hp) as (pre & r0 & rs0 & E1 & E2 & E3 & E4). cbn [advance_range].
    destruct (Z.ltb_spec (Largest r) pn).
    + exists (r :: pre), r0, rs0. split; [done|]. split; [by rewrite E2|]. split; [|done]. intros x [->|Hx]%elem_of_cons; [done|auto].
    + exists [], r, (r' :: rs). split; [done|]. split; [done|]. split; [intros x Hx; inversion Hx|done].
Qed.
Lemma asc_ranges_app l k : asc_ranges (l ++ k) → asc_ranges k.
Proof.
  intros [H1 H2]. apply Forall_app in H2 as [_ H2]. split; [|done]. induction l; [done|]. apply StronglySorted_inv in H1 as [H1 _]. auto.
Qed.
Lemma covers_ranges_app l k p : covers (l ++ k) p ↔ covers l p ∨ covers k p.
Proof. apply Exists_app. Qed.
Lemma covers_cons r l p : covers (r :: l) p ↔ Smallest r <= p <= Largest r ∨ covers l p.
Proof. apply Exists_cons. Qed.

Lemma newly_acked_spec lowest largest ps : ∀ rs rl,
  asc_ranges rs → (∀ r, r ∈ rs → lowest <= Smallest r) → last rs = Some rl → Largest rl = largest → StronglySorted pn_lt ps →
  newly_acked true lowest largest rs ps = Ok (filter (λ p, covers rs (PacketNumber p)) ps, None).
Proof.
  induction ps as [|p ps IH]; intros rs rl Ha Hlow Hlast Hlarge Hs; [done|].
  apply StronglySorted_inv in Hs as [Hs Hall]. rewrite Forall_forall in Hall. cbn [newly_acked]. rewrite filter_cons.
  assert (Hle : ∀ x, x ∈ rs → Largest x <= largest).
  { intros x Hx. apply last_Some in Hlast as [k ->]. destruct Ha as [Ha Hb]. apply elem_of_app in Hx as [Hx|Hx%list_elem_of_singleton]; [|by subst; lia].
    clear -Ha Hb Hx Hlarge. induction k as [|y k IHk]; [inversion Hx|]. simpl in Ha. apply StronglySorted_inv in Ha as [Ha Hy].
    apply Forall_cons in Hb as [_ Hb]. apply elem_of_cons in Hx as [->|Hx]; [|by apply IHk].
    rewrite Forall_forall in Hy, Hb. specialize (Hy rl ltac:(set_solver)). specialize (Hb rl ltac:(set_solver)). unfold range_lt in Hy. simpl in Hb. lia. }
  destruct (Z.ltb_spec (PacketNumber p) lowest) as [L|L].
  { rewrite decide_False; [by eapply IH|]. intros (r & Hr & Hc)%Exists_exists. specialize (Hlow r Hr). lia. }
  destruct (Z.ltb_spec largest (PacketNumber p)) as [G|G].
  { rewrite decide_False by (intros (r & Hr & Hc)%Exists_exists; specialize (Hle r Hr); lia).
    rewrite filter_none; [done|]. intros q Hq (r & Hr & Hc)%Exists_exists. specialize (Hle r Hr). specialize (Hall q Hq). unfold pn_lt in Hall. lia. }
  destruct (advance_range_spec (PacketNumber p) rs rl Hlast ltac:(lia)) as (pre & r & rs' & E1 & E2 & E3 & E4). rewrite E1. cbv beta iota.
  assert (Hrest : newly_acked true lowest largest (r :: rs') ps = Ok (filter (λ p, covers rs (PacketNumber p)) ps, None)).
  { rewrite (IH (r :: rs') rl); try done.
    - do 2 f_equal. apply filter_ext_in. intros q Hq. rewrite E2, covers_ranges_app. split; [tauto|]. intros [(x & Hx & Hc)%Exists_exists|]; [|done].
      specialize (E3 x Hx). specialize (Hall q Hq). unfold pn_lt in Hall. lia.
    - rewrite E2 in Ha. by apply asc_ranges_app in Ha.
    - intros x Hx. apply Hlow. rewrite E2. set_solver.
    - rewrite E2, last_app_cons in Hlast. done. }
  destruct (Z.leb_spec (Smallest r) (PacketNumber p)).
  - destruct (Z.ltb_spec (Largest r) (PacketNumber p)); [lia|]. rewrite Hrest. simpl.
    rewrite decide_True; [done|]. rewrite E2, covers_ranges_app, covers_cons. right. left. lia.
  - rewrite decide_False; [done|]. rewrite E2, covers_ranges_app, covers_cons. intros [(x & Hx & Hc)%Exists_exists|[|(x & Hx & Hc)%Exists_exists]].
    + specialize (E3 x Hx). lia.
    + lia.
    + rewrite E2 in Ha. apply asc_ranges_app in Ha as [Ha _]. apply StronglySorted_inv in Ha as [_ Ha]. rewrite Forall_forall in Ha.
      specialize (Ha x Hx). unfold range_lt in Ha. lia.
Qed.
Lemma newly_acked_single lowest largest rs ps : StronglySorted pn_lt ps →
  newly_acked false lowest largest rs ps = Ok (filter (λ p, lowest <= PacketNumber p <= largest) ps, None).
Proof.
  induction ps as [|p ps IH]; intros Hs; [done|]. apply StronglySorted_inv in Hs as [Hs Hall]. cbn [newly_acked]. rewrite filter_cons.
  destruct (Z.ltb_spec (PacketNumber p) lowest); [rewrite decide_False by lia; by apply IH|].
  destruct (Z.ltb_spec largest (PacketNumber p)).
  - rewrite decide_False by lia. rewrite filter_none; [done|]. intros q Hq. rewrite Forall_forall in Hall. specialize (Hall q Hq). unfold pn_lt in Hall. lia.
  - rewrite decide_True by lia. by rewrite IH.
Qed.
(** The packets found are exactly those in one of the ranges. *)
Lemma determine_spec h f lvl sp : getPacketNumberSpace h lvl = Ok sp → hist_ok (history sp) → ack_ok f →
  determineNewlyAckedPackets h f lvl = Ok (filter (λ p, covers (AckRanges f) (PacketNumber p)) (history_packets (history sp)), None).
Proof.
  intros Esp Hh (Hne & Hr & _). unfold determineNewlyAckedPackets. rewrite Esp. cbn. unfold LowestAcked, LargestAcked, HasMissingRanges.
  destruct (AckRanges f) as [|r0 l] eqn:El; [done|]. destruct (last (r0 :: l)) as [rl|] eqn:Hl; [|by apply last_None in Hl].
  cbn. pose proof (ho_sorted _ Hh) as Hs. destruct (Z.ltb_spec 1 (len (r0 :: l))) as [Hm|Hm].
  - rewrite (newly_acked_spec _ _ _ (rev (r0 :: l)) r0); try done.
    + do 2 f_equal. apply filter_ext_in. intros p _. unfold covers. rewrite !Exists_exists. split; intros (x & Hx & Hc); exists x; (split; [|done]).
      * by rewrite list_elem_of_In, <- in_rev, <- list_elem_of_In in Hx.
      * by rewrite list_elem_of_In, <- in_rev, <- list_elem_of_In.
    + by eapply rev_asc.
    + intros x Hx. rewrite list_elem_of_In, <- in_rev, <- list_elem_of_In in Hx.
      apply list_elem_of_lookup in Hx as [i Hi]. rewrite last_lookup in Hl. destruct (decide (i = pred (length (r0 :: l)))) as [->|Hne'].
      { rewrite Hl in Hi. simplify_eq. lia. }
      pose proof (lookup_lt_Some _ _ _ Hi). pose proof (ranges_below_lookup _ _ i (pred (length (r0 :: l))) x rl Hr Hi Hl ltac:(lia)).
      pose proof (ranges_below_at _ _ _ _ Hr Hl). lia.
    + simpl. by rewrite last_snoc.
  - destruct l as [|r1 l]; [|rewrite !len_cons in Hm; pose proof (len_nonneg l); lia]. simpl in Hl. simplify_eq.
    rewrite newly_acked_single by done. do 2 f_equal. apply filter_ext_in. intros p _. rewrite covers_cons. unfold covers. rewrite Exists_nil. tauto.
Qed.

(** * Which packets are lost *)

Definition total (ps : list Packet) : Z := foldr (λ p n, pk_Length p + n) 0 ps.
Definition lost_evs (p : Packet) : list sph_event :=
  concat (map (λ f, match OnLost f with Some cb => [CallLost cb (af_Frame f)] | None => [] end) (pk_Frames p)).
(** The calls other than traces. *)
Definition is_call (e : sph_event) : Prop := match e with TraceLost _ _ _ _ _ => False | _ => True end.
#[export] Instance is_call_dec e : Decision (is_call e).
Proof. destruct e; simpl; apply _. Defined.
Definition frame_calls (l : list sph_event) : list sph_event := filter is_call l.
Record packet_ok (lvl : EncryptionLevel) (p : Packet) : Prop := mkPacketOk {
  po_level : pk_EncryptionLevel p = lvl; po_incl : includedInBytesInFlight p = true;
  po_frames : Forall (λ f, OnLost f ≠ None) (pk_Frames p); po_len : 0 <= pk_Length p;
  po_pn : 0 <= PacketNumber p < 2 ^ 62; po_time : 0 < SendTime p }.

Lemma lost_calls_spec p : Forall (λ f, OnLost f ≠ None) (pk_Frames p) → queueFramesForRetransmission p = Ok (lost_evs p).
Proof.
  unfold queueFramesForRetransmission, lost_evs. induction 1 as [|f fs Hf _ IH]; [done|]. simpl. rewrite IH. by destruct (OnLost f).
Qed.
Lemma frame_calls_app l k : frame_calls (l ++ k) = frame_calls l ++ frame_calls k.
Proof. apply filter_app. Qed.
Lemma frame_calls_all l : Forall is_call l → frame_calls l = l.
Proof. induction 1 as [|e l He _ IH]; [done|]. unfold frame_calls in *. rewrite filter_cons, decide_True by done. by rewrite IH. Qed.
Lemma lost_evs_calls p : frame_calls (lost_evs p) = lost_evs p.
Proof.
  apply frame_calls_all. unfold lost_evs. induction (pk_Frames p) as [|f fs IH]; simpl; [constructor|]. destruct (OnLost f); simpl; [by constructor|done].
Qed.
Lemma acked_calls_calls p : frame_calls (acked_calls p) = acked_calls p.
Proof.
  apply frame_calls_all. unfold acked_calls. induction (pk_Frames p) as [|f fs IH]; simpl; [constructor|]. destruct (OnAcked f); simpl; [by constructor|done].
Qed.

Definition lost_now (la lst : Z) (p : Packet) : Prop :=
  PacketNumber p <= la ∧ (SendTime p < lst ∨ PacketNumber p + packetThreshold <= la).
(** Acknowledged later packets, but not yet lost. *)
Definition pending (la lst : Z) (p : Packet) : Prop := PacketNumber p <= la ∧ ¬ lost_now la lst p.
#[export] Instance lost_now_dec la lst p : Decision (lost_now la lst p).
Proof. unfold lost_now. apply _. Defined.
#[export] Instance pending_dec la lst p : Decision (pending la lst p).
Proof. unfold pending. apply _. Defined.

Lemma find_lost_spec lvl la lst d ps : ∀ t, StronglySorted pn_lt ps → Forall (packet_ok lvl) ps → 0 <= d →
  find_lost la lst d t ps =
    (filter (lost_now la lst) ps, if IsZero t then match filter (pending la lst) ps with [] => t | p :: _ => SendTime p + d end else t).
Proof.
  induction ps as [|p ps IH]; intros t Hs Hok Hd; [by destruct (IsZero t)|]. apply StronglySorted_inv in Hs as [Hs Hall].
  apply Forall_cons in Hok as [Hp Hok]. rewrite Forall_forall in Hall. cbn [find_lost]. rewrite !filter_cons.
  destruct (Z.ltb_spec la (PacketNumber p)).
  { rewrite !decide_False by (unfold pending, lost_now; lia).
    rewrite !filter_none; [by destruct (IsZero t)|..]; intros q Hq; specialize (Hall q Hq); unfold pending, lost_now, pn_lt in *; lia. }
  destruct Hp. unfold packetThreshold in *. rewrite i64_small by lia.
  destruct ((SendTime p <? lst) || (PacketNumber p + 3 <=? la)) eqn:E.
  - assert (Hl : lost_now la lst p).
    { split; [done|]. unfold packetThreshold. apply orb_true_iff in E as [?%Z.ltb_lt|?%Z.leb_le]; lia. }
    rewrite (IH t) by done. rewrite decide_True by done. rewrite (decide_False (P := pending la lst p)); [done|]. intros [_ ?]. done.
  - assert (Hl : ¬ lost_now la lst p).
    { apply orb_false_iff in E as [?%Z.ltb_ge ?%Z.leb_gt]. unfold lost_now, packetThreshold. lia. }
    rewrite (decide_False (P := lost_now la lst p)) by done. rewrite (decide_True (P := pending la lst p)) by done.
    destruct (IsZero t) eqn:Et; rewrite IH by done; [|by rewrite Et].
    unfold IsZero, time_zero in *. destruct (Z.eqb_spec (SendTime p + d) 0); [lia|done].
Qed.
Lemma filter_all {A} (P : A → Prop) `{∀ x, Decision (P x)} (l : list A) : (∀ x, x ∈ l → P x) → filter P l = l.
Proof.
  induction l as [|x l IH]; intros HP; [done|]. rewrite filter_cons, decide_True by (apply HP; constructor). f_equal.
  apply IH. intros y Hy. apply HP. by constructor.
Qed.
Lemma total_app l k : total (l ++ k) = total l + total k.
Proof. induction l as [|p l IH]; simpl; [lia|]. rewrite IH. lia. Qed.
Lemma total_nonneg lvl l : Forall (packet_ok lvl) l → 0 <= total l.
Proof. induction 1 as [|p l [] _ IH]; simpl; lia. Qed.
(** Removing one packet of a sorted list. *)
Lemma without_total l p : StronglySorted pn_lt l → p ∈ l → total l = pk_Length p + total (without_pn (PacketNumber p) l).
Proof.
  induction 1 as [|x l Hs IH Hall]; intros Hp; [inversion Hp|]. unfold without_pn in *. rewrite filter_cons. rewrite Forall_forall in Hall.
  apply elem_of_cons in Hp as [->|Hp].
  - rewrite decide_False by (intros Hn; by apply Hn). simpl. f_equal. f_equal. symmetry. apply filter_all. intros q Hq. specialize (Hall q Hq). unfold pn_lt in Hall. lia.
  - specialize (Hall p Hp). unfold pn_lt in Hall. rewrite decide_True by lia. simpl. rewrite IH by done. lia.
Qed.

(** * The effect on the handler *)

(** The handler with the history of one space, the bytes in flight, the
    congestion controller and the confirmed ACKs replaced. *)
Definition upd (h : sentPacketHandler) (lvl : EncryptionLevel) (sp : packetNumberSpace) (hi : sentPacketHistory) (n : Z) (c : cubicSender) (m : Z)
    : sentPacketHandler := set_lowest (set_flight (set_space h lvl (set_history sp hi)) n c) m.
Lemma get_set_space h lvl sp sp' : getPacketNumberSpace h lvl = Ok sp → getPacketNumberSpace (set_space h lvl sp') lvl = Ok sp'.
Proof. destruct lvl; done. Qed.
Lemma upd_upd h lvl sp hi n c m hi' n' c' m' :
  upd (upd h lvl sp hi n c m) lvl (set_history sp hi) hi' n' c' m' = upd h lvl sp hi' n' c' m'.
Proof. by destruct lvl. Qed.
Lemma upd_id h lvl sp : getPacketNumberSpace h lvl = Ok sp →
  upd h lvl sp (history sp) (bytesInFlight h) (congestion h) (lowestNotConfirmedAcked h) = h.
Proof.
  intros E. destruct h as [? ? ? [i|] [k|] o ? ? ? ? ? ? ? ?], sp; destruct lvl; try discriminate E; cbn in E; injection E as ->; reflexivity.
Qed.
Lemma get_upd h lvl sp hi n c m : getPacketNumberSpace h lvl = Ok sp → getPacketNumberSpace (upd h lvl sp hi n c m) lvl = Ok (set_history sp hi).
Proof. destruct lvl; done. Qed.
Definition not_in (ps : list Packet) (q : Packet) : Prop := PacketNumber q ∉ map PacketNumber ps.
#[export] Instance not_in_dec ps q : Decision (not_in ps q).
Proof. unfold not_in. apply _. Defined.
Lemma without_not_in p ps l : filter (not_in ps) (without_pn (PacketNumber p) l) = filter (not_in (p :: ps)) l.
Proof.
  unfold without_pn. rewrite list_filter_filter. apply filter_ext_in. intros q _. unfold not_in. simpl. rewrite elem_of_cons. split; [intros [? ?] [?|?]; done|].
  intros Hn. split; [intros ?; apply Hn; by right|intros ?; apply Hn; by left].
Qed.

(** What the two loops need of the space they work on. *)
Record loop_pre (h : sentPacketHandler) (lvl : EncryptionLevel) (sp : packetNumberSpace) (ps : list Packet) : Prop := mkLoopPre {
  lp_get : getPacketNumberSpace h lvl = Ok sp; lp_hist : hist_ok (history sp);
  lp_ok : Forall (packet_ok lvl) (history_packets (history sp));
  lp_sorted : StronglySorted pn_lt ps; lp_sub : ∀ p, p ∈ ps → p ∈ history_packets (history sp);
  lp_bytes : total (history_packets (history sp)) <= bytesInFlight h < 2 ^ 64; lp_cong : reno_ok (congestion h) }.

Lemma loop_head h lvl sp p ps : loop_pre h lvl sp (p :: ps) →
  packet_ok lvl p ∧ ∃ hi, history_Remove (history sp) (PacketNumber p) = (hi, None)
  ∧ history_packets hi = without_pn (PacketNumber p) (history_packets (history sp))
  ∧ 0 <= bytesInFlight h - pk_Length p < 2 ^ 64
  ∧ ∀ c m, reno_ok c → loop_pre (upd h lvl sp hi (bytesInFlight h - pk_Length p) c m) lvl (set_history sp hi) ps.
Proof.
  intros [Hg Hh Hok Hs Hsub Hb Hc]. assert (Hp : p ∈ history_packets (history sp)) by (apply Hsub; constructor).
  rewrite Forall_forall in Hok. pose proof (Hok p Hp) as Hpok. split; [done|].
  destruct (Remove_spec _ p Hh Hp) as (hi & E & Hhi & Epk). exists hi. split; [done|]. split; [done|].
  pose proof (without_total _ p (ho_sorted _ Hh) Hp) as Ht. destruct Hpok.
  assert (Hok' : Forall (packet_ok lvl) (without_pn (PacketNumber p) (history_packets (history sp)))).
  { apply Forall_forall. intros q [_ Hq]%list_elem_of_filter. by apply Hok. }
  pose proof (total_nonneg _ _ Hok') as Hn. split; [lia|]. intros c m Hc'.
  apply StronglySorted_inv in Hs as [Hs Hall]. rewrite Forall_forall in Hall.
  split; simpl; try done.
  - by apply get_upd.
  - by rewrite Epk.
  - intros q Hq. rewrite Epk. apply list_elem_of_filter. split; [|apply Hsub; by constructor]. specialize (Hall q Hq). unfold pn_lt in Hall. lia.
  - rewrite Epk. lia.
Qed.
Lemma filter_not_in_nil (l : list Packet) : filter (not_in []) l = l.
Proof. apply filter_all. intros q _ H. inversion H. Qed.

Lemma declare_lost_spec now prior ps : ∀ h lvl sp, loop_pre h lvl sp ps →
  ∃ hi c calls, declare_lost h now lvl prior ps = Ok (upd h lvl sp hi (bytesInFlight h - total ps) c (lowestNotConfirmedAcked h), calls)
  ∧ hist_ok hi ∧ history_packets hi = filter (not_in ps) (history_packets (history sp)) ∧ reno_ok c
  ∧ frame_calls calls = concat (map lost_evs ps).
Proof.
  induction ps as [|p ps IH]; intros h lvl sp Hpre.
  { exists (history sp), (congestion h), []. simpl. rewrite Z.sub_0_r, upd_id by apply Hpre. split; [done|]. split; [apply Hpre|].
    rewrite filter_not_in_nil. split; [done|]. split; [apply Hpre|done]. }
  destruct (loop_head _ _ _ _ _ Hpre) as (Hp & hi & E & Epk & Hb & Hnext). cbn [declare_lost].
  rewrite lost_calls_spec by apply Hp. cbn [mbind outcome_bind]. rewrite (po_incl _ _ Hp). rewrite (u64_small (bytesInFlight h - _)) by done.
  set (c1 := Congestion.OnPacketLost _ _ _ _). assert (Hc1 : reno_ok c1) by (apply (reno_apply _ (CLost _ _ _)), Hpre).
  assert (Eg : getPacketNumberSpace (set_flight h (bytesInFlight h - pk_Length p) c1) lvl = Ok sp) by (destruct Hpre; by destruct lvl).
  rewrite Eg. cbn [mbind outcome_bind]. rewrite E. cbn [fst].
  set (h1 := set_space _ _ _). assert (Eh1 : h1 = upd h lvl sp hi (bytesInFlight h - pk_Length p) c1 (lowestNotConfirmedAcked h)) by reflexivity.
  set (tr := if traceCallback h1 then _ else _). assert (Htr : frame_calls tr = []) by (unfold tr; by destruct (traceCallback h1)).
  clearbody h1 tr. subst h1. specialize (Hnext c1 (lowestNotConfirmedAcked h) Hc1).
  destruct (IH _ _ _ Hnext) as (hi' & c' & calls & E' & H1 & H2 & H3 & H4). rewrite E'. cbn [mbind outcome_bind].
  rewrite upd_upd. cbn [bytesInFlight lowestNotConfirmedAcked upd set_lowest set_flight]. exists hi', c', (lost_evs p ++ tr ++ calls).
  split. { do 3 f_equal. unfold total. simpl. lia. }
  split; [done|]. split; [rewrite H2; simpl; rewrite Epk; apply without_not_in|]. split; [done|].
  rewrite !frame_calls_app, Htr, H4, lost_evs_calls. done.
Qed.

Lemma ack_packets_spec prior t ps : ∀ h lvl sp, loop_pre h lvl sp ps →
  ∃ hi c m, ack_packets h lvl prior t ps = Ok (upd h lvl sp hi (bytesInFlight h - total ps) c m, concat (map acked_calls ps), None)
  ∧ hist_ok hi ∧ history_packets hi = filter (not_in ps) (history_packets (history sp)) ∧ reno_ok c.
Proof.
  induction ps as [|p ps IH]; intros h lvl sp Hpre.
  { exists (history sp), (congestion h), (lowestNotConfirmedAcked h). simpl. rewrite Z.sub_0_r, upd_id by apply Hpre. split; [done|]. split; [apply Hpre|].
    rewrite filter_not_in_nil. split; [done|apply Hpre]. }
  destruct (loop_head _ _ _ _ _ Hpre) as (Hp & hi & E & Epk & Hb & Hnext). cbn [ack_packets].
  set (h0 := if _ && _ then _ else h).
  assert (Eh0 : ∃ m, h0 = set_lowest h m).
  { unfold h0. destruct (_ && _); [by eauto|]. exists (lowestNotConfirmedAcked h). by destruct h. }
  destruct Eh0 as [m Eh0]. clearbody h0. subst h0.
  unfold onPacketAcked. rewrite (po_level _ _ Hp), (po_incl _ _ Hp).
  assert (Eg : getPacketNumberSpace (set_lowest h m) lvl = Ok sp) by (destruct Hpre; by destruct lvl).
  rewrite Eg. cbn [mbind outcome_bind].
  assert (Hget : GetPacket (history sp) (PacketNumber p) = Some p).
  { apply GetPacket_spec; [apply Hpre|]. split; [|done]. eapply lp_sub; [done|constructor]. }
  rewrite Hget, E. cbn [mbind outcome_bind bytesInFlight set_lowest congestion]. rewrite (u64_small (bytesInFlight h - _)) by done.
  set (c1 := OnPacketAcked _ _ _ _ _ _). assert (Hc1 : reno_ok c1) by (apply (reno_apply _ (CAcked _ _ _ _ _)), Hpre).
  set (h1 := set_flight (set_space _ _ _) _ _). assert (Eh1 : h1 = upd h lvl sp hi (bytesInFlight h - pk_Length p) c1 m) by reflexivity.
  clearbody h1 c1. subst h1. specialize (Hnext c1 m Hc1).
  destruct (IH _ _ _ Hnext) as (hi' & c' & m' & E' & H1 & H2 & H3). rewrite E'. cbn [mbind outcome_bind].
  rewrite upd_upd. exists hi', c', m'. split. { do 4 f_equal. unfold total. simpl. lia. }
  split; [done|]. split; [rewrite H2; simpl; rewrite Epk; apply without_not_in|done].
Qed.

(** * The invariant of the handler *)

Record space_ok (lvl : EncryptionLevel) (sp : packetNumberSpace) : Prop := mkSpaceOk {
  sk_hist : hist_ok (history sp); sk_ok : Forall (packet_ok lvl) (history_packets (history sp));
  sk_sent : ∀ p, p ∈ history_packets (history sp) → PacketNumber p <= largestSent sp }.
Definition space_packets (sp : option packetNumberSpace) : list Packet :=
  match sp with Some sp => history_packets (history sp) | None => [] end.
(** All packets that are tracked, and those outside of one space. *)
Definition tracked (h : sentPacketHandler) : list Packet :=
  space_packets (initialPackets h) ++ space_packets (handshakePackets h) ++ history_packets (history (oneRTTPackets h)).
Definition others (h : sentPacketHandler) (lvl : EncryptionLevel) : list Packet :=
  (if decide (lvl = EncryptionInitial) then [] else space_packets (initialPackets h))
  ++ (if decide (lvl = EncryptionHandshake) then [] else space_packets (handshakePackets h))
  ++ (if decide (lvl = Encryption1RTT) then [] else history_packets (history (oneRTTPackets h))).
Record handler_ok (h : sentPacketHandler) : Prop := mkHandlerOk {
  hk_space : ∀ lvl sp, getPacketNumberSpace h lvl = Ok sp → space_ok lvl sp;
  hk_bytes : bytesInFlight h = total (tracked h); hk_bound : total (tracked h) < 2 ^ 64; hk_cong : reno_ok (congestion h) }.

Lemma perm_mid {A} (a b c : list A) : a ++ b ++ c ≡ₚ b ++ a ++ c.
Proof. rewrite !app_assoc. by rewrite (Permutation_app_comm a b). Qed.
Lemma perm_last {A} (a b c : list A) : a ++ b ++ c ≡ₚ c ++ a ++ b.
Proof. rewrite app_assoc. apply Permutation_app_comm. Qed.
Lemma tracked_split h lvl sp : getPacketNumberSpace h lvl = Ok sp → tracked h ≡ₚ history_packets (history sp) ++ others h lvl.
Proof.
  intros E. unfold tracked, others. destruct h as [? ? ? [i|] [k|] o ? ? ? ? ? ? ? ?]; destruct lvl; try discriminate E; cbn in E; injection E as <-; cbn;
    rewrite ?app_nil_r; first [done | apply Permutation_app_comm | apply perm_mid | apply perm_last].
Qed.
Lemma others_set h lvl sp : others (set_space h lvl sp) lvl = others h lvl.
Proof. destruct lvl; done. Qed.
Lemma others_upd h lvl sp hi n c m : others (upd h lvl sp hi n c m) lvl = others h lvl.
Proof. destruct lvl; done. Qed.
#[export] Instance total_perm : Proper ((≡ₚ) ==> (=)) total.
Proof. intros l k. induction 1; simpl; lia. Qed.
Lemma handler_ok_space h lvl sp sp' n c :
  handler_ok h → getPacketNumberSpace h lvl = Ok sp → space_ok lvl sp' → reno_ok c →
  n = bytesInFlight h - total (history_packets (history sp)) + total (history_packets (history sp')) → n < 2 ^ 64 →
  handler_ok (set_flight (set_space h lvl sp') n c).
Proof.
  intros [H1 H2 H3 H4] E Hsp Hc Hn Hb.
  assert (E'' : getPacketNumberSpace (set_flight (set_space h lvl sp') n c) lvl = Ok sp') by (by destruct lvl).
  assert (Ht : total (tracked (set_flight (set_space h lvl sp') n c)) = n).
  { rewrite (tracked_split _ _ _ E''), total_app. replace (others _ lvl) with (others h lvl) by (by destruct lvl).
    rewrite (tracked_split _ _ _ E), total_app in H2. lia. }
  split; simpl; [|by rewrite Ht|by rewrite Ht|done].
  intros lvl' sp0 E0. destruct (decide (lvl' = lvl)) as [->|Hne].
  - rewrite E'' in E0. by injection E0 as <-.
  - apply H1. destruct lvl, lvl'; try done.
Qed.
(** Changes that concern neither the packets nor the bytes in flight. *)
Lemma handler_ok_ext h h' : handler_ok h → (∀ lvl, getPacketNumberSpace h' lvl = getPacketNumberSpace h lvl) →
  tracked h' = tracked h → bytesInFlight h' = bytesInFlight h → reno_ok (congestion h') → handler_ok h'.
Proof. intros [H1 H2 H3 H4] E1 E2 E3 E4. split; [|by rewrite E2, E3|by rewrite E2|done]. intros lvl sp. rewrite E1. apply H1. Qed.

Lemma filter_not_in_filter (P : Packet → Prop) `{∀ x, Decision (P x)} l :
  StronglySorted pn_lt l → filter (not_in (filter P l)) l = filter (λ p, ¬ P p) l.
Proof.
  intros Hs. apply filter_ext_in. intros q Hq. unfold not_in. split.
  - intros Hn HP. apply Hn. apply list_elem_of_fmap. exists q. split; [done|]. by apply list_elem_of_filter.
  - intros HP (p & E & [Hp Hin]%list_elem_of_filter)%list_elem_of_fmap. apply HP. by rewrite (sorted_pn_inj _ _ _ Hs Hq Hin E).
Qed.
Lemma total_filter (P : Packet → Prop) `{∀ x, Decision (P x)} l : total l = total (filter P l) + total (filter (λ p, ¬ P p) l).
Proof.
  induction l as [|p l IH]; [done|]. rewrite !filter_cons. simpl total at 1. rewrite IH.
  destruct (decide (P p)), (decide (¬ P p)); simpl; try tauto; lia.
Qed.
Lemma space_ok_filter lvl sp sp' (P : Packet → Prop) `{∀ x, Decision (P x)} :
  space_ok lvl sp → hist_ok (history sp') → largestSent sp' = largestSent sp →
  history_packets (history sp') = filter P (history_packets (history sp)) → space_ok lvl sp'.
Proof.
  intros [H1 H2 H3] Hh Es Ep. rewrite Forall_forall in H2. split; [done| |].
  - rewrite Ep. apply Forall_forall. intros p [_ Hp]%list_elem_of_filter. by apply H2.
  - rewrite Ep, Es. intros p [_ Hp]%list_elem_of_filter. by apply H3.
Qed.
Lemma total_split h lvl sp : handler_ok h → getPacketNumberSpace h lvl = Ok sp →
  0 <= total (history_packets (history sp)) <= bytesInFlight h ∧ bytesInFlight h < 2 ^ 64.
Proof.
  intros [H1 H2 H3 H4] E. rewrite H2. pose proof (total_nonneg _ _ (sk_ok _ _ (H1 _ _ E))) as Hn.
  assert (Ho : 0 <= total (others h lvl)).
  { unfold others. rewrite !total_app.
    assert (Hg : ∀ lvl' sp', getPacketNumberSpace h lvl' = Ok sp' → 0 <= total (history_packets (history sp'))).
    { intros lvl' sp' E'. by eapply total_nonneg, sk_ok, H1. }
    pose proof (Hg Encryption1RTT _ eq_refl).
    assert (0 <= total (space_packets (initialPackets h))).
    { destruct (initialPackets h) as [sp'|] eqn:Ei; [|done]. apply (Hg EncryptionInitial). cbn. by rewrite Ei. }
    assert (0 <= total (space_packets (handshakePackets h))).
    { destruct (handshakePackets h) as [sp'|] eqn:Ei; [|done]. apply (Hg EncryptionHandshake). cbn. by rewrite Ei. }
    repeat case_decide; simpl; lia. }
  rewrite (tracked_split _ _ _ E), total_app in *. lia.
Qed.
Lemma lossDelay_pos r : 0 <= lossDelay_of r.
Proof. unfold lossDelay_of, MaxDuration, TimerGranularity, Millisecond, Microsecond. zcases; lia. Qed.

Lemma detectLost_spec h lvl sp now prior : handler_ok h → getPacketNumberSpace h lvl = Ok sp →
  let P := lost_now (largestAcked sp) (now - lossDelay_of (rttStats h)) in
  let l := history_packets (history sp) in
  ∃ sp' n c calls, detectLostPackets h now lvl prior = Ok (set_flight (set_space h lvl sp') n c, calls)
  ∧ handler_ok (set_flight (set_space h lvl sp') n c)
  ∧ history_packets (history sp') = filter (λ p, ¬ P p) l ∧ n = bytesInFlight h - total (filter P l)
  ∧ largestAcked sp' = largestAcked sp ∧ largestSent sp' = largestSent sp ∧ pns sp' = pns sp
  ∧ lossTime sp' = match filter (pending (largestAcked sp) (now - lossDelay_of (rttStats h))) l with [] => 0 | p :: _ => SendTime p + lossDelay_of (rttStats h) end
  ∧ frame_calls calls = concat (map lost_evs (filter P l)).
Proof.
  intros Hok E P l. destruct (hk_space _ Hok _ _ E) as [Hh Hpk Hsent]. unfold detectLostPackets. rewrite E. cbn [mbind outcome_bind].
  rewrite (find_lost_spec lvl); [|apply (ho_sorted _ Hh)|done|apply lossDelay_pos]. change (IsZero 0) with true. cbv iota. fold l.
  set (T := match filter (pending _ _) l with [] => 0 | _ => _ end). fold P.
  set (sp1 := set_lossTime sp T). pose proof (total_split _ _ _ Hok E) as [Hb1 Hb2].
  assert (Hpre : loop_pre (set_space h lvl sp1) lvl sp1 (filter P l)).
  { split; simpl; try done; [by eapply get_set_space|apply filter_sorted, (ho_sorted _ Hh)| |fold l; fold l in Hb1; lia|apply Hok].
    intros p [_ Hp]%list_elem_of_filter. done. }
  destruct (declare_lost_spec now prior _ _ _ _ Hpre) as (hi & c & calls & E' & H1 & H2 & H3 & H4). rewrite E'.
  simpl in H2. fold l in H2. rewrite filter_not_in_filter in H2 by apply (ho_sorted _ Hh).
  set (n := bytesInFlight h - total (filter P l)).
  assert (Eupd : upd (set_space h lvl sp1) lvl sp1 hi (bytesInFlight (set_space h lvl sp1) - total (filter P l)) c
     (lowestNotConfirmedAcked (set_space h lvl sp1)) = set_flight (set_space h lvl (set_history sp1 hi)) n c) by (by destruct lvl).
  rewrite Eupd. exists (set_history sp1 hi), n, c, calls. split; [done|].
  pose proof (total_filter P l) as Ht.
  assert (Hsp : space_ok lvl (set_history sp1 hi)).
  { eapply (space_ok_filter lvl sp _ (λ p, ¬ P p)); try done. }
  split; [|done]. eapply handler_ok_space; try done.
  - simpl. rewrite H2. fold l. unfold n. lia.
  - unfold n. assert (0 <= total (filter P l)); [|lia]. eapply (total_nonneg lvl). apply Forall_forall. rewrite Forall_forall in Hpk.
    intros p [_ Hp]%list_elem_of_filter. by apply Hpk.
Qed.

Lemma validate_spec f l : ack_ok f → ∃ b, validate_skipped f l = Ok b ∧ (b = true ↔ ¬ Exists (covers (AckRanges f)) l).
Proof.
  intros (Hne & Hr & _). induction l as [|pn l IH]; simpl.
  { exists true. split; [done|]. rewrite Exists_nil. tauto. }
  destruct (AcksPacket_ranges f pn Hne Hr) as (b & E & Hb). rewrite E. cbn. destruct b.
  - exists false. split; [done|]. rewrite Exists_cons. split; [done|]. intros Hn. exfalso. apply Hn. left. by apply Hb.
  - destruct IH as (b & E' & Hb'). exists b. split; [done|]. rewrite Hb', Exists_cons. split; [|tauto].
    intros Hn [Hc|Hc]; [by apply Hb in Hc|done].
Qed.

(** The alarm in closed form. *)
Lemma timer_spec h : setLossDetectionTimer h = set_alarm h (if hasOutstandingPackets h then lastSentAckElicitingPacketTime h + i64 (Z.shiftl (PTO (rttStats h)) (ptoCount h)) else 0).
Proof.
  unfold setLossDetectionTimer. destruct (getEarliestLossTime h) as [t ?]. destruct (negb (IsZero t)).
  - change (hasOutstandingPackets (set_alarm h t)) with (hasOutstandingPackets h). by destruct (hasOutstandingPackets h).
  - by destruct (hasOutstandingPackets h).
Qed.
Lemma handler_ok_timer h : handler_ok h → handler_ok (setLossDetectionTimer h).
Proof. intros H. rewrite timer_spec. apply (handler_ok_ext h); [done|by intros []|done|done|apply H]. Qed.

(** What [ReceivedAck] does to a space with the packets [l]. *)
Definition ack_effect (h h' : sentPacketHandler) (lvl : EncryptionLevel) (sp : packetNumberSpace) (f : AckFrame) (largest t : Z) (calls : list sph_event) : Prop :=
  let l := history_packets (history sp) in
  let P p := covers (AckRanges f) (PacketNumber p) in
  let acked := filter P l in
  let rest := filter (λ p, ¬ P p) l in
  let la := MaxPacketNumber (largestAcked sp) largest in
  let L := lost_now la (t - lossDelay_of (rttStats h')) in
  let lost := if decide (acked = []) then [] else filter L rest in
  ∃ sp', getPacketNumberSpace h' lvl = Ok sp' ∧ others h' lvl = others h lvl ∧ largestAcked sp' = la
  ∧ history_packets (history sp') = (if decide (acked = []) then l else filter (λ p, ¬ L p) rest)
  ∧ bytesInFlight h' = bytesInFlight h - total acked - total lost
  ∧ frame_calls calls = concat (map acked_calls acked) ++ concat (map lost_evs lost)
  ∧ (acked ≠ [] → ptoCount h' = 0 ∧ numProbesToSend h' = 0).

Lemma received_ack_ok h h1 lvl sp1 f r rest t :
  handler_ok h1 → getPacketNumberSpace h1 lvl = Ok sp1 → ack_ok f → AckRanges f = r :: rest →
  ∃ h' calls, ('(ackedPackets, err) ← determineNewlyAckedPackets h1 f lvl;
     match err with
     | Some e => Ok (h1, [], Some e)
     | None =>
         if len ackedPackets =? 0 then Ok (h1, [], None) else
         '(h, calls, err) ← ack_packets h1 lvl (bytesInFlight h1) t ackedPackets;
         match err with
         | Some e => Ok (h, calls, Some e)
         | None => '(h, calls') ← detectLostPackets h t lvl (bytesInFlight h1); Ok (setLossDetectionTimer (set_pto h 0 0), calls ++ calls', None)
         end
     end) = Ok (h', calls, None) ∧ handler_ok h'
  ∧ (bytesInFlight h = bytesInFlight h1 → others h lvl = others h1 lvl →
     ∀ sp, history sp = history sp1 → MaxPacketNumber (largestAcked sp) (Largest r) = largestAcked sp1 → ack_effect h h' lvl sp f (Largest r) t calls).
Proof.
  intros Hok E Hf Er. destruct (hk_space _ Hok _ _ E) as [Hh Hpk Hsent]. rewrite (determine_spec _ _ _ _ E Hh Hf). cbn [mbind outcome_bind].
  set (l := history_packets (history sp1)) in *. set (P := λ p, covers (AckRanges f) (PacketNumber p)). fold P.
  pose proof (total_split _ _ _ Hok E) as [Hb1 Hb2]. fold l in Hb1.
  destruct (Z.eqb_spec (len (filter P l)) 0) as [Hz|Hz].
  { assert (Ea : filter P l = []) by (destruct (filter P l); [done|unfold len in Hz; simpl in Hz; lia]).
    exists h1, []. split; [done|]. split; [done|]. intros Hbytes Hoth sp Ehist Ela. unfold ack_effect. rewrite Ehist. fold l P. rewrite Ea. rewrite !decide_True by done.
    exists sp1. simpl. split_and!; try done; lia. }
  assert (Ea : filter P l ≠ []) by (intros Ea; rewrite Ea in Hz; done).
  assert (Hpre : loop_pre h1 lvl sp1 (filter P l)).
  { split; try done; [apply filter_sorted, (ho_sorted _ Hh)| |fold l; lia|apply Hok]. intros p [_ Hp]%list_elem_of_filter. done. }
  destruct (ack_packets_spec (bytesInFlight h1) t _ _ _ _ Hpre) as (hi & c & m & E1 & A1 & A2 & A3). rewrite E1. cbn [mbind outcome_bind].
  fold l in A2. rewrite filter_not_in_filter in A2 by apply (ho_sorted _ Hh). pose proof (total_filter P l) as Ht. cbv beta in Ht, A2.
  set (n := bytesInFlight h1 - total (filter P l)) in *. set (h2 := upd h1 lvl sp1 hi n c m).
  assert (Hsp2 : space_ok lvl (set_history sp1 hi)) by (by eapply (space_ok_filter lvl sp1 _ (λ p, ¬ P p))).
  assert (Hn : 0 <= total (filter P l)).
  { eapply (total_nonneg lvl). apply Forall_forall. rewrite Forall_forall in Hpk. intros p [_ Hp]%list_elem_of_filter. by apply Hpk. }
  assert (Hok2 : handler_ok h2).
  { apply (handler_ok_ext (set_flight (set_space h1 lvl (set_history sp1 hi)) n c)); [|by intros []|done|done|done].
    eapply handler_ok_space; try done; [cbn [history set_history]; rewrite A2; fold l; unfold n; lia|unfold n; lia]. }
  pose proof (get_upd h1 lvl sp1 hi n c m E) as E2. fold h2 in E2.
  destruct (detectLost_spec h2 lvl _ t (bytesInFlight h1) Hok2 E2) as (sp3 & n3 & c3 & calls & E3 & D1 & D2 & D3 & D4 & D5 & D6 & D7 & D8).
  rewrite E3. cbn [mbind outcome_bind]. cbn [history set_history largestAcked] in *. rewrite A2 in *.
  eexists _, _. split; [done|]. split.
  { apply handler_ok_timer. apply (handler_ok_ext _ _ D1); [by intros []|done|done|apply D1]. }
  intros Hbytes Hoth sp Ehist Ela. unfold ack_effect. rewrite Ehist. fold l P. rewrite timer_spec. rewrite !decide_False by done.
  change (rttStats (set_alarm _ _)) with (rttStats h1). change (rttStats h2) with (rttStats h1) in *. rewrite Ela.
  exists sp3. split; [destruct lvl; try done|]. split; [rewrite Hoth; by destruct lvl|].
  split; [done|]. split; [done|]. split.
  { change (bytesInFlight (set_alarm _ _)) with n3. rewrite D3. change (bytesInFlight h2) with n. unfold n. rewrite Hbytes. reflexivity. } split; [|done].
  rewrite frame_calls_app, D8. f_equal. clear. induction (filter P l) as [|p k IH]; [done|]. simpl. by rewrite frame_calls_app, IH, acked_calls_calls.
Qed.

Lemma received_ack_spec (h : sentPacketHandler) (lvl : EncryptionLevel) (sp : packetNumberSpace) (f : AckFrame) (r : AckRange)
    (rest : list AckRange) (t : Z) :
  handler_ok h → getPacketNumberSpace h lvl = Ok sp → ack_ok f → AckRanges f = r :: rest →
  ∃ h' calls err, ReceivedAck h f lvl t = Ok (h', calls, err) ∧ handler_ok h'
  ∧ if decide (largestSent sp < Largest r) then err = Some errUnsent ∧ h' = h ∧ calls = []
    else if decide (Exists (covers (AckRanges f)) (png_history (pns sp))) then err = Some errSkipped ∧ tracked h' = tracked h ∧ calls = []
    else err = None ∧ ack_effect h h' lvl sp f (Largest r) t calls.
Proof.
  intros Hok E Hf Er. unfold ReceivedAck. rewrite E. cbn [mbind outcome_bind]. unfold LargestAcked. rewrite Er. cbn [mbind outcome_bind].
  destruct (Z.ltb_spec (largestSent sp) (Largest r)).
  { exists h, [], (Some errUnsent). rewrite decide_True by done. done. }
  set (sp1 := set_largestAcked sp _). set (h1 := set_space h lvl sp1).
  pose proof (get_set_space h lvl sp sp1 E) as E1. fold h1 in E1. pose proof (total_split _ _ _ Hok E) as [Hb1 Hb2].
  assert (Hok1 : handler_ok h1).
  { apply (handler_ok_ext (set_flight h1 (bytesInFlight h) (congestion h))); [|by intros []|done|done|apply Hok].
    eapply handler_ok_space; try done; [destruct (hk_space _ Hok _ _ E); by split|apply Hok|simpl; lia]. }
  unfold Validate. destruct (validate_spec f (png_history (pns sp)) Hf) as (b & Ev & Hb). cbn [pns set_largestAcked]. change (pns sp1) with (pns sp). rewrite Ev. cbn [mbind outcome_bind].
  rewrite <- Er. destruct b; cbn [negb].
  2:{ exists h1, [], (Some errSkipped). split; [done|]. split; [done|]. rewrite decide_False by lia. rewrite decide_True.
      - split; [done|]. split; [|done]. unfold h1. destruct lvl; try discriminate E; cbn in *; unfold tracked; cbn; repeat case_match; simplify_eq; done.
      - destruct (decide (Exists (covers (AckRanges f)) (png_history (pns sp)))) as [|Hn]; [done|]. by apply Hb in Hn. }
  set (h2 := match GetPacket _ _ with Some p => _ | None => h1 end).
  assert (H2 : handler_ok h2 ∧ getPacketNumberSpace h2 lvl = Ok sp1 ∧ bytesInFlight h2 = bytesInFlight h ∧ others h2 lvl = others h lvl).
  { unfold h2. destruct (GetPacket _ _) as [p|].
    - split; [|split; [by destruct lvl|split; [done|by destruct lvl]]]. apply (handler_ok_ext _ _ Hok1); [by intros []|done|done|]. cbn. apply (reno_apply _ (CMaybeExit _)), Hok.
    - split; [done|]. split; [done|]. split; [done|]. apply others_set. }
  clearbody h2. destruct H2 as (Hok2 & E2 & B2 & O2).
  destruct (received_ack_ok h h2 lvl sp1 f r rest t Hok2 E2 Hf Er) as (h' & calls & E' & Hok' & Heff).
  exists h', calls, None. split; [exact E'|]. split; [done|].
  rewrite decide_False by lia. rewrite decide_False by (by apply Hb). split; [done|]. by apply Heff.
Qed.

(** * Sending *)

(** A packet the session may hand over: a fresh number of a live space, every
    frame with a callback for its loss, as [ToAckHandlerPacket] makes them; STREAM
    frames have a callback for their acknowledgement, the others have none. *)
Record send_ok (h : sentPacketHandler) (p : Packet) : Prop := mkSendOk {
  so_space : ∃ sp, getPacketNumberSpace h (pk_EncryptionLevel p) = Ok sp ∧ largestSent sp < PacketNumber p;
  so_lost : Forall (λ f, OnLost f ≠ None) (pk_Frames p); so_len : 0 <= pk_Length p; so_bytes : bytesInFlight h + pk_Length p < 2 ^ 64;
  so_pn : 0 <= PacketNumber p < 2 ^ 62; so_time : 0 < SendTime p }.

Definition spaces (h : sentPacketHandler) := (initialPackets h, handshakePackets h, oneRTTPackets h).
Lemma spaces_get h h' lvl : spaces h' = spaces h → getPacketNumberSpace h' lvl = getPacketNumberSpace h lvl.
Proof. unfold spaces. intros [= E1 E2 E3]. destruct lvl; cbn; by rewrite ?E1, ?E2, ?E3. Qed.
Lemma spaces_tracked h h' : spaces h' = spaces h → tracked h' = tracked h.
Proof. unfold spaces. intros [= E1 E2 E3]. unfold tracked. by rewrite E1, E2, E3. Qed.
Lemma spaces_set h h' lvl a b : spaces h' = spaces (set_space h lvl a) → spaces (set_space h' lvl b) = spaces (set_space h lvl b).
Proof.
  unfold spaces. intros E. destruct lvl.
  - exact E.
  - change ((Some b, handshakePackets h', oneRTTPackets h') = (Some b, handshakePackets h, oneRTTPackets h)). by injection E as _ -> ->.
  - change ((initialPackets h', Some b, oneRTTPackets h') = (initialPackets h, Some b, oneRTTPackets h)). by injection E as -> _ ->.
  - change ((initialPackets h', handshakePackets h', b) = (initialPackets h, handshakePackets h, b)). by injection E as -> -> _.
Qed.
Lemma handler_ok_spaces h h' : handler_ok h → spaces h' = spaces h → bytesInFlight h' = bytesInFlight h → reno_ok (congestion h') → handler_ok h'.
Proof. intros Hok E B C. apply (handler_ok_ext h); try done; [intros lvl; by apply spaces_get|by apply spaces_tracked]. Qed.

Lemma sent_spec h p : handler_ok h → send_ok h p →
  ∃ h', SentPacket h p = Ok h' ∧ handler_ok h' ∧ (if decide (pk_Frames p = []) then tracked h' = tracked h else tracked h' ≡ₚ set_included p :: tracked h).
Proof.
  intros Hok [(sp & E & Hpn) Hlost Hlen Hb Hpn' Ht]. pose proof (total_split _ _ _ Hok E) as [Hb1 Hb2]. destruct (hk_space _ Hok _ _ E) as [Hh Hpk Hsent].
  set (lvl := pk_EncryptionLevel p) in *. set (sp1 := set_largestSent sp (PacketNumber p)).
  unfold SentPacket, sentPacketImpl. fold lvl. rewrite E. cbn [mbind outcome_bind]. fold sp1. set (h1 := set_space h lvl sp1).
  assert (Hok1 : handler_ok h1).
  { apply (handler_ok_ext (set_flight h1 (bytesInFlight h) (congestion h))); [|by intros []|done|done|apply Hok].
    eapply handler_ok_space; try done; [|apply Hok|simpl; lia]. split; try done. intros q Hq. specialize (Hsent q Hq). simpl. lia. }
  pose proof (get_set_space h lvl sp sp1 E) as E1. fold h1 in E1.
  destruct (Z.ltb_spec 0 (len (pk_Frames p))) as [Hf|Hf].
  2:{ assert (Efr : pk_Frames p = []) by (destruct (pk_Frames p); [done|rewrite len_cons in Hf; pose proof (len_nonneg l); lia]).
      set (c1 := OnPacketSent _ _ _ _). assert (Hc1 : reno_ok c1) by (apply (reno_apply _ (CSent _ _ _)), Hok).
      destruct (reno_pacing c1 (rttStats h) (bytesInFlight h) Hc1) as [d Ed]. cbn [congestion rttStats bytesInFlight set_flight h1 set_space]. rewrite Ed.
      cbn [mbind outcome_bind]. eexists. split; [done|]. split; [apply (handler_ok_ext _ _ Hok1); [by intros []|done|done|done]|].
      rewrite decide_True by done. unfold h1. destruct lvl; try discriminate E; cbn in *; unfold tracked; cbn; repeat case_match; simplify_eq; done. }
  set (h2 := if 0 <? numProbesToSend _ then _ else _).
  assert (H2 : spaces h2 = spaces h1 ∧ bytesInFlight h2 = bytesInFlight h + pk_Length p ∧ congestion h2 = congestion h).
  { unfold h2. destruct (0 <? _); split_and!; try done; cbn; rewrite u64_small; lia. }
  clearbody h2. destruct H2 as (G2 & B2 & C2).
  set (c1 := OnPacketSent _ _ _ _). assert (Hc1 : reno_ok c1) by (apply (reno_apply _ (CSent _ _ _)); rewrite C2; apply Hok).
  destruct (reno_pacing c1 (rttStats h2) (bytesInFlight h2) Hc1) as [d Ed]. cbn [congestion rttStats bytesInFlight set_flight]. rewrite Ed. cbn [mbind outcome_bind].
  set (h3 := set_times _ _ _ _).
  assert (H3 : spaces h3 = spaces h1 ∧ bytesInFlight h3 = bytesInFlight h + pk_Length p ∧ congestion h3 = c1) by done.
  clearbody h3 c1. destruct H3 as (G3 & B3 & C3). clear dependent h2. subst c1.
  change (pk_EncryptionLevel (set_included p)) with lvl. rewrite (spaces_get _ _ lvl G3), E1. cbn [mbind outcome_bind].
  destruct (SentPacket_hist (history sp) (set_included p) Hh) as [Hh' Epk]; [intros q Hq; specialize (Hsent q Hq); simpl; lia|].
  set (spF := set_history sp1 (history_SentPacket (history sp1) (set_included p))).
  assert (HspF : space_ok lvl spF).
  { split; [done| |].
    - change (history_packets (history spF)) with (history_packets (history_SentPacket (history sp) (set_included p))). rewrite Epk. apply Forall_app. split; [done|].
      constructor; [|constructor]. by split.
    - change (history_packets (history spF)) with (history_packets (history_SentPacket (history sp) (set_included p))). rewrite Epk.
      intros q [Hq|Hq%list_elem_of_singleton]%elem_of_app; [specialize (Hsent q Hq); simpl; lia|subst q; simpl; lia]. }
  assert (Htot : total (history_packets (history spF)) = total (history_packets (history sp)) + pk_Length p).
  { change (history_packets (history spF)) with (history_packets (history_SentPacket (history sp) (set_included p))). rewrite Epk, total_app. simpl. lia. }
  eexists. split; [done|]. fold spF. pose proof (spaces_set _ _ lvl sp1 spF G3) as GF.
  assert (HokF : handler_ok (set_flight (set_space h lvl spF) (bytesInFlight h + pk_Length p) (congestion h3))).
  { eapply handler_ok_space; try done; lia. }
  split.
  - apply handler_ok_timer. by apply (handler_ok_spaces _ _ HokF).
  - rewrite decide_False by (intros Ef; rewrite Ef in Hf; done). rewrite timer_spec.
    change (tracked (set_alarm ?x _)) with (tracked x). rewrite (spaces_tracked (set_space h lvl spF)) by done.
    rewrite (tracked_split _ lvl spF) by (by eapply get_set_space). rewrite others_set, (tracked_split h lvl sp E).
    change (history_packets (history spF)) with (history_packets (history_SentPacket (history sp) (set_included p))). rewrite Epk.
    rewrite <- app_assoc. symmetry. apply Permutation_middle.
Qed.

(** * The other operations, by what happens to the tracked packets *)

Lemma filter_perm {A} (P : A → Prop) `{∀ x, Decision (P x)} (l : list A) : l ≡ₚ filter P l ++ filter (λ x, ¬ P x) l.
Proof.
  induction l as [|x l IH]; [done|]. rewrite !filter_cons. destruct (decide (P x)), (decide (¬ P x)); try tauto; simpl.
  - by rewrite <- IH.
  - rewrite <- Permutation_middle. by rewrite <- IH.
Qed.
(** [ps] left the handler with the calls [evs]. *)
Definition leaves (h h' : sentPacketHandler) (acked lost : list Packet) (evs : list sph_event) : Prop :=
  tracked h ≡ₚ acked ++ lost ++ tracked h' ∧ frame_calls evs = concat (map acked_calls acked) ++ concat (map lost_evs lost).

Lemma ack_leaves h f lvl sp t r rest h' calls err : handler_ok h → getPacketNumberSpace h lvl = Ok sp → ack_ok f → AckRanges f = r :: rest →
  ReceivedAck h f lvl t = Ok (h', calls, err) → handler_ok h' ∧ ∃ acked lost, leaves h h' acked lost calls.
Proof.
  intros Hok E Hf Er E'. destruct (received_ack_spec h lvl sp f r rest t Hok E Hf Er) as (h0 & c0 & e0 & E0 & Hok0 & H).
  rewrite E' in E0. injection E0 as <- <- <-. split; [done|]. case_decide; [|case_decide].
  - destruct H as (_ & -> & ->). by exists [], [].
  - destruct H as (_ & Ht & ->). exists [], []. split; [by rewrite Ht|done].
  - destruct H as (_ & sp' & G & O & _ & Epk & _ & Ec & _). cbv zeta in *.
    set (P := λ p, covers (AckRanges f) (PacketNumber p)) in *. set (l := history_packets (history sp)) in *.
    set (L := lost_now _ _) in Epk, Ec.
    eexists _, _. split; [|exact Ec]. rewrite (tracked_split h' lvl sp' G), O, Epk, (tracked_split h lvl sp E). fold l. rewrite !app_assoc. apply Permutation_app; [|done].
    case_decide as Ha.
    + by rewrite Ha.
    + rewrite <- app_assoc. etransitivity; [apply (filter_perm P l)|]. apply Permutation_app; [done|]. apply filter_perm.
Qed.
Lemma detect_leaves h lvl sp now prior h' calls : handler_ok h → getPacketNumberSpace h lvl = Ok sp →
  detectLostPackets h now lvl prior = Ok (h', calls) → handler_ok h' ∧ ∃ lost, leaves h h' [] lost calls.
Proof.
  intros Hok E E'. destruct (detectLost_spec h lvl sp now prior Hok E) as (sp' & n & c & calls0 & E0 & H1 & H2 & _ & _ & _ & _ & _ & H3).
  rewrite E' in E0. injection E0 as -> ->. split; [done|]. eexists. split; [|exact H3]. simpl.
  rewrite (tracked_split _ _ _ E), (tracked_split (set_flight (set_space h lvl sp') n c) lvl sp') by (by destruct lvl).
  replace (others (set_flight (set_space h lvl sp') n c) lvl) with (others h lvl) by (by destruct lvl).
  rewrite H2, app_assoc. apply Permutation_app; [|done]. apply filter_perm.
Qed.
Lemma earliest_live h t lvl : getEarliestLossTime h = (t, lvl) → IsZero t = false → ∃ sp, getPacketNumberSpace h lvl = Ok sp.
Proof.
  unfold getEarliestLossTime. destruct h as [? ? ? [i|] [k|] o ? ? ? ? ? ? ? ?]; cbn; repeat case_match; simplify_eq; intros; simplify_eq; cbn in *; by eauto.
Qed.
Lemma timeout_leaves h now : handler_ok h →
  ∃ h' calls, OnLossDetectionTimeout h now = Ok (h', calls) ∧ handler_ok h' ∧ ∃ lost, leaves h h' [] lost calls.
Proof.
  intros Hok. unfold OnLossDetectionTimeout.
  assert (H : ∃ h' calls, (if hasOutstandingPackets h then onVerifiedLossDetectionTimeout h now else Ok (h, [])) = Ok (h', calls)
     ∧ handler_ok h' ∧ ∃ lost, leaves h h' [] lost calls).
  { destruct (hasOutstandingPackets h); [|exists h, []; split; [done|]; split; [done|]; by exists []].
    unfold onVerifiedLossDetectionTimeout. destruct (getEarliestLossTime h) as [t lvl] eqn:Et. destruct (IsZero t) eqn:Ez; cbn [negb].
    - eexists _, _. split; [done|]. split; [apply (handler_ok_spaces _ _ Hok); [done|done|apply Hok]|]. by exists [].
    - destruct (earliest_live h t lvl Et Ez) as [sp E].
      destruct (detectLost_spec h lvl sp now (bytesInFlight h) Hok E) as (sp' & n & c & calls & E0 & _). rewrite E0. eexists _, _. split; [done|].
      by eapply detect_leaves. }
  destruct H as (h' & calls & -> & H1 & lost & H2). cbn [mbind outcome_bind]. eexists _, _. split; [done|]. split; [by apply handler_ok_timer|].
  exists lost. destruct H2 as [H2 H3]. split; [|done]. rewrite timer_spec. done.
Qed.
Lemma probe_leaves h : handler_ok h →
  ∃ h' calls b, QueueProbePacket h = Ok (h', calls, b) ∧ handler_ok h' ∧ ∃ lost, leaves h h' [] lost calls ∧ (b = true ↔ lost ≠ []) ∧ (b = false → tracked h = []).
Proof.
  intros Hok. unfold QueueProbePacket. set (op := match space_first (initialPackets h) with Some p => _ | None => _ end).
  assert (Hop : match op with Some p => ∃ lvl sp, getPacketNumberSpace h lvl = Ok sp ∧ p ∈ history_packets (history sp) | None => tracked h = [] end).
  { assert (Hfirst : ∀ hi, match FirstOutstanding hi with Some p => p ∈ history_packets hi | None => history_packets hi = [] end).
    { intros hi. unfold FirstOutstanding, HasOutstandingPackets, history_packets. destruct (packetList hi) as [|[a p] l]; cbn; [done|].
      unfold len. simpl. destruct (Z.ltb_spec 0 (Z.pos (Pos.of_succ_nat (length l)))); [|lia]. cbn. constructor. }
    unfold op, tracked, space_first.
    pose proof (Hfirst (history (oneRTTPackets h))) as H3.
    destruct (initialPackets h) as [i|] eqn:Ei; cbn [space_packets mbind option_bind].
    - pose proof (Hfirst (history i)) as H1. destruct (FirstOutstanding (history i)) as [p|]; [exists EncryptionInitial, i; cbn; by rewrite Ei|]. rewrite H1.
      destruct (handshakePackets h) as [k|] eqn:Ek; cbn [space_packets mbind option_bind].
      + pose proof (Hfirst (history k)) as H2. destruct (FirstOutstanding (history k)) as [p|]; [exists EncryptionHandshake, k; cbn; by rewrite Ek|]. rewrite H2.
        destruct (FirstOutstanding _); [by exists Encryption1RTT, (oneRTTPackets h)|done].
      + destruct (FirstOutstanding _); [by exists Encryption1RTT, (oneRTTPackets h)|done].
    - destruct (handshakePackets h) as [k|] eqn:Ek; cbn [space_packets mbind option_bind].
      + pose proof (Hfirst (history k)) as H2. destruct (FirstOutstanding (history k)) as [p|]; [exists EncryptionHandshake, k; cbn; by rewrite Ek|]. rewrite H2.
        destruct (FirstOutstanding _); [by exists Encryption1RTT, (oneRTTPackets h)|done].
      + destruct (FirstOutstanding _); [by exists Encryption1RTT, (oneRTTPackets h)|done]. }
  clearbody op. destruct op as [p|].
  2:{ exists h, [], false. split; [done|]. split; [done|]. exists []. split; [done|]. split; [done|]. done. }
  destruct Hop as (lvl & sp & E & Hp). destruct (hk_space _ Hok _ _ E) as [Hh Hpk Hsent]. pose proof (total_split _ _ _ Hok E) as [Hb1 Hb2].
  assert (Hpre : loop_pre h lvl sp [p]).
  { split; try done; [repeat constructor|intros q ->%list_elem_of_singleton; done|lia|apply Hok]. }
  destruct (loop_head _ _ _ _ _ Hpre) as (Hpo & hi & Er & Epk & Hb & _). rewrite lost_calls_spec by apply Hpo. cbn [mbind outcome_bind].
  rewrite (po_incl _ _ Hpo), (po_level _ _ Hpo), (u64_small (bytesInFlight h - _)) by done.
  assert (Eg : getPacketNumberSpace (set_flight h (bytesInFlight h - pk_Length p) (congestion h)) lvl = Ok sp) by (by destruct lvl).
  rewrite Eg. cbn [mbind outcome_bind]. rewrite Er. eexists _, _, true. split; [done|].
  pose proof (without_total _ p (ho_sorted _ Hh) Hp) as Ht. pose proof (po_len _ _ Hpo) as Hl0.
  destruct (Remove_spec _ p Hh Hp) as (hi' & E' & Hhi & _). rewrite Er in E'. injection E' as <-.
  split.
  - apply (handler_ok_spaces (set_flight (set_space h lvl (set_history sp hi)) (bytesInFlight h - pk_Length p) (congestion h))); [|by destruct lvl|done|apply Hok].
    eapply handler_ok_space; try done; [by eapply (space_ok_filter lvl sp)|apply Hok|cbn [history set_history]; rewrite Epk; lia|lia].
  - exists [p]. split; [|done]. split; [|simpl; by rewrite app_nil_r, lost_evs_calls]. cbn [app].
    rewrite (tracked_split _ _ _ E). set (h' := set_space _ _ _). rewrite (tracked_split h' lvl (set_history sp hi)) by (unfold h'; by destruct lvl).
    replace (others h' lvl) with (others h lvl) by (by destruct lvl). cbn [history set_history]. rewrite Epk, app_comm_cons. apply Permutation_app_tail.
    etransitivity; [apply (filter_perm (λ q, PacketNumber q = PacketNumber p))|].
    assert (Ef : filter (λ q, PacketNumber q = PacketNumber p) (history_packets (history sp)) = [p]); [|by rewrite Ef].
    clear -Hh Hp. pose proof (ho_sorted _ Hh) as Hs. revert Hp Hs. generalize (history_packets (history sp)) as l.
    induction l as [|x l IH]; intros Hp Hs; [inversion Hp|]. apply StronglySorted_inv in Hs as [Hs Hall]. rewrite Forall_forall in Hall. rewrite filter_cons.
    apply elem_of_cons in Hp as [->|Hp].
    + rewrite decide_True by done. f_equal. apply filter_none. intros q Hq. specialize (Hall q Hq). unfold pn_lt in Hall. lia.
    + specialize (Hall p Hp) as Hlt. unfold pn_lt in Hlt. rewrite decide_False by lia. by apply IH.
Qed.

(** C20: processing an ACK frame, on every branch.  An ACK of a packet that was
    not sent is a PROTOCOL_VIOLATION and changes nothing; an ACK of a tracked
    skipped packet number is one and removes no packet.  Otherwise it
    succeeds: exactly the tracked packets in one of the ranges are
    acknowledged, and, if there are any, exactly the remaining packets that
    are three behind the largest acknowledged or older than the loss delay are
    declared lost; the callbacks of the former then of the latter are called
    once each in order; both leave the bytes in flight; the other packet
    number spaces keep their packets; the probe state is reset.  It never
    panics and keeps the handler's invariant. *)
Theorem received_ack_correct (h : sentPacketHandler) (lvl : EncryptionLevel) (sp : packetNumberSpace) (f : AckFrame) (r : AckRange)
    (rest : list AckRange) (t : Z) :
  handler_ok h → getPacketNumberSpace h lvl = Ok sp → ack_ok f → AckRanges f = r :: rest →
  ∃ h' calls err, ReceivedAck h f lvl t = Ok (h', calls, err) ∧ handler_ok h'
  ∧ if decide (largestSent sp < Largest r) then err = Some errUnsent ∧ h' = h ∧ calls = []
    else if decide (Exists (covers (AckRanges f)) (png_history (pns sp))) then err = Some errSkipped ∧ tracked h' = tracked h ∧ calls = []
    else err = None ∧ ack_effect h h' lvl sp f (Largest r) t calls.
Proof. apply received_ack_spec. Qed.
(** Five packets of two spaces in flight, one number skipped. *)
Definition sample_frame (n : nat) : AhFrame := mkAhFrame FPing (Some n) (Some n).
Definition sample_packet (lvl : EncryptionLevel) (pn : Z) (n : nat) : Packet :=
  mkPacket pn [sample_frame n] InvalidPacketNumber 1200 lvl (1000000000 + pn * 1000000) false.
Fixpoint send_all (h : sentPacketHandler) (ps : list Packet) : outcome sentPacketHandler :=
  match ps with [] => Ok h | p :: ps => h ← SentPacket h p; send_all h ps end.
Definition sample_new : sentPacketHandler := NewSentPacketHandler 0 sample_rtt false 7 8 9.
Lemma new_handler_ok pn rtt tr n1 n2 n3 : handler_ok (NewSentPacketHandler pn rtt tr n1 n2 n3).
Proof.
  split; [|done|done|by split; [apply new_sender_ok|]].
  intros lvl sp E. destruct lvl; cbn in E; simplify_eq; (split; [apply hist_ok_new|constructor|intros p Hp; inversion Hp]).
Qed.
Definition sample_packets : list Packet :=
  [sample_packet EncryptionInitial 0 1; sample_packet Encryption1RTT 0 2; sample_packet Encryption1RTT 1 3;
   sample_packet Encryption1RTT 2 4; sample_packet Encryption1RTT 5 5].
Definition sample_handler : sentPacketHandler := match send_all sample_new sample_packets with Ok h => h | _ => sample_new end.
Lemma send_all_ok ps : ∀ h, handler_ok h →
  (fix go h ps := match ps with [] => True | p :: ps => send_ok h p ∧ match SentPacket h p with Ok h => go h ps | _ => True end end) h ps →
  ∃ h', send_all h ps = Ok h' ∧ handler_ok h'.
Proof.
  induction ps as [|p ps IH]; intros h Hok Hs; [by exists h|]. destruct Hs as [Hp Hs].
  destruct (sent_spec h p Hok Hp) as (h1 & E & Hok1 & _). simpl. rewrite E in *. by apply IH.
Qed.
Lemma sample_handler_ok : handler_ok sample_handler.
Proof.
  destruct (send_all_ok sample_packets sample_new (new_handler_ok _ _ _ _ _ _)) as (h' & E & H).
  - assert (Hsend : ∀ h lvl pn n sp, getPacketNumberSpace h lvl = Ok sp → largestSent sp < pn → bytesInFlight h + 1200 < 2 ^ 64 → 0 <= pn < 2 ^ 62 →
      send_ok h (sample_packet lvl pn n)).
    { intros h lvl pn n sp E1 E2 E3 E4. split; try done; [by exists sp|repeat constructor; done|simpl; lia]. }
    repeat (split; [eapply Hsend; [vm_compute; reflexivity|vm_compute; reflexivity|vm_compute; reflexivity|split; [vm_compute; discriminate|vm_compute; reflexivity]]|
      match goal with |- match ?x with _ => _ end => let y := eval vm_compute in x in change x with y; cbv iota beta end]). exact I.
  - unfold sample_handler. by rewrite E.
Qed.
Lemma received_ack_correct_witness :
  ∃ h' calls, ReceivedAck sample_handler (mkAckFrame [mkAckRange 5 5; mkAckRange 1 1] 0) Encryption1RTT 1100000000 = Ok (h', calls, None)
  ∧ handler_ok h' ∧ bytesInFlight h' = 1200
  ∧ frame_calls calls = [CallAcked 3 FPing; CallAcked 5 FPing; CallLost 2 FPing; CallLost 4 FPing].
Proof.
  destruct (received_ack_correct sample_handler Encryption1RTT (oneRTTPackets sample_handler) (mkAckFrame [mkAckRange 5 5; mkAckRange 1 1] 0)
    (mkAckRange 5 5) [mkAckRange 1 1] 1100000000 sample_handler_ok) as (h' & calls & err & E & H & _);
    [vm_compute; reflexivity|split; [discriminate|split; [vm_compute; repeat split; discriminate|vm_compute; split; [discriminate|reflexivity]]]|reflexivity|].
  assert (E' := E). vm_compute in E'. injection E' as Eh Ec Ee. subst err. exists h', calls. split; [exact E|]. split; [exact H|].
  split; [rewrite <- Eh; reflexivity|rewrite <- Ec; reflexivity].
Defined.
