(* ===== verification/SentPacketsRun.v ===== *)
(** SentPacketsRun: reachable states of the sent packet handler.  Over every
    sequence of operations each frame handed over is reported acknowledged or
    lost exactly once, or is still tracked, or was dropped with its keys; the
    operations never panic; packet numbers are never reused and skipped
    numbers are detected; and what the loss detection alarm is set to. *)

From stdpp Require Import sorting.
From S2P Require Import Prelude Utils Protocol AckFrame Frames StreamFrame FrameParser GoFloat Rtt Congestion LinkedList LinkedListSpec SentPackets SentPacketsSpec.

(** * Accounting of frames *)

(** The packets the handler tracks when [sent] are handed over: those with frames. *)
Definition handed (sent : list Packet) : list Packet := set_included <$> filter (λ p, pk_Frames p ≠ []) sent.
(** Where the packets [sent] and the calls for their frames went: the packets are
    tracked, acknowledged, lost or dropped, and of the acknowledged ones every frame
    that wants to know was told, of the lost ones every frame. *)
Definition accounted (tracked_ : list Packet) (sent : list Packet) (calls : list sph_event) (dropped : list Packet) : Prop :=
  ∃ acked lost, handed sent ≡ₚ tracked_ ++ acked ++ lost ++ dropped
    ∧ frame_calls calls ≡ₚ concat (map acked_calls acked) ++ concat (map lost_evs lost).
Lemma accounted_leaves h h' s e d acked lost calls : leaves h h' acked lost calls → accounted (tracked h) s e d → accounted (tracked h') s (e ++ calls) d.
Proof.
  intros [Ht Hc] (acked0 & lost0 & Hs & He). exists (acked ++ acked0), (lost ++ lost0). split.
  - rewrite Hs, Ht. rewrite <- !app_assoc. rewrite (app_assoc acked lost). rewrite (perm_mid (acked ++ lost)). rewrite <- !app_assoc.
    do 2 apply Permutation_app_head. rewrite perm_mid. done.
  - rewrite frame_calls_app, He, Hc, !map_app, !concat_app, <- !app_assoc. rewrite (app_assoc (concat (map acked_calls acked0))). rewrite Permutation_app_comm.
    rewrite <- !app_assoc. apply Permutation_app_head. rewrite perm_mid. done.
Qed.

(** * Dropping keys and Retry *)

Lemma subtract_spec lvl ps : ∀ n, Forall (packet_ok lvl) ps → total ps <= n < 2 ^ 64 → subtract_lengths n ps = n - total ps.
Proof.
  induction ps as [|p ps IH]; intros n Hok Hn; simpl in *; [lia|]. apply Forall_cons in Hok as [Hp Hok].
  pose proof (total_nonneg _ _ Hok). rewrite (po_incl _ _ Hp). pose proof (po_len _ _ Hp). rewrite u64_small by lia. rewrite IH by (try done; lia). lia.
Qed.
Lemma drop_spec h lvl sp : handler_ok h → getPacketNumberSpace h lvl = Ok sp → lvl = EncryptionInitial ∨ lvl = EncryptionHandshake →
  ∃ h', DropPackets h lvl = Ok h' ∧ handler_ok h' ∧ tracked h ≡ₚ history_packets (history sp) ++ tracked h'.
Proof.
  intros Hok E Hl. pose proof (total_split _ _ _ Hok E) as [Hb1 Hb2]. pose proof (hk_space _ Hok _ _ E) as [_ Hpk _].
  unfold DropPackets. rewrite E. cbn [mbind outcome_bind]. rewrite (subtract_spec lvl) by (try done; lia).
  pose proof (tracked_split _ _ _ E) as Ht. pose proof (hk_bytes _ Hok) as Hbytes. rewrite Ht, total_app in Hbytes.
  assert (Hdone : ∀ h', tracked h' = others h lvl → bytesInFlight h' = bytesInFlight h - total (history_packets (history sp)) →
    congestion h' = congestion h → (∀ lvl' sp', getPacketNumberSpace h' lvl' = Ok sp' → getPacketNumberSpace h lvl' = Ok sp') →
    handler_ok h' ∧ tracked h ≡ₚ history_packets (history sp) ++ tracked h').
  { intros h' Et Eb Ec Eg. rewrite Et. split; [|done]. split; [|rewrite Et; lia|rewrite Et; lia|rewrite Ec; apply Hok].
    intros lvl' sp' E'. apply (hk_space _ Hok), Eg, E'. }
  destruct Hl as [-> | ->]; (eexists; split; [done|]); (apply Hdone; [done|done|done|]); intros [] sp' E'; try discriminate E'; exact E'.
Qed.
Lemma all_lost_spec lvl ps : Forall (packet_ok lvl) ps → all_lost_calls ps = Ok (concat (map lost_evs ps)).
Proof. induction 1 as [|p ps Hp _ IH]; [done|]. simpl. rewrite lost_calls_spec by apply Hp. cbn [mbind outcome_bind]. by rewrite IH. Qed.
Lemma retry_spec h sp n1 n2 : handler_ok h → getPacketNumberSpace h EncryptionInitial = Ok sp → others h EncryptionInitial = [] →
  ∃ h' calls, ResetForRetry h n1 n2 = Ok (h', calls) ∧ handler_ok h' ∧ leaves h h' [] (history_packets (history sp)) calls ∧ tracked h' = [].
Proof.
  intros Hok E Ho. pose proof (hk_space _ Hok _ _ E) as [_ Hpk _]. unfold ResetForRetry.
  change (getPacketNumberSpace (set_flight h 0 (congestion h)) EncryptionInitial) with (getPacketNumberSpace h EncryptionInitial).
  rewrite E. cbn [mbind outcome_bind]. rewrite (all_lost_spec _ _ Hpk). cbn [mbind outcome_bind].
  set (spn := newPacketNumberSpace _ _). set (h1 := set_space _ _ spn).
  assert (Et : tracked h1 = []).
  { change (tracked h1) with (others h EncryptionInitial). done. }
  assert (Hok1 : handler_ok h1).
  { split; [|by rewrite Et|by rewrite Et|apply Hok]. intros lvl sp' E'. destruct lvl; try discriminate E'.
    - injection E' as <-. split; [apply hist_ok_new|constructor|intros p Hp; inversion Hp].
    - apply (hk_space _ Hok). exact E'.
    - apply (hk_space _ Hok). exact E'. }
  eexists _, _. split; [done|]. split; [by apply handler_ok_timer|]. rewrite timer_spec. split; [|done]. split.
  - change (tracked (set_alarm h1 _)) with (tracked h1). rewrite Et, (tracked_split _ _ _ E), Ho. simpl. done.
  - simpl. pose proof (frame_calls_all (concat (map lost_evs (history_packets (history sp))))) as Hf. apply Hf.
    apply Forall_concat. apply Forall_fmap. apply Forall_forall. intros p _. simpl. unfold lost_evs.
    induction (pk_Frames p) as [|f fs IHf]; simpl; [constructor|]. destruct (OnLost f); simpl; [by constructor|done].
Qed.

(** * Reachable states *)

(** [reach h sent calls dropped]: the handler [h] after operations that handed
    over the packets [sent], made the calls [calls], and gave up the packets
    [dropped] together with their keys. *)
Inductive reach : sentPacketHandler → list Packet → list sph_event → list Packet → Prop :=
  | reach_new pn rtt trace n1 n2 n3 : reach (NewSentPacketHandler pn rtt trace n1 n2 n3) [] [] []
  | reach_send h s e d p h' : reach h s e d → send_ok h p → SentPacket h p = Ok h' → reach h' (p :: s) e d
  | reach_ack h s e d sp f lvl t h' calls err : reach h s e d → getPacketNumberSpace h lvl = Ok sp → ack_ok f →
      ReceivedAck h f lvl t = Ok (h', calls, err) → reach h' s (e ++ calls) d
  | reach_timeout h s e d now h' calls : reach h s e d → OnLossDetectionTimeout h now = Ok (h', calls) → reach h' s (e ++ calls) d
  | reach_probe h s e d h' calls b : reach h s e d → QueueProbePacket h = Ok (h', calls, b) → reach h' s (e ++ calls) d
  | reach_drop h s e d lvl sp h' : reach h s e d → getPacketNumberSpace h lvl = Ok sp → DropPackets h lvl = Ok h' →
      reach h' s e (history_packets (history sp) ++ d)
  | reach_pop h s e d lvl num h' pn : reach h s e d → PopPacketNumber h lvl num = Ok (h', pn) → reach h' s e d
  | reach_retry h s e d n1 n2 h' calls : reach h s e d → others h EncryptionInitial = [] →
      ResetForRetry h n1 n2 = Ok (h', calls) → reach h' s (e ++ calls) d.

Lemma ack_nonempty f : ack_ok f → ∃ r rest, AckRanges f = r :: rest.
Proof. intros [H _]. destruct (AckRanges f) as [|r rest]; [done|by eauto]. Qed.
Lemma pop_ok h lvl num h' pn : handler_ok h → PopPacketNumber h lvl num = Ok (h', pn) → handler_ok h' ∧ tracked h' = tracked h.
Proof.
  intros Hok E. unfold PopPacketNumber in E. destruct (getPacketNumberSpace h lvl) as [sp| |] eqn:Es; try discriminate. cbn [mbind outcome_bind] in E.
  destruct (png_Pop (pns sp) num) as [g pn']. injection E as <- <-. pose proof (total_split _ _ _ Hok Es) as [Hb1 Hb2].
  set (sp' := set_pns sp g). assert (Hs : space_ok lvl sp') by (destruct (hk_space _ Hok _ _ Es); by split). split.
  - apply (handler_ok_spaces (set_flight (set_space h lvl sp') (bytesInFlight h) (congestion h))); [|by destruct lvl|done|apply Hok].
    eapply handler_ok_space; try done; [apply Hok|cbn; lia].
  - destruct h as [? ? ? [i|] [k|] o ? ? ? ? ? ? ? ?]; destruct lvl; try discriminate Es; cbn in Es; injection Es as ->; done.
Qed.
Lemma drop_level h lvl h' : DropPackets h lvl = Ok h' → lvl = EncryptionInitial ∨ lvl = EncryptionHandshake.
Proof. unfold DropPackets. destruct (getPacketNumberSpace h lvl); try discriminate. destruct lvl; try discriminate; auto. Qed.

Lemma reach_inv h s e d : reach h s e d → handler_ok h ∧ accounted (tracked h) s e d.
Proof.
  induction 1 as [pn rtt trace n1 n2 n3|h s e d p h' _ IH Hs E|h s e d sp f lvl t h' calls err _ IH G Hf E|h s e d now h' calls _ IH E
    |h s e d h' calls b _ IH E|h s e d lvl sp h' _ IH G E|h s e d lvl num h' pn _ IH E|h s e d n1 n2 h' calls _ IH Ho E].
  - split; [apply new_handler_ok|]. by exists [], [].
  - destruct IH as (Hok & acked & lost & Hi & He). destruct (sent_spec h p Hok Hs) as (h1 & E1 & Hok1 & Ht). rewrite E in E1. injection E1 as <-.
    split; [done|]. exists acked, lost. split; [|done]. unfold handed in *. rewrite filter_cons. case_decide as Ef.
    + rewrite decide_False by (by intros []). by rewrite Ht.
    + rewrite decide_True by done. rewrite fmap_cons, Hi, Ht. done.
  - destruct IH as (Hok & Hi). destruct (ack_nonempty f Hf) as (r & rest & Er).
    destruct (ack_leaves h f lvl sp t r rest h' calls err Hok G Hf Er E) as (Hok' & acked & lost & Hl). split; [done|]. by eapply accounted_leaves.
  - destruct IH as (Hok & Hi). destruct (timeout_leaves h now Hok) as (h1 & c1 & E1 & Hok' & lost & Hl). rewrite E in E1. injection E1 as <- <-.
    split; [done|]. by eapply accounted_leaves.
  - destruct IH as (Hok & Hi). destruct (probe_leaves h Hok) as (h1 & c1 & b1 & E1 & Hok' & lost & Hl & _). rewrite E in E1. injection E1 as <- <- <-.
    split; [done|]. by eapply accounted_leaves.
  - destruct IH as (Hok & acked & lost & Hi & He). destruct (drop_spec h lvl sp Hok G (drop_level _ _ _ E)) as (h1 & E1 & Hok' & Ht). rewrite E in E1. injection E1 as <-.
    split; [done|]. exists acked, lost. split; [|done]. rewrite Hi, Ht, <- app_assoc. rewrite perm_mid. apply Permutation_app_head.
    rewrite perm_mid. apply Permutation_app_head. apply perm_mid.
  - destruct IH as (Hok & Hi). destruct (pop_ok _ _ _ _ _ Hok E) as [Hok' Ht]. by rewrite Ht.
  - destruct IH as (Hok & Hi). assert (HG : ∃ sp, getPacketNumberSpace h EncryptionInitial = Ok sp).
    { unfold ResetForRetry in E. change (getPacketNumberSpace (set_flight h 0 (congestion h)) EncryptionInitial) with (getPacketNumberSpace h EncryptionInitial) in E.
      destruct (getPacketNumberSpace h EncryptionInitial) as [sp| |]; [by eauto|discriminate E..]. }
    destruct HG as [sp G]. destruct (retry_spec h sp n1 n2 Hok G Ho) as (h1 & c1 & E1 & Hok' & Hl & _). rewrite E in E1. injection E1 as <- <-.
    split; [done|]. by eapply accounted_leaves.
Qed.

(** C21: every frame is accounted for.  In every reachable state of the sent packet
    handler, the bytes in flight are the sum of the lengths of the tracked packets,
    and the packets with frames that were ever handed over are, as a multiset, those
    that are tracked, acknowledged, lost, or dropped with their keys.  The calls that
    were made are those of the frames with an OnAcked of the acknowledged packets,
    and those to OnLost of all frames of the lost packets, each once.  So no frame is
    forgotten and none is reported twice, whatever is acknowledged, times out or is
    probed. *)
Theorem frames_accounted (h : sentPacketHandler) (sent : list Packet) (calls : list sph_event) (dropped : list Packet) :
  reach h sent calls dropped →
  bytesInFlight h = total (tracked h)
  ∧ ∃ acked lost, set_included <$> filter (λ p, pk_Frames p ≠ []) sent ≡ₚ tracked h ++ acked ++ lost ++ dropped
    ∧ frame_calls calls ≡ₚ concat (map acked_calls acked) ++ concat (map lost_evs lost).
Proof. intros H. destruct (reach_inv _ _ _ _ H) as [Hok Hi]. split; [apply Hok|exact Hi]. Qed.
Lemma sample_send_ok h lvl pn n sp : getPacketNumberSpace h lvl = Ok sp → largestSent sp < pn → bytesInFlight h + 1200 < 2 ^ 64 → 0 <= pn < 2 ^ 62 →
  send_ok h (sample_packet lvl pn n).
Proof. intros E1 E2 E3 E4. split; try done; [by exists sp|repeat constructor; done|simpl; lia]. Qed.
Definition sample_h1 : sentPacketHandler := match SentPacket sample_new (sample_packet Encryption1RTT 0 2) with Ok h => h | _ => sample_new end.
(** A packet with a control frame, which nobody is told the arrival of, and a frame
    with both callbacks. *)
Definition mixed_packet : Packet := mkPacket 1 [mkAhFrame (FMaxData (mkMaxData 9)) (Some 4%nat) None; sample_frame 3] InvalidPacketNumber 1200 Encryption1RTT 1001000000 false.
Definition sample_h2 : sentPacketHandler := match SentPacket sample_h1 mixed_packet with Ok h => h | _ => sample_new end.
Definition sample_ack : AckFrame := mkAckFrame [mkAckRange 1 1] 0.
Definition sample_h3 : sentPacketHandler * list sph_event :=
  match ReceivedAck sample_h2 sample_ack Encryption1RTT 1100000000 with Ok (h, c, _) => (h, c) | _ => (sample_new, []) end.
Lemma sample_reach : reach (fst sample_h3) [mixed_packet; sample_packet Encryption1RTT 0 2] (snd sample_h3) [].
Proof.
  change (snd sample_h3) with ([] ++ snd sample_h3).
  eapply (reach_ack sample_h2 _ _ _ (oneRTTPackets sample_h2) sample_ack Encryption1RTT 1100000000 _ _ None).
  - eapply (reach_send sample_h1); [eapply (reach_send sample_new); [apply reach_new| |]| |]; try (vm_compute; reflexivity).
    + eapply sample_send_ok; [vm_compute; reflexivity|vm_compute; reflexivity|vm_compute; reflexivity|split; [vm_compute; discriminate|vm_compute; reflexivity]].
    + split; [eexists; split; vm_compute; reflexivity|repeat constructor; done|done|vm_compute; reflexivity|done|done].
  - reflexivity.
  - split; [discriminate|]. split; [vm_compute; repeat split; discriminate|vm_compute; split; [discriminate|reflexivity]].
  - vm_compute. reflexivity.
Qed.
Lemma frames_accounted_witness : frame_calls (snd sample_h3) = [CallAcked 3 FPing] ∧ tracked (fst sample_h3) = [set_included (sample_packet Encryption1RTT 0 2)] ∧
  bytesInFlight (fst sample_h3) = total (tracked (fst sample_h3)).
Proof.
  split; [vm_compute; reflexivity|]. split; [vm_compute; reflexivity|].
  exact (proj1 (frames_accounted _ _ _ _ sample_reach)).
Defined.

(** C22: in every reachable state no operation panics: a packet can be sent in
    any live space, any ACK frame of a live space processed, the alarm can
    fire at any time and a probe can be queued; and a probe is queued exactly
    when some packet is tracked. *)
Theorem handler_never_panics (h : sentPacketHandler) (sent : list Packet) (calls : list sph_event) (dropped : list Packet) :
  reach h sent calls dropped →
  (∀ p, send_ok h p → is_ok (SentPacket h p) = true)
  ∧ (∀ f lvl sp t, getPacketNumberSpace h lvl = Ok sp → ack_ok f → is_ok (ReceivedAck h f lvl t) = true)
  ∧ (∀ now, is_ok (OnLossDetectionTimeout h now) = true)
  ∧ ∃ h' evs b, QueueProbePacket h = Ok (h', evs, b) ∧ (b = true ↔ tracked h ≠ []).
Proof.
  intros H. destruct (reach_inv _ _ _ _ H) as [Hok _]. split; [|split; [|split]].
  - intros p Hp. destruct (sent_spec h p Hok Hp) as (h' & E & _). by rewrite E.
  - intros f lvl sp t G Hf. destruct (ack_nonempty f Hf) as (r & rest & Er).
    destruct (received_ack_spec h lvl sp f r rest t Hok G Hf Er) as (h' & c & e & E & _). by rewrite E.
  - intros now. destruct (timeout_leaves h now Hok) as (h' & c & E & _). by rewrite E.
  - destruct (probe_leaves h Hok) as (h' & c & b & E & _ & lost & [Ht _] & Hb & Hnone). exists h', c, b. split; [done|].
    rewrite Hb. split; intros Hl Hn.
    + rewrite Hn in Ht. simpl in Ht. symmetry in Ht. apply Permutation_nil_r in Ht. by destruct lost.
    + subst lost. destruct b; [by destruct Hb as [Hb _]; apply Hb|]. by apply Hl, Hnone.
Qed.
Lemma handler_never_panics_witness : is_ok (OnLossDetectionTimeout (fst sample_h3) 1200000000) = true ∧ tracked (fst sample_h3) ≠ [].
Proof.
  destruct (handler_never_panics _ _ _ _ sample_reach) as (_ & _ & H & _). split; [apply H|]. vm_compute. discriminate.
Defined.

(** * The loss detection alarm *)

(** Whatever the loss times of the packet number spaces are, the alarm is
    the probe timeout after the last ack-eliciting packet, or nothing when no
    packet is outstanding; a pending loss time that is earlier is never what
    the alarm is set to. *)
Theorem alarm_ignores_loss_time :
  (∀ h, alarm (setLossDetectionTimer h) =
     if hasOutstandingPackets h then lastSentAckElicitingPacketTime h + i64 (Z.shiftl (PTO (rttStats h)) (ptoCount h)) else 0)
  ∧ (let h := fst sample_h3 in 0 < lossTime (oneRTTPackets h) < alarm h).
Proof. split; [intros h; by rewrite timer_spec|]. vm_compute. done. Qed.

(** * The packet number generator *)

(** [num] random numbers: the packet numbers popped one after the other. *)
Fixpoint pops (g : packetNumberGenerator) (nums : list Z) : packetNumberGenerator * list Z :=
  match nums with
  | [] => (g, [])
  | num :: nums => let '(g, pn) := png_Pop g num in let '(g, l) := pops g nums in (g, pn :: l)
  end.
Definition nums_ok (nums : list Z) : Prop := Forall (λ n, 0 <= n <= 65535) nums.
(** The numbers from [a] below [b]; the last ten elements of a list. *)
Definition zrange (a b : Z) : list Z := map (λ i, a + Z.of_nat i) (seq 0 (Z.to_nat (b - a))).
Definition keep_last (l : list Z) : list Z := drop (length l - Z.to_nat MaxTrackedSkippedPackets) l.
(** Each number is one or two above its predecessor. *)
Fixpoint gaps_of_one (prev : Z) (l : list Z) : Prop :=
  match l with [] => True | x :: l => (x = prev + 1 ∨ x = prev + 2) ∧ gaps_of_one x l end.
Record png_ok (room : Z) (g : packetNumberGenerator) : Prop := mkPngOk {
  pg_period : 1 <= averagePeriod g <= 2 ^ 20; pg_next : 0 <= png_next g; pg_room : png_next g + 2 * room < 2 ^ 61;
  pg_skip : png_next g < nextToSkip g; pg_hist : len (png_history g) <= MaxTrackedSkippedPackets }.

Lemma zrange_app a b c : a <= b <= c → zrange a b ++ zrange b c = zrange a c.
Proof.
  intros H. unfold zrange. replace (Z.to_nat (c - a)) with (Z.to_nat (b - a) + Z.to_nat (c - b))%nat by lia.
  rewrite seq_app, map_app. f_equal. rewrite <- (Nat.add_0_r (0 + Z.to_nat (b - a))%nat), <- fmap_add_seq. rewrite map_map.
  apply map_ext. intros i. simpl. lia.
Qed.
Lemma zrange_one a : zrange a (a + 1) = [a].
Proof. unfold zrange. replace (Z.to_nat (a + 1 - a)) with 1%nat by lia. simpl. f_equal. lia. Qed.
Lemma zrange_nil a : zrange a a = [].
Proof. unfold zrange. by rewrite Z.sub_diag. Qed.
Lemma keep_last_app l k : keep_last (keep_last l ++ k) = keep_last (l ++ k).
Proof.
  unfold keep_last. set (n := Z.to_nat MaxTrackedSkippedPackets). rewrite !length_app, length_drop.
  destruct (decide (length l <= n)%nat) as [L|L].
  - replace (length l - n)%nat with 0%nat by lia. rewrite drop_0. f_equal. lia.
  - rewrite !skipn_app, !drop_drop. f_equal; [f_equal; lia|]. f_equal. rewrite length_drop. lia.
Qed.
Lemma keep_last_small l : len l <= MaxTrackedSkippedPackets → keep_last l = l.
Proof. intros H. unfold keep_last, len in *. replace (length l - Z.to_nat MaxTrackedSkippedPackets)%nat with 0%nat by lia. apply drop_0. Qed.

Lemma generateNewSkip_ok room p num : 1 <= averagePeriod p <= 2 ^ 20 → 0 <= png_next p → png_next p + 2 * room < 2 ^ 61 → 0 <= room →
  len (png_history p) <= MaxTrackedSkippedPackets → 0 <= num <= 65535 →
  png_ok room (generateNewSkip p num) ∧ png_next p + 2 <= nextToSkip (generateNewSkip p num).
Proof.
  intros Hp Hn Hr Hr0 Hh Hnum. unfold generateNewSkip. rewrite (i64_small (averagePeriod p - 1)) by lia. rewrite (i64_small (num * _)) by nia.
  change (65535 / 2) with 32767. rewrite Z.quot_div_nonneg by nia.
  assert (0 <= num * (averagePeriod p - 1) / 32767 <= 2 ^ 36).
  { split; [apply Z.div_pos; nia|]. apply Z.div_le_upper_bound; nia. }
  assert (Hs : png_next p + 2 <= i64 (i64 (png_next p + 2) + num * (averagePeriod p - 1) / 32767)) by (rewrite (i64_small (png_next p + 2)), i64_small by lia; lia).
  split; [|done]. split; cbn; try done. lia.
Qed.
Lemma pop_step room g num : png_ok (room + 1) g → 0 <= room → 0 <= num <= 65535 →
  ∃ g' sk, png_Pop g num = (g', png_next g) ∧ png_ok room g' ∧ png_history g' = keep_last (png_history g ++ sk)
  ∧ zrange (png_next g) (png_next g') = png_next g :: sk ∧ (png_next g' = png_next g + 1 ∨ png_next g' = png_next g + 2)
  ∧ (sk ≠ [] → png_next g' + 2 <= nextToSkip g').
Proof.
  intros [H1 H2 H3 H4 H5] Hr Hn. unfold png_Pop. cbn [png_next nextToSkip averagePeriod png_history].
  rewrite (i64_small (png_next g + 1)) by lia. destruct (Z.eqb_spec (png_next g + 1) (nextToSkip g)) as [E|E].
  - rewrite (i64_small (png_next g + 1 + 1)) by lia. set (hist := if _ <? _ then _ else _).
    assert (Hh : hist ++ [png_next g + 1] = keep_last (png_history g ++ [png_next g + 1])).
    { unfold hist. destruct (Z.ltb_spec MaxTrackedSkippedPackets (len (png_history g) + 1)) as [L|L].
      - unfold keep_last. rewrite length_app. unfold len in *. simpl length. replace (length (png_history g) + 1 - _)%nat with 1%nat by lia.
        destruct (png_history g); [simpl in L; vm_compute in L; discriminate|done].
      - rewrite keep_last_small; [done|]. unfold len in *. rewrite length_app. simpl. lia. }
    assert (Hl : len (hist ++ [png_next g + 1]) <= MaxTrackedSkippedPackets).
    { rewrite Hh. unfold keep_last, len. rewrite length_drop. unfold MaxTrackedSkippedPackets. lia. }
    rewrite Hh in *. destruct (generateNewSkip_ok room (mkPng (averagePeriod g) (png_next g + 1 + 1) (nextToSkip g) (keep_last (png_history g ++ [png_next g + 1]))) num) as [P1 P2];
      cbn [png_next averagePeriod png_history]; try done; try lia.
    eexists _, [png_next g + 1]. split; [done|]. split; [done|]. split; [done|]. cbn [png_next generateNewSkip] in *. split.
    + rewrite <- (zrange_app _ (png_next g + 1)) by lia. by rewrite !zrange_one.
    + split; [lia|done].
  - eexists _, []. split; [done|]. split; [split; cbn; try done; lia|]. cbn. rewrite app_nil_r, keep_last_small by done.
    split; [done|]. split; [apply zrange_one|]. split; [by left|done].
Qed.
Lemma pops_spec nums : ∀ g g' l, png_ok (len nums) g → nums_ok nums → pops g nums = (g', l) →
  ∃ sk, l ++ sk ≡ₚ zrange (png_next g) (png_next g') ∧ png_history g' = keep_last (png_history g ++ sk)
  ∧ StronglySorted Z.lt sk ∧ Forall (λ x, png_next g < x < png_next g') sk ∧ png_next g <= png_next g'
  ∧ (∀ prev, png_next g = prev + 1 ∨ png_next g = prev + 2 → gaps_of_one prev l).
Proof.
  induction nums as [|num nums IH]; intros g g' l Hg Hn E; simpl in E.
  { injection E as <- <-. exists []. rewrite zrange_nil, !app_nil_r, keep_last_small by apply Hg. split_and!; try done; constructor. }
  apply Forall_cons in Hn as [Hn Hns]. rewrite len_cons, Z.add_comm in Hg. pose proof (len_nonneg nums) as H0.
  destruct (pop_step (len nums) g num Hg H0 Hn) as (g1 & sk1 & E1 & Hg1 & Hh1 & Hz1 & Hs1 & _). rewrite E1 in E.
  destruct (pops g1 nums) as [g2 l2] eqn:E2. injection E as <- <-.
  destruct (IH _ _ _ Hg1 Hns E2) as (sk & Hp & Hh & Hs & Hf & Hle & Hgap). exists (sk1 ++ sk).
  assert (Hsk1 : sk1 = [] ∨ sk1 = [png_next g + 1] ∧ png_next g1 = png_next g + 2).
  { destruct Hs1 as [Es|Es]; rewrite Es in Hz1.
    - rewrite zrange_one in Hz1. injection Hz1 as <-. by left.
    - rewrite <- (zrange_app _ (png_next g + 1)) in Hz1 by lia. replace (png_next g + 2) with (png_next g + 1 + 1) in Hz1 by lia.
      rewrite !zrange_one in Hz1. injection Hz1 as <-. right. split; [done|lia]. }
  split_and!.
  - rewrite <- (zrange_app _ (png_next g1)) by lia. rewrite Hz1, <- Hp. simpl. constructor. apply perm_mid.
  - by rewrite Hh, Hh1, keep_last_app, app_assoc.
  - destruct Hsk1 as [->|[-> _]]; [done|]. simpl. constructor; [done|]. eapply Forall_impl; [exact Hf|]. simpl. lia.
  - apply Forall_app. split; [destruct Hsk1 as [->|[-> ?]]; [constructor|constructor; [lia|constructor]]|]. eapply Forall_impl; [exact Hf|]. simpl. lia.
  - lia.
  - intros prev Hprev. simpl. split; [done|]. apply Hgap. lia.
Qed.

(** The packet number generator.  From any start, with any random numbers:
    the numbers popped and the numbers skipped are together exactly those from
    the start to the next one, so none is used twice; each popped number is
    one or two above the previous one, so two consecutive numbers are never
    skipped; the history holds the last ten skipped numbers; and an ACK frame
    is accepted exactly when it covers none of those. *)
Theorem packet_numbers_unique (initial : Z) (num : Z) (nums : list Z) (g : packetNumberGenerator) (l : list Z) :
  0 <= initial < 2 ^ 60 → 0 <= num <= 65535 → nums_ok nums → len nums < 2 ^ 58 →
  pops (newPacketNumberGenerator initial SkipPacketAveragePeriodLength num) nums = (g, l) →
  ∃ skipped, l ++ skipped ≡ₚ zrange initial (png_next g) ∧ gaps_of_one (initial - 1) l
  ∧ StronglySorted Z.lt skipped ∧ png_history g = keep_last skipped
  ∧ ∀ f, ack_ok f → ∃ b, Validate g f = Ok b ∧ (b = true ↔ ¬ Exists (covers (AckRanges f)) (keep_last skipped)).
Proof.
  intros Hi Hn Hns Hl E. set (g0 := newPacketNumberGenerator initial SkipPacketAveragePeriodLength num) in *.
  assert (Hg0 : png_ok (len nums) g0).
  { apply generateNewSkip_ok; cbn; try done; try lia. apply len_nonneg. }
  destruct (pops_spec nums g0 g l Hg0 Hns E) as (sk & Hp & Hh & Hs & _ & _ & Hgap). exists sk. change (png_history g0 ++ sk) with sk in Hh.
  split; [done|]. split; [apply Hgap; left; cbn; lia|]. split; [done|]. split; [done|].
  intros f Hf. unfold Validate. rewrite Hh. by apply validate_spec.
Qed.
Lemma packet_numbers_unique_witness :
  ∃ skipped, snd (pops (newPacketNumberGenerator 0 SkipPacketAveragePeriodLength 50) (replicate 9 60)) ++ skipped ≡ₚ zrange 0 13.
Proof.
  destruct (packet_numbers_unique 0 50 (replicate 9 60)
    (fst (pops (newPacketNumberGenerator 0 SkipPacketAveragePeriodLength 50) (replicate 9 60)))
    (snd (pops (newPacketNumberGenerator 0 SkipPacketAveragePeriodLength 50) (replicate 9 60)))) as (sk & H & _);
    [split; [vm_compute; discriminate|vm_compute; reflexivity]|split; vm_compute; discriminate|repeat (constructor; [split; vm_compute; discriminate|]); constructor
    |vm_compute; reflexivity|vm_compute; reflexivity|].
  exists sk. exact H.
Defined.
