(* ===== verification/ReceivedPackets.v ===== *)
(** ReceivedPackets: received_packet_history.go, received_packet_tracker.go and
    received_packet_handler.go of core/ackhandler.  The history's linked list is the
    list of its values, front first; the pointer-level operations it uses are
    those LinkedListSpec refines to list operations. *)

From S2P Require Import Prelude Utils Protocol AckFrame GoFloat Rtt LinkedListSpec.

(** * received_packet_history.go *)

Record receivedPacketHistory := mkHistory { ranges : list PacketInterval; deletedBelow : Z }.
Definition newReceivedPacketHistory : receivedPacketHistory := mkHistory [] 0.

(** After a range was extended: [el] with [rest] behind it, both from back to front. *)
Definition maybe_merge (el : PacketInterval) (rest : list PacketInterval) : list PacketInterval :=
  match rest with
  | prev :: rest' =>
      if i64 (pi_End prev + 1) =? pi_Start el
      then mkPacketInterval (pi_Start prev) (pi_End el) :: rest'
      else el :: rest
  | [] => [el]
  end.
(** The loop of [addToRanges] over the list from its back. *)
Fixpoint addToRanges_loop (p : Z) (back : list PacketInterval) : list PacketInterval :=
  match back with
  | [] => [mkPacketInterval p p]
  | el :: rest =>
      if (pi_Start el <=? p) && (p <=? pi_End el) then el :: rest
      else if pi_End el =? i64 (p - 1) then maybe_merge (mkPacketInterval (pi_Start el) p) rest
      else if pi_Start el =? i64 (p + 1) then maybe_merge (mkPacketInterval p (pi_End el)) rest
      else if pi_End el <? p then mkPacketInterval p p :: el :: rest
      else el :: addToRanges_loop p rest
  end.
Definition addToRanges (h : receivedPacketHistory) (p : Z) : receivedPacketHistory :=
  if len (ranges h) =? 0 then mkHistory [mkPacketInterval p p] (deletedBelow h)
  else mkHistory (rev (addToRanges_loop p (rev (ranges h)))) (deletedBelow h).
(** Removes the front while there are too many ranges. *)
Fixpoint deleteOld_loop (l : list PacketInterval) : list PacketInterval :=
  match l with
  | [] => []
  | _ :: rest => if MaxNumAckRanges <? len l then deleteOld_loop rest else l
  end.
Definition maybeDeleteOldRanges (h : receivedPacketHistory) : receivedPacketHistory :=
  mkHistory (deleteOld_loop (ranges h)) (deletedBelow h).
Definition history_ReceivedPacket (h : receivedPacketHistory) (p : Z) : receivedPacketHistory :=
  if p <? deletedBelow h then h else maybeDeleteOldRanges (addToRanges h p).

Fixpoint deleteBelow_loop (p : Z) (l : list PacketInterval) : list PacketInterval :=
  match l with
  | [] => []
  | el :: rest =>
      if pi_End el <? p then deleteBelow_loop p rest
      else if (pi_Start el <? p) && (p <=? pi_End el) then mkPacketInterval p (pi_End el) :: rest
      else el :: rest
  end.
Definition DeleteBelow (h : receivedPacketHistory) (p : Z) : receivedPacketHistory :=
  if p <? deletedBelow h then h else mkHistory (deleteBelow_loop p (ranges h)) p.

Definition to_ack (i : PacketInterval) : AckRange := mkAckRange (pi_Start i) (pi_End i).
Definition GetAckRanges (h : receivedPacketHistory) : list AckRange := map to_ack (rev (ranges h)).
Definition GetHighestAckRange (h : receivedPacketHistory) : AckRange :=
  match last (ranges h) with Some r => to_ack r | None => mkAckRange 0 0 end.

(** * received_packet_tracker.go *)

Definition initialAckElicitingPacketsBeforeAck : Z := 2.
Definition ackElicitingPacketsBeforeAck : Z := 10.
Definition ackDecimationDelay : float := mkFloat 1 4.
Definition shortAckDecimationDelay : float := mkFloat 1 8.
Definition minReceivedBeforeAckDecimation : Z := 100.
Definition maxPacketsAfterNewMissing : Z := 4.

Record receivedPacketTracker := mkTracker {
  largestObserved : Z; ignoreBelow : Z; largestObservedReceivedTime : Z;
  packetHistory : receivedPacketHistory;
  t_maxAckDelay : Z;
  packetsReceivedSinceLastAck : Z; ackElicitingPacketsReceivedSinceLastAck : Z;
  ackQueued : bool; ackAlarm : Z; lastAck : option AckFrame }.

Definition newReceivedPacketTracker : receivedPacketTracker :=
  mkTracker 0 0 time_zero newReceivedPacketHistory MaxAckDelay 0 0 false time_zero None.

Definition isMissing (h : receivedPacketTracker) (p : Z) : outcome bool :=
  match lastAck h with
  | None => Ok false
  | Some a =>
      if p <? ignoreBelow h then Ok false
      else largest ← LargestAcked a;
           if p <? largest then acks ← AcksPacket a p; Ok (negb acks) else Ok false
  end.
Definition hasNewMissingPackets (h : receivedPacketTracker) : outcome bool :=
  match lastAck h with
  | None => Ok false
  | Some a =>
      let highestRange := GetHighestAckRange (packetHistory h) in
      largest ← LargestAcked a;
      Ok ((largest <=? Smallest highestRange) && (AckRange_Len highestRange <=? maxPacketsAfterNewMissing))
  end.

(** Setters for the fields [maybeQueueAck] changes. *)
Definition set_ack (h : receivedPacketTracker) (received eliciting : Z) (queued : bool) (alarm : Z) : receivedPacketTracker :=
  mkTracker (largestObserved h) (ignoreBelow h) (largestObservedReceivedTime h) (packetHistory h)
    (t_maxAckDelay h) received eliciting queued alarm (lastAck h).
(** [time.Duration(float64(minRTT) * float64(fraction))] *)
Definition rtt_fraction (rttStats : RTTStats) (fraction : float) : Z :=
  i64 (f_to_int (f_mul 53 (f_of_int 53 (minRTT rttStats)) fraction)).

Definition maybeQueueAck (h : receivedPacketTracker) (rttStats : RTTStats)
    (packetNumber rcvTime : Z) (shouldInstigateAck wasMissing : bool) : outcome receivedPacketTracker :=
  let received := i64 (packetsReceivedSinceLastAck h + 1) in
  let eliciting := ackElicitingPacketsReceivedSinceLastAck h in
  match lastAck h with
  | None => Ok (set_ack h received eliciting true (ackAlarm h))
  | Some _ =>
      let queued := if wasMissing then true else ackQueued h in
      if negb queued && shouldInstigateAck then
        let eliciting := i64 (eliciting + 1) in
        let '(queued, alarm) :=
          if minReceivedBeforeAckDecimation <? packetNumber then
            if ackElicitingPacketsBeforeAck <=? eliciting then (true, ackAlarm h)
            else if IsZero (ackAlarm h) then
              (queued, time_Add rcvTime (MinDuration (t_maxAckDelay h) (rtt_fraction rttStats ackDecimationDelay)))
            else (queued, ackAlarm h)
          else
            if initialAckElicitingPacketsBeforeAck <=? eliciting then (true, ackAlarm h)
            else if IsZero (ackAlarm h) then (queued, time_Add rcvTime (t_maxAckDelay h))
            else (queued, ackAlarm h) in
        newMissing ← hasNewMissingPackets h;
        let alarm :=
          if (newMissing : bool) then
            let ackTime := time_Add rcvTime (rtt_fraction rttStats shortAckDecimationDelay) in
            if IsZero alarm || After alarm ackTime then ackTime else alarm
          else alarm in
        Ok (set_ack h received eliciting queued (if queued then time_zero else alarm))
      else Ok (set_ack h received eliciting queued (if queued then time_zero else ackAlarm h))
  end.

Definition tracker_ReceivedPacket (h : receivedPacketTracker) (rttStats : RTTStats)
    (packetNumber rcvTime : Z) (shouldInstigateAck : bool) : outcome receivedPacketTracker :=
  if packetNumber <? ignoreBelow h then Ok h else
  missing ← isMissing h packetNumber;
  let '(largest, largestTime) :=
    if largestObserved h <=? packetNumber then (packetNumber, rcvTime)
    else (largestObserved h, largestObservedReceivedTime h) in
  let h := mkTracker largest (ignoreBelow h) largestTime
             (history_ReceivedPacket (packetHistory h) packetNumber) (t_maxAckDelay h)
             (packetsReceivedSinceLastAck h) (ackElicitingPacketsReceivedSinceLastAck h)
             (ackQueued h) (ackAlarm h) (lastAck h) in
  maybeQueueAck h rttStats packetNumber rcvTime shouldInstigateAck missing.

Definition tracker_IgnoreBelow (h : receivedPacketTracker) (p : Z) : receivedPacketTracker :=
  if p <=? ignoreBelow h then h
  else mkTracker (largestObserved h) p (largestObservedReceivedTime h) (DeleteBelow (packetHistory h) p)
         (t_maxAckDelay h) (packetsReceivedSinceLastAck h) (ackElicitingPacketsReceivedSinceLastAck h)
         (ackQueued h) (ackAlarm h) (lastAck h).

(** The frame returned is the object kept as [lastAck]. *)
Definition tracker_GetAckFrame (h : receivedPacketTracker) (now : Z) : receivedPacketTracker * option AckFrame :=
  if negb (ackQueued h) && (IsZero (ackAlarm h) || After (ackAlarm h) now) then (h, None) else
  let ack := mkAckFrame (GetAckRanges (packetHistory h))
               (MaxDuration 0 (time_Sub now (largestObservedReceivedTime h))) in
  (mkTracker (largestObserved h) (ignoreBelow h) (largestObservedReceivedTime h) (packetHistory h)
     (t_maxAckDelay h) 0 0 false time_zero (Some ack), Some ack).

(** * received_packet_handler.go *)

Record receivedPacketHandler := mkHandler {
  initialPackets : option receivedPacketTracker; handshakePackets : option receivedPacketTracker;
  oneRTTPackets : receivedPacketTracker }.
Definition NewReceivedPacketHandler : receivedPacketHandler :=
  mkHandler (Some newReceivedPacketTracker) (Some newReceivedPacketTracker) newReceivedPacketTracker.

Definition nil_deref : string := "invalid memory address or nil pointer dereference".
Definition handler_ReceivedPacket (h : receivedPacketHandler) (rttStats : RTTStats) (pn : Z)
    (encLevel : EncryptionLevel) (rcvTime : Z) (shouldInstigateAck : bool) : outcome receivedPacketHandler :=
  match encLevel with
  | EncryptionInitial =>
      match initialPackets h with
      | Some t => t ← tracker_ReceivedPacket t rttStats pn rcvTime shouldInstigateAck;
                  Ok (mkHandler (Some t) (handshakePackets h) (oneRTTPackets h))
      | None => Panic nil_deref
      end
  | EncryptionHandshake =>
      match handshakePackets h with
      | Some t => t ← tracker_ReceivedPacket t rttStats pn rcvTime shouldInstigateAck;
                  Ok (mkHandler (initialPackets h) (Some t) (oneRTTPackets h))
      | None => Panic nil_deref
      end
  | Encryption1RTT =>
      t ← tracker_ReceivedPacket (oneRTTPackets h) rttStats pn rcvTime shouldInstigateAck;
      Ok (mkHandler (initialPackets h) (handshakePackets h) t)
  | EncryptionUnspecified => Panic "received packet with unknown encryption level"
  end.
Definition handler_IgnoreBelow (h : receivedPacketHandler) (pn : Z) : receivedPacketHandler :=
  mkHandler (initialPackets h) (handshakePackets h) (tracker_IgnoreBelow (oneRTTPackets h) pn).
Definition handler_DropPackets (h : receivedPacketHandler) (encLevel : EncryptionLevel) : outcome receivedPacketHandler :=
  match encLevel with
  | EncryptionInitial => Ok (mkHandler None (handshakePackets h) (oneRTTPackets h))
  | EncryptionHandshake => Ok (mkHandler (initialPackets h) None (oneRTTPackets h))
  | _ => Panic "Cannot drop keys for encryption level"
  end.
Definition handler_GetAlarmTimeout (h : receivedPacketHandler) : Z :=
  let alarm t := match t with Some t => ackAlarm t | None => time_zero end in
  MinNonZeroTime (MinNonZeroTime (alarm (initialPackets h)) (alarm (handshakePackets h))) (ackAlarm (oneRTTPackets h)).
(** [ack.DelayTime = 0] on the object that is also the tracker's [lastAck]. *)
Definition clear_delay (r : receivedPacketTracker * option AckFrame) : receivedPacketTracker * option AckFrame :=
  match r with
  | (t, Some a) =>
      let a := mkAckFrame (AckRanges a) 0 in
      (mkTracker (largestObserved t) (ignoreBelow t) (largestObservedReceivedTime t) (packetHistory t)
         (t_maxAckDelay t) (packetsReceivedSinceLastAck t) (ackElicitingPacketsReceivedSinceLastAck t)
         (ackQueued t) (ackAlarm t) (Some a), Some a)
  | (t, None) => (t, None)
  end.
Definition handler_GetAckFrame (h : receivedPacketHandler) (encLevel : EncryptionLevel) (now : Z)
    : receivedPacketHandler * option AckFrame :=
  match encLevel with
  | EncryptionInitial =>
      match initialPackets h with
      | Some t => let '(t, a) := clear_delay (tracker_GetAckFrame t now) in
                  (mkHandler (Some t) (handshakePackets h) (oneRTTPackets h), a)
      | None => (h, None)
      end
  | EncryptionHandshake =>
      match handshakePackets h with
      | Some t => let '(t, a) := clear_delay (tracker_GetAckFrame t now) in
                  (mkHandler (initialPackets h) (Some t) (oneRTTPackets h), a)
      | None => (h, None)
      end
  | Encryption1RTT =>
      let '(t, a) := tracker_GetAckFrame (oneRTTPackets h) now in
      (mkHandler (initialPackets h) (handshakePackets h) t, a)
  | EncryptionUnspecified => (h, None)
  end.

(** * The history as a set of packet numbers *)

(** Packet numbers are below [2^62]. *)
Definition pn_max : Z := 2 ^ 62.
Definition desc (h : receivedPacketHistory) : list PacketInterval := rev (ranges h).
Definition desc_ok (hi : Z) (l : list PacketInterval) : Prop := ranges_below hi (map to_ack l).
Definition in_desc (l : list PacketInterval) (p : Z) : Prop := covers (map to_ack l) p.
(** The ranges are disjoint, ordered, separated by gaps, at most
    [MaxNumAckRanges] of them, and none reaches below [deletedBelow]. *)
Definition hist_ok (h : receivedPacketHistory) : Prop :=
  desc_ok (pn_max + 1) (desc h) ∧ len (ranges h) <= MaxNumAckRanges ∧
  (∀ p, in_desc (desc h) p → deletedBelow h <= p).
(** [p] is recorded as received. *)
Definition received (h : receivedPacketHistory) (p : Z) : Prop := in_desc (desc h) p.

Lemma in_desc_cons el l p : in_desc (el :: l) p ↔ pi_Start el <= p <= pi_End el ∨ in_desc l p.
Proof. unfold in_desc, covers. cbn [map]. by rewrite Exists_cons. Qed.
Lemma in_desc_app l k p : in_desc (l ++ k) p ↔ in_desc l p ∨ in_desc k p.
Proof. unfold in_desc, covers. by rewrite map_app, Exists_app. Qed.
Lemma in_desc_nil p : in_desc [] p ↔ False.
Proof. unfold in_desc, covers. cbn. by rewrite Exists_nil. Qed.
Lemma desc_ok_cons hi el l : desc_ok hi (el :: l) ↔
  0 <= pi_Start el <= pi_End el ∧ pi_End el + 1 < hi ∧ desc_ok (pi_Start el) l.
Proof. done. Qed.
Lemma desc_ok_weaken hi hi' l : hi <= hi' → desc_ok hi l → desc_ok hi' l.
Proof. apply ranges_below_weaken. Qed.
Lemma in_desc_lt hi l p : desc_ok hi l → in_desc l p → 0 <= p ∧ p + 1 < hi.
Proof.
  intros H Hp. apply ranges_below_Forall in H. unfold in_desc, covers in Hp. rewrite Exists_exists in Hp.
  rewrite Forall_forall in H. destruct Hp as (r & Hr & Hp). specialize (H r Hr). lia.
Qed.

(** Arithmetic with membership atoms. *)
Ltac in_lia := repeat match goal with |- context [in_desc ?l ?q] => generalize (in_desc l q); intros end; intuition lia.

Ltac ok_lia := rewrite ?desc_ok_cons; cbn [pi_Start pi_End]; split_and?; try lia; try assumption; try exact I.

Lemma addToRanges_loop_spec hi p l : hi <= pn_max + 1 → 0 <= p → p + 1 < hi → desc_ok hi l →
  desc_ok hi (addToRanges_loop p l) ∧
  (∀ q, in_desc (addToRanges_loop p l) q ↔ q = p ∨ in_desc l q) ∧
  (length (addToRanges_loop p l) <= S (length l))%nat ∧ addToRanges_loop p l ≠ [].
Proof.
  revert hi. induction l as [|el l IH]; intros hi Hhi Hp Hph Hok; cbn [addToRanges_loop].
  { unfold desc_ok. cbn. split_and!; try done; try lia. intros q. rewrite in_desc_cons, in_desc_nil. cbn. in_lia. }
  rewrite desc_ok_cons in Hok; destruct Hok as (H1 & H2 & H3). unfold pn_max in *.
  rewrite (i64_small (p - 1)), (i64_small (p + 1)) by lia.
  destruct (Z.leb_spec (pi_Start el) p), (Z.leb_spec p (pi_End el)); cbn [andb].
  { split_and!; [ok_lia|intros q; rewrite in_desc_cons; in_lia|cbn; lia|done]. }
  all: destruct (Z.eqb_spec (pi_End el) (p - 1)); try lia.
  - (* extended at the end: nothing to merge with *)
    unfold maybe_merge. destruct l as [|pr l]; cbn [pi_Start pi_End].
    + split_and!; [ok_lia| |cbn; lia|done].
      intros q. rewrite !in_desc_cons. cbn. in_lia.
    + rewrite desc_ok_cons in H3; destruct H3 as (H5 & H6 & H7). rewrite (i64_small (pi_End pr + 1)) by lia.
      destruct (Z.eqb_spec (pi_End pr + 1) (pi_Start el)); [lia|].
      split_and!; [ok_lia| |cbn; lia|done].
      intros q. rewrite !in_desc_cons. cbn. in_lia.
  - destruct (Z.eqb_spec (pi_Start el) (p + 1)); [lia|]. destruct (Z.ltb_spec (pi_End el) p); [|lia].
    split_and!; [ok_lia| |cbn; lia|done].
    intros q. rewrite !in_desc_cons. cbn. in_lia.
  - destruct (Z.eqb_spec (pi_Start el) (p + 1)).
    + unfold maybe_merge. destruct l as [|pr l]; cbn [pi_Start pi_End].
      * split_and!; [ok_lia| |cbn; lia|done].
        intros q. rewrite !in_desc_cons. cbn. in_lia.
      * rewrite desc_ok_cons in H3; destruct H3 as (H5 & H6 & H7). rewrite (i64_small (pi_End pr + 1)) by lia.
        destruct (Z.eqb_spec (pi_End pr + 1) p).
        -- split_and!; [ok_lia| |cbn; lia|done].
           intros q. rewrite !in_desc_cons. cbn. in_lia.
        -- split_and!; [ok_lia| |cbn; lia|done].
           intros q. rewrite !in_desc_cons. cbn. in_lia.
    + destruct (Z.ltb_spec (pi_End el) p); [lia|].
      destruct (IH (pi_Start el) ltac:(lia) Hp ltac:(lia) H3) as (I1 & I2 & I3 & _).
      split_and!; [ok_lia| |cbn; lia|done].
      intros q. rewrite !in_desc_cons, I2. in_lia.
Qed.

Lemma desc_ok_snoc hi l el : desc_ok hi (l ++ [el]) ↔
  desc_ok hi l ∧ 0 <= pi_Start el <= pi_End el ∧ pi_End el + 1 < hi ∧ ∀ q, in_desc l q → pi_End el + 1 < q.
Proof.
  revert hi. induction l as [|x l IH]; intros hi; cbn [app].
  - rewrite desc_ok_cons. split.
    + intros (H1 & H2 & _). split_and!; try lia; [exact I|]. intros q Hq. by apply in_desc_nil in Hq.
    + intros (_ & H1 & H2 & _). split_and!; try lia. exact I.
  - rewrite !desc_ok_cons, IH. split.
    + intros (H1 & H2 & H3 & H4 & H5 & H6). split_and!; try lia; try done.
      intros q [Hq|Hq]%in_desc_cons; [lia|]. by apply H6.
    + intros ((H1 & H2 & H3) & H4 & H5 & H6).
      assert (pi_End el + 1 < pi_Start x) by (apply H6, in_desc_cons; left; lia).
      split_and!; try lia; try done. intros q Hq. apply H6, in_desc_cons. by right.
Qed.

Lemma deleteOld_drop l : deleteOld_loop l = drop (length l - 500) l.
Proof.
  induction l as [|x l IH]; [done|]. cbn [deleteOld_loop]. unfold MaxNumAckRanges, len. cbn [length].
  destruct (Z.ltb_spec 500 (Z.of_nat (S (length l)))).
  - rewrite IH. by replace (S (length l) - 500)%nat with (S (length l - 500)) by lia.
  - by replace (S (length l) - 500)%nat with 0%nat by lia.
Qed.
(** Dropping the front of the list drops the lowest ranges. *)
Lemma rev_drop_app {A} n (l : list A) : ∃ k, rev l = rev (drop n l) ++ k.
Proof. exists (rev (take n l)). by rewrite <- rev_app_distr, take_drop. Qed.

Lemma deleteBelow_loop_spec hi p l : desc_ok hi (rev l) →
  desc_ok hi (rev (deleteBelow_loop p l)) ∧
  (∀ q, in_desc (rev (deleteBelow_loop p l)) q ↔ in_desc (rev l) q ∧ p <= q) ∧
  (length (deleteBelow_loop p l) <= length l)%nat.
Proof.
  induction l as [|el l IH]; cbn [deleteBelow_loop rev].
  { intros H. split_and!; [done| |done]. intros q. rewrite in_desc_nil. tauto. }
  intros Hok. rewrite desc_ok_snoc in Hok. destruct Hok as (H1 & H2 & H3 & H4).
  assert (Hsep : ∀ q, in_desc (rev l) q → pi_End el + 1 < q) by done.
  destruct (Z.ltb_spec (pi_End el) p).
  - destruct (IH H1) as (I1 & I2 & I3). split_and!; [done| |cbn; lia].
    intros q. rewrite I2, in_desc_app, in_desc_cons, in_desc_nil. in_lia.
  - assert (Hup : ∀ q, in_desc (rev l) q → p <= q) by (intros q Hq; specialize (Hsep q Hq); lia).
    destruct ((pi_Start el <? p) && (p <=? pi_End el)) eqn:E.
    + apply andb_true_iff in E as [E1 E2]. apply Z.ltb_lt in E1. apply Z.leb_le in E2. cbn [rev]. split_and!; [| |cbn; lia].
      * apply desc_ok_snoc. cbn. split_and!; try lia; done.
      * intros q. rewrite !in_desc_app, !in_desc_cons, in_desc_nil. cbn. specialize (Hup q). revert Hup. in_lia.
    + apply andb_false_iff in E. rewrite Z.ltb_ge, Z.leb_gt in E. cbn [rev]. split_and!; [| |cbn; lia].
      * apply desc_ok_snoc. split_and!; try lia; done.
      * intros q. rewrite !in_desc_app, !in_desc_cons, in_desc_nil. specialize (Hup q). revert Hup. in_lia.
Qed.

Lemma history_ReceivedPacket_spec h p : hist_ok h → 0 <= p < pn_max →
  let h' := history_ReceivedPacket h p in
  hist_ok h' ∧ deletedBelow h' = deletedBelow h ∧
  (p < deletedBelow h → h' = h) ∧
  (deletedBelow h <= p →
     (∀ q, received h' q → received h q ∨ q = p) ∧
     (len (ranges h) < MaxNumAckRanges → ∀ q, received h' q ↔ received h q ∨ q = p) ∧
     (∀ q q', received h q ∨ q = p → received h' q' → q' <= q → received h' q)).
Proof.
  intros (Hok & Hlen & Hdel) Hp. unfold history_ReceivedPacket.
  destruct (Z.ltb_spec p (deletedBelow h)); [split_and!; try done; lia|].
  destruct (addToRanges_loop_spec (pn_max + 1) p (desc h) ltac:(lia) ltac:(lia) ltac:(lia) Hok) as (A1 & A2 & A3 & A4).
  assert (Eadd : addToRanges h p = mkHistory (rev (addToRanges_loop p (desc h))) (deletedBelow h)).
  { unfold addToRanges, desc. destruct (Z.eqb_spec (len (ranges h)) 0) as [E|]; [|done].
    destruct (ranges h); [done|]. rewrite len_cons in E. pose proof (len_nonneg l). lia. }
  rewrite Eadd. unfold maybeDeleteOldRanges. cbn [ranges deletedBelow]. rewrite deleteOld_drop.
  set (full := addToRanges_loop p (desc h)) in *. set (n := (length (rev full) - 500)%nat).
  destruct (rev_drop_app n (rev full)) as [k Hk]. rewrite rev_involutive in Hk.
  set (kept := rev (drop n (rev full))) in *.
  assert (Hfull : ∀ q, in_desc full q ↔ q = p ∨ received h q) by exact A2.
  assert (Hkept : ∀ q, in_desc kept q → in_desc full q) by (intros q Hq; rewrite Hk; apply in_desc_app; by left).
  assert (Hkok : desc_ok (pn_max + 1) kept ∧ ∀ q q', in_desc kept q → in_desc k q' → q' < q).
  { clear -A1 Hk. rewrite Hk in A1. clear Hk. induction k as [|x k IH] using rev_ind.
    - rewrite app_nil_r in A1. split; [done|]. intros q q' _ Hq. by apply in_desc_nil in Hq.
    - rewrite app_assoc in A1. apply desc_ok_snoc in A1 as (B1 & B2 & B3 & B4). destruct (IH B1) as [C1 C2].
      split; [done|]. intros q q' Hq [Hq'|Hq']%in_desc_app; [by apply C2|].
      apply in_desc_cons in Hq' as [Hq'|Hq']; [|by apply in_desc_nil in Hq'].
      specialize (B4 q ltac:(apply in_desc_app; by left)). lia. }
  destruct Hkok as [Hkok Hsep]. unfold received, desc. cbn [ranges deletedBelow]. fold kept.
  split; [|split; [done|split; [lia|]]].
  { split_and!; [done| |].
    - cbn. unfold len, MaxNumAckRanges. rewrite length_drop. unfold n. lia.
    - intros q Hq. cbn in Hq. unfold desc in Hq. cbn in Hq. apply Hkept, Hfull in Hq as [->|Hq]; [done|]. by apply Hdel. }
  intros Hge. split_and!.
  - intros q Hq. apply Hkept, Hfull in Hq. tauto.
  - intros Hl q. assert (Hn : n = 0%nat).
    { unfold n. rewrite length_rev. unfold len, MaxNumAckRanges, desc in *. rewrite length_rev in A3. lia. }
    assert (Ek : kept = full) by (unfold kept; rewrite Hn, drop_0; apply rev_involutive).
    rewrite Ek, Hfull. unfold received, desc. tauto.
  - intros q q' Hq Hq' Hle. assert (Hin : in_desc full q) by (apply Hfull; unfold received, desc; tauto).
    rewrite Hk in Hin. apply in_desc_app in Hin as [?|Hin]; [done|]. specialize (Hsep q' q Hq' Hin). lia.
Qed.

(** Recording a packet.  The history stays a list of at most 500 disjoint,
    separated, ordered ranges; a packet below the deleted limit is ignored;
    otherwise the recorded set gains exactly the packet, and when the limit on
    ranges is exceeded only the lowest ranges are forgotten. *)
Theorem received_packet_recorded h p : hist_ok h → 0 <= p < pn_max →
  let h' := history_ReceivedPacket h p in
  hist_ok h' ∧ deletedBelow h' = deletedBelow h ∧
  (p < deletedBelow h → h' = h) ∧
  (deletedBelow h <= p →
     (∀ q, received h' q → received h q ∨ q = p) ∧
     (len (ranges h) < MaxNumAckRanges → ∀ q, received h' q ↔ received h q ∨ q = p) ∧
     (∀ q q', received h q ∨ q = p → received h' q' → q' <= q → received h' q)).
Proof. apply history_ReceivedPacket_spec. Qed.
Definition sample_history : receivedPacketHistory :=
  mkHistory [mkPacketInterval 4 6; mkPacketInterval 8 10] 3.
Lemma sample_history_ok : hist_ok sample_history.
Proof.
  split_and!.
  - unfold desc_ok. apply (bool_decide_unpack _). by vm_compute.
  - by vm_compute.
  - intros p Hp. change (desc sample_history) with [mkPacketInterval 8 10; mkPacketInterval 4 6] in Hp.
    rewrite !in_desc_cons, in_desc_nil in Hp. cbn in *. lia.
Qed.
Lemma received_packet_recorded_witness :
  history_ReceivedPacket sample_history 7 = mkHistory [mkPacketInterval 4 10] 3 ∧
  hist_ok (history_ReceivedPacket sample_history 7).
Proof.
  split; [reflexivity|]. apply (received_packet_recorded sample_history 7 sample_history_ok). unfold pn_max. lia.
Defined.

Lemma DeleteBelow_spec h p : hist_ok h →
  let h' := DeleteBelow h p in
  hist_ok h' ∧ deletedBelow h' = Z.max (deletedBelow h) p ∧
  (∀ q, received h' q ↔ received h q ∧ p <= q).
Proof.
  intros (Hok & Hlen & Hdel). unfold DeleteBelow. destruct (Z.ltb_spec p (deletedBelow h)).
  - split_and!; [by split_and!|lia|]. intros q. split; [|tauto]. intros Hq. split; [done|]. specialize (Hdel q Hq). lia.
  - destruct (deleteBelow_loop_spec (pn_max + 1) p (ranges h) Hok) as (D1 & D2 & D3).
    split_and!; [split_and!| |].
    + done.
    + cbn. unfold len in *. lia.
    + cbn. unfold desc. cbn. intros q Hq. by apply D2 in Hq as [_ ?].
    + cbn. lia.
    + intros q. unfold received, desc. cbn. apply D2.
Qed.

(** What is done to a history, and the packets it may then claim. *)
Inductive hist_op := HReceive (p : Z) | HDelete (p : Z).
Definition hist_apply (h : receivedPacketHistory) (op : hist_op) : receivedPacketHistory :=
  match op with HReceive p => history_ReceivedPacket h p | HDelete p => DeleteBelow h p end.
Definition hist_op_ok (op : hist_op) : Prop := match op with HReceive p => 0 <= p < pn_max | HDelete _ => True end.

(** Invariant of a sequence: the recorded packets were received and are not below a deletion. *)
Lemma hist_ops_inv l h0 (seen del : Z → Prop) : hist_ok h0 → (∀ q, received h0 q → seen q) →
  (∀ p q, del p → received h0 q → p <= q) → (∀ p, del p → p <= deletedBelow h0) → Forall hist_op_ok l →
  let h' := fold_left hist_apply l h0 in
  hist_ok h' ∧ (∀ q, received h' q → (seen q ∨ HReceive q ∈ l) ∧ (∀ p, del p ∨ HDelete p ∈ l → p <= q)).
Proof.
  revert h0 seen del. induction l as [|op l IH]; intros h0 seen del Hok Hseen Hdel Hdb Hl; cbn.
  - split; [done|]. intros q Hq. split; [left; auto|]. intros p [Hp|Hp]; [eauto|set_solver].
  - apply Forall_cons in Hl as [Hop Hl]. destruct op as [p|p]; cbn in *.
    + pose proof (history_ReceivedPacket_spec h0 p Hok Hop) as (H1 & H2 & H3 & H4).
      set (h1 := history_ReceivedPacket h0 p) in *.
      destruct (IH h1 (λ q, seen q ∨ q = p) del H1) as [I1 I2]; [| | |done|].
      * intros q Hq. destruct (Z.lt_ge_cases p (deletedBelow h0)) as [Hlt|Hge].
        { rewrite (H3 Hlt) in Hq. left. auto. }
        apply (proj1 (H4 Hge)) in Hq as [Hq| ->]; [left; auto|by right].
      * intros p' q Hp' Hq. destruct H1 as (_ & _ & Hd). specialize (Hd q Hq). rewrite H2 in Hd. specialize (Hdb p' Hp'). lia.
      * rewrite H2. done.
      * split; [done|]. intros q Hq. destruct (I2 q Hq) as [[[?| ->]|?] ?]; (split; [set_solver|]); intros p' [?|Hp']; set_solver.
    + pose proof (DeleteBelow_spec h0 p Hok) as (H1 & H2 & H3). set (h1 := DeleteBelow h0 p) in *.
      destruct (IH h1 seen (λ p', del p' ∨ p' = p) H1) as [I1 I2]; [| | |done|].
      * intros q Hq. apply H3 in Hq as [Hq _]. auto.
      * intros p' q [Hp'| ->] Hq; apply H3 in Hq as [Hq ?]; [eauto|done].
      * intros p' [Hp'| ->]; [specialize (Hdb p' Hp')|]; lia.
      * split; [done|]. intros q Hq. destruct (I2 q Hq) as [? Hd]. split; [set_solver|].
        intros p' [?|Hp']; apply Hd; [by left; left|]. apply elem_of_cons in Hp' as [[= ->]|?]; [left; by right|by right].
Qed.

(** ACK ranges are honest.  After any sequence of received packets and
    deletions, the ranges offered for an ACK frame are well formed (descending,
    disjoint, separated), cover only packet numbers that were received and not
    deleted since, and the highest range reported is their first. *)
Theorem ack_ranges_honest ops :
  Forall hist_op_ok ops →
  let h := fold_left hist_apply ops newReceivedPacketHistory in
  ranges_below (pn_max + 1) (GetAckRanges h) ∧ len (GetAckRanges h) <= MaxNumAckRanges ∧
  (∀ q, covers (GetAckRanges h) q → HReceive q ∈ ops ∧ ∀ p, HDelete p ∈ ops → p <= q) ∧
  GetHighestAckRange h = default (mkAckRange 0 0) (head (GetAckRanges h)).
Proof.
  intros Hops h.
  destruct (hist_ops_inv ops newReceivedPacketHistory (λ _, False) (λ _, False)) as [(H1 & H2 & H3) H4]; try done.
  { split_and!; [exact I|by vm_compute|]. intros p Hp. by apply in_desc_nil in Hp. }
  { intros q Hq. by apply in_desc_nil in Hq. }
  fold h in H1, H2, H3, H4. split_and!.
  - exact H1.
  - unfold GetAckRanges, len in *. by rewrite length_map, length_rev.
  - intros q Hq. destruct (H4 q Hq) as [[?|?] Hd]; [done|]. split; [done|]. intros p Hp. apply Hd. by right.
  - unfold GetHighestAckRange, GetAckRanges. generalize (ranges h) as l. clear. intros l.
    destruct l as [|x l _] using rev_ind; [done|]. by rewrite last_snoc, rev_app_distr.
Qed.
Lemma ack_ranges_honest_witness :
  let h := fold_left hist_apply [HReceive 5; HReceive 9; HReceive 6; HDelete 6; HReceive 8] newReceivedPacketHistory in
  GetAckRanges h = [mkAckRange 8 9; mkAckRange 6 6] ∧ ranges_below (pn_max + 1) (GetAckRanges h).
Proof.
  split; [reflexivity|].
  apply (ack_ranges_honest [HReceive 5; HReceive 9; HReceive 6; HDelete 6; HReceive 8]).
  repeat constructor; unfold pn_max; lia.
Defined.

(** * The tracker *)

(** Whether an ACK can be generated: it is queued or its alarm is set. *)
Definition ack_pending (t : receivedPacketTracker) : bool := ackQueued t || negb (IsZero (ackAlarm t)).
Definition tracker_ok (t : receivedPacketTracker) : Prop :=
  hist_ok (packetHistory t) ∧ ignoreBelow t = deletedBelow (packetHistory t) ∧
  (ack_pending t = true → ranges (packetHistory t) ≠ []) ∧
  (∀ a, lastAck t = Some a → ack_ok a).

(** Handling a packet: the frames in it may confirm one of our ACKs, which moves
    the limit; then the packet itself is recorded. *)
Inductive tracker_op :=
  | THandle (confirmed : option Z) (pn rcvTime : Z) (ackEliciting : bool)
  | TGetAck (now : Z).
Definition tracker_apply (rtt : RTTStats) (t : receivedPacketTracker) (op : tracker_op)
    : outcome (receivedPacketTracker * option AckFrame) :=
  match op with
  | THandle confirmed pn rcvTime eliciting =>
      let t := match confirmed with Some p => tracker_IgnoreBelow t p | None => t end in
      t ← tracker_ReceivedPacket t rtt pn rcvTime eliciting; Ok (t, None)
  | TGetAck now => Ok (tracker_GetAckFrame t now)
  end.
(** A peer sends packets in increasing order, so a packet that confirms an ACK has a
    number above everything that ACK covered. *)
Definition tracker_op_ok (op : tracker_op) : Prop :=
  match op with
  | THandle confirmed pn _ _ => 0 <= pn < pn_max ∧ (∀ p, confirmed = Some p → p <= pn)
  | TGetAck _ => True
  end.

Lemma history_received_nonempty h p : hist_ok h → 0 <= p < pn_max →
  (deletedBelow h <= p ∨ ranges h ≠ []) → ranges (history_ReceivedPacket h p) ≠ [].
Proof.
  intros (Hok & Hlen & _) Hp Hor. unfold history_ReceivedPacket. destruct (Z.ltb_spec p (deletedBelow h)).
  { destruct Hor; [lia|done]. }
  unfold maybeDeleteOldRanges, addToRanges. cbn [ranges]. rewrite deleteOld_drop.
  assert (Hd : ∀ l : list PacketInterval, l ≠ [] → drop (length l - 500) l ≠ []).
  { intros l Hl E. apply (f_equal length) in E. rewrite length_drop in E. destruct l; [done|]. cbn in E. lia. }
  destruct (len (ranges h) =? 0); [done|]. cbn [ranges]. apply Hd. intros E.
  apply (f_equal length) in E. rewrite length_rev in E.
  destruct (addToRanges_loop_spec (pn_max + 1) p (desc h) ltac:(lia) ltac:(lia) ltac:(lia) Hok) as (_ & _ & _ & Hne).
  unfold desc in Hne. by destruct (addToRanges_loop p (rev (ranges h))).
Qed.

Lemma LargestAcked_ok a : ack_ok a → ∃ n, LargestAcked a = Ok n.
Proof. intros (Hne & _). unfold LargestAcked. destruct (AckRanges a); [done|eauto]. Qed.
Lemma isMissing_ok t p : (∀ a, lastAck t = Some a → ack_ok a) → ∃ b, isMissing t p = Ok b.
Proof.
  intros Hla. unfold isMissing. destruct (lastAck t) as [a|]; [|eauto].
  specialize (Hla a eq_refl). destruct (LargestAcked_ok a Hla) as [n ->]. cbn [mbind outcome_bind].
  destruct (_ <? _); [eauto|]. destruct (_ <? _); [|eauto].
  destruct Hla as (Hne & Hr & _). destruct (AcksPacket_ranges a p Hne Hr) as (b & -> & _). cbn. eauto.
Qed.
Lemma maybeQueueAck_ok t rtt pn rcv e m : (∀ a, lastAck t = Some a → ack_ok a) →
  ∃ t', maybeQueueAck t rtt pn rcv e m = Ok t' ∧ packetHistory t' = packetHistory t ∧
    ignoreBelow t' = ignoreBelow t ∧ lastAck t' = lastAck t ∧
    largestObserved t' = largestObserved t ∧ largestObservedReceivedTime t' = largestObservedReceivedTime t.
Proof.
  intros Hla. unfold maybeQueueAck, hasNewMissingPackets. destruct (lastAck t) as [a|] eqn:E.
  2:{ eexists; split; [done|]. cbn. by rewrite E. }
  destruct (negb _ && e).
  - destruct (LargestAcked_ok a (Hla a eq_refl)) as [n ->]. cbn [mbind outcome_bind].
    repeat match goal with |- context [let '(_, _) := if ?b then _ else _ in _] => destruct b end;
      (eexists; split; [done|]; cbn; by rewrite E).
  - eexists; split; [done|]. cbn. by rewrite E.
Qed.

Lemma tracker_step rtt t op : tracker_ok t → tracker_op_ok op →
  ∃ t' a, tracker_apply rtt t op = Ok (t', a) ∧ tracker_ok t' ∧
    (∀ f, a = Some f → ack_ok f ∧ AckRanges f = GetAckRanges (packetHistory t)).
Proof.
  intros Hok Hop. destruct op as [confirmed pn rcv e|now]; cbn [tracker_apply tracker_op_ok] in *.
  - destruct Hop as [Hpn Hcf].
    set (t1 := match confirmed with Some p => tracker_IgnoreBelow t p | None => t end).
    assert (H1 : hist_ok (packetHistory t1) ∧ ignoreBelow t1 = deletedBelow (packetHistory t1) ∧
      (∀ a, lastAck t1 = Some a → ack_ok a) ∧
      (ignoreBelow t1 <= pn ∨ t1 = t)).
    { destruct Hok as (Hh & Hig & _ & Hla). destruct confirmed as [p|]; subst t1; [|split_and!; auto].
      unfold tracker_IgnoreBelow. destruct (Z.leb_spec p (ignoreBelow t)); [split_and!; auto|]. cbn.
      destruct (DeleteBelow_spec (packetHistory t) p Hh) as (D1 & D2 & _). specialize (Hcf p eq_refl).
      split_and!; [done|rewrite D2; lia|done|left; lia]. }
    clearbody t1. destruct H1 as (Hh1 & Hig1 & Hla1 & Hor). unfold tracker_ReceivedPacket.
    destruct (Z.ltb_spec pn (ignoreBelow t1)).
    { destruct Hor as [?| ->]; [lia|]. cbn. exists t, None. split_and!; done. }
    destruct (isMissing_ok t1 pn Hla1) as [b ->]. cbn [mbind outcome_bind].
    destruct (if largestObserved t1 <=? pn then _ else _) as [lo lt].
    match goal with |- context [maybeQueueAck ?x rtt pn rcv e b] => set (t2 := x) end.
    destruct (maybeQueueAck_ok t2 rtt pn rcv e b Hla1) as (t' & -> & E1 & E2 & E3 & _). cbn.
    exists t', None. split; [done|]. split; [|done].
    destruct (history_ReceivedPacket_spec (packetHistory t1) pn Hh1 Hpn) as (S1 & S2 & _).
    split_and!.
    + by rewrite E1.
    + rewrite E2, E1. cbn. by rewrite S2.
    + intros _. rewrite E1. cbn. apply history_received_nonempty; [done|done|left; lia].
    + rewrite E3. done.
  - unfold tracker_GetAckFrame. destruct (negb (ackQueued t) && (IsZero (ackAlarm t) || After (ackAlarm t) now)) eqn:Ep.
    { exists t, None. split_and!; done. }
    eexists _, _. split; [done|]. destruct Hok as (Hh & Hig & Hpend & Hla).
    assert (Hne : ranges (packetHistory t) ≠ []).
    { apply Hpend. unfold ack_pending. destruct (ackQueued t), (IsZero (ackAlarm t)); done. }
    assert (Hack : ack_ok (mkAckFrame (GetAckRanges (packetHistory t)) (MaxDuration 0 (time_Sub now (largestObservedReceivedTime t))))).
    { split_and!; cbn [AckRanges DelayTime].
      - unfold GetAckRanges. intros E. apply map_eq_nil in E. apply (f_equal (@rev _)) in E. rewrite rev_involutive in E. done.
      - apply Hh.
      - unfold MaxDuration, time_Sub. destruct (Z.ltb_spec (Z.max (- 2 ^ 63) (Z.min (2 ^ 63 - 1) (now - largestObservedReceivedTime t))) 0); lia.
      - unfold MaxDuration, time_Sub. destruct (Z.ltb_spec (Z.max (- 2 ^ 63) (Z.min (2 ^ 63 - 1) (now - largestObservedReceivedTime t))) 0); lia. }
    split; [|intros f [= <-]; done].
    split_and!; try done. intros a [= <-]. done.
Qed.

Fixpoint tracker_run (rtt : RTTStats) (t : receivedPacketTracker) (ops : list tracker_op)
    : outcome (receivedPacketTracker * list AckFrame) :=
  match ops with
  | [] => Ok (t, [])
  | op :: ops =>
      r ← tracker_apply rtt t op;
      r' ← tracker_run rtt r.1 ops;
      Ok (r'.1, match r.2 with Some a => a :: r'.2 | None => r'.2 end)
  end.
Lemma tracker_run_ok rtt t ops : tracker_ok t → Forall tracker_op_ok ops →
  ∃ t' acks, tracker_run rtt t ops = Ok (t', acks) ∧ tracker_ok t' ∧ Forall ack_ok acks.
Proof.
  intros Ht Hops. revert t Ht. induction Hops as [|op ops Hop Hops IH]; intros t Ht; cbn.
  { exists t, []. split_and!; [done..|constructor]. }
  destruct (tracker_step rtt t op Ht Hop) as (t1 & a & -> & Ht1 & Ha). cbn.
  destruct (IH t1 Ht1) as (t2 & acks & -> & Ht2 & Hacks). cbn.
  eexists _, _. split; [done|]. split; [done|]. destruct a as [f|]; [|done]. constructor; [|done]. by apply (Ha f).
Qed.
Lemma new_tracker_ok : tracker_ok newReceivedPacketTracker.
Proof.
  split_and!; try done. split_and!; [exact I|by vm_compute|]. intros p Hp. by apply in_desc_nil in Hp.
Qed.

(** A tracker only produces valid ACK frames.  For any sequence of handled
    packets and ACK requests in which a packet that confirms an ACK carries a
    higher number than the ACK covers, the tracker never panics and every ACK
    frame it hands out is well formed: non-empty, ordered, disjoint ranges, a
    non-negative delay. *)
Theorem tracker_acks_valid rtt ops :
  Forall tracker_op_ok ops →
  ∃ t acks, tracker_run rtt newReceivedPacketTracker ops = Ok (t, acks) ∧ tracker_ok t ∧ Forall ack_ok acks.
Proof. apply tracker_run_ok, new_tracker_ok. Qed.
Lemma tracker_acks_valid_witness :
  ∃ t acks, tracker_run rtt_sample newReceivedPacketTracker
    [THandle None 1 1000 true; TGetAck 2000; THandle None 4 3000 true; THandle (Some 2) 5 4000 false; TGetAck 90000000] = Ok (t, acks) ∧
    tracker_ok t ∧ Forall ack_ok acks.
Proof.
  apply (tracker_acks_valid rtt_sample). repeat constructor; unfold pn_max; try lia; try done; by intros p [= <-].
Defined.

(** Without that ordering the tracker can hand out an ACK frame with no
    ranges: a peer that skipped packet 7, and sends it only after packet 10 was
    acknowledged, with a confirmation of that ACK in it, makes the tracker delete
    every range while an ACK for a repeated packet is still pending.  The length of the
    frame it then returns cannot be computed: the code panics. *)
Theorem tracker_empty_ack :
  ∃ t f, tracker_run rtt_sample newReceivedPacketTracker
    [THandle None 9 1000 true; THandle None 10 2000 true; TGetAck 3000;
     THandle None 10 4000 true; THandle (Some 11) 7 5000 true; TGetAck 90000000] = Ok (t, f) ∧
  ∃ f0 f1, f = [f0; f1] ∧ AckRanges f1 = [] ∧
  AckFrame_Length f1 = Panic "index out of range".
Proof. eexists _, _. split; [by vm_compute|]. eexists _, _. split; [done|]. split; [done|]. by vm_compute. Qed.
