(* ===== verification/FrameSorter.v ===== *)
(** FrameSorter: quic-go/frame_sorter.go.  Reassembly of STREAM and CRYPTO data.
    The queue is a map from offsets to entries, the gap list its list of values
    (front first).  [DoneCb] closures are numbered; the callbacks an operation
    invokes are returned in order. *)

From S2P Require Import Prelude Utils Protocol LinkedListSpec.

Record frameSorterEntry := mkEntry { e_Data : list Z; e_DoneCb : option nat }.
Record frameSorter := mkSorter {
  queue : gmap Z frameSorterEntry; readPos : Z; gaps : list ByteInterval }.

Definition errDuplicateStreamData : goerr := Errorf "duplicate stream data" [].
Definition newFrameSorter : frameSorter := mkSorter ∅ 0 [mkByteInterval 0 MaxByteCount].

(** [if cb != nil { cb() }] *)
Definition call (cb : option nat) : list nat := match cb with Some c => [c] | None => [] end.

(** The first loop: the gap where the frame starts, with the gaps before and after it. *)
Inductive gap_search := GapDuplicate | GapNone | GapFound (pre : list ByteInterval) (gap : ByteInterval) (post : list ByteInterval).
Fixpoint find_gap (start end_ : Z) (pre l : list ByteInterval) : gap_search :=
  match l with
  | [] => GapNone
  | gap :: post =>
      if end_ <=? bi_Start gap then GapDuplicate
      else if (bi_Start gap <? end_) && (start <=? bi_End gap) then GapFound pre gap post
      else find_gap start end_ (pre ++ [gap]) post
  end.

(** The second loop, from [endGap] with [post] behind it.  [isGap] says that
    [endGap] still is [gap]; otherwise it has left the list when [removed] is set. *)
Record end_state := mkEnd {
  es_endGap : ByteInterval; es_isGap : bool; es_removed : bool; es_post : list ByteInterval;
  es_queue : gmap Z frameSorterEntry; es_calls : list nat }.
Fixpoint find_end (end_ offset : Z) (endGap : ByteInterval) (isGap : bool) (post : list ByteInterval)
    (q : gmap Z frameSorterEntry) (calls : list nat) : end_state * option goerr :=
  if bi_End endGap <=? end_ then
    match post with
    | [] => (mkEnd endGap isGap false [] q calls, Some (Errorf "StreamFrameSorter BUG: no end gap found" []))
    | nextEndGap :: post' =>
        if end_ <? bi_Start nextEndGap
        then (mkEnd endGap isGap (negb isGap) post q calls, None)
        else
          let e := bi_End endGap in
          let '(q, calls) :=
            if negb (e =? offset)
            then (delete e q, calls ++ match q !! e with Some en => call (e_DoneCb en) | None => [] end)
            else (q, calls) in
          find_end end_ offset nextEndGap false post' q calls
    end
  else (mkEnd endGap isGap false post q calls, None).

(** The gap list after the frame [[start, end_)] was put into it. *)
Definition adjust_gaps (start end_ : Z) (pre : list ByteInterval) (gap : ByteInterval) (es : end_state) : list ByteInterval :=
  let endGap := es_endGap es in
  let tail g := (if es_isGap es || es_removed es then [] else [g]) ++ es_post es in
  if start =? bi_Start gap then
    let removeGap := bi_End gap <=? end_ in
    let shrink := end_ <? bi_End endGap in
    let endGap' := if shrink then mkByteInterval end_ (bi_End endGap) else endGap in
    pre ++ (if removeGap then [] else [if es_isGap es then endGap' else gap]) ++ tail endGap'
  else if end_ =? bi_End endGap then
    pre ++ [mkByteInterval (bi_Start gap) start] ++ tail endGap
  else if es_isGap es then
    pre ++ [mkByteInterval (bi_Start gap) start; mkByteInterval end_ (bi_End gap)] ++ es_post es
  else
    pre ++ [mkByteInterval (bi_Start gap) start] ++ tail (mkByteInterval end_ (bi_End endGap)).

Definition push (s : frameSorter) (data : list Z) (offset : Z) (doneCb : option nat)
    : frameSorter * list nat * option goerr :=
  if len data =? 0 then (s, [], Some errDuplicateStreamData) else
  (* replace a shorter entry at the same offset *)
  let old := queue s !! offset in
  if match old with Some e => len data <=? len (e_Data e) | None => false end
  then (s, [], Some errDuplicateStreamData) else
  let '(q, calls) :=
    match old with
    | Some e => (<[offset := mkEntry data doneCb]> (queue s), call (e_DoneCb e))
    | None => (queue s, [])
    end in
  let start := offset in
  let end_ := u64 (offset + len data) in
  match find_gap start end_ [] (gaps s) with
  | GapDuplicate => (mkSorter q (readPos s) (gaps s), calls, Some errDuplicateStreamData)
  | GapNone => (mkSorter q (readPos s) (gaps s), calls, Some (Errorf "StreamFrameSorter BUG: no gap found" []))
  | GapFound pre gap post =>
      let cutFront := start <? bi_Start gap in
      let add := if cutFront then u64 (bi_Start gap - start) else 0 in
      let offset := u64 (offset + add) in
      let start := u64 (start + add) in
      let data := drop (Z.to_nat add) data in
      let '(es, err) := find_end end_ offset gap true post q calls in
      match err with
      | Some e => (mkSorter (es_queue es) (readPos s) (pre ++ gap :: (if es_isGap es then [] else [es_endGap es]) ++ es_post es), es_calls es, Some e)
      | None =>
          let cutEnd := bi_End (es_endGap es) <? end_ in
          let cutLen := if cutEnd then u64 (end_ - bi_End (es_endGap es)) else 0 in
          let data := take (Z.to_nat (len data - cutLen)) data in
          let end_ := u64 (end_ - cutLen) in
          let wasCut := cutFront || cutEnd in
          let gaps' := adjust_gaps start end_ pre gap es in
          if MaxStreamFrameSorterGaps <? len gaps' then
            (mkSorter (es_queue es) (readPos s) gaps', es_calls es, Some (Errorf "too many gaps in received data" []))
          else
          let '(doneCb, calls) :=
            if wasCut && (len data <? MinStreamFrameBufferSize)
            then (None, es_calls es ++ call doneCb) else (doneCb, es_calls es) in
          (mkSorter (<[offset := mkEntry data doneCb]> (es_queue es)) (readPos s) gaps', calls, None)
      end
  end.

Definition Push (s : frameSorter) (data : list Z) (offset : Z) (doneCb : option nat)
    : frameSorter * list nat * option goerr :=
  let '(s', calls, err) := push s data offset doneCb in
  match err with
  | Some e => if decide (e = errDuplicateStreamData) then (s', calls ++ call doneCb, None) else (s', calls, Some e)
  | None => (s', calls, None)
  end.

(** Returns (offset, data, callback); a missing entry gives nil data. *)
Definition Pop (s : frameSorter) : frameSorter * (Z * list Z * option nat) :=
  match queue s !! readPos s with
  | None => (s, (readPos s, [], None))
  | Some entry =>
      (mkSorter (delete (readPos s) (queue s)) (u64 (readPos s + len (e_Data entry))) (gaps s),
       (readPos s, e_Data entry, e_DoneCb entry))
  end.
(** [data == nil] for the data [Pop] returns: an entry holds a slice, if an empty
    one. *)
Definition Pop_isNil (s : frameSorter) : bool := match queue s !! readPos s with None => true | Some _ => false end.
Definition HasMoreData (s : frameSorter) : bool := negb (size (queue s) =? 0)%nat.

(** * Gap arithmetic *)

(** [x] has not been received. *)
Definition in_gap (x : Z) (g : ByteInterval) : Prop := bi_Start g <= x < bi_End g.
Definition in_gaps (gs : list ByteInterval) (x : Z) : Prop := Exists (in_gap x) gs.
(** Non-empty, ascending, not adjacent, and the last one is open-ended. *)
Fixpoint asc (lo : Z) (gs : list ByteInterval) : Prop :=
  match gs with
  | [] => lo = MaxByteCount
  | g :: gs' => lo < bi_Start g ∧ bi_Start g < bi_End g ∧ asc (bi_End g) gs'
  end.

Lemma in_gaps_app l k x : in_gaps (l ++ k) x ↔ in_gaps l x ∨ in_gaps k x.
Proof. apply Exists_app. Qed.
Lemma in_gaps_cons g l x : in_gaps (g :: l) x ↔ in_gap x g ∨ in_gaps l x.
Proof. apply Exists_cons. Qed.
Lemma in_gaps_nil x : in_gaps [] x ↔ False.
Proof. apply Exists_nil. Qed.

Definition last_end (lo : Z) (gs : list ByteInterval) : Z := foldl (λ _, bi_End) lo gs.
Lemma last_end_app lo l k : last_end lo (l ++ k) = last_end (last_end lo l) k.
Proof. apply foldl_app. Qed.
Lemma asc_le lo gs : asc lo gs → lo <= MaxByteCount.
Proof. revert lo. induction gs as [|g gs IH]; intros lo; simpl; [lia|]. intros (? & ? & ?%IH). lia. Qed.
Lemma asc_bounds lo gs g : asc lo gs → g ∈ gs → lo < bi_Start g ∧ bi_Start g < bi_End g ∧ bi_End g <= MaxByteCount.
Proof.
  revert lo. induction gs as [|h gs IH]; intros lo Ha Hg; [inversion Hg|].
  destruct Ha as (H1 & H2 & H3). apply elem_of_cons in Hg as [->|Hg].
  - split; [done|]. split; [done|]. by eapply asc_le.
  - destruct (IH _ H3 Hg). lia.
Qed.
(** The pieces of an ascending list; [pre] may be replaced by another ascending piece. *)
Fixpoint asc_to (lo : Z) (gs : list ByteInterval) (hi : Z) : Prop :=
  match gs with
  | [] => lo = hi
  | g :: gs' => lo < bi_Start g ∧ bi_Start g < bi_End g ∧ asc_to (bi_End g) gs' hi
  end.
Lemma asc_app lo l k : asc lo (l ++ k) ↔ asc_to lo l (last_end lo l) ∧ asc (last_end lo l) k.
Proof.
  revert lo. induction l as [|g l IH]; intros lo; simpl; [tauto|].
  rewrite IH. unfold last_end. simpl. tauto.
Qed.
Lemma asc_to_le lo gs hi : asc_to lo gs hi → lo <= hi ∧ ∀ g, g ∈ gs → lo < bi_Start g < bi_End g ∧ bi_End g <= hi.
Proof.
  revert lo. induction gs as [|h gs IH]; intros lo H; simpl in H.
  { split; [lia|]. intros g Hg. inversion Hg. }
  destruct H as (H1 & H2 & H3%IH). destruct H3 as [H3 H4]. split; [lia|].
  intros g [->|Hg]%elem_of_cons; [lia|]. specialize (H4 g Hg). lia.
Qed.

(** The first loop, by what it finds. *)
Lemma find_gap_spec start end_ pre gs : 
  match find_gap start end_ pre gs with
  | GapDuplicate => ∃ l g k, gs = l ++ g :: k ∧ (∀ h, h ∈ l → bi_End h < start) ∧ end_ <= bi_Start g
  | GapNone => ∀ h, h ∈ gs → bi_End h < start
  | GapFound pre' g post => ∃ l, pre' = pre ++ l ∧ gs = l ++ g :: post ∧ (∀ h, h ∈ l → bi_End h < start)
      ∧ bi_Start g < end_ ∧ start <= bi_End g
  end.
Proof.
  revert pre. induction gs as [|g gs IH]; intros pre; simpl; [intros h Hh; inversion Hh|].
  destruct (Z.leb_spec end_ (bi_Start g)).
  { exists [], g, gs. split; [done|]. split; [intros h Hh; inversion Hh|lia]. }
  destruct (Z.ltb_spec (bi_Start g) end_); [|lia]. destruct (Z.leb_spec start (bi_End g)); simpl.
  { exists []. rewrite app_nil_r. split_and!; try done. intros h Hh; inversion Hh. }
  specialize (IH (pre ++ [g])). destruct (find_gap start end_ (pre ++ [g]) gs) as [| |pre' g' post].
  - destruct IH as (l & g' & k & -> & Hl & He). exists (g :: l), g', k. split; [done|]. split; [|done].
    intros h [->|Hh]%elem_of_cons; [lia|auto].
  - intros h [->|Hh]%elem_of_cons; [lia|auto].
  - destruct IH as (l & -> & -> & Hl & ?). exists (g :: l). rewrite <- app_assoc. split; [done|]. split; [done|].
    split; [|done]. intros h [->|Hh]%elem_of_cons; [lia|auto].
Qed.

(** The second loop: it skips the gaps [mid] that the frame covers to their
    end and drops the entries queued right behind them. *)
Lemma find_end_spec lo end_ offset endGap isGap post q calls :
  asc lo (endGap :: post) → end_ < MaxByteCount → bi_Start endGap <= end_ →
  ∃ mid es, find_end end_ offset endGap isGap post q calls = (es, None)
    ∧ endGap :: post = mid ++ es_endGap es :: es_post es
    ∧ (∀ h, h ∈ mid → bi_End h <= end_)
    ∧ es_isGap es = (isGap && bool_decide (mid = [])) ∧ bi_Start (es_endGap es) <= end_
    ∧ (if decide (end_ < bi_End (es_endGap es)) then es_removed es = false
       else es_removed es = negb (es_isGap es) ∧ ∀ h, h ∈ es_post es → end_ < bi_Start h)
    ∧ (∀ k, es_queue es !! k = q !! k ∨ es_queue es !! k = None ∧ k ≠ offset ∧ ∃ h, h ∈ mid ∧ bi_End h = k).
Proof.
  revert lo endGap isGap q calls. induction post as [|n post IH]; intros lo eg isGap q calls Ha Hm Hs; simpl.
  - destruct Ha as (H1 & H2 & H3). simpl in H3. destruct (Z.leb_spec (bi_End eg) end_); [lia|].
    eexists [], _. split; [done|]. simpl. split_and!; [done|intros h Hh; inversion Hh| by destruct isGap|lia|by rewrite decide_True|auto].
  - destruct Ha as (H1 & H2 & H3). destruct (Z.leb_spec (bi_End eg) end_).
    2:{ eexists [], _. split; [done|]. simpl. split_and!; [done|intros h Hh; inversion Hh|by destruct isGap|lia|by rewrite decide_True by lia|auto]. }
    destruct (Z.ltb_spec end_ (bi_Start n)).
    { eexists [], _. split; [done|]. simpl. split_and!; [done|intros h Hh; inversion Hh|by destruct isGap|lia| |auto].
      rewrite decide_False by lia. split; [done|]. destruct H3 as (H3 & H4 & H5).
      intros h [->|Hh]%elem_of_cons; [lia|]. pose proof (asc_bounds _ _ _ H5 Hh). lia. }
    set (qc := if negb (bi_End eg =? offset) then _ else _). destruct qc as [q' c'] eqn:Eqc.
    destruct (IH (bi_End eg) n false q' c' H3 Hm) as (mid & es & E & E1 & E2 & E3 & E4 & E5 & E6); [lia|].
    exists (eg :: mid), es. rewrite E. split; [done|]. rewrite E1. split; [done|].
    split; [intros h [->|Hh]%elem_of_cons; [lia|auto]|].
    split; [rewrite E3; by destruct isGap|]. split; [done|]. split; [done|].
    intros k. destruct (E6 k) as [Ek|(Ek & Hk & h & Hh & Eh)].
    2:{ right. split; [done|]. split; [done|]. exists h. split; [by constructor|done]. }
    rewrite Ek. subst qc. destruct (Z.eqb_spec (bi_End eg) offset) as [Eo|Eo]; simpl in Eqc; injection Eqc as <- <-; [by left|].
    destruct (decide (k = bi_End eg)) as [->|Hne].
    + right. rewrite lookup_delete_eq. split; [done|]. split; [done|]. exists eg. split; [constructor|done].
    + left. by rewrite lookup_delete_ne.
Qed.

(** The gap list after a push, as one expression. *)
Definition new_gaps (start end_ : Z) (pre : list ByteInterval) (g eg : ByteInterval) (post : list ByteInterval) : list ByteInterval :=
  pre ++ (if bi_Start g <? start then [mkByteInterval (bi_Start g) start] else [])
      ++ (if end_ <? bi_End eg then [mkByteInterval end_ (bi_End eg)] else []) ++ post.
Lemma adjust_gaps_eq start end_ pre g es :
  bi_Start g <= start → end_ <= bi_End (es_endGap es) →
  (es_isGap es = true → es_endGap es = g) → (es_isGap es = false → bi_End g <= end_ ) →
  (es_isGap es = false → es_removed es = negb (end_ <? bi_End (es_endGap es))) →
  adjust_gaps start end_ pre g es = new_gaps start end_ pre g (es_endGap es) (es_post es).
Proof.
  intros H1 H2 H3 H4 H5. unfold adjust_gaps, new_gaps.
  destruct (es_isGap es) eqn:Ei; simpl.
  - rewrite H3 in * by done. zcases; try lia; try done.
  - rewrite H5 by done. specialize (H4 eq_refl). zcases; try lia; try done.
Qed.

(** The part of a frame at [offset] that covers [[start, end_)]. *)
Definition slice (data : list Z) (offset start end_ : Z) : list Z :=
  take (Z.to_nat (end_ - start)) (drop (Z.to_nat (start - offset)) data).
Definition errTooManyGaps : goerr := Errorf "too many gaps in received data" [].

(** [gs] cut up by a frame [[start, end_)]: it starts in [g] and ends in or behind [eg]. *)
Record cut_up (gs : list ByteInterval) (start end_ : Z) (pre mid : list ByteInterval) (g eg : ByteInterval)
    (post : list ByteInterval) : Prop := mkCut {
  cu_gaps : gs = pre ++ mid ++ eg :: post;
  cu_head : mid ++ [eg] = g :: tail (mid ++ [eg]);
  cu_pre : ∀ h, h ∈ pre → bi_End h < start;
  cu_start : bi_Start g < end_; cu_start' : start <= bi_End g;
  cu_mid : ∀ h, h ∈ mid → bi_End h <= end_;
  cu_end : bi_Start eg <= end_;
  cu_post : end_ < bi_End eg ∨ ∀ h, h ∈ post → end_ < bi_Start h }.
(** The queue after the replacement of an entry by a longer one. *)
Definition replaced (s : frameSorter) (data : list Z) (offset : Z) (doneCb : option nat) : gmap Z frameSorterEntry :=
  match queue s !! offset with Some _ => <[offset := mkEntry data doneCb]> (queue s) | None => queue s end.

(** What a push does, on its three branches. *)
Inductive push_case (s : frameSorter) (data : list Z) (offset : Z) (doneCb : option nat) : frameSorter → option goerr → Prop :=
  | push_held e : queue s !! offset = Some e → len data <= len (e_Data e) →
      push_case s data offset doneCb s (Some errDuplicateStreamData)
  | push_known pre g post : (∀ e, queue s !! offset = Some e → len (e_Data e) < len data) →
      gaps s = pre ++ g :: post → (∀ h, h ∈ pre → bi_End h < offset) → offset + len data <= bi_Start g →
      push_case s data offset doneCb (mkSorter (replaced s data offset doneCb) (readPos s) (gaps s)) (Some errDuplicateStreamData)
  | push_new pre mid g eg post q cb err :
      (∀ e, queue s !! offset = Some e → len (e_Data e) < len data) →
      cut_up (gaps s) offset (offset + len data) pre mid g eg post →
      let start := Z.max offset (bi_Start g) in
      let end_ := Z.min (offset + len data) (bi_End eg) in
      (∀ k, q !! k = replaced s data offset doneCb !! k ∨ q !! k = None ∧ k ≠ start ∧ ∃ h, h ∈ mid ∧ bi_End h = k) →
      (err = None ∨ err = Some errTooManyGaps) →
      push_case s data offset doneCb
        (mkSorter (if err is Some _ then q else <[start := mkEntry (slice data offset start end_) cb]> q) (readPos s)
           (new_gaps start end_ pre g eg post)) err.

Lemma asc_open lo gs : asc lo gs → lo < MaxByteCount → ∃ h, h ∈ gs ∧ bi_End h = MaxByteCount.
Proof.
  revert lo. induction gs as [|h gs IH]; intros lo; simpl; [lia|]. intros (H1 & H2 & H3) _.
  destruct (decide (bi_End h = MaxByteCount)) as [E|E]; [exists h; split; [constructor|done]|].
  destruct (IH _ H3) as (h' & Hh & E'); [apply asc_le in H3; lia|]. exists h'. split; [by constructor|done].
Qed.
Lemma push_spec s data offset cb :
  asc (-1) (gaps s) → 0 <= offset → data ≠ [] → offset + len data < MaxByteCount →
  ∃ s' calls err, push s data offset cb = (s', calls, err) ∧ push_case s data offset cb s' err.
Proof.
  intros Ha Ho Hd Hm. assert (HM : MaxByteCount < 2 ^ 64) by done.
  assert (Hl : 0 < len data) by (destruct data; [done|rewrite len_cons; pose proof (len_nonneg data); lia]).
  unfold push. destruct (Z.eqb_spec (len data) 0); [lia|].
  destruct (match queue s !! offset with Some e => len data <=? len (e_Data e) | None => false end) eqn:Eh.
  { destruct (queue s !! offset) as [e|] eqn:Eq; [|done]. do 3 eexists. split; [done|]. eapply push_held; [done|lia]. }
  assert (Hold : ∀ e, queue s !! offset = Some e → len (e_Data e) < len data).
  { intros e E. rewrite E in Eh. apply Z.leb_gt in Eh. lia. }
  set (qc := match queue s !! offset with Some e => (_, _) | None => _ end).
  assert (Hq : qc.1 = replaced s data offset cb) by (unfold qc, replaced; by destruct (queue s !! offset)).
  destruct qc as [q0 c0]. simpl in Hq. subst q0. rewrite (u64_small (offset + len data)) by lia.
  pose proof (find_gap_spec offset (offset + len data) [] (gaps s)) as Hf.
  destruct (find_gap offset (offset + len data) [] (gaps s)) as [| |pre g post].
  - destruct Hf as (l & g & k & Hg & H1 & H2). do 3 eexists. split; [done|]. by eapply push_known.
  - exfalso. destruct (asc_open _ _ Ha) as (h & Hh & E); [done|]. specialize (Hf h Hh). lia.
  - destruct Hf as (l & -> & Hg & Hp & H1 & H2).
    rewrite Hg in Ha. apply asc_app in Ha as [Hpre Ha]. pose proof (asc_to_le _ _ _ Hpre) as [Hle _].
    pose proof Ha as (Hg1 & Hg2 & Hg3). pose proof (asc_bounds _ _ g Ha (list_elem_of_here _ _)) as (_ & _ & HgM).
    set (add := if offset <? bi_Start g then u64 (bi_Start g - offset) else 0).
    assert (Eadd : add = Z.max offset (bi_Start g) - offset) by (unfold add; destruct (Z.ltb_spec offset (bi_Start g)); unwrap; lia).
    rewrite Eadd, (u64_small (offset + _)) by lia.
    replace (offset + (Z.max offset (bi_Start g) - offset)) with (Z.max offset (bi_Start g)) by lia.
    set (start := Z.max offset (bi_Start g)).
    destruct (find_end_spec _ (offset + len data) start g true post (replaced s data offset cb) c0 Ha)
      as (mid & es & E & E1 & E2 & E3 & E4 & E5 & E6); [lia..|]. rewrite E.
    assert (Heg : 0 <= bi_End (es_endGap es) <= MaxByteCount).
    { destruct (asc_bounds _ _ (es_endGap es) Ha) as (?&?&?); [rewrite E1; set_solver|lia]. }
    set (cutLen := if bi_End (es_endGap es) <? _ then _ else 0).
    assert (Ecut : offset + len data - cutLen = Z.min (offset + len data) (bi_End (es_endGap es))).
    { unfold cutLen. destruct (Z.ltb_spec (bi_End (es_endGap es)) (offset + len data)); unwrap; lia. }
    assert (Hse : start <= bi_End (es_endGap es)).
    { destruct mid as [|m mid]; simpl in E1; injection E1 as <- E1; [lia|].
      pose proof (E2 g ltac:(constructor)). rewrite E1 in Hg3. apply asc_app in Hg3 as [P1 P2]. apply asc_to_le in P1. destruct P2 as (?&?&_). lia. }
    rewrite Ecut, (u64_small (Z.min _ _)) by lia.
    rewrite adjust_gaps_eq.
    2:{ lia. } 2:{ lia. }
    2:{ rewrite E3. intros Hm'. apply bool_decide_eq_true in Hm'. subst mid. simpl in E1. by injection E1. }
    2:{ rewrite E3. intros Hm'. apply bool_decide_eq_false in Hm'. destruct mid as [|m mid]; [done|]. simpl in E1.
        injection E1 as <- E1. pose proof (E2 g ltac:(constructor)).
        rewrite E1 in Hg3. apply asc_app in Hg3 as [P1 P2]. apply asc_to_le in P1. destruct P2 as (?&?&_). lia. }
    2:{ intros Hi. case_decide as Hd'; [rewrite E5; zcases; try done; lia|].
        destruct E5 as [-> _]. rewrite Hi. zcases; try done; lia. }
    assert (Hslice : take (Z.to_nat (len (drop (Z.to_nat (start - offset)) data) - cutLen)) (drop (Z.to_nat (start - offset)) data)
       = slice data offset start (Z.min (offset + len data) (bi_End (es_endGap es)))).
    { unfold slice. f_equal. f_equal. unfold len. rewrite length_drop. unfold len in *. lia. }
    rewrite Hslice.
    assert (C : cut_up (gaps s) offset (offset + len data) l mid g (es_endGap es) (es_post es)).
    { constructor; try done.
      - rewrite Hg. f_equal. done.
      - destruct mid as [|m mid]; simpl in E1 |- *; injection E1 as -> ?; done.
      - case_decide; [by left|right; by destruct E5]. }
    destruct (_ <? len (new_gaps _ _ _ _ _ _)).
    { do 3 eexists. split; [done|]. exact (push_new s data offset cb l mid g _ _ (es_queue es) None (Some errTooManyGaps) Hold C E6 (or_intror eq_refl)). }
    match goal with |- context [if ?b then (None, _) else _] => destruct b end; do 3 eexists; (split; [done|]);
      eapply (push_new s data offset cb l mid g _ _ (es_queue es) _ None Hold C E6 (or_introl eq_refl)).
Qed.

(** A push removes exactly its bytes from the gaps. *)
Section gap_accounting.
Context (gs : list ByteInterval) (start end_ : Z) (pre mid : list ByteInterval) (g eg : ByteInterval) (post : list ByteInterval).
Context (Hasc : asc (-1) gs) (C : cut_up gs start end_ pre mid g eg post).

Lemma cut_up_asc : asc_to (-1) pre (last_end (-1) pre) ∧ asc (last_end (-1) pre) (mid ++ eg :: post).
Proof using All. rewrite (cu_gaps _ _ _ _ _ _ _ _ C) in Hasc. by apply asc_app. Qed.
Lemma cut_up_post : asc (bi_End eg) post ∧ bi_Start eg < bi_End eg ∧ ∀ h, h ∈ post → bi_End eg < bi_Start h < bi_End h.
Proof using All.
  destruct cut_up_asc as [_ (H & H1 & H2 & H3)%asc_app]. split; [done|]. split; [done|].
  intros h Hh. pose proof (asc_bounds _ _ _ H3 Hh). lia.
Qed.
Lemma cut_up_g : last_end (-1) pre < bi_Start g < bi_End g ∧ bi_End g <= bi_End eg ∧ (mid = [] → g = eg) ∧ (mid ≠ [] → bi_End g < bi_Start eg ∧ g ∈ mid).
Proof using All.
  destruct cut_up_asc as [_ H]. pose proof (cu_head _ _ _ _ _ _ _ _ C) as Hh.
  destruct mid as [|m mid']; simpl in Hh, H; injection Hh as <-.
  - destruct H as (?&?&_). split; [lia|]. split; [lia|]. split; [done|done].
  - destruct H as (H1 & H2 & H3). apply asc_app in H3 as [[P1 P2]%asc_to_le (P3 & P4 & _)].
    split; [lia|]. split; [lia|]. split; [done|]. intros _. split; [lia|constructor].
Qed.
Lemma cut_up_mid h : h ∈ mid → bi_Start g <= bi_Start h < bi_End h ∧ bi_End h < bi_Start eg ∧ bi_End g <= bi_End h.
Proof using All.
  intros Hh. pose proof cut_up_asc as [_ H]. pose proof (cu_head _ _ _ _ _ _ _ _ C) as Hd.
  destruct mid as [|m mid']; [inversion Hh|]. simpl in Hd, H. injection Hd as <-. destruct H as (H1 & H2 & H3).
  apply asc_app in H3 as [[P1 P2]%asc_to_le (P3 & P4 & _)].
  apply elem_of_cons in Hh as [->|Hh]; [lia|]. specialize (P2 h Hh). lia.
Qed.
Lemma cut_up_pre h : h ∈ pre → -1 < bi_Start h < bi_End h ∧ bi_End h < bi_Start g.
Proof using All.
  intros Hh. destruct cut_up_asc as [[_ P]%asc_to_le _]. pose proof cut_up_g. specialize (P h Hh). lia.
Qed.

#[local] Abbreviation new := (new_gaps (Z.max start (bi_Start g)) (Z.min end_ (bi_End eg)) pre g eg post).

Lemma new_gaps_asc : start < end_ → end_ < MaxByteCount → asc (-1) new.
Proof using All.
  intros Hse HM. destruct cut_up_asc as [Hp _], cut_up_post as (Hpost & He & Hpost'), cut_up_g as (Hg1 & Hg2 & Hg3 & Hg4).
  pose proof (cu_start _ _ _ _ _ _ _ _ C). pose proof (cu_start' _ _ _ _ _ _ _ _ C). pose proof (cu_end _ _ _ _ _ _ _ _ C).
  unfold new_gaps. apply asc_app. split; [done|].
  assert (Hlift : ∀ lo, bi_End eg <= end_ → lo <= bi_End eg → asc lo post).
  { intros lo Hlo Hlo'. destruct post as [|h hs]; [|destruct Hpost as (?&?&?); simpl; split; [lia|done]].
    simpl in Hpost. rewrite Hpost in Hlo. exfalso. lia. }
  destruct (Z.ltb_spec (bi_Start g) (Z.max start (bi_Start g)));
    destruct (Z.ltb_spec (Z.min end_ (bi_End eg)) (bi_End eg)); simpl; try split_and!; try lia; try done; apply Hlift; lia.
Qed.
Lemma new_gaps_in x : in_gaps new x ↔ in_gaps gs x ∧ ¬ (start <= x < end_).
Proof using All.
  destruct cut_up_asc as [Hp _], cut_up_post as (Hpost & He & Hpost'), cut_up_g as (Hg1 & Hg2 & Hg3 & Hg4).
  pose proof (cu_start _ _ _ _ _ _ _ _ C). pose proof (cu_start' _ _ _ _ _ _ _ _ C). pose proof (cu_end _ _ _ _ _ _ _ _ C).
  rewrite (cu_gaps _ _ _ _ _ _ _ _ C). unfold new_gaps. rewrite !in_gaps_app, in_gaps_cons.
  assert (Epre : in_gaps pre x → ¬ (start <= x < end_)).
  { intros (h & Hh & Hx)%Exists_exists. pose proof (cu_pre _ _ _ _ _ _ _ _ C h Hh). unfold in_gap in Hx. lia. }
  assert (Epost : in_gaps post x → ¬ (start <= x < end_)).
  { intros (h & Hh & Hx)%Exists_exists. specialize (Hpost' h Hh). unfold in_gap in Hx.
    destruct (cu_post _ _ _ _ _ _ _ _ C) as [|Hq]; [lia|specialize (Hq h Hh); lia]. }
  assert (EL : in_gaps (if bi_Start g <? Z.max start (bi_Start g) then [mkByteInterval (bi_Start g) (Z.max start (bi_Start g))] else []) x
     ↔ bi_Start g <= x < start).
  { destruct (Z.ltb_spec (bi_Start g) (Z.max start (bi_Start g))); rewrite ?in_gaps_cons, in_gaps_nil; unfold in_gap; simpl; lia. }
  assert (ER : in_gaps (if Z.min end_ (bi_End eg) <? bi_End eg then [mkByteInterval (Z.min end_ (bi_End eg)) (bi_End eg)] else []) x
     ↔ end_ <= x < bi_End eg).
  { destruct (Z.ltb_spec (Z.min end_ (bi_End eg)) (bi_End eg)); rewrite ?in_gaps_cons, in_gaps_nil; unfold in_gap; simpl; lia. }
  rewrite EL, ER.
  assert (Emid : bi_Start g <= x < start ∨ end_ <= x < bi_End eg ↔ (in_gaps mid x ∨ in_gap x eg) ∧ ¬ (start <= x < end_)).
  { split.
    - intros [Hx|Hx]; (split; [|lia]); [|right; unfold in_gap; lia].
      destruct (decide (mid = [])) as [Em|Em]; [right; rewrite <- (Hg3 Em); unfold in_gap; lia|left].
      apply Exists_exists. exists g. split; [by apply Hg4|unfold in_gap; lia].
    - intros [[(h & Hh & Hx)%Exists_exists|Hx] Hn]; unfold in_gap in Hx.
      + pose proof (cut_up_mid h Hh). pose proof (cu_mid _ _ _ _ _ _ _ _ C h Hh). lia.
      + destruct (decide (mid = [])) as [Em|Em]; [rewrite (Hg3 Em) in *; lia|destruct (Hg4 Em); lia]. }
  tauto.
Qed.
End gap_accounting.
