(* ===== verification/FrameSorterSpec.v ===== *)
(** FrameSorterSpec: what the frame sorter promises to the streams above it.
    A stream is a function from offsets to bytes; arbitrary interleavings of
    pushes of pieces of it and of pops return a prefix of the stream, the gaps
    are exactly the bytes not pushed, and, as long as no queued frame is
    replaced by a longer one, every received byte becomes readable. *)

From S2P Require Import Prelude Utils Protocol LinkedListSpec FrameSorter.

Inductive sorter_op := OpPush (offset : Z) (data : list Z) (doneCb : option nat) | OpPop.
Definition run_op (s : frameSorter) (op : sorter_op) : frameSorter * list Z * option goerr :=
  match op with
  | OpPush o d cb => let '(s, _, err) := Push s d o cb in (s, [], err)
  | OpPop => let '(s, (_, d, _)) := Pop s in (s, d, None)
  end.
(** Runs the operations until the first error; collects what the pops returned. *)
Fixpoint run (s : frameSorter) (ops : list sorter_op) : frameSorter * list Z * option goerr :=
  match ops with
  | [] => (s, [], None)
  | op :: ops =>
      match run_op s op with
      | (s, d, None) => let '(s, d', err) := run s ops in (s, d ++ d', err)
      | r => r
      end
  end.

(** The bytes at [offset] are those of the stream [S]. *)
Definition carries (S : Z → Z) (offset : Z) (data : list Z) : Prop :=
  ∀ i b, data !! i = Some b → b = S (offset + Z.of_nat i).
Definition op_ok (S : Z → Z) (op : sorter_op) : Prop :=
  match op with
  | OpPush o d _ => 0 <= o ∧ o + len d < MaxByteCount ∧ carries S o d
  | OpPop => True
  end.
Definition pushes (x : Z) (op : sorter_op) : Prop :=
  match op with OpPush o d _ => o <= x < o + len d | OpPop => False end.

Lemma carries_slice S offset data start end_ :
  offset <= start → carries S offset data → carries S start (slice data offset start end_).
Proof.
  intros Ho HS i b Hi. unfold slice in Hi. apply lookup_take_Some in Hi as [Hi _]. rewrite lookup_drop in Hi.
  apply HS in Hi. rewrite Hi. f_equal. lia.
Qed.
Lemma carries_app S o d d' : carries S o d → carries S (o + len d) d' → carries S o (d ++ d').
Proof.
  intros H1 H2 i b [Hi|[Hl Hi]]%lookup_app_Some; [by apply H1|]. apply H2 in Hi. rewrite Hi. f_equal. unfold len. lia.
Qed.
Lemma len_slice data offset start end_ :
  offset <= start → start <= end_ → end_ <= offset + len data → len (slice data offset start end_) = end_ - start.
Proof. intros. unfold slice, len in *. rewrite length_take, length_drop. lia. Qed.

(** * Safety *)

Record sorter_inv (S : Z → Z) (s : frameSorter) : Prop := mkInv {
  si_asc : asc (-1) (gaps s);
  si_entry : ∀ k e, queue s !! k = Some e → 0 <= k ∧ k + len (e_Data e) < MaxByteCount ∧ carries S k (e_Data e)
      ∧ ∀ x, k <= x < k + len (e_Data e) → ¬ in_gaps (gaps s) x;
  si_read : 0 <= readPos s < MaxByteCount }.

Lemma inv_new S : sorter_inv S newFrameSorter.
Proof. split; [done| |done]. intros k e He. simpl in He. by rewrite lookup_empty in He. Qed.

Lemma replaced_lookup s data offset cb k e : replaced s data offset cb !! k = Some e →
  queue s !! k = Some e ∨ k = offset ∧ e_Data e = data.
Proof.
  unfold replaced. destruct (queue s !! offset); [|by left]. intros [(<- & <-)|(? & ?)]%lookup_insert_Some; [by right|by left].
Qed.

(** A push keeps the invariant and removes exactly its bytes from the gaps. *)
Lemma push_inv S s data offset cb :
  sorter_inv S s → 0 <= offset → offset + len data < MaxByteCount → carries S offset data →
  ∃ s' calls err, push s data offset cb = (s', calls, err) ∧ sorter_inv S s' ∧ readPos s' = readPos s
    ∧ (err = None ∨ err = Some errDuplicateStreamData ∨ err = Some errTooManyGaps)
    ∧ ∀ x, in_gaps (gaps s') x ↔ in_gaps (gaps s) x ∧ ¬ (offset <= x < offset + len data).
Proof.
  intros [Ia Ie Ir] Ho Hm HS. destruct (decide (data = [])) as [->|Hd].
  { exists s, [], (Some errDuplicateStreamData). split; [done|]. split; [done|]. split; [done|]. split; [auto|].
    rewrite len_nil. intros x. split; [intros; split; [done|lia]|tauto]. }
  assert (Hl : 0 < len data) by (destruct data; [done|rewrite len_cons; pose proof (len_nonneg data); lia]).
  destruct (push_spec s data offset cb Ia Ho Hd Hm) as (s' & calls & err & E & Hc). exists s', calls, err. split; [done|].
  destruct Hc as [e He Hle|pre g post Hold Hg Hp He|pre mid g eg post q cb' err Hold C start end_ Hq Herr].
  - split; [done|]. split; [done|]. split; [auto|]. intros x. destruct (Ie _ _ He) as (_ & _ & _ & Hx).
    split; [|tauto]. intros Hin. split; [done|]. intros Hxx. apply (Hx x); [lia|done].
  - assert (Hx : ∀ x, in_gaps (gaps s) x → ¬ (offset <= x < offset + len data)).
    { intros x. rewrite Hg, in_gaps_app. rewrite Hg in Ia. apply asc_app in Ia as [_ Ia].
      intros [(h & Hh & Hx)%Exists_exists|(h & Hh & Hx)%Exists_exists]; unfold in_gap in Hx; [specialize (Hp h Hh); lia|].
      apply elem_of_cons in Hh as [->|Hh]; [lia|]. destruct Ia as (_ & ? & Ia). pose proof (asc_bounds _ _ _ Ia Hh). lia. }
    split; [|split; [done|]; split; [auto|]; simpl; split; [by intros Hin; split; [done|apply Hx]|tauto]].
    split; [done| |done]. simpl. intros k e Hk. apply replaced_lookup in Hk as [Hk|[-> ->]]; [by apply Ie|].
    split; [done|]. split; [done|]. split; [done|]. intros x Hr Hin. by apply (Hx x).
  - pose proof (new_gaps_in _ _ _ _ _ _ _ _ Ia C) as Hin.
    split; [|split; [done|]; split; [tauto|done]]. split; [by eapply new_gaps_asc; eauto; lia| |done]. simpl.
    assert (Hqq : ∀ k e, q !! k = Some e → 0 <= k ∧ k + len (e_Data e) < MaxByteCount ∧ carries S k (e_Data e)
       ∧ ∀ x, k <= x < k + len (e_Data e) → ¬ in_gaps (new_gaps start end_ pre g eg post) x).
    { intros k e Hk. destruct (Hq k) as [Ek|(Ek & _)]; [|congruence]. rewrite Ek in Hk.
      apply replaced_lookup in Hk as [Hk|[-> ->]].
      - destruct (Ie _ _ Hk) as (?&?&?&Hx). split; [done|]. split; [done|]. split; [done|]. intros x Hr [Hy _]%Hin. by apply (Hx x).
      - split; [done|]. split; [done|]. split; [done|]. intros x Hr [_ Hy]%Hin. done. }
    destruct err as [err|]; [done|].
    intros k e [[<- <-]|[_ Hk]]%lookup_insert_Some; [|by apply Hqq]. simpl.
    assert (Hse : start <= end_).
    { destruct (cut_up_g _ _ _ _ _ _ _ _ Ia C) as (?&?&_).
      pose proof (cu_start _ _ _ _ _ _ _ _ C). pose proof (cu_start' _ _ _ _ _ _ _ _ C). lia. }
    rewrite len_slice by lia. split; [lia|]. split; [lia|]. split; [apply carries_slice; [lia|done]|].
    intros x Hr [_ Hy]%Hin. lia.
Qed.

Lemma Push_inv S s data offset cb :
  sorter_inv S s → op_ok S (OpPush offset data cb) →
  ∃ s' calls err, Push s data offset cb = (s', calls, err) ∧ sorter_inv S s' ∧ readPos s' = readPos s
    ∧ (err = None ∨ err = Some errTooManyGaps)
    ∧ ∀ x, in_gaps (gaps s') x ↔ in_gaps (gaps s) x ∧ ¬ (offset <= x < offset + len data).
Proof.
  intros HI (Ho & Hm & HS). destruct (push_inv S s data offset cb HI Ho Hm HS) as (s' & calls & err & E & ? & ? & Herr & ?).
  unfold Push. rewrite E. destruct Herr as [-> | [-> | ->]]; [by eauto 10| |].
  - rewrite decide_True by done. by eauto 10.
  - rewrite decide_False by done. by eauto 10.
Qed.
(** A pop returns the bytes at the read position. *)
Lemma Pop_inv S s : sorter_inv S s →
  ∃ s' d cb, Pop s = (s', (readPos s, d, cb)) ∧ sorter_inv S s' ∧ readPos s' = readPos s + len d
    ∧ carries S (readPos s) d ∧ gaps s' = gaps s.
Proof.
  intros [Ia Ie Ir]. assert (HM : MaxByteCount < 2 ^ 64) by done. unfold Pop. destruct (queue s !! readPos s) as [e|] eqn:E.
  - destruct (Ie _ _ E) as (H1 & H2 & H3 & H4). pose proof (len_nonneg (e_Data e)). do 3 eexists. split; [done|].
    rewrite u64_small by lia. split_and!; try done. split; [done| |simpl; lia]. simpl. intros k e' [_ Hk]%lookup_delete_Some. by apply Ie.
  - exists s, [], None. split; [done|]. split; [done|]. rewrite len_nil. split; [lia|]. split; [|done]. intros i b Hi. by rewrite lookup_nil in Hi.
Qed.

Lemma run_inv S ops : ∀ s s' out err,
  sorter_inv S s → Forall (op_ok S) ops → run s ops = (s', out, err) →
  sorter_inv S s' ∧ carries S (readPos s) out ∧ readPos s' = readPos s + len out
  ∧ (err = None ∨ err = Some errTooManyGaps)
  ∧ (err = None → ∀ x, in_gaps (gaps s') x ↔ in_gaps (gaps s) x ∧ ¬ Exists (pushes x) ops).
Proof.
  assert (Hnil : ∀ o, carries S o []) by (intros o i b Hi; by rewrite lookup_nil in Hi).
  induction ops as [|op ops IH]; intros s s' out err HI Hops E.
  { injection E as <- <- <-. rewrite len_nil. split; [done|]. split; [done|]. split; [lia|]. split; [auto|].
    intros _ x. rewrite Exists_nil. tauto. }
  apply Forall_cons in Hops as [Hop Hops]. simpl in E. destruct op as [o d cb|]; simpl in E.
  - destruct (Push_inv S s d o cb HI Hop) as (s1 & c & e1 & E1 & HI1 & Hr & He & Hg). rewrite E1 in E.
    destruct e1 as [e1|].
    { injection E as <- <- <-. rewrite len_nil. split; [done|]. split; [done|]. split; [lia|]. split; [done|done]. }
    destruct (run s1 ops) as [[s2 d'] e2] eqn:E2. injection E as <- <- <-.
    apply IH in E2 as (H1 & H2 & H3 & H4 & H5); [|done..]. rewrite Hr in H2, H3. split_and!; [done..|].
    intros H x. rewrite (H5 H x), Hg, Exists_cons. simpl. tauto.
  - destruct (Pop_inv S s HI) as (s1 & d & cb & E1 & HI1 & Hr & Hc & Hg). rewrite E1 in E.
    destruct (run s1 ops) as [[s2 d'] e2] eqn:E2. injection E as <- <- <-.
    apply IH in E2 as (H1 & H2 & H3 & H4 & H5); [|done..]. rewrite Hr in H2, H3. split; [done|].
    split; [by apply carries_app|]. split; [rewrite len_app; lia|]. split; [done|].
    intros H x. rewrite (H5 H x), Hg, Exists_cons. simpl. tauto.
Qed.

(** * Delivery *)

(** Queued entries lead from offset [a] to offset [b] without a hole. *)
Inductive chain (q : gmap Z frameSorterEntry) : Z → Z → Prop :=
  | chain_refl a : chain q a a
  | chain_step a e b : q !! a = Some e → e_Data e ≠ [] → chain q (a + len (e_Data e)) b → chain q a b.
(** Everything between the gaps of [gs], from [a] on, is queued. *)
Fixpoint covers (q : gmap Z frameSorterEntry) (a : Z) (gs : list ByteInterval) : Prop :=
  match gs with
  | [] => True
  | g :: gs' => chain q a (bi_Start g) ∧ covers q (bi_End g) gs'
  end.

Lemma len_pos {A} (l : list A) : l ≠ [] → 0 < len l.
Proof. destruct l; [done|]. intros _. unfold len. simpl. lia. Qed.
Lemma chain_le q a b : chain q a b → a <= b.
Proof. induction 1 as [|a e b H1 H2 H3 IH]; [lia|]. apply len_pos in H2. lia. Qed.
Lemma chain_trans q a b c : chain q a b → chain q b c → chain q a c.
Proof. induction 1; [done|]. intros. eapply chain_step; eauto. Qed.
Lemma chain_frame q q' a b : chain q a b → (∀ k, a <= k < b → q' !! k = q !! k) → chain q' a b.
Proof.
  induction 1 as [|a e b H1 H2 H3 IH]; intros Hf; [constructor|].
  pose proof (len_pos _ H2). pose proof (chain_le _ _ _ H3). eapply chain_step; [|done|].
  - rewrite Hf; [done|lia].
  - apply IH. intros k Hk. apply Hf. lia.
Qed.
Lemma covers_app q a l k : covers q a (l ++ k) ↔ covers q a l ∧ covers q (last_end a l) k.
Proof. revert a. induction l as [|g l IH]; intros a; simpl; [tauto|]. rewrite IH. unfold last_end. simpl. tauto. Qed.
Lemma covers_below q q' a gs m : covers q a gs →
  (∀ g, g ∈ gs → bi_Start g <= m) → (∀ k, k < m → q' !! k = q !! k) → covers q' a gs.
Proof.
  revert a. induction gs as [|g gs IH]; intros a; simpl; [done|]. intros [H1 H2] Hm Hf. split.
  - eapply chain_frame; [done|]. intros k Hk. apply Hf. specialize (Hm g ltac:(constructor)). lia.
  - apply IH; [done| |done]. intros h Hh. apply Hm. by constructor.
Qed.
Lemma covers_above q q' a gs : covers q a gs → asc a gs → (∀ k, a <= k → q' !! k = q !! k) → covers q' a gs.
Proof.
  revert a. induction gs as [|g gs IH]; intros a; simpl; [done|]. intros [H1 H2] (A1 & A2 & A3) Hf. split.
  - eapply chain_frame; [done|]. intros k Hk. apply Hf. lia.
  - apply IH; [done..|]. intros k Hk. apply Hf. lia.
Qed.
Lemma covers_chain q a b gs : chain q a b → covers q b gs → covers q a gs.
Proof. destruct gs as [|g gs]; simpl; [done|]. intros H [H1 H2]. split; [by eapply chain_trans|done]. Qed.

(** The push would not replace a queued entry by a longer one. *)
Definition no_replace (s : frameSorter) (op : sorter_op) : bool :=
  match op with
  | OpPush o d _ => match queue s !! o with Some e => len d <=? len (e_Data e) | None => true end
  | OpPop => true
  end.
Fixpoint never_replaces (s : frameSorter) (ops : list sorter_op) : bool :=
  match ops with
  | [] => true
  | op :: ops => no_replace s op && never_replaces (fst (fst (run_op s op))) ops
  end.
Record live_inv (S : Z → Z) (s : frameSorter) : Prop := mkLive {
  li_inv : sorter_inv S s;
  li_data : ∀ k e, queue s !! k = Some e → e_Data e ≠ [];
  li_covers : covers (queue s) (readPos s) (gaps s) }.

Lemma live_new S : live_inv S newFrameSorter.
Proof. split; [apply inv_new| |]; simpl; [intros k e Hk; by rewrite lookup_empty in Hk|]. split; [constructor|done]. Qed.

(** There is an entry right behind every gap but the last. *)
Lemma covers_entry q lo a gs g : asc lo gs → covers q a gs → g ∈ gs → bi_End g < MaxByteCount → q !! bi_End g ≠ None.
Proof.
  revert lo a. induction gs as [|h gs IH]; intros lo a Ha Hc Hg Hm; [inversion Hg|].
  destruct Ha as (A1 & A2 & A3), Hc as [C1 C2]. apply elem_of_cons in Hg as [->|Hg]; [|by eapply IH].
  destruct gs as [|n gs]; [simpl in A3; lia|]. destruct A3 as (A3 & _), C2 as [C2 _].
  inversion C2 as [x E|x e y E1 E2 E3]; subst; [lia|congruence].
Qed.
(** The pieces of the cover around the cut, with the new entry put in. *)
Lemma covers_cut q q' rp gs start end_ pre mid g eg post :
  asc (-1) gs → cut_up gs start end_ pre mid g eg post →
  let a := Z.max start (bi_Start g) in let b := Z.min end_ (bi_End eg) in
  a < b → covers q rp gs → (∀ k, k < a ∨ bi_End eg <= k → q' !! k = q !! k) → chain q' a b →
  covers q' rp (new_gaps a b pre g eg post).
Proof.
  intros Ia C a b Hab Hcov Hq Hch. pose proof (cut_up_g _ _ _ _ _ _ _ _ Ia C) as (G1 & G2 & G3 & G4).
  pose proof (cut_up_post _ _ _ _ _ _ _ _ Ia C) as (P1 & P2 & P3).
  rewrite (cu_gaps _ _ _ _ _ _ _ _ C) in Hcov. apply covers_app in Hcov as [Cpre Crest].
  assert (Cg : chain q (last_end rp pre) (bi_Start g)).
  { pose proof (cu_head _ _ _ _ _ _ _ _ C) as Hh. destruct mid as [|m mid']; simpl in Hh, Crest; injection Hh as <-; by destruct Crest. }
  apply covers_app in Crest as [_ [_ Cpost]].
  assert (Cpost' : covers q' (bi_End eg) post) by (eapply covers_above; [done..|]; intros k Hk; apply Hq; by right).
  unfold new_gaps. apply covers_app. split.
  { eapply covers_below; [done| |intros k Hk; apply Hq; by left].
    intros h Hh. pose proof (cut_up_pre _ _ _ _ _ _ _ _ Ia C h Hh). lia. }
  assert (Cg' : chain q' (last_end rp pre) (bi_Start g)).
  { eapply chain_frame; [done|]. intros k Hk. apply Hq. left. lia. }
  assert (Ctail : ∀ c, chain q' c b → covers q' c ((if b <? bi_End eg then [mkByteInterval b (bi_End eg)] else []) ++ post)).
  { intros c Hc. destruct (Z.ltb_spec b (bi_End eg)); simpl; [done|]. assert (Eb : b = bi_End eg) by lia.
    rewrite Eb in Hc. by eapply covers_chain. }
  destruct (Z.ltb_spec (bi_Start g) a); simpl; [split; [done|by apply Ctail]|].
  apply Ctail. eapply chain_trans; [done|]. by replace (bi_Start g) with a by lia.
Qed.
Lemma push_live S s data offset cb :
  live_inv S s → op_ok S (OpPush offset data cb) → no_replace s (OpPush offset data cb) = true →
  ∃ s' calls err, push s data offset cb = (s', calls, err)
    ∧ (err ≠ Some errTooManyGaps → live_inv S s').
Proof.
  intros [HI Hdata Hcov] (Ho & Hm & HS) Hnr.
  destruct (push_inv S s data offset cb HI Ho Hm HS) as (s' & calls & err & E & HI' & Hr & Herr & Hin).
  exists s', calls, err. split; [done|]. intros Hne. pose proof (si_asc _ _ HI) as Ia.
  destruct (decide (data = [])) as [->|Hd]; [unfold push in E; simpl in E; injection E as <- <- <-; done|].
  pose proof (len_pos _ Hd) as Hl.
  destruct (push_spec s data offset cb Ia Ho Hd Hm) as (s1 & c1 & err1 & E1 & Hc).
  rewrite E in E1. injection E1 as <- <- <-.
  assert (Hno : (∀ e, queue s !! offset = Some e → len (e_Data e) < len data) → queue s !! offset = None).
  { intros Hold. simpl in Hnr. destruct (queue s !! offset) as [e|]; [|done]. apply Z.leb_le in Hnr. specialize (Hold e eq_refl). lia. }
  destruct Hc as [e He Hle|pre g post Hold Hg Hp He|pre mid g eg post q cb' err' Hold C start end_ Hq Herr'].
  - by split.
  - split; [done| |]; unfold replaced; simpl; rewrite (Hno Hold); done.
  - destruct Herr' as [-> | ->]; [|done]. clear Hne. specialize (Hno Hold). unfold replaced in Hq. rewrite Hno in Hq.
    pose proof (cut_up_g _ _ _ _ _ _ _ _ Ia C) as (G1 & G2 & G3 & G4).
    pose proof (cut_up_post _ _ _ _ _ _ _ _ Ia C) as (P1 & P2 & P3).
    pose proof (cu_start _ _ _ _ _ _ _ _ C). pose proof (cu_start' _ _ _ _ _ _ _ _ C).
    assert (Hgin : g ∈ gaps s).
    { rewrite (cu_gaps _ _ _ _ _ _ _ _ C). destruct (decide (mid = [])) as [Em|Em]; [rewrite (G3 Em); set_solver|].
      destruct (G4 Em). set_solver. }
    assert (Hog : offset ≠ bi_End g).
    { intros ->. by apply (covers_entry _ _ _ _ g Ia Hcov Hgin); [lia|]. }
    assert (Hlen : len (slice data offset start end_) = end_ - start) by (apply len_slice; lia).
    assert (Hse : start < end_) by lia.
    assert (Hs0 : slice data offset start end_ ≠ []) by (intros Es; rewrite Es, len_nil in Hlen; lia).
    split; [done| |]; simpl.
    + intros k e [[<- <-]|[_ Hk]]%lookup_insert_Some; [done|]. destruct (Hq k) as [Ek|(Ek & _)]; [|congruence].
      rewrite Ek in Hk. by eapply Hdata.
    + refine (covers_cut _ _ _ _ _ _ _ _ _ _ _ Ia C Hse Hcov _ _).
      * intros k Hk. rewrite lookup_insert_ne by lia. destruct (Hq k) as [Ek|(_ & _ & h & Hh & Eh)]; [done|].
        pose proof (cut_up_mid _ _ _ _ _ _ _ _ Ia C h Hh). fold start in Hk. lia.
      * eapply chain_step; [apply lookup_insert_eq|done|]. simpl. rewrite Hlen. replace (_ + _) with end_ by lia. constructor.
Qed.

Lemma Pop_live S s : live_inv S s → live_inv S (fst (Pop s)).
Proof.
  intros HL. destruct (Pop_inv S s (li_inv _ _ HL)) as (s1 & d & cb & E & HI & Hr & _ & Hg).
  rewrite E. unfold Pop in E. destruct (queue s !! readPos s) as [e|] eqn:Ee; [|by injection E as <- _ _].
  injection E as <- <- <-. simpl in Hr. destruct HL as [[Ia Ie Ir] Hd Hc].
  split; [done| |]; simpl in *; [by intros k e' [_ Hk]%lookup_delete_Some; eapply Hd|].
  rewrite Hr. pose proof (len_pos _ (Hd _ _ Ee)) as Hl. destruct (gaps s) as [|g gs] eqn:Eg; [done|].
  destruct Hc as [C1 C2], Ia as (A1 & A2 & A3). assert (Hne : readPos s ≠ bi_Start g).
  { intros Eq. destruct (Ie _ _ Ee) as (_ & _ & _ & Hx). apply (Hx (readPos s)); [lia|]. apply in_gaps_cons. left. unfold in_gap. lia. }
  pose proof (chain_le _ _ _ C1) as Hle. split.
  - inversion C1 as [|x e' y E1 E2 E3]; subst; [done|]. rewrite E1 in Ee. injection Ee as ->.
    eapply chain_frame; [done|]. intros k Hk. rewrite lookup_delete_ne by lia. done.
  - eapply covers_above; [done..|]. intros k Hk. rewrite lookup_delete_ne by lia. done.
Qed.
Lemma run_op_live S s op s' d : live_inv S s → op_ok S op → no_replace s op = true →
  run_op s op = (s', d, None) → live_inv S s'.
Proof.
  intros HL Hop Hnr E. destruct op as [o dt cb|]; simpl in E.
  - destruct (push_live S s dt o cb HL Hop Hnr) as (s1 & c & err & E1 & H). unfold Push in E. rewrite E1 in E.
    destruct err as [err|]; [|injection E as <- _; by apply H].
    case_decide as He; [|discriminate]. injection E as <- _. apply H. by rewrite He.
  - pose proof (Pop_live S s HL) as H. destruct (Pop s) as [s1 [[? ?] ?]]. by injection E as <- _.
Qed.
Lemma run_live S ops : ∀ s s' out, live_inv S s → Forall (op_ok S) ops → never_replaces s ops = true →
  run s ops = (s', out, None) → live_inv S s'.
Proof.
  induction ops as [|op ops IH]; intros s s' out HL Hops Hnr E; [by injection E as <- _|].
  apply Forall_cons in Hops as [Hop Hops]. simpl in Hnr, E. apply andb_true_iff in Hnr as [Hn1 Hn2].
  destruct (run_op s op) as [[s1 d] [e|]] eqn:E1; [discriminate|].
  destruct (run s1 ops) as [[s2 d'] e2] eqn:E2. injection E as <- _ ->.
  eapply IH; [|done..|done]. by eapply run_op_live.
Qed.
(** Popping as often as there are entries empties the readable part of the queue. *)
Lemma drain S n : ∀ s, live_inv S s → (size (queue s) <= n)%nat →
  ∃ s' out, run s (replicate n OpPop) = (s', out, None) ∧ live_inv S s' ∧ queue s' !! readPos s' = None.
Proof.
  induction n as [|n IH]; intros s HL Hn.
  { exists s, []. split; [done|]. split; [done|]. assert (Hz : queue s = ∅) by (apply map_size_empty_inv; lia). by rewrite Hz. }
  pose proof (Pop_live S s HL) as HL1. simpl.
  assert (Hs : (size (queue (fst (Pop s))) <= n)%nat ∨ fst (Pop s) = s ∧ queue s !! readPos s = None).
  { unfold Pop. destruct (queue s !! readPos s) as [e|] eqn:E; simpl; [left|by right].
    rewrite map_size_delete_Some by eauto. lia. }
  destruct (Pop s) as [s1 [[o d] cb]] eqn:Ep. simpl in HL1, Hs. destruct Hs as [Hs|[-> Hs]].
  - destruct (IH s1 HL1 Hs) as (s' & out & E & H1 & H2). rewrite E. by eauto.
  - clear IH. unfold Pop in Ep. rewrite Hs in Ep. injection Ep as <- <- <-.
    assert (Hr : ∀ m, run s (replicate m OpPop) = (s, [], None)).
    { induction m as [|m IHm]; [done|]. simpl. unfold Pop. by rewrite Hs, IHm. }
    rewrite Hr. by exists s, [].
Qed.
Lemma run_app ops ops' : ∀ s s1 out1, run s ops = (s1, out1, None) →
  run s (ops ++ ops') = let '(s2, out2, err) := run s1 ops' in (s2, out1 ++ out2, err).
Proof.
  induction ops as [|op ops IH]; intros s s1 out1 E; simpl in *.
  { injection E as <- <-. by destruct (run s ops') as [[? ?] ?]. }
  destruct (run_op s op) as [[s2 d] [e|]]; [discriminate|]. destruct (run s2 ops) as [[s3 d'] e] eqn:E2.
  injection E as <- <- ->. rewrite (IH _ _ _ E2). destruct (run s3 ops') as [[? ?] ?]. by rewrite app_assoc.
Qed.
#[export] Instance pushes_dec x op : Decision (pushes x op).
Proof. destruct op; simpl; apply _. Defined.
(** The first byte that no operation carries. *)
Lemma first_gap S s : live_inv S s → queue s !! readPos s = None →
  in_gaps (gaps s) (readPos s) ∧ ∀ x, x < readPos s → ¬ in_gaps (gaps s) x.
Proof.
  intros [[Ia Ie Ir] Hd Hc] Hn. destruct (gaps s) as [|g gs] eqn:Eg; [done|]. destruct Ia as (A1 & A2 & A3), Hc as [C1 _].
  assert (E : readPos s = bi_Start g) by (inversion C1; [done|congruence]). split; [apply in_gaps_cons; left; unfold in_gap; lia|].
  intros x Hx (h & Hh & Hi)%Exists_exists. unfold in_gap in Hi. apply elem_of_cons in Hh as [->|Hh]; [lia|].
  pose proof (asc_bounds _ _ _ A3 Hh). lia.
Qed.

(** C37: whatever interleaving of pushes and pops runs on a new sorter, as long
    as every pushed frame carries bytes of the stream [S]: the popped data,
    concatenated, are the first bytes of [S] in order and the read position
    is their number; the only error is the limit on gaps; and without an
    error the gaps are exactly the bytes that no frame carried. *)
Theorem sorter_output_correct (S : Z → Z) (ops : list sorter_op) (s : frameSorter) (out : list Z) (err : option goerr) :
  Forall (op_ok S) ops → run newFrameSorter ops = (s, out, err) →
  carries S 0 out ∧ readPos s = len out ∧ (err = None ∨ err = Some errTooManyGaps)
  ∧ (err = None → ∀ x, in_gaps (gaps s) x ↔ 0 <= x < MaxByteCount ∧ ¬ Exists (pushes x) ops).
Proof.
  intros Hops E. destruct (run_inv S ops _ _ _ _ (inv_new S) Hops E) as (_ & H1 & H2 & H3 & H4).
  split; [done|]. split; [done|]. split; [done|]. intros Hn x. rewrite (H4 Hn x). simpl.
  rewrite in_gaps_cons, in_gaps_nil. unfold in_gap. simpl. tauto.
Qed.
Definition sample_ops : list sorter_op :=
  [OpPush 4 [4; 5; 6; 7] (Some 1%nat); OpPush 0 [0; 1] None; OpPop; OpPop; OpPush 1 [1; 2; 3; 4; 5] None; OpPush 9 [9] None].
Lemma sample_ok : Forall (op_ok (λ x, x)) sample_ops.
Proof.
  assert (H : ∀ o d, bool_decide (imap (λ i _, o + Z.of_nat i) d = d) = true → carries (λ x, x) o d).
  { intros o d Hb%bool_decide_eq_true i b Hi. rewrite <- Hb in Hi. apply list_lookup_imap_Some in Hi as (? & ? & ->). done. }
  repeat (constructor; [simpl; try (split; [done|]; split; [done|]; apply H; vm_compute; done); done|]); constructor.
Qed.
Lemma sorter_output_correct_witness : readPos (fst (fst (run newFrameSorter sample_ops))) = 2.
Proof.
  destruct (sorter_output_correct (λ x, x) sample_ops (fst (fst (run newFrameSorter sample_ops)))
    (snd (fst (run newFrameSorter sample_ops))) None sample_ok ltac:(vm_compute; reflexivity)) as (_ & H & _).
  rewrite H. vm_compute. reflexivity.
Defined.

(** As long as no push replaces a queued entry by a longer one, every
    received byte becomes readable: after any interleaving that ends without
    an error, popping as many times as there are queued entries returns, in
    total, the stream up to the first byte that was never received. *)
Theorem sorter_delivers (S : Z → Z) (ops : list sorter_op) (s : frameSorter) (out : list Z) :
  Forall (op_ok S) ops → never_replaces newFrameSorter ops = true → run newFrameSorter ops = (s, out, None) →
  ∃ s' out', run s (replicate (size (queue s)) OpPop) = (s', out', None)
    ∧ carries S 0 (out ++ out')
    ∧ (∀ x, 0 <= x < len (out ++ out') → Exists (pushes x) ops)
    ∧ ¬ Exists (pushes (len (out ++ out'))) ops.
Proof.
  intros Hops Hnr E. pose proof (run_live S ops _ _ _ (live_new S) Hops Hnr E) as HL.
  destruct (drain S _ s HL (le_n _)) as (s' & out' & E' & HL' & Hn). exists s', out'. split; [done|].
  pose proof (run_app ops (replicate (size (queue s)) OpPop) _ _ _ E) as Ea. rewrite E' in Ea.
  assert (Hpops : Forall (op_ok S) (replicate (size (queue s)) OpPop)) by (by apply Forall_replicate).
  destruct (run_inv S _ _ _ _ _ (inv_new S) (Forall_app_2 _ _ _ Hops Hpops) Ea) as (_ & H1 & H2 & _ & H4).
  split; [done|]. destruct (first_gap S s' HL' Hn) as [F1 F2]. simpl in H2.
  assert (Hex : ∀ x, in_gaps (gaps s') x ↔ 0 <= x < MaxByteCount ∧ ¬ Exists (pushes x) ops).
  { intros x. rewrite (H4 eq_refl x), Exists_app. simpl. rewrite in_gaps_cons, in_gaps_nil. unfold in_gap. simpl.
    assert (¬ Exists (pushes x) (replicate (size (queue s)) OpPop)); [|tauto].
    intros (op & Hop & Hx)%Exists_exists. apply elem_of_replicate in Hop as [-> _]. done. }
  rewrite H2 in *. split.
  - intros x Hx. destruct (decide (Exists (pushes x) ops)) as [|Hno]; [done|]. exfalso.
    apply (F2 x); [lia|]. apply Hex. split; [|done]. pose proof (si_read _ _ (li_inv _ _ HL')). lia.
  - by apply Hex.
Qed.
Lemma sorter_delivers_witness : ¬ Exists (pushes 8) sample_ops.
Proof.
  destruct (sorter_delivers (λ x, x) sample_ops (fst (fst (run newFrameSorter sample_ops)))
    (snd (fst (run newFrameSorter sample_ops))) sample_ok ltac:(vm_compute; reflexivity) ltac:(vm_compute; reflexivity))
    as (s' & out' & E & _ & _ & H).
  assert (Eo : len (snd (fst (run newFrameSorter sample_ops)) ++ out') = 8).
  { replace out' with (snd (fst (run (fst (fst (run newFrameSorter sample_ops)))
      (replicate (size (queue (fst (fst (run newFrameSorter sample_ops))))) OpPop)))) by (rewrite E; reflexivity). vm_compute. reflexivity. }
  rewrite Eo in H. exact H.
Defined.

(** Without that restriction delivery fails.  A stream whose twenty bytes
    all arrived, the frame at offset 10 having been retransmitted with more
    bytes, stops being readable at offset 10: the entry there was replaced by
    an empty one.  And a longer retransmission that runs into data received
    beyond a gap makes the read position jump into the middle of an entry. *)
Theorem sorter_replacement_stalls :
  let bytes a n := imap (λ i _, a + Z.of_nat i) (replicate n 0) in
  let drained ops := let '(s, _, err) := run newFrameSorter ops in
    let '(s', out, _) := run s (replicate 30 OpPop) in (gaps s', readPos s', out, err) in
  drained [OpPush 10 (bytes 10 2%nat) None; OpPush 12 (bytes 12 3%nat) None; OpPush 15 (bytes 15 5%nat) None;
           OpPush 10 (bytes 10 5%nat) None; OpPush 0 (bytes 0 10%nat) None]
    = ([mkByteInterval 20 MaxByteCount], 10, bytes 0 10%nat, None)
  ∧ drained [OpPush 0 (bytes 0 10%nat) None; OpPush 20 (bytes 20 10%nat) None; OpPush 0 (bytes 0 25%nat) None]
    = ([mkByteInterval 30 MaxByteCount], 25, bytes 0 25%nat, None).
Proof. vm_compute. split; reflexivity. Qed.

(** A queued entry that a longer retransmission replaces and whose
    remainder is cut below the buffer threshold has its callback called, which
    returns the packet buffer to the pool, while the entry stays queued with
    the same callback: the pop hands out the released data and the callback
    runs a second time; the cut piece stays in the queue for ever. *)
Theorem sorter_replacement_double_release :
  let '(s1, c1, e1) := Push newFrameSorter (replicate 10 7) 0 (Some 1%nat) in
  let '(s2, c2, e2) := Push s1 (replicate 130 7) 0 (Some 2%nat) in
  let '(s3, (o, d, cb)) := Pop s2 in
  (c1, e1, c2, e2) = ([], None, [1%nat; 2%nat], None) ∧ (o, d, cb) = (0, replicate 130 7, Some 2%nat)
  ∧ HasMoreData s3 = true ∧ readPos s3 = 130 ∧ gaps s3 = [mkByteInterval 130 MaxByteCount].
Proof. vm_compute. split_and!; reflexivity. Qed.
