(* ===== verification/SendStream.v ===== *)
(** SendStream: quic-go/send_stream.go.  The sending half of a stream.  Every
    operation runs under the stream's mutex and is one step; [Write] blocks, so
    a call in progress is a value that the application's goroutine resumes when
    the write channel or its deadline timer fires.  The write channel (capacity
    one) is a boolean; [dataForWriting] is [None] for nil.  The stream's flow
    controller shares the connection's, which is passed and returned.  Calls of
    the stream's sender are returned in order.  The frames returned by
    [popStreamFrame] carry [queueRetransmission] and [frameAcked] of this stream
    as their callbacks. *)

From S2P Require Import Prelude Utils Protocol AckFrame Frames FrameCodec StreamFrame FrameParser GoFloat Rtt FlowControl.

(** The [streamSender] interface of stream.go, and the flow controllers'
    [queueWindowUpdate]. *)
Inductive sender_event :=
  | QueueControlFrame (f : Frame)
  | OnHasStreamData (id : Z)
  | OnStreamCompleted (id : Z)
  | QueueWindowUpdate (e : fc_event).

Record sendStream := mkSendStream {
  snd_numOutstandingFrames : Z;
  snd_retransmissionQueue : list StreamFrame;
  snd_ctxDone : bool;
  snd_streamID : Z;
  snd_writeOffset : Z;
  snd_cancelWriteErr : option goerr;
  snd_closeForShutdownErr : option goerr;
  snd_closedForShutdown : bool;
  snd_finishedWriting : bool;
  snd_canceledWrite : bool;
  snd_finSent : bool;
  snd_completed : bool;
  snd_dataForWriting : option (list Z);
  snd_writeChan : bool;
  snd_deadline : Z;
  snd_flowController : streamFlowController }.

Definition newSendStream (streamID : Z) (fc : streamFlowController) : sendStream :=
  mkSendStream 0 [] false streamID 0 None None false false false false false None false time_zero fc.

Definition snd_set_data (s : sendStream) (d : option (list Z)) : sendStream :=
  mkSendStream (snd_numOutstandingFrames s) (snd_retransmissionQueue s) (snd_ctxDone s) (snd_streamID s) (snd_writeOffset s) (snd_cancelWriteErr s)
    (snd_closeForShutdownErr s) (snd_closedForShutdown s) (snd_finishedWriting s) (snd_canceledWrite s) (snd_finSent s)
    (snd_completed s) d (snd_writeChan s) (snd_deadline s) (snd_flowController s).
Definition snd_set_chan (s : sendStream) (b : bool) : sendStream :=
  mkSendStream (snd_numOutstandingFrames s) (snd_retransmissionQueue s) (snd_ctxDone s) (snd_streamID s) (snd_writeOffset s) (snd_cancelWriteErr s)
    (snd_closeForShutdownErr s) (snd_closedForShutdown s) (snd_finishedWriting s) (snd_canceledWrite s) (snd_finSent s)
    (snd_completed s) (snd_dataForWriting s) b (snd_deadline s) (snd_flowController s).
Definition snd_set_queue (s : sendStream) (n : Z) (q : list StreamFrame) : sendStream :=
  mkSendStream n q (snd_ctxDone s) (snd_streamID s) (snd_writeOffset s) (snd_cancelWriteErr s)
    (snd_closeForShutdownErr s) (snd_closedForShutdown s) (snd_finishedWriting s) (snd_canceledWrite s) (snd_finSent s)
    (snd_completed s) (snd_dataForWriting s) (snd_writeChan s) (snd_deadline s) (snd_flowController s).
Definition snd_set_fc (s : sendStream) (offset : Z) (fc : streamFlowController) : sendStream :=
  mkSendStream (snd_numOutstandingFrames s) (snd_retransmissionQueue s) (snd_ctxDone s) (snd_streamID s) offset (snd_cancelWriteErr s)
    (snd_closeForShutdownErr s) (snd_closedForShutdown s) (snd_finishedWriting s) (snd_canceledWrite s) (snd_finSent s)
    (snd_completed s) (snd_dataForWriting s) (snd_writeChan s) (snd_deadline s) fc.
Definition snd_set_finSent (s : sendStream)  : sendStream :=
  mkSendStream (snd_numOutstandingFrames s) (snd_retransmissionQueue s) (snd_ctxDone s) (snd_streamID s) (snd_writeOffset s) (snd_cancelWriteErr s)
    (snd_closeForShutdownErr s) (snd_closedForShutdown s) (snd_finishedWriting s) (snd_canceledWrite s) true
    (snd_completed s) (snd_dataForWriting s) (snd_writeChan s) (snd_deadline s) (snd_flowController s).
Definition snd_set_finished (s : sendStream)  : sendStream :=
  mkSendStream (snd_numOutstandingFrames s) (snd_retransmissionQueue s) (snd_ctxDone s) (snd_streamID s) (snd_writeOffset s) (snd_cancelWriteErr s)
    (snd_closeForShutdownErr s) (snd_closedForShutdown s) true (snd_canceledWrite s) (snd_finSent s)
    (snd_completed s) (snd_dataForWriting s) (snd_writeChan s) (snd_deadline s) (snd_flowController s).
Definition snd_set_completed (s : sendStream)  : sendStream :=
  mkSendStream (snd_numOutstandingFrames s) (snd_retransmissionQueue s) (snd_ctxDone s) (snd_streamID s) (snd_writeOffset s) (snd_cancelWriteErr s)
    (snd_closeForShutdownErr s) (snd_closedForShutdown s) (snd_finishedWriting s) (snd_canceledWrite s) (snd_finSent s)
    true (snd_dataForWriting s) (snd_writeChan s) (snd_deadline s) (snd_flowController s).
Definition snd_set_canceled (s : sendStream) (e : goerr) : sendStream :=
  mkSendStream (snd_numOutstandingFrames s) (snd_retransmissionQueue s) (snd_ctxDone s) (snd_streamID s) (snd_writeOffset s) (Some e)
    (snd_closeForShutdownErr s) (snd_closedForShutdown s) (snd_finishedWriting s) true (snd_finSent s)
    (snd_completed s) (snd_dataForWriting s) (snd_writeChan s) (snd_deadline s) (snd_flowController s).
Definition snd_set_deadline (s : sendStream) (t : Z) : sendStream :=
  mkSendStream (snd_numOutstandingFrames s) (snd_retransmissionQueue s) (snd_ctxDone s) (snd_streamID s) (snd_writeOffset s) (snd_cancelWriteErr s)
    (snd_closeForShutdownErr s) (snd_closedForShutdown s) (snd_finishedWriting s) (snd_canceledWrite s) (snd_finSent s)
    (snd_completed s) (snd_dataForWriting s) (snd_writeChan s) t (snd_flowController s).
Definition snd_set_shutdown (s : sendStream) (e : option goerr) : sendStream :=
  mkSendStream (snd_numOutstandingFrames s) (snd_retransmissionQueue s) (snd_ctxDone s) (snd_streamID s) (snd_writeOffset s) (snd_cancelWriteErr s)
    e true (snd_finishedWriting s) (snd_canceledWrite s) (snd_finSent s)
    (snd_completed s) (snd_dataForWriting s) (snd_writeChan s) (snd_deadline s) (snd_flowController s).
Definition snd_ctxCancel (s : sendStream)  : sendStream :=
  mkSendStream (snd_numOutstandingFrames s) (snd_retransmissionQueue s) true (snd_streamID s) (snd_writeOffset s) (snd_cancelWriteErr s)
    (snd_closeForShutdownErr s) (snd_closedForShutdown s) (snd_finishedWriting s) (snd_canceledWrite s) (snd_finSent s)
    (snd_completed s) (snd_dataForWriting s) (snd_writeChan s) (snd_deadline s) (snd_flowController s).

(** [err != nil] *)
Definition is_err (e : option goerr) : bool := match e with Some _ => true | None => false end.
(** A non-blocking send on the channel. *)
Definition signalWrite (s : sendStream) : sendStream := snd_set_chan s true.

(** * Write *)

(** A blocked call: the length of its argument, whether the sender was notified,
    the deadline its timer was set to. *)
Record write_call := mkWriteCall { wc_len : Z; wc_notified : bool; wc_deadline : Z }.
Inductive write_result := WReturn (n : Z) (err : option goerr) | WBlocked (w : write_call).

Definition len_opt (d : option (list Z)) : Z := match d with Some d => len d | None => 0 end.
Definition is_nil (d : option (list Z)) : bool := match d with Some _ => false | None => true end.

(** One iteration of the loop, up to its end or to the wait. *)
Definition Write_loop (s : sendStream) (w : write_call) (now : Z)
    : sendStream * list sender_event * write_result :=
  let bytesWritten := wc_len w - len_opt (snd_dataForWriting s) in
  let deadline := snd_deadline s in
  if negb (deadline =? time_zero) && negb (now <? deadline) then
    (snd_set_data s None, [], WReturn bytesWritten (Some DeadlineError))
  else if is_nil (snd_dataForWriting s) || snd_canceledWrite s || snd_closedForShutdown s then
    (s, [], WReturn bytesWritten
       (match snd_closeForShutdownErr s with Some e => Some e | None => snd_cancelWriteErr s end))
  else
    (s, if wc_notified w then [] else [OnHasStreamData (snd_streamID s)],
     WBlocked (mkWriteCall (wc_len w) true deadline)).

(** The call up to its first wait; [now] and [now'] are what the clock shows
    before and in the loop. *)
Definition Write (s : sendStream) (p : list Z) (now now' : Z)
    : sendStream * list sender_event * write_result :=
  if snd_finishedWriting s then
    (s, [], WReturn 0 (Some (Errorf "write on closed stream %d" [snd_streamID s])))
  else if snd_canceledWrite s then (s, [], WReturn 0 (snd_cancelWriteErr s))
  else match snd_closeForShutdownErr s with
  | Some e => (s, [], WReturn 0 (Some e))
  | None =>
      if negb (snd_deadline s =? time_zero) && negb (now <? snd_deadline s) then
        (s, [], WReturn 0 (Some DeadlineError))
      else if len p =? 0 then (s, [], WReturn 0 None)
      else Write_loop (snd_set_data s (Some p)) (mkWriteCall (len p) false time_zero) now'
  end.

(** A blocked call goes on when it receives from the channel or its timer
    fires. *)
Definition Write_wake (s : sendStream) (w : write_call) (timer : bool) (now : Z)
    : option (sendStream * list sender_event * write_result) :=
  if timer then
    if negb (wc_deadline w =? time_zero) && (wc_deadline w <=? now) then Some (Write_loop s w now) else None
  else if snd_writeChan s then Some (Write_loop (snd_set_chan s false) w now) else None.

Definition hasData (s : sendStream) : bool := 0 <? len_opt (snd_dataForWriting s).

(** * Popping STREAM frames *)

Definition set_fin (f : StreamFrame) (b : bool) : StreamFrame :=
  mkStreamFrame (StreamID f) (Offset f) (Data f) b (DataLenPresent f) (fromPool f).
Definition set_DataLenPresent (f : StreamFrame) (b : bool) : StreamFrame :=
  mkStreamFrame (StreamID f) (Offset f) (Data f) (FinBit f) b (fromPool f).

(** [f.Data = f.Data[:n]] on a pool buffer, filled with [d]. *)
Definition fill (f : StreamFrame) (d : list Z) : outcome StreamFrame :=
  if pool_cap <? len d then Panic "slice bounds out of range"
  else Ok (mkStreamFrame (StreamID f) (Offset f) d (FinBit f) (DataLenPresent f) (fromPool f)).

Definition getDataForWriting (s : sendStream) (conn : baseFlowController) (f : StreamFrame) (maxBytes : Z)
    : outcome (sendStream * baseFlowController * StreamFrame) :=
  match snd_dataForWriting s with
  | None => Ok (s, conn, set_fin f (snd_finishedWriting s && negb (snd_finSent s)))
  | Some d =>
      let maxBytes := MinByteCount maxBytes (SendWindowSize (snd_flowController s) conn) in
      if maxBytes =? 0 then Ok (s, conn, f) else
      let n := Z.to_nat maxBytes in
      let '(s, data) := if maxBytes <? len d then (snd_set_data s (Some (drop n d)), take n d)
                        else (signalWrite (snd_set_data s None), d) in
      f ← fill f data;
      let '(fc, conn) := AddBytesSent (snd_flowController s) conn (DataLen f) in
      let s := snd_set_fc s (u64 (snd_writeOffset s + DataLen f)) fc in
      Ok (s, conn, set_fin f (snd_finishedWriting s && is_nil (snd_dataForWriting s) && negb (snd_finSent s)))
  end.

(** The boolean results say whether the stream has more data to send. *)
Definition popNewStreamFrame (s : sendStream) (conn : baseFlowController) (f : StreamFrame) (maxBytes : Z)
    : outcome (sendStream * baseFlowController * list sender_event * StreamFrame * bool) :=
  if snd_canceledWrite s || is_err (snd_closeForShutdownErr s) then Ok (s, conn, [], f, false) else
  maxDataLen ← MaxDataLen f maxBytes;
  if maxDataLen =? 0 then Ok (s, conn, [], f, negb (is_nil (snd_dataForWriting s))) else
  '(s, conn, f) ← getDataForWriting s conn f maxDataLen;
  if (len (Data f) =? 0) && negb (FinBit f) then
    if is_nil (snd_dataForWriting s) then Ok (s, conn, [], f, false) else
    let '(b, (isBlocked, offset)) := IsNewlyBlocked (sfc (snd_flowController s)) in
    let s := snd_set_fc s (snd_writeOffset s) (set_sfc (snd_flowController s) b) in
    if isBlocked : bool then
      Ok (s, conn, [QueueControlFrame (FStreamDataBlocked (mkStreamDataBlocked (snd_streamID s) offset))], f, false)
    else Ok (s, conn, [], f, true)
  else
    let s := if FinBit f then snd_set_finSent s else s in
    Ok (s, conn, [], f, negb (is_nil (snd_dataForWriting s))).

Definition maybeGetRetransmission (s : sendStream) (maxBytes : Z)
    : outcome (sendStream * option StreamFrame * bool) :=
  match snd_retransmissionQueue s with
  | [] => Panic "index out of range"
  | f :: q =>
      '(newFrame, needsSplit, f) ← MaybeSplitOffFrame f maxBytes;
      if needsSplit : bool then Ok (snd_set_queue s (snd_numOutstandingFrames s) (f :: q), newFrame, true)
      else Ok (snd_set_queue s (snd_numOutstandingFrames s) q, Some f, 0 <? len q)
  end.

Definition pop_new (s : sendStream) (conn : baseFlowController) (maxBytes : Z)
    : outcome (sendStream * baseFlowController * list sender_event * option StreamFrame * bool) :=
  let f := mkStreamFrame (snd_streamID s) (snd_writeOffset s) [] false true true in
  '(s, conn, ev, f, hasMoreData) ← popNewStreamFrame s conn f maxBytes;
  if (len (Data f) =? 0) && negb (FinBit f) then
    _ ← putStreamFrame pool_cap f; Ok (s, conn, ev, None, hasMoreData)
  else Ok (s, conn, ev, Some f, hasMoreData).

Definition popNewOrRetransmittedStreamFrame (s : sendStream) (conn : baseFlowController) (maxBytes : Z)
    : outcome (sendStream * baseFlowController * list sender_event * option StreamFrame * bool) :=
  if 0 <? len (snd_retransmissionQueue s) then
    '(s, f, hasMoreRetransmissions) ← maybeGetRetransmission s maxBytes;
    match f with
    | Some f => Ok (s, conn, [], Some f, true)
    | None => if hasMoreRetransmissions : bool then Ok (s, conn, [], None, true) else pop_new s conn maxBytes
    end
  else pop_new s conn maxBytes.

Definition popStreamFrame (s : sendStream) (conn : baseFlowController) (maxBytes : Z)
    : outcome (sendStream * baseFlowController * list sender_event * option StreamFrame * bool) :=
  '(s, conn, ev, f, hasMoreData) ← popNewOrRetransmittedStreamFrame s conn maxBytes;
  let s := match f with
           | Some _ => snd_set_queue s (i64 (snd_numOutstandingFrames s + 1)) (snd_retransmissionQueue s)
           | None => s
           end in
  Ok (s, conn, ev, f, hasMoreData).

(** * Acknowledged and lost frames *)

Definition isNewlyCompleted (s : sendStream) : sendStream * bool :=
  let completed := (snd_finSent s || snd_canceledWrite s) && (snd_numOutstandingFrames s =? 0)
                   && (len (snd_retransmissionQueue s) =? 0) in
  if completed && negb (snd_completed s) then (snd_set_completed s, true) else (s, false).

Definition report (newlyCompleted : bool) (id : Z) : list sender_event :=
  if newlyCompleted then [OnStreamCompleted id] else [].

Definition frameAcked (s : sendStream) (f : StreamFrame) : outcome (sendStream * list sender_event) :=
  _ ← putStreamFrame pool_cap f;
  let s := snd_set_queue s (i64 (snd_numOutstandingFrames s - 1)) (snd_retransmissionQueue s) in
  if snd_numOutstandingFrames s <? 0 then Panic "numOutStandingFrames negative" else
  let '(s, newlyCompleted) := isNewlyCompleted s in
  Ok (s, report newlyCompleted (snd_streamID s)).

Definition queueRetransmission (s : sendStream) (f : StreamFrame) : outcome (sendStream * list sender_event) :=
  let sf := set_DataLenPresent f true in
  let s := snd_set_queue s (i64 (snd_numOutstandingFrames s - 1)) (snd_retransmissionQueue s ++ [sf]) in
  if snd_numOutstandingFrames s <? 0 then Panic "numOutStandingFrames negative" else
  Ok (s, [OnHasStreamData (snd_streamID s)]).

(** * Closing, cancelling and the peer's frames *)

Definition snd_Close (s : sendStream) : sendStream * list sender_event * option goerr :=
  if snd_canceledWrite s then (s, [], Some (Errorf "Close called for canceled stream %d" [snd_streamID s]))
  else (snd_ctxCancel (snd_set_finished s), [OnHasStreamData (snd_streamID s)], None).

Definition cancelWriteImpl (s : sendStream) (errorCode : Z) (writeErr : goerr) : sendStream * list sender_event :=
  if snd_canceledWrite s then (s, []) else
  let '(s, newlyCompleted) := isNewlyCompleted (snd_set_canceled s writeErr) in
  (snd_ctxCancel (signalWrite s),
   QueueControlFrame (FResetStream (mkResetStream (snd_streamID s) errorCode (snd_writeOffset s)))
     :: report newlyCompleted (snd_streamID s)).
Definition CancelWrite (s : sendStream) (errorCode : Z) : sendStream * list sender_event :=
  cancelWriteImpl s errorCode (Errorf "Write on stream %d canceled with error code %d" [snd_streamID s; errorCode]).
Definition handleStopSendingFrame (s : sendStream) (frame : StopSendingFrame) : sendStream * list sender_event :=
  cancelWriteImpl s (ss_ErrorCode frame)
    (StreamCanceledError (ss_ErrorCode frame)
       (Errorf "stream %d was reset with error code %d" [snd_streamID s; ss_ErrorCode frame])).

Definition handleMaxStreamDataFrame (s : sendStream) (frame : MaxStreamDataFrame) : sendStream * list sender_event :=
  let hasStreamData := negb (is_nil (snd_dataForWriting s)) in
  let fc := snd_flowController s in
  let s := snd_set_fc s (snd_writeOffset s) (set_sfc fc (UpdateSendWindow (sfc fc) (msd_ByteOffset frame))) in
  (s, if hasStreamData then [OnHasStreamData (snd_streamID s)] else []).

Definition SetWriteDeadline (s : sendStream) (t : Z) : sendStream := signalWrite (snd_set_deadline s t).
Definition snd_closeForShutdown (s : sendStream) (err : option goerr) : sendStream :=
  snd_ctxCancel (signalWrite (snd_set_shutdown s err)).
