(* ===== verification/SendStreamSpec.v ===== *)
(** SendStreamSpec: what a send stream promises.  The stream, the application's
    blocked [Write], the frames handed to the packet packer and their fate form a
    transition system.  In every reachable state the frames acknowledged, in
    flight and waiting for retransmission tile the data the application wrote,
    exactly the bytes [Write] reported; the FIN is on the last tile; completion
    is reported exactly once, when nothing is left to be acknowledged; and a
    blocked [Write] is always woken. *)

From S2P Require Import Prelude Utils Protocol AckFrame Frames FrameCodec StreamFrame FrameParser GoFloat Rtt FlowControl SendStream.

(** * Tilings of the data by frames *)

Fixpoint tile (off : Z) (fs : list StreamFrame) : Prop :=
  match fs with [] => True | f :: fs => Offset f = off ∧ tile (off + DataLen f) fs end.
Definition frames_data (fs : list StreamFrame) : list Z := concat (Data <$> fs).
(** The FIN, if sent, is on the last frame and nowhere else. *)
Definition fins (fin : bool) (fs : list StreamFrame) : Prop :=
  if fin then ∃ fs0 f, fs = fs0 ++ [f] ∧ FinBit f = true ∧ Forall (λ f, FinBit f = false) fs0
  else Forall (λ f, FinBit f = false) fs.
(** The frames [fs], in order, carry exactly the bytes [sent]. *)
Definition covering (sent : list Z) (fin : bool) (fs : list StreamFrame) : Prop :=
  tile 0 fs ∧ frames_data fs = sent ∧ fins fin fs.

Lemma frames_data_app a b : frames_data (a ++ b) = frames_data a ++ frames_data b.
Proof. unfold frames_data. by rewrite fmap_app, concat_app. Qed.
Lemma frames_data_cons f fs : frames_data (f :: fs) = Data f ++ frames_data fs.
Proof. done. Qed.
Lemma tile_app off a b : tile off (a ++ b) ↔ tile off a ∧ tile (off + len (frames_data a)) b.
Proof.
  revert off. induction a as [|f a IH]; intros off; cbn.
  - rewrite Z.add_0_r. tauto.
  - rewrite IH. unfold DataLen. fold (frames_data a). rewrite len_app, Z.add_assoc. tauto.
Qed.
Lemma fins_app fin a b : b ≠ [] → fins fin (a ++ b) ↔ Forall (λ f, FinBit f = false) a ∧ fins fin b.
Proof.
  intros Hb. unfold fins. destruct fin; [|apply Forall_app].
  split.
  - intros (fs0 & f & E & Hf & H0). destruct b as [|x b] using rev_ind; [done|].
    rewrite app_assoc in E. apply app_inj_tail in E as [<- <-]. apply Forall_app in H0 as [? ?]. eauto 10.
  - intros (Ha & fs0 & f & -> & Hf & H0). exists (a ++ fs0), f. rewrite app_assoc.
    split_and!; [done..|]. by apply Forall_app.
Qed.
Lemma covering_new sent fs f : covering sent false fs → Offset f = len sent →
  covering (sent ++ Data f) (FinBit f) (fs ++ [f]).
Proof.
  intros (Ht & Hd & Hf) Ho. split_and!.
  - apply tile_app. rewrite Hd. cbn. by rewrite Ho.
  - by rewrite frames_data_app, frames_data_cons, Hd, app_nil_r.
  - apply fins_app; [done|]. split; [done|]. unfold fins. destruct (FinBit f) eqn:E; [|by repeat constructor].
    by exists [], f.
Qed.
(** Replacing a frame by frames that carry the same bytes. *)
Lemma covering_replace sent fin a f gs b : covering sent fin (a ++ f :: b) → gs ≠ [] →
  tile (Offset f) gs → frames_data gs = Data f → fins (FinBit f) gs →
  covering sent fin (a ++ gs ++ b).
Proof.
  intros (Ht & Hd & Hf) Hne Hgt Hgd Hgf. apply tile_app in Ht as [Ha [Ho Hb]].
  rewrite frames_data_app, frames_data_cons in Hd. split_and!.
  - rewrite !tile_app. rewrite Hgd. unfold DataLen in Hb. rewrite <- Ho. split_and!; [done..|]. by rewrite Ho.
  - by rewrite !frames_data_app, Hgd.
  - apply fins_app in Hf as [Hfa Hf]; [|done]. apply fins_app; [by destruct gs|]. split; [done|].
    destruct (decide (b = [])) as [->|Hbn].
    + rewrite app_nil_r. unfold fins in Hf. destruct fin.
      * destruct Hf as (fs0 & f' & E & Hf' & _). destruct fs0 as [|? fs0]; [|by destruct fs0].
        injection E as ->. by rewrite Hf' in Hgf.
      * apply Forall_cons in Hf as [E _]. by rewrite E in Hgf.
    + change (f :: b) with ([f] ++ b) in Hf. apply fins_app in Hf as [E Hf]; [|done].
      apply Forall_cons in E as [E _]. rewrite E in Hgf. apply fins_app; done.
Qed.
(** One of the frames of a permutation, in its place. *)
Lemma perm_pick {A} (fs rest : list A) f : fs ≡ₚ f :: rest →
  ∃ a b, fs = a ++ f :: b ∧ a ++ b ≡ₚ rest.
Proof.
  intros Hp. assert (Hin : f ∈ fs) by (rewrite Hp; apply list_elem_of_here).
  apply list_elem_of_split in Hin as (a & b & ->). exists a, b. split; [done|].
  symmetry. eapply Permutation_cons_app_inv. by rewrite <- Hp.
Qed.

(** * The transition system *)

(** [sy_call]: the [Write] in progress with its argument; [sy_done]: the bytes
    reported by the calls that returned, in order; [sy_out], [sy_acked]: the
    frames in flight and those acknowledged; [sy_log]: all calls of the sender. *)
Record snd_sys := mkSys {
  sy_s : sendStream; sy_conn : baseFlowController; sy_call : option (write_call * list Z);
  sy_done : list Z; sy_out : list StreamFrame; sy_acked : list StreamFrame; sy_log : list sender_event }.

(** What the call in progress has handed over so far. *)
Definition part (s : sendStream) (c : option (write_call * list Z)) : list Z :=
  match c with
  | Some (_, p) => take (Z.to_nat (len p - len_opt (snd_dataForWriting s))) p
  | None => []
  end.
Definition sent (y : snd_sys) : list Z := sy_done y ++ part (sy_s y) (sy_call y).

(** The end of a step of [Write]: blocked again, or returned [n]. *)
Definition after_write (y : snd_sys) (p : list Z) (res : sendStream * list sender_event * write_result) : snd_sys :=
  let '(s, ev, r) := res in
  match r with
  | WBlocked w => mkSys s (sy_conn y) (Some (w, p)) (sy_done y) (sy_out y) (sy_acked y) (sy_log y ++ ev)
  | WReturn n _ => mkSys s (sy_conn y) None (sy_done y ++ take (Z.to_nat n) p) (sy_out y) (sy_acked y) (sy_log y ++ ev)
  end.
Definition opt_list {A} (o : option A) : list A := match o with Some a => [a] | None => [] end.
Definition with_s (y : snd_sys) (s : sendStream) (ev : list sender_event) : snd_sys :=
  mkSys s (sy_conn y) (sy_call y) (sy_done y) (sy_out y) (sy_acked y) (sy_log y ++ ev).

(** Every operation, in any order.  Calls of [Write] are not concurrent with
    each other; packets have at most [MaxReceivePacketSize] bytes; frames are
    acknowledged or lost once each; [step_framer] is the framer's change to the
    last frame of a packet; the connection's window changes freely. *)
Inductive snd_step : snd_sys → snd_sys → Prop :=
  | step_write y p now now' : sy_call y = None → bytes_ok p →
      snd_step y (after_write y p (Write (sy_s y) p now now'))
  | step_wake y w p timer now res : sy_call y = Some (w, p) → Write_wake (sy_s y) w timer now = Some res →
      snd_step y (after_write y p res)
  | step_pop y maxBytes s conn ev f more : 0 <= maxBytes <= MaxReceivePacketSize → len (sy_out y) < 2 ^ 62 →
      popStreamFrame (sy_s y) (sy_conn y) maxBytes = Ok (s, conn, ev, f, more) →
      snd_step y (mkSys s conn (sy_call y) (sy_done y) (sy_out y ++ opt_list f) (sy_acked y) (sy_log y ++ ev))
  | step_framer y a f b : sy_out y = a ++ f :: b →
      snd_step y (mkSys (sy_s y) (sy_conn y) (sy_call y) (sy_done y) (a ++ set_DataLenPresent f false :: b)
                    (sy_acked y) (sy_log y))
  | step_acked y a f b s ev : sy_out y = a ++ f :: b → frameAcked (sy_s y) f = Ok (s, ev) →
      snd_step y (mkSys s (sy_conn y) (sy_call y) (sy_done y) (a ++ b) (sy_acked y ++ [f]) (sy_log y ++ ev))
  | step_lost y a f b s ev : sy_out y = a ++ f :: b → queueRetransmission (sy_s y) f = Ok (s, ev) →
      snd_step y (mkSys s (sy_conn y) (sy_call y) (sy_done y) (a ++ b) (sy_acked y) (sy_log y ++ ev))
  | step_close y s ev err : snd_Close (sy_s y) = (s, ev, err) → snd_step y (with_s y s ev)
  | step_cancel y code s ev : CancelWrite (sy_s y) code = (s, ev) → snd_step y (with_s y s ev)
  | step_stop y f s ev : handleStopSendingFrame (sy_s y) f = (s, ev) → snd_step y (with_s y s ev)
  | step_max_data y f s ev : 0 <= msd_ByteOffset f <= MaxByteCount →
      handleMaxStreamDataFrame (sy_s y) f = (s, ev) → snd_step y (with_s y s ev)
  | step_deadline y t : snd_step y (with_s y (SetWriteDeadline (sy_s y) t) [])
  | step_shutdown y e : snd_step y (with_s y (snd_closeForShutdown (sy_s y) (Some e)) [])
  | step_conn y conn : base_ok conn →
      snd_step y (mkSys (sy_s y) conn (sy_call y) (sy_done y) (sy_out y) (sy_acked y) (sy_log y)).

Definition snd_init (id sendWindow : Z) (conn : baseFlowController) : snd_sys :=
  mkSys (newSendStream id (NewStreamFlowController id 0 0 sendWindow)) conn None [] [] [] [].

(** * The invariant *)

Definition live (s : sendStream) : bool := negb (snd_canceledWrite s) && negb (snd_closedForShutdown s).
(** The data still to be sent belongs to the call in progress. *)
Definition call_ok (s : sendStream) (c : option (write_call * list Z)) : Prop :=
  match c with
  | None => snd_dataForWriting s = None ∨ live s = false
  | Some (w, p) =>
      wc_len w = len p ∧ bytes_ok p ∧
      (∃ k, snd_dataForWriting s = Some (drop k p) ∧ (k < length p)%nat ∨
        snd_dataForWriting s = None ∧ k = length p) ∧
      (snd_dataForWriting s = None ∨ live s = false → snd_writeChan s = true)
  end.
Definition tile_ok (id : Z) (f : StreamFrame) : Prop :=
  stream_ok f ∧ StreamID f = id ∧ (Data f ≠ [] ∨ FinBit f = true).
Definition completions (l : list sender_event) : list Z :=
  omap (λ e, match e with OnStreamCompleted id => Some id | _ => None end) l.
Definition resets (l : list sender_event) : list ResetStreamFrame :=
  omap (λ e, match e with QueueControlFrame (FResetStream r) => Some r | _ => None end) l.

Definition snd_flags (y : snd_sys) : Prop :=
  let s := sy_s y in
  (snd_closedForShutdown s = is_err (snd_closeForShutdownErr s)) ∧
  (snd_canceledWrite s = is_err (snd_cancelWriteErr s)) ∧
  (snd_finSent s = true → snd_finishedWriting s = true ∧ snd_dataForWriting s = None) ∧
  snd_completed s = (snd_finSent s || snd_canceledWrite s) && (snd_numOutstandingFrames s =? 0)
                    && (len (snd_retransmissionQueue s) =? 0) ∧
  snd_numOutstandingFrames s = len (sy_out y) ∧ len (sy_out y) <= 2 ^ 62.
Definition snd_log_ok (y : snd_sys) : Prop :=
  completions (sy_log y) = (if snd_completed (sy_s y) then [snd_streamID (sy_s y)] else []) ∧
  (resets (sy_log y) = [] ∧ snd_canceledWrite (sy_s y) = false ∨
   ∃ code, resets (sy_log y) = [mkResetStream (snd_streamID (sy_s y)) code (len (sent y))] ∧
     snd_canceledWrite (sy_s y) = true).
Definition snd_fc_ok (y : snd_sys) : Prop :=
  let fc := snd_flowController (sy_s y) in
  base_ok (sfc fc) ∧ base_ok (sy_conn y) ∧ bytesSent (sfc fc) = len (sent y) ∧
  snd_writeOffset (sy_s y) = len (sent y).
Definition snd_tiles (y : snd_sys) : Prop :=
  ∃ fs, fs ≡ₚ sy_acked y ++ sy_out y ++ snd_retransmissionQueue (sy_s y) ∧
    covering (sent y) (snd_finSent (sy_s y)) fs ∧ Forall (tile_ok (snd_streamID (sy_s y))) fs.
Definition data_ok (d : option (list Z)) : Prop :=
  match d with Some d => d ≠ [] ∧ bytes_ok d | None => True end.
Record snd_inv (id : Z) (y : snd_sys) : Prop := {
  inv_id : snd_streamID (sy_s y) = id;
  inv_id_ok : 0 <= id <= maxVarInt8;
  inv_call : call_ok (sy_s y) (sy_call y);
  inv_flags : snd_flags y;
  inv_log : snd_log_ok y;
  inv_fc : snd_fc_ok y;
  inv_tiles : snd_tiles y;
  inv_rtx : Forall (λ f, DataLenPresent f = true) (snd_retransmissionQueue (sy_s y));
  inv_bytes : bytes_ok (sent y);
  inv_data : data_ok (snd_dataForWriting (sy_s y)) }.

Lemma data_ok_drop k p : bytes_ok p → (k < length p)%nat → data_ok (Some (drop k p)).
Proof.
  intros Hp Hk. split; [|by apply Forall_drop]. intros E. apply (f_equal length) in E. rewrite length_drop in E. cbn in E. lia.
Qed.

(** A step that changes neither the data handed over nor the frames. *)
Lemma snd_inv_ext id y y' : snd_inv id y →
  let s := sy_s y in let s' := sy_s y' in
  sent y' = sent y → sy_out y' = sy_out y → sy_acked y' = sy_acked y →
  completions (sy_log y') = completions (sy_log y) → resets (sy_log y') = resets (sy_log y) →
  snd_streamID s' = snd_streamID s → snd_numOutstandingFrames s' = snd_numOutstandingFrames s →
  snd_retransmissionQueue s' = snd_retransmissionQueue s → snd_writeOffset s' = snd_writeOffset s →
  snd_canceledWrite s' = snd_canceledWrite s → snd_cancelWriteErr s' = snd_cancelWriteErr s →
  snd_finSent s' = snd_finSent s → snd_completed s' = snd_completed s →
  (snd_closedForShutdown s' = is_err (snd_closeForShutdownErr s')) →
  (snd_finSent s' = true → snd_finishedWriting s' = true ∧ snd_dataForWriting s' = None) →
  base_ok (sfc (snd_flowController s')) →
  bytesSent (sfc (snd_flowController s')) = bytesSent (sfc (snd_flowController s)) →
  base_ok (sy_conn y') → call_ok s' (sy_call y') → data_ok (snd_dataForWriting s') →
  snd_inv id y'.
Proof.
  intros [? ? ? Hfl Hlog Hfc Ht Hr Hb _]. cbv zeta. intros Es Eo Ea Ec Er E1 E2 E3 E4 E5 E6 E7 E8 Hsh Hfin Hb1 Hb2 Hconn Hcall Hd.
  split; try done; try congruence.
  - unfold snd_flags in *. rewrite E2, E3, E5, E6, E7, E8, Eo in *. naive_solver.
  - unfold snd_log_ok in *. by rewrite Ec, Er, E8, E1, E5, Es.
  - unfold snd_fc_ok in *. rewrite Es, E4, Hb2. naive_solver.
  - unfold snd_tiles in *. by rewrite Ea, Eo, E3, Es, E7, E1.
Qed.

Lemma take_len {A} (p : list A) n : len p <= n → take (Z.to_nat n) p = p.
Proof. intros. apply take_ge. unfold len in *. lia. Qed.
Lemma part_drop s w p k : snd_dataForWriting s = Some (drop k p) → (k <= length p)%nat → part s (Some (w, p)) = take k p.
Proof. intros E Hk. unfold part. rewrite E. cbn. f_equal. unfold len. rewrite length_drop. lia. Qed.
Lemma part_nil s w p : snd_dataForWriting s = None → part s (Some (w, p)) = p.
Proof. intros E. unfold part. rewrite E. cbn. apply take_len. lia. Qed.

(** One iteration of the loop of [Write]: either the call stays blocked, or it
    returns the number of bytes handed over. *)
Lemma Write_loop_ok id y w p now s : snd_inv id y →
  snd_streamID s = snd_streamID (sy_s y) → snd_numOutstandingFrames s = snd_numOutstandingFrames (sy_s y) →
  snd_retransmissionQueue s = snd_retransmissionQueue (sy_s y) → snd_writeOffset s = snd_writeOffset (sy_s y) →
  snd_canceledWrite s = snd_canceledWrite (sy_s y) → snd_cancelWriteErr s = snd_cancelWriteErr (sy_s y) →
  snd_finSent s = snd_finSent (sy_s y) → snd_completed s = snd_completed (sy_s y) →
  snd_closedForShutdown s = snd_closedForShutdown (sy_s y) → snd_closeForShutdownErr s = snd_closeForShutdownErr (sy_s y) →
  snd_finishedWriting s = snd_finishedWriting (sy_s y) → snd_flowController s = snd_flowController (sy_s y) →
  (snd_finSent s = true → snd_dataForWriting s = None) →
  wc_len w = len p → bytes_ok p →
  (∃ k, snd_dataForWriting s = Some (drop k p) ∧ (k < length p)%nat ∨ snd_dataForWriting s = None ∧ k = length p) →
  sy_done y ++ part s (Some (w, p)) = sent y →
  snd_inv id (after_write y p (Write_loop s w now)).
Proof.
  intros Hinv E1 E2 E3 E4 E5 E6 E7 E8 E9 E10 E11 E12 Hfin Hw Hp Hk Hsent.
  pose proof (inv_flags _ _ Hinv) as (F1 & F2 & F3 & F4 & F5 & F6). pose proof (inv_fc _ _ Hinv) as (G1 & G2 & G3 & G4).
  rewrite <- E7, <- E11 in F3.
  assert (Hd : data_ok (snd_dataForWriting s)) by (destruct Hk as (k & [[-> Hk]|[-> _]]); [by apply data_ok_drop|done]).
  unfold Write_loop.
  assert (Hn : take (Z.to_nat (wc_len w - len_opt (snd_dataForWriting s))) p = part s (Some (w, p))) by (by rewrite Hw).
  destruct (negb _ && _); [|destruct (is_nil _ || _ || _) eqn:Eb]; cbn [after_write].
  - (* the deadline passed *)
    apply (snd_inv_ext id y); cbn [sy_s sy_conn sy_call sy_done sy_out sy_acked sy_log];
      rewrite ?app_nil_r; try done; cbn; try congruence; try (by rewrite E12).
    + rewrite <- Hsent, <- Hn. apply app_nil_r.
    + intros. split; [naive_solver|done].
    + by left.
  - (* nothing left to be sent, or the stream was closed *)
    apply (snd_inv_ext id y); cbn [sy_s sy_conn sy_call sy_done sy_out sy_acked sy_log];
      rewrite ?app_nil_r; try done; cbn; try congruence; try (by rewrite E12).
    + rewrite <- Hsent, <- Hn. apply app_nil_r.
    + naive_solver.
    + unfold live. destruct (snd_dataForWriting s); [|by left]. right. cbn in Eb.
      destruct (snd_canceledWrite s), (snd_closedForShutdown s); done.
  - apply orb_false_iff in Eb as [Eb Ecl]. apply orb_false_iff in Eb as [Ed Eca].
    apply (snd_inv_ext id y); cbn [sy_s sy_conn sy_call sy_done sy_out sy_acked sy_log];
      rewrite ?app_nil_r; try done; try congruence; try (by rewrite E12).
    + unfold completions. rewrite omap_app. destruct (wc_notified w); cbn; by rewrite app_nil_r.
    + unfold resets. rewrite omap_app. destruct (wc_notified w); cbn; by rewrite app_nil_r.
    + naive_solver.
    + cbn. split_and!; try done. unfold live. rewrite Eca, Ecl. cbn.
      intros [E|E]; [|done]. by rewrite E in Ed.
Qed.

(** * Popping frames *)

Definition is_fin (s : sendStream) (d : list Z) (k : nat) : bool :=
  snd_finishedWriting s && (length d =? k)%nat && negb (snd_finSent s).
Definition rest_data (d : list Z) (k : nat) : option (list Z) := if (length d =? k)%nat then None else Some (drop k d).
(** The state after [k] bytes of the data [d] were taken. *)
Definition snd_taken (s : sendStream) (conn : baseFlowController) (d : list Z) (k : nat) : sendStream :=
  mkSendStream (i64 (snd_numOutstandingFrames s + 1)) [] (snd_ctxDone s) (snd_streamID s)
    (u64 (snd_writeOffset s + Z.of_nat k)) (snd_cancelWriteErr s) (snd_closeForShutdownErr s)
    (snd_closedForShutdown s) (snd_finishedWriting s) (snd_canceledWrite s)
    (snd_finSent s || is_fin s d k) (snd_completed s) (rest_data d k)
    (snd_writeChan s || (length d =? k)%nat) (snd_deadline s)
    (AddBytesSent (snd_flowController s) conn (Z.of_nat k)).1.
(** What [popStreamFrame] can do. *)
Inductive pop_case (s : sendStream) (conn : baseFlowController) (maxBytes : Z)
    : sendStream → baseFlowController → list sender_event → option StreamFrame → Prop :=
  | pop_whole f q : snd_retransmissionQueue s = f :: q →
      pop_case s conn maxBytes (snd_set_queue s (i64 (snd_numOutstandingFrames s + 1)) q) conn [] (Some f)
  | pop_split f q a b : snd_retransmissionQueue s = f :: q → MaybeSplitOffFrame f maxBytes = Ok (Some a, true, b) →
      pop_case s conn maxBytes (snd_set_queue s (i64 (snd_numOutstandingFrames s + 1)) (b :: q)) conn [] (Some a)
  | pop_nothing b ev : snd_retransmissionQueue s = [] ∨ b = sfc (snd_flowController s) →
      base_ok b → bytesSent b = bytesSent (sfc (snd_flowController s)) → completions ev = [] → resets ev = [] →
      pop_case s conn maxBytes (snd_set_fc s (snd_writeOffset s) (set_sfc (snd_flowController s) b)) conn ev None
  | pop_fin : snd_retransmissionQueue s = [] → live s = true → snd_dataForWriting s = None →
      snd_finishedWriting s = true → snd_finSent s = false →
      pop_case s conn maxBytes
        (snd_set_queue (snd_set_finSent s) (i64 (snd_numOutstandingFrames s + 1)) []) conn []
        (Some (mkStreamFrame (snd_streamID s) (snd_writeOffset s) [] true true true))
  | pop_data d k s' : snd_retransmissionQueue s = [] → live s = true → snd_dataForWriting s = Some d →
      (0 < k <= length d)%nat → Z.of_nat k <= maxBytes →
      Z.of_nat k <= sendWindowSize (sfc (snd_flowController s)) → Z.of_nat k <= sendWindowSize conn →
      s' = snd_taken s conn d k →
      pop_case s conn maxBytes s' (base_AddBytesSent conn (Z.of_nat k)) []
        (Some (mkStreamFrame (snd_streamID s) (snd_writeOffset s) (take k d) (is_fin s d k) true true)).

Definition new_frame (s : sendStream) : StreamFrame := mkStreamFrame (snd_streamID s) (snd_writeOffset s) [] false true true.
Lemma new_stream_ok id off d b : 0 <= id <= maxVarInt8 → 0 <= off → off + len d <= MaxByteCount →
  len d <= MaxReceivePacketSize → bytes_ok d → stream_ok (mkStreamFrame id off d b true true).
Proof. intros. unfold stream_ok, DataLen; cbn [StreamID Offset Data]. tauto. Qed.
Lemma new_frame_ok s b : 0 <= snd_streamID s <= maxVarInt8 → 0 <= snd_writeOffset s <= MaxByteCount →
  stream_ok (mkStreamFrame (snd_streamID s) (snd_writeOffset s) [] b true true).
Proof.
  intros. apply new_stream_ok; try tauto; try constructor; change (len []) with 0; unfold MaxReceivePacketSize; lia.
Qed.

(** The data that fits the frame and both windows. *)
Lemma getData_data s conn n d : snd_dataForWriting s = Some d → d ≠ [] → 0 < n <= pool_cap →
  0 < MinByteCount n (SendWindowSize (snd_flowController s) conn) →
  let k := Z.to_nat (Z.min (MinByteCount n (SendWindowSize (snd_flowController s) conn)) (len d)) in
  getDataForWriting s conn (new_frame s) n =
  Ok (snd_set_fc (snd_set_chan (snd_set_data s (rest_data d k)) (snd_writeChan s || (length d =? k)%nat))
        (u64 (snd_writeOffset s + Z.of_nat k)) (AddBytesSent (snd_flowController s) conn (Z.of_nat k)).1,
      base_AddBytesSent conn (Z.of_nat k),
      mkStreamFrame (snd_streamID s) (snd_writeOffset s) (take k d) (is_fin s d k) true true).
Proof.
  intros Hd Hne Hn Hm. cbv zeta. unfold getDataForWriting. rewrite Hd.
  set (m := MinByteCount n _) in *. assert (m <= n) by (unfold m, MinByteCount; zcases; lia).
  assert (0 < len d) by (destruct d; [done|rewrite len_cons; pose proof (len_nonneg d); lia]).
  destruct (Z.eqb_spec m 0); [lia|].
  assert (∃ k : nat, Z.to_nat (Z.min m (len d)) = k ∧ Z.of_nat k = Z.min m (len d)) as (k & -> & Ek) by (eexists; split; [done|lia]).
  unfold rest_data. destruct (Z.ltb_spec m (len d)) as [Hlt|Hge].
  - replace (Z.to_nat m) with k by lia. assert (len (take k d) = Z.of_nat k) as El by (unfold len in *; rewrite length_take; lia).
    assert (((length d =? k)%nat) = false) as Ekk by (apply Nat.eqb_neq; unfold len in *; lia).
    unfold fill. rewrite El, Ekk. destruct (Z.ltb_spec pool_cap (Z.of_nat k)); [lia|]. cbn -[Z.of_nat].
    unfold DataLen; cbn [Data]. rewrite El. unfold is_fin. rewrite Ekk, !orb_false_r, !andb_false_r. by destruct s.
  - assert (len d = Z.of_nat k) as El by lia. assert (length d = k) as Elk by (unfold len in *; lia).
    unfold fill. rewrite El. destruct (Z.ltb_spec pool_cap (Z.of_nat k)); [lia|]. cbn -[Z.of_nat].
    unfold DataLen; cbn [Data]. rewrite El. unfold is_fin. rewrite <- Elk, Nat.eqb_refl, orb_true_r, !andb_true_r, firstn_all. done.
Qed.

Definition pop_pre (s : sendStream) : Prop :=
  0 <= snd_streamID s <= maxVarInt8 ∧ 0 <= snd_writeOffset s <= MaxByteCount ∧
  base_ok (sfc (snd_flowController s)) ∧
  Forall (λ f, stream_ok f ∧ DataLenPresent f = true) (snd_retransmissionQueue s) ∧
  snd_closedForShutdown s = is_err (snd_closeForShutdownErr s) ∧ data_ok (snd_dataForWriting s) ∧
  bytesSent (sfc (snd_flowController s)) = snd_writeOffset s.

Lemma set_fc_id s : snd_set_fc s (snd_writeOffset s) (set_sfc (snd_flowController s) (sfc (snd_flowController s))) = s.
Proof. by destruct s as [? ? ? ? ? ? ? ? ? ? ? ? ? ? ? []]. Qed.
Lemma pop_none s conn maxBytes : base_ok (sfc (snd_flowController s)) →
  pop_case s conn maxBytes s conn [] None.
Proof.
  intros Hb. pose proof (pop_nothing s conn maxBytes (sfc (snd_flowController s)) []) as H.
  rewrite set_fc_id in H. by apply H; [right|..].
Qed.

(** The frame fits [maxBytes] and carries its length. *)
Definition fits (maxBytes : Z) (f : StreamFrame) : Prop :=
  DataLenPresent f = true ∧ ∃ l, StreamFrame_Length f = Ok l ∧ l <= maxBytes.
Lemma new_fits id off n maxBytes d b : stream_ok (mkStreamFrame id off d b true true) →
  stream_overhead (mkStreamFrame id off [] false true true) n + n <= maxBytes → 0 <= n <= 16384 → len d <= n →
  fits maxBytes (mkStreamFrame id off d b true true).
Proof.
  intros Hok Hfit Hn Hd. split; [done|]. eexists. split; [by apply StreamFrame_Length_ok|].
  rewrite enc_stream_size. unfold stream_overhead in *. cbn [DataLenPresent] in *.
  unfold enc_stream_header in *. cbn [StreamID Offset] in *. rewrite !len_app, !len_cons in *.
  unfold DataLen. cbn [Data]. pose proof (len_nonneg d).
  pose proof (varint_len_mono (len d) n). unfold maxVarInt8 in *. lia.
Qed.

(** A fresh frame is not stored when it carries nothing. *)
Lemma pop_new_spec s conn maxBytes : pop_pre s → snd_retransmissionQueue s = [] →
  0 <= maxBytes <= MaxReceivePacketSize →
  ∃ s' ev f more conn', pop_new s conn maxBytes = Ok (s', conn', ev, f, more) ∧
    pop_case s conn maxBytes
      (match f with Some _ => snd_set_queue s' (i64 (snd_numOutstandingFrames s' + 1)) (snd_retransmissionQueue s') | None => s' end)
      conn' ev f ∧ (∀ g, f = Some g → fits maxBytes g).
Proof.
  intros (Hid & Ho & Hb & _ & Hcl & Hd & Hbs) Hq Hm. unfold pop_new. fold (new_frame s).
  unfold popNewStreamFrame. rewrite <- Hcl.
  destruct (snd_canceledWrite s || snd_closedForShutdown s) eqn:Elive.
  { cbn. do 5 eexists. split; [done|]. split; [by apply pop_none|done]. }
  assert (Hlive : live s = true) by (unfold live; by destruct (snd_canceledWrite s), (snd_closedForShutdown s)).
  destruct (MaxDataLen_spec (new_frame s) maxBytes) as (n & En & Hn0 & Hfit & _);
    [apply new_frame_ok; assumption|unfold MaxReceivePacketSize in *; lia|].
  rewrite En. cbn [mbind outcome_bind]. destruct (Z.eqb_spec n 0) as [->|Hn].
  { cbn. do 5 eexists. split; [done|]. split; [by apply pop_none|done]. }
  assert (0 < n <= maxBytes) as Hnm.
  { destruct Hfit as [|Hfit]; [lia|]. unfold stream_overhead in Hfit. cbn [new_frame DataLenPresent] in Hfit.
    pose proof (len_nonneg (enc_stream_header (new_frame s))). pose proof (len_nonneg (varint n)). lia. }
  destruct (snd_dataForWriting s) as [d|] eqn:Ed.
  - destruct Hd as [Hdne Hdb]. set (m := MinByteCount n (SendWindowSize (snd_flowController s) conn)).
    assert (0 <= m) as Hm0.
    { unfold m, SendWindowSize, MinByteCount, conn_SendWindowSize, sendWindowSize. pose proof u64_range. zcases; naive_solver lia. }
    destruct (Z.eq_dec m 0) as [Em|Em].
    + unfold getDataForWriting. rewrite Ed. fold m. rewrite Em. cbn [Z.eqb mbind outcome_bind new_frame Data FinBit len length Z.of_nat negb andb].
      rewrite Ed. cbn [is_nil].
      destruct (IsNewlyBlocked (sfc (snd_flowController s))) as [b [blk off]] eqn:Eb.
      pose proof (IsNewlyBlocked_spec (sfc (snd_flowController s)) Hb) as Hs. rewrite Eb in Hs. cbn [fst] in Hs.
      destruct Hs as (Hb1 & _ & _ & Hb4).
      destruct blk; cbn; do 5 eexists; (split; [done|]); (split; [|done]); apply pop_nothing; try done; by left.
    + rewrite (getData_data s conn n d) by (done || unfold pool_cap, MaxReceivePacketSize in *; fold m; lia). fold m.
      set (k := Z.to_nat (Z.min m (len d))). cbn [mbind outcome_bind Data FinBit].
      assert (0 < len d) by (destruct d; [done|rewrite len_cons; pose proof (len_nonneg d); lia]).
      assert (Hk : (0 < k <= length d)%nat) by (unfold k, len in *; lia).
      assert (len (take k d) = Z.of_nat k) as El by (unfold len; rewrite length_take; lia). rewrite El.
      destruct (Z.eqb_spec (Z.of_nat k) 0); [lia|]. cbn [andb mbind outcome_bind Data FinBit]. rewrite El.
      destruct (Z.eqb_spec (Z.of_nat k) 0); [lia|]. cbn [andb].
      do 5 eexists. split; [done|].
      assert (Z.of_nat k <= m) as Hkm by lia. unfold m in Hkm.
      assert (Hkn : Z.of_nat k <= n ∧ Z.of_nat k <= SendWindowSize (snd_flowController s) conn)
        by (unfold MinByteCount in Hkm; revert Hkm; zcases; lia).
      assert (Hkw : Z.of_nat k <= sendWindowSize (sfc (snd_flowController s)) ∧ Z.of_nat k <= sendWindowSize conn)
        by (destruct Hkn as [_ Hkn]; unfold SendWindowSize, conn_SendWindowSize, MinByteCount in Hkn; revert Hkn; zcases; lia).
      split; [|intros g [= <-]; destruct Hfit as [|Hfit]; [lia|]; eapply new_fits; [|exact Hfit|unfold MaxReceivePacketSize in *; lia|lia];
        apply new_stream_ok; rewrite ?El; try (unfold MaxReceivePacketSize in *; lia); [|by apply Forall_take];
        destruct Hkw as [Hkw _]; unfold sendWindowSize in Hkw; fc_unfold; revert Hkw; zcases; unwrap; lia].
      eapply (pop_data s conn maxBytes d k); try done; try lia.
      unfold snd_taken. destruct (is_fin s d k) eqn:Ef; rewrite ?Ef; cbn; rewrite ?orb_true_r, ?orb_false_r; by rewrite ?Hq.
  - unfold getDataForWriting. rewrite Ed. cbn [mbind outcome_bind set_fin new_frame Data FinBit len length Z.of_nat Z.eqb andb].
    destruct (snd_finishedWriting s && negb (snd_finSent s)) eqn:Ef; cbn [negb andb].
    + apply andb_true_iff in Ef as [Ef1 Ef2]. apply negb_true_iff in Ef2.
      do 5 eexists. split; [done|]. cbn. rewrite Hq. split; [by apply pop_fin|].
      intros g [= <-]. destruct Hfit as [|Hfit]; [lia|].
      eapply new_fits; [exact (new_frame_ok s true Hid Ho)|exact Hfit|unfold MaxReceivePacketSize in *; lia|unfold len; cbn; lia].
    + rewrite Ed. cbn. do 5 eexists. split; [done|]. split; [by apply pop_none|done].
Qed.

Lemma pop_spec s conn maxBytes : pop_pre s → 0 <= maxBytes <= MaxReceivePacketSize →
  ∃ s' conn' ev f more, popStreamFrame s conn maxBytes = Ok (s', conn', ev, f, more) ∧
    pop_case s conn maxBytes s' conn' ev f ∧ (∀ g, f = Some g → fits maxBytes g).
Proof.
  intros Hpre Hm. pose proof Hpre as (Hid & Ho & Hb & Hq & Hcl & Hd & _).
  unfold popStreamFrame, popNewOrRetransmittedStreamFrame.
  destruct (snd_retransmissionQueue s) as [|f q] eqn:Eq.
  { cbn [len length Z.of_nat Z.ltb Z.compare]. destruct (pop_new_spec s conn maxBytes Hpre Eq Hm) as (s' & ev & f & more & conn' & -> & Hc).
    cbn. do 5 eexists. split; [done|]. destruct f; exact Hc. }
  rewrite len_cons. pose proof (len_nonneg q). destruct (Z.ltb_spec 0 (1 + len q)); [|lia].
  unfold maybeGetRetransmission. rewrite Eq. apply Forall_cons in Hq as [[Hf Hfd] _].
  pose proof (MaybeSplitOffFrame_spec f maxBytes Hf ltac:(unfold MaxReceivePacketSize in *; lia)) as Hs.
  destruct (MaybeSplitOffFrame f maxBytes) as [[[[a|] []] b]| |] eqn:Es; try done.
  - cbn. do 5 eexists. split; [done|]. split; [exact (pop_split s conn maxBytes f q a b Eq Es)|].
    intros g [= <-]. split; [|apply Hs]. destruct Hs as (_ & _ & _ & _ & _ & _ & _ & _ & _ & _ & _ & -> & _). done.
  - destruct Hs as [-> _]. cbn. do 5 eexists. split; [done|]. rewrite <- Eq.
    replace (snd_set_queue s (snd_numOutstandingFrames s) (snd_retransmissionQueue s)) with s by (by destruct s).
    split; [by apply pop_none|done].
  - destruct Hs as [-> Hl]. cbn. do 5 eexists. split; [done|]. split; [|by intros g [= <-]]. exact (pop_whole s conn maxBytes f q Eq).
Qed.

(** Why a stream has no frame for [n] bytes: [n] does not hold a header and a byte
    of data, or no lost frame waits and the stream was cancelled or closed, is
    blocked by flow control, or has neither data nor a FIN to send. *)
Definition snd_idle (s : sendStream) (conn : baseFlowController) (n : Z) : Prop :=
  n < 20 ∨ snd_retransmissionQueue s = [] ∧
    (live s = false ∨
     match snd_dataForWriting s with
     | Some _ => sendWindowSize (sfc (snd_flowController s)) = 0 ∨ sendWindowSize conn = 0
     | None => snd_finishedWriting s = true → snd_finSent s = true
     end).
Lemma one_byte_fits f : stream_ok f → stream_overhead f 1 + 1 <= 19.
Proof.
  intros Hok. unfold stream_overhead. rewrite len_enc_stream_header by done. destruct Hok as (H1 & H2 & H3 & _).
  pose proof (varint_len (StreamID f) ltac:(lia)). assert (Offset f <= maxVarInt8) by (unfold MaxByteCount, maxVarInt8, DataLen in *; pose proof (len_nonneg (Data f)); lia).
  pose proof (varint_len (Offset f) ltac:(lia)). change (len (varint 1)) with 1. destruct (Offset f =? 0), (DataLenPresent f); lia.
Qed.
Lemma pop_new_idle s conn n s' conn' ev more : pop_pre s → 0 <= n <= MaxReceivePacketSize → snd_retransmissionQueue s = [] →
  pop_new s conn n = Ok (s', conn', ev, None, more) → snd_idle s conn n.
Proof.
  intros (Hid & Ho & Hb & _ & Hcl & Hd & Hbs) Hn Hq. unfold pop_new. fold (new_frame s). unfold popNewStreamFrame. rewrite <- Hcl.
  destruct (snd_canceledWrite s || snd_closedForShutdown s) eqn:Elive.
  { intros _. right. split; [done|]. left. unfold live. by destruct (snd_canceledWrite s), (snd_closedForShutdown s). }
  pose proof (new_frame_ok s false Hid Ho) as Hnf.
  destruct (MaxDataLen_spec (new_frame s) n) as (m & En & Hm0 & _ & Hmax); [done|unfold MaxReceivePacketSize in *; lia|].
  rewrite En. cbn [mbind outcome_bind]. destruct (Z.eqb_spec m 0) as [->|Hm].
  { intros _. left. specialize (Hmax 1 ltac:(lia)). pose proof (one_byte_fits (new_frame s) Hnf). lia. }
  intros E. right. split; [done|]. right. destruct (snd_dataForWriting s) as [d|] eqn:Ed.
  - destruct (Z.eq_dec (sendWindowSize (sfc (snd_flowController s))) 0) as [|W1]; [by left|].
    destruct (Z.eq_dec (sendWindowSize conn) 0) as [|W2]; [by right|]. exfalso.
    assert (Hw : ∀ b, 0 <= sendWindowSize b) by (intros b; unfold sendWindowSize; pose proof u64_range; zcases; naive_solver lia).
    assert (0 < MinByteCount m (SendWindowSize (snd_flowController s) conn)).
    { pose proof (Hw (sfc (snd_flowController s))). pose proof (Hw conn).
      unfold SendWindowSize, MinByteCount, conn_SendWindowSize. zcases; lia. }
    destruct Hd as [Hdne _]. assert (0 < len d) by (destruct d; [done|rewrite len_cons; pose proof (len_nonneg d); lia]).
    rewrite (getData_data s conn m d) in E; [|done|done| |done].
    2: { destruct (MaxDataLen_spec (new_frame s) n) as (m' & En' & _ & [?|Hf] & _); [done|unfold MaxReceivePacketSize in *; lia| |];
           rewrite En in En'; injection En' as <-; [lia|].
         unfold stream_overhead in Hf. pose proof (len_nonneg (enc_stream_header (new_frame s))). pose proof (len_nonneg (varint m)).
         unfold pool_cap, MaxReceivePacketSize in *. destruct (DataLenPresent _) in Hf; lia. }
    cbn [mbind outcome_bind Data FinBit] in E. set (k := Z.to_nat _) in E.
    assert (len (take k d) = Z.of_nat k ∧ 0 < Z.of_nat k) as [El Hk] by (unfold len in *; rewrite length_take; lia).
    rewrite El in E. destruct (Z.eqb_spec (Z.of_nat k) 0); [lia|]. cbn [andb mbind outcome_bind Data FinBit] in E.
    rewrite El in E. destruct (Z.eqb_spec (Z.of_nat k) 0); [lia|]. cbn [andb] in E. discriminate E.
  - intros Hf. destruct (snd_finSent s) eqn:Efs; [done|]. exfalso.
    unfold getDataForWriting in E. rewrite Ed, Hf, Efs in E. cbn in E. discriminate E.
Qed.
(** A stream gives no frame only if it is idle. *)
Lemma pop_idle s conn n s' conn' ev more : pop_pre s → 0 <= n <= MaxReceivePacketSize →
  popStreamFrame s conn n = Ok (s', conn', ev, None, more) → snd_idle s conn n.
Proof.
  intros Hpre Hn. pose proof Hpre as (_ & _ & _ & Hq & _). unfold popStreamFrame, popNewOrRetransmittedStreamFrame.
  destruct (snd_retransmissionQueue s) as [|f q] eqn:Eq.
  { cbn [len length Z.of_nat Z.ltb Z.compare]. destruct (pop_new s conn n) as [[[[[s1 c1] e1] [f|]] b]| |] eqn:E; cbn; try done.
    intros _. by eapply pop_new_idle. }
  rewrite len_cons. pose proof (len_nonneg q). destruct (Z.ltb_spec 0 (1 + len q)); [|lia].
  unfold maybeGetRetransmission. rewrite Eq. apply Forall_cons in Hq as [[Hf Hfd] _].
  pose proof (MaybeSplitOffFrame_spec f n Hf ltac:(unfold MaxReceivePacketSize in *; lia)) as Hs.
  destruct (MaybeSplitOffFrame f n) as [[[[a|] []] b]| |] eqn:Es; try done. intros _. left. clear Hs.
  unfold MaybeSplitOffFrame in Es. rewrite StreamFrame_Length_ok in Es by done. cbn [mbind outcome_bind] in Es.
  destruct (_ <=? _) in Es; [done|].
  destruct (MaxDataLen_spec f n Hf) as (m & Em & _ & _ & Hmax); [unfold MaxReceivePacketSize in *; lia|].
  rewrite Em in Es. cbn [mbind outcome_bind] in Es. destruct (m =? 0) eqn:E0; [apply Z.eqb_eq in E0; subst m|by repeat destruct (_ <? _) in Es].
  specialize (Hmax 1 ltac:(lia)). pose proof (one_byte_fits f Hf). lia.
Qed.

(** * Every step preserves the invariant *)

Lemma tiles_same s s' y y' : sy_s y = s → sy_s y' = s' → snd_tiles y → sent y' = sent y →
  snd_finSent s' = snd_finSent s → snd_streamID s' = snd_streamID s →
  sy_acked y' ++ sy_out y' ++ snd_retransmissionQueue s' ≡ₚ sy_acked y ++ sy_out y ++ snd_retransmissionQueue s →
  snd_tiles y'.
Proof.
  intros <- <- (fs & Hp & Hc & Ho) Es Ef Ei Hq. exists fs. rewrite Es, Ef, Ei, Hq. done.
Qed.
(** Replacing one frame by others with the same bytes. *)
Lemma tiles_replace s s' y y' f gs rest : sy_s y = s → sy_s y' = s' → snd_tiles y → sent y' = sent y →
  snd_finSent s' = snd_finSent s → snd_streamID s' = snd_streamID s →
  sy_acked y ++ sy_out y ++ snd_retransmissionQueue s ≡ₚ f :: rest →
  sy_acked y' ++ sy_out y' ++ snd_retransmissionQueue s' ≡ₚ gs ++ rest →
  gs ≠ [] → tile (Offset f) gs → frames_data gs = Data f → fins (FinBit f) gs →
  (tile_ok (snd_streamID s) f → Forall (tile_ok (snd_streamID s)) gs) →
  snd_tiles y'.
Proof.
  intros <- <- (fs & Hp & Hc & Ho) Es Ef Ei Hq Hq' Hne Ht Hd Hf Hok.
  rewrite Hq in Hp. apply perm_pick in Hp as (a & b & -> & Hab).
  apply Forall_app in Ho as [Ha [Hfo Hb]%Forall_cons].
  exists (a ++ gs ++ b). rewrite Es, Ef, Ei, Hq'. split_and!.
  - rewrite <- Hab. rewrite !app_assoc. f_equiv. by rewrite Permutation_app_comm.
  - by eapply covering_replace.
  - apply Forall_app; split; [done|]. apply Forall_app; split; [by apply Hok|done].
Qed.

Lemma isNewlyCompleted_eq s :
  isNewlyCompleted s =
  let b := (snd_finSent s || snd_canceledWrite s) && (snd_numOutstandingFrames s =? 0)
           && (len (snd_retransmissionQueue s) =? 0) && negb (snd_completed s) in
  (if b then snd_set_completed s else s, b).
Proof. unfold isNewlyCompleted. by destruct (_ && _ && _ && _). Qed.
Lemma completions_app a b : completions (a ++ b) = completions a ++ completions b.
Proof. apply omap_app. Qed.
Lemma resets_app a b : resets (a ++ b) = resets a ++ resets b.
Proof. apply omap_app. Qed.

Lemma inv_pop_pre id y : snd_inv id y → pop_pre (sy_s y).
Proof.
  intros [Hid Hidok Hcall Hfl _ Hfc Ht Hr _ Hd]. destruct Hfl as (F1 & _ & F3 & _). destruct Hfc as (G1 & _ & G3 & G4).
  pose proof (len_nonneg (sent y)).
  split_and!; try (rewrite Hid; lia); try done; try (fc_unfold; lia).
  destruct Ht as (fs & Hp & _ & Ho). rewrite Hp in Ho. rewrite !Forall_app in Ho.
  destruct Ho as (_ & _ & Ho). apply Forall_and. split; [|done]. eapply Forall_impl; [exact Ho|]. intros f Hf. apply Hf.
Qed.

(** Frames move between the queue and the network without a change of data. *)
Lemma inv_move id y s' out' acked' log' : snd_inv id y →
  let s := sy_s y in
  snd_streamID s' = snd_streamID s → snd_writeOffset s' = snd_writeOffset s →
  snd_cancelWriteErr s' = snd_cancelWriteErr s → snd_closeForShutdownErr s' = snd_closeForShutdownErr s →
  snd_closedForShutdown s' = snd_closedForShutdown s → snd_finishedWriting s' = snd_finishedWriting s →
  snd_canceledWrite s' = snd_canceledWrite s → snd_finSent s' = snd_finSent s →
  snd_dataForWriting s' = snd_dataForWriting s → snd_writeChan s' = snd_writeChan s →
  snd_flowController s' = snd_flowController s →
  let y' := mkSys s' (sy_conn y) (sy_call y) (sy_done y) out' acked' log' in
  snd_numOutstandingFrames s' = len out' → len out' <= 2 ^ 62 →
  snd_completed s' = (snd_finSent s || snd_canceledWrite s) && (len out' =? 0) && (len (snd_retransmissionQueue s') =? 0) →
  completions log' = (if snd_completed s' then [snd_streamID s] else []) → resets log' = resets (sy_log y) →
  snd_tiles y' → Forall (λ f, DataLenPresent f = true) (snd_retransmissionQueue s') →
  snd_inv id y'.
Proof.
  intros [Hid Hidok Hcall Hfl Hlog Hfc Ht Hr Hb Hd] s E1 E2 E3 E4 E5 E6 E7 E8 E9 E10 E11 y' N1 N2 C1 C2 R1 T1 Q1. subst s.
  assert (Es : sent y' = sent y) by (unfold sent, part; cbn; by rewrite E9).
  split; cbn [y' sy_s sy_conn sy_call sy_done sy_out sy_acked sy_log]; try done; try congruence.
  - unfold call_ok, live in *. by rewrite E5, E7, E9, E10.
  - unfold snd_flags in *. cbn [y' sy_s sy_out]. rewrite N1, C1, E3, E4, E5, E6, E7, E8, E9. naive_solver.
  - unfold snd_log_ok in *. fold y' in Es |- *. rewrite Es. cbn [y' sy_s sy_log]. rewrite C2, R1, E1, E7. split; [done|]. naive_solver.
  - unfold snd_fc_ok in *. rewrite Es. cbn [y' sy_s sy_conn]. by rewrite E2, E11.
Qed.

Lemma inv_not_completed id y : snd_inv id y → len (sy_out y) + len (snd_retransmissionQueue (sy_s y)) ≠ 0 →
  snd_completed (sy_s y) = false ∧ completions (sy_log y) = [].
Proof.
  intros Hinv Hne. destruct (inv_flags _ _ Hinv) as (_ & _ & _ & F4 & F5 & _). destruct (inv_log _ _ Hinv) as [L _].
  assert (snd_completed (sy_s y) = false) as Ec.
  { rewrite F4, F5. pose proof (len_nonneg (sy_out y)). pose proof (len_nonneg (snd_retransmissionQueue (sy_s y))).
    destruct (Z.eqb_spec (len (sy_out y)) 0), (Z.eqb_spec (len (snd_retransmissionQueue (sy_s y))) 0); try lia;
      by rewrite ?andb_false_r. }
  by rewrite Ec in L.
Qed.

Lemma inv_pop_rtx id y f q s' g q' : snd_inv id y → len (sy_out y) < 2 ^ 62 →
  snd_retransmissionQueue (sy_s y) = f :: q →
  s' = snd_set_queue (sy_s y) (i64 (snd_numOutstandingFrames (sy_s y) + 1)) q' →
  Forall (λ f, DataLenPresent f = true) q' →
  snd_tiles (mkSys s' (sy_conn y) (sy_call y) (sy_done y) (sy_out y ++ [g]) (sy_acked y) (sy_log y ++ [])) →
  snd_inv id (mkSys s' (sy_conn y) (sy_call y) (sy_done y) (sy_out y ++ [g]) (sy_acked y) (sy_log y ++ [])).
Proof.
  intros Hinv Hlen Eq -> Hq Ht. pose proof (inv_flags _ _ Hinv) as (_ & _ & _ & F4 & F5 & _).
  destruct (inv_not_completed id y Hinv) as [Ec El].
  { rewrite Eq, len_cons. pose proof (len_nonneg q). pose proof (len_nonneg (sy_out y)). lia. }
  pose proof (len_nonneg (sy_out y)) as Hnn.
  assert (len (sy_out y ++ [g]) = len (sy_out y) + 1) as Elo by (rewrite len_app, len_cons, len_nil; lia).
  apply (inv_move id y); try done; cbn [snd_set_queue snd_numOutstandingFrames snd_completed snd_retransmissionQueue]; rewrite ?Elo.
  - rewrite F5. apply i64_small. lia.
  - lia.
  - destruct (Z.eqb_spec (len (sy_out y) + 1) 0); [lia|]. by rewrite andb_false_r.
  - by rewrite app_nil_r, El, Ec.
  - by rewrite app_nil_r.
Qed.

(** A frame with new data, or the FIN, is appended to the tiling. *)
Lemma inv_pop_new id y f s' conn' : snd_inv id y → len (sy_out y) < 2 ^ 62 →
  let s := sy_s y in
  let y' := mkSys s' conn' (sy_call y) (sy_done y) (sy_out y ++ [f]) (sy_acked y) (sy_log y ++ []) in
  snd_retransmissionQueue s = [] → live s = true → snd_finSent s = false →
  snd_streamID s' = snd_streamID s → snd_numOutstandingFrames s' = i64 (snd_numOutstandingFrames s + 1) →
  snd_retransmissionQueue s' = [] → snd_cancelWriteErr s' = snd_cancelWriteErr s →
  snd_closeForShutdownErr s' = snd_closeForShutdownErr s → snd_closedForShutdown s' = snd_closedForShutdown s →
  snd_canceledWrite s' = snd_canceledWrite s → snd_completed s' = snd_completed s →
  snd_finSent s' = FinBit f → Offset f = len (sent y) → tile_ok (snd_streamID s) f → sent y' = sent y ++ Data f →
  snd_writeOffset s' = len (sent y') → base_ok (sfc (snd_flowController s')) →
  bytesSent (sfc (snd_flowController s')) = len (sent y') → base_ok conn' →
  call_ok s' (sy_call y) → (FinBit f = true → snd_finishedWriting s' = true ∧ snd_dataForWriting s' = None) →
  data_ok (snd_dataForWriting s') →
  snd_inv id y'.
Proof.
  intros [Hid Hidok Hcall Hfl Hlog Hfc Ht Hr Hb Hd] Hlen s y' Eq Hl Hf0 E1 E2 E3 E4 E5 E6 E7 E8 E9 Eo Hok Es W1 B1 B2 B3 C1 C2 D1.
  subst s. destruct Hfl as (F1 & F2 & F3 & F4 & F5 & F6).
  pose proof (len_nonneg (sy_out y)) as Hnn.
  assert (len (sy_out y ++ [f]) = len (sy_out y) + 1) as Elo by (rewrite len_app, len_cons, len_nil; lia).
  assert (snd_canceledWrite (sy_s y) = false) as Ec by (unfold live in Hl; by destruct (snd_canceledWrite (sy_s y))).
  assert (snd_completed (sy_s y) = false) as Eco by (rewrite F4, Hf0, Ec; done).
  split; cbn [y' sy_s sy_conn sy_call sy_done sy_out sy_acked sy_log]; try done; try congruence.
  - unfold snd_flags. cbn [y' sy_s sy_out]. rewrite Elo, E2, E3, E8, Eco, F5, E9, E4, E5, E6, E7.
    rewrite i64_small by lia. destruct (Z.eqb_spec (len (sy_out y) + 1) 0); [lia|].
    rewrite andb_false_r. split_and!; try done; try lia.
  - unfold snd_log_ok in *. cbn [y' sy_s sy_log]. rewrite !app_nil_r, E1, E7, E8, Eco, Ec in *.
    split; [apply Hlog|]. left. split; [|done]. destruct Hlog as [_ [[? ?]|(? & ? & ?)]]; done.
  - destruct Ht as (fs & Hp & Hc & Ho). exists (fs ++ [f]). cbn [y' sy_s sy_acked sy_out]. split_and!.
    + rewrite Hp, Eq, E3, !app_nil_r. by rewrite app_assoc.
    + fold y'. rewrite Es, E9. apply covering_new; [by rewrite Hf0 in Hc|done].
    + rewrite E1. apply Forall_app; split; [done|]. by constructor.
  - fold y'. rewrite Es. apply Forall_app. split; [done|]. apply Hok.
Qed.

(** The head of the queue is split in two. *)
Lemma inv_pop_split id y maxBytes f q a b : snd_inv id y →
  0 <= maxBytes <= MaxReceivePacketSize → len (sy_out y) < 2 ^ 62 →
  snd_retransmissionQueue (sy_s y) = f :: q → MaybeSplitOffFrame f maxBytes = Ok (Some a, true, b) →
  snd_inv id (mkSys (snd_set_queue (sy_s y) (i64 (snd_numOutstandingFrames (sy_s y) + 1)) (b :: q))
    (sy_conn y) (sy_call y) (sy_done y) (sy_out y ++ [a]) (sy_acked y) (sy_log y ++ [])).
Proof.
  intros Hinv Hm Hlen Eq Es. pose proof (inv_rtx _ _ Hinv) as Hrtx. pose proof (inv_tiles _ _ Hinv) as Ht.
  rewrite Eq in Hrtx. apply Forall_cons in Hrtx as [Hfd Hrtx].
  pose proof Ht as (fs & Hp & _ & Hok). rewrite Hp, Eq, !Forall_app, Forall_cons in Hok.
  pose proof (MaybeSplitOffFrame_spec f maxBytes ltac:(apply Hok) ltac:(unfold MaxReceivePacketSize in *; lia)) as Hs.
  rewrite Es in Hs. destruct Hs as (O1 & O2 & D & L1 & L2 & P1 & P2 & I1 & I2 & N1 & N2 & DL1 & DL2 & _).
  eapply inv_pop_rtx; try done; [constructor; [congruence|done]|].
  eapply (tiles_replace _ _ y _ f [a; b] (sy_acked y ++ sy_out y ++ q)); [done..| | | | | | |].
  - cbn. rewrite Eq. by rewrite !app_assoc, <- Permutation_middle.
  - cbn. rewrite <- !app_assoc. cbn. rewrite !app_assoc. rewrite <- Permutation_middle. f_equiv. by rewrite <- Permutation_middle.
  - done.
  - cbn. rewrite <- P1. by split_and!.
  - by rewrite frames_data_cons, frames_data_cons, app_nil_r, D.
  - change [a; b] with ([a] ++ [b]). apply fins_app; [done|]. split; [by repeat constructor|].
    rewrite <- N2. unfold fins. destruct (FinBit b) eqn:Efb; [|by repeat constructor]. by exists [], b.
  - intros (_ & Hi & _). assert (∀ g, stream_ok g → StreamID g = StreamID f → 0 < DataLen g →
      tile_ok (snd_streamID (sy_s y)) g) as Hg.
    { intros g ?? Hpos. split_and!; [done|congruence|]. left. intros E0. unfold DataLen in Hpos. by rewrite E0 in Hpos. }
    constructor; [by apply Hg|]. constructor; [by apply Hg|]. constructor.
Qed.

(** A FIN on its own. *)
Lemma inv_pop_fin id y : snd_inv id y → len (sy_out y) < 2 ^ 62 → snd_retransmissionQueue (sy_s y) = [] →
  live (sy_s y) = true → snd_dataForWriting (sy_s y) = None → snd_finishedWriting (sy_s y) = true →
  snd_finSent (sy_s y) = false →
  snd_inv id (mkSys (snd_set_queue (snd_set_finSent (sy_s y)) (i64 (snd_numOutstandingFrames (sy_s y) + 1)) [])
    (sy_conn y) (sy_call y) (sy_done y)
    (sy_out y ++ [mkStreamFrame (snd_streamID (sy_s y)) (snd_writeOffset (sy_s y)) [] true true true])
    (sy_acked y) (sy_log y ++ [])).
Proof.
  intros Hinv Hlen Eq Hl Ed Ef Efs. pose proof (inv_pop_pre _ _ Hinv) as Hpre. pose proof (inv_call _ _ Hinv) as Hcall.
  pose proof (inv_fc _ _ Hinv) as (G1 & G2 & G3 & G4).
  set (f := mkStreamFrame _ _ _ _ _ _). set (y' := mkSys _ _ _ _ _ _ _).
  assert (Es' : sent y' = sent y ++ Data f) by (cbn [f Data]; by rewrite app_nil_r).
  assert (Hls : len (sent y') = len (sent y)) by (rewrite Es'; cbn [f Data]; by rewrite app_nil_r).
  eapply (inv_pop_new id y f); try done;
    cbn [sy_s snd_set_queue snd_set_finSent snd_writeOffset snd_flowController]; try (fold y'; rewrite Hls; done).
  - split_and!; [|done|by right]. destruct Hpre as (? & ? & _). apply new_frame_ok; assumption.
  - cbn. by rewrite Ed.
Qed.

Lemma rest_data_drop p j k : (0 < k <= length p - j)%nat → (j < length p)%nat →
  rest_data (drop j p) k = if (length p =? j + k)%nat then None else Some (drop (j + k) p).
Proof.
  intros Hk Hj. unfold rest_data. rewrite length_drop, drop_drop.
  destruct (Nat.eqb_spec (length p - j) k), (Nat.eqb_spec (length p) (j + k)); try lia; done.
Qed.
Lemma part_taken s conn w p j k : (0 < k <= length p - j)%nat → (j < length p)%nat →
  part (snd_taken s conn (drop j p) k) (Some (w, p)) = take j p ++ take k (drop j p).
Proof.
  intros Hk Hj. rewrite take_take_drop. cbn [part snd_taken snd_dataForWriting]. rewrite rest_data_drop by done.
  destruct (Nat.eqb_spec (length p) (j + k)); cbn [len_opt].
  - rewrite take_len by lia. by rewrite take_ge by lia.
  - unfold len. rewrite length_drop. f_equal. lia.
Qed.
Lemma call_taken s conn w p j k : live s = true → wc_len w = len p → bytes_ok p →
  (0 < k <= length p - j)%nat → (j < length p)%nat → call_ok (snd_taken s conn (drop j p) k) (Some (w, p)).
Proof.
  intros Hl Hw Hp Hk Hj. unfold live in Hl.
  cbn [call_ok snd_taken snd_dataForWriting snd_writeChan]. unfold live. cbn [snd_taken snd_canceledWrite snd_closedForShutdown].
  rewrite rest_data_drop, length_drop by done. split_and!; [done..| |].
  - exists (j + k)%nat. destruct (Nat.eqb_spec (length p) (j + k)); [by right|left]. split; [done|lia].
  - intros [E0|E0]; [|congruence]. destruct (Nat.eqb_spec (length p) (j + k)); [|done].
    destruct (Nat.eqb_spec (length p - j) k); [by rewrite orb_true_r|lia].
Qed.
(** Data to be sent belongs to a call in progress. *)
Lemma inv_data_call id y d : snd_inv id y → live (sy_s y) = true → snd_dataForWriting (sy_s y) = Some d →
  ∃ w p j, sy_call y = Some (w, p) ∧ wc_len w = len p ∧ bytes_ok p ∧ d = drop j p ∧ (j < length p)%nat ∧
    sent y = sy_done y ++ take j p ∧ snd_finSent (sy_s y) = false.
Proof.
  intros Hinv Hl Ed. pose proof (inv_call _ _ Hinv) as Hcall. unfold call_ok in Hcall. rewrite Ed, Hl in Hcall.
  destruct (sy_call y) as [[w p]|] eqn:Ec; [|by destruct Hcall].
  destruct Hcall as (? & ? & (j & [[[= ->] ?]|[? ?]]) & _); [|done]. exists w, p, j. split_and!; try done.
  - unfold sent. rewrite Ec. f_equal. apply part_drop; [done|lia].
  - destruct (inv_flags _ _ Hinv) as (_ & _ & F3 & _). destruct (snd_finSent (sy_s y)); [destruct (F3 eq_refl); congruence|done].
Qed.

Lemma inv_pop_data id y d k : snd_inv id y → len (sy_out y) < 2 ^ 62 → snd_retransmissionQueue (sy_s y) = [] →
  live (sy_s y) = true → snd_dataForWriting (sy_s y) = Some d → (0 < k <= length d)%nat →
  Z.of_nat k <= MaxReceivePacketSize →
  Z.of_nat k <= sendWindowSize (sfc (snd_flowController (sy_s y))) → Z.of_nat k <= sendWindowSize (sy_conn y) →
  snd_inv id (mkSys (snd_taken (sy_s y) (sy_conn y) d k) (base_AddBytesSent (sy_conn y) (Z.of_nat k)) (sy_call y) (sy_done y)
    (sy_out y ++ [mkStreamFrame (snd_streamID (sy_s y)) (snd_writeOffset (sy_s y)) (take k d) (is_fin (sy_s y) d k) true true])
    (sy_acked y) (sy_log y ++ [])).
Proof.
  intros Hinv Hlen Eq Hl Ed Hk Hkm Hkw Hkc. pose proof (inv_pop_pre _ _ Hinv) as Hpre.
  pose proof (inv_fc _ _ Hinv) as (G1 & G2 & G3 & G4). pose proof (inv_flags _ _ Hinv) as (F1 & F2 & _).
  destruct (inv_data_call id y d Hinv Hl Ed) as (w & p & j & Ecall & Hw & Hp & -> & Hj & Es & Efs).
  rewrite length_drop in Hk.
  pose proof (base_AddBytesSent_spec _ (Z.of_nat k) G1 ltac:(lia)) as (A1 & _ & _ & A4).
  pose proof (base_AddBytesSent_spec _ (Z.of_nat k) G2 ltac:(lia)) as (A1' & _ & _ & _).
  set (f := mkStreamFrame _ _ _ _ _ _). assert (Hlf : len (Data f) = Z.of_nat k)
    by (unfold f, len; cbn [Data]; rewrite length_take, length_drop; lia).
  set (y' := mkSys _ _ _ _ _ _ _). assert (Ey : sent y' = sent y ++ Data f).
  { unfold sent at 1. cbn [y' sy_done sy_s sy_call]. rewrite Ecall, part_taken, Es by done. cbn [f Data]. by rewrite app_assoc. }
  assert (Hsm : 0 <= len (sent y) + Z.of_nat k <= MaxByteCount) by (fc_unfold; lia).
  assert (Hoff' : u64 (snd_writeOffset (sy_s y) + Z.of_nat k) = len (sent y')).
  { rewrite Ey, len_app, Hlf, G4. apply u64_small. unfold MaxByteCount in *. lia. }
  assert (B2 : bytesSent (base_AddBytesSent (sfc (snd_flowController (sy_s y))) (Z.of_nat k)) = len (sent y'))
    by (rewrite A4, G3, Ey, len_app, Hlf; done).
  apply (inv_pop_new id y f); try done.
  - cbn [snd_taken snd_finSent]. by rewrite Efs.
  - split_and!; [|done|left; intros E0; rewrite E0, len_nil in Hlf; lia]. cbn [f Data] in Hlf. destruct Hpre as (? & ? & _).
    apply new_stream_ok; rewrite ?Hlf; try lia. apply Forall_take, Forall_drop, Hp.
  - rewrite Ecall. by apply call_taken.
  - cbn [f FinBit snd_taken snd_finishedWriting snd_dataForWriting]. unfold is_fin, rest_data. intros Hfin.
    apply andb_true_iff in Hfin as [[-> ->]%andb_true_iff _]. done.
  - cbn [snd_taken snd_dataForWriting]. rewrite rest_data_drop by done. destruct (Nat.eqb_spec (length p) (j + k)); [done|].
    apply data_ok_drop; [done|lia].
Qed.

Lemma step_pop_inv id y maxBytes s conn ev f more : snd_inv id y →
  0 <= maxBytes <= MaxReceivePacketSize → len (sy_out y) < 2 ^ 62 →
  popStreamFrame (sy_s y) (sy_conn y) maxBytes = Ok (s, conn, ev, f, more) →
  snd_inv id (mkSys s conn (sy_call y) (sy_done y) (sy_out y ++ opt_list f) (sy_acked y) (sy_log y ++ ev)).
Proof.
  intros Hinv Hm Hlen E. pose proof (inv_pop_pre _ _ Hinv) as Hpre.
  destruct (pop_spec (sy_s y) (sy_conn y) maxBytes Hpre Hm) as (s1 & c1 & e1 & f1 & m1 & E' & Hc & _).
  rewrite E in E'. injection E' as <- <- <- <- <-. pose proof (inv_rtx _ _ Hinv) as Hrtx.
  pose proof (inv_flags _ _ Hinv) as (F1 & F2 & F3 & F4 & F5 & F6). pose proof (inv_fc _ _ Hinv) as (G1 & G2 & G3 & G4).
  pose proof (inv_tiles _ _ Hinv) as Ht.
  destruct Hc as [f q Eq|f q a b Eq Es|b ev' _ Hb Hbs Hev Hr|Eq Hl Ed Ef Efs|d k s' Eq Hl Ed Hk Hkm Hkw Hkc ->].
  - rewrite Eq in Hrtx. apply Forall_cons in Hrtx as [_ Hrtx]. eapply inv_pop_rtx; try done.
    eapply tiles_same; [done..|]. cbn. rewrite Eq. by rewrite <- !app_assoc.
  - by eapply inv_pop_split.
  - apply (snd_inv_ext id y); cbn; rewrite ?app_nil_r; try done; try apply Hinv.
    + by rewrite completions_app, Hev, app_nil_r.
    + by rewrite resets_app, Hr, app_nil_r.
  - by apply inv_pop_fin.
  - apply inv_pop_data; try done. lia.
Qed.

Lemma step_write_inv id y p now now' : snd_inv id y → sy_call y = None → bytes_ok p →
  snd_inv id (after_write y p (Write (sy_s y) p now now')).
Proof.
  intros Hinv Ec Hp. unfold Write.
  assert (Hret : ∀ e, snd_inv id (after_write y p (sy_s y, [], WReturn 0 e))).
  { intros e. apply (snd_inv_ext id y); cbn; rewrite ?app_nil_r; try done; try apply Hinv.
    - unfold sent. cbn. rewrite Ec. cbn. by rewrite !app_nil_r.
    - pose proof (inv_call _ _ Hinv) as Hc. by rewrite Ec in Hc. }
  pose proof (inv_flags _ _ Hinv) as (F1 & F2 & F3 & _).
  destruct (snd_finishedWriting (sy_s y)) eqn:Ef; [done|].
  destruct (snd_canceledWrite (sy_s y)) eqn:Eca; [done|].
  destruct (snd_closeForShutdownErr (sy_s y)) eqn:Ecl; [done|].
  destruct (negb _ && _); [done|]. destruct (Z.eqb_spec (len p) 0) as [|Hne]; [done|].
  assert (snd_finSent (sy_s y) = false) as Efs by (destruct (snd_finSent (sy_s y)); [destruct (F3 eq_refl); done|done]).
  apply (Write_loop_ok id y); try done.
  - cbn. by rewrite Efs.
  - exists 0%nat. left. split; [done|]. unfold len in Hne. lia.
  - unfold sent. rewrite Ec. f_equal. cbn. rewrite Z.sub_diag. done.
Qed.
Lemma step_wake_inv id y w p timer now res : snd_inv id y → sy_call y = Some (w, p) →
  Write_wake (sy_s y) w timer now = Some res → snd_inv id (after_write y p res).
Proof.
  intros Hinv Ec. pose proof (inv_call _ _ Hinv) as Hc. rewrite Ec in Hc. destruct Hc as (Hw & Hp & Hk & _).
  pose proof (inv_flags _ _ Hinv) as (_ & _ & F3 & _).
  assert (Hgo : ∀ b, snd_inv id (after_write y p (Write_loop (snd_set_chan (sy_s y) b) w now))).
  { intros b. apply (Write_loop_ok id y); try done; [cbn; naive_solver|]. unfold sent. by rewrite Ec. }
  unfold Write_wake. destruct timer.
  - destruct (_ && _); [|done]. intros [= <-]. specialize (Hgo (snd_writeChan (sy_s y))).
    replace (snd_set_chan (sy_s y) (snd_writeChan (sy_s y))) with (sy_s y) in Hgo by (by destruct (sy_s y)). done.
  - destruct (snd_writeChan (sy_s y)); [|done]. by intros [= <-].
Qed.

Lemma same_tile f f' : Offset f' = Offset f → Data f' = Data f → FinBit f' = FinBit f →
  tile (Offset f) [f'] ∧ frames_data [f'] = Data f ∧ fins (FinBit f) [f'].
Proof.
  intros E1 E2 E3. split_and!; [by cbn|by rewrite frames_data_cons, app_nil_r|].
  rewrite <- E3. unfold fins. destruct (FinBit f') eqn:E; [|by repeat constructor]. by exists [], f'.
Qed.
Lemma step_framer_inv id y a f b : snd_inv id y → sy_out y = a ++ f :: b →
  snd_inv id (mkSys (sy_s y) (sy_conn y) (sy_call y) (sy_done y) (a ++ set_DataLenPresent f false :: b)
                (sy_acked y) (sy_log y)).
Proof.
  intros Hinv Eo. pose proof (inv_flags _ _ Hinv) as (_ & _ & _ & F4 & F5 & F6).
  assert (len (a ++ set_DataLenPresent f false :: b) = len (sy_out y)) as El by (by rewrite Eo, !len_app, !len_cons).
  apply (inv_move id y); try done; rewrite ?El; try done; try apply Hinv.
  - by rewrite <- F5.
  - destruct (same_tile f (set_DataLenPresent f false)) as (T1 & T2 & T3); [done..|].
    eapply (tiles_replace _ _ y _ f [set_DataLenPresent f false] (sy_acked y ++ (a ++ b) ++ snd_retransmissionQueue (sy_s y)));
      try done; try apply Hinv.
    + rewrite Eo. rewrite <- !app_assoc. cbn. rewrite (app_assoc (sy_acked y)), <- Permutation_middle. by rewrite <- app_assoc.
    + cbn. rewrite <- !app_assoc. cbn. rewrite (app_assoc (sy_acked y)), <- Permutation_middle. by rewrite <- app_assoc.
    + intros (Hf1 & Hf2 & Hf3). constructor; [by split_and!|constructor].
Qed.

Lemma out_len (y : snd_sys) a f b : sy_out y = a ++ f :: b → len (sy_out y) = len (a ++ b) + 1.
Proof. intros ->. rewrite !len_app, len_cons. lia. Qed.
Lemma step_acked_inv id y a f b s ev : snd_inv id y → sy_out y = a ++ f :: b → frameAcked (sy_s y) f = Ok (s, ev) →
  snd_inv id (mkSys s (sy_conn y) (sy_call y) (sy_done y) (a ++ b) (sy_acked y ++ [f]) (sy_log y ++ ev)).
Proof.
  intros Hinv Eo. pose proof (inv_flags _ _ Hinv) as (_ & _ & _ & F4 & F5 & F6).
  pose proof (out_len y a f b Eo) as El. pose proof (len_nonneg (a ++ b)).
  destruct (inv_not_completed id y Hinv) as [Ec Elog]; [pose proof (len_nonneg (snd_retransmissionQueue (sy_s y))); lia|].
  unfold frameAcked. destruct (putStreamFrame pool_cap f); cbn [mbind outcome_bind]; try done.
  cbn [snd_set_queue snd_numOutstandingFrames]. rewrite F5, El, i64_small by lia. replace (len (a ++ b) + 1 - 1) with (len (a ++ b)) by lia.
  destruct (_ <? _); [done|]. rewrite isNewlyCompleted_eq.
  cbn [snd_set_queue snd_finSent snd_canceledWrite snd_numOutstandingFrames snd_retransmissionQueue snd_completed]. cbv zeta. rewrite Ec, andb_true_r.
  assert (Ht : ∀ s', snd_retransmissionQueue s' = snd_retransmissionQueue (sy_s y) → snd_finSent s' = snd_finSent (sy_s y) →
    snd_streamID s' = snd_streamID (sy_s y) → snd_dataForWriting s' = snd_dataForWriting (sy_s y) →
    snd_tiles (mkSys s' (sy_conn y) (sy_call y) (sy_done y) (a ++ b) (sy_acked y ++ [f]) (sy_log y ++ ev))).
  { intros s' Eq Ef Ei Ed. eapply (tiles_same _ _ y); [done|done|apply Hinv| |done|done|].
    - unfold sent, part. cbn [sy_done sy_s sy_call]. by rewrite Ed.
    - cbn. rewrite Eq, Eo. rewrite <- !app_assoc. cbn. apply Permutation_app_head, Permutation_middle. }
  intros [= <- <-]. match goal with |- context [report ?c _] => destruct c eqn:Ecc end; apply (inv_move id y); try done; cbn [report]; try apply Hinv; try lia.
  all: try (symmetry; exact Ecc); try (by rewrite resets_app; cbn; rewrite app_nil_r); try (by apply Ht).
  - rewrite completions_app, Elog. done.
  - cbn. by rewrite Ec, Ecc.
  - cbn. by rewrite app_nil_r, Elog, Ec.
Qed.
Lemma step_lost_inv id y a f b s ev : snd_inv id y → sy_out y = a ++ f :: b →
  queueRetransmission (sy_s y) f = Ok (s, ev) →
  snd_inv id (mkSys s (sy_conn y) (sy_call y) (sy_done y) (a ++ b) (sy_acked y) (sy_log y ++ ev)).
Proof.
  intros Hinv Eo. pose proof (inv_flags _ _ Hinv) as (_ & _ & _ & F4 & F5 & F6).
  pose proof (out_len y a f b Eo) as El. pose proof (len_nonneg (a ++ b)).
  destruct (inv_not_completed id y Hinv) as [Ec Elog]; [pose proof (len_nonneg (snd_retransmissionQueue (sy_s y))); lia|].
  unfold queueRetransmission. cbn [snd_set_queue snd_numOutstandingFrames]. rewrite F5, El, i64_small by lia.
  replace (len (a ++ b) + 1 - 1) with (len (a ++ b)) by lia. destruct (_ <? _); [done|]. intros [= <- <-].
  set (f' := set_DataLenPresent f true). pose proof (inv_rtx _ _ Hinv).
  apply (inv_move id y); try done; cbn [snd_set_queue snd_retransmissionQueue snd_completed]; try lia.
  - pose proof (len_nonneg (snd_retransmissionQueue (sy_s y))).
    assert (len (snd_retransmissionQueue (sy_s y) ++ [f']) ≠ 0) as Hne by (rewrite len_app, len_cons; change (len []) with 0; lia).
    apply Z.eqb_neq in Hne. by rewrite Ec, Hne, andb_false_r.
  - rewrite completions_app, Elog, Ec. done.
  - rewrite resets_app. cbn. by rewrite app_nil_r.
  - destruct (same_tile f f') as (T1 & T2 & T3); [done..|].
    eapply (tiles_replace _ _ y _ f [f'] (sy_acked y ++ (a ++ b) ++ snd_retransmissionQueue (sy_s y))); try done; try apply Hinv.
    + rewrite Eo. rewrite <- !app_assoc. cbn. rewrite (app_assoc (sy_acked y)), <- Permutation_middle. by rewrite <- app_assoc.
    + cbn. rewrite !app_assoc. by rewrite <- Permutation_cons_append.
    + intros (Hf1 & Hf2 & Hf3). constructor; [by split_and!|constructor].
  - apply Forall_app. split; [done|]. by repeat constructor.
Qed.

Lemma step_close_inv id y s ev err : snd_inv id y → snd_Close (sy_s y) = (s, ev, err) → snd_inv id (with_s y s ev).
Proof.
  intros Hinv. unfold snd_Close. pose proof (inv_flags _ _ Hinv) as (F1 & F2 & F3 & _).
  destruct (snd_canceledWrite (sy_s y)); intros [= <- <- <-];
    apply (snd_inv_ext id y); cbn; rewrite ?app_nil_r; try done; try apply Hinv.
  - rewrite completions_app. cbn. apply app_nil_r.
  - rewrite resets_app. cbn. apply app_nil_r.
  - intros E. by apply F3 in E as [_ ?].
Qed.

(** The state of a stream cancelled with [e]; [c]: newly completed. *)
Definition snd_canceled (s : sendStream) (e : goerr) (c : bool) : sendStream :=
  mkSendStream (snd_numOutstandingFrames s) (snd_retransmissionQueue s) (snd_ctxDone s) (snd_streamID s)
    (snd_writeOffset s) (Some e) (snd_closeForShutdownErr s) (snd_closedForShutdown s) (snd_finishedWriting s) true
    (snd_finSent s) (c || snd_completed s) (snd_dataForWriting s) (snd_writeChan s) (snd_deadline s) (snd_flowController s).
Lemma step_cancel_inv id y code e s ev : snd_inv id y → cancelWriteImpl (sy_s y) code e = (s, ev) →
  snd_inv id (with_s y s ev).
Proof.
  intros Hinv. pose proof Hinv as [Hid Hidok Hcall Hfl Hlog Hfc Ht Hr Hb Hd].
  pose proof Hfl as (F1 & F2 & F3 & F4 & F5 & F6). pose proof Hfc as (G1 & G2 & G3 & G4).
  unfold cancelWriteImpl. destruct (snd_canceledWrite (sy_s y)) eqn:Eca.
  { intros [= <- <-]. apply (snd_inv_ext id y); cbn; rewrite ?app_nil_r; try done; apply Hinv. }
  rewrite isNewlyCompleted_eq. cbv zeta. cbn [snd_set_canceled snd_finSent snd_canceledWrite snd_numOutstandingFrames
    snd_retransmissionQueue snd_completed]. rewrite orb_true_r.
  remember (true && _ && _ && _) as c eqn:Edef. intros [= <- <-].
  destruct Hlog as [Lc [[Lr _]|(? & _ & ?)]]; [|congruence].
  set (s1 := if c then _ else _). assert (Hs1 : s1 = snd_canceled (sy_s y) e c).
  { unfold s1. by destruct c. }
  clearbody s1. subst s1.
  assert (Hcc : c || snd_completed (sy_s y) = (snd_numOutstandingFrames (sy_s y) =? 0) && (len (snd_retransmissionQueue (sy_s y)) =? 0)).
  { rewrite Edef, F4. cbn. destruct (_ =? 0), (len _ =? 0), (snd_finSent (sy_s y)); done. }
  assert (Es : ∀ ev, sent (with_s y (snd_ctxCancel (signalWrite (snd_canceled (sy_s y) e c))) ev) = sent y) by done.
  split; try done.
  - cbn. unfold call_ok, live. cbn. destruct (sy_call y) as [[w p]|]; [|by right].
    destruct Hcall as (? & ? & ? & _). by split_and!.
  - unfold snd_flags. cbn. rewrite orb_true_r, Hcc. split_and!; try done.
  - unfold snd_log_ok. rewrite Es. cbn. rewrite completions_app, resets_app, Lc, Lr. cbn. rewrite <- G4. split.
    + destruct c eqn:Ec; cbn.
      * assert (snd_completed (sy_s y) = false) as -> by (destruct (snd_completed (sy_s y)); [cbn [negb] in Edef; rewrite andb_false_r in Edef; congruence|done]). done.
      * by rewrite app_nil_r.
    + right. exists code. split; [|done]. by destruct c.
Qed.

Lemma step_max_data_inv id y f s ev : snd_inv id y → 0 <= msd_ByteOffset f <= MaxByteCount →
  handleMaxStreamDataFrame (sy_s y) f = (s, ev) → snd_inv id (with_s y s ev).
Proof.
  intros Hinv Hf. unfold handleMaxStreamDataFrame. intros [= <- <-]. pose proof (inv_fc _ _ Hinv) as (G1 & G2 & _).
  pose proof (inv_flags _ _ Hinv) as (F1 & _ & F3 & _).
  pose proof (UpdateSendWindow_spec _ (msd_ByteOffset f) G1 Hf) as (U1 & _ & _ & U4).
  apply (snd_inv_ext id y); cbn [with_s sy_s sy_conn sy_call sy_done sy_out sy_acked sy_log]; try done; try apply Hinv.
  - rewrite completions_app. destruct (negb _); cbn; apply app_nil_r.
  - rewrite resets_app. destruct (negb _); cbn; apply app_nil_r.
Qed.
(** Waking the writer does no harm. *)
Lemma call_ok_chan s c : call_ok s c → call_ok (signalWrite s) c.
Proof. destruct c as [[w p]|]; [|done]. cbn. intros (? & ? & ? & _). by split_and!. Qed.
Lemma step_deadline_inv id y t : snd_inv id y → snd_inv id (with_s y (SetWriteDeadline (sy_s y) t) []).
Proof.
  intros Hinv. pose proof (inv_flags _ _ Hinv) as (F1 & _ & F3 & _). pose proof (inv_fc _ _ Hinv) as (G1 & G2 & _).
  apply (snd_inv_ext id y); cbn [with_s sy_s sy_conn sy_call sy_done sy_out sy_acked sy_log]; rewrite ?app_nil_r; try done; try apply Hinv.
  apply (call_ok_chan (snd_set_deadline (sy_s y) t)). apply Hinv.
Qed.
Lemma step_shutdown_inv id y e : snd_inv id y → snd_inv id (with_s y (snd_closeForShutdown (sy_s y) (Some e)) []).
Proof.
  intros Hinv. pose proof (inv_flags _ _ Hinv) as (F1 & _ & F3 & _). pose proof (inv_fc _ _ Hinv) as (G1 & G2 & _).
  apply (snd_inv_ext id y); cbn [with_s sy_s sy_conn sy_call sy_done sy_out sy_acked sy_log]; rewrite ?app_nil_r; try done; try apply Hinv.
  pose proof (inv_call _ _ Hinv) as Hc. unfold call_ok, live in *. cbn.
  destruct (sy_call y) as [[w p]|]; [|right; by rewrite andb_false_r]. destruct Hc as (? & ? & ? & _). by split_and!.
Qed.

Lemma snd_step_inv id y y' : snd_inv id y → snd_step y y' → snd_inv id y'.
Proof.
  intros Hinv Hstep. destruct Hstep as
    [y p now now' Ec Hp|y w p timer now res Ec E|y maxBytes s conn ev f more Hm Hl E|y a f b Eo|y a f b s ev Eo E
    |y a f b s ev Eo E|y s ev err E|y code s ev E|y f s ev E|y f s ev Hf E|y t|y e|y conn Hc].
  - by apply step_write_inv.
  - by eapply step_wake_inv.
  - by eapply step_pop_inv.
  - by apply step_framer_inv.
  - by eapply step_acked_inv.
  - by eapply step_lost_inv.
  - by eapply step_close_inv.
  - by eapply step_cancel_inv.
  - by eapply step_cancel_inv.
  - by eapply step_max_data_inv.
  - by apply step_deadline_inv.
  - by apply step_shutdown_inv.
  - pose proof (inv_flags _ _ Hinv) as (F1 & _ & F3 & _). pose proof (inv_fc _ _ Hinv) as (G1 & _).
    apply (snd_inv_ext id y); try done; apply Hinv.
Qed.
Lemma snd_init_inv id w conn : 0 <= id <= maxVarInt8 → 0 <= w <= MaxByteCount → base_ok conn →
  snd_inv id (snd_init id w conn).
Proof.
  intros Hid Hw Hc. split; try done.
  - by left.
  - split; [done|]. left. done.
  - split_and!; try done. cbn. fc_unfold. lia.
  - exists []. split; [done|]. split; [|constructor]. split_and!; try done. constructor.
  - constructor.
Qed.
Lemma snd_reach_inv id w conn y : 0 <= id <= maxVarInt8 → 0 <= w <= MaxByteCount → base_ok conn →
  rtc snd_step (snd_init id w conn) y → snd_inv id y.
Proof.
  intros Hid Hw Hc Hr. pose proof (snd_init_inv id w conn Hid Hw Hc) as Hi.
  induction Hr as [|x y z Hxy _ IH]; [done|]. eauto using snd_step_inv.
Qed.

(** * What the stream promises *)

(** A stream of eight bytes written in one call, sent in two packets of twelve
    and eight bytes, the first lost and acknowledged in its retransmission. *)
Definition sample_conn : baseFlowController := mkBase 0 1000 0 0 0 0 0 0 0 0.
Definition do_pop (y : snd_sys) (maxBytes : Z) : snd_sys :=
  match popStreamFrame (sy_s y) (sy_conn y) maxBytes with
  | Ok (s, conn, ev, f, _) => mkSys s conn (sy_call y) (sy_done y) (sy_out y ++ opt_list f) (sy_acked y) (sy_log y ++ ev)
  | _ => y
  end.
Definition do_lost (y : snd_sys) : snd_sys :=
  match sy_out y with
  | f :: b => match queueRetransmission (sy_s y) f with
              | Ok (s, ev) => mkSys s (sy_conn y) (sy_call y) (sy_done y) b (sy_acked y) (sy_log y ++ ev)
              | _ => y end
  | [] => y
  end.
Definition snd_blocked : snd_sys :=
  do_pop (after_write (snd_init 4 100 sample_conn) [1;2;3;4;5;6;7;8] (Write (sy_s (snd_init 4 100 sample_conn)) [1;2;3;4;5;6;7;8] 0 0)) 8.
Definition snd_sample : snd_sys := do_lost (do_pop snd_blocked 12).
Lemma do_pop_step y n : 0 <= n <= MaxReceivePacketSize → len (sy_out y) < 2 ^ 62 →
  is_ok (popStreamFrame (sy_s y) (sy_conn y) n) = true → snd_step y (do_pop y n).
Proof.
  intros Hn Hl. unfold do_pop. destruct (popStreamFrame _ _ _) as [[[[[s c] ev] f] more]| |] eqn:E; try done.
  intros _. by eapply step_pop.
Qed.
Lemma do_lost_step y :
  match sy_out y with f :: _ => is_ok (queueRetransmission (sy_s y) f) | [] => false end = true → snd_step y (do_lost y).
Proof.
  unfold do_lost. destruct (sy_out y) as [|f b] eqn:Eo; [done|].
  destruct (queueRetransmission _ _) as [[s ev]| |] eqn:E; try done. intros _. exact (step_lost y [] f b s ev Eo E).
Qed.
Lemma snd_blocked_reach : rtc snd_step (snd_init 4 100 sample_conn) snd_blocked.
Proof.
  eapply rtc_l; [apply (step_write _ [1;2;3;4;5;6;7;8] 0 0); [done|]|apply rtc_once, do_pop_step].
  - repeat constructor; unfold byte_ok; lia.
  - unfold MaxReceivePacketSize; lia.
  - done.
  - done.
Qed.
Lemma snd_sample_reach : rtc snd_step (snd_init 4 100 sample_conn) snd_sample.
Proof.
  etrans; [apply snd_blocked_reach|].
  eapply rtc_l; [apply (do_pop_step snd_blocked 12); [unfold MaxReceivePacketSize; lia|done..]|]. apply rtc_once.
  apply do_lost_step. vm_compute. reflexivity.
Qed.
Lemma sample_conn_ok : base_ok sample_conn.
Proof. unfold sample_conn. fc_unfold. lia. Qed.

(** C23: in every state a stream can reach, by any interleaving of writes, pops,
    acknowledgements, losses, cancellations, window updates and deadlines, the
    frames acknowledged, in flight and queued for retransmission are, put in
    order, a tiling of the bytes handed over so far: every byte is in exactly one
    of them, at its offset, and the FIN is on the last one if it was sent.  The
    bytes handed over are those the returned calls of [Write] reported plus the
    first part of the call in progress; they respect the peer's window, and a
    RESET_STREAM is sent at most once and announces exactly their number. *)
Theorem send_stream_data id w conn y :
  0 <= id <= maxVarInt8 → 0 <= w <= MaxByteCount → base_ok conn →
  rtc snd_step (snd_init id w conn) y →
  (∃ fs, fs ≡ₚ sy_acked y ++ sy_out y ++ snd_retransmissionQueue (sy_s y) ∧
     covering (sent y) (snd_finSent (sy_s y)) fs ∧ Forall (tile_ok id) fs) ∧
  (sy_call y = None → sent y = sy_done y) ∧
  len (sent y) <= sendWindow (sfc (snd_flowController (sy_s y))) ∧
  (resets (sy_log y) = [] ∨ ∃ code, resets (sy_log y) = [mkResetStream id code (len (sent y))]).
Proof.
  intros Hid Hw Hc Hr. destruct (snd_reach_inv id w conn y Hid Hw Hc Hr) as [Ei _ _ _ Hlog Hfc Ht _ _ _].
  subst id. split_and!; [done| | |].
  - intros E. unfold sent. rewrite E. apply app_nil_r.
  - destruct Hfc as (G1 & _ & G3 & _). fc_unfold. lia.
  - destruct Hlog as [_ [[? _]|(code & ? & _)]]; [by left|right; eauto].
Qed.

Lemma send_stream_data_witness :
  sent snd_sample = [1;2;3;4;5;6;7;8] ∧
  ∃ fs, fs ≡ₚ sy_acked snd_sample ++ sy_out snd_sample ++ snd_retransmissionQueue (sy_s snd_sample) ∧
    covering (sent snd_sample) (snd_finSent (sy_s snd_sample)) fs ∧ Forall (tile_ok 4) fs.
Proof.
  split; [vm_compute; reflexivity|].
  apply (send_stream_data 4 100 sample_conn snd_sample); [unfold maxVarInt8; lia|unfold MaxByteCount; lia| |].
  - apply sample_conn_ok.
  - apply snd_sample_reach.
Defined.

(** In every reachable state no operation panics: [popStreamFrame] returns for
    every packet size, and the frame it returns carries its length and fits;
    acknowledging or losing any frame in flight returns. *)
Theorem send_stream_total id w conn y maxBytes :
  0 <= id <= maxVarInt8 → 0 <= w <= MaxByteCount → base_ok conn →
  rtc snd_step (snd_init id w conn) y → 0 <= maxBytes <= MaxReceivePacketSize →
  (∃ s conn' ev f more, popStreamFrame (sy_s y) (sy_conn y) maxBytes = Ok (s, conn', ev, f, more) ∧
     ∀ g, f = Some g → fits maxBytes g) ∧
  (∀ f, f ∈ sy_out y → is_ok (frameAcked (sy_s y) f) = true ∧ is_ok (queueRetransmission (sy_s y) f) = true).
Proof.
  intros Hid Hw Hc Hr Hm. pose proof (snd_reach_inv id w conn y Hid Hw Hc Hr) as Hinv. split.
  - destruct (pop_spec (sy_s y) (sy_conn y) maxBytes (inv_pop_pre _ _ Hinv) Hm) as (s & c & ev & f & more & E & _ & Hf).
    by exists s, c, ev, f, more.
  - intros f (a & b & Eo)%list_elem_of_split. pose proof (out_len y a f b Eo). pose proof (len_nonneg (a ++ b)).
    destruct (inv_flags _ _ Hinv) as (_ & _ & _ & _ & F5 & F6).
    assert ((i64 (snd_numOutstandingFrames (sy_s y) - 1) <? 0) = false) as En by (rewrite F5, i64_small by lia; apply Z.ltb_ge; lia).
    split.
    + unfold frameAcked, putStreamFrame. rewrite Z.eqb_refl. cbn [negb].
      destruct (fromPool f); cbn [mbind outcome_bind negb]; cbn [snd_set_queue snd_numOutstandingFrames];
        rewrite En; by destruct (isNewlyCompleted _).
    + unfold queueRetransmission. cbn [snd_set_queue snd_numOutstandingFrames]. by rewrite En.
Qed.

Lemma send_stream_total_witness :
  ∃ s conn' ev f more, popStreamFrame (sy_s snd_sample) (sy_conn snd_sample) 40 = Ok (s, conn', ev, f, more) ∧
    ∀ g, f = Some g → fits 40 g.
Proof.
  refine (proj1 (send_stream_total 4 100 sample_conn snd_sample 40 _ _ _ _ _)); [unfold maxVarInt8; lia|unfold MaxByteCount; lia| | |].
  - apply sample_conn_ok.
  - apply snd_sample_reach.
  - unfold MaxReceivePacketSize; lia.
Defined.

(** Completion is exact: in every reachable state the sender was told once
    that the stream completed if the FIN was sent or the stream cancelled and
    nothing is in flight or waiting for retransmission, and was not told
    otherwise. *)
Theorem send_stream_completion id w conn y :
  0 <= id <= maxVarInt8 → 0 <= w <= MaxByteCount → base_ok conn →
  rtc snd_step (snd_init id w conn) y →
  completions (sy_log y) =
  (if (snd_finSent (sy_s y) || snd_canceledWrite (sy_s y))
     && (len (sy_out y) =? 0) && (len (snd_retransmissionQueue (sy_s y)) =? 0) then [id] else []).
Proof.
  intros Hid Hw Hc Hr. destruct (snd_reach_inv id w conn y Hid Hw Hc Hr) as [Ei _ _ Hfl Hlog _ _ _ _ _].
  destruct Hfl as (_ & _ & _ & F4 & F5 & _). destruct Hlog as [L _]. by rewrite L, F4, F5, Ei.
Qed.

Lemma send_stream_completion_witness : completions (sy_log snd_sample) = [].
Proof.
  refine (eq_trans (send_stream_completion 4 100 sample_conn snd_sample _ _ _ _) _);
    [unfold maxVarInt8; lia|unfold MaxByteCount; lia| | |vm_compute; reflexivity].
  - apply sample_conn_ok.
  - apply snd_sample_reach.
Defined.

(** No wake-up is lost: whenever the data of a blocked [Write] was taken, or
    the stream was cancelled or closed, the call can go on at once, and then it
    returns: the number of bytes handed over, all of them if nothing is left,
    and no error unless the stream was cancelled or closed or the deadline
    passed. *)
Theorem send_stream_write_wakes id w conn y wc p now :
  0 <= id <= maxVarInt8 → 0 <= w <= MaxByteCount → base_ok conn →
  rtc snd_step (snd_init id w conn) y → sy_call y = Some (wc, p) →
  snd_dataForWriting (sy_s y) = None ∨ snd_canceledWrite (sy_s y) = true ∨ snd_closedForShutdown (sy_s y) = true →
  ∃ s n err, Write_wake (sy_s y) wc false now = Some (s, [], WReturn n err) ∧
    sent y = sy_done y ++ take (Z.to_nat n) p ∧ 0 <= n <= len p ∧
    (snd_dataForWriting (sy_s y) = None → n = len p) ∧
    (snd_canceledWrite (sy_s y) = false → snd_closedForShutdown (sy_s y) = false →
     err = (if negb (snd_deadline (sy_s y) =? time_zero) && negb (now <? snd_deadline (sy_s y))
            then Some DeadlineError else None)).
Proof.
  intros Hid Hw Hc Hr Ec Hst. pose proof (snd_reach_inv id w conn y Hid Hw Hc Hr) as Hinv.
  pose proof (inv_call _ _ Hinv) as Hcall. rewrite Ec in Hcall. destruct Hcall as (Hwc & Hp & (k & Hk) & Hchan).
  destruct (inv_flags _ _ Hinv) as (F1 & F2 & _).
  assert (snd_writeChan (sy_s y) = true) as Ech.
  { apply Hchan. unfold live. destruct Hst as [?|[-> | ->]]; [by left|by right|right; by rewrite andb_false_r]. }
  unfold Write_wake. rewrite Ech. unfold Write_loop. cbn [snd_set_chan snd_dataForWriting snd_deadline snd_canceledWrite
    snd_closedForShutdown snd_closeForShutdownErr snd_cancelWriteErr].
  set (n := wc_len wc - len_opt (snd_dataForWriting (sy_s y))).
  assert (Hn : sent y = sy_done y ++ take (Z.to_nat n) p ∧ 0 <= n <= len p ∧ (snd_dataForWriting (sy_s y) = None → n = len p)).
  { unfold sent. rewrite Ec. unfold part, n. rewrite Hwc. split; [done|].
    destruct Hk as [[-> Hk]|[-> _]]; cbn [len_opt]; [|pose proof (len_nonneg p); split; [lia|intros; lia]].
    unfold len. rewrite length_drop. split; [lia|done]. }
  destruct (negb (_ =? _) && _).
  { do 3 eexists. split; [done|]. split_and!; try apply Hn. done. }
  assert (is_nil (snd_dataForWriting (sy_s y)) || snd_canceledWrite (sy_s y) || snd_closedForShutdown (sy_s y) = true) as ->.
  { destruct Hst as [-> |[-> | ->]]; [done|by rewrite orb_true_r|by rewrite orb_true_r]. }
  do 3 eexists. split; [done|]. split_and!; try apply Hn. intros E1 E2. rewrite E1 in F2. rewrite E2 in F1.
  by destruct (snd_closeForShutdownErr (sy_s y)), (snd_cancelWriteErr (sy_s y)).
Qed.
Lemma send_stream_write_wakes_witness :
  ∃ s n err, Write_wake (sy_s (do_pop snd_blocked 12)) (mkWriteCall 8 true 0) false 5 = Some (s, [], WReturn n err) ∧ n = 8.
Proof.
  destruct (send_stream_write_wakes 4 100 sample_conn (do_pop snd_blocked 12) (mkWriteCall 8 true 0) [1;2;3;4;5;6;7;8] 5)
    as (s & n & err & E & _ & _ & Hn & _); [unfold maxVarInt8; lia|unfold MaxByteCount; lia|apply sample_conn_ok| |done|by left|].
  - eapply rtc_r; [apply snd_blocked_reach|]. apply do_pop_step; [unfold MaxReceivePacketSize; lia|done..].
  - exists s, n, err. split; [exact E|]. by apply Hn.
Defined.
