(* ===== verification/ReceiveStream.v ===== *)
(** ReceiveStream: quic-go/receive_stream.go.  The receiving half of a stream on
    top of the frame sorter and the stream's flow controller (which shares the
    connection's, passed and returned).  [Read] releases the mutex while it waits
    for data and while it copies: a call in progress is a value, and the other
    operations run between its steps.  The read channel (capacity one) is a
    boolean.  [PutBack] of a frame is a numbered callback. *)

From S2P Require Import Prelude Utils Protocol AckFrame Frames FrameCodec StreamFrame FrameParser GoFloat Rtt FlowControl LinkedListSpec FrameSorter SendStream.

Record receiveStream := mkReceiveStream {
  rcv_streamID : Z;
  rcv_frameQueue : frameSorter;
  rcv_readOffset : Z;
  rcv_finalOffset : Z;
  rcv_currentFrame : option (list Z);
  rcv_currentFrameDone : option nat;
  rcv_currentFrameIsLast : bool;
  rcv_readPosInFrame : Z;
  rcv_closeForShutdownErr : option goerr;
  rcv_cancelReadErr : option goerr;
  rcv_resetRemotelyErr : option goerr;
  rcv_closedForShutdown : bool;
  rcv_finRead : bool;
  rcv_canceledRead : bool;
  rcv_resetRemotely : bool;
  rcv_readChan : bool;
  rcv_deadline : Z;
  rcv_flowController : streamFlowController }.

Definition newReceiveStream (streamID : Z) (fc : streamFlowController) : receiveStream :=
  mkReceiveStream streamID newFrameSorter 0 MaxByteCount None None false 0 None None None
    false false false false false time_zero fc.

Definition rcv_set_queue (s : receiveStream) (q : frameSorter) : receiveStream :=
  mkReceiveStream (rcv_streamID s) q (rcv_readOffset s) (rcv_finalOffset s) (rcv_currentFrame s)
    (rcv_currentFrameDone s) (rcv_currentFrameIsLast s) (rcv_readPosInFrame s) (rcv_closeForShutdownErr s)
    (rcv_cancelReadErr s) (rcv_resetRemotelyErr s) (rcv_closedForShutdown s) (rcv_finRead s)
    (rcv_canceledRead s) (rcv_resetRemotely s) (rcv_readChan s) (rcv_deadline s) (rcv_flowController s).
Definition rcv_set_frame (s : receiveStream) (q : frameSorter) (d : option (list Z)) (done : option nat) (last : bool) : receiveStream :=
  mkReceiveStream (rcv_streamID s) q (rcv_readOffset s) (rcv_finalOffset s) d
    done last 0 (rcv_closeForShutdownErr s)
    (rcv_cancelReadErr s) (rcv_resetRemotelyErr s) (rcv_closedForShutdown s) (rcv_finRead s)
    (rcv_canceledRead s) (rcv_resetRemotely s) (rcv_readChan s) (rcv_deadline s) (rcv_flowController s).
Definition rcv_set_pos (s : receiveStream) (pos off : Z) : receiveStream :=
  mkReceiveStream (rcv_streamID s) (rcv_frameQueue s) off (rcv_finalOffset s) (rcv_currentFrame s)
    (rcv_currentFrameDone s) (rcv_currentFrameIsLast s) pos (rcv_closeForShutdownErr s)
    (rcv_cancelReadErr s) (rcv_resetRemotelyErr s) (rcv_closedForShutdown s) (rcv_finRead s)
    (rcv_canceledRead s) (rcv_resetRemotely s) (rcv_readChan s) (rcv_deadline s) (rcv_flowController s).
Definition rcv_set_final (s : receiveStream) (off : Z) : receiveStream :=
  mkReceiveStream (rcv_streamID s) (rcv_frameQueue s) (rcv_readOffset s) off (rcv_currentFrame s)
    (rcv_currentFrameDone s) (rcv_currentFrameIsLast s) (rcv_readPosInFrame s) (rcv_closeForShutdownErr s)
    (rcv_cancelReadErr s) (rcv_resetRemotelyErr s) (rcv_closedForShutdown s) (rcv_finRead s)
    (rcv_canceledRead s) (rcv_resetRemotely s) (rcv_readChan s) (rcv_deadline s) (rcv_flowController s).
Definition rcv_set_fc (s : receiveStream) (fc : streamFlowController) : receiveStream :=
  mkReceiveStream (rcv_streamID s) (rcv_frameQueue s) (rcv_readOffset s) (rcv_finalOffset s) (rcv_currentFrame s)
    (rcv_currentFrameDone s) (rcv_currentFrameIsLast s) (rcv_readPosInFrame s) (rcv_closeForShutdownErr s)
    (rcv_cancelReadErr s) (rcv_resetRemotelyErr s) (rcv_closedForShutdown s) (rcv_finRead s)
    (rcv_canceledRead s) (rcv_resetRemotely s) (rcv_readChan s) (rcv_deadline s) fc.
Definition rcv_set_finRead (s : receiveStream)  : receiveStream :=
  mkReceiveStream (rcv_streamID s) (rcv_frameQueue s) (rcv_readOffset s) (rcv_finalOffset s) (rcv_currentFrame s)
    (rcv_currentFrameDone s) (rcv_currentFrameIsLast s) (rcv_readPosInFrame s) (rcv_closeForShutdownErr s)
    (rcv_cancelReadErr s) (rcv_resetRemotelyErr s) (rcv_closedForShutdown s) true
    (rcv_canceledRead s) (rcv_resetRemotely s) (rcv_readChan s) (rcv_deadline s) (rcv_flowController s).
Definition rcv_set_chan (s : receiveStream) (b : bool) : receiveStream :=
  mkReceiveStream (rcv_streamID s) (rcv_frameQueue s) (rcv_readOffset s) (rcv_finalOffset s) (rcv_currentFrame s)
    (rcv_currentFrameDone s) (rcv_currentFrameIsLast s) (rcv_readPosInFrame s) (rcv_closeForShutdownErr s)
    (rcv_cancelReadErr s) (rcv_resetRemotelyErr s) (rcv_closedForShutdown s) (rcv_finRead s)
    (rcv_canceledRead s) (rcv_resetRemotely s) b (rcv_deadline s) (rcv_flowController s).
Definition rcv_set_canceled (s : receiveStream) (e : goerr) : receiveStream :=
  mkReceiveStream (rcv_streamID s) (rcv_frameQueue s) (rcv_readOffset s) (rcv_finalOffset s) (rcv_currentFrame s)
    (rcv_currentFrameDone s) (rcv_currentFrameIsLast s) (rcv_readPosInFrame s) (rcv_closeForShutdownErr s)
    (Some e) (rcv_resetRemotelyErr s) (rcv_closedForShutdown s) (rcv_finRead s)
    true (rcv_resetRemotely s) (rcv_readChan s) (rcv_deadline s) (rcv_flowController s).
Definition rcv_set_reset (s : receiveStream) (e : goerr) : receiveStream :=
  mkReceiveStream (rcv_streamID s) (rcv_frameQueue s) (rcv_readOffset s) (rcv_finalOffset s) (rcv_currentFrame s)
    (rcv_currentFrameDone s) (rcv_currentFrameIsLast s) (rcv_readPosInFrame s) (rcv_closeForShutdownErr s)
    (rcv_cancelReadErr s) (Some e) (rcv_closedForShutdown s) (rcv_finRead s)
    (rcv_canceledRead s) true (rcv_readChan s) (rcv_deadline s) (rcv_flowController s).
Definition rcv_set_deadline (s : receiveStream) (t : Z) : receiveStream :=
  mkReceiveStream (rcv_streamID s) (rcv_frameQueue s) (rcv_readOffset s) (rcv_finalOffset s) (rcv_currentFrame s)
    (rcv_currentFrameDone s) (rcv_currentFrameIsLast s) (rcv_readPosInFrame s) (rcv_closeForShutdownErr s)
    (rcv_cancelReadErr s) (rcv_resetRemotelyErr s) (rcv_closedForShutdown s) (rcv_finRead s)
    (rcv_canceledRead s) (rcv_resetRemotely s) (rcv_readChan s) t (rcv_flowController s).
Definition rcv_set_shutdown (s : receiveStream) (e : option goerr) : receiveStream :=
  mkReceiveStream (rcv_streamID s) (rcv_frameQueue s) (rcv_readOffset s) (rcv_finalOffset s) (rcv_currentFrame s)
    (rcv_currentFrameDone s) (rcv_currentFrameIsLast s) (rcv_readPosInFrame s) e
    (rcv_cancelReadErr s) (rcv_resetRemotelyErr s) true (rcv_finRead s)
    (rcv_canceledRead s) (rcv_resetRemotely s) (rcv_readChan s) (rcv_deadline s) (rcv_flowController s).

(** What an operation does to its environment. *)
Inductive rcv_event := Sender (e : sender_event) | Done (cb : nat).
Definition fc_events (l : list fc_event) : list rcv_event := (λ e, Sender (QueueWindowUpdate e)) <$> l.
Definition done_events (l : list nat) : list rcv_event := Done <$> l.

Definition signalRead (s : receiveStream) : receiveStream := rcv_set_chan s true.

(** [streamCompleted]: unless everything was read, the flow controller gives up
    the rest of the stream. *)
Definition streamCompleted (s : receiveStream) (conn : baseFlowController) (now : Z)
    : baseFlowController * list rcv_event :=
  let '(conn, ev) := if rcv_finRead s then (conn, []) else Abandon (rcv_flowController s) conn now in
  (conn, fc_events ev ++ [Sender (OnStreamCompleted (rcv_streamID s))]).
Definition complete (completed : bool) (s : receiveStream) (conn : baseFlowController) (now : Z)
    : baseFlowController * list rcv_event :=
  if completed then streamCompleted s conn now else (conn, []).

(** * Read *)

Definition dequeueNextFrame (s : receiveStream) : receiveStream * list rcv_event :=
  let calls := call (rcv_currentFrameDone s) in
  let isNil := Pop_isNil (rcv_frameQueue s) in
  let '(q, (offset, data, cb)) := Pop (rcv_frameQueue s) in
  let data := if isNil then None else Some data in
  (rcv_set_frame s q data cb (rcv_finalOffset s <=? u64 (offset + len_opt data)), done_events calls).

(** A call in progress: the length of its buffer, what was copied into it so
    far, and where it is: waiting (with the deadline its timer was set to), or
    after a copy of [m] bytes. *)
Inductive read_point := RWait (deadline : Z) | RCopied (m : Z).
Record read_call := mkReadCall { rd_len : Z; rd_buf : list Z; rd_point : read_point }.
(** [RReturn completed data err]: [len data] bytes were read. *)
Inductive read_result := RReturn (completed : bool) (data : list Z) (err : option goerr) | RYield (c : read_call).

(** The inner loop, from its head to the wait or to the end of the copy. *)
Definition Read_inner (s : receiveStream) (plen : Z) (buf : list Z) (now : Z) : receiveStream * read_result :=
  let bytesRead := len buf in
  if rcv_closedForShutdown s then (s, RReturn false buf (rcv_closeForShutdownErr s))
  else if rcv_canceledRead s then (s, RReturn false buf (rcv_cancelReadErr s))
  else if rcv_resetRemotely s then (s, RReturn false buf (rcv_resetRemotelyErr s))
  else
  let deadline := rcv_deadline s in
  if negb (deadline =? time_zero) && negb (now <? deadline) then (s, RReturn false buf (Some DeadlineError))
  else if is_nil (rcv_currentFrame s) && negb (rcv_currentFrameIsLast s) then
    (s, RYield (mkReadCall plen buf (RWait deadline)))
  else if plen <? bytesRead then
    (s, RReturn false buf (Some (Errorf "BUG: bytesRead (%d) > len(p) (%d) in stream.Read" [bytesRead; plen])))
  else if len_opt (rcv_currentFrame s) <? rcv_readPosInFrame s then
    (s, RReturn false buf (Some (Errorf "BUG: readPosInFrame (%d) > frame.DataLen (%d) in stream.Read"
      [rcv_readPosInFrame s; len_opt (rcv_currentFrame s)])))
  else
    let rest := drop (Z.to_nat (rcv_readPosInFrame s)) (default [] (rcv_currentFrame s)) in
    let copied := take (Z.to_nat (plen - bytesRead)) rest in
    let m := len copied in
    (rcv_set_pos s (rcv_readPosInFrame s + m) (u64 (rcv_readOffset s + m)),
     RYield (mkReadCall plen (buf ++ copied) (RCopied m))).

(** The head of the outer loop. *)
Definition Read_outer (s : receiveStream) (plen : Z) (buf : list Z) (now : Z)
    : receiveStream * list rcv_event * read_result :=
  if negb (len buf <? plen) then (s, [], RReturn false buf None) else
  let '(s, ev) := if is_nil (rcv_currentFrame s) || (len_opt (rcv_currentFrame s) <=? rcv_readPosInFrame s)
                  then dequeueNextFrame s else (s, []) in
  if is_nil (rcv_currentFrame s) && (0 <? len buf) then (s, ev, RReturn false buf (rcv_closeForShutdownErr s))
  else let '(s, r) := Read_inner s plen buf now in (s, ev, r).

(** The call up to its first yield. *)
Definition Read (s : receiveStream) (plen : Z) (now : Z) : receiveStream * list rcv_event * read_result :=
  if rcv_finRead s then (s, [], RReturn false [] (Some EOF))
  else if rcv_canceledRead s then (s, [], RReturn false [] (rcv_cancelReadErr s))
  else if rcv_resetRemotely s then (s, [], RReturn false [] (rcv_resetRemotelyErr s))
  else if rcv_closedForShutdown s then (s, [], RReturn false [] (rcv_closeForShutdownErr s))
  else Read_outer s plen [] now.

(** The rest of a call that waited: it received from the channel, or its timer
    fired. *)
Definition Read_wake (s : receiveStream) (c : read_call) (timer : bool) (now : Z)
    : option (receiveStream * list rcv_event * read_result) :=
  match rd_point c with
  | RCopied _ => None
  | RWait deadline =>
      let go s := let '(s, ev) := if is_nil (rcv_currentFrame s) then dequeueNextFrame s else (s, []) in
                  let '(s, r) := Read_inner s (rd_len c) (rd_buf c) now in (s, ev, r) in
      if timer then if negb (deadline =? time_zero) && (deadline <=? now) then Some (go s) else None
      else if rcv_readChan s then Some (go (rcv_set_chan s false)) else None
  end.
(** The rest of a call that copied, with the mutex held again. *)
Definition Read_copied (s : receiveStream) (conn : baseFlowController) (c : read_call) (now : Z)
    : option (receiveStream * baseFlowController * list rcv_event * read_result) :=
  match rd_point c with
  | RWait _ => None
  | RCopied m =>
      let '(s, conn, ev) :=
        if rcv_resetRemotely s then (s, conn, [])
        else let '(fc, conn, ev) := AddBytesRead (rcv_flowController s) conn now m in
             (rcv_set_fc s fc, conn, fc_events ev) in
      if (len_opt (rcv_currentFrame s) <=? rcv_readPosInFrame s) && rcv_currentFrameIsLast s then
        Some (rcv_set_finRead s, conn, ev, RReturn true (rd_buf c) (Some EOF))
      else let '(s, ev', r) := Read_outer s (rd_len c) (rd_buf c) now in Some (s, conn, ev ++ ev', r)
  end.
(** [Read] calls [streamCompleted] when the loop reports completion. *)
Definition Read_finish (s : receiveStream) (conn : baseFlowController) (r : read_result) (now : Z)
    : baseFlowController * list rcv_event :=
  match r with RReturn completed _ _ => complete completed s conn now | RYield _ => (conn, []) end.

(** * Cancelling, frames of the peer, closing *)

Definition cancelReadImpl (s : receiveStream) (errorCode : Z) : receiveStream * list rcv_event * bool :=
  if rcv_finRead s || rcv_canceledRead s || rcv_resetRemotely s then (s, [], false) else
  let e := Errorf "Read on stream %d canceled with error code %d" [rcv_streamID s; errorCode] in
  (signalRead (rcv_set_canceled s e),
   [Sender (QueueControlFrame (FStopSending (mkStopSending (rcv_streamID s) errorCode)))],
   negb (rcv_finalOffset s =? MaxByteCount)).
Definition CancelRead (s : receiveStream) (conn : baseFlowController) (errorCode now : Z)
    : receiveStream * baseFlowController * list rcv_event :=
  let '(s, ev, completed) := cancelReadImpl s errorCode in
  let '(conn, ev') := complete completed s conn now in (s, conn, ev ++ ev').

(** [putBack] numbers the frame's [PutBack]. *)
Definition handleStreamFrameImpl (s : receiveStream) (conn : baseFlowController) (frame : StreamFrame) (putBack : nat)
    : receiveStream * baseFlowController * list rcv_event * bool * option goerr :=
  let maxOffset := u64 (Offset frame + DataLen frame) in
  let '(fc, conn, err) := UpdateHighestReceived (rcv_flowController s) conn maxOffset (FinBit frame) in
  let s := rcv_set_fc s fc in
  match err with
  | Some e => (s, conn, [], false, Some e)
  | None =>
      let s := if FinBit frame then rcv_set_final s maxOffset else s in
      if rcv_canceledRead s then (s, conn, [], FinBit frame, None) else
      let '(q, calls, err) := Push (rcv_frameQueue s) (Data frame) (Offset frame) (Some putBack) in
      let s := rcv_set_queue s q in
      match err with
      | Some e => (s, conn, done_events calls, false, Some e)
      | None => (signalRead s, conn, done_events calls, false, None)
      end
  end.
Definition handleStreamFrame (s : receiveStream) (conn : baseFlowController) (frame : StreamFrame) (putBack : nat) (now : Z)
    : receiveStream * baseFlowController * list rcv_event * option goerr :=
  let '(s, conn, ev, completed, err) := handleStreamFrameImpl s conn frame putBack in
  let '(conn, ev') := complete completed s conn now in (s, conn, ev ++ ev', err).

Definition handleResetStreamFrameImpl (s : receiveStream) (conn : baseFlowController) (frame : ResetStreamFrame)
    : receiveStream * baseFlowController * bool * option goerr :=
  if rcv_closedForShutdown s then (s, conn, false, None) else
  let '(fc, conn, err) := UpdateHighestReceived (rcv_flowController s) conn (rs_ByteOffset frame) true in
  let s := rcv_set_fc s fc in
  match err with
  | Some e => (s, conn, false, Some e)
  | None =>
      let s := rcv_set_final s (rs_ByteOffset frame) in
      if rcv_resetRemotely s then (s, conn, false, None) else
      let e := StreamCanceledError (rs_ErrorCode frame)
                 (Errorf "stream %d was reset with error code %d" [rcv_streamID s; rs_ErrorCode frame]) in
      (signalRead (rcv_set_reset s e), conn, true, None)
  end.
Definition handleResetStreamFrame (s : receiveStream) (conn : baseFlowController) (frame : ResetStreamFrame) (now : Z)
    : receiveStream * baseFlowController * list rcv_event * option goerr :=
  let '(s, conn, completed, err) := handleResetStreamFrameImpl s conn frame in
  let '(conn, ev) := complete completed s conn now in (s, conn, ev, err).

(** [putBack] is that of a frame that is not from the pool. *)
Definition CloseRemote (s : receiveStream) (conn : baseFlowController) (offset : Z) (putBack : nat) (now : Z)
    : receiveStream * baseFlowController * list rcv_event :=
  let '(s, conn, ev, _) := handleStreamFrame s conn (mkStreamFrame 0 offset [] true false false) putBack now in (s, conn, ev).
Definition SetReadDeadline (s : receiveStream) (t : Z) : receiveStream := signalRead (rcv_set_deadline s t).
Definition rcv_closeForShutdown (s : receiveStream) (err : option goerr) : receiveStream :=
  signalRead (rcv_set_shutdown s err).
Definition rcv_getWindowUpdate (s : receiveStream) (conn : baseFlowController) (rttStats : RTTStats) (now : Z)
    : receiveStream * baseFlowController * Z :=
  let '(fc, conn, offset) := GetWindowUpdate (rcv_flowController s) conn rttStats now in
  (rcv_set_fc s fc, conn, offset).
