(* ===== verification/ReceiveStreamSpec.v ===== *)
(** ReceiveStreamSpec: what a receive stream promises.  The stream, a [Read] in
    progress and the peer's frames form a transition system.  What [Read] returns
    is, in order, a prefix of the stream's data; EOF is returned exactly at the
    final offset; a waiting [Read] is woken whenever it can go on.  The last
    theorem shows how a cancelled stream is accounted for twice. *)

From S2P Require Import Prelude Utils Protocol AckFrame Frames FrameCodec StreamFrame FrameParser GoFloat Rtt FlowControl LinkedListSpec FrameSorter FrameSorterSpec SendStream ReceiveStream.

(** * The transition system *)

(** [ry_read]: what the calls of [Read] that returned have delivered. *)
Record rcv_sys := mkRSys {
  ry_s : receiveStream; ry_conn : baseFlowController; ry_call : option read_call; ry_read : list Z;
  ry_log : list rcv_event }.

Definition after_read (y : rcv_sys) (conn : baseFlowController) (s : receiveStream) (ev : list rcv_event)
    (r : read_result) (now : Z) : rcv_sys :=
  let '(conn, ev') := Read_finish s conn r now in
  match r with
  | RReturn _ data _ => mkRSys s conn None (ry_read y ++ data) (ry_log y ++ ev ++ ev')
  | RYield c => mkRSys s conn (Some c) (ry_read y) (ry_log y ++ ev ++ ev')
  end.
Definition with_rs (y : rcv_sys) (s : receiveStream) (conn : baseFlowController) (ev : list rcv_event) : rcv_sys :=
  mkRSys s conn (ry_call y) (ry_read y) (ry_log y ++ ev).

(** A frame of the stream with contents [S]. *)
Definition frame_of (S : Z → Z) (f : StreamFrame) : Prop :=
  0 <= Offset f ∧ Offset f + DataLen f < MaxByteCount ∧ carries S (Offset f) (Data f).

(** Every operation, in any order; an error of a frame handler closes the
    connection, so only its successes are steps.  The connection's flow
    controller changes freely. *)
Inductive rcv_step (S : Z → Z) : rcv_sys → rcv_sys → Prop :=
  | rstep_read y plen now s ev r : ry_call y = None → 0 <= plen →
      Read (ry_s y) plen now = (s, ev, r) → rcv_step S y (after_read y (ry_conn y) s ev r now)
  | rstep_wake y c timer now s ev r : ry_call y = Some c → Read_wake (ry_s y) c timer now = Some (s, ev, r) →
      rcv_step S y (after_read y (ry_conn y) s ev r now)
  | rstep_copied y c now s conn ev r : ry_call y = Some c →
      Read_copied (ry_s y) (ry_conn y) c now = Some (s, conn, ev, r) → rcv_step S y (after_read y conn s ev r now)
  | rstep_cancel y code now s conn ev : CancelRead (ry_s y) (ry_conn y) code now = (s, conn, ev) →
      rcv_step S y (with_rs y s conn ev)
  | rstep_frame y f cb now s conn ev : frame_of S f →
      handleStreamFrame (ry_s y) (ry_conn y) f cb now = (s, conn, ev, None) → rcv_step S y (with_rs y s conn ev)
  | rstep_reset y f now s conn ev : 0 <= rs_ByteOffset f < MaxByteCount →
      handleResetStreamFrame (ry_s y) (ry_conn y) f now = (s, conn, ev, None) → rcv_step S y (with_rs y s conn ev)
  | rstep_deadline y t : rcv_step S y (with_rs y (SetReadDeadline (ry_s y) t) (ry_conn y) [])
  | rstep_shutdown y e : rcv_step S y (with_rs y (rcv_closeForShutdown (ry_s y) (Some e)) (ry_conn y) [])
  | rstep_window y rtt now s conn off : rcv_getWindowUpdate (ry_s y) (ry_conn y) rtt now = (s, conn, off) →
      rcv_step S y (with_rs y s conn [])
  | rstep_conn y conn : rcv_step S y (with_rs y (ry_s y) conn []).

Definition rcv_init (id rw maxRw : Z) (conn : baseFlowController) : rcv_sys :=
  mkRSys (newReceiveStream id (NewStreamFlowController id rw maxRw 0)) conn None [] [].

(** * The invariant *)

Definition call_buf (c : option read_call) : list Z := match c with Some c => rd_buf c | None => [] end.
(** Bytes copied but not yet reported to the flow controller. *)
Definition pending (c : option read_call) : Z :=
  match c with Some (mkReadCall _ _ (RCopied m)) => m | _ => 0 end.
(** Everything delivered so far. *)
Definition delivered (y : rcv_sys) : list Z := ry_read y ++ call_buf (ry_call y).

Definition rcv_stopped (s : receiveStream) : bool :=
  rcv_closedForShutdown s || rcv_canceledRead s || rcv_resetRemotely s.
(** Something a waiting [Read] waits for. *)
Definition ready (s : receiveStream) : Prop :=
  rcv_stopped s = true ∨ queue (rcv_frameQueue s) !! readPos (rcv_frameQueue s) ≠ None ∨
  rcv_finalOffset s <= readPos (rcv_frameQueue s).

Definition rcv_fc_ok (s : receiveStream) : Prop :=
  let b := sfc (rcv_flowController s) in
  base_ok b ∧ highestReceived b < MaxByteCount ∧
  (∀ x, highestReceived b <= x < MaxByteCount → in_gaps (gaps (rcv_frameQueue s)) x) ∧
  readPos (rcv_frameQueue s) <= highestReceived b ∧
  rcv_finalOffset s = (if receivedFinalOffset (rcv_flowController s) then highestReceived b else MaxByteCount).
(** [dl]: everything delivered; [pend]: of it, not yet reported to the flow
    controller. *)
Record rcv_core (S : Z → Z) (s : receiveStream) (dl : list Z) (pend : Z) : Prop := {
  rc_sorter : sorter_inv S (rcv_frameQueue s);
  rc_fc : rcv_fc_ok s;
  rc_data : carries S 0 dl;
  rc_len : len dl = rcv_readOffset s;
  rc_frame : 0 <= rcv_readPosInFrame s <= len_opt (rcv_currentFrame s);
  rc_pos : rcv_readOffset s + (len_opt (rcv_currentFrame s) - rcv_readPosInFrame s) = readPos (rcv_frameQueue s);
  rc_cur : carries S (readPos (rcv_frameQueue s) - len_opt (rcv_currentFrame s)) (default [] (rcv_currentFrame s));
  rc_read : 0 <= pend ∧ (rcv_resetRemotely s = false → bytesRead (sfc (rcv_flowController s)) + pend = rcv_readOffset s);
  rc_last : rcv_currentFrameIsLast s = true → rcv_finalOffset s <= readPos (rcv_frameQueue s);
  rc_fin : rcv_finRead s = true → rcv_readOffset s = rcv_finalOffset s ∧ receivedFinalOffset (rcv_flowController s) = true }.
Definition rcv_call_ok (y : rcv_sys) : Prop :=
  match ry_call y with
  | None => True
  | Some (mkReadCall plen buf (RWait _)) =>
      rcv_finRead (ry_s y) = false ∧ buf = [] ∧ 0 < plen ∧ rcv_currentFrame (ry_s y) = None ∧ rcv_currentFrameIsLast (ry_s y) = false ∧
      (ready (ry_s y) → rcv_readChan (ry_s y) = true)
  | Some (mkReadCall plen buf (RCopied m)) => rcv_finRead (ry_s y) = false ∧ len buf <= plen
  end.
Definition rcv_inv (S : Z → Z) (y : rcv_sys) : Prop :=
  rcv_core S (ry_s y) (delivered y) (pending (ry_call y)) ∧ rcv_call_ok y.

(** * The operations on the core *)

Lemma len_opt_default d : len_opt d = len (default [] d).
Proof. by destruct d. Qed.

(** An accepted offset. *)
Lemma UpdateHighestReceived_accepts c conn off fin c' conn' :
  base_ok (sfc c) → 0 <= off < MaxByteCount → highestReceived (sfc c) < MaxByteCount →
  UpdateHighestReceived c conn off fin = (c', conn', None) →
  base_ok (sfc c') ∧ highestReceived (sfc c') = Z.max (highestReceived (sfc c)) off ∧
  bytesRead (sfc c') = bytesRead (sfc c) ∧ receivedFinalOffset c' = receivedFinalOffset c || fin ∧
  (receivedFinalOffset c = true → highestReceived (sfc c') = highestReceived (sfc c)) ∧
  (fin = true → highestReceived (sfc c') = off).
Proof.
  intros Hb Ho Hh Hu. revert Hu. unfold UpdateHighestReceived. cbv zeta.
  destruct (receivedFinalOffset c && fin && negb (off =? highestReceived (sfc c))) eqn:E1; [intros [=]|].
  destruct (receivedFinalOffset c && (highestReceived (sfc c) <? off)) eqn:E2; [intros [=]|].
  assert (Hrf : (if fin then true else receivedFinalOffset c) = receivedFinalOffset c || fin)
    by (by destruct fin, (receivedFinalOffset c)).
  destruct (Z.eqb_spec off (highestReceived (sfc c))) as [Eo|Hne].
  { intros [= <- <-]. cbn. rewrite Hrf. split_and!; try done; lia. }
  destruct (Z.leb_spec off (highestReceived (sfc c))) as [Hle|Hgt].
  { destruct fin; [intros [=]|]. intros [= <- <-]. cbn. rewrite orb_false_r. split_and!; try done; lia. }
  unfold checkFlowControlViolation, set_highestReceived. cbn [sfc receiveWindow highestReceived].
  destruct (Z.ltb_spec (receiveWindow (sfc c)) off) as [|Hw]; [intros [=]|].
  destruct (IncrementHighestReceived conn _) as [conn1 err]. intros [= <- <- ->].
  cbn. rewrite Hrf. split_and!; try done; try lia.
  - fc_unfold. lia.
  - intros E. rewrite E in E2. cbn in E2. apply Z.ltb_ge in E2. lia.
Qed.

(** The next frame, once the current one was read to its end. *)
Lemma dequeue_core S s dl pend s' ev : rcv_core S s dl pend → len_opt (rcv_currentFrame s) <= rcv_readPosInFrame s →
  dequeueNextFrame s = (s', ev) →
  rcv_core S s' dl pend ∧ rcv_readPosInFrame s' = 0 ∧
  (rcv_currentFrame s' = None → queue (rcv_frameQueue s') !! readPos (rcv_frameQueue s') = None) ∧
  (rcv_currentFrameIsLast s' = false → readPos (rcv_frameQueue s') < rcv_finalOffset s') ∧
  (∀ e, queue (rcv_frameQueue s) !! readPos (rcv_frameQueue s) = Some e → rcv_currentFrame s' = Some (e_Data e)) ∧
  (rcv_closedForShutdown s', rcv_canceledRead s', rcv_resetRemotely s', rcv_readChan s', rcv_deadline s', rcv_finalOffset s',
   rcv_flowController s', rcv_closeForShutdownErr s', rcv_finRead s')
  = (rcv_closedForShutdown s, rcv_canceledRead s, rcv_resetRemotely s, rcv_readChan s, rcv_deadline s, rcv_finalOffset s,
     rcv_flowController s, rcv_closeForShutdownErr s, rcv_finRead s).
Proof.
  intros [Hs (F1 & F2 & F3 & F4 & F5) Hd Hl Hf Hp Hc Hr Hla Hfi] Hdone.
  unfold dequeueNextFrame.
  destruct (Pop_inv S (rcv_frameQueue s) Hs) as (q & d & cb & E & Hq & Hrp & Hcar & Hg). rewrite E.
  assert (Ed : len_opt (if Pop_isNil (rcv_frameQueue s) then None else Some d) = len d ∧
               default [] (if Pop_isNil (rcv_frameQueue s) then None else Some d) = d).
  { unfold Pop_isNil, Pop in *. destruct (queue (rcv_frameQueue s) !! _); [done|]. by injection E as _ <- _. }
  destruct Ed as [Ed1 Ed2]. intros [= <- <-].
  assert (Hle : readPos (rcv_frameQueue s) + len d <= highestReceived (sfc (rcv_flowController s))).
  { pose proof (len_nonneg d). destruct (decide (len d = 0)) as [->|]; [lia|].
    destruct (Z.le_gt_cases (readPos (rcv_frameQueue s) + len d) (highestReceived (sfc (rcv_flowController s)))) as [|Hgt]; [done|exfalso].
    unfold Pop in E. destruct (queue (rcv_frameQueue s) !! readPos (rcv_frameQueue s)) as [e|] eqn:Eq; [|by injection E as _ <- _].
    injection E as _ <- _. destruct (si_entry _ _ Hs _ _ Eq) as (_ & H2 & _ & Hx).
    apply (Hx (readPos (rcv_frameQueue s) + len (e_Data e) - 1)); [lia|]. apply F3. lia. }
  assert (HM : 0 <= readPos (rcv_frameQueue s) + len d < 2 ^ 64)
    by (pose proof (si_read _ _ Hs); pose proof (len_nonneg d); unfold MaxByteCount in *; lia).
  split_and!; try done; cbn.
  - split; cbn; rewrite ?Ed1, ?Ed2; try done; try lia.
    + split_and!; cbn; try done; [by rewrite Hg|]. lia.
    + pose proof (len_nonneg d). lia.
    + rewrite Hrp. by replace (readPos (rcv_frameQueue s) + len d - len d) with (readPos (rcv_frameQueue s)) by lia.
    + intros El. apply Z.leb_le in El. rewrite u64_small in El by lia. lia.
  - unfold Pop_isNil, Pop in *. destruct (queue (rcv_frameQueue s) !! readPos (rcv_frameQueue s)) eqn:Eq; [done|].
    injection E as <- _ _. by intros _.
  - rewrite Ed1, u64_small by lia. intros El. apply Z.leb_gt in El. lia.
  - intros e Ee. unfold Pop_isNil, Pop in *. rewrite Ee in *. by injection E as _ <- _.
Qed.

(** * The steps of [Read] *)

Lemma core_ext S s s' dl pend : rcv_core S s dl pend →
  (rcv_frameQueue s', rcv_readOffset s', rcv_finalOffset s', rcv_currentFrame s', rcv_currentFrameIsLast s', rcv_readPosInFrame s',
   rcv_finRead s', rcv_flowController s')
  = (rcv_frameQueue s, rcv_readOffset s, rcv_finalOffset s, rcv_currentFrame s, rcv_currentFrameIsLast s, rcv_readPosInFrame s,
     rcv_finRead s, rcv_flowController s) →
  (rcv_resetRemotely s' = false → rcv_resetRemotely s = false) → rcv_core S s' dl pend.
Proof.
  intros [Hs Hf Hd Hl Hfr Hp Hc Hr Hla Hfi] E Hre. injection E as E1 E2 E3 E4 E5 E6 E7 E8.
  split; rewrite ?E1, ?E2, ?E3, ?E4, ?E5, ?E6, ?E7, ?E8; try done; [|naive_solver].
  unfold rcv_fc_ok in *. by rewrite E1, E3, E8.
Qed.

(** A copy of [m] bytes of the current frame. *)
Lemma copy_core S s dl k : rcv_core S s dl 0 →
  let rest := drop (Z.to_nat (rcv_readPosInFrame s)) (default [] (rcv_currentFrame s)) in
  rcv_finRead s = false → (k <= length rest)%nat →
  rcv_core S (rcv_set_pos s (rcv_readPosInFrame s + Z.of_nat k) (u64 (rcv_readOffset s + Z.of_nat k)))
    (dl ++ take k rest) (Z.of_nat k).
Proof.
  intros [Hs Hf Hd Hl Hfr Hp Hc [_ Hr] Hla Hfi] rest Hfr0 Hk.
  assert (Hlr : length rest = Z.to_nat (len_opt (rcv_currentFrame s) - rcv_readPosInFrame s)).
  { pose proof (len_opt_default (rcv_currentFrame s)) as Hlo. unfold len in Hlo. unfold rest. rewrite length_drop. lia. }
  assert (Hlt : len (take k rest) = Z.of_nat k) by (unfold len; rewrite length_take; lia).
  pose proof (si_read _ _ Hs) as Hrp. pose proof (len_nonneg dl).
  assert (Hu : u64 (rcv_readOffset s + Z.of_nat k) = rcv_readOffset s + Z.of_nat k)
    by (apply u64_small; unfold MaxByteCount in *; lia).
  split; cbn; rewrite ?Hu; try done; try lia.
  - apply carries_app; [done|]. rewrite Hl. intros i b Hi. apply lookup_take_Some in Hi as [Hi _].
    unfold rest in Hi. rewrite lookup_drop in Hi. apply Hc in Hi. rewrite Hi. f_equal. lia.
  - rewrite len_app, Hlt. lia.
  - split; [lia|]. intros E. specialize (Hr E). lia.
  - intros E. congruence.
Qed.

Lemma Read_inner_ok S y s conn ev plen buf now : rcv_core S s (ry_read y ++ buf) 0 →
  rcv_finRead s = false → len buf < plen →
  (rcv_currentFrame s = None → buf = [] ∧ queue (rcv_frameQueue s) !! readPos (rcv_frameQueue s) = None ∧
     (rcv_currentFrameIsLast s = false → readPos (rcv_frameQueue s) < rcv_finalOffset s)) →
  let '(s', r) := Read_inner s plen buf now in rcv_inv S (after_read y conn s' ev r now).
Proof.
  intros Hcore Hfin Hlen Hnil. unfold Read_inner.
  assert (Hret : ∀ e, rcv_inv S (after_read y conn s ev (RReturn false buf e) now)).
  { intros e. cbn. split; [|done]. unfold delivered. cbn. by rewrite app_nil_r. }
  destruct (rcv_closedForShutdown s) eqn:E1; [apply Hret|]. destruct (rcv_canceledRead s) eqn:E2; [apply Hret|].
  destruct (rcv_resetRemotely s) eqn:E3; [apply Hret|]. destruct (negb _ && negb _); [apply Hret|].
  destruct (is_nil (rcv_currentFrame s) && negb (rcv_currentFrameIsLast s)) eqn:Ew.
  { apply andb_true_iff in Ew as [En El]. apply negb_true_iff in El. destruct (rcv_currentFrame s) eqn:Ec; [done|].
    destruct (Hnil eq_refl) as (-> & Hq & Hla). rewrite len_nil in Hlen. cbn. split; [done|].
    cbn. split_and!; try done. unfold ready, rcv_stopped. cbn. rewrite E1, E2, E3. specialize (Hla El).
    intros [H|[H|H]]; [done|done|lia]. }
  destruct (Z.ltb_spec plen (len buf)); [lia|]. pose proof (rc_frame _ _ _ _ Hcore) as Hfr.
  destruct (Z.ltb_spec (len_opt (rcv_currentFrame s)) (rcv_readPosInFrame s)); [lia|].
  set (rest := drop _ _). set (k := Nat.min (Z.to_nat (plen - len buf)) (length rest)).
  assert (Etk : take (Z.to_nat (plen - len buf)) rest = take k rest).
  { unfold k. destruct (Nat.min_spec (Z.to_nat (plen - len buf)) (length rest)) as [[? ->]|[? ->]]; [done|].
    rewrite !take_ge by lia. done. }
  rewrite Etk. assert (Ek : len (take k rest) = Z.of_nat k) by (unfold len; rewrite length_take; lia).
  rewrite Ek. cbn. split.
  - unfold delivered. cbn. rewrite app_assoc. apply copy_core; [done|done|]. unfold k, rest. lia.
  - cbn. rewrite len_app, Ek. unfold k. split; [done|lia].
Qed.

Lemma Read_outer_ok S y s conn ev plen buf now : rcv_core S s (ry_read y ++ buf) 0 → rcv_finRead s = false →
  let '(s', ev', r) := Read_outer s plen buf now in rcv_inv S (after_read y conn s' (ev ++ ev') r now).
Proof.
  intros Hcore Hfin. unfold Read_outer. destruct (Z.ltb_spec (len buf) plen) as [Hlt|]; cbn [negb].
  2: { cbn. split; [|done]. unfold delivered. cbn. by rewrite app_nil_r. }
  assert (Hgo : ∀ s1 ev1, rcv_core S s1 (ry_read y ++ buf) 0 → rcv_finRead s1 = false →
    (rcv_currentFrame s1 = None → queue (rcv_frameQueue s1) !! readPos (rcv_frameQueue s1) = None ∧
     (rcv_currentFrameIsLast s1 = false → readPos (rcv_frameQueue s1) < rcv_finalOffset s1)) →
    let '(s', ev', r) := if is_nil (rcv_currentFrame s1) && (0 <? len buf) then (s1, ev1, RReturn false buf (rcv_closeForShutdownErr s1))
      else let '(s, r) := Read_inner s1 plen buf now in (s, ev1, r) in
    rcv_inv S (after_read y conn s' (ev ++ ev') r now)).
  { intros s1 ev1 Hc1 Hf1 Hn1. destruct (is_nil (rcv_currentFrame s1) && (0 <? len buf)) eqn:En.
    - cbn. split; [|done]. unfold delivered. cbn. by rewrite app_nil_r.
    - pose proof (Read_inner_ok S y s1 conn (ev ++ ev1) plen buf now Hc1 Hf1 Hlt) as Hi.
      destruct (Read_inner s1 plen buf now) as [s2 r]. apply Hi. intros E. rewrite E in En. cbn in En. apply Z.ltb_ge in En.
      split; [|by apply Hn1]. destruct buf; [done|]. rewrite len_cons in En. pose proof (len_nonneg buf). lia. }
  destruct (is_nil (rcv_currentFrame s) || (len_opt (rcv_currentFrame s) <=? rcv_readPosInFrame s)) eqn:Ed.
  - destruct (dequeueNextFrame s) as [s1 ev1] eqn:Eq.
    assert (len_opt (rcv_currentFrame s) <= rcv_readPosInFrame s) as Hle.
    { apply orb_true_iff in Ed as [Ed|Ed]; [|by apply Z.leb_le]. pose proof (rc_frame _ _ _ _ Hcore).
      destruct (rcv_currentFrame s); [done|]. cbn in *. lia. }
    destruct (dequeue_core S s _ _ s1 ev1 Hcore Hle Eq) as (Hc1 & _ & H1 & H2 & _ & E). injection E as _ _ _ _ _ _ _ _ Ef.
    apply Hgo; [done|congruence|]. intros Ec. split; [by apply H1|done].
  - apply orb_false_iff in Ed as [Ed _]. apply Hgo; [done|done|]. intros Ec. by rewrite Ec in Ed.
Qed.

Lemma step_read_ok S y plen now s ev r : rcv_inv S y → ry_call y = None →
  Read (ry_s y) plen now = (s, ev, r) → rcv_inv S (after_read y (ry_conn y) s ev r now).
Proof.
  intros [Hcore _] Ec. unfold delivered in Hcore. rewrite Ec in Hcore. cbn in Hcore.
  assert (Hret : ∀ e, rcv_inv S (after_read y (ry_conn y) (ry_s y) [] (RReturn false [] e) now)).
  { intros e. cbn. split; [|done]. unfold delivered. cbn. by rewrite !app_nil_r in *. }
  unfold Read. destruct (rcv_finRead (ry_s y)) eqn:Ef; [by intros [= <- <- <-]|].
  destruct (rcv_canceledRead (ry_s y)); [by intros [= <- <- <-]|].
  destruct (rcv_resetRemotely (ry_s y)); [by intros [= <- <- <-]|].
  destruct (rcv_closedForShutdown (ry_s y)); [by intros [= <- <- <-]|].
  intros E. pose proof (Read_outer_ok S y (ry_s y) (ry_conn y) [] plen [] now Hcore Ef) as Ho. by rewrite E in Ho.
Qed.
Lemma step_wake_ok S y c timer now s ev r : rcv_inv S y → ry_call y = Some c →
  Read_wake (ry_s y) c timer now = Some (s, ev, r) → rcv_inv S (after_read y (ry_conn y) s ev r now).
Proof.
  intros [Hcore Hcall] Ec. unfold delivered in Hcore. unfold rcv_call_ok in Hcall. rewrite Ec in Hcore, Hcall.
  destruct c as [plen buf [dl|m]]; cbn [call_buf pending rd_buf] in Hcore; [|done].
  destruct Hcall as (Hf & -> & Hp & Hcur & Hla & _).
  unfold Read_wake. cbn [rd_point rd_len rd_buf].
  assert (Hgo : ∀ s0 res, rcv_core S s0 (ry_read y ++ []) 0 → rcv_finRead s0 = false → rcv_currentFrame s0 = None →
    Some (let '(s, ev) := if is_nil (rcv_currentFrame s0) then dequeueNextFrame s0 else (s0, []) in
          let '(s, r) := Read_inner s plen [] now in (s, ev, r)) = Some res →
    rcv_inv S (after_read y (ry_conn y) res.1.1 res.1.2 res.2 now)).
  { intros s0 res Hc0 Hf0 Hcur0. rewrite Hcur0. cbn [is_nil]. destruct (dequeueNextFrame s0) as [s1 ev1] eqn:Eq.
    assert (len_opt (rcv_currentFrame s0) <= rcv_readPosInFrame s0) as Hle
      by (pose proof (rc_frame _ _ _ _ Hc0); rewrite Hcur0 in *; cbn in *; lia).
    destruct (dequeue_core S s0 _ _ s1 ev1 Hc0 Hle Eq) as (Hc1 & _ & H1 & H2 & _ & E). injection E as _ _ _ _ _ _ _ _ Ef.
    pose proof (Read_inner_ok S y s1 (ry_conn y) ev1 plen [] now Hc1 ltac:(congruence) ltac:(by cbn)) as Hi.
    destruct (Read_inner s1 plen [] now) as [s2 r2]. intros [= <-]. apply Hi. intros E. split; [done|]. split; [by apply H1|done]. }
  destruct timer.
  - destruct (_ && _); [|done]. intros E. by apply (Hgo (ry_s y) (s, ev, r)).
  - destruct (rcv_readChan (ry_s y)); [|done]. intros E. apply (Hgo (rcv_set_chan (ry_s y) false) (s, ev, r)); [|done..].
    eapply core_ext; [exact Hcore|done..].
Qed.

(** Reporting the copied bytes. *)
Lemma report_core S s conn dl m now fc conn' ev : rcv_core S s dl m → rcv_resetRemotely s = false → rcv_finRead s = false →
  AddBytesRead (rcv_flowController s) conn now m = (fc, conn', ev) → rcv_core S (rcv_set_fc s fc) dl 0.
Proof.
  intros [Hs (F1 & F2 & F3 & F4 & F5) Hd Hl Hfr Hp Hc [Hm Hr] Hla Hfi] Hre Hfin E. specialize (Hr Hre).
  unfold AddBytesRead in E. destruct (conn_AddBytesRead conn now m) as [c1 ev1]. injection E as <- <- <-.
  pose proof (base_AddBytesRead_spec (sfc (rcv_flowController s)) now m F1 ltac:(lia)) as (B1 & B2 & B3 & _).
  split; cbn [rcv_set_fc rcv_frameQueue rcv_readOffset rcv_finalOffset rcv_currentFrame rcv_currentFrameIsLast
    rcv_readPosInFrame rcv_finRead rcv_flowController rcv_resetRemotely]; try done.
  - unfold rcv_fc_ok. cbn [rcv_set_fc rcv_frameQueue rcv_finalOffset rcv_flowController set_sfc sfc receivedFinalOffset]. by rewrite B3.
  - split; [done|]. intros _. cbn [set_sfc sfc]. rewrite B2. lia.
Qed.
Lemma step_copied_ok S y c now s conn ev r : rcv_inv S y → ry_call y = Some c →
  Read_copied (ry_s y) (ry_conn y) c now = Some (s, conn, ev, r) → rcv_inv S (after_read y conn s ev r now).
Proof.
  intros [Hcore Hcall] Ec. unfold delivered in Hcore. unfold rcv_call_ok in Hcall. rewrite Ec in Hcore, Hcall.
  destruct c as [plen buf [dl|m]]; cbn [call_buf pending rd_buf] in Hcore; [done|]. destruct Hcall as [Hf Hlen].
  unfold Read_copied. cbn [rd_point rd_len rd_buf].
  assert (Hgo : ∀ s0 conn0 ev0, rcv_core S s0 (ry_read y ++ buf) 0 → rcv_finRead s0 = false →
    (if (len_opt (rcv_currentFrame s0) <=? rcv_readPosInFrame s0) && rcv_currentFrameIsLast s0 then
        Some (rcv_set_finRead s0, conn0, ev0, RReturn true buf (Some EOF))
      else let '(s, ev', r) := Read_outer s0 plen buf now in Some (s, conn0, ev0 ++ ev', r)) = Some (s, conn, ev, r) →
    rcv_inv S (after_read y conn s ev r now)).
  { intros s0 conn0 ev0 Hc0 Hf0. destruct (_ && _) eqn:El.
    - intros [= <- <- <- <-]. apply andb_true_iff in El as [E1 E2]. apply Z.leb_le in E1. cbn. split; [|done].
      unfold delivered. cbn. rewrite app_nil_r. pose proof Hc0 as [Hs (F1 & F2 & F3 & F4 & F5) Hd Hl Hfr Hp Hc Hr Hla Hfi].
      split; try done. cbn. intros _. specialize (Hla E2). rewrite F5 in *.
      destruct (receivedFinalOffset (rcv_flowController s0)); [split; [lia|done]|]. lia.
    - pose proof (Read_outer_ok S y s0 conn0 ev0 plen buf now Hc0 Hf0) as Ho.
      destruct (Read_outer s0 plen buf now) as [[s1 ev1] r1]. by intros [= <- <- <- <-]. }
  destruct (rcv_resetRemotely (ry_s y)) eqn:Ere.
  - apply Hgo; [|done]. destruct Hcore as [Hs Hfc Hd Hl Hfr Hp Hc [Hm Hr] Hla Hfi]. split; try done. split; [done|]. congruence.
  - destruct (AddBytesRead _ _ _ _) as [[fc conn1] ev1] eqn:Ea. apply Hgo; [|done]. by eapply report_core.
Qed.

(** * The other operations *)

Lemma with_rs_ok S y s conn ev : rcv_inv S y → rcv_core S s (delivered y) (pending (ry_call y)) →
  rcv_currentFrame s = rcv_currentFrame (ry_s y) → rcv_currentFrameIsLast s = rcv_currentFrameIsLast (ry_s y) →
  rcv_finRead s = rcv_finRead (ry_s y) →
  (rcv_readChan s = true ∨ rcv_readChan s = rcv_readChan (ry_s y) ∧ (ready s → ready (ry_s y))) →
  rcv_inv S (with_rs y s conn ev).
Proof.
  intros [_ Hcall] Hcore E1 E2 E3 Hch. split; [exact Hcore|]. unfold rcv_call_ok in *. cbn.
  destruct (ry_call y) as [[plen buf [dl|m]]|]; [|by rewrite E3|done]. rewrite E1, E2, E3.
  destruct Hcall as (? & ? & ? & ? & ? & Hr). split_and!; try done. intros Hre.
  destruct Hch as [?|[-> Hch]]; [done|]. auto.
Qed.

(** An accepted offset: the data behind it is still missing. *)
Lemma accept_core S s conn dl pend off fin fc conn' : rcv_core S s dl pend → 0 <= off < MaxByteCount →
  UpdateHighestReceived (rcv_flowController s) conn off fin = (fc, conn', None) →
  rcv_core S (if fin then rcv_set_final (rcv_set_fc s fc) off else rcv_set_fc s fc) dl pend ∧
  off <= highestReceived (sfc fc).
Proof.
  intros [Hs (F1 & F2 & F3 & F4 & F5) Hd Hl Hfr Hp Hc Hr Hla Hfi] Ho E.
  destruct (UpdateHighestReceived_accepts _ _ _ _ _ _ F1 Ho F2 E) as (B1 & B2 & B3 & B4 & B5 & B6).
  split; [|lia].
  assert (Hfin : rcv_finalOffset (if fin then rcv_set_final (rcv_set_fc s fc) off else rcv_set_fc s fc)
    = if receivedFinalOffset fc then highestReceived (sfc fc) else MaxByteCount).
  { rewrite B4. destruct fin; cbn; [by rewrite orb_true_r, B6|]. rewrite orb_false_r, F5.
    destruct (receivedFinalOffset (rcv_flowController s)); [by rewrite B5|done]. }
  assert (Hsame : receivedFinalOffset (rcv_flowController s) = true →
    (if receivedFinalOffset fc then highestReceived (sfc fc) else MaxByteCount) = rcv_finalOffset s).
  { intros Et. rewrite B4, F5, Et. cbn. by apply B5. }
  assert (Hknown : rcv_finalOffset s <= readPos (rcv_frameQueue s) → receivedFinalOffset (rcv_flowController s) = true).
  { rewrite F5. destruct (receivedFinalOffset (rcv_flowController s)); [done|]. lia. }
  set (s' := if fin then _ else _) in *.
  assert (E' : (rcv_frameQueue s', rcv_readOffset s', rcv_currentFrame s', rcv_currentFrameIsLast s', rcv_readPosInFrame s',
     rcv_finRead s', rcv_flowController s', rcv_resetRemotely s')
   = (rcv_frameQueue s, rcv_readOffset s, rcv_currentFrame s, rcv_currentFrameIsLast s, rcv_readPosInFrame s,
     rcv_finRead s, fc, rcv_resetRemotely s)) by (unfold s'; by destruct fin).
  clearbody s'. injection E' as E1 E2 E3 E4 E5 E6 E7 E8.
  split; rewrite ?E1, ?E2, ?E3, ?E4, ?E5, ?E6, ?E7, ?E8, ?Hfin, ?B3; try done.
  - unfold rcv_fc_ok. rewrite E1, E7. split_and!; try done; try lia. intros x Hx. apply F3. lia.
  - intros El. specialize (Hla El). rewrite Hsame by auto. done.
  - intros Ef. destruct (Hfi Ef) as [H1 H2]. rewrite Hsame by done. rewrite B4, H2. done.
Qed.

Lemma push_core S s dl pend data off cb q calls : rcv_core S s dl pend →
  0 <= off → off + len data < MaxByteCount → carries S off data →
  off + len data <= highestReceived (sfc (rcv_flowController s)) →
  Push (rcv_frameQueue s) data off cb = (q, calls, None) → rcv_core S (rcv_set_queue s q) dl pend.
Proof.
  intros [Hs (F1 & F2 & F3 & F4 & F5) Hd Hl Hfr Hp Hc Hr Hla Hfi] Ho Hm Hcar Hle E.
  destruct (Push_inv S (rcv_frameQueue s) data off cb Hs (conj Ho (conj Hm Hcar))) as (q' & calls' & err & E' & Hq & Hrp & _ & Hg).
  rewrite E in E'. injection E' as <- <- <-.
  split; cbn; rewrite ?Hrp; try done. split_and!; cbn; rewrite ?Hrp; try done.
  intros x Hx. apply Hg. split; [by apply F3|]. lia.
Qed.

Lemma step_frame_ok S y f cb now s conn ev : rcv_inv S y → frame_of S f →
  handleStreamFrame (ry_s y) (ry_conn y) f cb now = (s, conn, ev, None) → rcv_inv S (with_rs y s conn ev).
Proof.
  intros Hinv (Ho & Hm & Hcar). pose proof Hinv as [Hcore _]. unfold handleStreamFrame, handleStreamFrameImpl.
  unfold DataLen in *. pose proof (len_nonneg (Data f)).
  rewrite (u64_small (Offset f + len (Data f))) by (unfold MaxByteCount in *; lia).
  destruct (UpdateHighestReceived _ _ _ _) as [[fc conn1] [e|]] eqn:Eu; [by destruct (complete _ _ _ _)|].
  destruct (accept_core S (ry_s y) (ry_conn y) _ _ (Offset f + len (Data f)) (FinBit f) fc conn1 Hcore ltac:(lia) Eu) as [Hc1 Hle]. cbv zeta.
  set (s1 := if FinBit f then _ else _) in *.
  assert (Hs1 : rcv_currentFrame s1 = rcv_currentFrame (ry_s y) ∧ rcv_currentFrameIsLast s1 = rcv_currentFrameIsLast (ry_s y) ∧
    rcv_finRead s1 = rcv_finRead (ry_s y) ∧ rcv_flowController s1 = fc ∧ rcv_readChan s1 = rcv_readChan (ry_s y) ∧
    rcv_frameQueue s1 = rcv_frameQueue (ry_s y) ∧ rcv_stopped s1 = rcv_stopped (ry_s y) ∧
    rcv_canceledRead s1 = rcv_canceledRead (ry_s y)).
  { unfold s1. by destruct (FinBit f). }
  clearbody s1. destruct Hs1 as (E1 & E2 & E3 & E4 & E5 & E6 & E7 & E8).
  destruct (rcv_canceledRead s1) eqn:Ecan.
  - destruct (complete _ _ _ _) as [conn2 ev2]. intros [= <- <- <-].
    apply with_rs_ok; try done. right. split; [done|]. intros _. left. unfold rcv_stopped. rewrite <- E8. by rewrite orb_true_r.
  - destruct (Push _ _ _ _) as [[q calls] [e|]] eqn:Ep; [by destruct (complete _ _ _ _)|].
    cbn [complete]. intros [= <- <- <-]. apply with_rs_ok; try done; [|by left].
    pose proof (push_core S s1 _ _ (Data f) (Offset f) (Some cb) q calls Hc1 Ho Hm Hcar ltac:(by rewrite E4) Ep) as Hc2.
    eapply core_ext; [exact Hc2|done..].
Qed.

Lemma step_reset_ok S y f now s conn ev : rcv_inv S y → 0 <= rs_ByteOffset f < MaxByteCount →
  handleResetStreamFrame (ry_s y) (ry_conn y) f now = (s, conn, ev, None) → rcv_inv S (with_rs y s conn ev).
Proof.
  intros Hinv Ho. pose proof Hinv as [Hcore _]. unfold handleResetStreamFrame, handleResetStreamFrameImpl.
  destruct (rcv_closedForShutdown (ry_s y)).
  { cbn. intros [= <- <- <-]. apply with_rs_ok; try done. by right. }
  destruct (UpdateHighestReceived _ _ _ _) as [[fc conn1] [e|]] eqn:Eu; [by destruct (complete _ _ _ _)|].
  destruct (accept_core S (ry_s y) _ _ _ _ _ _ _ Hcore Ho Eu) as [Hc1 Hle]. cbn [rcv_set_final rcv_resetRemotely rcv_set_fc].
  destruct (rcv_resetRemotely (ry_s y)) eqn:Er.
  - cbn [complete]. intros [= <- <- <-]. apply with_rs_ok; try done. right. split; [done|]. intros _. left.
    unfold rcv_stopped. by rewrite Er, orb_true_r.
  - destruct (complete _ _ _ _) as [conn2 ev2]. intros [= <- <- <-]. apply with_rs_ok; try done; [|by left].
    eapply core_ext; [exact Hc1|done|done].
Qed.

Lemma step_cancel_read_ok S y code now s conn ev : rcv_inv S y →
  CancelRead (ry_s y) (ry_conn y) code now = (s, conn, ev) → rcv_inv S (with_rs y s conn ev).
Proof.
  intros Hinv. pose proof Hinv as [Hcore _]. unfold CancelRead, cancelReadImpl. destruct (_ || _ || _).
  - cbn. intros [= <- <- <-]. apply with_rs_ok; try done. by right.
  - destruct (complete _ _ _ _) as [conn1 ev1]. intros [= <- <- <-]. apply with_rs_ok; try done; [|by left].
    by eapply core_ext.
Qed.

Lemma window_core S s conn dl pend rtt now s' conn' off : rcv_core S s dl pend →
  rcv_getWindowUpdate s conn rtt now = (s', conn', off) → rcv_core S s' dl pend.
Proof.
  intros [Hs (F1 & F2 & F3 & F4 & F5) Hd Hl Hfr Hp Hc Hr Hla Hfi]. unfold rcv_getWindowUpdate, GetWindowUpdate.
  destruct (receivedFinalOffset (rcv_flowController s)) eqn:Er.
  { intros [= <- <- <-]. split; cbn; rewrite ?Er; try done. unfold rcv_fc_ok. cbn. by rewrite Er. }
  pose proof (getWindowUpdate_spec (sfc (rcv_flowController s)) rtt now F1 ltac:(fc_unfold; lia)) as Hg.
  destruct (getWindowUpdate _ _ _) as [b o]. destruct Hg as (B1 & B2 & B3 & _). intros [= <- <- <-].
  split; cbn; rewrite ?B2, ?Er; try done. unfold rcv_fc_ok. cbn. by rewrite Er, B3.
Qed.

Lemma rcv_step_inv S y y' : rcv_inv S y → rcv_step S y y' → rcv_inv S y'.
Proof.
  intros Hinv Hst. destruct Hst as [y plen now s ev r Ec Hp E|y c timer now s ev r Ec E|y c now s conn ev r Ec E
    |y code now s conn ev E|y f cb now s conn ev Hf E|y f now s conn ev Hf E|y t|y e|y rtt now s conn off E|y conn].
  - by eapply step_read_ok.
  - by eapply step_wake_ok.
  - by eapply step_copied_ok.
  - by eapply step_cancel_read_ok.
  - by eapply step_frame_ok.
  - by eapply step_reset_ok.
  - apply with_rs_ok; try done; [|by left]. eapply core_ext; [apply Hinv|done..].
  - apply with_rs_ok; try done; [|by left]. eapply core_ext; [apply Hinv|done..].
  - assert (Hs : s = rcv_set_fc (ry_s y) (rcv_flowController s)).
    { unfold rcv_getWindowUpdate in E. destruct (GetWindowUpdate _ _ _ _) as [[fc c1] o]. by injection E as <- <- <-. }
    apply with_rs_ok; [done|by eapply window_core; [apply Hinv|]|by rewrite Hs..|]. right. rewrite Hs. done.
  - apply with_rs_ok; try done; [apply Hinv|]. by right.
Qed.
Lemma rcv_init_inv S id rw maxRw conn : 0 <= rw <= maxRw → maxRw <= max_window → rcv_inv S (rcv_init id rw maxRw conn).
Proof.
  intros Hrw Hmx. split; [|done]. split; cbn; try done.
  split_and!; cbn; try done; [fc_unfold; lia|]. intros x Hx. constructor. unfold in_gap. cbn. done.
Qed.
Lemma rcv_reach_inv S id rw maxRw conn y : 0 <= rw <= maxRw → maxRw <= max_window →
  rtc (rcv_step S) (rcv_init id rw maxRw conn) y → rcv_inv S y.
Proof.
  intros H1 H2 Hr. pose proof (rcv_init_inv S id rw maxRw conn H1 H2) as Hi.
  induction Hr as [|x y z Hxy _ IH]; [done|]. eauto using rcv_step_inv.
Qed.

(** * What the stream promises *)

(** A stream of identity bytes: three bytes out of order, one read of two bytes
    that waits and is woken. *)
Definition id_frame (off : Z) (n : nat) (fin : bool) : StreamFrame :=
  mkStreamFrame 4 off ((λ i, off + Z.of_nat i) <$> seq 0 n) fin true true.
Definition do_frame (y : rcv_sys) (f : StreamFrame) (cb : nat) : rcv_sys :=
  let '(s, conn, ev, _) := handleStreamFrame (ry_s y) (ry_conn y) f cb 5 in with_rs y s conn ev.
Definition do_read (y : rcv_sys) (plen : Z) : rcv_sys :=
  let '(s, ev, r) := Read (ry_s y) plen 5 in after_read y (ry_conn y) s ev r 5.
Definition do_wake (y : rcv_sys) : rcv_sys :=
  match ry_call y with
  | Some c => match Read_wake (ry_s y) c false 5 with Some (s, ev, r) => after_read y (ry_conn y) s ev r 5 | None => y end
  | None => y
  end.
Definition do_copied (y : rcv_sys) : rcv_sys :=
  match ry_call y with
  | Some c => match Read_copied (ry_s y) (ry_conn y) c 5 with Some (s, conn, ev, r) => after_read y conn s ev r 5 | None => y end
  | None => y
  end.
Definition rcv_start : rcv_sys := rcv_init 4 1000 1000 (mkBase 0 0 0 0 0 5000 5000 5000 0 0).
Definition rcv_waiting : rcv_sys := do_frame (do_frame (do_read rcv_start 2) (id_frame 2 1 true) 1) (id_frame 0 2 false) 2.
Definition rcv_sample : rcv_sys := do_copied (do_read (do_copied (do_wake rcv_waiting)) 8).

Lemma do_frame_step S y f cb : frame_of S f → snd (handleStreamFrame (ry_s y) (ry_conn y) f cb 5) = None →
  rcv_step S y (do_frame y f cb).
Proof.
  intros Hf. unfold do_frame. destruct (handleStreamFrame _ _ _ _ _) as [[[s conn] ev] err] eqn:E. cbn. intros ->.
  by eapply rstep_frame.
Qed.
Lemma do_read_step S y plen : ry_call y = None → 0 <= plen → rcv_step S y (do_read y plen).
Proof. intros Hc Hp. unfold do_read. destruct (Read _ _ _) as [[s ev] r] eqn:E. by eapply rstep_read. Qed.
Lemma do_wake_step S y c : ry_call y = Some c → is_Some (Read_wake (ry_s y) c false 5) → rcv_step S y (do_wake y).
Proof.
  intros Hc [[[s ev] r] E]. unfold do_wake. rewrite Hc, E. by eapply rstep_wake.
Qed.
Lemma do_copied_step S y c : ry_call y = Some c → is_Some (Read_copied (ry_s y) (ry_conn y) c 5) → rcv_step S y (do_copied y).
Proof.
  intros Hc [[[[s conn] ev] r] E]. unfold do_copied. rewrite Hc, E. by eapply rstep_copied.
Qed.
Lemma id_frame_of off n fin : 0 <= off → off + Z.of_nat n < MaxByteCount → frame_of (λ x, x) (id_frame off n fin).
Proof.
  intros Ho Hm. unfold frame_of, id_frame, DataLen. cbn. split_and!; [done| |].
  - unfold len. rewrite length_fmap, length_seq. lia.
  - intros i b Hi. rewrite list_lookup_fmap in Hi. apply fmap_Some in Hi as (j & Hj & ->).
    apply lookup_seq in Hj as [-> _]. done.
Qed.
Lemma rcv_waiting_reach : rtc (rcv_step (λ x, x)) rcv_start rcv_waiting.
Proof.
  eapply rtc_l; [apply (do_read_step _ _ 2); done|].
  eapply rtc_l; [apply (do_frame_step _ _ (id_frame 2 1 true) 1); [by apply id_frame_of|vm_compute; reflexivity]|].
  apply rtc_once. apply do_frame_step; [by apply id_frame_of|vm_compute; reflexivity].
Qed.
Lemma rcv_sample_reach : rtc (rcv_step (λ x, x)) rcv_start rcv_sample.
Proof.
  etrans; [apply rcv_waiting_reach|].
  eapply rtc_l; [eapply do_wake_step; [vm_compute; reflexivity|vm_compute; eauto]|].
  eapply rtc_l; [eapply do_copied_step; [vm_compute; reflexivity|vm_compute; eauto]|].
  eapply rtc_l; [apply (do_read_step _ _ 8); [vm_compute; reflexivity|done]|].
  apply rtc_once. eapply do_copied_step; [vm_compute; reflexivity|vm_compute; eauto].
Qed.

(** C24: in every state a stream can reach, by any interleaving of the peer's
    frames (in any order, duplicated, overlapping) with the steps of [Read],
    cancellation, resets, deadlines and window updates, what was delivered to the
    application is a prefix of the stream's data, never beyond what was
    received; the position in the current frame is in range; and once EOF was
    returned exactly the bytes up to the final offset have been delivered. *)
Theorem receive_stream_delivers S id rw maxRw conn y :
  0 <= rw <= maxRw → maxRw <= max_window → rtc (rcv_step S) (rcv_init id rw maxRw conn) y →
  carries S 0 (delivered y) ∧ len (delivered y) <= highestReceived (sfc (rcv_flowController (ry_s y))) ∧
  0 <= rcv_readPosInFrame (ry_s y) <= len_opt (rcv_currentFrame (ry_s y)) ∧
  (rcv_finRead (ry_s y) = true → len (delivered y) = rcv_finalOffset (ry_s y) ∧
     rcv_finalOffset (ry_s y) = highestReceived (sfc (rcv_flowController (ry_s y)))).
Proof.
  intros H1 H2 Hr. destruct (rcv_reach_inv S id rw maxRw conn y H1 H2 Hr) as [[Hs (F1 & F2 & F3 & F4 & F5) Hd Hl Hfr Hp _ _ _ Hfi] _].
  split_and!; try done; try lia. intros Ef. destruct (Hfi Ef) as [E1 E2]. rewrite E2 in F5. split; congruence.
Qed.
Lemma receive_stream_delivers_witness :
  delivered rcv_sample = [0; 1; 2] ∧ rcv_finRead (ry_s rcv_sample) = true ∧
  len (delivered rcv_sample) = rcv_finalOffset (ry_s rcv_sample).
Proof.
  assert (Ef : rcv_finRead (ry_s rcv_sample) = true) by (vm_compute; reflexivity).
  split; [vm_compute; reflexivity|]. split; [exact Ef|].
  exact (proj1 (proj2 (proj2 (proj2 (receive_stream_delivers (λ x, x) 4 1000 1000 (mkBase 0 0 0 0 0 5000 5000 5000 0 0) rcv_sample
    ltac:(lia) ltac:(unfold max_window; lia) rcv_sample_reach))) Ef)).
Defined.

(** No wake-up is lost: a waiting [Read] for which data has arrived at the
    read position, or the end of the stream was reached, or the stream was
    closed, cancelled or reset, can go on at once, and does not wait again: it
    returns an error, or copies, at least one byte if the frame at the read
    position has data. *)
Theorem receive_stream_wakes S id rw maxRw conn y plen buf dl now :
  0 <= rw <= maxRw → maxRw <= max_window → rtc (rcv_step S) (rcv_init id rw maxRw conn) y →
  ry_call y = Some (mkReadCall plen buf (RWait dl)) → ready (ry_s y) →
  ∃ s ev r, Read_wake (ry_s y) (mkReadCall plen buf (RWait dl)) false now = Some (s, ev, r) ∧
    match r with
    | RReturn completed data err => completed = false ∧ data = []
    | RYield (mkReadCall _ data pt) => ∃ m, pt = RCopied m ∧ m = len data ∧
        ∀ e, queue (rcv_frameQueue (ry_s y)) !! readPos (rcv_frameQueue (ry_s y)) = Some e → e_Data e ≠ [] → 0 < m
    end.
Proof.
  intros H1 H2 Hr Ec Hready. destruct (rcv_reach_inv S id rw maxRw conn y H1 H2 Hr) as [Hcore Hcall].
  unfold delivered in Hcore. unfold rcv_call_ok in Hcall. rewrite Ec in Hcore, Hcall. cbn [call_buf rd_buf pending] in Hcore.
  destruct Hcall as (Hf & -> & Hp & Hcur & Hla & Hch). unfold Read_wake. cbn [rd_point rd_len rd_buf]. rewrite (Hch Hready).
  cbn [rcv_set_chan rcv_currentFrame]. rewrite Hcur. cbn [is_nil].
  set (s0 := rcv_set_chan (ry_s y) false). destruct (dequeueNextFrame _) as [s1 ev1] eqn:Eq.
  assert (Hc0 : rcv_core S s0 (ry_read y ++ []) 0) by (eapply core_ext; [exact Hcore|done..]).
  destruct (dequeue_core S s0 _ _ s1 ev1 Hc0) as (Hc1 & Hpos & _ & H4 & H5 & E); [|done|].
  { pose proof (rc_frame _ _ _ _ Hc0). cbn in *. rewrite Hcur in *. cbn in *. lia. }
  injection E as E1 E2 E3 _ _ E6 _ _ _.
  destruct (Read_inner s1 plen [] now) as [s2 r] eqn:Ei. exists s2, ev1, r. split; [done|]. revert Ei. unfold Read_inner.
  destruct (rcv_closedForShutdown s1) eqn:C1; [by intros [= <- <-]|]. destruct (rcv_canceledRead s1) eqn:C2; [by intros [= <- <-]|].
  destruct (rcv_resetRemotely s1) eqn:C3; [by intros [= <- <-]|]. destruct (negb _ && negb _); [by intros [= <- <-]|].
  assert (is_nil (rcv_currentFrame s1) && negb (rcv_currentFrameIsLast s1) = false) as ->.
  { destruct Hready as [Hst|[Hq|Hfin]].
    - unfold rcv_stopped in Hst. cbn in *. rewrite <- E1, <- E2, <- E3 in Hst. done.
    - cbn in H5. destruct (queue _ !! _) as [e|] eqn:Eqq; [|done]. by rewrite (H5 e eq_refl).
    - apply andb_false_iff. destruct (rcv_currentFrameIsLast s1) eqn:El; [by right|]. exfalso. specialize (H4 eq_refl).
      pose proof (rc_len _ _ _ _ Hc1) as L1. pose proof (rc_pos _ _ _ _ Hc1) as P1. pose proof (rc_frame _ _ _ _ Hc1) as R1.
      pose proof (rc_len _ _ _ _ Hcore) as L0. pose proof (rc_pos _ _ _ _ Hcore) as P0. pose proof (rc_frame _ _ _ _ Hcore) as R0.
      rewrite Hcur in P0, R0. cbn [len_opt] in P0, R0. cbn in E6. lia. }
  change (len []) with 0. destruct (Z.ltb_spec plen 0); [lia|]. rewrite Hpos.
  destruct (Z.ltb_spec (len_opt (rcv_currentFrame s1)) 0); [destruct (rcv_currentFrame s1); cbn in *; [pose proof (len_nonneg l)|]; lia|].
  intros [= <- <-]. cbn [app]. eexists. split; [done|]. split; [done|]. intros e Ee Hne. cbn in H5. rewrite (H5 e Ee), Z.sub_0_r.
  unfold len. rewrite drop_0, length_take. cbn. destruct (e_Data e); [done|]. cbn. lia.
Qed.

Lemma receive_stream_wakes_witness :
  ∃ s ev r, Read_wake (ry_s rcv_waiting) (mkReadCall 2 [] (RWait 0)) false 9 = Some (s, ev, r) ∧
    match r with
    | RReturn completed data err => completed = false ∧ data = []
    | RYield (mkReadCall _ data pt) => ∃ m, pt = RCopied m ∧ m = len data ∧
        ∀ e, queue (rcv_frameQueue (ry_s rcv_waiting)) !! readPos (rcv_frameQueue (ry_s rcv_waiting)) = Some e →
          e_Data e ≠ [] → 0 < m
    end.
Proof.
  apply (receive_stream_wakes (λ x, x) 4 1000 1000 (mkBase 0 0 0 0 0 5000 5000 5000 0 0) rcv_waiting).
  - lia.
  - unfold max_window; lia.
  - exact rcv_waiting_reach.
  - vm_compute; reflexivity.
  - right. left. vm_compute. discriminate.
Defined.

(** Cancelling is not idempotent for the connection's flow control: on a
    stream that received ten bytes and was cancelled, each copy of the frame with
    the FIN reports completion again and gives up the same ten bytes again, so
    that the connection counts more bytes read than it received. *)
Theorem receive_stream_abandons_twice :
  let conn := mkBase 0 0 0 0 0 5000 5000 5000 0 0 in
  let y0 := do_frame (rcv_init 4 1000 1000 conn) (id_frame 0 10 false) 1 in
  let '(s1, c1, _) := CancelRead (ry_s y0) (ry_conn y0) 7 5 in
  let '(s2, c2, ev2, e2) := handleStreamFrame s1 c1 (id_frame 10 0 true) 2 6 in
  let '(s3, c3, ev3, e3) := handleStreamFrame s2 c2 (id_frame 10 0 true) 2 7 in
  e2 = None ∧ e3 = None ∧
  ev2 = [Sender (OnStreamCompleted 4)] ∧ ev3 = [Sender (OnStreamCompleted 4)] ∧
  highestReceived c3 = 10 ∧ bytesRead c2 = 10 ∧ bytesRead c3 = 20.
Proof. vm_compute. split_and!; reflexivity. Qed.
