(* ===== verification/Stream.v ===== *)
(** Stream: quic-go/stream.go.  A bidirectional stream: a send and a receive half
    that share one flow controller object, and the bookkeeping that reports the
    stream as completed when both halves are.  An operation of a half runs on the
    shared controller; the half's calls of its own [uniStreamSender] are passed
    on to the stream's sender, except [onStreamCompleted]. *)

From S2P Require Import Prelude Utils Protocol AckFrame Frames FrameCodec StreamFrame FrameParser GoFloat Rtt FlowControl LinkedListSpec FrameSorter FrameSorterSpec SendStream ReceiveStream.

Record stream := mkStream {
  st_recv : receiveStream; st_send : sendStream; st_fc : streamFlowController;
  receiveStreamCompleted : bool; sendStreamCompleted : bool }.
Definition newStream (streamID : Z) (fc : streamFlowController) : stream :=
  mkStream (newReceiveStream streamID fc) (newSendStream streamID fc) fc false false.
Definition stream_StreamID (s : stream) : Z := snd_streamID (st_send s).

(** The halves on the shared flow controller. *)
Definition the_send (s : stream) : sendStream := snd_set_fc (st_send s) (snd_writeOffset (st_send s)) (st_fc s).
Definition the_recv (s : stream) : receiveStream := rcv_set_fc (st_recv s) (st_fc s).
Definition put_send (s : stream) (h : sendStream) : stream :=
  mkStream (st_recv s) h (snd_flowController h) (receiveStreamCompleted s) (sendStreamCompleted s).
Definition put_recv (s : stream) (h : receiveStream) : stream :=
  mkStream h (st_send s) (rcv_flowController h) (receiveStreamCompleted s) (sendStreamCompleted s).

Definition checkIfCompleted (s : stream) : list sender_event :=
  if sendStreamCompleted s && receiveStreamCompleted s then [OnStreamCompleted (stream_StreamID s)] else [].

(** [uniStreamSender] of the send half: the closure of [newStream] for
    [onStreamCompleted], everything else goes to the stream's sender. *)
Definition send_sender (s : stream) (e : sender_event) : stream * list sender_event :=
  match e with
  | OnStreamCompleted _ =>
      let s := mkStream (st_recv s) (st_send s) (st_fc s) (receiveStreamCompleted s) true in (s, checkIfCompleted s)
  | _ => (s, [e])
  end.
Definition recv_sender (s : stream) (e : rcv_event) : stream * list rcv_event :=
  match e with
  | Sender (OnStreamCompleted _) =>
      let s := mkStream (st_recv s) (st_send s) (st_fc s) true (sendStreamCompleted s) in
      (s, Sender <$> checkIfCompleted s)
  | _ => (s, [e])
  end.
Fixpoint send_events (s : stream) (l : list sender_event) : stream * list sender_event :=
  match l with
  | [] => (s, [])
  | e :: l => let '(s, ev) := send_sender s e in let '(s, ev') := send_events s l in (s, ev ++ ev')
  end.
Fixpoint recv_events (s : stream) (l : list rcv_event) : stream * list rcv_event :=
  match l with
  | [] => (s, [])
  | e :: l => let '(s, ev) := recv_sender s e in let '(s, ev') := recv_events s l in (s, ev ++ ev')
  end.

(** The operations that the sending half runs. *)
Definition stream_popStreamFrame (s : stream) (conn : baseFlowController) (maxBytes : Z)
    : outcome (stream * baseFlowController * list sender_event * option StreamFrame * bool) :=
  '(h, conn, ev, f, more) ← popStreamFrame (the_send s) conn maxBytes;
  let '(s, ev) := send_events (put_send s h) ev in Ok (s, conn, ev, f, more).
Definition stream_frameAcked (s : stream) (f : StreamFrame) : outcome (stream * list sender_event) :=
  '(h, ev) ← frameAcked (the_send s) f; Ok (send_events (put_send s h) ev).
Definition stream_queueRetransmission (s : stream) (f : StreamFrame) : outcome (stream * list sender_event) :=
  '(h, ev) ← queueRetransmission (the_send s) f; Ok (send_events (put_send s h) ev).
Definition stream_Close (s : stream) : stream * list sender_event * option goerr :=
  let '(h, ev, err) := snd_Close (the_send s) in
  let '(s, ev) := send_events (put_send s h) ev in (s, ev, err).
Definition stream_CancelWrite (s : stream) (code : Z) : stream * list sender_event :=
  let '(h, ev) := CancelWrite (the_send s) code in send_events (put_send s h) ev.
Definition stream_handleStopSendingFrame (s : stream) (f : StopSendingFrame) : stream * list sender_event :=
  let '(h, ev) := handleStopSendingFrame (the_send s) f in send_events (put_send s h) ev.
Definition stream_handleMaxStreamDataFrame (s : stream) (f : MaxStreamDataFrame) : stream * list sender_event :=
  let '(h, ev) := handleMaxStreamDataFrame (the_send s) f in send_events (put_send s h) ev.
(** The operations that the receiving half runs. *)
Definition stream_CancelRead (s : stream) (conn : baseFlowController) (code now : Z)
    : stream * baseFlowController * list rcv_event :=
  let '(h, conn, ev) := CancelRead (the_recv s) conn code now in
  let '(s, ev) := recv_events (put_recv s h) ev in (s, conn, ev).
Definition stream_handleStreamFrame (s : stream) (conn : baseFlowController) (f : StreamFrame) (putBack : nat) (now : Z)
    : stream * baseFlowController * list rcv_event * option goerr :=
  let '(h, conn, ev, err) := handleStreamFrame (the_recv s) conn f putBack now in
  let '(s, ev) := recv_events (put_recv s h) ev in (s, conn, ev, err).
Definition stream_handleResetStreamFrame (s : stream) (conn : baseFlowController) (f : ResetStreamFrame) (now : Z)
    : stream * baseFlowController * list rcv_event * option goerr :=
  let '(h, conn, ev, err) := handleResetStreamFrame (the_recv s) conn f now in
  let '(s, ev) := recv_events (put_recv s h) ev in (s, conn, ev, err).
(** The end of a call of [Read]: the events of its last part. *)
Definition stream_Read_finish (s : stream) (conn : baseFlowController) (r : read_result) (now : Z)
    : stream * baseFlowController * list rcv_event :=
  let '(conn, ev) := Read_finish (the_recv s) conn r now in
  let '(s, ev) := recv_events s ev in (s, conn, ev).
Definition stream_SetDeadline (s : stream) (t : Z) : stream :=
  mkStream (SetReadDeadline (st_recv s) t) (SetWriteDeadline (st_send s) t) (st_fc s)
    (receiveStreamCompleted s) (sendStreamCompleted s).
Definition stream_closeForShutdown (s : stream) (err : option goerr) : stream :=
  mkStream (rcv_closeForShutdown (st_recv s) err) (snd_closeForShutdown (st_send s) err) (st_fc s)
    (receiveStreamCompleted s) (sendStreamCompleted s).

(** * The halves do not interfere through the shared controller *)

(** Two controllers that agree on what the sender, or the receiver, uses. *)
Definition same_send (b b' : baseFlowController) : Prop :=
  bytesSent b = bytesSent b' ∧ sendWindow b = sendWindow b' ∧ lastBlockedAt b = lastBlockedAt b'.
Definition same_recv (c c' : streamFlowController) : Prop :=
  receivedFinalOffset c = receivedFinalOffset c' ∧ sfc_streamID c = sfc_streamID c' ∧
  bytesRead (sfc c) = bytesRead (sfc c') ∧ highestReceived (sfc c) = highestReceived (sfc c') ∧
  receiveWindow (sfc c) = receiveWindow (sfc c') ∧ receiveWindowSize (sfc c) = receiveWindowSize (sfc c') ∧
  maxReceiveWindowSize (sfc c) = maxReceiveWindowSize (sfc c') ∧
  epochStartTime (sfc c) = epochStartTime (sfc c') ∧ epochStartOffset (sfc c) = epochStartOffset (sfc c').
#[export] Instance same_send_equiv : Equivalence same_send.
Proof. split; unfold same_send; [intros ?|intros ??|intros ???]; intuition congruence. Qed.
#[export] Instance same_recv_equiv : Equivalence same_recv.
Proof. split; unfold same_recv; [intros ?|intros ??|intros ???]; intuition congruence. Qed.

Lemma pop_new_recv s conn n s' conn' ev f more : pop_new s conn n = Ok (s', conn', ev, f, more) →
  same_recv (snd_flowController s') (snd_flowController s).
Proof.
  unfold pop_new, popNewStreamFrame. destruct (_ || _).
  { cbn. intros [= <- <- <- <- <-]. reflexivity. }
  destruct (MaxDataLen _ _) as [m| |]; cbn [mbind outcome_bind]; try done.
  destruct (m =? 0).
  { cbn. intros [= <- <- <- <- <-]. reflexivity. }
  assert (Hg : ∀ f0 s1 c1 f1, getDataForWriting s conn f0 m = Ok (s1, c1, f1) →
    same_recv (snd_flowController s1) (snd_flowController s)).
  { intros f0 s1 c1 f1. unfold getDataForWriting. destruct (snd_dataForWriting s) as [d|]; [|by intros [= <- <- <-]].
    cbv zeta. destruct (_ =? 0); [by intros [= <- <- <-]|]. destruct (_ <? _); cbn [mbind outcome_bind].
    all: destruct (fill _ _) as [f2| |]; cbn; try done; intros [= <- <- <-]; by repeat split. }
  destruct (getDataForWriting _ _ _ _) as [[[s1 c1] f1]| |] eqn:Eg; cbn [mbind outcome_bind]; try done.
  specialize (Hg _ _ _ _ Eg).
  destruct ((len (Data f1) =? 0) && negb (FinBit f1)) eqn:Ee.
  - destruct (is_nil (snd_dataForWriting s1)).
    { cbn. rewrite Ee. destruct (putStreamFrame pool_cap f1); cbn; intros [=]; by subst. }
    unfold IsNewlyBlocked. destruct (_ || _); cbn; rewrite Ee; destruct (putStreamFrame pool_cap f1); cbn; intros [=]; subst;
      (etrans; [|exact Hg]); by repeat split.
  - cbn. rewrite Ee. intros [= <- <- <- <- <-]. by destruct (FinBit f1).
Qed.
Lemma pop_recv s conn n s' conn' ev f more : popStreamFrame s conn n = Ok (s', conn', ev, f, more) →
  same_recv (snd_flowController s') (snd_flowController s).
Proof.
  unfold popStreamFrame, popNewOrRetransmittedStreamFrame.
  assert (Hn : ∀ s0, snd_flowController s0 = snd_flowController s →
    ('(s, conn, ev, f, more) ← pop_new s0 conn n;
     Ok (match f with Some _ => snd_set_queue s (i64 (snd_numOutstandingFrames s + 1)) (snd_retransmissionQueue s) | None => s end,
         conn, ev, f, more)) = Ok (s', conn', ev, f, more) → same_recv (snd_flowController s') (snd_flowController s)).
  { intros s0 E0. destruct (pop_new s0 conn n) as [[[[[s1 c1] ev1] f1] m1]| |] eqn:Ep; cbn; try done.
    apply pop_new_recv in Ep. rewrite E0 in Ep. intros [= <- <- <- <- <-]. by destruct f1. }
  destruct (0 <? _); [|by apply Hn].
  unfold maybeGetRetransmission. destruct (snd_retransmissionQueue s) as [|g q]; [done|].
  destruct (MaybeSplitOffFrame g n) as [[[[a|] []] b]| |]; cbn; try done; try (by intros [= <- <- <- <- <-]).
Qed.

Lemma UpdateHighestReceived_send c conn off fin c' conn' err : UpdateHighestReceived c conn off fin = (c', conn', err) →
  same_send (sfc c') (sfc c).
Proof.
  unfold UpdateHighestReceived. cbv zeta. repeat (destruct (_ && _); [by intros [= <- <- <-]|]).
  destruct (_ =? _); [by intros [= <- <- <-]|]. destruct (_ <=? _).
  { destruct fin; by intros [= <- <- <-]. }
  destruct (checkFlowControlViolation _); [by intros [= <- <- <-]|].
  destruct (IncrementHighestReceived _ _). by intros [= <- <- <-].
Qed.
Lemma getWindowUpdate_send b rtt now b' off : getWindowUpdate b rtt now = (b', off) → same_send b' b.
Proof.
  unfold getWindowUpdate. destruct (negb _); [by intros [= <- <-]|]. intros [= <- <-].
  unfold maybeAdjustWindowSize, same_send. cbn. repeat (destruct (_ <=? _); [done|]). repeat (destruct (_ =? 0); [done|]).
  by destruct (_ <? _).
Qed.
Lemma handleStreamFrame_send s conn f cb now s' conn' ev err : handleStreamFrame s conn f cb now = (s', conn', ev, err) →
  same_send (sfc (rcv_flowController s')) (sfc (rcv_flowController s)).
Proof.
  unfold handleStreamFrame, handleStreamFrameImpl. destruct (UpdateHighestReceived _ _ _ _) as [[fc c1] [e|]] eqn:Eu;
    apply UpdateHighestReceived_send in Eu.
  { destruct (complete _ _ _ _). by intros [= <- <- <- <-]. }
  cbv zeta. set (s1 := if FinBit f then _ else _).
  assert (Es : rcv_flowController s1 = fc) by (unfold s1; by destruct (FinBit f)). clearbody s1.
  destruct (rcv_canceledRead s1).
  { destruct (complete _ _ _ _). intros [= <- <- <- <-]. by rewrite Es. }
  destruct (Push _ _ _ _) as [[q calls] [e|]]; destruct (complete _ _ _ _); intros [= <- <- <- <-]; cbn; by rewrite Es.
Qed.
Lemma handleReset_send s conn f now s' conn' ev err : handleResetStreamFrame s conn f now = (s', conn', ev, err) →
  same_send (sfc (rcv_flowController s')) (sfc (rcv_flowController s)).
Proof.
  unfold handleResetStreamFrame, handleResetStreamFrameImpl. destruct (rcv_closedForShutdown s).
  { by intros [= <- <- <- <-]. }
  destruct (UpdateHighestReceived _ _ _ _) as [[fc c1] [e|]] eqn:Eu; apply UpdateHighestReceived_send in Eu.
  { by intros [= <- <- <- <-]. }
  cbn [rcv_set_final rcv_resetRemotely rcv_set_fc]. destruct (rcv_resetRemotely s).
  - by intros [= <- <- <- <-].
  - destruct (complete _ _ _ _). by intros [= <- <- <- <-].
Qed.

(** The reports of a half reach the stream's sender only through
    [checkIfCompleted]. *)
Lemma send_events_report s l : let '(s', ev) := send_events s l in
  st_fc s' = st_fc s ∧ receiveStreamCompleted s' = receiveStreamCompleted s ∧
  sendStreamCompleted s' = sendStreamCompleted s || existsb (λ e, if e is OnStreamCompleted _ then true else false) l ∧
  ∀ id, OnStreamCompleted id ∈ ev ↔
    receiveStreamCompleted s = true ∧ id = stream_StreamID s ∧ ∃ i, OnStreamCompleted i ∈ l.
Proof.
  revert s. induction l as [|e l IH]; intros s; cbn [send_events existsb].
  { rewrite orb_false_r. split_and!; [done..|]. intros id. split; [by intros ?%elem_of_nil|by intros (_ & _ & i & ?%elem_of_nil)]. }
  destruct (send_sender s e) as [s1 ev1] eqn:E1. specialize (IH s1). destruct (send_events s1 l) as [s2 ev2].
  destruct IH as (I0 & I1 & I2 & I3). unfold send_sender in E1. destruct e; injection E1 as <- <-; cbn in *.
  3: { rewrite orb_true_r. split_and!; [done..|]. intros i'. rewrite elem_of_app, I3. unfold checkIfCompleted; cbn.
       destruct (receiveStreamCompleted s); cbn; [|rewrite elem_of_nil; naive_solver].
       rewrite list_elem_of_singleton. split; [|intros (_ & -> & _); by left].
       intros [[= ->]|(_ & -> & _)]; (split_and!; [done..|]); eexists; apply list_elem_of_here. }
  all: split_and!; [done..|]; intros i'; rewrite elem_of_cons, I3; setoid_rewrite elem_of_cons; naive_solver.
Qed.
Lemma recv_events_report s l : let '(s', ev) := recv_events s l in
  st_fc s' = st_fc s ∧ sendStreamCompleted s' = sendStreamCompleted s ∧
  receiveStreamCompleted s' = receiveStreamCompleted s || existsb (λ e, if e is Sender (OnStreamCompleted _) then true else false) l ∧
  ∀ id, Sender (OnStreamCompleted id) ∈ ev ↔
    sendStreamCompleted s = true ∧ id = stream_StreamID s ∧ ∃ i, Sender (OnStreamCompleted i) ∈ l.
Proof.
  revert s. induction l as [|e l IH]; intros s; cbn [recv_events existsb].
  { rewrite orb_false_r. split_and!; [done..|]. intros id. split; [by intros ?%elem_of_nil|by intros (_ & _ & i & ?%elem_of_nil)]. }
  destruct (recv_sender s e) as [s1 ev1] eqn:E1. specialize (IH s1). destruct (recv_events s1 l) as [s2 ev2].
  destruct IH as (I0 & I1 & I2 & I3). unfold recv_sender in E1. destruct e as [[]|]; injection E1 as <- <-; cbn in *.
  3: { rewrite orb_true_r. split_and!; [done..|]. intros i'. rewrite elem_of_app, I3. unfold checkIfCompleted; cbn. rewrite andb_true_r.
       destruct (sendStreamCompleted s); cbn; [|rewrite elem_of_nil; naive_solver].
       rewrite list_elem_of_singleton. split; [|intros (_ & -> & _); by left].
       intros [[= ->]|(_ & -> & _)]; (split_and!; [done..|]); eexists; apply list_elem_of_here. }
  all: split_and!; [done..|]; intros i'; rewrite elem_of_cons, I3; setoid_rewrite elem_of_cons; naive_solver.
Qed.

(** * What the stream promises *)

(** The two halves of a bidirectional stream do not interfere.  Nothing the
    sending half does to the shared flow controller changes what the receiving
    half reads of it, and nothing the receiving half does changes the send
    window, the bytes sent or the blocked offset; and the stream reports
    completion to its sender exactly when one half reports it and the other half
    has reported it before. *)
Theorem stream_halves_independent s conn :
  (∀ n s' conn' ev f more, stream_popStreamFrame s conn n = Ok (s', conn', ev, f, more) → same_recv (st_fc s') (st_fc s)) ∧
  (∀ f, same_recv (st_fc (stream_handleMaxStreamDataFrame s f).1) (st_fc s)) ∧
  (∀ f cb now s' conn' ev err, stream_handleStreamFrame s conn f cb now = (s', conn', ev, err) →
     same_send (sfc (st_fc s')) (sfc (st_fc s))) ∧
  (∀ f now s' conn' ev err, stream_handleResetStreamFrame s conn f now = (s', conn', ev, err) →
     same_send (sfc (st_fc s')) (sfc (st_fc s))) ∧
  (∀ f h ev, frameAcked (the_send s) f = Ok (h, ev) →
     ∃ s' ev', stream_frameAcked s f = Ok (s', ev') ∧
       ∀ id, OnStreamCompleted id ∈ ev' ↔
         receiveStreamCompleted s = true ∧ id = snd_streamID h ∧ ∃ i, OnStreamCompleted i ∈ ev) ∧
  (∀ f now h conn' ev err, handleResetStreamFrame (the_recv s) conn f now = (h, conn', ev, err) →
     ∃ s' ev', stream_handleResetStreamFrame s conn f now = (s', conn', ev', err) ∧
       ∀ id, Sender (OnStreamCompleted id) ∈ ev' ↔
         sendStreamCompleted s = true ∧ id = stream_StreamID s ∧ ∃ i, Sender (OnStreamCompleted i) ∈ ev).
Proof.
  split_and!.
  - intros n s' conn' ev f more. unfold stream_popStreamFrame.
    destruct (popStreamFrame (the_send s) conn n) as [[[[[h c1] ev1] f1] m1]| |] eqn:Ep; cbn [mbind outcome_bind]; try done.
    apply pop_recv in Ep. pose proof (send_events_report (put_send s h) ev1) as Hr.
    destruct (send_events _ _) as [s1 ev2]. destruct Hr as (Hr & _). intros [= <- <- <- <- <-]. rewrite Hr. exact Ep.
  - intros f. unfold stream_handleMaxStreamDataFrame, handleMaxStreamDataFrame. cbv zeta. set (h := snd_set_fc _ _ _). set (l := if negb _ then _ else _).
    pose proof (send_events_report (put_send s h) l) as Hr. destruct (send_events _ _) as [s1 ev1]. destruct Hr as (Hr & _).
    cbn [fst]. rewrite Hr. unfold h. cbn. unfold UpdateSendWindow. destruct (_ <? _); by repeat split.
  - intros f cb now s' conn' ev err. unfold stream_handleStreamFrame.
    destruct (handleStreamFrame _ _ _ _ _) as [[[h c1] ev1] e1] eqn:Eh. apply handleStreamFrame_send in Eh.
    pose proof (recv_events_report (put_recv s h) ev1) as Hr. destruct (recv_events _ _) as [s1 ev2]. destruct Hr as (Hr & _).
    intros [= <- <- <- <-]. rewrite Hr. exact Eh.
  - intros f now s' conn' ev err. unfold stream_handleResetStreamFrame.
    destruct (handleResetStreamFrame _ _ _ _) as [[[h c1] ev1] e1] eqn:Eh. apply handleReset_send in Eh.
    pose proof (recv_events_report (put_recv s h) ev1) as Hr. destruct (recv_events _ _) as [s1 ev2]. destruct Hr as (Hr & _).
    intros [= <- <- <- <-]. rewrite Hr. exact Eh.
  - intros f h ev E. unfold stream_frameAcked. rewrite E. cbn [mbind outcome_bind].
    pose proof (send_events_report (put_send s h) ev) as Hr. destruct (send_events _ _) as [s1 ev1]. exists s1, ev1. split; [done|apply Hr].
  - intros f now h conn' ev err E. unfold stream_handleResetStreamFrame. rewrite E.
    pose proof (recv_events_report (put_recv s h) ev) as Hr. destruct (recv_events _ _) as [s1 ev1]. exists s1, ev1. split; [done|apply Hr].
Qed.
