(* ===== verification/TransportParams.v ===== *)
(** TransportParams: quic-go/core/handshake/transport_parameters.go.  The
    parameters are a type-length-value list behind a two-byte length.
    [Unmarshal] updates the struct as it reads, so an error leaves the
    parameters read before it; the model returns the struct together with the
    error.  The random numbers of the greased parameter are arguments of
    [Marshal]. *)

From S2P Require Import Prelude Utils Protocol.
From stdpp Require Import sorting.
#[local] Open Scope Z_scope.

Definition originalConnectionIDParameterID : Z := 0x0.
Definition idleTimeoutParameterID : Z := 0x1.
Definition statelessResetTokenParameterID : Z := 0x2.
Definition maxPacketSizeParameterID : Z := 0x3.
Definition initialMaxDataParameterID : Z := 0x4.
Definition initialMaxStreamDataBidiLocalParameterID : Z := 0x5.
Definition initialMaxStreamDataBidiRemoteParameterID : Z := 0x6.
Definition initialMaxStreamDataUniParameterID : Z := 0x7.
Definition initialMaxStreamsBidiParameterID : Z := 0x8.
Definition initialMaxStreamsUniParameterID : Z := 0x9.
Definition ackDelayExponentParameterID : Z := 0xa.
Definition maxAckDelayParameterID : Z := 0xb.
Definition disableMigrationParameterID : Z := 0xc.

Definition Millisecond : Z := 1000000.
Definition MaxAckDelayExponent : Z := 20.
Definition DefaultMaxAckDelay : Z := 25 * Millisecond.
Definition MaxMaxAckDelay : Z := 2 ^ 14 * Millisecond.
Definition MinRemoteIdleTimeout : Z := 5000 * Millisecond.

Record TransportParameters := mkTP {
  InitialMaxStreamDataBidiLocal : Z; InitialMaxStreamDataBidiRemote : Z; InitialMaxStreamDataUni : Z;
  InitialMaxData : Z;
  tp_MaxAckDelay : Z; tp_AckDelayExponent : Z;
  DisableMigration : bool;
  MaxPacketSize : Z;
  MaxUniStreamNum : Z; MaxBidiStreamNum : Z;
  IdleTimeout : Z;
  StatelessResetToken : option (list Z); OriginalConnectionID : list Z }.
(** The zero value. *)
Definition tp_zero : TransportParameters := mkTP 0 0 0 0 0 0 false 0 0 0 0 None [].

Definition set_streams (p : TransportParameters) (bl br u d : Z) : TransportParameters :=
  mkTP bl br u d (tp_MaxAckDelay p) (tp_AckDelayExponent p) (DisableMigration p) (MaxPacketSize p)
    (MaxUniStreamNum p) (MaxBidiStreamNum p) (IdleTimeout p) (StatelessResetToken p) (OriginalConnectionID p).
Definition set_nums (p : TransportParameters) (uni bidi : Z) : TransportParameters :=
  mkTP (InitialMaxStreamDataBidiLocal p) (InitialMaxStreamDataBidiRemote p) (InitialMaxStreamDataUni p) (InitialMaxData p)
    (tp_MaxAckDelay p) (tp_AckDelayExponent p) (DisableMigration p) (MaxPacketSize p)
    uni bidi (IdleTimeout p) (StatelessResetToken p) (OriginalConnectionID p).
Definition set_times (p : TransportParameters) (ackDelay exponent size idle : Z) : TransportParameters :=
  mkTP (InitialMaxStreamDataBidiLocal p) (InitialMaxStreamDataBidiRemote p) (InitialMaxStreamDataUni p) (InitialMaxData p)
    ackDelay exponent (DisableMigration p) size
    (MaxUniStreamNum p) (MaxBidiStreamNum p) idle (StatelessResetToken p) (OriginalConnectionID p).
Definition set_rest (p : TransportParameters) (mig : bool) (tok : option (list Z)) (cid : list Z) : TransportParameters :=
  mkTP (InitialMaxStreamDataBidiLocal p) (InitialMaxStreamDataBidiRemote p) (InitialMaxStreamDataUni p) (InitialMaxData p)
    (tp_MaxAckDelay p) (tp_AckDelayExponent p) mig (MaxPacketSize p)
    (MaxUniStreamNum p) (MaxBidiStreamNum p) (IdleTimeout p) tok cid.

(** The assignments of [readNumericTransportParameter] once the value is read. *)
Definition set_numeric (p : TransportParameters) (paramID val : Z) : TransportParameters * option goerr :=
  let bl := InitialMaxStreamDataBidiLocal p in
  let br := InitialMaxStreamDataBidiRemote p in
  let un := InitialMaxStreamDataUni p in
  let d := InitialMaxData p in
  let ad := tp_MaxAckDelay p in
  let ae := tp_AckDelayExponent p in
  if paramID =? initialMaxStreamDataBidiLocalParameterID then (set_streams p val br un d, None)
  else if paramID =? initialMaxStreamDataBidiRemoteParameterID then (set_streams p bl val un d, None)
  else if paramID =? initialMaxStreamDataUniParameterID then (set_streams p bl br val d, None)
  else if paramID =? initialMaxDataParameterID then (set_streams p bl br un val, None)
  else if paramID =? initialMaxStreamsBidiParameterID then (set_nums p (MaxUniStreamNum p) (i64 val), None)
  else if paramID =? initialMaxStreamsUniParameterID then (set_nums p (i64 val) (MaxBidiStreamNum p), None)
  else if paramID =? idleTimeoutParameterID then
    (set_times p ad ae (MaxPacketSize p) (MaxDuration MinRemoteIdleTimeout (i64 (i64 val * Millisecond))), None)
  else if paramID =? maxPacketSizeParameterID then
    if val <? 1200 then (p, Some (Errorf "invalid value for max_packet_size: %d (minimum 1200)" [val]))
    else (set_times p ad ae val (IdleTimeout p), None)
  else if paramID =? ackDelayExponentParameterID then
    if MaxAckDelayExponent <? val then
      (p, Some (Errorf "invalid value for ack_delay_exponent: %d (maximum %d)" [val; MaxAckDelayExponent]))
    else (set_times p ad (u8 val) (MaxPacketSize p) (IdleTimeout p), None)
  else if paramID =? maxAckDelayParameterID then
    let maxAckDelay := i64 (i64 val * Millisecond) in
    if MaxMaxAckDelay <=? maxAckDelay then
      (p, Some (Errorf "invalid value for max_ack_delay: %dms (maximum %dms)"
                  [Z.quot maxAckDelay Millisecond; Z.quot (MaxMaxAckDelay - Millisecond) Millisecond]))
    else (set_times p (if maxAckDelay <? 0 then InfDuration else maxAckDelay) ae (MaxPacketSize p) (IdleTimeout p), None)
  else (p, Some (Errorf "TransportParameter BUG: transport parameter %d not found" [paramID])).

(** The result: the struct, what is left to read, and the error. *)
Definition readNumericTransportParameter (p : TransportParameters) (r : list Z) (paramID expectedLen : Z)
    : TransportParameters * list Z * option goerr :=
  match ReadVarInt r with
  | Ok (val, r') =>
      if negb (len r - len r' =? expectedLen) then
        (p, r', Some (Errorf "inconsistent transport parameter length for %d" [paramID]))
      else let '(p, err) := set_numeric p paramID val in (p, r', err)
  | _ => (p, [], Some (Errorf "error while reading transport parameter %d: %s" [paramID]))
  end.

(** The case of a parameter that is not a number. *)
Definition readOther (p : TransportParameters) (sentBy : Perspective) (r : list Z) (paramID paramLen : Z)
    : TransportParameters * list Z * option goerr :=
  if len r <? paramLen then
    (p, r, Some (Errorf "remaining length (%d) smaller than parameter length (%d)" [len r; paramLen]))
  else if paramID =? disableMigrationParameterID then
    if negb (paramLen =? 0) then (p, r, Some (Errorf "wrong length for disable_migration: %d (expected empty)" [paramLen]))
    else (set_rest p true (StatelessResetToken p) (OriginalConnectionID p), r, None)
  else if paramID =? statelessResetTokenParameterID then
    if decide (sentBy = PerspectiveClient) then (p, r, Some (Errorf "client sent a stateless_reset_token" []))
    else if negb (paramLen =? 16) then
      (p, r, Some (Errorf "wrong length for stateless_reset_token: %d (expected 16)" [paramLen]))
    else (set_rest p (DisableMigration p) (Some (take 16 r)) (OriginalConnectionID p), drop 16 r, None)
  else if paramID =? originalConnectionIDParameterID then
    if decide (sentBy = PerspectiveClient) then (p, r, Some (Errorf "client sent an original_connection_id" []))
    else
      let '(cid, r) := match ReadConnectionID paramLen r with Ok x => x | _ => ([], []) end in
      (set_rest p (DisableMigration p) (StatelessResetToken p) cid, r, None)
  else (p, drop (Z.to_nat paramLen) r, None).

Definition isNumeric (paramID : Z) : bool :=
  bool_decide (paramID ∈
    [ackDelayExponentParameterID; maxAckDelayParameterID; initialMaxStreamDataBidiLocalParameterID;
     initialMaxStreamDataBidiRemoteParameterID; initialMaxStreamDataUniParameterID; initialMaxDataParameterID;
     initialMaxStreamsBidiParameterID; initialMaxStreamsUniParameterID; idleTimeoutParameterID; maxPacketSizeParameterID]).

(** [paramIDInt, _ := utils.BigEndian.ReadUint16(r)] *)
Definition read16 (r : list Z) : Z * list Z := match ReadUint16 r with Ok x => x | _ => (0, []) end.
(** The loop [for r.Len() >= 4]: the parameters' ids in the order read. *)
Fixpoint unmarshal_loop (fuel : nat) (p : TransportParameters) (sentBy : Perspective) (r : list Z) (parameterIDs : list Z)
    : TransportParameters * list Z * list Z * option goerr :=
  match fuel with
  | O => (p, r, parameterIDs, Some (Errorf "out of fuel" []))
  | S fuel =>
      if len r <? 4 then (p, r, parameterIDs, None) else
      let '(paramID, r) := read16 r in
      let '(paramLen, r) := read16 r in
      let parameterIDs := parameterIDs ++ [paramID] in
      let '(p, r, err) :=
        if isNumeric paramID then readNumericTransportParameter p r paramID paramLen
        else readOther p sentBy r paramID paramLen in
      match err with
      | Some e => (p, r, parameterIDs, Some e)
      | None => unmarshal_loop fuel p sentBy r parameterIDs
      end
  end.

(** The loop over the sorted ids. *)
Fixpoint find_duplicate (l : list Z) : option Z :=
  match l with
  | a :: ((b :: _) as l') => if a =? b then Some a else find_duplicate l'
  | _ => None
  end.

Definition Unmarshal (p : TransportParameters) (data : list Z) (sentBy : Perspective)
    : TransportParameters * option goerr :=
  if len data <? 2 then (p, Some (Errorf "transport parameter data too short" [])) else
  let '(length_, r) := read16 data in
  if len data - 2 <? length_ then
    (p, Some (Errorf "expected transport parameters to be %d bytes long, have %d" [length_; len data - 2]))
  else
  match unmarshal_loop (S (length r)) p sentBy r [] with
  | (p, _, _, Some e) => (p, Some e)
  | (p, r, parameterIDs, None) =>
      let ae := if bool_decide (ackDelayExponentParameterID ∈ parameterIDs) then tp_AckDelayExponent p else DefaultAckDelayExponent in
      let ad := if bool_decide (maxAckDelayParameterID ∈ parameterIDs) then tp_MaxAckDelay p else DefaultMaxAckDelay in
      let size := if MaxPacketSize p =? 0 then MaxByteCount else MaxPacketSize p in
      let p := set_times p ad ae size (IdleTimeout p) in
      match find_duplicate (merge_sort Z.le parameterIDs) with
      | Some id => (p, Some (Errorf "received duplicate transport parameter %#x" [id]))
      | None =>
          if negb (len r =? 0) then (p, Some (Errorf "should have read all data. Still have %d bytes" [len r]))
          else (p, None)
      end
  end.

(** * Marshal *)

Definition marshalVarintParam (id val : Z) : writer :=
  WriteUint16 id >>>
  (λ b, match VarIntLen val with
        | Ok n => (WriteUint16 (u16 n) >>> WriteVarInt val) b
        | Err e => (b, Err e)
        | Panic s => (b, Panic s)
        end).
Definition wwhen (c : bool) (w : writer) : writer := if c then w else wdone.

Definition marshal_params (p : TransportParameters) (grease : Z) (randomData : list Z) : writer :=
  WriteUint16 (u16 (27 + 31 * grease)) >>> WriteUint16 (u16 (len randomData)) >>> WriteBytes randomData >>>
  marshalVarintParam initialMaxStreamDataBidiLocalParameterID (InitialMaxStreamDataBidiLocal p) >>>
  marshalVarintParam initialMaxStreamDataBidiRemoteParameterID (InitialMaxStreamDataBidiRemote p) >>>
  marshalVarintParam initialMaxStreamDataUniParameterID (InitialMaxStreamDataUni p) >>>
  marshalVarintParam initialMaxDataParameterID (InitialMaxData p) >>>
  marshalVarintParam initialMaxStreamsBidiParameterID (u64 (MaxBidiStreamNum p)) >>>
  marshalVarintParam initialMaxStreamsUniParameterID (u64 (MaxUniStreamNum p)) >>>
  marshalVarintParam idleTimeoutParameterID (u64 (Z.quot (IdleTimeout p) Millisecond)) >>>
  marshalVarintParam maxPacketSizeParameterID MaxReceivePacketSize >>>
  wwhen (negb (tp_MaxAckDelay p =? DefaultMaxAckDelay))
    (marshalVarintParam maxAckDelayParameterID (u64 (Z.quot (tp_MaxAckDelay p) Millisecond))) >>>
  wwhen (negb (tp_AckDelayExponent p =? DefaultAckDelayExponent))
    (marshalVarintParam ackDelayExponentParameterID (tp_AckDelayExponent p)) >>>
  wwhen (DisableMigration p) (WriteUint16 disableMigrationParameterID >>> WriteUint16 0) >>>
  (match StatelessResetToken p with
   | Some token => WriteUint16 statelessResetTokenParameterID >>> WriteUint16 16 >>> WriteBytes token
   | None => wdone
   end) >>>
  wwhen (0 <? len (OriginalConnectionID p))
    (WriteUint16 originalConnectionIDParameterID >>> WriteUint16 (u16 (len (OriginalConnectionID p))) >>>
     WriteBytes (OriginalConnectionID p)).
(** The two bytes written first are replaced by the length at the end. *)
Definition Marshal (p : TransportParameters) (grease : Z) (randomData : list Z) : outcome (list Z) :=
  match (WriteBytes [0; 0] >>> marshal_params p grease randomData) [] with
  | (data, Ok _) => let n := u16 (len data - 2) in Ok ([byte_at n 8; u8 n] ++ drop 2 data)
  | (_, Err e) => Err e
  | (_, Panic s) => Panic s
  end.

(** * The parameters as a list of ids and values *)

(** The reference reading: the value of a parameter is the slice its length
    announces. *)
Definition param : Type := Z * list Z.
Definition param_ok (pr : param) : Prop := 0 <= pr.1 < 2 ^ 16 ∧ len pr.2 < 2 ^ 16.
Definition tlv (pr : param) : list Z :=
  [byte_at pr.1 8; u8 pr.1] ++ [byte_at (len pr.2) 8; u8 (len pr.2)] ++ pr.2.
Definition tlvs (l : list param) : list Z := l ≫= tlv.

Definition apply_param (p : TransportParameters) (sentBy : Perspective) (pr : param)
    : option TransportParameters :=
  let '(id, v) := pr in
  if isNumeric id then
    match ReadVarInt v with
    | Ok (val, []) => let '(p, err) := set_numeric p id val in match err with None => Some p | Some _ => None end
    | _ => None
    end
  else if id =? disableMigrationParameterID then
    if len v =? 0 then Some (set_rest p true (StatelessResetToken p) (OriginalConnectionID p)) else None
  else if id =? statelessResetTokenParameterID then
    if bool_decide (sentBy = PerspectiveServer) && (len v =? 16)
    then Some (set_rest p (DisableMigration p) (Some v) (OriginalConnectionID p)) else None
  else if id =? originalConnectionIDParameterID then
    if bool_decide (sentBy = PerspectiveServer)
    then Some (set_rest p (DisableMigration p) (StatelessResetToken p) v) else None
  else Some p.
Fixpoint apply_params (p : TransportParameters) (sentBy : Perspective) (l : list param) : option TransportParameters :=
  match l with
  | [] => Some p
  | pr :: l => p ← apply_param p sentBy pr; apply_params p sentBy l
  end.
(** The defaults of the parameters that were not sent. *)
Definition with_defaults (p : TransportParameters) (ids : list Z) : TransportParameters :=
  set_times p
    (if bool_decide (maxAckDelayParameterID ∈ ids) then tp_MaxAckDelay p else DefaultMaxAckDelay)
    (if bool_decide (ackDelayExponentParameterID ∈ ids) then tp_AckDelayExponent p else DefaultAckDelayExponent)
    (if MaxPacketSize p =? 0 then MaxByteCount else MaxPacketSize p) (IdleTimeout p).

Lemma exact_ReadVarInt : exact_reads ReadVarInt.
Proof.
  unfold ReadVarInt. repeat first
    [ apply exact_bind; [apply exact_ReadByte|intros ?] | apply exact_ret | progress cbv zeta
    | match goal with |- exact_reads (if ?b then _ else _) => destruct b end ].
Qed.
Lemma exact_ReadUint16 : exact_reads ReadUint16.
Proof. unfold ReadUint16. repeat (apply exact_bind; [apply exact_ReadByte|intros ?]). apply exact_ret. Qed.

Lemma read16_app i r : 0 <= i < 2 ^ 16 → read16 (byte_at i 8 :: u8 i :: r) = (i, r).
Proof. intros Hi. unfold read16. change (byte_at i 8 :: u8 i :: r) with ([byte_at i 8; u8 i] ++ r). by rewrite reads_Uint16. Qed.
(** Two bytes are the encoding of the number they are read as. *)
Lemma read16_inv r i r' : bytes_ok r → 2 <= len r → read16 r = (i, r') →
  r = [byte_at i 8; u8 i] ++ r' ∧ 0 <= i < 2 ^ 16.
Proof.
  destruct r as [|a [|b r]]; [unfold len; cbn; lia..|]. intros Hr _. unfold read16.
  apply Forall_cons in Hr as [Ha Hr]. apply Forall_cons in Hr as [Hb _]. unfold byte_ok in *.
  unfold ReadUint16, mbind, parser_bind; cbn -[u16 byte_at u8]. rewrite Z.shiftl_mul_pow2 by lia. unwrap. intros [= <- <-].
  split; [|lia]. rewrite byte_at_div by lia. unfold u8. change (2 ^ 8) with 256.
  rewrite Z.div_add, Z.mod_add, (Z.div_small b), (Z.mod_small b) by lia. rewrite Z.mod_small by lia. done.
Qed.
Lemma length_tlv pr : (4 <= length (tlv pr))%nat.
Proof. unfold tlv. cbn. lia. Qed.
Lemma tlvs_cons pr l : tlvs (pr :: l) = tlv pr ++ tlvs l.
Proof. done. Qed.

(** One parameter: the reader agrees with the reference reading. *)
Definition readParam (p : TransportParameters) (s : Perspective) (r : list Z) (id n : Z) :=
  if isNumeric id then readNumericTransportParameter p r id n else readOther p s r id n.
Lemma readParam_ok p s id v rest p' : apply_param p s (id, v) = Some p' →
  readParam p s (v ++ rest) id (len v) = (p', rest, None).
Proof.
  unfold apply_param, readParam. destruct (isNumeric id).
  - unfold readNumericTransportParameter. destruct (ReadVarInt v) as [[val [|]]| |] eqn:E; try done.
    apply exact_ReadVarInt in E as (k & Ek & Hk). rewrite app_nil_r in Ek. subst k.
    rewrite Hk, len_app. replace (len v + len rest - len rest =? len v) with true by (symmetry; apply Z.eqb_eq; lia).
    cbn. destruct (set_numeric p id val) as [q [e|]]; congruence.
  - unfold readOther. rewrite len_app. pose proof (len_nonneg rest).
    replace (len v + len rest <? len v) with false by (symmetry; apply Z.ltb_ge; lia).
    destruct (id =? disableMigrationParameterID).
    { destruct (Z.eqb_spec (len v) 0) as [E|]; [|done]. intros [= <-]. destruct v; [done|]. unfold len in E; cbn in E; lia. }
    destruct (id =? statelessResetTokenParameterID).
    { destruct s; [|by cbn]. cbn. destruct (Z.eqb_spec (len v) 16) as [E|]; [|done]. intros [= <-]. cbn.
      assert (length v = 16)%nat as Ev by (unfold len in E; lia). by rewrite <- Ev, take_app_length, drop_app_length. }
    destruct (id =? originalConnectionIDParameterID).
    { destruct s; [|by cbn]. cbn. intros [= <-]. by rewrite reads_ReadConnectionID. }
    intros [= <-]. unfold len. by rewrite Nat2Z.id, drop_app_length.
Qed.
Lemma readParam_inv p s r id n p' rest : 0 <= n → readParam p s r id n = (p', rest, None) →
  ∃ v, r = v ++ rest ∧ len v = n ∧ apply_param p s (id, v) = Some p'.
Proof.
  intros Hn. unfold readParam, apply_param. destruct (isNumeric id).
  - unfold readNumericTransportParameter. destruct (ReadVarInt r) as [[val r']| |] eqn:E; try done.
    apply exact_ReadVarInt in E as (k & -> & Hk). rewrite len_app.
    destruct (Z.eqb_spec (len k + len r' - len r') n) as [El|]; [|done]. cbn.
    destruct (set_numeric p id val) as [q e] eqn:Eq. intros [= -> -> ->]. exists k. split_and!; [done|lia|].
    pose proof (Hk []) as Hk0. rewrite app_nil_r in Hk0. by rewrite Hk0, Eq.
  - unfold readOther. destruct (Z.ltb_spec (len r) n) as [|Hl]; [done|].
    assert (Hr : r = take (Z.to_nat n) r ++ drop (Z.to_nat n) r ∧ len (take (Z.to_nat n) r) = n).
    { split; [by rewrite take_drop|]. unfold len in *. rewrite length_take. lia. }
    destruct (id =? disableMigrationParameterID).
    { destruct (Z.eqb_spec n 0) as [->|]; [|done]. intros [= <- <-]. by exists []. }
    destruct (id =? statelessResetTokenParameterID).
    { destruct s; [|by cbn]. cbn. destruct (Z.eqb_spec n 16) as [->|]; [|done]. intros [= <- <-]. exists (take 16 r).
      destruct Hr as [Hr Hr']. split_and!; [done..|]. change (Z.to_nat 16) with 16%nat in Hr'. by rewrite Hr'. }
    destruct (id =? originalConnectionIDParameterID).
    { destruct s; [|by cbn]. cbn. destruct Hr as [Hr Hr'].
      assert (ReadConnectionID n r = Ok (take (Z.to_nat n) r, drop (Z.to_nat n) r)) as ->.
      { rewrite <- Hr' at 1. rewrite Hr at 2. apply reads_ReadConnectionID. }
      intros [= <- <-]. by exists (take (Z.to_nat n) r). }
    intros [= <- <-]. exists (take (Z.to_nat n) r). tauto.
Qed.

(** The loop reads exactly the lists of parameters the reference accepts. *)
Lemma unmarshal_loop_ok l : ∀ fuel p s rest ids p', Forall param_ok l → len rest < 4 → (length l < fuel)%nat →
  apply_params p s l = Some p' →
  unmarshal_loop fuel p s (tlvs l ++ rest) ids = (p', rest, ids ++ l.*1, None).
Proof.
  induction l as [|[id v] l IH]; intros [|fuel] p s rest ids p' Hl Hr Hf; try (cbn in Hf; lia).
  - cbn. intros [= ->]. replace (len rest <? 4) with true by (symmetry; apply Z.ltb_lt; lia). by rewrite app_nil_r.
  - apply Forall_cons in Hl as [[Hid Hv] Hl]. cbn [fst snd] in *.
    cbn [apply_params]. destruct (apply_param p s (id, v)) as [q|] eqn:Eq; [|done]. cbn [mbind option_bind]. intros Ha.
    rewrite tlvs_cons. unfold tlv. cbn [fst snd]. rewrite <- !app_assoc. cbn [app unmarshal_loop].
    rewrite !len_cons. pose proof (len_nonneg (v ++ tlvs l ++ rest)).
    replace (1 + _ <? 4) with false by (symmetry; apply Z.ltb_ge; lia).
    rewrite read16_app by done. cbn [fst snd]. pose proof (len_nonneg v). rewrite read16_app by lia.
    pose proof (readParam_ok p s id v (tlvs l ++ rest) q Eq) as Hp. unfold readParam in Hp. rewrite Hp.
    rewrite (IH fuel q s rest _ p') by (done || cbn in Hf; lia). rewrite <- app_assoc. done.
Qed.
Lemma unmarshal_loop_inv fuel : ∀ p s r ids p' r' ids', bytes_ok r →
  unmarshal_loop fuel p s r ids = (p', r', ids', None) →
  ∃ l, r = tlvs l ++ r' ∧ ids' = ids ++ l.*1 ∧ len r' < 4 ∧ Forall param_ok l ∧ apply_params p s l = Some p'.
Proof.
  induction fuel as [|fuel IH]; intros p s r ids p' r' ids' Hr; [done|]. cbn [unmarshal_loop].
  destruct (Z.ltb_spec (len r) 4) as [H4|H4].
  { intros [= <- <- <-]. exists []. cbn [tlvs mbind list_bind fmap list_fmap app]. rewrite app_nil_r. split_and!; done. }
  destruct (read16 r) as [id r1] eqn:E1. apply read16_inv in E1 as [-> Hid]; [|done|lia].
  apply Forall_app in Hr as [_ Hr1]. rewrite len_app in H4. change (len [_; _]) with 2 in H4.
  destruct (read16 r1) as [n r2] eqn:E2. apply read16_inv in E2 as [-> Hn]; [|done|lia].
  apply Forall_app in Hr1 as [_ Hr2].
  match goal with |- context [if isNumeric id then ?a else ?b] => change (if isNumeric id then a else b) with (readParam p s r2 id n) end.
  destruct (readParam p s r2 id n) as [[q r3] [e|]] eqn:Ep; [done|]. intros H.
  apply readParam_inv in Ep as (v & -> & <- & Ha); [|lia]. apply Forall_app in Hr2 as [_ Hr3].
  apply IH in H as (l & -> & -> & H5 & Hl & Hap); [|done]. exists ((id, v) :: l). rewrite tlvs_cons. unfold tlv. cbn [fst snd].
  rewrite <- !app_assoc. split_and!; [done..|constructor; [split; cbn; lia|done]|]. cbn [apply_params]. by rewrite Ha.
Qed.

Lemma find_duplicate_spec l : StronglySorted Z.le l → find_duplicate l = None ↔ NoDup l.
Proof.
  induction 1 as [|a l Hs IH Ha]; [split; [constructor|done]|]. cbn [find_duplicate].
  destruct l as [|b l]; [split; [intros _; apply NoDup_singleton|done]|]. rewrite NoDup_cons, <- IH.
  destruct (Z.eqb_spec a b) as [->|Hab].
  - split; [done|]. intros [Hb _]. by destruct Hb; constructor.
  - split; [|tauto]. intros H. split; [|done]. rewrite elem_of_cons. intros [?|Hin]; [done|].
    apply StronglySorted_inv in Hs as [_ Hb]. rewrite Forall_forall in Hb. apply Hb in Hin.
    apply Forall_cons in Ha as [Ha _]. lia.
Qed.
Lemma find_duplicate_sorted l : find_duplicate (merge_sort Z.le l) = None ↔ NoDup l.
Proof.
  rewrite find_duplicate_spec by (apply (StronglySorted_merge_sort Z.le)).
  by rewrite (merge_sort_Permutation Z.le l).
Qed.
Lemma length_tlvs l : (length l <= length (tlvs l))%nat.
Proof. induction l as [|pr l IH]; [done|]. rewrite tlvs_cons, length_app. pose proof (length_tlv pr). cbn [length]. lia. Qed.
(** The list of parameters [data] holds, and what reading it leaves in the
    struct. *)
Definition accepts (p : TransportParameters) (data : list Z) (s : Perspective) (p' : TransportParameters) : Prop :=
  ∃ n l q, data = [byte_at n 8; u8 n] ++ tlvs l ∧ 0 <= n <= len (tlvs l) ∧ n < 2 ^ 16 ∧ Forall param_ok l ∧
    NoDup l.*1 ∧ apply_params p s l = Some q ∧ p' = with_defaults q l.*1.
Lemma Unmarshal_inv p data s p' : bytes_ok data → Unmarshal p data s = (p', None) → accepts p data s p'.
Proof.
  intros Hd. unfold Unmarshal.
  destruct (Z.ltb_spec (len data) 2) as [|H2]; [done|]. destruct (read16 data) as [n r] eqn:E.
    apply read16_inv in E as [-> Hn]; [|done|done]. apply Forall_app in Hd as [_ Hr].
    rewrite len_app. change (len [_; _]) with 2. destruct (Z.ltb_spec (2 + len r - 2) n) as [|Hl]; [done|].
    destruct (unmarshal_loop _ _ _ _ _) as [[[q r'] ids] [e|]] eqn:El; [done|].
    apply unmarshal_loop_inv in El as (l & -> & -> & H4 & Hl' & Ha); [|done]. cbn [app].
    destruct (find_duplicate _) eqn:Ef; [done|]. apply find_duplicate_sorted in Ef.
    destruct (Z.eqb_spec (len r') 0) as [E0|]; [|done]. intros [= <-].
    assert (r' = []) as -> by (destruct r'; [done|rewrite len_cons in E0; pose proof (len_nonneg r'); lia]).
    rewrite app_nil_r in *. exists n, l, q. split_and!; try lia; done.
Qed.
Lemma Unmarshal_accepts p data s p' : accepts p data s p' → Unmarshal p data s = (p', None).
Proof.
  intros (n & l & q & -> & Hn & Hn' & Hl & Hnd & Ha & ->). unfold Unmarshal. rewrite len_app. change (len [_; _]) with 2.
    replace (2 + len (tlvs l) <? 2) with false by (symmetry; apply Z.ltb_ge; lia). cbn [app].
    rewrite read16_app by lia. replace (2 + len (tlvs l) - 2 <? n) with false by (symmetry; apply Z.ltb_ge; lia).
    pose proof (unmarshal_loop_ok l (S (length (tlvs l))) p s [] [] q Hl) as Hloop. rewrite app_nil_r in Hloop.
    pose proof (length_tlvs l). rewrite Hloop by (done || lia). cbn [app].
    by rewrite (proj2 (find_duplicate_sorted _) Hnd).
Qed.

(** * Marshal writes such a list *)

Definition when {A} (c : bool) (l : list A) : list A := if c then l else [].
Definition fixed_params (p : TransportParameters) : list param :=
  [(initialMaxStreamDataBidiLocalParameterID, varint (InitialMaxStreamDataBidiLocal p));
   (initialMaxStreamDataBidiRemoteParameterID, varint (InitialMaxStreamDataBidiRemote p));
   (initialMaxStreamDataUniParameterID, varint (InitialMaxStreamDataUni p));
   (initialMaxDataParameterID, varint (InitialMaxData p));
   (initialMaxStreamsBidiParameterID, varint (MaxBidiStreamNum p));
   (initialMaxStreamsUniParameterID, varint (MaxUniStreamNum p));
   (idleTimeoutParameterID, varint (IdleTimeout p / Millisecond));
   (maxPacketSizeParameterID, varint MaxReceivePacketSize)].
Definition ack_delay_params (p : TransportParameters) : list param :=
  when (negb (tp_MaxAckDelay p =? DefaultMaxAckDelay)) [(maxAckDelayParameterID, varint (tp_MaxAckDelay p / Millisecond))].
Definition exponent_params (p : TransportParameters) : list param :=
  when (negb (tp_AckDelayExponent p =? DefaultAckDelayExponent)) [(ackDelayExponentParameterID, varint (tp_AckDelayExponent p))].
Definition other_params (p : TransportParameters) : list param :=
  when (DisableMigration p) [(disableMigrationParameterID, [])] ++
  (match StatelessResetToken p with Some t => [(statelessResetTokenParameterID, t)] | None => [] end) ++
  when (0 <? len (OriginalConnectionID p)) [(originalConnectionIDParameterID, OriginalConnectionID p)].
Definition marshalled (p : TransportParameters) (grease : Z) (rnd : list Z) : list param :=
  (27 + 31 * grease, rnd) :: fixed_params p ++ ack_delay_params p ++ exponent_params p ++ other_params p.

(** Parameters a server, or (without the last two) a client, may send: varints,
    times that are positive durations, a token of 16 bytes. *)
Definition tp_ok (p : TransportParameters) (sentBy : Perspective) : Prop :=
  (0 <= InitialMaxStreamDataBidiLocal p <= maxVarInt8 ∧ 0 <= InitialMaxStreamDataBidiRemote p <= maxVarInt8) ∧
  (0 <= InitialMaxStreamDataUni p <= maxVarInt8 ∧ 0 <= InitialMaxData p <= maxVarInt8) ∧
  (0 <= MaxBidiStreamNum p <= maxVarInt8 ∧ 0 <= MaxUniStreamNum p <= maxVarInt8) ∧
  (0 <= IdleTimeout p < 2 ^ 63 ∧ 0 <= tp_MaxAckDelay p < MaxMaxAckDelay ∧ 0 <= tp_AckDelayExponent p <= MaxAckDelayExponent) ∧
  (∀ t, StatelessResetToken p = Some t → len t = 16) ∧ len (OriginalConnectionID p) <= 255 ∧
  (sentBy = PerspectiveClient → StatelessResetToken p = None ∧ OriginalConnectionID p = []).
(** What the peer sees of them: times in whole milliseconds, the idle timeout
    not below the minimum, the packet size this endpoint receives. *)
Definition tp_received (p : TransportParameters) : TransportParameters :=
  mkTP (InitialMaxStreamDataBidiLocal p) (InitialMaxStreamDataBidiRemote p) (InitialMaxStreamDataUni p) (InitialMaxData p)
    (tp_MaxAckDelay p / Millisecond * Millisecond) (tp_AckDelayExponent p) (DisableMigration p) MaxReceivePacketSize
    (MaxUniStreamNum p) (MaxBidiStreamNum p) (Z.max MinRemoteIdleTimeout (IdleTimeout p / Millisecond * Millisecond))
    (StatelessResetToken p) (OriginalConnectionID p).

Lemma emits_varint_param id v : 0 <= v <= maxVarInt8 → emits (marshalVarintParam id v) (tlv (id, varint v)).
Proof.
  intros Hv. unfold marshalVarintParam, tlv; cbn [fst snd]. apply emits_then; [apply emits_Uint16|].
  intros b. rewrite VarIntLen_varint by lia. pose proof (varint_len v ltac:(lia)). rewrite u16_small by lia.
  apply emits_then; [apply emits_Uint16|]. apply emits_WriteVarInt; lia.
Qed.
Lemma emits_when c w s : emits w s → emits (wwhen c w) (when c s).
Proof. destruct c; [done|]. intros _. apply emits_done. Qed.
Lemma tlvs_app l k : tlvs (l ++ k) = tlvs l ++ tlvs k.
Proof. apply bind_app. Qed.
Lemma tlvs_when (c : bool) l : tlvs (when c l) = when c (tlvs l).
Proof. by destruct c. Qed.
Lemma tlvs_one pr : tlvs [pr] = tlv pr.
Proof. apply app_nil_r. Qed.

Lemma quot_ms t : 0 <= t < 2 ^ 63 → u64 (Z.quot t Millisecond) = t / Millisecond ∧ 0 <= t / Millisecond <= maxVarInt8.
Proof.
  unfold Millisecond, maxVarInt8. intros. rewrite Z.quot_div_nonneg by lia.
  assert (0 <= t / 1000000 <= t) by (split; [apply Z.div_pos; lia|apply Z.div_le_upper_bound; lia]).
  assert (t / 1000000 < 2 ^ 62) by (apply Z.div_lt_upper_bound; lia). unwrap. lia.
Qed.
Lemma emits_marshal_params p s g rnd : tp_ok p s → 0 <= g < 100 → len rnd < 16 →
  emits (marshal_params p g rnd) (tlvs (marshalled p g rnd)).
Proof.
  intros ((?&?) & (?&?) & (?&?) & (Hi&Ha&?) & Ht & Hc & _) Hg Hr.
  unfold marshal_params, marshalled. rewrite tlvs_cons, !tlvs_app.
  assert (maxVarInt8 < 2 ^ 63) by (unfold maxVarInt8; lia).
  rewrite !(u64_small (MaxBidiStreamNum p)), !(u64_small (MaxUniStreamNum p)) by lia.
  destruct (quot_ms (IdleTimeout p)) as [-> ?]; [lia|].
  destruct (quot_ms (tp_MaxAckDelay p)) as [-> ?]; [unfold MaxMaxAckDelay, Millisecond in Ha; lia|].
  unfold tlv at 1; cbn [fst snd]. pose proof (len_nonneg rnd). rewrite !u16_small by lia.
  rewrite <- !app_assoc. apply emits_then; [apply emits_Uint16|]. apply emits_then; [apply emits_Uint16|].
  apply emits_then; [apply emits_bytes|]. unfold fixed_params. rewrite !tlvs_cons. cbn [tlvs]. change (tlvs []) with (@nil Z).
  rewrite app_nil_r, <- !app_assoc.
  assert (0 <= MaxReceivePacketSize <= maxVarInt8) by (unfold MaxReceivePacketSize, maxVarInt8; lia).
  do 8 (apply emits_then; [by apply emits_varint_param|]).
  unfold ack_delay_params, exponent_params, other_params. rewrite !tlvs_app, !tlvs_when, !tlvs_one, <- ?app_assoc.
  apply emits_then; [by apply emits_when, emits_varint_param|].
  apply emits_then.
  { apply emits_when, emits_varint_param. unfold MaxAckDelayExponent, maxVarInt8 in *. lia. }
  apply emits_then; [apply emits_when, emits_then; apply emits_Uint16|].
  apply emits_then.
  - destruct (StatelessResetToken p) as [t|]; [|apply emits_done]. rewrite tlvs_one. unfold tlv; cbn [fst snd].
    rewrite (Ht t eq_refl). repeat (apply emits_then; [apply emits_Uint16|]). apply emits_bytes.
  - pose proof (len_nonneg (OriginalConnectionID p)). rewrite u16_small by lia.
    apply emits_when. unfold tlv; cbn [fst snd]. repeat (apply emits_then; [apply emits_Uint16|]). apply emits_bytes.
Qed.

Lemma apply_params_app p s l k : apply_params p s (l ++ k) = (q ← apply_params p s l; apply_params q s k).
Proof. revert p. induction l as [|pr l IH]; intros p; [done|]. cbn [apply_params app]. destruct (apply_param p s pr); cbn; [apply IH|done]. Qed.
Lemma apply_numeric p s id v q : isNumeric id = true → 0 <= v <= maxVarInt8 → set_numeric p id v = (q, None) →
  apply_param p s (id, varint v) = Some q.
Proof.
  intros Hi Hv Hq. unfold apply_param. rewrite Hi. pose proof (reads_ReadVarInt v ltac:(lia) []) as E. rewrite app_nil_r in E.
  by rewrite E, Hq.
Qed.
Lemma ms_small v : 0 <= v → v * Millisecond < 2 ^ 63 → i64 (i64 v * Millisecond) = v * Millisecond.
Proof. unfold Millisecond. intros. by rewrite (i64_small v), i64_small by lia. Qed.
Lemma div_ms t : 0 <= t → 0 <= t / Millisecond * Millisecond <= t.
Proof. unfold Millisecond. intros. pose proof (Z.mul_div_le t 1000000). pose proof (Z.div_pos t 1000000). lia. Qed.

Lemma MaxDuration_max a b : MaxDuration a b = Z.max a b.
Proof. unfold MaxDuration. zcases; lia. Qed.

Lemma apply_fixed p s : tp_ok p s → apply_params tp_zero s (fixed_params p) = Some
  (mkTP (InitialMaxStreamDataBidiLocal p) (InitialMaxStreamDataBidiRemote p) (InitialMaxStreamDataUni p) (InitialMaxData p)
    0 0 false MaxReceivePacketSize (MaxUniStreamNum p) (MaxBidiStreamNum p)
    (Z.max MinRemoteIdleTimeout (IdleTimeout p / Millisecond * Millisecond)) None []).
Proof.
  intros ((?&?) & (?&?) & (?&?) & (Hi&Ha&?) & _). unfold fixed_params.
  assert (maxVarInt8 < 2 ^ 63) by (unfold maxVarInt8; lia).
  assert (0 <= MaxReceivePacketSize <= maxVarInt8) by (unfold MaxReceivePacketSize, maxVarInt8; lia).
  destruct (quot_ms (IdleTimeout p)) as [_ ?]; [lia|]. pose proof (div_ms (IdleTimeout p) ltac:(lia)).
  cbn [apply_params]. repeat (erewrite apply_numeric by (reflexivity || done); cbn [mbind option_bind]).
  cbn [InitialMaxStreamDataBidiLocal InitialMaxStreamDataBidiRemote InitialMaxStreamDataUni InitialMaxData
    tp_MaxAckDelay tp_AckDelayExponent DisableMigration MaxPacketSize MaxUniStreamNum MaxBidiStreamNum IdleTimeout
    StatelessResetToken OriginalConnectionID set_times set_nums set_streams tp_zero].
  rewrite ms_small by lia. rewrite (i64_small (MaxUniStreamNum p)), (i64_small (MaxBidiStreamNum p)) by lia.
  by rewrite MaxDuration_max.
Qed.
Lemma apply_ack_delay p s q : tp_ok p s → tp_MaxAckDelay q = 0 → apply_params q s (ack_delay_params p) = Some
  (set_times q (if tp_MaxAckDelay p =? DefaultMaxAckDelay then 0 else tp_MaxAckDelay p / Millisecond * Millisecond)
     (tp_AckDelayExponent q) (MaxPacketSize q) (IdleTimeout q)).
Proof.
  intros (_ & _ & _ & (_&Ha&_) & _) Hq. unfold ack_delay_params, when. destruct (_ =? DefaultMaxAckDelay).
  { cbn. destruct q; cbn in *. by rewrite <- Hq. }
  pose proof (div_ms (tp_MaxAckDelay p) ltac:(lia)). unfold MaxMaxAckDelay in *.
  destruct (quot_ms (tp_MaxAckDelay p)) as [_ ?]; [unfold Millisecond in *; lia|].
  cbn [apply_params negb]. erewrite apply_numeric; [|done..|].
  2: { match goal with |- set_numeric ?q _ ?v = _ => change (set_numeric q maxAckDelayParameterID v) with
      (let d := i64 (i64 v * Millisecond) in
       if MaxMaxAckDelay <=? d then (q, Some (Errorf "invalid value for max_ack_delay: %dms (maximum %dms)"
         [Z.quot d Millisecond; Z.quot (MaxMaxAckDelay - Millisecond) Millisecond]))
       else (set_times q (if d <? 0 then InfDuration else d) (tp_AckDelayExponent q) (MaxPacketSize q) (IdleTimeout q), None)) end.
    rewrite ms_small by (unfold Millisecond in *; lia). cbv zeta. rewrite (proj2 (Z.leb_gt _ _)) by (unfold MaxMaxAckDelay, Millisecond in *; lia).
    rewrite (proj2 (Z.ltb_ge _ _)) by lia. reflexivity. }
  done.
Qed.
Lemma apply_exponent p s q : tp_ok p s → tp_AckDelayExponent q = 0 → apply_params q s (exponent_params p) = Some
  (set_times q (tp_MaxAckDelay q) (if tp_AckDelayExponent p =? DefaultAckDelayExponent then 0 else tp_AckDelayExponent p)
     (MaxPacketSize q) (IdleTimeout q)).
Proof.
  intros (_ & _ & _ & (_&_&Ha) & _) Hq. unfold exponent_params, when. destruct (_ =? DefaultAckDelayExponent).
  { cbn. destruct q; cbn in *. by rewrite <- Hq. }
  unfold MaxAckDelayExponent in *. cbn [apply_params negb]. erewrite apply_numeric; [|done|unfold maxVarInt8; lia|].
  2: { match goal with |- set_numeric ?q _ ?v = _ => change (set_numeric q ackDelayExponentParameterID v) with
      (if 20 <? v then (q, Some (Errorf "invalid value for ack_delay_exponent: %d (maximum %d)" [v; MaxAckDelayExponent]))
       else (set_times q (tp_MaxAckDelay q) (u8 v) (MaxPacketSize q) (IdleTimeout q), None)) end.
    rewrite (proj2 (Z.ltb_ge _ _)) by lia. rewrite u8_small by lia. reflexivity. }
  done.
Qed.
Lemma apply_other p s q : tp_ok p s → DisableMigration q = false → StatelessResetToken q = None → OriginalConnectionID q = [] →
  apply_params q s (other_params p) =
  Some (set_rest q (DisableMigration p) (StatelessResetToken p) (OriginalConnectionID p)).
Proof.
  intros (_ & _ & _ & _ & Ht & _ & Hs) E1 E2 E3. unfold other_params. rewrite !apply_params_app.
  assert (∀ q t, s = PerspectiveServer → len t = 16 → apply_param q s (statelessResetTokenParameterID, t) =
    Some (set_rest q (DisableMigration q) (Some t) (OriginalConnectionID q))) as Htok.
  { intros ? t -> Hl. cbn. by rewrite Hl. }
  assert (∀ q c, s = PerspectiveServer → apply_param q s (originalConnectionIDParameterID, c) =
    Some (set_rest q (DisableMigration q) (StatelessResetToken q) c)) as Hcid by (by intros ?? ->).
  destruct q; cbn [DisableMigration StatelessResetToken OriginalConnectionID] in *; subst.
  destruct s.
  2: { destruct Hs as [-> ->]; [done|]. by destruct (DisableMigration p). }
  assert (∀ q, apply_param q PerspectiveServer (disableMigrationParameterID, []) =
    Some (set_rest q true (StatelessResetToken q) (OriginalConnectionID q))) as Hmig by done.
  assert (Hc : ∀ (c : Z) l, (0 <? len (c :: l)) = true).
  { intros c l. rewrite len_cons. apply Z.ltb_lt. pose proof (len_nonneg l). lia. }
  destruct (StatelessResetToken p) as [t|]; [specialize (Ht t eq_refl)|clear Ht]; destruct (DisableMigration p);
    cbn [when apply_params mbind option_bind app]; rewrite ?Hmig; cbn [mbind option_bind]; rewrite ?Htok by done;
    cbn [mbind option_bind]; (destruct (OriginalConnectionID p) as [|c cid]; [done|]);
    rewrite Hc; cbn [when apply_params mbind option_bind]; by rewrite Hcid.
Qed.

Lemma when_ids_11 p : maxAckDelayParameterID ∈ (ack_delay_params p).*1 ↔ tp_MaxAckDelay p ≠ DefaultMaxAckDelay.
Proof. unfold ack_delay_params, when. destruct (Z.eqb_spec (tp_MaxAckDelay p) DefaultMaxAckDelay); cbn; rewrite ?elem_of_cons, elem_of_nil; tauto. Qed.
Lemma when_ids_10 p : ackDelayExponentParameterID ∈ (exponent_params p).*1 ↔ tp_AckDelayExponent p ≠ DefaultAckDelayExponent.
Proof. unfold exponent_params, when. destruct (Z.eqb_spec (tp_AckDelayExponent p) DefaultAckDelayExponent); cbn; rewrite ?elem_of_cons, elem_of_nil; tauto. Qed.
(** The ids [Marshal] may write, in its order. *)
Definition marshal_ids : list Z := [5; 6; 7; 4; 8; 9; 1; 3; 11; 10; 12; 2; 0].
Lemma marshalled_ids p g rnd : ∃ ids, (marshalled p g rnd).*1 = 27 + 31 * g :: ids ∧ sublist ids marshal_ids ∧
  (maxAckDelayParameterID ∈ ids ↔ tp_MaxAckDelay p ≠ DefaultMaxAckDelay) ∧
  (ackDelayExponentParameterID ∈ ids ↔ tp_AckDelayExponent p ≠ DefaultAckDelayExponent).
Proof.
  exists ((fixed_params p).*1 ++ (ack_delay_params p).*1 ++ (exponent_params p).*1 ++ (other_params p).*1).
  split; [unfold marshalled; by rewrite fmap_cons, !fmap_app|].
  assert (Ho : sublist (other_params p).*1 [12; 2; 0]).
  { unfold other_params. rewrite !fmap_app. change [12; 2; 0] with ([12] ++ [2] ++ [0]).
    repeat apply sublist_app; [destruct (DisableMigration p)|destruct (StatelessResetToken p)|destruct (0 <? _)];
      cbn; repeat constructor. }
  assert (Ha : sublist (ack_delay_params p).*1 [11]) by (unfold ack_delay_params; destruct (_ =? _); cbn; repeat constructor).
  assert (He : sublist (exponent_params p).*1 [10]) by (unfold exponent_params; destruct (_ =? _); cbn; repeat constructor).
  split_and!.
  - change marshal_ids with ([5; 6; 7; 4; 8; 9; 1; 3] ++ [11] ++ [10] ++ [12; 2; 0]). by repeat apply sublist_app.
  - rewrite !elem_of_app, when_ids_11. split; [|tauto]. intros [H|[H|[H|H]]]; [|done|..];
      [change ((fixed_params p).*1) with [5; 6; 7; 4; 8; 9; 1; 3] in H|apply (λ h, elem_of_sublist _ _ _ h He) in H|apply (λ h, elem_of_sublist _ _ _ h Ho) in H];
      exfalso; revert H; rewrite !elem_of_cons, elem_of_nil; unfold maxAckDelayParameterID; lia.
  - rewrite !elem_of_app, when_ids_10. split; [|tauto]. intros [H|[H|[H|H]]]; [| |done|];
      [change ((fixed_params p).*1) with [5; 6; 7; 4; 8; 9; 1; 3] in H|apply (λ h, elem_of_sublist _ _ _ h Ha) in H|apply (λ h, elem_of_sublist _ _ _ h Ho) in H];
      exfalso; revert H; rewrite !elem_of_cons, elem_of_nil; unfold ackDelayExponentParameterID; lia.
Qed.
Lemma marshalled_NoDup p g rnd : 0 <= g → NoDup (marshalled p g rnd).*1.
Proof.
  intros Hg. destruct (marshalled_ids p g rnd) as (ids & -> & Hs & _). constructor.
  - intros H. apply (λ h, elem_of_sublist _ _ _ h Hs) in H. revert H. unfold marshal_ids. rewrite !elem_of_cons, elem_of_nil. lia.
  - eapply sublist_NoDup; [|exact Hs]. apply (bool_decide_unpack _). vm_compute. exact I.
Qed.

Lemma len_tlv pr : len (tlv pr) = 4 + len pr.2.
Proof. unfold tlv. rewrite !len_app. change (len [_; _]) with 2. lia. Qed.
Lemma len_tlvs_bound l b : Forall (λ pr : param, len pr.2 <= b) l → len (tlvs l) <= (4 + b) * len l.
Proof. induction 1 as [|pr l Hb _ IH]; [unfold len; cbn; lia|]. rewrite tlvs_cons, len_app, len_tlv, len_cons. lia. Qed.
Lemma marshalled_values p s g rnd : tp_ok p s → len rnd < 16 → Forall (λ pr : param, len pr.2 <= 255) (marshalled p g rnd).
Proof.
  intros ((?&?) & (?&?) & (?&?) & (Hi&Ha&?) & Ht & Hc & _) Hr.
  destruct (quot_ms (IdleTimeout p)) as [_ ?]; [lia|].
  destruct (quot_ms (tp_MaxAckDelay p)) as [_ ?]; [unfold MaxMaxAckDelay, Millisecond in Ha; lia|].
  assert (MaxAckDelayExponent <= maxVarInt8) by (unfold MaxAckDelayExponent, maxVarInt8; lia).
  assert (MaxReceivePacketSize <= maxVarInt8) by (unfold MaxReceivePacketSize, maxVarInt8; lia).
  assert (Hv : ∀ v, v <= maxVarInt8 → len (varint v) <= 255) by (intros v ?; pose proof (varint_len v); lia).
  unfold marshalled, fixed_params, ack_delay_params, exponent_params, other_params, when.
  repeat first [apply Forall_cons; split | apply Forall_app; split | apply Forall_nil_2
    | match goal with |- Forall _ (if ?c then _ else _) => destruct c end]; cbn [snd]; try (apply Hv; lia); try lia; try done.
  destruct (StatelessResetToken p) as [t|]; [|done]. apply Forall_singleton. cbn. rewrite (Ht t eq_refl). lia.
Qed.
Lemma marshalled_ok p s g rnd : tp_ok p s → 0 <= g < 100 → len rnd < 16 →
  Forall param_ok (marshalled p g rnd) ∧ len (tlvs (marshalled p g rnd)) < 2 ^ 16.
Proof.
  intros Hp Hg Hr. pose proof (marshalled_values p s g rnd Hp Hr) as Hv.
  destruct (marshalled_ids p g rnd) as (ids & E & Hs & _). split.
  - assert (Forall (λ i, 0 <= i < 2 ^ 16) (marshalled p g rnd).*1) as Hids.
    { rewrite E. constructor; [lia|]. apply Forall_forall. intros i Hi.
      apply (λ h, elem_of_sublist _ _ _ h Hs) in Hi. revert Hi. unfold marshal_ids. rewrite !elem_of_cons, elem_of_nil. lia. }
    rewrite Forall_fmap in Hids. rewrite Forall_forall in *. intros pr Hpr. specialize (Hids pr Hpr). specialize (Hv pr Hpr).
    cbn in Hids, Hv. split; lia.
  - apply len_tlvs_bound in Hv. assert (len (marshalled p g rnd) <= 14); [|lia].
    apply sublist_length in Hs. pose proof (length_fmap fst (marshalled p g rnd)) as El. rewrite E in El.
    change (length marshal_ids) with 13%nat in Hs. cbn [length] in El. unfold len, param in *. lia.
Qed.

(** The struct before the defaults are filled in. *)
Definition unmarshalled (p : TransportParameters) : TransportParameters :=
  mkTP (InitialMaxStreamDataBidiLocal p) (InitialMaxStreamDataBidiRemote p) (InitialMaxStreamDataUni p) (InitialMaxData p)
    (if tp_MaxAckDelay p =? DefaultMaxAckDelay then 0 else tp_MaxAckDelay p / Millisecond * Millisecond)
    (if tp_AckDelayExponent p =? DefaultAckDelayExponent then 0 else tp_AckDelayExponent p)
    (DisableMigration p) MaxReceivePacketSize (MaxUniStreamNum p) (MaxBidiStreamNum p)
    (Z.max MinRemoteIdleTimeout (IdleTimeout p / Millisecond * Millisecond)) (StatelessResetToken p) (OriginalConnectionID p).
Lemma apply_marshalled p s g rnd : tp_ok p s → 0 <= g → apply_params tp_zero s (marshalled p g rnd) = Some (unmarshalled p).
Proof.
  intros Hp Hg. unfold marshalled. cbn [apply_params].
  assert (apply_param tp_zero s (27 + 31 * g, rnd) = Some tp_zero) as ->.
  { unfold apply_param, isNumeric. rewrite bool_decide_eq_false_2.
    - unfold disableMigrationParameterID, statelessResetTokenParameterID, originalConnectionIDParameterID.
      by rewrite !(proj2 (Z.eqb_neq _ _)) by lia.
    - rewrite !elem_of_cons, elem_of_nil. unfold ackDelayExponentParameterID, maxAckDelayParameterID,
        initialMaxStreamDataBidiLocalParameterID, initialMaxStreamDataBidiRemoteParameterID,
        initialMaxStreamDataUniParameterID, initialMaxDataParameterID, initialMaxStreamsBidiParameterID,
        initialMaxStreamsUniParameterID, idleTimeoutParameterID, maxPacketSizeParameterID. lia. }
  cbn [mbind option_bind]. rewrite apply_params_app, (apply_fixed p s Hp). cbn [mbind option_bind].
  rewrite apply_params_app, (apply_ack_delay p s _ Hp) by done. cbn [mbind option_bind].
  rewrite apply_params_app, (apply_exponent p s _ Hp) by done. cbn [mbind option_bind]. by rewrite (apply_other p s _ Hp).
Qed.
Lemma with_defaults_marshalled p g ids : 0 <= g →
  (maxAckDelayParameterID ∈ ids ↔ tp_MaxAckDelay p ≠ DefaultMaxAckDelay) →
  (ackDelayExponentParameterID ∈ ids ↔ tp_AckDelayExponent p ≠ DefaultAckDelayExponent) →
  with_defaults (unmarshalled p) (27 + 31 * g :: ids) = tp_received p.
Proof.
  intros Hg H11 H10. unfold with_defaults.
  assert (∀ i, i <= 20 → i ∈ 27 + 31 * g :: ids ↔ i ∈ ids) as Hi.
  { intros i Hi. rewrite elem_of_cons. split; [intros [?|?]; [lia|done]|tauto]. }
  assert (bool_decide (maxAckDelayParameterID ∈ 27 + 31 * g :: ids) = negb (tp_MaxAckDelay p =? DefaultMaxAckDelay)) as ->.
  { apply eq_bool_prop_intro. rewrite bool_decide_spec, Hi, H11 by done. destruct (Z.eqb_spec (tp_MaxAckDelay p) DefaultMaxAckDelay); cbn; tauto. }
  assert (bool_decide (ackDelayExponentParameterID ∈ 27 + 31 * g :: ids) = negb (tp_AckDelayExponent p =? DefaultAckDelayExponent)) as ->.
  { apply eq_bool_prop_intro. rewrite bool_decide_spec, Hi, H10 by done. destruct (Z.eqb_spec (tp_AckDelayExponent p) DefaultAckDelayExponent); cbn; tauto. }
  unfold unmarshalled, tp_received. cbn [tp_MaxAckDelay tp_AckDelayExponent MaxPacketSize set_times].
  destruct (Z.eqb_spec (tp_MaxAckDelay p) DefaultMaxAckDelay) as [E|], (Z.eqb_spec (tp_AckDelayExponent p) DefaultAckDelayExponent) as [E'|];
    unfold set_times; cbn; f_equal; rewrite ?E, ?E'; done.
Qed.

(** C33: What [Marshal] writes is read back by [Unmarshal] as the peer's
    parameters: the numbers and the token as they were, times rounded down to
    milliseconds and the idle timeout raised to its minimum, whichever greased
    parameter was added.  The parameters left out because they have their
    default value are restored. *)
Theorem transport_parameters_roundtrip p s grease rnd
    (Hp : tp_ok p s) (Hg : 0 <= grease < 100) (Hr : len rnd < 16) :
  ∃ data, Marshal p grease rnd = Ok data ∧ Unmarshal tp_zero data s = (tp_received p, None).
Proof.
  destruct (marshalled_ok p s grease rnd Hp Hg Hr) as [Hok Hlen].
  set (l := marshalled p grease rnd) in *.
  assert (HM : Marshal p grease rnd = Ok ([byte_at (len (tlvs l)) 8; u8 (len (tlvs l))] ++ tlvs l)).
  { unfold Marshal, wthen at 1. cbn [WriteBytes app]. rewrite (emits_marshal_params p s grease rnd Hp Hg Hr). fold l.
    rewrite !len_app. change (len [0; 0]) with 2. pose proof (len_nonneg (tlvs l)). rewrite u16_small by lia.
    replace (2 + len (tlvs l) - 2) with (len (tlvs l)) by lia. done. }
  eexists. split; [exact HM|].
  apply Unmarshal_accepts. exists (len (tlvs l)), l. pose proof (len_nonneg (tlvs l)).
  eexists. split_and!; [done|lia..|done|apply marshalled_NoDup; lia|apply apply_marshalled; [done|lia]|].
  destruct (marshalled_ids p grease rnd) as (ids & E & _ & H11 & H10). fold l in E. rewrite E.
  symmetry. apply with_defaults_marshalled; [lia|done..].
Qed.
Lemma transport_parameters_roundtrip_witness :
  ∃ data, Marshal (mkTP 100 200 300 400 (30 * Millisecond) 5 true 0 7 8 (30000 * Millisecond) (Some (replicate 16 7)) [1; 2; 3; 4])
    3 [9; 9; 9] = Ok data.
Proof.
  destruct (transport_parameters_roundtrip
    (mkTP 100 200 300 400 (30 * Millisecond) 5 true 0 7 8 (30000 * Millisecond) (Some (replicate 16 7)) [1; 2; 3; 4])
    PerspectiveServer 3 [9; 9; 9]) as (data & H & _).
  - unfold tp_ok. cbn. unfold maxVarInt8, Millisecond, MaxMaxAckDelay, MaxAckDelayExponent, Millisecond.
    split_and!; try lia; try done. by intros t [= <-].
  - lia.
  - unfold len; cbn; lia.
  - by exists data.
Defined.

(** * What the parameters mean *)

(** The value that was sent under an id, and the number it holds, if it is exactly one
    variable length integer. *)
Fixpoint sent_value (l : list param) (id : Z) : option (list Z) := match l with [] => None | (i, v) :: l => if i =? id then Some v else sent_value l id end.
Definition varint_value (v : list Z) : option Z := match ReadVarInt v with Ok (n, []) => Some n | _ => None end.
Definition sent_number (l : list param) (id : Z) : option Z := v ← sent_value l id; varint_value v.
(** The limits: a packet size of at least 1200, an exponent of at most 20, a delay of
    less than 2^14 ms; a token, of 16 bytes, and a connection ID only from a server. *)
Definition valid_param (s : Perspective) (pr : param) : Prop :=
  let '(id, v) := pr in
  (id ∈ [1; 3; 4; 5; 6; 7; 8; 9; 10; 11] → ∃ n, varint_value v = Some n ∧ (id = 3 → 1200 <= n) ∧ (id = 10 → n <= 20) ∧ (id = 11 → n < 2 ^ 14)) ∧
  (id = 12 → v = []) ∧ (id = 2 → s = PerspectiveServer ∧ len v = 16) ∧ (id = 0 → s = PerspectiveServer).
(** The struct that the parameters describe: each number in the field of its own, times
    in milliseconds, at least five seconds for the idle timeout, and the defaults of
    those that are missing. *)
Definition tp_described (l : list param) : TransportParameters :=
  mkTP (default 0 (sent_number l 5)) (default 0 (sent_number l 6)) (default 0 (sent_number l 7)) (default 0 (sent_number l 4))
    (from_option (λ n, n * 1000000) 25000000 (sent_number l 11)) (default 3 (sent_number l 10)) (bool_decide (sent_value l 12 ≠ None)) (default (2 ^ 62 - 1) (sent_number l 3))
    (default 0 (sent_number l 9)) (default 0 (sent_number l 8)) (from_option (λ n, Z.max 5000000000 (n * 1000000)) 0 (sent_number l 1)) (sent_value l 2) (default [] (sent_value l 0)).
(** Times of less than 2^42 ms, about 139 years. *)
Definition times_small (l : list param) : Prop := Forall (λ pr : param, pr.1 = 1 ∨ pr.1 = 11 → ∀ n, varint_value pr.2 = Some n → n < 2 ^ 42) l.

(** The struct after the parameters, with the fields of those that are missing as they
    were in [p]. *)
Definition tp_read_from (p : TransportParameters) (l : list param) : TransportParameters :=
  mkTP (default (InitialMaxStreamDataBidiLocal p) (sent_number l 5)) (default (InitialMaxStreamDataBidiRemote p) (sent_number l 6)) (default (InitialMaxStreamDataUni p) (sent_number l 7))
    (default (InitialMaxData p) (sent_number l 4)) (from_option (λ n, n * 1000000) (tp_MaxAckDelay p) (sent_number l 11)) (default (tp_AckDelayExponent p) (sent_number l 10))
    (match sent_value l 12 with Some _ => true | None => DisableMigration p end) (default (MaxPacketSize p) (sent_number l 3)) (default (MaxUniStreamNum p) (sent_number l 9)) (default (MaxBidiStreamNum p) (sent_number l 8))
    (from_option (λ n, Z.max 5000000000 (n * 1000000)) (IdleTimeout p) (sent_number l 1)) (match sent_value l 2 with Some t => Some t | None => StatelessResetToken p end) (default (OriginalConnectionID p) (sent_value l 0)).
Lemma varint_value_range v n : bytes_ok v → varint_value v = Some n → 0 <= n < 2 ^ 62.
Proof.
  unfold varint_value. intros Hb E. destruct (ReadVarInt v) as [[m []]| |] eqn:Ev; try done. injection E as <-.
  apply yields_ReadVarInt in Ev as [_ Hv]; [|done]. unfold maxVarInt8 in Hv. lia.
Qed.
Lemma isNumeric_ids id : isNumeric id = bool_decide (id ∈ [1; 3; 4; 5; 6; 7; 8; 9; 10; 11]).
Proof.
  apply bool_decide_ext. rewrite !elem_of_cons, elem_of_nil. unfold ackDelayExponentParameterID, maxAckDelayParameterID, initialMaxStreamDataBidiLocalParameterID,
    initialMaxStreamDataBidiRemoteParameterID, initialMaxStreamDataUniParameterID, initialMaxDataParameterID, initialMaxStreamsBidiParameterID, initialMaxStreamsUniParameterID,
    idleTimeoutParameterID, maxPacketSizeParameterID. lia.
Qed.
Lemma number_one id v i : sent_number [(id, v)] i = if id =? i then varint_value v else None.
Proof. unfold sent_number. cbn [sent_value]. by destruct (id =? i). Qed.
Lemma set_numeric_read p id v n q : 0 <= n < 2 ^ 62 → varint_value v = Some n → id ∈ [1; 3; 4; 5; 6; 7; 8; 9; 10; 11] → (id = 1 ∨ id = 11 → n < 2 ^ 42) →
  set_numeric p id n = (q, None) ↔ ((id = 3 → 1200 <= n) ∧ (id = 10 → n <= 20) ∧ (id = 11 → n < 2 ^ 14)) ∧ q = tp_read_from p [(id, v)].
Proof.
  intros Hn Ev Hid Hsmall. unfold tp_read_from. rewrite !number_one, Ev. unfold set_numeric, ackDelayExponentParameterID, maxAckDelayParameterID, initialMaxStreamDataBidiLocalParameterID,
    initialMaxStreamDataBidiRemoteParameterID, initialMaxStreamDataUniParameterID, initialMaxDataParameterID, initialMaxStreamsBidiParameterID, initialMaxStreamsUniParameterID,
    idleTimeoutParameterID, maxPacketSizeParameterID, MaxMaxAckDelay, MaxAckDelayExponent, MinRemoteIdleTimeout, Millisecond.
  apply list_elem_of_In in Hid. repeat (destruct Hid as [<-|Hid]; [idtac|]); [..|done]; cbn [Z.eqb Pos.eqb sent_value default from_option]; cbv zeta;
    rewrite ?(i64_small n) by lia.
  - rewrite MaxDuration_max, i64_small by lia. split; [intros [= <-]|intros [_ ->]]; [split; [lia|]|]; reflexivity.
  - destruct (Z.ltb_spec n 1200); [split; [done|lia]|]. split; [intros [= <-]|intros [_ ->]]; [split; [lia|]|]; done.
  - split; [intros [= <-]|intros [_ ->]]; [split; [lia|]|]; done.
  - split; [intros [= <-]|intros [_ ->]]; [split; [lia|]|]; done.
  - split; [intros [= <-]|intros [_ ->]]; [split; [lia|]|]; done.
  - split; [intros [= <-]|intros [_ ->]]; [split; [lia|]|]; done.
  - split; [intros [= <-]|intros [_ ->]]; [split; [lia|]|]; done.
  - split; [intros [= <-]|intros [_ ->]]; [split; [lia|]|]; done.
  - destruct (Z.ltb_spec 20 n); [split; [done|lia]|]. rewrite u8_small by lia. split; [intros [= <-]|intros [_ ->]]; [split; [lia|]|]; done.
  - rewrite i64_small by lia. destruct (Z.leb_spec (2 ^ 14 * 1000000) (n * 1000000)); [split; [done|lia]|]. rewrite (proj2 (Z.ltb_ge _ 0)) by lia.
    split; [intros [= <-]|intros [_ ->]]; [split; [lia|]|]; done.
Qed.
Lemma apply_param_read p s id v q : bytes_ok v → (id = 1 ∨ id = 11 → ∀ n, varint_value v = Some n → n < 2 ^ 42) →
  apply_param p s (id, v) = Some q ↔ valid_param s (id, v) ∧ q = tp_read_from p [(id, v)].
Proof.
  intros Hb Hsmall. unfold apply_param, valid_param. rewrite isNumeric_ids. case_bool_decide as Hid.
  - assert (id ≠ 12 ∧ id ≠ 2 ∧ id ≠ 0) as (N1 & N2 & N3) by (clear -Hid; rewrite !elem_of_cons, elem_of_nil in Hid; lia).
    assert (∀ P, P ∧ (id = 12 → v = []) ∧ (id = 2 → s = PerspectiveServer ∧ len v = 16) ∧ (id = 0 → s = PerspectiveServer) ↔ P) as Hs by (intros; tauto).
    rewrite Hs. clear Hs. destruct (varint_value v) as [n|] eqn:Ev.
    + pose proof (varint_value_range v n Hb Ev) as Hr. pose proof (set_numeric_read p id v n q Hr Ev Hid ltac:(intros; by apply Hsmall)) as Hsn.
      assert (ReadVarInt v = Ok (n, [])) as ->. { unfold varint_value in Ev. destruct (ReadVarInt v) as [[m []]| |]; by simplify_eq. }
      transitivity (set_numeric p id n = (q, None)); [destruct (set_numeric p id n) as [q' [e|]]; split; congruence|]. rewrite Hsn. split; [intros [H ->]; split; [|done]; intros _; by exists n|].
      intros [H ->]. split; [|done]. destruct (H Hid) as (m & [= <-] & Hm). exact Hm.
    + split; [|intros [H _]; destruct (H Hid) as (m & Em & _); done]. unfold varint_value in Ev. destruct (ReadVarInt v) as [[m []]| |]; done.
  - unfold disableMigrationParameterID, statelessResetTokenParameterID, originalConnectionIDParameterID, tp_read_from. rewrite !number_one.
    pose proof Hid as Hno. rewrite !elem_of_cons, elem_of_nil in Hid. cbn [sent_value].
    destruct (Z.eqb_spec id 12) as [->|N1]; [|destruct (Z.eqb_spec id 2) as [->|N2]; [|destruct (Z.eqb_spec id 0) as [->|N3]]]; cbn [Z.eqb Pos.eqb default from_option].
    + destruct (Z.eqb_spec (len v) 0) as [E|E].
      * split; [intros [= <-]|intros [_ ->]]; [|by destruct p]. split; [|by destruct p]. destruct v; [|rewrite len_cons in E; pose proof (len_nonneg v); lia]. split; [by intros ?%Hno|]. split; [done|]. split; intros [=].
      * split; [done|]. intros [(_ & H & _) _]. by rewrite (H eq_refl) in E.
    + destruct (bool_decide (s = PerspectiveServer) && (len v =? 16)) eqn:Et.
      * apply andb_true_iff in Et as [Es%bool_decide_eq_true El%Z.eqb_eq].
        split; [intros [= <-]|intros [_ ->]]; [|by destruct p]. split; [|by destruct p]. split; [by intros ?%Hno|]. split; [done|]. by split.
      * split; [done|]. intros [(_ & _ & H & _) _]. destruct (H eq_refl) as [Es El]. by rewrite Es, El in Et.
    + destruct (bool_decide (s = PerspectiveServer)) eqn:Et.
      * apply bool_decide_eq_true in Et.
        split; [intros [= <-]|intros [_ ->]]; [|by destruct p]. split; [|by destruct p]. split; [by intros ?%Hno|]. split; [done|]. by split.
      * split; [done|]. intros [(_ & _ & _ & H) _]. by rewrite (H eq_refl) in Et.
    + rewrite !(proj2 (Z.eqb_neq id _)) by lia. split; [intros [= <-]|intros [_ ->]]; [|by destruct p]. split; [|by destruct p]. split; [by intros ?%Hno|]. by split_and!.
Qed.
Lemma sent_none l id : id ∉ l.*1 → sent_value l id = None.
Proof.
  induction l as [|[i v] l IH]; [done|]. cbn [fmap list_fmap fst sent_value]. rewrite not_elem_of_cons. intros [Hi Hl]. rewrite (proj2 (Z.eqb_neq i id)) by congruence. auto.
Qed.
Lemma read_from_cons p id v l : id ∉ l.*1 → tp_read_from (tp_read_from p [(id, v)]) l = tp_read_from p ((id, v) :: l).
Proof.
  intros Hid. apply sent_none in Hid. assert (∀ i, sent_value ((id, v) :: l) i = match sent_value l i with Some w => Some w | None => sent_value [(id, v)] i end) as Hs.
  { intros i. cbn [sent_value]. destruct (Z.eqb_spec id i) as [<-|]; [by rewrite Hid|by destruct (sent_value l i)]. }
  assert (∀ i, sent_number ((id, v) :: l) i = match sent_number l i with Some n => Some n | None => sent_number [(id, v)] i end) as Hn.
  { intros i. unfold sent_number. rewrite Hs. cbn [sent_value]. destruct (Z.eqb_spec id i) as [<-|]; [by rewrite Hid|]. destruct (sent_value l i); [|done]. cbn. by destruct (varint_value _). }
  unfold tp_read_from. cbn [InitialMaxStreamDataBidiLocal InitialMaxStreamDataBidiRemote InitialMaxStreamDataUni InitialMaxData tp_MaxAckDelay tp_AckDelayExponent DisableMigration MaxPacketSize
    MaxUniStreamNum MaxBidiStreamNum IdleTimeout StatelessResetToken OriginalConnectionID]. rewrite !Hs, !Hn.
  f_equal; first [by destruct (sent_number l _)|by match goal with |- context [sent_value l ?i] => destruct (sent_value l i) end].
Qed.
Lemma apply_params_read l : ∀ p s q, NoDup l.*1 → bytes_ok (tlvs l) → times_small l → apply_params p s l = Some q ↔ Forall (valid_param s) l ∧ q = tp_read_from p l.
Proof.
  induction l as [|[id v] l IH]; intros p s q Hnd Hb Ht; cbn [apply_params].
  { split; [intros [= <-]; split; [done|by destruct p]|intros [_ ->]; by destruct p]. }
  cbn [fmap list_fmap fst] in Hnd. apply NoDup_cons in Hnd as [Hid Hnd]. apply Forall_cons in Ht as [Ht1 Ht].
  rewrite tlvs_cons in Hb. unfold tlv in Hb. apply Forall_app in Hb as [Hv Hb]. apply Forall_app in Hv as [_ Hv]. apply Forall_app in Hv as [_ Hv]. cbn [snd] in Hv.
  rewrite Forall_cons, <- read_from_cons by done. pose proof (apply_param_read p s id v) as Hone. destruct (apply_param p s (id, v)) as [q1|].
  - destruct (proj1 (Hone q1 Hv Ht1) eq_refl) as [Hval ->]. cbn [mbind option_bind]. rewrite IH by done. tauto.
  - split; [done|]. intros [[Hval _] _]. by discriminate (proj2 (Hone _ Hv Ht1) (conj Hval eq_refl)).
Qed.
Lemma sent_in l id : id ∈ l.*1 → ∃ v, sent_value l id = Some v ∧ (id, v) ∈ l.
Proof.
  induction l as [|[i v] l IH]; cbn [fmap list_fmap fst sent_value]; [by rewrite elem_of_nil|]. rewrite elem_of_cons. destruct (Z.eqb_spec i id) as [->|Hne].
  - intros _. exists v. split; [done|left].
  - intros [->|H]; [done|]. destruct (IH H) as (w & E & Hw). exists w. split; [done|by right].
Qed.
Lemma number_in s l id : Forall (valid_param s) l → id ∈ [1; 3; 4; 5; 6; 7; 8; 9; 10; 11] → id ∈ l.*1 → ∃ n, sent_number l id = Some n ∧ (id = 3 → 1200 <= n).
Proof.
  intros Hl Hid Hin. destruct (sent_in l id Hin) as (v & E & Hv). rewrite Forall_forall in Hl. destruct (Hl _ Hv) as [Hval _]. destruct (Hval Hid) as (n & En & H3 & _).
  exists n. split; [|done]. unfold sent_number. by rewrite E.
Qed.
Lemma described_spec s l : Forall (valid_param s) l → with_defaults (tp_read_from tp_zero l) l.*1 = tp_described l.
Proof.
  intros Hl. unfold with_defaults, tp_described, tp_read_from, set_times. cbn [InitialMaxStreamDataBidiLocal InitialMaxStreamDataBidiRemote InitialMaxStreamDataUni InitialMaxData tp_MaxAckDelay
    tp_AckDelayExponent DisableMigration MaxPacketSize MaxUniStreamNum MaxBidiStreamNum IdleTimeout StatelessResetToken OriginalConnectionID tp_zero].
  assert (∀ id, id ∉ l.*1 → sent_number l id = None) as Hnone by (intros id Hid; unfold sent_number; by rewrite (sent_none l id Hid)). f_equal.
  - case_bool_decide as Hin; [|by rewrite Hnone]. destruct (number_in s l 11 Hl ltac:(apply list_elem_of_In; cbn; tauto) Hin) as (n & E & _). by rewrite E.
  - case_bool_decide as Hin; [|by rewrite Hnone]. destruct (number_in s l 10 Hl ltac:(apply list_elem_of_In; cbn; tauto) Hin) as (n & E & _). by rewrite E.
  - by destruct (sent_value l 12).
  - destruct (decide (3 ∈ l.*1)) as [Hin|Hin]; [|by rewrite Hnone]. destruct (number_in s l 3 Hl ltac:(apply list_elem_of_In; cbn; tauto) Hin) as (n & E & H3). rewrite E. cbn [default].
    specialize (H3 eq_refl). cbn. destruct (Z.eqb_spec n 0); [lia|done].
  - by destruct (sent_value l 2).
Qed.
(** Data is the encoding of at most one list. *)
Lemma tlvs_inj l l' : Forall param_ok l → Forall param_ok l' → tlvs l = tlvs l' → l = l'.
Proof.
  intros Hl. revert l'. induction Hl as [|[id v] l [Hid Hv] Hl IH]; intros l' Hl' E.
  - destruct Hl' as [|pr l' _ _]; [done|]. rewrite tlvs_cons in E. apply (f_equal len) in E. rewrite len_app, len_tlv in E. pose proof (len_nonneg pr.2). pose proof (len_nonneg (tlvs l')). change (len (tlvs [])) with 0 in E. lia.
  - destruct Hl' as [|[id' v'] l' [Hid' Hv'] Hl'].
    { rewrite tlvs_cons in E. apply (f_equal len) in E. rewrite len_app, len_tlv in E. pose proof (len_nonneg v). pose proof (len_nonneg (tlvs l)). change (len (tlvs [])) with 0 in E. cbn [snd] in E. lia. }
    cbn [fst snd] in *. rewrite !tlvs_cons in E. unfold tlv in E. cbn [fst snd] in E. rewrite <- !app_assoc in E. cbn [app] in E. pose proof (len_nonneg v). pose proof (len_nonneg v').
    pose proof (f_equal read16 E) as E1. rewrite !read16_app in E1 by done. injection E1 as -> E1 E3 E4.
    assert (read16 (byte_at (len v) 8 :: u8 (len v) :: v ++ tlvs l) = read16 (byte_at (len v') 8 :: u8 (len v') :: v' ++ tlvs l')) as E2 by (by rewrite E1, E3, E4).
    rewrite !read16_app in E2 by lia. injection E2 as Elen E2. apply app_inj_1 in E2 as [-> E2]; [|unfold len in Elen; lia]. f_equal. by apply IH.
Qed.

(** Data that is a list of parameters behind their announced length, which only has to
    be at most the length of the list. *)
Definition tp_layout (data : list Z) (l : list param) : Prop := ∃ n, data = [byte_at n 8; u8 n] ++ tlvs l ∧ 0 <= n <= len (tlvs l) ∧ n < 2 ^ 16 ∧ Forall param_ok l.

(** C34: [Unmarshal] accepts only lists of parameters.  Such a list, if it has no times
    of more than 139 years, with which the multiplication overflows, is accepted if and
    only if its ids are distinct and each value keeps the limits; and the result is then
    what the parameters describe: each number in its field, the times in
    milliseconds, and the defaults for those that are missing. *)
Theorem transport_parameters_accepts data s (Hd : bytes_ok data) :
  (∀ p, Unmarshal tp_zero data s = (p, None) → ∃ l, tp_layout data l) ∧
  ∀ l p, tp_layout data l → times_small l → Unmarshal tp_zero data s = (p, None) ↔ NoDup l.*1 ∧ Forall (valid_param s) l ∧ p = tp_described l.
Proof.
  split.
  - intros p E. apply Unmarshal_inv in E as (n & l & q & -> & H1 & H2 & H3 & _); [|done]. exists l, n. done.
  - intros l p (n & -> & Hn & Hn' & Hl) Ht. apply Forall_app in Hd as [Hd2 Hd]. split.
    + intros E. apply Unmarshal_inv in E as (n' & l' & q & El & _ & _ & Hl' & Hnd & Ha & ->); [|by apply Forall_app].
      assert (tlvs l = tlvs l') as Et by (cbn [app] in El; congruence). apply tlvs_inj in Et as <-; [|done..].
      apply apply_params_read in Ha as [Hval ->]; [|done..]. split; [done|]. split; [done|]. by apply (described_spec s).
    + intros (Hnd & Hval & ->). apply Unmarshal_accepts. exists n, l, (tp_read_from tp_zero l). do 5 (split; [done|]). split; [|symmetry; by apply (described_spec s)].
      by apply apply_params_read.
Qed.
Lemma transport_parameters_accepts_witness :
  Unmarshal tp_zero [0; 30; 0; 3; 0; 2; 0x44; 0xb0; 0; 5; 0; 1; 7; 0; 6; 0; 1; 8; 0; 11; 0; 1; 9; 0; 12; 0; 0; 0; 1; 0; 1; 3] PerspectiveClient
    = (mkTP 7 8 0 0 9000000 3 true 1200 0 0 5000000000 None [], None).
Proof.
  destruct (transport_parameters_accepts [0; 30; 0; 3; 0; 2; 0x44; 0xb0; 0; 5; 0; 1; 7; 0; 6; 0; 1; 8; 0; 11; 0; 1; 9; 0; 12; 0; 0; 0; 1; 0; 1; 3] PerspectiveClient) as [_ H].
  - repeat constructor; done.
  - apply (H [(3, [0x44; 0xb0]); (5, [7]); (6, [8]); (11, [9]); (12, []); (1, [3])]).
    + exists 30. split; [reflexivity|]. split; [vm_compute; split; discriminate|]. split; [reflexivity|]. repeat constructor; discriminate.
    + repeat constructor; try (intros [?|?]; discriminate); intros _ n E; vm_compute in E; injection E as <-; reflexivity.
    + split; [apply (bool_decide_unpack _); vm_compute; exact I|]. split; [|vm_compute; reflexivity].
      repeat (apply Forall_cons_2; [split; [intros Hin|by split_and!]|]); [..|constructor];
        first [eexists; split; [vm_compute; reflexivity|split_and!; intros; lia || discriminate]|exfalso; apply list_elem_of_In in Hin; cbn in Hin; lia].
Defined.

(** What reading checked: the limits of the values. *)
Definition tp_checked (p : TransportParameters) : Prop :=
  (MaxPacketSize p = 0 ∨ 1200 <= MaxPacketSize p <= maxVarInt8) ∧ 0 <= tp_AckDelayExponent p <= MaxAckDelayExponent ∧
  (0 <= tp_MaxAckDelay p < MaxMaxAckDelay ∨ tp_MaxAckDelay p = InfDuration) ∧
  (IdleTimeout p = 0 ∨ MinRemoteIdleTimeout <= IdleTimeout p) ∧
  0 <= MaxBidiStreamNum p <= maxVarInt8 ∧ 0 <= MaxUniStreamNum p <= maxVarInt8 ∧
  (∀ t, StatelessResetToken p = Some t → len t = 16).
Lemma set_numeric_checked p id v q : tp_checked p → 0 <= v <= maxVarInt8 → set_numeric p id v = (q, None) →
  tp_checked q ∧ StatelessResetToken q = StatelessResetToken p ∧ OriginalConnectionID q = OriginalConnectionID p.
Proof.
  intros Hp Hv. assert (maxVarInt8 < 2 ^ 63) by (unfold maxVarInt8; lia). unfold set_numeric. cbv zeta.
  do 4 (destruct (id =? _); [intros [= <-]; split_and!; [unfold tp_checked in *; cbn; tauto|done..]|]).
  repeat (destruct (id =? _); [|]); [..|done].
  1, 2: intros [= <-]; split_and!; [|done..]; unfold tp_checked in *; cbn; rewrite i64_small by lia; tauto.
  - intros [= <-]; split_and!; [|done..]; unfold tp_checked in *; cbn; rewrite MaxDuration_max. intuition lia.
  - destruct (Z.ltb_spec v 1200); [done|]. intros [= <-]; split_and!; [|done..]; unfold tp_checked in *; cbn. intuition lia.
  - destruct (Z.ltb_spec MaxAckDelayExponent v); [done|]. intros [= <-]; split_and!; [|done..]; unfold tp_checked in *; cbn.
    unfold MaxAckDelayExponent in *. rewrite u8_small by lia. intuition lia.
  - destruct (Z.leb_spec MaxMaxAckDelay (i64 (i64 v * Millisecond))); [done|]. intros [= <-]; split_and!; [|done..]; unfold tp_checked in *; cbn.
    destruct (Z.ltb_spec (i64 (i64 v * Millisecond)) 0); intuition lia.
Qed.

Lemma apply_param_checked p s id v q : tp_checked p → bytes_ok v → apply_param p s (id, v) = Some q →
  tp_checked q ∧ (s = PerspectiveClient → StatelessResetToken q = StatelessResetToken p ∧ OriginalConnectionID q = OriginalConnectionID p).
Proof.
  intros Hp Hb. unfold apply_param. destruct (isNumeric id).
  { destruct (ReadVarInt v) as [[val []]| |] eqn:E; try done. apply yields_ReadVarInt in E as [_ Hv]; [|done].
    destruct (set_numeric p id val) as [q' [e|]] eqn:Eq; intros [= <-]. apply set_numeric_checked in Eq; tauto. }
  destruct (id =? disableMigrationParameterID).
  { destruct (_ =? 0); intros [= <-]. done. }
  destruct (id =? statelessResetTokenParameterID).
  { destruct s; cbn; [|done]. destruct (Z.eqb_spec (len v) 16); intros [= <-]. split; [|done].
    unfold tp_checked in *; cbn. split_and!; try tauto. by intros t [= <-]. }
  destruct (id =? originalConnectionIDParameterID).
  { destruct s; cbn; intros [= <-]. done. }
  by intros [= <-].
Qed.
Lemma apply_params_checked l : ∀ p s q, tp_checked p → bytes_ok (tlvs l) → apply_params p s l = Some q →
  tp_checked q ∧ (s = PerspectiveClient → StatelessResetToken q = StatelessResetToken p ∧ OriginalConnectionID q = OriginalConnectionID p).
Proof.
  induction l as [|[id v] l IH]; intros p s q Hp Hb; cbn [apply_params]; [by intros [= <-]|].
  rewrite tlvs_cons in Hb. unfold tlv in Hb. apply Forall_app in Hb as [Hv Hl]. apply Forall_app in Hv as [_ Hv].
  apply Forall_app in Hv as [_ Hv]. cbn [snd] in Hv.
  destruct (apply_param p s (id, v)) as [q1|] eqn:E; [|done]. apply apply_param_checked in E as [H1 H2]; [|done..].
  cbn [mbind option_bind]. intros H. apply IH in H as [H3 H4]; [|done..]. split; [done|]. intros Hs.
  destruct (H2 Hs) as [<- <-]. by apply H4.
Qed.

(** The parameters [Unmarshal] accepts respect the limits the code enforces:
    a packet size of at least 1200, an exponent of at most 20, a delay below
    2^14 ms or infinite, an idle timeout of at least five seconds if one was
    sent, stream counts that are varints; a client's parameters hold neither a
    token nor a connection ID. *)
Theorem transport_parameters_checked data s p (Hd : bytes_ok data) (Hu : Unmarshal tp_zero data s = (p, None)) :
  tp_checked p ∧ 1200 <= MaxPacketSize p ∧
  (s = PerspectiveClient → StatelessResetToken p = None ∧ OriginalConnectionID p = []).
Proof.
  pose proof (Unmarshal_inv tp_zero data s p Hd Hu) as (n & l & q & -> & _ & _ & _ & _ & Ha & ->).
  apply Forall_app in Hd as [_ Hd].
  assert (tp_checked tp_zero) as Hz.
  { unfold tp_checked, MaxMaxAckDelay, Millisecond, MaxAckDelayExponent, maxVarInt8. cbn. split_and!; try lia. done. }
  apply apply_params_checked in Ha as [Hq Hs]; [|done..]. clear Hu Hz. split_and!; [|..].
  - unfold tp_checked, with_defaults in *. cbn. destruct Hq as (H1 & H2 & H3 & H4 & H5 & H6 & H7). split_and!; try lia; try done.
    + right. unfold MaxByteCount, maxVarInt8 in *. destruct (Z.eqb_spec (MaxPacketSize q) 0); lia.
    + destruct (bool_decide (ackDelayExponentParameterID ∈ l.*1)); [lia|]. unfold DefaultAckDelayExponent, MaxAckDelayExponent. lia.
    + destruct (bool_decide (ackDelayExponentParameterID ∈ l.*1)); [lia|]. unfold DefaultAckDelayExponent, MaxAckDelayExponent. lia.
    + destruct (bool_decide (maxAckDelayParameterID ∈ l.*1)); [done|]. left. unfold DefaultMaxAckDelay, MaxMaxAckDelay, Millisecond. lia.
  - destruct Hq as (H1 & _). unfold with_defaults, MaxByteCount. cbn. destruct (Z.eqb_spec (MaxPacketSize q) 0); lia.
  - exact Hs.
Qed.
Lemma transport_parameters_checked_witness :
  tp_checked (with_defaults (set_rest tp_zero true None []) [12]).
Proof.
  apply (transport_parameters_checked [0; 4; 0; 12; 0; 0] PerspectiveClient).
  - repeat constructor; done.
  - vm_compute. reflexivity.
Defined.

(** The limit on max_ack_delay is checked after the multiplication by a
    million wrapped around: a delay of 2^58 ms, far above the maximum of 2^14 ms,
    is accepted and read as 0; the same delay as idle timeout becomes the minimum. *)
Theorem transport_parameters_delay_wraps :
  Unmarshal tp_zero ([0; 24; 0; 0xb; 0; 8] ++ varint (2 ^ 58) ++ [0; 1; 0; 8] ++ varint (2 ^ 58)) PerspectiveClient =
  (mkTP 0 0 0 0 0 DefaultAckDelayExponent false MaxByteCount 0 0 MinRemoteIdleTimeout None [], None).
Proof. vm_compute. reflexivity. Qed.
