(* ===== verification/StreamsMap.v ===== *)
(** StreamsMap: quic-go/streams_map_incoming_generic.go,
    streams_map_outgoing_generic.go, their generated instances, and
    streams_map.go.  The maps hold references to streams; [newStream num] is the
    reference of the stream created for [num].  Every operation runs under the
    map's mutex and is one step; [AcceptStream] and [OpenStreamSync] wait outside
    of it, so each is split at its wait.  Sends on closed channels and closing a
    nil or closed channel are panics. *)

From S2P Require Import Prelude Utils Protocol AckFrame Frames FrameCodec StreamFrame FrameParser TransportParams.

Definition errTooManyOpenStreams : goerr := Errorf "too many open streams" [].

(** What a map does to its environment: control frames queued, the non-blocking
    send on [newStreamChan], streams closed. *)
Inductive map_event (item : Type) :=
  | MapQueueFrame (f : Frame)
  | MapSignal
  | MapCloseStream (i : item) (e : option goerr).
Arguments MapQueueFrame {item} f.
Arguments MapSignal {item}.
Arguments MapCloseStream {item} i e.

Section Maps.
Context {item : Type} (streamTypeGeneric : StreamType) (newStream : Z → item).

(** * streams_map_incoming_generic.go *)

Record incomingItemsMap := mkIncoming {
  in_streams : gmap Z item; streamsToDelete : gset Z;
  nextStreamToAccept : Z; nextStreamToOpen : Z; in_maxStream : Z; maxNumStreams : Z;
  newStreamChan_closed : bool; in_closeErr : option goerr }.
Definition newIncomingItemsMap (maxStreams : Z) : incomingItemsMap :=
  mkIncoming ∅ ∅ 1 1 (i64 maxStreams) maxStreams false None.

Definition in_deleteStream (m : incomingItemsMap) (num : Z)
    : incomingItemsMap * list (map_event item) * option goerr :=
  match in_streams m !! num with
  | None => (m, [], Some (StreamNumError "Tried to delete unknown stream %d" [num]))
  | Some _ =>
      if nextStreamToAccept m <=? num then
        if bool_decide (num ∈ streamsToDelete m) then
          (m, [], Some (StreamNumError "Tried to delete stream %d multiple times" [num]))
        else
          (mkIncoming (in_streams m) ({[num]} ∪ streamsToDelete m) (nextStreamToAccept m) (nextStreamToOpen m)
             (in_maxStream m) (maxNumStreams m) (newStreamChan_closed m) (in_closeErr m), [], None)
      else
        let streams := delete num (in_streams m) in
        let n := Z.of_nat (size streams) in
        if n <? maxNumStreams m then
          let numNewStreams := u64 (maxNumStreams m - n) in
          let maxStream := i64 (nextStreamToOpen m + i64 numNewStreams - 1) in
          (mkIncoming streams (streamsToDelete m) (nextStreamToAccept m) (nextStreamToOpen m) maxStream
             (maxNumStreams m) (newStreamChan_closed m) (in_closeErr m),
           [MapQueueFrame (FMaxStreams (mkMaxStreams streamTypeGeneric maxStream))], None)
        else
          (mkIncoming streams (streamsToDelete m) (nextStreamToAccept m) (nextStreamToOpen m) (in_maxStream m)
             (maxNumStreams m) (newStreamChan_closed m) (in_closeErr m), [], None)
  end.
Definition in_DeleteStream := in_deleteStream.

(** One pass through the loop of [AcceptStream]: it returns, or waits for the
    channel or its context. *)
Inductive accept_result := AReturn (i : option item) (err : option goerr) | AWait.
Definition Accept_try (m : incomingItemsMap) : incomingItemsMap * list (map_event item) * accept_result :=
  let num := nextStreamToAccept m in
  match in_closeErr m with
  | Some e => (m, [], AReturn None (Some e))
  | None =>
      match in_streams m !! num with
      | None => (m, [], AWait)
      | Some str =>
          let m := mkIncoming (in_streams m) (streamsToDelete m) (i64 (num + 1)) (nextStreamToOpen m)
                     (in_maxStream m) (maxNumStreams m) (newStreamChan_closed m) (in_closeErr m) in
          if bool_decide (num ∈ streamsToDelete m) then
            let m := mkIncoming (in_streams m) (streamsToDelete m ∖ {[num]}) (nextStreamToAccept m) (nextStreamToOpen m)
                       (in_maxStream m) (maxNumStreams m) (newStreamChan_closed m) (in_closeErr m) in
            let '(m, ev, err) := in_deleteStream m num in
            match err with
            | Some e => (m, ev, AReturn None (Some e))
            | None => (m, ev, AReturn (Some str) None)
            end
          else (m, [], AReturn (Some str) None)
      end
  end.

(** [for newNum := ...; newNum <= num; newNum++] over [n] numbers. *)
Fixpoint open_streams (closed : bool) (streams : gmap Z item) (newNum : Z) (n : nat)
    : outcome (gmap Z item * list (map_event item)) :=
  match n with
  | O => Ok (streams, [])
  | S n =>
      if closed then Panic "send on closed channel" else
      '(streams, ev) ← open_streams closed (<[newNum := newStream newNum]> streams) (i64 (newNum + 1)) n;
      Ok (streams, MapSignal :: ev)
  end.
(** The result [None] is the nil stream: it was closed, or waits to be accepted
    and deleted. *)
Definition GetOrOpenStream (m : incomingItemsMap) (num : Z)
    : outcome (incomingItemsMap * list (map_event item) * option item * option goerr) :=
  if in_maxStream m <? num then
    Ok (m, [], None, Some (StreamNumError "peer tried to open stream %d (current limit: %d)" [num; in_maxStream m]))
  else if num <? nextStreamToOpen m then
    Ok (m, [], if bool_decide (num ∈ streamsToDelete m) then None else in_streams m !! num, None)
  else
    '(streams, ev) ← open_streams (newStreamChan_closed m) (in_streams m) (nextStreamToOpen m)
                       (Z.to_nat (num - nextStreamToOpen m + 1));
    let m := mkIncoming streams (streamsToDelete m) (nextStreamToAccept m) (i64 (num + 1))
               (in_maxStream m) (maxNumStreams m) (newStreamChan_closed m) (in_closeErr m) in
    Ok (m, ev, in_streams m !! num, None).

Definition in_CloseWithError (m : incomingItemsMap) (err : option goerr)
    : outcome (incomingItemsMap * list (map_event item)) :=
  if newStreamChan_closed m then Panic "close of closed channel" else
  Ok (mkIncoming (in_streams m) (streamsToDelete m) (nextStreamToAccept m) (nextStreamToOpen m) (in_maxStream m)
        (maxNumStreams m) true err,
      (λ p, MapCloseStream p.2 err) <$> map_to_list (in_streams m)).

(** * streams_map_outgoing_generic.go *)

(** [openQueue] maps a position to its channel, [false] for nil; [out_closed] are
    the positions whose channel was closed. *)
Record outgoingItemsMap := mkOutgoing {
  out_streams : gmap Z item; openQueue : gmap Z bool; out_closed : gset Z;
  lowestInQueue : Z; highestInQueue : Z; nextStream : Z; out_maxStream : Z; blockedSent : bool;
  out_closeErr : option goerr }.
Definition newOutgoingItemsMap : outgoingItemsMap :=
  mkOutgoing ∅ ∅ ∅ 0 0 1 InvalidStreamNum false None.

Definition maybeSendBlockedFrame (m : outgoingItemsMap) : outgoingItemsMap * list (map_event item) :=
  if blockedSent m then (m, []) else
  let streamNum := if negb (out_maxStream m =? InvalidStreamNum) then out_maxStream m else 0 in
  (mkOutgoing (out_streams m) (openQueue m) (out_closed m) (lowestInQueue m) (highestInQueue m) (nextStream m)
     (out_maxStream m) true (out_closeErr m),
   [MapQueueFrame (FStreamsBlocked (mkStreamsBlocked streamTypeGeneric streamNum))]).

Definition openStream (m : outgoingItemsMap) : outgoingItemsMap * item :=
  let s := newStream (nextStream m) in
  (mkOutgoing (<[nextStream m := s]> (out_streams m)) (openQueue m) (out_closed m) (lowestInQueue m) (highestInQueue m)
     (i64 (nextStream m + 1)) (out_maxStream m) (blockedSent m) (out_closeErr m), s).

Definition OpenStream (m : outgoingItemsMap)
    : outgoingItemsMap * list (map_event item) * option item * option goerr :=
  match out_closeErr m with
  | Some e => (m, [], None, Some e)
  | None =>
      if (0 <? size (openQueue m))%nat || (out_maxStream m <? nextStream m) then
        let '(m, ev) := maybeSendBlockedFrame m in (m, ev, None, Some (StreamOpenErr errTooManyOpenStreams))
      else let '(m, s) := openStream m in (m, [], Some s, None)
  end.

(** [for qp := lowest; qp <= highest; qp++] over [n] positions. *)
Fixpoint unblock_loop (m : outgoingItemsMap) (qp : Z) (n : nat) : outcome outgoingItemsMap :=
  match n with
  | O => Ok m
  | S n =>
      match openQueue m !! qp with
      | None => unblock_loop m (u64 (qp + 1)) n
      | Some c =>
          if negb c then Panic "close of nil channel"
          else if bool_decide (qp ∈ out_closed m) then Panic "close of closed channel"
          else Ok (mkOutgoing (out_streams m) (<[qp := false]> (openQueue m)) ({[qp]} ∪ out_closed m) (u64 (qp + 1))
                     (highestInQueue m) (nextStream m) (out_maxStream m) (blockedSent m) (out_closeErr m))
      end
  end.
Definition unblockOpenSync (m : outgoingItemsMap) : outcome outgoingItemsMap :=
  if (size (openQueue m) =? 0)%nat then Ok m
  else unblock_loop m (lowestInQueue m) (Z.to_nat (highestInQueue m - lowestInQueue m + 1)).

(** [OpenStreamSync] up to its wait; [ctxErr] is [ctx.Err()].  A waiting call
    holds its position. *)
Inductive open_result := OReturn (i : option item) (err : option goerr) | OWait (queuePos : Z).
Definition OpenStreamSync (m : outgoingItemsMap) (ctxErr : option goerr)
    : outgoingItemsMap * list (map_event item) * open_result :=
  match out_closeErr m with
  | Some e => (m, [], OReturn None (Some e))
  | None =>
      match ctxErr with
      | Some e => (m, [], OReturn None (Some e))
      | None =>
          if (size (openQueue m) =? 0)%nat && (nextStream m <=? out_maxStream m) then
            let '(m, s) := openStream m in (m, [], OReturn (Some s) None)
          else
            let queuePos := highestInQueue m in
            let m := mkOutgoing (out_streams m) (<[queuePos := true]> (openQueue m)) (out_closed m)
                       (if (size (openQueue m) =? 0)%nat then queuePos else lowestInQueue m)
                       (u64 (highestInQueue m + 1)) (nextStream m) (out_maxStream m) (blockedSent m) (out_closeErr m) in
            let '(m, ev) := maybeSendBlockedFrame m in (m, ev, OWait queuePos)
      end
  end.
Definition dequeue_open (m : outgoingItemsMap) (queuePos : Z) : outgoingItemsMap :=
  mkOutgoing (out_streams m) (delete queuePos (openQueue m)) (out_closed m) (lowestInQueue m) (highestInQueue m)
    (nextStream m) (out_maxStream m) (blockedSent m) (out_closeErr m).
(** A waiting call whose context ended. *)
Definition OpenStreamSync_cancel (m : outgoingItemsMap) (queuePos : Z) (ctxErr : goerr) : outgoingItemsMap * open_result :=
  (dequeue_open m queuePos, OReturn None (Some ctxErr)).
(** A waiting call goes on when its channel is closed; [None] if it cannot. *)
Definition OpenStreamSync_wake (m : outgoingItemsMap) (queuePos : Z) : option (outcome (outgoingItemsMap * open_result)) :=
  if negb (bool_decide (queuePos ∈ out_closed m)) then None else Some
  match out_closeErr m with
  | Some e => Ok (m, OReturn None (Some e))
  | None =>
      if out_maxStream m <? nextStream m then Ok (m, OWait queuePos)
      else
        let '(m, str) := openStream m in
        m ← unblockOpenSync (dequeue_open m queuePos);
        Ok (m, OReturn (Some str) None)
  end.

Definition out_GetStream (m : outgoingItemsMap) (num : Z) : option item * option goerr :=
  if nextStream m <=? num then (None, Some (StreamNumError "peer attempted to open stream %d" [num]))
  else (out_streams m !! num, None).
Definition out_DeleteStream (m : outgoingItemsMap) (num : Z) : outgoingItemsMap * option goerr :=
  match out_streams m !! num with
  | None => (m, Some (StreamNumError "Tried to delete unknown stream %d" [num]))
  | Some _ =>
      (mkOutgoing (delete num (out_streams m)) (openQueue m) (out_closed m) (lowestInQueue m) (highestInQueue m)
         (nextStream m) (out_maxStream m) (blockedSent m) (out_closeErr m), None)
  end.
Definition SetMaxStream (m : outgoingItemsMap) (num : Z) : outcome outgoingItemsMap :=
  if num <=? out_maxStream m then Ok m else
  unblockOpenSync (mkOutgoing (out_streams m) (openQueue m) (out_closed m) (lowestInQueue m) (highestInQueue m)
                     (nextStream m) num false (out_closeErr m)).
(** Every channel still in the queue is closed. *)
Definition out_CloseWithError (m : outgoingItemsMap) (err : option goerr)
    : outcome (outgoingItemsMap * list (map_event item)) :=
  let chans := dom (filter (λ p, p.2 = true) (openQueue m)) in
  if bool_decide (chans ∩ out_closed m = ∅) then
    Ok (mkOutgoing (out_streams m) (openQueue m) (chans ∪ out_closed m) (lowestInQueue m) (highestInQueue m)
          (nextStream m) (out_maxStream m) (blockedSent m) err,
        (λ p, MapCloseStream p.2 err) <$> map_to_list (out_streams m))
  else Panic "close of closed channel".

End Maps.
Arguments incomingItemsMap : clear implicits.
Arguments outgoingItemsMap : clear implicits.
Arguments accept_result : clear implicits.
Arguments open_result : clear implicits.

(** * The generated instances: streams_map_incoming_bidi.go,
    streams_map_incoming_uni.go, streams_map_outgoing_bidi.go,
    streams_map_outgoing_uni.go *)

(** A stream is referred to by its ID: the constructors of newStreamsMap turn
    the number into the ID of the stream they create. *)
Definition incomingBidiStreamsMap : Type := incomingItemsMap Z.
Definition incomingUniStreamsMap : Type := incomingItemsMap Z.
Definition outgoingBidiStreamsMap : Type := outgoingItemsMap Z.
Definition outgoingUniStreamsMap : Type := outgoingItemsMap Z.

Section Instances.
Context (pers : Perspective).

Definition newOutgoingBidi (num : Z) : Z := StreamNum_StreamID num StreamTypeBidi pers.
Definition newIncomingBidi (num : Z) : Z := StreamNum_StreamID num StreamTypeBidi (Opposite pers).
Definition newOutgoingUni (num : Z) : Z := StreamNum_StreamID num StreamTypeUni pers.
Definition newIncomingUni (num : Z) : Z := StreamNum_StreamID num StreamTypeUni (Opposite pers).

Definition incomingBidi_Accept_try : incomingBidiStreamsMap → _ := Accept_try StreamTypeBidi.
Definition incomingBidi_GetOrOpenStream : incomingBidiStreamsMap → Z → _ := GetOrOpenStream newIncomingBidi.
Definition incomingBidi_DeleteStream : incomingBidiStreamsMap → Z → _ := in_DeleteStream StreamTypeBidi.
Definition incomingBidi_CloseWithError : incomingBidiStreamsMap → option goerr → _ := in_CloseWithError.

Definition incomingUni_Accept_try : incomingUniStreamsMap → _ := Accept_try StreamTypeUni.
Definition incomingUni_GetOrOpenStream : incomingUniStreamsMap → Z → _ := GetOrOpenStream newIncomingUni.
Definition incomingUni_DeleteStream : incomingUniStreamsMap → Z → _ := in_DeleteStream StreamTypeUni.
Definition incomingUni_CloseWithError : incomingUniStreamsMap → option goerr → _ := in_CloseWithError.

Definition outgoingBidi_OpenStream : outgoingBidiStreamsMap → _ := OpenStream StreamTypeBidi newOutgoingBidi.
Definition outgoingBidi_OpenStreamSync : outgoingBidiStreamsMap → option goerr → _ := OpenStreamSync StreamTypeBidi newOutgoingBidi.
Definition outgoingBidi_OpenStreamSync_wake : outgoingBidiStreamsMap → Z → _ := OpenStreamSync_wake newOutgoingBidi.
Definition outgoingBidi_GetStream : outgoingBidiStreamsMap → Z → _ := out_GetStream.
Definition outgoingBidi_DeleteStream : outgoingBidiStreamsMap → Z → _ := out_DeleteStream.
Definition outgoingBidi_SetMaxStream : outgoingBidiStreamsMap → Z → _ := SetMaxStream.
Definition outgoingBidi_CloseWithError : outgoingBidiStreamsMap → option goerr → _ := out_CloseWithError.

Definition outgoingUni_OpenStream : outgoingUniStreamsMap → _ := OpenStream StreamTypeUni newOutgoingUni.
Definition outgoingUni_OpenStreamSync : outgoingUniStreamsMap → option goerr → _ := OpenStreamSync StreamTypeUni newOutgoingUni.
Definition outgoingUni_OpenStreamSync_wake : outgoingUniStreamsMap → Z → _ := OpenStreamSync_wake newOutgoingUni.
Definition outgoingUni_GetStream : outgoingUniStreamsMap → Z → _ := out_GetStream.
Definition outgoingUni_DeleteStream : outgoingUniStreamsMap → Z → _ := out_DeleteStream.
Definition outgoingUni_SetMaxStream : outgoingUniStreamsMap → Z → _ := SetMaxStream.
Definition outgoingUni_CloseWithError : outgoingUniStreamsMap → option goerr → _ := out_CloseWithError.
End Instances.

(** * streams_map.go *)

Definition convertStreamError (err : option goerr) (stype : StreamType) (pers : Perspective) : option goerr :=
  match err with
  | Some (StreamNumError message nums) => Some (Errorf message ((λ num, StreamNum_StreamID num stype pers) <$> nums))
  | _ => err
  end.
(** [streamOpenErr.Temporary] *)
Definition Temporary (err : goerr) : bool :=
  match err with StreamOpenErr e => bool_decide (e = errTooManyOpenStreams) | _ => false end.

Record streamsMap := mkStreamsMap {
  perspective : Perspective;
  outgoingBidiStreams : outgoingBidiStreamsMap; outgoingUniStreams : outgoingUniStreamsMap;
  incomingBidiStreams : incomingBidiStreamsMap; incomingUniStreams : incomingUniStreamsMap }.
Definition newStreamsMap (maxIncomingBidiStreams maxIncomingUniStreams : Z) (pers : Perspective) : streamsMap :=
  mkStreamsMap pers newOutgoingItemsMap newOutgoingItemsMap (newIncomingItemsMap maxIncomingBidiStreams)
    (newIncomingItemsMap maxIncomingUniStreams).
Definition set_outgoingBidi (m : streamsMap) (o : outgoingBidiStreamsMap) : streamsMap :=
  mkStreamsMap (perspective m) o (outgoingUniStreams m) (incomingBidiStreams m) (incomingUniStreams m).
Definition set_outgoingUni (m : streamsMap) (o : outgoingUniStreamsMap) : streamsMap :=
  mkStreamsMap (perspective m) (outgoingBidiStreams m) o (incomingBidiStreams m) (incomingUniStreams m).
Definition set_incomingBidi (m : streamsMap) (i : incomingBidiStreamsMap) : streamsMap :=
  mkStreamsMap (perspective m) (outgoingBidiStreams m) (outgoingUniStreams m) i (incomingUniStreams m).
Definition set_incomingUni (m : streamsMap) (i : incomingUniStreamsMap) : streamsMap :=
  mkStreamsMap (perspective m) (outgoingBidiStreams m) (outgoingUniStreams m) (incomingBidiStreams m) i.

Definition sm_OpenStream (m : streamsMap) : streamsMap * list (map_event Z) * option Z * option goerr :=
  let '(o, ev, str, err) := outgoingBidi_OpenStream (perspective m) (outgoingBidiStreams m) in
  (set_outgoingBidi m o, ev, str, convertStreamError err StreamTypeBidi (perspective m)).
Definition sm_OpenUniStream (m : streamsMap) : streamsMap * list (map_event Z) * option Z * option goerr :=
  let '(o, ev, str, err) := outgoingUni_OpenStream (perspective m) (outgoingUniStreams m) in
  (set_outgoingUni m o, ev, str, convertStreamError err StreamTypeBidi (perspective m)).

(** The blocking calls, up to their wait. *)
Definition convert_open (pers : Perspective) (t : StreamType) (r : open_result Z) : open_result Z :=
  match r with OReturn i err => OReturn i (convertStreamError err t pers) | OWait q => OWait q end.
Definition convert_accept (pers : Perspective) (t : StreamType) (r : accept_result Z) : accept_result Z :=
  match r with AReturn i err => AReturn i (convertStreamError err t pers) | AWait => AWait end.
Definition sm_OpenStreamSync (m : streamsMap) (ctxErr : option goerr) : streamsMap * list (map_event Z) * open_result Z :=
  let '(o, ev, r) := outgoingBidi_OpenStreamSync (perspective m) (outgoingBidiStreams m) ctxErr in
  (set_outgoingBidi m o, ev, convert_open (perspective m) StreamTypeBidi r).
Definition sm_OpenUniStreamSync (m : streamsMap) (ctxErr : option goerr) : streamsMap * list (map_event Z) * open_result Z :=
  let '(o, ev, r) := outgoingUni_OpenStreamSync (perspective m) (outgoingUniStreams m) ctxErr in
  (set_outgoingUni m o, ev, convert_open (perspective m) StreamTypeUni r).
Definition sm_AcceptStream (m : streamsMap) : streamsMap * list (map_event Z) * accept_result Z :=
  let '(i, ev, r) := incomingBidi_Accept_try (incomingBidiStreams m) in
  (set_incomingBidi m i, ev, convert_accept (Opposite (perspective m)) StreamTypeBidi r).
Definition sm_AcceptUniStream (m : streamsMap) : streamsMap * list (map_event Z) * accept_result Z :=
  let '(i, ev, r) := incomingUni_Accept_try (incomingUniStreams m) in
  (set_incomingUni m i, ev, convert_accept (Opposite (perspective m)) StreamTypeUni r).

Definition sm_DeleteStream (m : streamsMap) (id : Z) : streamsMap * list (map_event Z) * option goerr :=
  let num := StreamID_StreamNum id in
  let own := bool_decide (StreamID_InitiatedBy id = perspective m) in
  match StreamID_Type id with
  | StreamTypeUni =>
      if own then let '(o, err) := outgoingUni_DeleteStream (outgoingUniStreams m) num in (set_outgoingUni m o, [], err)
      else let '(i, ev, err) := incomingUni_DeleteStream (incomingUniStreams m) num in (set_incomingUni m i, ev, err)
  | StreamTypeBidi =>
      if own then let '(o, err) := outgoingBidi_DeleteStream (outgoingBidiStreams m) num in (set_outgoingBidi m o, [], err)
      else let '(i, ev, err) := incomingBidi_DeleteStream (incomingBidiStreams m) num in (set_incomingBidi m i, ev, err)
  end.

(** The bidirectional case that both functions share. *)
Definition getOrOpenBidi (m : streamsMap) (id : Z)
    : outcome (streamsMap * list (map_event Z) * option Z * option goerr) :=
  let num := StreamID_StreamNum id in
  if bool_decide (StreamID_InitiatedBy id = perspective m) then
    let '(str, err) := outgoingBidi_GetStream (outgoingBidiStreams m) num in
    Ok (m, [], str, convertStreamError err StreamTypeBidi (StreamID_InitiatedBy id))
  else
    '(i, ev, str, err) ← incomingBidi_GetOrOpenStream (perspective m) (incomingBidiStreams m) num;
    Ok (set_incomingBidi m i, ev, str, convertStreamError err StreamTypeBidi (StreamID_InitiatedBy id)).
Definition getOrOpenReceiveStream (m : streamsMap) (id : Z)
    : outcome (streamsMap * list (map_event Z) * option Z * option goerr) :=
  let num := StreamID_StreamNum id in
  match StreamID_Type id with
  | StreamTypeUni =>
      if bool_decide (StreamID_InitiatedBy id = perspective m) then
        Ok (m, [], None, Some (Errorf "peer attempted to open receive stream %d" [id]))
      else
        '(i, ev, str, err) ← incomingUni_GetOrOpenStream (perspective m) (incomingUniStreams m) num;
        Ok (set_incomingUni m i, ev, str, convertStreamError err StreamTypeUni (perspective m))
  | StreamTypeBidi => getOrOpenBidi m id
  end.
Definition getOrOpenSendStream (m : streamsMap) (id : Z)
    : outcome (streamsMap * list (map_event Z) * option Z * option goerr) :=
  let num := StreamID_StreamNum id in
  match StreamID_Type id with
  | StreamTypeUni =>
      if bool_decide (StreamID_InitiatedBy id = perspective m) then
        let '(str, err) := outgoingUni_GetStream (outgoingUniStreams m) num in
        Ok (m, [], str, convertStreamError err StreamTypeUni (perspective m))
      else Ok (m, [], None, Some (Errorf "peer attempted to open send stream %d" [id]))
  | StreamTypeBidi => getOrOpenBidi m id
  end.
(** An error becomes a connection error. *)
Definition state_error (r : outcome (streamsMap * list (map_event Z) * option Z * option goerr))
    : outcome (streamsMap * list (map_event Z) * option Z * option goerr) :=
  '(m, ev, str, err) ← r;
  match err with
  | Some e => Ok (m, ev, None, Some (QuicError StreamStateError e))
  | None => Ok (m, ev, str, None)
  end.
Definition GetOrOpenReceiveStream (m : streamsMap) (id : Z) := state_error (getOrOpenReceiveStream m id).
Definition GetOrOpenSendStream (m : streamsMap) (id : Z) := state_error (getOrOpenSendStream m id).

Definition HandleMaxStreamsFrame (m : streamsMap) (f : MaxStreamsFrame) : outcome (streamsMap * option goerr) :=
  if MaxStreamCount <? ms_MaxStreamNum f then Ok (m, Some (QuicError StreamLimitError (Errorf "" [])))
  else match ms_Type f with
       | StreamTypeUni =>
           o ← outgoingUni_SetMaxStream (outgoingUniStreams m) (ms_MaxStreamNum f); Ok (set_outgoingUni m o, None)
       | StreamTypeBidi =>
           o ← outgoingBidi_SetMaxStream (outgoingBidiStreams m) (ms_MaxStreamNum f); Ok (set_outgoingBidi m o, None)
       end.
Definition UpdateLimits (m : streamsMap) (p : TransportParameters) : outcome (streamsMap * option goerr) :=
  if (MaxStreamCount <? MaxBidiStreamNum p) || (MaxStreamCount <? MaxUniStreamNum p)
  then Ok (m, Some (QuicError StreamLimitError (Errorf "" [])))
  else
    ob ← outgoingBidi_SetMaxStream (outgoingBidiStreams m) (MaxBidiStreamNum p);
    ou ← outgoingUni_SetMaxStream (outgoingUniStreams m) (MaxUniStreamNum p);
    Ok (set_outgoingUni (set_outgoingBidi m ob) ou, None).
Definition sm_CloseWithError (m : streamsMap) (err : option goerr) : outcome (streamsMap * list (map_event Z)) :=
  '(ob, ev1) ← outgoingBidi_CloseWithError (outgoingBidiStreams m) err;
  '(ou, ev2) ← outgoingUni_CloseWithError (outgoingUniStreams m) err;
  '(ib, ev3) ← incomingBidi_CloseWithError (incomingBidiStreams m) err;
  '(iu, ev4) ← incomingUni_CloseWithError (incomingUniStreams m) err;
  Ok (mkStreamsMap (perspective m) ob ou ib iu, ev1 ++ ev2 ++ ev3 ++ ev4).
