(* ===== verification/StreamsMapSpec.v ===== *)
(** StreamsMapSpec: what the maps of streams promise.  The incoming map refines
    an abstract state of three components: how many streams the peer opened, how
    many were accepted, which were deleted.  The outgoing map is a step relation
    over its operations with the waiting calls of [OpenStreamSync]. *)

From S2P Require Import Prelude Utils Protocol AckFrame Frames FrameCodec StreamFrame FrameParser TransportParams StreamsMap.

(** * Incoming streams *)

Section Incoming.
Context {item : Type} (stype : StreamType) (newStream : Z → item).

(** Streams 1 to [opened] were opened, 1 to [accepted] of them accepted, and
    [deleted] were reported completed. *)
Record incoming_spec := mkIS { opened : Z; accepted : Z; deleted : gset Z }.
Definition gone (a : incoming_spec) : gset Z := filter (λ n, n <= accepted a) (deleted a).
(** The number of streams the peer may open: a completed stream that was
    accepted makes room for one more. *)
Definition limit (maxNum : Z) (a : incoming_spec) : Z := maxNum + Z.of_nat (size (gone a)).

Definition spec_get (maxNum : Z) (a : incoming_spec) (num : Z) : incoming_spec * option item * option goerr :=
  if limit maxNum a <? num then
    (a, None, Some (StreamNumError "peer tried to open stream %d (current limit: %d)" [num; limit maxNum a]))
  else (mkIS (Z.max (opened a) num) (accepted a) (deleted a),
        if bool_decide (num ∈ deleted a) then None else Some (newStream num), None).
Definition max_streams (maxNum : Z) (a : incoming_spec) : list (map_event item) :=
  [MapQueueFrame (FMaxStreams (mkMaxStreams stype (limit maxNum a)))].
Definition spec_delete (maxNum : Z) (a : incoming_spec) (num : Z)
    : incoming_spec * list (map_event item) * option goerr :=
  if bool_decide (1 <= num <= opened a ∧ num ∉ gone a) then
    if bool_decide (num ∈ deleted a) then
      (a, [], Some (StreamNumError "Tried to delete stream %d multiple times" [num]))
    else
      let a' := mkIS (opened a) (accepted a) ({[num]} ∪ deleted a) in
      (a', if num <=? accepted a then max_streams maxNum a' else [], None)
  else (a, [], Some (StreamNumError "Tried to delete unknown stream %d" [num])).
Definition spec_accept (maxNum : Z) (a : incoming_spec)
    : incoming_spec * list (map_event item) * accept_result item :=
  if accepted a <? opened a then
    let a' := mkIS (opened a) (accepted a + 1) (deleted a) in
    (a', if bool_decide (accepted a + 1 ∈ deleted a) then max_streams maxNum a' else [],
     AReturn (Some (newStream (accepted a + 1))) None)
  else (a, [], AWait).

(** The map [m] represents [a]; the stream numbers stay far below the end of
    their type. *)
Record incoming_repr (maxNum : Z) (m : incomingItemsMap item) (a : incoming_spec) : Prop := {
  ir_bounds : 0 <= accepted a <= opened a ∧ opened a <= MaxStreamCount ∧ opened a <= limit maxNum a;
  ir_deleted : ∀ n, n ∈ deleted a → 1 <= n <= opened a;
  ir_open : nextStreamToOpen m = opened a + 1;
  ir_accept : nextStreamToAccept m = accepted a + 1;
  ir_streams : ∀ n, in_streams m !! n =
    if bool_decide (1 <= n <= opened a ∧ n ∉ gone a) then Some (newStream n) else None;
  ir_delete : ∀ n, n ∈ streamsToDelete m ↔ n ∈ deleted a ∧ accepted a < n;
  ir_size : Z.of_nat (size (in_streams m)) = opened a - Z.of_nat (size (gone a));
  ir_max : in_maxStream m = limit maxNum a;
  ir_num : maxNumStreams m = maxNum ∧ 0 <= maxNum <= MaxStreamCount;
  ir_live : newStreamChan_closed m = false ∧ in_closeErr m = None }.

Lemma gone_bound a : (∀ n, n ∈ deleted a → 1 <= n <= opened a) → 0 <= opened a → Z.of_nat (size (gone a)) <= opened a.
Proof.
  intros Hd Ho.
  assert (gone a ⊆ list_to_set (seqZ 1 (opened a))) as Hs.
  { intros n. unfold gone. rewrite elem_of_filter, elem_of_list_to_set, elem_of_seqZ. intros [_ Hn]. apply Hd in Hn. lia. }
  apply subseteq_size in Hs. rewrite size_list_to_set, length_seqZ in Hs by apply NoDup_seqZ. lia.
Qed.

Lemma incoming_init maxNum : 0 <= maxNum <= MaxStreamCount →
  incoming_repr maxNum (newIncomingItemsMap maxNum) (mkIS 0 0 ∅).
Proof.
  intros H. assert (gone (mkIS 0 0 ∅) = ∅) as Hg by (unfold gone; cbn; set_solver).
  assert (limit maxNum (mkIS 0 0 ∅) = maxNum) as Hl by (unfold limit; rewrite Hg; change (size (∅ : gset Z)) with 0%nat; lia).
  assert (MaxStreamCount = 2 ^ 60) by done. split; cbn [opened accepted deleted newIncomingItemsMap
    nextStreamToOpen nextStreamToAccept in_streams streamsToDelete in_maxStream maxNumStreams newStreamChan_closed in_closeErr];
    rewrite ?Hl; try lia; try done.
  - intros n. rewrite lookup_empty, bool_decide_eq_false_2; [done|lia].
  - intros n. rewrite !elem_of_empty. tauto.
  - rewrite i64_small; lia.
Qed.

Lemma if_decide_ext {A} (P Q : Prop) `{Decision P, Decision Q} (x y : A) : (P ↔ Q) →
  (if bool_decide P then x else y) = (if bool_decide Q then x else y).
Proof. intros HPQ. by rewrite (bool_decide_ext P Q). Qed.

Lemma repr_live maxNum m a : incoming_repr maxNum m a → Z.of_nat (size (in_streams m)) <= maxNum.
Proof. intros [(_ & _ & Hl) _ _ _ _ _ Hs _ _ _]. unfold limit in Hl. lia. Qed.

(** Opening the streams up to [num]. *)
Lemma open_streams_spec n : ∀ streams newNum, 0 <= newNum → newNum + Z.of_nat n < 2 ^ 62 →
  (∀ i, newNum <= i → streams !! i = None) →
  ∃ streams', open_streams newStream false streams newNum n = Ok (streams', replicate n MapSignal) ∧
    (∀ i, streams' !! i = if bool_decide (newNum <= i < newNum + Z.of_nat n) then Some (newStream i) else streams !! i) ∧
    size streams' = (size streams + n)%nat.
Proof.
  induction n as [|n IH]; intros streams newNum H0 H1 Hn; cbn [open_streams].
  { exists streams. split_and!; [done| |lia]. intros i. rewrite bool_decide_eq_false_2; [done|lia]. }
  rewrite i64_small by lia.
  destruct (IH (<[newNum := newStream newNum]> streams) (newNum + 1)) as (streams' & E & Hl & Hs); [lia..| |].
  { intros i Hi. rewrite lookup_insert_ne by lia. apply Hn. lia. }
  exists streams'. rewrite E. split_and!; [done| |].
  - intros i. rewrite Hl. destruct (decide (i = newNum)) as [->|Hi].
    + rewrite bool_decide_eq_false_2, bool_decide_eq_true_2 by lia. by rewrite lookup_insert_eq.
    + rewrite lookup_insert_ne by done. apply if_decide_ext. lia.
  - rewrite Hs, map_size_insert_None by (apply Hn; lia). lia.
Qed.

Lemma repr_none maxNum m a i : incoming_repr maxNum m a → opened a < i → in_streams m !! i = None.
Proof. intros [] Hi. rewrite ir_streams0, bool_decide_eq_false_2; [done|lia]. Qed.
Lemma gone_open maxNum m a n : incoming_repr maxNum m a → n ∈ gone a → 1 <= n <= opened a.
Proof. intros [] Hn. unfold gone in Hn. apply elem_of_filter in Hn as [_ Hn]. by apply ir_deleted0. Qed.

Lemma incoming_get maxNum m a num : incoming_repr maxNum m a → 1 <= num <= MaxStreamCount →
  let '(a', i, err) := spec_get maxNum a num in
  ∃ m' k, GetOrOpenStream newStream m num = Ok (m', replicate k MapSignal, i, err) ∧ incoming_repr maxNum m' a' ∧
    Z.of_nat k = opened a' - opened a.
Proof.
  intros Hr Hnum. pose proof Hr as [Hb Hd Ho Ha Hs Hdel Hsz Hm Hnm Hlv]. unfold spec_get, GetOrOpenStream. rewrite Hm.
  destruct (Z.ltb_spec (limit maxNum a) num) as [|Hlim].
  { exists m, 0%nat. split_and!; [done..|lia]. }
  rewrite Ho. destruct (Z.ltb_spec num (opened a + 1)) as [Hlt|Hge].
  - exists m, 0%nat. rewrite Z.max_l by lia. destruct a as [N k D]; cbn [opened accepted deleted] in *.
    split_and!; [|done|lia]. do 2 f_equal; [|done..]. f_equal. rewrite Hs.
    assert (num ∈ gone (mkIS N k D) ↔ num ∈ D ∧ num <= k) as Hgo by (unfold gone; cbn; rewrite elem_of_filter; tauto).
    destruct (decide (num ∈ D)) as [Hin|Hin]; [rewrite (bool_decide_eq_true_2 (num ∈ D)) by done|rewrite (bool_decide_eq_false_2 (num ∈ D)) by done].
    + destruct (decide (k < num)).
      * rewrite bool_decide_eq_true_2; [done|]. by rewrite Hdel.
      * rewrite bool_decide_eq_false_2 by (rewrite Hdel; tauto). rewrite bool_decide_eq_false_2; [done|]. rewrite Hgo. intros [_ []]. split; [done|lia].
    + rewrite bool_decide_eq_false_2 by (rewrite Hdel; tauto). rewrite bool_decide_eq_true_2; [done|]. rewrite Hgo. split; [lia|tauto].
  - destruct Hlv as [Hc He]. rewrite Hc. assert (MaxStreamCount = 2 ^ 60) by done.
    destruct (open_streams_spec (Z.to_nat (num - (opened a + 1) + 1)) (in_streams m) (opened a + 1)) as (st & E & Hl & Hsz'); [lia..| |].
    { intros i Hi. apply (repr_none maxNum m a); [done|lia]. }
    rewrite E. cbn [mbind outcome_bind]. rewrite i64_small by lia.
    assert (st !! num = if bool_decide (num ∈ deleted a) then None else Some (newStream num)) as Hres.
    { rewrite Hl, bool_decide_eq_true_2 by lia. rewrite bool_decide_eq_false_2; [done|]. intros Hin. apply Hd in Hin. lia. }
    eexists _, _. split; [cbn [in_streams]; rewrite Hres; reflexivity|]. split; [|cbn [opened]; lia].
    rewrite Z.max_r by lia. split; cbn [opened accepted deleted nextStreamToOpen nextStreamToAccept in_streams streamsToDelete in_maxStream maxNumStreams newStreamChan_closed in_closeErr];
      change (gone (mkIS num (accepted a) (deleted a))) with (gone a); change (limit maxNum (mkIS num (accepted a) (deleted a))) with (limit maxNum a);
      try lia; try done.
    + intros n Hin. apply Hd in Hin. lia.
    + intros n. rewrite Hl, Hs. destruct (decide (opened a + 1 <= n <= num)) as [Hn|Hn].
      * rewrite bool_decide_eq_true_2 by lia. rewrite bool_decide_eq_true_2; [done|]. split; [lia|]. intros Hgn. apply (gone_open maxNum m a n Hr) in Hgn. lia.
      * rewrite bool_decide_eq_false_2 by lia. apply if_decide_ext. split; intros [??]; (split; [lia|done]).
Qed.

Lemma gone_insert a num : num ∉ deleted a → num <= accepted a →
  gone (mkIS (opened a) (accepted a) ({[num]} ∪ deleted a)) = {[num]} ∪ gone a ∧ num ∉ gone a.
Proof.
  intros Hn Ha. unfold gone; cbn. split; [|rewrite elem_of_filter; tauto].
  apply set_eq. intros i. rewrite elem_of_filter, !elem_of_union, elem_of_filter, elem_of_singleton. intuition lia.
Qed.
Lemma gone_insert_later a num : accepted a < num →
  gone (mkIS (opened a) (accepted a) ({[num]} ∪ deleted a)) = gone a.
Proof.
  intros Ha. unfold gone; cbn. apply set_eq. intros i. rewrite !elem_of_filter, elem_of_union, elem_of_singleton. intuition lia.
Qed.
Lemma size_gone_insert a num : num ∉ gone a → size ({[num]} ∪ gone a : gset Z) = S (size (gone a)).
Proof. intros. rewrite size_union by set_solver. by rewrite size_singleton. Qed.

Lemma incoming_delete maxNum m a num : incoming_repr maxNum m a →
  let '(a', ev, err) := spec_delete maxNum a num in
  ∃ m', in_deleteStream stype m num = (m', ev, err) ∧ incoming_repr maxNum m' a'.
Proof.
  intros Hr. pose proof Hr as [Hb Hd Ho Ha Hs Hdel Hsz Hm [Hnm Hmx] Hlv]. unfold spec_delete, in_deleteStream.
  rewrite Hs. case_bool_decide as Hin; [|by exists m]. destruct Hin as [Hin Hg]. rewrite Ha.
  assert (MaxStreamCount = 2 ^ 60) by done.
  destruct (Z.leb_spec (accepted a + 1) num) as [Hge|Hlt].
  - rewrite (bool_decide_ext (num ∈ streamsToDelete m) (num ∈ deleted a)) by (rewrite Hdel; intuition lia).
    case_bool_decide as Hdd; [by exists m|]. rewrite (proj2 (Z.leb_gt _ _)) by lia.
    eexists. split; [reflexivity|]. split; cbn [opened accepted deleted nextStreamToOpen nextStreamToAccept in_streams
      streamsToDelete in_maxStream maxNumStreams newStreamChan_closed in_closeErr]; unfold limit;
      rewrite ?gone_insert_later by lia; try lia; try done.
    + intros n. rewrite elem_of_union, elem_of_singleton. intros [->|?]; [lia|auto].
    + intros n. rewrite !elem_of_union, Hdel, elem_of_singleton. intuition lia.
  - assert (Hnd : num ∉ deleted a).
    { intros Hx. apply Hg. unfold gone. rewrite elem_of_filter. split; [lia|done]. }
    rewrite bool_decide_eq_false_2 by done. rewrite (proj2 (Z.leb_le _ _)) by lia.
    destruct (gone_insert a num Hnd) as [Hgi Hng]; [lia|].
    assert (Hlk : in_streams m !! num = Some (newStream num)) by (rewrite Hs, bool_decide_eq_true_2; done).
    assert (Z.of_nat (size (delete num (in_streams m))) = Z.of_nat (size (in_streams m)) - 1) as Hsd.
    { rewrite map_size_delete_Some by done. pose proof (map_size_ne_0_lookup_2 (in_streams m) num ltac:(by eexists)). lia. }
    rewrite Hnm. pose proof (repr_live maxNum m a Hr). rewrite (proj2 (Z.ltb_lt _ _)) by lia.
    set (a' := mkIS (opened a) (accepted a) ({[num]} ∪ deleted a)).
    assert (Hlim : limit maxNum a' = limit maxNum a + 1).
    { unfold limit. unfold a'. rewrite Hgi, size_gone_insert by done. lia. }
    assert (Hmax : i64 (nextStreamToOpen m + i64 (u64 (maxNum - Z.of_nat (size (delete num (in_streams m))))) - 1) = limit maxNum a').
    { rewrite Hlim, Hsd, Ho. unfold limit in *. rewrite u64_small by lia. rewrite (i64_small (maxNum - _)) by lia. rewrite i64_small; lia. }
    rewrite Hmax. eexists. split; [reflexivity|].
    split; cbn [opened accepted deleted nextStreamToOpen nextStreamToAccept in_streams
      streamsToDelete in_maxStream maxNumStreams newStreamChan_closed in_closeErr a']; try fold a'; try lia; try done.
    + intros n. rewrite elem_of_union, elem_of_singleton. intros [->|?]; [lia|auto].
    + intros n. unfold a'. rewrite Hgi. destruct (decide (n = num)) as [->|Hne].
      * rewrite lookup_delete_eq, bool_decide_eq_false_2; [done|]. set_solver.
      * rewrite lookup_delete_ne, Hs by done. apply if_decide_ext. set_solver.
    + intros n. rewrite Hdel, elem_of_union, elem_of_singleton. intuition lia.
    + unfold a'. rewrite Hgi, size_gone_insert by done. lia.
Qed.

Lemma incoming_accept maxNum m a : incoming_repr maxNum m a →
  let '(a', ev, r) := spec_accept maxNum a in
  ∃ m', Accept_try stype m = (m', ev, r) ∧ incoming_repr maxNum m' a'.
Proof.
  intros Hr. pose proof Hr as [Hb Hd Ho Ha Hs Hdel Hsz Hm [Hnm Hmx] Hlv]. unfold spec_accept, Accept_try.
  destruct Hlv as [Hc He]. rewrite He, Ha. assert (MaxStreamCount = 2 ^ 60) by done. rewrite Hs.
  assert (Hng : ∀ n, accepted a < n → n ∉ gone a) by (intros n Hn; unfold gone; rewrite elem_of_filter; lia).
  destruct (Z.ltb_spec (accepted a) (opened a)) as [Hlt|Hge].
  2: { rewrite bool_decide_eq_false_2 by lia. by exists m. }
  rewrite bool_decide_eq_true_2 by (split; [lia|apply Hng; lia]). cbn [streamsToDelete].
  rewrite (bool_decide_ext (accepted a + 1 ∈ streamsToDelete m) (accepted a + 1 ∈ deleted a)) by (rewrite Hdel; intuition lia).
  rewrite i64_small by lia.
  set (a1 := mkIS (opened a) (accepted a + 1) (deleted a ∖ {[accepted a + 1]})).
  assert (Hg1 : gone a1 = gone a).
  { unfold gone, a1; cbn. apply set_eq. intros i. rewrite !elem_of_filter, elem_of_difference, elem_of_singleton. intuition lia. }
  set (m1 := mkIncoming (in_streams m) (streamsToDelete m ∖ {[accepted a + 1]}) (accepted a + 1 + 1) (opened a + 1) (in_maxStream m)
    (maxNumStreams m) (newStreamChan_closed m) None).
  assert (Hr1 : incoming_repr maxNum m1 a1).
  { split; cbn [opened accepted deleted nextStreamToOpen nextStreamToAccept in_streams
      streamsToDelete in_maxStream maxNumStreams newStreamChan_closed in_closeErr a1 m1]; try fold a1; unfold limit in *; rewrite ?Hg1; try lia; try done.
    - intros n. rewrite elem_of_difference. intros [Hn _]. by apply Hd.
    - intros n. rewrite !elem_of_difference, Hdel, elem_of_singleton. intuition lia. }
  rewrite Ho. case_bool_decide as Hin.
  - pose proof (incoming_delete maxNum m1 a1 (accepted a + 1) Hr1) as Hdl. unfold spec_delete in Hdl.
    rewrite bool_decide_eq_true_2 in Hdl by (cbn; rewrite Hg1; split; [lia|apply Hng; lia]).
    rewrite bool_decide_eq_false_2 in Hdl by (unfold a1; cbn; set_solver).
    cbn [opened accepted deleted a1] in Hdl. rewrite Z.leb_refl in Hdl.
    replace ({[accepted a + 1]} ∪ deleted a ∖ {[accepted a + 1]}) with (deleted a) in Hdl.
    2: { apply set_eq. intros i. rewrite elem_of_union, elem_of_difference, elem_of_singleton.
      destruct (decide (i = accepted a + 1)); set_solver. }
    destruct Hdl as (m' & E & Hr'). cbn [in_streams streamsToDelete nextStreamToAccept nextStreamToOpen in_maxStream
      maxNumStreams newStreamChan_closed in_closeErr]. fold m1. rewrite E. by exists m'.
  - assert (streamsToDelete m ∖ {[accepted a + 1]} = streamsToDelete m) as E1.
    { apply set_eq. intros i. rewrite elem_of_difference, elem_of_singleton, Hdel. split; [tauto|]. intros [? ?].
      split; [done|]. by intros ->. }
    assert (deleted a ∖ {[accepted a + 1]} = deleted a) as E2 by set_solver.
    unfold m1, a1 in Hr1. rewrite E1, E2 in Hr1. eexists. split; [reflexivity|exact Hr1].
Qed.

(** The map after [CloseWithError].  Accepting returns the error, deleting works as
    before, and opening a stream sends on the closed channel. *)
Definition close_map (m : incomingItemsMap item) (e : goerr) : incomingItemsMap item :=
  mkIncoming (in_streams m) (streamsToDelete m) (nextStreamToAccept m) (nextStreamToOpen m) (in_maxStream m) (maxNumStreams m) true (Some e).
Lemma closed_delete m e num : in_deleteStream stype (close_map m e) num = let '(m', ev, err) := in_deleteStream stype m num in (close_map m' e, ev, err).
Proof. unfold in_deleteStream, close_map. cbn. repeat case_match; done. Qed.
Lemma closed_get maxNum m a e num : incoming_repr maxNum m a →
  if (opened a <? num) && (num <=? limit maxNum a) then ∃ p, GetOrOpenStream newStream (close_map m e) num = Panic p
  else GetOrOpenStream newStream (close_map m e) num = '(m', ev, i, err) ← GetOrOpenStream newStream m num; Ok (close_map m' e, ev, i, err).
Proof.
  intros [_ _ Ho _ _ _ _ Hm _ _]. unfold GetOrOpenStream, close_map. cbn [in_maxStream nextStreamToOpen in_streams streamsToDelete newStreamChan_closed].
  rewrite Hm, Ho. destruct (Z.ltb_spec (limit maxNum a) num); [rewrite (proj2 (Z.leb_gt num (limit maxNum a))), andb_false_r by lia; cbn; by rewrite Hm, Ho|].
  rewrite (proj2 (Z.leb_le num (limit maxNum a))), andb_true_r by lia. destruct (Z.ltb_spec (opened a) num).
  - rewrite (proj2 (Z.ltb_ge num (opened a + 1))) by lia. replace (Z.to_nat (num - (opened a + 1) + 1)) with (S (Z.to_nat (num - (opened a + 1)))) by lia. by eexists.
  - rewrite (proj2 (Z.ltb_lt num (opened a + 1))) by lia. cbn. by rewrite Hm, Ho.
Qed.
(** The streams that are neither deleted nor still to be opened. *)
Definition live_streams (a : incoming_spec) : gmap Z item := set_to_map (λ n, (n, newStream n)) (list_to_set (seqZ 1 (opened a)) ∖ gone a : gset Z).
Lemma live_streams_spec maxNum m a : incoming_repr maxNum m a → in_streams m = live_streams a.
Proof.
  intros Hr. apply map_eq. intros n. rewrite (ir_streams _ _ _ Hr). apply option_eq. intros i. unfold live_streams.
  rewrite lookup_set_to_map by (cbn; naive_solver). case_bool_decide as Hn; split.
  - intros [= <-]. exists n. rewrite elem_of_difference, elem_of_list_to_set, elem_of_seqZ. split; [split; [lia|tauto]|done].
  - by intros (y & _ & [= <- <-]).
  - done.
  - intros (y & Hy & [= -> _]). rewrite elem_of_difference, elem_of_list_to_set, elem_of_seqZ in Hy. destruct Hn. split; [lia|tauto].
Qed.

(** Sequences of operations, with what each returns. *)
Inductive in_op := InAccept | InGet (num : Z) | InDelete (num : Z) | InClose (e : goerr).
Inductive in_out :=
  | OutAccept (ev : list (map_event item)) (r : accept_result item)
  | OutGet (i : option item) (err : option goerr)
  | OutDelete (ev : list (map_event item)) (err : option goerr)
  | OutClose (ev : list (map_event item)).
Definition in_op_ok (o : in_op) : Prop := match o with InGet num => 1 <= num <= MaxStreamCount | _ => True end.

Definition in_exec (m : incomingItemsMap item) (o : in_op) : outcome (incomingItemsMap item * in_out) :=
  match o with
  | InAccept => let '(m, ev, r) := Accept_try stype m in Ok (m, OutAccept ev r)
  | InGet num => '(m, _, i, err) ← GetOrOpenStream newStream m num; Ok (m, OutGet i err)
  | InDelete num => let '(m, ev, err) := in_DeleteStream stype m num in Ok (m, OutDelete ev err)
  | InClose e => '(m, ev) ← in_CloseWithError m (Some e); Ok (m, OutClose ev)
  end.
(** The error of a map that is closed; [None] is a panic: only in a closed map, on
    opening a stream or on closing again. *)
Definition spec_exec (maxNum : Z) (a : incoming_spec) (c : option goerr) (o : in_op) : option (incoming_spec * option goerr * in_out) :=
  match o with
  | InAccept => match c with
                | Some e => Some (a, c, OutAccept [] (AReturn None (Some e)))
                | None => let '(a, ev, r) := spec_accept maxNum a in Some (a, c, OutAccept ev r)
                end
  | InGet num => if bool_decide (c ≠ None) && ((opened a <? num) && (num <=? limit maxNum a)) then None
                 else let '(a, i, err) := spec_get maxNum a num in Some (a, c, OutGet i err)
  | InDelete num => let '(a, ev, err) := spec_delete maxNum a num in Some (a, c, OutDelete ev err)
  | InClose e => match c with
                 | Some _ => None
                 | None => Some (a, Some e, OutClose ((λ p, MapCloseStream p.2 (Some e)) <$> map_to_list (live_streams a)))
                 end
  end.
Fixpoint in_run (m : incomingItemsMap item) (ops : list in_op) : outcome (incomingItemsMap item * list in_out) :=
  match ops with
  | [] => Ok (m, [])
  | o :: ops => '(m, out) ← in_exec m o; '(m, outs) ← in_run m ops; Ok (m, out :: outs)
  end.
Fixpoint spec_run (maxNum : Z) (a : incoming_spec) (c : option goerr) (ops : list in_op) : option (incoming_spec * option goerr * list in_out) :=
  match ops with
  | [] => Some (a, c, [])
  | o :: ops =>
      match spec_exec maxNum a c o with
      | Some (a, c, out) => match spec_run maxNum a c ops with Some (a, c, outs) => Some (a, c, out :: outs) | None => None end
      | None => None
      end
  end.
(** The streams [AcceptStream] handed out. *)
Definition accepted_items (outs : list in_out) : list item :=
  omap (λ o, match o with OutAccept _ (AReturn i None) => i | _ => None end) outs.
(** The map [m] represents [a], open or closed with an error. *)
Definition map_repr (maxNum : Z) (m : incomingItemsMap item) (a : incoming_spec) (c : option goerr) : Prop :=
  ∃ m0, incoming_repr maxNum m0 a ∧ m = match c with None => m0 | Some e => close_map m0 e end.

Lemma in_exec_refines maxNum m a c o : map_repr maxNum m a c → in_op_ok o →
  match spec_exec maxNum a c o with
  | Some (a', c', out) => ∃ m', in_exec m o = Ok (m', out) ∧ map_repr maxNum m' a' c'
  | None => ∃ p, in_exec m o = Panic p
  end.
Proof.
  intros (m0 & Hr & ->) Ho. destruct o as [|num|num|e]; cbn [in_exec spec_exec].
  - destruct c as [e|]; [by eexists; split; [|exists m0]|]. pose proof (incoming_accept maxNum m0 a Hr) as H. destruct (spec_accept maxNum a) as [[a' ev] r].
    destruct H as (m' & -> & H). exists m'. split; [done|]. by exists m'.
  - pose proof (incoming_get maxNum m0 a num Hr Ho) as H. destruct c as [e|]; cbn [bool_decide andb].
    + rewrite bool_decide_true by done. cbn [andb]. pose proof (closed_get maxNum m0 a e num Hr) as Hc. destruct (_ && _).
      * destruct Hc as [p ->]. by exists p.
      * rewrite Hc. destruct (spec_get maxNum a num) as [[a' i] err]. destruct H as (m' & k & -> & H & _). eexists. split; [done|]. by exists m'.
    + rewrite bool_decide_false by (intros HH; by apply HH). cbn [andb]. destruct (spec_get maxNum a num) as [[a' i] err]. destruct H as (m' & k & -> & H & _). exists m'. split; [done|]. by exists m'.
  - pose proof (incoming_delete maxNum m0 a num Hr) as H. destruct (spec_delete maxNum a num) as [[a' ev] err].
    destruct H as (m' & E & H). unfold in_DeleteStream. destruct c as [e|]; [rewrite closed_delete|]; rewrite E; eexists; (split; [done|]); by exists m'.
  - unfold in_CloseWithError. destruct c as [e'|]; [by eexists|]. destruct (ir_live _ _ _ Hr) as [-> _]. cbn [mbind outcome_bind]. exists (close_map m0 e). split; [by rewrite <- (live_streams_spec maxNum m0 a Hr)|].
    exists m0. by split.
Qed.
Lemma in_run_refines maxNum ops : ∀ m a c, map_repr maxNum m a c → Forall in_op_ok ops →
  match spec_run maxNum a c ops with
  | Some (a', c', outs) => ∃ m', in_run m ops = Ok (m', outs) ∧ map_repr maxNum m' a' c'
  | None => ∃ p, in_run m ops = Panic p
  end.
Proof.
  induction ops as [|o ops IH]; intros m a c Hr Ho; cbn [in_run spec_run]; [by exists m|].
  apply Forall_cons in Ho as [Ho Hops]. pose proof (in_exec_refines maxNum m a c o Hr Ho) as Ho1.
  destruct (spec_exec maxNum a c o) as [[[a1 c1] out]|]; [|destruct Ho1 as [p ->]; by exists p]. destruct Ho1 as (m1 & -> & Hr1). cbn [mbind outcome_bind].
  specialize (IH m1 a1 c1 Hr1 Hops). destruct (spec_run maxNum a1 c1 ops) as [[[a2 c2] outs]|]; [|destruct IH as [p ->]; by exists p].
  destruct IH as (m2 & -> & Hr2). by exists m2.
Qed.
Lemma spec_run_accepts maxNum ops : ∀ a c a' c' outs, spec_run maxNum a c ops = Some (a', c', outs) →
  accepted a <= accepted a' ∧ accepted_items outs = newStream <$> seqZ (accepted a + 1) (accepted a' - accepted a).
Proof.
  induction ops as [|o ops IH]; intros a c a' c' outs; cbn [spec_run].
  { intros [= <- <- <-]. split; [lia|]. by rewrite Z.sub_diag. }
  destruct (spec_exec maxNum a c o) as [[[a1 c1] out]|] eqn:E1; [|done]. destruct (spec_run maxNum a1 c1 ops) as [[[a2 c2] outs']|] eqn:E2; [|done]. intros [= <- <- <-].
  destruct (IH _ _ _ _ _ E2) as [Hle Ha]. assert (accepted a1 = accepted a ∧ accepted_items [out] = [] ∨ accepted a1 = accepted a + 1 ∧ accepted_items [out] = [newStream (accepted a + 1)]) as Hout.
  { clear E2 Ha. destruct o as [|num|num|e]; cbn [spec_exec] in E1.
    - destruct c; [injection E1 as <- <- <-; by left|]. unfold spec_accept in E1. destruct (accepted a <? opened a); injection E1 as <- <- <-; [by right|by left].
    - destruct (_ && (_ && _)); [done|]. unfold spec_get in E1. destruct (_ <? num); injection E1 as <- <- <-; by left.
    - unfold spec_delete in E1. case_bool_decide; [case_bool_decide|]; injection E1 as <- <- <-; by left.
    - destruct c; [done|]. injection E1 as <- <- <-. by left. }
  change (out :: outs') with ([out] ++ outs'). unfold accepted_items in *. rewrite omap_app, Ha. destruct Hout as [[Eacc ->]|[Eacc ->]]; rewrite Eacc in *; (split; [lia|]); [done|].
  rewrite (seqZ_cons (accepted a + 1)) by lia. cbn. do 3 f_equal; lia.
Qed.
(** An open map does not panic. *)
Lemma spec_run_open maxNum ops : ∀ a, Forall (λ o, match o with InClose _ => False | _ => True end) ops → is_Some (spec_run maxNum a None ops).
Proof.
  induction ops as [|o ops IH]; intros a Ho; [by eexists|]. apply Forall_cons in Ho as [Ho Hops]. cbn [spec_run].
  assert (∃ a1 out, spec_exec maxNum a None o = Some (a1, None, out)) as (a1 & out & ->).
  { destruct o as [|num|num|e]; [| | |done]; cbn [spec_exec].
    - destruct (spec_accept maxNum a) as [[a1 ev] r]. by eexists _, _.
    - rewrite bool_decide_false by (intros HH; by apply HH). cbn [andb]. destruct (spec_get maxNum a num) as [[a1 i] err]. by eexists _, _.
    - destruct (spec_delete maxNum a num) as [[a1 ev] err]. by eexists _, _. }
  destruct (IH a1 Hops) as [[[a2 c2] outs] ->]. by eexists.
Qed.
End Incoming.
Arguments in_op : clear implicits.

(** C29: Any sequence of operations on the map of incoming streams answers as the
    abstract state says: a stream above the limit is refused, a deleted one is nil,
    every other number names its stream; deleting twice or an unknown stream is an
    error; the limit announced is the number of streams allowed at once plus the
    accepted ones that completed; closing closes every stream that is not gone, and
    afterwards accepting returns the error.  Streams are accepted in the order of
    their numbers, each exactly once.  The map does not panic, except that a map that
    was closed panics if a stream is opened in it or if it is closed again. *)
Theorem incoming_streams_refine {item} (stype : StreamType) (newStream : Z → item) maxNum ops
    (Hmax : 0 <= maxNum <= MaxStreamCount) (Hops : Forall in_op_ok ops) :
  match spec_run stype newStream maxNum (mkIS 0 0 ∅) None ops with
  | Some (a, c, outs) => ∃ m, in_run stype newStream (newIncomingItemsMap maxNum) ops = Ok (m, outs) ∧ map_repr newStream maxNum m a c ∧
      accepted_items outs = newStream <$> seqZ 1 (accepted a)
  | None => ∃ p, in_run stype newStream (newIncomingItemsMap maxNum) ops = Panic p
  end ∧
  (Forall (λ o, match o with InClose _ => False | _ => True end) ops → is_Some (spec_run stype newStream maxNum (mkIS 0 0 ∅) None ops)).
Proof.
  split; [|apply spec_run_open]. pose proof (in_run_refines stype newStream maxNum ops (newIncomingItemsMap maxNum) (mkIS 0 0 ∅) None) as Hrun.
  destruct (spec_run stype newStream maxNum (mkIS 0 0 ∅) None ops) as [[[a c] outs]|] eqn:E.
  - destruct Hrun as (m & Em & Hr); [eexists; split; [by apply incoming_init|done]|done|]. exists m. split; [done|]. split; [done|].
    apply spec_run_accepts in E as [_ Ha]. cbn in Ha. by rewrite Z.sub_0_r in Ha.
  - apply Hrun; [eexists; split; [by apply incoming_init|done]|done].
Qed.
Definition sample_in_ops : list in_op :=
  [InGet 2; InAccept; InDelete 1; InGet 3; InGet 4; InDelete 2; InAccept; InAccept; InAccept; InClose (Errorf "closed" []); InAccept; InGet 3].
Lemma incoming_streams_refine_witness :
  (∃ m, in_run StreamTypeUni (λ n, n) (newIncomingItemsMap 2) sample_in_ops = Ok (m,
    [OutGet (Some 2) None; OutAccept [] (AReturn (Some 1) None);
     OutDelete [MapQueueFrame (FMaxStreams (mkMaxStreams StreamTypeUni 3))] None;
     OutGet (Some 3) None; OutGet None (Some (StreamNumError "peer tried to open stream %d (current limit: %d)" [4; 3]));
     OutDelete [] None; OutAccept [MapQueueFrame (FMaxStreams (mkMaxStreams StreamTypeUni 4))] (AReturn (Some 2) None);
     OutAccept [] (AReturn (Some 3) None); OutAccept [] AWait; OutClose [MapCloseStream 3 (Some (Errorf "closed" []))];
     OutAccept [] (AReturn None (Some (Errorf "closed" []))); OutGet (Some 3) None])) ∧
  (∃ p, in_run StreamTypeUni (λ n, n) (newIncomingItemsMap 2) (sample_in_ops ++ [InGet 4]) = Panic p).
Proof.
  split.
  - destruct (incoming_streams_refine StreamTypeUni (λ n : Z, n) 2 sample_in_ops) as [H _]; [unfold MaxStreamCount; lia| |].
    + repeat constructor; unfold MaxStreamCount; cbn; lia.
    + remember (spec_run StreamTypeUni (λ n : Z, n) 2 (mkIS 0 0 ∅) None sample_in_ops) as r eqn:E. vm_compute in E. subst r.
      destruct H as (m & Em & _). exists m. exact Em.
  - destruct (incoming_streams_refine StreamTypeUni (λ n : Z, n) 2 (sample_in_ops ++ [InGet 4])) as [H _]; [unfold MaxStreamCount; lia| |].
    + repeat constructor; unfold MaxStreamCount; cbn; lia.
    + remember (spec_run StreamTypeUni (λ n : Z, n) 2 (mkIS 0 0 ∅) None (sample_in_ops ++ [InGet 4])) as r eqn:E. vm_compute in E. subst r. exact H.
Defined.

(** * Waiting for an incoming stream *)

(** A goroutine in [AcceptStream]: it runs under the mutex, then unlocks it, then
    waits on the unbuffered [newStreamChan].  A non-blocking send reaches it only
    while it waits. *)
Inductive acceptor := Unlocked | Selecting | Woken.
Definition acceptor_signal (g : acceptor) (ev : list (map_event Z)) : acceptor :=
  match g with
  | Selecting => if existsb (λ e, match e with MapSignal => true | _ => false end) ev then Woken else g
  | _ => g
  end.

(** A stream opened between the moment [AcceptStream] finds nothing to accept
    and the moment it waits on the channel is not announced to it: the signal is
    dropped and the call waits although a stream is there to accept, until the
    peer opens another one. *)
Theorem accept_misses_stream :
  ∃ m1 ev, Accept_try (item := Z) StreamTypeUni (newIncomingItemsMap 2) = (newIncomingItemsMap 2, [], AWait) ∧
    GetOrOpenStream (λ n : Z, n) (newIncomingItemsMap 2) 1 = Ok (m1, ev, Some 1, None) ∧
    acceptor_signal Unlocked ev = Unlocked ∧ acceptor_signal Selecting ev = Woken ∧
    (Accept_try StreamTypeUni m1).2 = AReturn (Some 1) None.
Proof. exists (mkIncoming {[1 := 1]} ∅ 1 2 2 2 false None), [MapSignal]. split_and!; vm_compute; reflexivity. Qed.

(** * Outgoing streams *)

Section Outgoing.
Context {item : Type} (stype : StreamType) (newStream : Z → item).

(** The calls of [OpenStreamSync] that wait are the entries of the queue.
    [careful] excludes the cancellation of a call whose channel was closed
    already; [log] are the streams opened so far. *)
Inductive out_step (careful : bool) : outgoingItemsMap item * list item → outgoingItemsMap item * list item → Prop :=
  | os_open m log m' ev i err : OpenStream stype newStream m = (m', ev, i, err) →
      out_step careful (m, log) (m', log ++ option_list i)
  | os_sync m log m' ev i err : OpenStreamSync stype newStream m None = (m', ev, OReturn i err) →
      out_step careful (m, log) (m', log ++ option_list i)
  | os_wait m log m' ev p : OpenStreamSync stype newStream m None = (m', ev, OWait p) → highestInQueue m < 2 ^ 64 - 2 →
      out_step careful (m, log) (m', log)
  | os_wake m log p m' i err : is_Some (openQueue m !! p) →
      OpenStreamSync_wake newStream m p = Some (Ok (m', OReturn i err)) → out_step careful (m, log) (m', log ++ option_list i)
  | os_spin m log p m' : is_Some (openQueue m !! p) →
      OpenStreamSync_wake newStream m p = Some (Ok (m', OWait p)) → out_step careful (m, log) (m', log)
  | os_cancel m log p b : openQueue m !! p = Some b → (careful = true → b = true) →
      out_step careful (m, log) ((OpenStreamSync_cancel m p ContextErr).1, log)
  | os_delete m log num m' err : out_DeleteStream m num = (m', err) → out_step careful (m, log) (m', log)
  | os_max m log num m' : num <= MaxStreamCount → SetMaxStream m num = Ok m' → out_step careful (m, log) (m', log).

Record out_inv (m : outgoingItemsMap item) (log : list item) : Prop := {
  oi_next : 1 <= nextStream m ∧ nextStream m - 1 <= Z.max 0 (out_maxStream m) ∧ out_maxStream m <= MaxStreamCount;
  oi_log : log = newStream <$> seqZ 1 (nextStream m - 1);
  oi_streams : ∀ n s, out_streams m !! n = Some s → 1 <= n < nextStream m ∧ s = newStream n;
  oi_pos : 0 <= lowestInQueue m <= highestInQueue m ∧ highestInQueue m <= 2 ^ 64 - 2;
  oi_closed : ∀ p, p ∈ out_closed m → p < highestInQueue m;
  oi_queue : ∀ (p : Z) (b : bool), openQueue m !! p = Some b → 0 <= p < highestInQueue m ∧
    (if b then lowestInQueue m <= p ∧ p ∉ out_closed m else p < lowestInQueue m ∧ p ∈ out_closed m);
  oi_live : out_closeErr m = None }.
(** Somebody is awake when a stream can be opened. *)
Definition out_awake (m : outgoingItemsMap item) : Prop :=
  openQueue m ≠ ∅ → nextStream m <= out_maxStream m → ∃ p : Z, openQueue m !! p = Some false.

(** [unblockOpenSync] closes the channel of the first call that still waits. *)
Definition unblocked (m m' : outgoingItemsMap item) : Prop :=
  (m' = m ∧ ∀ p : Z, openQueue m !! p ≠ Some true) ∨
  ∃ p : Z, openQueue m !! p = Some true ∧ (∀ q : Z, openQueue m !! q = Some true → p <= q) ∧
    m' = mkOutgoing (out_streams m) (<[p := false]> (openQueue m)) ({[p]} ∪ out_closed m) (p + 1) (highestInQueue m)
           (nextStream m) (out_maxStream m) (blockedSent m) (out_closeErr m).
Lemma unblock_loop_spec m log n : out_inv m log → ∀ qp, lowestInQueue m <= qp →
  qp + Z.of_nat n = highestInQueue m + 1 → (∀ q, openQueue m !! q = Some true → qp <= q) →
  ∃ m', unblock_loop m qp n = Ok m' ∧ unblocked m m'.
Proof.
  intros [_ _ _ Hp _ Hq _]. induction n as [|n IH]; intros qp Hlo Hn Hmin; cbn [unblock_loop].
  { exists m. split; [done|]. left. split; [done|]. intros p E. pose proof (Hmin p E). apply Hq in E. lia. }
  destruct (openQueue m !! qp) as [b|] eqn:Eq.
  - pose proof (Hq qp b Eq) as [Hr Hb]. destruct b; [|lia]. cbn [negb]. rewrite bool_decide_eq_false_2 by tauto.
    rewrite u64_small by lia. eexists. split; [done|]. right. by exists qp.
  - rewrite u64_small by lia. apply IH; [lia..|]. intros q E. pose proof (Hmin q E). destruct (decide (q = qp)); [congruence|lia].
Qed.
Lemma unblock_spec m log : out_inv m log → ∃ m', unblockOpenSync m = Ok m' ∧ unblocked m m'.
Proof.
  intros Hi. unfold unblockOpenSync. destruct (Nat.eqb_spec (size (openQueue m)) 0) as [E|E].
  { exists m. split; [done|]. left. split; [done|]. intros p. apply map_size_empty_inv in E. rewrite E, lookup_empty. done. }
  pose proof (oi_pos _ _ Hi). apply (unblock_loop_spec m log); [done|lia..|].
  intros q Hq. apply (oi_queue _ _ Hi) in Hq. lia.
Qed.
Lemma unblocked_inv m m' log : out_inv m log → unblocked m m' → out_inv m' log ∧ out_awake m'.
Proof.
  intros Hi [[-> Hn]|(p & Hp & Hmin & ->)].
  - split; [done|]. intros Hne _. apply map_choose in Hne as (p & b & Hb). destruct b; [by apply Hn in Hb|]. by exists p.
  - destruct Hi as [H1 H2 H3 H4 H5 H6 H7]. destruct (H6 p true Hp) as [Hr [Hl Hc]]. split.
    + split; cbn; try done; try lia.
      * intros q. rewrite elem_of_union, elem_of_singleton. intros [->|?]; [lia|auto].
      * intros q b. destruct (decide (q = p)) as [->|Hne].
        -- rewrite lookup_insert_eq. intros [= <-]. split; [lia|]. split; [lia|set_solver].
        -- rewrite lookup_insert_ne by done. intros E. destruct (H6 q b E) as [Hr' Hb]. split; [done|]. destruct b.
           ++ pose proof (Hmin q E). split; [lia|set_solver].
           ++ split; [lia|set_solver].
    + intros _ _. exists p. cbn. by rewrite lookup_insert_eq.
Qed.

Lemma openStream_inv m log m' s : out_inv m log → nextStream m <= out_maxStream m → openStream newStream m = (m', s) →
  out_inv m' (log ++ [s]) ∧ openQueue m' = openQueue m.
Proof.
  intros [H1 H2 H3 H4 H5 H6 H7] Hn [= <- <-]. assert (MaxStreamCount = 2 ^ 60) by done. split; [|done].
  split; cbn; rewrite ?(i64_small (nextStream m + 1)) by lia; try done; try lia.
  - subst log. replace (nextStream m + 1 - 1) with (nextStream m - 1 + 1) by lia.
    rewrite (seqZ_app 1 (nextStream m - 1) 1), fmap_app by lia. f_equal. replace (1 + (nextStream m - 1)) with (nextStream m) by lia.
    by rewrite seqZ_cons.
  - intros n s. destruct (decide (n = nextStream m)) as [->|Hne].
    + rewrite lookup_insert_eq. intros [= <-]. split; [lia|done].
    + rewrite lookup_insert_ne by done. intros E. apply H3 in E. split; [lia|tauto].
Qed.
Lemma blocked_inv m log m' ev : out_inv m log → maybeSendBlockedFrame stype m = (m', ev) →
  out_inv m' log ∧ (out_awake m → out_awake m').
Proof.
  unfold maybeSendBlockedFrame. intros Hi. destruct (blockedSent m); intros [= <- <-]; [done|].
  split; [by destruct Hi|done].
Qed.
Lemma set_max_inv m log num : out_inv m log → out_maxStream m < num → num <= MaxStreamCount →
  out_inv (mkOutgoing (out_streams m) (openQueue m) (out_closed m) (lowestInQueue m) (highestInQueue m)
             (nextStream m) num false (out_closeErr m)) log.
Proof. intros [H1 H2 H3 H4 H5 H6 H7] Hn Hm. split; cbn; try done. lia. Qed.
Lemma dequeue_inv m log p : out_inv m log → out_inv (dequeue_open m p) log.
Proof.
  intros [H1 H2 H3 H4 H5 H6 H7]. split; cbn; try done. intros q b. rewrite lookup_delete_Some. intros [_ ?]. auto.
Qed.
Lemma enqueue_inv m log : out_inv m log → highestInQueue m < 2 ^ 64 - 2 →
  let q := highestInQueue m in
  let m' := mkOutgoing (out_streams m) (<[q := true]> (openQueue m)) (out_closed m)
              (if (size (openQueue m) =? 0)%nat then q else lowestInQueue m)
              (u64 (q + 1)) (nextStream m) (out_maxStream m) (blockedSent m) (out_closeErr m) in
  (size (openQueue m) = 0%nat → out_maxStream m < nextStream m) →
  out_inv m' log ∧ (out_awake m → out_awake m').
Proof.
  intros [H1 H2 H3 H4 H5 H6 H7] Hh q m' Hav. unfold m', q; clear m' q. rewrite u64_small by lia.
  assert (Hempty : ∀ p b, (size (openQueue m) =? 0)%nat = true → openQueue m !! p = Some b → False).
  { intros p b E. apply Nat.eqb_eq, map_size_empty_inv in E. by rewrite E, lookup_empty. }
  split.
  - split; cbn; try done; try (destruct (size (openQueue m) =? 0)%nat; lia).
    + intros p Hp. apply H5 in Hp. lia.
    + intros p b. destruct (decide (p = highestInQueue m)) as [->|Hne].
      * rewrite lookup_insert_eq. intros [= <-]. split; [lia|]. split; [destruct (_ =? _)%nat; lia|]. intros Hp. apply H5 in Hp. lia.
      * rewrite lookup_insert_ne by done. intros E. destruct (H6 p b E) as [Hr Hb]. split; [lia|].
        destruct (size (openQueue m) =? 0)%nat eqn:Es; [by destruct (Hempty p b eq_refl E)|done].
  - intros Ha _ Hn. cbn in Hn. destruct Ha as [p Hp]; [|done|].
    + intros E. assert (size (openQueue m) = 0%nat) as Es by (rewrite E; apply map_size_empty). apply Hav in Es. lia.
    + exists p. cbn. rewrite lookup_insert_ne; [done|]. intros <-. apply H6 in Hp. lia.
Qed.

Lemma out_step_inv c m log m' log' : out_step c (m, log) (m', log') → out_inv m log →
  out_inv m' log' ∧ (c = true → out_awake m → out_awake m').
Proof.
  intros Hst Hi. pose proof (oi_live _ _ Hi) as Hl.
  inv Hst as [? ? ? ev i err E|? ? ? ev i err E|? ? ? ev p E Hh|? ? p ? i err Hp E|? ? p ? Hp E|? ? p b Hp Hb|? ? num ? err E|? ? num ? Hm E].
  - unfold OpenStream in E. rewrite Hl in E. destruct ((0 <? size (openQueue m))%nat || (out_maxStream m <? nextStream m)) eqn:Ec.
    + destruct (maybeSendBlockedFrame stype m) as [m1 ev1] eqn:Eb. injection E as <- <- <- <-.
      cbn. rewrite app_nil_r. apply (blocked_inv m log) in Eb; tauto.
    + apply orb_false_iff in Ec as [Es En]. apply Z.ltb_ge in En. apply Nat.ltb_ge in Es.
      destruct (openStream newStream m) as [m1 s] eqn:Eo. injection E as <- <- <- <-.
      apply (openStream_inv m log) in Eo as [Ho Eq]; [|done..]. split; [done|]. intros _ _ Hne. destruct Hne.
      rewrite Eq. apply map_size_empty_inv. lia.
  - unfold OpenStreamSync in E. rewrite Hl in E. destruct ((size (openQueue m) =? 0)%nat && (nextStream m <=? out_maxStream m)) eqn:Ec.
    + apply andb_true_iff in Ec as [Es En]. apply Z.leb_le in En. apply Nat.eqb_eq in Es.
      destruct (openStream newStream m) as [m1 s] eqn:Eo. injection E as <- <- <- <-.
      apply (openStream_inv m log) in Eo as [Ho Eq]; [|done..]. split; [done|]. intros _ _ Hne. destruct Hne.
      rewrite Eq. by apply map_size_empty_inv.
    + destruct (maybeSendBlockedFrame stype _) in E. done.
  - unfold OpenStreamSync in E. rewrite Hl in E. destruct ((size (openQueue m) =? 0)%nat && (nextStream m <=? out_maxStream m)) eqn:Ec.
    { destruct (openStream newStream m) in E. done. }
    destruct (enqueue_inv m log' Hi Hh) as [He Hw].
    { intros Es. rewrite Es in Ec. cbn in Ec. lia. }
    rewrite <- Hl in E. destruct (maybeSendBlockedFrame stype _) as [m1 ev1] eqn:Eb. injection E as <- <- <-.
    apply (blocked_inv _ _ _ _ He) in Eb as [H1 H2]. split; [done|]. tauto.
  - unfold OpenStreamSync_wake in E. destruct (negb _); [done|]. rewrite Hl in E.
    destruct (Z.ltb_spec (out_maxStream m) (nextStream m)); [done|].
    destruct (openStream newStream m) as [m1 s] eqn:Eo. apply (openStream_inv m log) in Eo as [Ho _]; [|done..].
    destruct (unblock_spec (dequeue_open m1 p) (log ++ [s]) (dequeue_inv _ _ _ Ho)) as (m2 & E2 & Hu). rewrite E2 in E.
    injection E as <- <- <-. destruct (unblocked_inv _ _ _ (dequeue_inv _ _ _ Ho) Hu). done.
  - unfold OpenStreamSync_wake in E. destruct (negb _); [done|]. rewrite Hl in E.
    destruct (Z.ltb_spec (out_maxStream m) (nextStream m)); [by injection E as <-|].
    destruct (openStream newStream m) as [m1 s]. destruct (unblockOpenSync _); done.
  - cbn. split; [by apply dequeue_inv|]. intros Hc Ha Hne Hn. rewrite (Hb Hc) in Hp. cbn in *.
    destruct Ha as [q Hq]; [|done|].
    + intros E. by rewrite E, lookup_empty in Hp.
    + exists q. rewrite lookup_delete_ne; [done|]. congruence.
  - unfold out_DeleteStream in E. destruct (out_streams m !! num) eqn:En; injection E as <- <-; [|done].
    split; [|done]. destruct Hi as [H1 H2 H3 H4 H5 H6 H7]. split; cbn; try done.
    intros n s. rewrite lookup_delete_Some. intros [_ ?]. auto.
  - unfold SetMaxStream in E. destruct (Z.leb_spec num (out_maxStream m)); [by injection E as <-|].
    pose proof (set_max_inv m log' num Hi ltac:(lia) Hm) as Hs. destruct (unblock_spec _ _ Hs) as (m2 & E2 & Hu).
    rewrite E2 in E. injection E as <-. destruct (unblocked_inv _ _ _ Hs Hu). done.
Qed.
Lemma out_init : out_inv newOutgoingItemsMap [] ∧ out_awake newOutgoingItemsMap.
Proof.
  split; [|by intros []]. split; cbn; unfold InvalidStreamNum, MaxStreamCount; try lia; try done.
  all: intros *; rewrite ?lookup_empty; done.
Qed.
Lemma out_reachable c m log : rtc (out_step c) (newOutgoingItemsMap, []) (m, log) →
  out_inv m log ∧ (c = true → out_awake m).
Proof.
  assert (∀ x y, rtc (out_step c) x y → out_inv x.1 x.2 ∧ (c = true → out_awake x.1) → out_inv y.1 y.2 ∧ (c = true → out_awake y.1)) as H.
  { induction 1 as [|[m0 l0] [m1 l1] z Hs _ IH]; [done|]. intros [H1 H2]. apply IH. cbn in *.
    destruct (out_step_inv _ _ _ _ _ Hs H1). tauto. }
  intros Hr. apply H in Hr; [done|]. pose proof out_init. tauto.
Qed.
End Outgoing.

(** C31: However the calls interleave - opening with and without waiting, calls
    that wake, spin or are cancelled, new limits, completed streams - the
    outgoing map never panics, its streams are numbered 1, 2, 3, ... without gaps
    and never exceed the largest limit the peer granted, and a call that does not
    wait is refused while others are waiting. *)
Theorem outgoing_streams_run {item} (stype : StreamType) (newStream : Z → item) m log
    (Hr : rtc (out_step stype newStream false) (newOutgoingItemsMap, []) (m, log)) :
  log = newStream <$> seqZ 1 (nextStream m - 1) ∧ Z.of_nat (length log) <= Z.max 0 (out_maxStream m) ∧
  (∀ num, num <= MaxStreamCount → is_ok (SetMaxStream m num) = true) ∧
  (∀ p r, OpenStreamSync_wake newStream m p = Some r → is_ok r = true) ∧
  (openQueue m ≠ ∅ → ∃ m' ev, OpenStream stype newStream m = (m', ev, None, Some (StreamOpenErr errTooManyOpenStreams))).
Proof.
  apply out_reachable in Hr as [Hi _]. pose proof Hi as [H1 H2 _ _ _ _ H7]. split; [done|]. split_and!.
  - subst log. rewrite length_fmap, length_seqZ. lia.
  - intros num Hn. unfold SetMaxStream. destruct (Z.leb_spec num (out_maxStream m)); [done|].
    destruct (unblock_spec newStream _ _ (set_max_inv newStream m log num Hi ltac:(lia) Hn)) as (m' & -> & _). done.
  - intros p r. unfold OpenStreamSync_wake. destruct (negb _); [done|]. rewrite H7.
    destruct (Z.ltb_spec (out_maxStream m) (nextStream m)); [by intros [= <-]|].
    destruct (openStream newStream m) as [m1 s] eqn:Eo. apply (openStream_inv newStream m log) in Eo as [Ho _]; [|done..].
    destruct (unblock_spec newStream _ _ (dequeue_inv newStream _ _ p Ho)) as (m2 & -> & _). by intros [= <-].
  - intros Hne. unfold OpenStream. rewrite H7. replace (0 <? size (openQueue m))%nat with true.
    + cbn. destruct (maybeSendBlockedFrame stype m) as [m' ev]. by exists m', ev.
    + symmetry. apply Nat.ltb_lt. apply map_size_non_empty_iff in Hne. lia.
Qed.
Lemma outgoing_streams_run_witness : ∃ (m : outgoingItemsMap Z) log,
  rtc (out_step StreamTypeUni (λ n, n) false) (newOutgoingItemsMap, []) (m, log) ∧ log = [1] ∧ nextStream m = 2.
Proof.
  assert (H : rtc (out_step StreamTypeUni (λ n : Z, n) false) (newOutgoingItemsMap, [])
    (mkOutgoing {[1 := 1]} ∅ ∅ 0 0 2 3 false None, [1])).
  { eapply rtc_l; [by apply (os_max _ _ _ _ _ 3)|]. apply rtc_once. by apply (os_open StreamTypeUni (λ n : Z, n) false _ [] _ [] (Some 1) None). }
  exists (mkOutgoing {[1 := 1]} ∅ ∅ 0 0 2 3 false None), [1]. split; [exact H|].
  destruct (outgoing_streams_run StreamTypeUni (λ n : Z, n) _ _ H) as [E _]. split; [exact E|reflexivity].
Defined.

(** C30: As long as no call is cancelled after its turn came, whenever a stream may
    be opened and calls of [OpenStreamSync] wait, one of them is awake and its
    next step opens the stream. *)
Theorem open_stream_sync_progress {item} (stype : StreamType) (newStream : Z → item) m log
    (Hr : rtc (out_step stype newStream true) (newOutgoingItemsMap, []) (m, log))
    (Hw : openQueue m ≠ ∅) (Ha : nextStream m <= out_maxStream m) :
  ∃ p m', openQueue m !! p = Some false ∧
    OpenStreamSync_wake newStream m p = Some (Ok (m', OReturn (Some (newStream (nextStream m))) None)) ∧
    openQueue m' !! p = None.
Proof.
  apply out_reachable in Hr as [Hi Hp]. destruct (Hp eq_refl Hw Ha) as [p Ep].
  destruct (oi_queue _ _ _ Hi p false Ep) as [_ [Hlow Hc]].
  destruct (openStream newStream m) as [m1 s] eqn:Eo. pose proof (openStream_inv newStream m log m1 s Hi Ha Eo) as [Ho Eq].
  destruct (unblock_spec newStream _ _ (dequeue_inv newStream _ _ p Ho)) as (m2 & E2 & Hu).
  exists p, m2. split_and!; [done| |].
  - unfold OpenStreamSync_wake. rewrite bool_decide_eq_true_2 by done. cbn [negb].
    rewrite (oi_live _ _ _ Hi), (proj2 (Z.ltb_ge _ _)), Eo, E2 by done. by injection Eo as <- <-.
  - destruct Hu as [[-> _]|(q & Hq & _ & ->)]; cbn in *; [by rewrite lookup_delete_eq|].
    rewrite lookup_insert_ne by (intros ->; by rewrite lookup_delete_eq in Hq). by rewrite lookup_delete_eq.
Qed.
Lemma open_stream_sync_progress_witness : ∃ m', OpenStreamSync_wake (λ n : Z, n)
    (mkOutgoing ∅ {[0 := false]} {[0]} 1 1 1 3 false None) 0 = Some (Ok (m', OReturn (Some 1) None)).
Proof.
  destruct (open_stream_sync_progress StreamTypeUni (λ n : Z, n) (mkOutgoing ∅ {[0 := false]} {[0]} 1 1 1 3 false None) [])
    as (p & m' & Hp & E & _).
  - eapply rtc_l; [by eapply (os_wait StreamTypeUni (λ n : Z, n) true)|]. apply rtc_once.
    by apply (os_max _ _ _ _ _ 3).
  - by vm_compute.
  - by vm_compute.
  - exists m'. cbn in Hp. apply lookup_singleton_Some in Hp as [<- _]. exact E.
Defined.

(** The outgoing maps of the following runs. *)
Definition sync (m : outgoingItemsMap Z) : outgoingItemsMap Z := (OpenStreamSync StreamTypeUni (λ n, n) m None).1.1.
Definition grant (m : outgoingItemsMap Z) (num : Z) : outgoingItemsMap Z :=
  match SetMaxStream m num with Ok m => m | _ => m end.
Definition wake (m : outgoingItemsMap Z) (p : Z) : outgoingItemsMap Z :=
  match OpenStreamSync_wake (λ n, n) m p with Some (Ok (m, _)) => m | _ => m end.

(** If the call whose turn has come is cancelled before it runs, nobody is
    woken in its place: the next call keeps waiting and [OpenStream] keeps
    refusing although the peer allows a stream. *)
Theorem open_stream_sync_cancel_strands :
  let m := (OpenStreamSync_cancel (grant (sync (sync newOutgoingItemsMap)) 1) 0 ContextErr).1 in
  nextStream m <= out_maxStream m ∧ OpenStreamSync_wake (λ n : Z, n) m 1 = None ∧
  (OpenStream StreamTypeUni (λ n : Z, n) m).2 = Some (StreamOpenErr errTooManyOpenStreams).
Proof. split_and!; vm_compute; congruence. Qed.

(** A call that obtained the last stream wakes the next one although no stream
    is left: its channel stays closed, so it loops without waiting, and when the
    limit is raised a call that came later can take the stream first. *)
Theorem open_stream_sync_spins :
  let m := sync (wake (grant (sync (sync newOutgoingItemsMap)) 1) 0) in
  OpenStreamSync_wake (λ n : Z, n) m 1 = Some (Ok (m, OWait 1)) ∧
  ∃ m', OpenStreamSync_wake (λ n : Z, n) (grant m 2) 2 = Some (Ok (m', OReturn (Some 2) None)) ∧
    OpenStreamSync_wake (λ n : Z, n) m' 1 = Some (Ok (m', OWait 1)).
Proof.
  cbv zeta. split; [vm_compute; reflexivity|].
  exists (wake (grant (sync (wake (grant (sync (sync newOutgoingItemsMap)) 1) 0)) 2) 2).
  split; vm_compute; reflexivity.
Qed.

(** * The four maps of a connection *)

(** Every map represents what its direction and type allow; the log of streams
    opened is that of the maps together. *)
Definition sm_inv (maxBidi maxUni : Z) (m : streamsMap) : Prop :=
  (∃ l, out_inv (newOutgoingBidi (perspective m)) (outgoingBidiStreams m) l) ∧
  (∃ l, out_inv (newOutgoingUni (perspective m)) (outgoingUniStreams m) l) ∧
  (∃ a, incoming_repr (newIncomingBidi (perspective m)) maxBidi (incomingBidiStreams m) a) ∧
  (∃ a, incoming_repr (newIncomingUni (perspective m)) maxUni (incomingUniStreams m) a).

Lemma stream_num_range id : 0 <= id < 2 ^ 62 → 1 <= StreamID_StreamNum id <= MaxStreamCount.
Proof.
  intros H. unfold StreamID_StreamNum, MaxStreamCount. rewrite Z.quot_div_nonneg by lia.
  assert (0 <= id / 4 < 2 ^ 60) by (split; [apply Z.div_pos; lia|apply Z.div_lt_upper_bound; lia]). rewrite i64_small; lia.
Qed.
(** An ID is determined by its number, type and initiator. *)
Lemma stream_id_inverse id : 0 <= id < 2 ^ 62 →
  StreamNum_StreamID (StreamID_StreamNum id) (StreamID_Type id) (StreamID_InitiatedBy id) = id.
Proof.
  intros H. rewrite StreamNum_StreamID_eq by (by apply stream_num_range).
  unfold StreamID_StreamNum, StreamID_Type, StreamID_InitiatedBy.
  rewrite Z.quot_div_nonneg, !Z.rem_mod_nonneg by lia.
  assert (0 <= id / 4 < 2 ^ 60) by (split; [apply Z.div_pos; lia|apply Z.div_lt_upper_bound; lia]). rewrite i64_small by lia.
  pose proof (Z.div_mod id 4 ltac:(lia)). pose proof (Z.mod_pos_bound id 4 ltac:(lia)).
  pose proof (Z.div_mod id 2 ltac:(lia)). pose proof (Z.mod_pos_bound id 2 ltac:(lia)).
  destruct (Z.leb_spec 2 (id mod 4)), (Z.eqb_spec (id mod 2) 0); lia.
Qed.

Lemma sm_inv_new maxBidi maxUni pers : 0 <= maxBidi <= MaxStreamCount → 0 <= maxUni <= MaxStreamCount →
  sm_inv maxBidi maxUni (newStreamsMap maxBidi maxUni pers).
Proof.
  intros. split_and!; [exists []; apply out_init..| |]; exists (mkIS 0 0 ∅); by apply incoming_init.
Qed.
Lemma sm_inv_incomingBidi maxBidi maxUni m i a : incoming_repr (newIncomingBidi (perspective m)) maxBidi i a →
  sm_inv maxBidi maxUni m → sm_inv maxBidi maxUni (set_incomingBidi m i).
Proof. intros Hs (H1 & H2 & _ & H4). split_and!; [done..|by eexists|done]. Qed.
Lemma sm_inv_incomingUni maxBidi maxUni m i a : incoming_repr (newIncomingUni (perspective m)) maxUni i a →
  sm_inv maxBidi maxUni m → sm_inv maxBidi maxUni (set_incomingUni m i).
Proof. intros Hs (H1 & H2 & H3 & _). split_and!; [done..|by eexists]. Qed.


Lemma spec_get_item {item} (newStream : Z → item) maxNum a num i :
  (spec_get newStream maxNum a num).1.2 = Some i → i = newStream num.
Proof. unfold spec_get. destruct (_ <? num); [done|]. cbn. case_bool_decide; [done|]. by intros [= <-]. Qed.
Lemma out_GetStream_item {item} (newStream : Z → item) m l num i err : out_inv newStream m l →
  out_GetStream m num = (Some i, err) → i = newStream num.
Proof.
  intros Hi. unfold out_GetStream. destruct (_ <=? num); intros [= E ?]. by apply (oi_streams _ _ _ Hi) in E as [_ ->].
Qed.
Lemma other_perspective (p q : Perspective) : p ≠ q → p = Opposite q.
Proof. by destruct p, q. Qed.

(** The result of a lookup: no panic, the invariant, and the stream asked for. *)
Definition lookup_ok (maxBidi maxUni id : Z) (r : outcome (streamsMap * list (map_event Z) * option Z * option goerr)) : Prop :=
  ∃ m ev str err, r = Ok (m, ev, str, err) ∧ sm_inv maxBidi maxUni m ∧ ∀ i, str = Some i → i = id.
Lemma lookup_state_error maxBidi maxUni id r : lookup_ok maxBidi maxUni id r → lookup_ok maxBidi maxUni id (state_error r).
Proof.
  intros (m & ev & str & err & -> & Hm & Hs). unfold state_error. cbn. destruct err as [e|]; eexists _, _, _, _; split_and!; done.
Qed.
Lemma lookup_bidi maxBidi maxUni m id : sm_inv maxBidi maxUni m → 0 <= id < 2 ^ 62 → StreamID_Type id = StreamTypeBidi →
  lookup_ok maxBidi maxUni id (getOrOpenBidi m id).
Proof.
  intros Hm Hid Ht. pose proof Hm as ((l1 & H1) & _ & (a3 & H3) & _). unfold getOrOpenBidi.
  pose proof (stream_num_range id Hid) as Hn. pose proof (stream_id_inverse id Hid) as Einv. rewrite Ht in Einv.
  case_bool_decide as Hp.
  - unfold outgoingBidi_GetStream. destruct (out_GetStream _ _) as [str err] eqn:E. eexists _, _, _, _. split; [done|]. split; [done|].
    intros i ->. apply (out_GetStream_item _ _ _ _ _ _ H1) in E. rewrite E. unfold newOutgoingBidi, newOutgoingUni. rewrite <- Hp. exact Einv.
  - unfold incomingBidi_GetOrOpenStream. pose proof (incoming_get _ _ _ _ _ H3 Hn) as Hg.
    pose proof (spec_get_item (newIncomingBidi (perspective m)) maxBidi a3 (StreamID_StreamNum id)) as Hi.
    destruct (spec_get _ _ a3 _) as [[a' str] err]. destruct Hg as (m' & k & -> & Hr & _).
    eexists _, _, _, _. split; [done|]. split; [by eapply sm_inv_incomingBidi|]. cbn in Hi.
    intros i Ei. apply Hi in Ei. rewrite Ei. unfold newIncomingBidi. by rewrite <- (other_perspective _ _ Hp).
Qed.

(** Looking up the stream of a frame never panics, keeps the maps' invariants
    and returns, if anything, the stream with the ID asked for; a frame for the
    receiving side of a stream this endpoint only sends on, or for the sending
    side of a stream it only receives on, is an error. *)
Theorem streams_map_lookup maxBidi maxUni m id (Hm : sm_inv maxBidi maxUni m) (Hid : 0 <= id < 2 ^ 62) :
  lookup_ok maxBidi maxUni id (GetOrOpenReceiveStream m id) ∧ lookup_ok maxBidi maxUni id (GetOrOpenSendStream m id) ∧
  (StreamID_Type id = StreamTypeUni → StreamID_InitiatedBy id = perspective m →
     GetOrOpenReceiveStream m id = Ok (m, [], None,
       Some (QuicError StreamStateError (Errorf "peer attempted to open receive stream %d" [id])))) ∧
  (StreamID_Type id = StreamTypeUni → StreamID_InitiatedBy id ≠ perspective m →
     GetOrOpenSendStream m id = Ok (m, [], None,
       Some (QuicError StreamStateError (Errorf "peer attempted to open send stream %d" [id])))).
Proof.
  pose proof Hm as (_ & (l2 & H2) & _ & (a4 & H4)). pose proof (stream_num_range id Hid) as Hn.
  pose proof (stream_id_inverse id Hid) as Einv.
  unfold GetOrOpenReceiveStream, GetOrOpenSendStream, getOrOpenReceiveStream, getOrOpenSendStream. split_and!.
  - apply lookup_state_error. destruct (StreamID_Type id) eqn:Ht; [|by apply lookup_bidi].
    case_bool_decide as Hp; [by eexists _, _, _, _|].
    unfold incomingUni_GetOrOpenStream. pose proof (incoming_get _ _ _ _ _ H4 Hn) as Hg.
    pose proof (spec_get_item (newIncomingUni (perspective m)) maxUni a4 (StreamID_StreamNum id)) as Hi.
    destruct (spec_get _ _ a4 _) as [[a' str] err]. destruct Hg as (m' & k & -> & Hr & _).
    eexists _, _, _, _. split; [done|]. split; [by eapply sm_inv_incomingUni|]. cbn in Hi.
    intros i Ei. apply Hi in Ei. rewrite Ei. unfold newIncomingUni. by rewrite <- (other_perspective _ _ Hp).
  - apply lookup_state_error. destruct (StreamID_Type id) eqn:Ht; [|by apply lookup_bidi].
    case_bool_decide as Hp; [|by eexists _, _, _, _].
    unfold outgoingUni_GetStream. destruct (out_GetStream _ _) as [str err] eqn:E. eexists _, _, _, _. split; [done|]. split; [done|].
    intros i ->. apply (out_GetStream_item _ _ _ _ _ _ H2) in E. rewrite E. unfold newOutgoingBidi, newOutgoingUni. rewrite <- Hp. exact Einv.
  - intros -> Hp. by rewrite bool_decide_eq_true_2.
  - intros -> Hp. by rewrite bool_decide_eq_false_2.
Qed.
Lemma streams_map_lookup_witness :
  lookup_ok 100 3 8 (GetOrOpenReceiveStream (newStreamsMap 100 3 PerspectiveServer) 8).
Proof.
  apply (streams_map_lookup 100 3 (newStreamsMap 100 3 PerspectiveServer) 8); [|lia].
  apply sm_inv_new; unfold MaxStreamCount; lia.
Defined.



(** The error for a peer's unidirectional stream beyond the limit names the IDs
    this endpoint's own streams would have. *)
Example streams_map_error_ids :
  GetOrOpenReceiveStream (newStreamsMap 1 1 PerspectiveServer) 6 =
    Ok (newStreamsMap 1 1 PerspectiveServer, [], None,
        Some (QuicError StreamStateError (Errorf "peer tried to open stream %d (current limit: %d)" [7; 3]))) ∧
  StreamNum_StreamID 2 StreamTypeUni PerspectiveClient = 6.
Proof. split; vm_compute; reflexivity. Qed.
