(* ===== verification/Framer.v ===== *)
(** Framer: quic-go/framer.go.  Which frames go into the next packet: control
    frames, last queued first, and frames of the active streams in turn.  The
    streams are behind the interface [streamGetter] of the code, a type class
    here.  [limit] is [StreamMultiplexLimit] of the program's configuration.  The
    two mutexes make every operation one step. *)

From S2P Require Import Prelude Utils Protocol AckFrame Frames FrameCodec StreamFrame FrameParser GoFloat.

(** [GetOrOpenSendStream] and [popStreamFrame] on the state [S] of the streams.
    [sg_get] is [None] for an error or a nil stream, and [sg_pop] says whether the
    stream has more data. *)
Class StreamGetter (S : Type) := {
  sg_get : S → Z → outcome (S * bool);
  sg_pop : S → Z → Z → outcome (S * option StreamFrame * bool) }.

Record framerI := mkFramer { activeStreams : gset Z; streamQueue : list Z; controlFrames : list Frame }.
Definition newFramer : framerI := mkFramer ∅ [] [].

Definition QueueControlFrame (f : framerI) (frame : Frame) : framerI :=
  mkFramer (activeStreams f) (streamQueue f) (controlFrames f ++ [frame]).

(** The loop of [AppendControlFrames] on the queue from its end. *)
Fixpoint control_loop (queue : list Frame) (maxLen length_ : Z) : outcome (list Frame * list Frame * Z) :=
  match queue with
  | [] => Ok ([], [], length_)
  | frame :: queue' =>
      frameLen ← Frame_Length frame;
      if maxLen <? u64 (length_ + frameLen) then Ok (queue, [], length_)
      else
        '(rest, frames, l) ← control_loop queue' maxLen (u64 (length_ + frameLen));
        Ok (rest, frame :: frames, l)
  end.
(** The frames appended, in order, and their length. *)
Definition AppendControlFrames (f : framerI) (maxLen : Z) : outcome (framerI * list Frame * Z) :=
  '(rest, frames, l) ← control_loop (reverse (controlFrames f)) maxLen 0;
  Ok (mkFramer (activeStreams f) (streamQueue f) (reverse rest), frames, l).

Definition AddActiveStream (f : framerI) (id : Z) : framerI :=
  if bool_decide (id ∈ activeStreams f) then f
  else mkFramer ({[id]} ∪ activeStreams f) (streamQueue f ++ [id]) (controlFrames f).

(** [int32(float32(maxLen) / float32(n))] *)
Definition maxLengthPerRound (maxLen n : Z) : Z :=
  i32 (f_to_int (f_div 24 (float32_of maxLen) (float32_of n))).
(** The space offered to a stream. *)
Definition stream_space (maxLen length_ numActiveStreams limit : Z) : outcome Z :=
  let remainingLen := u64 (maxLen - length_) in
  let perRound := if limit <? numActiveStreams then maxLengthPerRound maxLen limit
                  else maxLengthPerRound maxLen numActiveStreams in
  let remainingLen := if perRound <? i32 remainingLen then u64 perRound else remainingLen in
  vl ← VarIntLen remainingLen;
  Ok (u64 (remainingLen + vl)).

Section Streams.
Context {S : Type} `{StreamGetter S}.

(** The loop of [AppendStreamFrames], [n] iterations before its end. *)
Fixpoint stream_loop (n : nat) (active : gset Z) (queue : list Z) (s : S)
    (maxLen length_ numActiveStreams limit multiplexed : Z)
    : outcome (gset Z * list Z * S * list StreamFrame * Z) :=
  match n with
  | O => Ok (active, queue, s, [], length_)
  | Datatypes.S n =>
      if negb (multiplexed <? limit) then Ok (active, queue, s, [], length_)
      else if maxLen <? u64 (MinStreamFrameSize + length_) then Ok (active, queue, s, [], length_)
      else
        match queue with
        | [] => Panic "index out of range"
        | id :: queue =>
            '(s, usable) ← sg_get s id;
            if negb usable then stream_loop n (active ∖ {[id]}) queue s maxLen length_ numActiveStreams limit multiplexed
            else
              space ← stream_space maxLen length_ numActiveStreams limit;
              '(s, frame, hasMoreData) ← sg_pop s id space;
              let queue := if hasMoreData : bool then queue ++ [id] else queue in
              let active := if hasMoreData : bool then active else active ∖ {[id]} in
              match frame with
              | None => stream_loop n active queue s maxLen length_ numActiveStreams limit (multiplexed + 1)
              | Some frame =>
                  l ← StreamFrame_Length frame;
                  '(active, queue, s, frames, total) ←
                    stream_loop n active queue s maxLen (u64 (length_ + l)) numActiveStreams limit (multiplexed + 1);
                  Ok (active, queue, s, frame :: frames, total)
              end
        end
  end.

(** The last frame loses its [DataLenPresent]: the pointer [lastFrame] is
    shared with the list. *)
Definition clear_last (frames : list StreamFrame) : list StreamFrame :=
  match reverse frames with
  | [] => []
  | f :: front => reverse front ++ [mkStreamFrame (StreamID f) (Offset f) (Data f) (FinBit f) false (fromPool f)]
  end.
Definition AppendStreamFrames (f : framerI) (s : S) (maxLen limit : Z)
    : outcome (framerI * S * list StreamFrame * Z) :=
  let numActiveStreams := len (streamQueue f) in
  '(active, queue, s, frames, length_) ←
    stream_loop (length (streamQueue f)) (activeStreams f) (streamQueue f) s maxLen 0 numActiveStreams limit 0;
  let f := mkFramer active queue (controlFrames f) in
  match last frames with
  | None => Ok (f, s, frames, length_)
  | Some lastFrame =>
      lastFrameLen ← StreamFrame_Length lastFrame;
      l ← StreamFrame_Length (mkStreamFrame (StreamID lastFrame) (Offset lastFrame) (Data lastFrame) (FinBit lastFrame) false (fromPool lastFrame));
      Ok (f, s, clear_last frames, u64 (length_ + u64 (l - lastFrameLen)))
  end.
End Streams.
