(* ===== verification/FramerSpec.v ===== *)
(** FramerSpec: what framer.go promises.  The framer is proved against the
    interface of the streams: [StreamGetterOk] states what popping a frame
    guarantees, and the maps of sending streams implement it. *)

From S2P Require Import Prelude Utils Protocol AckFrame Frames FrameCodec StreamFrame FrameParser GoFloat Rtt FlowControl SendStream SendStreamSpec Framer.

(** * Control frames *)

Definition frame_len (f : Frame) : Z := match Frame_Length f with Ok l => l | _ => 0 end.
Definition frames_len (l : list Frame) : Z := foldr (λ f n, frame_len f + n) 0 l.
Definition sized (f : Frame) : Prop := is_ok (Frame_Length f) = true ∧ 0 <= frame_len f < 2 ^ 60.

(** The frames taken are the longest run, from the end of the queue, that fits. *)
Lemma control_loop_spec maxLen queue : ∀ l0, 0 <= l0 <= maxLen → maxLen < 2 ^ 62 → Forall sized queue →
  ∃ taken rest, control_loop queue maxLen l0 = Ok (rest, taken, l0 + frames_len taken) ∧ queue = taken ++ rest ∧
    l0 + frames_len taken <= maxLen ∧
    match rest with [] => True | f :: _ => maxLen < l0 + frames_len taken + frame_len f end.
Proof.
  induction queue as [|f queue IH]; intros l0 Hl0 Hm Hq; cbn [control_loop].
  { exists [], []. cbn. split_and!; try done; [by rewrite Z.add_0_r|lia]. }
  apply Forall_cons in Hq as [[Hok Hr] Hq]. unfold frame_len in Hr.
  destruct (Frame_Length f) as [n| |] eqn:En; try done. cbn [mbind outcome_bind]. rewrite u64_small by lia.
  destruct (Z.ltb_spec maxLen (l0 + n)) as [|Hle].
  { exists [], (f :: queue). cbn. split_and!; try done; [by rewrite Z.add_0_r|lia|]. unfold frame_len. rewrite En. lia. }
  destruct (IH (l0 + n)) as (taken & rest & E & -> & Hle' & Hmax); [lia|done..|]. rewrite E. cbn [mbind outcome_bind].
  exists (f :: taken), rest. assert (frame_len f = n) as Ef by (unfold frame_len; by rewrite En).
  cbn. rewrite Ef, Z.add_assoc. done.
Qed.
Lemma AppendControlFrames_spec f maxLen : 0 <= maxLen < 2 ^ 62 → Forall sized (controlFrames f) →
  ∃ taken, AppendControlFrames f maxLen = Ok (mkFramer (activeStreams f) (streamQueue f)
      (take (length (controlFrames f) - length taken) (controlFrames f)), taken, frames_len taken) ∧
    frames_len taken <= maxLen ∧
    controlFrames f = take (length (controlFrames f) - length taken) (controlFrames f) ++ reverse taken ∧
    (∀ g, last (take (length (controlFrames f) - length taken) (controlFrames f)) = Some g →
       maxLen < frames_len taken + frame_len g).
Proof.
  intros Hm Hq. unfold AppendControlFrames.
  destruct (control_loop_spec maxLen (reverse (controlFrames f)) 0) as (taken & rest & E & Eq & Hle & Hmax); [lia..|by apply Forall_reverse|].
  rewrite E. cbn [mbind outcome_bind]. rewrite Z.add_0_l in *.
  assert (controlFrames f = reverse rest ++ reverse taken) as Ec.
  { apply (f_equal reverse) in Eq. by rewrite reverse_involutive, reverse_app in Eq. }
  assert (take (length (controlFrames f) - length taken) (controlFrames f) = reverse rest) as Et.
  { rewrite Ec, length_app, !length_reverse, Nat.add_sub.
    rewrite <- (length_reverse rest) at 1. by rewrite take_app_length. }
  exists taken. rewrite Et. split_and!; [done..|]. intros g Hg. rewrite last_reverse in Hg. destruct rest as [|g' rest]; [done|].
  by injection Hg as ->.
Qed.

(** Control frames are sent last queued first: [AppendControlFrames] takes the
    longest run from the end of the queue that fits into the space, returns its
    exact length and leaves the rest of the queue as it was. *)
Theorem append_control_frames f maxLen (Hm : 0 <= maxLen < 2 ^ 62) (Hq : Forall sized (controlFrames f)) :
  ∃ taken f', AppendControlFrames f maxLen = Ok (f', taken, frames_len taken) ∧
    frames_len taken <= maxLen ∧ controlFrames f = controlFrames f' ++ reverse taken ∧
    activeStreams f' = activeStreams f ∧ streamQueue f' = streamQueue f ∧
    (∀ g, last (controlFrames f') = Some g → maxLen < frames_len taken + frame_len g).
Proof.
  destruct (AppendControlFrames_spec f maxLen Hm Hq) as (taken & E & H1 & H2 & H3). exists taken. eexists. split; [exact E|]. done.
Qed.
Lemma append_control_frames_witness :
  ∃ taken f', AppendControlFrames (mkFramer ∅ [] [FPing; FMaxData (mkMaxData 10); FPing]) 3 = Ok (f', taken, frames_len taken) ∧
    taken = [FPing; FMaxData (mkMaxData 10)].
Proof.
  destruct (append_control_frames (mkFramer ∅ [] [FPing; FMaxData (mkMaxData 10); FPing]) 3) as (taken & f' & E & _);
    [lia|repeat constructor; vm_compute; congruence|].
  exists taken, f'. split; [exact E|].
  assert (AppendControlFrames (mkFramer ∅ [] [FPing; FMaxData (mkMaxData 10); FPing]) 3 =
    Ok (mkFramer ∅ [] [FPing], [FPing; FMaxData (mkMaxData 10)], 3)) as E' by (vm_compute; reflexivity).
  rewrite E' in E. by injection E.
Defined.

(** * Stream frames *)

(** What a stream promises to the framer: looking it up and popping never panic,
    a popped frame is a well-formed frame of that stream, with its length field,
    that fits the space offered, and a stream that gives none had none to give in
    that space, in a sense of its own. *)
Class StreamGetterOk (S : Type) `{StreamGetter S} := {
  sg_inv : S → Prop;
  sg_idle : S → Z → Z → Prop;
  sg_get_ok s id : sg_inv s → ∃ s' usable, sg_get s id = Ok (s', usable) ∧ sg_inv s';
  sg_pop_ok s0 s id n : sg_inv s → sg_get s0 id = Ok (s, true) → 0 <= n <= MaxReceivePacketSize →
    ∃ s' f more, sg_pop s id n = Ok (s', f, more) ∧ sg_inv s' ∧ (f = None → sg_idle s id n) ∧
      ∀ g, f = Some g → fits n g ∧ stream_ok g ∧ StreamID g = id ∧ frame_sendable (FStream g) }.

Definition slen (f : StreamFrame) : Z := match StreamFrame_Length f with Ok l => l | _ => 0 end.
Fixpoint slens (l : list StreamFrame) : Z := match l with [] => 0 | f :: l => slen f + slens l end.
Definition without_len (f : StreamFrame) : StreamFrame :=
  mkStreamFrame (StreamID f) (Offset f) (Data f) (FinBit f) false (fromPool f).
Lemma slens_app l k : slens (l ++ k) = slens l + slens k.
Proof. induction l as [|f l IH]; cbn [slens app]; [done|]. rewrite IH. lia. Qed.

(** The length of a frame, with and without its length field. *)
Lemma slen_ok f : stream_ok f → StreamFrame_Length f = Ok (slen f) ∧ 0 <= slen f.
Proof. intros H. unfold slen. rewrite StreamFrame_Length_ok by done. split; [done|apply len_nonneg]. Qed.
Lemma slen_without f : stream_ok f → DataLenPresent f = true →
  slen f = slen (without_len f) + len (varint (DataLen f)) ∧ slen (without_len f) <= 17 + DataLen f.
Proof.
  intros Hok Hp. assert (stream_ok (without_len f)) as Hok' by exact Hok.
  unfold slen. rewrite !StreamFrame_Length_ok by done. rewrite !enc_stream_size. unfold stream_overhead.
  rewrite !len_enc_stream_header by done. cbn [without_len StreamID Offset DataLenPresent]. rewrite Hp.
  change (DataLen (without_len f)) with (DataLen f). destruct Hok as (H1 & H2 & H3 & H4 & _).
  pose proof (varint_len (StreamID f) ltac:(lia)). pose proof (len_nonneg (Data f)). unfold DataLen in *.
  assert (Offset f <= maxVarInt8) by (unfold MaxByteCount, maxVarInt8 in *; lia).
  pose proof (varint_len (Offset f) ltac:(lia)). destruct (Offset f =? 0); lia.
Qed.

Lemma perRound_range maxLen n : 0 <= maxLen < 2 ^ 24 → 0 < n < 2 ^ 24 → 0 <= maxLengthPerRound maxLen n <= maxLen.
Proof.
  intros Hm Hn. unfold maxLengthPerRound, float32_of.
  destruct (f_of_int_exact 24 maxLen) as [Hd1 He1]; [lia..|]. destruct (f_of_int_exact 24 n) as [Hd2 He2]; [lia..|].
  set (x := f_of_int 24 maxLen) in *. set (y := f_of_int 24 n) in *. clearbody x y.
  assert (Hx : fpos (mkFloat (fnum x * fden y) (fden x * fnum y))) by (split; cbn; nia).
  assert (Hf : 0 <= f_to_int (f_div 24 x y) <= maxLen).
  { destruct (Z.eq_dec maxLen 0) as [->|].
    - unfold f_div. replace (fnum x * fden y) with 0 by (rewrite He1; lia). done.
    - apply fle_to_int. split; [by apply fround_pos_ok|]. rewrite <- (Z.mul_1_r maxLen). change 1 with (2 ^ 0).
      apply fround_le; [lia|done|lia..|]. cbn [fnum fden]. rewrite He1, He2, Z.mul_1_r. nia. }
  rewrite i32_small; lia.
Qed.

(** The space offered leaves room for the frame without its length field. *)
Lemma stream_space_spec maxLen l n limit : 0 <= maxLen <= MaxReceivePacketSize - 8 → 0 <= l → MinStreamFrameSize + l <= maxLen →
  0 < n < 2 ^ 24 → 0 < limit →
  ∃ space, stream_space maxLen l n limit = Ok space ∧ 0 <= space <= MaxReceivePacketSize ∧
    ∀ g, fits space g → stream_ok g → l + slen (without_len g) <= maxLen ∧ slen g <= maxLen - l + 2.
Proof.
  unfold MinStreamFrameSize, MaxReceivePacketSize. intros Hm Hl Hmin Hn Hlim. unfold stream_space.
  rewrite u64_small by lia. rewrite i32_small by lia.
  set (pr := if limit <? n then _ else _).
  assert (0 <= pr <= maxLen) as Hpr by (unfold pr; destruct (Z.ltb_spec limit n); apply perRound_range; lia). clearbody pr.
  set (rem := if pr <? maxLen - l then u64 pr else maxLen - l).
  assert (0 <= rem <= maxLen - l) as Hrem.
  { unfold rem. destruct (Z.ltb_spec pr (maxLen - l)); [rewrite u64_small by lia|]; lia. }
  clearbody rem. assert (rem <= maxVarInt8) by (unfold maxVarInt8; lia).
  rewrite VarIntLen_varint by done. cbn [mbind outcome_bind]. rewrite varint_len_small by lia.
  eexists. split; [reflexivity|]. rewrite u64_small by (destruct (rem <? 64); lia).
  split; [destruct (rem <? 64); lia|].
  intros g [Hp (lg & El & Hle)] Hok. destruct (slen_without g Hok Hp) as [E1 E2].
  assert (slen g = lg) as Eg by (unfold slen; by rewrite El). rewrite Eg in E1.
  pose proof Hok as (_ & _ & _ & Hd & _). unfold MaxReceivePacketSize in Hd. unfold DataLen in Hd, E1, E2. pose proof (len_nonneg (Data g)).
  rewrite varint_len_small in E1 by lia.
  destruct (Z.ltb_spec rem 64), (Z.ltb_spec (len (Data g)) 64); lia.
Qed.

(** The streams of a queue asked in turn, with [l] bytes written and [m] streams
    asked before: one that is gone is passed over, the others are offered their
    share of the space, as long as [limit] is not reached and a frame of the
    minimum size fits; each gives a frame or has none to give. *)
Inductive asked {S : Type} `{StreamGetterOk S} (maxLen num limit : Z) : S → Z → Z → list Z → list StreamFrame → S → Z → Z → Prop :=
  | asked_end s l m : asked maxLen num limit s l m [] [] s l m
  | asked_gone s s1 l m id ids frames s' l' m' : sg_get s id = Ok (s1, false) →
      asked maxLen num limit s1 l m ids frames s' l' m' → asked maxLen num limit s l m (id :: ids) frames s' l' m'
  | asked_idle s s1 s2 l m id ids space more frames s' l' m' : sg_get s id = Ok (s1, true) → m < limit → MinStreamFrameSize + l <= maxLen →
      stream_space maxLen l num limit = Ok space → sg_pop s1 id space = Ok (s2, None, more) → sg_idle s1 id space →
      asked maxLen num limit s2 l (m + 1) ids frames s' l' m' → asked maxLen num limit s l m (id :: ids) frames s' l' m'
  | asked_frame s s1 s2 l m id ids space g more frames s' l' m' : sg_get s id = Ok (s1, true) → m < limit → MinStreamFrameSize + l <= maxLen →
      stream_space maxLen l num limit = Ok space → sg_pop s1 id space = Ok (s2, Some g, more) →
      asked maxLen num limit s2 (l + slen g) (m + 1) ids frames s' l' m' → asked maxLen num limit s l m (id :: ids) (g :: frames) s' l' m'.
(** The frames of a packet: the streams of the queue are asked from its front, until
    all have been, or [limit] of them, or the packet is full; the last frame needs
    no length field. *)
Definition takes_streams {S : Type} `{StreamGetterOk S} (maxLen limit : Z) (queue : list Z) (s : S) (k : nat) (frames : list StreamFrame) (s' : S) : Prop :=
  ∃ popped m, asked maxLen (len queue) limit s 0 0 (take k queue) popped s' (slens popped) m ∧
    (k = length queue ∨ limit <= m ∨ maxLen < MinStreamFrameSize + slens popped) ∧
    (popped = [] ∧ frames = [] ∨ ∃ front lst, popped = front ++ [lst] ∧ frames = front ++ [without_len lst]).

Section Loop.
Context {S : Type} `{StreamGetterOk S} (maxLen num limit : Z).
Context (Hmax : 0 <= maxLen <= MaxReceivePacketSize - 8) (Hnum : 0 < num < 2 ^ 24).

(** What [n] more iterations do, on the streams [orig] that were in the queue at
    the start and [back] that were put back: the first [k] are served, those with
    more data return to the end of the queue and the others leave it. *)
Record served (orig : list Z) (s : S) (l mult : Z)
    (k : nat) (gone kept : list Z) (frames : list StreamFrame) (s' : S) : Prop := {
  sv_split : gone ++ kept ≡ₚ take k orig;
  sv_kept : sublist kept (take k orig);
  sv_frames : sublist (StreamID <$> frames) (take k orig);
  sv_ok : Forall (λ f, stream_ok f ∧ DataLenPresent f = true ∧ frame_sendable (FStream f)) frames;
  sv_count : len frames <= Z.max 0 (limit - mult);
  sv_asked : ∃ m, asked maxLen num limit s l mult (take k orig) frames s' (l + slens frames) m ∧
    (k = length orig ∨ limit <= m ∨ maxLen < MinStreamFrameSize + (l + slens frames));
  sv_fit : frames = [] ∨ ∃ front lst, frames = front ++ [lst] ∧ l + slens front + slen (without_len lst) <= maxLen }.

Lemma served_none orig s l mult : orig = [] ∨ limit <= mult ∨ maxLen < MinStreamFrameSize + l → served orig s l mult 0 [] [] [] s.
Proof.
  intros Hend. split; cbn; [done|constructor|constructor|constructor|unfold len; cbn; lia| |by left].
  exists mult. rewrite Z.add_0_r. split; [constructor|]. destruct Hend as [-> |[?|?]]; auto.
Qed.

Lemma stream_loop_spec n : ∀ orig back active s l mult, length orig = n → sg_inv s → 0 <= l <= maxLen + 2 → 0 <= mult →
  ∃ k gone kept frames s',
    stream_loop n active (orig ++ back) s maxLen l num limit mult =
      Ok (active ∖ list_to_set gone, drop k orig ++ back ++ kept, s', frames, l + slens frames) ∧
    sg_inv s' ∧ (k <= n)%nat ∧ served orig s l mult k gone kept frames s'.
Proof.
  assert (MaxReceivePacketSize = 1452) as EM by done. assert (MinStreamFrameSize = 128) as EN by done.
  induction n as [|n IH]; intros orig back active s l mult Hlen Hs Hl Hmu.
  { destruct orig; [|done]. exists 0%nat, [], [], [], s. split_and!; [|done|lia|apply served_none; by left]. cbn. rewrite app_nil_r, difference_empty_L, Z.add_0_r. done. }
  assert (Hstop : limit <= mult ∨ maxLen < MinStreamFrameSize + l → ∃ k gone kept frames s',
    Ok (active, orig ++ back, s, [], l) = Ok (active ∖ list_to_set gone, drop k orig ++ back ++ kept, s', frames, l + slens frames) ∧
    sg_inv s' ∧ (k <= Datatypes.S n)%nat ∧ served orig s l mult k gone kept frames s').
  { intros Hend. exists 0%nat, [], [], [], s. split_and!; [|done|lia|apply served_none; by right]. cbn. by rewrite app_nil_r, difference_empty_L, Z.add_0_r. }
  cbn [stream_loop]. destruct (Z.ltb_spec mult limit) as [Hlim|]; [|apply Hstop; lia]. cbn [negb]. rewrite u64_small by lia.
  destruct (Z.ltb_spec maxLen (MinStreamFrameSize + l)) as [|Hfit]; [apply Hstop; lia|].
  destruct orig as [|id orig]; [done|]. injection Hlen as Hlen. cbn [app].
  destruct (sg_get_ok s id Hs) as (s1 & usable & Eg & Hs1). rewrite Eg. cbn [mbind outcome_bind].
  destruct usable; cbn [negb].
  2: { destruct (IH orig back (active ∖ {[id]}) s1 l mult) as (k & gone & kept & frames & s2 & E & Hs2 & Hk & Hsv); [done..|].
    exists (Datatypes.S k), (id :: gone), kept, frames, s2. rewrite E. split_and!; [|done|lia|].
    - by rewrite list_to_set_cons, difference_difference_l_L.
    - destruct Hsv as [V1 V2 V3 V4 V5 (m & V6 & V7) V8]. split; cbn [take app]; try done; [by constructor|by constructor|by constructor|].
      exists m. split; [by eapply asked_gone|]. cbn [length]. by destruct V7 as [-> |?]; [left|right]. }
  destruct (stream_space_spec maxLen l num limit) as (space & Esp & Hsp & Hg); [lia..|]. rewrite Esp. cbn [mbind outcome_bind].
  destruct (sg_pop_ok s s1 id space Hs1 Eg Hsp) as (s2 & f & more & Ep & Hs2 & Hidle & Hf). rewrite Ep. cbn [mbind outcome_bind].
  destruct (IH orig (if more then back ++ [id] else back) (if more then active else active ∖ {[id]}) s2
    (match f with Some g => l + slen g | None => l end) (mult + 1)) as (k & gone & kept & frames & s3 & E & Hs3 & Hk & Hsv); [done..| |lia|].
  { destruct f as [g|]; [|lia]. destruct (Hf g eq_refl) as (Hfits & Hok & _). destruct (Hg g Hfits Hok).
    destruct (slen_ok g Hok). lia. }
  exists (Datatypes.S k), (if more then gone else id :: gone), (if more then id :: kept else kept), (option_list f ++ frames), s3.
  split_and!; [|done|lia|].
  - replace (if more then (orig ++ back) ++ [id] else orig ++ back) with (orig ++ (if more then back ++ [id] else back))
      by (destruct more; by rewrite ?app_assoc).
    assert (drop k orig ++ (if more then back ++ [id] else back) ++ kept =
            drop k orig ++ back ++ (if more then id :: kept else kept)) as Eq by (destruct more; by rewrite <- ?app_assoc).
    assert ((if more then active else active ∖ {[id]}) ∖ list_to_set gone =
            active ∖ list_to_set (if more then gone else id :: gone)) as Ea
      by (destruct more; [done|]; by rewrite list_to_set_cons, difference_difference_l_L).
    cbn [drop]. destruct f as [g|]; cbn [option_list app] in *.
    + destruct (Hf g eq_refl) as (Hfits & Hok & _). destruct (slen_ok g Hok) as [Eg' ?]. destruct (Hg g Hfits Hok).
      rewrite Eg'. cbn [mbind outcome_bind]. rewrite u64_small by lia. rewrite E. cbn [mbind outcome_bind slens].
      rewrite Eq, Ea. change (option_list (Some g) ++ frames) with (g :: frames). cbn [slens]. by rewrite Z.add_assoc.
    + by rewrite E, Eq, Ea.
  - destruct Hsv as [V1 V2 V3 V4 V5 (m & V7 & V8) V6]. split; cbn [take].
    + destruct more; cbn [app]; [|by rewrite V1]. by rewrite <- Permutation_middle, V1.
    + destruct more; by constructor.
    + destruct f as [g|]; [|by constructor].
      change (StreamID <$> option_list (Some g) ++ frames) with (StreamID g :: (StreamID <$> frames)).
      destruct (Hf g eq_refl) as (_ & _ & -> & _). by constructor.
    + destruct f as [g|]; [|done]. constructor; [|done]. destruct (Hf g eq_refl) as ([Hp _] & Hok & _ & Hsd). done.
    + destruct f as [g|]; [change (option_list (Some g) ++ frames) with (g :: frames); rewrite len_cons; lia|].
      change (option_list None ++ frames) with frames. lia.
    + exists m. destruct f as [g|]; cbn [option_list app slens length].
      * change (option_list (Some g) ++ frames) with (g :: frames). cbn [slens]. rewrite !Z.add_assoc in *.
        split; [by eapply asked_frame|]. by destruct V8 as [-> |?]; [left|right].
      * change (option_list None ++ frames) with frames. split; [eapply asked_idle; eauto|]. by destruct V8 as [-> |?]; [left|right].
    + destruct f as [g|]; [|exact V6]. right. change (option_list (Some g) ++ frames) with (g :: frames).
      destruct V6 as [->|(front & lst & -> & Hle)].
      * exists [], g. destruct (Hf g eq_refl) as (Hfits & Hok & _). destruct (Hg g Hfits Hok). cbn [slens]. split; [done|lia].
      * exists (g :: front), lst. cbn [slens]. split; [done|lia].
Qed.
End Loop.

(** The queue holds every active stream once. *)
Definition framer_inv (f : framerI) : Prop := NoDup (streamQueue f) ∧ ∀ id, id ∈ streamQueue f ↔ id ∈ activeStreams f.
Lemma framer_inv_new : framer_inv newFramer.
Proof. split; [constructor|]. intros id. cbn. set_solver. Qed.
Lemma framer_inv_add f id : framer_inv f → framer_inv (AddActiveStream f id) ∧ id ∈ streamQueue (AddActiveStream f id).
Proof.
  intros [Hn Ha]. unfold AddActiveStream. case_bool_decide as Hin; [split; [done|by apply Ha]|]. cbn. split; [split; cbn|set_solver].
  - apply NoDup_app. split_and!; [done| |apply NoDup_singleton]. intros x Hx ->%list_elem_of_singleton. apply Hin, Ha, Hx.
  - intros x. rewrite elem_of_app, list_elem_of_singleton, Ha. set_solver.
Qed.

Lemma clear_last_app front lst : clear_last (front ++ [lst]) = front ++ [without_len lst].
Proof. unfold clear_last. rewrite reverse_app. change (reverse [lst]) with [lst]. cbn [app]. by rewrite reverse_involutive. Qed.

Section Append.
Context {S : Type} `{StreamGetterOk S}.

Lemma AppendStreamFrames_spec f s maxLen limit :
  framer_inv f → sg_inv s → 0 <= maxLen <= MaxReceivePacketSize - 8 → len (streamQueue f) < 2 ^ 24 →
  ∃ k kept frames s' active, AppendStreamFrames f s maxLen limit =
      Ok (mkFramer active (drop k (streamQueue f) ++ kept) (controlFrames f), s', frames, slens frames) ∧
    sg_inv s' ∧ framer_inv (mkFramer active (drop k (streamQueue f) ++ kept) (controlFrames f)) ∧
    sublist kept (take k (streamQueue f)) ∧ sublist (StreamID <$> frames) (take k (streamQueue f)) ∧
    Forall stream_ok frames ∧ len frames <= Z.max 0 limit ∧ slens frames <= maxLen ∧
    (∀ g, g ∈ frames → DataLenPresent g = false → last frames = Some g) ∧
    Forall (λ g, frame_sendable (FStream g)) frames ∧ takes_streams maxLen limit (streamQueue f) s k frames s'.
Proof.
  intros [Hnd Hact] Hs Hm Hq. unfold AppendStreamFrames.
  destruct (decide (streamQueue f = [])) as [Eq|Hne].
  { rewrite Eq. cbn. exists 0%nat, [], [], s, (activeStreams f). split_and!;
      [done|done| |constructor|constructor|constructor|unfold len; cbn; lia|cbn; lia|intros g Hg; by apply elem_of_nil in Hg|constructor|].
    - split; cbn; [constructor|]. intros id. by rewrite <- Hact, Eq.
    - exists [], 0. cbn. split; [constructor|]. auto. }
  assert (0 < len (streamQueue f)) as Hpos by (destruct (streamQueue f); [done|rewrite len_cons; pose proof (len_nonneg l); lia]).
  destruct (stream_loop_spec maxLen (len (streamQueue f)) limit Hm ltac:(lia) (length (streamQueue f)) (streamQueue f) []
    (activeStreams f) s 0 0) as (k & gone & kept & frames & s' & E & Hs' & Hk & [V1 V2 V3 V4 V5 (m & V7 & V8) V6]); [done..|lia|lia|].
  rewrite app_nil_r in E. rewrite E. cbn [mbind outcome_bind app]. rewrite Z.add_0_l, Z.sub_0_r in *.
  assert (Hinv : framer_inv (mkFramer (activeStreams f ∖ list_to_set gone) (drop k (streamQueue f) ++ kept) (controlFrames f))).
  { pose proof Hnd as Hnd'. rewrite <- (take_drop k (streamQueue f)) in Hnd'. apply NoDup_app in Hnd' as (N1 & N2 & N3).
    assert (N4 : NoDup (gone ++ kept)) by (by rewrite V1). apply NoDup_app in N4 as (_ & N5 & N6).
    split; cbn.
    - apply NoDup_app. split_and!; [done| |done]. intros x Hx Hx'. apply (N2 x); [|done]. by apply (elem_of_sublist _ _ _ Hx' V2).
    - intros id. rewrite elem_of_app, elem_of_difference, elem_of_list_to_set, <- Hact.
      rewrite <- (take_drop k (streamQueue f)) at 2. rewrite elem_of_app, <- V1, elem_of_app.
      assert (id ∈ gone → id ∉ kept) by apply N5.
      assert (id ∈ gone → id ∉ drop k (streamQueue f)).
      { intros Hg. apply N2. rewrite <- V1, elem_of_app. by left. }
      tauto. }
  assert (Hok : Forall stream_ok frames) by (eapply Forall_impl; [exact V4|]; cbn; tauto).
  destruct V6 as [->|(front & lst & -> & Hle)].
  { cbn. exists k, kept, [], s', (activeStreams f ∖ list_to_set gone). split_and!;
      [done|done|done|done|done|constructor|done|cbn; lia|intros g Hg; by apply elem_of_nil in Hg|constructor|]. exists [], m. auto. }
  rewrite last_snoc. apply Forall_app in Hok as [Hok1 Hok2]. rewrite Forall_singleton in Hok2.
  apply Forall_app in V4 as [V4 V4']. rewrite Forall_singleton in V4'. destruct V4' as (_ & Hp & Hsd).
  assert (Hok2' : stream_ok (without_len lst)) by exact Hok2.
  destruct (slen_ok lst Hok2) as [-> P1]. cbn [mbind outcome_bind].
  match goal with |- context [StreamFrame_Length ?g] => change g with (without_len lst) end.
  destruct (slen_ok _ Hok2') as [-> P2]. cbn [mbind outcome_bind]. rewrite clear_last_app.
  assert (P3 : 0 <= slens front) by (clear -Hok1; induction Hok1 as [|g l Hg _ IH]; cbn; [lia|destruct (slen_ok g Hg); lia]).
  destruct (slen_without lst Hok2 Hp) as [P4 _].
  exists k, kept, (front ++ [without_len lst]), s', (activeStreams f ∖ list_to_set gone). rewrite !slens_app. cbn [slens]. split_and!; try done.
  - do 2 f_equal. assert (MaxReceivePacketSize = 1452) by done.
    assert (len (varint (DataLen lst)) <= 8) by (apply varint_len; destruct Hok2 as (_ & ? & ? & ? & _); unfold MaxReceivePacketSize, maxVarInt8 in *; lia).
    pose proof (len_nonneg (varint (DataLen lst))).
    destruct (Z.eq_dec (slen lst) (slen (without_len lst))) as [Ez|].
    + rewrite Ez, Z.sub_diag. rewrite (u64_small 0), u64_small; lia.
    + rewrite u64_sub_wrap by lia. unfold u64. rewrite <- (Z.mod_add _ (-1)) by lia. rewrite Z.mod_small; lia.
  - by rewrite fmap_app in *.
  - apply Forall_app. split; [done|]. by apply Forall_singleton.
  - rewrite len_app in *. done.
  - lia.
  - intros g. rewrite last_snoc, elem_of_app, list_elem_of_singleton. intros [Hg | ->]; [|done]. intros Hf.
    rewrite Forall_forall in V4. apply V4 in Hg as (_ & Hg & _). congruence.
  - apply Forall_app. split; [eapply Forall_impl; [exact V4|]; cbn beta; tauto|]. by apply Forall_singleton.
  - exists (front ++ [lst]), m. split; [done|]. split; [done|]. right. by exists front, lst.
Qed.
End Append.

(** * The streams implement the interface *)

(** The open sending streams of a connection and its flow controller.  A stream
    is in the framer's queue because it put itself there, so looking it up opens
    none: it is there, or it completed and the result is nil. *)
Record sendStreams := mkSendStreams { ss_streams : gmap Z sendStream; ss_conn : baseFlowController }.
#[export] Instance sendStreams_getter : StreamGetter sendStreams := {
  sg_get s id := Ok (s, bool_decide (is_Some (ss_streams s !! id)));
  sg_pop s id n :=
    match ss_streams s !! id with
    | None => Panic "nil pointer dereference"
    | Some str =>
        '(str, conn, _, f, more) ← popStreamFrame str (ss_conn s) n;
        Ok (mkSendStreams (<[id := str]> (ss_streams s)) conn, f, more)
    end }.

Definition send_ok (id : Z) (s : sendStream) : Prop :=
  pop_pre s ∧ snd_streamID s = id ∧ Forall (λ f, StreamID f = id ∧ frame_sendable (FStream f)) (snd_retransmissionQueue s).
Lemma sent_fits b k : base_ok b → 0 <= k <= sendWindowSize b → base_ok (base_AddBytesSent b k) ∧
  bytesSent (base_AddBytesSent b k) = bytesSent b + k ∧ bytesSent b + k <= MaxByteCount.
Proof.
  intros Hb Hk. unfold sendWindowSize in Hk. fc_unfold. cbn. destruct (Z.ltb_spec (sendWindow b) (bytesSent b)); [lia|].
  rewrite u64_small in Hk by lia. rewrite u64_small by lia. lia.
Qed.
(** Popping keeps a stream well-formed, and its frames carry its ID. *)
Lemma pop_case_ok id s conn n s' conn' ev f : send_ok id s → 0 <= n <= MaxReceivePacketSize →
  pop_case s conn n s' conn' ev f →
  send_ok id s' ∧ ∀ g, f = Some g → stream_ok g ∧ StreamID g = id ∧ frame_sendable (FStream g).
Proof.
  intros [(H1 & H2 & H3 & H4 & H5 & H6 & H7) [Hid Hrt]] Hn Hc.
  destruct Hc as [f q Eq|f q a b Eq Es|b ev Hq Hb Hbs _ _|Eq _ Ed _ _|d k s' Eq _ Ed Hk Hkn Hw1 _ ->].
  - rewrite Eq in H4, Hrt. apply Forall_cons in H4 as [[Hf _] H4]. apply Forall_cons in Hrt as [Hfi Hrt].
    destruct Hfi as [Hfi Hfs]. split; [|by intros g [= <-]]. exact (conj (conj H1 (conj H2 (conj H3 (conj H4 (conj H5 (conj H6 H7)))))) (conj Hid Hrt)).
  - rewrite Eq in H4, Hrt. apply Forall_cons in H4 as [[Hf Hp] H4]. apply Forall_cons in Hrt as [Hfi Hrt].
    pose proof (MaybeSplitOffFrame_spec f n Hf ltac:(unfold MaxReceivePacketSize in *; lia)) as Hs. rewrite Es in Hs.
    destruct Hs as (S1 & S2 & _ & Sa & Sb & _ & _ & S3 & S4 & _ & _ & _ & S5 & _). destruct Hfi as [Hfi Hfs].
    assert (Hne : ∀ g, 0 < DataLen g → frame_sendable (FStream g)).
    { intros g Hg [Hd _]. unfold DataLen in Hg. by rewrite Hd in Hg. }
    split; [|intros g [= <-]; split; [done|split; [congruence|by apply Hne]]].
    refine (conj (conj H1 (conj H2 (conj H3 (conj _ (conj H5 (conj H6 H7)))))) (conj Hid _)); cbn.
    + constructor; [split; [exact S2|congruence]|exact H4].
    + constructor; [split; [congruence|by apply Hne]|exact Hrt].
  - split; [|done]. refine (conj (conj H1 (conj H2 (conj Hb (conj H4 (conj H5 (conj H6 _)))))) (conj Hid Hrt)). cbn. congruence.
  - split.
    + refine (conj (conj H1 (conj H2 (conj H3 (conj _ (conj H5 (conj H6 H7)))))) (conj Hid _)); constructor.
    + intros g [= <-]. split; [|split; [exact Hid|by intros [_ ?]]]. apply new_frame_ok; [exact H1|exact H2].
  - rewrite Ed in H6. destruct H6 as [Hne Hby]. destruct (sent_fits (sfc (snd_flowController s)) (Z.of_nat k) H3) as (Hb1 & Hb2 & Hb3); [lia|].
    split.
    + assert (Eo : u64 (snd_writeOffset s + Z.of_nat k) = snd_writeOffset s + Z.of_nat k) by (apply u64_small; fc_unfold; lia).
      refine (conj (conj H1 (conj _ (conj Hb1 (conj _ (conj H5 (conj _ _)))))) (conj Hid _)); cbn [snd_taken snd_writeOffset
        snd_retransmissionQueue snd_dataForWriting snd_flowController AddBytesSent fst set_sfc sfc]; [rewrite Eo; lia|constructor| |rewrite Eo; lia|constructor].
      unfold rest_data, data_ok. destruct (Nat.eqb_spec (length d) k); [done|]. apply (data_ok_drop k d); [done|lia].
    + intros g [= <-]. split; [|split; [exact Hid|]].
      2: { intros [Hd _]. cbn in Hd. apply (f_equal length) in Hd. rewrite length_take in Hd. cbn in Hd. lia. }
      apply new_stream_ok; [exact H1|exact (proj1 H2)| | |apply Forall_take; exact Hby].
      * unfold len. rewrite length_take. lia.
      * unfold len. rewrite length_take. lia.
Qed.
Definition sends_idle (s : sendStreams) (id n : Z) : Prop := ∃ str, ss_streams s !! id = Some str ∧ snd_idle str (ss_conn s) n.
Definition sends_ok (s : sendStreams) : Prop := ∀ id str, ss_streams s !! id = Some str → send_ok id str.
Lemma sends_pop_ok (s0 s : sendStreams) id n : sends_ok s → sg_get s0 id = Ok (s, true) → 0 <= n <= MaxReceivePacketSize →
  ∃ s' f more, sg_pop s id n = Ok (s', f, more) ∧ sends_ok s' ∧ (f = None → sends_idle s id n) ∧
    ∀ g, f = Some g → fits n g ∧ stream_ok g ∧ StreamID g = id ∧ frame_sendable (FStream g).
Proof.
  intros Hs [= <- Hu] Hn. apply bool_decide_eq_true in Hu as [str Estr]. cbn. rewrite Estr.
  pose proof (Hs id str Estr) as Hok. destruct (pop_spec str (ss_conn s0) n (proj1 Hok) Hn) as (str' & conn' & ev & f & more & E & Hc & Hf).
  rewrite E. cbn. destruct (pop_case_ok id _ _ _ _ _ _ _ Hok Hn Hc) as [Hok' Hg].
  eexists _, _, _. split; [reflexivity|]. split.
  - intros id' str2. cbn. rewrite lookup_insert_Some. intros [[<- <-]|[_ ?]]; [exact Hok'|by apply Hs].
  - split; [|intros g Eg; split; [by apply Hf|by apply Hg]]. intros ->. exists str. split; [done|]. by eapply pop_idle; [apply Hok|done|].
Qed.
Lemma sends_get_ok (s : sendStreams) id : sends_ok s → ∃ s' usable, sg_get s id = Ok (s', usable) ∧ sends_ok s'.
Proof. intros Hs. eexists _, _. split; [reflexivity|exact Hs]. Qed.
#[export] Instance sendStreams_getter_ok : StreamGetterOk sendStreams :=
  {| sg_inv := sends_ok; sg_idle := sends_idle; sg_get_ok := sends_get_ok; sg_pop_ok := sends_pop_ok |}.

(** [AppendStreamFrames] over any streams that keep their promise never panics
    and never overfills a packet: the frames are well-formed, their lengths add
    up to the length returned, which is at most the space given; at most
    [StreamMultiplexLimit] frames from as many different streams; only the last
    frame lacks its length field. *)
Theorem append_stream_frames_fit {S} `{StreamGetterOk S} f s maxLen limit
    (Hf : framer_inv f) (Hs : sg_inv s) (Hm : 0 <= maxLen <= MaxReceivePacketSize - 8) (Hq : len (streamQueue f) < 2 ^ 24) :
  ∃ f' s' frames, AppendStreamFrames f s maxLen limit = Ok (f', s', frames, slens frames) ∧ sg_inv s' ∧
    Forall stream_ok frames ∧ slens frames <= maxLen ∧ len frames <= Z.max 0 limit ∧
    NoDup (StreamID <$> frames) ∧ (∀ g, g ∈ frames → DataLenPresent g = false → last frames = Some g).
Proof.
  destruct (AppendStreamFrames_spec f s maxLen limit Hf Hs Hm Hq) as (k & kept & frames & s' & active & E & H1 & _ & _ & H3 & H4 & H5 & H6 & H7 & _).
  eexists _, _, _. split; [exact E|]. split_and!; try done. eapply sublist_NoDup; [|exact H3].
  eapply sublist_NoDup; [exact (proj1 Hf)|]. apply sublist_take.
Qed.

(** The queue of the framer stays a list of distinct streams, exactly the
    active ones, and serves them in turn: the first [k] are taken off its front,
    those of them that have more data go to its end in the same order, and no
    stream that was not served changes its place. *)
Theorem framer_round_robin {S} `{StreamGetterOk S} f s maxLen limit id
    (Hf : framer_inv f) (Hs : sg_inv s) (Hm : 0 <= maxLen <= MaxReceivePacketSize - 8) (Hq : len (streamQueue f) < 2 ^ 24) :
  framer_inv newFramer ∧ framer_inv (AddActiveStream f id) ∧ id ∈ streamQueue (AddActiveStream f id) ∧
  ∃ f' s' frames l k kept, AppendStreamFrames f s maxLen limit = Ok (f', s', frames, l) ∧ framer_inv f' ∧
    streamQueue f' = drop k (streamQueue f) ++ kept ∧ sublist kept (take k (streamQueue f)) ∧
    sublist (StreamID <$> frames) (take k (streamQueue f)) ∧ controlFrames f' = controlFrames f.
Proof.
  split; [apply framer_inv_new|]. destruct (framer_inv_add f id Hf) as [Ha1 Ha2]. split_and!; [done..|].
  destruct (AppendStreamFrames_spec f s maxLen limit Hf Hs Hm Hq) as (k & kept & frames & s' & active & E & _ & Hi & H2 & H3 & _).
  eexists _, _, _, _, k, kept. split; [exact E|]. split_and!; done.
Qed.

(** Two streams with data, four bytes each. *)
Definition sample_sends : sendStreams :=
  let fc id := mkStreamFC (mkBase 0 100 0 0 0 0 0 0 time_zero 0) id false in
  let str id := snd_set_data (newSendStream id (fc id)) (Some [1; 2; 3; 4]) in
  mkSendStreams {[4 := str 4; 8 := str 8]} (mkBase 0 100 0 0 0 0 0 0 time_zero 0).
Definition sample_framer : framerI := AddActiveStream (AddActiveStream newFramer 4) 8.
Lemma sample_sends_ok : sg_inv sample_sends.
Proof.
  change (sends_ok sample_sends). intros id str. unfold sample_sends. cbv zeta. cbn [ss_streams].
  rewrite lookup_insert_Some, lookup_singleton_Some. intros [[<- <-]|[_ [<- <-]]].
  all: unfold send_ok, pop_pre, data_ok, bytes_ok, byte_ok; cbn; fc_unfold; unfold maxVarInt8; split_and!; try lia; try done;
    repeat constructor; lia.
Qed.
Lemma sample_framer_inv : framer_inv sample_framer.
Proof. apply framer_inv_add, framer_inv_add, framer_inv_new. Qed.
Lemma append_stream_frames_fit_witness :
  ∃ f' s' frames, AppendStreamFrames sample_framer sample_sends 200 5 = Ok (f', s', frames, slens frames) ∧ slens frames <= 200.
Proof.
  destruct (append_stream_frames_fit sample_framer sample_sends 200 5 sample_framer_inv sample_sends_ok) as (f' & s' & frames & E & _ & _ & Hl & _).
  - unfold MaxReceivePacketSize; lia.
  - vm_compute. reflexivity.
  - exists f', s', frames. split; [exact E|exact Hl].
Defined.
Lemma framer_round_robin_witness :
  ∃ f' s' frames l, AppendStreamFrames sample_framer sample_sends 200 5 = Ok (f', s', frames, l) ∧ framer_inv f'.
Proof.
  destruct (framer_round_robin sample_framer sample_sends 200 5 12 sample_framer_inv sample_sends_ok)
    as (_ & _ & _ & f' & s' & frames & l & k & kept & E & Hi & _).
  - unfold MaxReceivePacketSize; lia.
  - vm_compute. reflexivity.
  - exists f', s', frames, l. split; [exact E|exact Hi].
Defined.
