(* ===== verification/FrameQueues.v ===== *)
(** FrameQueues: quic-go/retransmission_queue.go and quic-go/window_update_queue.go.
    The frames of lost packets wait per packet number space, CRYPTO frames apart
    from the others; window updates are requested by ID and turned into frames
    when a packet is composed. *)

From S2P Require Import Prelude Utils Protocol AckFrame Frames FrameCodec StreamFrame FrameParser GoFloat Rtt FlowControl LinkedListSpec FrameSorter FrameSorterSpec SendStream ReceiveStream.

(** * retransmission_queue.go *)

Record retransmissionQueue := mkRtxQueue {
  rq_initial : list Frame; initialCryptoData : list CryptoFrame;
  rq_handshake : list Frame; handshakeCryptoData : list CryptoFrame;
  appData : list Frame }.
Definition newRetransmissionQueue : retransmissionQueue := mkRtxQueue [] [] [] [] [].

Definition AddInitial (q : retransmissionQueue) (f : Frame) : retransmissionQueue :=
  match f with
  | FCrypto cf => mkRtxQueue (rq_initial q) (initialCryptoData q ++ [cf]) (rq_handshake q) (handshakeCryptoData q) (appData q)
  | _ => mkRtxQueue (rq_initial q ++ [f]) (initialCryptoData q) (rq_handshake q) (handshakeCryptoData q) (appData q)
  end.
Definition AddHandshake (q : retransmissionQueue) (f : Frame) : retransmissionQueue :=
  match f with
  | FCrypto cf => mkRtxQueue (rq_initial q) (initialCryptoData q) (rq_handshake q) (handshakeCryptoData q ++ [cf]) (appData q)
  | _ => mkRtxQueue (rq_initial q) (initialCryptoData q) (rq_handshake q ++ [f]) (handshakeCryptoData q) (appData q)
  end.
Definition HasInitialData (q : retransmissionQueue) : bool := (0 <? len (initialCryptoData q)) || (0 <? len (rq_initial q)).
Definition HasHandshakeData (q : retransmissionQueue) : bool := (0 <? len (handshakeCryptoData q)) || (0 <? len (rq_handshake q)).
Definition AddAppData (q : retransmissionQueue) (f : Frame) : outcome retransmissionQueue :=
  match f with
  | FStream _ => Panic "STREAM frames are handled with their respective streams."
  | _ => Ok (mkRtxQueue (rq_initial q) (initialCryptoData q) (rq_handshake q) (handshakeCryptoData q) (appData q ++ [f]))
  end.

(** The first frame of a queue, if it fits. *)
Definition get_first (l : list Frame) (maxLen : Z) : outcome (list Frame * option Frame) :=
  match l with
  | [] => Ok ([], None)
  | f :: l' => n ← Frame_Length f; Ok (if maxLen <? n then (l, None) else (l', Some f))
  end.
(** The first CRYPTO frame if there is one that fits, else the first other frame. *)
Definition get_crypto_first (crypto : list CryptoFrame) (l : list Frame) (maxLen : Z)
    : outcome (list CryptoFrame * list Frame * option Frame) :=
  let other := '(l, f) ← get_first l maxLen; Ok (crypto, l, f) in
  match crypto with
  | [] => other
  | cf :: crypto' => n ← CryptoFrame_Length cf; if n <=? maxLen then Ok (crypto', l, Some (FCrypto cf)) else other
  end.
Definition GetInitialFrame (q : retransmissionQueue) (maxLen : Z) : outcome (retransmissionQueue * option Frame) :=
  '(crypto, l, f) ← get_crypto_first (initialCryptoData q) (rq_initial q) maxLen;
  Ok (mkRtxQueue l crypto (rq_handshake q) (handshakeCryptoData q) (appData q), f).
Definition GetHandshakeFrame (q : retransmissionQueue) (maxLen : Z) : outcome (retransmissionQueue * option Frame) :=
  '(crypto, l, f) ← get_crypto_first (handshakeCryptoData q) (rq_handshake q) maxLen;
  Ok (mkRtxQueue (rq_initial q) (initialCryptoData q) l crypto (appData q), f).
Definition GetAppDataFrame (q : retransmissionQueue) (maxLen : Z) : outcome (retransmissionQueue * option Frame) :=
  '(l, f) ← get_first (appData q) maxLen;
  Ok (mkRtxQueue (rq_initial q) (initialCryptoData q) (rq_handshake q) (handshakeCryptoData q) l, f).
Definition rq_DropPackets (q : retransmissionQueue) (encLevel : EncryptionLevel) : outcome retransmissionQueue :=
  match encLevel with
  | EncryptionInitial => Ok (mkRtxQueue [] [] (rq_handshake q) (handshakeCryptoData q) (appData q))
  | EncryptionHandshake => Ok (mkRtxQueue (rq_initial q) (initialCryptoData q) [] [] (appData q))
  | _ => Panic "unexpected encryption level: "
  end.

(** * window_update_queue.go *)

(** [GetOrOpenReceiveStream] and [getWindowUpdate] on the state [S] of the
    streams, and the connection's [GetWindowUpdate].  [wg_get] is [false] for an
    error or a nil stream. *)
Class WindowGetter (S : Type) := {
  wg_get : S → Z → outcome (S * bool);
  wg_update : S → Z → S * Z;
  wg_conn : S → S * Z }.
Record windowUpdateQueue := mkWuq { wuq_queue : gset Z; queuedConn : bool }.
Definition newWindowUpdateQueue : windowUpdateQueue := mkWuq ∅ false.
Definition AddStream (q : windowUpdateQueue) (id : Z) : windowUpdateQueue := mkWuq ({[id]} ∪ wuq_queue q) (queuedConn q).
Definition AddConnection (q : windowUpdateQueue) : windowUpdateQueue := mkWuq (wuq_queue q) true.

Section QueueAll.
Context {S : Type} `{WindowGetter S}.
(** [for id := range q.queue], in the order Go chooses. *)
Fixpoint queue_streams (order : list Z) (queue : gset Z) (s : S) : outcome (gset Z * S * list Frame) :=
  match order with
  | [] => Ok (queue, s, [])
  | id :: order =>
      '(s, usable) ← wg_get s id;
      if negb usable then queue_streams order queue s else
      let '(s, offset) := wg_update s id in
      if offset =? 0 then queue_streams order queue s else
      '(queue, s, frames) ← queue_streams order (queue ∖ {[id]}) s;
      Ok (queue, s, FMaxStreamData (mkMaxStreamData id offset) :: frames)
  end.
(** The frames passed to the callback, in order. *)
Definition QueueAll (q : windowUpdateQueue) (order : list Z) (s : S) : outcome (windowUpdateQueue * S * list Frame) :=
  let '(s, conn) := if queuedConn q then let '(s, offset) := wg_conn s in (s, [FMaxData (mkMaxData offset)]) else (s, []) in
  '(queue, s, frames) ← queue_streams order (wuq_queue q) s;
  Ok (mkWuq queue false, s, conn ++ frames).
End QueueAll.

(** * Retransmitted frames keep their order *)

Inductive space := SInitial | SHandshake | SAppData.
#[export] Instance space_eq_dec : EqDecision space.
Proof. solve_decision. Defined.
Inductive rq_op := RqAdd (sp : space) (f : Frame) | RqGet (sp : space) (maxLen : Z).
Definition rq_exec (q : retransmissionQueue) (o : rq_op) : outcome (retransmissionQueue * option Frame) :=
  match o with
  | RqAdd SInitial f => Ok (AddInitial q f, None)
  | RqAdd SHandshake f => Ok (AddHandshake q f, None)
  | RqAdd SAppData f => q ← AddAppData q f; Ok (q, None)
  | RqGet SInitial n => GetInitialFrame q n
  | RqGet SHandshake n => GetHandshakeFrame q n
  | RqGet SAppData n => GetAppDataFrame q n
  end.
Fixpoint rq_run (q : retransmissionQueue) (ops : list rq_op) : outcome (retransmissionQueue * list (option Frame)) :=
  match ops with
  | [] => Ok (q, [])
  | o :: ops => '(q, r) ← rq_exec q o; '(q, rs) ← rq_run q ops; Ok (q, r :: rs)
  end.

(** The two classes of frames; app data frames share one queue. *)
Definition is_crypto (f : Frame) : bool := match f with FCrypto _ => true | _ => false end.
Definition in_class (sp : space) (crypto : bool) (f : Frame) : bool :=
  match sp with SAppData => true | _ => eqb (is_crypto f) crypto end.
(** What is queued, was added and was returned. *)
Definition rq_frames (q : retransmissionQueue) (sp : space) (crypto : bool) : list Frame :=
  match sp, crypto with
  | SInitial, true => FCrypto <$> initialCryptoData q
  | SInitial, false => rq_initial q
  | SHandshake, true => FCrypto <$> handshakeCryptoData q
  | SHandshake, false => rq_handshake q
  | SAppData, _ => appData q
  end.
Definition added_by (sp : space) (crypto : bool) (o : rq_op) : list Frame :=
  match o with
  | RqAdd sp' f => if bool_decide (sp = sp') && in_class sp crypto f then [f] else []
  | RqGet _ _ => []
  end.
Definition got_by (sp : space) (crypto : bool) (o : rq_op) (r : option Frame) : list Frame :=
  match o, r with
  | RqGet sp' _, Some f => if bool_decide (sp = sp') && in_class sp crypto f then [f] else []
  | _, _ => []
  end.
Definition rq_added (sp : space) (crypto : bool) (ops : list rq_op) : list Frame := ops ≫= added_by sp crypto.
Fixpoint rq_got (sp : space) (crypto : bool) (ops : list rq_op) (rs : list (option Frame)) : list Frame :=
  match ops, rs with
  | o :: ops, r :: rs => got_by sp crypto o r ++ rq_got sp crypto ops rs
  | _, _ => []
  end.

(** Every frame that may be queued has a length; the app data space takes no
    STREAM frames, and only it holds CRYPTO frames among the others. *)
Definition rq_op_ok (o : rq_op) : Prop :=
  match o with
  | RqAdd sp f => is_ok (Frame_Length f) = true ∧ (sp = SAppData → ∀ g, f ≠ FStream g)
  | RqGet _ _ => True
  end.
Record rq_inv (q : retransmissionQueue) : Prop := {
  ri_class : Forall (λ f, is_crypto f = false) (rq_initial q ++ rq_handshake q);
  ri_len : ∀ sp c, Forall (λ f, is_ok (Frame_Length f) = true) (rq_frames q sp c) }.

Definition fits_len (n : Z) (f : Frame) : Prop := ∃ l, Frame_Length f = Ok l ∧ l <= n.
Definition too_long (n : Z) (f : Frame) : Prop := ∃ l, Frame_Length f = Ok l ∧ n < l.
Definition head_too_long (n : Z) (l : list Frame) : Prop := match l with [] => True | f :: _ => too_long n f end.

Lemma get_first_spec l n : Forall (λ f, is_ok (Frame_Length f) = true) l →
  ∃ l' f, get_first l n = Ok (l', f) ∧ l = option_list f ++ l' ∧
    match f with Some f => fits_len n f | None => head_too_long n l end.
Proof.
  intros Hl. destruct l as [|f l]; [by exists [], None|]. apply Forall_cons in Hl as [Hf _]. cbn [get_first].
  destruct (Frame_Length f) as [k| |] eqn:E; try done. cbn [mbind outcome_bind]. destruct (Z.ltb_spec n k).
  - exists (f :: l), None. split_and!; [done..|]. by exists k.
  - exists l, (Some f). split_and!; [done..|]. by exists k.
Qed.
Definition pick (c : bool) (f : option Frame) : list Frame :=
  match f with Some f => if eqb (is_crypto f) c then [f] else [] | None => [] end.
Lemma get_crypto_first_spec crypto l n : Forall (λ f, is_ok (Frame_Length f) = true) (FCrypto <$> crypto) →
  Forall (λ f, is_ok (Frame_Length f) = true) l → Forall (λ f, is_crypto f = false) l →
  ∃ crypto' l' f, get_crypto_first crypto l n = Ok (crypto', l', f) ∧
    FCrypto <$> crypto = pick true f ++ (FCrypto <$> crypto') ∧
    l = pick false f ++ l' ∧
    match f with Some f => fits_len n f | None => head_too_long n (FCrypto <$> crypto) ∧ head_too_long n l end.
Proof.
  intros Hc Hl Hn. destruct (get_first_spec l n Hl) as (l' & f & E & El & Hf).
  assert (Hother : head_too_long n (FCrypto <$> crypto) → ∃ crypto' l'' f', ('(l, f) ← get_first l n; Ok (crypto, l, f)) = Ok (crypto', l'', f') ∧
    FCrypto <$> crypto = pick true f' ++ (FCrypto <$> crypto') ∧
    l = pick false f' ++ l'' ∧
    match f' with Some f => fits_len n f | None => head_too_long n (FCrypto <$> crypto) ∧ head_too_long n l end).
  { intros Hh. exists crypto, l', f. rewrite E. split; [done|]. destruct f as [f|]; [|done].
    rewrite El in Hn. apply Forall_cons in Hn as [Hn _]. cbn. rewrite Hn. cbn. done. }
  destruct crypto as [|cf crypto]; cbn [get_crypto_first]; [by apply Hother|].
  rewrite fmap_cons in Hc. apply Forall_cons in Hc as [Hcf _]. change (is_ok (CryptoFrame_Length cf) = true) in Hcf.
  destruct (CryptoFrame_Length cf) as [k| |] eqn:Ek; try done. cbn [mbind outcome_bind]. destruct (Z.leb_spec k n).
  - exists crypto, l, (Some (FCrypto cf)). split_and!; [done|done|done|]. by exists k.
  - apply Hother. by exists k.
Qed.

(** One operation. *)
Lemma rq_exec_spec q o : rq_inv q → rq_op_ok o →
  ∃ q' r, rq_exec q o = Ok (q', r) ∧ rq_inv q' ∧
    (∀ sp c, rq_frames q sp c ++ added_by sp c o = got_by sp c o r ++ rq_frames q' sp c) ∧
    match o, r with
    | RqGet _ n, Some f => fits_len n f
    | RqGet sp n, None => ∀ c, head_too_long n (rq_frames q sp c)
    | _, _ => True
    end.
Proof.
  intros [Hc Hl] Ho. apply Forall_app in Hc as [Hc1 Hc2].
  pose proof (Hl SInitial true) as L1. pose proof (Hl SInitial false) as L2. pose proof (Hl SHandshake true) as L3.
  pose proof (Hl SHandshake false) as L4. pose proof (Hl SAppData true) as L5. cbn in L1, L2, L3, L4, L5. clear Hl.
  destruct q as [ini inic hs hsc app]; cbn [rq_initial initialCryptoData rq_handshake handshakeCryptoData appData] in *.
  destruct o as [[] f|[] n]; cbn [rq_exec].
  - destruct Ho as [Ho _]. destruct f; eexists _, _; (split; [reflexivity|]); (split; [split|split; [|done]]);
      try (intros [] []; cbn; rewrite ?app_nil_r, ?fmap_app; done);
      try (intros [] []; cbn; rewrite ?fmap_app; try apply Forall_app_2; try done; by apply Forall_singleton);
      cbn; rewrite ?Forall_app, ?Forall_singleton; done.
  - destruct Ho as [Ho _]. destruct f; eexists _, _; (split; [reflexivity|]); (split; [split|split; [|done]]);
      try (intros [] []; cbn; rewrite ?app_nil_r, ?fmap_app; done);
      try (intros [] []; cbn; rewrite ?fmap_app; try apply Forall_app_2; try done; by apply Forall_singleton);
      cbn; rewrite ?Forall_app, ?Forall_singleton; done.
  - destruct Ho as [Ho Hst]. destruct f; try (by destruct (Hst eq_refl _ eq_refl)); eexists _, _; (split; [reflexivity|]);
      (split; [split|split; [|done]]); try (intros [] []; cbn; rewrite ?app_nil_r; done);
      try (intros [] []; cbn; try apply Forall_app_2; try done; by apply Forall_singleton);
      cbn; rewrite ?Forall_app; done.
  - destruct (get_crypto_first_spec inic ini n L1 L2 Hc1) as (c' & l' & f & E & E1 & E2 & Hf).
    unfold GetInitialFrame. cbn [rq_initial initialCryptoData rq_handshake handshakeCryptoData appData]. rewrite E. cbn [mbind outcome_bind].
    rewrite E1 in L1. rewrite E2 in L2, Hc1. apply Forall_app in L1 as [_ L1]. apply Forall_app in L2 as [_ L2]. apply Forall_app in Hc1 as [_ Hc1].
    eexists _, _. split; [reflexivity|]. split; [split|split].
    + cbn. by apply Forall_app.
    + intros [] []; done.
    + intros sp c. cbn [added_by]. rewrite app_nil_r. destruct sp; [|destruct f; cbn; done..].
      assert (got_by SInitial c (RqGet SInitial n) f = pick c f) as -> by (destruct f; cbn; [by rewrite bool_decide_eq_true_2|done]).
      by destruct c.
    + destruct f as [f|]; [done|]. intros []; apply Hf.
  - destruct (get_crypto_first_spec hsc hs n L3 L4 Hc2) as (c' & l' & f & E & E1 & E2 & Hf).
    unfold GetHandshakeFrame. cbn [rq_initial initialCryptoData rq_handshake handshakeCryptoData appData]. rewrite E. cbn [mbind outcome_bind].
    rewrite E1 in L3. rewrite E2 in L4, Hc2. apply Forall_app in L3 as [_ L3]. apply Forall_app in L4 as [_ L4]. apply Forall_app in Hc2 as [_ Hc2].
    eexists _, _. split; [reflexivity|]. split; [split|split].
    + cbn. by apply Forall_app.
    + intros [] []; done.
    + intros sp c. cbn [added_by]. rewrite app_nil_r. destruct sp; [destruct f; cbn; done| |destruct f; cbn; done].
      assert (got_by SHandshake c (RqGet SHandshake n) f = pick c f) as -> by (destruct f; cbn; [by rewrite bool_decide_eq_true_2|done]).
      by destruct c.
    + destruct f as [f|]; [done|]. intros []; apply Hf.
  - destruct (get_first_spec app n L5) as (l' & f & E & E1 & Hf).
    unfold GetAppDataFrame. cbn [rq_initial initialCryptoData rq_handshake handshakeCryptoData appData]. rewrite E. cbn [mbind outcome_bind].
    rewrite E1 in L5. apply Forall_app in L5 as [_ L5].
    eexists _, _. split; [reflexivity|]. split; [split|split].
    + cbn. by apply Forall_app.
    + intros [] []; done.
    + intros sp c. cbn [added_by]. rewrite app_nil_r. destruct sp; [destruct f; cbn; done..|].
      cbn [rq_frames appData]. rewrite E1 at 1. by destruct f.
    + destruct f as [f|]; [done|]. intros c. exact Hf.
Qed.
Lemma rq_run_spec ops : ∀ q, rq_inv q → Forall rq_op_ok ops →
  ∃ q' rs, rq_run q ops = Ok (q', rs) ∧ rq_inv q' ∧
    (∀ sp c, rq_frames q sp c ++ rq_added sp c ops = rq_got sp c ops rs ++ rq_frames q' sp c).
Proof.
  induction ops as [|o ops IH]; intros q Hq Ho; cbn [rq_run].
  { exists q, []. split_and!; [done..|]. intros sp c. apply app_nil_r. }
  apply Forall_cons in Ho as [Ho Hops]. destruct (rq_exec_spec q o Hq Ho) as (q1 & r & E & H1 & Hf & _). rewrite E. cbn [mbind outcome_bind].
  destruct (IH q1 H1 Hops) as (q2 & rs & E2 & H2 & Hf2). rewrite E2. cbn [mbind outcome_bind].
  exists q2, (r :: rs). split_and!; [done..|]. intros sp c. change (rq_added sp c (o :: ops)) with (added_by sp c o ++ rq_added sp c ops).
  cbn [rq_got]. by rewrite app_assoc, Hf, <- app_assoc, Hf2, app_assoc.
Qed.
Lemma rq_inv_new : rq_inv newRetransmissionQueue.
Proof. split; [constructor|]. intros [] []; constructor. Qed.

(** Nothing queued for retransmission is lost, duplicated or reordered: over
    any sequence of additions and retrievals, in each packet number space the
    CRYPTO frames, and likewise the other frames, are handed out in the order
    they were added, and what was added is what was handed out followed by what
    is still queued.  A frame handed out fits the space asked for, and nothing is
    handed out only if the first frame of each kind does not fit. *)
Theorem retransmission_queue_fifo ops (Hops : Forall rq_op_ok ops) :
  ∃ q rs, rq_run newRetransmissionQueue ops = Ok (q, rs) ∧
    (∀ sp crypto, rq_added sp crypto ops = rq_got sp crypto ops rs ++ rq_frames q sp crypto) ∧
    ∀ sp n, ∃ q' r, rq_exec q (RqGet sp n) = Ok (q', r) ∧
      match r with Some f => fits_len n f | None => ∀ crypto, head_too_long n (rq_frames q sp crypto) end.
Proof.
  destruct (rq_run_spec ops newRetransmissionQueue rq_inv_new Hops) as (q & rs & E & Hq & Hf).
  exists q, rs. split_and!; [done| |].
  - intros sp c. rewrite <- Hf. by destruct sp, c.
  - intros sp n. destruct (rq_exec_spec q (RqGet sp n) Hq I) as (q' & r & E' & _ & _ & H). exists q', r. split; [done|].
    by destruct r.
Qed.
Lemma retransmission_queue_fifo_witness :
  ∃ q, rq_run newRetransmissionQueue
    [RqAdd SInitial FPing; RqAdd SInitial (FCrypto (mkCrypto 0 [1; 2])); RqGet SInitial 100; RqGet SInitial 100] =
    Ok (q, [None; None; Some (FCrypto (mkCrypto 0 [1; 2])); Some FPing]).
Proof.
  destruct (retransmission_queue_fifo
    [RqAdd SInitial FPing; RqAdd SInitial (FCrypto (mkCrypto 0 [1; 2])); RqGet SInitial 100; RqGet SInitial 100]) as (q & rs & E & _).
  - repeat constructor; vm_compute; congruence.
  - exists q. rewrite E. vm_compute in E. injection E as <- <-. reflexivity.
Defined.

(** * Window updates *)

(** Looking up a stream never panics. *)
Class WindowGetterOk (S : Type) `{WindowGetter S} := {
  wg_get_ok (s : S) (id : Z) : ∃ s' usable, wg_get s id = Ok (s', usable) }.
(** The stream frames of a list. *)
Definition update_id (f : Frame) : option Z := match f with FMaxStreamData g => Some (msd_StreamID g) | _ => None end.

Section Updates.
Context {S : Type} `{WindowGetterOk S}.
Lemma queue_streams_spec order : ∀ queue (s : S), NoDup order →
  ∃ s' frames, queue_streams order queue s = Ok (queue ∖ list_to_set (omap update_id frames), s', frames) ∧
    sublist (omap update_id frames) order ∧
    Forall (λ f, ∃ id off, f = FMaxStreamData (mkMaxStreamData id off) ∧ off ≠ 0) frames.
Proof.
  induction order as [|id order IH]; intros queue s Hnd; cbn [queue_streams].
  { exists s, []. split_and!; [|constructor|constructor]. cbn. by rewrite difference_empty_L. }
  apply NoDup_cons in Hnd as [Hn Hnd]. destruct (wg_get_ok s id) as (s1 & usable & Eg). rewrite Eg. cbn [mbind outcome_bind].
  assert (Hskip : ∀ s2, ∃ s' frames, queue_streams order queue s2 = Ok (queue ∖ list_to_set (omap update_id frames), s', frames) ∧
    sublist (omap update_id frames) (id :: order) ∧
    Forall (λ f, ∃ id off, f = FMaxStreamData (mkMaxStreamData id off) ∧ off ≠ 0) frames).
  { intros s2. destruct (IH queue s2 Hnd) as (s' & frames & E & Hs & Hf). exists s', frames. split_and!; [done|by constructor|done]. }
  destruct usable; cbn [negb]; [|apply Hskip]. destruct (wg_update s1 id) as [s2 off]. destruct (Z.eqb_spec off 0); [apply Hskip|].
  destruct (IH (queue ∖ {[id]}) s2 Hnd) as (s' & frames & E & Hs & Hf). rewrite E. cbn [mbind outcome_bind].
  exists s', (FMaxStreamData (mkMaxStreamData id off) :: frames). split_and!.
  - cbn [omap list_omap update_id msd_StreamID]. rewrite list_to_set_cons. by rewrite difference_difference_l_L.
  - cbn. by constructor.
  - constructor; [by exists id, off|done].
Qed.

(** [QueueAll] never panics; it announces the connection's window if that was
    requested, then one non-zero window for some of the requested streams, each
    at most once, and forgets exactly the requests it announced: a request whose
    stream is gone, or has no window to announce, stays in the queue. *)
Theorem window_updates_queued q order (s : S) (Ho : order ≡ₚ elements (wuq_queue q)) :
  ∃ s' conn frames q', QueueAll q order s = Ok (q', s', conn ++ frames) ∧
    (if queuedConn q then ∃ off, conn = [FMaxData (mkMaxData off)] else conn = []) ∧ queuedConn q' = false ∧
    Forall (λ f, ∃ id off, f = FMaxStreamData (mkMaxStreamData id off) ∧ off ≠ 0) frames ∧
    NoDup (omap update_id frames) ∧ wuq_queue q = wuq_queue q' ∪ list_to_set (omap update_id frames) ∧
    wuq_queue q' ## list_to_set (omap update_id frames).
Proof.
  assert (Hnd : NoDup order) by (rewrite Ho; apply NoDup_elements). unfold QueueAll.
  destruct (if queuedConn q then _ else _) as [s1 conn] eqn:Ec.
  destruct (queue_streams_spec order (wuq_queue q) s1 Hnd) as (s' & frames & E & Hs & Hf). rewrite E. cbn [mbind outcome_bind].
  exists s', conn, frames. eexists. split; [reflexivity|]. cbn [queuedConn wuq_queue]. split_and!; [|done|done| | |set_solver].
  - destruct (queuedConn q); [|by injection Ec as _ <-]. destruct (wg_conn s) as [s2 off]. injection Ec as _ <-. by exists off.
  - by eapply sublist_NoDup.
  - assert (list_to_set (omap update_id frames) ⊆ wuq_queue q).
    { intros i. rewrite elem_of_list_to_set. intros Hi. apply (λ h, elem_of_sublist _ _ _ h Hs) in Hi. rewrite Ho in Hi. by apply elem_of_elements. }
    by rewrite difference_union_L, (comm_L (∪)), subseteq_union_1_L.
Qed.
End Updates.

(** The open receiving streams of a connection, its flow controller, and the
    clock and round trip times the windows are tuned with. *)
Record receiveStreams := mkReceiveStreams {
  rs_streams : gmap Z receiveStream; rs_conn : baseFlowController; rs_rttStats : RTTStats; rs_now : Z }.
#[export] Instance receiveStreams_getter : WindowGetter receiveStreams := {
  wg_get s id := Ok (s, bool_decide (is_Some (rs_streams s !! id)));
  wg_update s id :=
    match rs_streams s !! id with
    | None => (s, 0)
    | Some str =>
        let '(str, conn, offset) := rcv_getWindowUpdate str (rs_conn s) (rs_rttStats s) (rs_now s) in
        (mkReceiveStreams (<[id := str]> (rs_streams s)) conn (rs_rttStats s) (rs_now s), offset)
    end;
  wg_conn s :=
    let '(conn, offset) := conn_GetWindowUpdate (rs_conn s) (rs_rttStats s) (rs_now s) in
    (mkReceiveStreams (rs_streams s) conn (rs_rttStats s) (rs_now s), offset) }.
Lemma receiveStreams_get (s : receiveStreams) id : ∃ s' usable, wg_get s id = Ok (s', usable).
Proof. by eexists _, _. Qed.
#[export] Instance receiveStreams_getter_ok : WindowGetterOk receiveStreams := {| wg_get_ok := receiveStreams_get |}.

(** Stream 4 has read beyond half of its window of 100 bytes; stream 8 is gone. *)
Definition sample_receives : receiveStreams :=
  let b := mkBase 0 0 0 90 95 100 100 200 time_zero 0 in
  mkReceiveStreams {[4 := newReceiveStream 4 (mkStreamFC b 4 false)]} b NewRTTStats 1000.
Lemma window_updates_queued_witness :
  ∃ s' conn frames q', QueueAll (AddConnection (AddStream (AddStream newWindowUpdateQueue 4) 8)) [4; 8] sample_receives =
      Ok (q', s', conn ++ frames) ∧ queuedConn q' = false.
Proof.
  destruct (window_updates_queued (AddConnection (AddStream (AddStream newWindowUpdateQueue 4) 8)) [4; 8] sample_receives)
    as (s' & conn & frames & q' & E & _ & Hq & _).
  - replace (elements (wuq_queue (AddConnection (AddStream (AddStream newWindowUpdateQueue 4) 8)))) with [8; 4]
      by (vm_compute; reflexivity). by constructor.
  - exists s', conn, frames, q'. split; [exact E|exact Hq].
Defined.
(** The request of the stream that is gone is looked up again by every call. *)
Example window_update_kept :
  match QueueAll (AddStream (AddStream newWindowUpdateQueue 4) 8) [4; 8] sample_receives with
  | Ok (q, _, frames) => wuq_queue q = {[8]} ∧ frames = [FMaxStreamData (mkMaxStreamData 4 190)]
  | _ => False
  end.
Proof. vm_compute. done. Qed.
