(* ===== verification/CryptoStream.v ===== *)
(** CryptoStream: quic-go/crypto_stream.go and quic-go/crypto_stream_manager.go.
    Handshake messages travel in CRYPTO frames, one stream per encryption level:
    the receiving half reassembles the bytes and cuts them into TLS messages, the
    sending half cuts what TLS writes into frames.  TLS itself is behind the
    interface [cryptoDataHandler]. *)

From S2P Require Import Prelude Utils Protocol AckFrame Frames FrameCodec StreamFrame FrameParser GoFloat LinkedListSpec FrameSorter FrameSorterSpec Framer.

Definition MaxPostHandshakeCryptoFrameSize : Z := 1000.

Record cryptoStreamImpl := mkCryptoStream {
  cs_queue : frameSorter; msgBuf : list Z;
  cs_highestOffset : Z; cs_finished : bool;
  cs_writeOffset : Z; writeBuf : list Z }.
Definition newCryptoStream : cryptoStreamImpl := mkCryptoStream newFrameSorter [] 0 false 0 [].

(** [for { _, data, _ := s.queue.Pop(); if data == nil { return nil }; ... }]; each
    turn but the last removes an entry. *)
Fixpoint pop_all (fuel : nat) (q : frameSorter) (buf : list Z) : frameSorter * list Z :=
  match fuel with
  | O => (q, buf)
  | S fuel =>
      if Pop_isNil q then (q, buf)
      else let '(q, (_, data, _)) := Pop q in pop_all fuel q (buf ++ data)
  end.

Definition HandleCryptoFrame (s : cryptoStreamImpl) (f : CryptoFrame) : cryptoStreamImpl * option goerr :=
  let highestOffset := u64 (c_Offset f + len (c_Data f)) in
  if MaxCryptoStreamOffset <? highestOffset then
    (s, Some (Errorf "received invalid offset %d on crypto stream, maximum allowed %d" [highestOffset; MaxCryptoStreamOffset]))
  else if cs_finished s then
    if cs_highestOffset s <? highestOffset
    then (s, Some (Errorf "received crypto data after change of encryption level" []))
    else (s, None)
  else
    let highest := MaxByteCount_of (cs_highestOffset s) highestOffset in
    let '(q, _, err) := Push (cs_queue s) (c_Data f) (c_Offset f) None in
    match err with
    | Some e => (mkCryptoStream q (msgBuf s) highest (cs_finished s) (cs_writeOffset s) (writeBuf s), Some e)
    | None =>
        let '(q, buf) := pop_all (size (queue q)) q (msgBuf s) in
        (mkCryptoStream q buf highest (cs_finished s) (cs_writeOffset s) (writeBuf s), None)
    end.

(** [4 + int(b[1])<<16 + int(b[2])<<8 + int(b[3])] *)
Definition msg_len (b : list Z) : Z :=
  4 + Z.shiftl (default 0 (b !! 1%nat)) 16 + Z.shiftl (default 0 (b !! 2%nat)) 8 + default 0 (b !! 3%nat).
(** [None] is the nil slice. *)
Definition GetCryptoData (s : cryptoStreamImpl) : cryptoStreamImpl * option (list Z) :=
  if len (msgBuf s) <? 4 then (s, None) else
  let msgLen := msg_len (msgBuf s) in
  if len (msgBuf s) <? msgLen then (s, None) else
  (mkCryptoStream (cs_queue s) (drop (Z.to_nat msgLen) (msgBuf s)) (cs_highestOffset s) (cs_finished s)
     (cs_writeOffset s) (writeBuf s), Some (take (Z.to_nat msgLen) (msgBuf s))).

Definition Finish (s : cryptoStreamImpl) : cryptoStreamImpl * option goerr :=
  if HasMoreData (cs_queue s) then
    (s, Some (Errorf "encryption level changed, but crypto stream has more data to read" []))
  else (mkCryptoStream (cs_queue s) (msgBuf s) (cs_highestOffset s) true (cs_writeOffset s) (writeBuf s), None).

Definition crypto_Write (s : cryptoStreamImpl) (p : list Z) : cryptoStreamImpl * Z :=
  (mkCryptoStream (cs_queue s) (msgBuf s) (cs_highestOffset s) (cs_finished s) (cs_writeOffset s) (writeBuf s ++ p), len p).
Definition HasData (s : cryptoStreamImpl) : bool := 0 <? len (writeBuf s).
Definition PopCryptoFrame (s : cryptoStreamImpl) (maxLen : Z) : outcome (cryptoStreamImpl * CryptoFrame) :=
  m ← CryptoFrame_MaxDataLen (mkCrypto (cs_writeOffset s) []) maxLen;
  let n := MinByteCount m (len (writeBuf s)) in
  Ok (mkCryptoStream (cs_queue s) (msgBuf s) (cs_highestOffset s) (cs_finished s) (u64 (cs_writeOffset s + n))
        (drop (Z.to_nat n) (writeBuf s)),
      mkCrypto (cs_writeOffset s) (take (Z.to_nat n) (writeBuf s))).

(** * postHandshakeCryptoStream *)

(** [for s.cryptoStream.HasData()]; [None] when the loop has not ended after
    [fuel] turns. *)
Fixpoint queue_frames (fuel : nat) (s : cryptoStreamImpl) (f : framerI) : option (outcome (cryptoStreamImpl * framerI)) :=
  if HasData s then
    match fuel with
    | O => None
    | S fuel =>
        match PopCryptoFrame s MaxPostHandshakeCryptoFrameSize with
        | Ok (s, frame) => queue_frames fuel s (QueueControlFrame f (FCrypto frame))
        | Err e => Some (Err e)
        | Panic m => Some (Panic m)
        end
    end
  else Some (Ok (s, f)).
Definition postHandshake_Write (fuel : nat) (s : cryptoStreamImpl) (f : framerI) (p : list Z)
    : option (outcome (cryptoStreamImpl * framerI * Z)) :=
  let '(s, n) := crypto_Write s p in
  match queue_frames fuel s f with
  | Some (Ok (s, f)) => Some (Ok (s, f, n))
  | Some (Err e) => Some (Err e)
  | Some (Panic m) => Some (Panic m)
  | None => None
  end.

(** * crypto_stream_manager.go *)

(** [cryptoDataHandler]: TLS handles a message and says whether the encryption
    level is finished. *)
Class CryptoDataHandler (H : Type) := HandleMessage : H → list Z → EncryptionLevel → H * bool.

Record cryptoStreamManager := mkCryptoManager {
  initialStream : cryptoStreamImpl; handshakeStream : cryptoStreamImpl; oneRTTStream : cryptoStreamImpl }.

Section Manager.
Context {H : Type} `{CryptoDataHandler H}.
(** The loop over the messages received: the stream, the handler, whether the
    level changed, and the error.  Every message has at least four bytes. *)
Fixpoint handle_messages (fuel : nat) (h : H) (str : cryptoStreamImpl) (encLevel : EncryptionLevel)
    : H * cryptoStreamImpl * bool * option goerr :=
  match fuel with
  | O => (h, str, false, None)
  | S fuel =>
      match GetCryptoData str with
      | (str, None) => (h, str, false, None)
      | (str, Some data) =>
          let '(h, encLevelFinished) := HandleMessage h data encLevel in
          if encLevelFinished : bool then let '(str, err) := Finish str in (h, str, true, err)
          else handle_messages fuel h str encLevel
      end
  end.
Definition handle_on (h : H) (str : cryptoStreamImpl) (frame : CryptoFrame) (encLevel : EncryptionLevel)
    : H * cryptoStreamImpl * bool * option goerr :=
  let '(str, err) := HandleCryptoFrame str frame in
  match err with
  | Some e => (h, str, false, Some e)
  | None => handle_messages (S (length (msgBuf str))) h str encLevel
  end.
Definition manager_HandleCryptoFrame (m : cryptoStreamManager) (h : H) (frame : CryptoFrame) (encLevel : EncryptionLevel)
    : cryptoStreamManager * H * bool * option goerr :=
  match encLevel with
  | EncryptionInitial =>
      let '(h, str, changed, err) := handle_on h (initialStream m) frame encLevel in
      (mkCryptoManager str (handshakeStream m) (oneRTTStream m), h, changed, err)
  | EncryptionHandshake =>
      let '(h, str, changed, err) := handle_on h (handshakeStream m) frame encLevel in
      (mkCryptoManager (initialStream m) str (oneRTTStream m), h, changed, err)
  | Encryption1RTT =>
      let '(h, str, changed, err) := handle_on h (oneRTTStream m) frame encLevel in
      (mkCryptoManager (initialStream m) (handshakeStream m) str, h, changed, err)
  | _ => (m, h, false, Some (Errorf "received CRYPTO frame with unexpected encryption level: %s" []))
  end.
End Manager.
