(* ===== verification/CryptoStreamSpec.v ===== *)
(** CryptoStreamSpec: handshake messages arrive whole, once and in order, whatever
    order their frames arrive in; what TLS writes leaves in contiguous frames;
    both together are a round trip. *)

From S2P Require Import Prelude Utils Protocol AckFrame Frames FrameCodec StreamFrame FrameParser GoFloat LinkedListSpec FrameSorter FrameSorterSpec Framer CryptoStream.

(** * Receiving *)

(** A TLS message: its length field counts the bytes behind the header. *)
Definition msg_ok (m : list Z) : Prop := 4 <= len m ∧ msg_len m = len m.

Lemma msg_len_app m rest : 4 <= len m → msg_len (m ++ rest) = msg_len m.
Proof.
  intros Hm. unfold msg_len. unfold len in Hm.
  by rewrite !lookup_app_l by lia.
Qed.
Lemma msg_len_prefix b m rest : 4 <= len b → b ++ rest = m → msg_len b = msg_len m.
Proof. intros Hb <-. by rewrite msg_len_app. Qed.

(** The bytes of the messages, and a frame that carries some of them. *)
Definition bytes_of (M : list (list Z)) (x : Z) : Z := default 0 (concat M !! Z.to_nat x).
Definition frame_of (M : list (list Z)) (f : CryptoFrame) : Prop :=
  ∃ pre post, concat M = pre ++ c_Data f ++ post ∧ len pre = c_Offset f.
Definition in_frame (x : Z) (f : CryptoFrame) : Prop := c_Offset f <= x < c_Offset f + len (c_Data f).

Lemma frame_of_ok M f cb : len (concat M) <= MaxCryptoStreamOffset → frame_of M f →
  op_ok (bytes_of M) (OpPush (c_Offset f) (c_Data f) cb) ∧ c_Offset f + len (c_Data f) <= len (concat M).
Proof.
  intros HM (pre & post & E & Ho). assert (HL : c_Offset f + len (c_Data f) <= len (concat M)).
  { rewrite E, !len_app. pose proof (len_nonneg post). lia. }
  split; [|done]. pose proof (len_nonneg pre). assert (MaxCryptoStreamOffset < MaxByteCount) by done.
  split; [lia|]. split; [lia|]. intros i b Hi. unfold bytes_of. rewrite E.
  rewrite lookup_app_r by (unfold len in Ho; lia). rewrite lookup_app_l.
  - replace (Z.to_nat (c_Offset f + Z.of_nat i) - length pre)%nat with i by (unfold len in Ho; lia). by rewrite Hi.
  - apply lookup_lt_Some in Hi. unfold len in Ho. lia.
Qed.

(** The popping loop reads to the first hole. *)
Lemma pop_all_spec S n : ∀ q buf, sorter_inv S q → (size (queue q) <= n)%nat →
  ∃ q' out, pop_all n q buf = (q', buf ++ out) ∧ sorter_inv S q' ∧ readPos q' = readPos q + len out
    ∧ carries S (readPos q) out ∧ gaps q' = gaps q ∧ queue q' !! readPos q' = None
    ∧ (∀ x, readPos q <= x < readPos q' → ¬ in_gaps (gaps q) x) ∧ (live_inv S q → live_inv S q').
Proof.
  assert (Hstop : ∀ q buf, sorter_inv S q → queue q !! readPos q = None → ∃ q' out, (q, buf) = (q', buf ++ out) ∧
    sorter_inv S q' ∧ readPos q' = readPos q + len out ∧ carries S (readPos q) out ∧ gaps q' = gaps q ∧
    queue q' !! readPos q' = None ∧ (∀ x, readPos q <= x < readPos q' → ¬ in_gaps (gaps q) x) ∧ (live_inv S q → live_inv S q')).
  { intros q buf HI Hn. exists q, []. rewrite app_nil_r, len_nil. split_and!; try done; try lia. }
  induction n as [|n IH]; intros q buf HI Hn.
  { apply Hstop; [done|]. assert (Hz : queue q = ∅) by (apply map_size_empty_inv; lia). by rewrite Hz. }
  cbn [pop_all]. unfold Pop_isNil. destruct (queue q !! readPos q) as [e|] eqn:He; [|by apply Hstop].
  destruct (Pop_inv S q HI) as (q1 & d & cb & E & HI1 & Hr & Hc & Hg). pose proof (Pop_live S q) as HL. rewrite E in HL |- *.
  assert (Hq1 : (size (queue q1) <= n)%nat ∧ d = e_Data e).
  { unfold Pop in E. rewrite He in E. injection E as <- <- _. split; [|done]. cbn [queue]. rewrite map_size_delete_Some by eauto. lia. }
  destruct Hq1 as [Hs ->]. destruct (IH q1 (buf ++ e_Data e) HI1 Hs) as (q' & out & E' & HI' & Hr' & Hc' & Hg' & Hn' & Hx & HL').
  exists q', (e_Data e ++ out). rewrite E', app_assoc, len_app, Hr', Hr. split_and!; [done|done|lia| |congruence| |
    |by auto].
  - apply carries_app; [done|]. by rewrite <- Hr.
  - by rewrite <- Hr, <- Hr'.
  - intros x Hx'. destruct (si_entry _ _ HI _ _ He) as (_ & _ & _ & Hno).
    destruct (decide (x < readPos q + len (e_Data e))); [apply Hno; lia|]. rewrite <- Hg. apply Hx. lia.
Qed.

Lemma carries_take M p out : carries (bytes_of M) p out → 0 <= p → p + len out <= len (concat M) →
  take (Z.to_nat p) (concat M) ++ out = take (Z.to_nat (p + len out)) (concat M).
Proof.
  intros Hc Hp Hl. unfold len in Hl |- *. replace (Z.to_nat (p + Z.of_nat (length out))) with (Z.to_nat p + length out)%nat by lia.
  rewrite <- (take_drop (Z.to_nat p) (concat M)) at 2. rewrite take_app_add' by (rewrite length_take; lia). f_equal.
  apply list_eq_same_length with (length out); [rewrite length_take, length_drop; lia|done|].
  intros i x y Hi Hx Hy. rewrite lookup_take in Hy. case_decide; [|done]. rewrite lookup_drop in Hy.
  rewrite (Hc i x Hx). unfold bytes_of. replace (Z.to_nat (p + Z.of_nat i)) with (Z.to_nat p + i)%nat by lia. by rewrite Hy.
Qed.

(** [k] of the messages [M] have been returned; the buffer holds what was read
    behind them. *)
Record crypto_inv (M : list (list Z)) (k : nat) (s : cryptoStreamImpl) : Prop := mkCryptoInv {
  ci_sorter : sorter_inv (bytes_of M) (cs_queue s);
  ci_gaps : ∀ x, len (concat M) <= x < MaxByteCount → in_gaps (gaps (cs_queue s)) x;
  ci_k : (k <= length M)%nat;
  ci_read : readPos (cs_queue s) <= len (concat M);
  ci_buf : concat (take k M) ++ msgBuf s = take (Z.to_nat (readPos (cs_queue s))) (concat M) }.

Lemma crypto_inv_new M : len (concat M) <= MaxCryptoStreamOffset → crypto_inv M 0 newCryptoStream.
Proof.
  intros HM. split; [apply inv_new| |lia|apply len_nonneg|done]. intros x Hx. cbn. rewrite in_gaps_cons. left.
  unfold in_gap. cbn [bi_Start bi_End]. pose proof (len_nonneg (concat M)). lia.
Qed.

(** What a frame does to a stream that is not finished. *)
Definition frame_effect (M : list (list Z)) (f : CryptoFrame) (s s' : cryptoStreamImpl) : Prop :=
  queue (cs_queue s') !! readPos (cs_queue s') = None
  ∧ (∀ x, in_gaps (gaps (cs_queue s')) x ↔ in_gaps (gaps (cs_queue s)) x ∧ ¬ in_frame x f)
  ∧ (live_inv (bytes_of M) (cs_queue s) → no_replace (cs_queue s) (OpPush (c_Offset f) (c_Data f) None) = true →
     live_inv (bytes_of M) (cs_queue s')).
Lemma handle_frame_spec M k s f : len (concat M) <= MaxCryptoStreamOffset → crypto_inv M k s → frame_of M f →
  ∃ s' err, HandleCryptoFrame s f = (s', err) ∧ crypto_inv M k s' ∧ cs_finished s' = cs_finished s
    ∧ (cs_finished s = true → s' = s)
    ∧ (cs_finished s = false → (err = None ∧ frame_effect M f s s') ∨ err = Some errTooManyGaps).
Proof.
  intros HM [Hs Hg Hk Hr Hb] Hf. pose proof (frame_of_ok M f None HM Hf) as [Hop Hle].
  assert (MaxCryptoStreamOffset < 2 ^ 64) by done. unfold HandleCryptoFrame.
  assert (0 <= c_Offset f) as Ho by (destruct Hop; lia). pose proof (len_nonneg (c_Data f)).
  rewrite u64_small by lia. rewrite (proj2 (Z.ltb_ge _ _)) by lia.
  destruct (cs_finished s) eqn:Ef.
  { destruct (_ <? _); eexists s, _; split_and!; done. }
  destruct (Push_inv _ _ _ _ None Hs Hop) as (q & calls & err & E & Hq & Hrq & Herr & Hgq). rewrite E.
  assert (Hgq' : ∀ x, len (concat M) <= x < MaxByteCount → in_gaps (gaps q) x).
  { intros x Hx. apply Hgq. split; [by apply Hg|lia]. }
  destruct Herr as [-> | ->].
  2: { do 2 eexists. split; [done|]. split_and!; [|done|done|by right]. split; [done|done|done|by cbn; rewrite Hrq|by cbn; rewrite Hrq]. }
  destruct (pop_all_spec _ _ q (msgBuf s) Hq (le_n _)) as (q' & out & E' & Hq' & Hr' & Hc & Hg' & Hn & Hx & Hl). rewrite E'.
  assert (Hle' : readPos q' <= len (concat M)).
  { destruct (decide (len (concat M) < readPos q')) as [Hlt|]; [|lia]. exfalso.
    destruct (si_read _ _ Hq'). apply (Hx (len (concat M))); [lia|]. apply Hgq'. lia. }
  do 2 eexists. split; [done|]. split_and!; [|done|done|].
  - split; cbn [cs_queue msgBuf]; [done|by rewrite Hg'|done|done|].
    rewrite app_assoc, Hb, Hr', Hrq. apply carries_take; [by rewrite <- Hrq|by destruct (si_read _ _ Hs)|lia].
  - intros _. left. split; [done|]. split_and!; cbn [cs_queue]; [done| |].
    + intros x. rewrite Hg'. apply Hgq.
    + intros HL Hnr. apply Hl. eapply (run_op_live _ (cs_queue s) (OpPush (c_Offset f) (c_Data f) None) q []); [done|done|done|].
      cbn. by rewrite E.
Qed.

(** One message. *)
Lemma get_message M k s : Forall msg_ok M → crypto_inv M k s →
  (∃ m s', M !! k = Some m ∧ GetCryptoData s = (s', Some m) ∧ crypto_inv M (S k) s' ∧ cs_queue s' = cs_queue s
     ∧ cs_finished s' = cs_finished s ∧ (length (msgBuf s') < length (msgBuf s))%nat)
  ∨ GetCryptoData s = (s, None) ∧ (k = length M ∨ readPos (cs_queue s) < len (concat M)).
Proof.
  intros HM [Hs Hg Hk Hr Hb]. destruct (decide (k = length M)) as [->|Hne].
  { right. split; [|by left]. unfold GetCryptoData. rewrite take_ge in Hb by lia.
    assert (msgBuf s = []) as ->.
    { apply (f_equal length) in Hb. rewrite length_app, length_take in Hb. apply length_zero_iff_nil. lia. }
    done. }
  destruct (lookup_lt_is_Some_2 M k) as [m Hm]; [lia|].
  destruct (Forall_lookup_1 _ _ _ _ HM Hm) as [H4 Hml].
  assert (Hd : drop k M = m :: drop (S k) M) by (by apply drop_S).
  assert (Hpre : ∃ rest, msgBuf s ++ rest = m ++ concat (drop (S k) M)).
  { exists (drop (Z.to_nat (readPos (cs_queue s))) (concat M)).
    apply (app_inv_head (concat (take k M))). rewrite app_assoc, Hb, take_drop.
    rewrite <- (take_drop k M) at 1. by rewrite concat_app, Hd. }
  destruct Hpre as [rest Hp]. apply app_eq_inv in Hp as [(r & Er & _)|(r & Er & Hrest)].
  - left. exists m, (mkCryptoStream (cs_queue s) r (cs_highestOffset s) (cs_finished s) (cs_writeOffset s) (writeBuf s)).
    split; [done|]. pose proof (len_nonneg r). unfold GetCryptoData. rewrite Er, msg_len_app, Hml, len_app by done.
    rewrite !(proj2 (Z.ltb_ge _ _)) by lia. unfold len. rewrite Nat2Z.id, take_app_length, drop_app_length.
    split; [done|]. split_and!; [|done|done|cbn; rewrite length_app; unfold len in H4; lia].
    split; try done; [lia|]. cbn [msgBuf cs_queue]. rewrite <- Hb, Er. rewrite (take_S_r _ _ _ Hm), concat_app. cbn.
    by rewrite app_nil_r, <- !app_assoc.
  - destruct (decide (r = [])) as [->|Hr0].
    + left. rewrite app_nil_r in Er. subst m.
      exists (msgBuf s), (mkCryptoStream (cs_queue s) [] (cs_highestOffset s) (cs_finished s) (cs_writeOffset s) (writeBuf s)).
      split; [done|]. unfold GetCryptoData. rewrite Hml, !(proj2 (Z.ltb_ge _ _)) by lia. unfold len.
      rewrite Nat2Z.id, take_ge, drop_ge by lia. split; [done|]. split_and!; [|done|done|cbn; unfold len in H4; lia].
      split; try done; [lia|]. cbn [msgBuf cs_queue]. rewrite <- Hb, (take_S_r _ _ _ Hm), concat_app. cbn. by rewrite !app_nil_r.
    + right. pose proof (len_pos _ Hr0) as Hrl. split.
      * unfold GetCryptoData. destruct (Z.ltb_spec (len (msgBuf s)) 4) as [|Hge]; [done|].
        rewrite (msg_len_prefix _ m r), Hml by done. rewrite (proj2 (Z.ltb_lt _ _)); [done|]. rewrite Er, len_app. lia.
      * right. apply (f_equal len) in Hb. rewrite len_app in Hb.
        assert (len (concat M) = len (concat (take k M)) + len m + len (concat (drop (S k) M))) as HL.
        { rewrite <- (take_drop k M) at 1. rewrite concat_app, Hd, len_app. cbn [concat]. rewrite len_app. lia. }
        pose proof (len_nonneg (concat (drop (S k) M))). rewrite Er, len_app in HL.
        assert (len (take (Z.to_nat (readPos (cs_queue s))) (concat M)) = readPos (cs_queue s)) as Ht.
        { destruct (si_read _ _ Hs). unfold len in Hr |- *. rewrite length_take. lia. }
        lia.
Qed.

(** * The manager *)

Definition stream_of (m : cryptoStreamManager) (l : EncryptionLevel) : option cryptoStreamImpl :=
  match l with
  | EncryptionInitial => Some (initialStream m)
  | EncryptionHandshake => Some (handshakeStream m)
  | Encryption1RTT => Some (oneRTTStream m)
  | _ => None
  end.
Definition new_manager : cryptoStreamManager := mkCryptoManager newCryptoStream newCryptoStream newCryptoStream.
(** The messages of [trace] that are of level [l]. *)
Definition at_level {A} (l : EncryptionLevel) (trace : list (A * EncryptionLevel)) : list A :=
  (filter (λ ml, snd ml = l) trace).*1.
Lemma at_level_app {A} l (t u : list (A * EncryptionLevel)) : at_level l (t ++ u) = at_level l t ++ at_level l u.
Proof. unfold at_level. by rewrite filter_app, fmap_app. Qed.
Lemma at_level_same {A} l (ms : list A) : at_level l ((λ m, (m, l)) <$> ms) = ms.
Proof. unfold at_level. induction ms as [|m ms IH]; [done|]. cbn. rewrite decide_True by done. cbn. by f_equal. Qed.
Lemma at_level_other {A} l l' (ms : list A) : l ≠ l' → at_level l ((λ m, (m, l')) <$> ms) = [].
Proof. intros Hne. unfold at_level. induction ms as [|m ms IH]; [done|]. cbn. by rewrite decide_False by (cbn; congruence). Qed.

Section Manager.
Context {H : Type} `{CryptoDataHandler H}.

(** TLS handles the messages of a trace. *)
Definition handle_trace (h : H) (trace : list (list Z * EncryptionLevel)) : H :=
  foldl (λ h ml, fst (HandleMessage h (fst ml) (snd ml))) h trace.
(** The frames that arrive, until the first error. *)
Fixpoint manager_run (m : cryptoStreamManager) (h : H) (fs : list (CryptoFrame * EncryptionLevel))
    : cryptoStreamManager * H * option goerr :=
  match fs with
  | [] => (m, h, None)
  | (f, l) :: fs =>
      match manager_HandleCryptoFrame m h f l with
      | (m, h, _, None) => manager_run m h fs
      | (m, h, _, Some e) => (m, h, Some e)
      end
  end.
(** No frame replaces a queued one that is shorter. *)
Fixpoint manager_keeps (m : cryptoStreamManager) (h : H) (fs : list (CryptoFrame * EncryptionLevel)) : bool :=
  match fs with
  | [] => true
  | (f, l) :: fs =>
      match stream_of m l with
      | Some s => no_replace (cs_queue s) (OpPush (c_Offset f) (c_Data f) None)
      | None => true
      end && let '(m, h, _, _) := manager_HandleCryptoFrame m h f l in manager_keeps m h fs
  end.

(** The messages in the buffer go to TLS until it has finished the level. *)
Lemma handle_messages_spec M l fuel : ∀ h s k, Forall msg_ok M → crypto_inv M k s → (length (msgBuf s) < fuel)%nat →
  ∃ n h' s' changed err, handle_messages fuel h s l = (h', s', changed, err) ∧ crypto_inv M (k + n) s'
    ∧ h' = handle_trace h ((λ m, (m, l)) <$> take n (drop k M)) ∧ cs_queue s' = cs_queue s
    ∧ (changed = false → err = None ∧ cs_finished s' = cs_finished s ∧ ((k + n)%nat = length M ∨ readPos (cs_queue s') < len (concat M)))
    ∧ (changed = true → ∃ h0 m i, M !! i = Some m ∧ S i = (k + n)%nat ∧ snd (HandleMessage h0 m l) = true)
    ∧ (changed = true → err = None → cs_finished s' = true).
Proof.
  induction fuel as [|fuel IH]; intros h s k HM HI Hf; [lia|]. cbn [handle_messages].
  destruct (get_message M k s HM HI) as [(m & s1 & Hm & E & HI1 & Hq & Hfin & Hlt)|[E Hend]]; rewrite E.
  2: { exists 0%nat, h, s, false, None. rewrite Nat.add_0_r. split_and!; done. }
  assert (Hd : drop k M = m :: drop (S k) M) by (by apply drop_S). rewrite Hd.
  destruct (HandleMessage h m l) as [h1 fin] eqn:Eh. destruct fin.
  - exists 1%nat. rewrite Nat.add_1_r. unfold Finish.
    assert (Hchg : true = true → ∃ h0 m0 i, M !! i = Some m0 ∧ S i = S k ∧ snd (HandleMessage h0 m0 l) = true).
    { intros _. exists h, m, k. split_and!; [done|done|by rewrite Eh]. }
    destruct (HasMoreData (cs_queue s1)); do 4 eexists;
      (split_and!; [done| | |done|done|exact Hchg|done]; [try done; by destruct HI1|cbn; by rewrite Eh]).
  - destruct (IH h1 s1 (S k) HM HI1) as (n & h' & s' & changed & err & E' & HI' & Ht & Hq' & H1 & H2 & H3); [lia|].
    exists (S n), h', s', changed, err. rewrite Nat.add_succ_r. split_and!; [done|done| |congruence| |done|done].
    + cbn. by rewrite Eh.
    + intros Hc. destruct (H1 Hc) as (? & ? & ?). split_and!; [done|congruence|done].
Qed.

(** What a level that is not finished has received: [recv]. *)
Definition level_live (M : list (list Z)) (recv : list CryptoFrame) (k : nat) (s : cryptoStreamImpl) : Prop :=
  (cs_finished s = true → k = length M)
  ∧ (cs_finished s = false → live_inv (bytes_of M) (cs_queue s) ∧ queue (cs_queue s) !! readPos (cs_queue s) = None
     ∧ (∀ x, in_gaps (gaps (cs_queue s)) x ↔ 0 <= x < MaxByteCount ∧ ¬ Exists (in_frame x) recv)
     ∧ (k = length M ∨ readPos (cs_queue s) < len (concat M))).
(** TLS finishes a level with its last message only. *)
Definition finishes_last (M : list (list Z)) (l : EncryptionLevel) : Prop :=
  ∀ h i m, M !! i = Some m → snd (HandleMessage h m l) = true → S i = length M.

Lemma handle_on_spec M l h s k f : Forall msg_ok M → len (concat M) <= MaxCryptoStreamOffset → crypto_inv M k s → frame_of M f →
  ∃ n h' s' changed err, handle_on h s f l = (h', s', changed, err) ∧ crypto_inv M (k + n) s'
    ∧ h' = handle_trace h ((λ m, (m, l)) <$> take n (drop k M))
    ∧ (err = None → finishes_last M l → no_replace (cs_queue s) (OpPush (c_Offset f) (c_Data f) None) = true →
       ∀ recv, level_live M recv k s → level_live M (recv ++ [f]) (k + n) s').
Proof.
  intros HM HL HI Hf. unfold handle_on.
  destruct (handle_frame_spec M k s f HL HI Hf) as (s1 & err & E & HI1 & Hfin & Hft & Hff). rewrite E.
  destruct err as [e|].
  { exists 0%nat, h, s1, false, (Some e). rewrite Nat.add_0_r. by split_and!. }
  destruct (handle_messages_spec M l (S (length (msgBuf s1))) h s1 k HM HI1 ltac:(lia))
    as (n & h' & s' & changed & err & E' & HI' & Ht & Hq & Hc0 & Hc1 & Hc2).
  exists n, h', s', changed, err. split_and!; [done..|]. intros -> Hlast Hnr recv [Lt Lf]. split.
  - intros Hs'. destruct changed.
    + destruct (Hc1 eq_refl) as (h0 & m & i & Hi & Hn & Hm). rewrite <- Hn. by eapply Hlast.
    + destruct (Hc0 eq_refl) as (_ & E1 & _). rewrite Hs', Hfin in E1. pose proof (ci_k _ _ _ HI'). rewrite (Lt (eq_sym E1)) in *. lia.
  - intros Hs'. destruct changed; [by rewrite Hc2 in Hs'|]. destruct (Hc0 eq_refl) as (_ & E1 & Hend).
    rewrite Hs' in E1. rewrite <- E1 in Hfin. destruct (Hff (eq_sym Hfin)) as [[_ (Fn & Fg & Fl)]|]; [|done].
    destruct (Lf (eq_sym Hfin)) as (L1 & L2 & L3 & L4). rewrite Hq in *. split_and!; [by apply Fl|done| |done].
    intros x. rewrite Fg, L3, Exists_app, Exists_cons, Exists_nil. tauto.
Qed.

Definition set_stream (m : cryptoStreamManager) (l : EncryptionLevel) (s : cryptoStreamImpl) : cryptoStreamManager :=
  match l with
  | EncryptionInitial => mkCryptoManager s (handshakeStream m) (oneRTTStream m)
  | EncryptionHandshake => mkCryptoManager (initialStream m) s (oneRTTStream m)
  | Encryption1RTT => mkCryptoManager (initialStream m) (handshakeStream m) s
  | _ => m
  end.
Lemma stream_of_set m l s l' : is_Some (stream_of m l) →
  stream_of (set_stream m l s) l' = if decide (l' = l) then Some s else stream_of m l'.
Proof. intros [s0 Hs]. by destruct l, l'. Qed.
Lemma manager_handle_eq m h f l :
  manager_HandleCryptoFrame m h f l =
    match stream_of m l with
    | Some s => let '(h, s, changed, err) := handle_on h s f l in (set_stream m l s, h, changed, err)
    | None => (m, h, false, Some (Errorf "received CRYPTO frame with unexpected encryption level: %s" []))
    end.
Proof. by destruct l. Qed.

Context (M : EncryptionLevel → list (list Z)).
Definition levels_inv (ks : EncryptionLevel → nat) (m : cryptoStreamManager) : Prop :=
  ∀ l s, stream_of m l = Some s → crypto_inv (M l) (ks l) s.
Definition levels_live (l : EncryptionLevel) (recv : list CryptoFrame) (k : nat) (m : cryptoStreamManager) : Prop :=
  ∀ s, stream_of m l = Some s → level_live (M l) recv k s.

Lemma manager_run_spec fs : ∀ m h m' h' err ks,
  (∀ l, Forall msg_ok (M l)) → (∀ l, len (concat (M l)) <= MaxCryptoStreamOffset) →
  Forall (λ fl, frame_of (M (snd fl)) (fst fl)) fs → levels_inv ks m → manager_run m h fs = (m', h', err) →
  ∃ trace ks', h' = handle_trace h trace ∧ levels_inv ks' m'
    ∧ (∀ l, (ks l <= ks' l)%nat ∧ at_level l trace = take (ks' l - ks l) (drop (ks l) (M l)))
    ∧ (∀ l recv, err = None → finishes_last (M l) l → manager_keeps m h fs = true →
       levels_live l recv (ks l) m → levels_live l (recv ++ at_level l fs) (ks' l) m').
Proof.
  induction fs as [|[f l] fs IH]; intros m h m' h' err ks HM HL Hfs HI E.
  { injection E as <- <- <-. exists [], ks. split_and!; [done|done| |].
    - intros l. split; [done|]. by rewrite Nat.sub_diag, take_0.
    - intros l recv _ _ _ Hl. by rewrite app_nil_r. }
  apply Forall_cons in Hfs as [Hf Hfs]. cbn [fst snd] in Hf. cbn [manager_run] in E. cbn [manager_keeps].
  rewrite manager_handle_eq in E |- *. destruct (stream_of m l) as [s|] eqn:Hs.
  2: { injection E as <- <- <-. exists [], ks. split_and!; [done|done| |done].
       intros l'. split; [done|]. by rewrite Nat.sub_diag, take_0. }
  destruct (handle_on_spec (M l) l h s (ks l) f (HM l) (HL l) (HI l s Hs) Hf) as (n & h1 & s1 & ch & err1 & E1 & HI1 & Ht1 & Hlv1).
  rewrite E1 in E |- *. set (ks1 := λ l', if decide (l' = l) then (ks l + n)%nat else ks l').
  assert (HI1' : levels_inv ks1 (set_stream m l s1)).
  { intros l' s'. rewrite stream_of_set by eauto. unfold ks1. case_decide as Hd; [intros [= <-]; by subst|apply HI]. }
  assert (Htr : ∀ l', at_level l' ((λ x, (x, l)) <$> take n (drop (ks l) (M l))) = take (ks1 l' - ks l') (drop (ks l') (M l'))
    ∧ (ks l' <= ks1 l')%nat).
  { intros l'. unfold ks1. case_decide as Hd.
    - subst l'. rewrite at_level_same. split; [f_equal; lia|lia].
    - rewrite at_level_other by done. by rewrite Nat.sub_diag, take_0. }
  destruct err1 as [e|].
  { injection E as <- <- <-. eexists _, ks1. split_and!; [exact Ht1|done| |done]. intros l'. by destruct (Htr l'). }
  destruct (IH _ _ _ _ _ ks1 HM HL Hfs HI1' E) as (trace & ks' & Ht & HI' & Htrace & Hlive).
  exists (((λ x, (x, l)) <$> take n (drop (ks l) (M l))) ++ trace), ks'. split_and!; [|done| |].
  - rewrite Ht, Ht1. unfold handle_trace. by rewrite foldl_app.
  - intros l'. destruct (Htr l') as [Ha Hb], (Htrace l') as [Hc Hd]. split; [lia|]. rewrite at_level_app, Ha, Hd.
    replace (ks' l' - ks l')%nat with ((ks1 l' - ks l') + (ks' l' - ks1 l'))%nat by lia.
    replace (drop (ks1 l') (M l')) with (drop (ks1 l' - ks l') (drop (ks l') (M l'))) by (rewrite drop_drop; f_equal; lia).
    by rewrite take_take_drop.
  - intros l' recv -> Hfl [Hnr Hk]%andb_true_iff Hl. change ((f, l) :: fs) with ([(f, l)] ++ fs). rewrite at_level_app, app_assoc.
    apply Hlive; [done|done|done|]. intros s' Hs'. rewrite stream_of_set in Hs' by eauto. unfold ks1. case_decide as Hd.
    + injection Hs' as <-. subst l'. unfold at_level at 1. cbn. rewrite decide_True by done. cbn.
      apply Hlv1; [done|done|done|]. by apply Hl.
    + unfold at_level. cbn. rewrite decide_False by (cbn; congruence). cbn. rewrite app_nil_r. by apply Hl.
Qed.
End Manager.

(** C28: Whatever order the CRYPTO frames of the peer arrive in, repeated or
    overlapping, and whatever TLS does: TLS is given the peer's messages
    whole, in order and each once, separately for each encryption level.
    And all of them under four conditions: when every byte of a level has arrived, no
    error occurred, no queued frame was replaced by a longer one (a replacement can
    stall the sorter: [sorter_replacement_stalls]), and TLS ends the level with its
    last message, TLS was given every message of the level. *)
Theorem crypto_messages_delivered {H : Type} `{CryptoDataHandler H} (M : EncryptionLevel → list (list Z)) (h : H)
    (fs : list (CryptoFrame * EncryptionLevel)) (m' : cryptoStreamManager) (h' : H) (err : option goerr) :
  (∀ l, Forall msg_ok (M l)) → (∀ l, len (concat (M l)) <= MaxCryptoStreamOffset) →
  Forall (λ fl, frame_of (M (snd fl)) (fst fl)) fs →
  manager_run new_manager h fs = (m', h', err) →
  ∃ trace, h' = handle_trace h trace
    ∧ (∀ l, at_level l trace `prefix_of` M l)
    ∧ ∀ l, stream_of m' l ≠ None → err = None → finishes_last (M l) l → manager_keeps new_manager h fs = true →
        (∀ x, 0 <= x < len (concat (M l)) → Exists (in_frame x) (at_level l fs)) → at_level l trace = M l.
Proof.
  intros HM HL Hfs E. assert (HI : levels_inv M (λ _, 0%nat) new_manager).
  { intros l s Hs. assert (s = newCryptoStream) as -> by (by destruct l; simplify_eq/=). by apply crypto_inv_new. }
  destruct (manager_run_spec M fs _ _ _ _ _ (λ _, 0%nat) HM HL Hfs HI E) as (trace & ks & Ht & HI' & Htr & Hlive).
  exists trace. split; [done|]. assert (Htr' : ∀ l, at_level l trace = take (ks l) (M l)).
  { intros l. destruct (Htr l) as [_ ->]. by rewrite drop_0, Nat.sub_0_r. }
  split; [intros l; rewrite Htr'; by apply prefix_take|]. intros l Hl -> Hfl Hk Hall. rewrite Htr'.
  destruct (stream_of m' l) as [s|] eqn:Hs; [|done].
  assert (HL0 : levels_live M l [] 0 new_manager).
  { intros s0 Hs0. assert (s0 = newCryptoStream) as -> by (by destruct l; simplify_eq/=). split; [done|]. intros _.
    split; [apply live_new|]. split; [done|]. split.
    - intros x. cbn. rewrite in_gaps_cons, in_gaps_nil, Exists_nil. unfold in_gap. cbn [bi_Start bi_End]. tauto.
    - destruct (M l) as [|m ms] eqn:Em; [by left|right]. cbn. pose proof (HM l) as Hm. rewrite Em in Hm.
      apply Forall_cons in Hm as [[Hm _] _]. rewrite len_app. pose proof (len_nonneg (concat ms)). lia. }
  destruct (Hlive l [] eq_refl Hfl Hk HL0 s Hs) as [L1 L2]. destruct (HI' l s Hs) as [I1 I2 I3 I4 I5].
  assert (ks l = length (M l)) as ->; [|by rewrite take_ge by lia].
  destruct (cs_finished s); [by apply L1|]. destruct (L2 eq_refl) as (Hlv & Hn & Hg & [|Hlt]); [done|]. exfalso.
  destruct (first_gap _ _ Hlv Hn) as [F _]. apply Hg in F as [Hr F]. apply F, Hall. lia.
Qed.
(** A handler that logs what it is given and ends every level with the message
    whose type byte is 20, Finished. *)
#[local] Instance log_handler : CryptoDataHandler (list (list Z * EncryptionLevel)) :=
  λ h m l, (h ++ [(m, l)], match m with 20 :: _ => true | _ => false end).
Definition sample_messages (l : EncryptionLevel) : list (list Z) :=
  match l with
  | EncryptionInitial => [[1; 0; 0; 2; 7; 8]; [2; 0; 0; 0]]
  | EncryptionHandshake => [[8; 0; 0; 1; 9]; [20; 0; 0; 1; 5]]
  | _ => []
  end.
Definition sample_frames : list (CryptoFrame * EncryptionLevel) :=
  [(mkCrypto 5 [8; 2; 0], EncryptionInitial); (mkCrypto 4 [9; 20; 0; 0; 1; 5], EncryptionHandshake);
   (mkCrypto 0 [1; 0; 0; 2; 7; 8; 2], EncryptionInitial); (mkCrypto 0 [8; 0; 0; 1; 9], EncryptionHandshake);
   (mkCrypto 7 [0; 0; 0], EncryptionInitial); (mkCrypto 0 [8; 0], EncryptionHandshake)].
Lemma frame_of_slice M o d : 0 <= o <= len (concat M) → take (length d) (drop (Z.to_nat o) (concat M)) = d → frame_of M (mkCrypto o d).
Proof.
  intros Ho Hd. exists (take (Z.to_nat o) (concat M)), (drop (length d) (drop (Z.to_nat o) (concat M))).
  cbn [c_Data c_Offset]. rewrite <- Hd at 1. rewrite take_drop, take_drop. split; [done|].
  unfold len in *. rewrite length_take. lia.
Qed.
Lemma Exists_in_frame k f n x fs : fs !! k = Some f → len (c_Data f) = n → c_Offset f <= x < c_Offset f + n → Exists (in_frame x) fs.
Proof. intros Hk <- Hx. apply Exists_exists. exists f. split; [by eapply list_elem_of_lookup_2|done]. Qed.
Lemma crypto_messages_delivered_witness :
  let '(_, h', err) := manager_run new_manager ([] : list (list Z * EncryptionLevel)) sample_frames in
  err = None ∧ h' = [([1; 0; 0; 2; 7; 8], EncryptionInitial); ([8; 0; 0; 1; 9], EncryptionHandshake);
    ([20; 0; 0; 1; 5], EncryptionHandshake); ([2; 0; 0; 0], EncryptionInitial)]
  ∧ ∃ trace, h' = handle_trace [] trace ∧ (∀ l, at_level l trace `prefix_of` sample_messages l) ∧
    at_level EncryptionInitial trace = sample_messages EncryptionInitial ∧ at_level EncryptionHandshake trace = sample_messages EncryptionHandshake.
Proof.
  destruct (manager_run new_manager ([] : list (list Z * EncryptionLevel)) sample_frames) as [[m' h'] err] eqn:E.
  split; [by vm_compute in E; injection E as _ _ <-|]. split; [by vm_compute in E; injection E as _ <- _|].
  destruct (crypto_messages_delivered sample_messages [] sample_frames m' h' err) as (trace & H1 & H2 & H3).
  - intros []; repeat constructor; done.
  - intros []; done.
  - repeat (apply Forall_cons_2; [refine (frame_of_slice _ _ _ _ _); [split; vm_compute; intros [=]|vm_compute; reflexivity]|]); constructor.
  - exact E.
  - exists trace. split; [exact H1|]. split; [exact H2|]. assert (err = None) as Eerr by (by vm_compute in E; injection E as _ _ <-).
    split; (apply H3; [vm_compute in E; injection E as <- _ _; discriminate|exact Eerr| |vm_compute; reflexivity|]).
    + intros h0 [|[|i]] m Hm; [|done|done]. vm_compute in Hm. injection Hm as <-. discriminate.
    + intros x Hx. change (len _) with 10 in Hx. destruct (decide (x < 7)); [apply (Exists_in_frame 1 (mkCrypto 0 [1; 0; 0; 2; 7; 8; 2]) 7)|apply (Exists_in_frame 2 (mkCrypto 7 [0; 0; 0]) 3)]; try reflexivity; cbn [c_Offset]; lia.
    + intros h0 [|[|i]] m Hm; [|done|done]. vm_compute in Hm. injection Hm as <-. discriminate.
    + intros x Hx. change (len _) with 10 in Hx. destruct (decide (x < 5)); [apply (Exists_in_frame 1 (mkCrypto 0 [8; 0; 0; 1; 9]) 5)|apply (Exists_in_frame 0 (mkCrypto 4 [9; 20; 0; 0; 1; 5]) 6)]; try reflexivity; cbn [c_Offset]; lia.
Defined.

(** [Finish] looks at the sorter only.  Data of the finished level that is
    already in the message buffer goes unnoticed: the level changes without an
    error, and a retransmission hands the rest to TLS afterwards. *)
Example finish_ignores_buffer :
  let frame := mkCrypto 0 [20; 0; 0; 1; 5; 9; 0; 0; 0] in
  let '(m1, h1, changed1, err1) := manager_HandleCryptoFrame new_manager ([] : list (list Z * EncryptionLevel)) frame EncryptionHandshake in
  let '(m2, h2, changed2, err2) := manager_HandleCryptoFrame m1 h1 frame EncryptionHandshake in
  (h1, changed1, err1) = ([([20; 0; 0; 1; 5], EncryptionHandshake)], true, None)
  ∧ msgBuf (handshakeStream m1) = [9; 0; 0; 0]
  ∧ (h2, changed2, err2) = (h1 ++ [([9; 0; 0; 0], EncryptionHandshake)], false, None).
Proof. vm_compute. split_and!; reflexivity. Qed.

(** * Sending *)

(** The written offset and the buffer stay within what a CRYPTO frame can name. *)
Definition writable (s : cryptoStreamImpl) : Prop := 0 <= cs_writeOffset s ∧ cs_writeOffset s + len (writeBuf s) <= maxVarInt8.

Lemma crypto_MaxDataLen_spec o maxLen : 0 <= o <= maxVarInt8 → 0 <= maxLen < 16384 →
  ∃ n, CryptoFrame_MaxDataLen (mkCrypto o []) maxLen = Ok n ∧ 0 <= n
    ∧ (n = 0 ∨ 1 + len (varint o) + len (varint n) + n <= maxLen) ∧ (11 < maxLen → 0 < n).
Proof.
  intros Ho Hm. unfold CryptoFrame_MaxDataLen. cbn [c_Offset]. rewrite VarIntLen_varint by lia. cbn [mbind outcome_bind].
  pose proof (varint_len o ltac:(lia)) as Hv. destruct (Z.ltb_spec maxLen (1 + len (varint o) + 1)).
  { exists 0. split_and!; [done|lia|by left|lia]. }
  rewrite VarIntLen_varint by (unfold maxVarInt8 in *; lia). cbn [mbind outcome_bind].
  rewrite (varint_len_small (maxLen - _)) by lia. destruct (Z.ltb_spec (maxLen - (1 + len (varint o) + 1)) 64) as [Hs|Hs]; cbn [Z.eqb negb Pos.eqb].
  - eexists. split; [done|]. split; [lia|]. split; [|lia]. right. set (n := maxLen - _). rewrite (varint_len_small n) by lia. rewrite (proj2 (Z.ltb_lt n 64)) by lia. lia.
  - eexists. split; [done|]. split; [lia|]. split; [|lia]. right. set (n := maxLen - _ - 1). rewrite (varint_len_small n) by lia. destruct (n <? 64); lia.
Qed.
(** A popped frame is the front of the buffer, and fits. *)
Lemma pop_crypto_spec s maxLen : writable s → 0 <= maxLen < 16384 →
  ∃ s' f, PopCryptoFrame s maxLen = Ok (s', f) ∧ writable s' ∧ c_Offset f = cs_writeOffset s
    ∧ writeBuf s = c_Data f ++ writeBuf s' ∧ cs_writeOffset s' = cs_writeOffset s + len (c_Data f)
    ∧ (c_Data f ≠ [] → ∃ n, CryptoFrame_Length f = Ok n ∧ n <= maxLen)
    ∧ (11 < maxLen → writeBuf s ≠ [] → c_Data f ≠ []).
Proof.
  intros [H0 H1] Hm. pose proof (len_nonneg (writeBuf s)). unfold PopCryptoFrame.
  destruct (crypto_MaxDataLen_spec (cs_writeOffset s) maxLen ltac:(lia) Hm) as (n & E & Hn0 & Hn & Hpos). rewrite E. cbn [mbind outcome_bind].
  set (k := MinByteCount n (len (writeBuf s))).
  assert (Hk : 0 <= k <= n ∧ k <= len (writeBuf s) ∧ (k = n ∨ k = len (writeBuf s))) by (unfold k, MinByteCount; zcases; lia).
  destruct Hk as (Hk1 & Hk2 & Hk3). assert (maxVarInt8 < 2 ^ 64) by done. rewrite u64_small by lia.
  assert (Hlt : len (take (Z.to_nat k) (writeBuf s)) = k) by (unfold len in *; rewrite length_take; lia).
  do 2 eexists. split; [done|]. unfold writable. cbn [cs_writeOffset writeBuf c_Offset c_Data]. split_and!.
  - lia.
  - unfold len in *. rewrite length_drop. lia.
  - done.
  - by rewrite take_drop.
  - lia.
  - intros Hne%len_pos. rewrite Hlt in Hne. unfold CryptoFrame_Length. cbn [c_Offset c_Data]. rewrite Hlt.
    rewrite !VarIntLen_varint by (unfold maxVarInt8 in *; lia). cbn [sum_len foldr mbind outcome_bind]. eexists. split; [done|]. destruct Hn as [->|Hn]; [lia|].
    pose proof (len_nonneg (varint n)). pose proof (len_nonneg (varint (cs_writeOffset s))).
    pose proof (varint_len_mono k n ltac:(lia) ltac:(unfold maxVarInt8 in *; lia)). lia.
  - intros Hml Hne Ht. apply len_pos in Hne. rewrite Ht, len_nil in Hlt. specialize (Hpos Hml). lia.
Qed.

(** Frames that follow each other from offset [o]; the data they carry. *)
Fixpoint contiguous (o : Z) (fs : list CryptoFrame) : Prop :=
  match fs with [] => True | f :: fs => c_Offset f = o ∧ contiguous (o + len (c_Data f)) fs end.
Definition data_of (fs : list CryptoFrame) : list Z := concat (c_Data <$> fs).

(** The frames of a contiguous run are frames of what they carry together. *)
Lemma contiguous_frame_of pre o M fs : contiguous o fs → concat M = pre ++ data_of fs → o = len pre → Forall (frame_of M) fs.
Proof.
  revert pre o. induction fs as [|f fs IH]; intros pre o Hc E Ho; [done|]. destruct Hc as [Hf Hc]. constructor.
  - exists pre, (data_of fs). rewrite E, Hf. by rewrite Ho.
  - apply (IH (pre ++ c_Data f) _ Hc); [by rewrite E, <- app_assoc|]. rewrite len_app. lia.
Qed.
Lemma contiguous_covers o fs x : contiguous o fs → o <= x < o + len (data_of fs) → Exists (in_frame x) fs.
Proof.
  revert o. induction fs as [|f fs IH]; intros o Hc Hx; [unfold len in Hx; cbn in Hx; lia|]. destruct Hc as [Hf Hc].
  unfold data_of in Hx. cbn [fmap list_fmap concat] in Hx. rewrite len_app in Hx.
  destruct (decide (x < o + len (c_Data f))); [left; unfold in_frame; lia|]. right. apply (IH _ Hc). unfold data_of. lia.
Qed.

(** The loop of the post-handshake stream ends: every turn removes a byte at least. *)
Lemma queue_frames_spec fuel : ∀ s f, writable s → (length (writeBuf s) <= fuel)%nat →
  ∃ s' f' fs, queue_frames fuel s f = Some (Ok (s', f')) ∧ writeBuf s' = []
    ∧ cs_writeOffset s' = cs_writeOffset s + len (writeBuf s)
    ∧ activeStreams f' = activeStreams f ∧ streamQueue f' = streamQueue f ∧ controlFrames f' = controlFrames f ++ (FCrypto <$> fs)
    ∧ contiguous (cs_writeOffset s) fs ∧ data_of fs = writeBuf s
    ∧ Forall (λ fr, ∃ n, CryptoFrame_Length fr = Ok n ∧ n <= MaxPostHandshakeCryptoFrameSize) fs.
Proof.
  assert (Hdone : ∀ s f, writeBuf s = [] → ∃ s' f' fs, Some (Ok (s, f)) = Some (Ok (s', f')) ∧ writeBuf s' = []
    ∧ cs_writeOffset s' = cs_writeOffset s + len (writeBuf s)
    ∧ activeStreams f' = activeStreams f ∧ streamQueue f' = streamQueue f ∧ controlFrames f' = controlFrames f ++ (FCrypto <$> fs)
    ∧ contiguous (cs_writeOffset s) fs ∧ data_of fs = writeBuf s
    ∧ Forall (λ fr, ∃ n, CryptoFrame_Length fr = Ok n ∧ n <= MaxPostHandshakeCryptoFrameSize) fs).
  { intros s f He. exists s, f, []. rewrite He, app_nil_r, len_nil. split_and!; try done. lia. }
  induction fuel as [|fuel IH]; intros s f Hw Hf.
  { assert (writeBuf s = []) as He by (apply length_zero_iff_nil; lia). cbn [queue_frames].
    assert (HasData s = false) as -> by (unfold HasData; by rewrite He). by apply Hdone. }
  cbn [queue_frames]. unfold HasData. destruct (Z.ltb_spec 0 (len (writeBuf s))) as [Hpos|Hz].
  2: { apply Hdone. destruct (writeBuf s); [done|]. rewrite len_cons in Hz. pose proof (len_nonneg l). lia. }
  destruct (pop_crypto_spec s MaxPostHandshakeCryptoFrameSize Hw ltac:(done)) as (s1 & fr & E & Hw1 & Ho & Eb & Eo & Hlen & Hne).
  assert (writeBuf s ≠ []) as Hb by (by intros Hb; rewrite Hb in Hpos). specialize (Hne ltac:(done) Hb). rewrite E.
  destruct (IH s1 (QueueControlFrame f (FCrypto fr)) Hw1) as (s' & f' & fs & E' & H1 & H2 & H3 & H4 & H5 & H6 & H7 & H8).
  { rewrite Eb, length_app in Hf. apply len_pos in Hne. unfold len in Hne. lia. }
  exists s', f', (fr :: fs). split; [exact E'|]. split_and!; [done| |done|done| | | |].
  - rewrite H2, Eo, Eb, len_app. lia.
  - rewrite H5. cbn. by rewrite <- app_assoc.
  - cbn. split; [done|]. by rewrite <- Eo.
  - rewrite Eb. unfold data_of in *. cbn. by rewrite H7.
  - constructor; [by apply Hlen|done].
Qed.

(** A post-handshake [Write] ends, after at most as many turns as there are
    bytes to send, and queues all of them: in CRYPTO frames of at most
    [MaxPostHandshakeCryptoFrameSize] bytes that follow each other from the write
    offset, behind the control frames already queued, and nothing stays in the
    buffer.  A peer that knows the stream as the messages [M] sees frames of
    it, and together they cover the bytes written. *)
Theorem post_handshake_write_ends (s : cryptoStreamImpl) (f : framerI) (p : list Z) (fuel : nat) :
  0 <= cs_writeOffset s → cs_writeOffset s + len (writeBuf s ++ p) <= maxVarInt8 →
  (length (writeBuf s ++ p) <= fuel)%nat →
  ∃ s' f' fs, postHandshake_Write fuel s f p = Some (Ok (s', f', len p))
    ∧ writeBuf s' = [] ∧ cs_writeOffset s' = cs_writeOffset s + len (writeBuf s ++ p)
    ∧ controlFrames f' = controlFrames f ++ (FCrypto <$> fs)
    ∧ contiguous (cs_writeOffset s) fs ∧ data_of fs = writeBuf s ++ p
    ∧ Forall (λ fr, ∃ n, CryptoFrame_Length fr = Ok n ∧ n <= MaxPostHandshakeCryptoFrameSize) fs
    ∧ ∀ M pre, concat M = pre ++ writeBuf s ++ p → cs_writeOffset s = len pre →
        Forall (frame_of M) fs ∧ ∀ x, len pre <= x < len (concat M) → Exists (in_frame x) fs.
Proof.
  intros H0 H1 Hf. unfold postHandshake_Write, crypto_Write.
  set (s1 := mkCryptoStream _ _ _ _ _ (writeBuf s ++ p)).
  destruct (queue_frames_spec fuel s1 f) as (s' & f' & fs & E & Hb & Ho & _ & _ & Hcf & Hc & Hd & Hl); [by split|done|].
  rewrite E. exists s', f', fs. split_and!; try done. intros M pre HM Hp. cbn in Hd. split.
  - apply (contiguous_frame_of pre (cs_writeOffset s)); [done|by rewrite Hd|done].
  - intros x Hx. apply (contiguous_covers (cs_writeOffset s)); [done|]. rewrite Hd, Hp. rewrite HM, len_app in Hx. lia.
Qed.
Lemma post_handshake_write_ends_witness :
  ∃ s' f' fs, postHandshake_Write 2500 newCryptoStream newFramer (replicate 2500 7) = Some (Ok (s', f', 2500))
    ∧ data_of fs = replicate 2500 7 ∧ controlFrames f' = FCrypto <$> fs ∧ len fs = 3.
Proof.
  destruct (post_handshake_write_ends newCryptoStream newFramer (replicate 2500 7) 2500)
    as (s' & f' & fs & E & _ & _ & Hc & _ & Hd & _); [vm_compute; intros [=]|vm_compute; intros [=]|by apply Nat.leb_le|].
  exists s', f', fs. split; [exact E|]. split; [exact Hd|]. split; [exact Hc|].
  assert (Hlen : len (controlFrames f') = 3).
  { assert (option_map (λ o, match o with Ok (_, f, _) => len (controlFrames f) | _ => 0 end)
      (postHandshake_Write 2500 newCryptoStream newFramer (replicate 2500 7)) = Some 3) as Hx by (vm_compute; reflexivity).
    rewrite E in Hx. by injection Hx. }
  rewrite Hc in Hlen. unfold len in *. cbn in Hlen. by rewrite length_fmap in Hlen.
Defined.
