(* ===== verification/Protection.v ===== *)
(** Protection: core/handshake/aead.go, header_protector.go and initial_aead.go.
    Packet and header protection, and the keys of Initial packets.  The cryptography itself (crypto/aes, crypto/cipher, chacha20, qtls) is
    a class of operations. *)

From S2P Require Import Prelude Utils Protocol Frames GoFloat Rtt.

(** * The cryptographic packages *)

(** What the code uses of them.  [aead_Seal] and [aead_Open] take a nonce, the data
    and the associated data; [chacha20_XORKeyStream] a key, the counter and nonce,
    and the data; [aes_NewCipher] is [None] on an error. *)
Class QTLS := {
  cipherAEAD : Type;
  NonceSize : cipherAEAD → Z;
  aead_Overhead : cipherAEAD → Z;
  aead_Seal : cipherAEAD → list Z → list Z → list Z → list Z;
  aead_Open : cipherAEAD → list Z → list Z → list Z → option (list Z);
  AEADAESGCMTLS13 : list Z → list Z → cipherAEAD;
  cipherBlock : Type;
  aes_NewCipher : list Z → option cipherBlock;
  BlockSize : cipherBlock → Z;
  block_Encrypt : cipherBlock → list Z → list Z;
  chacha20_XORKeyStream : list Z → list Z → list Z → list Z;
  hash_Size : Z → Z;
  HkdfExtract : Z → list Z → list Z → list Z;
  HkdfExpandLabel : Z → list Z → list Z → string → Z → list Z }.

(** [qtls.CipherSuiteTLS13], with the result of its method [IVLen]. *)
Record CipherSuiteTLS13 `{QTLS} := mkSuite {
  suite_ID : Z; KeyLen : Z; IVLen : Z; suite_AEAD : list Z → list Z → cipherAEAD; suite_Hash : Z }.
Definition TLS_AES_128_GCM_SHA256 : Z := 0x1301.
Definition TLS_AES_256_GCM_SHA384 : Z := 0x1302.
Definition TLS_CHACHA20_POLY1305_SHA256 : Z := 0x1303.
Definition SHA256 : Z := 5.

Definition ErrOpenerNotYetAvailable : goerr := Errorf "CryptoSetup: opener at this encryption level not yet available" [].
Definition ErrKeysDropped : goerr := Errorf "CryptoSetup: keys were already dropped" [].
Definition ErrDecryptionFailed : goerr := Errorf "decryption failed" [].

(** [copy] into a zeroed array of [n] bytes. *)
Definition copy_into (n : nat) (b : list Z) : list Z := take n b ++ replicate (n - length b) 0.
(** [binary.BigEndian.PutUint64(buf[len(buf)-8:], uint64(v))] *)
Definition be64 (v : Z) : list Z :=
  [byte_at v 56; byte_at v 48; byte_at v 40; byte_at v 32; byte_at v 24; byte_at v 16; byte_at v 8; u8 v].
Definition put_nonce (buf : list Z) (v : Z) : outcome (list Z) :=
  if len buf <? 8 then Panic "slice bounds out of range" else Ok (take (length buf - 8) buf ++ be64 (u64 v)).

Section Protection.
Context `{QTLS}.

(** * header_protector.go *)

Inductive headerProtector :=
  | aesHeaderProtector (block : cipherBlock) (isLongHeader : bool)
  | chachaHeaderProtector (key : list Z) (isLongHeader : bool).

Definition newAESHeaderProtector (suite : CipherSuiteTLS13) (trafficSecret : list Z) (isLongHeader : bool) : outcome headerProtector :=
  let hpKey := HkdfExpandLabel (suite_Hash suite) trafficSecret [] "quic hp" (KeyLen suite) in
  match aes_NewCipher hpKey with
  | None => Panic "error creating new AES cipher"
  | Some block => Ok (aesHeaderProtector block isLongHeader)
  end.
Definition newChaChaHeaderProtector (suite : CipherSuiteTLS13) (trafficSecret : list Z) (isLongHeader : bool) : headerProtector :=
  let hpKey := HkdfExpandLabel (suite_Hash suite) trafficSecret [] "quic hp" (KeyLen suite) in
  chachaHeaderProtector (copy_into 32 hpKey) isLongHeader.
Definition newHeaderProtector (suite : CipherSuiteTLS13) (trafficSecret : list Z) (isLongHeader : bool) : outcome headerProtector :=
  if (suite_ID suite =? TLS_AES_128_GCM_SHA256) || (suite_ID suite =? TLS_AES_256_GCM_SHA384)
  then newAESHeaderProtector suite trafficSecret isLongHeader
  else if suite_ID suite =? TLS_CHACHA20_POLY1305_SHA256
  then Ok (newChaChaHeaderProtector suite trafficSecret isLongHeader)
  else Panic "Invalid cipher suite id".

(** The end of both [apply] methods: the first byte and the packet number bytes
    are combined with the mask. *)
Definition apply_mask (mask : list Z) (isLongHeader : bool) (firstByte : Z) (hdrBytes : list Z) : outcome (Z * list Z) :=
  match mask with
  | [] => Panic "index out of range"
  | m0 :: mask' =>
      if len mask' <? len hdrBytes then Panic "index out of range"
      else Ok (Z.lxor firstByte (Z.land m0 (if isLongHeader then 0xf else 0x1f)), zip_with Z.lxor hdrBytes mask')
  end.
Definition hp_apply (p : headerProtector) (sample : list Z) (firstByte : Z) (hdrBytes : list Z) : outcome (Z * list Z) :=
  match p with
  | aesHeaderProtector block isLongHeader =>
      if negb (len sample =? BlockSize block) then Panic "invalid sample size"
      else apply_mask (block_Encrypt block sample) isLongHeader firstByte hdrBytes
  | chachaHeaderProtector key isLongHeader =>
      if len sample <? 5 then Panic "invalid sample size"
      else apply_mask (chacha20_XORKeyStream key (copy_into 16 sample) (replicate 5 0)) isLongHeader firstByte hdrBytes
  end.
Definition hp_EncryptHeader := hp_apply.
Definition hp_DecryptHeader := hp_apply.

(** * aead.go *)

Definition createAEAD (suite : CipherSuiteTLS13) (trafficSecret : list Z) : cipherAEAD :=
  let key := HkdfExpandLabel (suite_Hash suite) trafficSecret [] "quic key" (KeyLen suite) in
  let iv := HkdfExpandLabel (suite_Hash suite) trafficSecret [] "quic iv" (IVLen suite) in
  suite_AEAD suite key iv.

(** [sealer] and [longHeaderOpener] have the same fields. *)
Record longHeaderCrypter := mkCrypter { lh_aead : cipherAEAD; lh_headerProtector : headerProtector; lh_nonceBuf : list Z }.
Definition newLongHeaderSealer (aead : cipherAEAD) (hp : headerProtector) : longHeaderCrypter :=
  mkCrypter aead hp (replicate (Z.to_nat (NonceSize aead)) 0).
Definition newLongHeaderOpener (aead : cipherAEAD) (hp : headerProtector) : longHeaderCrypter :=
  mkCrypter aead hp (replicate (Z.to_nat (NonceSize aead)) 0).
Definition long_Seal (s : longHeaderCrypter) (src : list Z) (pn : Z) (ad : list Z) : outcome (longHeaderCrypter * list Z) :=
  nonceBuf ← put_nonce (lh_nonceBuf s) pn;
  Ok (mkCrypter (lh_aead s) (lh_headerProtector s) nonceBuf, aead_Seal (lh_aead s) nonceBuf src ad).
Definition long_Open (o : longHeaderCrypter) (src : list Z) (pn : Z) (ad : list Z) : longHeaderCrypter * outcome (list Z) :=
  match put_nonce (lh_nonceBuf o) pn with
  | Ok nonceBuf =>
      (mkCrypter (lh_aead o) (lh_headerProtector o) nonceBuf,
       match aead_Open (lh_aead o) nonceBuf src ad with Some dec => Ok dec | None => Err ErrDecryptionFailed end)
  | Err e => (o, Err e)
  | Panic m => (o, Panic m)
  end.
Definition long_EncryptHeader (s : longHeaderCrypter) := hp_EncryptHeader (lh_headerProtector s).
Definition long_DecryptHeader (s : longHeaderCrypter) := hp_DecryptHeader (lh_headerProtector s).
Definition long_Overhead (s : longHeaderCrypter) : Z := aead_Overhead (lh_aead s).

(** * initial_aead.go *)

Definition quicVersion1Salt : list Z :=
  [0xc3; 0xee; 0xf7; 0x12; 0xc7; 0x2e; 0xbb; 0x5a; 0x11; 0xa7; 0xd2; 0x43; 0x2b; 0xb4; 0x63; 0x65; 0xbe; 0xf9; 0xf5; 0x02].
(** [IVLen] is a method of qtls; the Initial keys do not use it. *)
Definition initialSuite : CipherSuiteTLS13 := mkSuite _ TLS_AES_128_GCM_SHA256 16 12 AEADAESGCMTLS13 SHA256.
Definition computeSecrets (connID : list Z) : list Z * list Z :=
  let initialSecret := HkdfExtract SHA256 connID quicVersion1Salt in
  (HkdfExpandLabel SHA256 initialSecret [] "client in" (hash_Size SHA256),
   HkdfExpandLabel SHA256 initialSecret [] "server in" (hash_Size SHA256)).
Definition computeInitialKeyAndIV (secret : list Z) : list Z * list Z :=
  (HkdfExpandLabel SHA256 secret [] "quic key" 16, HkdfExpandLabel SHA256 secret [] "quic iv" 12).
Definition NewInitialAEAD (connID : list Z) (pers : Perspective) : outcome (longHeaderCrypter * longHeaderCrypter) :=
  let '(clientSecret, serverSecret) := computeSecrets connID in
  let '(mySecret, otherSecret) :=
    match pers with PerspectiveClient => (clientSecret, serverSecret) | _ => (serverSecret, clientSecret) end in
  let '(myKey, myIV) := computeInitialKeyAndIV mySecret in
  let '(otherKey, otherIV) := computeInitialKeyAndIV otherSecret in
  let encrypter := AEADAESGCMTLS13 myKey myIV in
  let decrypter := AEADAESGCMTLS13 otherKey otherIV in
  hpe ← newHeaderProtector initialSuite mySecret true;
  hpd ← newAESHeaderProtector initialSuite otherSecret true;
  Ok (newLongHeaderSealer encrypter hpe, newLongHeaderOpener decrypter hpd).
End Protection.
