(* ===== verification/KeyUpdate.v ===== *)
(** KeyUpdate: core/handshake/updatable_aead.go.  The keys of 1-RTT packets and
    their key phases. *)

From S2P Require Import Prelude Utils Protocol Frames GoFloat Rtt Protection.

Definition KeyUpdateInterval : Z := 100 * 1000.

Section Updatable.
Context `{QTLS}.

(** [rttStats] is shared with the connection and an argument where it is used. *)
Record updatableAEAD := mkAEAD {
  suite : option CipherSuiteTLS13;
  keyPhase : Z; largestAcked : Z; keyUpdateInterval : Z;
  prevRcvAEADExpiry : Z; prevRcvAEAD : option cipherAEAD;
  firstRcvdWithCurrentKey : Z; firstSentWithCurrentKey : Z;
  numRcvdWithCurrentKey : Z; numSentWithCurrentKey : Z;
  rcvAEAD : option cipherAEAD; sendAEAD : option cipherAEAD; aeadOverhead : Z;
  nextRcvAEAD : option cipherAEAD; nextSendAEAD : option cipherAEAD;
  nextRcvTrafficSecret : list Z; nextSendTrafficSecret : list Z;
  headerDecrypter : option headerProtector; headerEncrypter : option headerProtector;
  nonceBuf : list Z }.
Definition newUpdatableAEAD (keyUpdateInterval : Z) : updatableAEAD :=
  mkAEAD None 0 InvalidPacketNumber keyUpdateInterval time_zero None InvalidPacketNumber InvalidPacketNumber 0 0
    None None 0 None None [] [] None None [].

Definition getNextTrafficSecret (hash : Z) (ts : list Z) : list Z :=
  HkdfExpandLabel hash ts [] "traffic upd" (hash_Size hash).

Definition rollKeys (a : updatableAEAD) (rttStats : RTTStats) (now : Z) : outcome updatableAEAD :=
  match suite a with
  | None => Panic "nil pointer dereference"
  | Some s =>
      let nextRcv := getNextTrafficSecret (suite_Hash s) (nextRcvTrafficSecret a) in
      let nextSend := getNextTrafficSecret (suite_Hash s) (nextSendTrafficSecret a) in
      Ok (mkAEAD (suite a) (u64 (keyPhase a + 1)) (largestAcked a) (keyUpdateInterval a)
        (time_Add now (i64 (3 * PTO rttStats))) (rcvAEAD a) InvalidPacketNumber InvalidPacketNumber 0 0
        (nextRcvAEAD a) (nextSendAEAD a) (aeadOverhead a)
        (Some (createAEAD s nextRcv)) (Some (createAEAD s nextSend)) nextRcv nextSend
        (headerDecrypter a) (headerEncrypter a) (nonceBuf a))
  end.

(** The fields [SetReadKey] and [SetWriteKey] set when the first of them is called. *)
Definition init_suite (a : updatableAEAD) (s : CipherSuiteTLS13) (aead : cipherAEAD) : option CipherSuiteTLS13 * Z * list Z :=
  match suite a with
  | None => (Some s, aead_Overhead aead, replicate (Z.to_nat (NonceSize aead)) 0)
  | Some s' => (Some s', aeadOverhead a, nonceBuf a)
  end.
Definition up_SetReadKey (a : updatableAEAD) (s : CipherSuiteTLS13) (trafficSecret : list Z) : outcome updatableAEAD :=
  let rcv := createAEAD s trafficSecret in
  hd ← newHeaderProtector s trafficSecret false;
  let '(su, overhead, nonce) := init_suite a s rcv in
  let next := getNextTrafficSecret (suite_Hash s) trafficSecret in
  Ok (mkAEAD su (keyPhase a) (largestAcked a) (keyUpdateInterval a) (prevRcvAEADExpiry a) (prevRcvAEAD a)
    (firstRcvdWithCurrentKey a) (firstSentWithCurrentKey a) (numRcvdWithCurrentKey a) (numSentWithCurrentKey a)
    (Some rcv) (sendAEAD a) overhead (Some (createAEAD s next)) (nextSendAEAD a) next (nextSendTrafficSecret a)
    (Some hd) (headerEncrypter a) nonce).
Definition up_SetWriteKey (a : updatableAEAD) (s : CipherSuiteTLS13) (trafficSecret : list Z) : outcome updatableAEAD :=
  let send := createAEAD s trafficSecret in
  he ← newHeaderProtector s trafficSecret false;
  let '(su, overhead, nonce) := init_suite a s send in
  let next := getNextTrafficSecret (suite_Hash s) trafficSecret in
  Ok (mkAEAD su (keyPhase a) (largestAcked a) (keyUpdateInterval a) (prevRcvAEADExpiry a) (prevRcvAEAD a)
    (firstRcvdWithCurrentKey a) (firstSentWithCurrentKey a) (numRcvdWithCurrentKey a) (numSentWithCurrentKey a)
    (rcvAEAD a) (Some send) overhead (nextRcvAEAD a) (Some (createAEAD s next)) (nextRcvTrafficSecret a) next
    (headerDecrypter a) (Some he) nonce).

Definition set_prev (a : updatableAEAD) (expiry : Z) (prev : option cipherAEAD) : updatableAEAD :=
  mkAEAD (suite a) (keyPhase a) (largestAcked a) (keyUpdateInterval a) expiry prev
    (firstRcvdWithCurrentKey a) (firstSentWithCurrentKey a) (numRcvdWithCurrentKey a) (numSentWithCurrentKey a)
    (rcvAEAD a) (sendAEAD a) (aeadOverhead a) (nextRcvAEAD a) (nextSendAEAD a) (nextRcvTrafficSecret a) (nextSendTrafficSecret a)
    (headerDecrypter a) (headerEncrypter a) (nonceBuf a).
Definition set_rcvd (a : updatableAEAD) (first num : Z) : updatableAEAD :=
  mkAEAD (suite a) (keyPhase a) (largestAcked a) (keyUpdateInterval a) (prevRcvAEADExpiry a) (prevRcvAEAD a)
    first (firstSentWithCurrentKey a) num (numSentWithCurrentKey a)
    (rcvAEAD a) (sendAEAD a) (aeadOverhead a) (nextRcvAEAD a) (nextSendAEAD a) (nextRcvTrafficSecret a) (nextSendTrafficSecret a)
    (headerDecrypter a) (headerEncrypter a) (nonceBuf a).
Definition set_sent (a : updatableAEAD) (first num : Z) : updatableAEAD :=
  mkAEAD (suite a) (keyPhase a) (largestAcked a) (keyUpdateInterval a) (prevRcvAEADExpiry a) (prevRcvAEAD a)
    (firstRcvdWithCurrentKey a) first (numRcvdWithCurrentKey a) num
    (rcvAEAD a) (sendAEAD a) (aeadOverhead a) (nextRcvAEAD a) (nextSendAEAD a) (nextRcvTrafficSecret a) (nextSendTrafficSecret a)
    (headerDecrypter a) (headerEncrypter a) (nonceBuf a).
Definition set_nonce (a : updatableAEAD) (nonce : list Z) : updatableAEAD :=
  mkAEAD (suite a) (keyPhase a) (largestAcked a) (keyUpdateInterval a) (prevRcvAEADExpiry a) (prevRcvAEAD a)
    (firstRcvdWithCurrentKey a) (firstSentWithCurrentKey a) (numRcvdWithCurrentKey a) (numSentWithCurrentKey a)
    (rcvAEAD a) (sendAEAD a) (aeadOverhead a) (nextRcvAEAD a) (nextSendAEAD a) (nextRcvTrafficSecret a) (nextSendTrafficSecret a)
    (headerDecrypter a) (headerEncrypter a) nonce.

(** A call of [Open] on an AEAD that may be nil. *)
Definition open_with (aead : option cipherAEAD) (nonce src ad : list Z) : outcome (list Z) :=
  match aead with
  | None => Panic "nil pointer dereference"
  | Some k => match aead_Open k nonce src ad with Some dec => Ok dec | None => Err ErrDecryptionFailed end
  end.
Definition up_Open (a : updatableAEAD) (rttStats : RTTStats) (src : list Z) (rcvTime pn : Z) (kp : bool) (ad : list Z)
    : updatableAEAD * outcome (list Z) :=
  let a := match prevRcvAEAD a with
           | Some _ => if After rcvTime (prevRcvAEADExpiry a) then set_prev a time_zero None else a
           | None => a
           end in
  match put_nonce (nonceBuf a) pn with
  | Err e => (a, Err e)
  | Panic m => (a, Panic m)
  | Ok nonce =>
      let a := set_nonce a nonce in
      if negb (eqb kp (KeyPhase_Bit (keyPhase a))) then
        if (firstRcvdWithCurrentKey a =? InvalidPacketNumber) || (pn <? firstRcvdWithCurrentKey a) then
          if keyPhase a =? 0 then (a, Err (QuicError ProtocolViolation (Errorf "wrong initial keyphase" [])))
          else match prevRcvAEAD a with
               | None => (a, Err ErrKeysDropped)
               | Some k => (a, open_with (Some k) nonce src ad)
               end
        else
          match open_with (nextRcvAEAD a) nonce src ad with
          | Ok dec =>
              if firstSentWithCurrentKey a =? InvalidPacketNumber
              then (a, Err (QuicError ProtocolViolation (Errorf "keys updated too quickly" [])))
              else match rollKeys a rttStats rcvTime with
                   | Ok a => (set_rcvd a pn (numRcvdWithCurrentKey a), Ok dec)
                   | Err e => (a, Err e)
                   | Panic m => (a, Panic m)
                   end
          | r => (a, r)
          end
      else
        match open_with (rcvAEAD a) nonce src ad with
        | Ok dec =>
            (set_rcvd a (if firstRcvdWithCurrentKey a =? InvalidPacketNumber then pn else firstRcvdWithCurrentKey a)
               (u64 (numRcvdWithCurrentKey a + 1)), Ok dec)
        | r => (a, r)
        end
  end.

Definition up_Seal (a : updatableAEAD) (src : list Z) (pn : Z) (ad : list Z) : outcome (updatableAEAD * list Z) :=
  let first := if firstSentWithCurrentKey a =? InvalidPacketNumber then pn else firstSentWithCurrentKey a in
  let a := set_sent a first (u64 (numSentWithCurrentKey a + 1)) in
  nonce ← put_nonce (nonceBuf a) pn;
  match sendAEAD a with
  | None => Panic "nil pointer dereference"
  | Some k => Ok (set_nonce a nonce, aead_Seal k nonce src ad)
  end.

Definition SetLargestAcked (a : updatableAEAD) (pn : Z) : updatableAEAD :=
  mkAEAD (suite a) (keyPhase a) pn (keyUpdateInterval a) (prevRcvAEADExpiry a) (prevRcvAEAD a)
    (firstRcvdWithCurrentKey a) (firstSentWithCurrentKey a) (numRcvdWithCurrentKey a) (numSentWithCurrentKey a)
    (rcvAEAD a) (sendAEAD a) (aeadOverhead a) (nextRcvAEAD a) (nextSendAEAD a) (nextRcvTrafficSecret a) (nextSendTrafficSecret a)
    (headerDecrypter a) (headerEncrypter a) (nonceBuf a).
Definition updateAllowed (a : updatableAEAD) : bool :=
  negb (firstSentWithCurrentKey a =? InvalidPacketNumber) && negb (largestAcked a =? InvalidPacketNumber)
  && (firstSentWithCurrentKey a <=? largestAcked a).
Definition shouldInitiateKeyUpdate (a : updatableAEAD) : bool :=
  updateAllowed a
  && ((keyUpdateInterval a <=? numRcvdWithCurrentKey a) || (keyUpdateInterval a <=? numSentWithCurrentKey a)).
(** [KeyPhase] at time [now]. *)
Definition up_KeyPhase (a : updatableAEAD) (rttStats : RTTStats) (now : Z) : outcome (updatableAEAD * bool) :=
  a ← (if shouldInitiateKeyUpdate a then rollKeys a rttStats now else Ok a);
  Ok (a, KeyPhase_Bit (keyPhase a)).
Definition up_Overhead (a : updatableAEAD) : Z := aeadOverhead a.
Definition up_EncryptHeader (a : updatableAEAD) (sample : list Z) (firstByte : Z) (hdrBytes : list Z) : outcome (Z * list Z) :=
  match headerEncrypter a with None => Panic "nil pointer dereference" | Some p => hp_EncryptHeader p sample firstByte hdrBytes end.
Definition up_DecryptHeader (a : updatableAEAD) (sample : list Z) (firstByte : Z) (hdrBytes : list Z) : outcome (Z * list Z) :=
  match headerDecrypter a with None => Panic "nil pointer dereference" | Some p => hp_DecryptHeader p sample firstByte hdrBytes end.
End Updatable.
