(* ===== verification/KeyUpdateSpec.v ===== *)
(** KeyUpdateSpec: two endpoints that update their keys stay in step.  Whatever
    the network does to their packets, a packet is opened with the key it was
    sealed with. *)

From S2P Require Import Prelude Utils Protocol Frames GoFloat Rtt Protection KeyUpdate.

(** * One endpoint *)

(** What the code relies on: an AEAD opens what it sealed. *)
Class QTLSOk `{QTLS} : Prop := {
  seal_open k nonce src ad : aead_Open k nonce (aead_Seal k nonce src ad) ad = Some src;
  seal_len k nonce src ad : len (aead_Seal k nonce src ad) = len src + aead_Overhead k }.

Section Keys.
Context `{QTLSOk} (su : CipherSuiteTLS13) (ns : Z).

(** The secrets and keys that follow from a first secret. *)
Definition phase_secret (secret : list Z) (n : Z) : list Z :=
  Nat.iter (Z.to_nat n) (getNextTrafficSecret (suite_Hash su)) secret.
Definition phase_key (secret : list Z) (n : Z) : cipherAEAD := createAEAD su (phase_secret secret n).
Lemma phase_secret_next secret n : 0 <= n →
  getNextTrafficSecret (suite_Hash su) (phase_secret secret n) = phase_secret secret (n + 1).
Proof. intros Hn. unfold phase_secret. replace (Z.to_nat (n + 1)) with (S (Z.to_nat n)) by lia. done. Qed.

Definition nonce (pn : Z) : list Z := replicate (Z.to_nat ns - 8) 0 ++ be64 (u64 pn).
(** The keys are those of the current phase. *)
Record keys_ok (rsec ssec : list Z) (a : updatableAEAD) : Prop := mkKeysOk {
  ko_suite : suite a = Some su;
  ko_phase : 0 <= keyPhase a;
  ko_rcv : rcvAEAD a = Some (phase_key rsec (keyPhase a));
  ko_send : sendAEAD a = Some (phase_key ssec (keyPhase a));
  ko_nextRcv : nextRcvAEAD a = Some (phase_key rsec (keyPhase a + 1));
  ko_nextSend : nextSendAEAD a = Some (phase_key ssec (keyPhase a + 1));
  ko_secRcv : nextRcvTrafficSecret a = phase_secret rsec (keyPhase a + 1);
  ko_secSend : nextSendTrafficSecret a = phase_secret ssec (keyPhase a + 1);
  ko_prev : prevRcvAEAD a = None ∨ 1 <= keyPhase a ∧ prevRcvAEAD a = Some (phase_key rsec (keyPhase a - 1));
  ko_nonce : ∃ l, nonceBuf a = replicate (Z.to_nat ns - 8) 0 ++ l ∧ length l = 8%nat }.

Lemma roll_spec rsec ssec a rtt now : keys_ok rsec ssec a → keyPhase a + 1 < 2 ^ 64 →
  ∃ a', rollKeys a rtt now = Ok a' ∧ keys_ok rsec ssec a' ∧ keyPhase a' = keyPhase a + 1 ∧ largestAcked a' = largestAcked a
    ∧ firstRcvdWithCurrentKey a' = -1 ∧ firstSentWithCurrentKey a' = -1.
Proof.
  intros [K1 K2 K3 K4 K5 K6 K7 K8 K9 K10] Hp. unfold rollKeys. rewrite K1, u64_small by lia. eexists. split; [done|].
  split; [|done]. split; cbn; try done; [lia|..]; rewrite ?K7, ?K8, ?phase_secret_next by lia; try done.
  right. split; [lia|]. by replace (keyPhase a + 1 - 1) with (keyPhase a) by lia.
Qed.
Lemma put_nonce_ok rsec ssec a pn : keys_ok rsec ssec a → put_nonce (nonceBuf a) pn = Ok (nonce pn).
Proof.
  intros [_ _ _ _ _ _ _ _ _ (l & E & Hl)]. unfold put_nonce. rewrite E. rewrite (proj2 (Z.ltb_ge _ _)).
  - rewrite length_app, Hl, Nat.add_sub. by rewrite take_app_length.
  - rewrite len_app. unfold len at 2. rewrite Hl. pose proof (len_nonneg (replicate (Z.to_nat ns - 8) 0)). lia.
Qed.
Lemma keys_ok_nonce rsec ssec a pn : keys_ok rsec ssec a → keys_ok rsec ssec (set_nonce a (nonce pn)).
Proof. intros []. split; try done. cbn. by exists (be64 (u64 pn)). Qed.

(** Sealing uses the key of the current phase. *)
Lemma seal_spec rsec ssec a src pn ad : keys_ok rsec ssec a →
  ∃ a', up_Seal a src pn ad = Ok (a', aead_Seal (phase_key ssec (keyPhase a)) (nonce pn) src ad)
    ∧ keys_ok rsec ssec a' ∧ keyPhase a' = keyPhase a ∧ largestAcked a' = largestAcked a
    ∧ firstRcvdWithCurrentKey a' = firstRcvdWithCurrentKey a
    ∧ firstSentWithCurrentKey a' = if firstSentWithCurrentKey a =? -1 then pn else firstSentWithCurrentKey a.
Proof.
  intros Hk. unfold up_Seal. set (a1 := set_sent a _ _).
  assert (Hk1 : keys_ok rsec ssec a1) by (destruct Hk; by split). rewrite (put_nonce_ok _ _ _ pn Hk1). cbn [mbind outcome_bind].
  rewrite (ko_send _ _ _ Hk1). exists (set_nonce a1 (nonce pn)). split; [done|]. split; [by apply keys_ok_nonce|]. by unfold a1.
Qed.

(** Keys of different phases do not open each other's packets. *)
Definition separated (secret : list Z) : Prop :=
  ∀ i j n src ad, 0 <= i → 0 <= j → i ≠ j → aead_Open (phase_key secret i) n (aead_Seal (phase_key secret j) n src ad) ad = None.

Lemma bit_parity m n : 0 <= m → 0 <= n → eqb (KeyPhase_Bit m) (KeyPhase_Bit n) = bool_decide (m mod 2 = n mod 2).
Proof.
  intros Hm Hn. unfold KeyPhase_Bit. pose proof (Z.mod_pos_bound m 2 ltac:(lia)). pose proof (Z.mod_pos_bound n 2 ltac:(lia)).
  destruct (Z.eqb_spec (m mod 2) 1), (Z.eqb_spec (n mod 2) 1); cbn; symmetry;
    first [apply bool_decide_eq_true_2; lia|apply bool_decide_eq_false_2; lia].
Qed.

(** Nothing that matters to the other endpoint changed. *)
Definition same_state (a a' : updatableAEAD) : Prop :=
  keyPhase a' = keyPhase a ∧ firstSentWithCurrentKey a' = firstSentWithCurrentKey a
  ∧ firstRcvdWithCurrentKey a' = firstRcvdWithCurrentKey a.
(** A packet sealed in phase [m] arrives in phase [n]. *)
Lemma open_spec rsec ssec a rtt t m src pn ad :
  let n := keyPhase a in
  keys_ok rsec ssec a → separated rsec → n + 1 < 2 ^ 64 → 0 <= m <= n + 1 → 0 <= pn →
  (m = n + 1 → firstRcvdWithCurrentKey a ≠ -1 ∧ firstRcvdWithCurrentKey a <= pn ∧ firstSentWithCurrentKey a ≠ -1) →
  (m < n → firstRcvdWithCurrentKey a = -1 ∨ pn < firstRcvdWithCurrentKey a) →
  ∃ a' r, up_Open a rtt (aead_Seal (phase_key rsec m) (nonce pn) src ad) t pn (KeyPhase_Bit m) ad = (a', r)
    ∧ keys_ok rsec ssec a' ∧ largestAcked a' = largestAcked a
    ∧ ((m = n ∧ r = Ok src ∧ keyPhase a' = n ∧ firstSentWithCurrentKey a' = firstSentWithCurrentKey a
          ∧ firstRcvdWithCurrentKey a' = if firstRcvdWithCurrentKey a =? -1 then pn else firstRcvdWithCurrentKey a)
       ∨ (m = n + 1 ∧ r = Ok src ∧ keyPhase a' = n + 1 ∧ firstSentWithCurrentKey a' = -1 ∧ firstRcvdWithCurrentKey a' = pn)
       ∨ (m = n - 1 ∧ r = Ok src ∧ same_state a a')
       ∨ (m < n ∧ (r = Err ErrKeysDropped ∨ m < n - 1 ∧ r = Err ErrDecryptionFailed) ∧ same_state a a')).
Proof.
  intros n Hk Hsep Hn Hm Hpn Hahead Hbehind. unfold up_Open.
  set (a1 := match prevRcvAEAD a with Some _ => _ | None => _ end).
  assert (Ha1 : keys_ok rsec ssec a1 ∧ largestAcked a1 = largestAcked a ∧ same_state a a1).
  { unfold a1. destruct (prevRcvAEAD a) eqn:E; [|done]. destruct (After t (prevRcvAEADExpiry a)); [|done].
    split; [|done]. destruct Hk. split; try done. by left. }
  destruct Ha1 as (Hk1 & Hl1 & Hp1 & Hs1 & Hr1). rewrite (put_nonce_ok _ _ _ pn Hk1).
  apply (keys_ok_nonce _ _ _ pn) in Hk1. set (a2 := set_nonce a1 (nonce pn)) in *.
  change (largestAcked a1) with (largestAcked a2) in Hl1. change (keyPhase a1) with (keyPhase a2) in Hp1.
  change (firstSentWithCurrentKey a1) with (firstSentWithCurrentKey a2) in Hs1.
  change (firstRcvdWithCurrentKey a1) with (firstRcvdWithCurrentKey a2) in Hr1. clearbody a2.
  assert (Hopen : ∀ i, 0 <= i → open_with (Some (phase_key rsec i)) (nonce pn) (aead_Seal (phase_key rsec m) (nonce pn) src ad) ad
    = if decide (i = m) then Ok src else Err ErrDecryptionFailed).
  { intros i Hi. unfold open_with. case_decide as E; [subst i; by rewrite seal_open|]. rewrite Hsep; [done|lia|lia|done]. }
  assert (Hn0 : 0 <= n) by (destruct Hk; done). rewrite Hp1, bit_parity by lia. fold n.
  assert (Hpar : bool_decide (m mod 2 = n mod 2) = true → m ≠ n + 1).
  { intros E%bool_decide_eq_true ->. rewrite Z.add_mod in E by lia.
    assert (Hb := Z.mod_pos_bound n 2 ltac:(lia)). assert (n mod 2 = 0 ∨ n mod 2 = 1) as [E'|E'] by lia; rewrite E' in E; discriminate E. }
  assert (Hpar' : bool_decide (m mod 2 = n mod 2) = false → m ≠ n) by (intros E%bool_decide_eq_false ->; done).
  destruct (bool_decide (m mod 2 = n mod 2)) eqn:Eb; cbn [negb].
  - specialize (Hpar eq_refl). rewrite (ko_rcv _ _ _ Hk1), Hp1, Hopen by lia. fold n. destruct (decide (n = m)) as [E|E].
    + do 2 eexists. split; [done|]. split; [destruct Hk1; by split|]. split; [done|]. left. cbn. unfold InvalidPacketNumber.
      rewrite Hr1. done.
    + do 2 eexists. split; [done|]. split; [done|]. split; [done|]. right. right. right. split; [lia|]. split; [|done].
      right. split; [|done]. assert (m ≠ n - 1); [|lia]. intros ->. apply bool_decide_eq_true in Eb.
      rewrite Zminus_mod in Eb. assert (Hb := Z.mod_pos_bound n 2 ltac:(lia)).
      assert (n mod 2 = 0 ∨ n mod 2 = 1) as [E'|E'] by lia; rewrite E' in Eb; discriminate Eb.
  - specialize (Hpar' eq_refl). unfold InvalidPacketNumber. rewrite Hr1, Hs1.
    destruct (decide (m = n + 1)) as [->|Hlt].
    + destruct (Hahead eq_refl) as (A1 & A2 & A3). rewrite (proj2 (Z.eqb_neq _ _) A1), (proj2 (Z.ltb_ge _ _) A2). cbn [orb].
      rewrite (ko_nextRcv _ _ _ Hk1), Hp1, Hopen by lia. fold n. rewrite decide_True by done.
      rewrite (proj2 (Z.eqb_neq _ _) A3).
      destruct (roll_spec rsec ssec a2 rtt t Hk1) as (a3 & E & Hk3 & H1 & H2 & H3 & H4); [by rewrite Hp1|]. rewrite E.
      do 2 eexists. split; [done|]. split; [destruct Hk3; by split|]. split; [cbn; congruence|]. right. left. cbn. rewrite H1, Hp1. done.
    + assert (m < n) as Hmn by lia. assert ((firstRcvdWithCurrentKey a =? -1) || (pn <? firstRcvdWithCurrentKey a) = true) as ->.
      { apply orb_true_iff. destruct (Hbehind Hmn); [left; lia|right; lia]. }
      rewrite (proj2 (Z.eqb_neq n 0)) by lia.
      destruct (ko_prev _ _ _ Hk1) as [-> | [_ ->]].
      * do 2 eexists. split; [done|]. split; [done|]. split; [done|]. right. right. right. split; [done|]. split; [by left|done].
      * rewrite Hp1, Hopen by lia. fold n. destruct (decide (n - 1 = m)) as [E|E]; do 2 eexists; (split; [done|]); (split; [done|]); (split; [done|]).
        -- right. right. left. done.
        -- right. right. right. split; [done|]. split; [|done]. right. split; [lia|done].
Qed.
End Keys.

(** * Two endpoints *)

Section System.
Context `{QTLSOk} (su : CipherSuiteTLS13) (ns : Z) (sec : bool → list Z).

(** A packet on its way; the phase it was sealed in, its plaintext and the largest
    packet number its ACK frame acknowledges are what the receiver finds out. *)
Record packet := mkPacket {
  p_pn : Z; p_kp : bool; p_ad : list Z; p_data : list Z; p_phase : Z; p_src : list Z; p_ack : option Z }.
Record endpoint := mkEndpoint { ep_aead : updatableAEAD; ep_next : Z; ep_rcvd : list Z }.
(** The endpoints [false] and [true], and the packets each has sent. *)
Record system := mkSystem { ep : bool → endpoint; net : bool → list packet }.
Definition upd {A} (f : bool → A) (x : bool) (v : A) : bool → A := λ y, if eqb x y then v else f y.

Definition initial_endpoint (a : updatableAEAD) : endpoint := mkEndpoint a 0 [].
(** The packer asks for the key phase and seals; packet numbers may be skipped,
    and an ACK frame acknowledges packets that were received. *)
Definition send (s : system) (x : bool) (src ad : list Z) (skip : Z) (ack : option Z) (rtt : RTTStats) (now : Z) : outcome system :=
  let e := ep s x in
  '(a, kp) ← up_KeyPhase (ep_aead e) rtt now;
  let pn := ep_next e + Z.max 0 skip in
  let ack := match ack with Some k => if bool_decide (k ∈ ep_rcvd e) then Some k else None | None => None end in
  '(a', data) ← up_Seal a src pn ad;
  Ok (mkSystem (upd (ep s) x (mkEndpoint a' (pn + 1) (ep_rcvd e)))
        (upd (net s) x (net s x ++ [mkPacket pn kp ad data (keyPhase a) src ack]))).
(** The network delivers any packet the other side has sent, at any time. *)
Definition open_packet (s : system) (x : bool) (p : packet) (rtt : RTTStats) (t : Z) : updatableAEAD * outcome (list Z) :=
  up_Open (ep_aead (ep s x)) rtt (p_data p) t (p_pn p) (p_kp p) (p_ad p).
Definition receive (s : system) (x : bool) (i : nat) (rtt : RTTStats) (t : Z) : outcome system :=
  match net s (negb x) !! i with
  | None => Ok s
  | Some p =>
      let e := ep s x in
      match open_packet s x p rtt t with
      | (a, Ok _) =>
          let a := match p_ack p with Some k => SetLargestAcked a k | None => a end in
          Ok (mkSystem (upd (ep s) x (mkEndpoint a (ep_next e) (p_pn p :: ep_rcvd e))) (net s))
      | (a, Err _) => Ok (mkSystem (upd (ep s) x (mkEndpoint a (ep_next e) (ep_rcvd e))) (net s))
      | (_, Panic m) => Panic m
      end
  end.
Inductive net_op :=
  | OpSend (x : bool) (src ad : list Z) (skip : Z) (ack : option Z) (rtt : RTTStats) (now : Z)
  | OpReceive (x : bool) (i : nat) (rtt : RTTStats) (t : Z).
Definition net_step (s : system) (o : net_op) : outcome system :=
  match o with
  | OpSend x src ad skip ack rtt now => send s x src ad skip ack rtt now
  | OpReceive x i rtt t => receive s x i rtt t
  end.
Fixpoint net_run (s : system) (ops : list net_op) : outcome system :=
  match ops with [] => Ok s | o :: ops => s ← net_step s o; net_run s ops end.

Definition phase (s : system) (x : bool) : Z := keyPhase (ep_aead (ep s x)).
Definition first_rcvd (s : system) (x : bool) : Z := firstRcvdWithCurrentKey (ep_aead (ep s x)).
Definition first_sent (s : system) (x : bool) : Z := firstSentWithCurrentKey (ep_aead (ep s x)).

Definition sealed (x : bool) (p : packet) : Prop :=
  p_data p = aead_Seal (phase_key su (sec x) (p_phase p)) (nonce ns (p_pn p)) (p_src p) (p_ad p) ∧ p_kp p = KeyPhase_Bit (p_phase p).

Record sys_inv (bound : Z) (s : system) : Prop := mkSysInv {
  si_keys x : keys_ok su ns (sec (negb x)) (sec x) (ep_aead (ep s x));
  si_bound x : phase s x <= bound;
  si_net x p : p ∈ net s x → sealed x p ∧ 0 <= p_pn p < ep_next (ep s x) ∧ 0 <= p_phase p <= phase s x;
  si_next x : 0 <= ep_next (ep s x);
  (* later phases have larger packet numbers *)
  si_mono x p q : p ∈ net s x → q ∈ net s x → p_phase p < p_phase q → p_pn p < p_pn q;
  (* the first packet sent in the current phase *)
  si_unsent x : first_sent s x = -1 → ∀ p, p ∈ net s x → p_phase p < phase s x;
  si_sent x : first_sent s x ≠ -1 → (∃ p, p ∈ net s x ∧ p_phase p = phase s x) ∧
     ∀ p, p ∈ net s x → first_sent s x <= p_pn p → p_phase p = phase s x;
  (* what was received, and the first packet received in the current phase *)
  si_rcvd x k : k ∈ ep_rcvd (ep s x) → ∃ p, p ∈ net s (negb x) ∧ p_pn p = k ∧ p_phase p <= phase s x ∧
     (first_rcvd s x = -1 → p_phase p < phase s x);
  si_first x : first_rcvd s x ≠ -1 → ∃ p, p ∈ net s (negb x) ∧ p_pn p = first_rcvd s x ∧ p_phase p = phase s x;
  (* acknowledgements: the packet was received, and acknowledged in its phase or later *)
  si_ack x q k : q ∈ net s x → p_ack q = Some k → k ∈ ep_rcvd (ep s x) ∧
     ∃ p, p ∈ net s (negb x) ∧ p_pn p = k ∧ p_phase p <= p_phase q;
  si_largest x : largestAcked (ep_aead (ep s x)) ≠ -1 →
     ∃ p q, p ∈ net s x ∧ p_pn p = largestAcked (ep_aead (ep s x)) ∧ largestAcked (ep_aead (ep s x)) ∈ ep_rcvd (ep s (negb x)) ∧
       q ∈ net s (negb x) ∧ p_phase p <= p_phase q <= phase s x;
  (* nobody is ahead by more than one phase, and then the other one can follow *)
  si_ahead x : phase s x <= phase s (negb x) + 1;
  si_follow x : phase s x = phase s (negb x) + 1 → first_rcvd s (negb x) ≠ -1 ∧ first_sent s (negb x) ≠ -1 }.

Definition set_aead (s : system) (x : bool) (a : updatableAEAD) : system :=
  mkSystem (upd (ep s) x (mkEndpoint a (ep_next (ep s x)) (ep_rcvd (ep s x)))) (net s).
Lemma upd_same {A} (f : bool → A) x v : upd f x v x = v.
Proof. unfold upd. by rewrite eqb_reflx. Qed.
Lemma upd_other {A} (f : bool → A) x v : upd f x v (negb x) = f (negb x).
Proof. unfold upd. by destruct x. Qed.
Lemma bool_sides (P : bool → Prop) x : P x → P (negb x) → ∀ y, P y.
Proof. intros H1 H2 y. by destruct x, y. Qed.
Ltac sides x := match goal with |- ∀ y : bool, @?P y => refine (bool_sides P x _ _); cbv beta end; unfold phase, first_rcvd, first_sent in *; cbn [ep net set_aead];
  rewrite ?negb_involutive, ?upd_same, ?upd_other; cbn [ep_aead ep_next ep_rcvd].

Ltac other H := let T := fresh "T" in pose proof H as T; rewrite ?negb_involutive in T; exact T.

Lemma sys_inv_ext b b' s s' : b <= b' → (∀ y, ep s' y = ep s y) → (∀ y, net s' y = net s y) → sys_inv b s → sys_inv b' s'.
Proof.
  intros Hb E N [I1 I2 I3 I4 I5 I6 I7 I8 I9 I10 I11 I12 I13].
  split; unfold phase, first_rcvd, first_sent in *; intros y; rewrite ?E, ?N; eauto. specialize (I2 y). lia.
Qed.
(** An endpoint that the other one has caught up with moves to the next phase. *)
Lemma inv_roll b s x a : sys_inv b s → keys_ok su ns (sec (negb x)) (sec x) a → keyPhase a = phase s x + 1 →
  largestAcked a = largestAcked (ep_aead (ep s x)) → firstRcvdWithCurrentKey a = -1 → firstSentWithCurrentKey a = -1 →
  phase s x <= phase s (negb x) →
  (phase s x = phase s (negb x) → first_rcvd s (negb x) ≠ -1 ∧ first_sent s (negb x) ≠ -1) →
  sys_inv (b + 1) (set_aead s x a).
Proof.
  intros HI Hk Hph Hla Hfr Hfs Hle Hfol. pose proof (si_bound _ _ HI x) as Hbx. pose proof (si_bound _ _ HI (negb x)) as Hby. split.
  - sides x; [done|other (si_keys _ _ HI (negb x))].
  - sides x; lia.
  - sides x; intros p Hp; destruct (si_net _ _ HI _ p Hp) as (H1 & H2 & H3); unfold phase in *; split_and!; try done; try apply H1; lia.
  - sides x; apply (si_next _ _ HI).
  - intros y. apply (si_mono _ _ HI y).
  - sides x; [|other (si_unsent _ _ HI (negb x))]. intros _ p Hp. destruct (si_net _ _ HI _ p Hp) as (_ & _ & H3). unfold phase in *. lia.
  - sides x; [done|other (si_sent _ _ HI (negb x))].
  - sides x; [|other (si_rcvd _ _ HI (negb x))]. intros k Hr. destruct (si_rcvd _ _ HI x k Hr) as (p & H1 & H2 & H3 & _).
    exists p. unfold phase in *. split_and!; [done|done|lia|lia].
  - sides x; [done|other (si_first _ _ HI (negb x))].
  - sides x; [apply (si_ack _ _ HI)|other (si_ack _ _ HI (negb x))].
  - sides x.
    + rewrite Hla. intros Hl. destruct (si_largest _ _ HI x Hl) as (p & q & H1 & H2 & H3 & H4 & H5). exists p, q.
      unfold phase in *. split_and!; try done; lia.
    + intros Hl. destruct (si_largest _ _ HI (negb x) Hl) as (p & q & H1 & H2 & H3 & H4 & H5). rewrite negb_involutive in H3, H4.
      by exists p, q.
  - sides x; [lia|]. pose proof (si_ahead _ _ HI (negb x)) as Ha. rewrite negb_involutive in Ha. unfold phase in *. lia.
  - sides x; [intros E; apply Hfol; lia|]. intros E. pose proof (si_ahead _ _ HI (negb x)) as Ha. rewrite negb_involutive in Ha. unfold phase in *. lia.
Qed.

(** An update that is initiated is one the other endpoint can follow. *)
Lemma update_allowed_follow b s x : sys_inv b s → updateAllowed (ep_aead (ep s x)) = true →
  phase s x <= phase s (negb x) ∧
  (phase s x = phase s (negb x) → first_rcvd s (negb x) ≠ -1 ∧ first_sent s (negb x) ≠ -1).
Proof.
  intros HI Hu. unfold updateAllowed, InvalidPacketNumber in Hu.
  apply andb_true_iff in Hu as [[Hs Hl]%andb_true_iff Hle]. apply negb_true_iff, Z.eqb_neq in Hs, Hl. apply Z.leb_le in Hle.
  destruct (si_largest _ _ HI x Hl) as (p & q & Hp & Epn & Hr & Hq & Hpq).
  destruct (si_sent _ _ HI x Hs) as [_ Hphase]. rewrite <- Epn in Hle. pose proof (Hphase p Hp Hle) as Ep.
  destruct (si_rcvd _ _ HI (negb x) _ Hr) as (p' & Hp' & Epn' & Hle' & Hfirst). rewrite negb_involutive in Hp'.
  pose proof (Hphase p' Hp' ltac:(unfold first_sent; lia)) as Ep'. split; [lia|]. intros E. split.
  - intros F. specialize (Hfirst F). lia.
  - intros F. pose proof (si_unsent _ _ HI (negb x) F q Hq). lia.
Qed.

(** A packet is added to those an endpoint has sent. *)
Lemma add_packet_inv b s x np a rcvd : sys_inv b s →
  keys_ok su ns (sec (negb x)) (sec x) a → keyPhase a = phase s x → largestAcked a = largestAcked (ep_aead (ep s x)) →
  firstRcvdWithCurrentKey a = first_rcvd s x →
  firstSentWithCurrentKey a = (if first_sent s x =? -1 then p_pn np else first_sent s x) →
  sealed x np → p_phase np = phase s x → ep_next (ep s x) <= p_pn np → rcvd = ep_rcvd (ep s x) →
  (∀ k, p_ack np = Some k → k ∈ rcvd) →
  sys_inv b (mkSystem (upd (ep s) x (mkEndpoint a (p_pn np + 1) rcvd)) (upd (net s) x (net s x ++ [np]))).
Proof.
  intros HI Hk Hph Hla Hfr Hfs Hseal Hnp Hpn -> Hack. pose proof (si_next _ _ HI x) as Hnext.
  assert (Hnet : ∀ p, p ∈ net s x → p_pn p < p_pn np).
  { intros p Hp. destruct (si_net _ _ HI x p Hp) as (_ & ? & _). lia. }
  assert (Hin : ∀ p, p ∈ net s x ++ [np] ↔ p ∈ net s x ∨ p = np) by (intros p; rewrite elem_of_app, list_elem_of_singleton; done).
  assert (Hphx : 0 <= phase s x) by apply (ko_phase _ _ _ _ _ (si_keys _ _ HI x)).
  split.
  - sides x; [done|other (si_keys _ _ HI (negb x))].
  - sides x; [rewrite Hph; apply (si_bound _ _ HI)|apply (si_bound _ _ HI (negb x))].
  - sides x; [|apply (si_net _ _ HI (negb x))]. intros p [Hp| ->]%Hin.
    + destruct (si_net _ _ HI x p Hp) as (? & ? & ?). unfold phase in *. split_and!; try done; try apply H1; lia.
    + unfold phase in *. split_and!; try done; try apply Hseal; lia.
  - sides x; [lia|apply (si_next _ _ HI)].
  - sides x; [|apply (si_mono _ _ HI (negb x))]. intros p q [Hp| ->]%Hin [Hq| ->]%Hin Hlt.
    + by apply (si_mono _ _ HI x).
    + by apply Hnet.
    + destruct (si_net _ _ HI x q Hq) as (_ & _ & ?). unfold phase in *. lia.
    + lia.
  - sides x; [|apply (si_unsent _ _ HI (negb x))]. rewrite Hfs. destruct (Z.eqb_spec (firstSentWithCurrentKey (ep_aead (ep s x))) (-1)); lia.
  - sides x; [|apply (si_sent _ _ HI (negb x))]. rewrite Hfs, Hph. intros Hs. split; [exists np; split; [apply Hin; by right|done]|].
    intros p [Hp| ->]%Hin; [|done]. destruct (Z.eqb_spec (firstSentWithCurrentKey (ep_aead (ep s x))) (-1)) as [|Hns].
    + specialize (Hnet p Hp). lia.
    + by apply (si_sent _ _ HI x Hns).
  - sides x.
    + rewrite Hph, Hfr. apply (si_rcvd _ _ HI x).
    + intros k Hr. destruct (si_rcvd _ _ HI (negb x) k Hr) as (p & H1 & H2). rewrite negb_involutive in H1.
      exists p. split; [apply Hin; by left|done].
  - sides x.
    + rewrite Hph, Hfr. apply (si_first _ _ HI x).
    + intros Hf. destruct (si_first _ _ HI (negb x) Hf) as (p & H1 & H2). rewrite negb_involutive in H1.
      exists p. split; [apply Hin; by left|done].
  - sides x.
    + intros q k [Hq| ->]%Hin Hk'; [by apply (si_ack _ _ HI x)|]. specialize (Hack k Hk'). split; [done|].
      destruct (si_rcvd _ _ HI x k Hack) as (p & H1 & H2 & H3 & _). exists p. unfold phase in *. split_and!; [done|done|lia].
    + intros q k Hq Hk'. destruct (si_ack _ _ HI (negb x) q k Hq Hk') as (Hr & p & H1 & H2). rewrite negb_involutive in H1.
      split; [done|]. exists p. split; [apply Hin; by left|done].
  - sides x.
    + rewrite Hla, Hph. intros Hl. destruct (si_largest _ _ HI x Hl) as (p & q & H1 & H2). exists p, q. split; [apply Hin; by left|done].
    + intros Hl. destruct (si_largest _ _ HI (negb x) Hl) as (p & q & H1 & H2 & H3 & H4 & H5). rewrite negb_involutive in H3, H4.
      unfold phase in *. exists p, q. split_and!; [done|done|done|apply Hin; by left|lia|lia].
  - sides x; [rewrite Hph; apply (si_ahead _ _ HI x)|rewrite Hph; other (si_ahead _ _ HI (negb x))].
  - sides x; [rewrite Hph; apply (si_follow _ _ HI x)|]. rewrite Hph, Hfr, Hfs. intros E.
    pose proof (si_follow _ _ HI (negb x)) as Hf. rewrite negb_involutive in Hf. destruct (Hf E) as [F1 F2].
    split; [done|]. unfold first_sent in F2. rewrite (proj2 (Z.eqb_neq _ _) F2). done.
Qed.

(** Sending never fails. *)
Lemma send_inv b s x src ad skip ack rtt now : sys_inv b s → b + 1 < 2 ^ 64 →
  ∃ s', send s x src ad skip ack rtt now = Ok s' ∧ sys_inv (b + 1) s'.
Proof.
  intros HI Hb. unfold send. unfold up_KeyPhase.
  assert (Hroll : ∃ a, (if shouldInitiateKeyUpdate (ep_aead (ep s x)) then rollKeys (ep_aead (ep s x)) rtt now else Ok (ep_aead (ep s x))) = Ok a
    ∧ sys_inv (b + 1) (set_aead s x a)).
  { destruct (shouldInitiateKeyUpdate (ep_aead (ep s x))) eqn:E.
    - unfold shouldInitiateKeyUpdate in E. apply andb_true_iff in E as [E _]. pose proof (si_bound _ _ HI x) as Hbx.
      destruct (roll_spec su ns _ _ _ rtt now (si_keys _ _ HI x)) as (a & Ea & Hk & H1 & H2 & H3 & H4); [unfold phase in Hbx; lia|].
      exists a. split; [done|]. destruct (update_allowed_follow b s x HI E). by eapply inv_roll.
    - exists (ep_aead (ep s x)). split; [done|]. apply (sys_inv_ext b _ s _); [lia| |done|done].
      intros y. cbn. unfold upd. destruct (Bool.eqb_spec x y); [|done]. subst y. by destruct (ep s x). }
  destruct Hroll as (a & E & HI1). rewrite E. cbn [mbind outcome_bind]. clear E HI.
  set (s1 := set_aead s x a) in *. pose proof (si_keys _ _ HI1 x) as Hk.
  assert (Ea : ep_aead (ep s1 x) = a) by (unfold s1; cbn; by rewrite upd_same).
  assert (Enext : ep_next (ep s1 x) = ep_next (ep s x)) by (unfold s1; cbn; by rewrite upd_same).
  assert (Ercv : ep_rcvd (ep s1 x) = ep_rcvd (ep s x)) by (unfold s1; cbn; by rewrite upd_same).
  rewrite Ea in Hk. set (pn := ep_next (ep s x) + Z.max 0 skip).
  destruct (seal_spec su ns _ _ a src pn ad Hk) as (a' & Es & Hk' & S1 & S2 & S3 & S4). rewrite Es. cbn [mbind outcome_bind].
  eexists. split; [done|]. set (np := mkPacket _ _ _ _ _ _ _).
  apply (sys_inv_ext (b + 1) (b + 1) (mkSystem (upd (ep s1) x (mkEndpoint a' (p_pn np + 1) (ep_rcvd (ep s x)))) (upd (net s1) x (net s1 x ++ [np])))); [lia| |done|].
  { intros y. unfold s1, set_aead, upd. cbn. by destruct (eqb x y). }
  assert (Hphase : phase s1 x = keyPhase a) by (unfold phase; by rewrite Ea).
  apply (add_packet_inv (b + 1) s1 x np a' _ HI1).
  - done.
  - by rewrite Hphase.
  - by rewrite Ea.
  - unfold first_rcvd. by rewrite Ea.
  - unfold first_sent. by rewrite Ea.
  - by split.
  - by rewrite Hphase.
  - rewrite Enext. cbn. unfold pn. lia.
  - done.
  - intros k. cbn. destruct ack as [k'|]; [|done]. case_bool_decide; [|done]. by intros [= ->].
Qed.

(** A packet is received without a change of phase. *)
Lemma inv_received b s x a p rcvd : sys_inv b s → p ∈ net s (negb x) → p_phase p <= phase s x →
  keys_ok su ns (sec (negb x)) (sec x) a → keyPhase a = phase s x → firstSentWithCurrentKey a = first_sent s x →
  (firstRcvdWithCurrentKey a = first_rcvd s x ∨ firstRcvdWithCurrentKey a = p_pn p ∧ p_phase p = phase s x) →
  (rcvd = ep_rcvd (ep s x) ∨
   rcvd = p_pn p :: ep_rcvd (ep s x) ∧ (firstRcvdWithCurrentKey a = -1 → p_phase p < phase s x)) →
  (largestAcked a = largestAcked (ep_aead (ep s x)) ∨ p_ack p = Some (largestAcked a)) →
  sys_inv b (mkSystem (upd (ep s) x (mkEndpoint a (ep_next (ep s x)) rcvd)) (net s)).
Proof.
  intros HI Hp Hle Hk Hph Hfs Hfr Hrc Hla. destruct (si_net _ _ HI (negb x) p Hp) as (_ & Hpn & _).
  assert (Hold : ∀ k, k ∈ ep_rcvd (ep s x) → k ∈ rcvd) by (destruct Hrc as [-> | [-> _]]; set_solver).
  split.
  - sides x; [done|other (si_keys _ _ HI (negb x))].
  - sides x; [rewrite Hph; apply (si_bound _ _ HI)|apply (si_bound _ _ HI (negb x))].
  - sides x; [rewrite Hph; apply (si_net _ _ HI x)|apply (si_net _ _ HI (negb x))].
  - sides x; apply (si_next _ _ HI).
  - intros y. apply (si_mono _ _ HI y).
  - sides x; [rewrite Hph, Hfs; apply (si_unsent _ _ HI x)|apply (si_unsent _ _ HI (negb x))].
  - sides x; [rewrite Hph, Hfs; apply (si_sent _ _ HI x)|apply (si_sent _ _ HI (negb x))].
  - sides x; [|other (si_rcvd _ _ HI (negb x))]. intros k Hkr.
    assert (k ∈ ep_rcvd (ep s x) ∨ k = p_pn p ∧ (firstRcvdWithCurrentKey a = -1 → p_phase p < phase s x)) as [Hr|[-> Hr]].
    { destruct Hrc as [-> | [-> ?]]; [by left|]. apply elem_of_cons in Hkr as [->|?]; [by right|by left]. }
    + destruct (si_rcvd _ _ HI x k Hr) as (p' & H1 & H2 & H3 & H4). exists p'. rewrite Hph. split_and!; [done..|].
      intros E. apply H4. unfold first_rcvd in *. destruct Hfr as [Hfr|[Hfr _]]; lia.
    + exists p. rewrite Hph. split_and!; [done|done|done|]. exact Hr.
  - sides x; [|other (si_first _ _ HI (negb x))]. rewrite Hph. destruct Hfr as [-> | [-> E]]; [apply (si_first _ _ HI x)|].
    intros _. by exists p.
  - sides x; [|other (si_ack _ _ HI (negb x))]. intros q k Hq Hkq. destruct (si_ack _ _ HI x q k Hq Hkq) as [H1 H2]. split; [by apply Hold|done].
  - sides x.
    + intros Hl. rewrite Hph. destruct Hla as [Hla|Hla].
      * rewrite Hla in *. by apply (si_largest _ _ HI x).
      * destruct (si_ack _ _ HI (negb x) p _ Hp Hla) as (Hr & p' & H1 & H2 & H3). rewrite negb_involutive in H1.
        exists p', p. by split_and!.
    + intros Hl. destruct (si_largest _ _ HI (negb x) Hl) as (p' & q & H1 & H2 & H3 & H4 & H5). rewrite negb_involutive in H3, H4.
      unfold phase in *. exists p', q. split_and!; [done|done|by apply Hold|done|lia|lia].
  - sides x; [rewrite Hph; apply (si_ahead _ _ HI x)|rewrite Hph; other (si_ahead _ _ HI (negb x))].
  - sides x; [rewrite Hph; apply (si_follow _ _ HI x)|]. rewrite Hph, Hfs. intros E.
    pose proof (si_follow _ _ HI (negb x)) as Hf. rewrite negb_involutive in Hf. destruct (Hf E) as [F1 F2].
    split; [|done]. unfold first_rcvd in *. destruct Hfr as [-> | [-> _]]; [done|lia].
Qed.

(** What opening a packet of phase [m] in phase [n] may give. *)
Definition open_result (m n : Z) (src : list Z) (r : outcome (list Z)) : Prop :=
  m <= n + 1
  ∧ (n <= m → r = Ok src)
  ∧ (m = n - 1 → r = Ok src ∨ r = Err ErrKeysDropped)
  ∧ (m < n - 1 → r = Err ErrKeysDropped ∨ r = Err ErrDecryptionFailed).
Lemma ack_aead rsec ssec a ack : keys_ok su ns rsec ssec a →
  keys_ok su ns rsec ssec (match ack with Some k => SetLargestAcked a k | None => a end).
Proof. destruct ack; [|done]. intros []. by split. Qed.

Lemma receive_spec b s x p rtt t : (∀ y, separated su (sec y)) → sys_inv b s → b + 1 < 2 ^ 64 → p ∈ net s (negb x) →
  ∃ a r, open_packet s x p rtt t = (a, r) ∧ open_result (p_phase p) (phase s x) (p_src p) r ∧
    let a' := match r, p_ack p with Ok _, Some k => SetLargestAcked a k | _, _ => a end in
    let rcvd := match r with Ok _ => p_pn p :: ep_rcvd (ep s x) | _ => ep_rcvd (ep s x) end in
    sys_inv (b + 1) (mkSystem (upd (ep s) x (mkEndpoint a' (ep_next (ep s x)) rcvd)) (net s)).
Proof.
  intros Hsep HI Hb Hp. destruct (si_net _ _ HI (negb x) p Hp) as ([Hdata Hkp] & Hpn & Hphase).
  pose proof (si_bound _ _ HI x) as Hbx. pose proof (si_ahead _ _ HI (negb x)) as Hah. rewrite negb_involutive in Hah.
  unfold open_packet. rewrite Hdata, Hkp.
  destruct (open_spec su ns (sec (negb x)) (sec x) (ep_aead (ep s x)) rtt t (p_phase p) (p_src p) (p_pn p) (p_ad p))
    as (a & r & E & Hk & Hl & Hcase); [apply (si_keys _ _ HI)|done|unfold phase in *; lia|unfold phase in *; lia|lia| | |].
  { intros Em. pose proof (si_follow _ _ HI (negb x)) as Hf. rewrite negb_involutive in Hf.
    destruct Hf as [F1 F2]; [unfold phase in *; lia|]. destruct (si_first _ _ HI x F1) as (f & Hf1 & Hf2 & Hf3).
    split_and!; [done| |done]. unfold first_rcvd in *. rewrite <- Hf2.
    pose proof (si_mono _ _ HI (negb x) f p Hf1 Hp). unfold phase in *. lia. }
  { intros Em. destruct (decide (first_rcvd s x = -1)) as [|F1]; [by left|right].
    destruct (si_first _ _ HI x F1) as (f & Hf1 & Hf2 & Hf3). unfold first_rcvd in *. rewrite <- Hf2.
    apply (si_mono _ _ HI (negb x) p f Hp Hf1). unfold phase in *. lia. }
  exists a, r. split; [done|]. fold (phase s x) in Hcase.
  assert (Hkeep : ∀ a' rcvd, keys_ok su ns (sec (negb x)) (sec x) a' → keyPhase a' = phase s x → p_phase p <= phase s x →
    firstSentWithCurrentKey a' = first_sent s x →
    (firstRcvdWithCurrentKey a' = first_rcvd s x ∨ firstRcvdWithCurrentKey a' = p_pn p ∧ p_phase p = phase s x) →
    (rcvd = ep_rcvd (ep s x) ∨ rcvd = p_pn p :: ep_rcvd (ep s x) ∧ (firstRcvdWithCurrentKey a' = -1 → p_phase p < phase s x)) →
    (largestAcked a' = largestAcked (ep_aead (ep s x)) ∨ p_ack p = Some (largestAcked a')) →
    sys_inv (b + 1) (mkSystem (upd (ep s) x (mkEndpoint a' (ep_next (ep s x)) rcvd)) (net s))).
  { intros a' rcvd K1 K2 K3 K4 K5 K6 K7. eapply (sys_inv_ext b); [lia| | |by eapply inv_received]; done. }
  destruct Hcase as [(Em & -> & H1 & H2 & H3)|[(Em & -> & H1 & H2 & H3)|[(Em & -> & H1 & H2 & H3)|(Em & Hr & H1 & H2 & H3)]]].
  - split; [split_and!; [lia|done|lia|lia]|]. cbv zeta. apply Hkeep; [by apply (ack_aead _ _ a (p_ack p))|by destruct (p_ack p)|lia|by destruct (p_ack p)| | |].
    + assert (E1 : firstRcvdWithCurrentKey (match p_ack p with Some k => SetLargestAcked a k | None => a end) = firstRcvdWithCurrentKey a) by (by destruct (p_ack p)).
      rewrite E1, H3. destruct (Z.eqb_spec (firstRcvdWithCurrentKey (ep_aead (ep s x))) (-1)); [by right|by left].
    + right. split; [done|].
      assert (E1 : firstRcvdWithCurrentKey (match p_ack p with Some k => SetLargestAcked a k | None => a end) = firstRcvdWithCurrentKey a) by (by destruct (p_ack p)).
      rewrite E1, H3. destruct (Z.eqb_spec (firstRcvdWithCurrentKey (ep_aead (ep s x))) (-1)); lia.
    + destruct (p_ack p); [by right|by left].
  - split; [split_and!; [lia|done|lia|lia]|]. cbv zeta.
    set (a0 := set_rcvd a (-1) 0).
    assert (HI1 : sys_inv (b + 1) (set_aead s x a0)).
    { apply inv_roll; [done|destruct Hk; by split|done|done|done|done|lia|lia]. }
    pose proof (inv_received (b + 1) (set_aead s x a0) x (match p_ack p with Some k => SetLargestAcked a k | None => a end) p
      (p_pn p :: ep_rcvd (ep s x)) HI1 Hp) as HR.
    assert (Ex : ep (set_aead s x a0) x = mkEndpoint a0 (ep_next (ep s x)) (ep_rcvd (ep s x))) by (cbn; apply upd_same).
    unfold phase, first_sent, first_rcvd in HR. rewrite Ex in HR. cbn in HR.
    eapply (sys_inv_ext (b + 1)); [lia| | |apply HR]; [|done|lia|by apply (ack_aead _ _ a (p_ack p))|by destruct (p_ack p)|by destruct (p_ack p)| | |].
    + intros y. cbn. unfold upd. by destruct (eqb x y).
    + right. split; [by destruct (p_ack p)|lia].
    + right. split; [done|]. intros E1. assert (firstRcvdWithCurrentKey a = -1) by (by destruct (p_ack p)). lia.
    + destruct (p_ack p); [by right|by left].
  - split; [split_and!; [lia|lia|by left|lia]|]. cbv zeta. apply Hkeep; [by apply (ack_aead _ _ a (p_ack p))|by destruct (p_ack p)|lia|by destruct (p_ack p)| | |].
    + left. by destruct (p_ack p).
    + right. split; [done|]. lia.
    + destruct (p_ack p); [by right|by left].
  - split; [split_and!; [lia|lia|naive_solver lia|naive_solver]|]. cbv zeta.
    destruct Hr as [-> | [_ ->]]; (apply Hkeep; [done|done|lia|done|by left|by left|by left]).
Qed.

Lemma net_step_inv b s o : (∀ y, separated su (sec y)) → sys_inv b s → b + 1 < 2 ^ 64 →
  ∃ s', net_step s o = Ok s' ∧ sys_inv (b + 1) s'.
Proof.
  intros Hsep HI Hb. destruct o as [x src ad skip ack rtt now|x i rtt t]; cbn [net_step]; [by apply send_inv|].
  unfold receive. destruct (net s (negb x) !! i) as [p|] eqn:Hp; [|exists s; split; [done|by eapply sys_inv_ext; [| | |done]; [lia|done..]]].
  apply list_elem_of_lookup_2 in Hp. destruct (receive_spec b s x p rtt t Hsep HI Hb Hp) as (a & r & E & Hres & HI').
  rewrite E. destruct r as [src|e|m]; [by eauto..|]. exfalso. destruct Hres as (H1 & H2 & H3 & H4).
  destruct (decide (phase s x <= p_phase p)) as [Hge|]; [by specialize (H2 Hge)|].
  destruct (decide (p_phase p = phase s x - 1)) as [Hge|]; [by destruct (H3 Hge)|]. destruct H4; [lia|done..].
Qed.
Lemma net_run_inv ops : ∀ b s, (∀ y, separated su (sec y)) → sys_inv b s → b + len ops < 2 ^ 64 →
  ∃ s', net_run s ops = Ok s' ∧ sys_inv (b + len ops) s'.
Proof.
  induction ops as [|o ops IH]; intros b s Hsep HI Hb; [exists s; rewrite len_nil, Z.add_0_r; done|].
  rewrite len_cons in *. pose proof (len_nonneg ops). destruct (net_step_inv b s o Hsep HI ltac:(lia)) as (s1 & E & HI1).
  cbn [net_run]. rewrite E. cbn [mbind outcome_bind]. destruct (IH (b + 1) s1 Hsep HI1 ltac:(lia)) as (s' & E' & HI').
  exists s'. split; [done|]. by replace (b + (1 + len ops)) with (b + 1 + len ops) by lia.
Qed.
End System.

(** The endpoints when the handshake has given them their keys: a client gets
    its read key first, a server its write key. *)
Definition start_aead `{QTLS} (interval : Z) (su : CipherSuiteTLS13) (pers : Perspective) (readSecret writeSecret : list Z) : outcome updatableAEAD :=
  match pers with
  | PerspectiveClient => a ← up_SetReadKey (newUpdatableAEAD interval) su readSecret; up_SetWriteKey a su writeSecret
  | PerspectiveServer => a ← up_SetWriteKey (newUpdatableAEAD interval) su writeSecret; up_SetReadKey a su readSecret
  end.
Lemma start_keys `{QTLSOk} interval su ns pers rsec ssec a : (∀ secret, NonceSize (createAEAD su secret) = ns) → 8 <= ns →
  start_aead interval su pers rsec ssec = Ok a →
  keys_ok su ns rsec ssec a ∧ keyPhase a = 0 ∧ largestAcked a = -1 ∧ firstRcvdWithCurrentKey a = -1 ∧ firstSentWithCurrentKey a = -1.
Proof.
  intros Hns H8 E. assert (Hn : ∃ l, replicate (Z.to_nat ns) 0 = replicate (Z.to_nat ns - 8) 0 ++ l ∧ length l = 8%nat).
  { exists (replicate 8 0). split; [|done]. rewrite <- replicate_add. f_equal. lia. }
  unfold start_aead, up_SetReadKey, up_SetWriteKey in E.
  destruct (newHeaderProtector su rsec false) as [h1| |] eqn:E1, (newHeaderProtector su ssec false) as [h2| |] eqn:E2, pers;
    cbn in E; rewrite ?E1, ?E2 in E; cbn in E; try discriminate E; injection E as <-.
  all: split; [|done]; split; cbn; try done; try (by left); by rewrite Hns.
Qed.

(** C3: two endpoints that hold the same first secrets stay in step.  Whatever the
    network loses, reorders or repeats, and whenever either of them updates its
    keys: sending and receiving never panic; neither is more than one key phase
    ahead; a packet of the receiver's phase or of the next one is always opened, to
    what was sent; one of the phase before is opened unless its key was dropped;
    older packets are rejected; and neither side ever accuses the other of a
    wrong key phase or of updating too quickly. *)
Theorem key_updates_in_step `{QTLSOk} (su : CipherSuiteTLS13) (ns interval : Z) (sec : bool → list Z)
    (client server : updatableAEAD) (ops : list net_op) :
  (∀ y, separated su (sec y)) → (∀ secret, NonceSize (createAEAD su secret) = ns) → 8 <= ns →
  start_aead interval su PerspectiveClient (sec true) (sec false) = Ok client →
  start_aead interval su PerspectiveServer (sec false) (sec true) = Ok server →
  len ops + 1 < 2 ^ 64 →
  ∃ s, net_run (mkSystem (λ x : bool, initial_endpoint (if x then server else client)) (λ _, [])) ops = Ok s
    ∧ (∀ x, phase s x <= phase s (negb x) + 1)
    ∧ ∀ x p rtt t, p ∈ net s (negb x) →
        ∃ a r, open_packet s x p rtt t = (a, r) ∧ open_result (p_phase p) (phase s x) (p_src p) r.
Proof.
  intros Hsep Hns H8 Ec Es Hlen. pose proof (start_keys _ _ _ _ _ _ _ Hns H8 Ec) as (C1 & C2 & C3 & C4 & C5).
  pose proof (start_keys _ _ _ _ _ _ _ Hns H8 Es) as (S1 & S2 & S3 & S4 & S5).
  set (s0 := mkSystem _ _). assert (HI : sys_inv su ns sec 0 s0).
  { split; unfold phase, first_rcvd, first_sent; intros []; cbn [s0 ep net initial_endpoint ep_aead ep_next ep_rcvd negb]; try done;
      try (intros; by match goal with Hp : _ ∈ [] |- _ => apply not_elem_of_nil in Hp end); try lia;
      intros Hx; exfalso; apply Hx; assumption. }
  destruct (net_run_inv su ns sec ops 0 s0 Hsep HI ltac:(lia)) as (s & E & HI'). exists s. split; [done|].
  split; [apply (si_ahead _ _ _ _ _ HI')|]. intros x p rtt t Hp.
  destruct (receive_spec su ns sec _ s x p rtt t Hsep HI' ltac:(lia) Hp) as (a & r & E' & Hr & _). eauto.
Qed.

(** An AEAD whose tag names its key, and a key schedule that counts: enough to
    run the code. *)
Definition counting_tls : QTLS := {|
  cipherAEAD := Z;
  NonceSize := λ _, 12;
  aead_Overhead := λ _, 16;
  aead_Seal := λ k _ src _, src ++ k :: replicate 15 0;
  aead_Open := λ k _ c _, if decide (drop (length c - 16) c = k :: replicate 15 0) then Some (take (length c - 16) c) else None;
  AEADAESGCMTLS13 := λ key _, default 0 (head key);
  cipherBlock := unit;
  aes_NewCipher := λ _, Some tt;
  BlockSize := λ _, 16;
  block_Encrypt := λ _ sample, take 16 (sample ++ replicate 16 0);
  chacha20_XORKeyStream := λ _ _ src, src;
  hash_Size := λ _, 32;
  HkdfExtract := λ _ secret _, [len secret];
  HkdfExpandLabel := λ _ secret _ label _, [default 0 (head secret) + if decide (label = "traffic upd"%string) then 1 else 0] |}.
Lemma counting_ok : @QTLSOk counting_tls.
Proof.
  split; intros k nonce src ad; cbn.
  - rewrite length_app. cbn [length replicate]. rewrite Nat.add_sub. rewrite drop_app_length, take_app_length. by rewrite decide_True.
  - rewrite len_app. change (len (k :: replicate 15 0)) with 16. done.
Qed.
Definition counting_suite : @CipherSuiteTLS13 counting_tls := initialSuite (H := counting_tls).
Lemma counting_next h s : default 0 (head (getNextTrafficSecret (H := counting_tls) h s)) = default 0 (head s) + 1.
Proof. reflexivity. Qed.
Lemma counting_key secret n : 0 <= n → phase_key (H := counting_tls) counting_suite secret n = default 0 (head secret) + n.
Proof.
  intros Hn. change (phase_key counting_suite secret n) with (default 0 (head (phase_secret (H := counting_tls) counting_suite secret n)) + 0).
  rewrite Z.add_0_r. unfold phase_secret. rewrite <- (Z2Nat.id n) at 2 by done. generalize (Z.to_nat n) as k. clear n Hn.
  induction k as [|k IH]; [symmetry; apply Z.add_0_r|]. rewrite Nat.iter_succ, counting_next, IH. lia.
Qed.
Lemma counting_separated secret : separated (H := counting_tls) counting_suite secret.
Proof.
  intros i j n src ad Hi Hj Hij. rewrite !counting_key by done. cbn -[Z.add].
  rewrite length_app. cbn [length replicate]. rewrite Nat.add_sub, drop_app_length, decide_False; [done|]. intros [= E]. lia.
Qed.

(** With an update after every packet: the client updates once its first packet is
    acknowledged, and the server follows. *)
Definition sample_ops : list net_op :=
  [OpSend false [1; 2] [0] 0 None NewRTTStats 10; OpReceive true 0 NewRTTStats 11;
   OpSend true [3] [0] 0 (Some 0) NewRTTStats 12; OpReceive false 0 NewRTTStats 13;
   OpSend false [4; 5] [0] 2 None NewRTTStats 14; OpReceive true 1 NewRTTStats 15; OpReceive true 0 NewRTTStats 16].
Definition sample_secrets (x : bool) : list Z := if x then [100] else [200].
Definition sample_aead (pers : Perspective) (rsec ssec : list Z) : @updatableAEAD counting_tls :=
  match start_aead (H := counting_tls) 1 counting_suite pers rsec ssec with Ok a => a | _ => newUpdatableAEAD (H := counting_tls) 1 end.
Definition sample_system : @system counting_tls :=
  mkSystem (H := counting_tls)
    (λ x : bool, initial_endpoint (H := counting_tls)
       (if x then sample_aead PerspectiveServer [200] [100] else sample_aead PerspectiveClient [100] [200])) (λ _, []).
Lemma key_updates_in_step_witness :
  ∃ s, net_run (H := counting_tls) sample_system sample_ops = Ok s
    ∧ phase (H := counting_tls) s false = 1 ∧ phase (H := counting_tls) s true = 1
    ∧ ∀ x, phase (H := counting_tls) s x <= phase (H := counting_tls) s (negb x) + 1.
Proof.
  pose proof counting_ok as Hok.
  destruct (key_updates_in_step (H := counting_tls) counting_suite 12 1 sample_secrets (sample_aead PerspectiveClient [100] [200])
    (sample_aead PerspectiveServer [200] [100]) sample_ops) as (s & E & Ha & _).
  - intros y. apply counting_separated.
  - reflexivity.
  - lia.
  - vm_compute. reflexivity.
  - vm_compute. reflexivity.
  - reflexivity.
  - exists s. split; [exact E|].
    assert (Hx : match net_run (H := counting_tls) sample_system sample_ops with
      | Ok s => (phase (H := counting_tls) s false, phase (H := counting_tls) s true) | _ => (0, 0) end = (1, 1)) by (vm_compute; reflexivity).
    unfold sample_system in Hx. rewrite E in Hx. injection Hx as H1 H2. exact (conj H1 (conj H2 Ha)).
Defined.
