(* ===== verification/CryptoSetup.v ===== *)
(** CryptoSetup: core/handshake/crypto_setup.go.  Which keys exist, which handshake
    message belongs to which encryption level, and what handling a message waits
    for.  TLS runs in a goroutine of its own: its calls are operations here, and
    what a [select] receives is an argument. *)

From S2P Require Import Prelude Utils Protocol Frames GoFloat Rtt Protection KeyUpdate.

Definition typeClientHello : Z := 1.
Definition typeServerHello : Z := 2.
Definition typeNewSessionTicket : Z := 4.
Definition typeEncryptedExtensions : Z := 8.
Definition typeCertificate : Z := 11.
Definition typeCertificateRequest : Z := 13.
Definition typeCertificateVerify : Z := 15.
Definition typeFinished : Z := 20.
Definition alertUnexpectedMessage : Z := 10.

(** [qtls.EncryptionLevel] *)
Inductive qtlsLevel := QHandshake | QApplication | QOther.
(** Calls on the [handshakeRunner] and signals on channels, in order. *)
Inductive setup_event :=
  | EvDropKeys (l : EncryptionLevel)
  | EvError (alert : Z) (e : goerr)
  | EvReceivedParams (data : list Z)
  | EvReceivedReadKey | EvReceivedWriteKey | EvWriteRecord | EvClientHelloWritten.

Section Setup.
Context `{QTLS}.

Record cryptoSetup := mkSetup {
  cs_perspective : Perspective;
  readEncLevel : EncryptionLevel; writeEncLevel : EncryptionLevel; clientHelloWritten : bool;
  initialOpener : option longHeaderCrypter; initialSealer : option longHeaderCrypter;
  handshakeOpener : option longHeaderCrypter; handshakeSealer : option longHeaderCrypter;
  cs_aead : updatableAEAD; has1RTTSealer : bool; has1RTTOpener : bool }.
Definition newCryptoSetup (connID : list Z) (interval : Z) (perspective : Perspective) : outcome cryptoSetup :=
  '(sealer, opener) ← NewInitialAEAD connID perspective;
  Ok (mkSetup perspective EncryptionInitial EncryptionInitial false (Some opener) (Some sealer) None None
        (newUpdatableAEAD interval) false false).

Definition set_initial (h : cryptoSetup) (opener sealer : option longHeaderCrypter) : cryptoSetup :=
  mkSetup (cs_perspective h) (readEncLevel h) (writeEncLevel h) (clientHelloWritten h) opener sealer
    (handshakeOpener h) (handshakeSealer h) (cs_aead h) (has1RTTSealer h) (has1RTTOpener h).
Definition set_handshake (h : cryptoSetup) (opener sealer : option longHeaderCrypter) : cryptoSetup :=
  mkSetup (cs_perspective h) (readEncLevel h) (writeEncLevel h) (clientHelloWritten h) (initialOpener h) (initialSealer h)
    opener sealer (cs_aead h) (has1RTTSealer h) (has1RTTOpener h).
Definition set_aead_of (h : cryptoSetup) (a : updatableAEAD) (sealer opener : bool) : cryptoSetup :=
  mkSetup (cs_perspective h) (readEncLevel h) (writeEncLevel h) (clientHelloWritten h) (initialOpener h) (initialSealer h)
    (handshakeOpener h) (handshakeSealer h) a sealer opener.
Definition set_levels (h : cryptoSetup) (r w : EncryptionLevel) (ch : bool) : cryptoSetup :=
  mkSetup (cs_perspective h) r w ch (initialOpener h) (initialSealer h)
    (handshakeOpener h) (handshakeSealer h) (cs_aead h) (has1RTTSealer h) (has1RTTOpener h).

Definition ChangeConnectionID (h : cryptoSetup) (id : list Z) : outcome cryptoSetup :=
  '(sealer, opener) ← NewInitialAEAD id (cs_perspective h);
  Ok (set_initial h (Some opener) (Some sealer)).
Definition SetLargest1RTTAcked (h : cryptoSetup) (pn : Z) : cryptoSetup * list setup_event :=
  let h := set_aead_of h (SetLargestAcked (cs_aead h) pn) (has1RTTSealer h) (has1RTTOpener h) in
  let '(h, ev1) := match initialOpener h with
                   | Some _ => (set_initial h None None, [EvDropKeys EncryptionInitial])
                   | None => (h, [])
                   end in
  let '(h, ev2) := match handshakeOpener h with
                   | Some _ => (set_handshake h None None, [EvDropKeys EncryptionHandshake])
                   | None => (h, [])
                   end in
  (h, ev1 ++ ev2).

Definition setup_SetReadKey (h : cryptoSetup) (encLevel : qtlsLevel) (suite : CipherSuiteTLS13) (trafficSecret : list Z)
    : outcome (cryptoSetup * list setup_event) :=
  match encLevel with
  | QHandshake =>
      hp ← newHeaderProtector suite trafficSecret true;
      let h := set_levels h EncryptionHandshake (writeEncLevel h) (clientHelloWritten h) in
      Ok (set_handshake h (Some (newLongHeaderOpener (createAEAD suite trafficSecret) hp)) (handshakeSealer h), [EvReceivedReadKey])
  | QApplication =>
      a ← up_SetReadKey (cs_aead h) suite trafficSecret;
      let h := set_levels h Encryption1RTT (writeEncLevel h) (clientHelloWritten h) in
      Ok (set_aead_of h a (has1RTTSealer h) true, [EvReceivedReadKey])
  | QOther => Panic "unexpected read encryption level"
  end.
Definition setup_SetWriteKey (h : cryptoSetup) (encLevel : qtlsLevel) (suite : CipherSuiteTLS13) (trafficSecret : list Z)
    : outcome (cryptoSetup * list setup_event) :=
  match encLevel with
  | QHandshake =>
      hp ← newHeaderProtector suite trafficSecret true;
      let h := set_levels h (readEncLevel h) EncryptionHandshake (clientHelloWritten h) in
      Ok (set_handshake h (handshakeOpener h) (Some (newLongHeaderSealer (createAEAD suite trafficSecret) hp)), [EvReceivedWriteKey])
  | QApplication =>
      a ← up_SetWriteKey (cs_aead h) suite trafficSecret;
      let h := set_levels h (readEncLevel h) Encryption1RTT (clientHelloWritten h) in
      Ok (set_aead_of h a true (has1RTTOpener h), [EvReceivedWriteKey])
  | QOther => Panic "unexpected write encryption level"
  end.
(** The level of the stream the record is written to, with the signals sent. *)
Definition WriteRecord (h : cryptoSetup) (p : list Z) : outcome (cryptoSetup * EncryptionLevel * list setup_event) :=
  match writeEncLevel h with
  | EncryptionInitial =>
      if negb (clientHelloWritten h) && bool_decide (cs_perspective h = PerspectiveClient)
      then Ok (set_levels h (readEncLevel h) (writeEncLevel h) true, EncryptionInitial, [EvClientHelloWritten])
      else Ok (h, EncryptionInitial, [EvWriteRecord])
  | EncryptionHandshake => Ok (h, EncryptionHandshake, [])
  | _ => Panic "unexpected write encryption level"
  end.

(** Getters.  A sealer or opener is a pointer: what it does to its nonce buffer
    and key phases is written back by its user. *)
Definition GetInitialSealer (h : cryptoSetup) : outcome longHeaderCrypter :=
  match initialSealer h with Some s => Ok s | None => Err ErrKeysDropped end.
Definition GetHandshakeSealer (h : cryptoSetup) : outcome longHeaderCrypter :=
  match handshakeSealer h with
  | Some s => Ok s
  | None => match initialSealer h with
            | None => Err ErrKeysDropped
            | Some _ => Err (Errorf "CryptoSetup: no sealer with encryption level Handshake" [])
            end
  end.
Definition Get1RTTSealer (h : cryptoSetup) : outcome updatableAEAD :=
  if has1RTTSealer h then Ok (cs_aead h) else Err (Errorf "CryptoSetup: no sealer with encryption level 1-RTT" []).
Definition GetInitialOpener (h : cryptoSetup) : outcome longHeaderCrypter :=
  match initialOpener h with Some s => Ok s | None => Err ErrKeysDropped end.
Definition GetHandshakeOpener (h : cryptoSetup) : outcome longHeaderCrypter :=
  match handshakeOpener h with
  | Some s => Ok s
  | None => match initialOpener h with Some _ => Err ErrOpenerNotYetAvailable | None => Err ErrKeysDropped end
  end.
Definition Get1RTTOpener (h : cryptoSetup) : outcome updatableAEAD :=
  if has1RTTOpener h then Ok (cs_aead h) else Err ErrOpenerNotYetAvailable.

(** * Handshake messages *)

Definition checkEncryptionLevel (msgType : Z) (encLevel : EncryptionLevel) : option goerr :=
  let check expected :=
    if bool_decide (encLevel = expected) then None
    else Some (Errorf "expected handshake message %s to have encryption level %s, has %s" [msgType]) in
  if (msgType =? typeClientHello) || (msgType =? typeServerHello) then check EncryptionInitial
  else if (msgType =? typeEncryptedExtensions) || (msgType =? typeCertificate) || (msgType =? typeCertificateRequest)
       || (msgType =? typeCertificateVerify) || (msgType =? typeFinished) then check EncryptionHandshake
  else if msgType =? typeNewSessionTicket then check Encryption1RTT
  else Some (Errorf "unexpected handshake message: %d" [msgType]).

(** What a [select] received. *)
Inductive received := RcvWriteRecord | RcvParams (data : list Z) | RcvReadKey | RcvWriteKey | RcvHandshakeDone.
(** [select { case <-key: ...; case <-h.handshakeDone: return false }]: the next
    channel that was ready goes to [k]; nothing ready, or another channel, is a
    call that still waits ([None]). *)
Definition wait_for (key : received → bool) (rs : list received)
    (k : list received → option (bool * list setup_event)) : option (bool * list setup_event) :=
  match rs with
  | [] => None
  | r :: rs =>
      if key r then k rs else match r with RcvHandshakeDone => Some (false, []) | _ => None end
  end.
Definition is_read_key (r : received) : bool := match r with RcvReadKey => true | _ => false end.
Definition is_write_key (r : received) : bool := match r with RcvWriteKey => true | _ => false end.
Definition finish (_ : list received) : option (bool * list setup_event) := Some (true, []).

Definition handleMessageForServer (msgType : Z) (rs : list received) : option (bool * list setup_event) :=
  if msgType =? typeClientHello then
    match rs with
    | RcvWriteRecord :: _ => Some (false, [])
    | RcvParams data :: rs =>
        '(b, ev) ← wait_for is_read_key rs (λ rs, wait_for is_write_key rs (λ rs, wait_for is_write_key rs finish));
        Some (b, EvReceivedParams data :: ev)
    | RcvHandshakeDone :: _ => Some (false, [])
    | _ => None
    end
  else if (msgType =? typeCertificate) || (msgType =? typeCertificateVerify) then Some (false, [])
  else if msgType =? typeFinished then wait_for is_read_key rs finish
  else Some (false, []).
Definition handleMessageForClient (msgType : Z) (rs : list received) : option (bool * list setup_event) :=
  if msgType =? typeServerHello then
    match rs with
    | RcvWriteRecord :: _ => Some (false, [])
    | RcvWriteKey :: rs => wait_for is_read_key rs finish
    | RcvHandshakeDone :: _ => Some (false, [])
    | _ => None
    end
  else if msgType =? typeEncryptedExtensions then
    match rs with
    | RcvParams data :: _ => Some (false, [EvReceivedParams data])
    | RcvHandshakeDone :: _ => Some (false, [])
    | _ => None
    end
  else if (msgType =? typeCertificateRequest) || (msgType =? typeCertificate) || (msgType =? typeCertificateVerify) then Some (false, [])
  else if msgType =? typeFinished then wait_for is_read_key rs (λ rs, wait_for is_write_key rs finish)
  else Some (false, []).

(** [HandleMessage] up to TLS: whether the message is passed on to it, and the
    result.  A post-handshake message is handled by TLS first, with an error
    reported as [alert]. *)
Definition HandleMessage_setup (h : cryptoSetup) (data : list Z) (encLevel : EncryptionLevel) (rs : list received)
    (post : option (Z * goerr)) : outcome (option (bool * list setup_event * bool)) :=
  match data with
  | [] => Panic "index out of range"
  | msgType :: _ =>
      match checkEncryptionLevel msgType encLevel with
      | Some e => Ok (Some (false, [EvError alertUnexpectedMessage e], false))
      | None =>
          let ev := if bool_decide (encLevel = Encryption1RTT)
                    then match post with Some (alert, e) => [EvError alert e] | None => [] end else [] in
          let r := match cs_perspective h with
                   | PerspectiveClient => handleMessageForClient msgType rs
                   | PerspectiveServer => handleMessageForServer msgType rs
                   end in
          Ok (match r with Some (b, ev') => Some (b, ev ++ ev', true) | None => None end)
      end
  end.
End Setup.
