(* ===== verification/PacketPacker.v ===== *)
(** PacketPacker: quic-go/packet_packer.go.  Packets are composed from ACK frames,
    lost frames, control frames and stream frames, written and protected.  The
    packet numbers, the ACK frames and the streams are behind interfaces. *)

From S2P Require Import Prelude Utils Protocol AckFrame Frames FrameCodec StreamFrame FrameParser Header GoFloat Rtt TransportParams Framer FrameQueues LinkedListSpec FrameSorter CryptoStream Protection KeyUpdate CryptoSetup.

Definition MinInitialPacketSize : Z := 1200.
Definition MaxPacketSizeIPv4 : Z := 1252.
Definition MaxPacketSizeIPv6 : Z := 1232.
Definition MaxNonAckElicitingAcks : Z := 19.

(** [packetNumberManager].  [PopPacketNumber] takes a random number. *)
Class PacketNumberManager (P : Type) := {
  pn_Peek : P → EncryptionLevel → outcome (Z * Z);
  pn_Pop : P → EncryptionLevel → Z → outcome (P * Z) }.
(** [ackFrameSource], at the current time. *)
Class AckFrameSource (A : Type) := ack_Get : A → EncryptionLevel → Z → A * option AckFrame.

Record payload := mkPayload { pl_frames : list Frame; pl_ack : option AckFrame; pl_length : Z }.
Record packedPacket := mkPacked { pp_header : ExtendedHeader; pp_raw : list Z; pp_ack : option AckFrame; pp_frames : list Frame }.

Definition packed_EncryptionLevel (p : packedPacket) : EncryptionLevel :=
  if negb (IsLongHeader (eh_Header (pp_header p))) then Encryption1RTT
  else match Type_ (eh_Header (pp_header p)) with
       | Some PacketTypeInitial => EncryptionInitial
       | Some PacketTypeHandshake => EncryptionHandshake
       | _ => EncryptionUnspecified
       end.
(** A remote address: not a UDP address, or one whose [To4] is nil or not. *)
Inductive remote_addr := NotUDP | UDPv6 | UDPv4.
Definition getMaxPacketSize (addr : remote_addr) : Z :=
  match addr with NotUDP => MinInitialPacketSize | UDPv6 => MaxPacketSizeIPv6 | UDPv4 => MaxPacketSizeIPv4 end.

(** What a call finds around it: the time, the RTT, the configured limit on
    streams per packet and a random number. *)
Record pack_env := mkPackEnv { env_now : Z; env_rtt : RTTStats; env_limit : Z; env_rand : Z }.

Section Packer.
Context `{QTLS} {P A S : Type} `{PacketNumberManager P} `{AckFrameSource A} `{StreamGetter S}.

(** The parts it shares with the connection are kept by value. *)
Record packetPacker := mkPacker {
  destConnID : list Z; srcConnID : list Z; pk_perspective : Perspective; pk_version : Z;
  cryptoSetup_ : cryptoSetup; handshakeConfirmed : bool;
  pk_initialStream : cryptoStreamImpl; pk_handshakeStream : cryptoStreamImpl; pk_token : list Z;
  pnManager : P; pk_framer : framerI; pk_streams : S; pk_acks : A;
  retransmissionQueue_ : retransmissionQueue; maxPacketSize : Z; numNonAckElicitingAcks : Z }.
Definition newPacketPacker (dest src : list Z) (initialStream handshakeStream : cryptoStreamImpl) (pns : P)
    (rq : retransmissionQueue) (addr : remote_addr) (cs : cryptoSetup) (f : framerI) (s : S) (acks : A)
    (pers : Perspective) (version : Z) : packetPacker :=
  mkPacker dest src pers version cs false initialStream handshakeStream [] pns f s acks rq (getMaxPacketSize addr) 0.

Definition set_setup (p : packetPacker) (cs : cryptoSetup) : packetPacker :=
  mkPacker (destConnID p) (srcConnID p) (pk_perspective p) (pk_version p) cs (handshakeConfirmed p) (pk_initialStream p)
    (pk_handshakeStream p) (pk_token p) (pnManager p) (pk_framer p) (pk_streams p) (pk_acks p) (retransmissionQueue_ p)
    (maxPacketSize p) (numNonAckElicitingAcks p).
Definition set_confirmed (p : packetPacker) (b : bool) : packetPacker :=
  mkPacker (destConnID p) (srcConnID p) (pk_perspective p) (pk_version p) (cryptoSetup_ p) b (pk_initialStream p)
    (pk_handshakeStream p) (pk_token p) (pnManager p) (pk_framer p) (pk_streams p) (pk_acks p) (retransmissionQueue_ p)
    (maxPacketSize p) (numNonAckElicitingAcks p).
Definition set_crypto_streams (p : packetPacker) (i h : cryptoStreamImpl) : packetPacker :=
  mkPacker (destConnID p) (srcConnID p) (pk_perspective p) (pk_version p) (cryptoSetup_ p) (handshakeConfirmed p) i
    h (pk_token p) (pnManager p) (pk_framer p) (pk_streams p) (pk_acks p) (retransmissionQueue_ p)
    (maxPacketSize p) (numNonAckElicitingAcks p).
Definition set_pns (p : packetPacker) (pns : P) : packetPacker :=
  mkPacker (destConnID p) (srcConnID p) (pk_perspective p) (pk_version p) (cryptoSetup_ p) (handshakeConfirmed p) (pk_initialStream p)
    (pk_handshakeStream p) (pk_token p) pns (pk_framer p) (pk_streams p) (pk_acks p) (retransmissionQueue_ p)
    (maxPacketSize p) (numNonAckElicitingAcks p).
Definition set_framer (p : packetPacker) (f : framerI) (s : S) : packetPacker :=
  mkPacker (destConnID p) (srcConnID p) (pk_perspective p) (pk_version p) (cryptoSetup_ p) (handshakeConfirmed p) (pk_initialStream p)
    (pk_handshakeStream p) (pk_token p) (pnManager p) f s (pk_acks p) (retransmissionQueue_ p)
    (maxPacketSize p) (numNonAckElicitingAcks p).
Definition set_acks (p : packetPacker) (a : A) : packetPacker :=
  mkPacker (destConnID p) (srcConnID p) (pk_perspective p) (pk_version p) (cryptoSetup_ p) (handshakeConfirmed p) (pk_initialStream p)
    (pk_handshakeStream p) (pk_token p) (pnManager p) (pk_framer p) (pk_streams p) a (retransmissionQueue_ p)
    (maxPacketSize p) (numNonAckElicitingAcks p).
Definition set_rq (p : packetPacker) (q : retransmissionQueue) : packetPacker :=
  mkPacker (destConnID p) (srcConnID p) (pk_perspective p) (pk_version p) (cryptoSetup_ p) (handshakeConfirmed p) (pk_initialStream p)
    (pk_handshakeStream p) (pk_token p) (pnManager p) (pk_framer p) (pk_streams p) (pk_acks p) q
    (maxPacketSize p) (numNonAckElicitingAcks p).
Definition set_numAcks (p : packetPacker) (n : Z) : packetPacker :=
  mkPacker (destConnID p) (srcConnID p) (pk_perspective p) (pk_version p) (cryptoSetup_ p) (handshakeConfirmed p) (pk_initialStream p)
    (pk_handshakeStream p) (pk_token p) (pnManager p) (pk_framer p) (pk_streams p) (pk_acks p) (retransmissionQueue_ p)
    (maxPacketSize p) n.
Definition ChangeDestConnectionID (p : packetPacker) (connID : list Z) : packetPacker :=
  mkPacker connID (srcConnID p) (pk_perspective p) (pk_version p) (cryptoSetup_ p) (handshakeConfirmed p) (pk_initialStream p)
    (pk_handshakeStream p) (pk_token p) (pnManager p) (pk_framer p) (pk_streams p) (pk_acks p) (retransmissionQueue_ p)
    (maxPacketSize p) (numNonAckElicitingAcks p).
Definition SetToken (p : packetPacker) (token : list Z) : packetPacker :=
  mkPacker (destConnID p) (srcConnID p) (pk_perspective p) (pk_version p) (cryptoSetup_ p) (handshakeConfirmed p) (pk_initialStream p)
    (pk_handshakeStream p) token (pnManager p) (pk_framer p) (pk_streams p) (pk_acks p) (retransmissionQueue_ p)
    (maxPacketSize p) (numNonAckElicitingAcks p).
Definition set_maxPacketSize (p : packetPacker) (n : Z) : packetPacker :=
  mkPacker (destConnID p) (srcConnID p) (pk_perspective p) (pk_version p) (cryptoSetup_ p) (handshakeConfirmed p) (pk_initialStream p)
    (pk_handshakeStream p) (pk_token p) (pnManager p) (pk_framer p) (pk_streams p) (pk_acks p) (retransmissionQueue_ p)
    n (numNonAckElicitingAcks p).
Definition packer_HandleTransportParameters (p : packetPacker) (params : TransportParameters) : packetPacker :=
  if negb (MaxPacketSize params =? 0) then set_maxPacketSize p (MinByteCount (maxPacketSize p) (MaxPacketSize params)) else p.

(** * Sealers *)

(** A sealer of the crypto setup, by value; [put_sealer] writes back what sealing
    changed. *)
Inductive sealer := LongSealer (s : longHeaderCrypter) | ShortSealer (a : updatableAEAD).
Definition sealer_Overhead (s : sealer) : Z := match s with LongSealer s => long_Overhead s | ShortSealer a => up_Overhead a end.
Definition sealer_Seal (s : sealer) (src : list Z) (pn : Z) (ad : list Z) : outcome (sealer * list Z) :=
  match s with
  | LongSealer s => '(s, c) ← long_Seal s src pn ad; Ok (LongSealer s, c)
  | ShortSealer a => '(a, c) ← up_Seal a src pn ad; Ok (ShortSealer a, c)
  end.
Definition sealer_EncryptHeader (s : sealer) (sample : list Z) (firstByte : Z) (pnBytes : list Z) : outcome (Z * list Z) :=
  match s with
  | LongSealer s => long_EncryptHeader s sample firstByte pnBytes
  | ShortSealer a => up_EncryptHeader a sample firstByte pnBytes
  end.
Definition put_sealer (cs : cryptoSetup) (encLevel : EncryptionLevel) (s : sealer) : cryptoSetup :=
  match s, encLevel with
  | LongSealer s, EncryptionInitial => set_initial cs (initialOpener cs) (Some s)
  | LongSealer s, EncryptionHandshake => set_handshake cs (handshakeOpener cs) (Some s)
  | ShortSealer a, _ => set_aead_of cs a (has1RTTSealer cs) (has1RTTOpener cs)
  | _, _ => cs
  end.
(** [Get1RTTSealer] followed by [KeyPhase]. *)
Definition get_1rtt (p : packetPacker) (env : pack_env) : outcome (packetPacker * sealer * bool) :=
  a ← Get1RTTSealer (cryptoSetup_ p);
  '(a, kp) ← up_KeyPhase a (env_rtt env) (env_now env);
  Ok (set_setup p (put_sealer (cryptoSetup_ p) Encryption1RTT (ShortSealer a)), ShortSealer a, kp).

(** * Headers *)

Definition getShortHeader (p : packetPacker) (kp : bool) : outcome ExtendedHeader :=
  '(pn, pnLen) ← pn_Peek (pnManager p) Encryption1RTT;
  Ok (mkExtendedHeader (mkHeader false 0 None 0 [] (destConnID p) 0 [] [] [] 0) 0 kp pnLen pn).
Definition getLongHeader (p : packetPacker) (encLevel : EncryptionLevel) : outcome ExtendedHeader :=
  '(pn, _) ← pn_Peek (pnManager p) encLevel;
  let '(ty, token) := match encLevel with
                      | EncryptionInitial => (Some PacketTypeInitial, pk_token p)
                      | EncryptionHandshake => (Some PacketTypeHandshake, [])
                      | _ => (None, [])
                      end in
  Ok (mkExtendedHeader (mkHeader true 0 ty (pk_version p) (srcConnID p) (destConnID p) (maxPacketSize p) token [] [] 0)
        0 false 4 pn).
Definition set_Length (h : ExtendedHeader) (n : Z) : ExtendedHeader :=
  let hd := eh_Header h in
  mkExtendedHeader (mkHeader (IsLongHeader hd) (h_typeByte hd) (Type_ hd) (Version hd) (SrcConnectionID hd) (DestConnectionID hd)
    n (Token hd) (h_SupportedVersions hd) (OrigDestConnectionID hd) (parsedLen hd))
    (eh_typeByte h) (KeyPhase h) (PacketNumberLen h) (PacketNumber h).

(** * Writing a packet *)

(** The frames of a payload, after the ACK frame and the padding. *)
Definition write_payload (pl : payload) (paddingLen : Z) : writer :=
  (match pl_ack pl with Some ack => AckFrame_Write ack | None => wdone end)
  >>> (if 0 <? paddingLen then
         if i64 paddingLen <? 0 then wpanic "bytes: negative Repeat count"
         else WriteBytes (replicate (Z.to_nat (i64 paddingLen)) 0)
       else wdone)
  >>> foldr (λ f w, Frame_Write f >>> w) wdone (pl_frames pl).

(** [stale] is what the pooled buffer holds behind the packet: the sample for the
    header protection may reach into it. *)
Definition writeAndSealPacketWithPadding (p : packetPacker) (env : pack_env) (stale : list Z) (header : ExtendedHeader) (pl : payload)
    (paddingLen : Z) (encLevel : EncryptionLevel) (s : sealer) : outcome (packetPacker * packedPacket) :=
  hdrBytes ← run_writer (ExtendedHeader_Write header) [];
  let payloadOffset := len hdrBytes in
  buffer ← run_writer (write_payload pl paddingLen) hdrBytes;
  let payloadSize := u64 (len buffer - payloadOffset - paddingLen) in
  if negb (payloadSize =? pl_length pl) then
    Err (Errorf "PacketPacker BUG: payload size inconsistent (expected %d, got %d bytes)" [pl_length pl; payloadSize])
  else if maxPacketSize p <? len buffer then
    Err (Errorf "PacketPacker BUG: packet too large (%d bytes, allowed %d bytes)" [len buffer; maxPacketSize p])
  else if MaxReceivePacketSize <? len buffer + sealer_Overhead s then Panic "slice bounds out of range"
  else
    '(s, sealed) ← sealer_Seal s (drop (Z.to_nat payloadOffset) buffer) (PacketNumber header) hdrBytes;
    let raw := hdrBytes ++ sealed in
    let pnOffset := Z.to_nat (payloadOffset - PacketNumberLen header) in
    let sample := take 16 (drop (pnOffset + 4) (raw ++ stale)) in
    match raw with
    | [] => Panic "index out of range"
    | b0 :: _ =>
        '(b0, pnBytes) ← sealer_EncryptHeader s sample b0 (drop pnOffset hdrBytes);
        let raw := b0 :: drop 1 (take pnOffset raw) ++ pnBytes ++ sealed in
        '(pns, num) ← pn_Pop (pnManager p) encLevel (env_rand env);
        let p := set_pns (set_setup p (put_sealer (cryptoSetup_ p) encLevel s)) pns in
        if negb (num =? PacketNumber header) then
          Err (Errorf "packetPacker BUG: Peeked and Popped packet numbers do not match" [])
        else Ok (p, mkPacked header raw (pl_ack pl) (pl_frames pl))
    end.
Definition writeAndSealPacket (p : packetPacker) (env : pack_env) (stale : list Z) (header : ExtendedHeader) (pl : payload)
    (encLevel : EncryptionLevel) (s : sealer) : outcome (packetPacker * packedPacket) :=
  let pnLen := PacketNumberLen header in
  if negb (bool_decide (encLevel = Encryption1RTT)) then
    if bool_decide (pk_perspective p = PerspectiveClient) && bool_decide (Type_ (eh_Header header) = Some PacketTypeInitial) then
      headerLen ← GetLength header;
      let header := set_Length header (u64 (pnLen + MinInitialPacketSize - headerLen)) in
      let paddingLen := u64 (u64 (MinInitialPacketSize - sealer_Overhead s) - headerLen - pl_length pl) in
      writeAndSealPacketWithPadding p env stale header pl paddingLen encLevel s
    else
      let header := set_Length header (u64 (pnLen + sealer_Overhead s + pl_length pl)) in
      writeAndSealPacketWithPadding p env stale header pl 0 encLevel s
  else
    let paddingLen := if pl_length pl <? u64 (4 - pnLen) then u64 (4 - pnLen - pl_length pl) else 0 in
    writeAndSealPacketWithPadding p env stale header pl paddingLen encLevel s.

(** * Composing a packet *)

(** The frames of lost packets; every turn but the last takes one from the queue. *)
Fixpoint append_lost (fuel : nat) (q : retransmissionQueue) (pl : payload) (maxFrameSize : Z) : outcome (retransmissionQueue * payload) :=
  match fuel with
  | O => Ok (q, pl)
  | Datatypes.S fuel =>
      let remainingLen := u64 (maxFrameSize - pl_length pl) in
      if remainingLen <? MinStreamFrameSize then Ok (q, pl) else
      '(q, f) ← GetAppDataFrame q remainingLen;
      match f with
      | None => Ok (q, pl)
      | Some f =>
          l ← Frame_Length f;
          append_lost fuel q (mkPayload (pl_frames pl ++ [f]) (pl_ack pl) (u64 (pl_length pl + l))) maxFrameSize
      end
  end.
Definition composeNextPacket (p : packetPacker) (env : pack_env) (maxFrameSize : Z) : outcome (packetPacker * payload) :=
  let '(acks, ack) := ack_Get (pk_acks p) Encryption1RTT (env_now env) in
  let p := set_acks p acks in
  ackLen ← match ack with Some ack => AckFrame_Length ack | None => Ok 0 end;
  let pl := mkPayload [] ack ackLen in
  '(q, pl) ← append_lost (Datatypes.S (length (appData (retransmissionQueue_ p)))) (retransmissionQueue_ p) pl maxFrameSize;
  let p := set_rq p q in
  '(f, controls, lengthAdded) ← AppendControlFrames (pk_framer p) (u64 (maxFrameSize - pl_length pl));
  let pl := mkPayload (pl_frames pl ++ controls) (pl_ack pl) (u64 (pl_length pl + lengthAdded)) in
  '(f, s, streams, lengthAdded) ← AppendStreamFrames f (pk_streams p) (u64 (maxFrameSize - pl_length pl)) (env_limit env);
  let pl := mkPayload (pl_frames pl ++ (FStream <$> streams)) (pl_ack pl) (u64 (pl_length pl + lengthAdded)) in
  Ok (set_framer p f s, pl).

Definition getSealerAndHeader (p : packetPacker) (env : pack_env) (encLevel : EncryptionLevel) : outcome (packetPacker * sealer * ExtendedHeader) :=
  match encLevel with
  | EncryptionInitial => s ← GetInitialSealer (cryptoSetup_ p); hdr ← getLongHeader p EncryptionInitial; Ok (p, LongSealer s, hdr)
  | EncryptionHandshake => s ← GetHandshakeSealer (cryptoSetup_ p); hdr ← getLongHeader p EncryptionHandshake; Ok (p, LongSealer s, hdr)
  | Encryption1RTT => '(p, s, kp) ← get_1rtt p env; hdr ← getShortHeader p kp; Ok (p, s, hdr)
  | _ => Err (Errorf "unexpected encryption level: %s" [])
  end.

(** The loop over the lost frames of an Initial or Handshake packet. *)
Fixpoint append_lost_crypto (fuel : nat) (p : packetPacker) (encLevel : EncryptionLevel) (pl : payload) (hdrLen overhead : Z)
    : outcome (packetPacker * payload) :=
  match fuel with
  | O => Ok (p, pl)
  | Datatypes.S fuel =>
      '(q, f) ← match encLevel with
                | EncryptionInitial => GetInitialFrame (retransmissionQueue_ p) (u64 (MinInitialPacketSize - hdrLen - overhead - pl_length pl))
                | EncryptionHandshake => GetHandshakeFrame (retransmissionQueue_ p) (u64 (maxPacketSize p - hdrLen - overhead - pl_length pl))
                | _ => Ok (retransmissionQueue_ p, None)
                end;
      match f with
      | None => Ok (set_rq p q, pl)
      | Some f =>
          l ← Frame_Length f;
          append_lost_crypto fuel (set_rq p q) encLevel (mkPayload (pl_frames pl ++ [f]) (pl_ack pl) (u64 (pl_length pl + l))) hdrLen overhead
      end
  end.
Definition rq_count (q : retransmissionQueue) : nat :=
  length (rq_initial q) + length (initialCryptoData q) + length (rq_handshake q) + length (handshakeCryptoData q).

(** A packet of level [encLevel], for a stream with data, lost frames or an ACK. *)
Definition pack_crypto (p : packetPacker) (env : pack_env) (stale : list Z) (encLevel : EncryptionLevel) (s : sealer)
    (hasData hasRetransmission : bool) (ack : option AckFrame) : outcome (packetPacker * packedPacket) :=
  ackLen ← match ack with Some ack => AckFrame_Length ack | None => Ok 0 end;
  let pl := mkPayload [] ack ackLen in
  hdr ← getLongHeader p encLevel;
  hdrLen ← GetLength hdr;
  '(p, pl) ←
    (if hasRetransmission : bool then append_lost_crypto (Datatypes.S (rq_count (retransmissionQueue_ p))) p encLevel pl hdrLen (sealer_Overhead s)
     else if hasData : bool then
       let maxLen := u64 (maxPacketSize p - hdrLen - sealer_Overhead s - pl_length pl) in
       let stream := match encLevel with EncryptionInitial => pk_initialStream p | _ => pk_handshakeStream p end in
       '(stream, cf) ← PopCryptoFrame stream maxLen;
       l ← CryptoFrame_Length cf;
       let p := match encLevel with
                | EncryptionInitial => set_crypto_streams p stream (pk_handshakeStream p)
                | _ => set_crypto_streams p (pk_initialStream p) stream
                end in
       Ok (p, mkPayload [FCrypto cf] (pl_ack pl) (u64 (pl_length pl + l)))
     else Ok (p, pl));
  writeAndSealPacket p env stale hdr pl encLevel s.

Definition maybePackCryptoPacket (p : packetPacker) (env : pack_env) (stale : list Z) : outcome (packetPacker * option packedPacket) :=
  let initial := GetInitialSealer (cryptoSetup_ p) in
  let hs := GetHandshakeSealer (cryptoSetup_ p) in
  let p := match initial, hs with
           | Err e1, Err e2 => if bool_decide (e1 = ErrKeysDropped) && bool_decide (e2 = ErrKeysDropped) then set_confirmed p true else p
           | _, _ => p
           end in
  let hasData := HasData (pk_initialStream p) in
  let hasRetransmission := HasInitialData (retransmissionQueue_ p) in
  let '(acks, ack) := ack_Get (pk_acks p) EncryptionInitial (env_now env) in
  let p := set_acks p acks in
  if hasData || hasRetransmission || match ack with Some _ => true | None => false end then
    match initial with
    | Ok s => '(p, pkt) ← pack_crypto p env stale EncryptionInitial (LongSealer s) hasData hasRetransmission ack; Ok (p, Some pkt)
    | Err e => Err (Errorf "PacketPacker BUG: no Initial sealer: %s" [])
    | Panic m => Panic m
    end
  else
    let hasData := HasData (pk_handshakeStream p) in
    let hasRetransmission := HasHandshakeData (retransmissionQueue_ p) in
    let '(acks, ack) := ack_Get (pk_acks p) EncryptionHandshake (env_now env) in
    let p := set_acks p acks in
    if hasData || hasRetransmission || match ack with Some _ => true | None => false end then
      match hs with
      | Ok s => '(p, pkt) ← pack_crypto p env stale EncryptionHandshake (LongSealer s) hasData hasRetransmission ack; Ok (p, Some pkt)
      | Err e => Err (Errorf "PacketPacker BUG: no Handshake sealer: %s" [])
      | Panic m => Panic m
      end
    else Ok (p, None).

(** The packet with application data; an error of [Get1RTTSealer] means that the
    keys are not there yet. *)
Definition pack_app_data (p : packetPacker) (env : pack_env) (stale : list Z) : outcome (packetPacker * option packedPacket) :=
  match Get1RTTSealer (cryptoSetup_ p) with
  | Ok _ =>
      '(p, s, kp) ← get_1rtt p env;
      header ← getShortHeader p kp;
      headerLen ← GetLength header;
      let maxSize := u64 (maxPacketSize p - sealer_Overhead s - headerLen) in
      '(p, pl) ← composeNextPacket p env maxSize;
      match pl_frames pl, pl_ack pl with
      | [], None => Ok (p, None)
      | [], Some _ =>
          if MaxNonAckElicitingAcks <=? numNonAckElicitingAcks p then
            l ← PingFrame_Length;
            let pl := mkPayload [FPing] (pl_ack pl) (u64 (pl_length pl + l)) in
            '(p, pkt) ← writeAndSealPacket (set_numAcks p 0) env stale header pl Encryption1RTT s; Ok (p, Some pkt)
          else
            '(p, pkt) ← writeAndSealPacket (set_numAcks p (numNonAckElicitingAcks p + 1)) env stale header pl Encryption1RTT s;
            Ok (p, Some pkt)
      | _, _ => '(p, pkt) ← writeAndSealPacket (set_numAcks p 0) env stale header pl Encryption1RTT s; Ok (p, Some pkt)
      end
  | _ => Ok (p, None)
  end.
Definition PackPacket (p : packetPacker) (env : pack_env) (stale : list Z) : outcome (packetPacker * option packedPacket) :=
  if negb (handshakeConfirmed p) then
    '(p, packet) ← maybePackCryptoPacket p env stale;
    match packet with Some pkt => Ok (p, Some pkt) | None => pack_app_data p env stale end
  else pack_app_data p env stale.

Definition MaybePackAckPacket (p : packetPacker) (env : pack_env) (stale : list Z) : outcome (packetPacker * option packedPacket) :=
  let '(p, found) :=
    if negb (handshakeConfirmed p) then
      let '(acks, ack) := ack_Get (pk_acks p) EncryptionInitial (env_now env) in
      match ack with
      | Some ack => (set_acks p acks, Some (ack, EncryptionInitial))
      | None => let '(acks, ack) := ack_Get acks EncryptionHandshake (env_now env) in
                (set_acks p acks, match ack with Some ack => Some (ack, EncryptionHandshake) | None => None end)
      end
    else (p, None) in
  let '(p, found) :=
    match found with
    | Some _ => (p, found)
    | None => let '(acks, ack) := ack_Get (pk_acks p) Encryption1RTT (env_now env) in
              (set_acks p acks, match ack with Some ack => Some (ack, Encryption1RTT) | None => None end)
    end in
  match found with
  | None => Ok (p, None)
  | Some (ack, encLevel) =>
      l ← AckFrame_Length ack;
      '(p, s, hdr) ← getSealerAndHeader p env encLevel;
      '(p, pkt) ← writeAndSealPacket p env stale hdr (mkPayload [] (Some ack) l) encLevel s;
      Ok (p, Some pkt)
  end.

(** The highest encryption level whose keys are there. *)
Definition PackConnectionClose (p : packetPacker) (env : pack_env) (stale : list Z) (ccf : ConnectionCloseFrame) : outcome (packetPacker * packedPacket) :=
  l ← ConnectionCloseFrame_Length ccf;
  let pl := mkPayload [FConnectionClose ccf] None l in
  match Get1RTTSealer (cryptoSetup_ p) with
  | Ok _ =>
      '(p, s, kp) ← get_1rtt p env; hdr ← getShortHeader p kp;
      writeAndSealPacket p env stale hdr pl Encryption1RTT s
  | _ =>
      match GetHandshakeSealer (cryptoSetup_ p) with
      | Ok s => hdr ← getLongHeader p EncryptionHandshake; writeAndSealPacket p env stale hdr pl EncryptionHandshake (LongSealer s)
      | _ =>
          s ← GetInitialSealer (cryptoSetup_ p);
          hdr ← getLongHeader p EncryptionInitial;
          writeAndSealPacket p env stale hdr pl EncryptionInitial (LongSealer s)
      end
  end.

(** Where a frame goes when its packet is lost: STREAM frames come with a callback
    of their stream. *)
Inductive on_lost := LostToStream | LostToInitial | LostToHandshake | LostToAppData | LostNowhere.
Definition lost_target (encLevel : EncryptionLevel) (f : Frame) : on_lost :=
  match f with
  | FStream _ => LostToStream
  | _ => match encLevel with
         | EncryptionInitial => LostToInitial | EncryptionHandshake => LostToHandshake
         | Encryption1RTT => LostToAppData | _ => LostNowhere
         end
  end.
Record ah_packet := mkAhPacket {
  ah_PacketNumber : Z; ah_LargestAcked : Z; ah_Frames : list (Frame * on_lost); ah_Length : Z; ah_EncryptionLevel : EncryptionLevel; ah_SendTime : Z }.
Definition ToAckHandlerPacket (pkt : packedPacket) (now : Z) : outcome ah_packet :=
  largest ← match pp_ack pkt with Some ack => LargestAcked ack | None => Ok InvalidPacketNumber end;
  let lvl := packed_EncryptionLevel pkt in
  Ok (mkAhPacket (PacketNumber (pp_header pkt)) largest ((λ f, (f, lost_target lvl f)) <$> pp_frames pkt) (len (pp_raw pkt)) lvl now).
Definition packed_IsAckEliciting (pkt : packedPacket) : bool :=
  existsb (λ f, match f with FAck _ => false | _ => true end) (pp_frames pkt).
End Packer.
