(* ===== verification/PacketUnpacker.v ===== *)
(** PacketUnpacker: quic-go/packet_unpacker.go.  Removes header protection, decodes
    the packet number and opens the payload.  The packet is decrypted in place:
    the bytes are passed along as they change. *)

From S2P Require Import Prelude Utils Protocol AckFrame Frames FrameCodec Header GoFloat Rtt Protection KeyUpdate CryptoSetup.

Definition ErrInvalidReservedBits : goerr := Errorf "invalid reserved bits" [].

Section Unpacker.
Context `{QTLS}.

Record unpackedPacket := mkUnpacked {
  un_packetNumber : Z; un_hdr : ExtendedHeader; un_encryptionLevel : EncryptionLevel; un_data : list Z }.
Record packetUnpacker := mkUnpacker { un_cs : cryptoSetup; largestRcvdPacketNumber : Z }.
Definition newPacketUnpacker (cs : cryptoSetup) : packetUnpacker := mkUnpacker cs 0.

(** [copy(data[from:to], src)] *)
Definition copy_at (data : list Z) (from to : Z) (src : list Z) : outcome (list Z) :=
  if (from <? 0) || (to <? from) || (len data <? to) then Panic "slice bounds out of range"
  else
    let n := Nat.min (Z.to_nat (to - from)) (length src) in
    Ok (take (Z.to_nat from) data ++ take n src ++ drop (Z.to_nat from + n) data).
Definition set_pn (h : ExtendedHeader) (pn : Z) : ExtendedHeader :=
  mkExtendedHeader (eh_Header h) (eh_typeByte h) (KeyPhase h) (PacketNumberLen h) pn.

(** The data as changed, the extended header, and whether the reserved bits were
    set. *)
Definition unpack (decrypt : list Z → Z → list Z → outcome (Z * list Z)) (largestRcvd : Z) (hdr : Header) (data : list Z)
    : outcome (list Z * ExtendedHeader * bool) :=
  let hdrLen := Z.to_nat (parsedLen hdr) in
  if len data <? parsedLen hdr + 4 + 16 then
    Err (Errorf "Packet too small. Expected at least 20 bytes after the header, got %d" [len data - parsedLen hdr])
  else
    match data with
    | [] => Panic "index out of range"
    | b0 :: _ =>
        let origPNBytes := take 4 (drop hdrLen data) in
        '(b0, pnBytes) ← decrypt (take 16 (drop (hdrLen + 4) data)) b0 origPNBytes;
        let data := b0 :: drop 1 (take hdrLen data) ++ pnBytes ++ drop (hdrLen + 4) data in
        '(extHdr, reserved, _) ← ParseExtended hdr data;
        data ← (if negb (PacketNumberLen extHdr =? 4) then
                  n ← GetLength extHdr;
                  copy_at data n (parsedLen hdr + 4) (drop (Z.to_nat (PacketNumberLen extHdr)) origPNBytes)
                else Ok data);
        let pn := DecodePacketNumber (PacketNumberLen extHdr) largestRcvd (PacketNumber extHdr) in
        Ok (data, set_pn extHdr pn, reserved)
    end.

(** What is left when the header is removed: the associated data and the payload. *)
Definition split_header (extHdr : ExtendedHeader) (data : list Z) : outcome (list Z * list Z) :=
  extHdrLen ← GetLength extHdr;
  if len data <? extHdrLen then Panic "slice bounds out of range"
  else Ok (take (Z.to_nat extHdrLen) data, drop (Z.to_nat extHdrLen) data).

Definition unpackLongHeaderPacket (opener : longHeaderCrypter) (largestRcvd : Z) (hdr : Header) (data : list Z)
    : longHeaderCrypter * outcome (ExtendedHeader * list Z) :=
  match unpack (long_DecryptHeader opener) largestRcvd hdr data with
  | Err e => (opener, Err (Errorf "error parsing extended header: %s" []))
  | Panic m => (opener, Panic m)
  | Ok (data, extHdr, reserved) =>
      match split_header extHdr data with
      | Ok (ad, src) =>
          let '(opener, dec) := long_Open opener src (PacketNumber extHdr) ad in
          (opener, dec ← dec; if reserved : bool then Err ErrInvalidReservedBits else Ok (extHdr, dec))
      | Err e => (opener, Err e)
      | Panic m => (opener, Panic m)
      end
  end.
Definition unpackShortHeaderPacket (opener : updatableAEAD) (rttStats : RTTStats) (largestRcvd : Z) (hdr : Header) (rcvTime : Z)
    (data : list Z) : updatableAEAD * outcome (ExtendedHeader * list Z) :=
  match unpack (up_DecryptHeader opener) largestRcvd hdr data with
  | Err e => (opener, Err e)
  | Panic m => (opener, Panic m)
  | Ok (data, extHdr, reserved) =>
      match split_header extHdr data with
      | Ok (ad, src) =>
          let '(opener, dec) := up_Open opener rttStats src rcvTime (PacketNumber extHdr) (KeyPhase extHdr) ad in
          (opener, dec ← dec; if reserved : bool then Err ErrInvalidReservedBits else Ok (extHdr, dec))
      | Err e => (opener, Err e)
      | Panic m => (opener, Panic m)
      end
  end.

(** The common end of [Unpack]. *)
Definition unpacked (u : packetUnpacker) (encLevel : EncryptionLevel) (r : outcome (ExtendedHeader * list Z)) : packetUnpacker * outcome unpackedPacket :=
  match r with
  | Ok (extHdr, decrypted) =>
      (mkUnpacker (un_cs u) (MaxPacketNumber (largestRcvdPacketNumber u) (PacketNumber extHdr)),
       Ok (mkUnpacked (PacketNumber extHdr) extHdr encLevel decrypted))
  | Err e => (u, Err e)
  | Panic m => (u, Panic m)
  end.
Definition Unpack (u : packetUnpacker) (rttStats : RTTStats) (hdr : Header) (rcvTime : Z) (data : list Z)
    : packetUnpacker * outcome unpackedPacket :=
  let cs := un_cs u in
  match Type_ hdr with
  | Some PacketTypeInitial =>
      match GetInitialOpener cs with
      | Ok opener =>
          let '(opener, r) := unpackLongHeaderPacket opener (largestRcvdPacketNumber u) hdr data in
          unpacked (mkUnpacker (set_initial cs (Some opener) (initialSealer cs)) (largestRcvdPacketNumber u)) EncryptionInitial r
      | Err e => (u, Err e)
      | Panic m => (u, Panic m)
      end
  | Some PacketTypeHandshake =>
      match GetHandshakeOpener cs with
      | Ok opener =>
          let '(opener, r) := unpackLongHeaderPacket opener (largestRcvdPacketNumber u) hdr data in
          unpacked (mkUnpacker (set_handshake cs (Some opener) (handshakeSealer cs)) (largestRcvdPacketNumber u)) EncryptionHandshake r
      | Err e => (u, Err e)
      | Panic m => (u, Panic m)
      end
  | _ =>
      if IsLongHeader hdr then (u, Err (Errorf "unknown packet type: %s" [])) else
      match Get1RTTOpener cs with
      | Ok opener =>
          let '(opener, r) := unpackShortHeaderPacket opener rttStats (largestRcvdPacketNumber u) hdr rcvTime data in
          unpacked (mkUnpacker (set_aead_of cs opener (has1RTTSealer cs) (has1RTTOpener cs)) (largestRcvdPacketNumber u)) Encryption1RTT r
      | Err e => (u, Err e)
      | Panic m => (u, Panic m)
      end
  end.
End Unpacker.
