(* ===== verification/PacketRoundTrip.v ===== *)
(** PacketRoundTrip: what the packer writes, the unpacker of the peer reads.
    Header protection, packet protection, the truncation of packet numbers and the
    encoding of frames undo each other. *)

From S2P Require Import Prelude Utils Protocol AckFrame Frames FrameCodec StreamFrame FrameParser Header GoFloat Rtt TransportParams Framer FramerSpec FrameQueues LinkedListSpec FrameSorter CryptoStream Protection KeyUpdate KeyUpdateSpec CryptoSetup PacketPacker PacketUnpacker.

(** * Header protection *)

(** What the code relies on: AES works on blocks of sixteen bytes, a stream cipher
    keeps the length, and the tags of the AEADs have sixteen bytes. *)
Class HPOk `{QTLS} : Prop := {
  overhead_16 k : aead_Overhead k = 16;
  block_size b : BlockSize b = 16;
  block_len b sample : len sample = 16 → len (block_Encrypt b sample) = 16;
  stream_len key nonce src : len (chacha20_XORKeyStream key nonce src) = len src }.

Lemma lxor_keep a m k c : Z.land k c = 0 → Z.land (Z.lxor a (Z.land m k)) c = Z.land a c.
Proof.
  intros Hk. apply Z.bits_inj'. intros n Hn. rewrite !Z.land_spec, Z.lxor_spec, Z.land_spec.
  assert (Hb : Z.testbit k n && Z.testbit c n = false) by (rewrite <- Z.land_spec, Hk; apply Z.bits_0).
  destruct (Z.testbit a n), (Z.testbit m n), (Z.testbit k n), (Z.testbit c n); done.
Qed.
Lemma lxor_twice a b : Z.lxor (Z.lxor a b) b = a.
Proof. by rewrite Z.lxor_assoc, Z.lxor_nilpotent, Z.lxor_0_r. Qed.
(** Unmasking more bytes than were masked gives the masked ones back. *)
Lemma zip_lxor_twice l e m : (length l + length e <= length m)%nat →
  ∃ e', zip_with Z.lxor (zip_with Z.lxor l m ++ e) m = l ++ e' ∧ length e' = length e.
Proof.
  revert l. induction m as [|k m IH]; intros l Hl.
  { destruct l; [|cbn in Hl; lia]. destruct e; [by exists []|cbn in Hl; lia]. }
  destruct l as [|a l].
  - cbn. exists (zip_with Z.lxor e (k :: m)). split; [done|]. cbn [length] in Hl. rewrite length_zip_with. cbn [length]. lia.
  - cbn in Hl |- *. destruct (IH l ltac:(lia)) as (e' & E & He). exists e'. rewrite E, lxor_twice. done.
Qed.

Section HeaderProtection.
Context `{HPOk}.
Definition hp_bits (p : headerProtector) : Z :=
  match p with aesHeaderProtector _ l | chachaHeaderProtector _ l => if l then 0xf else 0x1f end.
(** The mask depends on the sample only. *)
Lemma hp_apply_mask p sample : len sample = 16 →
  ∃ m0 mask, (4 <= length mask)%nat ∧ ∀ b0 hdr, (length hdr <= 4)%nat →
    hp_apply p sample b0 hdr = Ok (Z.lxor b0 (Z.land m0 (hp_bits p)), zip_with Z.lxor hdr mask).
Proof.
  intros Hs. destruct p as [block l|key l]; cbn [hp_apply hp_bits].
  - rewrite block_size, Hs. cbn [Z.eqb Pos.eqb negb]. pose proof (block_len block sample Hs) as Hl.
    destruct (block_Encrypt block sample) as [|m0 mask]; [done|]. rewrite len_cons in Hl.
    exists m0, mask. unfold len in Hl. split; [lia|]. intros b0 hdr Hh. unfold apply_mask.
    rewrite (proj2 (Z.ltb_ge _ _)) by (unfold len; lia). done.
  - rewrite Hs. change (16 <? 5) with false. cbn [negb].
    pose proof (stream_len key (copy_into 16 sample) (replicate 5 0)) as Hl. change (len (replicate 5 0)) with 5 in Hl.
    destruct (chacha20_XORKeyStream key (copy_into 16 sample) (replicate 5 0)) as [|m0 mask]; [done|]. rewrite len_cons in Hl.
    exists m0, mask. unfold len in Hl. split; [lia|]. intros b0 hdr Hh. unfold apply_mask.
    rewrite (proj2 (Z.ltb_ge _ _)) by (unfold len; lia). done.
Qed.

(** The unpacker restores what the packer protected. *)
Lemma unpack_protected p last hdr fb pre pnb sealed ext :
  parsedLen hdr = len (fb :: pre) → 1 <= len pnb <= 4 → 20 <= len pnb + len sealed →
  (∀ rest, ParseExtended hdr ((fb :: pre) ++ pnb ++ rest) = Ok (ext, false, rest)) →
  PacketNumberLen ext = len pnb → GetLength ext = Ok (len ((fb :: pre) ++ pnb)) →
  ∃ b0 pnb', (∃ m, b0 = Z.lxor fb (Z.land m (hp_bits p))) ∧ length pnb' = length pnb ∧
    hp_apply p (take 16 (drop (length (fb :: pre) + 4) ((fb :: pre) ++ pnb ++ sealed))) fb pnb = Ok (b0, pnb') ∧
    unpack (hp_apply p) last hdr (b0 :: pre ++ pnb' ++ sealed)
      = Ok ((fb :: pre) ++ pnb ++ sealed, set_pn ext (DecodePacketNumber (len pnb) last (PacketNumber ext)), false).
Proof.
  intros Hpl Hpn Hlen Hparse Hext Hgl. set (sample := take 16 (drop (length (fb :: pre) + 4) ((fb :: pre) ++ pnb ++ sealed))).
  assert (Hk : (length pnb <= 4)%nat) by (unfold len in Hpn; lia).
  assert (Esample : ∀ a h, length a = length (fb :: pre) → length h = length pnb →
    take 16 (drop (length (fb :: pre) + 4) (a ++ h ++ sealed)) = take 16 (drop (4 - length pnb) sealed)).
  { intros a h Ha Hh. rewrite app_assoc, drop_app_ge by (rewrite length_app; lia). do 2 f_equal. rewrite length_app. lia. }
  assert (Hs16 : len sample = 16).
  { unfold sample. rewrite (Esample (fb :: pre) pnb) by done. unfold len in *. rewrite length_take, length_drop. lia. }
  destruct (hp_apply_mask p sample Hs16) as (m0 & mask & Hm & Happ).
  exists (Z.lxor fb (Z.land m0 (hp_bits p))), (zip_with Z.lxor pnb mask).
  assert (Hz : length (zip_with Z.lxor pnb mask) = length pnb) by (rewrite length_zip_with; lia).
  split; [by exists m0|]. split; [done|]. split; [by apply Happ|].
  set (b0 := Z.lxor fb _). set (pnb' := zip_with Z.lxor pnb mask) in *. unfold unpack.
  assert (EN : Z.to_nat (len (fb :: pre)) = length (fb :: pre)) by (unfold len; lia).
  cbv zeta. rewrite Hpl, !EN.
  assert (Hraw : len (b0 :: pre ++ pnb' ++ sealed) = 1 + len pre + len pnb + len sealed).
  { rewrite len_cons, !len_app. unfold len at 2. rewrite Hz. unfold len. lia. }
  rewrite (proj2 (Z.ltb_ge _ _)) by (rewrite Hraw, len_cons; lia).
  change (b0 :: pre ++ pnb' ++ sealed) with ((b0 :: pre) ++ pnb' ++ sealed).
  rewrite (Esample (b0 :: pre) pnb') by done. rewrite <- (Esample (fb :: pre) pnb) by done. fold sample.
  change (length (fb :: pre)) with (length (b0 :: pre)). rewrite drop_app_length, take_app_length. cbn [drop].
  assert (Eorig : take 4 (pnb' ++ sealed) = pnb' ++ take (4 - length pnb) sealed).
  { rewrite take_app_ge by lia. by rewrite Hz. }
  rewrite Eorig. set (e := take (4 - length pnb) sealed).
  assert (He : length e = (4 - length pnb)%nat) by (unfold e; rewrite length_take; unfold len in Hlen; lia).
  rewrite Happ by (rewrite length_app; lia). cbn [mbind outcome_bind].
  destruct (zip_lxor_twice pnb e mask) as (e' & Ez & He'); [lia|]. fold pnb' in Ez. rewrite Ez.
  assert (Eb : Z.lxor b0 (Z.land m0 (hp_bits p)) = fb) by apply lxor_twice. rewrite !Eb, !drop_0.
  rewrite drop_app_ge by lia.
  assert (Edrop : drop (length (b0 :: pre) + 4 - length (b0 :: pre)) (pnb' ++ sealed) = drop (4 - length pnb) sealed).
  { rewrite drop_app_ge by lia. f_equal. lia. }
  rewrite Edrop. replace (fb :: pre ++ (pnb ++ e') ++ drop (4 - length pnb) sealed)
    with ((fb :: pre) ++ pnb ++ e' ++ drop (4 - length pnb) sealed) by (cbn; by rewrite <- !app_assoc).
  rewrite Hparse. cbn [mbind outcome_bind].
  assert (Ejoin : e ++ drop (4 - length pnb) sealed = sealed) by apply take_drop.
  rewrite Hext. destruct (Z.eqb_spec (len pnb) 4) as [E4|E4]; cbn [negb].
  - assert (e = [] ∧ e' = []) as [-> ->].
    { unfold len in E4. split; apply length_zero_iff_nil; lia. }
    cbn [mbind outcome_bind app] in *. by rewrite Ejoin.
  - rewrite Hgl. cbn [mbind outcome_bind].
    assert (Ecopy : copy_at ((fb :: pre) ++ pnb ++ e' ++ drop (4 - length pnb) sealed) (len ((fb :: pre) ++ pnb)) (len (fb :: pre) + 4)
      (drop (Z.to_nat (len pnb)) (pnb' ++ e)) = Ok ((fb :: pre) ++ pnb ++ sealed)).
    { unfold copy_at. rewrite len_app. pose proof (len_nonneg (fb :: pre)).
      rewrite (proj2 (Z.ltb_ge _ 0)), (proj2 (Z.ltb_ge _ (len (fb :: pre) + len pnb))) by lia. cbn [orb].
      rewrite (proj2 (Z.ltb_ge _ _)) by (rewrite !len_app; unfold len in *; lia).
      assert (drop (Z.to_nat (len pnb)) (pnb' ++ e) = e) as -> by (unfold len; rewrite Nat2Z.id, <- Hz; apply drop_app_length).
      assert (Nat.min (Z.to_nat (len (fb :: pre) + 4 - (len (fb :: pre) + len pnb))) (length e) = length e) as ->
        by (unfold len; lia).
      rewrite (app_assoc (fb :: pre) pnb (e' ++ _)). replace (Z.to_nat (len (fb :: pre) + len pnb)) with (length ((fb :: pre) ++ pnb))
        by (rewrite length_app; unfold len; lia).
      rewrite take_app_length, firstn_all, <- drop_drop, drop_app_length. rewrite <- He', drop_app_length.
      rewrite Ejoin, <- app_assoc. done. }
    rewrite Ecopy. cbn [mbind outcome_bind]. done.
Qed.
End HeaderProtection.

(** * Headers on the wire *)

(** The header with the packet number that is sent. *)
Definition trunc_pn (h : ExtendedHeader) : ExtendedHeader := set_pn h (PacketNumber h mod 2 ^ (8 * PacketNumberLen h)).

Lemma byte_at_mod z w k : 0 <= k → k + 8 <= w → byte_at (z mod 2 ^ w) k = byte_at z k.
Proof.
  intros Hk Hw. unfold byte_at, u8. apply Z.bits_inj'. intros n Hn.
  destruct (decide (n < 8)) as [Hlt|Hge].
  - rewrite !Z.mod_pow2_bits_low by lia. rewrite !Z.shiftr_spec by lia. by rewrite Z.mod_pow2_bits_low by lia.
  - by rewrite !Z.mod_pow2_bits_high by lia.
Qed.
Lemma u8_mod z w : 8 <= w → u8 (z mod 2 ^ w) = u8 z.
Proof. intros Hw. pose proof (byte_at_mod z w 0 ltac:(lia) ltac:(lia)) as E. unfold byte_at in E. by rewrite !Z.shiftr_0_r in E. Qed.

Lemma write_trunc h : 1 <= PacketNumberLen h <= 4 → ExtendedHeader_Write h = ExtendedHeader_Write (trunc_pn h).
Proof.
  intros Hn. assert (E : writePacketNumber h = writePacketNumber (trunc_pn h)).
  { unfold writePacketNumber, trunc_pn. cbn [set_pn PacketNumber PacketNumberLen].
    destruct (pn_len_cases _ Hn) as [-> | [-> | [-> | ->]]]; cbn [Z.eqb Pos.eqb Z.mul Pos.mul];
      unfold WriteUint16, WriteUint24, WriteUint32, u16, u32; rewrite ?byte_at_mod, ?u8_mod by lia; done. }
  unfold ExtendedHeader_Write, writeLongHeader, writeShortHeader. rewrite E. done.
Qed.

(** How a header lies on the wire: its first byte, the bytes before the packet
    number, the packet number; and how it is parsed when the low bits of the first
    byte are masked. *)
Record layout (h : ExtendedHeader) (scl bits fb : Z) (pre pnb : list Z) (hd : Z → Header) (ext : Z → ExtendedHeader) : Prop := mkLayout {
  lay_emits : emits (ExtendedHeader_Write h) ((fb :: pre) ++ pnb);
  lay_pn : len pnb = PacketNumberLen h;
  lay_reads m : let b := Z.lxor fb (Z.land m bits) in reads (parseHeaderImpl scl) (b :: pre) (hd b, false);
  lay_long b : IsLongHeader (hd b) = IsLongHeader (eh_Header h) ∧ h_Length (hd b) = h_Length (eh_Header h) ∧ Type_ (hd b) = Type_ (eh_Header h);
  lay_ext b rest : ParseExtended (set_parsedLen (hd b) (len (fb :: pre))) ((fb :: pre) ++ pnb ++ rest) = Ok (ext b, false, rest);
  lay_fields b : wire_fields (set_pn (ext b) (PacketNumber h)) = wire_fields h;
  lay_sent b : PacketNumber (ext b) = PacketNumber (trunc_pn h);
  lay_length b : GetLength (ext b) = Ok (len ((fb :: pre) ++ pnb)) }.

Lemma header_type_keep b m : header_type (Z.lxor b (Z.land m 0xf)) = header_type b.
Proof. unfold header_type. by rewrite lxor_keep. Qed.
Lemma long_layout h ty scl : long_ok (trunc_pn h) → Type_ (eh_Header h) = Some ty →
  let fb := first_byte ty (PacketNumberLen h) in
  let pre := tail (long_prefix ty (trunc_pn h)) in
  let hd b := mkHeader true b (Some ty) VersionTLS (SrcConnectionID (eh_Header h)) (DestConnectionID (eh_Header h))
    (h_Length (eh_Header h)) (Token (eh_Header h)) [] [] 0 in
  let pnb := pn_bytes (PacketNumberLen h) (PacketNumber (trunc_pn h)) in
  layout h scl 0xf fb pre pnb hd
    (λ b, mkExtendedHeader (set_parsedLen (hd b) (len (fb :: pre))) fb false (PacketNumberLen h) (PacketNumber (trunc_pn h))).
Proof.
  intros Hok Hty fb pre hd pnb. pose proof Hok as (Hl & Hv & (ty' & Hty' & Hr & Ht) & Hd & Hs & Ho & Hsv & HLv & HT & Hkp & Hpn).
  cbn [trunc_pn set_pn eh_Header PacketNumberLen KeyPhase] in *. destruct Hpn as [Hn Hpn]. rewrite Hty in Hty'. injection Hty' as <-.
  destruct (first_byte_bits ty _ Hn) as (B1 & B2 & B3 & B4 & B5 & _). fold fb in B1, B2, B3, B4, B5.
  pose proof (pn_roundtrip (trunc_pn h) (conj Hn Hpn)) as (_ & Hpr & Hpl). cbn [trunc_pn set_pn PacketNumberLen] in Hpr, Hpl.
  split.
  - rewrite write_trunc by done. exact (long_emits (trunc_pn h) ty Hok Hty).
  - exact Hpl.
  - intros m. cbv zeta. apply (long_reads_any (trunc_pn h) ty _ scl Hok Hty); [by rewrite (lxor_keep fb m 0xf 0x80)|by rewrite (lxor_keep fb m 0xf 0x40)|by rewrite header_type_keep].
  - intros b. cbn. by rewrite Hl, Hty.
  - intros b rest. by apply (parse_extended_step (hd b) (fb :: pre) fb pre).
  - intros b. unfold wire_fields, hd. cbn. rewrite Hl, Hty, Hv, Ho, Hsv, Hkp. done.
  - done.
  - intros b. unfold GetLength. cbn [eh_Header set_parsedLen IsLongHeader Type_ h_Length DestConnectionID SrcConnectionID Token PacketNumberLen hd].
    rewrite (VarIntLen_varint (h_Length _)) by apply HLv. cbn [mbind outcome_bind].
    rewrite (VarIntLen_varint (len (Token _))) by apply HT. cbn [mbind outcome_bind]. rewrite len_app. unfold pnb. rewrite Hpl.
    unfold pre, long_prefix, u32_bytes. cbn [tail app trunc_pn set_pn eh_Header].
    destruct ty; repeat case_decide; try congruence; autorewrite with len; f_equal; lia.
Qed.
Lemma short_layout h : short_ok (trunc_pn h) →
  let fb := short_byte (KeyPhase h) (PacketNumberLen h) in
  let pre := DestConnectionID (eh_Header h) in
  let hd b := mkHeader false b None 0 [] (DestConnectionID (eh_Header h)) 0 [] [] [] 0 in
  let pnb := pn_bytes (PacketNumberLen h) (PacketNumber (trunc_pn h)) in
  layout h (len (DestConnectionID (eh_Header h))) 0x1f fb pre pnb hd
    (λ b, mkExtendedHeader (set_parsedLen (hd b) (len (fb :: pre))) fb (KeyPhase h) (PacketNumberLen h) (PacketNumber (trunc_pn h))).
Proof.
  intros Hok fb pre hd pnb. pose proof Hok as (Hl & Hty & Hv & Hs & Hd & HL & HT & Ho & Hsv & Hpn).
  cbn [trunc_pn set_pn eh_Header PacketNumberLen KeyPhase] in *. destruct Hpn as [Hn Hpn].
  destruct (short_byte_bits (KeyPhase h) _ Hn) as (B1 & B2 & B3 & B4 & B5 & _). fold fb in B1, B2, B3, B4, B5.
  pose proof (pn_roundtrip (trunc_pn h) (conj Hn Hpn)) as (_ & Hpr & Hpl). cbn [trunc_pn set_pn PacketNumberLen] in Hpr, Hpl.
  split.
  - rewrite write_trunc by done. exact (short_emits (trunc_pn h) Hok).
  - exact Hpl.
  - intros m. cbv zeta. apply (short_reads_any (trunc_pn h) _ Hok); [by rewrite (lxor_keep fb m 0x1f 0x80)|by rewrite (lxor_keep fb m 0x1f 0x40)].
  - intros b. cbn. by rewrite Hl, HL, Hty.
  - intros b rest. by apply (parse_extended_step (hd b) (fb :: pre) fb pre).
  - intros b. unfold wire_fields, hd. cbn. rewrite Hl, Hty, Hv, Hs, HL, HT, Ho, Hsv. done.
  - done.
  - intros b. unfold GetLength. cbn [eh_Header set_parsedLen IsLongHeader DestConnectionID PacketNumberLen hd].
    rewrite len_app, len_cons. unfold pnb. by rewrite Hpl.
Qed.

(** * One packet *)


Section Packet.
Context `{HPOk} {P A S : Type} `{PacketNumberManager P} `{AckFrameSource A} `{StreamGetter S}.

(** Writing and protecting a packet, and parsing it and removing its header protection. *)
Lemma write_and_unpack (p : @packetPacker _ P A S) env stale h pl pad lvl s s' hp fb pre pnb hd ext scl body c pns last rest :
  layout h scl (hp_bits hp) fb pre pnb hd ext → 1 <= PacketNumberLen h <= 4 →
  emits (write_payload pl pad) body → len body = pl_length pl + pad → 0 <= pl_length pl → 0 <= pad →
  len ((fb :: pre) ++ pnb) + len body <= maxPacketSize p → 0 <= sealer_Overhead s →
  len ((fb :: pre) ++ pnb) + len body + sealer_Overhead s <= MaxReceivePacketSize →
  sealer_Seal s body (PacketNumber h) ((fb :: pre) ++ pnb) = Ok (s', c) →
  (∀ sample b bs, sealer_EncryptHeader s' sample b bs = hp_apply hp sample b bs) →
  20 <= PacketNumberLen h + len c → len c < 2 ^ 60 → 0 <= h_Length (eh_Header h) →
  pn_Pop (pnManager p) lvl (env_rand env) = Ok (pns, PacketNumber h) →
  (if IsLongHeader (eh_Header h) then h_Length (eh_Header h) = PacketNumberLen h + len c else rest = [] ∧ h_Length (eh_Header h) = 0) →
  DecodePacketNumber (PacketNumberLen h) last (PacketNumber (trunc_pn h)) = PacketNumber h →
  ∃ raw b0, writeAndSealPacketWithPadding p env stale h pl pad lvl s
      = Ok (PacketPacker.set_pns (set_setup p (put_sealer (cryptoSetup_ p) lvl s')) pns, mkPacked h raw (pl_ack pl) (pl_frames pl))
    ∧ len raw = len ((fb :: pre) ++ pnb) + len c
    ∧ ParsePacket (raw ++ rest) scl = Ok (set_parsedLen (hd b0) (len (fb :: pre)), raw, rest)
    ∧ unpack (hp_apply hp) last (set_parsedLen (hd b0) (len (fb :: pre))) raw
      = Ok (((fb :: pre) ++ pnb) ++ c, set_pn (ext b0) (PacketNumber h), false).
Proof.
  intros L Hn Hbody Hblen Hpl Hpad Hmax Hov Hrcv Hseal Henc H20 Hc60 HL0 Hpop Hlen Hdec.
  pose proof (lay_pn _ _ _ _ _ _ _ _ L) as Hpnb. pose proof (len_nonneg ((fb :: pre) ++ pnb)) as Hh0.
  assert (HextPn : ∀ b, PacketNumberLen (ext b) = len pnb).
  { intros b. pose proof (lay_fields _ _ _ _ _ _ _ _ L b) as Hf. unfold wire_fields in Hf. cbn in Hf. injection Hf. intros. congruence. }
  assert (Hhd : len ((fb :: pre) ++ pnb) = len (fb :: pre) + len pnb) by apply len_app.
  pose proof (len_nonneg body) as Hb0. pose proof (len_nonneg c) as Hc0. unfold MaxReceivePacketSize in Hrcv.
  destruct (unpack_protected hp last (set_parsedLen (hd fb) (len (fb :: pre))) fb pre pnb c (ext fb)) as (b0 & pnb' & (m & Eb0) & Hpnb' & Happ & _);
    [done|lia|lia|exact (lay_ext _ _ _ _ _ _ _ _ L fb)|by rewrite HextPn|exact (lay_length _ _ _ _ _ _ _ _ L fb)|].
  destruct (unpack_protected hp last (set_parsedLen (hd b0) (len (fb :: pre))) fb pre pnb c (ext b0)) as (b1 & pnb1 & _ & _ & Happ1 & Hun);
    [done|lia|lia|exact (lay_ext _ _ _ _ _ _ _ _ L b0)|by rewrite HextPn|exact (lay_length _ _ _ _ _ _ _ _ L b0)|].
  rewrite Happ in Happ1. injection Happ1 as <- <-.
  exists (b0 :: pre ++ pnb' ++ c), b0.
  assert (Hraw : len (b0 :: pre ++ pnb' ++ c) = len ((fb :: pre) ++ pnb) + len c).
  { cbn [app]. rewrite !len_cons, !len_app. unfold len at 2. rewrite Hpnb'. unfold len. lia. }
  split; [|split; [done|split]].
  - unfold writeAndSealPacketWithPadding. rewrite (run_writer_emits _ _ _ (lay_emits _ _ _ _ _ _ _ _ L)). cbn [mbind outcome_bind app].
    change (fb :: pre ++ pnb) with ((fb :: pre) ++ pnb). rewrite (run_writer_emits _ _ _ Hbody). cbn [mbind outcome_bind].
    set (hb := (fb :: pre) ++ pnb) in *.
    assert (len (hb ++ body) = len hb + len body) as -> by apply len_app.
    replace (len hb + len body - len hb - pad) with (pl_length pl) by lia.
    rewrite u64_small, Z.eqb_refl by lia. cbn [negb].
    rewrite (proj2 (Z.ltb_ge _ _)) by lia. rewrite (proj2 (Z.ltb_ge _ _)) by (unfold MaxReceivePacketSize; lia).
    assert (drop (Z.to_nat (len hb)) (hb ++ body) = body) as -> by (unfold len; rewrite Nat2Z.id; apply drop_app_length).
    rewrite Hseal. cbn [mbind outcome_bind].
    replace (Z.to_nat (len hb - PacketNumberLen h)) with (length (fb :: pre)) by (rewrite Hhd, Hpnb; unfold len; lia).

    assert (Es : take 16 (drop (length (fb :: pre) + 4) ((hb ++ c) ++ stale)) = take 16 (drop (length (fb :: pre) + 4) ((fb :: pre) ++ pnb ++ c))).
    { rewrite (app_assoc (fb :: pre) pnb c). fold hb.
      assert (length (fb :: pre) + 4 + 16 <= length (hb ++ c))%nat by (rewrite length_app; unfold len in *; lia).
      rewrite drop_app_le by lia. rewrite take_app_le; [done|]. rewrite length_drop. lia. }
    change (fb :: ((pre ++ pnb) ++ c) ++ stale) with ((hb ++ c) ++ stale). rewrite Es. unfold hb at 1. rewrite drop_app_length, Henc, Happ. cbn [mbind outcome_bind]. rewrite Hpop. cbn [mbind outcome_bind].
    rewrite Z.eqb_refl. cbn [negb].
    assert (take (length (fb :: pre)) (fb :: (pre ++ pnb) ++ c) = fb :: pre) as ->.
    { rewrite <- app_assoc. exact (take_app_length (fb :: pre) (pnb ++ c)). }
    done.
  - pose proof (lay_reads _ _ _ _ _ _ _ _ L m) as Hrd. cbv zeta in Hrd. rewrite <- Eb0 in Hrd.
    destruct (lay_long _ _ _ _ _ _ _ _ L b0) as (HIl & HLl & _).
    pose proof (parse_packet_step scl (b0 :: pre) (hd b0) (pnb' ++ c) rest Hrd) as Hp.
    replace (len (fb :: pre)) with (len (b0 :: pre)) by (rewrite !len_cons; done). apply Hp.
    + rewrite HIl, HLl. destruct (IsLongHeader (eh_Header h)); [|apply Hlen]. rewrite len_app. unfold len at 1. rewrite Hpnb'.
      fold (len pnb). lia.
    + rewrite HLl, len_cons. rewrite len_cons in Hhd. destruct (IsLongHeader (eh_Header h)); [|destruct Hlen as [_ ->]]; lia.
    + by rewrite HLl.
  - rewrite Hun. do 3 f_equal; [by rewrite app_assoc|]. rewrite (lay_sent _ _ _ _ _ _ _ _ L), Hpnb, Hdec. done.
Qed.
End Packet.

(** * Payloads *)

(** The frames of a payload, one after the other, as the connection reads them. *)
Fixpoint parse_frames (fuel : nat) (fp : frameParser) (lvl : EncryptionLevel) (data : list Z) : outcome (list Frame) :=
  match fuel with
  | O => Err (Errorf "out of fuel" [])
  | Datatypes.S fuel =>
      '(f, rest) ← ParseNext fp lvl data;
      match f with
      | None => Ok []
      | Some f => fs ← parse_frames fuel fp lvl rest; Ok (f :: fs)
      end
  end.
Definition frames_of (fp : frameParser) (lvl : EncryptionLevel) (data : list Z) : outcome (list Frame) :=
  parse_frames (Datatypes.S (length data)) fp lvl data.

Definition ack_frames (ack : option AckFrame) : list Frame := match ack with Some a => [FAck a] | None => [] end.
(** Frames that may be sent together: only the last may extend to the end of the
    packet. *)
Fixpoint frames_ok (lvl : EncryptionLevel) (l : list Frame) : Prop :=
  match l with
  | [] => True
  | f :: l' => frame_ok f ∧ frame_sendable f ∧ isAllowedAtEncLevel f lvl = true ∧ (fills_packet f = true → l' = []) ∧ frames_ok lvl l'
  end.
Definition payload_ok (lvl : EncryptionLevel) (pl : payload) : Prop :=
  frames_ok lvl (ack_frames (pl_ack pl) ++ pl_frames pl) ∧ pl_length pl = frames_len (ack_frames (pl_ack pl) ++ pl_frames pl)
  ∧ 0 < pl_length pl.

Definition exp_ok (fp : frameParser) (lvl : EncryptionLevel) : Prop := lvl = Encryption1RTT → fp_ackDelayExponent fp = AckDelayExponent.

Lemma parse_padding fuel fp lvl n data : parse_frames fuel fp lvl (replicate n 0 ++ data) = parse_frames fuel fp lvl data.
Proof. destruct fuel; [done|]. cbn [parse_frames]. by rewrite ParseNext_padding. Qed.
Lemma parse_cons fp lvl f rest : exp_ok fp lvl → frame_ok f → frame_sendable f → isAllowedAtEncLevel f lvl = true →
  (fills_packet f = true → rest = []) →
  ∃ enc f', emits (Frame_Write f) enc ∧ (0 < length enc)%nat ∧ frame_len f = len enc ∧ read_as f f' ∧
    ∀ fuel, parse_frames (Datatypes.S fuel) fp lvl (enc ++ rest) = (fs ← parse_frames fuel fp lvl rest; Ok (f' :: fs)).
Proof.
  intros Hexp Hok Hs Hal Hrest. destruct (frame_law fp lvl f rest Hok Hs Hexp Hrest) as (t & e & f' & Ht & He & Hl & Hr & Hb).
  exists (t :: e), f'. split_and!; [done|cbn; lia|unfold frame_len; by rewrite Hl, len_cons|done|]. intros fuel. cbn [parse_frames app ParseNext].
  rewrite (proj2 (Z.eqb_neq _ _) Ht). cbn [app] in Hb. rewrite (parseFrame_allowed _ _ _ _ _ _ Hb); [done|]. by rewrite (read_as_allowed f f').
Qed.
Lemma frame_len_pos f : frame_ok f → frame_sendable f → 0 < frame_len f.
Proof.
  intros Hok Hs. destruct (frame_law (mkFrameParser AckDelayExponent 0) Encryption1RTT f [] Hok Hs) as (t & e & f' & _ & _ & Hl & _); [done..|].
  unfold frame_len. rewrite Hl. pose proof (len_nonneg e). lia.
Qed.
(** Writing frames and reading them back; padding may come in between. *)
Lemma frames_written fp lvl l : exp_ok fp lvl → frames_ok lvl l →
  ∃ enc fs, emits (foldr (λ f w, Frame_Write f >>> w) wdone l) enc ∧ frames_len l = len enc ∧ Forall2 read_as l fs ∧
    ∀ fuel, (length enc < fuel)%nat → parse_frames fuel fp lvl enc = Ok fs.
Proof.
  intros Hexp. induction l as [|f l IH]; intros Hl.
  - exists [], []. split_and!; [apply emits_done|done|constructor|]. intros [|fuel] ?; [cbn in *; lia|done].
  - destruct Hl as (Hok & Hs & Hal & Hfill & Hl'). destruct (IH Hl') as (enc & fs & E1 & E2 & E3 & E4).
    destruct (parse_cons fp lvl f enc Hexp Hok Hs Hal) as (e & f' & F1 & F0 & F2 & F3 & F4).
    { intros Hf. rewrite (Hfill Hf) in E2. cbn in E2. by apply len_zero. }
    exists (e ++ enc), (f' :: fs). split_and!; [by apply emits_then|cbn [frames_len foldr]; fold (frames_len l); rewrite len_app; lia|by constructor|].
    intros [|fuel] Hfu; rewrite length_app in Hfu; [lia|]. rewrite F4, E4 by lia. done.
Qed.
Lemma payload_written fp lvl pl pad : exp_ok fp lvl → payload_ok lvl pl → 0 <= pad < 2 ^ 63 →
  ∃ body fs, emits (write_payload pl pad) body ∧ len body = pl_length pl + pad ∧
    Forall2 read_as (ack_frames (pl_ack pl) ++ pl_frames pl) fs ∧ frames_of fp lvl body = Ok fs.
Proof.
  intros Hexp (Hfr & Hlen & _) Hpad.
  assert (Hp : emits (if 0 <? pad then if i64 pad <? 0 then wpanic "bytes: negative Repeat count" else WriteBytes (replicate (Z.to_nat (i64 pad)) 0) else wdone)
    (replicate (Z.to_nat pad) 0)).
  { destruct (Z.ltb_spec 0 pad) as [H0|H0].
    - rewrite i64_small by lia. rewrite (proj2 (Z.ltb_ge _ _)) by lia. apply emits_bytes.
    - replace pad with 0 by lia. apply emits_done. }
  assert (Hpl : len (replicate (Z.to_nat pad) 0) = pad) by (unfold len; rewrite length_replicate; lia).
  unfold write_payload. destruct (pl_ack pl) as [ack|] eqn:Ea; cbn [ack_frames app] in *.
  - destruct Hfr as (Hok & Hs & Hal & _ & Hl'). destruct (frames_written fp lvl _ Hexp Hl') as (enc & fs & E1 & E2 & E3 & E4).
    destruct (parse_cons fp lvl (FAck ack) (replicate (Z.to_nat pad) 0 ++ enc) Hexp Hok Hs Hal) as (e & f' & F1 & F0 & F2 & F3 & F4); [done|].
    exists (e ++ replicate (Z.to_nat pad) 0 ++ enc), (f' :: fs).
    split_and!; [apply emits_then; [exact F1|by apply emits_then]| |by constructor|].
    + rewrite Hlen. cbn [frames_len foldr]. fold (frames_len (pl_frames pl)). rewrite !len_app, Hpl. lia.
    + unfold frames_of. rewrite F4, parse_padding, E4; [done|]. rewrite !length_app. lia.
  - destruct (frames_written fp lvl _ Hexp Hfr) as (enc & fs & E1 & E2 & E3 & E4).
    exists (replicate (Z.to_nat pad) 0 ++ enc), fs.
    split_and!; [apply emits_done_then; by apply emits_then|rewrite Hlen, len_app, Hpl; lia|done|].
    unfold frames_of. rewrite parse_padding, E4; [done|]. rewrite !length_app. lia.
Qed.

(** * Keys of the two sides *)

Section Delivery.
Context `{HPOk, !QTLSOk} {P A S : Type} `{PacketNumberManager P} `{AckFrameSource A} `{StreamGetter S}.

Record crypter_ok (ns : Z) (aead : cipherAEAD) (hp : headerProtector) (s : longHeaderCrypter) : Prop := mkCrypterOk {
  cr_aead : lh_aead s = aead; cr_hp : lh_headerProtector s = hp;
  cr_nonce : ∃ l, lh_nonceBuf s = replicate (Z.to_nat ns - 8) 0 ++ l ∧ length l = 8%nat }.
Lemma crypter_nonce ns aead hp s pn : crypter_ok ns aead hp s → put_nonce (lh_nonceBuf s) pn = Ok (nonce ns pn).
Proof.
  intros [_ _ (l & E & Hl)]. unfold put_nonce. rewrite E. rewrite (proj2 (Z.ltb_ge _ _)).
  - rewrite length_app, Hl, Nat.add_sub. by rewrite take_app_length.
  - rewrite len_app. unfold len at 2. rewrite Hl. pose proof (len_nonneg (replicate (Z.to_nat ns - 8) 0)). lia.
Qed.
Lemma crypter_new aead hp : 8 <= NonceSize aead →
  crypter_ok (NonceSize aead) aead hp (newLongHeaderSealer aead hp) ∧ crypter_ok (NonceSize aead) aead hp (newLongHeaderOpener aead hp).
Proof.
  intros Hn. split; split; try done; cbn; exists (replicate 8 0); (split; [|done]);
    rewrite <- replicate_add; f_equal; lia.
Qed.

(** The receiver has the keys that [s] seals packet [pn] with: at the Initial and
    Handshake levels the same ones; at 1-RTT those of the same key phase, or of the
    phase before when an update is due. *)
Definition keys_agree (lvl : EncryptionLevel) (s : sealer) (hp : headerProtector) (cs : cryptoSetup) (pn : Z) (kp : bool) : Prop :=
  match s, lvl with
  | LongSealer s, EncryptionInitial =>
      ∃ ns aead o, crypter_ok ns aead hp s ∧ crypter_ok ns aead hp o ∧ initialOpener cs = Some o ∧ hp_bits hp = 0xf
  | LongSealer s, EncryptionHandshake =>
      ∃ ns aead o, crypter_ok ns aead hp s ∧ crypter_ok ns aead hp o ∧ handshakeOpener cs = Some o ∧ hp_bits hp = 0xf
  | ShortSealer a, Encryption1RTT =>
      ∃ su ns sec back back', keys_ok su ns back sec a ∧ keys_ok su ns sec back' (cs_aead cs) ∧ separated su sec
        ∧ headerEncrypter a = Some hp ∧ headerDecrypter (cs_aead cs) = Some hp ∧ hp_bits hp = 0x1f
        ∧ (∀ n, aead_Overhead (phase_key su sec n) = aeadOverhead a)
        ∧ has1RTTOpener cs = true ∧ kp = KeyPhase_Bit (keyPhase a) ∧ keyPhase (cs_aead cs) + 1 < 2 ^ 64
        ∧ (keyPhase a = keyPhase (cs_aead cs)
           ∨ keyPhase a = keyPhase (cs_aead cs) + 1 ∧ firstRcvdWithCurrentKey (cs_aead cs) ≠ -1
             ∧ firstRcvdWithCurrentKey (cs_aead cs) <= pn ∧ firstSentWithCurrentKey (cs_aead cs) ≠ -1)
  | _, _ => False
  end.
Lemma agree_overhead lvl s hp cs pn kp : keys_agree lvl s hp cs pn kp → sealer_Overhead s = 16.
Proof.
  destruct s as [s|a], lvl; cbn; try done.
  - intros (ns & aead & o & [<- _ _] & _). apply overhead_16.
  - intros (ns & aead & o & [<- _ _] & _). apply overhead_16.
  - intros (su & ns & sec & back & back' & _ & _ & _ & _ & _ & _ & Ho & _). unfold up_Overhead. rewrite <- (Ho 0). apply overhead_16.
Qed.
(** Sealing with agreed keys. *)
Lemma agree_seal lvl s hp cs pn kp body ad : keys_agree lvl s hp cs pn kp →
  ∃ s' c, sealer_Seal s body pn ad = Ok (s', c) ∧ len c = len body + sealer_Overhead s
    ∧ (∀ sample b bs, sealer_EncryptHeader s' sample b bs = hp_apply hp sample b bs)
    ∧ match s, lvl with
      | LongSealer s, EncryptionInitial => ∃ o o', initialOpener cs = Some o ∧ lh_headerProtector o = hp ∧ long_Open o c pn ad = (o', Ok body)
      | LongSealer s, EncryptionHandshake => ∃ o o', handshakeOpener cs = Some o ∧ lh_headerProtector o = hp ∧ long_Open o c pn ad = (o', Ok body)
      | _, _ => 0 <= pn → has1RTTOpener cs = true ∧ headerDecrypter (cs_aead cs) = Some hp ∧
          ∀ rtt t, ∃ a', up_Open (cs_aead cs) rtt c t pn kp ad = (a', Ok body)
      end.
Proof.
  destruct s as [s|a]; cbn [keys_agree sealer_Seal].
  - intros Hk. assert (Hlong : ∀ ns aead o, crypter_ok ns aead hp s → crypter_ok ns aead hp o →
      ∃ s' c, long_Seal s body pn ad = Ok (s', c) ∧ len c = len body + long_Overhead s ∧ lh_headerProtector s' = hp
        ∧ lh_headerProtector o = hp ∧ ∃ o', long_Open o c pn ad = (o', Ok body)).
    { intros ns aead o Hs Ho. unfold long_Seal, long_Open, long_Overhead. rewrite (crypter_nonce _ _ _ _ pn Hs), (crypter_nonce _ _ _ _ pn Ho).
      cbn [mbind outcome_bind]. destruct Hs as [-> Hs _], Ho as [-> Ho _]. do 2 eexists. split; [done|].
      split; [rewrite seal_len; done|]. split; [done|]. split; [done|]. rewrite seal_open. by eexists. }
    destruct lvl; try done; destruct Hk as (ns & aead & o & Hs & Ho & Eo & _);
      destruct (Hlong ns aead o Hs Ho) as (s' & c & E & Hc & Hh & Hh' & o' & E'); rewrite E; cbn [mbind outcome_bind];
      exists (LongSealer s'), c; (split; [done|]); (split; [done|]); (split; [intros; cbn; unfold long_EncryptHeader; by rewrite Hh|]);
      exists o, o'; done.
  - destruct lvl; try done. intros (su & ns & sec & back & back' & Ka & Kb & Hsep & He & Hd & _ & Ho & Hhas & -> & Hph & Hcase).
    destruct (seal_spec su ns back sec a body pn ad Ka) as (a' & E & Ka' & _). rewrite E. cbn [mbind outcome_bind].
    eexists (ShortSealer a'), _. split; [done|]. split; [by rewrite seal_len, Ho|].
    assert (headerEncrypter a' = headerEncrypter a) as He'.
    { unfold up_Seal in E. rewrite (put_nonce_ok su ns back sec _ pn) in E by (destruct Ka; by split). cbn [mbind outcome_bind] in E.
      cbn [sendAEAD set_sent] in E. destruct (sendAEAD a); [|done]. injection E as <- _. done. }
    split; [intros; cbn; unfold up_EncryptHeader; by rewrite He', He|]. intros Hpn. split; [done|]. split; [done|]. intros rtt t.
    pose proof (ko_phase _ _ _ _ _ Ka) as P1. pose proof (ko_phase _ _ _ _ _ Kb) as P2.
    destruct (open_spec su ns sec back' (cs_aead cs) rtt t (keyPhase a) body pn ad Kb Hsep Hph) as (b' & r & Eo & _ & _ & Hr).
    + lia.
    + done.
    + intros E1. destruct Hcase as [E2|(_ & ?)]; [lia|done].
    + intros E1. destruct Hcase as [E2|[E2 _]]; lia.
    + exists b'. rewrite Eo. f_equal. destruct Hcase as [E2|[E2 _]], Hr as [Hr|[Hr|[Hr|Hr]]]; destruct Hr as (Hm & Hr); (lia || apply Hr).
Qed.

(** What the receiver makes of the bytes of a packet. *)
Definition delivered (u : packetUnpacker) (rtt : RTTStats) (t : Z) (fp : frameParser) (lvl : EncryptionLevel)
    (scl : Z) (raw rest : list Z) (h : ExtendedHeader) (frames : list Frame) : Prop :=
  ∃ hdr u' up fs, ParsePacket (raw ++ rest) scl = Ok (hdr, raw, rest)
    ∧ Unpack u rtt hdr t raw = (u', Ok up)
    ∧ un_packetNumber up = PacketNumber h ∧ un_encryptionLevel up = lvl ∧ wire_fields (un_hdr up) = wire_fields h
    ∧ largestRcvdPacketNumber u' = Z.max (largestRcvdPacketNumber u) (PacketNumber h)
    ∧ frames_of fp lvl (un_data up) = Ok fs ∧ Forall2 read_as frames fs.

Definition level_type (lvl : EncryptionLevel) : option PacketType :=
  match lvl with EncryptionInitial => Some PacketTypeInitial | EncryptionHandshake => Some PacketTypeHandshake | _ => None end.

Lemma write_delivered (p : @packetPacker _ P A S) env stale h pl pad lvl s hp fb pre pnb hd ext scl u rtt t fp pns rest :
  layout h scl (hp_bits hp) fb pre pnb hd ext → 1 <= PacketNumberLen h <= 4 →
  keys_agree lvl s hp (un_cs u) (PacketNumber h) (KeyPhase h) → 0 <= PacketNumber h →
  IsLongHeader (eh_Header h) = negb (bool_decide (lvl = Encryption1RTT)) → Type_ (eh_Header h) = level_type lvl →
  payload_ok lvl pl → exp_ok fp lvl → 0 <= pad →
  len ((fb :: pre) ++ pnb) + pl_length pl + pad + sealer_Overhead s <= maxPacketSize p → maxPacketSize p <= MaxReceivePacketSize →
  4 <= PacketNumberLen h + pl_length pl + pad →
  pn_Pop (pnManager p) lvl (env_rand env) = Ok (pns, PacketNumber h) →
  (if IsLongHeader (eh_Header h) then h_Length (eh_Header h) = PacketNumberLen h + pl_length pl + pad + sealer_Overhead s
   else rest = [] ∧ h_Length (eh_Header h) = 0) →
  DecodePacketNumber (PacketNumberLen h) (largestRcvdPacketNumber u) (PacketNumber (trunc_pn h)) = PacketNumber h →
  ∃ p' raw, writeAndSealPacketWithPadding p env stale h pl pad lvl s = Ok (p', mkPacked h raw (pl_ack pl) (pl_frames pl))
    ∧ pnManager p' = pns
    ∧ len raw = len ((fb :: pre) ++ pnb) + pl_length pl + pad + sealer_Overhead s
    ∧ delivered u rtt t fp lvl scl raw rest h (ack_frames (pl_ack pl) ++ pl_frames pl).
Proof.
  intros L Hn Hk Hpn0 Hlong Hty Hpl Hexp Hpad Hmax Hmax2 Hfour Hpop Hlen Hdec.
  pose proof (agree_overhead _ _ _ _ _ _ Hk) as Hov. pose proof Hpl as (_ & _ & Hpos). pose proof (len_nonneg ((fb :: pre) ++ pnb)) as Hh0.
  unfold MaxReceivePacketSize in Hmax2.
  destruct (payload_written fp lvl pl pad Hexp Hpl ltac:(lia)) as (body & fs & Hb & Hbl & Hrd & Hfs).
  destruct (agree_seal _ _ _ _ _ _ body ((fb :: pre) ++ pnb) Hk) as (s' & c & Hs & Hc & Henc & Hopen).
  destruct (write_and_unpack p env stale h pl pad lvl s s' hp fb pre pnb hd ext scl body c pns (largestRcvdPacketNumber u) rest)
    as (raw & b0 & Hw & Hraw & Hparse & Hun); try done; try lia.
  { unfold MaxReceivePacketSize. lia. }
  { destruct (IsLongHeader (eh_Header h)); lia. }
  { destruct (IsLongHeader (eh_Header h)); [lia|done]. }
  do 2 eexists. split; [exact Hw|]. split; [done|]. split; [lia|].
  destruct (lay_long _ _ _ _ _ _ _ _ L b0) as (HIl & _ & HTl).
  pose proof (lay_fields _ _ _ _ _ _ _ _ L b0) as Hf.
  assert (Hgl : GetLength (set_pn (ext b0) (PacketNumber h)) = Ok (len ((fb :: pre) ++ pnb))) by exact (lay_length _ _ _ _ _ _ _ _ L b0).
  assert (Hsplit : split_header (set_pn (ext b0) (PacketNumber h)) (((fb :: pre) ++ pnb) ++ c) = Ok ((fb :: pre) ++ pnb, c)).
  { unfold split_header. rewrite Hgl. cbn [mbind outcome_bind]. rewrite (proj2 (Z.ltb_ge _ _)) by (rewrite (len_app _ c); pose proof (len_nonneg c); lia).
    unfold len. rewrite Nat2Z.id, take_app_length, drop_app_length. done. }
  assert (Hkp : KeyPhase (ext b0) = KeyPhase h) by (unfold wire_fields in Hf; cbn in Hf; injection Hf; congruence).
  exists (set_parsedLen (hd b0) (len (fb :: pre))).
  assert (Hres : ∃ u' up, Unpack u rtt (set_parsedLen (hd b0) (len (fb :: pre))) t raw = (u', Ok up) ∧ un_packetNumber up = PacketNumber h
    ∧ un_encryptionLevel up = lvl ∧ un_hdr up = set_pn (ext b0) (PacketNumber h) ∧ un_data up = body
    ∧ largestRcvdPacketNumber u' = Z.max (largestRcvdPacketNumber u) (PacketNumber h)).
  { unfold Unpack. cbn [set_parsedLen Type_ IsLongHeader]. rewrite HTl, Hty, HIl, Hlong.
    assert (Hmx : MaxPacketNumber (largestRcvdPacketNumber u) (PacketNumber h) = Z.max (largestRcvdPacketNumber u) (PacketNumber h)).
    { unfold MaxPacketNumber. destruct (Z.ltb_spec (PacketNumber h) (largestRcvdPacketNumber u)); lia. }
    destruct s as [s|a], lvl; try done; cbn [level_type].
    - destruct Hopen as (o & o' & Eo & <- & EO). unfold GetInitialOpener. rewrite Eo. unfold unpackLongHeaderPacket, long_DecryptHeader.
      change hp_DecryptHeader with (hp_apply (H := H)). rewrite Hun, Hsplit. cbn [set_pn PacketNumber]. rewrite EO. cbn [mbind outcome_bind unpacked].
      do 2 eexists. split; [done|]. cbn. rewrite Hmx. done.
    - destruct Hopen as (o & o' & Eo & <- & EO). unfold GetHandshakeOpener. rewrite Eo. unfold unpackLongHeaderPacket, long_DecryptHeader.
      change hp_DecryptHeader with (hp_apply (H := H)). rewrite Hun, Hsplit. cbn [set_pn PacketNumber]. rewrite EO. cbn [mbind outcome_bind unpacked].
      do 2 eexists. split; [done|]. cbn. rewrite Hmx. done.
    - destruct (Hopen Hpn0) as (Hhas & Hd & Hup). destruct (Hup rtt t) as (a' & EO). rewrite bool_decide_true by done. cbn [negb].
      unfold Get1RTTOpener. rewrite Hhas. unfold unpackShortHeaderPacket, unpack, up_DecryptHeader. rewrite Hd. fold (unpack (hp_apply (H := H) hp) (largestRcvdPacketNumber u) (set_parsedLen (hd b0) (len (fb :: pre))) raw).
      change hp_DecryptHeader with (hp_apply (H := H)). fold (unpack (hp_apply (H := H) hp) (largestRcvdPacketNumber u) (set_parsedLen (hd b0) (len (fb :: pre))) raw).
      rewrite Hun, Hsplit. cbn [set_pn PacketNumber KeyPhase]. rewrite Hkp, EO. cbn [mbind outcome_bind unpacked].
      do 2 eexists. split; [done|]. cbn. rewrite Hmx. done. }
  destruct Hres as (u' & up & HU & E1 & E2 & E3 & E4 & E5). exists u', up, fs.
  split; [exact Hparse|]. split; [exact HU|]. split; [done|]. split; [done|]. split; [by rewrite E3|]. split; [done|]. split; [by rewrite E4|done].
Qed.

(** * Packets of every level *)

Lemma GetLength_fields a b : wire_fields a = wire_fields b → GetLength a = GetLength b.
Proof. unfold wire_fields, GetLength. intros [= -> -> _ -> -> -> -> _ _ _ -> _]. done. Qed.
Lemma GetLength_set_Length h n L : IsLongHeader (eh_Header h) = true → GetLength h = Ok n → 0 <= L <= h_Length (eh_Header h) →
  h_Length (eh_Header h) < 16384 →
  ∃ k, GetLength (set_Length h L) = Ok k ∧ k <= n ∧ (64 <= L → k = n).
Proof.
  intros Hl E HL Hmax. assert (maxVarInt8 = 4611686018427387903) as EM by done. unfold GetLength in *. cbn [set_Length eh_Header IsLongHeader h_Length Token DestConnectionID SrcConnectionID Type_ PacketNumberLen] in *.
  rewrite Hl in *. rewrite (VarIntLen_varint (h_Length (eh_Header h))) in E by lia. rewrite (VarIntLen_varint L) by lia. cbn [mbind outcome_bind] in *.
  pose proof (varint_len_small L ltac:(lia)) as E1. pose proof (varint_len_small (h_Length (eh_Header h)) ltac:(lia)) as E2.
  destruct (Z.ltb_spec L 64), (Z.ltb_spec (h_Length (eh_Header h)) 64); try lia.
  all: case_decide; [destruct (VarIntLen (len (Token (eh_Header h)))); try done; cbn [mbind outcome_bind] in *|]; injection E as E;
    (eexists; split; [done|]; rewrite E1; rewrite E2 in E; split; [lia|intros; lia]).
Qed.
Lemma GetLength_bounds h n : IsLongHeader (eh_Header h) = true → 1 <= PacketNumberLen h → h_Length (eh_Header h) <= maxVarInt8 → GetLength h = Ok n →
  8 <= n ∧ (Type_ (eh_Header h) = Some PacketTypeInitial → len (Token (eh_Header h)) <= n).
Proof.
  intros Hl Hn HL E. unfold GetLength in E. rewrite Hl in E. rewrite (VarIntLen_varint (h_Length (eh_Header h))) in E by done. cbn [mbind outcome_bind] in E.
  pose proof (varint_len _ HL). pose proof (len_nonneg (DestConnectionID (eh_Header h))). pose proof (len_nonneg (SrcConnectionID (eh_Header h))).
  pose proof (len_nonneg (Token (eh_Header h))). case_decide as Hi.
  - destruct (VarIntLen (len (Token (eh_Header h)))) as [tl| |] eqn:Et; try done. cbn [mbind outcome_bind] in E. injection E as E.
    assert (1 <= tl); [|split; [lia|intros; lia]].
    unfold VarIntLen in Et. repeat case_match; simplify_eq; lia.
  - injection E as E. split; [lia|]. done.
Qed.

Record packer_ok (p : @packetPacker _ P A S) : Prop := mkPackerOk {
  po_dest : cid_ok (destConnID p); po_src : cid_ok (srcConnID p); po_version : pk_version p = VersionTLS;
  po_max : MinInitialPacketSize <= maxPacketSize p <= MaxReceivePacketSize }.
(** The header the packer makes for the next packet of a level. *)
Definition next_header (p : @packetPacker _ P A S) (lvl : EncryptionLevel) (kp : bool) : outcome ExtendedHeader :=
  match lvl with Encryption1RTT => getShortHeader p kp | _ => getLongHeader p lvl end.
(** The receiver has seen packets close enough to [pn] to know it by [n] bytes. *)
Definition in_window (n last pn : Z) : Prop := 0 <= last < 2 ^ 61 ∧ 0 <= pn ∧ 2 * Z.abs (pn - (last + 1)) < 2 ^ (8 * n).
(** Initial packets of a client are padded to their minimum size. *)
Definition level_max (p : @packetPacker _ P A S) (lvl : EncryptionLevel) : Z :=
  if bool_decide (pk_perspective p = PerspectiveClient) && bool_decide (lvl = EncryptionInitial) then MinInitialPacketSize else maxPacketSize p.

(** The bytes of the packet number that are sent are enough. *)
Lemma window_decodes h last : 2 <= PacketNumberLen h <= 4 → in_window (PacketNumberLen h) last (PacketNumber h) →
  DecodePacketNumber (PacketNumberLen h) last (PacketNumber (trunc_pn h)) = PacketNumber h
  ∧ pn_ok (PacketNumberLen h) (PacketNumber (trunc_pn h)) ∧ 0 <= PacketNumber h.
Proof.
  intros Hn (Hl0 & Hl1 & Hwin). cbn. split; [apply DecodePacketNumber_window; [lia|done..]|]. split; [|done]. split; [lia|].
  apply Z.mod_pos_bound, Z.pow_pos_nonneg; lia.
Qed.
Lemma agree_bits lvl s hp cs pn kp : keys_agree lvl s hp cs pn kp → hp_bits hp = if bool_decide (lvl = Encryption1RTT) then 0x1f else 0xf.
Proof.
  destruct s as [s|a], lvl; cbn; try done; [intros (? & ? & ? & _ & _ & _ & Hb)..|intros (? & ? & ? & ? & ? & _ & _ & _ & _ & _ & Hb & _)]; done.
Qed.

(** A 1-RTT packet is padded so that there is enough to sample. *)
Lemma short_sealed (p : @packetPacker _ P A S) env stale h pl kp s hp u rtt t fp pns n :
  packer_ok p → getShortHeader p kp = Ok h → 2 <= PacketNumberLen h <= 4 →
  pn_Pop (pnManager p) Encryption1RTT (env_rand env) = Ok (pns, PacketNumber h) →
  in_window (PacketNumberLen h) (largestRcvdPacketNumber u) (PacketNumber h) →
  keys_agree Encryption1RTT s hp (un_cs u) (PacketNumber h) kp → payload_ok Encryption1RTT pl → exp_ok fp Encryption1RTT →
  GetLength h = Ok n → n + pl_length pl + 16 <= maxPacketSize p →
  ∃ p' raw, writeAndSealPacket p env stale h pl Encryption1RTT s = Ok (p', mkPacked h raw (pl_ack pl) (pl_frames pl))
    ∧ pnManager p' = pns ∧ len raw <= maxPacketSize p
    ∧ delivered u rtt t fp Encryption1RTT (len (destConnID p)) raw [] h (ack_frames (pl_ack pl) ++ pl_frames pl).
Proof.
  intros [Hdest Hsrc Hver [Hmin Hmax]] Hh Hpl Hpop Hwin Hk Hpay Hexp Hn Hfit.
  pose proof (agree_overhead _ _ _ _ _ _ Hk) as Hov. pose proof (agree_bits _ _ _ _ _ _ Hk) as Hbits. rewrite bool_decide_true in Hbits by done. pose proof Hpay as (_ & _ & Hpos).
  assert (EM : MinInitialPacketSize = 1200) by done. assert (ER : MaxReceivePacketSize = 1452) by done.
  destruct (window_decodes h _ Hpl Hwin) as (Hdec & Hpok & Hpn0).
  unfold writeAndSealPacket. rewrite bool_decide_true by done. cbn [negb]. unfold getShortHeader in Hh.
  destruct (pn_Peek (pnManager p) Encryption1RTT) as [[pn pnl]| |]; try done. cbn [mbind outcome_bind] in Hh. injection Hh as Hh.
  set (pad := if pl_length pl <? u64 (4 - PacketNumberLen h) then _ else 0).
  assert (Hpad : 0 <= pad <= 2 ∧ 4 <= PacketNumberLen h + pl_length pl + pad ∧ (0 < pad → pl_length pl + pad <= 4)).
  { unfold pad. rewrite (u64_small (4 - PacketNumberLen h)) by lia. destruct (Z.ltb_spec (pl_length pl) (4 - PacketNumberLen h)); [|lia].
    rewrite u64_small by lia. lia. }
  clearbody pad.
  assert (Hok : short_ok (trunc_pn h)) by (subst h; split_and!; done).
  assert (Hscl : DestConnectionID (eh_Header h) = destConnID p) by (subst h; done).
  assert (Hgl : n = 1 + len (destConnID p) + PacketNumberLen h) by (subst h; injection Hn as <-; done).
  pose proof (short_layout h Hok) as L. cbv zeta in L. rewrite <- Hbits, Hscl in L.
  pose proof (lay_pn _ _ _ _ _ _ _ _ L) as Lpn.
  assert (El : ∀ x, len ((x :: destConnID p) ++ pn_bytes (PacketNumberLen h) (PacketNumber (trunc_pn h))) = n).
  { intros x. rewrite len_app, len_cons, Lpn. lia. }
  unfold cid_ok, MaxConnIDLen in Hdest.
  destruct (write_delivered p env stale h pl pad Encryption1RTT s hp _ _ _ _ _ _ u rtt t fp pns [] L) as (p' & raw & Hw & Hp' & Hraw & Hd);
    rewrite ?El, ?Hov in *; try done; try lia; try (by subst h).
  exists p', raw. split_and!; try done; lia.
Qed.

(** What [getLongHeader] says. *)
Record long_header (p : @packetPacker _ P A S) (ty : PacketType) (h : ExtendedHeader) : Prop := mkLongHeader {
  lh_long : IsLongHeader (eh_Header h) = true; lh_type : Type_ (eh_Header h) = Some ty; lh_version : Version (eh_Header h) = VersionTLS;
  lh_src : SrcConnectionID (eh_Header h) = srcConnID p; lh_dest : DestConnectionID (eh_Header h) = destConnID p;
  lh_length : h_Length (eh_Header h) = maxPacketSize p; lh_orig : OrigDestConnectionID (eh_Header h) = [];
  lh_versions : h_SupportedVersions (eh_Header h) = []; lh_kp : KeyPhase h = false; lh_pnl : PacketNumberLen h = 4;
  lh_token : ty ≠ PacketTypeInitial → Token (eh_Header h) = [] }.
Lemma getLongHeader_spec (p : @packetPacker _ P A S) lvl ty h : packer_ok p → level_type lvl = Some ty → getLongHeader p lvl = Ok h → long_header p ty h.
Proof.
  intros [_ _ Hver _] Ety Hh. unfold getLongHeader in Hh. destruct (pn_Peek (pnManager p) lvl) as [[pn pnl]| |]; try done. cbn [mbind outcome_bind] in Hh.
  destruct lvl; try done; injection Ety as <-; injection Hh as <-; split; cbn; rewrite ?Hver; done.
Qed.
(** A long header packet with the given padding. *)
Lemma long_written (p : @packetPacker _ P A S) env stale h pl lvl ty s hp u rtt t fp pns n rest pad L :
  packer_ok p → long_header p ty h → level_type lvl = Some ty →
  pn_Pop (pnManager p) lvl (env_rand env) = Ok (pns, PacketNumber h) →
  in_window (PacketNumberLen h) (largestRcvdPacketNumber u) (PacketNumber h) →
  keys_agree lvl s hp (un_cs u) (PacketNumber h) false → payload_ok lvl pl → exp_ok fp lvl →
  GetLength h = Ok n → 0 <= pad → L = PacketNumberLen h + pl_length pl + pad + 16 → n + pl_length pl + pad + 16 <= maxPacketSize p →
  ∃ p' raw k, writeAndSealPacketWithPadding p env stale (set_Length h L) pl pad lvl s = Ok (p', mkPacked (set_Length h L) raw (pl_ack pl) (pl_frames pl))
    ∧ pnManager p' = pns ∧ len raw = k + pl_length pl + pad + 16 ∧ k <= n ∧ (64 <= L → k = n)
    ∧ delivered u rtt t fp lvl (len (destConnID p)) raw rest (set_Length h L) (ack_frames (pl_ack pl) ++ pl_frames pl).
Proof.
  intros [Hdest Hsrc _ [Hmin Hmax]] [D1 D2 D3 D4 D5 D6 D7 D8 D9 D10 D11] Ety Hpop Hwin Hk Hpay Hexp Hn Hpad HL Hfits.
  pose proof (agree_overhead _ _ _ _ _ _ Hk) as Hov. pose proof (agree_bits _ _ _ _ _ _ Hk) as Hbits. pose proof Hpay as (_ & _ & Hpos).
  assert (EM : MinInitialPacketSize = 1200) by done. assert (ER : MaxReceivePacketSize = 1452) by done. assert (EV : maxVarInt8 = 4611686018427387903) by done.
  assert (Hlvl : bool_decide (lvl = Encryption1RTT) = false) by (destruct lvl; done). rewrite Hlvl in Hbits.
  destruct (window_decodes h _ ltac:(lia) Hwin) as (Hdec & Hpok & Hpn0).
  destruct (GetLength_bounds h n D1 ltac:(lia) ltac:(lia) Hn) as [Hn8 Htok].
  destruct (GetLength_set_Length h n L D1 Hn ltac:(lia) ltac:(lia)) as (k & Hk1 & Hk2 & Hk3).
  assert (Hok : long_ok (trunc_pn (set_Length h L))).
  { unfold long_ok. cbn [trunc_pn set_pn set_Length eh_Header IsLongHeader Version Type_ Token DestConnectionID SrcConnectionID OrigDestConnectionID h_SupportedVersions h_Length KeyPhase PacketNumberLen].
    rewrite D4, D5. split_and!; try done; [|split; lia|].
    - exists ty. split; [done|]. split; [by destruct lvl; try injection Ety as <-|done].
    - split; [apply len_nonneg|]. destruct (decide (ty = PacketTypeInitial)) as [-> |Hi]; [specialize (Htok D2); lia|].
      rewrite D11 by done. change (len []) with 0. lia. }
  pose proof (long_layout (set_Length h L) ty (len (destConnID p)) Hok D2) as Ly. cbv zeta in Ly. rewrite <- Hbits in Ly.
  pose proof (lay_length _ _ _ _ _ _ _ _ Ly 0) as Hlay.
  rewrite (GetLength_fields _ (set_pn (set_Length h L) (PacketNumber (trunc_pn h)))) in Hlay.
  2: { pose proof (lay_fields _ _ _ _ _ _ _ _ Ly 0) as Hf. unfold wire_fields in *. cbn in *. congruence. }
  change (GetLength (set_pn (set_Length h L) (PacketNumber (trunc_pn h)))) with (GetLength (set_Length h L)) in Hlay.
  rewrite Hk1 in Hlay. assert (Hinj : ∀ a b : Z, Ok a = Ok b → a = b) by congruence. apply Hinj in Hlay.
  destruct (write_delivered p env stale (set_Length h L) pl pad lvl s hp _ _ _ _ _ _ u rtt t fp pns rest Ly) as (p' & raw & Hw & Hp' & Hraw & Hd).
  all: cbn [set_Length PacketNumberLen PacketNumber KeyPhase eh_Header IsLongHeader Type_ h_Length trunc_pn set_pn] in *; rewrite ?Hov, ?D9, ?D2, ?D1, ?Hlvl in *; try done; try lia.
  exists p', raw, k. rewrite <- Hlay in Hraw. split_and!; done.
Qed.

(** Every packet the packer writes and seals fits its limit, and the receiver gets
    its packet number, its header and its frames. *)
Lemma seal_packet_ok (p : @packetPacker _ P A S) env stale h pl lvl kp s hp u rtt t fp pns n rest :
  packer_ok p → next_header p lvl kp = Ok h → 2 <= PacketNumberLen h <= 4 →
  pn_Pop (pnManager p) lvl (env_rand env) = Ok (pns, PacketNumber h) →
  in_window (PacketNumberLen h) (largestRcvdPacketNumber u) (PacketNumber h) →
  keys_agree lvl s hp (un_cs u) (PacketNumber h) kp → payload_ok lvl pl → exp_ok fp lvl →
  GetLength h = Ok n → n + pl_length pl + 16 <= level_max p lvl → (lvl = Encryption1RTT → rest = []) →
  ∃ p' pkt, writeAndSealPacket p env stale h pl lvl s = Ok (p', pkt)
    ∧ pp_ack pkt = pl_ack pl ∧ pp_frames pkt = pl_frames pl ∧ pnManager p' = pns
    ∧ len (pp_raw pkt) <= maxPacketSize p
    ∧ (pk_perspective p = PerspectiveClient → lvl = EncryptionInitial → n <= 1140 → len (pp_raw pkt) = MinInitialPacketSize)
    ∧ delivered u rtt t fp lvl (len (destConnID p)) (pp_raw pkt) rest (pp_header pkt) (ack_frames (pl_ack pl) ++ pl_frames pl).
Proof.
  intros Hp Hh Hpl Hpop Hwin Hk Hpay Hexp Hn Hfit Hrest. destruct (decide (lvl = Encryption1RTT)) as [-> |Hlvl].
  { rewrite Hrest by done. unfold level_max in Hfit. rewrite andb_comm, bool_decide_false in Hfit by done. destruct (short_sealed p env stale h pl kp s hp u rtt t fp pns n Hp Hh Hpl Hpop Hwin Hk Hpay Hexp Hn Hfit)
      as (p' & raw & Hw & Hp' & Hraw & Hd). exists p', (mkPacked h raw (pl_ack pl) (pl_frames pl)). done. }
  pose proof (agree_overhead _ _ _ _ _ _ Hk) as Hov. pose proof Hpay as (_ & _ & Hpos). pose proof (po_max _ Hp) as [Hmin Hmax].
  assert (EM : MinInitialPacketSize = 1200) by done. assert (ER : MaxReceivePacketSize = 1452) by done.
  assert (Hty : ∃ ty, level_type lvl = Some ty) by (destruct s, lvl; try done; by eexists). destruct Hty as (ty & Ety).
  assert (Hh' : getLongHeader p lvl = Ok h) by (destruct lvl; done). pose proof (getLongHeader_spec p lvl ty h Hp Ety Hh') as Hlh.
  assert (Hk' : keys_agree lvl s hp (un_cs u) (PacketNumber h) false) by (destruct s, lvl; done).
  assert (Hlm : level_max p lvl <= maxPacketSize p) by (unfold level_max; destruct (_ && _); lia).
  pose proof (lh_pnl _ _ _ Hlh) as Hfour.
  destruct (GetLength_bounds h n (lh_long _ _ _ Hlh)) as [Hn8 _]; [lia|rewrite (lh_length _ _ _ Hlh); unfold maxVarInt8; lia|done|].
  unfold writeAndSealPacket. rewrite bool_decide_false by done. cbn [negb]. rewrite (lh_type _ _ _ Hlh), Hov.
  destruct (bool_decide (pk_perspective p = PerspectiveClient) && bool_decide (Some ty = Some PacketTypeInitial)) eqn:Ecl.
  - apply andb_true_iff in Ecl as [Ec%bool_decide_eq_true Ei%bool_decide_eq_true]. injection Ei as ->.
    assert (lvl = EncryptionInitial) as -> by (destruct lvl; done). unfold level_max in *. rewrite !bool_decide_true in * by done. cbn [andb] in *.
    rewrite Hn. cbn [mbind outcome_bind]. rewrite (u64_small (_ - 16)) by lia. rewrite !u64_small by lia.
    destruct (long_written p env stale h pl EncryptionInitial PacketTypeInitial s hp u rtt t fp pns n rest
      (MinInitialPacketSize - 16 - n - pl_length pl) (PacketNumberLen h + MinInitialPacketSize - n))
      as (p' & raw & k & Hw & Hp' & Hraw & Hkn & Hk64 & Hd); try done; try lia.
    exists p', (mkPacked (set_Length h (PacketNumberLen h + MinInitialPacketSize - n)) raw (pl_ack pl) (pl_frames pl)).
    cbn [pp_ack pp_frames pp_raw pp_header]. split_and!; [done..|lia| |done].
    intros _ _ Hn1. rewrite Hk64 in Hraw by lia. lia.
  - rewrite u64_small by lia.
    destruct (long_written p env stale h pl lvl ty s hp u rtt t fp pns n rest 0 (PacketNumberLen h + 16 + pl_length pl))
      as (p' & raw & k & Hw & Hp' & Hraw & Hkn & Hk64 & Hd); try done; try lia.
    exists p', (mkPacked (set_Length h (PacketNumberLen h + 16 + pl_length pl)) raw (pl_ack pl) (pl_frames pl)).
    cbn [pp_ack pp_frames pp_raw pp_header]. split_and!; [done..|lia| |done].
    intros Hc ->. injection Ety as <-. rewrite !bool_decide_true in Ecl by done. done.
Qed.
End Delivery.
