(* ===== verification/PackerSpec.v ===== *)
(** PackerSpec: what packet_packer.go promises about 1-RTT packets.  The packer is
    proved against the interfaces of the packet number manager, the ACK source and
    the streams; the handlers of sent and of received packets implement the first
    two. *)

From S2P Require Import Prelude Utils Protocol AckFrame Frames FrameCodec StreamFrame FrameParser Header GoFloat Rtt TransportParams Framer FramerSpec FrameQueues LinkedListSpec FrameSorter CryptoStream CryptoStreamSpec Protection KeyUpdate KeyUpdateSpec CryptoSetup PacketPacker PacketUnpacker PacketRoundTrip.

(** * Interfaces *)

(** Peeking and popping give the same number, and two to four bytes of it are sent. *)
Class PacketNumbersOk (P : Type) `{PacketNumberManager P} := {
  pn_usable : P → EncryptionLevel → Prop;
  pn_peek_pop st lvl r : pn_usable st lvl →
    ∃ pn n st', pn_Peek st lvl = Ok (pn, n) ∧ pn_Pop st lvl r = Ok (st', pn) ∧ 0 <= pn ∧ 2 <= n <= 4 }.
(** ACK frames are well-formed. *)
Class AckSourceOk (A : Type) `{AckFrameSource A} := {
  ack_inv : A → Prop;
  ack_get_ok st lvl now : ack_inv st → ack_inv (ack_Get st lvl now).1 ∧ ∀ f, (ack_Get st lvl now).2 = Some f → ack_ok f }.

(** * Composing a payload *)

(** Frames of the queues: well-formed, of a sensible length, and not STREAM frames. *)
Definition plain (f : Frame) : Prop := frame_ok f ∧ frame_len f < 2 ^ 60 ∧ match f with FStream _ => False | _ => True end.
Lemma plain_sendable f : plain f → frame_sendable f ∧ fills_packet f = false ∧ isAllowedAtEncLevel f Encryption1RTT = true.
Proof. intros (_ & _ & Hf). by destruct f. Qed.
Lemma plain_sized f : plain f → is_ok (Frame_Length f) = true ∧ Frame_Length f = Ok (frame_len f) ∧ 0 < frame_len f.
Proof.
  intros Hf. destruct (plain_sendable f Hf) as [Hs _]. destruct Hf as (Hf & _). pose proof (frame_len_pos f Hf Hs) as Hl.
  unfold frame_len in *. destruct (Frame_Length f); done.
Qed.
Lemma frames_len_app l k : frames_len (l ++ k) = frames_len l + frames_len k.
Proof. induction l as [|f l IH]; cbn [frames_len foldr app]; [done|]. fold (frames_len (l ++ k)) (frames_len l). lia. Qed.
Lemma frames_len_nonneg l : Forall plain l → 0 <= frames_len l.
Proof.
  induction 1 as [|f l Hf _ IH]; [done|]. cbn [frames_len foldr]. fold (frames_len l). destruct (plain_sized f Hf) as (_ & _ & ?). lia.
Qed.
Lemma frames_ok_plain l k : Forall plain l → frames_ok Encryption1RTT k → frames_ok Encryption1RTT (l ++ k).
Proof.
  induction 1 as [|f l Hf _ IH]; intros Hk; [done|]. cbn. destruct (plain_sendable f Hf) as (H1 & H2 & H3). split_and!; try done; [apply Hf|congruence|by apply IH].
Qed.
Lemma frames_ok_streams l : Forall stream_ok l → Forall (λ g, frame_sendable (FStream g)) l →
  (∀ g, g ∈ l → DataLenPresent g = false → last l = Some g) → NoDup (StreamID <$> l) → frames_ok Encryption1RTT (FStream <$> l).
Proof.
  induction l as [|g l IH]; intros Hok Hs Hl Hnd; [done|]. apply Forall_cons in Hok as [Hok1 Hok]. apply Forall_cons in Hs as [Hs1 Hs].
  rewrite fmap_cons in Hnd. apply NoDup_cons in Hnd as [Hni Hnd]. rewrite fmap_cons. cbn [frames_ok].
  assert (Hlast : l ≠ [] → last (g :: l) = last l) by (destruct l; done).
  split_and!; [done|done|done| |].
  - cbn. intros Hf. destruct l as [|g' l']; [done|]. exfalso. apply Hni.
    assert (E : last (g :: g' :: l') = Some g) by (apply Hl; [by left|by destruct (DataLenPresent g)]).
    rewrite Hlast in E by done. apply last_Some_elem_of in E. by apply list_elem_of_fmap_2.
  - apply IH; [done|done| |done]. intros g' Hg' Hd. rewrite <- Hlast by (intros ->; by apply elem_of_nil in Hg'). apply Hl; [by right|done].
Qed.

(** The lost frames that are taken are the first ones of the queue, as long as they
    fit and a frame of the minimum size does. *)
Lemma append_lost_spec fuel : ∀ q pl maxSize, (length (appData q) < fuel)%nat → Forall plain (appData q) →
  0 <= pl_length pl <= maxSize → maxSize < 2 ^ 62 →
  ∃ lost rest, append_lost fuel q pl maxSize
      = Ok (mkRtxQueue (rq_initial q) (initialCryptoData q) (rq_handshake q) (handshakeCryptoData q) rest,
            mkPayload (pl_frames pl ++ lost) (pl_ack pl) (pl_length pl + frames_len lost))
    ∧ appData q = lost ++ rest ∧ pl_length pl + frames_len lost <= maxSize
    ∧ (MinStreamFrameSize <= maxSize - (pl_length pl + frames_len lost) → head_too_long (maxSize - (pl_length pl + frames_len lost)) rest).
Proof.
  induction fuel as [|fuel IH]; intros q pl maxSize Hfu Hq Hl Hm; [lia|]. cbn [append_lost]. rewrite u64_small by lia.
  assert (Hstop : ∃ lost rest, Ok (q, pl) = Ok (mkRtxQueue (rq_initial q) (initialCryptoData q) (rq_handshake q) (handshakeCryptoData q) rest,
    mkPayload (pl_frames pl ++ lost) (pl_ack pl) (pl_length pl + frames_len lost)) ∧ appData q = lost ++ rest
    ∧ pl_length pl + frames_len lost <= maxSize ∧ lost = [] ∧ rest = appData q).
  { exists [], (appData q). cbn. rewrite app_nil_r, Z.add_0_r. destruct q, pl. split_and!; [done|done|lia|done|done]. }
  destruct (Z.ltb_spec (maxSize - pl_length pl) MinStreamFrameSize) as [Hlt|Hge].
  { destruct Hstop as (lost & rest & E & H1 & H2 & -> & ->). exists [], (appData q). split_and!; [done..|]. cbn. lia. }
  unfold GetAppDataFrame. destruct (get_first_spec (appData q) (maxSize - pl_length pl)) as (l' & f & E & El & Hf).
  { eapply Forall_impl; [exact Hq|]. intros f Hf. by apply plain_sized. }
  rewrite E. cbn [mbind outcome_bind]. destruct f as [f|].
  - change (appData q = f :: l') in El. rewrite El in Hq, Hfu. apply Forall_cons in Hq as [Hpf Hq]. destruct (plain_sized f Hpf) as (_ & Efl & Hpos).
    destruct Hf as (k & Ek & Hk). rewrite Ek in Efl. injection Efl as ->. rewrite Ek. cbn [mbind outcome_bind]. rewrite u64_small by lia.
    match goal with |- context [append_lost fuel ?q1 ?pl1 _] => destruct (IH q1 pl1 maxSize) as (lost & rest & E' & H1 & H2 & H3) end;
      [cbn in *; lia|done|cbn; lia|done|].
    exists (f :: lost), rest. rewrite E'. cbn [appData pl_frames pl_ack pl_length rq_initial initialCryptoData rq_handshake handshakeCryptoData] in *.
    cbn [frames_len foldr]. fold (frames_len lost). rewrite Z.add_assoc. split; [|split; [rewrite El, H1; done|split; [lia|exact H3]]].
    do 3 f_equal. by rewrite <- app_assoc.
  - destruct Hstop as (lost & rest & E' & H1 & H2 & -> & ->). exists [], (appData q). change (appData q = l') in El. rewrite <- El.
    cbn [frames_len foldr] in *. rewrite Z.add_0_r in *. split; [|split; [done|split; [done|by intros _]]]. rewrite <- E'. by destruct q.
Qed.
Lemma slens_frames l : slens l = frames_len (FStream <$> l).
Proof. induction l as [|g l IH]; [done|]. cbn [slens]. rewrite IH. done. Qed.
Lemma ack_len_bound a : ack_ok a → AckFrame_Length a = Ok (frame_len (FAck a)) ∧ 0 < frame_len (FAck a) <= 1008.
Proof.
  intros Hok. pose proof (frame_len_pos (FAck a) Hok I) as Hpos. unfold frame_len in *. cbn [Frame_Length] in *.
  destruct a as [[|r0 post] d]; [by destruct Hok|]. destruct (keeps_exists _ _ _ Hok) as [m Hm].
  rewrite (AckFrame_Length_ok r0 post d m Hok Hm) in *. split; [done|]. split; [done|].
  exact (AckFrame_size r0 post d m Hok Hm).
Qed.

Section Compose.
Context `{QTLS} {P A S : Type} `{PacketNumberManager P} `{AckSourceOk A} `{StreamGetterOk S}.

(** What the packer relies on of the parts it shares with the connection. *)
Record parts_ok (p : @packetPacker _ P A S) : Prop := mkPartsOk {
  pt_lost : Forall plain (appData (retransmissionQueue_ p)); pt_controls : Forall plain (controlFrames (pk_framer p));
  pt_framer : framer_inv (pk_framer p); pt_queue : len (streamQueue (pk_framer p)) < 2 ^ 24;
  pt_streams : sg_inv (pk_streams p); pt_acks : ack_inv (pk_acks p) }.
(** What a payload takes from the queues: lost frames from the front and control
    frames from the end, as many as fit, and in the space that is left the frames
    that the streams give when they are asked in the order of the queue. *)
Definition taken_from (p p' : @packetPacker _ P A S) (now space limit : Z) (ack : option AckFrame) (frames : list Frame) : Prop :=
  ack = (ack_Get (pk_acks p) Encryption1RTT now).2 ∧
  ∃ lost controls streams k kept, frames = lost ++ controls ++ (FStream <$> streams)
    ∧ appData (retransmissionQueue_ p) = lost ++ appData (retransmissionQueue_ p')
    ∧ (let left := space - frames_len (ack_frames ack ++ lost) in MinStreamFrameSize <= left → head_too_long left (appData (retransmissionQueue_ p')))
    ∧ controlFrames (pk_framer p) = controlFrames (pk_framer p') ++ reverse controls
    ∧ (let left := space - frames_len (ack_frames ack ++ lost ++ controls) in
        (∀ g, last (controlFrames (pk_framer p')) = Some g → left < frame_len g)
        ∧ takes_streams left limit (streamQueue (pk_framer p)) (pk_streams p) k streams (pk_streams p'))
    ∧ streamQueue (pk_framer p') = drop k (streamQueue (pk_framer p)) ++ kept ∧ sublist kept (take k (streamQueue (pk_framer p)))
    ∧ NoDup (StreamID <$> streams).
(** Nothing is left that would fit: no ACK, the first lost and the last control
    frame are too long, and of the streams all, or as many as the limit allows, were
    asked and had nothing to give. *)
Definition nothing_queued (p : @packetPacker _ P A S) (now space limit : Z) : Prop :=
  (ack_Get (pk_acks p) Encryption1RTT now).2 = None ∧ head_too_long space (appData (retransmissionQueue_ p))
  ∧ (∀ g, last (controlFrames (pk_framer p)) = Some g → space < frame_len g)
  ∧ ∃ k m s', asked space (len (streamQueue (pk_framer p))) limit (pk_streams p) 0 0 (take k (streamQueue (pk_framer p))) [] s' 0 m
      ∧ (k = length (streamQueue (pk_framer p)) ∨ limit <= m).
(** The parts of the packer that composing leaves alone. *)
Definition same_packer (p p' : @packetPacker _ P A S) : Prop :=
  destConnID p' = destConnID p ∧ srcConnID p' = srcConnID p ∧ pk_version p' = pk_version p ∧ maxPacketSize p' = maxPacketSize p
  ∧ pnManager p' = pnManager p ∧ cryptoSetup_ p' = cryptoSetup_ p ∧ handshakeConfirmed p' = handshakeConfirmed p.

Lemma compose_spec (p : @packetPacker _ P A S) env maxSize : parts_ok p → 1200 - 45 <= maxSize <= MaxReceivePacketSize - 8 →
  ∃ p' pl, composeNextPacket p env maxSize = Ok (p', pl) ∧ parts_ok p' ∧ same_packer p p'
    ∧ taken_from p p' (env_now env) maxSize (env_limit env) (pl_ack pl) (pl_frames pl)
    ∧ frames_ok Encryption1RTT (ack_frames (pl_ack pl) ++ pl_frames pl)
    ∧ pl_length pl = frames_len (ack_frames (pl_ack pl) ++ pl_frames pl) ∧ 0 <= pl_length pl <= maxSize
    ∧ (pl_frames pl = [] → pl_length pl <= 1008)
    ∧ (pl_frames pl = [] → pl_ack pl = None → nothing_queued p (env_now env) maxSize (env_limit env)).
Proof.
  intros [Hlost Hctl Hfr Hq Hst Hack] Hm. assert (EM : MaxReceivePacketSize = 1452) by done. unfold composeNextPacket.
  destruct (ack_get_ok (pk_acks p) Encryption1RTT (env_now env) Hack) as [Hack' Hf].
  destruct (ack_Get (pk_acks p) Encryption1RTT (env_now env)) as [acks ack] eqn:Eget. cbn [fst snd] in *.
  assert (Hal : ∃ n, (match ack with Some ack => AckFrame_Length ack | None => Ok 0 end) = Ok n ∧ n = frames_len (ack_frames ack)
    ∧ 0 <= n <= 1008 ∧ Forall plain (ack_frames ack)).
  { destruct ack as [a|]; [|exists 0; split_and!; try done; constructor]. destruct (ack_len_bound a (Hf a eq_refl)) as [E Hb].
    exists (frame_len (FAck a)). rewrite E. cbn [ack_frames frames_len foldr]. split_and!; try lia; [done|].
    apply Forall_singleton. split; [by apply Hf|]. split; [lia|done]. }
  destruct Hal as (n & -> & En & Hn & Hpa). cbn [mbind outcome_bind retransmissionQueue_ set_acks].
  destruct (append_lost_spec (Datatypes.S (length (appData (retransmissionQueue_ p)))) (retransmissionQueue_ p) (mkPayload [] ack n) maxSize)
    as (lost & rest & E & El & Hle & Hhead); [lia|done|cbn; lia|lia|]. rewrite E. cbn [mbind outcome_bind pl_length pl_frames pl_ack pk_framer set_rq app] in *.
  assert (Hlost' := Hlost). rewrite El in Hlost'. apply Forall_app in Hlost' as [Hp1 Hp2]. pose proof (frames_len_nonneg lost Hp1) as Hn1.
  rewrite (u64_small (maxSize - _)) by lia.
  destruct (AppendControlFrames_spec (pk_framer p) (maxSize - (n + frames_len lost))) as (ctl & E2 & Hc1 & Hc2 & Hc3); [lia| |].
  { eapply Forall_impl; [exact Hctl|]. intros f Hpf. destruct (plain_sized f Hpf) as (? & _ & ?). split; [done|]. split; [lia|apply Hpf]. }
  cbn [set_acks pk_framer]. rewrite E2. cbn [mbind outcome_bind].
  assert (Hctl' := Hctl). rewrite Hc2 in Hctl'. apply Forall_app in Hctl' as [Hp3 Hp4%Forall_reverse]. rewrite reverse_involutive in Hp4.
  pose proof (frames_len_nonneg ctl Hp4) as Hn2.
  set (f1 := mkFramer (activeStreams (pk_framer p)) (streamQueue (pk_framer p)) _).
  rewrite (u64_small (n + frames_len lost + frames_len ctl)) by lia. rewrite (u64_small (maxSize - _)) by lia.
  destruct (AppendStreamFrames_spec f1 (pk_streams p) (maxSize - (n + frames_len lost + frames_len ctl)) (env_limit env))
    as (k & kept & streams & s' & active & E3 & Hs' & Hinv & Hk1 & Hk2 & Hsok & _ & Hs1 & Hs2 & Hs3 & Htake); [exact Hfr|done|lia|done|].
  change (pk_streams (set_rq (set_acks p acks) _)) with (pk_streams p). rewrite E3. cbn [mbind outcome_bind].
  assert (Hnd : NoDup (StreamID <$> streams)).
  { eapply sublist_NoDup; [|exact Hk2]. eapply sublist_NoDup; [exact (proj1 Hfr)|]. apply sublist_take. }
  assert (Hfok : frames_ok Encryption1RTT (ack_frames ack ++ (lost ++ ctl ++ (FStream <$> streams)))).
  { apply frames_ok_plain, frames_ok_plain, frames_ok_plain; [done..|]. by apply frames_ok_streams. }
  rewrite slens_frames in *.
  assert (Hn3 : 0 <= frames_len (FStream <$> streams)).
  { rewrite <- slens_frames. clear -Hsok. induction Hsok as [|g l Hg _ IH]; cbn [slens]; [done|]. destruct (slen_ok g Hg). lia. }
  rewrite (u64_small (n + _ + _ + _)) by lia.
  eexists _, _. split; [reflexivity|]. cbn [pl_frames pl_ack pl_length]. rewrite <- !(app_assoc lost).
  split; [|split; [done|split; [|split; [done|split; [|split; [lia|split]]]]]].
  - split; cbn [retransmissionQueue_ set_framer set_rq appData pk_framer controlFrames pk_streams pk_acks set_acks streamQueue]; try done.
    rewrite len_app. cbn [f1 streamQueue] in *. apply sublist_length in Hk1. rewrite length_take in Hk1. unfold len in *. rewrite length_drop. lia.
  - split; [by rewrite Eget|]. exists lost, ctl, streams, k, kept. rewrite !frames_len_app, <- En, Z.add_assoc. cbv zeta.
    split_and!; [done|done|exact Hhead|exact Hc2|intros g Hg; specialize (Hc3 g Hg); lia|exact Htake|done|exact Hk1|exact Hnd].
  - rewrite !frames_len_app, <- En. lia.
  - intros [-> [-> Hs]%app_nil]%app_nil. rewrite Hs. cbn in *. lia.
  - intros [-> [-> Hs]%app_nil]%app_nil ->. cbn [ack_frames frames_len foldr] in *. subst n. unfold nothing_queued. rewrite Eget.
    apply fmap_nil_inv in Hs as ->. cbn in El. rewrite Z.add_0_r, Z.sub_0_r in Hhead. assert (MinStreamFrameSize = 128) as Emin by done.
    split_and!; [done| | |].
    + rewrite El. apply Hhead. lia.
    + intros g Hg. rewrite Hc2 in Hg. change (reverse []) with (@nil Frame) in Hg. rewrite app_nil_r in Hg. specialize (Hc3 g Hg). lia.
    + destruct Htake as (popped & m & T1 & T2 & [[-> _]|(? & ? & _ & X)]); [|by apply app_cons_not_nil in X]. cbn [slens] in T1, T2.
      rewrite !Z.add_0_r, Z.sub_0_r in T1, T2. exists k, m, s'. split; [exact T1|]. destruct T2 as [T2|[T2|T2]]; [by left|by right|lia].
Qed.
End Compose.

(** * 1-RTT packets *)

Section Data.
Context `{HPOk, !QTLSOk} {P A S : Type} `{PacketNumbersOk P} `{AckSourceOk A} `{StreamGetterOk S}.

(** Writing a packet changes the keys and the packet numbers only. *)
Definition same_parts (p p' : @packetPacker _ P A S) : Prop :=
  retransmissionQueue_ p' = retransmissionQueue_ p ∧ pk_framer p' = pk_framer p ∧ pk_streams p' = pk_streams p ∧ pk_acks p' = pk_acks p
  ∧ pk_initialStream p' = pk_initialStream p ∧ pk_handshakeStream p' = pk_handshakeStream p.
Lemma write_parts (p p' : @packetPacker _ P A S) env stale h pl pad lvl s pkt :
  writeAndSealPacketWithPadding p env stale h pl pad lvl s = Ok (p', pkt) → same_parts p p'.
Proof.
  unfold writeAndSealPacketWithPadding. intros E.
  destruct (run_writer (ExtendedHeader_Write h) []) as [hb| |]; try done. cbn [mbind outcome_bind] in E.
  destruct (run_writer (write_payload pl pad) hb) as [buf| |]; try done. cbn [mbind outcome_bind] in E. cbv zeta in E.
  do 3 (destruct (_ : bool) in E; [done|]).
  destruct (sealer_Seal _ _ _ _) as [[s' sealed]| |]; try done. cbn [mbind outcome_bind] in E.
  destruct (hb ++ sealed) as [|b0 raw]; [done|].
  destruct (sealer_EncryptHeader _ _ _ _) as [[b1 pnb]| |]; try done. cbn [mbind outcome_bind] in E.
  destruct (pn_Pop _ _ _) as [[pns num]| |]; try done. cbn [mbind outcome_bind] in E.
  destruct (negb _); [done|]. injection E as <- _. done.
Qed.
Lemma write_same_parts (p p' : @packetPacker _ P A S) env stale h pl lvl s pkt :
  writeAndSealPacket p env stale h pl lvl s = Ok (p', pkt) → same_parts p p'.
Proof.
  unfold writeAndSealPacket. cbv zeta. intros E.
  destruct (negb _); [|by eapply write_parts]. destruct (_ && _); [|by eapply write_parts].
  destruct (GetLength h) as [n| |]; try done. cbn [mbind outcome_bind] in E. by eapply write_parts.
Qed.
Lemma frames_len_pos l : frames_ok Encryption1RTT l → l ≠ [] → 0 < frames_len l.
Proof.
  assert (Hnn : ∀ l, frames_ok Encryption1RTT l → 0 <= frames_len l).
  { induction l0 as [|f l0 IH]; [done|]. intros (Hok & Hs & _ & _ & Hl). cbn [frames_len foldr]. fold (frames_len l0).
    specialize (IH Hl). pose proof (frame_len_pos f Hok Hs). lia. }
  destruct l as [|f l]; [done|]. intros (Hok & Hs & _ & _ & Hl) _. cbn [frames_len foldr]. fold (frames_len l).
  pose proof (frame_len_pos f Hok Hs). specialize (Hnn l Hl). lia.
Qed.
Lemma frames_ok_ack_only a : frames_ok Encryption1RTT (ack_frames (Some a) ++ []) → frames_ok Encryption1RTT (ack_frames (Some a) ++ [FPing]).
Proof. cbn. intros (A1 & A2 & A3 & _ & _). done. Qed.

(** What [PackPacket] leaves: the rest of the queues, and the packet. *)
Definition packs (p : @packetPacker _ P A S) (env : pack_env) (u : packetUnpacker) (rtt : RTTStats) (t : Z) (fp : frameParser) (space : Z)
    (p' : @packetPacker _ P A S) (o : option packedPacket) : Prop :=
  parts_ok p' ∧
  match o with
  | None => nothing_queued p (env_now env) space (env_limit env)
  | Some pkt =>
      len (pp_raw pkt) <= maxPacketSize p
      ∧ (∃ frames, taken_from p p' (env_now env) space (env_limit env) (pp_ack pkt) frames ∧ (pp_frames pkt = frames ∨ frames = [] ∧ pp_frames pkt = [FPing]))
      ∧ delivered u rtt t fp Encryption1RTT (len (destConnID p)) (pp_raw pkt) [] (pp_header pkt) (ack_frames (pp_ack pkt) ++ pp_frames pkt)
  end.

Lemma pack_app_data_spec (p p1 : @packetPacker _ P A S) env stale u rtt t fp hp s kp pn n :
  packer_ok p → parts_ok p → pn_usable (pnManager p) Encryption1RTT → get_1rtt p env = Ok (p1, s, kp) →
  pn_Peek (pnManager p) Encryption1RTT = Ok (pn, n) →
  keys_agree Encryption1RTT s hp (un_cs u) pn kp → in_window n (largestRcvdPacketNumber u) pn →
  exp_ok fp Encryption1RTT →
  ∃ p' o, pack_app_data p env stale = Ok (p', o) ∧ packs p env u rtt t fp (maxPacketSize p - 16 - (1 + len (destConnID p) + n)) p' o.
Proof.
  intros Hp Hparts Hpn Hget Hpeek Hk Hwin Hexp. unfold pack_app_data.
  pose proof (agree_overhead _ _ _ _ _ _ Hk) as Hov.
  destruct (pn_peek_pop (pnManager p) Encryption1RTT (env_rand env) Hpn) as (pn' & n' & pns & E1 & Hpop & Hpn0 & Hn). rewrite Hpeek in E1. injection E1 as <- <-.
  assert (Hget' := Hget). unfold get_1rtt in Hget'. destruct (Get1RTTSealer (cryptoSetup_ p)) as [a| |] eqn:Ea; try done. cbn [mbind outcome_bind] in Hget'.
  destruct (up_KeyPhase a (env_rtt env) (env_now env)) as [[a' kp']| |]; try done. cbn [mbind outcome_bind] in Hget'. injection Hget' as <- <- <-.
  set (p1 := set_setup p _) in *. rewrite Hget. cbn [mbind outcome_bind].
  set (h := mkExtendedHeader (mkHeader false 0 None 0 [] (destConnID p) 0 [] [] [] 0) 0 kp' n pn).
  assert (Hh : ∀ q : @packetPacker _ P A S, pnManager q = pnManager p → destConnID q = destConnID p → getShortHeader q kp' = Ok h).
  { intros q E1 E2. unfold getShortHeader. by rewrite E1, Hpeek, E2. }
  rewrite (Hh p1) by done. cbn [mbind outcome_bind].
  assert (Hgl : GetLength h = Ok (1 + len (destConnID p) + n)) by done. rewrite Hgl. cbn [mbind outcome_bind].
  destruct Hp as [Hd Hs Hv [Hm1 Hm2]]. assert (MinInitialPacketSize = 1200) as EM by done. assert (MaxReceivePacketSize = 1452) as ER by done.
  unfold cid_ok, MaxConnIDLen in Hd. pose proof (len_nonneg (destConnID p)) as Hd0.
  change (maxPacketSize p1) with (maxPacketSize p). rewrite Hov, u64_small by lia.
  set (space := maxPacketSize p - 16 - (1 + len (destConnID p) + n)).
  assert (Hparts1 : parts_ok p1) by (destruct Hparts; by split).
  destruct (compose_spec p1 env space Hparts1 ltac:(unfold space; lia)) as (p2 & pl & E & Hparts2 & Hsame & Htk & Hfok & Hlen & Hle & Hsmall & Hnone).
  rewrite E. cbn [mbind outcome_bind]. destruct Hsame as (S1 & S2 & S3 & S4 & S5 & S6 & S7).
  assert (Hfinish : ∀ k pl', payload_ok Encryption1RTT pl' → pl_length pl' <= space → pl_ack pl' = pl_ack pl →
    (pl_frames pl' = pl_frames pl ∨ pl_frames pl = [] ∧ pl_frames pl' = [FPing]) →
    ∃ p' o, ('(p, pkt) ← writeAndSealPacket (set_numAcks p2 k) env stale h pl' Encryption1RTT (ShortSealer a'); Ok (p, Some pkt)) = Ok (p', o)
      ∧ packs p env u rtt t fp space p' o).
  { intros k pl' Hpl Hfit Eack Efr.
    destruct (seal_packet_ok (set_numAcks p2 k) env stale h pl' Encryption1RTT kp' (ShortSealer a') hp u rtt t fp pns (1 + len (destConnID p) + n) [])
      as (p' & pkt & Hw & Hpa & Hpf & _ & Hraw & _ & Hdel); try done.
    - split; cbn [destConnID srcConnID pk_version maxPacketSize set_numAcks]; [rewrite S1; done|rewrite S2; done|rewrite S3; done|rewrite S4; done].
    - cbn [next_header]. by apply Hh.
    - change (pnManager (set_numAcks p2 k)) with (pnManager p2). by rewrite S5.
    - unfold level_max. rewrite (bool_decide_false (Encryption1RTT = _)), andb_false_r by done. change (maxPacketSize (set_numAcks p2 k)) with (maxPacketSize p2). rewrite S4. change (maxPacketSize p1) with (maxPacketSize p). unfold space in Hfit. lia.
    - exists p', (Some pkt). rewrite Hw. split; [done|]. destruct (write_same_parts _ _ _ _ _ _ _ _ _ Hw) as (W1 & W2 & W3 & W4 & _).
      change (maxPacketSize (set_numAcks p2 k)) with (maxPacketSize p2) in Hraw. change (destConnID (set_numAcks p2 k)) with (destConnID p2) in Hdel.
      split; [destruct Hparts2; split; rewrite ?W1, ?W2, ?W3, ?W4; done|]. split; [by rewrite S4 in Hraw|]. split.
      + exists (pl_frames pl). split.
        * rewrite Hpa, Eack. destruct Htk as (T1 & lost & ctl & str & k' & kept & T2). split; [exact T1|].
          exists lost, ctl, str, k', kept. rewrite W1, W2, W3. exact T2.
        * rewrite Hpf. tauto.
      + rewrite Hpa, Hpf. rewrite S1 in Hdel. done. }
  assert (Hpos : ack_frames (pl_ack pl) ++ pl_frames pl ≠ [] → payload_ok Encryption1RTT pl).
  { intros Hne. split; [done|]. split; [done|]. rewrite Hlen. by apply frames_len_pos. }
  destruct (pl_frames pl) as [|f fs] eqn:Ef.
  - destruct (pl_ack pl) as [ack|] eqn:Eack.
    + destruct (MaxNonAckElicitingAcks <=? numNonAckElicitingAcks p2).
      * cbn [PingFrame_Length mbind outcome_bind]. specialize (Hsmall eq_refl). rewrite u64_small by lia. apply Hfinish; [|cbn; unfold space; lia|done|by right].
        split; [by apply frames_ok_ack_only|]. cbn [pl_ack pl_frames pl_length]. rewrite frames_len_app, Hlen, app_nil_r.
        change (frames_len [FPing]) with 1. split; [done|]. rewrite app_nil_r in Hlen. lia.
      * apply Hfinish; [by apply Hpos|lia|done|by left].
    + exists p2, None. split; [done|]. split; [done|]. by apply Hnone.
  - apply Hfinish; [apply Hpos; by destruct (pl_ack pl)|lia|done|by left].
Qed.
End Data.

(** * Initial and Handshake packets *)

Section Crypto.
Context `{HPOk, !QTLSOk} {P A S : Type} `{PacketNumbersOk P} `{AckSourceOk A} `{StreamGetterOk S}.

Definition stream_of (p : @packetPacker _ P A S) (lvl : EncryptionLevel) : cryptoStreamImpl :=
  match lvl with EncryptionInitial => pk_initialStream p | _ => pk_handshakeStream p end.
Definition ready (s : cryptoStreamImpl) : Prop := writable s ∧ bytes_ok (writeBuf s).
Definition ack_len (ack : option AckFrame) : Z := frames_len (ack_frames ack).
Lemma ack_len_ok ack : (∀ a, ack = Some a → ack_ok a) →
  (match ack with Some ack => AckFrame_Length ack | None => Ok 0 end) = Ok (ack_len ack) ∧ 0 <= ack_len ack <= 1008.
Proof.
  intros Ha. unfold ack_len. destruct ack as [a|]; [|by cbn].
  destruct (ack_len_bound a (Ha a eq_refl)) as [E Hb]. cbn [ack_frames frames_len foldr]. rewrite E, Z.add_0_r. split; [done|lia].
Qed.
Lemma crypto_frame_len f : vi_ok (c_Offset f) → len (c_Data f) < 16384 → CryptoFrame_Length f = Ok (frame_len (FCrypto f))
  ∧ 0 < frame_len (FCrypto f) <= 11 + len (c_Data f).
Proof.
  intros Ho Hd. unfold frame_len. cbn [Frame_Length]. unfold CryptoFrame_Length. pose proof (len_nonneg (c_Data f)) as Hl.
  rewrite !VarIntLen_varint by (unfold vi_ok, maxVarInt8 in *; lia). cbn [sum_len foldr mbind outcome_bind].
  pose proof (varint_len (c_Offset f) ltac:(unfold vi_ok in *; lia)). pose proof (varint_len_small (len (c_Data f)) ltac:(lia)) as E.
  split; [done|]. destruct (_ <? _) in E; lia.
Qed.

Lemma frames_ok_app_ack lvl ack f : (∀ a, ack = Some a → ack_ok a) → lvl = EncryptionInitial ∨ lvl = EncryptionHandshake →
  frame_ok f → frame_sendable f → isAllowedAtEncLevel f lvl = true → frames_ok lvl (ack_frames ack ++ [f]).
Proof.
  intros Ha Hl Hf Hs Hal. destruct ack as [a|]; cbn [ack_frames app frames_ok]; [|done].
  split; [by apply Ha|]. split; [done|]. split; [by destruct Hl as [-> | ->]|done].
Qed.
Lemma write_same_streams (p p' : @packetPacker _ P A S) env stale h pl lvl s pkt :
  writeAndSealPacket p env stale h pl lvl s = Ok (p', pkt) → pk_initialStream p' = pk_initialStream p ∧ pk_handshakeStream p' = pk_handshakeStream p.
Proof. intros E. apply write_same_parts in E. apply E. Qed.

(** A packet with the next bytes of a handshake stream, and an ACK if there is one. *)
Lemma pack_crypto_data (p : @packetPacker _ P A S) env stale lvl s ack hp u rtt t fp h n rest :
  packer_ok p → lvl = EncryptionInitial ∨ lvl = EncryptionHandshake → pn_usable (pnManager p) lvl →
  getLongHeader p lvl = Ok h → GetLength h = Ok n → keys_agree lvl s hp (un_cs u) (PacketNumber h) false →
  in_window 4 (largestRcvdPacketNumber u) (PacketNumber h) → (∀ a, ack = Some a → ack_ok a) →
  ready (stream_of p lvl) → writeBuf (stream_of p lvl) ≠ [] → n + ack_len ack + 16 + 11 < maxPacketSize p →
  (pk_perspective p = PerspectiveClient → lvl = EncryptionInitial →
     n + ack_len ack + 16 + 11 + len (writeBuf (stream_of p lvl)) <= MinInitialPacketSize) →
  ∃ p' pkt cf, pack_crypto p env stale lvl s true false ack = Ok (p', pkt)
    ∧ pp_ack pkt = ack ∧ pp_frames pkt = [FCrypto cf] ∧ c_Data cf ≠ [] ∧ c_Offset cf = cs_writeOffset (stream_of p lvl)
    ∧ len (pp_raw pkt) <= maxPacketSize p
    ∧ (pk_perspective p = PerspectiveClient → lvl = EncryptionInitial → n <= 1140 → len (pp_raw pkt) = MinInitialPacketSize)
    ∧ writeBuf (stream_of p lvl) = c_Data cf ++ writeBuf (stream_of p' lvl)
    ∧ delivered u rtt t fp lvl (len (destConnID p)) (pp_raw pkt) rest (pp_header pkt) (ack_frames ack ++ [FCrypto cf]).
Proof.
  intros Hp Hlvl Hpn Hh Hn Hk Hwin Hack [Hw Hby] Hne Hroom Hcl. unfold pack_crypto.
  destruct (ack_len_ok ack Hack) as [-> Ha]. cbn [mbind outcome_bind]. rewrite Hh. cbn [mbind outcome_bind]. rewrite Hn. cbn [mbind outcome_bind].
  rewrite (agree_overhead _ _ _ _ _ _ Hk). cbn [pl_length].
  assert (Hty : ∃ ty, level_type lvl = Some ty) by (destruct Hlvl as [-> | ->]; by eexists). destruct Hty as [ty Hty].
  pose proof (getLongHeader_spec p lvl ty h Hp Hty Hh) as Hlh. pose proof (lh_pnl _ _ _ Hlh) as Hpnl.
  pose proof (po_max _ Hp) as [Hm1 Hm2]. assert (MinInitialPacketSize = 1200) as EM by done. assert (MaxReceivePacketSize = 1452) as ER by done.
  destruct (GetLength_bounds h n (lh_long _ _ _ Hlh)) as [Hn8 _]; [lia|rewrite (lh_length _ _ _ Hlh); unfold maxVarInt8; lia|done|].
  rewrite (u64_small (maxPacketSize p - n - 16 - ack_len ack)) by lia.
  change (match lvl with EncryptionInitial => pk_initialStream p | _ => pk_handshakeStream p end) with (stream_of p lvl).
  destruct (pop_crypto_spec (stream_of p lvl) (maxPacketSize p - n - 16 - ack_len ack) Hw ltac:(lia)) as (str' & cf & E & Hw' & Eoff & Ebuf & _ & Hfit & Hdat).
  specialize (Hdat ltac:(lia) Hne). rewrite E. cbn [mbind outcome_bind].
  assert (Hcd : len (c_Data cf) <= len (writeBuf (stream_of p lvl))) by (rewrite Ebuf, len_app; pose proof (len_nonneg (writeBuf str')); lia).
  assert (Hvi : vi_ok (c_Offset cf) ∧ len (c_Data cf) <= maxVarInt8).
  { rewrite Eoff. destruct Hw as [W1 W2]. pose proof (len_nonneg (writeBuf (stream_of p lvl))). unfold vi_ok. lia. }
  destruct (Hfit Hdat) as (k & Ek & Hkm).
  assert (Efl : frame_len (FCrypto cf) = k) by (unfold frame_len; cbn [Frame_Length]; by rewrite Ek).
  assert (Hcok : fc_ok cf).
  { split; [apply Hvi|]. split; [apply Hvi|]. rewrite Ebuf in Hby. by apply Forall_app in Hby as [? _]. }
  assert (Hdl : len (c_Data cf) <= k).
  { pose proof (fc_len cf Hcok) as Ec. change (CryptoFrame_Length cf = Ok (1 + len (varint (c_Offset cf) ++ varint (len (c_Data cf)) ++ c_Data cf))) in Ec.
    rewrite Ek in Ec. injection Ec as ->. rewrite !len_app. pose proof (len_nonneg (varint (c_Offset cf))). pose proof (len_nonneg (varint (len (c_Data cf)))). lia. }
  destruct (crypto_frame_len cf (proj1 Hvi) ltac:(lia)) as [Ecl [Hc1 Hc2]]. rewrite Ecl, Efl in *. cbn [mbind outcome_bind]. rewrite u64_small by lia.
  set (p2 := match lvl with EncryptionInitial => _ | _ => _ end).
  assert (Hp2 : packer_ok p2 ∧ next_header p2 lvl false = Ok h ∧ pnManager p2 = pnManager p ∧ maxPacketSize p2 = maxPacketSize p
    ∧ destConnID p2 = destConnID p ∧ pk_perspective p2 = pk_perspective p ∧ stream_of p2 lvl = str').
  { unfold p2. destruct Hp. destruct Hlvl as [-> | ->]; cbn; (split; [by split|]); done. }
  clearbody p2. destruct Hp2 as (Hok2 & Hh2 & E1 & E2 & E3 & E4 & E5).
  destruct (pn_peek_pop (pnManager p) lvl (env_rand env) Hpn) as (pn' & n' & pns & Hpk & Hpop & Hpn0 & _).
  assert (Epn : PacketNumber h = pn').
  { unfold getLongHeader in Hh. rewrite Hpk in Hh. cbn [mbind outcome_bind] in Hh. by destruct Hlvl as [-> | ->]; injection Hh as <-. }
  destruct (seal_packet_ok p2 env stale h (mkPayload [FCrypto cf] ack (ack_len ack + k)) lvl false s hp u rtt t fp pns n rest)
    as (p' & pkt & Hwr & Hpa & Hpf & _ & Hraw & Hpad & Hdel); try done.
  - lia.
  - by rewrite E1, Epn.
  - by rewrite Hpnl.
  - split; [|split].
    + cbn [pl_ack pl_frames]. apply frames_ok_app_ack; try done. by destruct Hlvl as [-> | ->].
    + cbn [pl_ack pl_frames pl_length]. rewrite frames_len_app. unfold ack_len. cbn [frames_len foldr]. rewrite Efl. lia.
    + cbn. lia.
  - intros ->. by destruct Hlvl.
  - cbn [pl_length]. unfold level_max. rewrite E4, E2. destruct (bool_decide (pk_perspective p = _) && _) eqn:Eb; [|lia].
    apply andb_true_iff in Eb as [B1%bool_decide_eq_true B2%bool_decide_eq_true]. specialize (Hcl B1 B2). lia.
  - intros ->. by destruct Hlvl.
  - exists p', pkt, cf. split; [done|]. split; [done|]. split; [done|]. split; [done|]. split; [done|]. rewrite E2 in Hraw. rewrite E4 in Hpad. split; [done|].
    split; [done|]. split; [|by rewrite E3 in Hdel]. rewrite Ebuf. f_equal. rewrite <- E5.
    destruct (write_same_streams _ _ _ _ _ _ _ _ _ Hwr) as [F1 F2]. unfold stream_of. rewrite F1, F2. done.
Qed.
End Crypto.
