(* ===== verification/PackerRun.v ===== *)
(** PackerRun: the packer with the real handlers of sent and received packets
    behind its interfaces, and what its packets are to the peer. *)

From S2P Require Import Prelude Utils Protocol AckFrame Frames FrameCodec StreamFrame FrameParser GoFloat Rtt ReceivedPackets Congestion SentPackets TransportParams Framer FramerSpec FrameQueues LinkedListSpec FrameSorter CryptoStream Protection KeyUpdate KeyUpdateSpec CryptoSetup Header PacketPacker PacketUnpacker PacketRoundTrip PackerSpec.

(** * The handlers implement the interfaces *)

#[export] Instance sent_packet_numbers : PacketNumberManager SentPackets.sentPacketHandler := {
  pn_Peek := PeekPacketNumber; pn_Pop := PopPacketNumber }.
#[export] Instance received_acks : AckFrameSource ReceivedPackets.receivedPacketHandler := handler_GetAckFrame.

Definition space_ready (h : SentPackets.sentPacketHandler) (lvl : EncryptionLevel) : Prop :=
  ∃ sp, getPacketNumberSpace h lvl = Ok sp ∧ 0 <= png_next (pns sp).
Lemma pn_length_range pn least : 2 <= GetPacketNumberLengthForHeader pn least <= 4.
Proof. unfold GetPacketNumberLengthForHeader. destruct (_ <? _); [lia|]. destruct (_ <? _); lia. Qed.
Lemma sent_peek_pop h lvl r : space_ready h lvl →
  ∃ pn n h', PeekPacketNumber h lvl = Ok (pn, n) ∧ PopPacketNumber h lvl r = Ok (h', pn) ∧ 0 <= pn ∧ 2 <= n <= 4.
Proof.
  intros (sp & E & Hn). unfold PeekPacketNumber, PopPacketNumber. rewrite E. cbn [mbind outcome_bind].
  destruct (png_Pop (pns sp) r) as [g pn] eqn:Ep. assert (pn = png_next (pns sp)) as ->.
  { unfold png_Pop in Ep. cbv zeta in Ep. destruct (_ =? _) in Ep; by injection Ep. }
  do 3 eexists. split; [done|]. split; [done|]. split; [done|apply pn_length_range].
Qed.
#[export] Instance sent_packet_numbers_ok : PacketNumbersOk SentPackets.sentPacketHandler :=
  {| pn_usable := space_ready; pn_peek_pop := sent_peek_pop |}.

Definition trackers_ok (h : ReceivedPackets.receivedPacketHandler) : Prop :=
  (∀ t, ReceivedPackets.initialPackets h = Some t → tracker_ok t) ∧ (∀ t, ReceivedPackets.handshakePackets h = Some t → tracker_ok t)
  ∧ tracker_ok (ReceivedPackets.oneRTTPackets h).
Lemma tracker_get_ok t now : tracker_ok t → tracker_ok (tracker_GetAckFrame t now).1 ∧ ∀ f, (tracker_GetAckFrame t now).2 = Some f → ack_ok f.
Proof.
  intros Ht. destruct (tracker_step NewRTTStats t (TGetAck now) Ht I) as (t' & a & [= E] & Ht' & Ha). rewrite E. split; [done|]. intros f Hf. by apply Ha.
Qed.
Lemma clear_delay_ok r : tracker_ok r.1 → (∀ f, r.2 = Some f → ack_ok f) →
  tracker_ok (clear_delay r).1 ∧ ∀ f, (clear_delay r).2 = Some f → ack_ok f.
Proof.
  destruct r as [t [a|]]; [|done]. cbn. intros (H1 & H2 & H3 & H4) Ha. destruct (Ha a eq_refl) as (A1 & A2 & A3).
  assert (Hok : ack_ok (mkAckFrame (AckRanges a) 0)) by (split; [done|split; [done|cbn; lia]]).
  split; [split_and!; try done; by intros b [= <-]|by intros f [= <-]].
Qed.
Lemma received_get_ok h lvl now : trackers_ok h → trackers_ok (handler_GetAckFrame h lvl now).1 ∧ ∀ f, (handler_GetAckFrame h lvl now).2 = Some f → ack_ok f.
Proof.
  intros (H1 & H2 & H3). unfold handler_GetAckFrame. destruct lvl; [done| | |].
  - destruct (ReceivedPackets.initialPackets h) as [t|] eqn:E; [|unfold trackers_ok; cbn; rewrite E; done].
    destruct (tracker_get_ok t now (H1 t eq_refl)) as [T1 T2]. destruct (clear_delay_ok _ T1 T2) as [T3 T4].
    destruct (clear_delay (tracker_GetAckFrame t now)) as [t' a]. cbn in *. split; [|done]. split_and!; try done. by intros t0 [= <-].
  - destruct (ReceivedPackets.handshakePackets h) as [t|] eqn:E; [|unfold trackers_ok; cbn; rewrite E; done].
    destruct (tracker_get_ok t now (H2 t eq_refl)) as [T1 T2]. destruct (clear_delay_ok _ T1 T2) as [T3 T4].
    destruct (clear_delay (tracker_GetAckFrame t now)) as [t' a]. cbn in *. split; [|done]. split_and!; try done. by intros t0 [= <-].
  - destruct (tracker_get_ok (ReceivedPackets.oneRTTPackets h) now H3) as [T1 T2].
    destruct (tracker_GetAckFrame (ReceivedPackets.oneRTTPackets h) now) as [t' a]. cbn in *. done.
Qed.
#[export] Instance received_acks_ok : AckSourceOk ReceivedPackets.receivedPacketHandler :=
  {| ack_inv := trackers_ok; ack_get_ok := received_get_ok |}.

(** * Keys of the first packets *)

(** Two endpoints that know the same connection ID have each other's Initial keys. *)
Lemma initial_keys_agree `{HPOk} connID i j c s pn kp : (∀ key iv, 8 <= NonceSize (AEADAESGCMTLS13 key iv)) →
  newCryptoSetup connID i PerspectiveClient = Ok c → newCryptoSetup connID j PerspectiveServer = Ok s →
  (∃ sl hp, initialSealer c = Some sl ∧ keys_agree EncryptionInitial (LongSealer sl) hp s pn kp)
  ∧ (∃ sl hp, initialSealer s = Some sl ∧ keys_agree EncryptionInitial (LongSealer sl) hp c pn kp).
Proof.
  intros Hns. unfold newCryptoSetup, NewInitialAEAD. destruct (computeSecrets connID) as [cs ss] eqn:Es.
  destruct (computeInitialKeyAndIV cs) as [ck civ] eqn:Ec, (computeInitialKeyAndIV ss) as [sk siv] eqn:Esv.
  unfold newHeaderProtector. change (suite_ID initialSuite) with TLS_AES_128_GCM_SHA256. rewrite Z.eqb_refl. cbn [orb].
  unfold newAESHeaderProtector.
  destruct (aes_NewCipher (HkdfExpandLabel _ cs _ _ _)) as [cb|]; [|done].
  destruct (aes_NewCipher (HkdfExpandLabel _ ss _ _ _)) as [sb|]; [|done]. cbn [mbind outcome_bind].
  intros [= <-] [= <-]. split.
  - eexists _, (aesHeaderProtector cb true). split; [done|]. cbn [keys_agree].
    destruct (crypter_new (AEADAESGCMTLS13 ck civ) (aesHeaderProtector cb true) (Hns _ _)). do 3 eexists. split_and!; try done.
  - eexists _, (aesHeaderProtector sb true). split; [done|]. cbn [keys_agree].
    destruct (crypter_new (AEADAESGCMTLS13 sk siv) (aesHeaderProtector sb true) (Hns _ _)). do 3 eexists. split_and!; try done.
Qed.

(** * Delivery *)

Section Claims.
Context `{HPOk, !QTLSOk} {P A S : Type} `{PacketNumbersOk P} `{AckSourceOk A} `{StreamGetterOk S}.

(** C1: packets survive the wire.  At every encryption level, a packet that
    [writeAndSealPacket] makes of well-formed frames that leave room for the header
    and the tag is written without error, is not larger than the maximum, and, if
    the receiver has the keys and has seen packets close enough, comes out of
    [ParsePacket] (with the coalesced packets behind it untouched) and [Unpack] with
    its packet number, its level, every field of its header and all of its frames in
    order.  An Initial packet of a client has the minimum size exactly. *)
Theorem packet_roundtrip (p : @packetPacker _ P A S) env stale h pl lvl kp s hp u rtt t fp n rest :
  packer_ok p → pn_usable (pnManager p) lvl → next_header p lvl kp = Ok h → GetLength h = Ok n →
  keys_agree lvl s hp (un_cs u) (Header.PacketNumber h) kp →
  in_window (PacketNumberLen h) (largestRcvdPacketNumber u) (Header.PacketNumber h) →
  payload_ok lvl pl → exp_ok fp lvl → n + pl_length pl + 16 <= level_max p lvl → (lvl = Encryption1RTT → rest = []) →
  ∃ p' pkt, writeAndSealPacket p env stale h pl lvl s = Ok (p', pkt)
    ∧ len (pp_raw pkt) <= maxPacketSize p
    ∧ (pk_perspective p = PerspectiveClient → lvl = EncryptionInitial → n <= 1140 → len (pp_raw pkt) = MinInitialPacketSize)
    ∧ delivered u rtt t fp lvl (len (destConnID p)) (pp_raw pkt) rest (pp_header pkt) (ack_frames (pl_ack pl) ++ pl_frames pl).
Proof.
  intros Hp Hpn Hh Hn Hk Hwin Hpay Hexp Hfit Hrest.
  destruct (pn_peek_pop (pnManager p) lvl (env_rand env) Hpn) as (pn & k & pns & Hpk & Hpop & _ & Hk4).
  assert (Hpnl : 2 <= PacketNumberLen h <= 4 ∧ Header.PacketNumber h = pn).
  { destruct lvl; cbn [next_header] in Hh; unfold getLongHeader, getShortHeader in Hh; rewrite Hpk in Hh; cbn [mbind outcome_bind] in Hh;
      injection Hh as <-; cbn; (split; [lia|done]). }
  destruct Hpnl as [Hpnl <-].
  destruct (seal_packet_ok p env stale h pl lvl kp s hp u rtt t fp pns n rest) as (p' & pkt & Hw & _ & _ & _ & Hraw & Hpad & Hd); try done.
  exists p', pkt. done.
Qed.

(** C2: what the connection has to send reaches the peer.  After the handshake,
    [PackPacket] never fails.  It makes no packet only when there is no ACK, the first
    lost and the last control frame would not fit, and the streams of the framer's
    queue, all of them or as many as the limit allows, were asked and had no frame to
    give.  The packet it makes has at most the maximum size and takes the lost frames
    from the front and the control frames from the end of their queues as long as
    they fit, then the frames the streams give when they are asked in the order of
    the framer's queue; and the peer, with keys of the same or the previous phase,
    reads exactly these frames. *)
Theorem data_packets_delivered (p p1 : @packetPacker _ P A S) env stale u rtt t fp hp s kp pn n :
  packer_ok p → parts_ok p → handshakeConfirmed p = true → pn_usable (pnManager p) Encryption1RTT → get_1rtt p env = Ok (p1, s, kp) →
  pn_Peek (pnManager p) Encryption1RTT = Ok (pn, n) →
  keys_agree Encryption1RTT s hp (un_cs u) pn kp → in_window n (largestRcvdPacketNumber u) pn →
  fp_ackDelayExponent fp = AckDelayExponent →
  ∃ p' o, PackPacket p env stale = Ok (p', o) ∧ packs p env u rtt t fp (maxPacketSize p - 16 - (1 + len (destConnID p) + n)) p' o.
Proof.
  intros Hp Hparts Hc Hpn Hget Hpk Hk Hwin Hexp. unfold PackPacket. rewrite Hc. cbn [negb].
  exact (pack_app_data_spec p p1 env stale u rtt t fp hp s kp pn n Hp Hparts Hpn Hget Hpk Hk Hwin (λ _, Hexp)).
Qed.

(** C4: the handshake starts.  If client and server derive their Initial keys
    from the same connection ID and the ClientHello fits into one packet, the first
    [PackPacket] of the client makes an Initial packet of exactly 1200 bytes, and
    the server reads from it the beginning of the client's handshake stream, at its
    offset; what was not sent stays in the stream. *)
Theorem client_hello_delivered (p : @packetPacker _ P A S) env stale u rtt t fp connID i j h n rest :
  (∀ key iv, 8 <= NonceSize (AEADAESGCMTLS13 key iv)) →
  newCryptoSetup connID i PerspectiveClient = Ok (cryptoSetup_ p) → newCryptoSetup connID j PerspectiveServer = Ok (un_cs u) →
  packer_ok p → pk_perspective p = PerspectiveClient → handshakeConfirmed p = false → pn_usable (pnManager p) EncryptionInitial →
  ack_inv (pk_acks p) → ready (pk_initialStream p) → HasData (pk_initialStream p) = true → HasInitialData (retransmissionQueue_ p) = false →
  getLongHeader p EncryptionInitial = Ok h → GetLength h = Ok n → n <= 1140 →
  in_window 4 (largestRcvdPacketNumber u) (Header.PacketNumber h) →
  let ack := (ack_Get (pk_acks p) EncryptionInitial (env_now env)).2 in
  n + ack_len ack + 16 + 11 + len (writeBuf (pk_initialStream p)) <= MinInitialPacketSize →
  ∃ p' pkt cf, PackPacket p env stale = Ok (p', Some pkt) ∧ len (pp_raw pkt) = MinInitialPacketSize
    ∧ c_Offset cf = cs_writeOffset (pk_initialStream p) ∧ c_Data cf ≠ []
    ∧ writeBuf (pk_initialStream p) = c_Data cf ++ writeBuf (pk_initialStream p')
    ∧ delivered u rtt t fp EncryptionInitial (len (destConnID p)) (pp_raw pkt) rest (pp_header pkt) (ack_frames ack ++ [FCrypto cf]).
Proof.
  intros Hns Hc Hs Hp Hcl Hconf Hpn Hack Hr Hd Hrq Hh Hn Hn1 Hwin ack Hfit.
  destruct (initial_keys_agree connID i j _ _ (Header.PacketNumber h) false Hns Hc Hs) as [(sl & hp & Esl & Hk) _].
  destruct (ack_get_ok (pk_acks p) EncryptionInitial (env_now env) Hack) as [_ Hf].
  assert (Hne : writeBuf (pk_initialStream p) ≠ []) by (intros E; unfold HasData in Hd; by rewrite E in Hd).
  assert (Hpos : 0 < len (writeBuf (pk_initialStream p))) by (unfold HasData in Hd; lia). pose proof (po_max _ Hp) as [Hm _].
  unfold PackPacket, maybePackCryptoPacket, GetInitialSealer. rewrite Hconf, Esl, Hd, Hrq. cbn [negb].
  destruct (ack_Get (pk_acks p) EncryptionInitial (env_now env)) as [acks a] eqn:Ea. cbn [orb fst snd] in *.
  destruct (pack_crypto_data (set_acks p acks) env stale EncryptionInitial (LongSealer sl) a hp u rtt t fp h n rest)
    as (p' & pkt & cf & E & _ & _ & H1' & H2' & _ & H3' & H4' & H5'); try done.
  - destruct Hp. by split.
  - by left.
  - change (maxPacketSize (set_acks p acks)) with (maxPacketSize p). unfold ack in *. cbn [fst snd] in *. lia.
  - rewrite E. cbn [mbind outcome_bind]. exists p', pkt, cf. split_and!; try done. by apply H3'.
Qed.
End Claims.

(** * Samples *)

Lemma counting_hp : @HPOk counting_tls.
Proof.
  split; [done|done| |done]. intros b sample Hs. change (len (take 16 (sample ++ replicate 16 0)) = 16). unfold len in *. rewrite length_take, length_app, length_replicate. lia.
Qed.
Definition no_setup : @cryptoSetup counting_tls :=
  mkSetup PerspectiveClient EncryptionInitial EncryptionInitial false None None None None (newUpdatableAEAD (H := counting_tls) 1) false false.
Definition sample_setup (pers : Perspective) : @cryptoSetup counting_tls :=
  match newCryptoSetup (H := counting_tls) [1; 2; 3; 4] 1 pers with Ok c => c | _ => no_setup end.
Definition sample_1rtt (pers : Perspective) (rsec ssec : list Z) : @cryptoSetup counting_tls :=
  set_aead_of (H := counting_tls) (sample_setup pers) (sample_aead pers rsec ssec) true true.
Definition hello_stream (n : nat) : cryptoStreamImpl := (crypto_Write newCryptoStream (replicate n 7)).1.
Definition sample_packer (cs : @cryptoSetup counting_tls) (str : cryptoStreamImpl) (controls : list Frame)
    : @packetPacker counting_tls SentPackets.sentPacketHandler ReceivedPackets.receivedPacketHandler sendStreams :=
  newPacketPacker (H := counting_tls) [9; 9; 9; 9] [8; 8] str newCryptoStream (NewSentPacketHandler 0 NewRTTStats false 5 5 5)
    newRetransmissionQueue UDPv4 cs (mkFramer ∅ [] controls) sample_sends NewReceivedPacketHandler PerspectiveClient VersionTLS.
Definition sample_env : pack_env := mkPackEnv 1000 NewRTTStats 10 3.

(** A ClientHello that does not fit the minimum size of an Initial packet is cut for
    the maximum packet size, which over IPv4 is larger: the length of the padding
    wraps around and packing panics. *)
Example large_client_hello_panics :
  PackPacket (H := counting_tls) (sample_packer (sample_setup PerspectiveClient) (hello_stream 1200) []) sample_env []
  = Panic "bytes: negative Repeat count".
Proof. vm_compute. reflexivity. Qed.

Lemma sample_packer_ok cs str controls : packer_ok (H := counting_tls) (sample_packer cs str controls).
Proof. split; [done|done|done|]. cbn. unfold MinInitialPacketSize, MaxReceivePacketSize, MaxPacketSizeIPv4. lia. Qed.
Lemma new_trackers_ok : trackers_ok NewReceivedPacketHandler.
Proof. split_and!; [by intros t [= <-]; apply new_tracker_ok|by intros t [= <-]; apply new_tracker_ok|apply new_tracker_ok]. Qed.

Lemma client_hello_delivered_witness :
  ∃ p' pkt cf, PackPacket (H := counting_tls) (sample_packer (sample_setup PerspectiveClient) (hello_stream 300) []) sample_env [] = Ok (p', Some pkt)
    ∧ len (pp_raw pkt) = MinInitialPacketSize
    ∧ delivered (H := counting_tls) (newPacketUnpacker (H := counting_tls) (sample_setup PerspectiveServer)) NewRTTStats 2000 (NewFrameParser 1) EncryptionInitial 4
        (pp_raw pkt) [1; 2; 3] (pp_header pkt) [FCrypto cf].
Proof.
  pose proof counting_hp as Hhp. pose proof counting_ok as Hok.
  assert (Hh : ∃ h, getLongHeader (H := counting_tls) (sample_packer (sample_setup PerspectiveClient) (hello_stream 300) []) EncryptionInitial = Ok h
    ∧ GetLength h = Ok 20 ∧ Header.PacketNumber h = 0).
  { eexists. split; [vm_compute; reflexivity|]. split; vm_compute; reflexivity. }
  destruct Hh as (h & Hh & Hn & Hpn).
  destruct (client_hello_delivered (H := counting_tls) (sample_packer (sample_setup PerspectiveClient) (hello_stream 300) []) sample_env []
    (newPacketUnpacker (H := counting_tls) (sample_setup PerspectiveServer)) NewRTTStats 2000 (NewFrameParser 1) [1; 2; 3; 4] 1 1 h 20 [1; 2; 3])
    as (p' & pkt & cf & E & Hl & _ & _ & _ & Hd).
  - intros. cbn. lia.
  - vm_compute. reflexivity.
  - vm_compute. reflexivity.
  - apply sample_packer_ok.
  - reflexivity.
  - reflexivity.
  - eexists. split; [reflexivity|]. vm_compute. discriminate.
  - apply new_trackers_ok.
  - split; [split; vm_compute; discriminate|]. apply Forall_replicate. unfold byte_ok. lia.
  - reflexivity.
  - reflexivity.
  - exact Hh.
  - exact Hn.
  - lia.
  - rewrite Hpn. split; [cbn; lia|]. split; [lia|]. cbn. lia.
  - vm_compute. discriminate.
  - exists p', pkt, cf. split; [exact E|]. split; [exact Hl|exact Hd].
Defined.

Lemma packet_roundtrip_witness :
  let p := sample_packer (sample_setup PerspectiveServer) newCryptoStream [] in
  let pl := mkPayload [FCrypto (mkCrypto 0 [5; 6; 7])] None 6 in
  ∃ s h p' pkt, writeAndSealPacket (H := counting_tls) p sample_env [] h pl EncryptionInitial (LongSealer s) = Ok (p', pkt)
    ∧ len (pp_raw pkt) = MinInitialPacketSize
    ∧ delivered (H := counting_tls) (newPacketUnpacker (H := counting_tls) (sample_setup PerspectiveClient)) NewRTTStats 2000 (NewFrameParser 1)
        EncryptionInitial 4 (pp_raw pkt) [] (pp_header pkt) (pl_frames pl).
Proof.
  intros p pl. pose proof counting_hp as Hhp. pose proof counting_ok as Hok.
  assert (Hh : ∃ h, getLongHeader (H := counting_tls) p EncryptionInitial = Ok h ∧ GetLength h = Ok 20 ∧ Header.PacketNumber h = 0 ∧ PacketNumberLen h = 4).
  { eexists. split; [vm_compute; reflexivity|]. split_and!; vm_compute; reflexivity. }
  destruct Hh as (h & Hh & Hn & Hpn & Hpl).
  destruct (initial_keys_agree (H := counting_tls) [1; 2; 3; 4] 1 1 (sample_setup PerspectiveClient) (sample_setup PerspectiveServer) 0 false)
    as [_ (s & hp & _ & Hk)]; [intros; cbn; lia|vm_compute; reflexivity|vm_compute; reflexivity|].
  destruct (packet_roundtrip (H := counting_tls) p sample_env [] h pl EncryptionInitial false (LongSealer s) hp
    (newPacketUnpacker (H := counting_tls) (sample_setup PerspectiveClient)) NewRTTStats 2000 (NewFrameParser 1) 20 []) as (p' & pkt & Hw & _ & Hmin & Hd).
  - apply sample_packer_ok.
  - eexists. split; [reflexivity|]. vm_compute. discriminate.
  - exact Hh.
  - exact Hn.
  - rewrite Hpn. exact Hk.
  - rewrite Hpn, Hpl. split; [cbn; lia|]. split; [lia|]. cbn. lia.
  - split; [|split; [reflexivity|reflexivity]]. cbn. split_and!; try done; try (vm_compute; discriminate). 
    repeat constructor; unfold byte_ok; lia.
  - discriminate.
  - vm_compute. discriminate.
  - done.
  - exists s, h, p', pkt. split; [exact Hw|]. split; [|exact Hd]. apply Hmin; [reflexivity|reflexivity|lia].
Defined.

Lemma sample_agree pn : keys_agree (H := counting_tls) Encryption1RTT (ShortSealer (sample_aead PerspectiveClient [100] [200]))
  (aesHeaderProtector (H := counting_tls) tt false) (sample_1rtt PerspectiveServer [200] [100]) pn false.
Proof.
  pose proof counting_ok as Hok. exists counting_suite, 12, [200], [100], [100].
  destruct (start_keys (H := counting_tls) 1 counting_suite 12 PerspectiveClient [100] [200] (sample_aead PerspectiveClient [100] [200])) as (K1 & _); [reflexivity|lia|reflexivity|].
  destruct (start_keys (H := counting_tls) 1 counting_suite 12 PerspectiveServer [200] [100] (sample_aead PerspectiveServer [200] [100])) as (K2 & _); [reflexivity|lia|reflexivity|].
  split; [exact K1|]. split; [exact K2|]. split; [apply counting_separated|]. split_and!; try reflexivity. by left.
Qed.
Definition sample_data_packer : @packetPacker counting_tls SentPackets.sentPacketHandler ReceivedPackets.receivedPacketHandler sendStreams :=
  set_confirmed (H := counting_tls)
    (set_framer (H := counting_tls) (sample_packer (sample_1rtt PerspectiveClient [100] [200]) newCryptoStream [])
       (mkFramer (activeStreams sample_framer) (streamQueue sample_framer) [FPing; FMaxData (mkMaxData 77)]) sample_sends) true.
Lemma data_packets_delivered_witness :
  let fp := SetAckDelayExponent (NewFrameParser 1) AckDelayExponent in
  ∃ p' pkt, PackPacket (H := counting_tls) sample_data_packer sample_env [] = Ok (p', Some pkt)
    ∧ (length (pp_frames pkt) = 4)%nat ∧ controlFrames (pk_framer p') = []
    ∧ delivered (H := counting_tls) (newPacketUnpacker (H := counting_tls) (sample_1rtt PerspectiveServer [200] [100])) NewRTTStats 2000 fp Encryption1RTT 4
        (pp_raw pkt) [] (pp_header pkt) (pp_frames pkt).
Proof.
  intros fp. pose proof counting_hp as Hhp. pose proof counting_ok as Hok.
  assert (Hget : ∃ p1, get_1rtt (H := counting_tls) sample_data_packer sample_env = Ok (p1, ShortSealer (sample_aead PerspectiveClient [100] [200]), false)).
  { eexists. reflexivity. }
  destruct Hget as (p1 & Hget).
  destruct (data_packets_delivered (H := counting_tls) sample_data_packer p1 sample_env []
    (newPacketUnpacker (H := counting_tls) (sample_1rtt PerspectiveServer [200] [100])) NewRTTStats 2000 fp (aesHeaderProtector (H := counting_tls) tt false)
    (ShortSealer (sample_aead PerspectiveClient [100] [200])) false 0 2) as (p' & o & E & Hparts & Hd).
  - split; [done|done|done|]. cbn. unfold MinInitialPacketSize, MaxReceivePacketSize, MaxPacketSizeIPv4. lia.
  - split; [constructor| | |vm_compute; reflexivity|exact sample_sends_ok|exact new_trackers_ok].
    + repeat constructor; vm_compute; congruence.
    + exact sample_framer_inv.
  - reflexivity.
  - eexists. split; [reflexivity|]. vm_compute. discriminate.
  - exact Hget.
  - reflexivity.
  - apply sample_agree.
  - split; [cbn; lia|]. split; [lia|]. cbn. lia.
  - reflexivity.
  - assert (Hx : match PackPacket (H := counting_tls) sample_data_packer sample_env [] with
      | Ok (p', Some pkt) => (length (pp_frames pkt), controlFrames (pk_framer p'), pp_ack pkt) | _ => (O, [FPing], None) end = (4%nat, [], None)) by (vm_compute; reflexivity).
    rewrite E in Hx. destruct o as [pkt|]; [|discriminate Hx]. injection Hx as X1 X2 X3. exists p', pkt. split; [exact E|]. split; [exact X1|]. split; [exact X2|].
    destruct Hd as (_ & _ & Hd). rewrite X3 in Hd. exact Hd.
Defined.
