(* ===== verification/Session.v ===== *)
(** Session: quic-go/session.go, the connection.  It receives packets, hands their
    frames to the other components, sends packets, and closes.  Its components are
    behind interfaces, which share one state: packing a packet takes frames from the
    framer, and so on.  The functions they call back are returned and applied by the
    session. *)

From S2P Require Import Prelude Utils Protocol AckFrame Frames FrameCodec StreamFrame FrameParser GoFloat Rtt SentPackets TransportParams Header PacketPacker Protection PacketUnpacker.

Definition MaxUndecryptablePackets : Z := 10.
Definition MaxSessionUnprocessedPackets : Z := 1000.
Definition isCryptoError (code : Z) : bool := (0x100 <=? code) && (code <? 0x200).

(** * The components *)

(** Calls back into the session, by the streams and by the handshake. *)
Inductive callback :=
  | CbQueueControlFrame (f : Frame)
  | CbHasStreamData (id : Z)
  | CbStreamCompleted (id : Z)
  | CbHasStreamWindowUpdate (id : Z)
  | CbHasConnectionWindowUpdate
  | CbReceivedParams (data : list Z)
  | CbError (e : goerr)
  | CbDropKeys (encLevel : EncryptionLevel)
  | CbHandshakeComplete.

(** The interfaces and objects the session holds.  Every operation may panic; an
    error it returns is a value.  A stream is known by its ID; [None] is the nil
    stream, one that is closed and forgotten. *)
Class SessionParts (W : Type) := {
  w_Unpack : W → Header → Z → list Z → outcome (W * (unpackedPacket + goerr));
  w_PackPacket : W → Z → outcome (W * (option packedPacket + goerr));
  w_MaybePackAckPacket : W → Z → outcome (W * (option packedPacket + goerr));
  w_PackConnectionClose : W → Z → ConnectionCloseFrame → outcome (W * (packedPacket + goerr));
  w_ChangeDestConnectionID : W → list Z → W;
  w_SetToken : W → list Z → W;
  w_packer_HandleTransportParameters : W → TransportParameters → W;
  w_SentPacket : W → ah_packet → outcome W;
  w_ReceivedAck : W → AckFrame → Z → EncryptionLevel → Z → outcome (W * option goerr);
  w_GetLowestPacketNotConfirmedAcked : W → Z;
  w_ResetForRetry : W → outcome (W * option goerr);
  w_SendMode : W → SendMode;
  w_ShouldSendNumPackets : W → outcome Z;
  w_TimeUntilSend : W → outcome Z;
  w_QueueProbePacket : W → outcome (W * bool);
  w_GetLossDetectionTimeout : W → Z;
  w_OnLossDetectionTimeout : W → Z → outcome (W * option goerr);
  w_sent_DropPackets : W → EncryptionLevel → outcome W;
  w_ReceivedPacket : W → Z → EncryptionLevel → Z → bool → outcome W;
  w_IgnoreBelow : W → Z → W;
  w_GetAlarmTimeout : W → Z;
  w_received_DropPackets : W → EncryptionLevel → outcome W;
  w_HandleCryptoFrame : W → CryptoFrame → EncryptionLevel → outcome (W * list callback * bool * option goerr);
  w_ChangeConnectionID : W → list Z → outcome W;
  w_SetLargest1RTTAcked : W → Z → outcome (W * list callback);
  w_GetOrOpenReceiveStream : W → Z → outcome (W * list callback * (option Z + goerr));
  w_GetOrOpenSendStream : W → Z → outcome (W * list callback * (option Z + goerr));
  w_handleStreamFrame : W → Z → StreamFrame → outcome (W * list callback * option goerr);
  w_handleResetStreamFrame : W → Z → ResetStreamFrame → outcome (W * list callback * option goerr);
  w_handleMaxStreamDataFrame : W → Z → MaxStreamDataFrame → outcome (W * list callback);
  w_handleStopSendingFrame : W → Z → StopSendingFrame → outcome (W * list callback);
  w_HandleMaxStreamsFrame : W → MaxStreamsFrame → outcome (W * option goerr);
  w_UpdateLimits : W → TransportParameters → outcome (W * option goerr);
  w_DeleteStream : W → Z → outcome (W * list Frame * option goerr);
  w_streams_CloseWithError : W → goerr → outcome W;
  w_UpdateSendWindow : W → Z → W;
  w_IsNewlyBlocked : W → W * option Z;
  w_QueueControlFrame : W → Frame → W;
  w_AddActiveStream : W → Z → W;
  w_AddStream : W → Z → W;
  w_AddConnection : W → W;
  w_QueueAll : W → outcome W;
  w_SetMaxAckDelay : W → Z → W }.

(** * State *)

(** A received packet, with the number of its buffer. *)
Record receivedPacket := mkReceived { rp_rcvTime : Z; rp_data : list Z; rp_buffer : Z }.
Record closeError := mkCloseError { ce_err : option goerr; ce_remote : bool; ce_sendClose : bool }.
(** What leaves the session. *)
Inductive out_event :=
  | OutSend (p : packedPacket)
  | OutWrite (raw : list Z)
  | OutRemove (connID : list Z)
  | OutReplaceWithClosed (connID : list Z) (connClosePacket : option (list Z))
  | OutAddResetToken (token : list Z)
  | OutPutToken (token : list Z)
  | OutHandshakeDone
  | OutPutBack (buffer : Z).

Record Config := mkConfig { KeepAlive : bool; cfg_IdleTimeout : Z; HandshakeTimeout : Z; hasTokenStore : bool }.
Record sess_ids := mkIds { destConnID : list Z; origDestConnID : list Z; srcConnID : list Z }.
(** [handshakeCompleteChan], which is set to nil when its closing was seen. *)
Inductive done_chan := ChanOpen | ChanClosed | ChanNil.
#[export] Instance done_chan_eq_dec : EqDecision done_chan.
Proof. solve_decision. Defined.
Record sess_flags := mkFlags {
  handshakeComplete : bool; handshakeCompleteChan : done_chan; earlySessionReady : bool;
  receivedRetry : bool; receivedFirstPacket : bool; keepAlivePingSent : bool }.
Record sess_times := mkTimes {
  sessionCreationTime : Z; lastPacketReceivedTime : Z; firstAckElicitingPacketAfterIdleSentTime : Z; pacingDeadline : Z }.
(** The channels hold what was sent on them; [closeOnce] is whether it ran. *)
Record sess_chans := mkChans {
  receivedPackets : list receivedPacket; sendingScheduled : bool; closeOnce : bool; closeChan : list closeError;
  undecryptablePackets : list receivedPacket }.

Section Session.
Context {W : Type} `{SessionParts W}.

Record session := mkSession {
  s_perspective : Perspective; s_config : Config; s_ids : sess_ids; s_flags : sess_flags; s_times : sess_times;
  peerParams : option TransportParameters; s_chans : sess_chans; s_frameParser : frameParser;
  s_buffers : gmap Z Z; s_parts : W; s_out : list out_event }.
Definition set_ids (s : session) (x : sess_ids) : session :=
  mkSession (s_perspective s) (s_config s) x (s_flags s) (s_times s) (peerParams s) (s_chans s) (s_frameParser s) (s_buffers s) (s_parts s) (s_out s).
Definition set_flags (s : session) (x : sess_flags) : session :=
  mkSession (s_perspective s) (s_config s) (s_ids s) x (s_times s) (peerParams s) (s_chans s) (s_frameParser s) (s_buffers s) (s_parts s) (s_out s).
Definition set_times (s : session) (x : sess_times) : session :=
  mkSession (s_perspective s) (s_config s) (s_ids s) (s_flags s) x (peerParams s) (s_chans s) (s_frameParser s) (s_buffers s) (s_parts s) (s_out s).
Definition set_params (s : session) (x : option TransportParameters) (fp : frameParser) : session :=
  mkSession (s_perspective s) (s_config s) (s_ids s) (s_flags s) (s_times s) x (s_chans s) fp (s_buffers s) (s_parts s) (s_out s).
Definition set_chans (s : session) (x : sess_chans) : session :=
  mkSession (s_perspective s) (s_config s) (s_ids s) (s_flags s) (s_times s) (peerParams s) x (s_frameParser s) (s_buffers s) (s_parts s) (s_out s).
Definition set_buffers (s : session) (x : gmap Z Z) : session :=
  mkSession (s_perspective s) (s_config s) (s_ids s) (s_flags s) (s_times s) (peerParams s) (s_chans s) (s_frameParser s) x (s_parts s) (s_out s).
Definition set_parts (s : session) (x : W) : session :=
  mkSession (s_perspective s) (s_config s) (s_ids s) (s_flags s) (s_times s) (peerParams s) (s_chans s) (s_frameParser s) (s_buffers s) x (s_out s).
Definition emit (s : session) (e : out_event) : session :=
  mkSession (s_perspective s) (s_config s) (s_ids s) (s_flags s) (s_times s) (peerParams s) (s_chans s) (s_frameParser s) (s_buffers s) (s_parts s) (s_out s ++ [e]).

(** A step of the session that may panic. *)
Definition M (A : Type) : Type := session → outcome (session * A).
#[export] Instance M_ret : MRet M := λ _ a s, Ok (s, a).
#[export] Instance M_bind : MBind M := λ _ _ f m s, '(s, a) ← m s; f a s.
Definition modify (f : session → session) : M () := λ s, Ok (f s, ()).
Definition gets {A} (f : session → A) : M A := λ s, Ok (s, f s).
(** A component's operation. *)
Definition part {A} (f : W → outcome (W * A)) : M A := λ s, '(w, a) ← f (s_parts s); Ok (set_parts s w, a).
Definition part_ (f : W → outcome W) : M () := part (λ w, w ← f w; Ok (w, ())).
Definition part_set (f : W → W) : M () := modify (λ s, set_parts s (f (s_parts s))).
(** [if err := m; err != nil { return err }; k] *)
Definition try (m k : M (option goerr)) : M (option goerr) := e ← m; match e with Some e => mret (Some e) | None => k end.
Definition no_error : M (option goerr) := mret None.

(** * Channels and closing *)

Definition set_scheduled (c : sess_chans) : sess_chans :=
  mkChans (receivedPackets c) true (closeOnce c) (closeChan c) (undecryptablePackets c).
Definition scheduleSending : M () := modify (λ s, set_chans s (set_scheduled (s_chans s))).
Definition send_close (c : sess_chans) (e : closeError) : sess_chans :=
  mkChans (receivedPackets c) (sendingScheduled c) true (closeChan c ++ [e]) (undecryptablePackets c).
Definition closeLocal (e : option goerr) : M () := modify (λ s,
  if closeOnce (s_chans s) then s else set_chans s (send_close (s_chans s) (mkCloseError e false true))).
Definition destroyImpl (e : option goerr) : M () := modify (λ s,
  if closeOnce (s_chans s) then s
  else set_chans (emit s (OutRemove (srcConnID (s_ids s)))) (send_close (s_chans s) (mkCloseError e false false))).
Definition closeRemote (e : goerr) : M () := modify (λ s,
  if closeOnce (s_chans s) then s
  else set_chans (emit s (OutReplaceWithClosed (srcConnID (s_ids s)) None)) (send_close (s_chans s) (mkCloseError (Some e) true false))).
(** Packets beyond the capacity of the channel are dropped. *)
Definition handlePacket (p : receivedPacket) : M () := modify (λ s,
  let c := s_chans s in
  if len (receivedPackets c) <? MaxSessionUnprocessedPackets then
    set_chans s (mkChans (receivedPackets c ++ [p]) (sendingScheduled c) (closeOnce c) (closeChan c) (undecryptablePackets c))
  else s).
Definition queueControlFrame (f : Frame) : M () := part_set (λ w, w_QueueControlFrame w f);; scheduleSending.

(** * Callbacks *)

Definition processTransportParametersForClient (s : session) (data : list Z) : TransportParameters + goerr :=
  let '(params, err) := Unmarshal tp_zero data (Opposite (s_perspective s)) in
  match err with
  | Some e => inr e
  | None =>
      if negb (bool_decide (OriginalConnectionID params = origDestConnID (s_ids s)))
      then inr (Errorf "expected original_connection_id to equal %s, is %s" [])
      else inl params
  end.
Definition processTransportParametersForServer (s : session) (data : list Z) : TransportParameters + goerr :=
  let '(params, err) := Unmarshal tp_zero data (Opposite (s_perspective s)) in
  match err with Some e => inr e | None => inl params end.
(** [close] on a channel: closing it twice, or closing nil, panics. *)
Definition close_early_ready : M () := λ s,
  let f := s_flags s in
  if earlySessionReady f then Panic "close of closed channel"
  else Ok (set_flags s (mkFlags (handshakeComplete f) (handshakeCompleteChan f) true (receivedRetry f) (receivedFirstPacket f) (keepAlivePingSent f)), ()).
Definition close_handshake_complete : M () := λ s,
  let f := s_flags s in
  match handshakeCompleteChan f with
  | ChanOpen => Ok (set_flags s (mkFlags (handshakeComplete f) ChanClosed (earlySessionReady f) (receivedRetry f) (receivedFirstPacket f) (keepAlivePingSent f)), ())
  | ChanClosed => Panic "close of closed channel"
  | ChanNil => Panic "close of nil channel"
  end.
Definition processTransportParameters (data : list Z) : M () :=
  r ← gets (λ s, match s_perspective s with
                 | PerspectiveClient => processTransportParametersForClient s data
                 | PerspectiveServer => processTransportParametersForServer s data
                 end);
  match r with
  | inr e => closeLocal (Some e)
  | inl params =>
      modify (λ s, set_params s (Some params) (s_frameParser s));;
      e ← part (λ w, w_UpdateLimits w params);
      match e with
      | Some e => closeLocal (Some e)
      | None =>
          part_set (λ w, w_packer_HandleTransportParameters w params);;
          modify (λ s, set_params s (peerParams s) (SetAckDelayExponent (s_frameParser s) (tp_AckDelayExponent params)));;
          part_set (λ w, w_UpdateSendWindow w (InitialMaxData params));;
          part_set (λ w, w_SetMaxAckDelay w (tp_MaxAckDelay params));;
          match StatelessResetToken params with
          | Some token => modify (λ s, emit s (OutAddResetToken token))
          | None => mret ()
          end;;
          close_early_ready
      end
  end.
Definition dropEncryptionLevel (encLevel : EncryptionLevel) : M () :=
  part_ (λ w, w_sent_DropPackets w encLevel);;
  part_ (λ w, w_received_DropPackets w encLevel).
Definition onStreamCompleted (id : Z) : M () :=
  '(frames, e) ← part (λ w, '(w, frames, e) ← w_DeleteStream w id; Ok (w, (frames, e)));
  foldr (λ f k, queueControlFrame f;; k) (mret ()) frames;;
  match e with Some e => closeLocal (Some e) | None => mret () end.
Definition call_back (c : callback) : M () :=
  match c with
  | CbQueueControlFrame f => queueControlFrame f
  | CbHasStreamData id => part_set (λ w, w_AddActiveStream w id);; scheduleSending
  | CbStreamCompleted id => onStreamCompleted id
  | CbHasStreamWindowUpdate id => part_set (λ w, w_AddStream w id);; scheduleSending
  | CbHasConnectionWindowUpdate => part_set w_AddConnection;; scheduleSending
  | CbReceivedParams data => processTransportParameters data
  | CbError e => closeLocal (Some e)
  | CbDropKeys encLevel => dropEncryptionLevel encLevel
  | CbHandshakeComplete => close_handshake_complete
  end.
Definition call_backs (l : list callback) : M () := foldr (λ c k, call_back c;; k) (mret ()) l.
(** Operations with callbacks. *)
Definition part_cb {A} (f : W → outcome (W * list callback * A)) : M A :=
  '(cbs, a) ← part (λ w, '(w, cbs, a) ← f w; Ok (w, (cbs, a)));
  call_backs cbs;; mret a.
Definition part_cb_ (f : W → outcome (W * list callback)) : M () :=
  part_cb (λ w, '(w, cbs) ← f w; Ok (w, cbs, ())).

(** * Frames *)

Definition tryDecryptingQueuedPackets : M () :=
  l ← gets (λ s, undecryptablePackets (s_chans s));
  foldr (λ p k, handlePacket p;; k) (mret ()) l;;
  modify (λ s, let c := s_chans s in
    set_chans s (mkChans (receivedPackets c) (sendingScheduled c) (closeOnce c) (closeChan c) [])).
Definition handleCryptoFrame (frame : CryptoFrame) (encLevel : EncryptionLevel) : M (option goerr) :=
  '(encLevelChanged, err) ← part_cb (λ w, '(w, cbs, changed, e) ← w_HandleCryptoFrame w frame encLevel; Ok (w, cbs, (changed, e)));
  match err with
  | Some e => mret (Some e)
  | None => if encLevelChanged : bool then tryDecryptingQueuedPackets;; no_error else no_error
  end.
(** Both ends of a lookup: an error is returned and a nil stream is ignored. *)
Definition with_stream (r : option Z + goerr) (k : Z → M (option goerr)) : M (option goerr) :=
  match r with inr e => mret (Some e) | inl None => no_error | inl (Some id) => k id end.
Definition session_handleStreamFrame (frame : StreamFrame) : M (option goerr) :=
  str ← part_cb (λ w, w_GetOrOpenReceiveStream w (StreamID frame));
  with_stream str (λ id, part_cb (λ w, w_handleStreamFrame w id frame)).
Definition session_handleResetStreamFrame (frame : ResetStreamFrame) : M (option goerr) :=
  str ← part_cb (λ w, w_GetOrOpenReceiveStream w (rs_StreamID frame));
  with_stream str (λ id, part_cb (λ w, w_handleResetStreamFrame w id frame)).
Definition session_handleMaxStreamDataFrame (frame : MaxStreamDataFrame) : M (option goerr) :=
  str ← part_cb (λ w, w_GetOrOpenSendStream w (msd_StreamID frame));
  with_stream str (λ id, part_cb_ (λ w, w_handleMaxStreamDataFrame w id frame);; no_error).
Definition session_handleStopSendingFrame (frame : StopSendingFrame) : M (option goerr) :=
  str ← part_cb (λ w, w_GetOrOpenSendStream w (ss_StreamID frame));
  with_stream str (λ id, part_cb_ (λ w, w_handleStopSendingFrame w id frame);; no_error).
Definition handleMaxDataFrame (frame : MaxDataFrame) : M () := part_set (λ w, w_UpdateSendWindow w (md_ByteOffset frame)).
Definition session_handleMaxStreamsFrame (frame : MaxStreamsFrame) : M (option goerr) := part (λ w, w_HandleMaxStreamsFrame w frame).
Definition handlePathChallengeFrame (frame : PathChallengeFrame) : M () :=
  queueControlFrame (FPathResponse (mkPathResponse (pc_Data frame))).
Definition handleNewTokenFrame (frame : NewTokenFrame) : M (option goerr) :=
  pers ← gets s_perspective;
  if bool_decide (pers = PerspectiveServer)
  then mret (Some (QuicError ProtocolViolation (Errorf "Received NEW_TOKEN frame from the client." [])))
  else
    store ← gets (λ s, hasTokenStore (s_config s));
    (if store : bool then modify (λ s, emit s (OutPutToken (nt_Token frame))) else mret ());; no_error.
Definition handleAckFrame (frame : AckFrame) (pn : Z) (encLevel : EncryptionLevel) : M (option goerr) :=
  rcvTime ← gets (λ s, lastPacketReceivedTime (s_times s));
  try (part (λ w, w_ReceivedAck w frame pn encLevel rcvTime))
    (if bool_decide (encLevel = Encryption1RTT) then
       part_set (λ w, w_IgnoreBelow w (w_GetLowestPacketNotConfirmedAcked w));;
       part_cb_ (λ w, largest ← LargestAcked frame; w_SetLargest1RTTAcked w largest);; no_error
     else no_error).
(** The reason of a CONNECTION_CLOSE frame, as an error message. *)
Definition reason_text (b : list Z) : goerr := Errorf "%s" b.
Definition handleConnectionCloseFrame (frame : ConnectionCloseFrame) : M () :=
  closeRemote (if cc_IsApplicationError frame then ApplicationError (cc_ErrorCode frame) (reason_text (cc_ReasonPhrase frame))
               else QuicError (cc_ErrorCode frame) (reason_text (cc_ReasonPhrase frame))).
Definition handleFrame (f : Frame) (pn : Z) (encLevel : EncryptionLevel) : M (option goerr) :=
  match f with
  | FCrypto frame => handleCryptoFrame frame encLevel
  | FStream frame => session_handleStreamFrame frame
  | FAck frame => handleAckFrame frame pn encLevel
  | FConnectionClose frame => handleConnectionCloseFrame frame;; no_error
  | FResetStream frame => session_handleResetStreamFrame frame
  | FMaxData frame => handleMaxDataFrame frame;; no_error
  | FMaxStreamData frame => session_handleMaxStreamDataFrame frame
  | FMaxStreams frame => session_handleMaxStreamsFrame frame
  | FDataBlocked _ | FStreamDataBlocked _ | FStreamsBlocked _ => no_error
  | FStopSending frame => session_handleStopSendingFrame frame
  | FPing => no_error
  | FPathChallenge frame => handlePathChallengeFrame frame;; no_error
  | FPathResponse _ => mret (Some (Errorf "unexpected PATH_RESPONSE frame" []))
  | FNewToken frame => handleNewTokenFrame frame
  | FNewConnectionID _ => no_error
  | FRetireConnectionID _ => mret (Some (Errorf "unexpected RETIRE_CONNECTION_ID frame" []))
  end.

(** * Packets *)

(** [packetBuffer]: how many packets use a buffer; a buffer that is not used any more
    goes back to the pool. *)
Definition Split (b : Z) : M () := modify (λ s, set_buffers s (<[b := default 0 (s_buffers s !! b) + 1]> (s_buffers s))).
Definition Decrement (b : Z) : M () := λ s,
  let n := default 0 (s_buffers s !! b) - 1 in
  if n <? 0 then Panic "negative packetBuffer refCount" else Ok (set_buffers s (<[b := n]> (s_buffers s)), ()).
Definition MaybeRelease (b : Z) : M () := modify (λ s,
  if default 0 (s_buffers s !! b) =? 0 then emit s (OutPutBack b) else s).

Definition set_dest (s : session) (id : list Z) : session :=
  set_ids s (mkIds id (origDestConnID (s_ids s)) (srcConnID (s_ids s))).
(** The loop over the frames of a packet: every frame takes at least one byte. *)
Fixpoint handle_frames (fuel : nat) (r : list Z) (pn : Z) (encLevel : EncryptionLevel) (isAckEliciting : bool) : M (bool * option goerr) :=
  match fuel with
  | O => mret (isAckEliciting, None)
  | Datatypes.S fuel => λ s,
      match ParseNext (s_frameParser s) encLevel r with
      | Err e => Ok (s, (isAckEliciting, Some e))
      | Panic m => Panic m
      | Ok (None, _) => Ok (s, (isAckEliciting, None))
      | Ok (Some frame, rest) =>
          let isAckEliciting := isAckEliciting || IsFrameAckEliciting frame in
          (err ← handleFrame frame pn encLevel;
           match err with
           | Some e => mret (isAckEliciting, Some e)
           | None => handle_frames fuel rest pn encLevel isAckEliciting
           end) s
      end
  end.
Definition packet_received (s : session) (rcvTime : Z) : session :=
  let f := s_flags s in let t := s_times s in
  set_times
    (set_flags s (mkFlags (handshakeComplete f) (handshakeCompleteChan f) (earlySessionReady f) (receivedRetry f) true false))
    (mkTimes (sessionCreationTime t) rcvTime time_zero (pacingDeadline t)).
Definition handleUnpackedPacket (packet : unpackedPacket) (rcvTime : Z) : M (option goerr) :=
  match un_data packet with
  | [] => mret (Some (QuicError ProtocolViolation (Errorf "empty packet" [])))
  | data =>
      s ← gets (λ s, s);
      let hdr := eh_Header (un_hdr packet) in
      (if bool_decide (s_perspective s = PerspectiveClient) && negb (receivedFirstPacket (s_flags s)) && IsLongHeader hdr
          && negb (bool_decide (SrcConnectionID hdr = destConnID (s_ids s))) then
         modify (λ s, set_dest s (SrcConnectionID hdr));;
         part_set (λ w, w_ChangeDestConnectionID w (SrcConnectionID hdr))
       else mret ());;
      modify (λ s, packet_received s rcvTime);;
      '(isAckEliciting, err) ← handle_frames (Datatypes.S (length data)) data (un_packetNumber packet) (un_encryptionLevel packet) false;
      match err with
      | Some e => mret (Some e)
      | None =>
          part_ (λ w, w_ReceivedPacket w (un_packetNumber packet) (un_encryptionLevel packet) rcvTime isAckEliciting);;
          no_error
      end
  end.

Definition handleRetryPacket (hdr : Header) : M bool :=
  s ← gets (λ s, s);
  let f := s_flags s in
  if bool_decide (s_perspective s = PerspectiveServer) then mret false
  else if receivedFirstPacket f then mret false
  else if negb (bool_decide (OrigDestConnectionID hdr = destConnID (s_ids s))) then mret false
  else if bool_decide (SrcConnectionID hdr = destConnID (s_ids s)) then mret false
  else if receivedRetry f then mret false
  else
    modify (λ s, set_ids s (mkIds (SrcConnectionID hdr) (destConnID (s_ids s)) (srcConnID (s_ids s))));;
    modify (λ s, set_flags s (mkFlags (handshakeComplete f) (handshakeCompleteChan f) (earlySessionReady f) true (receivedFirstPacket f) (keepAlivePingSent f)));;
    e ← part w_ResetForRetry;
    match e with
    | Some e => closeLocal (Some e);; mret false
    | None =>
        part_ (λ w, w_ChangeConnectionID w (SrcConnectionID hdr));;
        part_set (λ w, w_SetToken w (Token hdr));;
        part_set (λ w, w_ChangeDestConnectionID w (SrcConnectionID hdr));;
        scheduleSending;; mret true
    end.

Definition tryQueueingUndecryptablePacket (p : receivedPacket) : M () := modify (λ s,
  let c := s_chans s in
  if handshakeComplete (s_flags s) then s
  else if MaxUndecryptablePackets <? len (undecryptablePackets c) + 1 then s
  else set_chans s (mkChans (receivedPackets c) (sendingScheduled c) (closeOnce c) (closeChan c) (undecryptablePackets c ++ [p]))).
(** Whether the packet was processed, and whether it was kept for later. *)
Definition handle_single (p : receivedPacket) (hdr : Header) : M (bool * bool) :=
  if bool_decide (Type_ hdr = Some PacketTypeRetry) then ok ← handleRetryPacket hdr; mret (ok, false) else
  s ← gets (λ s, s);
  if receivedFirstPacket (s_flags s) && IsLongHeader hdr && negb (bool_decide (SrcConnectionID hdr = destConnID (s_ids s)))
  then mret (false, false)
  else if bool_decide (Type_ hdr = Some PacketType0RTT) then mret (false, false)
  else
    r ← part (λ w, w_Unpack w hdr (rp_rcvTime p) (rp_data p));
    match r with
    | inr e =>
        if bool_decide (e = ErrKeysDropped) then mret (false, false)
        else if bool_decide (e = ErrOpenerNotYetAvailable) then tryQueueingUndecryptablePacket p;; mret (false, true)
        else if bool_decide (e = ErrInvalidReservedBits) then closeLocal (Some (QuicError ProtocolViolation e));; mret (false, false)
        else mret (false, false)
    | inl packet =>
        err ← handleUnpackedPacket packet (rp_rcvTime p);
        match err with
        | Some e => closeLocal (Some e);; mret (false, false)
        | None => mret (true, false)
        end
    end.
Definition handleSinglePacket (p : receivedPacket) (hdr : Header) : M bool :=
  '(processed, wasQueued) ← handle_single p hdr;
  (if wasQueued : bool then mret () else Decrement (rp_buffer p));; mret processed.

(** The loop over coalesced packets: [p] is the packet handled last, [data] what is
    left of the datagram, and [counter] a uint8. *)
Fixpoint handle_coalesced (fuel : nat) (p : receivedPacket) (data : list Z) (counter : Z) (lastConnID : list Z) (processed : bool) : M bool :=
  match fuel, data with
  | O, _ | _, [] => mret processed
  | Datatypes.S fuel, _ =>
      let p := if 0 <? counter then mkReceived (rp_rcvTime p) data (rp_buffer p) else p in
      scl ← gets (λ s, len (srcConnID (s_ids s)));
      match ParsePacket (rp_data p) scl with
      | Panic m => λ _, Panic m
      | Err _ => mret processed
      | Ok (hdr, packetData, rest) =>
          if (0 <? counter) && negb (bool_decide (DestConnectionID hdr = lastConnID)) then mret processed
          else
            (if 0 <? counter then Split (rp_buffer p) else mret ());;
            let p := mkReceived (rp_rcvTime p) packetData (rp_buffer p) in
            ok ← handleSinglePacket p hdr;
            handle_coalesced fuel p rest (u8 (counter + 1)) (DestConnectionID hdr) (processed || ok)
      end
  end.
Definition handlePacketImpl (rp : receivedPacket) : M bool :=
  processed ← handle_coalesced (length (rp_data rp)) rp (rp_data rp) 0 [] false;
  MaybeRelease (rp_buffer rp);; mret processed.

(** * Sending *)

(** [sendQueue.Send], and the bookkeeping before it. *)
Definition sent_packet (packet : packedPacket) (now : Z) : M () := part_ (λ w, p ← ToAckHandlerPacket packet now; w_SentPacket w p).
Definition sendPackedPacket (packet : packedPacket) (now : Z) : M () := modify (λ s,
  let t := s_times s in
  let s := if IsZero (firstAckElicitingPacketAfterIdleSentTime t) && packed_IsAckEliciting packet
           then set_times s (mkTimes (sessionCreationTime t) (lastPacketReceivedTime t) now (pacingDeadline t)) else s in
  emit s (OutSend packet)).
Definition maybeSendAckOnlyPacket (now : Z) : M (option goerr) :=
  r ← part (λ w, w_MaybePackAckPacket w now);
  match r with
  | inr e => mret (Some e)
  | inl None => no_error
  | inl (Some packet) => sent_packet packet now;; modify (λ s, emit s (OutSend packet));; no_error
  end.
Definition sendPacket (now : Z) : M (bool * option goerr) :=
  blocked ← part (λ w, let '(w, b) := w_IsNewlyBlocked w in Ok (w, b));
  match blocked with
  | Some offset => part_set (λ w, w_QueueControlFrame w (FDataBlocked (mkDataBlocked offset)))
  | None => mret ()
  end;;
  part_ w_QueueAll;;
  r ← part (λ w, w_PackPacket w now);
  match r with
  | inr e => mret (false, Some e)
  | inl None => mret (false, None)
  | inl (Some packet) => sent_packet packet now;; sendPackedPacket packet now;; mret (true, None)
  end.
(** The loop that queues probe packets until one is sent; [None] when it has not
    ended after [fuel] turns. *)
Fixpoint queue_probes (fuel : nat) (now : Z) : M (option (bool * option goerr)) :=
  match fuel with
  | O => mret None
  | Datatypes.S fuel =>
      wasQueued ← part w_QueueProbePacket;
      if negb wasQueued then mret (Some (false, None))
      else
        '(sent, err) ← sendPacket now;
        match err with
        | Some e => mret (Some (false, Some e))
        | None => if sent : bool then mret (Some (true, None)) else queue_probes fuel now
        end
  end.
Definition sendProbePacket (fuel : nat) (now : Z) : M (option (option goerr)) :=
  r ← queue_probes fuel now;
  match r with
  | None => mret None
  | Some (_, Some e) => mret (Some (Some e))
  | Some (true, None) => mret (Some None)
  | Some (false, None) =>
      part_set (λ w, w_QueueControlFrame w FPing);;
      '(_, err) ← sendPacket now; mret (Some err)
  end.
Definition set_pacing (t : Z) : M () := modify (λ s,
  let x := s_times s in set_times s (mkTimes (sessionCreationTime x) (lastPacketReceivedTime x) (firstAckElicitingPacketAfterIdleSentTime x) t)).
(** The loop of [sendPackets]: [inl] when the function returned, else the number of
    packets sent when the loop was left; [None] when a loop has not ended after its
    fuel. *)
Fixpoint send_loop (fuel probes : nat) (now : Z) (sendMode : SendMode) (numPackets numPacketsSent : Z) : M (option (option goerr + Z)) :=
  match fuel with
  | O => mret None
  | Datatypes.S fuel =>
      let continue n :=
        if numPackets <=? n then mret (Some (inr n))
        else sendMode ← gets (λ s, w_SendMode (s_parts s)); send_loop fuel probes now sendMode numPackets n in
      match sendMode with
      | SendNone => mret (Some (inr numPacketsSent))
      | SendAck => if 0 <? numPacketsSent then mret (Some (inl None)) else e ← maybeSendAckOnlyPacket now; mret (Some (inl e))
      | SendPTO =>
          r ← sendProbePacket probes now;
          match r with
          | None => mret None
          | Some (Some e) => mret (Some (inl (Some e)))
          | Some None => continue (numPacketsSent + 1)
          end
      | SendAny =>
          '(sentPacket, err) ← sendPacket now;
          match err with
          | Some e => mret (Some (inl (Some e)))
          | None => if sentPacket : bool then continue (numPacketsSent + 1) else mret (Some (inr numPacketsSent))
          end
      end
  end.
Definition sendPackets (probes : nat) (now : Z) : M (option (option goerr)) :=
  set_pacing time_zero;;
  sendMode ← gets (λ s, w_SendMode (s_parts s));
  if bool_decide (sendMode = SendNone) then mret (Some None) else
  numPackets ← part (λ w, n ← w_ShouldSendNumPackets w; Ok (w, n));
  r ← send_loop (Datatypes.S (Z.to_nat numPackets)) probes now sendMode numPackets 0;
  match r with
  | None => mret None
  | Some (inl e) => mret (Some e)
  | Some (inr numPacketsSent) =>
      (if numPacketsSent =? numPackets then
         t ← part (λ w, t ← w_TimeUntilSend w; Ok (w, t)); set_pacing t
       else mret ());;
      mret (Some None)
  end.

(** * Closing *)

Definition ToQuicError (e : goerr) : goerr :=
  match e with QuicError _ _ | ApplicationError _ _ => e | _ => QuicError InternalError e end.
Definition error_code (e : goerr) : Z := match e with QuicError c _ | ApplicationError c _ => c | _ => InternalError end.
Definition error_message (e : goerr) : goerr := match e with QuicError _ m | ApplicationError _ m => m | e => e end.

(** The text of an error message. *)
Context (error_text : goerr → list Z).
(** The raw packet, [None] on an error; it is sent right away. *)
Definition sendConnectionClose (now : Z) (quicErr : goerr) : M (option (list Z)) :=
  let reason := if negb (isCryptoError (error_code quicErr)) then error_text (error_message quicErr) else [] in
  r ← part (λ w, w_PackConnectionClose w now (mkConnectionClose false (error_code quicErr) 0 reason));
  match r with
  | inr _ => mret None
  | inl packet => modify (λ s, emit s (OutWrite (pp_raw packet)));; mret (Some (pp_raw packet))
  end.
Definition handleCloseError (now : Z) (closeErr : closeError) : M () :=
  let quicErr := match ce_err closeErr with None => QuicError NoError (Errorf "" []) | Some e => ToQuicError e end in
  part_ (λ w, w_streams_CloseWithError w quicErr);;
  if negb (ce_sendClose closeErr) then mret ()
  else if ce_remote closeErr then mret ()
  else
    raw ← sendConnectionClose now quicErr;
    modify (λ s, emit s (OutReplaceWithClosed (srcConnID (s_ids s)) (Some (default [] raw)))).
(** Application code closes the session and waits until the run loop has ended. *)
Definition Close : M () := closeLocal None.
Definition CloseWithError (code : Z) (desc : list Z) : M () := closeLocal (Some (QuicError code (reason_text desc))).

(** * The run loop *)

Definition idleTimeoutStartTime (s : session) : Z :=
  MaxTime (lastPacketReceivedTime (s_times s)) (firstAckElicitingPacketAfterIdleSentTime (s_times s)).
(** The deadline the timer is set to. *)
Definition maybeResetTimer (s : session) : outcome Z :=
  let cfg := s_config s in
  let f := s_flags s in
  deadline ← (if KeepAlive cfg && handshakeComplete f && negb (keepAlivePingSent f) then
                match peerParams s with
                | None => Panic "nil pointer dereference"
                | Some p => Ok (time_Add (idleTimeoutStartTime s) (Z.quot (IdleTimeout p) 2))
                end
              else Ok (time_Add (idleTimeoutStartTime s) (cfg_IdleTimeout cfg)));
  let ackAlarm := w_GetAlarmTimeout (s_parts s) in
  let deadline := if negb (IsZero ackAlarm) then MinTime deadline ackAlarm else deadline in
  let lossTime := w_GetLossDetectionTimeout (s_parts s) in
  let deadline := if negb (IsZero lossTime) then MinTime deadline lossTime else deadline in
  let deadline := if negb (handshakeComplete f) then MinTime deadline (time_Add (sessionCreationTime (s_times s)) (HandshakeTimeout cfg)) else deadline in
  Ok (if negb (IsZero (pacingDeadline (s_times s))) then MinTime deadline (pacingDeadline (s_times s)) else deadline).
(** [newToken] is the result of the token generator. *)
Definition handleHandshakeComplete (newToken : list Z + goerr) : M () :=
  modify (λ s, let f := s_flags s in
    emit (set_flags s (mkFlags true ChanNil (earlySessionReady f) (receivedRetry f) (receivedFirstPacket f) (keepAlivePingSent f))) OutHandshakeDone);;
  pers ← gets s_perspective;
  if bool_decide (pers = PerspectiveServer) then
    match newToken with
    | inl token => queueControlFrame (FNewToken (mkNewToken token))
    | inr e => closeLocal (Some e);; queueControlFrame (FNewToken (mkNewToken []))
    end
  else mret ().

(** The cases of the select of the run loop. *)
Inductive input := InClose | InTimer | InScheduled | InPacket | InHandshakeComplete.
#[export] Instance input_eq_dec : EqDecision input.
Proof. solve_decision. Defined.
(** Everything after the select: [None] when a loop has not ended after its fuel. *)
Definition after_select (probes : nat) (now : Z) : M (option ()) :=
  timeout ← gets (λ s, w_GetLossDetectionTimeout (s_parts s));
  (if negb (IsZero timeout) && Before timeout now then
     e ← part (λ w, w_OnLossDetectionTimeout w now);
     match e with Some e => closeLocal (Some e) | None => mret () end
   else mret ());;
  pacing ← gets (λ s, pacingDeadline (s_times s));
  deadline ← (if IsZero pacing then part (λ w, t ← w_TimeUntilSend w; Ok (w, t)) else mret time_zero);
  s ← gets (λ s, s);
  let f := s_flags s in
  let cfg := s_config s in
  idle ← (match peerParams s with
          | Some p => mret (Z.quot (IdleTimeout p) 2 <=? time_Sub now (lastPacketReceivedTime (s_times s)))
          | None => λ s, if KeepAlive cfg && negb (keepAlivePingSent f) && handshakeComplete f
                            && IsZero (firstAckElicitingPacketAfterIdleSentTime (s_times s))
                         then Panic "nil pointer dereference" else Ok (s, false)
          end);
  let ping := KeepAlive cfg && negb (keepAlivePingSent f) && handshakeComplete f
              && IsZero (firstAckElicitingPacketAfterIdleSentTime (s_times s)) && idle in
  (if ping : bool then
     part_set (λ w, w_QueueControlFrame w FPing);;
     modify (λ s, let f := s_flags s in
       set_flags s (mkFlags (handshakeComplete f) (handshakeCompleteChan f) (earlySessionReady f) (receivedRetry f) (receivedFirstPacket f) true))
   else mret ());;
  if negb ping && negb (IsZero deadline) && Before now deadline then set_pacing deadline;; mret (Some ())
  else if negb (handshakeComplete f) && (HandshakeTimeout cfg <=? time_Sub now (sessionCreationTime (s_times s))) then
    destroyImpl (Some (QuicError NoError (Errorf "Handshake did not complete in time" [])));; mret (Some ())
  else if handshakeComplete f && (cfg_IdleTimeout cfg <=? time_Sub now (idleTimeoutStartTime s)) then
    destroyImpl (Some (QuicError NoError (Errorf "No recent network activity" [])));; mret (Some ())
  else
    r ← sendPackets probes now;
    match r with
    | None => mret None
    | Some (Some e) => closeLocal (Some e);; mret (Some ())
    | Some None => mret (Some ())
    end.
(** Which cases can be chosen; the timer may fire at any time. *)
Definition is_ready (s : session) (i : input) : bool :=
  let c := s_chans s in
  match i with
  | InClose => negb (bool_decide (closeChan c = []))
  | InTimer => true
  | InScheduled => sendingScheduled c
  | InPacket => negb (bool_decide (receivedPackets c = []))
  | InHandshakeComplete => bool_decide (handshakeCompleteChan (s_flags s) = ChanClosed)
  end.
Definition take_close : M (option closeError) := λ s,
  let c := s_chans s in
  match closeChan c with
  | [] => Ok (s, None)
  | e :: l => Ok (set_chans s (mkChans (receivedPackets c) (sendingScheduled c) (closeOnce c) l (undecryptablePackets c)), Some e)
  end.
Definition take_scheduled : M () := modify (λ s, let c := s_chans s in
  set_chans s (mkChans (receivedPackets c) false (closeOnce c) (closeChan c) (undecryptablePackets c))).
Definition take_packet : M (option receivedPacket) := λ s,
  let c := s_chans s in
  match receivedPackets c with
  | [] => Ok (s, None)
  | p :: l => Ok (set_chans s (mkChans l (sendingScheduled c) (closeOnce c) (closeChan c) (undecryptablePackets c)), Some p)
  end.
(** Before the loop, a client waits for its first message, or until it is closed:
    then the error goes back into the channel. *)
Definition wait_client_hello (written : bool) : M () :=
  pers ← gets s_perspective;
  if negb (bool_decide (pers = PerspectiveClient)) then mret ()
  else if written then scheduleSending
  else
    e ← take_close;
    match e with
    | Some e => modify (λ s, let c := s_chans s in
        set_chans s (mkChans (receivedPackets c) (sendingScheduled c) (closeOnce c) (closeChan c ++ [e]) (undecryptablePackets c)))
    | None => mret ()
    end.
(** The first select, with a default case; [first] is the case chosen, if any. *)
Definition first_select (first : option input) (newToken : list Z + goerr) : M (option closeError) :=
  match first with
  | Some InClose => take_close
  | Some InHandshakeComplete => handleHandshakeComplete newToken;; mret None
  | _ => mret None
  end.
(** The select that waits: the error the session closes with, or whether to go on
    with the rest of the turn. *)
Definition second_select (i : input) (newToken : list Z + goerr) : M (closeError + bool) :=
  match i with
  | InClose => e ← take_close; match e with Some e => mret (inl e) | None => mret (inr false) end
  | InTimer => mret (inr true)
  | InScheduled => take_scheduled;; mret (inr true)
  | InPacket => p ← take_packet; match p with Some p => ok ← handlePacketImpl p; mret (inr ok) | None => mret (inr false) end
  | InHandshakeComplete => handleHandshakeComplete newToken;; mret (inr true)
  end.
(** One turn of the run loop: the error the session closes with, or whether all of
    its loops ended. *)
Definition run_turn (probes : nat) (now : Z) (newToken : list Z + goerr) (first : option input) (i : input) : M (closeError + option ()) :=
  e ← first_select first newToken;
  match e with
  | Some e => mret (inl e)
  | None =>
      _ ← (λ s, t ← maybeResetTimer s; Ok (s, t));
      r ← second_select i newToken;
      match r with
      | inl e => mret (inl e)
      | inr false => mret (inr (Some ()))
      | inr true => r ← after_select probes now; mret (inr r)
      end
  end.

(** The initial send window of a new stream. *)
Definition newFlowController_window (s : session) (id : Z) : Z :=
  match peerParams s with
  | None => 0
  | Some p =>
      if bool_decide (StreamID_Type id = StreamTypeUni) then InitialMaxStreamDataUni p
      else if bool_decide (StreamID_InitiatedBy id = s_perspective s) then InitialMaxStreamDataBidiRemote p
      else InitialMaxStreamDataBidiLocal p
  end.
End Session.
