(* ===== verification/SessionSpec.v ===== *)
(** SessionSpec: what session.go promises, whatever its components do.  Every
    property is a relation between the states before and after; the relations are
    reflexive and transitive, so they are checked operation by operation. *)

From S2P Require Import Prelude Utils Protocol AckFrame Frames FrameCodec StreamFrame FrameParser GoFloat Rtt SentPackets TransportParams Header PacketPacker Protection PacketUnpacker Session.

Create HintDb keeps.
(** [m] only moves along [R]. *)
Definition keeps {W} (R : @session W → @session W → Prop) {A} (m : @M W A) : Prop := ∀ s s' a, m s = Ok (s', a) → R s s'.

Section Keeps.
Context {W : Type} `{SessionParts W}.
Context (R : @session W → @session W → Prop) `{!Reflexive R} `{!Transitive R}.
Lemma keeps_ret {A} (a : A) : keeps R (mret (M := @M W) a).
Proof. by intros s s' ? [= <- <-]. Qed.
Lemma keeps_bind {A B} (m : @M W A) (f : A → @M W B) : keeps R m → (∀ a, keeps R (f a)) → keeps R (m ≫= f).
Proof.
  intros Hm Hf s s' b E. unfold mbind, M_bind in E. destruct (m s) as [[s1 a]| |] eqn:E1; try done. cbn [mbind outcome_bind] in E.
  transitivity s1; [by eapply Hm|by eapply Hf].
Qed.
Lemma keeps_gets {A} (f : session → A) : keeps R (gets f).
Proof. by intros s s' ? [= <- <-]. Qed.
Lemma keeps_modify f : (∀ s, R s (f s)) → keeps R (modify f).
Proof. by intros Hf s s' ? [= <- <-]. Qed.
Lemma keeps_foldr {B} (g : B → @M W ()) l : (∀ b, keeps R (g b)) → keeps R (foldr (λ b k, g b;; k) (mret ()) l).
Proof. intros Hg. induction l as [|b l IH]; [apply keeps_ret|]. apply keeps_bind; [apply Hg|done]. Qed.

(** Operations of the components do not concern the session. *)
Context (Hparts : ∀ s w, R s (set_parts s w)).
Lemma keeps_part {A} (f : W → outcome (W * A)) : keeps R (part f).
Proof.
  intros s s' a E. unfold part in E. destruct (f (s_parts s)) as [[w b]| |]; try done. cbn [mbind outcome_bind] in E.
  injection E as <- <-. apply Hparts.
Qed.
Lemma keeps_part_ f : keeps R (part_ f).
Proof. apply keeps_part. Qed.
Lemma keeps_part_set f : keeps R (part_set f).
Proof. apply keeps_modify. intros s. apply Hparts. Qed.
End Keeps.

(** * Relations the operations keep *)

(** The events by which a session leaves: it is removed from the packet handlers or
    replaced in them, or writes a packet that does not go through the send queue. *)
Definition is_closing (e : out_event) : bool :=
  match e with OutWrite _ | OutRemove _ | OutReplaceWithClosed _ _ => true | _ => false end.
Definition is_plain (e : out_event) : bool := match e with OutPutBack _ => false | e => negb (is_closing e) end.
Definition closing (l : list out_event) : list out_event := filter (λ e, is_closing e = true) l.

(** The relations that every change of the session's own state keeps, whatever the
    components do; packets and their buffers are left aside. *)
Class Kept {W} `{SessionParts W} (R : @session W → @session W → Prop) := {
  kept_refl :: Reflexive R;
  kept_trans :: Transitive R;
  kept_parts s w : R s (set_parts s w);
  kept_ids s x : srcConnID x = srcConnID (s_ids s) → R s (set_ids s x);
  kept_flags s x : R s (set_flags s x);
  kept_times s x : R s (set_times s x);
  kept_params s x fp : R s (set_params s x fp);
  kept_emit s e : is_plain e = true → R s (emit s e);
  kept_schedule s : R s (set_chans s (set_scheduled (s_chans s)));
  kept_closeLocal e : keeps R (closeLocal e);
  kept_destroy e : keeps R (destroyImpl e);
  kept_closeRemote e : keeps R (closeRemote e);
  kept_requeue : keeps R tryDecryptingQueuedPackets }.

#[export] Hint Extern 0 (Kept _) => apply _ : keeps.

(** Walks through an operation. *)
Ltac keeps_step :=
  match goal with
  | |- keeps _ (mret _) => apply keeps_ret; apply _
  | |- keeps _ (gets _) => apply keeps_gets; apply _
  | |- keeps _ no_error => apply keeps_ret; apply _
  | |- keeps _ (part_set _) => apply keeps_part_set; apply kept_parts
  | |- keeps _ (part_ _) => apply keeps_part_; apply kept_parts
  | |- keeps _ (part _) => apply keeps_part; apply kept_parts
  | |- keeps _ (foldr _ _ _) => apply keeps_foldr; [apply _..|intros]
  | |- keeps _ (_ ≫= _) => apply keeps_bind; [apply _| |intros]
  | |- keeps _ (match ?x with _ => _ end) => destruct x
  | |- keeps _ _ => solve [eauto 2 with keeps nocore]
  | |- keeps _ (modify _) => apply keeps_modify; intros; cbv zeta; repeat case_match; simpl
  | |- ?R ?s ?s => reflexivity
  | |- _ (set_params _ _ _) => apply kept_params
  | |- _ (set_flags _ _) => apply kept_flags
  | |- _ (set_times _ _) => apply kept_times
  | |- _ (set_parts _ _) => apply kept_parts
  | |- _ (set_ids _ _) => by apply kept_ids
  | |- _ (emit _ _) => etrans; [|by apply kept_emit]
  end.
Ltac keeps_auto := repeat keeps_step.

Section KeptOps.
Context {W : Type} `{SessionParts W} (R : @session W → @session W → Prop) `{!Kept R}.
Lemma keeps_schedule : keeps R scheduleSending.
Proof. apply keeps_modify. apply kept_schedule. Qed.
#[local] Hint Resolve kept_closeLocal kept_destroy kept_closeRemote keeps_schedule kept_requeue : keeps.
Lemma keeps_queueControlFrame f : keeps R (queueControlFrame f).
Proof. unfold queueControlFrame. keeps_auto. Qed.
#[local] Hint Resolve keeps_queueControlFrame : keeps.
Lemma keeps_early : keeps R close_early_ready.
Proof. intros s s' a E. unfold close_early_ready in E. case_match; [done|]. injection E as <- _. apply kept_flags. Qed.
Lemma keeps_hs : keeps R close_handshake_complete.
Proof. intros s s' a E. unfold close_handshake_complete in E. case_match; try done. injection E as <- _. apply kept_flags. Qed.
#[local] Hint Resolve keeps_early keeps_hs : keeps.
Lemma keeps_params data : keeps R (processTransportParameters data).
Proof. unfold processTransportParameters. keeps_auto. Qed.
#[local] Hint Resolve keeps_params : keeps.
Lemma keeps_call_back c : keeps R (call_back c).
Proof. destruct c; cbn [call_back]; unfold onStreamCompleted, dropEncryptionLevel; keeps_auto. Qed.
#[local] Hint Resolve keeps_call_back : keeps.
Lemma keeps_part_cb {A} (f : W → outcome (W * list callback * A)) : keeps R (part_cb f).
Proof. unfold part_cb, call_backs. keeps_auto. Qed.
#[local] Hint Resolve keeps_part_cb : keeps.
Lemma keeps_part_cb_ f : keeps R (part_cb_ f).
Proof. unfold part_cb_. keeps_auto. Qed.
#[local] Hint Resolve keeps_part_cb_ : keeps.
Lemma keeps_try m k : keeps R m → keeps R k → keeps R (try m k).
Proof. intros. unfold try. keeps_auto; done. Qed.
Lemma keeps_handleFrame f pn lvl : keeps R (handleFrame f pn lvl).
Proof.
  destruct f; cbn [handleFrame]; unfold handleCryptoFrame, session_handleStreamFrame, session_handleResetStreamFrame, session_handleMaxStreamDataFrame,
    session_handleStopSendingFrame, handleMaxDataFrame, session_handleMaxStreamsFrame, handlePathChallengeFrame, handleNewTokenFrame, handleConnectionCloseFrame,
    with_stream; keeps_auto.
  unfold handleAckFrame. apply keeps_bind; [apply _|keeps_auto|intros t]. apply keeps_try; keeps_auto.
Qed.
#[local] Hint Resolve keeps_handleFrame : keeps.
Lemma keeps_handle_frames fuel r pn lvl ae : keeps R (handle_frames fuel r pn lvl ae).
Proof.
  revert r ae. induction fuel as [|fuel IH]; intros r ae; cbn [handle_frames]; [keeps_auto|].
  intros s s' a E. destruct (ParseNext _ _ r) as [[[f|] rest]| |]; [|by injection E as <- _..|done].
  revert E. apply (keeps_bind R (handleFrame f pn lvl)); [keeps_auto|]. intros [e|]; [keeps_auto|apply IH].
Qed.
#[local] Hint Resolve keeps_handle_frames : keeps.
Lemma keeps_packet_received t : keeps R (modify (λ s, packet_received s t)).
Proof. apply keeps_modify. intros s. unfold packet_received. etrans; [apply kept_flags|apply kept_times]. Qed.
#[local] Hint Resolve keeps_packet_received : keeps.
Lemma keeps_set_dest id : keeps R (modify (λ s, set_dest s id)).
Proof. apply keeps_modify. intros s. by apply kept_ids. Qed.
#[local] Hint Resolve keeps_set_dest : keeps.
Lemma keeps_handleUnpackedPacket packet t : keeps R (handleUnpackedPacket packet t).
Proof. unfold handleUnpackedPacket. keeps_auto. Qed.
Lemma keeps_handleRetryPacket hdr : keeps R (handleRetryPacket hdr).
Proof. unfold handleRetryPacket. keeps_auto. Qed.
#[local] Hint Resolve keeps_handleUnpackedPacket keeps_handleRetryPacket : keeps.

(** Sending. *)
Lemma keeps_sent_packet p now : keeps R (sent_packet p now).
Proof. unfold sent_packet. keeps_auto. Qed.
Lemma keeps_sendPackedPacket p now : keeps R (sendPackedPacket p now).
Proof. unfold sendPackedPacket. keeps_auto. Qed.
#[local] Hint Resolve keeps_sent_packet keeps_sendPackedPacket : keeps.
Lemma keeps_sendPacket now : keeps R (sendPacket now).
Proof. unfold sendPacket. keeps_auto. Qed.
#[local] Hint Resolve keeps_sendPacket : keeps.
Lemma keeps_sendProbePacket fuel now : keeps R (sendProbePacket fuel now).
Proof.
  assert (keeps R (queue_probes fuel now)) as Hq.
  { induction fuel as [|fuel IH]; cbn [queue_probes]; keeps_auto. }
  unfold sendProbePacket. keeps_auto.
Qed.
#[local] Hint Resolve keeps_sendProbePacket : keeps.
Lemma keeps_set_pacing t : keeps R (set_pacing t).
Proof. unfold set_pacing. keeps_auto. Qed.
#[local] Hint Resolve keeps_set_pacing : keeps.
Lemma keeps_sendPackets fuel now : keeps R (sendPackets fuel now).
Proof.
  assert (∀ n m numPackets sent, keeps R (send_loop n fuel now m numPackets sent)) as Hl.
  { intros n. induction n as [|n IH]; intros m np k; cbn [send_loop]; cbv zeta; unfold maybeSendAckOnlyPacket; keeps_auto. }
  unfold sendPackets. keeps_auto.
Qed.
#[local] Hint Resolve keeps_sendPackets : keeps.
Lemma keeps_handleHandshakeComplete tok : keeps R (handleHandshakeComplete tok).
Proof.
  unfold handleHandshakeComplete. apply keeps_bind; [apply _| |intros []; keeps_auto].
  apply keeps_modify. intros s. etrans; [apply kept_flags|by apply kept_emit].
Qed.
Lemma keeps_after_select fuel now : keeps R (after_select fuel now).
Proof.
  unfold after_select. keeps_auto.
  all: try (intros s s' b E; case_match; [done|by injection E as <- _]).
Qed.
End KeptOps.
#[export] Hint Resolve kept_closeLocal kept_destroy kept_closeRemote keeps_schedule kept_requeue keeps_queueControlFrame keeps_call_back
  keeps_handleUnpackedPacket keeps_handleRetryPacket keeps_sendPackets keeps_handleHandshakeComplete keeps_after_select : keeps.

(** Relations that do not concern packets and buffers either. *)
Class KeptPackets {W} `{SessionParts W} (R : @session W → @session W → Prop) := {
  kept_packets_kept :: Kept R;
  kept_buffers s x : R s (set_buffers s x);
  kept_put_back s b : R s (emit s (OutPutBack b));
  kept_queue p : keeps R (tryQueueingUndecryptablePacket p);
  kept_incoming p : keeps R (handlePacket p) }.
Section KeptPacketOps.
Context {W : Type} `{SessionParts W} (R : @session W → @session W → Prop) `{!KeptPackets R}.
#[local] Hint Resolve kept_queue kept_incoming : keeps.
Lemma keeps_split b : keeps R (Split b).
Proof. apply keeps_modify. intros s. apply kept_buffers. Qed.
Lemma keeps_decrement b : keeps R (Decrement b).
Proof. intros s s' a E. unfold Decrement in E. cbv zeta in E. case_match; [done|]. injection E as <- _. apply kept_buffers. Qed.
Lemma keeps_release b : keeps R (MaybeRelease b).
Proof. apply keeps_modify. intros s. case_match; [apply kept_put_back|reflexivity]. Qed.
#[local] Hint Resolve keeps_split keeps_decrement keeps_release : keeps.
Lemma keeps_handleSinglePacket p hdr : keeps R (handleSinglePacket p hdr).
Proof. unfold handleSinglePacket, handle_single. keeps_auto. Qed.
#[local] Hint Resolve keeps_handleSinglePacket : keeps.
Lemma keeps_handlePacketImpl p : keeps R (handlePacketImpl p).
Proof.
  assert (∀ fuel p data n id b, keeps R (handle_coalesced fuel p data n id b)) as Hc.
  { intros fuel. induction fuel as [|fuel IH]; intros q data n id b; cbn [handle_coalesced]; [keeps_auto|].
    destruct data; [keeps_auto|]. cbv zeta. apply keeps_bind; [apply _|keeps_auto|intros scl].
    destruct (ParsePacket _ scl) as [[[hdr pd] rest]|e|m]; [|keeps_auto|by intros ???]. keeps_auto. }
  unfold handlePacketImpl. keeps_auto.
Qed.
End KeptPacketOps.
#[export] Hint Extern 0 (KeptPackets _) => apply _ : keeps.
#[export] Hint Resolve kept_incoming keeps_handlePacketImpl : keeps.

(** * Closing *)

Section Close.
Context {W : Type} `{SessionParts W}.
Implicit Types s : @session W.
(** The events of a close by anything but an error of our own. *)
Definition closing_events (id : list Z) (e : closeError) : list out_event :=
  if ce_sendClose e then [] else [if ce_remote e then OutReplaceWithClosed id None else OutRemove id].
(** The session is closed at most once; then one error is put into the channel, and
    unless a CONNECTION_CLOSE is to be sent, the session leaves the packet handlers. *)
Definition close_rel (s s' : @session W) : Prop :=
  let c := s_chans s in let c' := s_chans s' in
  srcConnID (s_ids s') = srcConnID (s_ids s) ∧
  ((closeOnce c' = closeOnce c ∧ closeChan c' = closeChan c ∧ closing (s_out s') = closing (s_out s))
   ∨ (closeOnce c = false ∧ closeOnce c' = true ∧
      ∃ e, closeChan c' = closeChan c ++ [e] ∧ closing (s_out s') = closing (s_out s) ++ closing_events (srcConnID (s_ids s)) e ∧
        (ce_remote e = true → ce_sendClose e = false))).
#[local] Instance close_refl : Reflexive close_rel.
Proof. intros s. split; [done|]. by left. Qed.
#[local] Instance close_trans : Transitive close_rel.
Proof.
  intros s1 s2 s3 [I [(E1 & E2 & E3)|(E1 & E2 & e & E3 & E4 & E5)]] [J [(F1 & F2 & F3)|(F1 & F2 & e' & F3 & F4 & F5)]].
  all: split; [congruence|].
  - left. split_and!; congruence.
  - right. rewrite <- E1, <- E2, <- E3, <- I. eauto 6.
  - right. split; [done|]. split; [congruence|]. exists e. split_and!; [congruence|congruence|done].
  - congruence.
Qed.
Lemma close_modify f :
  (∀ s, s_ids (f s) = s_ids s ∧ closeOnce (s_chans (f s)) = closeOnce (s_chans s) ∧ closeChan (s_chans (f s)) = closeChan (s_chans s)
        ∧ s_out (f s) = s_out s) → keeps close_rel (modify f).
Proof.
  intros Hf. apply keeps_modify. intros s. destruct (Hf s) as (E1 & E2 & E3 & E4). split; [by rewrite E1|].
  left. by rewrite E4.
Qed.
Lemma close_send f e :
  (∀ s, closeOnce (s_chans s) = true → f s = s) →
  (∀ s, closeOnce (s_chans s) = false → s_ids (f s) = s_ids s ∧ s_chans (f s) = send_close (s_chans s) e ∧
    closing (s_out (f s)) = closing (s_out s) ++ closing_events (srcConnID (s_ids s)) e) →
  (ce_remote e = true → ce_sendClose e = false) → keeps close_rel (modify f).
Proof.
  intros Hf Hc He. apply keeps_modify. intros s. destruct (closeOnce (s_chans s)) eqn:E; [by rewrite (Hf s E)|].
  destruct (Hc s E) as (E1 & E2 & E3). split; [by rewrite E1|]. right. rewrite E2. eauto 7.
Qed.
Lemma closing_app l l' : closing (l ++ l') = closing l ++ closing l'.
Proof. apply filter_app. Qed.
Lemma close_closeLocal e : keeps close_rel (closeLocal e).
Proof. apply (close_send _ (mkCloseError e false true)); [by intros s ->|intros s ->|done]. split_and!; try done. by rewrite app_nil_r. Qed.
Lemma close_destroy e : keeps close_rel (destroyImpl e).
Proof. apply (close_send _ (mkCloseError e false false)); [by intros s ->|intros s ->|done]. split_and!; try done. simpl. by rewrite closing_app. Qed.
Lemma close_closeRemote e : keeps close_rel (closeRemote e).
Proof. apply (close_send _ (mkCloseError (Some e) true false)); [by intros s ->|intros s ->|done]. split_and!; try done. simpl. by rewrite closing_app. Qed.
Lemma close_handlePacket p : keeps close_rel (handlePacket p).
Proof. apply close_modify. intros s. cbv zeta. by case_match. Qed.
Lemma close_requeue : keeps close_rel tryDecryptingQueuedPackets.
Proof.
  unfold tryDecryptingQueuedPackets. apply keeps_bind; [apply _|apply keeps_gets, _|intros l].
  apply keeps_bind; [apply _| |intros _; by apply close_modify]. apply keeps_foldr; [apply _..|apply close_handlePacket].
Qed.
Lemma close_emit s e : is_closing e = false → close_rel s (emit s e).
Proof.
  intros E. split; [done|]. left. split_and!; try done. simpl. rewrite closing_app. unfold closing at 2.
  rewrite filter_cons_False by (by rewrite E). apply app_nil_r.
Qed.
#[export] Instance close_kept : Kept close_rel.
Proof.
  split; try apply _; try (intros; split; [done|by left]).
  - intros s e E. apply close_emit. by destruct e.
  - apply close_closeLocal.
  - apply close_destroy.
  - apply close_closeRemote.
  - apply close_requeue.
Qed.
#[export] Instance close_kept_packets : KeptPackets close_rel.
Proof.
  split; try apply _; try (intros; split; [done|by left]).
  - intros s b. by apply close_emit.
  - intros p. apply close_modify. intros s. cbv zeta. by repeat case_match.
  - apply close_handlePacket.
Qed.
End Close.
