(* ===== verification/SessionRun.v ===== *)
(** SessionRun: the runs of a session.  Its goroutine takes turns of the run loop,
    and other goroutines close it, hand it packets and call back; a session that has
    stopped reports why. *)

From S2P Require Import Prelude Utils Protocol AckFrame Frames FrameCodec StreamFrame FrameParser GoFloat Rtt SentPackets TransportParams Header PacketPacker Protection PacketUnpacker Session SessionSpec.

Section Run.
Context {W : Type} `{SessionParts W}.
Implicit Types s : @session W.

(** What other goroutines do: the application and the send queue close the session,
    the packet handlers destroy it or hand it packets, and streams and the handshake
    call back. *)
Inductive other_op : M () → Prop :=
  | op_closeLocal e : other_op (closeLocal e)
  | op_destroy e : other_op (destroyImpl e)
  | op_packet p : other_op (handlePacket p)
  | op_call_back c : other_op (call_back c).

(** [session_run s0 s r]: from [s0] the session came to [s], and [r] is the error the
    run loop was left with. *)
Inductive session_run (s0 : @session W) : @session W → option closeError → Prop :=
  | run_start : session_run s0 s0 None
  | run_other m s s' r : session_run s0 s r → other_op m → m s = Ok (s', ()) → session_run s0 s' r
  | run_wait s s' written : session_run s0 s None → wait_client_hello written s = Ok (s', ()) → session_run s0 s' None
  | run_next probes now tok first i s s' :
      session_run s0 s None → run_turn probes now tok first i s = Ok (s', inr (Some ())) → session_run s0 s' None
  | run_stop probes now tok first i s s' e :
      session_run s0 s None → run_turn probes now tok first i s = Ok (s', inl e) → session_run s0 s' (Some e).

Lemma close_other m s s' : other_op m → m s = Ok (s', ()) → close_rel s s'.
Proof. intros Hm. revert s s'. assert (keeps close_rel m) as Hk by (destruct Hm; eauto 2 with keeps nocore). intros s s'. apply Hk. Qed.

(** The rest of a turn, once an error was taken from the channel. *)
Definition took (s s' : @session W) (e : closeError) : Prop :=
  ∃ s1 : @session W, close_rel s s1 ∧ srcConnID (s_ids s') = srcConnID (s_ids s1) ∧ closeOnce (s_chans s') = closeOnce (s_chans s1) ∧
    closeChan (s_chans s1) = e :: closeChan (s_chans s') ∧ s_out s' = s_out s1.
Lemma take_close_spec s s' e : take_close s = Ok (s', Some e) → took s s' e.
Proof.
  unfold take_close. intros E. exists s. split; [reflexivity|]. destruct (closeChan (s_chans s)) as [|e' l] eqn:Ec; [done|].
  injection E as <- <-. done.
Qed.
Lemma take_close_none s s' : take_close s = Ok (s', None) → s' = s.
Proof. unfold take_close. by destruct (closeChan (s_chans s)); intros [= <-]. Qed.
Lemma took_after s s1 s' e : close_rel s s1 → took s1 s' e → took s s' e.
Proof. intros Hr (s2 & H2 & Ht). exists s2. split; [by transitivity s1|done]. Qed.

Lemma bindM {A B} (m : M A) (f : A → M B) s s' b :
  (m ≫= f) s = Ok (s', b) ↔ ∃ s1 a, m s = Ok (s1, a) ∧ f a s1 = Ok (s', b).
Proof.
  unfold mbind at 1, M_bind. split.
  - destruct (m s) as [[s1 a]| |]; try done. cbn [mbind outcome_bind]. eauto.
  - intros (s1 & a & -> & E). done.
Qed.

Lemma first_select_spec first tok s s' r : first_select first tok s = Ok (s', r) →
  match r with Some e => took s s' e | None => close_rel s s' end.
Proof.
  unfold first_select. intros E.
  assert (r = None ∧ close_rel s s' ∨ take_close s = Ok (s', r)) as [[-> Hr]|Ec].
  { destruct first as [[]|]; try (injection E as <- <-; left; split; [done|reflexivity]); [by right|]. left.
    apply bindM in E as (s1 & [] & E1 & [= <- <-]). split; [done|]. revert E1. by apply keeps_handleHandshakeComplete, _. }
  { done. }
  destruct r as [e|]; [by apply take_close_spec|]. by rewrite (take_close_none _ _ Ec).
Qed.
Lemma second_select_spec i tok s s' r : second_select i tok s = Ok (s', r) →
  match r with inl e => took s s' e | inr _ => close_rel s s' end.
Proof.
  unfold second_select. destruct i; intros E.
  - apply bindM in E as (s1 & [e|] & E1 & [= <- <-]); [by apply take_close_spec|]. by rewrite (take_close_none _ _ E1).
  - by injection E as <- <-.
  - apply bindM in E as (s1 & [] & E1 & [= <- <-]). revert E1. apply close_modify. done.
  - apply bindM in E as (s1 & p & E1 & E2). assert (close_rel s s1) as Hr.
    { unfold take_packet in E1. destruct (receivedPackets _); injection E1 as <- _; split; [done|by left|done|by left]. }
    destruct p as [p|]; [|by injection E2 as <- <-]. apply bindM in E2 as (s2 & ok & E2 & [= <- <-]).
    transitivity s1; [done|]. revert E2. by apply keeps_handlePacketImpl, _.
  - apply bindM in E as (s1 & [] & E1 & [= <- <-]). revert E1. by apply keeps_handleHandshakeComplete, _.
Qed.
Lemma run_turn_spec probes now tok first i s s' r : run_turn probes now tok first i s = Ok (s', r) →
  match r with inl e => took s s' e | inr _ => close_rel s s' end.
Proof.
  unfold run_turn. intros E. apply bindM in E as (s1 & r1 & E1 & E). apply first_select_spec in E1.
  destruct r1 as [e|]; [by injection E as <- <-|]. apply bindM in E as (s2 & t & E2 & E). assert (s2 = s1) as ->.
  { destruct (maybeResetTimer s1); try done. by injection E2 as <- _. }
  apply bindM in E as (s2 & r2 & E3 & E). apply second_select_spec in E3.
  destruct r2 as [e|[]]; [|..|].
  - injection E as <- <-. by eapply took_after.
  - apply bindM in E as (s3 & r3 & E4 & [= <- <-]). apply (keeps_after_select close_rel) in E4.
    transitivity s1; [done|]. by transitivity s2.
  - injection E as <- <-. by transitivity s1.
Qed.
Lemma wait_client_hello_spec written s s' : wait_client_hello written s = Ok (s', ()) →
  len (closeChan (s_chans s)) <= 1 → close_rel s s'.
Proof.
  unfold wait_client_hello. intros E Hl. apply bindM in E as (s1 & pers & [= <- <-] & E).
  destruct (negb _); [by injection E as <-|]. destruct written; [by eapply (keeps_schedule close_rel)|].
  apply bindM in E as (s1 & r & E1 & E). destruct r as [e|]; [|injection E as <-; by rewrite (take_close_none _ _ E1)].
  unfold take_close in E1. destruct (closeChan (s_chans s)) as [|e' l] eqn:Ec; [done|]. injection E1 as <- <-.
  injection E as <-. destruct l; [|unfold len in Hl; simpl in Hl; lia]. split; [done|]. left. by rewrite Ec.
Qed.

(** * Closing *)

(** The states of a run: the session is open, or one error waits in the channel, or
    the loop was left with it. *)
Definition close_state (s0 s : @session W) (r : option closeError) : Prop :=
  let c := s_chans s in
  srcConnID (s_ids s) = srcConnID (s_ids s0) ∧
  match closeOnce c, r with
  | false, None => closeChan c = [] ∧ closing (s_out s) = closing (s_out s0)
  | true, _ => ∃ e, closeChan c = match r with Some _ => [] | None => [e] end ∧ (∀ e', r = Some e' → e' = e) ∧
      closing (s_out s) = closing (s_out s0) ++ closing_events (srcConnID (s_ids s0)) e ∧ (ce_remote e = true → ce_sendClose e = false)
  | false, Some _ => False
  end.
Lemma close_state_rel s0 s s' r : close_state s0 s r → close_rel s s' → close_state s0 s' r.
Proof.
  intros [I Hs] [J [(E1 & E2 & E3)|(E1 & E2 & e & E3 & E4 & E5)]]; split; try congruence.
  - by rewrite E1, E2, E3.
  - rewrite E1 in Hs. rewrite E2. destruct r as [e'|]; [done|]. destruct Hs as [Hc Ho].
    exists e. rewrite E3, Hc, E4, Ho, I. done.
Qed.
Lemma close_state_took s0 s s' e : close_state s0 s None → took s s' e → close_state s0 s' (Some e).
Proof.
  intros Hs (s1 & Hr & I & E1 & E2 & E3). destruct (close_state_rel _ _ _ _ Hs Hr) as [J Hs1]. clear Hs.
  split; [congruence|]. rewrite E1, E3. destruct (closeOnce (s_chans s1)).
  - destruct Hs1 as (e' & Hc & _ & Ho & Hrm). rewrite E2 in Hc. injection Hc as -> Hc. exists e'. split; [done|]. split; [by intros ? [= ->]|done].
  - destruct Hs1 as [Hc _]. by rewrite Hc in E2.
Qed.
Lemma close_state_run s0 s r :
  closeOnce (s_chans s0) = false → closeChan (s_chans s0) = [] → session_run s0 s r → close_state s0 s r.
Proof.
  intros E1 E2. induction 1 as [|m s s' r _ IH Hm E|s s' w _ IH E|probes now tok first i s s' _ IH E|probes now tok first i s s' e _ IH E].
  - split; [done|]. by rewrite E1.
  - eapply close_state_rel; [done|]. by eapply close_other.
  - eapply close_state_rel; [done|]. eapply wait_client_hello_spec; [done|]. destruct IH as [_ IH].
    destruct (closeOnce (s_chans s)); [destruct IH as (e & -> & _)|destruct IH as [-> _]]; unfold len; simpl; lia.
  - eapply close_state_rel; [done|]. by apply run_turn_spec in E.
  - eapply close_state_took; [done|]. by apply run_turn_spec in E.
Qed.
(** A run can be continued. *)
Lemma run_trans s0 s s' r : session_run s0 s None → session_run s s' r → session_run s0 s' r.
Proof. intros Hr. induction 1; eauto using session_run. Qed.

(** The first select takes the error that is waiting. *)
Lemma turn_closes probes now tok i s e l : closeChan (s_chans s) = e :: l → ∃ s', run_turn probes now tok (Some InClose) i s = Ok (s', inl e).
Proof. intros E. eexists. apply bindM. eexists _, (Some e). split; [|reflexivity]. unfold first_select, take_close. by rewrite E. Qed.
Lemma waiting_error s e s' r : closeOnce (s_chans s) = true → closeChan (s_chans s) = [e] → session_run s s' r →
  closeOnce (s_chans s') = true ∧ closeChan (s_chans s') = match r with Some _ => [] | None => [e] end ∧ (r = None ∨ r = Some e).
Proof.
  intros E1 E2.
  assert (∀ s1 s2 : @session W, close_rel s1 s2 → closeOnce (s_chans s1) = true → closeOnce (s_chans s2) = true ∧ closeChan (s_chans s2) = closeChan (s_chans s1)) as Hc.
  { intros s1 s2 [_ [(F1 & F2 & _)|(F1 & _)]] F; [|congruence]. split; congruence. }
  induction 1 as [|m s1 s2 r _ (I1 & I2 & I3) Hm E|s1 s2 w _ (I1 & I2 & I3) E|probes now tok first i s1 s2 _ (I1 & I2 & I3) E
    |probes now tok first i s1 s2 e' _ (I1 & I2 & I3) E]; [by eauto|..].
  - destruct (Hc _ _ (close_other _ _ _ Hm E) I1) as [-> ->]. done.
  - apply wait_client_hello_spec in E; [|by rewrite I2]. destruct (Hc _ _ E I1) as [-> ->]. done.
  - apply run_turn_spec in E. destruct (Hc _ _ E I1) as [-> ->]. done.
  - apply run_turn_spec in E as (s3 & Ht & _ & J1 & J2 & _). destruct (Hc _ _ Ht I1) as [F1 F2]. rewrite F2, I2 in J2. injection J2 as -> J2.
    rewrite J1. eauto.
Qed.
Lemma close_error_out text now e s s' : handleCloseError text now e s = Ok (s', ()) →
  let quicErr := match ce_err e with None => QuicError NoError (Errorf "" []) | Some e => ToQuicError e end in
  let frame := mkConnectionClose false (error_code quicErr) 0
    (if negb (isCryptoError (error_code quicErr)) then text (error_message quicErr) else []) in
  if ce_sendClose e && negb (ce_remote e) then
    ∃ w w' packed, w_PackConnectionClose w now frame = Ok (w', packed) ∧
      s_out s' = s_out s ++ match packed with
                            | inl p => [OutWrite (pp_raw p); OutReplaceWithClosed (srcConnID (s_ids s)) (Some (pp_raw p))]
                            | inr _ => [OutReplaceWithClosed (srcConnID (s_ids s)) (Some [])]
                            end
  else s_out s' = s_out s.
Proof.
  intros E quicErr frame. unfold handleCloseError in E. fold quicErr in E. apply bindM in E as (s1 & [] & E1 & E).
  unfold part_, part in E1. destruct (w_streams_CloseWithError _ _); try done. cbn [mbind outcome_bind] in E1. injection E1 as <-.
  destruct (ce_sendClose e); [|by injection E as <-]. destruct (ce_remote e); [by injection E as <-|]. cbn [negb andb] in *.
  apply bindM in E as (s1 & raw & E1 & [= <-]). unfold sendConnectionClose in E1. fold frame in E1. apply bindM in E1 as (s2 & p & E2 & E3).
  unfold part in E2. destruct (w_PackConnectionClose _ now frame) as [[w' r]| |] eqn:Ep; try done. cbn [mbind outcome_bind] in E2. injection E2 as <- <-.
  eexists _, w', r. split; [exact Ep|]. destruct r as [p|e'].
  - apply bindM in E3 as (s3 & [] & [= <-] & [= <- <-]). simpl. by rewrite <- app_assoc.
  - injection E3 as <- <-. done.
Qed.

(** C5: A session is closed once, whichever goroutines close it and in whatever
    order: while it is open the channel for the error is empty, so that sending the
    error does not block; once it is closed exactly one error waits, and that is the
    only error with which the run loop can be left, and with which the next turn
    leaves it when it sees the channel. *)
Theorem session_closes_once s0 s r :
  closeOnce (s_chans s0) = false → closeChan (s_chans s0) = [] → session_run s0 s r →
  (closeOnce (s_chans s) = false → closeChan (s_chans s) = [] ∧ r = None) ∧
  (closeOnce (s_chans s) = true → r = None → ∃ e, closeChan (s_chans s) = [e] ∧
     (∀ s' r', session_run s s' r' → r' = None ∨ r' = Some e) ∧
     (∀ probes now tok i, ∃ s', run_turn probes now tok (Some InClose) i s = Ok (s', inl e))).
Proof.
  intros E1 E2 Hr. destruct (close_state_run _ _ _ E1 E2 Hr) as [_ Hs]. split.
  - intros E. rewrite E in Hs. destruct r; [done|]. by destruct Hs.
  - intros E ->. rewrite E in Hs. destruct Hs as (e & Hc & _). exists e. split; [done|]. split.
    + intros s' r' Hr'. by apply (waiting_error s e s' r').
    + intros probes now tok i. by eapply turn_closes.
Qed.

(** C7: A session leaves the packet handlers exactly once.  When it was closed by the
    peer it is replaced by a session that ignores packets, when it was destroyed it is
    removed, and nothing is written; when it closed itself, one CONNECTION_CLOSE with
    the error's code is written, and the session is replaced by one that repeats this
    packet.  If the packet cannot be made, nothing is written and the session is
    replaced by one without a packet to repeat. *)
Theorem session_leaves_once text now s0 s e s' :
  closeOnce (s_chans s0) = false → closeChan (s_chans s0) = [] → session_run s0 s (Some e) → handleCloseError text now e s = Ok (s', ()) →
  let id := srcConnID (s_ids s0) in
  if ce_sendClose e then
    ∃ w w' packed reason, w_PackConnectionClose w now (mkConnectionClose false
        (match ce_err e with None => NoError | Some e => error_code e end) 0 reason) = Ok (w', packed) ∧
      closing (s_out s') = closing (s_out s0) ++ match packed with
        | inl p => [OutWrite (pp_raw p); OutReplaceWithClosed id (Some (pp_raw p))]
        | inr _ => [OutReplaceWithClosed id (Some [])]
        end
  else closing (s_out s') = closing (s_out s0) ++ [if ce_remote e then OutReplaceWithClosed id None else OutRemove id].
Proof.
  intros E1 E2 Hr E id. destruct (close_state_run _ _ _ E1 E2 Hr) as [Hid Hs]. apply close_error_out in E. cbv zeta in E.
  destruct (closeOnce (s_chans s)); [|done]. destruct Hs as (e' & _ & He & Ho & Hrm). rewrite <- (He e eq_refl) in Ho, Hrm. clear He.
  unfold closing_events in Ho. fold id in Ho, Hid. rewrite Hid in E.
  destruct (ce_sendClose e); cbn [andb] in E.
  - destruct (ce_remote e); [by specialize (Hrm eq_refl)|]. cbn [negb] in E.
    destruct E as (w & w' & packed & Ep & Es). exists w, w', packed. eexists. split.
    + rewrite <- Ep. f_equal. f_equal. by destruct (ce_err e) as [[]|].
    + rewrite Es, closing_app, Ho, app_nil_r. by destruct packed.
  - by rewrite E.
Qed.
End Run.

(** * A session with simple components *)

(** Components that unpack nothing and have a number of packets to send, after a
    number of probes that turn out to be empty. *)
Record test_parts := mkTest { tp_mode : SendMode; tp_probes : nat; tp_packets : nat }.
Definition test_packet : packedPacket :=
  mkPacked (mkExtendedHeader (mkHeader false 0x40 None 0 [] [] 0 [] [] [] 0) 0x40 false 2 1) [64; 0; 1; 1] None [FPing].
Definition test_pack (w : test_parts) : test_parts * (option packedPacket + goerr) :=
  match tp_packets w with
  | O => (w, inl None)
  | Datatypes.S n => (mkTest (tp_mode w) (tp_probes w) n, inl (Some test_packet))
  end.
#[export] Instance test_session_parts : SessionParts test_parts := {|
  w_Unpack w _ _ _ := Ok (w, inr ErrKeysDropped);
  w_PackPacket w _ := Ok (test_pack w);
  w_MaybePackAckPacket w _ := Ok (w, inl None);
  w_PackConnectionClose w _ _ := Ok (w, inl test_packet);
  w_ChangeDestConnectionID w _ := w;
  w_SetToken w _ := w;
  w_packer_HandleTransportParameters w _ := w;
  w_SentPacket w _ := Ok w;
  w_ReceivedAck w _ _ _ _ := Ok (w, None);
  w_GetLowestPacketNotConfirmedAcked w := 0;
  w_ResetForRetry w := Ok (w, None);
  w_SendMode w := tp_mode w;
  w_ShouldSendNumPackets w := Ok 2;
  w_TimeUntilSend w := Ok 0;
  w_QueueProbePacket w := Ok match tp_probes w with
                             | O => (w, false)
                             | Datatypes.S n => (mkTest (tp_mode w) n (tp_packets w), true)
                             end;
  w_GetLossDetectionTimeout w := 0;
  w_OnLossDetectionTimeout w _ := Ok (w, None);
  w_sent_DropPackets w _ := Ok w;
  w_ReceivedPacket w _ _ _ _ := Ok w;
  w_IgnoreBelow w _ := w;
  w_GetAlarmTimeout w := 0;
  w_received_DropPackets w _ := Ok w;
  w_HandleCryptoFrame w _ _ := Ok (w, [], false, None);
  w_ChangeConnectionID w _ := Ok w;
  w_SetLargest1RTTAcked w _ := Ok (w, []);
  w_GetOrOpenReceiveStream w _ := Ok (w, [], inl None);
  w_GetOrOpenSendStream w _ := Ok (w, [], inl None);
  w_handleStreamFrame w _ _ := Ok (w, [], None);
  w_handleResetStreamFrame w _ _ := Ok (w, [], None);
  w_handleMaxStreamDataFrame w _ _ := Ok (w, []);
  w_handleStopSendingFrame w _ _ := Ok (w, []);
  w_HandleMaxStreamsFrame w _ := Ok (w, None);
  w_UpdateLimits w _ := Ok (w, None);
  w_DeleteStream w _ := Ok (w, [], None);
  w_streams_CloseWithError w _ := Ok w;
  w_UpdateSendWindow w _ := w;
  w_IsNewlyBlocked w := (w, None);
  w_QueueControlFrame w _ := w;
  w_AddActiveStream w _ := w;
  w_AddStream w _ := w;
  w_AddConnection w := w;
  w_QueueAll w := Ok w;
  w_SetMaxAckDelay w _ := w |}.
Definition test_session (pers : Perspective) (m : SendMode) (probes packets : nat) : @session test_parts :=
  mkSession pers (mkConfig false 30000000000 10000000000 false) (mkIds [1; 2; 3; 4] [] [5; 6; 7; 8])
    (mkFlags false ChanOpen false false false false) (mkTimes 1000 1000 0 0) None (mkChans [] false false [] []) (NewFrameParser VersionTLS)
    ∅ (mkTest m probes packets) [].
(** A session that is closed with an error and then destroyed. *)
Definition closed_twice : @session test_parts :=
  set_chans (test_session PerspectiveServer SendAny 0 0)
    (mkChans [] false true [mkCloseError (Some (QuicError 7 (Errorf "first" []))) false true] []).
Lemma run_closed_twice : session_run (test_session PerspectiveServer SendAny 0 0) closed_twice None.
Proof.
  apply (run_other _ (destroyImpl None) closed_twice); [|constructor|reflexivity].
  apply (run_other _ (closeLocal (Some (QuicError 7 (Errorf "first" [])))) (test_session PerspectiveServer SendAny 0 0)); [apply run_start|constructor|reflexivity].
Qed.
Lemma session_closes_once_witness : ∃ s', run_turn 0 1001 (inl []) (Some InClose) InTimer closed_twice
  = Ok (s', inl (mkCloseError (Some (QuicError 7 (Errorf "first" []))) false true)).
Proof.
  destruct (session_closes_once (test_session PerspectiveServer SendAny 0 0) closed_twice None eq_refl eq_refl run_closed_twice) as [_ Hc].
  destruct (Hc eq_refl eq_refl) as (e & He & _ & Ht). injection He as <-. apply Ht.
Defined.
Definition stopped : @session test_parts := set_chans closed_twice (mkChans [] false true [] []).
Lemma session_leaves_once_witness : closing (s_out (emit (emit stopped (OutWrite [64; 0; 1; 1])) (OutReplaceWithClosed [5; 6; 7; 8] (Some [64; 0; 1; 1]))))
  = [OutWrite [64; 0; 1; 1]; OutReplaceWithClosed [5; 6; 7; 8] (Some [64; 0; 1; 1])].
Proof.
  destruct (session_leaves_once (λ _, []) 1001 (test_session PerspectiveServer SendAny 0 0) stopped
    (mkCloseError (Some (QuicError 7 (Errorf "first" []))) false true)
    (emit (emit stopped (OutWrite [64; 0; 1; 1])) (OutReplaceWithClosed [5; 6; 7; 8] (Some [64; 0; 1; 1])))) as (w & w' & packed & reason & Ep & Es).
  - reflexivity.
  - reflexivity.
  - apply (run_stop _ 0 1001 (inl []) (Some InClose) InTimer closed_twice); [exact run_closed_twice|reflexivity].
  - reflexivity.
  - injection Ep as _ <-. exact Es.
Defined.
