(* ===== verification/SessionSend.v ===== *)
(** SessionSend: what a session sends in a turn.  Its sending loops end, after a
    bounded number of packets: the modelled sent packet handler is what the session
    sends with, the packer is any that returns. *)

From S2P Require Import Prelude Utils Protocol AckFrame Frames FrameCodec StreamFrame FrameParser GoFloat Rtt Congestion SentPackets SentPacketsSpec SentPacketsRun TransportParams Header PacketPacker Protection PacketUnpacker Session SessionSpec SessionRun.

(** [m] returns from [s], and then [P] holds. *)
Definition returns {W A} (m : @M W A) (s : session) (P : session → A → Prop) : Prop := ∃ s' a, m s = Ok (s', a) ∧ P s' a.
Section Returns.
Context {W : Type} `{SessionParts W}.
Implicit Types s : @session W.
Lemma returns_ret {A} (a : A) s (P : session → A → Prop) : P s a → returns (mret (M := @M W) a) s P.
Proof. intros. by exists s, a. Qed.
Lemma returns_bind {A B} (m : @M W A) (f : A → @M W B) s P : returns m s (λ s' a, returns (f a) s' P) → returns (m ≫= f) s P.
Proof. intros (s1 & a & E & s2 & b & E' & HP). exists s2, b. split; [|done]. apply bindM. eauto. Qed.
Lemma returns_gets {A} (f : session → A) s (P : session → A → Prop) : P s (f s) → returns (gets f) s P.
Proof. intros. by exists s, (f s). Qed.
Lemma returns_modify f s (P : session → () → Prop) : P (f s) () → returns (modify f) s P.
Proof. intros. by exists (f s), (). Qed.
Lemma returns_part {A} (f : W → outcome (W * A)) s (P : session → A → Prop) w a :
  f (s_parts s) = Ok (w, a) → P (set_parts s w) a → returns (part f) s P.
Proof. intros E HP. exists (set_parts s w), a. split; [|done]. unfold part. by rewrite E. Qed.
Lemma returns_part_ (f : W → outcome W) s (P : session → () → Prop) w :
  f (s_parts s) = Ok w → P (set_parts s w) () → returns (part_ f) s P.
Proof. intros E. apply returns_part. by rewrite E. Qed.
Lemma returns_mono {A} (m : @M W A) s (P Q : session → A → Prop) : returns m s P → (∀ s' a, P s' a → Q s' a) → returns m s Q.
Proof. intros (s' & a & E & HP) HQ. exists s', a. auto. Qed.
End Returns.

(** A packet as it is handed to the sent packet handler: every frame knows where it
    goes when it is lost, STREAM frames are told when they arrived. *)
Definition lost_callback (t : on_lost) : option nat :=
  match t with LostToStream => Some 0 | LostToInitial => Some 1 | LostToHandshake => Some 2 | LostToAppData => Some 3 | LostNowhere => None end%nat.
Definition acked_callback (t : on_lost) : option nat := match t with LostToStream => Some 0%nat | _ => None end.
Definition handed_packet (p : ah_packet) : SentPackets.Packet :=
  mkPacket (ah_PacketNumber p) ((λ f, mkAhFrame f.1 (lost_callback f.2) (acked_callback f.2)) <$> ah_Frames p)
    (ah_LargestAcked p) (ah_Length p) (ah_EncryptionLevel p) (ah_SendTime p) false.

(** What the session relies on when it sends.  One of its components is the sent
    packet handler: modes, numbers, probes and sent packets are its own, and the
    others leave the packets it tracks alone.  Packing returns, with packets that the
    handler accepts. *)
Class SendingPartsOk (W : Type) `{SessionParts W} := {
  sp_ok : W → Prop;
  sp_handler : W → sentPacketHandler;
  sp_inv w : sp_ok w → handler_ok (sp_handler w);
  sp_mode w : w_SendMode w = SendMode_of (sp_handler w);
  sp_num w : w_ShouldSendNumPackets w = ShouldSendNumPackets (sp_handler w);
  sp_until w : w_TimeUntilSend w = Ok (nextSendTime (sp_handler w));
  sp_probe w : sp_ok w → ∃ w' b calls, w_QueueProbePacket w = Ok (w', b) ∧ sp_ok w' ∧
    QueueProbePacket (sp_handler w) = Ok (sp_handler w', calls, b);
  sp_blocked w : sp_ok w → sp_ok (w_IsNewlyBlocked w).1 ∧ sp_handler (w_IsNewlyBlocked w).1 = sp_handler w;
  sp_control w f : sp_ok w → sp_ok (w_QueueControlFrame w f) ∧ sp_handler (w_QueueControlFrame w f) = sp_handler w;
  sp_queue w : sp_ok w → ∃ w', w_QueueAll w = Ok w' ∧ sp_ok w' ∧ sp_handler w' = sp_handler w;
  sp_pack w now : sp_ok w → 0 < now → ∃ w' r, w_PackPacket w now = Ok (w', r) ∧ sp_ok w' ∧ tracked (sp_handler w') = tracked (sp_handler w) ∧
    ∀ p, r = inl (Some p) → ∃ ap w2, ToAckHandlerPacket p now = Ok ap ∧ send_ok (sp_handler w') (handed_packet ap) ∧
      w_SentPacket w' ap = Ok w2 ∧ sp_ok w2 ∧ SentPackets.SentPacket (sp_handler w') (handed_packet ap) = Ok (sp_handler w2);
  sp_ack w now : sp_ok w → ∃ w' r, w_MaybePackAckPacket w now = Ok (w', r) ∧
    ∀ p, r = inl (Some p) → ∃ ap w2, ToAckHandlerPacket p now = Ok ap ∧ w_SentPacket w' ap = Ok w2 }.

Section Probes.
Context {W : Type} `{SendingPartsOk W}.
(** The packets that can still be sent as probes: the tracked ones. *)
Definition sp_probes (w : W) : nat := length (tracked (sp_handler w)).
(** Queueing a probe takes its packet off the tracked ones. *)
Lemma probes_probe w : sp_ok w → ∃ w' b, w_QueueProbePacket w = Ok (w', b) ∧ sp_ok w' ∧
  if b : bool then (sp_probes w' < sp_probes w)%nat else (sp_probes w' ≤ sp_probes w)%nat.
Proof.
  intros O. destruct (sp_probe w O) as (w' & b & calls & E & O' & E'). exists w', b. split; [done|]. split; [done|].
  destruct (probe_leaves _ (sp_inv w O)) as (h' & c & b' & E2 & _ & lost & [Hl _] & Hb & _). rewrite E' in E2. injection E2 as <- <- <-.
  apply Permutation_length in Hl. rewrite !length_app in Hl. cbn [length] in Hl. unfold sp_probes.
  destruct b; [|lia]. destruct lost; [by destruct (proj1 Hb eq_refl)|]. cbn in Hl. lia.
Qed.
(** Sending a packet adds one at most. *)
Lemma probes_sent (w w2 : W) p : sp_ok w → send_ok (sp_handler w) p → SentPackets.SentPacket (sp_handler w) p = Ok (sp_handler w2) →
  (sp_probes w2 ≤ S (sp_probes w))%nat.
Proof.
  intros O Hp E. destruct (sent_spec _ p (sp_inv w O) Hp) as (h' & E' & _ & Ht). rewrite E in E'. injection E' as <-. unfold sp_probes.
  case_decide; [rewrite Ht; lia|]. apply Permutation_length in Ht. rewrite Ht. cbn. lia.
Qed.
Lemma probes_pack w now : sp_ok w → 0 < now → ∃ w' r, w_PackPacket w now = Ok (w', r) ∧ sp_ok w' ∧ (sp_probes w' ≤ sp_probes w)%nat ∧
  ∀ p, r = inl (Some p) → ∃ ap w2, ToAckHandlerPacket p now = Ok ap ∧ w_SentPacket w' ap = Ok w2 ∧ sp_ok w2 ∧ (sp_probes w2 ≤ S (sp_probes w'))%nat.
Proof.
  intros O Hn. destruct (sp_pack w now O Hn) as (w' & r & E & O' & Ht & Hsent). exists w', r. split; [done|]. split; [done|].
  split; [unfold sp_probes; by rewrite Ht|]. intros p Hp. destruct (Hsent p Hp) as (ap & w2 & Ea & Hok & E2 & O2 & E3).
  exists ap, w2. split_and!; try done. by eapply probes_sent.
Qed.
Lemma probes_queue w : sp_ok w → ∃ w', w_QueueAll w = Ok w' ∧ sp_ok w' ∧ (sp_probes w' ≤ sp_probes w)%nat.
Proof. intros O. destruct (sp_queue w O) as (w' & E & O' & Eh). exists w'. unfold sp_probes. by rewrite Eh. Qed.
Lemma probes_blocked w : sp_ok w → sp_ok (w_IsNewlyBlocked w).1 ∧ (sp_probes (w_IsNewlyBlocked w).1 ≤ sp_probes w)%nat.
Proof. intros O. destruct (sp_blocked w O) as [O' Eh]. unfold sp_probes. by rewrite Eh. Qed.
Lemma probes_control w f : sp_ok w → sp_ok (w_QueueControlFrame w f) ∧ (sp_probes (w_QueueControlFrame w f) ≤ sp_probes w)%nat.
Proof. intros O. destruct (sp_control w f O) as [O' Eh]. unfold sp_probes. by rewrite Eh. Qed.
(** The handler always says how many packets to send. *)
Lemma should_send h : handler_ok h → ∃ n, ShouldSendNumPackets h = Ok n.
Proof.
  intros Hok. unfold ShouldSendNumPackets. destruct (_ <? _); [eauto|].
  destruct (reno_pacing (congestion h) (rttStats h) (bytesInFlight h) (hk_cong _ Hok)) as [d ->]. cbn [mbind outcome_bind].
  repeat case_match; eauto.
Qed.
End Probes.

Section Send.
Context {W : Type} `{SendingPartsOk W} (now : Z) (Hnow : 0 < now).
Implicit Types s : @session W.

(** The session sent [n] packets at most, and its channels did not change. *)
Definition sends (n : nat) (s s' : @session W) : Prop :=
  s_chans s' = s_chans s ∧ s_flags s' = s_flags s ∧ s_ids s' = s_ids s ∧
  ∃ l, s_out s' = s_out s ++ (OutSend <$> l) ∧ (length l ≤ n)%nat.
(** ... and the components are fine. *)
Definition sends_ok (n : nat) (s s' : @session W) : Prop :=
  sends n s s' ∧ sp_ok (s_parts s') ∧ (sp_probes (s_parts s') ≤ n + sp_probes (s_parts s))%nat.
Lemma sends_parts s w : sends 0 s (set_parts s w).
Proof. split_and!; try done. exists []. by rewrite app_nil_r. Qed.
Lemma sends_pacing s s' n t : sends n s s' → sends n s (set_times s' t).
Proof. done. Qed.
Lemma sends_trans n m s1 s2 s3 : sends n s1 s2 → sends m s2 s3 → sends (n + m) s1 s3.
Proof.
  intros (E1 & E2 & E3 & l & E4 & Hl) (F1 & F2 & F3 & l' & F4 & Hl'). split_and!; try congruence.
  exists (l ++ l'). rewrite F4, E4, fmap_app, app_assoc. split; [done|]. rewrite length_app. lia.
Qed.
Lemma sends_mono n m s s' : (n ≤ m)%nat → sends n s s' → sends m s s'.
Proof. intros Hle (E1 & E2 & E3 & l & E4 & Hl). split_and!; try done. exists l. split; [done|lia]. Qed.
Lemma sends_ok_trans n m s1 s2 s3 : sends_ok n s1 s2 → sends_ok m s2 s3 → sends_ok (n + m) s1 s3.
Proof. intros (E1 & _ & L1) (E2 & O2 & L2). split; [by eapply sends_trans|]. split; [done|lia]. Qed.
Lemma sends_ok_parts s s' w : sends_ok 0 s s' → sp_ok w → (sp_probes w ≤ sp_probes (s_parts s'))%nat → sends_ok 0 s (set_parts s' w).
Proof. intros (E1 & _ & L1) O2 L2. split; [by apply (sends_trans 0 0 _ s'), sends_parts|]. split; [done|simpl in *; lia]. Qed.
Lemma sends_ok_refl s : sp_ok (s_parts s) → sends_ok 0 s s.
Proof. intros O. split; [|done]. split_and!; try done. exists []. by rewrite app_nil_r. Qed.
Lemma sends_ok_mono n m s s' : (n ≤ m)%nat → sends_ok n s s' → sends_ok m s s'.
Proof. intros Hle (E1 & O1 & L1). split; [by eapply sends_mono|]. split; [done|lia]. Qed.
Lemma sends_packet s p : sends 1 s (match sendPackedPacket p now s with Ok (s', _) => s' | _ => s end).
Proof. simpl. case_match; split_and!; try done; by exists [p]. Qed.

(** One packet is sent, or none. *)
Definition sent_count (r : bool * option goerr) : nat := if r.1 then 1 else 0.
Lemma sent_count_le r : (sent_count r ≤ 1)%nat.
Proof. unfold sent_count. case_match; lia. Qed.
Lemma sendPacket_spec s : sp_ok (s_parts s) → returns (sendPacket now) s (λ s' r, sends_ok (sent_count r) s s' ∧ (r.2 = None ∨ r.1 = false)).
Proof.
  intros O. unfold sendPacket. apply returns_bind. destruct (probes_blocked (s_parts s) O) as [O1 L1].
  destruct (w_IsNewlyBlocked (s_parts s)) as [w1 b] eqn:E1. simpl in O1, L1.
  eapply (returns_part _ _ _ w1 b); [by rewrite E1|]. set (s1 := set_parts s w1).
  assert (sends_ok 0 s s1) as H1 by (apply sends_ok_parts; [by apply sends_ok_refl|done|done]). clearbody s1. clear O1 L1 E1 w1.
  apply returns_bind. eapply (returns_mono _ _ (λ s2 _, sends_ok 0 s s2)).
  { destruct b as [o|]; [|by apply returns_ret]. apply returns_modify.
    destruct (probes_control (s_parts s1) (FDataBlocked (mkDataBlocked o)) (proj1 (proj2 H1))). by apply sends_ok_parts. }
  intros s2 _ H2. clear s1 H1. apply returns_bind. destruct (probes_queue _ (proj1 (proj2 H2))) as (w3 & E3 & O3 & L3).
  eapply returns_part_; [exact E3|]. set (s3 := set_parts s2 w3). assert (sends_ok 0 s s3) as H3 by (by apply sends_ok_parts).
  clearbody s3. clear H2 E3 O3 L3. apply returns_bind. destruct (probes_pack _ now (proj1 (proj2 H3)) Hnow) as (w4 & r & E4 & O4 & L4 & Hsent).
  eapply returns_part; [exact E4|]. set (s4 := set_parts s3 w4). assert (sends_ok 0 s s4) as H4 by (by apply sends_ok_parts).
  destruct r as [[p|]|e]; [|apply returns_ret; by auto..]. destruct (Hsent p eq_refl) as (ap & w5 & Ea & E5 & O5 & L5).
  apply returns_bind. eapply (returns_part_ _ _ _ w5). { rewrite Ea. exact E5. }
  apply returns_bind. eapply returns_modify. apply returns_ret. unfold sent_count. simpl.
  split; [|by left]. split; [|split].
  - apply (sends_trans 0 1 _ (set_parts s4 w5)); [|apply (sends_packet (set_parts s4 w5) p)].
    apply (sends_trans 0 0 _ s4); [apply H4|apply sends_parts].
  - by case_match.
  - assert (sp_probes w5 ≤ S (sp_probes (s_parts s)))%nat; [|by case_match]. destruct H4 as (_ & _ & L). simpl in *. lia.
Qed.

(** Probes are queued until one of them makes a packet, or none is left. *)
Lemma queue_probes_spec fuel s : sp_ok (s_parts s) → (sp_probes (s_parts s) < fuel)%nat →
  returns (queue_probes fuel now) s (λ s' r, ∃ p, r = Some p ∧ sends_ok (sent_count p) s s').
Proof.
  revert s. induction fuel as [|fuel IH]; intros s O Hf; [lia|]. cbn [queue_probes]. apply returns_bind.
  destruct (probes_probe _ O) as (w1 & b & E1 & O1 & L1). eapply returns_part; [exact E1|].
  assert (sends_ok 0 s (set_parts s w1)) as S1.
  { apply sends_ok_parts; [by apply sends_ok_refl|done|]. destruct b; lia. }
  destruct b; cbn [negb]; [|apply returns_ret; by exists (false, None)].
  apply returns_bind. eapply returns_mono; [by apply sendPacket_spec|]. intros s2 [sent err] [S2 Herr]. cbn [fst snd] in Herr.
  pose proof (sends_ok_trans _ _ _ _ _ S1 S2) as S3. cbn [Nat.add] in S3.
  destruct err as [e|]; [destruct Herr as [Herr| ->]; [done|]; apply returns_ret; by exists (false, Some e)|].
  destruct sent; [apply returns_ret; by exists (true, None)|].
  eapply returns_mono.
  - apply IH; [apply S2|]. destruct S2 as (_ & _ & L2). simpl in L2. lia.
  - intros s' r (p & -> & S4). exists p. split; [done|]. by apply (sends_ok_trans 0 _ _ s2).
Qed.
Lemma sendProbePacket_spec fuel s : sp_ok (s_parts s) → (sp_probes (s_parts s) < fuel)%nat →
  returns (sendProbePacket fuel now) s (λ s' r, ∃ e, r = Some e ∧ sends_ok 1 s s').
Proof.
  intros O Hf. unfold sendProbePacket. apply returns_bind. eapply returns_mono; [by apply queue_probes_spec|].
  intros s1 r ([sent err] & -> & S1). assert (sends_ok 1 s s1) as S1' by (eapply sends_ok_mono; [apply sent_count_le|exact S1]).
  destruct err as [e|]; [destruct sent; apply returns_ret; by exists (Some e)|]. destruct sent; [apply returns_ret; by exists None|].
  apply returns_bind, returns_modify, returns_bind. destruct (probes_control (s_parts s1) FPing (proj1 (proj2 S1))) as [O2 L2].
  eapply returns_mono; [apply sendPacket_spec, O2|]. intros s2 [sent err] [S2 _]. apply returns_ret. exists err. split; [done|].
  apply (sends_ok_mono (0 + sent_count (sent, err))); [apply sent_count_le|]. eapply sends_ok_trans; [|exact S2].
  by apply sends_ok_parts.
Qed.
Lemma maybeSendAck_spec s : sp_ok (s_parts s) → returns (maybeSendAckOnlyPacket now) s (λ s' _, sends 1 s s').
Proof.
  intros O. unfold maybeSendAckOnlyPacket. apply returns_bind. destruct (sp_ack _ now O) as (w1 & r & E1 & Hsent).
  eapply returns_part; [exact E1|]. assert (sends 1 s (set_parts s w1)) as S1 by (apply (sends_mono 0), sends_parts; lia).
  destruct r as [[p|]|e]; [|by apply returns_ret..]. destruct (Hsent p eq_refl) as (ap & w2 & Ea & E2).
  apply returns_bind. eapply (returns_part_ _ _ _ w2). { rewrite Ea. exact E2. }
  apply returns_bind, returns_modify, returns_ret. split_and!; try done. by exists [p].
Qed.
(** The loop has [k] packets left to send, and sends at least one. *)
Lemma send_loop_spec fuel probes m n k s :
  sp_ok (s_parts s) → (Z.to_nat (n - k) < fuel)%nat → (max 1 (Z.to_nat (n - k)) + sp_probes (s_parts s) ≤ probes)%nat → 0 <= k →
  returns (send_loop fuel probes now m n k) s (λ s' r,
    sends (max 1 (Z.to_nat (n - k))) s s' ∧ ((∃ e, r = Some (inl e)) ∨ (∃ k', r = Some (inr k') ∧ sp_ok (s_parts s')))).
Proof.
  revert m k s. induction fuel as [|fuel IH]; intros m k s O Hf Hp Hk; [lia|]. cbn [send_loop]. cbv zeta.
  assert (∀ s1, sends_ok 1 s s1 → returns (if n <=? k + 1 then mret (Some (inr (k + 1))) else
      m' ← gets (λ s, w_SendMode (s_parts s)); send_loop fuel probes now m' n (k + 1)) s1 (λ s' r,
      sends (max 1 (Z.to_nat (n - k))) s s' ∧ ((∃ e, r = Some (inl e)) ∨ (∃ k', r = Some (inr k') ∧ sp_ok (s_parts s'))))) as Hcont.
  { intros s1 (S1 & O1 & L1). destruct (Z.leb_spec n (k + 1)) as [Hle|Hlt].
    - apply returns_ret. split; [eapply sends_mono; [|exact S1]; lia|]. eauto.
    - apply returns_bind, returns_gets. eapply returns_mono; [apply IH; [done|lia..]|]. intros s2 r [S2 Hr]. split; [|done].
      eapply sends_mono; [|by eapply sends_trans]. lia. }
  assert (sends (max 1 (Z.to_nat (n - k))) s s) as S0 by (eapply sends_mono; [|apply (sends_ok_refl s O)]; lia).
  destruct m.
  - apply returns_ret. eauto.
  - destruct (0 <? k); [apply returns_ret; eauto|]. apply returns_bind. eapply returns_mono; [by apply maybeSendAck_spec|].
    intros s1 e S1. apply returns_ret. split; [eapply sends_mono; [|exact S1]; lia|eauto].
  - apply returns_bind. eapply returns_mono; [apply sendProbePacket_spec; [done|lia]|]. intros s1 r (e & -> & S1).
    destruct e as [e|]; [|by apply Hcont]. apply returns_ret. split; [eapply sends_mono; [|apply S1]; lia|eauto].
  - apply returns_bind. eapply returns_mono; [by apply sendPacket_spec|]. intros s1 [sent err] [S1 _].
    assert (sends_ok 1 s s1) as S1' by (eapply sends_ok_mono; [apply sent_count_le|exact S1]).
    assert (sends (max 1 (Z.to_nat (n - k))) s s1) as S2 by (eapply sends_mono; [|apply S1']; lia).
    destruct err as [e|]; [apply returns_ret; eauto|]. destruct sent; [by apply Hcont|]. apply returns_ret. split; [done|]. right. exists k. split; [done|apply S1].
Qed.

(** C10: Sending ends.  Whatever the send mode and the errors are, [sendPackets]
    returns: neither the loop over packets nor the loop that looks for a probe that is
    not empty runs for ever, since each probe is taken off the packets that the sent
    packet handler tracks; as many turns as it tracks packets, and as it may send, are
    enough.  It sends at most as many packets as the handler says, but one in any
    case, all through the send queue, and none in the mode SendNone; it changes neither
    the channels nor the handshake state nor the connection IDs. *)
Theorem send_packets_end fuel s n :
  sp_ok (s_parts s) → ShouldSendNumPackets (sp_handler (s_parts s)) = Ok n →
  (max 1 (Z.to_nat n) + length (tracked (sp_handler (s_parts s))) ≤ fuel)%nat →
  ∃ s' e l, sendPackets fuel now s = Ok (s', Some e) ∧
    s_out s' = s_out s ++ (OutSend <$> l) ∧ len l <= Z.max 1 n ∧ (SendMode_of (sp_handler (s_parts s)) = SendNone → l = []) ∧
    s_chans s' = s_chans s ∧ s_flags s' = s_flags s ∧ s_ids s' = s_ids s.
Proof.
  intros O En Hf. rewrite <- sp_num in En. rewrite <- sp_mode.
  cut (returns (sendPackets fuel now) s (λ s' r, ∃ e, r = Some e ∧ sends (if bool_decide (w_SendMode (s_parts s) = SendNone) then 0 else max 1 (Z.to_nat n)) s s')).
  { intros (s' & r & E & e & -> & E1 & E2 & E3 & l & E4 & Hl). exists s', e, l. split_and!; try done.
    - unfold len. case_bool_decide; lia.
    - intros Em. rewrite bool_decide_true in Hl by done. by destruct l; [|simpl in Hl; lia]. }
  unfold sendPackets. apply returns_bind, returns_modify, returns_bind, returns_gets. cbn [s_parts set_times].
  set (s1 := set_times s _). assert (sends 0 s s1) as S1 by apply (sends_ok_refl s O).
  case_bool_decide as Em; [apply returns_ret; by exists None|]. apply returns_bind.
  eapply (returns_part _ _ _ (s_parts s) n). { simpl. by rewrite En. }
  set (s2 := set_parts s1 _). assert (sends 0 s s2) as S2 by (apply (sends_trans 0 0 _ s1); [done|apply sends_parts]).
  apply returns_bind. eapply returns_mono; [apply send_loop_spec; rewrite ?Z.sub_0_r; try done; lia|]. rewrite Z.sub_0_r.
  intros s3 r [S3 Hr]. assert (sends (max 1 (Z.to_nat n)) s s3) as S4 by (by apply (sends_trans 0 _ _ s2)).
  destruct Hr as [(e & ->)|(k & -> & O3)]; [apply returns_ret; by exists e|]. apply returns_bind.
  destruct (k =? n); [|apply returns_ret, returns_ret; by exists None]. 
  apply returns_bind. eapply (returns_part _ _ _ (s_parts s3) _); [by rewrite sp_until|]. apply returns_modify, returns_ret. exists None. split; [done|].
  apply sends_pacing. apply (sends_mono (max 1 (Z.to_nat n) + 0)); [|apply (sends_trans (max 1 (Z.to_nat n)) 0 _ s3); [exact S4|apply sends_parts]]. lia.
Qed.
End Send.


(** * A session with the real handler *)

(** The sent packet handler and a packer with a number of packets to pack; what is
    lost is not sent again, so that probes turn out to be empty when no packet is
    left. *)
Record handler_parts := mkHandlerParts { hp_sent : sentPacketHandler; hp_packets : nat }.
Definition hp_set (w : handler_parts) (h : sentPacketHandler) : handler_parts := mkHandlerParts h (hp_packets w).
Definition ping_packet (pn : Z) : packedPacket :=
  mkPacked (mkExtendedHeader (mkHeader false 0x40 None 0 [] [] 0 [] [] [] 0) 0x40 false 2 pn) [64; 0; 1; 1] None [FPing].
Definition hp_pack (w : handler_parts) : outcome (handler_parts * (option packedPacket + goerr)) :=
  match hp_packets w with
  | O => Ok (w, inl None)
  | Datatypes.S n => '(h, pn) ← PopPacketNumber (hp_sent w) Encryption1RTT 100; Ok (mkHandlerParts h n, inl (Some (ping_packet pn)))
  end.
#[local] Instance handler_session_parts : SessionParts handler_parts := {|
  w_Unpack w _ _ _ := Ok (w, inr ErrKeysDropped);
  w_PackPacket w _ := hp_pack w;
  w_MaybePackAckPacket w _ := Ok (w, inl None);
  w_PackConnectionClose w _ _ := Ok (w, inl test_packet);
  w_ChangeDestConnectionID w _ := w;
  w_SetToken w _ := w;
  w_packer_HandleTransportParameters w _ := w;
  w_SentPacket w p := h ← SentPackets.SentPacket (hp_sent w) (handed_packet p); Ok (hp_set w h);
  w_ReceivedAck w f _ lvl t := '(h, _, e) ← SentPackets.ReceivedAck (hp_sent w) f lvl t; Ok (hp_set w h, e);
  w_GetLowestPacketNotConfirmedAcked w := lowestNotConfirmedAcked (hp_sent w);
  w_ResetForRetry w := '(h, _) ← SentPackets.ResetForRetry (hp_sent w) 100 100; Ok (hp_set w h, None);
  w_SendMode w := SendMode_of (hp_sent w);
  w_ShouldSendNumPackets w := ShouldSendNumPackets (hp_sent w);
  w_TimeUntilSend w := Ok (nextSendTime (hp_sent w));
  w_QueueProbePacket w := '(h, _, b) ← QueueProbePacket (hp_sent w); Ok (hp_set w h, b);
  w_GetLossDetectionTimeout w := alarm (hp_sent w);
  w_OnLossDetectionTimeout w t := '(h, _) ← SentPackets.OnLossDetectionTimeout (hp_sent w) t; Ok (hp_set w h, None);
  w_sent_DropPackets w lvl := h ← SentPackets.DropPackets (hp_sent w) lvl; Ok (hp_set w h);
  w_ReceivedPacket w _ _ _ _ := Ok w;
  w_IgnoreBelow w _ := w;
  w_GetAlarmTimeout w := 0;
  w_received_DropPackets w _ := Ok w;
  w_HandleCryptoFrame w _ _ := Ok (w, [], false, None);
  w_ChangeConnectionID w _ := Ok w;
  w_SetLargest1RTTAcked w _ := Ok (w, []);
  w_GetOrOpenReceiveStream w _ := Ok (w, [], inl None);
  w_GetOrOpenSendStream w _ := Ok (w, [], inl None);
  w_handleStreamFrame w _ _ := Ok (w, [], None);
  w_handleResetStreamFrame w _ _ := Ok (w, [], None);
  w_handleMaxStreamDataFrame w _ _ := Ok (w, []);
  w_handleStopSendingFrame w _ _ := Ok (w, []);
  w_HandleMaxStreamsFrame w _ := Ok (w, None);
  w_UpdateLimits w _ := Ok (w, None);
  w_DeleteStream w _ := Ok (w, [], None);
  w_streams_CloseWithError w _ := Ok w;
  w_UpdateSendWindow w _ := w;
  w_IsNewlyBlocked w := (w, None);
  w_QueueControlFrame w _ := w;
  w_AddActiveStream w _ := w;
  w_AddStream w _ := w;
  w_AddConnection w := w;
  w_QueueAll w := Ok w;
  w_SetMaxAckDelay w _ := w |}.

(** The packets that are left can be numbered and counted in bytes. *)
Definition hp_ok (w : handler_parts) : Prop :=
  handler_ok (hp_sent w) ∧ png_ok (Z.of_nat (hp_packets w)) (pns (oneRTTPackets (hp_sent w))) ∧
  largestSent (oneRTTPackets (hp_sent w)) < png_next (pns (oneRTTPackets (hp_sent w))) ∧
  total (tracked (hp_sent w)) + 4 * Z.of_nat (hp_packets w) < 2 ^ 64.
(** The numbering of the 1-RTT space. *)
Definition numbering (h : sentPacketHandler) := (pns (oneRTTPackets h), largestSent (oneRTTPackets h)).
Lemma numbering_timer h : numbering (setLossDetectionTimer h) = numbering h.
Proof. by rewrite timer_spec. Qed.
Lemma probe_numbering h h' calls b : QueueProbePacket h = Ok (h', calls, b) → numbering h' = numbering h.
Proof.
  unfold QueueProbePacket. destruct (match space_first (initialPackets h) with Some p => _ | None => _ end) as [p|]; [|by intros [= <- _ _]].
  destruct (queueFramesForRetransmission p) as [c| |]; try done. cbn [mbind outcome_bind]. cbv zeta.
  set (h1 := if includedInBytesInFlight p then _ else h). assert (E1 : numbering h1 = numbering h) by (unfold h1; by case_match). clearbody h1.
  destruct (getPacketNumberSpace h1 (pk_EncryptionLevel p)) as [sp| |] eqn:Es; try done. cbn [mbind outcome_bind].
  destruct (history_Remove _ _) as [hi [e|]]; [done|]. intros [= <- _ _]. rewrite <- E1.
  destruct (pk_EncryptionLevel p); try done. by injection Es as <-.
Qed.
Lemma sent_numbering h p h' : pk_EncryptionLevel p = Encryption1RTT → SentPackets.SentPacket h p = Ok h' →
  numbering h' = (pns (oneRTTPackets h), SentPackets.PacketNumber p).
Proof.
  intros El. unfold SentPackets.SentPacket, sentPacketImpl. rewrite El. cbn [getPacketNumberSpace mbind outcome_bind]. cbv zeta.
  set (h1 := set_space h Encryption1RTT _). assert (E1 : numbering h1 = (pns (oneRTTPackets h), SentPackets.PacketNumber p)) by done.
  clearbody h1. destruct (0 <? len (pk_Frames p)).
  - set (h2 := if 0 <? numProbesToSend _ then _ else _). assert (E2 : numbering h2 = numbering h1) by (unfold h2; by case_match). clearbody h2.
    destruct (Congestion.TimeUntilSend _ _ _) as [d| |]; try done. cbn [mbind outcome_bind].
    change (pk_EncryptionLevel (set_included p)) with (pk_EncryptionLevel p). rewrite El. cbn [getPacketNumberSpace mbind outcome_bind].
    intros [= <-]. rewrite numbering_timer, <- E1, <- E2. done.
  - destruct (Congestion.TimeUntilSend _ _ _) as [d| |]; try done. cbn [mbind outcome_bind]. intros [= <-]. by rewrite <- E1.
Qed.
Lemma pop_sent w n : hp_ok w → hp_packets w = S n → ∃ h pn, PopPacketNumber (hp_sent w) Encryption1RTT 100 = Ok (h, pn) ∧
  handler_ok h ∧ tracked h = tracked (hp_sent w) ∧ largestSent (oneRTTPackets h) = largestSent (oneRTTPackets (hp_sent w)) ∧
  png_ok (Z.of_nat n) (pns (oneRTTPackets h)) ∧ largestSent (oneRTTPackets h) < pn < png_next (pns (oneRTTPackets h)) ∧ 0 <= pn < 2 ^ 61.
Proof.
  intros (Hok & Hpng & Hl & _) En. rewrite En, Nat2Z.inj_succ, <- Z.add_1_r in Hpng.
  destruct (pop_step (Z.of_nat n) _ 100 Hpng ltac:(lia) ltac:(lia)) as (g & sk & Ep & Hg & _ & _ & Hnext & _).
  assert (E : PopPacketNumber (hp_sent w) Encryption1RTT 100 = Ok (set_space (hp_sent w) Encryption1RTT (SentPackets.set_pns (oneRTTPackets (hp_sent w)) g), png_next (pns (oneRTTPackets (hp_sent w))))).
  { unfold PopPacketNumber. cbn [getPacketNumberSpace mbind outcome_bind]. by rewrite Ep. }
  eexists _, _. split; [exact E|]. destruct (SentPacketsRun.pop_ok _ _ _ _ _ Hok E) as [Hok' Ht]. split; [exact Hok'|]. split; [exact Ht|].
  destruct Hpng. change (oneRTTPackets (set_space (hp_sent w) Encryption1RTT ?x)) with x. cbn [pns largestSent SentPackets.set_pns].
  split_and!; try done; lia.
Qed.
Lemma hp_pack_ok w now : hp_ok w → 0 < now → ∃ w' r, hp_pack w = Ok (w', r) ∧ hp_ok w' ∧ tracked (hp_sent w') = tracked (hp_sent w) ∧
  ∀ p, r = inl (Some p) → ∃ ap w2, ToAckHandlerPacket p now = Ok ap ∧ send_ok (hp_sent w') (handed_packet ap) ∧
    w_SentPacket w' ap = Ok w2 ∧ hp_ok w2 ∧ SentPackets.SentPacket (hp_sent w') (handed_packet ap) = Ok (hp_sent w2).
Proof.
  intros Hw Hn. unfold hp_pack. destruct (hp_packets w) as [|n] eqn:En.
  { exists w, (inl None). split; [done|]. split; [done|]. split; [done|]. intros p [=]. }
  destruct (pop_sent w n Hw En) as (h & pn & E & Hok & Ht & Els & Hg & Hpn & Hr). rewrite E. cbn [mbind outcome_bind].
  destruct Hw as (Hok0 & _ & _ & Hb). rewrite En in Hb. pose proof (hk_bytes _ Hok) as Hbytes.
  eexists _, _. split; [reflexivity|]. split; [|split; [exact Ht|]].
  { split; [exact Hok|]. split; [exact Hg|]. cbn [hp_sent hp_packets]. rewrite Ht. lia. }
  intros p [= <-]. cbn [hp_sent hp_packets].
  set (ap := mkAhPacket pn InvalidPacketNumber [(FPing, LostToAppData)] 4 Encryption1RTT now).
  assert (Hs : send_ok h (handed_packet ap)).
  { split; cbn; [by eexists; split; [reflexivity|lia]|repeat constructor; done|lia|rewrite Hbytes, Ht; lia|lia|lia]. }
  destruct (sent_spec h (handed_packet ap) Hok Hs) as (h2 & E2 & Hok2 & Ht2). exists ap, (mkHandlerParts h2 n).
  split; [done|]. split; [exact Hs|]. split; [cbn [w_SentPacket handler_session_parts hp_sent]; by rewrite E2|]. split; [|exact E2].
  pose proof (sent_numbering _ (handed_packet ap) _ eq_refl E2) as [= N1 N2]. cbn in N2.
  rewrite decide_False in Ht2 by done. apply total_perm in Ht2.
  change (total (_ :: tracked h)) with (4 + total (tracked h)) in Ht2. rewrite Ht in Ht2.
  split; [exact Hok2|]. cbn [hp_sent hp_packets]. rewrite N1, N2. split; [exact Hg|]. lia.
Qed.
Lemma tracked_length h p : handler_ok h → p ∈ tracked h → 0 <= pk_Length p.
Proof.
  intros Hok Hp. assert (∃ lvl sp, getPacketNumberSpace h lvl = Ok sp ∧ p ∈ history_packets (history sp)) as (lvl & sp & E & Hin).
  { unfold tracked in Hp. rewrite !elem_of_app in Hp. unfold space_packets in Hp. destruct Hp as [Hp|[Hp|Hp]].
    - destruct (initialPackets h) as [sp|] eqn:E; [|by apply elem_of_nil in Hp]. exists EncryptionInitial, sp. cbn. by rewrite E.
    - destruct (handshakePackets h) as [sp|] eqn:E; [|by apply elem_of_nil in Hp]. exists EncryptionHandshake, sp. cbn. by rewrite E.
    - by exists Encryption1RTT, (oneRTTPackets h). }
  pose proof (sk_ok _ _ (hk_space _ Hok _ _ E)) as Hall. rewrite Forall_forall in Hall. apply (po_len _ _ (Hall p Hin)).
Qed.
Lemma hp_probe_ok w : hp_ok w → ∃ w' b calls, w_QueueProbePacket w = Ok (w', b) ∧ hp_ok w' ∧ QueueProbePacket (hp_sent w) = Ok (hp_sent w', calls, b).
Proof.
  intros (Hok & Hg & Hl & Hb). destruct (probe_leaves _ Hok) as (h & calls & b & E & Hok' & lost & [Ht _] & _).
  exists (hp_set w h), b, calls. split; [cbn [w_QueueProbePacket handler_session_parts]; by rewrite E|]. split; [|exact E].
  pose proof (probe_numbering _ _ _ _ E) as [= N1 N2]. split; [exact Hok'|]. cbn [hp_sent hp_packets hp_set]. rewrite N1, N2. split; [exact Hg|]. split; [exact Hl|].
  pose proof Ht as Ht0. apply total_perm in Ht. rewrite !total_app in Ht. cbn [total foldr] in Ht. fold (total lost) in Ht.
  cut (0 <= total lost); [lia|]. assert (Hl0 : ∀ p, p ∈ lost → 0 <= pk_Length p).
  { intros p Hp. apply (tracked_length (hp_sent w)); [done|]. rewrite Ht0. set_solver. }
  clear -Hl0. induction lost as [|p l IH]; [done|]. change (0 <= pk_Length p + total l). pose proof (Hl0 p ltac:(by left)).
  cut (0 <= total l); [lia|]. apply IH. intros q Hq. apply Hl0. by right.
Qed.
#[local] Instance handler_parts_ok : SendingPartsOk handler_parts.
Proof.
  refine {| sp_ok := hp_ok; sp_handler := hp_sent; sp_pack := hp_pack_ok; sp_probe := hp_probe_ok |}; try done.
  - intros w Hw. apply Hw.
  - intros w Hw. by exists w.
  - intros w now Hw. exists w, (inl None). split; [done|]. by intros p [=].
Defined.

(** Three packets are in flight, and after a timeout two probes may be sent.  There
    is nothing to send: one probe after the other turns out to be empty, and a PING
    is queued, which the packer does not send either. *)
Definition hp_start : handler_parts := mkHandlerParts sample_new 3.
Definition hp_send (w : handler_parts) : handler_parts :=
  match hp_pack w with
  | Ok (w, inl (Some p)) => match ToAckHandlerPacket p 1000 with Ok ap => match w_SentPacket w ap with Ok w => w | _ => w end | _ => w end
  | _ => w
  end.
Lemma hp_send_ok w : hp_ok w → hp_ok (hp_send w).
Proof.
  intros Hw. unfold hp_send. destruct (hp_pack_ok w 1000 Hw ltac:(lia)) as (w' & r & E & Hw' & _ & Hs). rewrite E.
  destruct r as [[p|]|e]; [|done..]. destruct (Hs p eq_refl) as (ap & w2 & -> & _ & -> & Hw2 & _). exact Hw2.
Qed.
Definition hp_timeout (w : handler_parts) : handler_parts := hp_set w (set_pto (hp_sent w) 1 2).
Definition probing : handler_parts := hp_timeout (hp_send (hp_send (hp_send hp_start))).
Lemma probing_ok : hp_ok probing.
Proof.
  assert (Hs : hp_ok hp_start).
  { split; [apply new_handler_ok|]. split; [|split; vm_compute; reflexivity]. apply generateNewSkip_ok; vm_compute; try done; lia. }
  pose proof (hp_send_ok _ (hp_send_ok _ (hp_send_ok _ Hs))) as (H1 & H2 & H3 & H4). unfold probing. generalize dependent (hp_send (hp_send (hp_send hp_start))).
  intros w H1 H2 H3 H4. split; [|done]. apply (handler_ok_ext _ _ H1); [by intros []|done|done|apply H1].
Qed.
Definition probing_session : @session handler_parts :=
  mkSession PerspectiveServer (mkConfig false 30000000000 10000000000 false) (mkIds [1; 2; 3; 4] [] [5; 6; 7; 8])
    (mkFlags false ChanOpen false false false false) (mkTimes 1000 1000 0 0) None (mkChans [] false false [] []) (NewFrameParser VersionTLS)
    ∅ probing [].
Lemma send_packets_end_witness : ∃ s' e l, sendPackets 5 2000 probing_session = Ok (s', Some e) ∧ s_out s' = OutSend <$> l ∧ len l <= 2 ∧
  length (tracked (hp_sent probing)) = 3%nat ∧ tracked (hp_sent (s_parts s')) = [].
Proof.
  destruct (send_packets_end 2000 ltac:(lia) 5 probing_session 2) as (s' & e & l & E & Eo & Hl & _).
  - exact probing_ok.
  - vm_compute. reflexivity.
  - vm_compute. apply le_n.
  - exists s', e, l. split; [exact E|]. split; [exact Eo|]. split; [exact Hl|]. split; [vm_compute; reflexivity|].
    assert (X : match sendPackets 5 2000 probing_session with Ok (s', _) => tracked (hp_sent (s_parts s')) | _ => [sample_packet Encryption1RTT 0 0] end = [])
      by (vm_compute; reflexivity). by rewrite E in X.
Defined.
