(* ===== verification/SessionPackets.v ===== *)
(** SessionPackets: how a session treats the packets it receives.  Packets it cannot
    process change nothing, except that those without keys are kept for later; the
    buffers of packets that are kept do not go back to the pool. *)

From S2P Require Import Prelude Utils Protocol AckFrame Frames FrameCodec StreamFrame FrameParser GoFloat Rtt SentPackets TransportParams Header PacketPacker Protection PacketUnpacker Session SessionSpec SessionRun.

(** * Cutting datagrams *)

#[local] Hint Resolve safe_parseVersionNegotiationPacket safe_ReadUint32 : safe.
Lemma long_header_length scl data hd u r' : parseHeaderImpl scl data = Ok ((hd, u), r') → IsLongHeader hd = true → len r' + 6 <= len data.
Proof.
  intros E Hl. unfold parseHeaderImpl in E. apply parser_bind_Ok in E as (b & r1 & E1 & E). destruct data as [|b' data]; [done|].
  injection E1 as -> ->. destruct (negb _).
  { destruct (_ =? 0); [done|]. apply parser_bind_Ok in E as (h & r2 & E2 & E). injection E as <- _ _.
    apply parser_bind_Ok in E2 as (dest & r3 & _ & E2). by injection E2 as <- _. }
  unfold parseLongHeader in E. apply parser_bind_Ok in E as (v & r2 & E2 & E). apply ReadUint32_Ok in E2 as (x1 & x2 & x3 & x4 & ->).
  destruct (_ && _); [done|]. apply parser_bind_Ok in E as (dl & r3 & E3 & E). destruct r2 as [|dl' r2]; [done|]. injection E3 as -> ->.
  cut (len r' <= len r3); [rewrite !len_cons; lia|]. revert E.
  match goal with |- ?p r3 = _ → _ => assert (safe p) as Hs by solve_safe; specialize (Hs r3); destruct (p r3) as [[? ?]| |] end; [|done..].
  intros [= -> ->]. unfold len. lia.
Qed.
(** A packet and what follows it; a packet that something follows has six bytes or
    more. *)
Lemma parse_packet_cut data scl hdr packet rest : bytes_ok data → len data < 2 ^ 61 → 0 <= scl →
  ParsePacket data scl = Ok (hdr, packet, rest) →
  (packet ++ rest = data ∨ packet = [] ∧ rest = []) ∧ (rest = [] ∨ len rest + 6 <= len data).
Proof.
  intros Hb Hl Hscl. unfold ParsePacket, parseHeader. pose proof (yields_parseHeaderImpl scl Hscl data) as Hy.
  destruct (parseHeaderImpl scl data) as [[[hd u] r']| |] eqn:E; [|done..]. destruct (Hy (hd, u) r' Hb eq_refl) as [_ HL]. cbn in HL.
  destruct u; [intros [= _ <- <-]; auto|]. change (IsLongHeader (set_parsedLen hd _)) with (IsLongHeader hd).
  destruct (IsLongHeader hd) eqn:El; [|intros [= _ <- <-]; split; [left; apply app_nil_r|by left]].
  apply long_header_length in E; [|done]. cbn [parsedLen h_Length set_parsedLen]. pose proof (len_nonneg r'). unfold maxVarInt8 in HL.
  rewrite u64_small, i64_small by lia. destruct (_ <? _) eqn:El2; [done|]. apply Z.ltb_ge in El2.
  rewrite (proj2 (Z.ltb_ge _ 0)) by lia. cbn [orb]. intros [= _ <- <-]. split; [left; apply take_drop|]. right.
  unfold len in *. rewrite length_drop. lia.
Qed.

(** * Packets that are not processed *)

Section Quiet.
Context {W : Type} `{SessionParts W}.
Implicit Types s : @session W.
Definition unpack_failed (w w' : W) : Prop := ∃ hdr t data e, w_Unpack w hdr t data = Ok (w', inr e).
Definition piece {A} (l x : list A) : Prop := ∃ pre post, l = pre ++ x ++ post.
Lemma piece_refl {A} (l : list A) : piece l l.
Proof. exists [], []. by rewrite app_nil_r. Qed.
Lemma piece_nil {A} (l : list A) : piece l [].
Proof. by exists [], l. Qed.
Lemma piece_trans {A} (l x y : list A) : piece l x → piece x y → piece l y.
Proof. intros (a & b & ->) (c & d & ->). exists (a ++ c), (d ++ b). by rewrite <- !app_assoc. Qed.
Lemma piece_take {A} n (l : list A) : piece l (take n l).
Proof. exists [], (drop n l). by rewrite app_nil_l, take_drop. Qed.
Lemma piece_drop {A} n (l : list A) : piece l (drop n l).
Proof. exists (take n l), []. by rewrite app_nil_r, take_drop. Qed.
Lemma parse_packet_pieces data scl hdr packet rest :
  ParsePacket data scl = Ok (hdr, packet, rest) → piece data packet ∧ piece data rest.
Proof.
  unfold ParsePacket, parseHeader. destruct (parseHeaderImpl scl data) as [[[hd u] r']| |]; [|done..].
  destruct u; [intros [= _ <- <-]; split; apply piece_nil|]. destruct (IsLongHeader _); [|intros [= _ <- <-]; split; [apply piece_refl|apply piece_nil]].
  destruct (_ <? _); [done|]. destruct (_ || _); [done|]. intros [= _ <- <-]. split; [apply piece_take|apply piece_drop].
Qed.

(** The datagram: its bytes, the time it was received and its buffer. *)
Context (datagram : list Z) (now buffer : Z).
(** A packet of the datagram that could not be opened for want of a key. *)
Definition lacks_key (x : receivedPacket) : Prop :=
  rp_rcvTime x = now ∧ rp_buffer x = buffer ∧ piece datagram (rp_data x)
  ∧ ∃ w w' hdr, w_Unpack w hdr now (rp_data x) = Ok (w', inr ErrOpenerNotYetAvailable).
(** The session is the same: nothing left it, of the components only the unpacker was
    called, and it failed.  During the handshake, packets without a key were put
    behind those kept for later, as long as there was room; and the count of users
    of the datagram's own buffer changed. *)
Definition quiet (s s' : @session W) : Prop :=
  (s_perspective s', s_config s', s_ids s', s_flags s', s_times s') = (s_perspective s, s_config s, s_ids s, s_flags s, s_times s) ∧
  (peerParams s', s_frameParser s', s_out s') = (peerParams s, s_frameParser s, s_out s) ∧
  (receivedPackets (s_chans s'), sendingScheduled (s_chans s'), closeOnce (s_chans s'), closeChan (s_chans s'))
  = (receivedPackets (s_chans s), sendingScheduled (s_chans s), closeOnce (s_chans s), closeChan (s_chans s)) ∧
  rtc unpack_failed (s_parts s) (s_parts s') ∧
  (∃ kept, undecryptablePackets (s_chans s') = undecryptablePackets (s_chans s) ++ kept ∧ Forall lacks_key kept
    ∧ (kept = [] ∨ handshakeComplete (s_flags s) = false ∧ len (undecryptablePackets (s_chans s')) <= MaxUndecryptablePackets)) ∧
  ∀ b, b ≠ buffer → s_buffers s' !! b = s_buffers s !! b.
Lemma nothing_kept (u : list receivedPacket) (f : bool) (n : Z) : ∃ kept, u = u ++ kept ∧ Forall lacks_key kept ∧ (kept = [] ∨ f = false ∧ len u <= n).
Proof. exists []. rewrite app_nil_r. auto. Qed.
#[local] Hint Resolve nothing_kept : core.
#[local] Instance quiet_refl : Reflexive quiet.
Proof. intros s. split_and!; try done; auto. Qed.
#[local] Instance quiet_trans : Transitive quiet.
Proof.
  intros s1 s2 s3 (E1 & E2 & E3 & E4 & (k & E5 & E6 & E7) & E8) (F1 & F2 & F3 & F4 & (k' & F5 & F6 & F7) & F8).
  split_and!; try congruence; [by etrans| |intros b Hb; by rewrite F8, E8].
  exists (k ++ k'). rewrite app_assoc, <- E5. split; [done|]. split; [by apply Forall_app|].
  injection E1 as _ _ _ Ef _. rewrite Ef in F7. destruct F7 as [-> |F7]; [|by right]. rewrite app_nil_r in *. rewrite F5. destruct E7; auto.
Qed.
Lemma quiet_buffers s n : quiet s (set_buffers s (<[buffer := n]> (s_buffers s))).
Proof. split_and!; try done. intros b Hb. cbn. by rewrite lookup_insert_ne. Qed.
Lemma quiet_split : keeps quiet (Split buffer).
Proof. apply keeps_modify. intros s. apply quiet_buffers. Qed.
Lemma quiet_decrement : keeps quiet (Decrement buffer).
Proof. intros s s' a E. unfold Decrement in E. cbv zeta in E. case_match; [done|]. injection E as <- _. apply quiet_buffers. Qed.
Lemma quiet_queue x : lacks_key x → keeps quiet (tryQueueingUndecryptablePacket x).
Proof.
  intros Hx. apply keeps_modify. intros s. cbv zeta. destruct (handshakeComplete (s_flags s)) eqn:Eh; [reflexivity|].
  destruct (Z.ltb_spec MaxUndecryptablePackets (len (undecryptablePackets (s_chans s)) + 1)); [reflexivity|].
  split_and!; try done. exists [x]. split; [done|]. split; [by apply Forall_singleton|]. right. split; [done|]. cbn.
  rewrite len_app. unfold len at 2. cbn. lia.
Qed.

Lemma closed_closeLocal e s s' : closeLocal e s = Ok (s', ()) → closeOnce (s_chans s') = true.
Proof. intros [= <-]. by destruct (closeOnce (s_chans s)) eqn:E. Qed.
(** What is closed stays closed. *)
Lemma closed_keeps {A} (m : @M W A) s s' a : keeps close_rel m → m s = Ok (s', a) → closeOnce (s_chans s') = false → closeOnce (s_chans s) = false.
Proof. intros Hm E Hc. apply Hm in E as [_ [(F & _)|(F & F' & _)]]; congruence. Qed.
Lemma quiet_retry hdr s s' : handleRetryPacket hdr s = Ok (s', false) → closeOnce (s_chans s') = false → quiet s s'.
Proof.
  unfold handleRetryPacket. intros E Hc. apply bindM in E as (s1 & t & [= <- <-] & E).
  do 5 (case_match; [by injection E as <-|]).
  apply bindM in E as (s1 & [] & _ & E). apply bindM in E as (s2 & [] & _ & E). apply bindM in E as (s3 & e & _ & E).
  destruct e as [e|].
  - apply bindM in E as (s4 & [] & E1 & [= <-]). apply closed_closeLocal in E1. congruence.
  - do 4 (apply bindM in E as (? & [] & _ & E)). done.
Qed.
Lemma quiet_single p hdr s s' q : rp_rcvTime p = now → rp_buffer p = buffer → piece datagram (rp_data p) → handle_single p hdr s = Ok (s', (false, q)) → closeOnce (s_chans s') = false → quiet s s'.
Proof.
  unfold handle_single. intros Hp1 Hp2 Hp3 E Hc. destruct (bool_decide (Type_ hdr = _)).
  { apply bindM in E as (s1 & ok & E1 & [= <- -> _]). by eapply quiet_retry. }
  apply bindM in E as (s1 & t & [= <- <-] & E). destruct (_ && _); [by injection E as <- _|]. destruct (bool_decide _); [by injection E as <- _|].
  apply bindM in E as (s1 & r & E1 & E). unfold part in E1.
  destruct (w_Unpack _ hdr _ _) as [[w r']| |] eqn:Eu; try done. cbn [mbind outcome_bind] in E1. injection E1 as <- <-.
  destruct r' as [packet|e].
  - apply bindM in E as (s2 & [e|] & E2 & E); [|done]. apply bindM in E as (s3 & [] & E3 & [= <- _]). apply closed_closeLocal in E3. congruence.
  - assert (quiet s (set_parts s w)) as Hq.
    { split_and!; try done. apply rtc_once. by repeat eexists. }
    destruct (bool_decide _); [by injection E as <- _|]. destruct (bool_decide (e = ErrOpenerNotYetAvailable)) eqn:Ee in E.
    { apply bool_decide_eq_true in Ee as ->. apply bindM in E as (s2 & [] & E2 & [= <- _]). etrans; [exact Hq|].
      eapply quiet_queue; [|exact E2]. split; [done|]. split; [done|]. split; [done|]. rewrite Hp1 in Eu. by repeat eexists. }
    clear Ee. destruct (bool_decide _); [|by injection E as <- _]. apply bindM in E as (s2 & [] & E2 & [= <- _]). apply closed_closeLocal in E2. congruence.
Qed.
Lemma quiet_single_packet p hdr s s' : rp_rcvTime p = now → rp_buffer p = buffer → piece datagram (rp_data p) → handleSinglePacket p hdr s = Ok (s', false) → closeOnce (s_chans s') = false → quiet s s'.
Proof.
  unfold handleSinglePacket. intros Hp1 Hp2 Hp3 E Hc. rewrite Hp2 in E. apply bindM in E as (s1 & [ok q] & E1 & E). apply bindM in E as (s2 & [] & E2 & [= <- ->]).
  assert (quiet s1 s2) as Hq by (destruct q; [by injection E2 as <-|by eapply quiet_decrement]).
  etrans; [|exact Hq]. eapply quiet_single; [done..|exact E1|]. destruct Hq as (_ & _ & [= _ _ Hq _] & _). congruence.
Qed.
Lemma coalesced_processed fuel p data n id s s' : handle_coalesced fuel p data n id true s = Ok (s', false) → False.
Proof.
  revert p data n id s. induction fuel as [|fuel IH]; intros p data n id s E; [done|]. destruct data; [done|].
  cbn [handle_coalesced] in E. cbv zeta in E. apply bindM in E as (s1 & scl & [= <- <-] & E).
  destruct (ParsePacket _ _) as [[[hdr packet] rest]| |]; [|done..]. destruct (_ && _); [done|].
  apply bindM in E as (s1 & [] & _ & E). apply bindM in E as (s2 & ok & _ & E). by eapply IH.
Qed.
Lemma quiet_coalesced fuel p data n id s s' : rp_rcvTime p = now → rp_buffer p = buffer → piece datagram (rp_data p) → piece datagram data →
  handle_coalesced fuel p data n id false s = Ok (s', false) → closeOnce (s_chans s') = false → quiet s s'.
Proof.
  revert p data n id s. induction fuel as [|fuel IH]; intros p data n id s Hp1 Hp2 Hp3 Hp4 E Hc; [by injection E as <-|].
  destruct data as [|x data]; [by injection E as <-|]. cbn [handle_coalesced] in E. set (data' := x :: data) in *. cbv zeta in E.
  set (p0 := if 0 <? n then _ else p) in E.
  assert (H0 : rp_rcvTime p0 = now ∧ rp_buffer p0 = buffer ∧ piece datagram (rp_data p0)) by (subst p0; destruct (0 <? n); split_and!; done).
  clearbody p0 data'. destruct H0 as (H1 & H2 & H3). apply bindM in E as (s1 & scl & [= <- <-] & E).
  destruct (ParsePacket _ _) as [[[hdr packet] rest]| |] eqn:Ep; [|by injection E as <-|done]. destruct (_ && _); [by injection E as <-|].
  apply parse_packet_pieces in Ep as [P1 P2].
  apply bindM in E as (s1 & [] & E1 & E). apply bindM in E as (s2 & ok & E2 & E). destruct ok; [by apply coalesced_processed in E|].
  assert (P3 : piece datagram packet) by exact (piece_trans _ _ _ H3 P1). assert (P4 : piece datagram rest) by exact (piece_trans _ _ _ H3 P2).
  assert (Hq : quiet s2 s') by (eapply IH; [..|exact E|exact Hc]; done). assert (closeOnce (s_chans s2) = false) as Hc2.
  { destruct Hq as (_ & _ & [= _ _ Hq _] & _). congruence. }
  etrans; [|etrans; [eapply quiet_single_packet; [..|exact E2|exact Hc2]; done|exact Hq]].
  rewrite H2 in E1. destruct (0 <? n); [by eapply quiet_split|by injection E1 as <-].
Qed.
End Quiet.

Section Ignored.
Context {W : Type} `{SessionParts W}.
Implicit Types s : @session W.
Lemma quiet_impl p s s' : handlePacketImpl p s = Ok (s', false) → closeOnce (s_chans s') = false →
  ∃ s1, quiet (rp_data p) (rp_rcvTime p) (rp_buffer p) s s1 ∧ MaybeRelease (rp_buffer p) s1 = Ok (s', ()).
Proof.
  unfold handlePacketImpl. intros E Hc. apply bindM in E as (s1 & ok & E1 & E). apply bindM in E as (s2 & [] & E2 & [= <- ->]).
  exists s1. split; [|exact E2]. eapply quiet_coalesced; [done|done|apply piece_refl|apply piece_refl|exact E1|].
  injection E2 as <-. by destruct (_ =? 0) in Hc.
Qed.

(** C8: A packet that cannot be processed, for instance because somebody injected it,
    changes nothing.  When no packet of a datagram was processed and the session was
    not closed by it, the connection IDs, flags, timers, parameters and channels are
    what they were, nothing was sent, and of the components only the unpacker was
    called.  The packets kept for later are still there, in their order; behind them,
    only before the end of the handshake and never more than the maximum, stand those
    packets of the datagram for which there was no key yet.  Of the buffers only the
    datagram's own is touched: its count changes, and it goes back to the pool, the
    only thing to leave the session, exactly if nobody uses it any more.  The turn of
    the run loop ends without touching timers or sending. *)
Theorem unprocessed_packets_ignored probes now tok t p l s s1 :
  receivedPackets (s_chans s) = p :: l → maybeResetTimer s = Ok t →
  let c := s_chans s in
  let s0 := set_chans s (mkChans l (sendingScheduled c) (closeOnce c) (closeChan c) (undecryptablePackets c)) in
  handlePacketImpl p s0 = Ok (s1, false) → closeOnce (s_chans s1) = false →
  (∃ s', quiet (rp_data p) (rp_rcvTime p) (rp_buffer p) s0 s' ∧
     s1 = if decide (default 0 (s_buffers s' !! rp_buffer p) = 0) then emit s' (OutPutBack (rp_buffer p)) else s') ∧
  run_turn probes now tok None InPacket s = Ok (s1, inr (Some ())).
Proof.
  intros Hp Ht c s0 E Hc. split.
  { apply quiet_impl in E as (s' & Hq & [= <-]); [|done]. exists s'. split; [exact Hq|].
    destruct (decide _) as [->|Hne]; [done|]. by rewrite (proj2 (Z.eqb_neq _ _) Hne). }
  unfold run_turn. apply bindM. exists s, None. split; [done|]. apply bindM. exists s, t. split; [by rewrite Ht|].
  apply bindM. exists s1, (inr false). split; [|done]. apply bindM. exists s0, (Some p). split; [unfold take_packet; by rewrite Hp|].
  apply bindM. exists s1, false. done.
Qed.
End Ignored.

(** A short header packet, which is dropped as there are no keys. *)
Definition dropped_packet : receivedPacket := mkReceived 1500 [0x40; 5; 6; 7; 8; 1; 2; 3] 1.
Definition packet_session : @session test_parts :=
  set_buffers (set_chans (test_session PerspectiveServer SendAny 0 3) (mkChans [dropped_packet] false false [] [])) {[1 := 1]}.
Lemma unprocessed_packets_ignored_witness : ∃ s1, run_turn 0 2000 (inl []) None InPacket packet_session = Ok (s1, inr (Some ())) ∧
  s_out s1 = [OutPutBack 1] ∧ s_times s1 = s_times packet_session ∧ tp_packets (s_parts s1) = 3%nat.
Proof.
  pose (s0 := set_chans packet_session (mkChans [] false false [] [])).
  destruct (unprocessed_packets_ignored 0 2000 (inl []) 10000001000 dropped_packet [] packet_session
    (emit (set_buffers s0 {[1 := 0]}) (OutPutBack 1))) as [Hq Hr]; try reflexivity.
  eexists. split; [exact Hr|]. split; [reflexivity|]. split; [|reflexivity]. destruct Hq as (s' & (Ht & _) & E). rewrite E. destruct (decide _); exact (f_equal snd Ht).
Defined.
