(* ===== verification/SessionBuffers.v ===== *)
(** SessionBuffers: the reference counts of packet buffers.  A datagram's buffer is
    shared by its coalesced packets; it goes back to the pool when none of them uses
    it any more, and packets that are kept for later do. *)

From S2P Require Import Prelude Utils Protocol AckFrame Frames FrameCodec StreamFrame FrameParser GoFloat Rtt SentPackets TransportParams Header PacketPacker Protection PacketUnpacker Session SessionSpec SessionRun SessionPackets.

(** How many of the packets use a buffer. *)
Definition uses (b : Z) (l : list receivedPacket) : Z := len (filter (λ p, rp_buffer p = b) l).
Lemma uses_cons b p l : uses b (p :: l) = (if decide (rp_buffer p = b) then 1 else 0) + uses b l.
Proof. unfold uses. rewrite filter_cons. case_decide; [by rewrite len_cons|done]. Qed.
Lemma uses_submseteq b l l' : l ⊆+ l' → uses b l <= uses b l'.
Proof. induction 1; rewrite ?uses_cons; repeat case_decide; lia. Qed.
Lemma uses_nonneg b l : 0 <= uses b l.
Proof. apply len_nonneg. Qed.
Lemma uses_elem p l : p ∈ l → 1 <= uses (rp_buffer p) l.
Proof.
  induction 1 as [p l|p q l _ IH]; rewrite uses_cons.
  - rewrite decide_True by done. pose proof (uses_nonneg (rp_buffer p) l). lia.
  - case_decide; lia.
Qed.
Definition put_backs (l : list out_event) : list Z := omap (λ e, match e with OutPutBack b => Some b | _ => None end) l.
Lemma put_backs_app l l' : put_backs (l ++ l') = put_backs l ++ put_backs l'.
Proof. apply omap_app. Qed.
(** A datagram has at most [MaxReceivePacketSize] bytes. *)
Definition good_packet (p : receivedPacket) : Prop := bytes_ok (rp_data p) ∧ len (rp_data p) <= MaxReceivePacketSize.

Section Buffers.
Context {W : Type} `{SessionParts W}.
Implicit Types s : @session W.
(** The packets the session has. *)
Definition packets (s : @session W) : list receivedPacket := receivedPackets (s_chans s) ++ undecryptablePackets (s_chans s).
Definition refs (s : @session W) (b : Z) : Z := default 0 (s_buffers s !! b).

(** No packet is added, and buffers are left alone. *)
Definition buf_rel (s s' : @session W) : Prop :=
  s_buffers s' = s_buffers s ∧ packets s' ⊆+ packets s ∧ put_backs (s_out s') = put_backs (s_out s).
#[local] Instance buf_refl : Reflexive buf_rel.
Proof. intros s. done. Qed.
#[local] Instance buf_trans : Transitive buf_rel.
Proof. intros s1 s2 s3 (E1 & E2 & E3) (F1 & F2 & F3). split_and!; [congruence|by etrans|congruence]. Qed.
Lemma buf_emit s e : is_plain e = true ∨ is_closing e = true → buf_rel s (emit s e).
Proof. intros He. split_and!; try done. simpl. rewrite put_backs_app. destruct e; simpl; rewrite ?app_nil_r; try done. by destruct He. Qed.
Lemma buf_closed s ev e : is_closing ev = true → buf_rel s (set_chans (emit s ev) (send_close (s_chans s) e)).
Proof. intros He. destruct (buf_emit s ev) as (E1 & E2 & E3); [by right|done]. Qed.
Lemma buf_handlePacket_loop l s s' : foldr (λ p k, handlePacket p;; k) (mret ()) l s = Ok (s', ()) →
  s_buffers s' = s_buffers s ∧ s_out s' = s_out s ∧ undecryptablePackets (s_chans s') = undecryptablePackets (s_chans s) ∧
  receivedPackets (s_chans s') ⊆+ receivedPackets (s_chans s) ++ l.
Proof.
  revert s. induction l as [|p l IH]; intros s E; cbn [foldr] in E.
  - injection E as <-. by rewrite app_nil_r.
  - apply bindM in E as (s1 & [] & [= <-] & E). apply IH in E as (E1 & E2 & E3 & E4). rewrite E1, E2, E3. case_match; split_and!; try done.
    + etrans; [exact E4|]. simpl. by rewrite <- app_assoc.
    + etrans; [exact E4|]. apply submseteq_skips_l. by constructor.
Qed.
Lemma buf_requeue : keeps buf_rel tryDecryptingQueuedPackets.
Proof.
  unfold tryDecryptingQueuedPackets. intros s s' [] E. apply bindM in E as (s1 & l & [= <- <-] & E). apply bindM in E as (s1 & [] & E & [= <-]).
  apply buf_handlePacket_loop in E as (E1 & E2 & E3 & E4). split_and!; [done| |by simpl; rewrite E2].
  unfold packets. simpl. by rewrite app_nil_r.
Qed.
#[export] Instance buf_kept : Kept buf_rel.
Proof.
  split; try apply _; try done.
  - intros s e He. apply buf_emit. by left.
  - intros e. apply keeps_modify. intros s. by case_match.
  - intros e. apply keeps_modify. intros s. case_match; [done|by apply buf_closed].
  - intros e. apply keeps_modify. intros s. case_match; [done|by apply buf_closed].
  - apply buf_requeue.
Qed.

(** * Handling a packet *)

(** The packets the session has, and [n] uses of [b] besides, are counted. *)
Definition counted (b n : Z) (s : @session W) : Prop :=
  (∀ b', uses b' (packets s) + (if decide (b' = b) then n else 0) <= refs s b') ∧ Forall good_packet (packets s).
Lemma good_submseteq l l' : l ⊆+ l' → Forall good_packet l' → Forall good_packet l.
Proof. intros Hs Hl. rewrite Forall_forall in *. intros p Hp. apply Hl. by eapply elem_of_submseteq. Qed.
Lemma counted_rel b n s s' : counted b n s → buf_rel s s' → counted b n s'.
Proof.
  intros [Hc Hg] (E1 & E2 & _). split; [|by eapply good_submseteq]. intros b'. unfold refs. rewrite E1. specialize (Hc b').
  pose proof (uses_submseteq b' _ _ E2). unfold refs in Hc. lia.
Qed.
Lemma counted_weaken b n b' s : 0 <= n → counted b n s → counted b' 0 s.
Proof. intros Hn [Hc Hg]. split; [|done]. intros x. specialize (Hc x). repeat case_decide; lia. Qed.
(** A packet may be kept, and then nothing is counted down. *)
Lemma single_buffers p hdr s s' ok q : handle_single p hdr s = Ok (s', (ok, q)) →
  s_buffers s' = s_buffers s ∧ put_backs (s_out s') = put_backs (s_out s) ∧ packets s' ⊆+ (if q : bool then p :: packets s else packets s).
Proof.
  unfold handle_single. intros E.
  assert (q = false ∧ buf_rel s s' ∨ q = true ∧ s_buffers s' = s_buffers s ∧ put_backs (s_out s') = put_backs (s_out s) ∧ packets s' ⊆+ p :: packets s)
    as [[-> (E1 & E2 & E3)]|[-> (E1 & E2 & E3)]]; [|by split_and!..].
  destruct (bool_decide (Type_ hdr = _)).
  { left. apply bindM in E as (s1 & o & E1 & [= <- _ <-]). split; [done|]. by eapply (keeps_handleRetryPacket buf_rel). }
  apply bindM in E as (s1 & t & [= <- <-] & E). destruct (_ && _); [by injection E as <- _ <-; left|]. destruct (bool_decide _); [by injection E as <- _ <-; left|].
  apply bindM in E as (s1 & r & E1 & E). assert (buf_rel s s1) as Hs1 by (by apply (keeps_part buf_rel) in E1; [|intros; apply kept_parts]). clear E1.
  destruct r as [packet|e].
  - left. apply bindM in E as (s2 & r & E2 & E). apply (keeps_handleUnpackedPacket buf_rel) in E2. destruct r as [e|].
    + apply bindM in E as (s3 & [] & E3 & [= <- _ <-]). apply (kept_closeLocal (R := buf_rel)) in E3. split; [done|]. by etrans; [|etrans].
    + injection E as <- _ <-. split; [done|]. by etrans.
  - destruct (bool_decide _); [by injection E as <- _ <-; left|]. destruct (bool_decide _).
    + right. apply bindM in E as (s2 & [] & [= <-] & [= <- _ <-]). destruct Hs1 as (E1 & E2 & E3). split; [done|].
      repeat case_match; split_and!; try done; try (by etrans; [exact E2|by constructor]).
      unfold packets. simpl. rewrite app_assoc. etrans; [|apply submseteq_skip, E2]. apply Permutation_submseteq. by rewrite Permutation_app_comm.
    + left. destruct (bool_decide _); [|by injection E as <- _ <-].
      apply bindM in E as (s3 & [] & E3 & [= <- _ <-]). apply (kept_closeLocal (R := buf_rel)) in E3. split; [done|]. by etrans.
Qed.

(** The same without the check that a count is not negative. *)
Definition Decrement_unchecked (b : Z) : @M W () := modify (λ s, set_buffers s (<[b := refs s b - 1]> (s_buffers s))).
Section With.
Context (dec : Z → @M W ()).
Definition single_with (p : receivedPacket) (hdr : Header) : @M W bool :=
  '(processed, wasQueued) ← handle_single p hdr; (if wasQueued : bool then mret () else dec (rp_buffer p));; mret processed.
Fixpoint coalesced_with (fuel : nat) (p : receivedPacket) (data : list Z) (counter : Z) (lastConnID : list Z) (processed : bool) : @M W bool :=
  match fuel, data with
  | O, _ | _, [] => mret processed
  | Datatypes.S fuel, _ =>
      let p := if 0 <? counter then mkReceived (rp_rcvTime p) data (rp_buffer p) else p in
      scl ← gets (λ s, len (srcConnID (s_ids s)));
      match ParsePacket (rp_data p) scl with
      | Panic m => λ _, Panic m
      | Err _ => mret processed
      | Ok (hdr, packetData, rest) =>
          if (0 <? counter) && negb (bool_decide (DestConnectionID hdr = lastConnID)) then mret processed
          else
            (if 0 <? counter then Split (rp_buffer p) else mret ());;
            let p := mkReceived (rp_rcvTime p) packetData (rp_buffer p) in
            ok ← single_with p hdr;
            coalesced_with fuel p rest (u8 (counter + 1)) (DestConnectionID hdr) (processed || ok)
      end
  end.
Definition impl_with (rp : receivedPacket) : @M W bool :=
  processed ← coalesced_with (length (rp_data rp)) rp (rp_data rp) 0 [] false;
  MaybeRelease (rp_buffer rp);; mret processed.
End With.
Lemma impl_with_Decrement rp : impl_with Decrement rp = handlePacketImpl rp.
Proof. reflexivity. Qed.

Lemma counted_set b n s x : counted b n s → counted b (n + x) (set_buffers s (<[b := refs s b + x]> (s_buffers s))).
Proof.
  intros [Hc Hg]. split; [|done]. intros b'. specialize (Hc b'). unfold refs. simpl. destruct (decide (b' = b)) as [->|Hne].
  - rewrite lookup_insert_eq. cbn [default from_option id]. change (packets (set_buffers s _)) with (packets s). unfold refs in Hc. lia.
  - rewrite lookup_insert_ne by done. change (packets (set_buffers s _)) with (packets s). unfold refs in Hc. lia.
Qed.
(** Nothing is put back, and no packet is added that uses another buffer. *)
Definition kept_apart (b : Z) (s s' : @session W) : Prop :=
  put_backs (s_out s') = put_backs (s_out s) ∧ ∀ b', b' ≠ b → uses b' (packets s') <= uses b' (packets s).
Lemma kept_apart_trans b s1 s2 s3 : kept_apart b s1 s2 → kept_apart b s2 s3 → kept_apart b s1 s3.
Proof. intros [E1 L1] [E2 L2]. split; [congruence|]. intros b' Hb. specialize (L1 b' Hb). specialize (L2 b' Hb). lia. Qed.
Lemma single_counted p hdr s : counted (rp_buffer p) 1 s → good_packet p →
  single_with Decrement_unchecked p hdr s = handleSinglePacket p hdr s ∧
  ∀ s' ok, handleSinglePacket p hdr s = Ok (s', ok) → counted (rp_buffer p) 0 s' ∧ kept_apart (rp_buffer p) s s'.
Proof.
  intros Hc Hp. unfold single_with, handleSinglePacket, mbind, M_bind.
  destruct (handle_single p hdr s) as [[s1 [ok q]]| |] eqn:E; [|done..]. cbn [mbind outcome_bind].
  apply single_buffers in E as (E1 & E2 & E3). assert (kept_apart (rp_buffer p) s s1) as Ha.
  { split; [done|]. intros b' Hb. apply (uses_submseteq b') in E3. destruct q; [|done]. rewrite uses_cons in E3. case_decide; [congruence|lia]. }
  destruct q.
  - split; [done|]. intros s' ok' [= <- <-]. split; [|done]. destruct Hc as [Hc Hg]. split.
    + intros b. specialize (Hc b). apply (uses_submseteq b) in E3. rewrite uses_cons in E3. unfold refs in *. rewrite E1.
      repeat case_decide; try congruence; lia.
    + eapply good_submseteq; [exact E3|]. by constructor.
  - assert (counted (rp_buffer p) 1 s1) as Hc1 by (by eapply counted_rel). assert (0 <= refs s1 (rp_buffer p) - 1) as Hpos.
    { destruct Hc1 as [Hc1 _]. specialize (Hc1 (rp_buffer p)). rewrite decide_True in Hc1 by done. pose proof (uses_nonneg (rp_buffer p) (packets s1)). lia. }
    unfold Decrement, Decrement_unchecked, modify. fold (refs s1 (rp_buffer p)). rewrite (proj2 (Z.ltb_ge _ 0)) by done. cbn [mbind outcome_bind].
    split; [done|]. intros s' ok' [= <- <-]. split; [|done]. by apply (counted_set _ 1 _ (-1)).
Qed.
Lemma bind_gets {A B} (f : @session W → A) (k : A → @M W B) s : (gets f ≫= k) s = k (f s) s.
Proof. done. Qed.
(** The counter does not wrap: every packet but the last takes six bytes. *)
Lemma coalesced_counted fuel p data n id processed s :
  0 <= n < 256 → bytes_ok data → (n = 0 → rp_data p = data) → (data = [] ∨ 6 * n + len data <= MaxReceivePacketSize) →
  counted (rp_buffer p) (if n =? 0 then 1 else 0) s →
  coalesced_with Decrement_unchecked fuel p data n id processed s = handle_coalesced fuel p data n id processed s ∧
  ∀ s' ok, handle_coalesced fuel p data n id processed s = Ok (s', ok) → counted (rp_buffer p) 0 s' ∧ kept_apart (rp_buffer p) s s'.
Proof.
  revert p data n id processed s. induction fuel as [|fuel IH]; intros p data n id processed s Hn Hb Hd Hl Hc.
  all: assert (counted (rp_buffer p) 0 s) as Hc0 by (eapply counted_weaken; [|exact Hc]; case_match; lia).
  { split; [done|]. by intros s' ok [= <- <-]. }
  destruct data as [|c data']; [split; [done|]; by intros s' ok [= <- <-]|]. destruct Hl as [Hl|Hl]; [done|].
  cbn [coalesced_with handle_coalesced]. cbv zeta. set (data := c :: data') in *. clearbody data.
  rewrite !bind_gets.
  assert (rp_data (if 0 <? n then mkReceived (rp_rcvTime p) data (rp_buffer p) else p) = data) as Ed.
  { destruct (Z.ltb_spec 0 n); [done|]. apply Hd. lia. }
  assert (rp_buffer (if 0 <? n then mkReceived (rp_rcvTime p) data (rp_buffer p) else p) = rp_buffer p) as Eb by (by case_match).
  rewrite Ed, Eb. pose proof (len_nonneg (srcConnID (s_ids s))) as Hscl. pose proof (len_nonneg data) as Hdl.
  destruct (ParsePacket data _) as [[[hdr packet] rest]| |] eqn:Ep; [|split; [done|]; by intros s' ok [= <- <-]|by split].
  apply parse_packet_cut in Ep as [Hcut Hrest]; [|done|unfold MaxReceivePacketSize in *; lia|done].
  destruct (_ && _); [split; [done|]; by intros s' ok [= <- <-]|].
  assert (∃ s1, (if 0 <? n then Split (rp_buffer p) else mret ()) s = Ok (s1, ()) ∧ counted (rp_buffer p) 1 s1 ∧ kept_apart (rp_buffer p) s s1)
    as (s1 & E1 & Hc1 & Ho1).
  { destruct (Z.ltb_spec 0 n).
    - eexists. split; [reflexivity|]. split; [|done]. rewrite (proj2 (Z.eqb_neq n 0)) in Hc by lia. by apply (counted_set _ 0 _ 1).
    - exists s. split; [done|]. by rewrite (proj2 (Z.eqb_eq n 0)) in Hc by lia. }
  set (p' := mkReceived _ packet (rp_buffer p)). assert (good_packet p') as Hp'.
  { assert (bytes_ok packet ∧ len packet <= len data) as [? ?]; [|split; simpl; [done|lia]]. destruct Hcut as [<-|[-> ->]]; [|split; [constructor|by rewrite len_nil]].
    apply Forall_app in Hb as [? _]. split; [done|]. rewrite len_app. pose proof (len_nonneg rest). lia. }
  destruct (single_counted p' hdr s1 Hc1 Hp') as [Es Hs]. unfold mbind, M_bind. rewrite E1. cbn [mbind outcome_bind]. rewrite Es.
  destruct (handleSinglePacket p' hdr s1) as [[s2 ok2]| |] eqn:E2; [|done..]. cbn [mbind outcome_bind].
  destruct (Hs _ _ eq_refl) as [Hc2 Ho2].
  destruct Hrest as [->|Hrest]. { destruct fuel; (split; [done|]); intros s' ok [= <- <-]; (split; [done|]); by eapply kept_apart_trans. }
  assert (u8 (n + 1) = n + 1) as Eu. { apply Z.mod_small. pose proof (len_nonneg rest). unfold MaxReceivePacketSize in *. lia. }
  rewrite Eu. destruct (IH p' rest (n + 1) (DestConnectionID hdr) (processed || ok2) s2) as [Ei Hi].
  - pose proof (len_nonneg rest). unfold MaxReceivePacketSize in *. lia.
  - destruct Hcut as [<-|[-> ->]]; [|constructor]. by apply Forall_app in Hb as [_ ?].
  - lia.
  - right. lia.
  - by rewrite (proj2 (Z.eqb_neq (n + 1) 0)) by lia.
  - split; [done|]. intros s' ok E. destruct (Hi _ _ E) as [? Ho3]. split; [done|]. eapply kept_apart_trans; [exact Ho1|]. by eapply kept_apart_trans.
Qed.

(** A datagram's buffer is put back when no packet uses it, and only then. *)
Lemma impl_counted p s : counted (rp_buffer p) 1 s → good_packet p →
  impl_with Decrement_unchecked p s = handlePacketImpl p s ∧
  ∀ s' ok, handlePacketImpl p s = Ok (s', ok) → counted (rp_buffer p) 0 s' ∧
    (∀ b, b ≠ rp_buffer p → uses b (packets s') <= uses b (packets s)) ∧
    ∃ l, put_backs (s_out s') = put_backs (s_out s) ++ l ∧ (l = [] ∨ l = [rp_buffer p] ∧ uses (rp_buffer p) (packets s') = 0).
Proof.
  intros Hc [Hb Hl]. destruct (coalesced_counted (length (rp_data p)) p (rp_data p) 0 [] false s) as [Ei Hi]; try done; [by right|].
  unfold impl_with, handlePacketImpl, mbind, M_bind. rewrite Ei. destruct (handle_coalesced _ _ _ _ _ _ s) as [[s1 ok]| |]; [|done..].
  cbn [mbind outcome_bind]. split; [done|]. intros s' ok' E. destruct (Hi _ _ eq_refl) as [Hc1 [<- Ho1]]. injection E as <- <-.
  fold (refs s1 (rp_buffer p)). destruct (Z.eqb_spec (refs s1 (rp_buffer p)) 0) as [Hz|].
  - split; [done|]. split; [done|]. exists [rp_buffer p]. simpl. rewrite put_backs_app. split; [done|]. right. split; [done|].
    destruct Hc1 as [Hc1 _]. specialize (Hc1 (rp_buffer p)). rewrite decide_True in Hc1 by done.
    pose proof (uses_nonneg (rp_buffer p) (packets s1)). change (packets (emit s1 _)) with (packets s1). lia.
  - split; [done|]. split; [done|]. exists []. rewrite app_nil_r. by auto.
Qed.

(** * Runs *)

(** [buffer_run s0 free0 s free]: a run of the session together with the pool of
    buffers.  A packet that arrives takes a buffer from the pool; what the session
    puts back is in the pool again. *)
Inductive buffer_run (s0 : @session W) (free0 : gset Z) : @session W → gset Z → Prop :=
  | buf_start : buffer_run s0 free0 s0 free0
  | buf_closeLocal e s s' free : buffer_run s0 free0 s free → closeLocal e s = Ok (s', ()) → buffer_run s0 free0 s' free
  | buf_destroy e s s' free : buffer_run s0 free0 s free → destroyImpl e s = Ok (s', ()) → buffer_run s0 free0 s' free
  | buf_call_back c s s' free : buffer_run s0 free0 s free → call_back c s = Ok (s', ()) → buffer_run s0 free0 s' free
  | buf_packet p s s' free :
      buffer_run s0 free0 s free → rp_buffer p ∈ free → good_packet p →
      handlePacket p (set_buffers s (<[rp_buffer p := 1]> (s_buffers s))) = Ok (s', ()) → buffer_run s0 free0 s' (free ∖ {[rp_buffer p]})
  | buf_wait written s s' free : buffer_run s0 free0 s free → wait_client_hello written s = Ok (s', ()) → buffer_run s0 free0 s' free
  | buf_turn probes now tok first i s s' r l free :
      buffer_run s0 free0 s free → run_turn probes now tok first i s = Ok (s', r) →
      put_backs (s_out s') = put_backs (s_out s) ++ l → buffer_run s0 free0 s' (free ∪ list_to_set l).

(** Free buffers are not in use. *)
Definition pool_ok (s : @session W) (free : gset Z) : Prop := counted 0 0 s ∧ ∀ b, b ∈ free → uses b (packets s) = 0.
Lemma pool_rel s s' free : pool_ok s free → buf_rel s s' → pool_ok s' free.
Proof.
  intros [Hc Hf] Hr. split; [by eapply counted_rel|]. intros b Hb. specialize (Hf b Hb). destruct Hr as (_ & Hs & _).
  apply (uses_submseteq b) in Hs. pose proof (uses_nonneg b (packets s')). lia.
Qed.
Lemma take_packet_pool s s' p free : take_packet s = Ok (s', Some p) → pool_ok s free →
  counted (rp_buffer p) 1 s' ∧ good_packet p ∧ (rp_buffer p ∉ free) ∧ (∀ b, b ∈ free → uses b (packets s') = 0) ∧ s_out s' = s_out s.
Proof.
  unfold take_packet. destruct (receivedPackets (s_chans s)) as [|q l] eqn:E; [done|]. intros [= <- ->] [[Hc Hg] Hf].
  assert (packets s = p :: packets (set_chans s (mkChans l (sendingScheduled (s_chans s)) (closeOnce (s_chans s)) (closeChan (s_chans s)) (undecryptablePackets (s_chans s))))) as Ep
    by (unfold packets; by rewrite E). rewrite Ep in Hc, Hg, Hf. apply Forall_cons in Hg as [Hp Hg].
  split; [split; [|done]|split; [done|split; [|split; [|done]]]].
  - intros b. specialize (Hc b). rewrite uses_cons in Hc. repeat case_decide; try congruence; unfold refs in *; simpl in *; lia.
  - intros Hb. specialize (Hf _ Hb). rewrite uses_cons, decide_True in Hf by done.
    match type of Hf with (1 + uses ?b ?l = 0) => pose proof (uses_nonneg b l) end. lia.
  - intros b Hb. specialize (Hf _ Hb). rewrite uses_cons in Hf.
    match type of Hf with (_ + uses ?b ?l = 0) => pose proof (uses_nonneg b l) end. case_decide; lia.
Qed.

Lemma take_close_buf : keeps buf_rel take_close.
Proof. intros s s' a E. unfold take_close in E. by destruct (closeChan _); injection E as <- _. Qed.
Lemma take_scheduled_buf : keeps buf_rel take_scheduled.
Proof. by apply keeps_modify. Qed.
#[local] Hint Resolve take_close_buf take_scheduled_buf : keeps.
Lemma first_select_buf first tok : keeps buf_rel (first_select first tok).
Proof. unfold first_select. keeps_auto. Qed.
Lemma wait_buf written : keeps buf_rel (wait_client_hello written).
Proof. unfold wait_client_hello. keeps_auto. done. Qed.
Lemma counted_zero b b' s : counted b 0 s → counted b' 0 s.
Proof. by apply counted_weaken. Qed.
Lemma second_select_pool i tok s s' r free : second_select i tok s = Ok (s', r) → pool_ok s free →
  ∃ l, put_backs (s_out s') = put_backs (s_out s) ++ l ∧ pool_ok s' (free ∪ list_to_set l).
Proof.
  intros E Hp. assert (i = InPacket ∨ buf_rel s s') as [->|Hr].
  { assert (i ≠ InPacket → keeps buf_rel (second_select i tok)) as Hk by (intros Hi; destruct i; try done; cbn [second_select]; keeps_auto).
    destruct (decide (i = InPacket)) as [->|Hne]; [by left|right]. by eapply Hk. }
  2: { exists []. rewrite app_nil_r, list_to_set_nil, union_empty_r_L. split; [apply Hr|by eapply pool_rel]. }
  apply bindM in E as (s1 & [p|] & E1 & E).
  - apply bindM in E as (s2 & ok & E2 & [= <- _]). destruct (take_packet_pool _ _ _ _ E1 Hp) as (Hc & Hg & Hb & Hf & Eo).
    destruct (impl_counted p s1 Hc Hg) as [_ Hi]. destruct (Hi _ _ E2) as (Hc2 & Ho & l & El & Hl). exists l. rewrite El, Eo. split; [done|].
    split; [by eapply counted_zero|]. intros b Hbf. destruct (decide (b = rp_buffer p)) as [->|Hne].
    + destruct Hl as [->|[-> ?]]; [|done]. rewrite list_to_set_nil, union_empty_r_L in Hbf. done.
    + specialize (Ho b Hne). pose proof (uses_nonneg b (packets s2)). rewrite Hf in Ho; [lia|]. destruct Hl as [->|[-> _]]; set_solver.
  - injection E as <- _. unfold take_packet in E1. destruct (receivedPackets _); [|done]. injection E1 as <-.
    exists []. by rewrite app_nil_r, list_to_set_nil, union_empty_r_L.
Qed.
Lemma turn_pool probes now tok first i s s' r l free : run_turn probes now tok first i s = Ok (s', r) → pool_ok s free →
  put_backs (s_out s') = put_backs (s_out s) ++ l → pool_ok s' (free ∪ list_to_set l).
Proof.
  intros E Hp El. unfold run_turn in E. apply bindM in E as (s1 & r1 & E1 & E). apply first_select_buf in E1.
  pose proof (pool_rel _ _ _ Hp E1) as Hp1. destruct E1 as (_ & _ & Eo1).
  assert (∀ s2 l2, put_backs (s_out s2) = put_backs (s_out s1) ++ l2 → buf_rel s2 s' → l = l2) as Hl.
  { intros s2 l2 E2 (_ & _ & E3). rewrite E3, E2, Eo1 in El. by apply app_inv_head in El. }
  destruct r1 as [e|].
  { injection E as <- _. rewrite (Hl s1 []) by (by rewrite ?app_nil_r). by rewrite list_to_set_nil, union_empty_r_L. }
  apply bindM in E as (s2 & t & E2 & E). assert (s2 = s1) as ->.
  { destruct (maybeResetTimer s1); try done. by injection E2 as <- _. }
  apply bindM in E as (s2 & r2 & E3 & E). destruct (second_select_pool _ _ _ _ _ free E3 Hp1) as (l2 & El2 & Hp2).
  assert (buf_rel s2 s') as Hr2.
  { destruct r2 as [e|[]]; [by injection E as <- _| |by injection E as <- _].
    apply bindM in E as (s3 & r3 & E4 & [= <- _]). by eapply (keeps_after_select buf_rel). }
  rewrite (Hl s2 l2) by done. by eapply pool_rel.
Qed.

Lemma pool_run s0 free0 s free : packets s0 = [] → (∀ b, 0 <= refs s0 b) → buffer_run s0 free0 s free → pool_ok s free.
Proof.
  intros E0 H0. induction 1 as [|e s s' free _ IH E|e s s' free _ IH E|c s s' free _ IH E|p s s' free _ IH Hp Hg E|written s s' free _ IH E
    |probes now tok first i s s' r l free _ IH E El].
  - unfold pool_ok, counted. rewrite E0. split; [split; [|constructor]|done]. intros b. specialize (H0 b). change (uses b []) with 0. case_decide; lia.
  - eapply pool_rel; [done|]. by eapply (kept_closeLocal (R := buf_rel)).
  - eapply pool_rel; [done|]. by eapply (kept_destroy (R := buf_rel)).
  - eapply pool_rel; [done|]. by eapply (keeps_call_back buf_rel).
  - destruct IH as [[Hc Hgs] Hf]. pose proof (Hf _ Hp) as Hu.
    assert (s_buffers s' = <[rp_buffer p := 1]> (s_buffers s) ∧ (packets s' ≡ₚ p :: packets s ∨ packets s' = packets s)) as [Eb Ep].
    { injection E as <-. case_match; split; try done; [left|by right]. unfold packets. simpl. rewrite <- app_assoc. simpl. by rewrite <- Permutation_middle. }
    assert (packets s' ⊆+ p :: packets s) as Hs by (destruct Ep as [->| ->]; by try constructor).
    split; [split|].
    + intros b. apply (uses_submseteq b) in Hs. rewrite uses_cons in Hs. specialize (Hc b). unfold refs in *. rewrite Eb.
      destruct (decide (rp_buffer p = b)) as [<-|Hne]; [rewrite lookup_insert_eq; simpl|rewrite lookup_insert_ne by done]; repeat case_decide; lia.
    + eapply good_submseteq; [exact Hs|]. by constructor.
    + intros b Hb. apply elem_of_difference in Hb as [Hb Hne]. rewrite elem_of_singleton in Hne. specialize (Hf b Hb).
      apply (uses_submseteq b) in Hs. rewrite uses_cons, decide_False in Hs by done. pose proof (uses_nonneg b (packets s')). lia.
  - eapply pool_rel; [done|]. by eapply wait_buf.
  - by eapply turn_pool.
Qed.

(** C9: Buffers are not shared.  Whatever arrives and however datagrams are cut into
    packets, no packet that waits to be handled, or is kept until its keys are there,
    uses a buffer that is in the pool; handling a packet never counts a buffer below
    zero (the check in Decrement never fires); and the buffer is put back at most
    once, when no waiting packet uses it and it is not in the pool already. *)
Theorem buffers_not_shared s0 free0 s free :
  packets s0 = [] → (∀ b, 0 <= refs s0 b) → buffer_run s0 free0 s free →
  (∀ p, p ∈ packets s → rp_buffer p ∉ free) ∧
  (∀ p s1, take_packet s = Ok (s1, Some p) →
     impl_with Decrement_unchecked p s1 = handlePacketImpl p s1 ∧
     ∀ s2 ok, handlePacketImpl p s1 = Ok (s2, ok) →
       ∃ l, put_backs (s_out s2) = put_backs (s_out s) ++ l ∧
         (l = [] ∨ l = [rp_buffer p] ∧ (rp_buffer p ∉ free) ∧ ∀ q, q ∈ packets s2 → rp_buffer q ≠ rp_buffer p)).
Proof.
  intros E0 H0 Hr. pose proof (pool_run _ _ _ _ E0 H0 Hr) as Hp. split.
  - intros p Hin Hf. destruct Hp as [_ Hp]. specialize (Hp _ Hf). apply uses_elem in Hin. lia.
  - intros p s1 E1. destruct (take_packet_pool _ _ _ _ E1 Hp) as (Hc & Hg & Hb & _ & Eo).
    destruct (impl_counted p s1 Hc Hg) as [Ei Hi]. split; [done|]. intros s2 ok E2. destruct (Hi _ _ E2) as (_ & _ & l & El & Hl).
    exists l. rewrite El, Eo. split; [done|]. destruct Hl as [->|[-> Hu]]; [by left|right]. split; [done|]. split; [done|].
    intros q Hq Eq. apply uses_elem in Hq. rewrite Eq in Hq. lia.
Qed.
End Buffers.

(** Two packets arrive; the pool had three buffers. *)
Definition empty_session : @session test_parts := test_session PerspectiveServer SendAny 0 0.
Definition arrived : @session test_parts :=
  set_buffers (set_chans empty_session (mkChans [mkReceived 1500 [0x40; 5; 6; 7; 8; 1] 1; mkReceived 1500 [0x40; 5; 6; 7; 8; 2] 3] false false [] []))
    (<[3 := 1]> (<[1 := 1]> ∅)).
Lemma run_arrived : buffer_run empty_session {[1; 2; 3]} arrived ({[1; 2; 3]} ∖ {[1]} ∖ {[3]}).
Proof.
  apply (buf_packet _ _ (mkReceived 1500 [0x40; 5; 6; 7; 8; 2] 3)
    (set_buffers (set_chans empty_session (mkChans [mkReceived 1500 [0x40; 5; 6; 7; 8; 1] 1] false false [] [])) (<[1 := 1]> ∅))).
  - apply (buf_packet _ _ (mkReceived 1500 [0x40; 5; 6; 7; 8; 1] 1) empty_session); [constructor|set_solver| |reflexivity].
    split; [repeat constructor; lia|by vm_compute].
  - set_solver.
  - split; [repeat constructor; lia|by vm_compute].
  - reflexivity.
Qed.
Lemma buffers_not_shared_witness : bool_decide (3 ∈ ({[1; 2; 3]} ∖ {[1]} ∖ {[3]} : gset Z)) = false.
Proof.
  apply bool_decide_eq_false_2. apply (proj1 (buffers_not_shared empty_session {[1; 2; 3]} arrived ({[1; 2; 3]} ∖ {[1]} ∖ {[3]})
    ltac:(reflexivity) ltac:(intros b; unfold refs; simpl; by rewrite lookup_empty) ltac:(exact run_arrived)) (mkReceived 1500 [0x40; 5; 6; 7; 8; 2] 3)).
  apply list_elem_of_further, list_elem_of_here.
Defined.
