(* ===== verification/ClosedSession.v ===== *)
(** ClosedSession: quic-go/closed_session.go, the handlers that take the place of a
    session when it is closed.  One that was closed by us repeats its
    CONNECTION_CLOSE packet, less and less often. *)

From S2P Require Import Prelude Utils Protocol Session.

(** * closedLocalSession *)

(** [cl_closed] is whether [closeChan] is closed; [cl_written] is what was written. *)
Record closedLocalSession := mkClosedLocal {
  connClosePacket : list Z; cl_closed : bool; cl_receivedPackets : list receivedPacket; cl_counter : Z;
  cl_perspective : Perspective; cl_written : list (list Z) }.
Definition newClosedLocalSession (packet : list Z) (pers : Perspective) : closedLocalSession := mkClosedLocal packet false [] 0 pers [].
Definition cl_handlePacket (s : closedLocalSession) (p : receivedPacket) : closedLocalSession :=
  if len (cl_receivedPackets s) <? 64
  then mkClosedLocal (connClosePacket s) (cl_closed s) (cl_receivedPackets s ++ [p]) (cl_counter s) (cl_perspective s) (cl_written s)
  else s.
(** The loop that halves the counter: whether it ends without an odd number. *)
Fixpoint halves (fuel : nat) (n : Z) : bool :=
  match fuel with
  | O => true
  | S fuel => if negb (1 <? n) then true else if negb (n mod 2 =? 0) then false else halves fuel (n / 2)
  end.
Definition cl_handlePacketImpl (s : closedLocalSession) : closedLocalSession :=
  let counter := u64 (cl_counter s + 1) in
  mkClosedLocal (connClosePacket s) (cl_closed s) (cl_receivedPackets s) counter (cl_perspective s)
    (if halves 64 counter then cl_written s ++ [connClosePacket s] else cl_written s).
(** One turn of the run loop; [None] when the loop ends.  With a packet and the
    channel closed, either case can be chosen. *)
Inductive cl_case := ClPacket | ClClose.
Definition cl_turn (s : closedLocalSession) (c : cl_case) : option closedLocalSession :=
  match c, cl_receivedPackets s with
  | ClPacket, _ :: l => Some (cl_handlePacketImpl (mkClosedLocal (connClosePacket s) (cl_closed s) l (cl_counter s) (cl_perspective s) (cl_written s)))
  | ClPacket, [] => Some s
  | ClClose, _ => if cl_closed s then None else Some s
  end.
(** [Close] calls [destroy], which closes the channel once. *)
Definition cl_destroy (s : closedLocalSession) : closedLocalSession :=
  mkClosedLocal (connClosePacket s) true (cl_receivedPackets s) (cl_counter s) (cl_perspective s) (cl_written s).

(** * closedRemoteSession *)

Record closedRemoteSession := mkClosedRemote { cr_perspective : Perspective }.
Definition newClosedRemoteSession (pers : Perspective) : closedRemoteSession := mkClosedRemote pers.
Definition cr_handlePacket (s : closedRemoteSession) (p : receivedPacket) : closedRemoteSession := s.

(** * The backoff *)

Lemma halves_pow2 fuel n : 1 <= n < 2 ^ Z.of_nat fuel → halves fuel n = true ↔ ∃ j, 0 <= j ∧ n = 2 ^ j.
Proof.
  revert n. induction fuel as [|fuel IH]; intros n Hn; [change (2 ^ Z.of_nat 0) with 1 in Hn; lia|]. cbn [halves].
  destruct (Z.ltb_spec 1 n) as [H1|H1]; cbn [negb].
  - destruct (Z.eqb_spec (n mod 2) 0) as [Hm|Hm]; cbn [negb].
    + pose proof (Z.div_mod n 2 ltac:(lia)) as Hd. rewrite Hm in Hd. rewrite Nat2Z.inj_succ, Z.pow_succ_r in Hn by lia. rewrite IH by lia.
      split; intros (j & Hj & Ej).
      * exists (Z.succ j). split; [lia|]. rewrite Z.pow_succ_r by done. lia.
      * destruct (decide (j = 0)) as [->|Hne]; [change (2 ^ 0) with 1 in Ej; lia|]. exists (j - 1). split; [lia|].
        replace j with (Z.succ (j - 1)) in Ej by lia. rewrite Z.pow_succ_r in Ej by lia. lia.
    + split; [done|]. intros (j & Hj & ->). exfalso. apply Hm. destruct (decide (j = 0)) as [->|Hne]; [change (2 ^ 0) with 1 in H1; lia|].
      replace j with (Z.succ (j - 1)) by lia. rewrite Z.pow_succ_r, Z.mul_comm by lia. apply Z.mod_mul. lia.
  - split; [|done]. intros _. exists 0. split; [done|]. change (2 ^ 0) with 1. lia.
Qed.
(** How often the packet is written while [k] packets are handled. *)
Definition written_for (k : nat) : nat := match k with O => O | _ => S (Z.to_nat (Z.log2 (Z.of_nat k))) end.
Lemma written_for_S k : Z.of_nat k + 1 < 2 ^ 64 →
  written_for (S k) = (if halves 64 (Z.of_nat k + 1) then S (written_for k) else written_for k).
Proof.
  intros Hk. destruct k as [|k]; [done|]. unfold written_for. rewrite (Nat2Z.inj_succ (S k)). set (a := Z.of_nat (S k)) in *.
  assert (0 < a) as Ha by lia. clearbody a. pose proof (Z.log2_nonneg a).
  pose proof (halves_pow2 64 (a + 1) ltac:(lia)) as Hp. pose proof (Z.log2_eq_succ_iff_pow2 a Ha) as Hs.
  rewrite <- Z.add_1_r in *. assert ((∃ j, 0 <= j ∧ a + 1 = 2 ^ j) ↔ ∃ b, a + 1 = 2 ^ b) as Hb.
  { split; [intros (j & _ & E); eauto|]. intros (b & E). exists b. split; [|done]. destruct (Z.le_gt_cases 0 b); [done|].
    rewrite Z.pow_neg_r in E by done. lia. }
  rewrite Hb, <- Hs in Hp. destruct (halves 64 (a + 1)).
  - rewrite (proj1 Hp eq_refl). lia.
  - destruct (Z.log2_succ_or a) as [E|E]; rewrite <- Z.add_1_r in E; [|by rewrite E]. by apply Hp in E.
Qed.
(** The state after [k] packets. *)
Lemma closed_session_state packet pers k : Z.of_nat k < 2 ^ 64 →
  let s := Nat.iter k cl_handlePacketImpl (newClosedLocalSession packet pers) in
  connClosePacket s = packet ∧ cl_counter s = Z.of_nat k ∧ cl_written s = replicate (written_for k) packet.
Proof.
  induction k as [|k IH]; intros Hk; [done|]. specialize (IH ltac:(lia)). cbv zeta in IH. cbv zeta. rewrite Nat.iter_succ.
  set (s := Nat.iter k cl_handlePacketImpl _) in *. clearbody s. destruct IH as (E1 & E2 & E3). cbn [cl_handlePacketImpl connClosePacket cl_counter cl_written].
  rewrite E2, u64_small by lia. split; [done|]. split; [lia|]. rewrite written_for_S by lia. destruct (halves 64 _); [|done].
  rewrite E1, E3. symmetry. apply replicate_S_end.
Qed.

(** C11: A closed session answers with an exponential backoff: of [k] packets it
    receives, the k-th is answered with the CONNECTION_CLOSE packet exactly if [k] is
    a power of two, so that there are [log2 k + 1] answers in all; the loop that
    decides it ends within the 64 bits of the counter. *)
Theorem close_backoff packet pers k : Z.of_nat k + 1 < 2 ^ 64 →
  let s := Nat.iter k cl_handlePacketImpl (newClosedLocalSession packet pers) in
  cl_written s = replicate (match k with O => O | _ => S (Z.to_nat (Z.log2 (Z.of_nat k))) end) packet ∧
  ((∃ j, 0 <= j ∧ Z.of_nat k + 1 = 2 ^ j) → cl_written (cl_handlePacketImpl s) = cl_written s ++ [packet]) ∧
  ((¬ ∃ j, 0 <= j ∧ Z.of_nat k + 1 = 2 ^ j) → cl_written (cl_handlePacketImpl s) = cl_written s).
Proof.
  intros Hk s. destruct (closed_session_state packet pers k ltac:(lia)) as (E1 & E2 & E3). fold s in E1, E2, E3. split; [exact E3|].
  pose proof (halves_pow2 64 (Z.of_nat k + 1) ltac:(change (2 ^ Z.of_nat 64) with (2 ^ 64); lia)) as Hp.
  unfold cl_handlePacketImpl. cbn [cl_written]. rewrite E1, E2, u64_small by lia. split; intros Hj.
  - by rewrite (proj2 Hp Hj).
  - destruct (halves 64 _); [|done]. by destruct (Hj (proj1 Hp eq_refl)).
Qed.
Lemma close_backoff_witness : cl_written (Nat.iter 7 cl_handlePacketImpl (newClosedLocalSession [1; 2] PerspectiveServer)) = [[1; 2]; [1; 2]; [1; 2]].
Proof. apply (close_backoff [1; 2] PerspectiveServer 7). lia. Defined.
