(* ===== verification/TokenStore.v ===== *)
(** TokenStore: quic-go/token_store.go, the client's cache of address validation
    tokens: a ring of tokens per origin, and the origins in the order of their last
    use.  It implements a list of stacks. *)

From S2P Require Import Prelude Utils Protocol.

Definition ClientToken := list Z.

(** * singleOriginTokenStore *)

Record singleOriginTokenStore := mkRing { tokens : list (option ClientToken); ring_len : Z; ring_p : Z }.
Definition newSingleOriginTokenStore (size : Z) : outcome singleOriginTokenStore :=
  if size <? 0 then Panic "makeslice: len out of range" else Ok (mkRing (replicate (Z.to_nat size) None) 0 0).
Definition index (s : singleOriginTokenStore) (i : Z) : outcome Z :=
  let mod_ := len (tokens s) in
  if mod_ =? 0 then Panic "integer divide by zero" else Ok (Z.rem (i + mod_) mod_).
Definition in_range (s : singleOriginTokenStore) (i : Z) : bool := (0 <=? i) && (i <? len (tokens s)).
Definition ring_Add (s : singleOriginTokenStore) (token : ClientToken) : outcome singleOriginTokenStore :=
  if negb (in_range s (ring_p s)) then Panic "index out of range" else
  let ts := <[Z.to_nat (ring_p s) := Some token]> (tokens s) in
  let s := mkRing ts (ring_len s) (ring_p s) in
  p ← index s (ring_p s + 1);
  Ok (mkRing ts (Z.min (ring_len s + 1) (len ts)) p).
Definition ring_Pop (s : singleOriginTokenStore) : outcome (singleOriginTokenStore * option ClientToken) :=
  p ← index s (ring_p s - 1);
  if negb (in_range s p) then Panic "index out of range" else
  let token := default None (tokens s !! Z.to_nat p) in
  Ok (mkRing (<[Z.to_nat p := None]> (tokens s)) (Z.max (ring_len s - 1) 0) p, token).
Definition ring_Len (s : singleOriginTokenStore) : Z := ring_len s.

(** * lruTokenStore *)

(** The elements of the linked list are numbered; [el_values] holds their values,
    which the map and the list share. *)
Record lruTokenStoreEntry := mkLruEntry { entry_key : string; entry_cache : singleOriginTokenStore }.
Record lruTokenStore := mkLru {
  lru_m : gmap string Z; lru_q : list Z; el_values : gmap Z lruTokenStoreEntry; el_next : Z; capacity : Z; singleOriginSize : Z }.
Definition NewLRUTokenStore (maxOrigins tokensPerOrigin : Z) : lruTokenStore := mkLru ∅ [] ∅ 0 maxOrigins tokensPerOrigin.
Definition moveToFront (q : list Z) (el : Z) : list Z := el :: filter (λ x, x ≠ el) q.
Definition el_Value (s : lruTokenStore) (el : Z) : outcome lruTokenStoreEntry :=
  match el_values s !! el with Some e => Ok e | None => Panic "nil pointer dereference" end.
Definition Put (s : lruTokenStore) (key : string) (token : ClientToken) : outcome lruTokenStore :=
  match lru_m s !! key with
  | Some el =>
      entry ← el_Value s el;
      cache ← ring_Add (entry_cache entry) token;
      Ok (mkLru (lru_m s) (moveToFront (lru_q s) el) (<[el := mkLruEntry (entry_key entry) cache]> (el_values s)) (el_next s) (capacity s) (singleOriginSize s))
  | None =>
      if len (lru_q s) <? capacity s then
        cache ← newSingleOriginTokenStore (singleOriginSize s);
        cache ← ring_Add cache token;
        let el := el_next s in
        Ok (mkLru (<[key := el]> (lru_m s)) (el :: lru_q s) (<[el := mkLruEntry key cache]> (el_values s)) (el_next s + 1) (capacity s) (singleOriginSize s))
      else
        match last (lru_q s) with
        | None => Panic "nil pointer dereference"
        | Some elem =>
            entry ← el_Value s elem;
            cache ← newSingleOriginTokenStore (singleOriginSize s);
            cache ← ring_Add cache token;
            Ok (mkLru (<[key := elem]> (delete (entry_key entry) (lru_m s))) (moveToFront (lru_q s) elem)
                  (<[elem := mkLruEntry key cache]> (el_values s)) (el_next s) (capacity s) (singleOriginSize s))
        end
  end.
Definition Pop (s : lruTokenStore) (key : string) : outcome (lruTokenStore * option ClientToken) :=
  match lru_m s !! key with
  | None => Ok (s, None)
  | Some el =>
      let q := moveToFront (lru_q s) el in
      entry ← el_Value s el;
      '(cache, token) ← ring_Pop (entry_cache entry);
      let values := <[el := mkLruEntry (entry_key entry) cache]> (el_values s) in
      if ring_Len cache =? 0
      then Ok (mkLru (delete key (lru_m s)) (filter (λ x, x ≠ el) q) (delete el values) (el_next s) (capacity s) (singleOriginSize s), token)
      else Ok (mkLru (lru_m s) q values (el_next s) (capacity s) (singleOriginSize s), token)
  end.

(** * What they implement *)

(** A stack that forgets its oldest tokens. *)
Definition stack_push (n : nat) (t : ClientToken) (ts : list ClientToken) : list ClientToken := take n (t :: ts).
(** The origins with their stacks, the one used last in front. *)
Definition store := list (string * list ClientToken).
Definition without (key : string) (l : store) : store := filter (λ e, e.1 ≠ key) l.
Fixpoint store_get (l : store) (key : string) : option (list ClientToken) :=
  match l with
  | [] => None
  | (k, ts) :: l => if decide (k = key) then Some ts else store_get l key
  end.
Definition store_put (cap : Z) (n : nat) (l : store) (key : string) (t : ClientToken) : store :=
  match store_get l key with
  | Some ts => (key, stack_push n t ts) :: without key l
  | None => (key, [t]) :: (if len l <? cap then l else take (length l - 1) l)
  end.
Definition store_pop (l : store) (key : string) : store * option ClientToken :=
  match store_get l key with
  | None => (l, None)
  | Some ts => (match tail ts with [] => without key l | ts' => (key, ts') :: without key l end, head ts)
  end.

(** ** The ring *)

(** The newest token is the one before [ring_p]. *)
Definition ring_rep (n : Z) (c : singleOriginTokenStore) (ts : list ClientToken) : Prop :=
  len (tokens c) = n ∧ 0 <= ring_p c < n ∧ ring_len c = len ts ∧ len ts <= n ∧
  ∀ i t, ts !! i = Some t → tokens c !! Z.to_nat ((ring_p c - 1 - Z.of_nat i) mod n) = Some (Some t).
Lemma index_mod s i : 0 < len (tokens s) → 0 <= i + len (tokens s) → index s i = Ok (i mod len (tokens s)).
Proof.
  intros Hn Hi. unfold index. rewrite (proj2 (Z.eqb_neq _ 0)) by lia. rewrite Z.rem_mod_nonneg by lia.
  rewrite <- (Z.mul_1_l (len (tokens s))) at 1. by rewrite Z.mod_add by lia.
Qed.
Lemma mod_ne p i n : 0 < n → 0 < i < n → (p - i) mod n ≠ p mod n.
Proof.
  intros Hn Hi E. assert ((p - (p - i)) mod n = 0) as E'. { rewrite Zminus_mod, E, Z.sub_diag. done. }
  replace (p - (p - i)) with i in E' by lia. rewrite Z.mod_small in E' by lia. lia.
Qed.
Lemma mod_shift a i n : (a mod n - 1 - i) mod n = (a - 1 - i) mod n.
Proof. rewrite <- !Z.sub_add_distr. apply Zminus_mod_idemp_l. Qed.
Lemma insert_other {A} (l : list A) i j n x y : 0 <= i < n → 0 <= j < n → i ≠ j → l !! Z.to_nat j = Some y → <[Z.to_nat i := x]> l !! Z.to_nat j = Some y.
Proof. intros Hi Hj Hne E. rewrite list_lookup_insert_ne; [done|]. lia. Qed.
Lemma ring_new n : 0 < n → ∃ c, newSingleOriginTokenStore n = Ok c ∧ ring_rep n c [].
Proof.
  intros Hn. eexists. split; [unfold newSingleOriginTokenStore; by rewrite (proj2 (Z.ltb_ge n 0)) by lia|].
  split; [simpl; unfold len; rewrite length_replicate; lia|]. split; [simpl; lia|]. split; [done|]. split; [rewrite len_nil; lia|]. by intros i t [=].
Qed.
Lemma ring_add n c ts t : 0 < n → ring_rep n c ts → ∃ c', ring_Add c t = Ok c' ∧ ring_rep n c' (stack_push (Z.to_nat n) t ts).
Proof.
  intros Hn (El & Hp & Elen & Hle & Hget). unfold ring_Add, in_range. rewrite El.
  rewrite (proj2 (Z.leb_le 0 _)), (proj2 (Z.ltb_lt _ n)) by lia. cbn [negb andb].
  set (ts' := <[Z.to_nat (ring_p c) := Some t]> (tokens c)). assert (len ts' = n) as El' by (unfold ts', len in *; by rewrite length_insert).
  rewrite index_mod by (simpl; lia). cbn [tokens mbind outcome_bind ring_len ring_p]. rewrite El'. eexists. split; [reflexivity|].
  unfold stack_push. assert (len (take (Z.to_nat n) (t :: ts)) = Z.min (len ts + 1) n) as Et.
  { unfold len in *. rewrite length_take. simpl. lia. }
  unfold ring_rep. cbn [tokens ring_len ring_p]. split; [done|]. split; [apply Z.mod_pos_bound; lia|]. rewrite Et, Elen. split; [done|]. split; [lia|].
  intros i x Hi. assert (Z.of_nat i < n) as Hin. { apply lookup_lt_Some in Hi. rewrite length_take in Hi. lia. }
  rewrite lookup_take in Hi. rewrite decide_True in Hi by lia.
  rewrite mod_shift. replace (ring_p c + 1 - 1 - Z.of_nat i) with (ring_p c - Z.of_nat i) by lia.
  destruct i as [|i]; simpl in Hi.
  - injection Hi as <-. rewrite Z.sub_0_r, Z.mod_small by lia. unfold ts'. apply list_lookup_insert_eq. unfold len in El. lia.
  - apply Hget in Hi. replace (ring_p c - Z.of_nat (S i)) with (ring_p c - 1 - Z.of_nat i) by lia.
    apply (insert_other _ _ _ n); try done; [apply Z.mod_pos_bound; lia|].
    intros E. apply (mod_ne (ring_p c) (Z.of_nat (S i)) n); [lia|lia|]. rewrite (Z.mod_small (ring_p c)) by lia.
    replace (ring_p c - Z.of_nat (S i)) with (ring_p c - 1 - Z.of_nat i) by lia. done.
Qed.
Lemma ring_pop n c t ts : 0 < n → ring_rep n c (t :: ts) → ∃ c', ring_Pop c = Ok (c', Some t) ∧ ring_rep n c' ts.
Proof.
  intros Hn (El & Hp & Elen & Hle & Hget). rewrite len_cons in *. pose proof (len_nonneg ts).
  unfold ring_Pop, in_range. rewrite index_mod by lia. rewrite El. cbn [mbind outcome_bind].
  pose proof (Z.mod_pos_bound (ring_p c - 1) n Hn) as Hb. rewrite (proj2 (Z.leb_le 0 _)), (proj2 (Z.ltb_lt _ n)) by lia. cbn [negb andb].
  eexists. split.
  - pose proof (Hget O t eq_refl) as E. rewrite Z.sub_0_r in E. rewrite E. reflexivity.
  - unfold ring_rep. cbn [tokens ring_len ring_p]. split; [unfold len in *; by rewrite length_insert|]. split; [lia|]. split; [lia|]. split; [lia|].
    intros i x Hi. pose proof (Hget (S i) x Hi) as E. assert (Z.of_nat i < len ts) as Hl by (apply lookup_lt_Some in Hi; unfold len; lia).
    rewrite mod_shift. replace (ring_p c - 1 - 1 - Z.of_nat i) with (ring_p c - 1 - Z.of_nat (S i)) by lia.
    apply (insert_other _ _ _ n); try done; [apply Z.mod_pos_bound; lia|].
    intros E'. apply (mod_ne (ring_p c - 1) (Z.of_nat (S i)) n); [lia|lia|]. by rewrite E'.
Qed.

(** ** The cache *)

(** An element of the list, with the origin and the stack it stands for. *)
Record row := mkRow { r_el : Z; r_key : string; r_cache : singleOriginTokenStore; r_stack : list ClientToken }.
Definition row_ok (s : lruTokenStore) (r : row) : Prop :=
  lru_m s !! r_key r = Some (r_el r) ∧ el_values s !! r_el r = Some (mkLruEntry (r_key r) (r_cache r)) ∧
  ring_rep (singleOriginSize s) (r_cache r) (r_stack r) ∧ r_stack r ≠ [] ∧ r_el r < el_next s.
Record rows_ok (s : lruTokenStore) (rows : list row) : Prop := {
  rows_q : lru_q s = r_el <$> rows;
  rows_els : NoDup (r_el <$> rows);
  rows_keys : NoDup (r_key <$> rows);
  rows_row : Forall (row_ok s) rows;
  rows_m : ∀ k el, lru_m s !! k = Some el → ∃ r, r ∈ rows ∧ r_key r = k;
  rows_cap : len rows <= capacity s }.
Definition of_rows (rows : list row) : store := (λ r, (r_key r, r_stack r)) <$> rows.
(** The store stands for a list of stacks. *)
Definition store_rep (cap n : Z) (s : lruTokenStore) (l : store) : Prop :=
  capacity s = cap ∧ singleOriginSize s = n ∧ ∃ rows, rows_ok s rows ∧ l = of_rows rows.

Lemma filter_id {A} (P : A → Prop) `{!∀ x, Decision (P x)} (l : list A) : (∀ x, x ∈ l → P x) → filter P l = l.
Proof.
  induction l as [|x l IH]; intros Hl; [done|]. rewrite filter_cons_True by (apply Hl; left). f_equal. apply IH. intros y Hy. apply Hl. by right.
Qed.
Lemma filter_fmap {A B} (f : A → B) (P : B → Prop) `{!∀ x, Decision (P x)} (l : list A) : filter P (f <$> l) = f <$> filter (λ x, P (f x)) l.
Proof. induction l as [|x l IH]; [done|]. rewrite fmap_cons, !filter_cons, IH. by case_decide. Qed.
Lemma filter_out {A B} `{EqDecision B} (f : A → B) (a b : list A) x : NoDup (f <$> a ++ x :: b) →
  filter (λ y, f y ≠ f x) (a ++ x :: b) = a ++ b.
Proof.
  intros Hn. rewrite fmap_app, fmap_cons in Hn. apply NoDup_app in Hn as (_ & Ha & Hb). apply NoDup_cons in Hb as [Hb _].
  rewrite filter_app, filter_cons_False by naive_solver. f_equal; apply filter_id; intros y Hy E.
  - apply (Ha (f y)); [by apply list_elem_of_fmap_2|rewrite E; left].
  - apply Hb. rewrite <- E. by apply list_elem_of_fmap_2.
Qed.
(** What moving an element to the front, or removing an origin, does to the rows. *)
Lemma move_rows a r b : NoDup (r_el <$> a ++ r :: b) → moveToFront (r_el <$> a ++ r :: b) (r_el r) = r_el <$> r :: a ++ b.
Proof.
  intros Hn. unfold moveToFront. cbn [fmap list_fmap]. f_equal. rewrite <- (filter_out r_el a b r) by done.
  exact (filter_fmap r_el (λ x, x ≠ r_el r) (a ++ r :: b)).
Qed.
Lemma without_rows a r b : NoDup (r_key <$> a ++ r :: b) → without (r_key r) (of_rows (a ++ r :: b)) = of_rows (a ++ b).
Proof. intros Hn. unfold without, of_rows. rewrite <- (filter_out r_key a b r) by done. exact (filter_fmap (λ q, (r_key q, r_stack q)) (λ e, e.1 ≠ r_key r) (a ++ r :: b)). Qed.
Lemma store_get_rows rows r : NoDup (r_key <$> rows) → r ∈ rows → store_get (of_rows rows) (r_key r) = Some (r_stack r).
Proof.
  induction rows as [|q rows IH]; intros Hn Hr; [by apply not_elem_of_nil in Hr|]. cbn [of_rows fmap list_fmap store_get].
  apply NoDup_cons in Hn as [Hq Hn]. apply elem_of_cons in Hr as [->|Hr]; [by rewrite decide_True|].
  rewrite decide_False; [by apply IH|]. intros E. apply Hq. rewrite E. by apply list_elem_of_fmap_2.
Qed.
Lemma store_get_none rows key : (∀ r, r ∈ rows → r_key r ≠ key) → store_get (of_rows rows) key = None.
Proof.
  induction rows as [|q rows IH]; intros Hr; [done|]. cbn [of_rows fmap list_fmap store_get]. rewrite decide_False by (apply Hr; left).
  apply IH. intros r Hin. apply Hr. by right.
Qed.

Lemma nodup_apart {A B} `{EqDecision B} (f : A → B) a x b y : NoDup (f <$> a ++ x :: b) → y ∈ a ++ b → f y ≠ f x.
Proof. intros Hn Hy. rewrite <- (filter_out f a b x Hn) in Hy. by apply list_elem_of_filter in Hy as [? _]. Qed.
Lemma nodup_front {A B} (f : A → B) a x b : NoDup (f <$> a ++ x :: b) → NoDup (f <$> x :: a ++ b).
Proof. by rewrite <- Permutation_middle. Qed.
(** One origin is used: its row moves to the front. *)
Lemma rows_use s s' a r r' b : rows_ok s (a ++ r :: b) → r_el r' = r_el r → lru_q s' = moveToFront (lru_q s) (r_el r) →
  (NoDup (r_key <$> r' :: a ++ b)) → row_ok s' r' → Forall (row_ok s') (a ++ b) →
  (∀ k el, lru_m s' !! k = Some el → k = r_key r' ∨ lru_m s !! k = Some el ∧ k ≠ r_key r) → capacity s' = capacity s → rows_ok s' (r' :: a ++ b).
Proof.
  intros Hok Eel Eq Hk Hr' Hab Hm Hcap. split.
  - rewrite Eq, (rows_q _ _ Hok), move_rows by apply (rows_els _ _ Hok). by rewrite !fmap_cons, Eel.
  - rewrite fmap_cons, Eel, <- fmap_cons. apply nodup_front, (rows_els _ _ Hok).
  - done.
  - by constructor.
  - intros k el E. apply Hm in E as [->|[E Hne]]; [exists r'; split; [left|done]|]. destruct (rows_m _ _ Hok k el E) as (q & Hq & <-). exists q. split; [|done].
    right. apply elem_of_app in Hq as [Hq|Hq]; [by apply elem_of_app; left|]. apply elem_of_cons in Hq as [->|Hq]; [done|]. apply elem_of_app. by right.
  - rewrite Hcap. pose proof (rows_cap _ _ Hok) as Hc. unfold len in *. rewrite length_app in Hc. simpl in *. rewrite length_app. lia.
Qed.
Lemma rows_others s s' a r b : rows_ok s (a ++ r :: b) →
  (∀ k, k ≠ r_key r → k ∈ r_key <$> a ++ b → lru_m s' !! k = lru_m s !! k) → (∀ el, el ≠ r_el r → el_values s' !! el = el_values s !! el) →
  singleOriginSize s' = singleOriginSize s → el_next s <= el_next s' → Forall (row_ok s') (a ++ b).
Proof.
  intros Hok Hm Hv Es Hn. apply Forall_forall. intros q Hq.
  assert (row_ok s q) as (E1 & E2 & E3 & E4 & E5).
  { pose proof (rows_row _ _ Hok) as Hr. rewrite Forall_forall in Hr. apply Hr. rewrite elem_of_app in *. destruct Hq; [by left|right; by right]. }
  pose proof (nodup_apart r_el a r b q (rows_els _ _ Hok) Hq). pose proof (nodup_apart r_key a r b q (rows_keys _ _ Hok) Hq).
  unfold row_ok. rewrite Hm, Hv, Es; [|done|done|by apply list_elem_of_fmap_2]. split_and!; try done. lia.
Qed.
Lemma rows_find s rows key el : rows_ok s rows → lru_m s !! key = Some el → ∃ a r b, rows = a ++ r :: b ∧ row_ok s r ∧ r_key r = key ∧ r_el r = el.
Proof.
  intros Hok Em. destruct (rows_m _ _ Hok key el Em) as (r & Hr & Ek). pose proof (rows_row _ _ Hok) as Hrows. rewrite Forall_forall in Hrows.
  pose proof (Hrows r Hr) as Hrok. apply list_elem_of_split in Hr as (a & b & ->). exists a, r, b. split_and!; try done.
  destruct Hrok as (E & _). rewrite Ek in E. congruence.
Qed.
Lemma stack_push_ne n t ts : 0 < n → stack_push (Z.to_nat n) t ts ≠ [].
Proof. intros Hn. unfold stack_push. destruct (Z.to_nat n) eqn:E; [lia|done]. Qed.
Lemma put_known s rows key el t : 0 < singleOriginSize s → rows_ok s rows → lru_m s !! key = Some el →
  ∃ s' rows', Put s key t = Ok s' ∧ rows_ok s' rows' ∧ capacity s' = capacity s ∧ singleOriginSize s' = singleOriginSize s ∧
    of_rows rows' = store_put (capacity s) (Z.to_nat (singleOriginSize s)) (of_rows rows) key t.
Proof.
  intros Hn Hok Em. destruct (rows_find s rows key el Hok Em) as (a & r & b & -> & (E1 & E2 & E3 & E4 & E5) & <- & <-).
  destruct (ring_add _ _ _ t Hn E3) as (c' & Ec & Hc'). set (r' := mkRow (r_el r) (r_key r) c' (stack_push (Z.to_nat (singleOriginSize s)) t (r_stack r))).
  eexists _, (r' :: a ++ b). split; [|split; [|split; [|split]]].
  - unfold Put, el_Value. rewrite Em, E2. cbn [mbind outcome_bind entry_cache]. by rewrite Ec.
  - eapply (rows_use s _ a r r' b); try done.
    + apply (nodup_front r_key a r b), (rows_keys _ _ Hok).
    + split_and!; try done; [apply lookup_insert_eq|by apply stack_push_ne].
    + apply (rows_others s _ a r b); try done. intros el Hel. by apply lookup_insert_ne.
    + intros k el E. simpl in *. destruct (decide (k = r_key r)); auto.
  - done.
  - done.
  - unfold store_put. rewrite (store_get_rows _ r); [|apply (rows_keys _ _ Hok)|apply elem_of_app; right; left].
    rewrite without_rows by apply (rows_keys _ _ Hok). done.
Qed.
Lemma put_new s rows key t : 0 < singleOriginSize s → 0 < capacity s → rows_ok s rows → lru_m s !! key = None →
  ∃ s' rows', Put s key t = Ok s' ∧ rows_ok s' rows' ∧ capacity s' = capacity s ∧ singleOriginSize s' = singleOriginSize s ∧
    of_rows rows' = store_put (capacity s) (Z.to_nat (singleOriginSize s)) (of_rows rows) key t.
Proof.
  intros Hn Hc Hok Em. destruct (ring_new _ Hn) as (c & Ec & Hr). destruct (ring_add _ _ _ t Hn Hr) as (c' & Ec' & Hr').
  assert (stack_push (Z.to_nat (singleOriginSize s)) t [] = [t]) as Est by (unfold stack_push; destruct (Z.to_nat _) eqn:E; [lia|simpl; by rewrite take_nil]).
  assert (∀ r, r ∈ rows → row_ok s r ∧ r_key r ≠ key) as Hrows.
  { intros r Hr0. pose proof (rows_row _ _ Hok) as Hrow. rewrite Forall_forall in Hrow. specialize (Hrow r Hr0). split; [done|]. intros <-.
    destruct Hrow as [E _]. congruence. }
  assert (len (lru_q s) = len rows) as El by (rewrite (rows_q _ _ Hok); unfold len; by rewrite length_fmap).
  assert (len (of_rows rows) = len rows) as Eo by (unfold of_rows, len; by rewrite length_fmap).
  unfold Put, store_put. rewrite Em, El, Eo, store_get_none by (intros r Hr0; by apply Hrows). rewrite Ec. cbn [mbind outcome_bind]. rewrite Ec'. cbn [mbind outcome_bind].
  destruct (Z.ltb_spec (len rows) (capacity s)) as [Hlt|Hge].
  - eexists _, (mkRow (el_next s) key c' [t] :: rows). split; [reflexivity|]. split; [|done]. split; simpl.
    + by rewrite (rows_q _ _ Hok).
    + apply NoDup_cons. split; [|apply (rows_els _ _ Hok)]. intros Hin. apply list_elem_of_fmap in Hin as (r & E & Hin).
      destruct (Hrows r Hin) as [(_ & _ & _ & _ & Hlt') _]. lia.
    + apply NoDup_cons. split; [|apply (rows_keys _ _ Hok)]. intros Hin. apply list_elem_of_fmap in Hin as (r & E & Hin). by apply (Hrows r Hin).
    + constructor; [|apply Forall_forall; intros r Hin; destruct (Hrows r Hin) as [(E1 & E2 & E3 & E4 & E5) Hne]].
      * split_and!; simpl; [apply lookup_insert_eq|apply lookup_insert_eq|by rewrite <- Est|done|lia].
      * split_and!; simpl; try done; [by rewrite lookup_insert_ne|rewrite lookup_insert_ne; [done|lia]|lia].
    + intros k el E. destruct (decide (k = key)) as [->|Hne]; [eexists; split; [left|done]|]. rewrite lookup_insert_ne in E by done.
      destruct (rows_m _ _ Hok k el E) as (r & Hin & <-). exists r. split; [by right|done].
    + rewrite len_cons. lia.
  - pose proof (rows_cap _ _ Hok) as Hcap. assert (∃ a r, rows = a ++ [r]) as (a & r & ->).
    { destruct rows as [|r0 rows0] using rev_ind; [rewrite len_nil in Hge; lia|by eauto]. }
    destruct (Hrows r) as [(E1 & E2 & E3 & E4 & E5) Hne]; [apply elem_of_app; right; left|].
    assert (last (lru_q s) = Some (r_el r)) as Elast by (rewrite (rows_q _ _ Hok), fmap_app; apply last_snoc).
    unfold el_Value. rewrite Elast, E2. cbn [mbind outcome_bind entry_key]. set (r' := mkRow (r_el r) key c' [t]).
    eexists _, (r' :: a ++ []). split; [reflexivity|]. split; [|split; [done|split; [done|]]].
    + eapply (rows_use s _ a r r' []); try done.
      * rewrite app_nil_r, fmap_cons. apply NoDup_cons. pose proof (rows_keys _ _ Hok) as Hk. rewrite fmap_app in Hk. apply NoDup_app in Hk as (Hk & _).
        split; [|done]. intros Hin. apply list_elem_of_fmap in Hin as (q & E & Hin). destruct (Hrows q) as [_ Hq]; [by apply elem_of_app; left|]. by apply Hq.
      * split_and!; simpl; [apply lookup_insert_eq|apply lookup_insert_eq|by rewrite <- Est|done|done].
      * apply (rows_others s _ a r []); try done.
        -- intros k Hk Hin. simpl. rewrite app_nil_r in Hin. apply list_elem_of_fmap in Hin as (q & -> & Hin).
           destruct (Hrows q) as [_ Hq]; [by apply elem_of_app; left|]. rewrite lookup_insert_ne, lookup_delete_ne by done. done.
        -- intros el Hel. by apply lookup_insert_ne.
      * intros k el E. simpl in E. destruct (decide (k = key)) as [->|Hk]; [by left|right]. rewrite lookup_insert_ne in E by done.
        apply lookup_delete_Some in E as [Hk' E]. done.
    + rewrite app_nil_r. unfold of_rows. rewrite length_fmap, length_app. cbn [length]. rewrite Nat.add_sub, fmap_app.
      rewrite <- (length_fmap (λ q, (r_key q, r_stack q)) a) at 1. by rewrite take_app_length.
Qed.
Lemma pop_known s rows key el : 0 < singleOriginSize s → rows_ok s rows → lru_m s !! key = Some el →
  ∃ s' rows', Pop s key = Ok (s', (store_pop (of_rows rows) key).2) ∧ rows_ok s' rows' ∧ capacity s' = capacity s ∧ singleOriginSize s' = singleOriginSize s ∧
    of_rows rows' = (store_pop (of_rows rows) key).1.
Proof.
  intros Hn Hok Em. destruct (rows_find s rows key el Hok Em) as (a & r & b & -> & (E1 & E2 & E3 & E4 & E5) & <- & <-).
  unfold store_pop. rewrite (store_get_rows _ r); [|apply (rows_keys _ _ Hok)|apply elem_of_app; right; left].
  rewrite without_rows by apply (rows_keys _ _ Hok). destruct (r_stack r) as [|t ts] eqn:Es; [done|].
  destruct (ring_pop _ _ t ts Hn E3) as (c' & Ec & Hc'). cbn [tail head fst snd].
  unfold Pop, el_Value. rewrite Em, E2. cbn [mbind outcome_bind entry_cache entry_key]. rewrite Ec. cbn [mbind outcome_bind].
  assert (ring_Len c' = len ts) as -> by apply Hc'. destruct ts as [|t' ts].
  - rewrite len_nil. cbn [Z.eqb]. eexists _, (a ++ b). split; [reflexivity|]. split; [|done].
    pose proof (rows_els _ _ Hok) as Hels. pose proof (rows_keys _ _ Hok) as Hkeys. split; simpl.
    + unfold moveToFront. rewrite filter_cons_False by naive_solver. rewrite (rows_q _ _ Hok), <- (filter_out r_el a b r Hels).
      rewrite (filter_fmap r_el (λ x, x ≠ r_el r)), (filter_fmap r_el (λ x, x ≠ r_el r)). f_equal. apply filter_id. intros q Hq. by apply list_elem_of_filter in Hq as [? _].
    + by apply nodup_front, NoDup_cons in Hels as [_ ?].
    + by apply nodup_front, NoDup_cons in Hkeys as [_ ?].
    + apply (rows_others s _ a r b); try done.
      * intros k Hk _. simpl. by apply lookup_delete_ne.
      * intros el Hel. simpl. by rewrite lookup_delete_ne, lookup_insert_ne.
    + intros k el E. apply lookup_delete_Some in E as [Hk E]. destruct (rows_m _ _ Hok k el E) as (q & Hq & <-). exists q. split; [|done].
      rewrite elem_of_app, elem_of_cons in *. destruct Hq as [?|[->|?]]; [by left|done|by right].
    + pose proof (rows_cap _ _ Hok) as Hcap. unfold len in *. rewrite length_app in *. simpl in Hcap. lia.
  - rewrite (proj2 (Z.eqb_neq (len (t' :: ts)) 0)) by (rewrite len_cons; pose proof (len_nonneg ts); lia).
    set (r' := mkRow (r_el r) (r_key r) c' (t' :: ts)). eexists _, (r' :: a ++ b). split; [reflexivity|]. split; [|done].
    eapply (rows_use s _ a r r' b); try done.
    + apply (nodup_front r_key a r b), (rows_keys _ _ Hok).
    + split_and!; try done. apply lookup_insert_eq.
    + apply (rows_others s _ a r b); try done. intros el Hel. by apply lookup_insert_ne.
    + intros k el E. simpl in *. destruct (decide (k = r_key r)); auto.
Qed.

(** ** Sequences of operations *)

Inductive store_op := OpPut (key : string) (token : ClientToken) | OpPop (key : string).
(** The tokens that were handed out. *)
Fixpoint store_run (s : lruTokenStore) (ops : list store_op) : outcome (lruTokenStore * list (option ClientToken)) :=
  match ops with
  | [] => Ok (s, [])
  | OpPut key t :: ops => s ← Put s key t; store_run s ops
  | OpPop key :: ops => '(s, t) ← Pop s key; '(s, l) ← store_run s ops; Ok (s, t :: l)
  end.
Fixpoint spec_run (cap : Z) (n : nat) (l : store) (ops : list store_op) : store * list (option ClientToken) :=
  match ops with
  | [] => (l, [])
  | OpPut key t :: ops => spec_run cap n (store_put cap n l key t) ops
  | OpPop key :: ops => let '(l, t) := store_pop l key in let '(l, ts) := spec_run cap n l ops in (l, t :: ts)
  end.
Lemma store_run_rows s rows ops : 0 < capacity s → 0 < singleOriginSize s → rows_ok s rows →
  ∃ s' rows', store_run s ops = Ok (s', (spec_run (capacity s) (Z.to_nat (singleOriginSize s)) (of_rows rows) ops).2) ∧
    rows_ok s' rows' ∧ capacity s' = capacity s ∧ of_rows rows' = (spec_run (capacity s) (Z.to_nat (singleOriginSize s)) (of_rows rows) ops).1.
Proof.
  revert s rows. induction ops as [|[key t|key] ops IH]; intros s rows Hc Hn Hok; cbn [store_run spec_run].
  - by eexists _, _.
  - assert (∃ s' rows', Put s key t = Ok s' ∧ rows_ok s' rows' ∧ capacity s' = capacity s ∧ singleOriginSize s' = singleOriginSize s ∧
      of_rows rows' = store_put (capacity s) (Z.to_nat (singleOriginSize s)) (of_rows rows) key t) as (s1 & rows1 & E1 & Hok1 & Ec & En & Er).
    { destruct (lru_m s !! key) as [el|] eqn:Em; [by eapply put_known|by apply put_new]. }
    rewrite E1. cbn [mbind outcome_bind]. rewrite <- Er, <- Ec, <- En. apply IH; [by rewrite Ec|by rewrite En|done].
  - assert (∃ s' rows', Pop s key = Ok (s', (store_pop (of_rows rows) key).2) ∧ rows_ok s' rows' ∧ capacity s' = capacity s ∧ singleOriginSize s' = singleOriginSize s ∧
      of_rows rows' = (store_pop (of_rows rows) key).1) as (s1 & rows1 & E1 & Hok1 & Ec & En & Er).
    { destruct (lru_m s !! key) as [el|] eqn:Em; [by eapply pop_known|]. exists s, rows. unfold Pop, store_pop. rewrite Em.
      rewrite store_get_none; [done|]. intros r Hr <-. pose proof (rows_row _ _ Hok) as Hrow. rewrite Forall_forall in Hrow.
      destruct (Hrow r Hr) as [E _]. congruence. }
    destruct (store_pop (of_rows rows) key) as [l' t] eqn:Ep. cbn [fst snd] in *. subst l'.
    rewrite E1. cbn [mbind outcome_bind]. destruct (IH s1 rows1) as (s2 & rows2 & E2 & Hok2 & Ec2 & Er2); [by rewrite Ec|by rewrite En|done|].
    rewrite E2. cbn [mbind outcome_bind]. rewrite Ec, En in *. destruct (spec_run _ _ (of_rows rows1) ops) as [l2 ts]. by exists s2, rows2.
Qed.

(** C19: The token store implements a list of stacks.  With room for an origin and for
    a token, any sequence of operations never panics, although elements of the linked
    list are used again for other origins, and hands out exactly the tokens of the
    reference: the newest token of the origin that is still there, where an origin
    keeps its latest tokens and the store the origins used last. *)
Theorem token_store_refines maxOrigins tokensPerOrigin ops : 0 < maxOrigins → 0 < tokensPerOrigin →
  ∃ s, store_run (NewLRUTokenStore maxOrigins tokensPerOrigin) ops = Ok (s, (spec_run maxOrigins (Z.to_nat tokensPerOrigin) [] ops).2) ∧
    len (lru_q s) <= maxOrigins ∧ len (lru_q s) = len (spec_run maxOrigins (Z.to_nat tokensPerOrigin) [] ops).1.
Proof.
  intros Hc Hn. destruct (store_run_rows (NewLRUTokenStore maxOrigins tokensPerOrigin) [] ops Hc Hn) as (s & rows & E & Hok & Ecap & Er).
  { split; simpl; [done|constructor|constructor|constructor|intros k el; by rewrite lookup_empty|rewrite len_nil; lia]. }
  exists s. split; [exact E|]. cbn [capacity singleOriginSize NewLRUTokenStore] in Er, Ecap. change (of_rows []) with ([] : store) in Er.
  pose proof (rows_cap _ _ Hok) as Hcap. rewrite Ecap in Hcap.
  rewrite <- Er, (rows_q _ _ Hok). unfold of_rows, len in *. rewrite !length_fmap. done.
Qed.
Definition sample_ops : list store_op :=
  [OpPut "a" [1]; OpPut "a" [2]; OpPut "a" [3]; OpPut "b" [4]; OpPop "a"; OpPut "c" [5]; OpPop "b"; OpPop "a"; OpPop "a"; OpPop "c"]%string.
Lemma token_store_refines_witness : ∃ s, store_run (NewLRUTokenStore 2 2) sample_ops = Ok (s, [Some [3]; None; Some [2]; None; Some [5]]) ∧ len (lru_q s) <= 2.
Proof.
  destruct (token_store_refines 2 2 sample_ops) as (s & E & Hl & _); [lia|lia|]. exists s. split; [exact E|exact Hl].
Defined.
