(* ===== verification/Tokens.v ===== *)
(** Tokens: core/handshake/token_generator.go and token_protector.go, the address
    validation tokens of a server, with the part of encoding/asn1 and net they use,
    and the acceptance of tokens by server.go. *)

From S2P Require Import Prelude Utils Protocol.

(** * Addresses *)

(** Go strings are the bytes they hold. *)
Definition codes (s : string) : list Z := (λ c, Z.of_N (Ascii.N_of_ascii c)) <$> String.list_ascii_of_string s.
Inductive net_Addr := UDPAddr (ip : list Z) (port : Z) | OtherAddr (str : list Z).
#[export] Instance net_Addr_eq_dec : EqDecision net_Addr.
Proof. solve_decision. Defined.

(** [net.IP.String] *)
Definition hex_digit (d : Z) : Z := if d <? 10 then 48 + d else 87 + d.
Fixpoint decimal (fuel : nat) (n : Z) : list Z :=
  match fuel with O => [] | S fuel => if n <? 10 then [48 + n] else decimal fuel (n / 10) ++ [48 + n mod 10] end.
(** A 16 bit field, without leading zeros. *)
Fixpoint hex_field (fuel : nat) (n : Z) : list Z :=
  match fuel with O => [] | S fuel => if n <? 16 then [hex_digit n] else hex_field fuel (n / 16) ++ [hex_digit (n mod 16)] end.
Definition To4 (ip : list Z) : option (list Z) :=
  if len ip =? 4 then Some ip
  else if (len ip =? 16) && bool_decide (take 12 ip = replicate 10 0 ++ [255; 255]) then Some (drop 12 ip)
  else None.
Fixpoint dotted (ip : list Z) : list Z :=
  match ip with [] => [] | [b] => decimal 3 b | b :: ip => decimal 3 b ++ [46] ++ dotted ip end.
Fixpoint fields (ip : list Z) : list Z :=
  match ip with a :: b :: ip => (a * 256 + b) :: fields ip | _ => [] end.
(** The number of zeros in front. *)
Fixpoint zeros (l : list Z) : Z := match l with 0 :: l => 1 + zeros l | _ => 0 end.
(** The first longest run of zero fields, as the fields it starts and ends at. *)
Fixpoint longest_run (fuel : nat) (l : list Z) (i e0 e1 : Z) : Z * Z :=
  match fuel, l with
  | O, _ | _, [] => (e0, e1)
  | S fuel, _ :: l' =>
      let n := zeros l in
      if (0 <? n) && (e1 - e0 <? n) then longest_run fuel (drop (Z.to_nat (n + 1)) l) (i + n + 1) i (i + n)
      else longest_run fuel l' (i + 1) e0 e1
  end.
Fixpoint print_fields (fuel : nat) (l : list Z) (i e0 e1 : Z) : list Z :=
  match fuel, l with
  | O, _ | _, [] => []
  | S fuel, f :: l' =>
      if i =? e0 then
        match drop (Z.to_nat (e1 - e0)) l with
        | [] => [58; 58]
        | f :: l' => [58; 58] ++ hex_field 4 f ++ print_fields fuel l' (e1 + 1) e0 e1
        end
      else (if 0 <? i then [58] else []) ++ hex_field 4 f ++ print_fields fuel l' (i + 1) e0 e1
  end.
Definition IP_String (ip : list Z) : list Z :=
  if len ip =? 0 then codes "<nil>" else
  match To4 ip with
  | Some p4 => dotted p4
  | None =>
      if negb (len ip =? 16) then 63 :: concat ((λ b, [hex_digit (b / 16); hex_digit (b mod 16)]) <$> ip)
      else
        let l := fields ip in
        let '(e0, e1) := longest_run 9 l 0 (-1) (-1) in
        let '(e0, e1) := if e1 - e0 <=? 1 then (-1, -1) else (e0, e1) in
        print_fields 9 l 0 e0 e1
  end.
Example ip4 : IP_String [127; 0; 0; 1] = codes "127.0.0.1".
Proof. reflexivity. Qed.
Example ip6 : IP_String [0x20; 1; 0xd; 0xb8; 0; 0; 0; 0; 0; 0; 0; 0; 0; 0; 0; 1] = codes "2001:db8::1".
Proof. reflexivity. Qed.
Example ip6_mapped : IP_String ([0; 0; 0; 0; 0; 0; 0; 0; 0; 0; 255; 255; 192; 168; 1; 20]) = codes "192.168.1.20".
Proof. reflexivity. Qed.
Example ip6_zero : IP_String (replicate 16 0) = codes "::".
Proof. reflexivity. Qed.
Example ip6_one_field : IP_String [0xfe; 0x80; 0; 0; 0; 1; 0; 2; 0; 3; 0; 4; 0; 5; 0; 6] = codes "fe80:0:1:2:3:4:5:6".
Proof. reflexivity. Qed.

(** * encoding/asn1 *)

(** The encoding of a [token]: a SEQUENCE of a BOOLEAN, an OCTET STRING, an INTEGER
    and an OCTET STRING. *)
Record token := mkASN { asn_IsRetryToken : bool; asn_RemoteAddr : list Z; asn_Timestamp : Z; asn_OriginalDestConnectionID : list Z }.
Fixpoint be_bytes (k : nat) (n : Z) : list Z := match k with O => [] | S k => u8 (Z.shiftr n (8 * Z.of_nat k)) :: be_bytes k n end.
Fixpoint lengthLength (fuel : nat) (n : Z) : nat := match fuel with O => 1 | S fuel => if 255 <? n then S (lengthLength fuel (Z.shiftr n 8)) else 1 end.
Definition der_length (n : Z) : list Z :=
  if 128 <=? n then Z.lor 0x80 (Z.of_nat (lengthLength 8 n)) :: be_bytes (lengthLength 8 n) n else [n].
Definition der (tag : Z) (l : list Z) : list Z := tag :: der_length (len l) ++ l.
Fixpoint int_over (fuel : nat) (i : Z) : nat := match fuel with O => 0 | S fuel => if 127 <? i then S (int_over fuel (Z.shiftr i 8)) else 0 end.
Fixpoint int_under (fuel : nat) (i : Z) : nat := match fuel with O => 0 | S fuel => if i <? -128 then S (int_under fuel (Z.shiftr i 8)) else 0 end.
Definition int64Length (i : Z) : nat := 1 + int_over 8 i + int_under 8 i.
Definition asn1_Marshal (t : token) : list Z :=
  der 0x30 (der 0x01 [if asn_IsRetryToken t then 0xff else 0] ++ der 0x04 (asn_RemoteAddr t)
            ++ der 0x02 (be_bytes (int64Length (asn_Timestamp t)) (asn_Timestamp t)) ++ der 0x04 (asn_OriginalDestConnectionID t)).

(** Why it fails does not matter. *)
Definition asn1_error : goerr := Errorf "asn1: syntax error" [].
Fixpoint length_bytes (k : nat) (acc : Z) : parser Z :=
  match k with
  | O => mret acc
  | S k => b ← ReadByte; if 2 ^ 23 <=? acc then fail asn1_error else let l := acc * 256 + b in if l =? 0 then fail asn1_error else length_bytes k l
  end.
Definition parseTagAndLength : parser (Z * Z) :=
  tag ← ReadByte;
  if Z.land tag 0x1f =? 0x1f then fail asn1_error else
  b ← ReadByte;
  if Z.land b 0x80 =? 0 then mret (tag, Z.land b 0x7f)
  else
    let numBytes := Z.land b 0x7f in
    if numBytes =? 0 then fail asn1_error
    else l ← length_bytes (Z.to_nat numBytes) 0; if l <? 0x80 then fail asn1_error else mret (tag, l).
Definition parse_element (expected : Z) : parser (list Z) :=
  '(tag, l) ← parseTagAndLength;
  if negb (tag =? expected) then fail asn1_error else
  n ← ReaderLen;
  if n <? l then fail asn1_error else ReadFull l.
Definition parseBool (b : list Z) : parser bool :=
  match b with [0] => mret false | [255] => mret true | _ => fail asn1_error end.
Definition be_value (l : list Z) : Z := fold_left (λ a b, a * 256 + b) l 0.
Definition parseInt64 (b : list Z) : parser Z :=
  let n := len b in
  if n =? 0 then fail asn1_error
  else if match b with
          | b0 :: b1 :: _ => ((b0 =? 0) && (Z.land b1 0x80 =? 0)) || ((b0 =? 0xff) && (Z.land b1 0x80 =? 0x80))
          | _ => false
          end then fail asn1_error
  else if 8 <? n then fail asn1_error
  else let v := be_value b in mret (if v <? 2 ^ (8 * n - 1) then v else v - 2 ^ (8 * n)).
(** Bytes behind the last field of a sequence are ignored. *)
Definition parse_fields : parser token :=
  retry ← parse_element 0x01; retry ← parseBool retry;
  addr ← parse_element 0x04;
  ts ← parse_element 0x02; ts ← parseInt64 ts;
  orig ← parse_element 0x04;
  mret (mkASN retry addr ts orig).
Definition asn1_Unmarshal (data : list Z) : outcome (token * list Z) :=
  match parse_element 0x30 data with
  | Ok (inner, rest) => match parse_fields inner with Ok (t, _) => Ok (t, rest) | Err e => Err e | Panic m => Panic m end
  | Err e => Err e
  | Panic m => Panic m
  end.

(** * token_protector.go *)

Definition tokenSecretSize : Z := 32.
Definition tokenNonceSize : Z := 32.
(** HKDF with SHA-256, of a secret, a salt and an info string, read up to a number of
    bytes; and AES-GCM with a key and a nonce. *)
Class TokenCrypto := {
  hkdf_read : list Z → list Z → list Z → Z → list Z;
  gcm_Seal : list Z → list Z → list Z → list Z;
  gcm_Open : list Z → list Z → list Z → option (list Z) }.
Section Tokens.
Context `{TokenCrypto}.
(** The AEAD, as its key, and its nonce. *)
Definition token_createAEAD (secret nonce : list Z) : list Z * list Z :=
  let h := hkdf_read secret nonce (codes "quic-go token source") 44 in (take 32 h, drop 32 h).
(** [nonce] is what the random number generator returns. *)
Definition protector_NewToken (secret : list Z) (nonce : list Z + goerr) (data : list Z) : list Z + goerr :=
  match nonce with
  | inr e => inr e
  | inl nonce => let '(key, aeadNonce) := token_createAEAD secret nonce in inl (nonce ++ gcm_Seal key aeadNonce data)
  end.
Definition protector_DecodeToken (secret p : list Z) : list Z + goerr :=
  if len p <? tokenNonceSize then inr (Errorf "token too short: %d" [len p]) else
  let nonce := take (Z.to_nat tokenNonceSize) p in
  let '(key, aeadNonce) := token_createAEAD secret nonce in
  match gcm_Open key aeadNonce (drop (Z.to_nat tokenNonceSize) p) with
  | Some data => inl data
  | None => inr (Errorf "cipher: message authentication failed" [])
  end.

(** * token_generator.go *)

Definition tokenPrefixIP : Z := 0.
Definition tokenPrefixString : Z := 1.
Record handshake_Token := mkToken { IsRetryToken : bool; RemoteAddr : list Z; SentTime : Z; tok_OriginalDestConnectionID : list Z }.
(** The secret of the token protector. *)
Definition TokenGenerator := list Z.
Definition NewTokenGenerator (secret : list Z + goerr) : TokenGenerator + goerr := secret.
Definition encodeRemoteAddr (a : net_Addr) : list Z :=
  match a with UDPAddr ip _ => tokenPrefixIP :: ip | OtherAddr s => tokenPrefixString :: s end.
Definition decodeRemoteAddr (data : list Z) : list Z :=
  match data with [] => [] | b :: l => if b =? tokenPrefixIP then IP_String l else l end.
Definition NewRetryToken (g : TokenGenerator) (now : Z) (nonce : list Z + goerr) (raddr : net_Addr) (origConnID : list Z) : list Z + goerr :=
  protector_NewToken g nonce (asn1_Marshal (mkASN true (encodeRemoteAddr raddr) now origConnID)).
Definition NewToken (g : TokenGenerator) (now : Z) (nonce : list Z + goerr) (raddr : net_Addr) : list Z + goerr :=
  protector_NewToken g nonce (asn1_Marshal (mkASN false (encodeRemoteAddr raddr) now [])).
(** [None] is the nil token. *)
Definition DecodeToken (g : TokenGenerator) (encrypted : list Z) : outcome (option handshake_Token) :=
  if len encrypted =? 0 then Ok None else
  match protector_DecodeToken g encrypted with
  | inr e => Err e
  | inl data =>
      '(t, rest) ← asn1_Unmarshal data;
      if negb (len rest =? 0) then Err (Errorf "rest when unpacking token: %d" [len rest]) else
      Ok (Some (mkToken (asn_IsRetryToken t) (decodeRemoteAddr (asn_RemoteAddr t)) (asn_Timestamp t) (asn_OriginalDestConnectionID t)))
  end.
End Tokens.

(** * Acceptance *)

Definition TokenValidity : Z := 24 * 3600 * 1000000000.
Definition RetryTokenValidity : Z := 10 * 1000000000.
(** interface.go says that a token of a Retry is accepted if it was issued within the
    last 5 seconds. *)
Definition promisedRetryTokenValidity : Z := 5 * 1000000000.
Definition source_address (a : net_Addr) : list Z := match a with UDPAddr ip _ => IP_String ip | OtherAddr s => s end.
Definition defaultAcceptToken (now : Z) (clientAddr : net_Addr) (t : option handshake_Token) : bool :=
  match t with
  | None => false
  | Some t =>
      let validity := if IsRetryToken t then RetryTokenValidity else TokenValidity in
      if SentTime t + validity <? now then false else bool_decide (source_address clientAddr = RemoteAddr t)
  end.

(** * Round trips *)

(** A check of all bytes. *)
Lemma all_bytes (P : Z → bool) : forallb P (seqZ 0 256) = true → ∀ b, byte_ok b → P b = true.
Proof. intros Hall b Hb. rewrite forallb_forall in Hall. apply Hall. apply list_elem_of_In, elem_of_seqZ. unfold byte_ok in Hb. lia. Qed.
Lemma be_value_acc k n a : 0 <= n → fold_left (λ a b, a * 256 + b) (be_bytes k n) a = a * 256 ^ Z.of_nat k + n mod 256 ^ Z.of_nat k.
Proof.
  intros Hn. revert a. induction k as [|k IH]; intros a; cbn [be_bytes fold_left].
  - rewrite Z.pow_0_r, Z.mod_1_r. lia.
  - rewrite IH, Nat2Z.inj_succ, Z.pow_succ_r by lia. unfold u8. rewrite Z.shiftr_div_pow2 by lia.
    replace (2 ^ (8 * Z.of_nat k)) with (256 ^ Z.of_nat k) by (rewrite Z.pow_mul_r by lia; done).
    assert (0 < 256 ^ Z.of_nat k) as Hp by (apply Z.pow_pos_nonneg; lia). rewrite (Z.mul_comm 256), (Z.rem_mul_r n (256 ^ Z.of_nat k) 256) by lia.
    change (2 ^ 8) with 256. nia.
Qed.
Lemma be_value_bytes k n : 0 <= n < 256 ^ Z.of_nat k → be_value (be_bytes k n) = n.
Proof. intros Hn. unfold be_value. rewrite be_value_acc by lia. rewrite Z.mod_small by lia. lia. Qed.
Lemma len_be_bytes k n : len (be_bytes k n) = Z.of_nat k.
Proof. induction k as [|k IH]; [done|]. cbn [be_bytes]. rewrite len_cons, IH. lia. Qed.
Lemma be_bytes_ok k n : bytes_ok (be_bytes k n).
Proof. induction k as [|k IH]; cbn [be_bytes]; constructor; [apply u8_range|done]. Qed.

Lemma small_byte n : 0 <= n < 128 → Z.land n 0x80 = 0 ∧ Z.land n 0x7f = n.
Proof.
  intros Hn. pose proof (all_bytes (λ b, (128 <=? b) || (Z.land b 0x80 =? 0) && (Z.land b 0x7f =? b)) eq_refl n) as E.
  specialize (E ltac:(unfold byte_ok; lia)). cbv beta in E. rewrite (proj2 (Z.leb_gt 128 n)) in E by lia. cbn [orb] in E. apply andb_true_iff in E as [E1 E2].
  by rewrite Z.eqb_eq in E1, E2.
Qed.
Lemma reads_length_step k acc b s v : acc < 2 ^ 23 → acc * 256 + b ≠ 0 → reads (length_bytes k (acc * 256 + b)) s v → reads (length_bytes (S k) acc) (b :: s) v.
Proof.
  intros Hacc Hne Hr. cbn [length_bytes]. apply (reads_bind _ _ [b] s b); [apply reads_ReadByte|].
  rewrite (proj2 (Z.leb_gt (2 ^ 23) acc)) by lia. cbv zeta. by rewrite (proj2 (Z.eqb_neq (acc * 256 + b) 0)) by lia.
Qed.
Lemma reads_header tag n : (Z.land tag 0x1f =? 0x1f) = false → 0 <= n < 2 ^ 16 → reads parseTagAndLength (tag :: der_length n) (tag, n).
Proof.
  intros Ht Hn. unfold parseTagAndLength, der_length. apply (reads_bind _ _ [tag] _ tag); [apply reads_ReadByte|]. rewrite Ht.
  destruct (Z.leb_spec 128 n) as [H1|H1].
  - assert (lengthLength 8 n = 1%nat ∧ n < 256 ∨ lengthLength 8 n = 2%nat ∧ 256 <= n) as [[E Hs]|[E Hs]].
    { cbn [lengthLength]. destruct (Z.ltb_spec 255 n); [right|left; split; [done|lia]]. split; [|lia]. rewrite Z.shiftr_div_pow2 by lia.
      rewrite (proj2 (Z.ltb_ge 255 (n / 2 ^ 8))) by (assert (n / 2 ^ 8 < 256) by (apply Z.div_lt_upper_bound; lia); lia). done. }
    all: rewrite E; cbn [be_bytes Z.of_nat Z.mul Pos.of_succ_nat Pos.succ Pos.mul]; rewrite Z.shiftr_0_r.
    + apply (reads_bind _ _ [Z.lor 128 1] _ (Z.lor 128 1)); [apply reads_ReadByte|].
      change (Z.land (Z.lor 128 1) 128 =? 0) with false. change (Z.land (Z.lor 128 1) 127) with 1. cbn [Z.eqb Z.to_nat Pos.to_nat Pos.iter_op].
      rewrite u8_small by lia. apply (reads_map _ _ _ n); [apply reads_length_step; [lia|lia|]; apply reads_ret|].
      rewrite (proj2 (Z.ltb_ge n 128)) by lia. apply reads_ret.
    + apply (reads_bind _ _ [Z.lor 128 2] _ (Z.lor 128 2)); [apply reads_ReadByte|].
      change (Z.land (Z.lor 128 2) 128 =? 0) with false. change (Z.land (Z.lor 128 2) 127) with 2. cbn [Z.eqb Z.to_nat Pos.to_nat Pos.iter_op Nat.add].
      rewrite Z.shiftr_div_pow2 by lia. change (2 ^ 8) with 256. unfold u8. change (2 ^ 8) with 256.
      pose proof (Z.div_mod n 256 ltac:(lia)) as Hd. pose proof (Z.mod_pos_bound n 256 ltac:(lia)) as Hm.
      assert (0 < n / 256 < 256) as Hq by (split; [apply Z.div_str_pos; lia|apply Z.div_lt_upper_bound; lia]).
      rewrite (Z.mod_small (n / 256)) by lia. apply (reads_map _ _ _ n).
      * apply reads_length_step; [lia|lia|]. apply reads_length_step; [lia|lia|]. replace ((0 * 256 + n / 256) * 256 + n mod 256) with n by lia. apply reads_ret.
      * rewrite (proj2 (Z.ltb_ge n 128)) by lia. apply reads_ret.
  - destruct (small_byte n) as [E1 E2]; [lia|]. apply (reads_map _ _ [n] n); [apply reads_ReadByte|]. rewrite E1, E2. apply reads_ret.
Qed.
Lemma reads_element tag l : (Z.land tag 0x1f =? 0x1f) = false → len l < 2 ^ 16 → reads (parse_element tag) (der tag l) l.
Proof.
  intros Ht Hl. pose proof (len_nonneg l). unfold parse_element, der. rewrite app_comm_cons.
  eapply reads_bind; [apply reads_header; [done|lia]|]. cbn [fst snd]. rewrite Z.eqb_refl. cbn [negb].
  intros rest. unfold mbind, parser_bind, ReaderLen. rewrite len_app. pose proof (len_nonneg rest).
  rewrite (proj2 (Z.ltb_ge (len l + len rest) (len l))) by lia. apply reads_ReadFull.
Qed.

(** Integers have no superfluous bytes. *)
Lemma int_over_spec fuel i : 0 <= i < 2 ^ (8 * Z.of_nat fuel + 7) →
  i < 2 ^ (8 * Z.of_nat (int_over fuel i) + 7) ∧ (int_over fuel i ≤ fuel)%nat ∧ (int_over fuel i = 0%nat ∨ 2 ^ (8 * Z.of_nat (int_over fuel i) - 1) <= i).
Proof.
  revert i. induction fuel as [|fuel IH]; intros i Hi; cbn [int_over].
  - split; [apply Hi|]. split; [lia|by left].
  - destruct (Z.ltb_spec 127 i) as [H1|H1]; [|split; [change (2 ^ (8 * Z.of_nat 0 + 7)) with 128; lia|split; [lia|by left]]].
    rewrite Z.shiftr_div_pow2 by lia. change (2 ^ 8) with 256.
    assert (0 <= i / 256 < 2 ^ (8 * Z.of_nat fuel + 7)) as Hq.
    { split; [apply Z.div_pos; lia|]. apply Z.div_lt_upper_bound; [lia|]. rewrite Nat2Z.inj_succ in Hi.
      replace (8 * Z.succ (Z.of_nat fuel) + 7) with (8 + (8 * Z.of_nat fuel + 7)) in Hi by lia. rewrite Z.pow_add_r in Hi by lia. lia. }
    destruct (IH _ Hq) as (E1 & E2 & E3). set (k := int_over fuel (i / 256)) in *. rewrite Nat2Z.inj_succ.
    pose proof (Z.div_mod i 256 ltac:(lia)) as Hd. pose proof (Z.mod_pos_bound i 256 ltac:(lia)) as Hm. split; [|split; [lia|right]].
    + replace (8 * Z.succ (Z.of_nat k) + 7) with (8 + (8 * Z.of_nat k + 7)) by lia. rewrite Z.pow_add_r by lia. change (2 ^ 8) with 256. lia.
    + destruct E3 as [->|E3]; [change (2 ^ (8 * Z.succ (Z.of_nat 0) - 1)) with 128; lia|].
      destruct (decide (k = 0%nat)) as [->|Hk]; [change (2 ^ (8 * Z.succ (Z.of_nat 0) - 1)) with 128; lia|].
      replace (8 * Z.succ (Z.of_nat k) - 1) with (8 + (8 * Z.of_nat k - 1)) by lia. rewrite Z.pow_add_r by lia. change (2 ^ 8) with 256. lia.
Qed.
Lemma int_under_nonneg fuel i : 0 <= i → int_under fuel i = 0%nat.
Proof. intros Hi. destruct fuel; [done|]. cbn [int_under]. by rewrite (proj2 (Z.ltb_ge i (-128))) by lia. Qed.
Lemma second_byte b : byte_ok b → 128 <= b → (Z.land b 0x80 =? 0) = false.
Proof.
  intros Hb Hge. pose proof (all_bytes (λ b, (b <? 128) || negb (Z.land b 0x80 =? 0)) eq_refl b Hb) as E. cbv beta in E.
  rewrite (proj2 (Z.ltb_ge b 128)) in E by lia. by apply negb_true_iff in E.
Qed.
Lemma reads_int64 i : 0 <= i < 2 ^ 63 → reads (parseInt64 (be_bytes (int64Length i) i)) [] i.
Proof.
  intros Hi. unfold int64Length. rewrite int_under_nonneg, Nat.add_0_r by lia. destruct (int_over_spec 8 i) as (E1 & _ & E3).
  { split; [lia|]. apply (Z.lt_trans _ (2 ^ 63)); [lia|]. apply Z.pow_lt_mono_r; lia. }
  set (k := int_over 8 i) in *. clearbody k. assert (k ≤ 7)%nat as Hk.
  { destruct E3 as [->|E3]; [lia|]. destruct (decide (k ≤ 7)%nat); [done|]. exfalso. assert (2 ^ 63 <= 2 ^ (8 * Z.of_nat k - 1)) by (apply Z.pow_le_mono_r; lia). lia. }
  intros rest. cbn [app]. unfold parseInt64. rewrite len_be_bytes. rewrite Nat2Z.inj_add. change (Z.of_nat 1) with 1.
  rewrite (proj2 (Z.eqb_neq (1 + Z.of_nat k) 0)) by lia. rewrite (proj2 (Z.ltb_ge 8 (1 + Z.of_nat k))) by lia.
  rewrite be_value_bytes.
  2: { split; [lia|]. apply (Z.lt_le_trans _ _ _ E1). rewrite Nat2Z.inj_add. change 256 with (2 ^ 8). rewrite <- Z.pow_mul_r by lia. apply Z.pow_le_mono_r; lia. }
  replace (8 * (1 + Z.of_nat k) - 1) with (8 * Z.of_nat k + 7) by lia. rewrite (proj2 (Z.ltb_lt i _) E1).
  destruct k as [|k]; [done|]. destruct E3 as [E3|E3]; [done|]. cbn [Nat.add be_bytes].
  set (b0 := u8 (Z.shiftr i (8 * Z.of_nat (S k)))). set (b1 := u8 (Z.shiftr i (8 * Z.of_nat k))).
  assert (byte_ok b1) as Hb1 by apply u8_range.
  assert ((b0 =? 0) && (Z.land b1 0x80 =? 0) = false) as ->.
  { destruct (Z.eqb_spec b0 0) as [E0|]; [|done]. cbn [andb]. apply second_byte; [done|]. unfold b0, b1, u8 in *.
    rewrite Z.shiftr_div_pow2 in * by lia. change (2 ^ 8) with 256 in *. assert (0 < 2 ^ (8 * Z.of_nat k)) as Hp by (apply Z.pow_pos_nonneg; lia).
    assert (2 ^ (8 * Z.of_nat (S k)) = 256 * 2 ^ (8 * Z.of_nat k)) as Ep by (replace (8 * Z.of_nat (S k)) with (8 + 8 * Z.of_nat k) by lia; by rewrite Z.pow_add_r by lia).
    assert (2 ^ (8 * Z.of_nat (S k) - 1) = 128 * 2 ^ (8 * Z.of_nat k)) as Ep1 by (replace (8 * Z.of_nat (S k) - 1) with (7 + 8 * Z.of_nat k) by lia; by rewrite Z.pow_add_r by lia).
    assert (2 ^ (8 * Z.of_nat (S k) + 7) = 32768 * 2 ^ (8 * Z.of_nat k)) as Ep7 by (replace (8 * Z.of_nat (S k) + 7) with (15 + 8 * Z.of_nat k) by lia; by rewrite Z.pow_add_r by lia).
    set (p := 2 ^ (8 * Z.of_nat k)) in *. rewrite Ep in E0. rewrite Ep1 in E3. rewrite Ep7 in E1. rewrite Z.mul_comm, <- Z.div_div in E0 by lia.
    assert (128 <= i / p) by (apply Z.div_le_lower_bound; lia). assert (i / p < 32768) by (apply Z.div_lt_upper_bound; lia).
    rewrite (Z.mod_small (i / p / 256)) in E0 by (split; [apply Z.div_pos; lia|apply Z.div_lt_upper_bound; lia]).
    pose proof (Z.div_mod (i / p) 256 ltac:(lia)). lia. }
  assert ((b0 =? 0xff) = false) as ->.
  { apply Z.eqb_neq. unfold b0, u8. rewrite Z.shiftr_div_pow2 by lia. change (2 ^ 8) with 256.
    assert (0 < 2 ^ (8 * Z.of_nat (S k))) by (apply Z.pow_pos_nonneg; lia). rewrite Z.pow_add_r in E1 by lia. change (2 ^ 7) with 128 in E1.
    assert (0 <= i / 2 ^ (8 * Z.of_nat (S k)) < 128) by (split; [apply Z.div_pos; lia|apply Z.div_lt_upper_bound; lia]). rewrite Z.mod_small; lia. }
  done.
Qed.
Definition token_ok (t : token) : Prop := len (asn_RemoteAddr t) < 2 ^ 12 ∧ len (asn_OriginalDestConnectionID t) < 2 ^ 12 ∧ 0 <= asn_Timestamp t < 2 ^ 63.
Lemma lengthLength_le f n : (lengthLength f n ≤ S f)%nat.
Proof. revert n. induction f as [|f IH]; intros n; cbn [lengthLength]; [lia|]. case_match; [specialize (IH (Z.shiftr n 8)); lia|lia]. Qed.
Lemma len_der tag l : len (der tag l) <= len l + 11.
Proof.
  unfold der, der_length. rewrite len_cons, len_app. pose proof (lengthLength_le 8 (len l)). destruct (128 <=? len l).
  - rewrite len_cons, len_be_bytes. lia.
  - change (len [len l]) with 1. lia.
Qed.
Lemma int_over_le f i : (int_over f i ≤ f)%nat.
Proof. revert i. induction f as [|f IH]; intros i; cbn [int_over]; [lia|]. specialize (IH (Z.shiftr i 8)). case_match; lia. Qed.
(** A step that consumes nothing. *)
Lemma reads_check {A B} (p : parser A) (f : A → parser B) s a b : reads p [] a → reads (f a) s b → reads (p ≫= f) s b.
Proof. apply (reads_bind p f []). Qed.
Lemma asn1_roundtrip t : token_ok t → asn1_Unmarshal (asn1_Marshal t) = Ok (t, []).
Proof.
  intros (Ha & Ho & Ht). unfold asn1_Unmarshal, asn1_Marshal.
  set (inner := der 1 _ ++ _). assert (len inner < 2 ^ 16) as Hi.
  { unfold inner. rewrite !len_app. pose proof (len_der 1 [if asn_IsRetryToken t then 255 else 0]) as L1. change (len [_]) with 1 in L1.
    pose proof (len_der 4 (asn_RemoteAddr t)). pose proof (len_der 4 (asn_OriginalDestConnectionID t)).
    pose proof (len_der 2 (be_bytes (int64Length (asn_Timestamp t)) (asn_Timestamp t))) as L2. rewrite len_be_bytes in L2.
    assert (int64Length (asn_Timestamp t) ≤ 17)%nat.
    { unfold int64Length. pose proof (int_over_le 8 (asn_Timestamp t)). rewrite int_under_nonneg by lia. lia. }
    lia. }
  rewrite <- (app_nil_r (der 48 inner)). rewrite (reads_element 48 inner eq_refl Hi).
  assert (reads parse_fields inner t) as Hr; [|rewrite <- (app_nil_r inner), (Hr []); done].
  unfold parse_fields, inner. eapply reads_bind; [apply reads_element; [done|done]|].
  apply (reads_check _ _ _ (asn_IsRetryToken t)); [by destruct (asn_IsRetryToken t)|].
  eapply reads_bind; [apply reads_element; [done|lia]|].
  eapply reads_bind; [apply reads_element; [done|]|].
  { rewrite len_be_bytes. unfold int64Length. pose proof (int_over_le 8 (asn_Timestamp t)). rewrite int_under_nonneg by lia. lia. }
  apply (reads_check _ _ _ (asn_Timestamp t)); [by apply reads_int64|]. eapply reads_map; [apply reads_element; [done|lia]|]. by destruct t.
Qed.

(** What the code relies on: what was sealed opens, under the same key and nonce, and
    is longer by a tag. *)
Class TokenCryptoOk `{TokenCrypto} : Prop := {
  token_open key nonce data : gcm_Open key nonce (gcm_Seal key nonce data) = Some data;
  token_seal_len key nonce data : len (gcm_Seal key nonce data) = len data + 16 }.
Section TokensOk.
Context `{TokenCryptoOk}.
Lemma protector_roundtrip secret nonce data t : len nonce = tokenNonceSize → protector_NewToken secret (inl nonce) data = inl t → protector_DecodeToken secret t = inl data ∧ 0 < len t.
Proof.
  unfold protector_NewToken, protector_DecodeToken. intros Hn E. destruct (token_createAEAD secret nonce) as [key an] eqn:Ea. injection E as <-.
  unfold tokenNonceSize in *. rewrite len_app. pose proof (len_nonneg (gcm_Seal key an data)).
  rewrite (proj2 (Z.ltb_ge _ 32)) by lia. assert (length nonce = Z.to_nat 32) as El by (unfold len in Hn; lia).
  rewrite <- El, take_app_length, drop_app_length, Ea, token_open. split; [done|lia].
Qed.
Lemma decode_spec g nonce t tk : len nonce = tokenNonceSize → token_ok t → protector_NewToken g (inl nonce) (asn1_Marshal t) = inl tk →
  DecodeToken g tk = Ok (Some (mkToken (asn_IsRetryToken t) (decodeRemoteAddr (asn_RemoteAddr t)) (asn_Timestamp t) (asn_OriginalDestConnectionID t))).
Proof.
  intros Hn Ht E. destruct (protector_roundtrip _ _ _ _ Hn E) as [Ed Hl]. unfold DecodeToken. rewrite (proj2 (Z.eqb_neq (len tk) 0)) by lia.
  rewrite Ed, asn1_roundtrip by done. done.
Qed.
Lemma decode_encode_addr a : decodeRemoteAddr (encodeRemoteAddr a) = source_address a.
Proof. by destruct a. Qed.

Lemma retry_token_len g now nonce addr id tk : len nonce = tokenNonceSize → len (encodeRemoteAddr addr) < 2 ^ 12 → len id < 2 ^ 12 → 0 <= now →
  NewRetryToken g now (inl nonce) addr id = inl tk → len tk < 2 ^ 17.
Proof.
  unfold tokenNonceSize, NewRetryToken, protector_NewToken. intros Hn Ha Hi Hnow E. destruct (token_createAEAD g nonce) as [key an]. injection E as <-.
  rewrite len_app, token_seal_len, Hn. unfold asn1_Marshal. cbn [asn_IsRetryToken asn_RemoteAddr asn_Timestamp asn_OriginalDestConnectionID].
  pose proof (len_der 1 [255]) as L1. change (len [255]) with 1 in L1. pose proof (len_der 4 (encodeRemoteAddr addr)). pose proof (len_der 4 id).
  pose proof (len_der 2 (be_bytes (int64Length now) now)) as L2. rewrite len_be_bytes in L2. unfold int64Length in *. pose proof (int_over_le 8 now).
  rewrite int_under_nonneg in * by done. match goal with |- _ + (len (der 48 ?l) + _) < _ => pose proof (len_der 48 l) as L3; rewrite !len_app in L3 end. lia.
Qed.

Lemma token_decodes g now nonce addr id tk : len nonce = tokenNonceSize → 0 <= now < 2 ^ 63 → len (encodeRemoteAddr addr) < 2 ^ 12 → len id < 2 ^ 12 →
  NewRetryToken g now (inl nonce) addr id = inl tk →
  ∃ t, DecodeToken g tk = Ok (Some t) ∧ tok_OriginalDestConnectionID t = id ∧
    ∀ now' addr', defaultAcceptToken now' addr' (Some (mkToken (IsRetryToken t) (RemoteAddr t) (SentTime t) [])) = true ↔
      now' <= now + RetryTokenValidity ∧ source_address addr' = source_address addr.
Proof.
  intros Hn Hnow Ha Hi E. apply (decode_spec g nonce (mkASN true (encodeRemoteAddr addr) now id)) in E; [|done|done].
  eexists. split; [exact E|]. split; [done|]. intros now' addr'. unfold defaultAcceptToken.
  cbn [IsRetryToken SentTime RemoteAddr asn_IsRetryToken asn_Timestamp asn_RemoteAddr]. rewrite decode_encode_addr.
  destruct (Z.ltb_spec (now + RetryTokenValidity) now'); [split; [done|lia]|]. rewrite bool_decide_eq_true. split; [split; [lia|done]|by intros [_ ?]].
Qed.

(** C18: The tokens of a server work.  The token of a Retry or of a NEW_TOKEN frame is
    decoded to what it was made for: the client's address, the time, and for a Retry
    the connection ID the client had chosen.  The server accepts it from that address,
    whatever the port, and from no other: the token of a NEW_TOKEN frame for exactly a
    day, and that of a Retry for the five seconds that interface.go promises and not
    after the ten of params.go. *)
Theorem token_roundtrip g now nonce addr (retry : option (list Z)) tk :
  len nonce = tokenNonceSize → 0 <= now < 2 ^ 63 → len (encodeRemoteAddr addr) < 2 ^ 12 → len (default [] retry) < 2 ^ 12 →
  match retry with Some id => NewRetryToken g now (inl nonce) addr id | None => NewToken g now (inl nonce) addr end = inl tk →
  ∃ t, DecodeToken g tk = Ok (Some t) ∧ IsRetryToken t = bool_decide (retry ≠ None) ∧ tok_OriginalDestConnectionID t = default [] retry ∧
    ∀ now' addr', match retry with
      | None => defaultAcceptToken now' addr' (Some t) = true ↔ now' <= now + 24 * 3600 * 1000000000 ∧ source_address addr' = source_address addr
      | Some _ => (now' <= now + promisedRetryTokenValidity ∧ source_address addr' = source_address addr → defaultAcceptToken now' addr' (Some t) = true) ∧
          (defaultAcceptToken now' addr' (Some t) = true → now' <= now + 10 * 1000000000 ∧ source_address addr' = source_address addr)
      end.
Proof.
  intros Hn Hnow Ha Ho E.
  set (t := mkASN (match retry with Some _ => true | None => false end) (encodeRemoteAddr addr) now (default [] retry)).
  assert (protector_NewToken g (inl nonce) (asn1_Marshal t) = inl tk) as E' by (by destruct retry). clear E.
  apply decode_spec in E'; [|done|done]. eexists. split; [exact E'|]. cbn [IsRetryToken tok_OriginalDestConnectionID SentTime RemoteAddr t asn_IsRetryToken asn_OriginalDestConnectionID].
  split; [by destruct retry|]. split; [done|]. intros now' addr'. unfold defaultAcceptToken. cbn [IsRetryToken SentTime RemoteAddr t asn_IsRetryToken asn_Timestamp asn_RemoteAddr].
  rewrite decode_encode_addr. destruct retry; unfold promisedRetryTokenValidity, RetryTokenValidity, TokenValidity.
  - destruct (Z.ltb_spec (now + 10 * 1000000000) now'); rewrite ?bool_decide_eq_true; (split; [intros [? ?]|]); try done; lia.
  - destruct (Z.ltb_spec (now + 24 * 3600 * 1000000000) now'); [split; [done|lia]|]. rewrite bool_decide_eq_true. split; [split; [lia|done]|by intros [_ ?]].
Qed.
End TokensOk.

(** A cipher that only adds a tag. *)
#[export] Instance null_token_crypto : TokenCrypto :=
  {| hkdf_read _ _ _ n := replicate (Z.to_nat n) 7; gcm_Seal _ _ d := d ++ replicate 16 0; gcm_Open _ _ d := Some (take (length d - 16) d) |}.
#[export] Instance null_token_crypto_ok : TokenCryptoOk.
Proof.
  split; intros key nonce data; cbn [gcm_Seal gcm_Open null_token_crypto].
  - rewrite length_app, length_replicate, Nat.add_sub, take_app_length. done.
  - rewrite len_app. done.
Qed.
Lemma token_roundtrip_witness : ∃ tk t, NewRetryToken (replicate 32 1) 1500000000000000000 (inl (replicate 32 2)) (UDPAddr [10; 0; 0; 1] 443) [1; 2; 3; 4; 5; 6; 7; 8] = inl tk ∧
  DecodeToken (replicate 32 1) tk = Ok (Some t) ∧ tok_OriginalDestConnectionID t = [1; 2; 3; 4; 5; 6; 7; 8].
Proof.
  eexists. destruct (token_roundtrip (replicate 32 1) 1500000000000000000 (replicate 32 2) (UDPAddr [10; 0; 0; 1] 443) (Some [1; 2; 3; 4; 5; 6; 7; 8]) _
    eq_refl ltac:(lia) ltac:(vm_compute; reflexivity) ltac:(vm_compute; reflexivity) eq_refl) as (t & E & _ & Eo & _).
  exists t. split; [reflexivity|]. split; [exact E|exact Eo].
Defined.
