(* ===== verification/PacketHandlers.v ===== *)
(** PacketHandlers: quic-go/packet_handler_map.go, which gives every datagram to the
    session its connection ID belongs to, and multiplexer.go, which keeps one such map
    per socket.  Stateless resets. *)

From S2P Require Import Prelude Utils Protocol Header Session Tokens.

Definition MinStatelessResetSize : Z := 1 + 20 + 4 + 1 + 16.
Definition RetiredConnectionIDDeleteTimeout : Z := 5 * 1000000000.

(** * packet_handler_map.go *)

(** A handler is a number and the perspective it has. *)
Record packetHandler := mkHandler { ph_number : Z; ph_perspective : Perspective }.
#[export] Instance packetHandler_eq_dec : EqDecision packetHandler.
Proof. solve_decision. Defined.
(** What the map does to handlers, to the server and to the socket.  Calls in
    goroutines of their own are events, too. *)
Inductive ph_event :=
  | PhHandle (h : packetHandler) (addr : net_Addr) (p : receivedPacket)
  | PhServerHandle (addr : net_Addr) (p : receivedPacket)
  | PhDestroy (h : packetHandler) (e : goerr)
  | PhClose (h : packetHandler)
  | PhServerError (e : goerr)
  | PhRemoveConn
  | PhWriteTo (data : list Z) (addr : net_Addr)
  | PhRelease (buffer : Z).
(** [ph_timers] are the deletions that are due, with their times. *)
Record packetHandlerMap := mkPhMap {
  connIDLen : Z; handlers : gmap (list Z) packetHandler; resetTokens : gmap (list Z) packetHandler; hasServer : bool; ph_closed : bool;
  statelessResetKey : list Z; ph_timers : list (Z * list Z) }.
Definition newPacketHandlerMap (idLen : Z) (key : list Z) : packetHandlerMap := mkPhMap idLen ∅ ∅ false false key [].
Definition set_handlers (h : packetHandlerMap) (m : gmap (list Z) packetHandler) : packetHandlerMap :=
  mkPhMap (connIDLen h) m (resetTokens h) (hasServer h) (ph_closed h) (statelessResetKey h) (ph_timers h).
Definition set_resetTokens (h : packetHandlerMap) (m : gmap (list Z) packetHandler) : packetHandlerMap :=
  mkPhMap (connIDLen h) (handlers h) m (hasServer h) (ph_closed h) (statelessResetKey h) (ph_timers h).
Definition set_server (h : packetHandlerMap) (server closed : bool) : packetHandlerMap :=
  mkPhMap (connIDLen h) (handlers h) (resetTokens h) server closed (statelessResetKey h) (ph_timers h).
Definition set_timers (h : packetHandlerMap) (l : list (Z * list Z)) : packetHandlerMap :=
  mkPhMap (connIDLen h) (handlers h) (resetTokens h) (hasServer h) (ph_closed h) (statelessResetKey h) l.

Definition addLocked (h : packetHandlerMap) (id : list Z) (handler : packetHandler) : packetHandlerMap := set_handlers h (<[id := handler]> (handlers h)).
Definition ph_Add (h : packetHandlerMap) (id : list Z) (handler : packetHandler) : packetHandlerMap := addLocked h id handler.
Definition removeByConnectionIDAsString (h : packetHandlerMap) (id : list Z) : packetHandlerMap := set_handlers h (delete id (handlers h)).
Definition ph_Remove (h : packetHandlerMap) (id : list Z) : packetHandlerMap := removeByConnectionIDAsString h id.
Definition retireByConnectionIDAsString (h : packetHandlerMap) (now : Z) (id : list Z) : packetHandlerMap :=
  set_timers h (ph_timers h ++ [(now + RetiredConnectionIDDeleteTimeout, id)]).
Definition ph_Retire (h : packetHandlerMap) (now : Z) (id : list Z) : packetHandlerMap := retireByConnectionIDAsString h now id.
Definition ReplaceWithClosed (h : packetHandlerMap) (now : Z) (id : list Z) (handler : packetHandler) : packetHandlerMap :=
  retireByConnectionIDAsString (addLocked (removeByConnectionIDAsString h id) id handler) now id.
(** The timers that are due run. *)
Definition run_timers (h : packetHandlerMap) (now : Z) : packetHandlerMap :=
  set_timers (foldl (λ h t, if t.1 <=? now then removeByConnectionIDAsString h t.2 else h) h (ph_timers h))
    (filter (λ t, now < t.1) (ph_timers h)).
Definition AddResetToken (h : packetHandlerMap) (token : list Z) (handler : packetHandler) : packetHandlerMap := set_resetTokens h (<[token := handler]> (resetTokens h)).
Definition RemoveResetToken (h : packetHandlerMap) (token : list Z) : packetHandlerMap := set_resetTokens h (delete token (resetTokens h)).
Definition SetServer (h : packetHandlerMap) : packetHandlerMap := set_server h true (ph_closed h).
(** The handlers are called in the order of the map, in goroutines. *)
Definition CloseServer (h : packetHandlerMap) : packetHandlerMap * list ph_event :=
  (set_server h false (ph_closed h),
   PhClose <$> filter (λ x, ph_perspective x = PerspectiveServer) (snd <$> map_to_list (handlers h))).
Definition ph_close (h : packetHandlerMap) (e : goerr) : packetHandlerMap * list ph_event :=
  if ph_closed h then (h, [])
  else (set_server h (hasServer h) true,
        ((λ x, PhDestroy x e) <$> (snd <$> map_to_list (handlers h))) ++ (if hasServer h then [PhServerError e] else []) ++ [PhRemoveConn]).

(** The token at the end of a datagram. *)
Definition reset_token_of (data : list Z) : list Z := drop (length data - 16) data.
Definition maybeHandleStatelessReset (h : packetHandlerMap) (data : list Z) : outcome (option packetHandler) :=
  match data with
  | [] => Panic "index out of range"
  | b0 :: _ =>
      if negb (Z.land b0 0x80 =? 0) then Ok None
      else if len data <? 17 then Ok None
      else Ok (resetTokens h !! reset_token_of data)
  end.
Definition handle_datagram (h : packetHandlerMap) (addr : net_Addr) (rcvTime buffer : Z) (data : list Z) (reset : receivedPacket → list Z → list ph_event) : outcome (list ph_event) :=
  match ParseConnectionID data (connIDLen h) with
  | Err _ => Ok []
  | Panic m => Panic m
  | Ok connID =>
      sess ← maybeHandleStatelessReset h data;
      match sess with
      | Some sess => Ok [PhDestroy sess (Errorf "received a stateless reset" [])]
      | None =>
          let p := mkReceived rcvTime data buffer in
          match handlers h !! connID with
          | Some handler => Ok [PhHandle handler addr p]
          | None =>
              match data with
              | [] => Panic "index out of range"
              | b0 :: _ =>
                  if Z.land b0 0x80 =? 0 then Ok (reset p connID)
                  else if hasServer h then Ok [PhServerHandle addr p] else Ok []
              end
          end
      end
  end.

Section Reset.
(** HMAC with SHA-256, of a key and a message. *)
Context (hmac : list Z → list Z → list Z).
Definition statelessResetEnabled (h : packetHandlerMap) : bool := 0 <? len (statelessResetKey h).
(** [random] are the bytes a random token is made of. *)
Definition GetStatelessResetToken (h : packetHandlerMap) (random : list Z) (connID : list Z) : list Z :=
  if negb (statelessResetEnabled h) then take 16 random else take 16 (hmac (statelessResetKey h) connID).
Definition maybeSendStatelessReset (h : packetHandlerMap) (random : list Z) (addr : net_Addr) (p : receivedPacket) (connID : list Z) : list ph_event :=
  if negb (statelessResetEnabled h) then [PhRelease (rp_buffer p)]
  else if len (rp_data p) <=? MinStatelessResetSize then [PhRelease (rp_buffer p)]
  else
    let token := GetStatelessResetToken h random connID in
    let data := match take (Z.to_nat (MinStatelessResetSize - 16)) random with
                | [] => []
                | b0 :: l => Z.lor (Z.land b0 0x7f) 0x40 :: l
                end in
    [PhWriteTo (data ++ token) addr; PhRelease (rp_buffer p)].
Definition ph_handlePacket (h : packetHandlerMap) (random : list Z) (addr : net_Addr) (rcvTime buffer : Z) (data : list Z) : outcome (list ph_event) :=
  handle_datagram h addr rcvTime buffer data (λ p connID, maybeSendStatelessReset h random addr p connID).
End Reset.

(** * multiplexer.go *)

(** A socket's map, with the parameters it was made with; maps are numbered. *)
Record connManager := mkConnManager { cm_connIDLen : Z; cm_statelessResetKey : option (list Z); cm_manager : Z }.
Record connMultiplexer := mkMux { mux_conns : gmap string connManager; mux_next : Z }.
Definition AddConn (m : connMultiplexer) (laddr : string) (idLen : Z) (key : option (list Z)) : connMultiplexer * (Z + goerr) :=
  let '(m, p) := match mux_conns m !! laddr with
                 | Some p => (m, p)
                 | None => let p := mkConnManager idLen key (mux_next m) in (mkMux (<[laddr := p]> (mux_conns m)) (mux_next m + 1), p)
                 end in
  if negb (cm_connIDLen p =? idLen) then
    (m, inr (Errorf "cannot use %d byte connection IDs on a connection that is already using %d byte connction IDs" [idLen; cm_connIDLen p]))
  else if match key with Some k => negb (bool_decide (default [] (cm_statelessResetKey p) = k)) | None => false end then
    (m, inr (Errorf "cannot use different stateless reset keys on the same packet conn" []))
  else (m, inl (cm_manager p)).
Definition RemoveConn (m : connMultiplexer) (laddr : string) : connMultiplexer * option goerr :=
  match mux_conns m !! laddr with
  | None => (m, Some (Errorf "cannote remove connection, connection is unknown" []))
  | Some _ => (mkMux (delete laddr (mux_conns m)) (mux_next m), None)
  end.

(** * Stateless resets *)

Definition writes (l : list ph_event) : list (list Z) := omap (λ e, match e with PhWriteTo d _ => Some d | _ => None end) l.
Section ResetOk.
Context (hmac : list Z → list Z → list Z) (hmac_len : ∀ k m, len (hmac k m) = 32).
Lemma reset_first_byte b : byte_ok b → Z.land (Z.lor (Z.land b 0x7f) 0x40) 0x80 = 0.
Proof.
  intros Hb. pose proof (all_bytes (λ b, Z.land (Z.lor (Z.land b 0x7f) 0x40) 0x80 =? 0) eq_refl b Hb) as E. cbv beta in E. by apply Z.eqb_eq in E.
Qed.
Lemma reset_packet h random addr p connID : statelessResetEnabled h = true → MinStatelessResetSize < len (rp_data p) → bytes_ok random → 26 <= len random →
  ∃ b0 l, maybeSendStatelessReset hmac h random addr p connID
    = [PhWriteTo ((b0 :: l) ++ GetStatelessResetToken hmac h random connID) addr; PhRelease (rp_buffer p)] ∧
    Z.land b0 0x80 = 0 ∧ len l = 25 ∧ len (GetStatelessResetToken hmac h random connID) = 16.
Proof.
  intros Hen Hl Hb Hr. unfold maybeSendStatelessReset. rewrite Hen. cbn [negb]. rewrite (proj2 (Z.leb_gt (len (rp_data p)) _)) by lia.
  change (Z.to_nat (MinStatelessResetSize - 16)) with 26%nat. destruct random as [|b random]; [rewrite len_nil in Hr; lia|].
  apply Forall_cons in Hb as [Hb _]. cbn [take]. eexists _, _. split; [reflexivity|]. split; [by apply reset_first_byte|].
  rewrite len_cons in Hr. split; [unfold len in *; rewrite length_take; lia|].
  unfold GetStatelessResetToken. rewrite Hen. cbn [negb]. pose proof (hmac_len (statelessResetKey h) connID) as E. unfold len in *. rewrite length_take. lia.
Qed.
Lemma reset_token_end (a t : list Z) : len t = 16 → reset_token_of (a ++ t) = t.
Proof. intros Ht. unfold reset_token_of, len in *. rewrite length_app. replace (length a + length t - 16)%nat with (length a) by lia. apply drop_app_length. Qed.
Lemma short_connID b0 l n : Z.land b0 0x80 = 0 → 0 <= n → n <= len l → ParseConnectionID (b0 :: l) n = Ok (take (Z.to_nat n) l).
Proof.
  intros Hb Hn Hl. unfold ParseConnectionID. rewrite Hb, len_cons. cbn [Z.ltb Z.compare negb drop]. by rewrite (proj2 (Z.ltb_ge (1 + len l) (n + 1))) by lia.
Qed.

(** C16: Stateless resets reach their connection and end there.  A server that has
    forgotten a connection answers a packet of it, long enough not to be a reset
    itself, with a reset; the client, which was given the token for its connection ID,
    destroys exactly the session it registered the token for.  An endpoint that does
    not know the token never answers a reset, so that two endpoints without state do
    not send resets to each other for ever. *)
Theorem stateless_reset_works hs hc h random random' random0 addr addr' t t' buf buf' b0 id rest sess :
  statelessResetEnabled hs = true → bytes_ok random → 26 <= len random →
  connIDLen hs = len id → Z.land b0 0x80 = 0 → MinStatelessResetSize < len (b0 :: id ++ rest) →
  handlers hs !! id = None → resetTokens hs !! reset_token_of (b0 :: id ++ rest) = None →
  resetTokens hc !! GetStatelessResetToken hmac hs random0 id = Some sess → 0 <= connIDLen hc <= 20 →
  ∃ reset, ph_handlePacket hmac hs random addr t buf (b0 :: id ++ rest) = Ok [PhWriteTo reset addr; PhRelease buf] ∧
    ph_handlePacket hmac hc random' addr' t' buf' reset = Ok [PhDestroy sess (Errorf "received a stateless reset" [])] ∧
    (0 <= connIDLen h → resetTokens h !! reset_token_of reset = None →
     ∃ l, ph_handlePacket hmac h random' addr' t' buf' reset = Ok l ∧ writes l = []).
Proof.
  intros Hen Hb Hr Hid Hb0 Hlen Hh Ht Hc Hcl. set (data := b0 :: id ++ rest) in *.
  set (p := mkReceived t data buf). destruct (reset_packet hs random addr p id Hen) as (c0 & l & Ew & Hc0 & Hl & Htl); [done|done|done|].
  set (token := GetStatelessResetToken hmac hs random id) in *. exists ((c0 :: l) ++ token).
  assert (len ((c0 :: l) ++ token) = 42) as Hlr by (rewrite len_app, len_cons; lia).
  assert (∀ n, 0 <= n <= 20 → ∃ id', ParseConnectionID ((c0 :: l) ++ token) n = Ok id') as Hpc.
  { intros n Hn. eexists. apply (short_connID c0 (l ++ token)); [done|lia|]. rewrite len_app. lia. }
  assert (∀ h', maybeHandleStatelessReset h' ((c0 :: l) ++ token) = Ok (resetTokens h' !! token)) as Hm.
  { intros h'. unfold maybeHandleStatelessReset. rewrite reset_token_end by done. cbn [app]. change (c0 :: l ++ token) with ((c0 :: l) ++ token). rewrite Hc0, Hlr. done. }
  split; [|split].
  - assert (ParseConnectionID data (connIDLen hs) = Ok id) as Ep.
    { unfold data. pose proof (len_nonneg rest). pose proof (len_nonneg id). rewrite Hid, short_connID by (done || rewrite ?len_app; lia).
      unfold len. by rewrite Nat2Z.id, take_app_length. }
    assert (maybeHandleStatelessReset hs data = Ok None) as Em.
    { unfold maybeHandleStatelessReset, data. cbv beta iota. fold data. rewrite Hb0, Ht. unfold MinStatelessResetSize in Hlen.
      rewrite (proj2 (Z.ltb_ge (len data) 17)) by lia. done. }
    unfold ph_handlePacket, handle_datagram. rewrite Ep, Em. cbn [mbind outcome_bind]. rewrite Hh. fold p. rewrite Ew. unfold data at 1. cbv beta iota.
    by rewrite Hb0.
  - unfold ph_handlePacket, handle_datagram. destruct (Hpc (connIDLen hc)) as [id' ->]; [done|]. rewrite Hm.
    assert (GetStatelessResetToken hmac hs random0 id = token) as Et by (unfold token, GetStatelessResetToken; by rewrite Hen).
    rewrite Et in Hc. by rewrite Hc.
  - intros Hpos Hunk. unfold ph_handlePacket, handle_datagram. rewrite reset_token_end in Hunk by done.
    destruct (ParseConnectionID _ _) as [id'|e|m] eqn:Ep; [|by exists []|].
    + rewrite Hm, Hunk. cbn [mbind outcome_bind]. destruct (handlers h !! id') as [hd|]; [by eexists|]. cbn [app]. rewrite Hc0. cbn [Z.eqb].
      eexists. split; [reflexivity|]. unfold maybeSendStatelessReset. cbn [rp_data rp_buffer]. destruct (negb _); [done|].
      change (c0 :: l ++ token) with ((c0 :: l) ++ token). rewrite Hlr. done.
    + exfalso. revert Ep. unfold ParseConnectionID. cbn [app]. rewrite Hc0. cbn [Z.ltb Z.compare negb]. by case_match.
Qed.
End ResetOk.

(** A hash that is long enough. *)
Definition test_hmac (key m : list Z) : list Z := take 32 (m ++ key ++ replicate 32 9).
Definition forgetful_server : packetHandlerMap := newPacketHandlerMap 4 [1; 2; 3].
Definition informed_client : packetHandlerMap :=
  AddResetToken (newPacketHandlerMap 0 []) (GetStatelessResetToken test_hmac forgetful_server [] [5; 6; 7; 8]) (mkHandler 3 PerspectiveClient).
Lemma stateless_reset_works_witness :
  ∃ reset, ph_handlePacket test_hmac forgetful_server (replicate 26 0) (OtherAddr []) 0 1 (0x40 :: [5; 6; 7; 8] ++ replicate 40 0)
      = Ok [PhWriteTo reset (OtherAddr []); PhRelease 1] ∧
    ph_handlePacket test_hmac informed_client [] (OtherAddr []) 0 2 reset = Ok [PhDestroy (mkHandler 3 PerspectiveClient) (Errorf "received a stateless reset" [])].
Proof.
  destruct (stateless_reset_works test_hmac ltac:(intros k m; unfold test_hmac, len; rewrite length_take, !length_app, length_replicate; lia)
    forgetful_server informed_client forgetful_server (replicate 26 0) [] [] (OtherAddr []) (OtherAddr []) 0 0 1 2 0x40 [5; 6; 7; 8] (replicate 40 0)
    (mkHandler 3 PerspectiveClient)) as (reset & E1 & E2 & _); try reflexivity.
  - repeat constructor; lia.
  - split; [apply Z.le_refl|done].
  - exists reset. split; [exact E1|exact E2].
Defined.

(** * Concurrent resets *)

(** The hasher is shared: it holds the bytes written since it was reset, and tokens
    are computed in the goroutines that send resets, without a lock. *)
Section Hasher.
Context (hmac : list Z → list Z → list Z).
Inductive hasher_step (key : list Z) : list Z → list Z → option (list Z) → Prop :=
  | hasher_Write b id : hasher_step key b (b ++ id) None
  | hasher_Sum b : hasher_step key b b (Some (take 16 (hmac key b)))
  | hasher_Reset b : hasher_step key b [] None.
(** Alone, the three steps make the token of the connection ID. *)
Lemma token_alone h random id : statelessResetEnabled h = true →
  hasher_step (statelessResetKey h) [] ([] ++ id) None ∧
  hasher_step (statelessResetKey h) id id (Some (GetStatelessResetToken hmac h random id)) ∧ hasher_step (statelessResetKey h) id [] None.
Proof. intros E. split_and!; try constructor. unfold GetStatelessResetToken. rewrite E. constructor. Qed.
(** When another goroutine writes in between, the token belongs to neither
    connection ID but to both of them put together. *)
Example token_race key id id' :
  hasher_step key [] id None ∧ hasher_step key id (id ++ id') None ∧ hasher_step key (id ++ id') (id ++ id') (Some (take 16 (hmac key (id ++ id')))).
Proof. split_and!; [apply (hasher_Write key [] id)|constructor..]. Qed.
End Hasher.
