(* ===== verification/Server.v ===== *)
(** Server: quic-go/server.go.  A server answers Initial packets of clients it does
    not know: with a Version Negotiation packet, with a Retry, by refusing them or with
    a new session, which is passed on to Accept when it is ready. *)

From S2P Require Import Prelude Utils Protocol Frames Header TransportParams Protection PacketPacker Session Tokens PacketHandlers.
From S2P Require FlowControl.

Definition MaxAcceptQueueSize : Z := 32.
Definition DefaultMaxReceiveStreamFlowControlWindow : Z := 6 * 2 ^ 20.
Definition DefaultMaxReceiveConnectionFlowControlWindow : Z := 15 * 2 ^ 20.
Definition DefaultMaxIncomingStreams : Z := 100.
Definition DefaultMaxIncomingUniStreams : Z := 100.
Definition DefaultIdleTimeout : Z := 30 * 1000000000.
Definition DefaultHandshakeTimeout : Z := 10 * 1000000000.
Definition DefaultConnectionIDLength : Z := 4.
Definition MaxAckDelayInclGranularity : Z := 25 * 1000000 + 1000000.

(** * Configuration *)

(** [quic.Config], without the tracer and the token store. *)
Record quicConfig := mkQuicConfig {
  cfg_Versions : list Z; cfg_ConnectionIDLength : Z; cfg_HandshakeTimeout : Z; cfg_QuicIdleTimeout : Z;
  cfg_AcceptToken : option (Z → net_Addr → option handshake_Token → bool);
  cfg_MaxReceiveStreamFlowControlWindow : Z; cfg_MaxReceiveConnectionFlowControlWindow : Z;
  cfg_MaxIncomingStreams : Z; cfg_MaxIncomingUniStreams : Z; cfg_StatelessResetKey : list Z; cfg_KeepAlive : bool }.
Definition config_zero : quicConfig := mkQuicConfig [] 0 0 0 None 0 0 0 0 [] false.
(** Zero stands for the default, and a negative number of streams for none. *)
Definition or_default (v d : Z) : Z := if v =? 0 then d else v.
Definition or_streams (v d : Z) : Z := if v =? 0 then d else if v <? 0 then 0 else v.
Definition populateServerConfig (config : option quicConfig) : quicConfig :=
  let c := default config_zero config in
  mkQuicConfig (if len (cfg_Versions c) =? 0 then SupportedVersions else cfg_Versions c)
    (or_default (cfg_ConnectionIDLength c) DefaultConnectionIDLength)
    (or_default (cfg_HandshakeTimeout c) DefaultHandshakeTimeout) (or_default (cfg_QuicIdleTimeout c) DefaultIdleTimeout)
    (Some (default defaultAcceptToken (cfg_AcceptToken c)))
    (or_default (cfg_MaxReceiveStreamFlowControlWindow c) DefaultMaxReceiveStreamFlowControlWindow)
    (or_default (cfg_MaxReceiveConnectionFlowControlWindow c) DefaultMaxReceiveConnectionFlowControlWindow)
    (or_streams (cfg_MaxIncomingStreams c) DefaultMaxIncomingStreams)
    (or_streams (cfg_MaxIncomingUniStreams c) DefaultMaxIncomingUniStreams)
    (cfg_StatelessResetKey c) (cfg_KeepAlive c).

(** * State *)

(** What the session is created with, and its number. *)
Record newSessionArgs := mkNewSession {
  ns_number : Z; ns_remoteAddr : net_Addr; ns_clientDestConnID : list Z; ns_destConnID : list Z; ns_srcConnID : list Z;
  ns_params : TransportParameters; ns_version : Z }.
Inductive sv_event :=
  | SvWriteTo (data : list Z) (addr : net_Addr)
  | SvNewSession (s : newSessionArgs)
  | SvSessionPacket (session : Z) (p : receivedPacket)
  | SvHandlers (l : list ph_event).
(** [sv_queue] are the sessions whose goroutine waits to hand them to [sessionQueue],
    a channel without a buffer. *)
Record baseServer := mkServer {
  acceptEarlySessions : bool; sv_config : quicConfig; createdPacketConn : bool; tokenGenerator : TokenGenerator;
  sessionHandler : packetHandlerMap; serverError : option goerr; errorChan_closed : bool; sv_closed : bool;
  sv_queue : list Z; sessionQueueLen : Z; sv_next : Z }.
Definition set_sessionHandler (s : baseServer) (m : packetHandlerMap) (next : Z) : baseServer :=
  mkServer (acceptEarlySessions s) (sv_config s) (createdPacketConn s) (tokenGenerator s) m (serverError s) (errorChan_closed s) (sv_closed s)
    (sv_queue s) (sessionQueueLen s) next.
Definition set_queue (s : baseServer) (q : list Z) (n : Z) : baseServer :=
  mkServer (acceptEarlySessions s) (sv_config s) (createdPacketConn s) (tokenGenerator s) (sessionHandler s) (serverError s) (errorChan_closed s) (sv_closed s)
    q n (sv_next s).
Definition set_closed (s : baseServer) (e : option goerr) : baseServer :=
  mkServer (acceptEarlySessions s) (sv_config s) (createdPacketConn s) (tokenGenerator s) (sessionHandler s) e true true
    (sv_queue s) (sessionQueueLen s) (sv_next s).
(** [listen], with the map the multiplexer returned, the secret of the tokens, and
    whether there is a TLS configuration. *)
Definition listen (tls : bool) (config : option quicConfig) (acceptEarly created : bool) (handlers_ : packetHandlerMap + goerr) (secret : list Z + goerr) : baseServer + goerr :=
  if negb tls then inr (Errorf "quic: tls.Config not set" []) else
  let config := populateServerConfig config in
  match find (λ v, negb (IsValidVersion v)) (cfg_Versions config) with
  | Some v => inr (Errorf "%s is not a valid QUIC version" [v])
  | None =>
      match handlers_, NewTokenGenerator secret with
      | inr e, _ => inr e
      | _, inr e => inr e
      | inl h, inl g => inl (mkServer acceptEarly config created g (SetServer h) None false false [] 0 1)
      end
  end.

(** * Initial packets *)

(** What the code draws and reads: the time, the nonce of a token, a connection ID,
    the bytes of a random reset token, the bytes of a Version Negotiation packet, and
    the error of the session's constructor. *)
Record sv_env := mkSvEnv {
  ev_now : Z; ev_nonce : list Z + goerr; ev_connID : list Z + goerr; ev_random : list Z; ev_vn : Z * Z * Z; ev_newSession : option goerr }.

Section Server.
Context `{QTLS} `{TokenCrypto} (hmac : list Z → list Z → list Z).
Definition sendVersionNegotiationPacket (s : baseServer) (env : sv_env) (addr : net_Addr) (hdr : Header) : list sv_event :=
  let '(r0, b0, rand32) := ev_vn env in
  [SvWriteTo (ComposeVersionNegotiation (SrcConnectionID hdr) (DestConnectionID hdr) (cfg_Versions (sv_config s)) r0 b0 rand32) addr].
Definition retry_header (hdr : Header) (connID token : list Z) : ExtendedHeader :=
  mkExtendedHeader (mkHeader true 0 (Some PacketTypeRetry) (Version hdr) connID (SrcConnectionID hdr) 0 token [] (DestConnectionID hdr) 0) 0 false 0 0.
Definition sendRetry (s : baseServer) (env : sv_env) (addr : net_Addr) (hdr : Header) : outcome (list sv_event) :=
  match NewRetryToken (tokenGenerator s) (ev_now env) (ev_nonce env) addr (DestConnectionID hdr), ev_connID env with
  | inr e, _ => Err e
  | _, inr e => Err e
  | inl token, inl connID => buf ← run_writer (ExtendedHeader_Write (retry_header hdr connID token)) []; Ok [SvWriteTo buf addr]
  end.
(** The pooled buffer has room for this packet. *)
Definition sendServerBusy (addr : net_Addr) (hdr : Header) : outcome (list sv_event) :=
  '(sealer, _) ← NewInitialAEAD (DestConnectionID hdr) PerspectiveServer;
  let ccf := mkConnectionClose false ServerBusy 0 [] in
  l ← ConnectionCloseFrame_Length ccf;
  let replyHdr := mkExtendedHeader (mkHeader true 0 (Some PacketTypeInitial) (Version hdr) (DestConnectionID hdr) (SrcConnectionID hdr)
                    (u64 (4 + l + long_Overhead sealer)) [] [] [] 0) 0 false 4 0 in
  hdrBytes ← run_writer (ExtendedHeader_Write replyHdr) [];
  buf ← run_writer (ConnectionCloseFrame_Write ccf) hdrBytes;
  if MaxReceivePacketSize <? len buf + long_Overhead sealer then Panic "slice bounds out of range" else
  '(sealer, sealed) ← long_Seal sealer (drop (length hdrBytes) buf) 0 hdrBytes;
  let raw := hdrBytes ++ sealed in
  let pnOffset := (length hdrBytes - 4)%nat in
  match raw with
  | [] => Panic "index out of range"
  | b0 :: _ =>
      '(b0, pnBytes) ← long_EncryptHeader sealer (take 16 (drop (pnOffset + 4) raw)) b0 (drop pnOffset hdrBytes);
      Ok [SvWriteTo (b0 :: drop 1 (take pnOffset raw) ++ pnBytes ++ sealed) addr]
  end.
Definition server_params (s : baseServer) (token origDestConnID : list Z) : TransportParameters :=
  mkTP FlowControl.InitialMaxStreamData FlowControl.InitialMaxStreamData FlowControl.InitialMaxStreamData FlowControl.InitialMaxData
    MaxAckDelayInclGranularity AckDelayExponent true 0 (cfg_MaxIncomingUniStreams (sv_config s)) (cfg_MaxIncomingStreams (sv_config s))
    (cfg_QuicIdleTimeout (sv_config s)) (Some token) origDestConnID.
Definition createNewSession (s : baseServer) (env : sv_env) (addr : net_Addr) (origDestConnID clientDestConnID destConnID srcConnID : list Z) (version : Z) : outcome (newSessionArgs) :=
  let token := GetStatelessResetToken hmac (sessionHandler s) (ev_random env) srcConnID in
  match ev_newSession env with
  | Some e => Err e
  | None => Ok (mkNewSession (sv_next s) addr clientDestConnID destConnID srcConnID (server_params s token origDestConnID) version)
  end.
(** The session, when there is one, and its connection ID. *)
Definition handleInitialImpl (s : baseServer) (env : sv_env) (addr : net_Addr) (p : receivedPacket) (hdr : Header) : outcome (list sv_event * option (newSessionArgs * list Z)) :=
  if (len (Token hdr) =? 0) && (len (DestConnectionID hdr) <? MinConnectionIDLenInitial) then Err (Errorf "too short connection ID" []) else
  '(token, origDestConnectionID) ←
    (if 0 <? len (Token hdr) then
       match DecodeToken (tokenGenerator s) (Token hdr) with
       | Ok (Some c) => Ok (Some (mkToken (IsRetryToken c) (RemoteAddr c) (SentTime c) []), tok_OriginalDestConnectionID c)
       | Ok None => Panic "nil pointer dereference"
       | Err _ => Ok (None, [])
       | Panic m => Panic m
       end
     else Ok (None, []));
  match cfg_AcceptToken (sv_config s) with
  | None => Panic "nil pointer dereference"
  | Some accept =>
      if negb (accept (ev_now env) addr token) then l ← sendRetry s env addr hdr; Ok (l, None)
      else if MaxAcceptQueueSize <=? sessionQueueLen s then l ← sendServerBusy addr hdr; Ok (l, None)
      else
        match ev_connID env with
        | inr e => Err e
        | inl connID =>
            sess ← createNewSession s env addr origDestConnectionID (DestConnectionID hdr) (SrcConnectionID hdr) connID (Version hdr);
            Ok ([SvNewSession sess; SvSessionPacket (ns_number sess) p], Some (sess, connID))
        end
  end.
(** Whether the packet was passed on to a session. *)
Definition server_handlePacketImpl (s : baseServer) (env : sv_env) (addr : net_Addr) (p : receivedPacket) : outcome (baseServer * list sv_event * bool) :=
  if len (rp_data p) <? MinInitialPacketSize then Ok (s, [], false) else
  match ParsePacket (rp_data p) (cfg_ConnectionIDLength (sv_config s)) with
  | Err _ => Ok (s, [], false)
  | Panic m => Panic m
  | Ok (hdr, _, _) =>
      if negb (IsLongHeader hdr) then Ok (s, [], false)
      else if negb (IsSupportedVersion (cfg_Versions (sv_config s)) (Version hdr)) then Ok (s, sendVersionNegotiationPacket s env addr hdr, false)
      else if negb (bool_decide (Type_ hdr = Some PacketTypeInitial)) then Ok (s, [], false)
      else
        match handleInitialImpl s env addr p hdr with
        | Panic m => Panic m
        | Err _ => Ok (s, [], false)
        | Ok (l, None) => Ok (s, l, false)
        | Ok (l, Some (sess, connID)) =>
            Ok (set_sessionHandler s (ph_Add (sessionHandler s) connID (mkHandler (ns_number sess) PerspectiveServer)) (sv_next s + 1), l, true)
        end
  end.
(** [handlePacket] runs this in a goroutine, which releases the buffer. *)
Definition server_handlePacket (s : baseServer) (env : sv_env) (addr : net_Addr) (p : receivedPacket) : outcome (baseServer * list sv_event) :=
  '(s, l, passedOn) ← server_handlePacketImpl s env addr p;
  Ok (s, l ++ (if passedOn : bool then [] else [SvHandlers [PhRelease (rp_buffer p)]])).
End Server.

(** * Accepting and closing *)

(** [handleNewSession], split where it waits: the session is ready, and then it is
    accepted, or closed before that. *)
Definition session_ready (s : baseServer) (n : Z) : baseServer := set_queue s (sv_queue s ++ [n]) (i32 (sessionQueueLen s + 1)).
Definition session_gone (s : baseServer) (n : Z) : baseServer := set_queue s (filter (λ x, x ≠ n) (sv_queue s)) (i32 (sessionQueueLen s - 1)).
(** The cases of [accept]. *)
Inductive accept_case := AcSession (n : Z) | AcCancelled | AcClosed.
Definition accept (s : baseServer) (c : accept_case) : option (baseServer * (Z + option goerr)) :=
  match c with
  | AcSession n =>
      if bool_decide (n ∈ sv_queue s) then Some (set_queue s (filter (λ x, x ≠ n) (sv_queue s)) (i32 (sessionQueueLen s - 1)), inl n) else None
  | AcCancelled => Some (s, inr (Some ContextErr))
  | AcClosed => if errorChan_closed s then Some (s, inr (serverError s)) else None
  end.
(** The socket is closed when the server created it; its error is an argument. *)
Definition server_Close (s : baseServer) (closeErr : option goerr) : baseServer * list ph_event * option goerr :=
  if sv_closed s then (s, [], None) else
  let '(h, l) := CloseServer (sessionHandler s) in
  let e := match serverError s with None => Some (Errorf "server closed" []) | e => e end in
  (set_closed (set_sessionHandler s h (sv_next s)) e, l, if createdPacketConn s then closeErr else None).
Definition setCloseError (s : baseServer) (e : goerr) : baseServer := if sv_closed s then s else set_closed s (Some e).
