(* ===== verification/ServerSpec.v ===== *)
(** ServerSpec: what a server promises to clients it does not know. *)

From S2P Require Import Prelude Utils Protocol AckFrame Frames FrameCodec Header TransportParams Protection PacketPacker Session Tokens PacketHandlers Server.
From S2P Require KeyUpdateSpec.

(** * Retry packets *)

Definition retry_bytes (version : Z) (dest src orig token : list Z) : list Z :=
  [0xf0] ++ u32_bytes version ++ [len dest] ++ dest ++ [len src] ++ src ++ [len orig] ++ orig ++ token.
Lemma retry_emits hdr connID token : Version hdr = VersionTLS → cid_ok (SrcConnectionID hdr) → cid_ok (DestConnectionID hdr) → cid_ok connID →
  emits (ExtendedHeader_Write (retry_header hdr connID token)) (retry_bytes VersionTLS (SrcConnectionID hdr) connID (DestConnectionID hdr) token).
Proof.
  unfold cid_ok, MaxConnIDLen. intros Hv Hs Hd Hc. unfold ExtendedHeader_Write, retry_header, MaxConnIDLen.
  cbn [eh_Header DestConnectionID SrcConnectionID OrigDestConnectionID IsLongHeader]. rewrite !(proj2 (Z.ltb_ge 20 _)) by done.
  pose proof (len_nonneg (SrcConnectionID hdr)). pose proof (len_nonneg (DestConnectionID hdr)). pose proof (len_nonneg connID).
  unfold writeLongHeader, retry_bytes. cbn [eh_Header Type_ Version DestConnectionID SrcConnectionID OrigDestConnectionID Token PacketNumberLen].
  rewrite decide_True by done. rewrite Hv, !(u8_small (len _)) by lia.
  apply (emits_then _ _ [_]); [apply (emits_byte 0xf0)|]. apply emits_then; [apply emits_Uint32|].
  apply (emits_then _ _ [_]); [apply emits_byte|]. apply emits_then; [apply emits_bytes|].
  apply (emits_then _ _ [_]); [apply emits_byte|]. apply emits_then; [apply emits_bytes|].
  apply (emits_then _ _ [_]); [apply emits_byte|]. apply emits_then; [apply emits_bytes|apply emits_bytes].
Qed.
Lemma retry_parse dest src orig token scl : let p := retry_bytes VersionTLS dest src orig token in
  len dest <= 255 → len src <= 255 → len orig <= 255 → len token < 2 ^ 32 →
  ∃ hdr, ParsePacket p scl = Ok (hdr, p, []) ∧ IsLongHeader hdr = true ∧ Type_ hdr = Some PacketTypeRetry ∧ DestConnectionID hdr = dest ∧
    SrcConnectionID hdr = src ∧ OrigDestConnectionID hdr = orig ∧ Token hdr = token.
Proof.
  intros p Hd Hs Ho Ht. pose proof (len_nonneg dest). pose proof (len_nonneg src). pose proof (len_nonneg orig). pose proof (len_nonneg token).
  assert (parseHeaderImpl scl p = Ok ((mkHeader true 0xf0 (Some PacketTypeRetry) VersionTLS src dest 0 token [] orig 0, false), [])) as Hp.
  { unfold p, retry_bytes, parseHeaderImpl. rewrite (bind_reads _ _ [_] 0xf0) by apply reads_ReadByte. change (negb (0 <? Z.land 240 128)) with false. cbv iota.
    unfold parseLongHeader. rewrite (bind_reads _ _ _ VersionTLS) by (apply reads_Uint32_bytes; by vm_compute).
    change (negb (VersionTLS =? 0) && (Z.land 240 64 =? 0)) with false. cbv iota.
    rewrite (bind_reads _ _ [_] (len dest)) by apply reads_ReadByte. rewrite (bind_reads _ _ _ dest) by apply reads_ReadConnectionID.
    rewrite (bind_reads _ _ [_] (len src)) by apply reads_ReadByte. rewrite (bind_reads _ _ _ src) by apply reads_ReadConnectionID.
    change (VersionTLS =? 0) with false. change (negb (IsSupportedVersion SupportedVersions VersionTLS)) with false. change (header_type 240) with PacketTypeRetry. cbv iota zeta.
    rewrite (bind_reads _ _ [_] (len orig)) by apply reads_ReadByte. rewrite (bind_reads _ _ _ orig) by apply reads_ReadConnectionID.
    unfold mbind, parser_bind, ReaderLen. rewrite <- (app_nil_r token) at 2. by rewrite reads_ReadFull. }
  unfold ParsePacket, parseHeader. rewrite Hp. cbn [IsLongHeader set_parsedLen parsedLen h_Length]. rewrite len_nil, Z.sub_0_r, Z.add_0_r.
  assert (0 <= len p < 2 ^ 40) as Hl. { unfold p, retry_bytes, u32_bytes. autorewrite with len. simpl len. autorewrite with len. lia. }
  rewrite u64_small, i64_small by lia. rewrite !Z.ltb_irrefl. rewrite (proj2 (Z.ltb_ge (len p) 0)) by lia. cbn [orb].
  replace (Z.to_nat (len p)) with (length p) by (unfold len; lia). rewrite firstn_all, drop_all. eexists. split; [reflexivity|]. done.
Qed.

Section ServerOk.
Context `{QTLS} `{TokenCryptoOk} (hmac : list Z → list Z → list Z).

(** A client's Initial packet. *)
Definition initial_packet (s : baseServer) (p : receivedPacket) (hdr : Header) : Prop :=
  MinInitialPacketSize <= len (rp_data p) ∧ (∃ packet rest, ParsePacket (rp_data p) (cfg_ConnectionIDLength (sv_config s)) = Ok (hdr, packet, rest)) ∧
  IsLongHeader hdr = true ∧ Version hdr = VersionTLS ∧ IsSupportedVersion (cfg_Versions (sv_config s)) VersionTLS = true ∧
  Type_ hdr = Some PacketTypeInitial ∧ cid_ok (SrcConnectionID hdr) ∧ cid_ok (DestConnectionID hdr).
Lemma initial_handled s env addr p hdr : initial_packet s p hdr →
  server_handlePacketImpl hmac s env addr p =
  match handleInitialImpl hmac s env addr p hdr with
  | Panic m => Panic m
  | Err _ => Ok (s, [], false)
  | Ok (l, None) => Ok (s, l, false)
  | Ok (l, Some (sess, connID)) =>
      Ok (set_sessionHandler s (ph_Add (sessionHandler s) connID (mkHandler (ns_number sess) PerspectiveServer)) (sv_next s + 1), l, true)
  end.
Proof.
  intros (Hl & (packet & rest & Ep) & Hlong & Hv & Hsup & Hty & _). unfold server_handlePacketImpl. rewrite (proj2 (Z.ltb_ge _ MinInitialPacketSize)) by lia.
  rewrite Ep, Hlong, Hv, Hsup, Hty. cbn [negb]. rewrite bool_decide_true by done. done.
Qed.
(** Without a token, or with one that is not accepted, the client is sent a Retry. *)
Lemma retry_sent s env addr hdr nonce connID : Version hdr = VersionTLS → cid_ok (SrcConnectionID hdr) → cid_ok (DestConnectionID hdr) → cid_ok connID →
  ev_nonce env = inl nonce → ev_connID env = inl connID →
  ∃ token, NewRetryToken (tokenGenerator s) (ev_now env) (inl nonce) addr (DestConnectionID hdr) = inl token ∧
    sendRetry s env addr hdr = Ok [SvWriteTo (retry_bytes VersionTLS (SrcConnectionID hdr) connID (DestConnectionID hdr) token) addr].
Proof.
  intros Hv Hs Hd Hc En Ec. unfold sendRetry. rewrite En, Ec. unfold NewRetryToken, protector_NewToken. destruct (token_createAEAD _ nonce) as [key an].
  eexists. split; [reflexivity|]. unfold run_writer. rewrite retry_emits by done. done.
Qed.
Definition creates (l : list sv_event) : bool := existsb (λ e, match e with SvNewSession _ => true | _ => false end) l.
Lemma refused s env addr hdr l : sendRetry s env addr hdr = Ok l → creates l = false.
Proof.
  unfold sendRetry. destruct (NewRetryToken _ _ _ _ _); [|done]. destruct (ev_connID env); [|done]. unfold run_writer.
  destruct (ExtendedHeader_Write _ _) as [b [| |]]; try done. cbn [mbind outcome_bind]. by intros [= <-].
Qed.

(** C15: A Retry validates a client's address.  A client without a token gets a Retry
    and no session; it can read the Retry, which names the connection IDs to use and
    carries a token.  An Initial packet with this token, from the same address and
    within the five seconds that interface.go promises, gets a session whose transport
    parameters name the connection ID the client chose first, as the client checks,
    and whose connection ID leads to it; from another address, or after the ten
    seconds of params.go, it gets none.  What is right in between, where the two differ,
    is not said. *)
Theorem retry_validates_address s env addr p hdr nonce connID :
  initial_packet s p hdr → cfg_AcceptToken (sv_config s) = Some defaultAcceptToken → Token hdr = [] → MinConnectionIDLenInitial <= len (DestConnectionID hdr) →
  ev_nonce env = inl nonce → len nonce = tokenNonceSize → ev_connID env = inl connID → cid_ok connID →
  0 <= ev_now env < 2 ^ 63 → len (encodeRemoteAddr addr) < 2 ^ 12 →
  ∃ retry rhdr, server_handlePacketImpl hmac s env addr p = Ok (s, [SvWriteTo retry addr], false) ∧
    ParsePacket retry (len (SrcConnectionID hdr)) = Ok (rhdr, retry, []) ∧ Type_ rhdr = Some PacketTypeRetry ∧
    DestConnectionID rhdr = SrcConnectionID hdr ∧ SrcConnectionID rhdr = connID ∧ OrigDestConnectionID rhdr = DestConnectionID hdr ∧
    ∀ s2 env2 addr2 p2 hdr2, tokenGenerator s2 = tokenGenerator s → cfg_AcceptToken (sv_config s2) = Some defaultAcceptToken →
      initial_packet s2 p2 hdr2 → Token hdr2 = Token rhdr →
      (source_address addr2 = source_address addr → ev_now env2 <= ev_now env + promisedRetryTokenValidity →
       sessionQueueLen s2 < MaxAcceptQueueSize → ev_newSession env2 = None → ∀ connID2, ev_connID env2 = inl connID2 →
       ∃ sess s3, server_handlePacketImpl hmac s2 env2 addr2 p2 = Ok (s3, [SvNewSession sess; SvSessionPacket (ns_number sess) p2], true) ∧
         OriginalConnectionID (ns_params sess) = DestConnectionID hdr ∧ ns_clientDestConnID sess = DestConnectionID hdr2 ∧ ns_remoteAddr sess = addr2 ∧
         handlers (sessionHandler s3) !! connID2 = Some (mkHandler (ns_number sess) PerspectiveServer)) ∧
      (source_address addr2 ≠ source_address addr ∨ ev_now env + 10 * 1000000000 < ev_now env2 →
       ∀ s3 l passedOn, server_handlePacketImpl hmac s2 env2 addr2 p2 = Ok (s3, l, passedOn) → passedOn = false ∧ s3 = s2 ∧ creates l = false).
Proof.
  intros Hp Hacc Htok Hdl En Hnl Ec Hcid Hnow Ha. pose proof Hp as (_ & _ & _ & Hv & _ & _ & Hs & Hd).
  destruct (retry_sent s env addr hdr nonce connID Hv Hs Hd Hcid En Ec) as (token & Etk & Esend). unfold cid_ok, MaxConnIDLen in Hs, Hd, Hcid.
  assert (len (DestConnectionID hdr) < 2 ^ 12) as Hd12 by lia. pose proof (retry_token_len _ _ _ _ _ _ Hnl Ha Hd12 (proj1 Hnow) Etk) as Htl.
  destruct (retry_parse (SrcConnectionID hdr) connID (DestConnectionID hdr) token (len (SrcConnectionID hdr))) as (rhdr & Ep & _ & Ety & Ed & Es & Eo & Et); [lia..|].
  destruct (token_decodes (tokenGenerator s) (ev_now env) nonce addr (DestConnectionID hdr) token Hnl Hnow Ha Hd12 Etk) as (t & Edec & Eorig & Haccept).
  exists (retry_bytes VersionTLS (SrcConnectionID hdr) connID (DestConnectionID hdr) token), rhdr. split; [|split; [done|do 4 (split; [done|])]].
  - rewrite (initial_handled s env addr p hdr Hp). unfold handleInitialImpl. rewrite Htok, Hacc. rewrite (proj2 (Z.ltb_ge (len (DestConnectionID hdr)) _)) by done.
    cbn [andb len length Z.eqb Z.ltb mbind outcome_bind Z.of_nat Z.compare negb defaultAcceptToken]. rewrite Esend. done.
  - intros s2 env2 addr2 p2 hdr2 Eg2 Hacc2 Hp2 Etok2. rewrite (initial_handled s2 env2 addr2 p2 hdr2 Hp2).
    unfold handleInitialImpl. rewrite Etok2, Et, Hacc2, Eg2.
    assert (0 < len token) as Hpos. { unfold DecodeToken in Edec. pose proof (len_nonneg token). destruct (Z.eqb_spec (len token) 0); [done|lia]. }
    rewrite (proj2 (Z.eqb_neq (len token) 0)), (proj2 (Z.ltb_lt 0 (len token))) by lia. cbn [andb]. rewrite Edec. cbn [mbind outcome_bind].
    specialize (Haccept (ev_now env2) addr2). split.
    + intros Esrc Htime Hq Hns connID2 Ec2. rewrite (proj2 Haccept) by (split; [unfold promisedRetryTokenValidity, RetryTokenValidity in *; lia|done]). cbn [negb]. rewrite (proj2 (Z.leb_gt MaxAcceptQueueSize _)) by done. rewrite Ec2.
      unfold createNewSession. rewrite Hns. cbn [mbind outcome_bind]. eexists _, _. split; [reflexivity|]. split; [exact Eorig|]. split; [done|]. split; [done|].
      simpl. apply lookup_insert_eq.
    + intros Hbad s3 l passedOn E. destruct (defaultAcceptToken (ev_now env2) addr2 _) eqn:Eacc.
      { destruct (proj1 Haccept eq_refl) as [? ?]. unfold RetryTokenValidity in *. destruct Hbad; [done|lia]. }
      cbn [negb] in E. destruct (sendRetry s2 env2 addr2 hdr2) as [l'| |] eqn:Er; cbn [mbind outcome_bind] in E.
      * injection E as <- <- <-. split; [done|]. split; [done|]. by eapply refused.
      * by injection E as <- <- <-.
      * done.
Qed.
End ServerOk.

#[local] Existing Instance KeyUpdateSpec.counting_tls.
Definition test_server : baseServer :=
  mkServer false (populateServerConfig None) false (replicate 32 1) (SetServer (newPacketHandlerMap 4 [])) None false false [] 0 1.
Definition test_initial : list Z :=
  [0xc0] ++ u32_bytes VersionTLS ++ [8] ++ [1; 2; 3; 4; 5; 6; 7; 8] ++ [4] ++ [9; 9; 9; 9] ++ [0; 0x44; 0x97] ++ replicate 1178 0.
Definition test_initial_header : Header :=
  mkHeader true 0xc0 (Some PacketTypeInitial) VersionTLS [9; 9; 9; 9] [1; 2; 3; 4; 5; 6; 7; 8] 1175 [] [] [] 22.
Definition test_env : sv_env := mkSvEnv 1500000000000000000 (inl (replicate 32 2)) (inl [7; 7; 7; 7]) (replicate 16 5) (1, 2, 3) None.
Definition test_addr : net_Addr := UDPAddr [10; 0; 0; 1] 443.
(** The packet that the client sends after the Retry, three seconds later, and from
    another port. *)
Definition test_token : list Z :=
  match server_handlePacketImpl test_hmac test_server test_env test_addr (mkReceived 0 test_initial 1) with
  | Ok (_, [SvWriteTo retry _], _) => match ParsePacket retry 4 with Ok (h, _, _) => Token h | _ => [] end
  | _ => []
  end.
Definition test_second : list Z :=
  [0xc0] ++ u32_bytes VersionTLS ++ [4] ++ [7; 7; 7; 7] ++ [4] ++ [9; 9; 9; 9] ++ [0x40; len test_token] ++ test_token ++ [0x44; 0x97] ++ replicate 1175 0.
Definition test_second_header : Header := match ParsePacket test_second 4 with Ok (h, _, _) => h | _ => test_initial_header end.
Definition test_env2 : sv_env := mkSvEnv 1500000003000000000 (inl (replicate 32 3)) (inl [8; 8; 8; 8]) (replicate 16 6) (1, 2, 3) None.
Lemma retry_validates_address_witness : ∃ retry sess s3,
  server_handlePacketImpl test_hmac test_server test_env test_addr (mkReceived 0 test_initial 1) = Ok (test_server, [SvWriteTo retry test_addr], false) ∧
  server_handlePacketImpl test_hmac test_server test_env2 (UDPAddr [10; 0; 0; 1] 4433) (mkReceived 0 test_second 2)
    = Ok (s3, [SvNewSession sess; SvSessionPacket (ns_number sess) (mkReceived 0 test_second 2)], true) ∧
  OriginalConnectionID (ns_params sess) = [1; 2; 3; 4; 5; 6; 7; 8].
Proof.
  destruct (retry_validates_address test_hmac test_server test_env test_addr (mkReceived 0 test_initial 1) test_initial_header
    (replicate 32 2) [7; 7; 7; 7]) as (retry & rhdr & E & Ep & _ & _ & _ & _ & Hnext); try reflexivity.
  - split; [by vm_compute|]. split; [eexists _, _; vm_compute; reflexivity|]. split; [done|]. split; [done|]. split; [done|]. split; [done|]. split; by vm_compute.
  - by vm_compute.
  - split; by vm_compute.
  - assert (Token rhdr = test_token) as Etok.
    { unfold test_token. rewrite E. change 4 with (len (SrcConnectionID test_initial_header)). by rewrite Ep. }
    destruct (Hnext test_server test_env2 (UDPAddr [10; 0; 0; 1] 4433) (mkReceived 0 test_second 2) test_second_header) as [Hsess _]; [reflexivity|reflexivity| | |].
    + split; [by vm_compute|]. split; [eexists _, _; vm_compute; reflexivity|]. split; [by vm_compute|]. split; [by vm_compute|]. split; [by vm_compute|]. split; [by vm_compute|]. split; by vm_compute.
    + rewrite Etok. vm_compute. reflexivity.
    + destruct (Hsess eq_refl ltac:(by vm_compute) ltac:(by vm_compute) eq_refl [8; 8; 8; 8] eq_refl) as (sess & s3 & E3 & Eo & _).
      exists retry, sess, s3. split; [exact E|]. split; [exact E3|exact Eo].
Defined.

(** * Copies of an Initial packet *)

(** The server finds sessions by the connection IDs it chose itself: a copy of an
    Initial packet, which still has the client's, gets a session of its own. *)
Definition trusting_server : baseServer :=
  mkServer false (populateServerConfig (Some (mkQuicConfig [] 0 0 0 (Some (λ _ _ _, true)) 0 0 0 0 [] false))) false (replicate 32 1)
    (SetServer (newPacketHandlerMap 4 [])) None false false [] 0 1.
Definition server_after (r : outcome (baseServer * list sv_event * bool)) : baseServer := match r with Ok (s, _, _) => s | _ => trusting_server end.
Definition after_first : baseServer :=
  server_after (server_handlePacketImpl test_hmac trusting_server test_env (UDPAddr [10; 0; 0; 1] 443) (mkReceived 0 test_initial 1)).
Example initial_copy_new_session :
  ph_handlePacket test_hmac (sessionHandler after_first) [] (UDPAddr [10; 0; 0; 1] 443) 0 2 test_initial
    = Ok [PhServerHandle (UDPAddr [10; 0; 0; 1] 443) (mkReceived 0 test_initial 2)] ∧
  sv_next after_first = 2 ∧
  sv_next (server_after (server_handlePacketImpl test_hmac after_first test_env (UDPAddr [10; 0; 0; 1] 443) (mkReceived 0 test_initial 2))) = 3.
Proof. split_and!; by vm_compute. Qed.

(** * The accept queue *)

(** The length of the queue is checked when a client is new, and grows when a session
    is ready: sessions that were let in while the queue was not full make it longer
    than the maximum. *)
Example accept_queue_grows : sessionQueueLen (foldl session_ready trusting_server (seqZ 1 40)) = 40 ∧ MaxAcceptQueueSize = 32.
Proof. by vm_compute. Qed.
