(* ===== verification/Client.v ===== *)
(** Client: quic-go/client.go.  A client runs a session; when the server answers with
    a Version Negotiation packet, the session is closed and another one is created
    with a version both sides know. *)

From S2P Require Import Prelude Utils Protocol Header TransportParams Session Tokens PacketHandlers Server.
From S2P Require FlowControl.

(** * Configuration *)

Definition populateClientConfig (config : option quicConfig) (createdPacketConn : bool) : quicConfig :=
  let c := default config_zero config in
  mkQuicConfig (if len (cfg_Versions c) =? 0 then SupportedVersions else cfg_Versions c)
    (if (cfg_ConnectionIDLength c =? 0) && negb createdPacketConn then DefaultConnectionIDLength else cfg_ConnectionIDLength c)
    (or_default (cfg_HandshakeTimeout c) DefaultHandshakeTimeout) (or_default (cfg_QuicIdleTimeout c) DefaultIdleTimeout) None
    (or_default (cfg_MaxReceiveStreamFlowControlWindow c) DefaultMaxReceiveStreamFlowControlWindow)
    (or_default (cfg_MaxReceiveConnectionFlowControlWindow c) DefaultMaxReceiveConnectionFlowControlWindow)
    (or_streams (cfg_MaxIncomingStreams c) DefaultMaxIncomingStreams)
    (or_streams (cfg_MaxIncomingUniStreams c) DefaultMaxIncomingUniStreams)
    (cfg_StatelessResetKey c) (cfg_KeepAlive c).

(** * State *)

(** The arguments of [newClientSession]. *)
Record clientSessionArgs := mkClientSession {
  cs_number : Z; cs_destConnID : list Z; cs_srcConnID : list Z; cs_initialPacketNumber : Z; cs_params : TransportParameters;
  cs_initialVersion : Z; cs_version : Z }.
(** What the client does to its sessions and to the packet handlers. *)
Inductive client_event :=
  | ClNewSession (s : clientSessionArgs)
  | ClAdd (connID : list Z)
  | ClSessionPacket (session : Z) (p : receivedPacket)
  | ClDestroy (session : Z) (e : goerr)
  | ClCloseForRecreating (session : Z)
  | ClClose (session : Z)
  | ClCloseHandlers.
(** Sessions are numbered. *)
Record client := mkClient {
  cl_createdPacketConn : bool; cl_config : quicConfig; cl_srcConnID : list Z; cl_destConnID : list Z;
  versionNegotiated : bool; receivedVersionNegotiationPacket : bool; negotiatedVersions : list Z;
  initialPacketNumber : Z; initialVersion : Z; cl_version : Z; cl_session : option Z; cl_sessions : Z }.
Definition set_negotiated (c : client) (b : bool) : client :=
  mkClient (cl_createdPacketConn c) (cl_config c) (cl_srcConnID c) (cl_destConnID c) b (receivedVersionNegotiationPacket c) (negotiatedVersions c)
    (initialPacketNumber c) (initialVersion c) (cl_version c) (cl_session c) (cl_sessions c).
Definition set_version (c : client) (versions : list Z) (newVersion pn : Z) : client :=
  mkClient (cl_createdPacketConn c) (cl_config c) (cl_srcConnID c) (cl_destConnID c) (versionNegotiated c) true versions
    pn (cl_version c) newVersion (cl_session c) (cl_sessions c).
Definition set_session (c : client) (n : Z) : client :=
  mkClient (cl_createdPacketConn c) (cl_config c) (cl_srcConnID c) (cl_destConnID c) (versionNegotiated c) (receivedVersionNegotiationPacket c) (negotiatedVersions c)
    (initialPacketNumber c) (initialVersion c) (cl_version c) (Some n) (cl_sessions c + 1).
(** [newClient], with the connection IDs that were drawn; [sniErr] is the error of
    splitting the name of the server, which is left to TLS. *)
Definition newClient (config : quicConfig) (createdPacketConn : bool) (sniErr : option goerr) (srcConnID destConnID : list Z + goerr) : outcome client :=
  match sniErr with Some e => Err e | None =>
  match find (λ v, negb (IsValidVersion v)) (cfg_Versions config), srcConnID, destConnID with
  | Some v, _, _ => Err (Errorf "%s is not a valid QUIC version" [v])
  | None, inr e, _ => Err e
  | None, _, inr e => Err e
  | None, inl src, inl dest =>
      match cfg_Versions config with
      | [] => Panic "index out of range"
      | v :: _ => Ok (mkClient createdPacketConn config src dest false false [] 0 0 v None 0)
      end
  end
  end.

(** * Packets *)

Definition errCloseForRecreating : goerr := Errorf "closing session in order to recreate it" [].
(** [pn] is the packet number the closed session returns.  The mutex is held. *)
Definition handleVersionNegotiationPacket (c : client) (p : receivedPacket) (pn : Z) : outcome (client * list client_event) :=
  match ParsePacket (rp_data p) 0 with
  | Panic m => Panic m
  | Err _ => Ok (c, [])
  | Ok (hdr, _, _) =>
      if receivedVersionNegotiationPacket c || versionNegotiated c then Ok (c, [])
      else if existsb (λ v, v =? cl_version c) (h_SupportedVersions hdr) then Ok (c, [])
      else
        match cl_session c with
        | None => Panic "nil pointer dereference"
        | Some n =>
            match ChooseSupportedVersion (cfg_Versions (cl_config c)) (h_SupportedVersions hdr) with
            | (_, false) => Ok (c, [ClDestroy n (Errorf "No compatible QUIC version found. We support %s, server offered %s" [])])
            | (newVersion, true) => Ok (set_version c (h_SupportedVersions hdr) newVersion pn, [ClCloseForRecreating n])
            end
        end
  end.
Definition client_handlePacket (c : client) (p : receivedPacket) (pn : Z) : outcome (client * list client_event) :=
  if IsVersionNegotiationPacket (rp_data p) then handleVersionNegotiationPacket c p pn
  else
    match cl_session c with
    | None => Panic "nil pointer dereference"
    | Some n => Ok (set_negotiated c true, [ClSessionPacket n p])
    end.

(** * Dialing *)

Definition client_params (c : client) : TransportParameters :=
  mkTP FlowControl.InitialMaxStreamData FlowControl.InitialMaxStreamData FlowControl.InitialMaxStreamData FlowControl.InitialMaxData
    MaxAckDelayInclGranularity AckDelayExponent true 0 (cfg_MaxIncomingUniStreams (cl_config c)) (cfg_MaxIncomingStreams (cl_config c))
    (cfg_QuicIdleTimeout (cl_config c)) None [].
(** [err] is the error of the session's constructor. *)
Definition createNewTLSSession (c : client) (err : option goerr) : client * list client_event * option goerr :=
  match err with
  | Some e => (c, [], Some e)
  | None =>
      let n := cl_sessions c + 1 in
      (set_session c n,
       [ClNewSession (mkClientSession n (cl_destConnID c) (cl_srcConnID c) (initialPacketNumber c) (client_params c) (initialVersion c) (cl_version c));
        ClAdd (cl_srcConnID c)], None)
  end.
(** How the wait for the handshake ends. *)
Inductive wait_result := WaitCancelled | WaitEnded (err : option goerr) | WaitHandshake.
(** The error, and what is done besides; when the session ends the socket is closed
    if the client made it. *)
Definition establishSecureConnection (c : client) (r : wait_result) : option goerr * list client_event :=
  match r with
  | WaitCancelled => (Some ContextErr, match cl_session c with Some n => [ClClose n] | None => [] end)
  | WaitEnded err => (err, if cl_createdPacketConn c && negb (bool_decide (err = Some errCloseForRecreating)) then [ClCloseHandlers] else [])
  | WaitHandshake => (None, [])
  end.
(** [dial] begins again when the session was closed to be recreated.  Every turn has
    the packets the session receives while it runs and the way it ends. *)
Record dial_turn := mkTurn { dt_create : option goerr; dt_packets : list (receivedPacket * Z); dt_result : wait_result }.
Fixpoint receive_all (c : client) (l : list (receivedPacket * Z)) : outcome (client * list client_event) :=
  match l with
  | [] => Ok (c, [])
  | (p, pn) :: l => '(c, ev) ← client_handlePacket c p pn; '(c, evs) ← receive_all c l; Ok (c, ev ++ evs)
  end.
(** [None] when the session of the last turn was closed to be recreated. *)
Fixpoint dial (c : client) (turns : list dial_turn) : outcome (client * list client_event * option (option goerr)) :=
  match turns with
  | [] => Ok (c, [], None)
  | t :: turns =>
      let '(c, ev, e) := createNewTLSSession c (dt_create t) in
      match e with
      | Some e => Ok (c, ev, Some (Some e))
      | None =>
          '(c, evp) ← receive_all c (dt_packets t);
          let '(err, evw) := establishSecureConnection c (dt_result t) in
          if bool_decide (err = Some errCloseForRecreating)
          then '(c, evs, r) ← dial c turns; Ok (c, ev ++ evp ++ evw ++ evs, r)
          else Ok (c, ev ++ evp ++ evw, Some err)
      end
  end.
Definition client_Close (c : client) : list client_event := match cl_session c with Some n => [ClClose n] | None => [] end.
Definition client_destroy (c : client) (e : goerr) : list client_event := match cl_session c with Some n => [ClDestroy n e] | None => [] end.
Definition client_GetVersion (c : client) : Z := cl_version c.

(** * Version negotiation *)

Lemma strip_elem v l : Z.land v 0x0f0f0f0f ≠ 0x0a0a0a0a → v ∈ StripGreasedVersions l ↔ v ∈ l.
Proof.
  intros Hv. induction l as [|w l IH]; [done|]. cbn [StripGreasedVersions]. rewrite elem_of_cons. destruct (Z.eqb_spec (Z.land w 0x0f0f0f0f) 0x0a0a0a0a); cbn [negb].
  - rewrite IH. split; [by right|]. intros [->|?]; done.
  - rewrite elem_of_cons, IH. done.
Qed.
Lemma existsb_version l v : existsb (λ x, x =? v) l = bool_decide (v ∈ l).
Proof.
  induction l as [|x l IH]; [done|]. cbn [existsb]. rewrite IH. destruct (Z.eqb_spec x v) as [->|Hne]; cbn [orb].
  - symmetry. apply bool_decide_eq_true. left.
  - apply bool_decide_ext. rewrite elem_of_cons. naive_solver.
Qed.
Lemma choose_spec ours theirs : match ChooseSupportedVersion ours theirs with
  | (v, true) => ∃ a b, ours = a ++ v :: b ∧ v ∈ theirs ∧ ∀ w, w ∈ a → w ∉ theirs
  | (_, false) => ∀ w, w ∈ ours → w ∉ theirs
  end.
Proof.
  induction ours as [|o ours IH]; [by intros w ?%not_elem_of_nil|]. cbn [ChooseSupportedVersion]. destruct (IsSupportedVersion theirs o) eqn:E.
  - apply IsSupportedVersion_spec in E. exists [], ours. split_and!; [done|done|by intros w ?%not_elem_of_nil].
  - assert (o ∉ theirs) as Ho by (intros Hin; apply IsSupportedVersion_spec in Hin; congruence). destruct (ChooseSupportedVersion ours theirs) as [v [|]].
    + destruct IH as (a & b & -> & Hv & Ha). exists (o :: a), b. split_and!; [done|done|]. intros w [->|?]%elem_of_cons; auto.
    + intros w [->|?]%elem_of_cons; auto.
Qed.
(** Once a Version Negotiation packet was followed, no other one is. *)
Lemma negotiated_packet c p pn c' l : receivedVersionNegotiationPacket c = true → client_handlePacket c p pn = Ok (c', l) →
  receivedVersionNegotiationPacket c' = true ∧ cl_version c' = cl_version c ∧ ∀ n, ClCloseForRecreating n ∉ l.
Proof.
  intros Hr. unfold client_handlePacket, handleVersionNegotiationPacket. destruct (IsVersionNegotiationPacket _).
  - destruct (ParsePacket _ 0) as [[[hdr packet] rest]| |]; [rewrite Hr; cbn [orb]| |done]; intros [= <- <-]; split_and!; try done; by intros n ?%not_elem_of_nil.
  - destruct (cl_session c); [|done]. intros [= <- <-]. split_and!; try done. intros n Hn. apply list_elem_of_singleton in Hn. done.
Qed.
Lemma negotiated_all c l c' ev : receivedVersionNegotiationPacket c = true → receive_all c l = Ok (c', ev) →
  cl_version c' = cl_version c ∧ ∀ n, ClCloseForRecreating n ∉ ev.
Proof.
  revert c ev. induction l as [|[p pn] l IH]; intros c ev Hr E; cbn [receive_all] in E.
  - injection E as <- <-. split; [done|]. by intros n ?%not_elem_of_nil.
  - destruct (client_handlePacket c p pn) as [[c1 ev1]| |] eqn:E1; try done. cbn [mbind outcome_bind] in E.
    destruct (receive_all c1 l) as [[c2 ev2]| |] eqn:E2; try done. cbn [mbind outcome_bind] in E. injection E as <- <-.
    destruct (negotiated_packet _ _ _ _ _ Hr E1) as (Hr1 & Hv1 & Hn1). destruct (IH c1 ev2 Hr1 E2) as [Hv2 Hn2]. split; [congruence|].
    intros n [?|?]%elem_of_app; [by apply (Hn1 n)|by apply (Hn2 n)].
Qed.

(** C17: Version negotiation leads to a version both sides know, and only once.  A
    client that has heard nothing yet and reads the packet of a server that does not
    offer its version changes to the first of its own versions the server offers and
    recreates its session, with the packet number after the last one used; if there is
    none, the session ends with an error; if the server offers the client's version
    after all, the packet is ignored, as it must come from somebody else.  Whatever
    the recreated session receives, it keeps its version. *)
Theorem version_negotiation_agrees c n p pn versions r0 b0 rand32 :
  cl_session c = Some n → receivedVersionNegotiationPacket c = false → versionNegotiated c = false →
  cid_ok (cl_srcConnID c) → cid_ok (cl_destConnID c) → byte_ok r0 → Forall (λ v, 0 <= v < 2 ^ 32) versions → len versions < 2 ^ 32 →
  (∀ v, v = cl_version c ∨ v ∈ cfg_Versions (cl_config c) → Z.land v 0x0f0f0f0f ≠ 0x0a0a0a0a) →
  rp_data p = ComposeVersionNegotiation (cl_srcConnID c) (cl_destConnID c) versions r0 b0 rand32 →
  if bool_decide (cl_version c ∈ versions) then client_handlePacket c p pn = Ok (c, [])
  else if bool_decide (Exists (λ v, v ∈ versions) (cfg_Versions (cl_config c))) then
    ∃ c' a v b, client_handlePacket c p pn = Ok (c', [ClCloseForRecreating n]) ∧
      cfg_Versions (cl_config c) = a ++ v :: b ∧ v ∈ versions ∧ (∀ w, w ∈ a → w ∉ versions) ∧
      cl_version c' = v ∧ initialVersion c' = cl_version c ∧ initialPacketNumber c' = pn ∧
      ∀ l c2 ev, receive_all (createNewTLSSession c' None).1.1 l = Ok (c2, ev) → cl_version c2 = v ∧ ∀ m, ClCloseForRecreating m ∉ ev
  else ∃ e, client_handlePacket c p pn = Ok (c, [ClDestroy n e]).
Proof.
  intros Hn Hr Hng Hs Hd Hr0 Hv Hl Hgr Ep. destruct (version_negotiation_packet (cl_srcConnID c) (cl_destConnID c) versions r0 b0 rand32 0 Hs Hd Hr0 Hv Hl)
    as (Hvn & hdr & Eparse & _ & _ & Estrip). rewrite <- Ep in Hvn, Eparse.
  assert (∀ v, v = cl_version c ∨ v ∈ cfg_Versions (cl_config c) → v ∈ h_SupportedVersions hdr ↔ v ∈ versions) as Hin.
  { intros v Hvv. specialize (Hgr v Hvv). by rewrite <- (strip_elem v _ Hgr), Estrip, (strip_elem v _ Hgr). }
  unfold client_handlePacket, handleVersionNegotiationPacket. rewrite Hvn, Eparse, Hr, Hng, Hn, existsb_version. cbn [orb].
  rewrite (bool_decide_ext _ _ (Hin (cl_version c) (or_introl eq_refl))). case_bool_decide as Hc1; [done|].
  pose proof (choose_spec (cfg_Versions (cl_config c)) (h_SupportedVersions hdr)) as Hch.
  destruct (ChooseSupportedVersion _ _) as [v [|]]; case_bool_decide as Hc2.
  - destruct Hch as (a & b & Eab & Hvt & Ha). eexists _, a, v, b. split; [reflexivity|]. split; [done|].
    split; [apply Hin; [right; rewrite Eab; apply elem_of_app; right; left|done]|].
    split; [intros w Hw Hw'; apply (Ha w Hw), Hin; [right; rewrite Eab; by apply elem_of_app; left|done]|]. split; [done|]. split; [done|]. split; [done|].
    intros l c2 ev E. apply negotiated_all in E; [done|done].
  - exfalso. apply Hc2, Exists_exists. destruct Hch as (a & b & Eab & Hvt & Ha). exists v. split; [rewrite Eab; apply elem_of_app; right; left|].
    apply Hin; [right; rewrite Eab; apply elem_of_app; right; left|done].
  - exfalso. apply Exists_exists in Hc2 as (w & Hw & Hw'). apply (Hch w Hw), Hin; [by right|done].
  - by eexists.
Qed.
Definition test_client : client := mkClient true (mkQuicConfig [VersionTLS; 5] 0 0 0 None 0 0 0 0 [] false) [] [1; 2; 3; 4; 5; 6; 7; 8] false false [] 0 0 VersionTLS (Some 1) 1.
Lemma version_negotiation_agrees_witness : ∃ c', client_handlePacket test_client
    (mkReceived 0 (ComposeVersionNegotiation [] [1; 2; 3; 4; 5; 6; 7; 8] [7; 5] 0x13 1 0xdeadbeef) 1) 4 = Ok (c', [ClCloseForRecreating 1]) ∧ initialPacketNumber c' = 4.
Proof.
  pose proof (version_negotiation_agrees test_client 1 (mkReceived 0 (ComposeVersionNegotiation [] [1; 2; 3; 4; 5; 6; 7; 8] [7; 5] 0x13 1 0xdeadbeef) 1) 4
    [7; 5] 0x13 1 0xdeadbeef eq_refl eq_refl eq_refl ltac:(by vm_compute) ltac:(by vm_compute) ltac:(unfold byte_ok; lia) ltac:(repeat constructor; lia) ltac:(by vm_compute)
    ltac:(intros v [->|Hv]; [by vm_compute|]; do 2 (apply elem_of_cons in Hv as [->|Hv]; [by vm_compute|]); by apply not_elem_of_nil in Hv) eq_refl) as Hw.
  rewrite bool_decide_false in Hw by (intros Hin; do 2 (apply elem_of_cons in Hin as [Hin|Hin]; [by vm_compute in Hin|]); by apply not_elem_of_nil in Hin).
  rewrite bool_decide_true in Hw by (right; left; right; left). destruct Hw as (c' & a & v & b & E & _ & _ & _ & _ & _ & Epn & _). exists c'. split; [exact E|exact Epn].
Defined.
