(* ===== verification/Replay.v ===== *)
(** Replay: qperf itself.  The control blocks of the requests that are replayed and
    the queues they wait in (src/datastructures), how they are made from the
    configuration and what is sent for them (src/common, src/client.go,
    src/server.go), and the statistics (src/common/data_collector.go).  Paths of this
    file are relative to src. *)

From S2P Require Import Prelude GoFloat.
From stdpp Require Import pretty.
Local Open Scope Z_scope.

(** * constants/constants.go *)

Definition DOCUMENT : string := "document".
Definition STYLESHEET : string := "stylesheet".
Definition SCRIPT : string := "script".
Definition IMAGE : string := "image".
Definition XHR : string := "xhr".
Definition OTHER : string := "other".
Definition KB : Z := 1000.

(** * datastructures/stream_control_block.go *)

Inductive StreamStatus := UNAVAILABLE | AVAILABLE | ENQUEUED | PENDING | FINISHED.
#[export] Instance StreamStatus_eq_dec : EqDecision StreamStatus.
Proof. solve_decision. Defined.
Record StreamControlBlock := mkBlock {
  Status : StreamStatus; ResourceId : Z; RequestUrl : string; ResponseSize : Z; RemainingSize : Z; ResourceType : string;
  TTFB : float; Dependencies : list Z; Domain : string; Method : string; IsStarted : bool; ServerDelay : float; ResponseBody : list Z;
  EnqueuedAt : Z; QueuedFor : Z; StartedAt : Z; FinishedAt : Z; TransmissionTime : Z }.
(** A pointer to a block is its position in the slice that holds them all. *)
Notation StreamControlBlockSlice := (list StreamControlBlock).
Definition set_status (b : StreamControlBlock) (s : StreamStatus) (enqueuedAt : Z) : StreamControlBlock :=
  mkBlock s (ResourceId b) (RequestUrl b) (ResponseSize b) (RemainingSize b) (ResourceType b) (TTFB b) (Dependencies b) (Domain b) (Method b) (IsStarted b)
    (ServerDelay b) (ResponseBody b) enqueuedAt (QueuedFor b) (StartedAt b) (FinishedAt b) (TransmissionTime b).
Definition set_started (b : StreamControlBlock) (startedAt : Z) : StreamControlBlock :=
  mkBlock (Status b) (ResourceId b) (RequestUrl b) (ResponseSize b) (RemainingSize b) (ResourceType b) (TTFB b) (Dependencies b) (Domain b) (Method b) (IsStarted b)
    (ServerDelay b) (ResponseBody b) (EnqueuedAt b) (QueuedFor b) startedAt (FinishedAt b) (TransmissionTime b).
Definition set_finished (b : StreamControlBlock) (finishedAt : Z) : StreamControlBlock :=
  mkBlock FINISHED (ResourceId b) (RequestUrl b) (ResponseSize b) (RemainingSize b) (ResourceType b) (TTFB b) (Dependencies b) (Domain b) (Method b) (IsStarted b)
    (ServerDelay b) (ResponseBody b) (EnqueuedAt b) (i64 (StartedAt b - EnqueuedAt b)) (StartedAt b) finishedAt (i64 (finishedAt - StartedAt b)).
Definition set_body (b : StreamControlBlock) (body : list Z) : StreamControlBlock :=
  mkBlock (Status b) (ResourceId b) (RequestUrl b) (ResponseSize b) (RemainingSize b) (ResourceType b) (TTFB b) (Dependencies b) (Domain b) (Method b) (IsStarted b)
    (ServerDelay b) body (EnqueuedAt b) (QueuedFor b) (StartedAt b) (FinishedAt b) (TransmissionTime b).

Fixpoint ReplayFinished (slice : StreamControlBlockSlice) : bool :=
  match slice with
  | [] => true
  | block :: slice => if negb (bool_decide (Status block = FINISHED)) then false else ReplayFinished slice
  end.
(** The first block with a property, [None] being the nil pointer. *)
Fixpoint find_block (P : StreamControlBlock → bool) (i : nat) (slice : StreamControlBlockSlice) : option nat :=
  match slice with [] => None | b :: slice => if P b then Some i else find_block P (S i) slice end.
Definition GetStreamControlBlockByUrl (slice : StreamControlBlockSlice) (url : string) : option nat := find_block (λ b, bool_decide (RequestUrl b = url)) 0 slice.
Definition GetStreamControlBlockByResourceId (slice : StreamControlBlockSlice) (id : Z) : option nat := find_block (λ b, ResourceId b =? id) 0 slice.

(** * datastructures/sync_fifo_queue.go, domain_control_block.go, server_control_block.go *)

Definition SyncFifoQueue := list nat.
Definition NewSyncFifoQueue (capacity : Z) : outcome SyncFifoQueue := if capacity <? 0 then Panic "makeslice: cap out of range" else Ok [].
Definition sfq_Size (q : SyncFifoQueue) : Z := len q.
Definition sfq_Empty (q : SyncFifoQueue) : bool := sfq_Size q <=? 0.
Definition sfq_Put (q : SyncFifoQueue) (block : nat) : SyncFifoQueue := q ++ [block].
Definition sfq_Get (q : SyncFifoQueue) : SyncFifoQueue * option nat :=
  if sfq_Empty q then (q, None) else match q with [] => (q, None) | object :: q => (q, Some object) end.

Record DomainQueueBlock := mkQueues {
  HighestPriorityQueue : SyncFifoQueue; HighPriorityQueue : SyncFifoQueue; NormalPriorityQueue : SyncFifoQueue;
  LowPriorityQueue : SyncFifoQueue; LowestPriorityQueue : SyncFifoQueue }.
Definition NewDomainQueueBlock (nRequests : Z) : outcome DomainQueueBlock :=
  q1 ← NewSyncFifoQueue nRequests; q2 ← NewSyncFifoQueue nRequests; q3 ← NewSyncFifoQueue nRequests;
  q4 ← NewSyncFifoQueue nRequests; q5 ← NewSyncFifoQueue nRequests; Ok (mkQueues q1 q2 q3 q4 q5).

Definition MinServerPort : Z := 8080.
Record ServerControlBlock := mkServerBlock { sb_Domain : string; sb_Port : string; RequestCount : Z }.
Definition NewServerControlBlock (domain port : string) : ServerControlBlock := mkServerBlock domain port 0.

(** * common/config.go, common/util.go *)

(** An entry of the file with the requests. *)
Record FilteredEntry := mkEntry {
  fe_ResourceId : Z; fe_RequestUrl : string; fe_ResponseSize : Z; fe_RemainingSize : Z; fe_ResourceType : string; fe_TTFB : float;
  fe_Dependencies : list Z; fe_Domain : string; fe_Method : string; fe_IsStarted : bool; fe_ServerDelay : float }.
Definition BuildStreamControlBlockSlice (entries : list FilteredEntry) : StreamControlBlockSlice :=
  (λ e, mkBlock UNAVAILABLE (u16 (fe_ResourceId e)) (fe_RequestUrl e) (u32 (fe_ResponseSize e)) (u32 (fe_RemainingSize e)) (fe_ResourceType e) (fe_TTFB e)
     (fe_Dependencies e) (fe_Domain e) (fe_Method e) (fe_IsStarted e) (fe_ServerDelay e) [] 0 0 0 0 0) <$> entries.
Fixpoint getFirstImageResourceId (slice : StreamControlBlockSlice) : Z :=
  match slice with [] => 0 | b :: slice => if bool_decide (ResourceType b = IMAGE) then ResourceId b else getFirstImageResourceId slice end.

(** [copy(dst, src)] inside of one array: the destination starts at [at_], the source
    is the first [n] bytes. *)
Definition copy_within (a : list Z) (at_ n : nat) : list Z :=
  let k := Nat.min (length a - at_) n in take at_ a ++ take k a ++ drop (at_ + k) a.
(** The loop of [Memset]; [bp] doubles, so that as many turns as there are bytes are
    enough. *)
Fixpoint memset_loop (fuel : nat) (a : list Z) (bp : nat) : option (list Z) :=
  if negb (bp <? length a)%nat then Some a
  else match fuel with O => None | S fuel => memset_loop fuel (copy_within a bp bp) (bp * 2) end.
Definition Memset (a : list Z) (value : Z) : option (list Z) :=
  match a with [] => Some [] | _ :: l => memset_loop (length a) (value :: l) 1 end.
Definition MakeResponseBody (block : StreamControlBlock) : option StreamControlBlock :=
  set_body block <$> Memset (replicate (Z.to_nat (ResponseSize block)) 0) (u8 (ResourceId block)).
Definition ValidateResponse (response : list Z) (responseSize value : Z) : bool :=
  if len response <=? 0 then false
  else if negb (u32 (len response) =? responseSize) then false
  else forallb (λ b, b =? u8 value) response.
(** Ports are given to domains in the order of their first entries. *)
Fixpoint build_servers (entries : list FilteredEntry) (blockMap : gmap string ServerControlBlock) (nextServerPort : Z) : gmap string ServerControlBlock :=
  match entries with
  | [] => blockMap
  | e :: entries =>
      match blockMap !! fe_Domain e with
      | None =>
          let newBlock := NewServerControlBlock (fe_Domain e) (pretty nextServerPort) in
          build_servers entries (<[fe_Domain e := mkServerBlock (sb_Domain newBlock) (sb_Port newBlock) 1]> blockMap) (nextServerPort + 1)
      | Some b => build_servers entries (<[fe_Domain e := mkServerBlock (sb_Domain b) (sb_Port b) (RequestCount b + 1)]> blockMap) nextServerPort
      end
  end.
Definition BuildServerControlBlockSlice (entries : list FilteredEntry) : gmap string ServerControlBlock := build_servers entries ∅ MinServerPort.

(** * client.go: a request *)

(** The body of a request, one byte. *)
Definition request_body (block : StreamControlBlock) : option (list Z) := Memset [0] (u8 (ResourceId block)).
(** What a stream returns to the calls of [io.ReadAtLeast(stream, buf, 1)]: data, at
    most as much as the buffer holds, or an error. *)
Definition read_result : Type := list Z + goerr.
(** The loop that receives a response, and the reads it leaves. *)
Fixpoint receive_response (reads_ : list read_result) (responseSize : Z) (received : list Z) : option (list Z + goerr) :=
  if negb (u32 (len received) <? responseSize) then Some (inl received)
  else match reads_ with
       | [] => None
       | inr e :: _ => Some (inr e)
       | inl data :: reads_ => receive_response reads_ responseSize (received ++ data)
       end.
(** The end of [sendRequest], after the data is received: whether the request is
    finished.  [closeErr] is the error of closing the stream. *)
Definition request_finished (block : StreamControlBlock) (received : list Z) (closeErr : option goerr) : bool :=
  match closeErr with Some _ => false | None => ValidateResponse received (ResponseSize block) (ResourceId block) end.

(** * server.go: a response *)

(** [handleRequest], of the bytes the stream delivers: what is written to it, a panic
    when there is no block for the byte. *)
Definition handleRequest (slice : StreamControlBlockSlice) (stream : list Z) : outcome (list Z) :=
  '(requestBody, _) ← ReadFull 1 stream;
  match requestBody with
  | b :: _ =>
      match GetStreamControlBlockByResourceId slice (u16 b) with
      | None => Panic "nil pointer dereference"
      | Some i => match slice !! i with None => Panic "nil pointer dereference" | Some t => Ok (ResponseBody t) end
      end
  | [] => Panic "index out of range"
  end.

(** * common/data_collector.go *)

Record streamStatistics := mkStats {
  st_RequestCount : Z; st_ResponseSize : Z; st_EnqueuedAt : Z; st_QueuedFor : Z; st_StartAt : Z; st_FinishedAt : Z; st_TransmissionTime : Z }.
Definition stats_add (s : streamStatistics) (b : StreamControlBlock) : streamStatistics :=
  mkStats (i64 (st_RequestCount s + 1)) (i64 (st_ResponseSize s + ResponseSize b)) (i64 (st_EnqueuedAt s + EnqueuedAt b)) (i64 (st_QueuedFor s + QueuedFor b))
    (i64 (st_StartAt s + StartedAt b)) (i64 (st_FinishedAt s + FinishedAt b)) (i64 (st_TransmissionTime s + TransmissionTime b)).
(** [int64(float64(sum) / float64(count))], for a count that is not zero. *)
Definition average (sum count : Z) : Z := f_to_int (f_div 53 (float64_of sum) (float64_of count)).
(** [None] without a resource of the type: the quotients are not numbers, and what
    their conversion to integers gives depends on the machine. *)
Definition calculateTimingStatistics (finished : StreamControlBlockSlice) (resourceType : string) : option streamStatistics :=
  let s := fold_left stats_add (filter (λ b, ResourceType b = resourceType) finished) (mkStats 0 0 0 0 0 0 0) in
  let n := st_RequestCount s in
  if n =? 0 then None
  else Some (mkStats n (average (st_ResponseSize s) n) (average (st_EnqueuedAt s) n) (average (st_QueuedFor s) n)
    (average (st_StartAt s) n) (average (st_FinishedAt s) n) (average (st_TransmissionTime s) n)).
Definition GetTimingReport (finished : StreamControlBlockSlice) : list (string * option streamStatistics) :=
  (λ t, (t, calculateTimingStatistics finished t)) <$> [DOCUMENT; STYLESHEET; XHR; SCRIPT; IMAGE; OTHER].

Example memset_7 : Memset (replicate 7 0) 5 = Some (replicate 7 5).
Proof. reflexivity. Qed.
Example averages : average 10 4 = 2 ∧ average (-10) 4 = -2.
Proof. by vm_compute. Qed.
