(* ===== verification/ReplaySpec.v ===== *)
(** ReplaySpec: the responses of qperf's server are what its client checks for, every
    domain has a port of its own, and the averages of the report are exact. *)

From S2P Require Import Prelude GoFloat Replay.
From stdpp Require Import pretty.
Local Open Scope Z_scope.

(** * Memset *)

Lemma length_copy_within a at_ n : (at_ <= length a)%nat → length (copy_within a at_ n) = length a.
Proof. intros H. unfold copy_within. rewrite !length_app, !length_take, length_drop. lia. Qed.
Lemma copy_within_replicate a bp v : (0 < bp < length a)%nat → take bp a = replicate bp v → take (bp * 2) (copy_within a bp bp) = replicate (Nat.min (bp * 2) (length a)) v.
Proof.
  intros Hb Ht. unfold copy_within. set (k := Nat.min (length a - bp) bp).
  assert (take k a = replicate k v) as Hk. { replace k with (Nat.min k bp) by lia. rewrite <- take_take, Ht. apply take_replicate. }
  rewrite Ht, Hk, app_assoc, <- replicate_add. rewrite take_app, take_replicate, length_replicate, take_drop_commute.
  destruct (decide (bp * 2 <= length a)%nat).
  - replace (bp * 2 - (bp + k))%nat with 0%nat by lia. rewrite Nat.add_0_r, drop_ge by (rewrite length_take; lia). rewrite app_nil_r. f_equal. lia.
  - rewrite drop_ge by (rewrite length_take; lia). rewrite app_nil_r. f_equal. lia.
Qed.
(** The loop fills the slice, and ends. *)
Lemma memset_loop_spec fuel a bp v : (0 < bp)%nat → take bp a = replicate (Nat.min bp (length a)) v → (length a <= bp + fuel)%nat →
  memset_loop fuel a bp = Some (replicate (length a) v).
Proof.
  revert a bp. induction fuel as [|fuel IH]; intros a bp Hb Ht Hf; cbn [memset_loop]; destruct (Nat.ltb_spec bp (length a)) as [Hlt|Hge]; cbn [negb]; try lia.
  1, 3: rewrite take_ge in Ht by lia; rewrite Ht at 1; do 2 f_equal; lia.
  rewrite Nat.min_l in Ht by lia. rewrite IH; [by rewrite length_copy_within by lia|lia| |rewrite length_copy_within by lia; lia].
  rewrite length_copy_within by lia. apply copy_within_replicate; [lia|done].
Qed.
Lemma Memset_spec a v : Memset a v = Some (replicate (length a) v).
Proof.
  destruct a as [|x l]; [done|]. unfold Memset. rewrite memset_loop_spec with (v := v); [done|lia| |cbn [length]; lia]. cbn [length take]. destruct l; done.
Qed.

(** * Responses *)

Lemma find_block_spec P bs n : match find_block P n bs with
  | Some i => ∃ k b, i = (n + k)%nat ∧ bs !! k = Some b ∧ P b = true
  | None => Forall (λ b, P b = false) bs
  end.
Proof.
  revert n. induction bs as [|b bs IH]; intros n; cbn [find_block]; [constructor|]. destruct (P b) eqn:E.
  - exists 0%nat, b. split; [lia|done].
  - specialize (IH (S n)). destruct (find_block P (S n) bs) as [i|]; [|by constructor]. destruct IH as (k & x & -> & Hk & Hx). exists (S k), x. split; [lia|done].
Qed.
Lemma find_by_id bs i b : NoDup (ResourceId <$> bs) → bs !! i = Some b → GetStreamControlBlockByResourceId bs (ResourceId b) = Some i.
Proof.
  intros Hnd Hb. unfold GetStreamControlBlockByResourceId. pose proof (find_block_spec (λ x, ResourceId x =? ResourceId b) bs 0) as H.
  destruct (find_block _ 0 bs) as [k|].
  - destruct H as (k' & x & -> & Hk & Hx). apply Z.eqb_eq in Hx. cbn [Nat.add]. f_equal.
    eapply NoDup_lookup; [exact Hnd|rewrite list_lookup_fmap, Hk; cbn; by rewrite Hx|by rewrite list_lookup_fmap, Hb].
  - apply (Forall_lookup_1 _ _ _ _ H) in Hb. cbv beta in Hb. by rewrite Z.eqb_refl in Hb.
Qed.
(** What the loop of the client receives. *)
Lemma receive_all_data reads_ size received data : len data = size → size < 2 ^ 32 →
  received ++ concat ((λ r, match r with inl d => d | inr _ => [] end) <$> reads_) = data → Forall (λ r, ∃ d, r = inl d ∧ d ≠ []) reads_ →
  receive_response reads_ size received = Some (inl data).
Proof.
  intros Hl Hs. revert received. induction reads_ as [|r reads_ IH]; intros received E Hr; cbn [receive_response].
  - rewrite app_nil_r in E. subst received. rewrite u32_small by (pose proof (len_nonneg data); lia). by rewrite Hl, Z.ltb_irrefl.
  - apply Forall_cons in Hr as [(d & -> & Hd) Hr]. cbn [fmap list_fmap concat] in E. pose proof (f_equal len E) as El. rewrite !len_app in El.
    pose proof (len_nonneg received). set (rest := concat _) in *. pose proof (len_nonneg rest). assert (0 < len d) by (destruct d; [done|rewrite len_cons; pose proof (len_nonneg d); lia]).
    rewrite u32_small by lia. rewrite (proj2 (Z.ltb_lt (len received) size)) by lia. cbn [negb]. apply IH; [|done]. by rewrite <- app_assoc.
Qed.
Lemma forallb_replicate n v : forallb (λ b, b =? v) (replicate n v) = true.
Proof. induction n as [|n IH]; [done|]. cbn [replicate forallb]. by rewrite Z.eqb_refl, IH. Qed.
Lemma response_validated response size v : 0 < size < 2 ^ 32 → len response < 2 ^ 32 → ValidateResponse response size v = true ↔ response = replicate (Z.to_nat size) (u8 v).
Proof.
  intros Hs Hl. unfold ValidateResponse. pose proof (len_nonneg response). rewrite (u32_small (len response)) by lia. split.
  - destruct (Z.leb_spec (len response) 0); [done|]. destruct (Z.eqb_spec (len response) size) as [E|]; [|done]. cbn [negb]. intros Hf.
    rewrite forallb_forall in Hf. unfold len in E. replace (Z.to_nat size) with (length response) by lia. apply list_eq_Forall2, Forall2_same_length_lookup_2.
    + by rewrite length_replicate.
    + intros i x y Hx Hy. apply lookup_replicate in Hy as [-> _]. apply Z.eqb_eq, Hf, list_elem_of_In, list_elem_of_lookup. eauto.
  - intros ->. unfold len in *. rewrite length_replicate, Z2Nat.id by lia. rewrite (proj2 (Z.leb_gt size 0)), Z.eqb_refl by lia. cbn [negb]. apply forallb_replicate.
Qed.

(** C26: The client's check of a response is right, where the resources have different
    numbers, for a resource that is not empty and whose number is less than 256, so that
    it fits into the one byte of the request.  The server finds the block the client
    asks for, and however its response is cut into reads, the client's loop ends with
    the whole of it and accepts it; and the client accepts no other bytes.  For other
    resources this fails: see [request_truncated] and [empty_not_accepted]. *)
Theorem response_accepted bs bs' i b reads_ : NoDup (ResourceId <$> bs) → bs !! i = Some b → 0 <= ResourceId b < 256 → 0 < ResponseSize b < 2 ^ 32 →
  Forall2 (λ x y, MakeResponseBody x = Some y) bs bs' →
  ∃ request response, request_body b = Some request ∧ handleRequest bs' request = Ok response ∧
    (concat ((λ r, match r with inl d => d | inr _ => [] end) <$> reads_) = response → Forall (λ r, ∃ d, r = inl d ∧ d ≠ []) reads_ →
     receive_response reads_ (ResponseSize b) [] = Some (inl response)) ∧
    (∀ received, len received < 2 ^ 32 → request_finished b received None = true ↔ received = response).
Proof.
  intros Hnd Hb Hid Hs Hbody. destruct (Forall2_lookup_l _ _ _ _ _ Hbody Hb) as (y & Hy & Ey). unfold MakeResponseBody in Ey. rewrite Memset_spec, length_replicate in Ey.
  cbn [fmap option_fmap option_map] in Ey. injection Ey as <-. set (response := replicate (Z.to_nat (ResponseSize b)) (u8 (ResourceId b))) in *.
  assert (len response = ResponseSize b) as Hlen by (unfold len, response; rewrite length_replicate; lia).
  assert (ResourceId <$> bs' = ResourceId <$> bs) as Eids.
  { clear -Hbody. induction Hbody as [|x y bs bs' E _ IH]; [done|]. cbn [fmap list_fmap]. f_equal; [|done]. unfold MakeResponseBody in E. rewrite Memset_spec in E. by injection E as <-. }
  exists [u8 (ResourceId b)], response. split; [unfold request_body; by rewrite Memset_spec|]. split; [|split].
  - unfold handleRequest. change (ReadFull 1 [u8 (ResourceId b)]) with (Ok ([u8 (ResourceId b)], @nil Z)). cbn [mbind outcome_bind].
    unwrap. pose proof (find_by_id bs' i (set_body b response)) as Hf. cbn [ResourceId set_body] in Hf. rewrite Hf; [|by rewrite Eids|done]. by rewrite Hy.
  - intros E Hr. apply receive_all_data; [done|lia|done|done].
  - intros received Hl. unfold request_finished. by apply response_validated.
Qed.
Definition sample_bodies : list StreamControlBlock :=
  BuildStreamControlBlockSlice [mkEntry 0 "/" 5 5 DOCUMENT (mkFloat 0 1) [] "example.org" "GET" false (mkFloat 0 1);
    mkEntry 7 "/a.js" 3 3 SCRIPT (mkFloat 0 1) [0] "example.org" "GET" false (mkFloat 0 1)].
Definition served_bodies : list StreamControlBlock := default [] (mapM MakeResponseBody sample_bodies).
Definition asked_block : StreamControlBlock := mkBlock UNAVAILABLE 7 "/a.js" 3 3 SCRIPT (mkFloat 0 1) [0] "example.org" "GET" false (mkFloat 0 1) [] 0 0 0 0 0.
Lemma response_accepted_witness : ∃ request response, request_body asked_block = Some request ∧ handleRequest served_bodies request = Ok response ∧
  receive_response [inl [7]; inl [7; 7]] 3 [] = Some (inl response).
Proof.
  destruct (response_accepted sample_bodies served_bodies 1 asked_block [inl [7]; inl [7; 7]]) as (request & response & E1 & E2 & E3 & _); try reflexivity.
  - apply (bool_decide_unpack (NoDup (ResourceId <$> sample_bodies))). by vm_compute.
  - split; by vm_compute.
  - split; by vm_compute.
  - repeat constructor.
  - exists request, response. split; [exact E1|]. split; [exact E2|]. apply E3.
    + vm_compute in E1. injection E1 as <-. vm_compute in E2. by injection E2 as <-.
    + repeat constructor; eexists; (split; [reflexivity|discriminate]).
Defined.
(** A request is one byte: for a resource with a number above 255 the server finds
    another one, or none and panics; and the response of an empty resource is never
    accepted, so that its request never finishes. *)
Example request_truncated : ∃ request, request_body (set_body (mkBlock UNAVAILABLE 256 "/big" 4 4 IMAGE (mkFloat 0 1) [] "" "GET" false (mkFloat 0 1) [] 0 0 0 0 0) []) = Some request ∧
  handleRequest served_bodies request = Ok [0; 0; 0; 0; 0].
Proof. eexists. split; reflexivity. Qed.
Example empty_not_accepted v : ValidateResponse [] 0 v = false.
Proof. done. Qed.

(** * Ports *)

(** The domains in the order of their first entries. *)
Fixpoint domains (seen : list string) (entries : list FilteredEntry) : list string :=
  match entries with
  | [] => seen
  | e :: entries => domains (if bool_decide (fe_Domain e ∈ seen) then seen else seen ++ [fe_Domain e]) entries
  end.
Definition requests (d : string) (entries : list FilteredEntry) : Z := len (filter (λ e, fe_Domain e = d) entries).
Lemma build_servers_spec entries seen m before : NoDup seen → (∀ d, d ∈ seen ↔ is_Some (m !! d)) → Forall (λ e, fe_Domain e ∈ seen) before →
  (∀ i d, seen !! i = Some d → m !! d = Some (mkServerBlock d (pretty (MinServerPort + Z.of_nat i)) (requests d before))) →
  let m' := build_servers entries m (MinServerPort + len seen) in let all := domains seen entries in
  NoDup all ∧ (∀ d, d ∈ all ↔ is_Some (m' !! d)) ∧
  ∀ i d, all !! i = Some d → m' !! d = Some (mkServerBlock d (pretty (MinServerPort + Z.of_nat i)) (requests d (before ++ entries))).
Proof.
  revert seen m before. induction entries as [|e entries IH]; intros seen m before Hnd Hin Hbf Hm; cbn [build_servers domains].
  { split; [done|]. split; [done|]. by rewrite app_nil_r. }
  assert (∀ d, requests d (before ++ [e]) = requests d before + if bool_decide (fe_Domain e = d) then 1 else 0) as Hreq.
  { intros d. unfold requests. rewrite filter_app, len_app, filter_cons, filter_nil. case_decide; [rewrite bool_decide_true by done|rewrite bool_decide_false by done]; done. }
  replace (before ++ e :: entries) with ((before ++ [e]) ++ entries) by (by rewrite <- app_assoc).
  destruct (m !! fe_Domain e) as [b|] eqn:Eb.
  - assert (fe_Domain e ∈ seen) as Hs by (apply Hin; eauto). rewrite bool_decide_true by done. apply IH; [done|..].
    + intros d. rewrite Hin. destruct (decide (fe_Domain e = d)) as [<-|Hne]; [rewrite lookup_insert_eq, Eb; split; eauto|by rewrite lookup_insert_ne].
    + apply Forall_app. split; [done|]. by apply Forall_singleton.
    + intros i d Hd. rewrite Hreq. destruct (decide (fe_Domain e = d)) as [<-|Hne].
      * rewrite lookup_insert_eq, bool_decide_true by done. specialize (Hm i _ Hd). rewrite Eb in Hm. injection Hm as ->. done.
      * rewrite lookup_insert_ne, bool_decide_false, Z.add_0_r by done. by apply Hm.
  - assert (fe_Domain e ∉ seen) as Hs by (rewrite Hin, Eb; by intros [? ?]). rewrite bool_decide_false by done. cbn [sb_Domain sb_Port NewServerControlBlock].
    replace (MinServerPort + len seen + 1) with (MinServerPort + len (seen ++ [fe_Domain e])) by (rewrite len_app; unfold len; cbn [length]; lia). apply IH.
    + apply NoDup_app. split; [done|]. split; [|apply NoDup_singleton]. intros x Hx Hx'%list_elem_of_singleton. congruence.
    + intros d. rewrite elem_of_app, list_elem_of_singleton, Hin. destruct (decide (fe_Domain e = d)) as [<-|Hne]; [rewrite lookup_insert_eq; split; eauto|].
      rewrite lookup_insert_ne by done. split; [by intros [?|?]|by left].
    + apply Forall_app. split; [|apply Forall_singleton, elem_of_app; right; by left]. eapply Forall_impl; [exact Hbf|]. intros x Hx. apply elem_of_app. by left.
    + intros i d Hd. rewrite Hreq. destruct (decide (i < length seen)%nat) as [Hlt|Hge].
      * rewrite lookup_app_l in Hd by done. assert (fe_Domain e ≠ d) by (intros E; apply Hs; rewrite E; apply list_elem_of_lookup; eauto).
        rewrite lookup_insert_ne, bool_decide_false, Z.add_0_r by done. by apply Hm.
      * rewrite lookup_app_r in Hd by lia. apply list_lookup_singleton_Some in Hd as [Hi <-]. rewrite lookup_insert_eq, bool_decide_true by done.
        assert (Z.of_nat i = len seen) as -> by (unfold len; lia). do 3 f_equal. unfold requests.
        assert (filter (λ x, fe_Domain x = fe_Domain e) before = []) as ->; [|done].
        destruct (filter _ before) as [|x l] eqn:Ex; [done|]. exfalso. assert (x ∈ filter (λ x, fe_Domain x = fe_Domain e) before) as Hx by (rewrite Ex; left).
        apply list_elem_of_filter in Hx as [E Hx]. rewrite Forall_forall in Hbf. apply Hs. rewrite <- E. by apply Hbf.
Qed.

Lemma domains_elem_seen seen entries d : d ∈ domains seen entries ↔ d ∈ seen ∨ ∃ e, e ∈ entries ∧ fe_Domain e = d.
Proof.
  revert seen. induction entries as [|e entries IH]; intros seen; cbn [domains].
  - split; [by left|]. intros [?|(e & ?%not_elem_of_nil & _)]; done.
  - rewrite IH. setoid_rewrite elem_of_cons. case_bool_decide as Hs; [|rewrite elem_of_app, list_elem_of_singleton]; naive_solver.
Qed.
Lemma domains_elem entries d : d ∈ domains [] entries ↔ ∃ e, e ∈ entries ∧ fe_Domain e = d.
Proof. rewrite domains_elem_seen. split; [intros [?%not_elem_of_nil|?]; done|by right]. Qed.

(** Every domain has a server of its own.  The domains of the requests get
    consecutive ports, in the order of their first requests, beginning with 8080: no
    two have the same; and the number of requests a server waits for is the number of
    requests to its domain. *)
Theorem domains_have_ports entries : let m := BuildServerControlBlockSlice entries in
  (∀ d, is_Some (m !! d) ↔ ∃ e, e ∈ entries ∧ fe_Domain e = d) ∧
  (∀ d b, m !! d = Some b → sb_Domain b = d ∧ RequestCount b = requests d entries ∧ ∃ i, domains [] entries !! i = Some d ∧ sb_Port b = pretty (MinServerPort + Z.of_nat i)) ∧
  (∀ d d' b b', m !! d = Some b → m !! d' = Some b' → sb_Port b = sb_Port b' → d = d').
Proof.
  intros m. destruct (build_servers_spec entries [] ∅ [] (NoDup_nil_2)) as (Hnd & Hin & Hm); [|by constructor|done|].
  { intros d. rewrite lookup_empty. split; [by intros ?%not_elem_of_nil|by intros [? ?]]. }
  rewrite app_nil_l in Hm. change (build_servers entries ∅ (MinServerPort + len (@nil string))) with m in *.
  assert (∀ d b, m !! d = Some b → sb_Domain b = d ∧ RequestCount b = requests d entries ∧ ∃ i, domains [] entries !! i = Some d ∧ sb_Port b = pretty (MinServerPort + Z.of_nat i)) as H.
  { intros d b Hd. assert (d ∈ domains [] entries) as Hdd by (apply Hin; eauto). apply list_elem_of_lookup in Hdd as [i Hi].
    rewrite (Hm i d Hi) in Hd. injection Hd as <-. split_and!; eauto. }
  split; [|split; [exact H|]].
  - intros d. rewrite <- Hin. apply domains_elem.
  - intros d d' b b' Hd Hd' Ep. destruct (H d b Hd) as (_ & _ & i & Hi & E1), (H d' b' Hd') as (_ & _ & j & Hj & E2). rewrite E1, E2 in Ep. apply pretty_Z_inj in Ep.
    assert (i = j) as -> by lia. congruence.
Qed.

(** * Averages *)

Lemma fround_pos_whole p q d : 0 < p → 0 < q < 2 ^ p → 0 < d → fnum (fround_pos p (q * d) d) = q * fden (fround_pos p (q * d) d).
Proof.
  intros Hp Hq Hd. unfold fround_pos. pose proof (ulp_exp_spec p (q * d) d ltac:(nia) Hd Hp) as Hs. simpl in Hs.
  set (e := ulp_exp p (q * d) d) in *. clearbody e. destruct (Z.leb_spec 0 e) as [He|He]; cbn [fnum fden].
  - assert (Pp : 2 ^ p = 2 * 2 ^ (p - 1)) by (rewrite <- Z.pow_succ_r by lia; f_equal; lia).
    assert (e = 0) as ->.
    { destruct (Z.eq_dec e 0) as [|]; [done|]. pose proof (Z.pow_le_mono_r 2 1 e ltac:(lia) ltac:(lia)). change (2 ^ 1) with 2 in *.
      assert (0 < 2 ^ (p - 1)) by (apply Z.pow_pos_nonneg; lia). set (P := 2 ^ (p - 1)) in *. set (E := 2 ^ e) in *. clearbody P E.
      assert (q * d < 2 * P * d) by (apply Z.mul_lt_mono_pos_r; lia). assert (2 * (d * P) <= E * (d * P)) by (apply Z.mul_le_mono_nonneg_r; nia). lia. }
    change (2 ^ 0) with 1. rewrite !Z.mul_1_r. by apply round_half_even_exact.
  - replace (q * d * 2 ^ (- e)) with (q * 2 ^ (- e) * d) by lia. by apply round_half_even_exact.
Qed.
(** The quotient of two integers below [2^53] is rounded to the right side of every
    integer. *)
Lemma average_exact s c : 0 <= s < 2 ^ 53 → 0 < c < 2 ^ 53 → average s c = s / c.
Proof.
  intros Hs Hc. unfold average, f_div, float64_of. destruct (f_of_int_exact 53 s ltac:(lia) ltac:(lia)) as [Hds Ens]. destruct (f_of_int_exact 53 c ltac:(lia) ltac:(lia)) as [Hdc Enc].
  rewrite Ens, Enc. set (ds := fden (f_of_int 53 s)) in *. set (dc := fden (f_of_int 53 c)) in *. clearbody ds dc. clear Ens Enc.
  set (K := ds * dc). assert (0 < K) by (unfold K; nia). replace (s * ds * dc) with (s * K) by (unfold K; lia). replace (ds * (c * dc)) with (c * K) by (unfold K; lia).
  set (x := mkFloat (s * K) (c * K)). pose proof (fround_err 53 x ltac:(cbn; nia) ltac:(lia)) as [Hd Herr].
  pose proof (fround_nonneg 53 x ltac:(cbn; nia) ltac:(lia) ltac:(cbn; nia)) as Hn.
  assert (s / c * fden (fround 53 x) <= fnum (fround 53 x) < (s / c + 1) * fden (fround 53 x)) as Hb; [|unfold f_to_int; rewrite Z.quot_div_nonneg by lia; symmetry; apply Z.div_unique_pos with (r := fnum (fround 53 x) - s / c * fden (fround 53 x)); lia].
  pose proof (Z.div_mod s c ltac:(lia)) as Edm. pose proof (Z.mod_pos_bound s c ltac:(lia)) as Hmod. set (q := s / c) in *. set (r := s mod c) in *.
  assert (r = 0 → fnum (fround 53 x) = q * fden (fround 53 x)) as Hwhole.
  { intros Hr. unfold fround, x. cbn [fnum fden]. rewrite Edm, Hr, Z.add_0_r. replace (c * q * K) with (q * (c * K)) by lia.
    destruct (Z.eqb_spec (q * (c * K)) 0) as [E|E]; [cbn [fnum fden]; nia|]. rewrite (proj2 (Z.ltb_lt 0 _)) by nia. apply fround_pos_whole; [lia|nia|nia]. }
  change (2 ^ 53 * Z.abs (fnum (fround 53 x) * (c * K) - s * K * fden (fround 53 x)) <= Z.abs (s * K) * fden (fround 53 x)) in Herr. set (dy := fden (fround 53 x)) in *. set (ny := fnum (fround 53 x)) in *. clearbody dy ny q r.
  rewrite (Z.abs_eq (s * K)) in Herr by nia. replace (ny * (c * K) - s * K * dy) with ((ny * c - s * dy) * K) in Herr by lia. rewrite Z.abs_mul, (Z.abs_eq K) in Herr by lia.
  assert (2 ^ 53 * Z.abs (ny * c - s * dy) <= s * dy) as He by nia. clear Herr. assert (Z.abs (ny * c - s * dy) < dy) as Ha by nia.
  split; [|nia]. destruct (Z.eq_dec r 0) as [Hr|Hr]; [rewrite Hwhole by done; lia|]. nia.
Qed.

(** The sums of a type of resource. *)
Definition total (f : StreamControlBlock → Z) (l : list StreamControlBlock) : Z := foldr (λ b n, f b + n) 0 l.
Definition sums_ok (l : list StreamControlBlock) (f : StreamControlBlock → Z) : Prop := Forall (λ b, 0 <= f b) l ∧ total f l < 2 ^ 53.
Lemma sum_nonneg f l : Forall (λ b, 0 <= f b) l → 0 <= total f l.
Proof. induction 1; cbn [total foldr] in *; unfold total in *; lia. Qed.
Lemma stats_sum l s : st_RequestCount s + len l < 2 ^ 53 → 0 <= st_RequestCount s →
  let r := fold_left stats_add l s in st_RequestCount r = st_RequestCount s + len l ∧
  ∀ (f : StreamControlBlock → Z) (g : streamStatistics → Z), (∀ s b, g (stats_add s b) = i64 (g s + f b)) → 0 <= g s → Forall (λ b, 0 <= f b) l → g s + total f l < 2 ^ 53 →
    g r = g s + total f l.
Proof.
  revert s. induction l as [|b l IH]; intros s Hn Hs; cbn [fold_left].
  { split; [unfold len; cbn; lia|]. intros f g _ _ _ _. unfold total. cbn. lia. }
  rewrite len_cons in *. pose proof (len_nonneg l). assert (st_RequestCount (stats_add s b) = st_RequestCount s + 1) as E1.
  { cbn [stats_add st_RequestCount]. rewrite i64_small; lia. }
  destruct (IH (stats_add s b)) as [E2 Hg]; [lia|lia|]. split; [lia|]. intros f g Hadd Hg0 Hf Hsum. apply Forall_cons in Hf as [Hb Hf].
  pose proof (sum_nonneg f l Hf). change (total f (b :: l)) with (f b + total f l) in *. assert (g (stats_add s b) = g s + f b) as E3 by (rewrite Hadd, i64_small; lia).
  rewrite (Hg f g Hadd) by (done || lia). lia.
Qed.

(** The report is right.  For every type of resource that occurs, what is printed,
    the averages of the sizes, of the times in the queue and of the transmission
    times, are the exact averages rounded down, although they are computed with
    floating-point numbers, as long as the sums are below [2^53] (a hundred days in
    nanoseconds). *)
Theorem report_exact finished resourceType : let l := filter (λ b, ResourceType b = resourceType) finished in
  l ≠ [] → len l < 2 ^ 53 → sums_ok l ResponseSize → sums_ok l QueuedFor → sums_ok l TransmissionTime →
  ∃ s, calculateTimingStatistics finished resourceType = Some s ∧ st_RequestCount s = len l ∧
    st_ResponseSize s = total ResponseSize l / len l ∧ st_QueuedFor s = total QueuedFor l / len l ∧ st_TransmissionTime s = total TransmissionTime l / len l.
Proof.
  intros l Hl Hn [Hr1 Hr2] [Hq1 Hq2] [Ht1 Ht2]. unfold calculateTimingStatistics. fold l. destruct (stats_sum l (mkStats 0 0 0 0 0 0 0)) as [Ec Hg]; [cbn; lia|done|].
  cbn [st_RequestCount] in Ec. rewrite Z.add_0_l in Ec. assert (0 < len l) by (destruct l as [|b l']; [done|rewrite len_cons; pose proof (len_nonneg l'); lia]).
  rewrite Ec. rewrite (proj2 (Z.eqb_neq (len l) 0)) by lia. eexists. split; [reflexivity|]. cbn [st_RequestCount st_ResponseSize st_QueuedFor st_TransmissionTime].
  rewrite (Hg ResponseSize st_ResponseSize), (Hg QueuedFor st_QueuedFor), (Hg TransmissionTime st_TransmissionTime) by done.
  cbn [st_ResponseSize st_QueuedFor st_TransmissionTime]. rewrite !Z.add_0_l. split_and!; [done|..]; apply average_exact; (split; [by apply sum_nonneg|]) || lia; done.
Qed.
Definition report_blocks : list StreamControlBlock :=
  [mkBlock FINISHED 1 "/a.png" 10 10 IMAGE (mkFloat 0 1) [0] "example.org" "GET" false (mkFloat 0 1) [] 5 3 8 20 12;
   mkBlock FINISHED 2 "/a.js" 7 7 SCRIPT (mkFloat 0 1) [0] "example.org" "GET" false (mkFloat 0 1) [] 5 3 8 20 12;
   mkBlock FINISHED 3 "/b.png" 15 15 IMAGE (mkFloat 0 1) [0] "example.org" "GET" false (mkFloat 0 1) [] 5 4 9 30 21].
Lemma report_exact_witness : ∃ s, calculateTimingStatistics report_blocks IMAGE = Some s ∧ st_RequestCount s = 2 ∧ st_ResponseSize s = 12.
Proof.
  destruct (report_exact report_blocks IMAGE) as (s & E & En & Er & _).
  - discriminate.
  - by vm_compute.
  - split; [repeat constructor; by vm_compute|by vm_compute].
  - split; [repeat constructor; by vm_compute|by vm_compute].
  - split; [repeat constructor; by vm_compute|by vm_compute].
  - exists s. split; [exact E|]. split; [exact En|exact Er].
Defined.
