(* ===== verification/Scheduler.v ===== *)
(** Scheduler: src/schedulers/dynamic_fcfs_scheduler.go, which decides which request of
    qperf is sent next, and how the client starts a replay and ends a request
    (src/client.go).  The struct of the
    source does not declare the five queues its constructor and methods use; they are
    those of [DomainQueueBlock], where the fields have moved. *)

From S2P Require Import Prelude Replay.

Record DynamicFcfsScheduler := mkScheduler { FirstImageResourceId : Z; queues : DomainQueueBlock }.
Definition NewDynamicFcfsScheduler (firstImageResourceId nRequests : Z) : outcome DynamicFcfsScheduler :=
  q ← NewDomainQueueBlock nRequests; Ok (mkScheduler firstImageResourceId q).
Definition scriptAfterFirstImage (resourceId firstImageResourceId : Z) : bool := resourceId <? firstImageResourceId.
(** The queues by priority, the highest first. *)
Definition queue_list (q : DomainQueueBlock) : list SyncFifoQueue :=
  [HighestPriorityQueue q; HighPriorityQueue q; NormalPriorityQueue q; LowPriorityQueue q; LowestPriorityQueue q].
Definition queue_put (q : DomainQueueBlock) (level : Z) (block : nat) : DomainQueueBlock :=
  let put l q := if level =? l then sfq_Put q block else q in
  mkQueues (put 0 (HighestPriorityQueue q)) (put 1 (HighPriorityQueue q)) (put 2 (NormalPriorityQueue q)) (put 3 (LowPriorityQueue q)) (put 4 (LowestPriorityQueue q)).
(** The number of the queue [enqueue] chooses. *)
Definition level (s : DynamicFcfsScheduler) (b : StreamControlBlock) : Z :=
  if bool_decide (ResourceType b = DOCUMENT) then 0
  else if bool_decide (ResourceType b = STYLESHEET) then 0
  else if bool_decide (ResourceType b = XHR) then 1
  else if bool_decide (ResourceType b = SCRIPT) then
    if scriptAfterFirstImage (ResourceId b) (FirstImageResourceId s) then 2 else 1
  else if bool_decide (ResourceType b = IMAGE) then 3
  else if bool_decide (ResourceType b = OTHER) then 3
  else 4.
Definition enqueue (s : DynamicFcfsScheduler) (i : nat) (b : StreamControlBlock) : DynamicFcfsScheduler :=
  mkScheduler (FirstImageResourceId s) (queue_put (queues s) (level s b) i).

(** The dependencies are positions in the slice. *)
Fixpoint dependencies_met (deps : list Z) (slice : StreamControlBlockSlice) : outcome bool :=
  match deps with
  | [] => Ok true
  | dep :: deps =>
      match (if dep <? 0 then None else slice !! Z.to_nat dep) with
      | None => Panic "index out of range"
      | Some b => if negb (bool_decide (Status b = FINISHED)) then Ok false else dependencies_met deps slice
      end
  end.
Definition dependenciesMet (block : StreamControlBlock) (slice : StreamControlBlockSlice) : outcome bool := dependencies_met (Dependencies block) slice.

(** The scheduler hands out the first request of the first queue that is not empty. *)
Definition get_first (s : DynamicFcfsScheduler) : DynamicFcfsScheduler * option nat :=
  let q := queues s in
  let upd a b c d e := mkScheduler (FirstImageResourceId s) (mkQueues a b c d e) in
  let '(q1, r) := sfq_Get (HighestPriorityQueue q) in
  match r with Some _ => (upd q1 (HighPriorityQueue q) (NormalPriorityQueue q) (LowPriorityQueue q) (LowestPriorityQueue q), r) | None =>
  let '(q2, r) := sfq_Get (HighPriorityQueue q) in
  match r with Some _ => (upd q1 q2 (NormalPriorityQueue q) (LowPriorityQueue q) (LowestPriorityQueue q), r) | None =>
  let '(q3, r) := sfq_Get (NormalPriorityQueue q) in
  match r with Some _ => (upd q1 q2 q3 (LowPriorityQueue q) (LowestPriorityQueue q), r) | None =>
  let '(q4, r) := sfq_Get (LowPriorityQueue q) in
  match r with Some _ => (upd q1 q2 q3 q4 (LowestPriorityQueue q), r) | None =>
  let '(q5, r) := sfq_Get (LowestPriorityQueue q) in
  (upd q1 q2 q3 q4 q5, r) end end end end.
(** [PopAvailableRequests] has the mutex when it finds a request, and then calls
    itself, which takes the mutex again: the call does not return. *)
Inductive pop_result := Returned (r : option nat) | Deadlocked.
Definition PopAvailableRequests (s : DynamicFcfsScheduler) : DynamicFcfsScheduler * pop_result :=
  let '(s, r) := get_first s in
  match r with None => (s, Returned None) | Some _ => (s, Deadlocked) end.

(** [OnStreamFinished]: every block that waits for nothing any more is put into its
    queue.  [now i] is the time when block [i] is looked at. *)
Definition enqueue_ready (now : Z) (st : StreamControlBlockSlice * DynamicFcfsScheduler) (i : nat) (b : StreamControlBlock) : StreamControlBlockSlice * DynamicFcfsScheduler :=
  let b := set_status b ENQUEUED now in (<[i := b]> st.1, enqueue st.2 i b).
Definition visit (now : nat → Z) (st : StreamControlBlockSlice * DynamicFcfsScheduler) (i : nat) : outcome (StreamControlBlockSlice * DynamicFcfsScheduler) :=
  match st.1 !! i with
  | None => Ok st
  | Some b =>
      if bool_decide (Status b = UNAVAILABLE) then
        met ← dependenciesMet b st.1;
        Ok (if met : bool then enqueue_ready (now i) st i b else st)
      else Ok st
  end.
Fixpoint visit_all (now : nat → Z) (l : list nat) (st : StreamControlBlockSlice * DynamicFcfsScheduler) : outcome (StreamControlBlockSlice * DynamicFcfsScheduler) :=
  match l with [] => Ok st | i :: l => st ← visit now st i; visit_all now l st end.
Definition OnStreamFinished (now : nat → Z) (slice : StreamControlBlockSlice) (s : DynamicFcfsScheduler) : outcome (StreamControlBlockSlice * DynamicFcfsScheduler) :=
  visit_all now (seq 0 (length slice)) (slice, s).

(** * The replay *)

(** The blocks, the scheduler and the requests being served. *)
Record replay := mkReplay { slice : StreamControlBlockSlice; sched : DynamicFcfsScheduler; sent : list nat }.
(** [runAsClient] sends the first request. *)
Definition start_replay (bs : StreamControlBlockSlice) (s : DynamicFcfsScheduler) (url : string) (now : Z) : option replay :=
  match GetStreamControlBlockByUrl bs url with
  | None => None
  | Some root =>
      match bs !! root with
      | None => None
      | Some b => Some (mkReplay (<[root := set_status b (Status b) now]> bs) s [root])
      end
  end.
(** The end of [sendRequest], for a response that is valid. *)
Definition finish (r : replay) (i : nat) (finishedAt : Z) (now : nat → Z) : option (outcome replay) :=
  if bool_decide (i ∈ sent r) then
    match slice r !! i with
    | None => None
    | Some b => Some ('(bs, s) ← OnStreamFinished now (<[i := set_finished b finishedAt]> (slice r)) (sched r);
                      Ok (mkReplay bs s (filter (λ x, x ≠ i) (sent r))))
    end
  else None.
