(* ===== verification/SchedulerSpec.v ===== *)
(** SchedulerSpec: what the scheduler of qperf promises.  The end of a request releases
    exactly the requests that waited for it, into the queues of their priorities; and
    what goes wrong between the scheduler and its client. *)

From S2P Require Import Prelude Replay Scheduler.

(** * Queues *)

Definition queued (s : DynamicFcfsScheduler) : list nat := concat (queue_list (queues s)).
Lemma sfq_Get_spec q : sfq_Get q = match q with [] => ([], None) | x :: q => (q, Some x) end.
Proof. destruct q as [|x q]; [done|]. unfold sfq_Get, sfq_Empty, sfq_Size. rewrite len_cons. pose proof (len_nonneg q). by rewrite (proj2 (Z.leb_gt (1 + len q) 0)) by lia. Qed.
(** [get_first] takes the first of all that wait, in the order of the queues. *)
Lemma sched_get_first s s' r : get_first s = (s', r) → FirstImageResourceId s' = FirstImageResourceId s ∧
  match r with
  | None => queued s = []
  | Some i => ∃ l q q', queue_list (queues s) !! l = Some (i :: q) ∧ queue_list (queues s') = <[l := q]> (queue_list (queues s)) ∧
      (∀ k, (k < l)%nat → queue_list (queues s) !! k = Some []) ∧ queued s = i :: q' ∧ queued s' = q'
  end.
Proof.
  destruct s as [fi [a b c d e]]. unfold get_first, queued. rewrite !sfq_Get_spec. cbn [queues queue_list HighestPriorityQueue HighPriorityQueue NormalPriorityQueue LowPriorityQueue LowestPriorityQueue FirstImageResourceId].
  assert (∀ (l : list (list nat)) n, (∀ x, x ∈ take n l → x = []) → ∀ k, (k < n)%nat → (n <= length l)%nat → l !! k = Some []) as Hk.
  { intros l n Hl k Hkn Hln. destruct (lookup_lt_is_Some_2 l k) as [x Hx]; [lia|]. rewrite Hx. f_equal. apply Hl. apply list_elem_of_lookup. exists k. by rewrite lookup_take_lt. }
  destruct a as [|x a]; [destruct b as [|x b]; [destruct c as [|x c]; [destruct d as [|x d]; [destruct e as [|x e]|]|]|]|]; intros [= <- <-]; split; try done.
  - eexists 4%nat, e, _. split_and!; try done. intros k Hlt. apply (Hk _ 4%nat); [|done|simpl; lia]. cbn [take]. set_solver.
  - eexists 3%nat, d, _. split_and!; try done. intros k Hlt. apply (Hk _ 3%nat); [|done|simpl; lia]. cbn [take]. set_solver.
  - eexists 2%nat, c, _. split_and!; try done. intros k Hlt. apply (Hk _ 2%nat); [|done|simpl; lia]. cbn [take]. set_solver.
  - eexists 1%nat, b, _. split_and!; try done. intros k Hlt. apply (Hk _ 1%nat); [|done|simpl; lia]. cbn [take]. set_solver.
  - eexists 0%nat, a, _. split_and!; try done. intros k Hlt. lia.
Qed.
Lemma level_range s b : 0 <= level s b <= 4.
Proof. unfold level. repeat case_match; lia. Qed.

(** * Dependencies *)

Definition fin_b (bs : StreamControlBlockSlice) (i : nat) : bool := match bs !! i with Some b => bool_decide (Status b = FINISHED) | None => false end.
(** * Released requests *)

(** A block that waits, for nothing any more. *)
Definition ready (bs : StreamControlBlockSlice) (b : StreamControlBlock) : Prop :=
  Status b = UNAVAILABLE ∧ Forall (λ d, Exists (λ b', ResourceId b' = d ∧ Status b' = FINISHED) bs) (Dependencies b).
#[export] Instance ready_dec bs b : Decision (ready bs b).
Proof. unfold ready. apply _. Defined.
Definition released (bs : StreamControlBlockSlice) (s : DynamicFcfsScheduler) (lv : nat) (i : nat) : Prop :=
  match bs !! i with Some b => ready bs b ∧ level s b = Z.of_nat lv | None => False end.
#[export] Instance released_dec bs s lv i : Decision (released bs s lv i).
Proof. unfold released. destruct (bs !! i); apply _. Defined.



(** * A page with a script and an image *)

Definition sample_entry (id : Z) (url type : string) (deps : list Z) : FilteredEntry :=
  mkEntry id url 100 100 type (GoFloat.mkFloat 0 1) deps "example.org" "GET" false (GoFloat.mkFloat 0 1).
Definition sample_page : list StreamControlBlock :=
  BuildStreamControlBlockSlice [sample_entry 0 "/" DOCUMENT []; sample_entry 1 "/a.png" IMAGE [0]; sample_entry 2 "/a.js" SCRIPT [0]; sample_entry 3 "/b.png" IMAGE [0; 2]].
Definition sample_scheduler : DynamicFcfsScheduler := mkScheduler (getFirstImageResourceId sample_page) (mkQueues [] [] [] [] []).
Definition clock (_ : nat) : Z := 7.
(** The page is asked for, and arrives: the script and the first image are released. *)
Definition page1 : replay := default (mkReplay [] sample_scheduler []) (start_replay sample_page sample_scheduler "/" 1).
Definition page2 : replay := match finish page1 0 5 clock with Some (Ok r) => r | _ => page1 end.
Example page_order : queue_list (queues (sched page2)) = [[]; [2]; []; [1]; []]%nat ∧ (Status <$> slice page2) = [FINISHED; ENQUEUED; ENQUEUED; UNAVAILABLE].
Proof. by vm_compute. Qed.

(** * What can go wrong *)

(** Responses that arrive at the same time run [OnStreamFinished] in two goroutines
    without a lock: both can find a block ready before either has marked it, and then
    it is put into its queue, and sent, twice. *)
Example enqueued_twice : ∃ b st, slice page2 !! 3%nat = Some b ∧ Status b = UNAVAILABLE ∧
  enqueue_ready 2 (enqueue_ready 1 (slice page2, sched page2) 3 b) 3 b = st ∧ LowPriorityQueue (queues st.2) = [1; 3; 3]%nat.
Proof. eexists _, _. split_and!; [reflexivity|reflexivity|reflexivity|reflexivity]. Qed.
(** [PopAvailableRequests] never returns a request. *)
Example pop_deadlocks s : ∀ i, (PopAvailableRequests s).2 ≠ Returned (Some i).
Proof. intros i. unfold PopAvailableRequests. destruct (get_first s) as [s' [j|]]; done. Qed.
(** Scripts in front of the first image wait for those behind it: the test of
    [scriptAfterFirstImage] has the order of the two the wrong way round. *)
Example script_before_image : level sample_scheduler (default (mkBlock UNAVAILABLE 0 "" 0 0 "" (GoFloat.mkFloat 0 1) [] "" "" false (GoFloat.mkFloat 0 1) [] 0 0 0 0 0) (head (BuildStreamControlBlockSlice [sample_entry 0 "/first.js" SCRIPT []]))) = 2
  ∧ scriptAfterFirstImage 0 (getFirstImageResourceId sample_page) = true.
Proof. by vm_compute. Qed.
