(* ===== verification/H3Frames.v ===== *)
(** H3Frames: quic-go/http3/frames.go, the frames of HTTP/3, read from a stream that
    returns its data in pieces, and http3/body.go, the body of a request or response,
    which is read from DATA frames. *)

From S2P Require Import Prelude Utils.

(** * Streams as readers *)

(** What a stream will still return: the data, in the pieces successive calls of
    [Read] see it in, and then an error, [io.EOF] at the end of the stream.  The error
    may come together with the last piece. *)
Record rstream := mkRS { rs_chunks : list (list Z); rs_err : goerr; rs_joint : bool; rs_ended : bool }.
Definition rs_rest (cs : list (list Z)) (c : list Z) : list (list Z) := match c with [] => cs | _ => c :: cs end.
Definition rs_Read (s : rstream) (k : nat) : rstream * list Z * option goerr :=
  if rs_ended s then (s, [], Some (rs_err s))
  else if (k =? 0)%nat then (s, [], None)
  else match rs_chunks s with
       | [] => (mkRS [] (rs_err s) (rs_joint s) true, [], Some (rs_err s))
       | c :: cs =>
           let cs' := rs_rest cs (drop k c) in
           match cs', rs_joint s with
           | [], true => (mkRS [] (rs_err s) true true, take k c, Some (rs_err s))
           | _, _ => (mkRS cs' (rs_err s) (rs_joint s) false, take k c, None)
           end
       end.
(** Reading as a monad with errors. *)
Definition SR (A : Type) : Type := rstream → rstream * outcome A.
#[export] Instance SR_ret : MRet SR := λ A a s, (s, Ok a).
#[export] Instance SR_bind : MBind SR := λ A B f m s,
  match m s with (s, Ok a) => f a s | (s, Err e) => (s, Err e) | (s, Panic p) => (s, Panic p) end.
Definition sr_fail {A} (e : goerr) : SR A := λ s, (s, Err e).
(** [io.ReadAtLeast(r, buf, len(buf))]: the data, and the error with how much came
    before it.  A call of [Read] without an error returns data, so that [n] calls are
    enough. *)
Fixpoint read_loop (fuel : nat) (n : nat) (acc : list Z) (s : rstream) : rstream * list Z * option goerr :=
  match n, fuel with
  | O, _ | _, O => (s, acc, None)
  | S _, S fuel =>
      let '(s, d, e) := rs_Read s n in
      match e with
      | None => read_loop fuel (n - length d) (acc ++ d) s
      | Some e => (s, acc ++ d, if (n <=? length d)%nat then None else Some e)
      end
  end.
Definition io_ReadFull (n : Z) : SR (list Z) := λ s,
  let '(s, d, e) := read_loop (Z.to_nat n) (Z.to_nat n) [] s in
  match e with
  | None => (s, Ok d)
  | Some e => (s, Err (if bool_decide (e = EOF) && (0 <? len d) then UnexpectedEOF else e))
  end.
(** [io.CopyN(ioutil.Discard, r, n)] *)
Definition io_Discard (n : Z) : SR unit := λ s,
  let '(s, d, e) := read_loop (Z.to_nat n) (Z.to_nat n) [] s in
  match e with None => (s, Ok ()) | Some e => (s, Err e) end.
(** [byteReaderImpl]: an error hides the byte that came with it. *)
Definition br_ReadByte : SR Z := λ s,
  let '(s, d, e) := rs_Read s 1 in
  match e with Some e => (s, Err e) | None => (s, match d with b :: _ => Ok b | [] => Ok 0 end) end.
Fixpoint br_ReadBytes (n : nat) : SR (list Z) :=
  match n with O => mret [] | S n => b ← br_ReadByte; l ← br_ReadBytes n; mret (b :: l) end.
(** [utils.ReadVarInt] on such a reader: it asks for the bytes one after the other, as
    many as the first one says. *)
Definition br_ReadVarInt : SR Z :=
  b ← br_ReadByte;
  l ← br_ReadBytes (Z.to_nat (Z.shiftl 1 (Z.shiftr (Z.land b 0xc0) 6)) - 1);
  match ReadVarInt (b :: l) with Ok (v, _) => mret v | Err e => sr_fail e | Panic p => λ s, (s, Panic p) end.

(** * frames.go *)

Inductive h3frame := dataFrame (Length : Z) | headersFrame (Length : Z) | settingsFrame (settings : gmap Z Z).
Fixpoint parse_settings (fuel : nat) (settings : gmap Z Z) : parser (gmap Z Z) := λ b,
  match fuel, b with
  | _, [] => Ok (settings, [])
  | O, _ => Ok (settings, b)
  | S fuel, _ =>
      (id ← ReadVarInt; val ← ReadVarInt;
       match settings !! id with
       | Some _ => fail (Errorf "duplicate setting: %d" [id])
       | None => parse_settings fuel (<[id := val]> settings)
       end) b
  end.
Definition parseSettingsFrame (l : Z) : SR h3frame := λ s,
  if 8 * 2 ^ 10 <? l then (s, Err (Errorf "unexpected size for SETTINGS frame: %d" [l]))
  else match io_ReadFull l s with
       | (s, Err e) => (s, Err (if bool_decide (e = UnexpectedEOF) then EOF else e))
       | (s, Panic p) => (s, Panic p)
       | (s, Ok buf) =>
           (s, match parse_settings (length buf) ∅ buf with Ok (m, _) => Ok (settingsFrame m) | Err e => Err e | Panic p => Panic p end)
       end.
(** [None] when the fuel runs out: every turn takes two bytes from the stream. *)
Fixpoint parse_next (fuel : nat) : SR (option h3frame) :=
  match fuel with
  | O => mret None
  | S fuel =>
      t ← br_ReadVarInt;
      l ← br_ReadVarInt;
      if t =? 0x0 then mret (Some (dataFrame l))
      else if t =? 0x1 then mret (Some (headersFrame l))
      else if t =? 0x4 then (f ← parseSettingsFrame l; mret (Some f))
      else (_ ← io_Discard (i64 l); parse_next fuel)
  end.
Definition rs_bytes (s : rstream) : list Z := concat (rs_chunks s).
Definition parseNextFrame : SR (option h3frame) := λ s, parse_next (S (length (rs_bytes s))) s.
Definition dataFrame_Write (l : Z) : writer := WriteVarInt 0x0 >>> WriteVarInt l.
Definition headersFrame_Write (l : Z) : writer := WriteVarInt 0x1 >>> WriteVarInt l.
(** [order] is the order in which the settings are visited. *)
Fixpoint settings_len (order : list (Z * Z)) : outcome Z :=
  match order with [] => Ok 0 | (id, val) :: order => a ← VarIntLen id; b ← VarIntLen val; l ← settings_len order; Ok (u64 (u64 (a + b) + l)) end.
Fixpoint write_settings (order : list (Z * Z)) : writer :=
  match order with [] => wdone | (id, val) :: order => WriteVarInt id >>> WriteVarInt val >>> write_settings order end.
Definition settingsFrame_Write (order : list (Z * Z)) : writer :=
  WriteVarInt 0x4 >>> (λ b, match settings_len order with Ok l => WriteVarInt l b | Err e => wfail e b | Panic p => wpanic p b end) >>> write_settings order.

(** * body.go *)

(** [reqDone] is whether the channel was closed; a request has none. *)
Record body := mkBody { isRequest : bool; reqDoneClosed : bool; bytesRemainingInFrame : Z }.
Definition newRequestBody : body := mkBody true false 0.
Definition newResponseBody : body := mkBody false false 0.
Definition set_remaining (r : body) (n : Z) : body := mkBody (isRequest r) (reqDoneClosed r) n.
Definition requestDone (r : body) : body := if reqDoneClosed r then r else mkBody (isRequest r) true (bytesRemainingInFrame r).
(** The loop that looks for a DATA frame. *)
Fixpoint find_data (fuel : nat) : SR (option Z) :=
  match fuel with
  | O => mret None
  | S fuel =>
      f ← parseNextFrame;
      match f with
      | Some (headersFrame _) => find_data fuel
      | Some (dataFrame l) => mret (Some l)
      | Some (settingsFrame _) => sr_fail (Errorf "unexpected frame" [])
      | None => mret None
      end
  end.
(** Reading into a buffer of [n] bytes. *)
Definition readImpl (r : body) (s : rstream) (n : nat) : body * rstream * outcome (list Z * option goerr) :=
  let read r s :=
    let k := if bytesRemainingInFrame r <? Z.of_nat n then Z.to_nat (bytesRemainingInFrame r) else n in
    let '(s, d, e) := rs_Read s k in
    (set_remaining r (u64 (bytesRemainingInFrame r - len d)), s, Ok (d, e)) in
  if bytesRemainingInFrame r =? 0 then
    match find_data (S (length (rs_bytes s))) s with
    | (s, Ok (Some l)) => read (set_remaining r l) s
    | (s, Ok None) => (r, s, Panic "out of fuel")
    | (s, Err e) => (r, s, Ok ([], Some e))
    | (s, Panic p) => (r, s, Panic p)
    end
  else read r s.
Definition body_Read (r : body) (s : rstream) (n : nat) : body * rstream * outcome (list Z * option goerr) :=
  let '(r, s, x) := readImpl r s n in
  match x with
  | Ok (_, Some _) => (if negb (isRequest r) then requestDone r else r, s, x)
  | _ => (r, s, x)
  end.
(** What [Close] does to the stream. *)
Definition errorRequestCanceled : Z := 0x10d.
Inductive close_call := CloseStream | CancelRead (code : Z).
Definition body_Close (r : body) : body * close_call := if isRequest r then (r, CloseStream) else (requestDone r, CancelRead errorRequestCanceled).
