(* ===== verification/H3FramesSpec.v ===== *)
(** H3FramesSpec: frames of HTTP/3 are read as they were written however the stream
    cuts them, and a body is exactly the data of its DATA frames. *)

From S2P Require Import Prelude Utils H3Frames.

(** * What a stream still delivers *)

(** [holds s l e j]: [l] and then the error [e], with the last piece of data if [j]. *)
Definition holds (s : rstream) (l : list Z) (e : goerr) (j : bool) : Prop :=
  rs_err s = e ∧ rs_joint s = j ∧ (if rs_ended s then l = [] else Forall (λ c, c ≠ []) (rs_chunks s) ∧ rs_bytes s = l).
Lemma rs_rest_bytes cs c : concat (rs_rest cs c) = c ++ concat cs.
Proof. by destruct c. Qed.
Lemma rs_rest_ok cs c : Forall (λ c, c ≠ []) cs → Forall (λ c, c ≠ []) (rs_rest cs c).
Proof. destruct c; [done|]. by constructor. Qed.
Lemma read_end s e j k : holds s [] e j → (0 < k)%nat → ∃ s', rs_Read s k = (s', [], Some e) ∧ holds s' [] e j.
Proof.
  intros (He & Hj & Hs) Hk. unfold rs_Read. destruct (rs_ended s) eqn:Ee.
  - exists s. rewrite He. split; [done|]. by unfold holds; rewrite Ee.
  - destruct k as [|k]; [lia|]. cbn [Nat.eqb]. destruct Hs as [Hc Hb]. unfold rs_bytes in Hb. destruct (rs_chunks s) as [|c cs].
    + rewrite He, Hj. eexists. split; [done|]. by split.
    + apply Forall_cons in Hc as [Hc _]. cbn in Hb. apply app_eq_nil in Hb as [-> _]. done.
Qed.
(** Data comes in pieces; the error only with the last one. *)
Lemma read_some s l e j k : holds s l e j → l ≠ [] → (0 < k)%nat → ∃ s' d l' r, rs_Read s k = (s', d, r) ∧ l = d ++ l' ∧ d ≠ [] ∧ (length d <= k)%nat ∧ holds s' l' e j ∧
  (r = None ∨ (r = Some e ∧ l' = [] ∧ j = true)).
Proof.
  intros (He & Hj & Hs) Hl Hk. unfold rs_Read. destruct (rs_ended s); [done|]. destruct k as [|k]; [lia|]. cbn [Nat.eqb]. destruct Hs as [Hc Hb]. unfold rs_bytes in Hb.
  destruct (rs_chunks s) as [|c cs]; [by subst l|]. apply Forall_cons in Hc as [Hc Hcs]. cbn [concat] in Hb.
  assert (concat (rs_rest cs (drop (S k) c)) = drop (S k) c ++ concat cs) as Er by apply rs_rest_bytes.
  assert (l = take (S k) c ++ concat (rs_rest cs (drop (S k) c))) as El by (rewrite Er, app_assoc, take_drop; done).
  pose proof (rs_rest_ok cs (drop (S k) c) Hcs) as Hok. assert (take (S k) c ≠ []) as Ht by (by destruct c).
  assert (length (take (S k) c) <= S k)%nat as Hlen by (rewrite length_take; lia). rewrite He, Hj.
  destruct (rs_rest cs (drop (S k) c)) as [|c' cs'] eqn:E; [destruct j|].
  - eexists _, _, [], _. split; [reflexivity|]. split; [done|]. split; [done|]. split; [done|]. split; [done|]. by right.
  - eexists _, _, [], _. split; [reflexivity|]. split; [done|]. split; [done|]. split; [done|]. split; [|by left]. split; [done|]. by split.
  - exists (mkRS (c' :: cs') e j false), (take (S k) c), (concat (c' :: cs')), None. split; [by destruct j|]. split; [done|]. split; [done|]. split; [done|].
    split; [|by left]. split; [done|]. by split.
Qed.
Lemma read_nothing s l e j : holds s l e j → ∃ r, rs_Read s 0 = (s, [], r) ∧ (r = None ∨ (r = Some e ∧ l = [])).
Proof. intros (He & _ & Hs). unfold rs_Read. destruct (rs_ended s); [|eauto]. exists (Some (rs_err s)). rewrite He. eauto. Qed.

(** * Bytes, and blocks of them *)

Lemma byte_read s b l e j : holds s (b :: l) e j → l ≠ [] ∨ j = false → ∃ s', br_ReadByte s = (s', Ok b) ∧ holds s' l e j.
Proof.
  intros Hs Hj. destruct (read_some s (b :: l) e j 1 Hs) as (s' & d & l' & r & E & El & Hd & Hlen & Hs' & Hr); [done|lia|].
  destruct d as [|b' [|b'' d]]; [done| |cbn in Hlen; lia]. injection El as <- <-. unfold br_ReadByte. rewrite E.
  destruct Hr as [->|(_ & -> & ->)]; [eauto|by destruct Hj].
Qed.
Lemma byte_end s e j : holds s [] e j → ∃ s', br_ReadByte s = (s', Err e) ∧ holds s' [] e j.
Proof. intros Hs. destruct (read_end s e j 1 Hs) as (s' & E & Hs'); [lia|]. unfold br_ReadByte. rewrite E. eauto. Qed.
Lemma bytes_read s l0 l e j : holds s (l0 ++ l) e j → l ≠ [] ∨ j = false → ∃ s', br_ReadBytes (length l0) s = (s', Ok l0) ∧ holds s' l e j.
Proof.
  revert s. induction l0 as [|b l0 IH]; intros s Hs Hj; cbn [br_ReadBytes length]; [by exists s|].
  destruct (byte_read s b (l0 ++ l) e j Hs) as (s1 & E1 & Hs1); [destruct Hj as [Hj|]; [left; by destruct l0|by right]|].
  destruct (IH s1 Hs1 Hj) as (s2 & E2 & Hs2). exists s2. unfold mbind, SR_bind. rewrite E1, E2. done.
Qed.
Lemma block_read fuel s d l e j acc : holds s (d ++ l) e j → (length d <= fuel)%nat → ∃ s', read_loop fuel (length d) acc s = (s', acc ++ d, None) ∧ holds s' l e j.
Proof.
  revert fuel s d acc. induction fuel as [|fuel IH]; intros s d acc Hs Hf.
  { destruct d; [|cbn in Hf; lia]. exists s. by rewrite app_nil_r. }
  destruct d as [|b d]; [exists s; by rewrite app_nil_r|]. cbn [read_loop length].
  destruct (read_some s (b :: d ++ l) e j (S (length d)) Hs) as (s1 & d1 & l1 & r & E & El & Hd & Hlen & Hs1 & Hr); [done|lia|]. rewrite E.
  assert (∃ d2, b :: d = d1 ++ d2 ∧ l1 = d2 ++ l) as (d2 & E2 & ->).
  { change (b :: d ++ l) with ((b :: d) ++ l) in El. change (S (length d)) with (length (b :: d)) in Hlen. exists (drop (length d1) (b :: d)).
    assert (take (length d1) (b :: d) = d1) as Et by (rewrite <- (take_app_le _ l) by done; rewrite El; by rewrite take_app_length).
    assert (b :: d = d1 ++ drop (length d1) (b :: d)) as Ed by (rewrite <- (take_drop (length d1) (b :: d)) at 1; by rewrite Et).
    split; [done|]. apply (app_inv_head d1). rewrite <- El, app_assoc, <- Ed. done. }
  rewrite E2. destruct Hr as [->|(-> & Hl1 & ->)].
  - assert (S (length d) = length d1 + length d2)%nat as Hlen2 by (rewrite <- length_app, <- E2; done). rewrite Hlen2. replace (length d1 + length d2 - length d1)%nat with (length d2) by lia.
    destruct (IH s1 d2 (acc ++ d1) Hs1) as (s2 & E3 & Hs2); [destruct d1; [done|]; cbn in *; lia|]. exists s2. rewrite E3, <- app_assoc. done.
  - apply app_eq_nil in Hl1 as [-> ->]. rewrite app_nil_r in *. assert (S (length d) = length d1) as -> by (rewrite <- E2; done). rewrite Nat.leb_refl. eauto.
Qed.
Lemma discard_block s d l e j : holds s (d ++ l) e j → ∃ s', io_Discard (len d) s = (s', Ok ()) ∧ holds s' l e j.
Proof.
  intros Hs. destruct (block_read (length d) s d l e j [] Hs) as (s' & E & Hs'); [lia|]. exists s'. unfold io_Discard, len. rewrite Nat2Z.id, E. done.
Qed.
Lemma ReadFull_block s d l e j : holds s (d ++ l) e j → ∃ s', io_ReadFull (len d) s = (s', Ok d) ∧ holds s' l e j.
Proof.
  intros Hs. destruct (block_read (length d) s d l e j [] Hs) as (s' & E & Hs'); [lia|]. exists s'. unfold io_ReadFull, len. rewrite Nat2Z.id, E. done.
Qed.

(** * Variable-length integers *)

Lemma first_bits (m top : Z) : (m = 0 ∨ m = 0x40 ∨ m = 0x80 ∨ m = 0xc0) → 0 <= top < 64 → Z.shiftl 1 (Z.shiftr (Z.land (Z.lor top m) 0xc0) 6) = 2 ^ (m / 64).
Proof.
  intros Hm Ht. assert (∀ k, forallb (λ t, Z.shiftl 1 (Z.shiftr (Z.land (Z.lor t k) 0xc0) 6) =? 2 ^ (k / 64)) (seqZ 0 64) = true →
    Z.shiftl 1 (Z.shiftr (Z.land (Z.lor top k) 0xc0) 6) = 2 ^ (k / 64)) as H.
  { intros k Hk. rewrite forallb_forall in Hk. apply Z.eqb_eq, Hk, list_elem_of_In, elem_of_seqZ. lia. }
  destruct Hm as [->|[->|[->| ->]]]; apply H; by vm_compute.
Qed.
Lemma varint_first i : 0 <= i <= maxVarInt8 → ∃ b l, varint i = b :: l ∧ Z.shiftl 1 (Z.shiftr (Z.land b 0xc0) 6) = 1 + len l.
Proof.
  intros Hi. unfold varint, WriteVarInt, maxVarInt1, maxVarInt2, maxVarInt4, maxVarInt8 in *.
  assert (∀ k, 0 <= k → 0 <= i < 64 * 2 ^ k → 0 <= Z.shiftr i k < 64) as Hsh.
  { intros k Hk Hik. rewrite Z.shiftr_div_pow2 by done. assert (0 < 2 ^ k) by (by apply Z.pow_pos_nonneg). split; [apply Z.div_pos; lia|]. apply Z.div_lt_upper_bound; lia. }
  destruct (Z.leb_spec i 63); [|destruct (Z.leb_spec i 16383); [|destruct (Z.leb_spec i 1073741823); [|destruct (Z.leb_spec i 4611686018427387903); [|lia]]]];
    eexists _, _; (split; [reflexivity|]).
  - rewrite u8_small by lia. rewrite <- (Z.lor_0_r i). rewrite first_bits; [done|lia|lia].
  - pose proof (Hsh 8 ltac:(lia) ltac:(lia)). unfold byte_at. rewrite (u8_small (Z.shiftr i 8)) by lia. by rewrite first_bits by lia.
  - pose proof (Hsh 24 ltac:(lia) ltac:(lia)). unfold byte_at. rewrite (u8_small (Z.shiftr i 24)) by lia. by rewrite first_bits by lia.
  - pose proof (Hsh 56 ltac:(lia) ltac:(lia)). unfold byte_at. rewrite (u8_small (Z.shiftr i 56)) by lia. by rewrite first_bits by lia.
Qed.
Lemma varint_read s i l e j : 0 <= i <= maxVarInt8 → holds s (varint i ++ l) e j → l ≠ [] ∨ j = false → ∃ s', br_ReadVarInt s = (s', Ok i) ∧ holds s' l e j.
Proof.
  intros Hi Hs Hj. pose proof (reads_ReadVarInt i Hi []) as Hr. rewrite app_nil_r in Hr. destruct (varint_first i Hi) as (b & l0 & E & Hn). rewrite E in *.
  destruct (byte_read s b (l0 ++ l) e j Hs) as (s1 & E1 & Hs1); [destruct Hj as [Hj|]; [left; by destruct l0|by right]|].
  destruct (bytes_read s1 l0 l e j Hs1 Hj) as (s2 & E2 & Hs2). exists s2. unfold br_ReadVarInt, mbind, SR_bind. rewrite E1, Hn.
  replace (Z.to_nat (1 + len l0) - 1)%nat with (length l0) by (unfold len; lia). rewrite E2, Hr. done.
Qed.
(** An integer whose last byte comes with the error is not read. *)
Lemma varint_read_end s i e : 0 <= i <= maxVarInt8 → holds s (varint i) e true → ∃ s', br_ReadVarInt s = (s', Err e) ∧ holds s' [] e true.
Proof.
  intros Hi Hs. destruct (varint_first i Hi) as (b & l0 & E & Hn). rewrite E in *. unfold br_ReadVarInt, mbind, SR_bind.
  assert (∀ l s, holds s l e true → l ≠ [] → ∃ s', br_ReadBytes (length l) s = (s', Err e) ∧ holds s' [] e true) as H.
  { clear. induction l as [|b l IH]; intros s Hs Hl; [done|]. cbn [length br_ReadBytes]. unfold mbind, SR_bind. destruct l as [|b' l].
    - destruct (read_some s [b] e true 1 Hs) as (s' & d & l' & r & E & El & Hd & Hlen & Hs' & Hr); [done|lia|]. destruct d as [|b1 [|b2 d]]; [done| |cbn in Hlen; lia].
      injection El as <- <-. unfold br_ReadByte. rewrite E. destruct Hr as [->|(-> & _)]; [|eauto].
      exfalso. unfold rs_Read in E. destruct Hs as (He & Hj & Hs). destruct (rs_ended s); [done|]. destruct Hs as [Hc Hb]. unfold rs_bytes in Hb. cbn [Nat.eqb] in E.
      destruct (rs_chunks s) as [|c cs]; [done|]. apply Forall_cons in Hc as [Hc Hcs]. destruct c as [|x c]; [done|]. cbn in Hb. injection Hb as -> Hb. apply app_eq_nil in Hb as [-> Hb].
      assert (cs = []) as -> by (destruct cs as [|c cs]; [done|]; apply Forall_cons in Hcs as [Hc' _]; cbn in Hb; by apply app_eq_nil in Hb as [-> _]).
      cbn [drop rs_rest] in E. rewrite Hj in E. done.
    - destruct (byte_read s b (b' :: l) e true Hs) as (s1 & E1 & Hs1); [by left|]. rewrite E1. destruct (IH s1 Hs1) as (s2 & E2 & Hs2); [done|]. rewrite E2. eauto. }
  destruct l0 as [|b' l0].
  - destruct (H [b] s Hs) as (s' & E1 & Hs'); [done|]. cbn [length br_ReadBytes] in E1. unfold mbind, SR_bind in E1. destruct (br_ReadByte s) as [s1 [b1|e1|p1]]; [done| |done].
    injection E1 as -> ->. eauto.
  - destruct (byte_read s b (b' :: l0) e true Hs) as (s1 & E1 & Hs1); [by left|]. rewrite E1, Hn. destruct (H (b' :: l0) s1 Hs1) as (s2 & E2 & Hs2); [done|].
    replace (Z.to_nat (1 + len (b' :: l0)) - 1)%nat with (length (b' :: l0)) by (unfold len; lia). rewrite E2. eauto.
Qed.

(** * Frames *)

(** What a stream with a body consists of: DATA frames, HEADERS frames with an empty
    block, and frames of types that are not known. *)
Inductive item := Data (p : list Z) | EmptyHeaders | Unknown (t : Z) (p : list Z).
Definition item_type (i : item) : Z := match i with Data _ => 0 | EmptyHeaders => 1 | Unknown t _ => t end.
Definition item_payload (i : item) : list Z := match i with Data p => p | EmptyHeaders => [] | Unknown _ p => p end.
Definition item_bytes (i : item) : list Z := varint (item_type i) ++ varint (len (item_payload i)) ++ item_payload i.
Definition item_ok (i : item) : Prop :=
  len (item_payload i) <= maxVarInt8 ∧ match i with Data _ | EmptyHeaders => True | Unknown t _ => 0 <= t <= maxVarInt8 ∧ t ≠ 0 ∧ t ≠ 1 ∧ t ≠ 4 end.
Definition items_bytes (l : list item) : list Z := concat (item_bytes <$> l).
Definition item_data (i : item) : list Z := match i with Data p => p | EmptyHeaders | Unknown _ _ => [] end.
Definition items_data (l : list item) : list Z := concat (item_data <$> l).
(** The data behind the frames that are skipped. *)
Fixpoint next_data (l : list item) : option (list Z * list item) :=
  match l with [] => None | Data p :: l => Some (p, l) | (EmptyHeaders | Unknown _ _) :: l => next_data l end.
Lemma items_cons i l : items_bytes (i :: l) = varint (item_type i) ++ varint (len (item_payload i)) ++ item_payload i ++ items_bytes l.
Proof. unfold items_bytes. cbn [fmap list_fmap concat]. unfold item_bytes. by rewrite <- !app_assoc. Qed.
Lemma next_data_spec l : match next_data l with
  | None => items_data l = []
  | Some (p, l') => items_data l = p ++ items_data l' ∧ (length (p ++ items_bytes l') < length (items_bytes l))%nat ∧ (Forall item_ok l → len p <= maxVarInt8 ∧ Forall item_ok l')
  end.
Proof.
  induction l as [|[p| |t p] l IH]; [done|..]; cbn [next_data].
  - split; [done|]. split; [|by intros [[? _] ?]%Forall_cons]. rewrite items_cons, !length_app. change (length (varint (item_type (Data p)))) with 1%nat. cbn [item_payload]. lia.
  - destruct (next_data l) as [[p' l']|]; [|done]. destruct IH as (IH1 & IH2 & IH3). split; [done|]. split.
    + rewrite items_cons, !length_app in *. lia.
    + intros [_ ?]%Forall_cons. auto.
  - destruct (next_data l) as [[p' l']|]; [|done]. destruct IH as (IH1 & IH2 & IH3). split; [done|]. split.
    + rewrite items_cons, !length_app in *. lia.
    + intros [_ ?]%Forall_cons. auto.
Qed.
Lemma varint_length i : i <= maxVarInt8 → (1 <= length (varint i))%nat.
Proof. intros Hi. pose proof (varint_len i Hi). unfold len in *. lia. Qed.
Lemma varint_not_nil i l : i <= maxVarInt8 → varint i ++ l ≠ [].
Proof. intros Hi E. apply (f_equal length) in E. rewrite length_app in E. pose proof (varint_length i Hi). cbn in E. lia. Qed.
Lemma items_nil l : Forall item_ok l → items_bytes l = [] → l = [].
Proof.
  intros Hok E. destruct l as [|i l]; [done|]. exfalso. rewrite items_cons in E. apply app_eq_nil in E as [Ev _]. apply Forall_cons in Hok as [Hi _].
  apply (varint_not_nil (item_type i) []); [|by rewrite app_nil_r]. destruct i as [| |t p]; [done|done|]. apply Hi.
Qed.
(** The two integers at the start of a frame. *)
Lemma start_read s t n l e j : 0 <= t <= maxVarInt8 → 0 <= n <= maxVarInt8 → holds s (varint t ++ varint n ++ l) e j → l ≠ [] ∨ j = false →
  ∃ s1 s', br_ReadVarInt s = (s1, Ok t) ∧ br_ReadVarInt s1 = (s', Ok n) ∧ holds s' l e j.
Proof.
  intros Ht Hn Hs Hj. destruct (varint_read s t _ e j Ht Hs) as (s1 & E1 & Hs1); [left; apply varint_not_nil; lia|].
  destruct (varint_read s1 n l e j Hn Hs1 Hj) as (s2 & E2 & Hs2). eauto.
Qed.
Lemma start_read_end s t n e : 0 <= t <= maxVarInt8 → 0 <= n <= maxVarInt8 → holds s (varint t ++ varint n) e true →
  ∃ s1 s', br_ReadVarInt s = (s1, Ok t) ∧ br_ReadVarInt s1 = (s', Err e) ∧ holds s' [] e true.
Proof.
  intros Ht Hn Hs. destruct (varint_read s t _ e true Ht Hs) as (s1 & E1 & Hs1); [left; rewrite <- (app_nil_r (varint n)); apply varint_not_nil; lia|].
  destruct (varint_read_end s1 n e Hn Hs1) as (s2 & E2 & Hs2). eauto.
Qed.
Lemma nil_or_not (l : list Z) (j : bool) : (l = [] ∧ j = true) ∨ (l ≠ [] ∨ j = false).
Proof. destruct l, j; auto. Qed.
(** [parse_next] skips the unknown frames and finds the next DATA or HEADERS frame, or
    the end of the stream.  A frame without a payload may be lost at the end. *)
Lemma parse_items fuel s l e j : Forall item_ok l → holds s (items_bytes l) e j → (length (items_bytes l) < fuel)%nat →
  ∃ s', (parse_next fuel s = (s', Err e) ∧ holds s' [] e j ∧ items_data l = []) ∨
    (∃ p l', next_data l = Some (p, l') ∧ parse_next fuel s = (s', Ok (Some (dataFrame (len p)))) ∧ holds s' (p ++ items_bytes l') e j) ∨
    (∃ l', next_data l = next_data l' ∧ items_data l = items_data l' ∧ parse_next fuel s = (s', Ok (Some (headersFrame 0))) ∧ holds s' (items_bytes l') e j ∧
      Forall item_ok l' ∧ (length (items_bytes l') < length (items_bytes l))%nat).
Proof.
  revert fuel s. induction l as [|i l IH]; intros fuel s Hok Hs Hf; (destruct fuel as [|fuel]; [lia|]); cbn [parse_next]; unfold mbind, SR_bind.
  { destruct (byte_end s e j Hs) as (s' & E & Hs'). exists s'. left. unfold br_ReadVarInt, mbind, SR_bind. by rewrite E. }
  apply Forall_cons in Hok as [[Hl Ht] Hok]. rewrite items_cons in *. assert (0 <= item_type i <= maxVarInt8) as Hti by (destruct i; [unfold maxVarInt8|unfold maxVarInt8|]; cbn; lia || apply Ht).
  pose proof (len_nonneg (item_payload i)) as Hl0. set (rest := item_payload i ++ items_bytes l) in *. destruct (nil_or_not rest j) as [[Er ->]|Hj].
  - rewrite Er, app_nil_r in Hs. destruct (start_read_end s _ _ e Hti (conj Hl0 Hl) Hs) as (s1 & s2 & E1 & E2 & Hs2). exists s2. left. rewrite E1, E2. split; [done|]. split; [done|].
    unfold rest in Er. apply app_eq_nil in Er as [Ep El]. apply items_nil in El as ->; [|done]. destruct i; cbn in *; by subst.
  - destruct (start_read s _ _ rest e j Hti (conj Hl0 Hl) Hs Hj) as (s1 & s2 & E1 & E2 & Hs2). rewrite E1, E2. destruct i as [p| |t p]; cbn [item_type item_payload next_data] in *.
    + exists s2. right. left. exists p, l. done.
    + exists s2. right. right. exists l. do 3 (split; [done|]). split; [exact Hs2|]. split; [done|]. unfold rest. rewrite !length_app. change (length (varint 1)) with 1%nat. lia.
    + destruct Ht as (_ & H0 & H1 & H4). rewrite !(proj2 (Z.eqb_neq t _)) by done. unfold rest in Hs2. assert (i64 (len p) = len p) as -> by (apply i64_small; unfold maxVarInt8 in Hl; lia).
      destruct (discard_block s2 p (items_bytes l) e j Hs2) as (s3 & E3 & Hs3). rewrite E3.
      destruct (IH fuel s3 Hok Hs3) as (s4 & [H|[H|(l' & H2 & H3 & H5 & H6 & H7 & H8)]]).
      * unfold rest in Hf. rewrite !length_app in Hf. pose proof (varint_length t ltac:(lia)). pose proof (varint_length (len p) Hl). lia.
      * exists s4. by left.
      * exists s4. right. by left.
      * exists s4. right. right. exists l'. do 5 (split; [done|]). unfold rest. rewrite !length_app. lia.
Qed.
Lemma holds_bytes s l e j : holds s l e j → (length l <= length (rs_bytes s))%nat.
Proof. intros (_ & _ & Hs). destruct (rs_ended s); [subst l; cbn; lia|destruct Hs as [_ ->]; lia]. Qed.

(** * Bodies *)

(** A body in the middle of a DATA frame with [p] left, with the frames [l] behind it. *)
Definition body_state (r : body) (s : rstream) (p : list Z) (l : list item) (e : goerr) (j : bool) : Prop :=
  bytesRemainingInFrame r = len p ∧ len p <= maxVarInt8 ∧ Forall item_ok l ∧ holds s (p ++ items_bytes l) e j.
Lemma find_data_items fuel s l e j : Forall item_ok l → holds s (items_bytes l) e j → (length (items_bytes l) < fuel)%nat →
  ∃ s', (find_data fuel s = (s', Err e) ∧ holds s' [] e j ∧ items_data l = []) ∨
    (∃ p l', next_data l = Some (p, l') ∧ find_data fuel s = (s', Ok (Some (len p))) ∧ holds s' (p ++ items_bytes l') e j).
Proof.
  revert s l. induction fuel as [|fuel IH]; intros s l Hok Hs Hf; [lia|]. pose proof (holds_bytes s _ e j Hs) as Hb. cbn [find_data]. unfold mbind, SR_bind, parseNextFrame.
  destruct (parse_items (S (length (rs_bytes s))) s l e j Hok Hs) as (s1 & [(E & H)|[(p & l' & H1 & E & H2)|(l' & Hn & Hd & E & Hs1 & Hok' & Hlen)]]); [lia|..]; rewrite E.
  - exists s1. by left.
  - exists s1. right. exists p, l'. done.
  - destruct (IH s1 l' Hok' Hs1 ltac:(lia)) as (s' & H). exists s'. by rewrite Hn, Hd.
Qed.
(** Reading up to [n] bytes of the current frame. *)
Lemma read_frame r s p l e j n : (0 < n)%nat → body_state r s p l e j → let k := if bytesRemainingInFrame r <? Z.of_nat n then Z.to_nat (bytesRemainingInFrame r) else n in
  ∃ s' d p' x, rs_Read s k = (s', d, x) ∧ p = d ++ p' ∧ body_state (set_remaining r (u64 (bytesRemainingInFrame r - len d))) s' p' l e j ∧
    (length d <= n)%nat ∧ (p ≠ [] → d ≠ []) ∧ (x = None ∨ (x = Some e ∧ p' = [] ∧ items_data l = [])).
Proof.
  intros Hn (Hr & Hp & Hok & Hs) k. pose proof (len_nonneg p) as Hp0.
  assert (k = Nat.min (length p) n) as Ek by (unfold k; rewrite Hr; destruct (Z.ltb_spec (len p) (Z.of_nat n)); unfold len in *; lia). clearbody k. subst k.
  assert (∀ d p', p = d ++ p' → u64 (bytesRemainingInFrame r - len d) = len p' ∧ len p' <= maxVarInt8) as Hrem.
  { intros d p' E. assert (len p = len d + len p') by (rewrite E; apply len_app). pose proof (len_nonneg d). pose proof (len_nonneg p'). unfold maxVarInt8 in *. rewrite Hr, u64_small; lia. }
  destruct p as [|b p].
  - cbn [length Nat.min]. destruct (read_nothing s _ e j Hs) as (x & E & Hx). exists s, [], [], x. split; [done|]. split; [done|]. destruct (Hrem [] [] eq_refl) as [E1 E2].
    split; [by split|]. split; [cbn; lia|]. split; [done|]. destruct Hx as [->|[-> Hx]]; [by left|]. right. split; [done|]. split; [done|]. by apply items_nil in Hx as ->.
  - destruct (read_some s _ e j (Nat.min (length (b :: p)) n) Hs) as (s' & d & l' & x & E & El & Hd & Hlen & Hs' & Hx); [done|cbn [length]; lia|].
    set (q := b :: p) in *. assert (∃ p', q = d ++ p' ∧ l' = p' ++ items_bytes l) as (p' & Eq & ->).
    { exists (drop (length d) q). assert (take (length d) q = d) as Et by (rewrite <- (take_app_le _ (items_bytes l)) by lia; rewrite El; by rewrite take_app_length).
      assert (q = d ++ drop (length d) q) as Ed by (rewrite <- (take_drop (length d) q) at 1; by rewrite Et). split; [done|]. apply (app_inv_head d). by rewrite <- El, app_assoc, <- Ed. }
    destruct (Hrem d p' Eq) as [E1 E2]. exists s', d, p', x. split; [done|]. split; [done|]. split; [by split|]. split; [lia|]. split; [done|].
    destruct Hx as [->|(-> & Hx & _)]; [by left|]. right. apply app_eq_nil in Hx as [-> Hx]. split; [done|]. split; [done|]. by apply items_nil in Hx as ->.
Qed.

Lemma requestDone_spec r : isRequest (requestDone r) = isRequest r ∧ reqDoneClosed (requestDone r) = true.
Proof. unfold requestDone. by destruct (reqDoneClosed r) eqn:E. Qed.
Lemma done_on_error r : let r' := if negb (isRequest r) then requestDone r else r in isRequest r' = isRequest r ∧ (isRequest r = false → reqDoneClosed r' = true).
Proof. cbv zeta. destruct (requestDone_spec r) as [E1 E2]. destruct (isRequest r) eqn:E; cbn [negb]; by rewrite ?E, ?E1. Qed.
(** One call of [Read]: it returns the next data, and an error, that of the stream,
    only when there is none left; without an error it takes something from the
    stream. *)
Lemma body_read_step r s p l e j n : (0 < n)%nat → body_state r s p l e j →
  ∃ r' s' d p' l' x, body_Read r s n = (r', s', Ok (d, x)) ∧ (length d <= n)%nat ∧ p ++ items_data l = d ++ p' ++ items_data l' ∧ isRequest r' = isRequest r ∧
    (x = Some e ∧ p' ++ items_data l' = [] ∧ (isRequest r = false → reqDoneClosed r' = true) ∨
     x = None ∧ body_state r' s' p' l' e j ∧ (length (p' ++ items_bytes l') < length (p ++ items_bytes l))%nat ∧ reqDoneClosed r' = reqDoneClosed r).
Proof.
  intros Hn Hst. unfold body_Read, readImpl.
  assert (∀ r0 s0 p0 l0, isRequest r0 = isRequest r → reqDoneClosed r0 = reqDoneClosed r → body_state r0 s0 p0 l0 e j → p ++ items_data l = p0 ++ items_data l0 →
    (p0 ≠ [] ∧ length (p0 ++ items_bytes l0) <= length (p ++ items_bytes l) ∨ length (p0 ++ items_bytes l0) < length (p ++ items_bytes l))%nat →
    ∃ r' s' d p' l' x, (let '(r, s, x) := (let k := if bytesRemainingInFrame r0 <? Z.of_nat n then Z.to_nat (bytesRemainingInFrame r0) else n in
       let '(s, d, e) := rs_Read s0 k in (set_remaining r0 (u64 (bytesRemainingInFrame r0 - len d)), s, Ok (d, e))) in
       match x with Ok (_, Some _) => (if negb (isRequest r) then requestDone r else r, s, x) | _ => (r, s, x) end) = (r', s', Ok (d, x)) ∧ (length d <= n)%nat ∧
    p ++ items_data l = d ++ p' ++ items_data l' ∧ isRequest r' = isRequest r ∧
    (x = Some e ∧ p' ++ items_data l' = [] ∧ (isRequest r = false → reqDoneClosed r' = true) ∨
     x = None ∧ body_state r' s' p' l' e j ∧ (length (p' ++ items_bytes l') < length (p ++ items_bytes l))%nat ∧ reqDoneClosed r' = reqDoneClosed r)) as Hread.
  { intros r0 s0 p0 l0 Hq Hc Hst0 Ed Hless. destruct (read_frame r0 s0 p0 l0 e j n Hn Hst0) as (s' & d & p' & x & E & Ep & Hst' & Hd & Hdn & Hx). cbv zeta. rewrite E. subst p0.
    destruct Hx as [->|(-> & -> & Hx)].
    - eexists _, _, d, p', l0, None. split; [reflexivity|]. split; [done|]. split; [by rewrite Ed, app_assoc|]. split; [done|]. right. split; [done|]. split; [done|]. split; [|done].
      rewrite !length_app in *. destruct Hless as [[Hne Hle]|]; [|lia]. specialize (Hdn Hne). destruct d; [done|]. cbn [length] in *. lia.
    - eexists _, _, d, [], l0, (Some e). split; [reflexivity|]. split; [done|]. split; [by rewrite Ed, app_nil_r|]. rewrite <- Hq.
      destruct (done_on_error (set_remaining r0 (u64 (bytesRemainingInFrame r0 - len d)))) as [E1 E2]. split; [exact E1|]. left. split; [done|]. split; [done|exact E2]. }
  destruct (Z.eqb_spec (bytesRemainingInFrame r) 0) as [Hz|Hnz].
  - destruct Hst as (Hr & Hp & Hok & Hs). assert (p = []) as -> by (rewrite Hr in Hz; destruct p; [done|rewrite len_cons in Hz; pose proof (len_nonneg p); lia]).
    rewrite app_nil_l in Hs. pose proof (holds_bytes s _ e j Hs) as Hb. destruct (find_data_items (S (length (rs_bytes s))) s l e j Hok Hs ltac:(lia)) as (s' & [(E & Hs' & Hd)|(p & l' & Hnd & E & Hs')]); rewrite E.
    + eexists _, _, [], [], [], (Some e). split; [reflexivity|]. split; [cbn; lia|]. split; [by rewrite Hd|]. destruct (done_on_error r) as [E1 E2].
      split; [exact E1|]. left. split; [done|]. split; [done|exact E2].
    + pose proof (next_data_spec l) as Hns. rewrite Hnd in Hns. destruct Hns as (Hdata & Hlen & Hok'). specialize (Hok' Hok) as [Hpl Hok'].
      apply (Hread (set_remaining r (len p)) s' p l'); [done|done|by split|done|by right].
  - apply (Hread r s p l); [done|done|done|done|]. left. split; [|lia]. intros ->. apply Hnz. by destruct Hst as [-> _].
Qed.

(** Calls of [Read] with buffers of the given sizes, up to an error. *)
Fixpoint body_reads (ns : list nat) (r : body) (s : rstream) : outcome (list Z * option goerr) :=
  match ns with
  | [] => Ok ([], None)
  | n :: ns =>
      let '(r, s, x) := body_Read r s n in
      '(d, e) ← x;
      match e with Some e => Ok (d, Some e) | None => '(d', e) ← body_reads ns r s; Ok (d ++ d', e) end
  end.
Lemma body_reads_spec ns r s p l e j : Forall (λ n, 0 < n)%nat ns → body_state r s p l e j → ∃ d rest x, body_reads ns r s = Ok (d, x) ∧ p ++ items_data l = d ++ rest ∧
  (x = None ∧ (length ns <= length (p ++ items_bytes l))%nat ∨ x = Some e ∧ rest = []).
Proof.
  intros Hns. revert r s p l. induction Hns as [|n ns Hn Hns IH]; intros r s p l Hst; cbn [body_reads].
  { eexists [], _, None. split; [done|]. split; [by rewrite app_nil_l|]. left. split; [done|cbn; lia]. }
  destruct (body_read_step r s p l e j n Hn Hst) as (r' & s' & d & p' & l' & x & E & _ & Hd & _ & [(-> & Hr & _)|(-> & Hst' & Hlen & _)]); rewrite E; cbn [mbind outcome_bind].
  - exists d, [], (Some e). split; [done|]. split; [by rewrite Hd, Hr|]. by right.
  - destruct (IH r' s' p' l' Hst') as (d' & rest & x & E' & Hd' & Hx). rewrite E'. cbn [mbind outcome_bind]. exists (d ++ d'), rest, x. split; [done|].
    split; [by rewrite Hd, Hd', app_assoc|]. destruct Hx as [[-> Hl]|Hx]; [left|by right]. split; [done|]. cbn [length]. lia.
Qed.

(** C25: The body of a stream of whole DATA frames, frames of unknown types and HEADERS
    frames with an empty block is the data of the DATA frames.  However the stream cuts
    its bytes into pieces, with its error in the last piece or behind it, and whatever
    the sizes of the buffers, [Read] returns the payloads of the DATA frames in order,
    skipping the other frames, and reports the end of the stream after all of them and
    not before; it gets there after at most as many calls as the stream has bytes.
    Frames that are cut off and HEADERS frames with a block, the block of which is not
    skipped, are not meant: see [truncated_body] and [trailers_read_as_data]. *)
Theorem body_reads_data ns r s l e j : bytesRemainingInFrame r = 0 → Forall item_ok l → holds s (items_bytes l) e j → Forall (λ n, 0 < n)%nat ns →
  ∃ d rest x, body_reads ns r s = Ok (d, x) ∧ items_data l = d ++ rest ∧
    (x = None ∨ x = Some e ∧ rest = []) ∧ (x = None → (length ns <= length (items_bytes l))%nat).
Proof.
  intros Hr Hok Hs Hns. destruct (body_reads_spec ns r s [] l e j Hns) as (d & rest & x & E & Hd & Hx); [by split|]. exists d, rest, x. split; [done|]. split; [done|].
  split; [destruct Hx as [[-> _]|Hx]; [by left|by right]|]. destruct Hx as [[_ Hl]|[-> _]]; [done|done].
Qed.
Definition sample_stream : rstream := mkRS [[0; 3; 7]; [8]; [9; 0x21; 1; 5; 1]; [0; 0; 2]; [10; 11]] EOF true false.
Lemma body_reads_data_witness : ∃ d rest x, body_reads [2; 2; 2; 2; 2]%nat newResponseBody sample_stream = Ok (d, x) ∧ [7; 8; 9; 10; 11] = d ++ rest.
Proof.
  destruct (body_reads_data [2; 2; 2; 2; 2]%nat newResponseBody sample_stream [Data [7; 8; 9]; Unknown 0x21 [5]; EmptyHeaders; Data [10; 11]] EOF true) as (d & rest & x & E & Hd & _).
  - reflexivity.
  - repeat constructor; by vm_compute.
  - split; [reflexivity|]. split; [reflexivity|]. split; [repeat constructor; discriminate|reflexivity].
  - repeat constructor.
  - exists d, rest, x. split; [exact E|exact Hd].
Defined.
Example sample_body : body_reads [2; 2; 2; 2; 2]%nat newResponseBody sample_stream = Ok ([7; 8; 9; 10; 11], Some EOF).
Proof. by vm_compute. Qed.

(** * What is not covered *)

(** A HEADERS frame behind the data is not skipped: only its type and length are read,
    and then its payload is taken for frames.  Here the payload happens to be a DATA
    frame, which becomes a part of the body. *)
Example trailers_read_as_data : body_reads [9; 9; 9; 9]%nat newResponseBody (mkRS [[0; 1; 7]; [1; 3; 0; 1; 0x42]] EOF false false) = Ok ([7; 0x42], Some EOF).
Proof. by vm_compute. Qed.
(** A stream that ends in the middle of a DATA frame looks like one that ends behind it. *)
Example truncated_body : body_reads [9; 9; 9]%nat newResponseBody (mkRS [[0; 5; 7]] EOF false false) = Ok ([7], Some EOF).
Proof. by vm_compute. Qed.
(** A byte that comes together with the end of the stream is lost. *)
Example last_byte_lost : (parseNextFrame (mkRS [[1; 0]] EOF true false)).2 = Err EOF ∧ (parseNextFrame (mkRS [[1; 0]] EOF false false)).2 = Ok (Some (headersFrame 0)).
Proof. by vm_compute. Qed.

(** * Round trip of frames *)

Definition settings_ok (order : list (Z * Z)) : Prop := Forall (λ x, 0 <= x.1 <= maxVarInt8 ∧ 0 <= x.2 <= maxVarInt8) order.
Fixpoint settings_bytes (order : list (Z * Z)) : list Z := match order with [] => [] | (a, b) :: order => varint a ++ varint b ++ settings_bytes order end.
Lemma settings_len_spec order : settings_ok order → len (settings_bytes order) < 2 ^ 64 → settings_len order = Ok (len (settings_bytes order)).
Proof.
  induction 1 as [|[a b] order [Ha Hb] Hok IH]; intros Hl; [done|]. cbn [settings_len settings_bytes fst snd] in *. rewrite !VarIntLen_varint by lia. cbn [mbind outcome_bind].
  rewrite !len_app in *. pose proof (varint_len a ltac:(lia)). pose proof (varint_len b ltac:(lia)). pose proof (len_nonneg (settings_bytes order)).
  rewrite IH by lia. cbn [mbind outcome_bind]. f_equal. unwrap. lia.
Qed.
Lemma write_settings_emits order : settings_ok order → emits (write_settings order) (settings_bytes order).
Proof.
  induction 1 as [|[a b] order [Ha Hb] Hok IH]; [apply emits_done|]. cbn [write_settings settings_bytes fst snd] in *.
  repeat (apply emits_then; [apply emits_WriteVarInt; lia|]). done.
Qed.
Lemma settings_length order : settings_ok order → (length order <= length (settings_bytes order))%nat.
Proof.
  induction 1 as [|[a b] order [Ha Hb] Hok IH]; [done|]. cbn [settings_bytes length fst snd] in *. rewrite !length_app. pose proof (varint_length a ltac:(lia)). lia.
Qed.
Lemma parse_settings_spec fuel order m : settings_ok order → NoDup (fst <$> order) → (∀ x, x ∈ order → m !! x.1 = None) → (length order <= fuel)%nat →
  parse_settings fuel m (settings_bytes order) = Ok (list_to_map order ∪ m, []).
Proof.
  revert fuel m. induction order as [|[a b] order IH]; intros fuel m Hok Hnd Hm Hf; [destruct fuel; cbn; by rewrite map_empty_union|].
  apply Forall_cons in Hok as [[Ha Hb] Hok]. apply NoDup_cons in Hnd as [Hna Hnd]. destruct fuel as [|fuel]; [cbn in Hf; lia|]. cbn [fst snd length settings_bytes] in *.
  destruct (varint a ++ varint b ++ settings_bytes order) as [|c l] eqn:E; [exfalso; by apply (varint_not_nil a _ (proj2 Ha)) in E|]. cbn [parse_settings]. rewrite <- E.
  unfold mbind, parser_bind. rewrite (reads_ReadVarInt a Ha), (reads_ReadVarInt b Hb). assert (m !! a = None) as -> by (apply (Hm (a, b)); left). rewrite IH; [|done|done| |lia].
  - cbn [list_to_map foldr uncurry fst snd]. rewrite <- insert_union_r by (apply not_elem_of_list_to_map_1; exact Hna). by rewrite insert_union_l.
  - intros x Hx. rewrite lookup_insert_ne; [apply Hm; by right|]. intros ->. apply Hna, list_elem_of_fmap. eauto.
Qed.
(** What is written for a frame. *)
Inductive written : h3frame → list Z → Prop :=
  | written_data l b : 0 <= l <= maxVarInt8 → run_writer (dataFrame_Write l) [] = Ok b → written (dataFrame l) b
  | written_headers l b : 0 <= l <= maxVarInt8 → run_writer (headersFrame_Write l) [] = Ok b → written (headersFrame l) b
  | written_settings m order b : order ≡ₚ map_to_list m → settings_ok order → len (settings_bytes order) <= 8 * 2 ^ 10 →
      run_writer (settingsFrame_Write order) [] = Ok b → written (settingsFrame m) b.
Lemma data_emits l : 0 <= l <= maxVarInt8 → emits (dataFrame_Write l) (varint 0 ++ varint l).
Proof. intros Hl. apply emits_then; apply emits_WriteVarInt; unfold maxVarInt8 in *; lia. Qed.
Lemma headers_emits l : 0 <= l <= maxVarInt8 → emits (headersFrame_Write l) (varint 1 ++ varint l).
Proof. intros Hl. apply emits_then; apply emits_WriteVarInt; unfold maxVarInt8 in *; lia. Qed.
Lemma settings_emits order : settings_ok order → len (settings_bytes order) <= 8 * 2 ^ 10 →
  emits (settingsFrame_Write order) (varint 4 ++ varint (len (settings_bytes order)) ++ settings_bytes order).
Proof.
  intros Hso Hl. pose proof (len_nonneg (settings_bytes order)). unfold settingsFrame_Write. rewrite settings_len_spec by (done || lia).
  apply emits_then; [apply emits_WriteVarInt; unfold maxVarInt8; lia|]. apply emits_then; [|by apply write_settings_emits]. apply emits_WriteVarInt. unfold maxVarInt8. lia.
Qed.
Definition frame_layout (f : h3frame) (t n : Z) (l : list Z) : Prop :=
  match f with
  | dataFrame k => t = 0 ∧ n = k ∧ l = []
  | headersFrame k => t = 1 ∧ n = k ∧ l = []
  | settingsFrame m => t = 4 ∧ n = len l ∧ n <= 8 * 2 ^ 10 ∧ ∃ order, order ≡ₚ map_to_list m ∧ settings_ok order ∧ l = settings_bytes order
  end.
Lemma written_layout f b : written f b → ∃ t n l, b = varint t ++ varint n ++ l ∧ 0 <= t <= maxVarInt8 ∧ 0 <= n <= maxVarInt8 ∧ frame_layout f t n l.
Proof.
  destruct 1 as [l b Hl E|l b Hl E|m order b Ho Hso Hl E].
  - rewrite (run_writer_emits _ _ _ (data_emits l Hl)) in E. injection E as <-. exists 0, l, []. rewrite app_nil_r. split; [done|]. split; [unfold maxVarInt8; lia|done].
  - rewrite (run_writer_emits _ _ _ (headers_emits l Hl)) in E. injection E as <-. exists 1, l, []. rewrite app_nil_r. split; [done|]. split; [unfold maxVarInt8; lia|done].
  - rewrite (run_writer_emits _ _ _ (settings_emits order Hso Hl)) in E. injection E as <-. pose proof (len_nonneg (settings_bytes order)).
    eexists 4, _, _. split; [reflexivity|]. split; [unfold maxVarInt8; lia|]. split; [unfold maxVarInt8; lia|]. cbn. eauto 8.
Qed.
Definition unknown (i : item) : Prop := match i with Unknown _ _ => True | _ => False end.
Lemma skip_unknown us s tail e j fuel : Forall item_ok us → Forall unknown us → tail ≠ [] →
  holds s (items_bytes us ++ tail) e j → (length us <= fuel)%nat → ∃ s', parse_next fuel s = parse_next (fuel - length us) s' ∧ holds s' tail e j.
Proof.
  revert fuel s. induction us as [|i us IH]; intros fuel s Hok Hu Ht Hs Hf; [exists s; by rewrite Nat.sub_0_r|]. destruct fuel as [|fuel]; [cbn in Hf; lia|].
  apply Forall_cons in Hok as [[Hl Hi] Hok]. apply Forall_cons in Hu as [Hu1 Hu]. destruct i as [| |t p]; [done|done|]. destruct Hi as (Hti & H0 & H1 & H4). cbn [item_payload] in *.
  rewrite items_cons in Hs. cbn [item_type item_payload] in Hs. rewrite <- !app_assoc in Hs. pose proof (len_nonneg p).
  destruct (start_read s t (len p) (p ++ items_bytes us ++ tail) e j Hti) as (s1 & s2 & E1 & E2 & Hs2); [lia|done|left; intros E; by repeat apply app_eq_nil in E as [_ E]|].
  destruct (discard_block s2 p _ e j Hs2) as (s3 & E3 & Hs3). destruct (IH fuel s3 Hok Hu Ht Hs3) as (s4 & E4 & Hs4); [cbn in Hf; lia|]. exists s4. split; [|done].
  cbn [parse_next length Nat.sub]. unfold mbind, SR_bind. rewrite E1, E2, !(proj2 (Z.eqb_neq t _)) by done. rewrite i64_small by (unfold maxVarInt8 in *; lia). by rewrite E3.
Qed.
Lemma items_length us : Forall item_ok us → (length us <= length (items_bytes us))%nat.
Proof.
  induction 1 as [|i l Hi Hok IH]; [done|]. rewrite items_cons, !length_app. cbn [length]. pose proof (varint_length (item_type i)) as Hv.
  destruct i as [p| |t p]; [change (item_type (Data p)) with 0 in *; unfold maxVarInt8 in *; lia|change (item_type EmptyHeaders) with 1 in *; unfold maxVarInt8 in *; lia|]. destruct Hi as (_ & ? & _). cbn [item_type] in *. lia.
Qed.

(** A frame is found behind the frames that are skipped. *)
Lemma parse_written us f b s rest e j : Forall item_ok us → Forall unknown us → written f b →
  holds s (items_bytes us ++ b ++ rest) e j → rest ≠ [] ∨ j = false → ∃ s', parseNextFrame s = (s', Ok (Some f)) ∧ holds s' rest e j.
Proof.
  intros Hok Hu Hw Hs Hj. pose proof (items_length us Hok) as Hus. pose proof (holds_bytes _ _ _ _ Hs) as Hlen. unfold parseNextFrame.
  destruct (written_layout f b Hw) as (t & n & l & -> & Ht & Hn & Hf). rewrite !length_app in Hlen.
  rewrite <- !app_assoc in Hs. destruct (skip_unknown us s (varint t ++ varint n ++ l ++ rest) e j (S (length (rs_bytes s))) Hok Hu) as (s1 & E1 & Hs1); [apply varint_not_nil; lia|done|lia|].
  rewrite E1. destruct (S (length (rs_bytes s)) - length us)%nat as [|fuel] eqn:Ef; [lia|].
  destruct (start_read s1 t n (l ++ rest) e j Ht Hn Hs1) as (s2 & s3 & E2 & E3 & Hs3); [destruct Hj as [Hj|]; [left; by destruct l|by right]|].
  cbn [parse_next]. unfold mbind, SR_bind. rewrite E2, E3. destruct f as [k|k|m].
  - destruct Hf as (-> & -> & ->). eauto.
  - destruct Hf as (-> & -> & ->). eauto.
  - destruct Hf as (-> & -> & Hl & order & Ho & Hso & ->). cbn [Z.eqb Pos.eqb]. unfold parseSettingsFrame. rewrite (proj2 (Z.ltb_ge _ _)) by lia.
    destruct (ReadFull_block s3 _ rest e j Hs3) as (s4 & E4 & Hs4). rewrite E4. exists s4. split; [|done].
    assert (NoDup (fst <$> order)) as Hnd by (rewrite Ho; apply NoDup_fst_map_to_list).
    rewrite parse_settings_spec; [|done|done|by intros x _|by apply settings_length].
    rewrite map_union_empty. do 4 f_equal. rewrite (list_to_map_proper order (map_to_list m)) by done. by rewrite list_to_map_to_list.
Qed.

(** Frames of HTTP/3 are read as they were written.  A DATA, HEADERS or SETTINGS
    frame, behind any number of frames of unknown types, is returned as it was
    written, with the stream at the byte behind it, however the stream cuts its
    bytes. *)
Theorem h3_frames_roundtrip us f b s rest e j : Forall item_ok us → Forall unknown us → written f b →
  holds s (items_bytes us ++ b ++ rest) e j → rest ≠ [] ∨ j = false → ∃ s', parseNextFrame s = (s', Ok (Some f)) ∧ holds s' rest e j.
Proof. apply parse_written. Qed.
Lemma h3_frames_roundtrip_witness : ∃ s', parseNextFrame (mkRS [[0x21; 1; 5; 4]; [2; 1; 7]; [0; 2; 9]] EOF true false) = (s', Ok (Some (settingsFrame {[1 := 7]}))).
Proof.
  destruct (h3_frames_roundtrip [Unknown 0x21 [5]] (settingsFrame {[1 := 7]}) [4; 2; 1; 7] (mkRS [[0x21; 1; 5; 4]; [2; 1; 7]; [0; 2; 9]] EOF true false) [0; 2; 9] EOF true) as (s' & E & _).
  - repeat constructor; by vm_compute.
  - repeat constructor.
  - apply (written_settings _ [(1, 7)]); [reflexivity|repeat constructor; by vm_compute|by vm_compute|reflexivity].
  - split; [reflexivity|]. split; [reflexivity|]. split; [repeat constructor; discriminate|reflexivity].
  - left. discriminate.
  - exists s'. exact E.
Defined.
