(* ===== verification/H3.v ===== *)
(** H3: the rest of quic-go/http3: requests and responses as header fields
    (request.go, request_writer.go, response_writer.go), the server's side of a request
    (server.go) and the client's side (client.go).  Strings are lists of bytes. *)

From S2P Require Import Prelude Utils Tokens H3Frames.

(** * strconv, strings, net/http *)

Definition Itoa (n : Z) : list Z := if n <? 0 then 45 :: decimal 20 (- n) else decimal 20 n.
Fixpoint parse_digits (l : list Z) (acc : Z) : option Z :=
  match l with [] => Some acc | c :: l => if (48 <=? c) && (c <=? 57) then parse_digits l (acc * 10 + (c - 48)) else None end.
(** [strconv.ParseInt(s, 10, 64)]; [strconv.Atoi] is the same. *)
Definition ParseInt (s : list Z) : outcome Z :=
  let syntax := Errorf "strconv: invalid syntax" [] in
  let '(neg, l) := match s with 43 :: l => (false, l) | 45 :: l => (true, l) | l => (false, l) end in
  match l with
  | [] => Err syntax
  | _ =>
      match parse_digits l 0 with
      | None => Err syntax
      | Some v => if (if neg : bool then v <=? 2 ^ 63 else v <? 2 ^ 63) then Ok (if neg then - v else v) else Err (Errorf "strconv: value out of range" [])
      end
  end.
(** For letters of ASCII; header names have no others. *)
Definition lower (c : Z) : Z := if (65 <=? c) && (c <=? 90) then c + 32 else c.
Definition upper (c : Z) : Z := if (97 <=? c) && (c <=? 122) then c - 32 else c.
Definition ToLower (s : list Z) : list Z := lower <$> s.
Definition EqualFold (a b : list Z) : bool := bool_decide (ToLower a = ToLower b).
(** The bytes of a header name. *)
Definition validHeaderFieldByte (c : Z) : bool :=
  ((48 <=? c) && (c <=? 57)) || ((65 <=? c) && (c <=? 90)) || ((97 <=? c) && (c <=? 122)) || bool_decide (c ∈ codes "!#$%&'*+-.^_`|~").
Fixpoint canonical (up : bool) (s : list Z) : list Z :=
  match s with [] => [] | c :: s => let c := if up then upper c else lower c in c :: canonical (c =? 45) s end.
Definition CanonicalMIMEHeaderKey (s : list Z) : list Z := if forallb validHeaderFieldByte s then canonical true s else s.
Definition http_Header := gmap (list Z) (list (list Z)).
Definition header_Add (h : http_Header) (k v : list Z) : http_Header := let k := CanonicalMIMEHeaderKey k in <[k := default [] (h !! k) ++ [v]]> h.
Definition header_Set (h : http_Header) (k v : list Z) : http_Header := <[CanonicalMIMEHeaderKey k := [v]]> h.
Definition header_Del (h : http_Header) (k : list Z) : http_Header := delete (CanonicalMIMEHeaderKey k) h.
Definition header_Get (h : http_Header) (k : list Z) : list Z := match h !! CanonicalMIMEHeaderKey k with Some (v :: _) => v | _ => [] end.
Fixpoint join (sep : list Z) (l : list (list Z)) : list Z := match l with [] => [] | [x] => x | x :: l => x ++ sep ++ join sep l end.

(** * The packages that are used *)

(** A header field: its name and its value. *)
Definition HeaderField : Type := list Z * list Z.
Definition IsPseudo (f : HeaderField) : bool := match f.1 with c :: _ => c =? 58 | [] => false end.
(** QPACK: a block of fields is encoded as a whole. *)
Class Qpack := { qpack_Encode : list HeaderField → list Z; qpack_DecodeFull : list Z → list HeaderField + goerr }.
Class QpackOk `{Qpack} : Prop := {
  qpack_roundtrip l : qpack_DecodeFull (qpack_Encode l) = inl l;
  qpack_not_empty l : qpack_Encode l ≠ [] }.
(** [net/url] and [httpguts], as far as they are asked. *)
Class NetHTTP := {
  ParseRequestURI : list Z → option goerr;
  PunycodeHostPort : list Z → list Z + goerr;
  ValidHeaderFieldName : list Z → bool;
  ValidHeaderFieldValue : list Z → bool }.

(** * error_codes.go *)

Definition errorInternalError : Z := 0x102.
Definition errorUnexpectedFrame : Z := 0x105.
Definition errorFrameError : Z := 0x106.
Definition errorGeneralProtocolError : Z := 0x101.
Definition errorRequestIncomplete : Z := 0x10e.
Definition errorEarlyResponse : Z := 0x10f.
Record requestError := mkRequestError { re_err : option goerr; streamErr : Z; connErr : Z }.
Definition noRequestError : requestError := mkRequestError None 0 0.
Definition newStreamError (code : Z) (err : goerr) : requestError := mkRequestError (Some err) code 0.
Definition newConnError (code : Z) (err : goerr) : requestError := mkRequestError (Some err) 0 code.

(** * The writing side of a stream *)

Record wstream := mkWS { ws_data : list Z; ws_err : option goerr }.
Definition ws_Write (s : wstream) (p : list Z) : wstream * option goerr :=
  match ws_err s with Some e => (s, Some e) | None => (mkWS (ws_data s ++ p) None, None) end.

(** * response_writer.go *)

(** The header is kept in the order in which it will be visited. *)
Record responseWriter := mkRW { rw_header : list (list Z * list (list Z)); rw_status : Z; headerWritten : bool }.
Definition newResponseWriter : responseWriter := mkRW [] 0 false.
Definition bodyAllowedForStatus (status : Z) : bool :=
  if (100 <=? status) && (status <=? 199) then false else if status =? 204 then false else if status =? 304 then false else true.
Definition response_fields (status : Z) (header : list (list Z * list (list Z))) : list HeaderField :=
  (codes ":status", Itoa status) :: concat (map (λ kv : list Z * list (list Z), map (λ v, (ToLower kv.1, v)) kv.2) header).

Section H3.
Context `{Qpack} `{NetHTTP}.
Definition frame_header (w : writer) : list Z := match run_writer w [] with Ok b => b | _ => [] end.
Definition WriteHeader (w : responseWriter) (s : wstream) (status : Z) : responseWriter * wstream :=
  if headerWritten w then (w, s) else
  let headers := qpack_Encode (response_fields status (rw_header w)) in
  let '(s, _) := ws_Write s (frame_header (headersFrame_Write (len headers))) in
  let '(s, _) := ws_Write s headers in
  (mkRW (rw_header w) status true, s).
(** The number of bytes is that of the last [Write] of the stream. *)
Definition rw_Write (w : responseWriter) (s : wstream) (p : list Z) : responseWriter * wstream * option goerr :=
  let '(w, s) := if negb (headerWritten w) then WriteHeader w s 200 else (w, s) in
  if negb (bodyAllowedForStatus (rw_status w)) then (w, s, Some (Errorf "http: request method or response status code does not allow body" [])) else
  let '(s, e) := ws_Write s (frame_header (dataFrame_Write (len p))) in
  match e with
  | Some e => (w, s, Some e)
  | None => let '(s, e) := ws_Write s p in (w, s, e)
  end.

(** * request.go *)

Record http_Request := mkRequest {
  req_Method : list Z; req_Header : http_Header; req_ContentLength : Z; req_Host : list Z; req_RequestURI : list Z }.
Record pseudo := mkPseudo { ps_path : list Z; ps_authority : list Z; ps_method : list Z; ps_length : list Z; ps_header : http_Header }.
Definition add_field (p : pseudo) (h : HeaderField) : pseudo :=
  if bool_decide (h.1 = codes ":path") then mkPseudo h.2 (ps_authority p) (ps_method p) (ps_length p) (ps_header p)
  else if bool_decide (h.1 = codes ":method") then mkPseudo (ps_path p) (ps_authority p) h.2 (ps_length p) (ps_header p)
  else if bool_decide (h.1 = codes ":authority") then mkPseudo (ps_path p) h.2 (ps_method p) (ps_length p) (ps_header p)
  else if bool_decide (h.1 = codes "content-length") then mkPseudo (ps_path p) (ps_authority p) (ps_method p) h.2 (ps_header p)
  else if negb (IsPseudo h) then mkPseudo (ps_path p) (ps_authority p) (ps_method p) (ps_length p) (header_Add (ps_header p) h.1 h.2)
  else p.
Definition requestFromHeaders (headers : list HeaderField) : outcome http_Request :=
  let p := fold_left add_field headers (mkPseudo [] [] [] [] ∅) in
  let httpHeaders := match ps_header p !! codes "Cookie" with
                     | Some ((_ :: _) as l) => header_Set (ps_header p) (codes "Cookie") (join (codes "; ") l)
                     | _ => ps_header p
                     end in
  if (len (ps_path p) =? 0) || (len (ps_authority p) =? 0) || (len (ps_method p) =? 0)
  then Err (Errorf ":path, :authority and :method must not be empty" []) else
  match ParseRequestURI (ps_path p) with
  | Some e => Err e
  | None =>
      contentLength ← (if 0 <? len (ps_length p) then ParseInt (ps_length p) else Ok 0);
      Ok (mkRequest (ps_method p) httpHeaders contentLength (ps_authority p) (ps_path p))
  end.

(** * server.go *)

(** What a handler does, in order: it sets the header, writes, reads the body, closes
    it, or panics. *)
Inductive h_action :=
  | HHeader (header : list (list Z * list (list Z)))
  | HWriteHeader (status : Z)
  | HWrite (p : list Z)
  | HRead (n : nat)
  | HCloseBody
  | HPanic.
Record serving := mkServing { sv_w : responseWriter; sv_body : body; sv_in : rstream; sv_out : wstream }.
Definition h_act (st : serving) (a : h_action) : serving :=
  match a with
  | HHeader h => mkServing (mkRW h (rw_status (sv_w st)) (headerWritten (sv_w st))) (sv_body st) (sv_in st) (sv_out st)
  | HWriteHeader status => let '(w, s) := WriteHeader (sv_w st) (sv_out st) status in mkServing w (sv_body st) (sv_in st) s
  | HWrite p => let '(w, s, _) := rw_Write (sv_w st) (sv_out st) p in mkServing w (sv_body st) (sv_in st) s
  | HRead n => let '(b, i, _) := body_Read (sv_body st) (sv_in st) n in mkServing (sv_w st) b i (sv_out st)
  | HCloseBody =>
      let '(b, c) := body_Close (sv_body st) in
      mkServing (sv_w st) b (sv_in st)
        (match c with CloseStream => mkWS (ws_data (sv_out st)) (Some (Errorf "close called for canceled stream" [])) | CancelRead _ => sv_out st end)
  | HPanic => st
  end.
(** A panic ends the handler. *)
Fixpoint run_handler (acts : list h_action) (st : serving) : serving * bool :=
  match acts with [] => (st, false) | HPanic :: _ => (st, true) | a :: acts => run_handler acts (h_act st a) end.
Definition server_maxHeaderBytes (MaxHeaderBytes : Z) : Z := if MaxHeaderBytes <=? 0 then 2 ^ 20 else u64 MaxHeaderBytes.
(** The request that is handled, what was written, whether reading was cancelled, and
    the error. *)
Definition handleRequest (max : Z) (handler : http_Request → list h_action) (input : rstream) : outcome (wstream * option http_Request * bool * requestError) :=
  let refuse e := Ok (mkWS [] None, None, false, e) in
  match parseNextFrame input with
  | (_, Panic p) => Panic p
  | (_, Ok None) => Panic "out of fuel"
  | (_, Err e) => refuse (newStreamError errorRequestIncomplete e)
  | (input, Ok (Some (headersFrame l))) =>
      if server_maxHeaderBytes max <? l
      then refuse (newStreamError errorFrameError (Errorf "HEADERS frame too large: %d bytes (max: %d)" [l; server_maxHeaderBytes max]))
      else match io_ReadFull l input with
           | (_, Panic p) => Panic p
           | (_, Err e) => refuse (newStreamError errorRequestIncomplete e)
           | (input, Ok headerBlock) =>
               match qpack_DecodeFull headerBlock with
               | inr e => refuse (newConnError errorGeneralProtocolError e)
               | inl hfs =>
                   match requestFromHeaders hfs with
                   | Panic p => Panic p
                   | Err e => refuse (newStreamError errorGeneralProtocolError e)
                   | Ok req =>
                       let '(st, panicked) := run_handler (handler req) (mkServing newResponseWriter newRequestBody input (mkWS [] None)) in
                       let readEOF := if panicked : bool then false else match rs_Read (sv_in st) 1 with (_, _, Some EOF) => true | _ => false end in
                       let '(_, out) := WriteHeader (sv_w st) (sv_out st) (if panicked : bool then 500 else 200) in
                       Ok (out, Some req, negb readEOF, noRequestError)
                   end
               end
           end
  | (_, Ok (Some _)) => refuse (newConnError errorUnexpectedFrame (Errorf "expected first frame to be a HEADERS frame" []))
  end.
(** What [handleConn] does with the stream and the session after it. *)
Inductive h3_event := H3CancelWrite (code : Z) | H3CancelRead (code : Z) | H3CloseSession (code : Z) | H3CloseStream.
Definition after_request (e : requestError) (cancelRead : bool) : list h3_event :=
  (if cancelRead then [H3CancelRead errorEarlyResponse] else []) ++
  (if bool_decide (re_err e ≠ None) || negb (streamErr e =? 0) || negb (connErr e =? 0) then
     (if negb (streamErr e =? 0) then [H3CancelWrite (streamErr e)] else []) ++ (if negb (connErr e =? 0) then [H3CloseSession (connErr e)] else [])
   else [H3CloseStream]).

(** * request_writer.go *)

(** A request of the application.  [cr_Header] is in the order in which it is visited;
    [cr_Body] is whether there is a body; [url_RequestURI] is what the URL's method of
    that name returns. *)
Record client_request := mkClientRequest {
  cr_Method : list Z; cr_Host : list Z; url_Host : list Z; url_Scheme : list Z; url_Opaque : list Z; url_RequestURI : list Z;
  cr_Header : list (list Z * list (list Z)); cr_Body : bool; cr_ContentLength : Z }.
Definition validPseudoPath (v : list Z) : bool := match v with 47 :: _ => true | _ => bool_decide (v = codes "*") end.
Definition TrimPrefix (s prefix : list Z) : list Z := if bool_decide (take (length prefix) s = prefix) then drop (length prefix) s else s.
Definition actualContentLength (req : client_request) : Z :=
  if negb (cr_Body req) then 0 else if negb (cr_ContentLength req =? 0) then cr_ContentLength req else -1.
Definition shouldSendReqContentLength (method : list Z) (contentLength : Z) : bool :=
  if 0 <? contentLength then true else if contentLength <? 0 then false
  else bool_decide (method = codes "POST") || bool_decide (method = codes "PUT") || bool_decide (method = codes "PATCH").
Definition defaultUserAgent : list Z := codes "quic-go HTTP/3".
(** The fields for one header, and whether it is the user agent. *)
Definition header_fields (k : list Z) (vv : list (list Z)) : list HeaderField :=
  if EqualFold k (codes "host") || EqualFold k (codes "content-length") then []
  else if EqualFold k (codes "connection") || EqualFold k (codes "proxy-connection") || EqualFold k (codes "transfer-encoding")
    || EqualFold k (codes "upgrade") || EqualFold k (codes "keep-alive") then []
  else if EqualFold k (codes "user-agent") then
    match vv with [] => [] | v :: _ => if bool_decide (v = []) then [] else [(k, v)] end
  else map (λ v, (k, v)) vv.
Definition enumerateHeaders (req : client_request) (host path : list Z) (addGzipHeader : bool) (trailers : list Z) (contentLength : Z) : list HeaderField :=
  [(codes ":authority", host); (codes ":method", cr_Method req)]
  ++ (if bool_decide (cr_Method req ≠ codes "CONNECT") then [(codes ":path", path); (codes ":scheme", url_Scheme req)] else [])
  ++ (if bool_decide (trailers ≠ []) then [(codes "trailer", trailers)] else [])
  ++ concat (map (λ kv : list Z * list (list Z), header_fields kv.1 kv.2) (cr_Header req))
  ++ (if shouldSendReqContentLength (cr_Method req) contentLength then [(codes "content-length", Itoa contentLength)] else [])
  ++ (if addGzipHeader then [(codes "accept-encoding", codes "gzip")] else [])
  ++ (if existsb (λ kv : list Z * list (list Z), EqualFold kv.1 (codes "user-agent")) (cr_Header req) then [] else [(codes "user-agent", defaultUserAgent)]).
Definition request_path (req : client_request) (host : list Z) : outcome (list Z) :=
  if bool_decide (cr_Method req = codes "CONNECT") then Ok [] else
  let path := url_RequestURI req in
  if validPseudoPath path then Ok path else
  let path := TrimPrefix path (url_Scheme req ++ codes "://" ++ host) in
  if validPseudoPath path then Ok path
  else if bool_decide (url_Opaque req ≠ []) then Err (Errorf "invalid request :path %q from URL.Opaque = %q" []) else Err (Errorf "invalid request :path %q" []).
(** The fields that are encoded. *)
Definition encodeHeaders (req : client_request) (addGzipHeader : bool) (trailers : list Z) (contentLength : Z) : outcome (list HeaderField) :=
  match PunycodeHostPort (if bool_decide (cr_Host req = []) then url_Host req else cr_Host req) with
  | inr e => Err e
  | inl host =>
      path ← request_path req host;
      match find (λ kv : list Z * list (list Z), negb (ValidHeaderFieldName kv.1) || existsb (λ v, negb (ValidHeaderFieldValue v)) kv.2) (cr_Header req) with
      | Some kv => Err (if negb (ValidHeaderFieldName kv.1) then Errorf "invalid HTTP header name %q" [] else Errorf "invalid HTTP header value %q for header %q" [])
      | None => Ok (map (λ f : HeaderField, (ToLower f.1, f.2)) (enumerateHeaders req host path addGzipHeader trailers contentLength))
      end
  end.
Definition getHeaders (req : client_request) (gzip : bool) : outcome (list Z) :=
  fields ← encodeHeaders req gzip [] (actualContentLength req);
  let headerBuf := qpack_Encode fields in
  Ok (frame_header (headersFrame_Write (len headerBuf)) ++ headerBuf).
(** [sendRequestBody]: what the body's [Read] returns, call by call; whether the
    writing was cancelled, and the error. *)
Fixpoint sendRequestBody (reads_ : list (list Z * option goerr)) (s : wstream) : option (wstream * bool * option goerr) :=
  match reads_ with
  | [] => None
  | (_, Some EOF) :: _ => Some (s, false, None)
  | (_, Some e) :: _ => Some (s, true, Some e)
  | (d, None) :: reads_ =>
      let '(s, e) := ws_Write s (frame_header (dataFrame_Write (len d))) in
      match e with
      | Some e => Some (s, false, Some e)
      | None => let '(s, e) := ws_Write s d in match e with Some e => Some (s, false, Some e) | None => sendRequestBody reads_ s end
      end
  end.
(** The headers; with a body, a goroutine sends it, and without, the stream is closed:
    [true]. *)
Definition WriteRequest (req : client_request) (gzip : bool) (s : wstream) : wstream * outcome bool :=
  match getHeaders req gzip with
  | Panic p => (s, Panic p)
  | Err e => (s, Err e)
  | Ok headers => let '(s, e) := ws_Write s headers in (s, match e with Some e => Err e | None => Ok (negb (cr_Body req)) end)
  end.

(** * client.go *)

Record roundTripperOpts := mkOpts { DisableCompression : bool; MaxHeaderBytes : Z }.
Definition defaultMaxResponseHeaderBytes : Z := 10 * 2 ^ 20.
Definition client_maxHeaderBytes (o : roundTripperOpts) : Z := if MaxHeaderBytes o <=? 0 then defaultMaxResponseHeaderBytes else u64 (MaxHeaderBytes o).
Record http_Response := mkResponse { StatusCode : Z; res_Header : http_Header; res_ContentLength : Z; Uncompressed : bool }.
Fixpoint response_from (hfs : list HeaderField) (res : http_Response) : outcome http_Response :=
  match hfs with
  | [] => Ok res
  | (name, value) :: hfs =>
      if bool_decide (name = codes ":status") then
        match ParseInt value with
        | Ok status => response_from hfs (mkResponse status (res_Header res) (res_ContentLength res) (Uncompressed res))
        | Panic p => Panic p
        | Err _ => Err (Errorf "malformed non-numeric status pseudo header" [])
        end
      else response_from hfs (mkResponse (StatusCode res) (header_Add (res_Header res) name value) (res_ContentLength res) (Uncompressed res))
  end.
Definition get_header (h : list (list Z * list (list Z))) (k : list Z) : list Z :=
  match find (λ kv : list Z * list (list Z), bool_decide (kv.1 = CanonicalMIMEHeaderKey k)) h with Some (_, v :: _) => v | _ => [] end.
Definition request_gzip (o : roundTripperOpts) (req : client_request) : bool :=
  negb (DisableCompression o) && bool_decide (cr_Method req ≠ codes "HEAD") && bool_decide (get_header (cr_Header req) (codes "Accept-Encoding") = [])
  && bool_decide (get_header (cr_Header req) (codes "Range") = []).
(** The response and its body, which is read from what is left of the stream, or an
    error.  What is read is decompressed if the response says so. *)
Definition doRequest (o : roundTripperOpts) (req : client_request) (s : wstream) (input : rstream) : wstream * outcome ((http_Response * rstream) + requestError) :=
  let requestGzip := request_gzip o req in
  let '(s, r) := WriteRequest req requestGzip s in
  (s,
   match r with
   | Panic p => Panic p
   | Err e => Ok (inr (newStreamError errorInternalError e))
   | Ok _ =>
       match parseNextFrame input with
       | (_, Panic p) => Panic p
       | (_, Ok None) => Panic "out of fuel"
       | (_, Err e) => Ok (inr (newStreamError errorFrameError e))
       | (input, Ok (Some (headersFrame l))) =>
           if client_maxHeaderBytes o <? l
           then Ok (inr (newStreamError errorFrameError (Errorf "HEADERS frame too large: %d bytes (max: %d)" [l; client_maxHeaderBytes o])))
           else match io_ReadFull l input with
                | (_, Panic p) => Panic p
                | (_, Err e) => Ok (inr (newStreamError errorRequestIncomplete e))
                | (input, Ok headerBlock) =>
                    match qpack_DecodeFull headerBlock with
                    | inr e => Ok (inr (newConnError errorGeneralProtocolError e))
                    | inl hfs =>
                        match response_from hfs (mkResponse 0 ∅ 0 false) with
                        | Panic p => Panic p
                        | Err e => Ok (inr (newStreamError errorGeneralProtocolError e))
                        | Ok res =>
                            Ok (inl (if requestGzip && bool_decide (header_Get (res_Header res) (codes "Content-Encoding") = codes "gzip")
                                     then mkResponse (StatusCode res) (header_Del (header_Del (res_Header res) (codes "Content-Encoding")) (codes "Content-Length")) (-1) true
                                     else res, input))
                        end
                    end
                end
       | (_, Ok (Some _)) => Ok (inr (newConnError errorUnexpectedFrame (Errorf "expected first frame to be a HEADERS frame" [])))
       end
   end).
(** [setupSession] and the server alike: the type of the control stream and an empty
    SETTINGS frame. *)
Definition control_stream : list Z := 0 :: frame_header (settingsFrame_Write []).
(** What [RoundTrip] does with the stream and the session after an error. *)
Definition after_response (e : requestError) : list h3_event :=
  (if negb (streamErr e =? 0) then [H3CancelWrite (streamErr e)] else []) ++ (if negb (connErr e =? 0) then [H3CloseSession (connErr e)] else []).
End H3.
