(* ===== verification/H3Spec.v ===== *)
(** H3Spec: what a handler writes is the response the client gets, and what a client
    asks for is the request the handler gets. *)

From S2P Require Import Prelude Utils Tokens H3Frames H3FramesSpec H3.

(** * Numbers *)

Lemma parse_digits_app l l' acc : parse_digits (l ++ l') acc = match parse_digits l acc with Some v => parse_digits l' v | None => None end.
Proof. revert acc. induction l as [|c l IH]; intros acc; [done|]. cbn [app parse_digits]. by destruct (_ && _). Qed.
Lemma decimal_digits fuel n : 0 <= n < 10 ^ Z.of_nat fuel → parse_digits (decimal fuel n) 0 = Some n.
Proof.
  revert n. induction fuel as [|fuel IH]; intros n Hn; [cbn in *; f_equal; lia|]. cbn [decimal]. rewrite Nat2Z.inj_succ, Z.pow_succ_r in Hn by lia.
  destruct (Z.ltb_spec n 10).
  - cbn [parse_digits]. rewrite (proj2 (Z.leb_le 48 (48 + n))), (proj2 (Z.leb_le (48 + n) 57)) by lia. cbn [andb]. f_equal. lia.
  - pose proof (Z.div_mod n 10 ltac:(lia)). pose proof (Z.mod_pos_bound n 10 ltac:(lia)). rewrite parse_digits_app, IH by (split; [apply Z.div_pos; lia|apply Z.div_lt_upper_bound; lia]).
    cbn [parse_digits]. rewrite (proj2 (Z.leb_le 48 (48 + n mod 10))), (proj2 (Z.leb_le (48 + n mod 10) 57)) by lia. cbn [andb]. f_equal. lia.
Qed.
Lemma decimal_first fuel n : 0 <= n → ∃ c l, decimal (S fuel) n = c :: l ∧ 48 <= c <= 57.
Proof.
  assert (∀ k m, decimal (S k) m = if m <? 10 then [48 + m] else decimal k (m / 10) ++ [48 + m mod 10]) as HS by done.
  revert n. induction fuel as [|fuel IH]; intros n Hn; rewrite HS; (destruct (Z.ltb_spec n 10); [eexists _, _; split; [reflexivity|lia]|]).
  - pose proof (Z.mod_pos_bound n 10 ltac:(lia)). eexists _, _. split; [reflexivity|]. lia.
  - destruct (IH (n / 10)) as (c & l & -> & Hc); [apply Z.div_pos; lia|]. eexists _, _. split; [reflexivity|done].
Qed.
Lemma ParseInt_Itoa n : 0 <= n < 2 ^ 63 → ParseInt (Itoa n) = Ok n.
Proof.
  intros Hn. unfold Itoa. rewrite (proj2 (Z.ltb_ge n 0)) by lia. pose proof (decimal_digits 20 n) as Hd. destruct (decimal_first 19 n) as (c & l & E & Hc); [lia|].
  rewrite E in *. unfold ParseInt. assert (parse_digits (c :: l) 0 = Some n) as Hp by (apply Hd; cbn; lia).
  replace (match c with 43 => (false, l) | 45 => (true, l) | _ => (false, c :: l) end) with (false, c :: l) by (repeat case_match; try done; lia).
  rewrite Hp. by rewrite (proj2 (Z.ltb_lt n (2 ^ 63))) by lia.
Qed.

(** * What a handler writes *)

Section Response.
Context `{QpackOk} `{NetHTTP}.
End Response.

(** * What the client makes of it *)

Section ClientSide.
Context `{QpackOk} `{NetHTTP}.
(** The header of a response: the fields under their canonical names. *)
Definition header_of (fields : list HeaderField) (h : http_Header) : http_Header := fold_left (λ h (f : HeaderField), header_Add h f.1 f.2) fields h.
(** The values under a canonical name: none if there are none. *)
Definition some_values (l : list (list Z)) : option (list (list Z)) := match l with [] => None | _ => Some l end.
Definition named (K : list Z) (fields : list HeaderField) : list (list Z) := (filter (λ f : HeaderField, CanonicalMIMEHeaderKey f.1 = K) fields).*2.
Lemma named_app K l l' : named K (l ++ l') = named K l ++ named K l'.
Proof. unfold named. by rewrite filter_app, fmap_app. Qed.
Lemma named_cons K f l : named K (f :: l) = if decide (CanonicalMIMEHeaderKey f.1 = K) then f.2 :: named K l else named K l.
Proof. unfold named. rewrite filter_cons. by destruct (decide _). Qed.
Lemma named_same K name vv : named K (map (λ v, (name, v)) vv) = if decide (CanonicalMIMEHeaderKey name = K) then vv else [].
Proof. induction vv as [|v vv IH]; [by destruct (decide _)|]. cbn [map]. rewrite named_cons, IH. cbn [fst snd]. by destruct (decide _). Qed.
Lemma header_of_at fields h K : header_of fields h !! K = match named K fields with [] => h !! K | l => Some (default [] (h !! K) ++ l) end.
Proof.
  revert h. induction fields as [|f fields IH]; intros h; [done|]. change (header_of (f :: fields) h) with (header_of fields (header_Add h f.1 f.2)).
  rewrite IH, named_cons. unfold header_Add, http_Header in *. cbv zeta. destruct (decide _) as [<-|Hk].
  - rewrite lookup_insert_eq. destruct (named _ fields); [done|]. cbn. by rewrite <- app_assoc.
  - by rewrite lookup_insert_ne.
Qed.
Lemma header_of_values fields K : header_of fields ∅ !! K = some_values (named K fields).
Proof. rewrite header_of_at. by destruct (named K fields). Qed.
(** Reading the head of a message: a HEADERS frame and its block. *)
Lemma head_read input blk rest e j : blk ≠ [] → len blk <= maxVarInt8 → holds input (varint 1 ++ varint (len blk) ++ blk ++ rest) e j →
  ∃ i1 i2, parseNextFrame input = (i1, Ok (Some (headersFrame (len blk)))) ∧ io_ReadFull (len blk) i1 = (i2, Ok blk) ∧ holds i2 rest e j.
Proof.
  intros Hne Hl Hs. pose proof (len_nonneg blk). destruct (parse_written [] (headersFrame (len blk)) (varint 1 ++ varint (len blk)) input (blk ++ rest) e j) as (i1 & E1 & Hs1).
  - constructor.
  - constructor.
  - constructor; [lia|]. by rewrite (run_writer_emits _ _ _ (headers_emits (len blk) ltac:(lia))).
  - change (items_bytes []) with (@nil Z). rewrite app_nil_l, <- app_assoc. exact Hs.
  - left. by destruct blk.
  - destruct (ReadFull_block i1 blk rest e j Hs1) as (i2 & E2 & Hs2). eauto.
Qed.
End ClientSide.




(** * Requests *)

(** [httpguts.ValidHeaderFieldName] accepts tokens only. *)
Class NetHTTPOk `{NetHTTP} : Prop := { valid_names k : ValidHeaderFieldName k = true → forallb validHeaderFieldByte k = true }.
Definition plain (f : HeaderField) : Prop := IsPseudo f = false ∧ f.1 ≠ codes "content-length".
Lemma plain_not_pseudo f s : plain f → IsPseudo (s, []) = true → f.1 ≠ s.
Proof. intros [Hp _] Hs E. unfold IsPseudo in *. cbn [fst] in Hs. rewrite E in Hp. congruence. Qed.
Lemma add_plain fields p : Forall plain fields → fold_left add_field fields p = mkPseudo (ps_path p) (ps_authority p) (ps_method p) (ps_length p) (header_of fields (ps_header p)).
Proof.
  intros Hf. revert p. induction Hf as [|f fields Hf Hfs IH]; intros p; [by destruct p|]. cbn [fold_left]. unfold add_field at 2.
  rewrite !bool_decide_false by (apply Hf || by apply plain_not_pseudo). destruct Hf as [-> _]. cbn [negb]. by rewrite IH.
Qed.
Lemma lower_not_colon c : validHeaderFieldByte c = true → lower c ≠ 58.
Proof.
  intros Hv E. assert (c = 58) as ->; [|by vm_compute in Hv]. unfold lower in E. destruct ((65 <=? c) && (c <=? 90)) eqn:Ec; [|done].
  apply andb_true_iff in Ec as [H1%Z.leb_le H2%Z.leb_le]. lia.
Qed.
Lemma name_plain k v : forallb validHeaderFieldByte k = true → EqualFold k (codes "content-length") = false → plain (ToLower k, v).
Proof.
  intros Hv Hcl. split.
  - unfold IsPseudo. cbn [fst]. destruct k as [|c k]; [done|]. cbn [forallb ToLower fmap list_fmap] in *. apply andb_true_iff in Hv as [Hv _]. apply Z.eqb_neq. by apply lower_not_colon.
  - cbn [fst]. unfold EqualFold in Hcl. apply bool_decide_eq_false in Hcl. intros E. apply Hcl. rewrite E. by vm_compute.
Qed.
Section Requests.
Context `{QpackOk} `{NetHTTPOk}.
(** The fields that become headers of the request at the server. *)
Definition sent_headers (req : client_request) (gzip : bool) : list HeaderField :=
  map (λ f : HeaderField, (ToLower f.1, f.2))
    (concat (map (λ kv : list Z * list (list Z), header_fields kv.1 kv.2) (cr_Header req))
     ++ (if gzip then [(codes "accept-encoding", codes "gzip")] else [])
     ++ (if existsb (λ kv : list Z * list (list Z), EqualFold kv.1 (codes "user-agent")) (cr_Header req) then [] else [(codes "user-agent", defaultUserAgent)])).
Lemma header_fields_plain k vv : forallb validHeaderFieldByte k = true → Forall (λ f : HeaderField, plain (ToLower f.1, f.2)) (header_fields k vv).
Proof.
  intros Hv. unfold header_fields. destruct (EqualFold k (codes "host") || EqualFold k (codes "content-length")) eqn:E1; [constructor|]. apply orb_false_iff in E1 as [_ E1].
  destruct (_ || _); [constructor|]. destruct (EqualFold k (codes "user-agent")).
  - destruct vv as [|v vv]; [constructor|]. case_bool_decide; [constructor|]. apply Forall_singleton. by apply name_plain.
  - apply Forall_map, Forall_true. intros v. by apply name_plain.
Qed.
Definition headers_valid (req : client_request) : Prop :=
  find (λ kv : list Z * list (list Z), negb (ValidHeaderFieldName kv.1) || existsb (λ v, negb (ValidHeaderFieldValue v)) kv.2) (cr_Header req) = None.
Lemma sent_header_fields_plain req : headers_valid req → Forall (λ f : HeaderField, plain (ToLower f.1, f.2)) (concat (map (λ kv : list Z * list (list Z), header_fields kv.1 kv.2) (cr_Header req))).
Proof.
  intros Hv. apply Forall_concat, Forall_map, Forall_forall. intros kv Hkv. apply header_fields_plain, valid_names.
  apply list_elem_of_In in Hkv. apply (find_none _ _ Hv) in Hkv. apply orb_false_iff in Hkv as [Hkv _]. by apply negb_false_iff in Hkv.
Qed.
(** The fields of a request, in the form of the four pseudo fields, the headers and
    the length. *)
Lemma request_fields req gzip host path cl : headers_valid req → cr_Method req ≠ codes "CONNECT" →
  let p := fold_left add_field (map (λ f : HeaderField, (ToLower f.1, f.2)) (enumerateHeaders req host path gzip [] cl)) (mkPseudo [] [] [] [] ∅) in
  p = mkPseudo path host (cr_Method req) (if shouldSendReqContentLength (cr_Method req) cl then Itoa cl else []) (header_of (sent_headers req gzip) ∅).
Proof.
  intros Hv Hm. cbv zeta. unfold enumerateHeaders, sent_headers. rewrite (bool_decide_true (cr_Method req ≠ _)) by done. rewrite (bool_decide_false ([] ≠ [])) by (intros HH; by apply HH).
  set (HF := concat _). set (GF := if gzip then _ else _). set (UF := if existsb _ _ then _ else _).
  assert (Forall plain (map (λ f : HeaderField, (ToLower f.1, f.2)) HF)) as HH by (apply Forall_map; by apply sent_header_fields_plain).
  assert (Forall plain (map (λ f : HeaderField, (ToLower f.1, f.2)) (GF ++ UF))) as HGU.
  { rewrite map_app. apply Forall_app. split; [unfold GF; destruct gzip|unfold UF; destruct (existsb _ _)]; repeat constructor; by vm_compute. }
  clearbody HF GF UF. cbn [app map fst snd]. rewrite !map_app. cbn [fold_left]. rewrite !fold_left_app.
  rewrite (add_plain _ _ HH). rewrite <- fold_left_app, <- map_app. destruct (shouldSendReqContentLength _ _); cbn [map fold_left fst snd]; rewrite (add_plain _ _ HGU); unfold header_of;
    rewrite ?map_app, !fold_left_app; reflexivity.
Qed.
Lemma request_path_valid req host path : request_path req host = Ok path → cr_Method req ≠ codes "CONNECT" → validPseudoPath path = true.
Proof.
  intros E Hm. unfold request_path in E. rewrite bool_decide_false in E by done. destruct (validPseudoPath (url_RequestURI req)) eqn:E1; [congruence|].
  destruct (validPseudoPath (TrimPrefix _ _)) eqn:E2; [congruence|by case_bool_decide].
Qed.
Definition join_cookies (h : http_Header) : http_Header :=
  match h !! codes "Cookie" with Some ((_ :: _) as l) => header_Set h (codes "Cookie") (join (codes "; ") l) | _ => h end.
Lemma lower_canonical up s : ToLower (canonical up s) = ToLower s.
Proof.
  revert up. induction s as [|c s IH]; intros up; [done|]. cbn [canonical ToLower fmap list_fmap] in *. f_equal; [|apply IH].
  unfold lower, upper. repeat case_match; lia.
Qed.
Lemma canonical_lower up s : canonical up (ToLower s) = canonical up s.
Proof.
  revert up. induction s as [|c s IH]; intros up; [done|]. cbn [canonical ToLower fmap list_fmap] in *.
  assert ((if up then upper (lower c) else lower (lower c)) = (if up then upper c else lower c)) as ->; [|f_equal; apply IH].
  unfold lower, upper. repeat case_match; lia.
Qed.
Lemma lower_valid c : validHeaderFieldByte c = true → validHeaderFieldByte (lower c) = true.
Proof.
  unfold lower. destruct ((65 <=? c) && (c <=? 90)) eqn:E; [|done]. intros _. apply andb_true_iff in E as [Hc1%Z.leb_le Hc2%Z.leb_le]. unfold validHeaderFieldByte.
  rewrite (proj2 (Z.leb_le 97 (c + 32))), (proj2 (Z.leb_le (c + 32) 122)) by lia. cbn [andb]. by rewrite orb_true_r.
Qed.
Lemma canonical_key k : forallb validHeaderFieldByte k = true → CanonicalMIMEHeaderKey (ToLower k) = CanonicalMIMEHeaderKey k.
Proof.
  intros Hk. unfold CanonicalMIMEHeaderKey. rewrite Hk. assert (forallb validHeaderFieldByte (ToLower k) = true) as ->; [|apply canonical_lower].
  apply forallb_forall. intros c (c' & <- & Hc)%in_map_iff. rewrite forallb_forall in Hk. by apply lower_valid, Hk.
Qed.
(** Names are equal, whatever their case, if they are one name to the receiver. *)
Lemma EqualFold_key k n : forallb validHeaderFieldByte k = true → forallb validHeaderFieldByte n = true → EqualFold k n = bool_decide (CanonicalMIMEHeaderKey k = CanonicalMIMEHeaderKey n).
Proof.
  intros Hk Hn. unfold EqualFold. apply bool_decide_ext. split; intros E.
  - by rewrite <- (canonical_key k Hk), <- (canonical_key n Hn), E.
  - unfold CanonicalMIMEHeaderKey in E. rewrite Hk, Hn in E. by rewrite <- (lower_canonical true k), E, lower_canonical.
Qed.
End Requests.

(** What the handler has to find under a canonical name. *)
Definition not_sent : list (list Z) :=
  [codes "Host"; codes "Content-Length"; codes "Connection"; codes "Proxy-Connection"; codes "Transfer-Encoding"; codes "Upgrade"; codes "Keep-Alive"].
Definition entry_values (K : list Z) (vv : list (list Z)) : list (list Z) :=
  if bool_decide (K ∈ not_sent) then []
  else if bool_decide (K = codes "User-Agent") then match vv with [] => [] | v :: _ => if bool_decide (v = []) then [] else [v] end
  else vv.
Definition entries_of (req : client_request) (K : list Z) : list (list (list Z)) :=
  (filter (λ kv : list Z * list (list Z), CanonicalMIMEHeaderKey kv.1 = K) (cr_Header req)).*2.
Definition request_values (req : client_request) (gzip : bool) (K : list Z) : list (list Z) :=
  let entries := entries_of req K in
  let values := concat (map (entry_values K) entries) in
  if bool_decide (K = codes "User-Agent") then if bool_decide (entries = []) then [codes "quic-go HTTP/3"] else values
  else if bool_decide (K = codes "Cookie") then match values with [] => [] | _ => [join (codes "; ") values] end
  else if bool_decide (K = codes "Accept-Encoding") && gzip then values ++ [codes "gzip"] else values.
Lemma header_fields_named k vv K : forallb validHeaderFieldByte k = true →
  named K (map (λ f : HeaderField, (ToLower f.1, f.2)) (header_fields k vv)) = if decide (CanonicalMIMEHeaderKey k = K) then entry_values K vv else [].
Proof.
  intros Hk. unfold header_fields. rewrite !EqualFold_key by done. set (ck := CanonicalMIMEHeaderKey k).
  assert (∀ vs, named K (map (λ f : HeaderField, (ToLower f.1, f.2)) (map (λ v, (k, v)) vs)) = if decide (ck = K) then vs else []) as Hm.
  { intros vs. rewrite map_map. cbn [fst snd]. by rewrite named_same, canonical_key. }
  change (CanonicalMIMEHeaderKey (codes "host")) with (codes "Host"). change (CanonicalMIMEHeaderKey (codes "content-length")) with (codes "Content-Length").
  change (CanonicalMIMEHeaderKey (codes "connection")) with (codes "Connection"). change (CanonicalMIMEHeaderKey (codes "proxy-connection")) with (codes "Proxy-Connection").
  change (CanonicalMIMEHeaderKey (codes "transfer-encoding")) with (codes "Transfer-Encoding"). change (CanonicalMIMEHeaderKey (codes "upgrade")) with (codes "Upgrade").
  change (CanonicalMIMEHeaderKey (codes "keep-alive")) with (codes "Keep-Alive"). change (CanonicalMIMEHeaderKey (codes "user-agent")) with (codes "User-Agent").
  unfold entry_values. destruct (decide (ck = K)) as [<-|Hne].
  - destruct (bool_decide (ck ∈ not_sent)) eqn:Eb.
    + apply bool_decide_eq_true, list_elem_of_In in Eb. repeat destruct Eb as [<-|Eb]; done || by vm_compute.
    + apply bool_decide_eq_false in Eb. rewrite !bool_decide_false by (intros ->; apply Eb, list_elem_of_In; cbn [not_sent In]; tauto). cbn [orb].
      case_bool_decide as Hua; [|by rewrite Hm]. destruct vv as [|v vv]; [done|]. destruct (bool_decide (v = [])); [done|]. exact (Hm [v]).
  - destruct (_ || _); [done|]. destruct (_ || _ || _); [done|]. destruct (bool_decide _); [|by rewrite Hm].
    destruct vv as [|v vv]; [done|]. destruct (bool_decide (v = [])); [done|]. exact (Hm [v]).
Qed.
Lemma sent_named `{NetHTTPOk} req gzip K : headers_valid req →
  named K (sent_headers req gzip) =
    concat (map (entry_values K) (entries_of req K))
    ++ (if gzip && bool_decide (K = codes "Accept-Encoding") then [codes "gzip"] else [])
    ++ (if bool_decide (entries_of req K = []) && bool_decide (K = codes "User-Agent") then [codes "quic-go HTTP/3"] else []).
Proof.
  intros Hv. assert (∀ kv, In kv (cr_Header req) → forallb validHeaderFieldByte kv.1 = true) as Hk.
  { intros kv Hkv. apply valid_names. apply (find_none _ _ Hv) in Hkv. apply orb_false_iff in Hkv as [Hkv _]. by apply negb_false_iff in Hkv. }
  unfold sent_headers, entries_of. rewrite !map_app, !named_app. clear Hv. f_equal; [|f_equal].
  - induction (cr_Header req) as [|kv l IH]; [done|]. cbn [map concat]. rewrite map_app, named_app, IH, header_fields_named, filter_cons by (intros; apply Hk; by (left + right)). by destruct (decide _).
  - destruct gzip; [|done]. cbn [map andb]. rewrite named_cons. cbn [fst snd]. change (CanonicalMIMEHeaderKey (ToLower (codes "accept-encoding"))) with (codes "Accept-Encoding").
    destruct (decide _) as [<-|Hn]; [by rewrite bool_decide_true|by rewrite bool_decide_false].
  - assert (existsb (λ kv : list Z * list (list Z), EqualFold kv.1 (codes "user-agent")) (cr_Header req)
      = negb (bool_decide ((filter (λ kv : list Z * list (list Z), CanonicalMIMEHeaderKey kv.1 = codes "User-Agent") (cr_Header req)).*2 = []))) as ->.
    { induction (cr_Header req) as [|kv l IH]; [done|]. cbn [existsb]. rewrite IH, filter_cons, EqualFold_key by (done || intros; apply Hk; by (left + right)).
      change (CanonicalMIMEHeaderKey (codes "user-agent")) with (codes "User-Agent"). destruct (decide _) as [E|E]; [by rewrite (bool_decide_true _ E)|by rewrite (bool_decide_false _ E)]. }
    destruct (decide (K = codes "User-Agent")) as [->|Hn].
    + rewrite (bool_decide_true (_ = codes "User-Agent")), andb_true_r by done. by destruct (bool_decide _).
    + rewrite (bool_decide_false _ Hn), andb_false_r. destruct (negb _); [done|]. cbn [map]. rewrite named_cons. by rewrite decide_False by (by intros <-).
Qed.
Lemma request_header_values `{NetHTTPOk} req gzip K : headers_valid req →
  join_cookies (header_of (sent_headers req gzip) ∅) !! K = some_values (request_values req gzip K).
Proof.
  intros Hv. assert (∀ K, header_of (sent_headers req gzip) ∅ !! K = some_values (named K (sent_headers req gzip))) as HK by (intros; apply header_of_values).
  unfold join_cookies, request_values, header_Set, http_Header in *. cbv zeta. change (CanonicalMIMEHeaderKey (codes "Cookie")) with (codes "Cookie"). rewrite !HK.
  destruct (decide (K = codes "Cookie")) as [->|Hn].
  - rewrite (bool_decide_false (codes "Cookie" = codes "User-Agent")), (bool_decide_true (codes "Cookie" = codes "Cookie")) by done.
    rewrite sent_named by done. rewrite (bool_decide_false (codes "Cookie" = codes "User-Agent")), (bool_decide_false (codes "Cookie" = codes "Accept-Encoding")), !andb_false_r, !app_nil_r by done.
    destruct (concat _) as [|v vs] eqn:Ec; cbn [some_values].
    + rewrite HK, sent_named by done. rewrite Ec, (bool_decide_false (codes "Cookie" = codes "User-Agent")), (bool_decide_false (codes "Cookie" = codes "Accept-Encoding")), !andb_false_r by done. done.
    + apply lookup_insert_eq.
  - rewrite (bool_decide_false _ Hn). assert (∀ l, (match some_values (named (codes "Cookie") (sent_headers req gzip)) with Some ((_ :: _) as l') => <[codes "Cookie":=l l']> (header_of (sent_headers req gzip) ∅) | _ => header_of (sent_headers req gzip) ∅ end) !! K
      = some_values (named K (sent_headers req gzip))) as Hj.
    { intros l. unfold http_Header in *. rewrite <- (HK K). destruct (named (codes "Cookie") (sent_headers req gzip)); cbn [some_values]; [done|]. apply lookup_insert_ne. congruence. }
    transitivity (some_values (named K (sent_headers req gzip))); [exact (Hj (λ l, [join (codes "; ") l]))|]. rewrite sent_named by done. f_equal. destruct (decide (K = codes "User-Agent")) as [->|Hua].
    + rewrite (bool_decide_true (codes "User-Agent" = codes "User-Agent")), (bool_decide_false (codes "User-Agent" = codes "Accept-Encoding")), andb_false_r, andb_true_r by done. cbn [app].
      case_bool_decide as E; [by rewrite E|by rewrite app_nil_r].
    + rewrite (bool_decide_false _ Hua), andb_false_r, app_nil_r. rewrite andb_comm. by destruct (_ && _); [|rewrite app_nil_r].
Qed.
(** The path of a request is the URI of its URL, or what is behind the scheme and the
    host. *)
Definition path_like (p : list Z) : Prop := (∃ r, p = 47 :: r) ∨ p = codes "*".
Definition wanted_path (req : client_request) (host path : list Z) : Prop :=
  path_like path ∧ (url_RequestURI req = path ∨ ¬ path_like (url_RequestURI req) ∧ url_RequestURI req = url_Scheme req ++ codes "://" ++ host ++ path).
Lemma validPseudoPath_like p : validPseudoPath p = true ↔ path_like p.
Proof.
  unfold path_like. split.
  - intros Hv. destruct p as [|c p]; [done|]. destruct (decide (c = 47)) as [->|Hc]; [left; eauto|right]. unfold validPseudoPath in Hv. apply (bool_decide_eq_true (c :: p = codes "*")).
    repeat case_match; first [done|congruence].
  - by intros [[r ->]| ->].
Qed.
Lemma wanted_request_path req host path : cr_Method req ≠ codes "CONNECT" → wanted_path req host path → request_path req host = Ok path.
Proof.
  intros Hm [Hp Hu]. unfold request_path. rewrite (bool_decide_false _ Hm). apply validPseudoPath_like in Hp. destruct Hu as [->|[Hn Hu]]; [by rewrite Hp|].
  destruct (validPseudoPath (url_RequestURI req)) eqn:E; [by apply validPseudoPath_like in E|]. assert (TrimPrefix (url_RequestURI req) (url_Scheme req ++ codes "://" ++ host) = path) as ->; [|by rewrite Hp].
  rewrite Hu. unfold TrimPrefix. rewrite !app_assoc, take_app_length, drop_app_length. by rewrite bool_decide_true.
Qed.
Lemma sent_length req : (if shouldSendReqContentLength (cr_Method req) (actualContentLength req) then actualContentLength req else 0) = Z.max 0 (if cr_Body req then cr_ContentLength req else 0).
Proof.
  unfold shouldSendReqContentLength, actualContentLength. destruct (cr_Body req); cbn [negb].
  - destruct (Z.eqb_spec (cr_ContentLength req) 0) as [->|Hc]; [done|]. cbn [negb]. destruct (Z.ltb_spec 0 (cr_ContentLength req)); [lia|]. rewrite (proj2 (Z.ltb_lt (cr_ContentLength req) 0)) by lia. lia.
  - cbn. by destruct (_ || _).
Qed.

Lemma nil_of_len (l : list Z) : l ≠ [] → (len l =? 0) = false.
Proof. intros Hl. apply Z.eqb_neq. destruct l; [done|]. rewrite len_cons. pose proof (len_nonneg l). lia. Qed.
Lemma parse_sent_length req : cr_ContentLength req < 2 ^ 63 →
  let l := if shouldSendReqContentLength (cr_Method req) (actualContentLength req) then Itoa (actualContentLength req) else [] in
  (if 0 <? len l then ParseInt l else Ok 0) = Ok (Z.max 0 (if cr_Body req then cr_ContentLength req else 0)).
Proof.
  intros Hc. rewrite <- sent_length. cbv zeta. destruct (shouldSendReqContentLength _ _) eqn:Es; [|done]. assert (0 <= actualContentLength req < 2 ^ 63) as Hcl.
  { unfold shouldSendReqContentLength in Es. destruct (Z.ltb_spec 0 (actualContentLength req)); [|destruct (Z.ltb_spec (actualContentLength req) 0); [done|lia]].
    split; [lia|]. unfold actualContentLength. repeat case_match; lia. }
  rewrite ParseInt_Itoa by lia. assert ((len (Itoa (actualContentLength req)) =? 0) = false) as Hn.
  { apply nil_of_len. unfold Itoa. rewrite (proj2 (Z.ltb_ge _ 0)) by lia. by destruct (decimal_first 19 (actualContentLength req) ltac:(lia)) as (? & ? & -> & _). }
  apply Z.eqb_neq in Hn. pose proof (len_nonneg (Itoa (actualContentLength req))). by rewrite (proj2 (Z.ltb_lt 0 _)) by lia.
Qed.

(** C14: A request arrives as the client made it.  The handler of the server gets the
    method, the host and the path of the client's request, the length that the client
    gave, and under each canonical name exactly what the client set, in its order,
    however the stream is cut: except for the names that belong to a connection, of
    which there is nothing; with the default user agent if the client set none; with
    cookies joined; and with the coding that the client asks for itself.  CONNECT is
    not meant. *)
Theorem http_request_delivered `{QpackOk} `{NetHTTPOk} req gzip bytes host path max handler input rest e j :
  getHeaders req gzip = Ok bytes → PunycodeHostPort (if bool_decide (cr_Host req = []) then url_Host req else cr_Host req) = inl host → wanted_path req host path →
  cr_Method req ≠ codes "CONNECT" → cr_Method req ≠ [] → host ≠ [] → ParseRequestURI path = None → cr_ContentLength req < 2 ^ 63 →
  len bytes <= server_maxHeaderBytes max → server_maxHeaderBytes max <= maxVarInt8 → holds input (bytes ++ rest) e j →
  ∃ out c rq, handleRequest max handler input = Ok (out, Some rq, c, noRequestError) ∧
    req_Method rq = cr_Method req ∧ req_Host rq = host ∧ req_RequestURI rq = path ∧
    req_ContentLength rq = Z.max 0 (if cr_Body req then cr_ContentLength req else 0) ∧
    ∀ K, req_Header rq !! K = some_values (request_values req gzip K).
Proof.
  intros Eg Eh Hp Hm Hm0 Hh Hu Hcl Hlen Hmax Hin. pose proof (wanted_request_path _ _ _ Hm Hp) as Ep. unfold getHeaders, encodeHeaders in Eg. rewrite Eh, Ep in Eg. cbn [mbind outcome_bind] in Eg.
  destruct (find _ (cr_Header req)) eqn:Ev; [done|]. cbn [mbind outcome_bind] in Eg. match type of Eg with Ok ?b = _ => assert (bytes = b) as -> by congruence end. clear Eg.
  pose proof (request_fields req gzip host path (actualContentLength req) Ev Hm) as Hf. cbv zeta in Hf.
  set (fields := map _ _) in *. set (blk := qpack_Encode fields) in *. pose proof (len_nonneg blk) as Hb0.
  rewrite len_app in Hlen. pose proof (len_nonneg (frame_header (headersFrame_Write (len blk)))). assert (len blk <= maxVarInt8) as Hb by lia.
  unfold frame_header in Hin. rewrite (run_writer_emits _ _ _ (headers_emits (len blk) (conj Hb0 Hb))) in Hin. rewrite app_nil_l, <- !app_assoc in Hin.
  destruct (head_read input blk rest e j (qpack_not_empty _) Hb Hin) as (i1 & i2 & E1 & E2 & Hs2). unfold handleRequest. rewrite E1, (proj2 (Z.ltb_ge (server_maxHeaderBytes max) _)) by lia.
  rewrite E2. unfold blk. rewrite qpack_roundtrip. unfold requestFromHeaders. rewrite Hf. cbn [ps_path ps_authority ps_method ps_length ps_header].
  assert (path ≠ []) as Hpn by (intros ->; by destruct Hp as [[[? ?]|?] _]).
  rewrite !nil_of_len by done. cbn [orb]. rewrite Hu, parse_sent_length by done. cbn [mbind outcome_bind]. destruct (run_handler _ _) as [st panicked]. destruct (WriteHeader _ _ _) as [w out].
  eexists _, _, _. split; [reflexivity|]. cbn [req_Method req_Host req_RequestURI req_ContentLength req_Header]. split_and!; try done. intros K. by apply request_header_values.
Qed.

(** * Examples *)

(** A QPACK that keeps its laws: [1; b] for a byte, 0 at the end of a string, 1 before
    a field and 2 at the end. *)
Definition put_string (s : list Z) : list Z := concat (map (λ b, [1; b]) s) ++ [0].
Definition put_fields (l : list HeaderField) : list Z := concat (map (λ f : HeaderField, 1 :: put_string f.1 ++ put_string f.2) l) ++ [2].
Fixpoint get_string (l : list Z) : option (list Z * list Z) :=
  match l with
  | 0 :: l => Some ([], l)
  | 1 :: b :: l => match get_string l with Some (s, l) => Some (b :: s, l) | None => None end
  | _ => None
  end.
Fixpoint get_fields (fuel : nat) (l : list Z) : option (list HeaderField) :=
  match fuel, l with
  | S fuel, 1 :: l =>
      match get_string l with
      | Some (n, l) => match get_string l with
                       | Some (v, l) => match get_fields fuel l with Some fs => Some ((n, v) :: fs) | None => None end
                       | None => None
                       end
      | None => None
      end
  | S _, [2] => Some []
  | _, _ => None
  end.
Lemma get_put_string s l : get_string (put_string s ++ l) = Some (s, l).
Proof. unfold put_string. induction s as [|b s IH]; [done|]. cbn [map concat app get_string]. by rewrite IH. Qed.
Lemma get_put_fields l fuel : (length l < fuel)%nat → get_fields fuel (put_fields l) = Some l.
Proof.
  unfold put_fields. revert fuel. induction l as [|[n v] l IH]; intros [|fuel] Hf; try (cbn in Hf; lia); [done|]. cbn [map concat app get_fields fst snd].
  rewrite <- !app_assoc, !get_put_string, IH by (cbn in Hf; lia). done.
Qed.
Lemma put_fields_length l : (length l < length (put_fields l))%nat.
Proof. unfold put_fields. rewrite length_app. induction l as [|f l IH]; [cbn; lia|]. cbn [map concat]. rewrite !length_app in *. cbn [length] in *. lia. Qed.
#[local] Instance demo_qpack : Qpack := {|
  qpack_Encode := put_fields;
  qpack_DecodeFull l := match get_fields (length l) l with Some fs => inl fs | None => inr (Errorf "invalid block" []) end |}.
#[local] Instance demo_qpack_ok : QpackOk.
Proof.
  split; intros l.
  - cbn. by rewrite get_put_fields by apply put_fields_length.
  - cbn. pose proof (put_fields_length l). by destruct (put_fields l); [cbn in *; lia|].
Qed.
#[local] Instance demo_http : NetHTTP := {|
  ParseRequestURI _ := None; PunycodeHostPort h := inl h; ValidHeaderFieldName := forallb validHeaderFieldByte; ValidHeaderFieldValue _ := true |}.
#[local] Instance demo_http_ok : NetHTTPOk.
Proof. by split. Qed.
Definition demo_request : client_request :=
  mkClientRequest (codes "POST") [] (codes "qperf.org") (codes "https") [] (codes "/index.html")
    [(codes "X-Id", [codes "7"; codes "8"]); (codes "Cookie", [codes "a=1"; codes "b=2"]); (codes "Connection", [codes "close"])] true 5.
Definition demo_request_bytes : list Z := match getHeaders demo_request true with Ok b => b | _ => [] end.
Definition demo_request_stream : rstream := mkRS [demo_request_bytes; [0; 5; 1; 2; 3; 4; 5]] EOF false false.
Definition demo_handler (_ : http_Request) : list h_action :=
  [HRead 8; HHeader [(codes "Content-Type", [codes "text/html"]); (codes "content-encoding", [codes "gzip"]); (codes "Set-Cookie", [codes "a"; codes "b"])]; HWriteHeader 404; HWrite [7; 8]; HWriteHeader 200; HWrite [9]; HPanic].
Lemma http_request_delivered_witness : ∃ out c rq, handleRequest 0 demo_handler demo_request_stream = Ok (out, Some rq, c, noRequestError) ∧
  req_Method rq = codes "POST" ∧ req_Host rq = codes "qperf.org" ∧ req_RequestURI rq = codes "/index.html" ∧ req_ContentLength rq = 5 ∧
  req_Header rq !! codes "X-Id" = Some [codes "7"; codes "8"] ∧ req_Header rq !! codes "Cookie" = Some [codes "a=1; b=2"] ∧ req_Header rq !! codes "Connection" = None ∧
  req_Header rq !! codes "User-Agent" = Some [defaultUserAgent] ∧ req_Header rq !! codes "Accept-Encoding" = Some [codes "gzip"].
Proof.
  destruct (http_request_delivered demo_request true demo_request_bytes (codes "qperf.org") (codes "/index.html") 0 demo_handler demo_request_stream [0; 5; 1; 2; 3; 4; 5] EOF false)
    as (out & c & rq & E & Em & Eh & Eu & El & Ek).
  - vm_compute. reflexivity.
  - vm_compute. reflexivity.
  - split; [left; eexists; vm_compute; reflexivity|left; reflexivity].
  - vm_compute. discriminate.
  - discriminate.
  - discriminate.
  - reflexivity.
  - vm_compute. reflexivity.
  - vm_compute. discriminate.
  - vm_compute. discriminate.
  - split; [reflexivity|]. split; [reflexivity|]. split; [repeat constructor; vm_compute; discriminate|reflexivity].
  - exists out, c, rq. split; [exact E|]. split; [exact Em|]. split; [exact Eh|]. split; [exact Eu|]. split; [exact El|]. split_and!; rewrite Ek; vm_compute; reflexivity.
Defined.
(** A handler that closes the body of its request, as handlers may, closes the stream
    for writing: nothing of its response is sent. *)
Example close_loses_response : (match handleRequest 0 (λ _, [HCloseBody; HWrite [7]]) demo_request_stream with Ok (out, Some _, _, _) => Some (ws_data out) | _ => None end) = Some [].
Proof. vm_compute. reflexivity. Qed.
(** Data that the body of a request returns together with the end is not sent. *)
Example data_with_eof_lost : sendRequestBody [([1; 2], None); ([3], Some EOF)] (mkWS [] None) = Some (mkWS [0; 2; 1; 2] None, false, None).
Proof. vm_compute. reflexivity. Qed.
(** CONNECT requests are sent without a path, and refused. *)
Example connect_refused :
  match getHeaders (mkClientRequest (codes "CONNECT") [] (codes "qperf.org") (codes "https") [] [] [] false 0) false with
  | Ok b => (match handleRequest 0 demo_handler (mkRS [b] EOF false false) with Ok (_, None, _, e) => streamErr e =? errorGeneralProtocolError | _ => false end) = true
  | _ => False
  end.
Proof. vm_compute. reflexivity. Qed.
