(* ===== verification/H3Clients.v ===== *)
(** H3Clients: the clients of a round tripper (quic-go/http3/roundtrip.go, client.go)
    and the listeners of a server (server.go). *)

From S2P Require Import Prelude Utils Protocol Tokens H3Frames H3.

(** * net *)

Fixpoint last_index (s : list Z) (c : Z) : option nat :=
  match s with [] => None | b :: s => match last_index s c with Some i => Some (S i) | None => if b =? c then Some 0%nat else None end end.
Fixpoint index_byte (s : list Z) (c : Z) : option nat :=
  match s with [] => None | b :: s => if b =? c then Some 0%nat else S <$> index_byte s c end.
(** [net.SplitHostPort]: the host and the port, unless there is no port, or there are
    too many colons or brackets. *)
Definition SplitHostPort (hostport : list Z) : option (list Z * list Z) :=
  match last_index hostport 58 with
  | None => None
  | Some i =>
      let port := drop (S i) hostport in
      let finish (host : list Z) (j k : nat) :=
        if bool_decide (91 ∈ drop j hostport) || bool_decide (93 ∈ drop k hostport) then None else Some (host, port) in
      if bool_decide (hostport !! 0%nat = Some 91) then
        match index_byte hostport 93 with
        | None => None
        | Some e => if bool_decide (S e = i) then finish (drop 1 (take e hostport)) 1%nat (S e) else None
        end
      else let host := take i hostport in if bool_decide (58 ∈ host) then None else finish host 0%nat 0%nat
  end.
Definition JoinHostPort (host port : list Z) : list Z :=
  if bool_decide (58 ∈ host) then 91 :: host ++ 93 :: 58 :: port else host ++ 58 :: port.
Definition HasPrefix (s p : list Z) : bool := bool_decide (take (length p) s = p).
Definition HasSuffix (s p : list Z) : bool := bool_decide (drop (length s - length p) s = p) && (length p <=? length s)%nat.

(** The packages that are used: [idna.ToASCII], [httpguts.IsTokenRune] and
    [net.LookupPort]. *)
Class Names := { ToASCII : list Z → option (list Z); IsTokenRune : Z → bool; LookupPort : list Z → Z + goerr }.

Section Clients.
Context `{Qpack} `{NetHTTP} `{Names}.
(** * request_writer.go, request.go, roundtrip.go: checks *)

Definition authorityAddr (scheme authority : list Z) : list Z :=
  let '(host, port) := match SplitHostPort authority with
                       | Some hp => hp
                       | None => (authority, if bool_decide (scheme = codes "http") then codes "80" else codes "443")
                       end in
  let host := default host (ToASCII host) in
  if HasPrefix host (codes "[") && HasSuffix host (codes "]") then host ++ codes ":" ++ port else JoinHostPort host port.
Definition hostnameFromRequest (has_url : bool) (req : client_request) : list Z := if has_url then url_Host req else [].
Definition isNotToken (r : Z) : bool := negb (IsTokenRune r).
(** By bytes: a byte from 128 on belongs to a rune beyond ASCII, which is no token. *)
Definition validMethod (method : list Z) : bool := (0 <? len method) && forallb (λ c, (c <? 128) && negb (isNotToken c)) method.

(** * client.go *)

(** [dialOnce] is whether it was used; [cl_session] is whether there is a session. *)
Record client := mkClient { cl_hostname : list Z; cl_opts : roundTripperOpts; dialOnce : bool; handshakeErr : option goerr; cl_session : bool }.
Definition newClient (hostname : list Z) (opts : roundTripperOpts) : client := mkClient (authorityAddr (codes "https") hostname) opts false None false.
(** The new state; [r] is the error of the dialer. *)
Definition dial (c : client) (r : option goerr) : client * option goerr :=
  (mkClient (cl_hostname c) (cl_opts c) (dialOnce c) (handshakeErr c) (bool_decide (r = None)), r).
Definition dial_once (c : client) (r : option goerr) : client :=
  if dialOnce c then c else let '(c, e) := dial c r in mkClient (cl_hostname c) (cl_opts c) true e (cl_session c).
(** What is written to the control stream, if it could be opened, and the error. *)
Definition setupSession (opened : option goerr) (s : wstream) : wstream * option goerr :=
  match opened with Some e => (s, Some e) | None => ws_Write s control_stream end.
Definition setup_events (e : option goerr) : list h3_event := match e with Some _ => [H3CloseSession errorInternalError] | None => [] end.
Definition client_Close (c : client) (closed : option goerr) : outcome (option goerr) := if cl_session c then Ok closed else Panic "nil pointer dereference".
Definition wrongClient : goerr := Errorf "http3 client BUG: RoundTrip called for the wrong client (expected %s, got %s)" [].
(** The environment of a round trip, which fails with the cause of an error: the errors of dialing and of opening a stream,
    and the two directions of the stream. *)
Record trip := mkTrip { t_dialed : option goerr; t_opened : option goerr; t_out : wstream; t_in : rstream }.
Inductive rt_event := CloseRequestBody | Dialed (hostname : list Z) | OnStream (e : h3_event).
Definition client_RoundTrip (c : client) (has_url : bool) (req : client_request) (t : trip) : client * list rt_event * outcome (http_Response * rstream) :=
  if bool_decide (url_Scheme req ≠ codes "https") then (c, [], Err (Errorf "http3: unsupported scheme" [])) else
  if bool_decide (authorityAddr (codes "https") (hostnameFromRequest has_url req) ≠ cl_hostname c) then (c, [], Err wrongClient) else
  let evs := if dialOnce c then [] else [Dialed (cl_hostname c)] in
  let c := dial_once c (t_dialed t) in
  match handshakeErr c, t_opened t with
  | Some e, _ => (c, evs, Err e)
  | None, Some e => (c, evs, Err e)
  | None, None =>
      match doRequest (cl_opts c) req (t_out t) (t_in t) with
      | (_, Panic p) => (c, evs, Panic p)
      | (_, Err e) => (c, evs, Err e)
      | (_, Ok (inl res)) => (c, evs, Ok res)
      | (_, Ok (inr e)) => (c, evs ++ (OnStream <$> after_response e), match re_err e with Some err => Err err | None => Panic "nil response" end)
      end
  end.

(** * roundtrip.go *)

Record RoundTripper := mkRT { rt_opts : roundTripperOpts; rt_clients : gmap (list Z) client }.
Definition ErrNoCachedConn : goerr := Errorf "http3: no cached connection was available" [].
Definition getClient (r : RoundTripper) (hostname : list Z) (onlyCached : bool) : RoundTripper * outcome client :=
  match rt_clients r !! hostname with
  | Some c => (r, Ok c)
  | None =>
      if onlyCached then (r, Err ErrNoCachedConn)
      else let c := newClient hostname (rt_opts r) in (mkRT (rt_opts r) (<[hostname := c]> (rt_clients r)), Ok c)
  end.
Definition closeRequestBody (req : client_request) : list rt_event := if cr_Body req then [CloseRequestBody] else [].
(** The client is shared with the map. *)
Definition RoundTripOpt (r : RoundTripper) (has_url has_header : bool) (req : client_request) (onlyCached : bool) (t : trip)
    : RoundTripper * list rt_event * outcome (http_Response * rstream) :=
  if negb has_url then (r, closeRequestBody req, Err (Errorf "http3: nil Request.URL" []))
  else if bool_decide (url_Host req = []) then (r, closeRequestBody req, Err (Errorf "http3: no Host in request URL" []))
  else if negb has_header then (r, closeRequestBody req, Err (Errorf "http3: nil Request.Header" []))
  else if bool_decide (url_Scheme req ≠ codes "https") then (r, closeRequestBody req, Err (Errorf "http3: unsupported protocol scheme: %s" []))
  else match find (λ kv : list Z * list (list Z), negb (ValidHeaderFieldName kv.1) || existsb (λ v, negb (ValidHeaderFieldValue v)) kv.2) (cr_Header req) with
  | Some kv => (r, [], Err (if negb (ValidHeaderFieldName kv.1) then Errorf "http3: invalid http header field name %q" [] else Errorf "http3: invalid http header field value %q for key %v" []))
  | None =>
      if bool_decide (cr_Method req ≠ []) && negb (validMethod (cr_Method req)) then (r, closeRequestBody req, Err (Errorf "http3: invalid method %q" []))
      else
        let hostname := authorityAddr (codes "https") (hostnameFromRequest has_url req) in
        match getClient r hostname onlyCached with
        | (r, Panic p) => (r, [], Panic p)
        | (r, Err e) => (r, [], Err e)
        | (r, Ok c) => let '(c, evs, res) := client_RoundTrip c has_url req t in (mkRT (rt_opts r) (<[hostname := c]> (rt_clients r)), evs, res)
        end
  end.
Definition RoundTrip (r : RoundTripper) (has_url has_header : bool) (req : client_request) (t : trip) := RoundTripOpt r has_url has_header req false t.
(** [order] is the order in which the clients are closed, each with the error of its
    session. *)
Fixpoint rt_Close (r : RoundTripper) (order : list (client * option goerr)) : RoundTripper * outcome (option goerr) :=
  match order with
  | [] => (mkRT (rt_opts r) ∅, Ok None)
  | (c, e) :: order =>
      match client_Close c e with
      | Panic p => (r, Panic p)
      | Err err => (r, Err err)
      | Ok (Some err) => (r, Ok (Some err))
      | Ok None => rt_Close r order
      end
  end.

(** * server.go: listeners *)

(** Listeners are numbered. *)
Record h3_server := mkH3Server { h3_listeners : gset Z; h3_closed : bool; h3_port : Z; supportedVersionsAsString : list Z }.
Definition addListener (s : h3_server) (l : Z) : h3_server := mkH3Server ({[l]} ∪ h3_listeners s) (h3_closed s) (h3_port s) (supportedVersionsAsString s).
Definition removeListener (s : h3_server) (l : Z) : h3_server := mkH3Server (h3_listeners s ∖ {[l]}) (h3_closed s) (h3_port s) (supportedVersionsAsString s).
Definition ErrServerClosed : goerr := Errorf "http: Server closed" [].
(** [serveImpl] up to its loop: the listener it accepts sessions from, or an error.
    After the loop, the listener is removed. *)
Definition serveImpl (s : h3_server) (has_server : bool) (listened : Z + goerr) : h3_server * (Z + goerr) :=
  if h3_closed s then (s, inr ErrServerClosed)
  else if negb has_server then (s, inr (Errorf "use of http3.Server without http.Server" []))
  else match listened with inr e => (s, inr e) | inl l => (addListener s l, inl l) end.
(** [order] is the order in which the listeners are closed, with their errors. *)
Definition server_Close (s : h3_server) (order : list (Z * option goerr)) : h3_server * list Z * option goerr :=
  (mkH3Server (h3_listeners s) true (h3_port s) (supportedVersionsAsString s), order.*1, fold_left (λ err (le : Z * option goerr), match err with None => le.2 | _ => err end) order None).
Definition ToAltSvc (vn : Z) : list Z := Itoa vn.
Definition SetQuicHeaders (s : h3_server) (Addr : list Z) (hdr : http_Header) : h3_server * http_Header * option goerr :=
  let port := if h3_port s =? 0 then
                match SplitHostPort Addr with
                | None => inr (Errorf "address %s: missing port in address" [])
                | Some (_, portStr) => match LookupPort portStr with inr e => inr e | inl p => inl (u32 p) end
                end
              else inl (h3_port s) in
  match port with
  | inr e => (s, hdr, Some e)
  | inl port =>
      let versions := if bool_decide (supportedVersionsAsString s = []) then join (codes ",") (map ToAltSvc SupportedVersions) else supportedVersionsAsString s in
      (mkH3Server (h3_listeners s) (h3_closed s) port versions,
       header_Add hdr (codes "Alt-Svc") (codes "quic=" ++ 34 :: codes ":" ++ Itoa port ++ 34 :: codes "; ma=2592000; v=" ++ 34 :: versions ++ [34]), None)
  end.
End Clients.

(** * Addresses *)

Definition plain_host (l : list Z) : Prop := (91 ∉ l) ∧ (93 ∉ l).
Lemma elem_of_drop (l : list Z) n c : c ∈ drop n l → c ∈ l.
Proof. intros Hc. rewrite <- (take_drop n l). apply elem_of_app. by right. Qed.
Lemma last_index_app a p c : c ∉ p → last_index (a ++ c :: p) c = Some (length a).
Proof.
  intros Hp. induction a as [|b a IH]; cbn [app last_index].
  - assert (last_index p c = None) as ->; [|by rewrite Z.eqb_refl]. clear -Hp. induction p as [|b p IH]; [done|]. cbn [last_index]. apply not_elem_of_cons in Hp as [Hb Hp].
    rewrite IH by done. destruct (Z.eqb_spec b c); [congruence|done].
  - by rewrite IH.
Qed.
Lemma last_index_drop s c i : last_index s c = Some i → c ∉ drop (S i) s.
Proof.
  assert (∀ l, last_index l c = None → c ∉ l) as Hn.
  { induction l as [|b l IH]; [intros _; apply not_elem_of_nil|]. cbn [last_index]. destruct (last_index l c); [done|]. destruct (Z.eqb_spec b c); [done|]. intros _. apply not_elem_of_cons. auto. }
  revert i. induction s as [|b s IH]; intros i; [done|]. cbn [last_index]. destruct (last_index s c) as [k|] eqn:E.
  - intros [= <-]. cbn [drop]. by apply IH.
  - destruct (b =? c); [|done]. intros [= <-]. cbn [drop]. by apply Hn.
Qed.
Lemma index_byte_app a p c : c ∉ a → index_byte (a ++ c :: p) c = Some (length a).
Proof.
  induction a as [|b a IH]; intros Ha; cbn [app index_byte]; [by rewrite Z.eqb_refl|]. apply not_elem_of_cons in Ha as [Hb Ha]. destruct (Z.eqb_spec b c); [congruence|]. by rewrite IH.
Qed.
Lemma index_byte_take s c e : index_byte s c = Some e → c ∉ take e s.
Proof.
  revert e. induction s as [|b s IH]; intros e; [done|]. cbn [index_byte]. destruct (Z.eqb_spec b c); [intros [= <-]; apply not_elem_of_nil|].
  destruct (index_byte s c) as [k|]; [|done]. intros [= <-]. cbn [take]. apply not_elem_of_cons. auto.
Qed.
Lemma split_bracket x p : plain_host x → plain_host p → 58 ∉ p → SplitHostPort (91 :: x ++ 93 :: 58 :: p) = Some (x, p).
Proof.
  intros [Hx1 Hx2] [Hp1 Hp2] Hp. unfold SplitHostPort. assert (∀ q, (91 :: x ++ 93 :: q) = ((91 :: x) ++ 93 :: q)) as E by done.
  assert (last_index (91 :: x ++ 93 :: 58 :: p) 58 = Some (S (S (length x)))) as ->.
  { rewrite E. change (93 :: 58 :: p) with ([93] ++ 58 :: p). rewrite app_assoc, last_index_app by done. f_equal. rewrite length_app. cbn. lia. }
  assert (index_byte (91 :: x ++ 93 :: 58 :: p) 93 = Some (S (length x))) as ->.
  { rewrite E, index_byte_app; [done|]. apply not_elem_of_cons. split; [done|exact Hx2]. }
  rewrite !bool_decide_true by done. rewrite !bool_decide_false.
  - cbn [orb drop take]. rewrite drop_0, take_app_length. change (x ++ 93 :: 58 :: p) with (x ++ [93; 58] ++ p). rewrite app_assoc, drop_app_length' by (rewrite length_app; cbn; lia). done.
  - cbn [drop]. change (x ++ 93 :: 58 :: p) with (x ++ [93] ++ 58 :: p). rewrite app_assoc, drop_app_length' by (rewrite length_app; cbn; lia). set_solver.
  - cbn [drop]. rewrite drop_0. set_solver.
Qed.
Lemma split_join h p : plain_host h → plain_host p → 58 ∉ p → SplitHostPort (JoinHostPort h p) = Some (h, p).
Proof.
  intros Hh Hpp Hp. unfold JoinHostPort. case_bool_decide as Hc; [by apply split_bracket|]. destruct Hh as [Hh1 Hh2], Hpp as [Hp1 Hp2]. unfold SplitHostPort. rewrite last_index_app by done.
  assert ((if bool_decide (58 ∈ take (length h) (h ++ 58 :: p)) then None else
     if bool_decide (91 ∈ drop 0 (h ++ 58 :: p)) || bool_decide (93 ∈ drop 0 (h ++ 58 :: p)) then None else Some (take (length h) (h ++ 58 :: p), drop (S (length h)) (h ++ 58 :: p))) = Some (h, p)) as E.
  { rewrite take_app_length, !bool_decide_false by (done || rewrite drop_0; set_solver). cbn [orb]. change (h ++ 58 :: p) with (h ++ [58] ++ p). rewrite app_assoc, drop_app_length' by (rewrite length_app; cbn; lia). done. }
  rewrite bool_decide_false; [exact E|]. destruct h as [|c h]; [done|]. cbn. set_solver.
Qed.
Lemma split_plain s h p : SplitHostPort s = Some (h, p) → plain_host p ∧ (58 ∉ p).
Proof.
  unfold SplitHostPort. destruct (last_index s 58) as [i|] eqn:Ei; [|done]. pose proof (last_index_drop s 58 i Ei) as Hp.
  assert (∀ (host : list Z) j k, (j <= S i)%nat → (k <= S i)%nat → (if bool_decide (91 ∈ drop j s) || bool_decide (93 ∈ drop k s) then None else Some (host, drop (S i) s)) = Some (h, p) →
    plain_host p ∧ (58 ∉ p)) as Hf.
  { intros host j k Hj Hk. repeat case_bool_decide; try done. cbn [orb]. intros [= _ <-]. split; [|done].
    split; intros Hin; [apply H|apply H0]; [replace (S i) with (j + (S i - j))%nat in Hin by lia|replace (S i) with (k + (S i - k))%nat in Hin by lia]; rewrite <- drop_drop in Hin; by apply elem_of_drop in Hin. }
  case_bool_decide; [destruct (index_byte s 93) as [e|]; [|done]|]; (case_bool_decide; try done; apply Hf; lia).
Qed.

Section Hosts.
Context `{Qpack} `{NetHTTP} `{Names}.
Definition host_port (a : list Z) : list Z * list Z := default (a, codes "443") (SplitHostPort a).
Definition ascii_host (h : list Z) : list Z := default h (ToASCII h).
(** Hosts for which an address is made that is its own address: names whose ASCII form
    is stable, and IPv6 addresses in brackets. *)
Definition good_host (a : list Z) : Prop :=
  (let h := ascii_host (host_port a).1 in plain_host h ∧ ToASCII h = Some h) ∨
  (∃ x, a = 91 :: x ++ [93] ∧ 58 ∈ x ∧ plain_host x ∧ ToASCII x = Some x ∧ ToASCII a = Some a).
Lemma port_plain a : plain_host (host_port a).2 ∧ (58 ∉ (host_port a).2).
Proof. unfold host_port. destruct (SplitHostPort a) as [[h p]|] eqn:E; [by apply split_plain in E|]. cbn. split; [split|]; set_solver. Qed.
Lemma not_bracketed h : plain_host h → HasPrefix h (codes "[") = false.
Proof. intros [Hh _]. unfold HasPrefix. apply bool_decide_eq_false. destruct h as [|c h]; [done|]. cbn. rewrite take_0. intros [= ->]. set_solver. Qed.
Lemma authority_plain a : plain_host (ascii_host (host_port a).1) → authorityAddr (codes "https") a = JoinHostPort (ascii_host (host_port a).1) (host_port a).2.
Proof. intros Hp. unfold authorityAddr. unfold host_port, ascii_host in *. destruct (SplitHostPort a) as [[h p]|]; cbn [default fst snd] in *; by rewrite not_bracketed. Qed.
Lemma authority_joined h p : plain_host h → plain_host p → (58 ∉ p) → ToASCII h = Some h → authorityAddr (codes "https") (JoinHostPort h p) = JoinHostPort h p.
Proof.
  intros Hh Hp Hc Ha. assert (host_port (JoinHostPort h p) = (h, p)) as E by (unfold host_port; by rewrite split_join). rewrite authority_plain; rewrite E; cbn [fst snd]; unfold ascii_host; by rewrite Ha.
Qed.
Lemma split_no_port x : (93 ∉ x) → SplitHostPort (91 :: x ++ [93]) = None.
Proof.
  intros Hx. unfold SplitHostPort. destruct (last_index _ 58) as [i|] eqn:Ei; [|done]. rewrite bool_decide_true by done.
  change (91 :: x ++ [93]) with ((91 :: x) ++ [93]) in *. rewrite index_byte_app by set_solver. rewrite bool_decide_false; [done|].
  assert (∀ l c k, last_index l c = Some k → (k < length l)%nat) as Hl.
  { clear. induction l as [|b l IH]; intros c k; [done|]. cbn [last_index length]. destruct (last_index l c) eqn:E; [intros [= <-]; apply IH in E; lia|]. destruct (b =? c); [intros [= <-]; lia|done]. }
  apply Hl in Ei. rewrite length_app in Ei. cbn in *. lia.
Qed.
Lemma authority_twice a : good_host a → authorityAddr (codes "https") (authorityAddr (codes "https") a) = authorityAddr (codes "https") a.
Proof.
  destruct (port_plain a) as [Hp Hc]. intros [[Hh Ha]|(x & -> & Hx & Hpx & Ax & Aa)].
  - rewrite (authority_plain a Hh). by apply authority_joined.
  - assert (authorityAddr (codes "https") (91 :: x ++ [93]) = JoinHostPort x (codes "443")) as ->.
    { unfold authorityAddr. rewrite split_no_port by apply Hpx. rewrite (bool_decide_false (codes "https" = _)), Aa by done. cbn [default id].
      assert (HasPrefix (91 :: x ++ [93]) (codes "[") = true) as -> by (apply bool_decide_eq_true; cbn; by rewrite take_0).
      assert (HasSuffix (91 :: x ++ [93]) (codes "]") = true) as ->.
      { unfold HasSuffix. rewrite (proj2 (Nat.leb_le _ _)), andb_true_r by (cbn; lia). apply bool_decide_eq_true. change (91 :: x ++ [93]) with ((91 :: x) ++ [93]).
        rewrite drop_app_length'; [done|]. rewrite length_app. cbn. lia. }
      cbn [andb]. unfold JoinHostPort. rewrite bool_decide_true by done. cbn [app]. f_equal. by rewrite <- app_assoc. }
    apply authority_joined; try done; [split|]; set_solver.
Qed.

(** * Connections *)

Definition rt_call : Type := bool * bool * client_request * bool * trip.
Fixpoint rt_run (r : RoundTripper) (calls : list rt_call) : RoundTripper * list rt_event :=
  match calls with
  | [] => (r, [])
  | (u, h, req, oc, t) :: calls => let '(r, evs, _) := RoundTripOpt r u h req oc t in let '(r, evs') := rt_run r calls in (r, evs ++ evs')
  end.
Definition dialed (evs : list rt_event) : list (list Z) := omap (λ e, match e with Dialed h => Some h | _ => None end) evs.
Definition rt_ok (r : RoundTripper) (hosts : list (list Z)) : Prop :=
  NoDup hosts ∧ (∀ h, h ∈ hosts → is_Some (rt_clients r !! h)) ∧
  ∀ h c, rt_clients r !! h = Some c → cl_hostname c = h ∧ dialOnce c = bool_decide (h ∈ hosts) ∧ cl_session c = dialOnce c && bool_decide (handshakeErr c = None) ∧ (dialOnce c = false → handshakeErr c = None).
Definition good_call (k : rt_call) : Prop := let '(u, _, req, _, _) := k in good_host (hostnameFromRequest u req).
Lemma dialed_stream l : dialed (OnStream <$> l) = [].
Proof. by induction l. Qed.
Lemma client_trip c u req t c' evs res : client_RoundTrip c u req t = (c', evs, res) → cl_hostname c = authorityAddr (codes "https") (hostnameFromRequest u req) → url_Scheme req = codes "https" →
  cl_session c = dialOnce c && bool_decide (handshakeErr c = None) → (dialOnce c = false → handshakeErr c = None) →
  cl_hostname c' = cl_hostname c ∧ dialOnce c' = true ∧ cl_session c' = bool_decide (handshakeErr c' = None) ∧ dialed evs = if dialOnce c then [] else [cl_hostname c].
Proof.
  unfold client_RoundTrip. intros E Hh Hs Hsess Herr. rewrite !bool_decide_false in E by (rewrite ?Hs, ?Hh; by intros HH; apply HH).
  set (evs0 := if dialOnce c then [] else _) in E. assert (dialed evs0 = if dialOnce c then [] else [cl_hostname c]) as Ed by (unfold evs0; by destruct (dialOnce c)). clearbody evs0.
  assert (c' = dial_once c (t_dialed t) ∧ ∃ l, evs = evs0 ++ (OnStream <$> l)) as (-> & l & ->).
  { destruct (handshakeErr (dial_once c (t_dialed t))); [|destruct (t_opened t); [|destruct (doRequest _ _ _ _) as [? [[|]| |]]]];
      injection E as <- <- _; (split; [done|]); first [by eexists | exists []; by rewrite app_nil_r]. }
  unfold dialed. rewrite omap_app. fold (dialed evs0). fold (dialed (OnStream <$> l)). rewrite dialed_stream, app_nil_r, Ed. unfold dial_once, dial. destruct (dialOnce c) eqn:Eo; cbn; rewrite ?Hsess, ?Eo; done.
Qed.
Lemma rt_ok_new r hosts h : rt_ok r hosts → rt_clients r !! h = None → authorityAddr (codes "https") h = h →
  rt_ok (mkRT (rt_opts r) (<[h := newClient h (rt_opts r)]> (rt_clients r))) hosts.
Proof.
  intros (Hnd & Hin & Hc) Hn Ha. split; [done|]. cbn [rt_clients]. split.
  - intros k Hk. destruct (decide (k = h)) as [->|]; [by rewrite lookup_insert_eq|]. rewrite lookup_insert_ne by done. by apply Hin.
  - intros k c Hk. destruct (decide (k = h)) as [->|]; [|rewrite lookup_insert_ne in Hk by done; by apply Hc]. rewrite lookup_insert_eq in Hk. injection Hk as <-. cbn. split_and!; try done.
    symmetry. apply bool_decide_eq_false. intros Hh. apply Hin in Hh as [? ?]. congruence.
Qed.
Lemma rt_ok_dialed r hosts h c c' : rt_ok r hosts → rt_clients r !! h = Some c → cl_hostname c' = h → dialOnce c' = true → cl_session c' = bool_decide (handshakeErr c' = None) →
  rt_ok (mkRT (rt_opts r) (<[h := c']> (rt_clients r))) (hosts ++ if dialOnce c then [] else [h]).
Proof.
  intros (Hnd & Hin & Hc) Hh Hc' Ho Hs. pose proof (Hc h c Hh) as (_ & Hd & _). split_and!; cbn [rt_clients].
  - destruct (dialOnce c); [by rewrite app_nil_r|]. apply NoDup_app. split; [done|]. split; [|apply NoDup_singleton]. intros k Hk ->%list_elem_of_singleton. symmetry in Hd. by apply bool_decide_eq_false in Hd.
  - intros k Hk. destruct (decide (k = h)) as [->|]; [by rewrite lookup_insert_eq|]. rewrite lookup_insert_ne by done. apply Hin. apply elem_of_app in Hk as [Hk|Hk]; [done|]. destruct (dialOnce c); set_solver.
  - intros k d Hk. destruct (decide (k = h)) as [->|].
    + rewrite lookup_insert_eq in Hk. injection Hk as <-. rewrite Ho, Hs. split_and!; try done. symmetry. apply bool_decide_eq_true. apply elem_of_app. destruct (dialOnce c); [left; symmetry in Hd; by apply bool_decide_eq_true in Hd|right; set_solver].
    + rewrite lookup_insert_ne in Hk by done. destruct (Hc k d Hk) as (E1 & E2 & E3). split; [done|]. split; [|done]. rewrite E2. apply bool_decide_ext. destruct (dialOnce c); set_solver.
Qed.
Lemma rt_call_ok r u h req oc t r' evs res hosts : rt_ok r hosts → good_host (hostnameFromRequest u req) → RoundTripOpt r u h req oc t = (r', evs, res) → rt_ok r' (hosts ++ dialed evs).
Proof.
  intros Hok Hg. unfold RoundTripOpt. pose proof (authority_twice _ Hg) as Ht. set (a := authorityAddr (codes "https") (hostnameFromRequest u req)) in *.
  assert (∀ b (e : goerr), (r, closeRequestBody req, @Err (http_Response * rstream) e) = (r', evs, b) → rt_ok r' (hosts ++ dialed evs)) as Hclose.
  { intros b e [= <- <- _]. unfold closeRequestBody. destruct (cr_Body req); cbn; by rewrite app_nil_r. }
  destruct (negb u); [apply Hclose|]. case_bool_decide; [apply Hclose|]. destruct (negb h); [apply Hclose|]. case_bool_decide as Hs; [apply Hclose|].
  assert (url_Scheme req = codes "https") as Hs' by (destruct (decide (url_Scheme req = codes "https")); [done|by destruct Hs]).
  destruct (find _ _); [intros [= <- <- _]; cbn; by rewrite app_nil_r|]. destruct (_ && _); [apply Hclose|].
  assert (∀ r0 c, rt_ok r0 hosts → rt_clients r0 !! a = Some c → (let '(c, evs, res) := client_RoundTrip c u req t in (mkRT (rt_opts r0) (<[a := c]> (rt_clients r0)), evs, res)) = (r', evs, res) →
    rt_ok r' (hosts ++ dialed evs)) as Htrip.
  { intros r0 c Hok0 Hc. destruct (client_RoundTrip c u req t) as [[c' evs0] res0] eqn:E. intros [= <- <- <-]. pose proof Hok0 as (_ & _ & Hcl). destruct (Hcl a c Hc) as (E1 & E2 & E3 & E4).
    destruct (client_trip c u req t c' evs0 res0 E) as (F1 & F2 & F3 & ->); try done. rewrite E1 in *. by apply rt_ok_dialed. }
  unfold getClient. destruct (rt_clients r !! a) as [c|] eqn:Ec; [by apply Htrip|]. destruct oc; [intros [= <- <- _]; cbn; by rewrite app_nil_r|].
  apply Htrip; [by apply rt_ok_new|]. cbn. by rewrite lookup_insert_eq.
Qed.
Lemma rt_run_ok calls r hosts : rt_ok r hosts → Forall good_call calls → let '(r', evs) := rt_run r calls in rt_ok r' (hosts ++ dialed evs).
Proof.
  intros Hok Hg. revert r hosts Hok. induction Hg as [|[[[[u h] req] oc] t] calls Hg Hgs IH]; intros r hosts Hok; cbn [rt_run]; [cbn; by rewrite app_nil_r|].
  destruct (RoundTripOpt r u h req oc t) as [[r1 evs1] res] eqn:E. pose proof (rt_call_ok _ _ _ _ _ _ _ _ _ _ Hok Hg E) as Hok1. specialize (IH r1 _ Hok1).
  destruct (rt_run r1 calls) as [r2 evs2]. unfold dialed in *. by rewrite omap_app, app_assoc.
Qed.
End Hosts.

(** A round tripper has one connection per host.  Whatever requests it is given, with
    hosts whose ASCII form is stable or with IPv6 addresses in brackets, it dials a
    host at most once, every client is kept under the address it dials, so that no
    request meets the wrong client, and a client has a session if and only if its
    dialing succeeded. *)
Theorem one_connection_per_host `{Qpack} `{NetHTTP} `{Names} opts calls : Forall good_call calls →
  let '(r, evs) := rt_run (mkRT opts ∅) calls in NoDup (dialed evs) ∧
    ∀ h c, rt_clients r !! h = Some c → cl_hostname c = h ∧ dialOnce c = bool_decide (h ∈ dialed evs) ∧ cl_session c = dialOnce c && bool_decide (handshakeErr c = None).
Proof.
  intros Hg. assert (rt_ok (mkRT opts ∅) []) as Hok by (split_and!; [apply NoDup_nil_2|set_solver|intros ? ?; cbn; by rewrite lookup_empty]). pose proof (rt_run_ok calls (mkRT opts ∅) [] Hok Hg) as Hr.
  destruct (rt_run (mkRT opts ∅) calls) as [r evs]. destruct Hr as (Hnd & _ & Hc). split; [done|]. intros h c Hh. destruct (Hc h c Hh) as (? & ? & ? & _). done.
Qed.

(** * Examples *)

Definition demo_names : Names := {| ToASCII s := Some s; IsTokenRune _ := true; LookupPort _ := inl 443 |}.
Definition no_qpack : Qpack := {| qpack_Encode _ := [0]; qpack_DecodeFull _ := inl [] |}.
Definition any_http : NetHTTP := {| ParseRequestURI _ := None; PunycodeHostPort h := inl h; ValidHeaderFieldName _ := true; ValidHeaderFieldValue _ := true |}.
Definition get_url (host : list Z) : client_request := mkClientRequest (codes "GET") [] host (codes "https") [] (codes "/") [] false 0.
Definition a_trip (e : option goerr) : trip := mkTrip e None (mkWS [] None) (mkRS [] EOF false false).
Definition two_calls : list rt_call :=
  [(true, true, get_url (codes "qperf.org"), false, a_trip (Some EOF)); (true, true, get_url (codes "qperf.org:443"), false, a_trip None); (true, true, get_url (codes "[::1]"), false, a_trip None)].
Lemma one_connection_per_host_witness : NoDup (dialed (@rt_run no_qpack any_http demo_names (mkRT (mkOpts false 0) ∅) two_calls).2).
Proof.
  assert (Forall (@good_call demo_names) two_calls) as Hg.
  { constructor; [left; split; [split|]; [vm_compute; set_solver|vm_compute; set_solver|reflexivity]|]. constructor; [left; split; [split|]; [vm_compute; set_solver|vm_compute; set_solver|reflexivity]|].
    constructor; [|constructor]. right. exists (codes "::1"). split; [reflexivity|]. split; [vm_compute; set_solver|]. split; [split; vm_compute; set_solver|]. split; reflexivity. }
  pose proof (@one_connection_per_host no_qpack any_http demo_names (mkOpts false 0) two_calls Hg) as Hc.
  destruct (@rt_run no_qpack any_http demo_names (mkRT (mkOpts false 0) ∅) two_calls) as [r evs]. exact (proj1 Hc).
Defined.
Example addresses : let _ := demo_names in
  (authorityAddr (codes "https") (codes "qperf.org"), authorityAddr (codes "https") (codes "[::1]"), authorityAddr (codes "http") (codes "[::1]:8080")) = (codes "qperf.org:443", codes "[::1]:443", codes "[::1]:8080").
Proof. vm_compute. reflexivity. Qed.
(** A failed dialing is kept: the second request to the host fails with the error of
    the first, though the server could be reached by now, and closing the round tripper
    then panics. *)
Example failed_dial_kept : let _ := no_qpack in let _ := any_http in let _ := demo_names in
  let '(r, _, res1) := RoundTrip (mkRT (mkOpts false 0) ∅) true true (get_url (codes "qperf.org")) (a_trip (Some (Errorf "timeout" []))) in
  let '(r, evs, res2) := RoundTrip r true true (get_url (codes "qperf.org")) (a_trip None) in
  (evs, match res2 with Err e => Some e | _ => None end, match (rt_Close r ((λ kc, (kc.2, None)) <$> map_to_list (rt_clients r))).2 with Panic _ => true | _ => false end)
    = ([], Some (Errorf "timeout" []), true).
Proof. vm_compute. reflexivity. Qed.
(** A host in brackets that is no address gets the wrong client. *)
Example wrong_client : let _ := no_qpack in let _ := any_http in let _ := demo_names in
  (RoundTrip (mkRT (mkOpts false 0) ∅) true true (get_url (codes "[a]")) (a_trip None)).2 = Err wrongClient.
Proof. vm_compute. reflexivity. Qed.
(** The header a server announces itself with. *)
Example alt_svc : let _ := demo_names in
  (SetQuicHeaders (mkH3Server ∅ false 0 []) (codes "qperf.org:443") ∅).1.2 = {[codes "Alt-Svc" := [codes "quic=" ++ 34 :: codes ":443" ++ 34 :: codes "; ma=2592000; v=" ++ 34 :: codes "1363628031" ++ [34]]]}.
Proof. vm_compute. reflexivity. Qed.
