(* ===== verification/Timers.v ===== *)
(** Timers: the timer of core/utils/timer.go on top of the timers of the runtime, and
    the queue of the sending goroutine (send_queue.go). *)

From S2P Require Import Prelude Utils.

(** * time.Timer *)

(** When the timer fires, and whether there is a value in its channel. *)
Record time_Timer := mkTT { tt_at : option Z; tt_C : bool }.
(** Time passes: a timer that is due puts a value into its channel. *)
Definition tt_tick (now : Z) (t : time_Timer) : time_Timer :=
  match tt_at t with Some a => if a <=? now then mkTT None true else t | None => t end.
Definition tt_New (now d : Z) : time_Timer := mkTT (Some (now + d)) false.
(** [Stop] reports whether the timer was running. *)
Definition tt_Stop (t : time_Timer) : time_Timer * bool := (mkTT None (tt_C t), bool_decide (tt_at t ≠ None)).
Definition tt_Reset (now d : Z) (t : time_Timer) : time_Timer := mkTT (Some (now + Z.max 0 d)) (tt_C t).
(** [time.Until], which saturates. *)
Definition time_Until (now deadline : Z) : Z := time_Sub deadline now.

(** * core/utils/timer.go *)

Record Timer := mkTimer { tm_t : time_Timer; tm_read : bool; tm_deadline : Z }.
Definition NewTimer (now : Z) : Timer := mkTimer (tt_New now (2 ^ 63 - 1)) false time_zero.
(** [None]: the call waits for a value that nothing will send. *)
Definition Timer_Reset (now deadline : Z) (t : Timer) : option Timer :=
  if (deadline =? tm_deadline t) && negb (tm_read t) then Some t else
  let '(ti, stopped) := tt_Stop (tm_t t) in
  let drained := if negb stopped && negb (tm_read t) then (if tt_C ti then Some (mkTT (tt_at ti) false) else None) else Some ti in
  match drained with
  | None => None
  | Some ti =>
      let ti := if negb (deadline =? time_zero) then tt_Reset now (time_Until now deadline) ti else ti in
      Some (mkTimer ti false deadline)
  end.
Definition SetRead (t : Timer) : Timer := mkTimer (tm_t t) true (tm_deadline t).

(** What the owner of a timer does: it resets it, or looks at its channel, which it
    reads if it can. *)
Inductive timer_op := OpReset (now deadline : Z) | OpPoll (now : Z).
Definition op_time (o : timer_op) : Z := match o with OpReset now _ => now | OpPoll now => now end.
Definition tick (now : Z) (t : Timer) : Timer := mkTimer (tt_tick now (tm_t t)) (tm_read t) (tm_deadline t).
Definition timer_op_run (t : Timer) (o : timer_op) : option (Timer * bool) :=
  let t := tick (op_time o) t in
  match o with
  | OpReset now d => (λ t, (t, false)) <$> Timer_Reset now d t
  | OpPoll _ => if tt_C (tm_t t) then Some (SetRead (mkTimer (mkTT (tt_at (tm_t t)) false) (tm_read t) (tm_deadline t)), true) else Some (t, false)
  end.
Fixpoint timer_run (t : Timer) (ops : list timer_op) : option (list bool) :=
  match ops with
  | [] => Some []
  | o :: ops => match timer_op_run t o with None => None | Some (t, r) => (r ::.) <$> timer_run t ops end
  end.

(** * What a timer is for *)

(** The deadline that was set and has not been noticed yet. *)
Definition pending_run (p : option Z) (o : timer_op) : option Z * bool :=
  match o with
  | OpReset _ d => (Some d, false)
  | OpPoll now => match p with Some d => if d <=? now then (None, true) else (p, false) | None => (None, false) end
  end.
Fixpoint pending_runs (p : option Z) (ops : list timer_op) : list bool :=
  match ops with [] => [] | o :: ops => let '(p, r) := pending_run p o in r :: pending_runs p ops end.
(** Time does not go back, deadlines are set and within the range of a duration, and
    it is before the time at which a new timer fires by itself. *)
Fixpoint ops_ok (last limit : Z) (ops : list timer_op) : Prop :=
  match ops with
  | [] => True
  | o :: ops =>
      last <= op_time o < limit ∧ (match o with OpReset now d => d ≠ time_zero ∧ - 2 ^ 63 <= d - now < 2 ^ 63 | OpPoll _ => True end) ∧ ops_ok (op_time o) limit ops
  end.
Definition timer_rel (last limit : Z) (t : Timer) (p : option Z) : Prop :=
  match p with
  | Some d => tm_deadline t = d ∧ d ≠ time_zero ∧ tm_read t = false ∧
      ((∃ a, tm_t t = mkTT (Some a) false ∧ d <= a ∧ a <= Z.max d last) ∨ (tm_t t = mkTT None true ∧ d <= last))
  | None => (tm_read t = true ∧ tm_t t = mkTT None false) ∨ (tm_read t = false ∧ tm_deadline t = time_zero ∧ ∃ a, tm_t t = mkTT (Some a) false ∧ limit <= a)
  end.
Lemma tick_rel last limit t p now : timer_rel last limit t p → last <= now < limit →
  timer_rel now limit (tick now t) p ∧ tt_C (tm_t (tick now t)) = match p with Some d => d <=? now | None => false end.
Proof.
  destruct t as [ti r d0], p as [d|]; cbn.
  - intros (-> & Hd & -> & [(a & -> & Ha & Ha')|[-> Hl]]) Hn; cbn.
    + unfold tt_tick. cbn. destruct (Z.leb_spec a now); cbn.
      * split; [|symmetry; apply Z.leb_le; lia]. split_and!; try done. right. split; [done|lia].
      * split; [|symmetry; apply Z.leb_gt; lia]. split_and!; try done. left. exists a. split; [done|lia].
    + split; [|symmetry; apply Z.leb_le; lia]. split_and!; try done. right. split; [done|lia].
  - intros [[-> ->]|(-> & -> & a & -> & Ha)] Hn; cbn; [by auto|]. unfold tt_tick. cbn. rewrite (proj2 (Z.leb_gt a now)) by lia. cbn. split; [|done]. right. split_and!; try done. by exists a.
Qed.
Lemma reset_rel now limit t p d : timer_rel now limit t p → d ≠ time_zero → - 2 ^ 63 <= d - now < 2 ^ 63 → ∃ t', Timer_Reset now d t = Some t' ∧ timer_rel now limit t' (Some d).
Proof.
  intros Ht Hd Hr. unfold Timer_Reset. assert (now + Z.max 0 (time_Until now d) = Z.max now d) as Hu by (unfold time_Until, time_Sub; lia).
  assert (∀ ti, tt_C ti = false → ∃ t', Some (mkTimer (if negb (d =? time_zero) then tt_Reset now (time_Until now d) ti else ti) false d) = Some t' ∧ timer_rel now limit t' (Some d)) as Hset.
  { intros ti Hti. eexists. split; [reflexivity|]. rewrite (proj2 (Z.eqb_neq d time_zero)) by done. cbn. split_and!; try done. left. exists (Z.max now d). unfold tt_Reset. rewrite Hu, Hti. split; [done|lia]. }
  destruct t as [ti r d0], p as [dp|]; cbn in Ht; cbn [tm_t tm_read tm_deadline].
  - destruct Ht as (-> & Hdp & -> & Hti). cbn [negb]. rewrite andb_true_r. destruct (Z.eqb_spec d dp) as [->|].
    { eexists. split; [reflexivity|]. by cbn. }
    destruct Hti as [(a & -> & _)|[-> _]]; cbn [tt_Stop tt_at tt_C negb andb fst]; by apply Hset.
  - destruct Ht as [[-> ->]|(-> & -> & a & -> & _)]; cbn [negb].
    + rewrite andb_false_r. cbn [tt_Stop tt_at tt_C]. rewrite andb_false_r. by apply Hset.
    + rewrite (proj2 (Z.eqb_neq d time_zero)) in * by done. cbn [andb tt_Stop tt_at tt_C]. by apply Hset.
Qed.
Lemma timer_runs ops last limit t p : timer_rel last limit t p → ops_ok last limit ops → timer_run t ops = Some (pending_runs p ops).
Proof.
  revert last t p. induction ops as [|o ops IH]; intros last t p Ht; [done|]. intros (Ho & Hok & Hops). cbn [timer_run pending_runs]. unfold timer_op_run.
  destruct (tick_rel last limit t p (op_time o) Ht Ho) as [Ht' Hc]. destruct o as [now d|now]; cbn [op_time] in *.
  - destruct Hok as [Hd Hr]. destruct (reset_rel now limit (tick now t) p d Ht' Hd Hr) as (t2 & -> & Ht2). cbn. by rewrite (IH now t2 (Some d)).
  - rewrite Hc. cbn [pending_run]. destruct p as [d|]; [destruct (Z.leb_spec d now)|].
    + rewrite (IH now _ None); [done| |done]. left. cbn [SetRead tm_t tm_read]. split; [done|]. destruct Ht' as (_ & _ & _ & [(a & E & _)|[E _]]); rewrite E in *; [done|by cbn].
    + by rewrite (IH now _ (Some d)).
    + by rewrite (IH now _ None).
Qed.

(** C27: A timer reports every deadline once.  Whatever its owner does, as long as it does
    not clear the timer, [Reset] never blocks, and the channel holds a value exactly
    when the deadline that was set last has passed and has not been reported yet. *)
Theorem timer_refines t0 ops : ops_ok t0 (t0 + 2 ^ 63 - 1) ops → timer_run (NewTimer t0) ops = Some (pending_runs None ops).
Proof. intros Hok. apply (timer_runs ops t0 (t0 + 2 ^ 63 - 1)); [|done]. right. split_and!; try done. exists (t0 + (2 ^ 63 - 1)). split; [done|lia]. Qed.
Definition some_ops : list timer_op := [OpReset 1 5; OpPoll 3; OpPoll 6; OpPoll 7; OpReset 8 2; OpReset 9 20; OpPoll 10; OpPoll 30].
Lemma timer_refines_witness : timer_run (NewTimer 0) some_ops = Some [false; false; true; false; false; false; false; true].
Proof. rewrite timer_refines; [reflexivity|]. cbn [ops_ok some_ops op_time]. unfold time_zero. repeat split; lia. Defined.
(** After the timer was cleared, setting it again blocks for ever. *)
Example cleared_timer_blocks : timer_run (NewTimer 0) [OpReset 1 5; OpReset 2 time_zero; OpReset 3 9] = None.
Proof. reflexivity. Qed.
