(* ===== verification/SendQueue.v ===== *)
(** SendQueue: the queue between a session and the goroutine that writes its packets
    (send_queue.go). *)

From S2P Require Import Prelude.

(** A packet: what is written, and its buffer. *)
Record sq_packet := mkSqPacket { sqp_raw : list Z; sqp_buffer : Z }.
(** Where [Run] is: at its select, at the write of a packet, or returned, with the
    packet and the error of a write that failed. *)
Inductive sq_state := Waiting | Writing (p : sq_packet) | RunEnded (failed : option (sq_packet * goerr)).
(** [conn] is what was written; [sq_released] are the buffers that were released. *)
Record sendQueue := mkSQ { queue : list sq_packet; closeChan : bool; sq_at : sq_state; conn : list (list Z); sq_released : list Z }.
Definition newSendQueue : sendQueue := mkSQ [] false Waiting [] [].
Definition queue_capacity : Z := 1.
(** [None]: the sender waits. *)
Definition Send (h : sendQueue) (p : sq_packet) : option sendQueue :=
  if len (queue h) <? queue_capacity then Some (mkSQ (queue h ++ [p]) (closeChan h) (sq_at h) (conn h) (sq_released h)) else None.
(** A step of [Run]: the case of the select that is taken, or the result of the
    write. *)
Inductive run_step := SeeClose | TakePacket | WriteDone (err : option goerr).
Definition Run (h : sendQueue) (st : run_step) : option sendQueue :=
  match sq_at h, st with
  | Waiting, SeeClose => if closeChan h then Some (mkSQ (queue h) (closeChan h) (RunEnded None) (conn h) (sq_released h)) else None
  | Waiting, TakePacket => match queue h with [] => None | p :: q => Some (mkSQ q (closeChan h) (Writing p) (conn h) (sq_released h)) end
  | Writing p, WriteDone (Some err) => Some (mkSQ (queue h) (closeChan h) (RunEnded (Some (p, err))) (conn h) (sq_released h))
  | Writing p, WriteDone None => Some (mkSQ (queue h) (closeChan h) Waiting (conn h ++ [sqp_raw p]) (sq_released h ++ [sqp_buffer p]))
  | _, _ => None
  end.
Definition sq_Close (h : sendQueue) : outcome sendQueue :=
  if closeChan h then Panic "close of closed channel" else Ok (mkSQ (queue h) true (sq_at h) (conn h) (sq_released h)).

(** The session and the goroutine take turns. *)
Inductive sq_event := EvSend (p : sq_packet) | EvRun (st : run_step) | EvClose.
Definition sq_step (h : sendQueue) (e : sq_event) : option sendQueue :=
  match e with EvSend p => Send h p | EvRun st => Run h st | EvClose => match sq_Close h with Ok h => Some h | _ => None end end.
Fixpoint sq_steps (h : sendQueue) (evs : list sq_event) : option sendQueue :=
  match evs with [] => Some h | e :: evs => match sq_step h e with Some h => sq_steps h evs | None => None end end.

(** * Theorems *)

Definition sends (evs : list sq_event) : list sq_packet := omap (λ e, match e with EvSend p => Some p | _ => None end) evs.
Definition in_hand (h : sendQueue) : list sq_packet := match sq_at h with Writing p => [p] | RunEnded (Some (p, _)) => [p] | _ => [] end.
(** The packets [ps] were sent, of which [done_] are written. *)
Definition sq_ok (h : sendQueue) (ps done_ : list sq_packet) : Prop :=
  ps = done_ ++ in_hand h ++ queue h ∧ conn h = sqp_raw <$> done_ ∧ sq_released h = sqp_buffer <$> done_ ∧ len (queue h) <= 1.
Lemma sq_step_ok h e h' ps done_ : sq_ok h ps done_ → sq_step h e = Some h' → ∃ done', sq_ok h' (ps ++ sends [e]) done' ∧ done_ `prefix_of` done'.
Proof.
  intros (Hp & Hc & Hr & Hq) E. destruct h as [q c s w rl]; cbn [queue conn sq_released sq_at closeChan] in *. unfold in_hand in Hp. cbn [sq_at queue] in Hp. destruct e as [p|st|].
  - unfold sq_step, Send in E. cbn [queue] in E. destruct (Z.ltb_spec (len q) queue_capacity) as [Hl|]; [|done]. injection E as <-. exists done_. split; [|done]. unfold sq_ok, in_hand.
    cbn [sends omap list_omap queue conn sq_released sq_at]. rewrite Hp, len_app. unfold queue_capacity in Hl. change (len [p]) with 1. split_and!; try done; [by rewrite <- !app_assoc|lia].
  - change (sends [EvRun st]) with (@nil sq_packet). rewrite app_nil_r. unfold sq_step, Run in E. cbn [sq_at queue closeChan conn sq_released] in E. destruct s as [|p|f], st as [| |[err|]]; try done.
    + destruct c; [|done]. injection E as <-. by exists done_.
    + destruct q as [|p q]; [done|]. injection E as <-. exists done_. split; [|done]. rewrite len_cons in Hq. pose proof (len_nonneg q). split_and!; cbn; try done. lia.
    + injection E as <-. by exists done_.
    + injection E as <-. exists (done_ ++ [p]). split; [|by apply prefix_app_r]. unfold sq_ok, in_hand. cbn [queue conn sq_released sq_at]. rewrite !fmap_app, Hc, Hr, Hp. split_and!; try done. by rewrite <- app_assoc.
  - change (sends [EvClose]) with (@nil sq_packet). rewrite app_nil_r. unfold sq_step, sq_Close in E. cbn [closeChan] in E. destruct c; [done|]. injection E as <-. by exists done_.
Qed.

(** Packets are written in the order they are sent, none twice and none left out: what
    was written is a prefix of what was sent, at most two packets are behind it (the
    one being written and the one in the queue), and exactly the buffers of the
    packets that were written are released. *)
Theorem send_queue_fifo evs h : sq_steps newSendQueue evs = Some h →
  ∃ done_, sends evs = done_ ++ in_hand h ++ queue h ∧ conn h = sqp_raw <$> done_ ∧ sq_released h = sqp_buffer <$> done_ ∧ len (in_hand h ++ queue h) <= 2.
Proof.
  intros E. assert (∀ evs h0 ps done_, sq_ok h0 ps done_ → sq_steps h0 evs = Some h → ∃ done', sq_ok h (ps ++ sends evs) done') as Hrun.
  { clear. induction evs as [|e evs IH]; intros h0 ps done_ Hok E; cbn [sq_steps] in E.
    - injection E as <-. exists done_. by rewrite app_nil_r.
    - destruct (sq_step h0 e) as [h1|] eqn:E1; [|done]. destruct (sq_step_ok _ _ _ _ _ Hok E1) as (d1 & Hok1 & _). destruct (IH h1 _ d1 Hok1 E) as [d2 Hok2]. exists d2.
      replace (sends (e :: evs)) with (sends [e] ++ sends evs); [by rewrite app_assoc|]. unfold sends. rewrite <- omap_app. done. }
  destruct (Hrun evs newSendQueue [] []) as (d & Hp & Hc & Hr & Hq); [by split_and!|done|]. exists d. split_and!; try done. rewrite len_app.
  assert (len (in_hand h) <= 1); [|lia]. unfold in_hand. destruct (sq_at h) as [|p|[[p e]|]]; unfold len; cbn; lia.
Qed.
Definition three_packets : list sq_event :=
  [EvSend (mkSqPacket [1] 10); EvRun TakePacket; EvSend (mkSqPacket [2] 20); EvRun (WriteDone None); EvRun TakePacket; EvSend (mkSqPacket [3] 30)].
Definition three_state : sendQueue := mkSQ [mkSqPacket [3] 30] false (Writing (mkSqPacket [2] 20)) [[1]] [10].
Lemma send_queue_fifo_witness : ∃ done_, sends three_packets = done_ ++ in_hand three_state ++ queue three_state ∧ conn three_state = sqp_raw <$> done_.
Proof. destruct (send_queue_fifo three_packets three_state) as (d & E & Ec & _); [reflexivity|]. exists d. split; [exact E|exact Ec]. Defined.

(** After [Run] has ended, with an error for instance, the queue holds one more packet;
    the session that sends another waits for ever, whatever happens. *)
Lemma send_blocks_after_error h evs h' p failed : sq_at h = RunEnded failed → queue h ≠ [] → sq_steps h evs = Some h' → Send h' p = None.
Proof.
  revert h. induction evs as [|e evs IH]; intros h Hr Hq E; cbn [sq_steps] in E.
  - injection E as <-. unfold Send. destruct (Z.ltb_spec (len (queue h)) queue_capacity) as [Hl|]; [|done]. destruct (queue h) as [|x q]; [done|]. rewrite len_cons in Hl. pose proof (len_nonneg q). unfold queue_capacity in Hl. lia.
  - destruct (sq_step h e) as [h1|] eqn:E1; [|done]. apply (IH h1); [| |done]; destruct e as [x|st|]; unfold sq_step, Send, Run, sq_Close in E1; rewrite ?Hr in E1; try done.
    all: destruct (_ : bool); try done; by injection E1 as <-; cbn; rewrite ?Hr; try done; destruct (queue h).
Qed.
