(* ===== verification/Qerr.v ===== *)
(** Qerr: core/qerr, the errors of connections as text.  The values themselves are
    constructors of [goerr]; strings are lists of bytes. *)

From S2P Require Import Prelude Utils Frames Tokens Session.

(** * core/qerr/error_codes.go *)

(** [%#x] of a number with at most [fuel] digits. *)
Definition hex_text (fuel : nat) (n : Z) : list Z := codes "0x" ++ hex_field fuel n.
Definition ErrorCode_String (e : Z) : list Z :=
  if e =? NoError then codes "NO_ERROR"
  else if e =? InternalError then codes "INTERNAL_ERROR"
  else if e =? ServerBusy then codes "SERVER_BUSY"
  else if e =? FlowControlError then codes "FLOW_CONTROL_ERROR"
  else if e =? StreamLimitError then codes "STREAM_LIMIT_ERROR"
  else if e =? StreamStateError then codes "STREAM_STATE_ERROR"
  else if e =? FinalSizeError then codes "FINAL_SIZE_ERROR"
  else if e =? FrameEncodingError then codes "FRAME_ENCODING_ERROR"
  else if e =? TransportParameterError then codes "TRANSPORT_PARAMETER_ERROR"
  else if e =? VersionNegotiationError then codes "VERSION_NEGOTIATION_ERROR"
  else if e =? ProtocolViolation then codes "PROTOCOL_VIOLATION"
  else if e =? InvalidMigration then codes "INVALID_MIGRATION"
  else if isCryptoError e then codes "CRYPTO_ERROR"
  else codes "unknown error code: " ++ hex_text 4 (u16 e).
(** [qtls.Alert.Error], of the alert number. *)
Section Errors.
Context (alert_text : Z → list Z).
Definition ErrorCode_Error (e : Z) : list Z :=
  if isCryptoError e then ErrorCode_String e ++ codes ": " ++ alert_text (u8 (e - 0x100)) else ErrorCode_String e.

(** * core/qerr/quic_error.go *)

Record quic_error := mkQuicError { qe_ErrorCode : Z; qe_ErrorMessage : list Z; isTimeout : bool; isApplicationError : bool }.
Definition qerr_Error (errorCode : Z) (errorMessage : list Z) : quic_error := mkQuicError errorCode errorMessage false false.
Definition TimeoutError (errorMessage : list Z) : quic_error := mkQuicError 0 errorMessage true false.
Definition CryptoError (tlsAlert : Z) (errorMessage : list Z) : quic_error := mkQuicError (0x100 + tlsAlert) errorMessage false false.
Definition qerr_ApplicationError (errorCode : Z) (errorMessage : list Z) : quic_error := mkQuicError errorCode errorMessage false true.
Definition QuicError_Error (e : quic_error) : list Z :=
  if isApplicationError e then
    if len (qe_ErrorMessage e) =? 0 then codes "Application error " ++ hex_text 16 (qe_ErrorCode e)
    else codes "Application error " ++ hex_text 16 (qe_ErrorCode e) ++ codes ": " ++ qe_ErrorMessage e
  else if len (qe_ErrorMessage e) =? 0 then ErrorCode_Error (qe_ErrorCode e)
  else ErrorCode_String (qe_ErrorCode e) ++ codes ": " ++ qe_ErrorMessage e.
Definition IsCryptoError (e : quic_error) : bool := isCryptoError (qe_ErrorCode e).
Definition Temporary (e : quic_error) : bool := false.
Definition Timeout_ (e : quic_error) : bool := isTimeout e.
End Errors.

(** * Names of codes *)

Definition digit_value (c : Z) : Z := if c <=? 57 then c - 48 else c - 87.
Definition hex_value (l : list Z) : Z := fold_left (λ a c, a * 16 + digit_value c) l 0.
Lemma digit_of_value d : 0 <= d < 16 → digit_value (hex_digit d) = d.
Proof. intros Hd. unfold digit_value, hex_digit. destruct (Z.ltb_spec d 10); [rewrite (proj2 (Z.leb_le _ 57)) by lia; lia|rewrite (proj2 (Z.leb_gt _ 57)) by lia; lia]. Qed.
Lemma hex_field_value fuel n : 0 <= n < 16 ^ Z.of_nat fuel → hex_value (hex_field fuel n) = n.
Proof.
  revert n. induction fuel as [|fuel IH]; intros n Hn; [cbn in *; lia|]. cbn [hex_field]. rewrite Nat2Z.inj_succ, Z.pow_succ_r in Hn by lia. destruct (Z.ltb_spec n 16).
  - unfold hex_value. cbn [fold_left]. rewrite digit_of_value by lia. lia.
  - unfold hex_value in *. pose proof (Z.mod_pos_bound n 16 ltac:(lia)). rewrite fold_left_app, IH by (split; [apply Z.div_pos; lia|apply Z.div_lt_upper_bound; lia]). cbn [fold_left].
    rewrite digit_of_value by lia. pose proof (Z.div_mod n 16 ltac:(lia)). lia.
Qed.
Lemma hex_text_inj n m : 0 <= n < 2 ^ 16 → 0 <= m < 2 ^ 16 → hex_text 4 n = hex_text 4 m → n = m.
Proof.
  intros Hn Hm E. unfold hex_text in E. apply app_inv_head in E. rewrite <- (hex_field_value 4 n), <- (hex_field_value 4 m), E by (change (16 ^ Z.of_nat 4) with (2 ^ 16); lia). done.
Qed.
(** The names of the codes that have one. *)
Definition known_codes : list Z := [NoError; InternalError; ServerBusy; FlowControlError; StreamLimitError; StreamStateError; FinalSizeError; FrameEncodingError;
  TransportParameterError; VersionNegotiationError; ProtocolViolation; InvalidMigration].
Lemma unknown_string e : e ∉ known_codes → isCryptoError e = false → ErrorCode_String e = codes "unknown error code: " ++ hex_text 4 (u16 e).
Proof.
  intros Hk Hc. unfold ErrorCode_String. rewrite Hc. unfold known_codes in Hk. repeat (apply not_elem_of_cons in Hk as [Hn Hk]; rewrite (proj2 (Z.eqb_neq e _) Hn); clear Hn). done.
Qed.
Lemma known_strings : NoDup (ErrorCode_String <$> known_codes).
Proof. apply (bool_decide_unpack _). vm_compute. exact I. Qed.
Lemma known_not_unknown e l : e ∈ known_codes → ErrorCode_String e ≠ codes "unknown error code: " ++ l.
Proof. intros Hk. unfold known_codes in Hk. repeat (apply elem_of_cons in Hk as [->|Hk]; [discriminate|]). by apply not_elem_of_nil in Hk. Qed.

(** Two codes of 16 bits that are not those of TLS alerts have different names, known
    or not. *)
Theorem error_names_distinct e e' : 0 <= e < 2 ^ 16 → 0 <= e' < 2 ^ 16 → isCryptoError e = false → isCryptoError e' = false → ErrorCode_String e = ErrorCode_String e' → e = e'.
Proof.
  intros He He' Hc Hc' E. destruct (decide (e ∈ known_codes)) as [Hk|Hk], (decide (e' ∈ known_codes)) as [Hk'|Hk'].
  - apply list_elem_of_lookup in Hk as [i Hi], Hk' as [j Hj]. pose proof known_strings as Hnd. rewrite NoDup_alt in Hnd. assert (i = j) as ->; [|congruence].
    apply (Hnd i j (ErrorCode_String e)); rewrite list_lookup_fmap; [by rewrite Hi|by rewrite Hj; cbn; rewrite E].
  - rewrite (unknown_string e') in E by done. by apply known_not_unknown in E.
  - rewrite (unknown_string e) in E by done. symmetry in E. by apply known_not_unknown in E.
  - rewrite !unknown_string in E by done. apply app_inv_head in E. unfold u16 in E. rewrite !Z.mod_small in E by done. by apply hex_text_inj.
Qed.
(** Codes have 62 bits, and the name is that of the last 16. *)
Example name_truncated : ErrorCode_String 0x1000d = codes "unknown error code: 0xd".
Proof. vm_compute. reflexivity. Qed.
Example error_texts : let no_alert _ := codes "?" in
  (QuicError_Error no_alert (qerr_ApplicationError 0x10d []), QuicError_Error no_alert (CryptoError 42 (codes "bad certificate")), QuicError_Error no_alert (TimeoutError (codes "No recent network activity")))
  = (codes "Application error 0x10d", codes "CRYPTO_ERROR: bad certificate", codes "NO_ERROR: No recent network activity").
Proof. vm_compute. reflexivity. Qed.
