(* ===== verification/Trace.v ===== *)
(** Trace: quictrace/tracer.go, the recording of packets for the quic-trace tool.  The
    messages of the generated protobuf package are records of the fields that are set;
    their encoding is an argument. *)

From S2P Require Import Prelude Utils Protocol AckFrame Frames StreamFrame FrameParser.

(** * quictrace/interface.go *)

(** An event type is a number; those with a name are 1, 2 and 3. *)
Definition PacketSent : Z := 1.
Definition PacketReceived : Z := 2.
Definition PacketLost : Z := 3.
Record TransportState := mkTransportState {
  ts_MinRTT : Z; ts_SmoothedRTT : Z; ts_LatestRTT : Z; ts_BytesInFlight : Z; ts_CongestionWindow : Z; ts_InSlowStart : bool; ts_InRecovery : bool }.
(** [None] is the nil pointer. *)
Record Event := mkEvent {
  ev_Time : Z; ev_EventType : Z; ev_TransportState : option TransportState; ev_EncryptionLevel : EncryptionLevel; ev_PacketNumber : Z; ev_PacketSize : Z; ev_Frames : list Frame }.

(** * The messages *)

Inductive pb_EventType := PACKET_SENT | PACKET_RECEIVED | PACKET_LOST.
Inductive pb_EncryptionLevel := ENCRYPTION_UNKNOWN | ENCRYPTION_INITIAL | ENCRYPTION_HANDSHAKE | ENCRYPTION_1RTT.
Inductive pb_Frame :=
  | CryptoFrameInfo (Offset Length : Z)
  | StreamFrameInfo (StreamId Offset Length : Z)
  | AckInfo (AckDelayUs : Z) (AckedPackets : list (Z * Z)).
Record pb_TransportState := mkPbState { MinRttUs : Z; SmoothedRttUs : Z; LastRttUs : Z; InFlightBytes : Z; CwndBytes : Z; CongestionControlState : bool * bool }.
Record pb_Event := mkPbEvent {
  TimeUs : Z; pbe_EventType : pb_EventType; pbe_PacketSize : Z; pbe_PacketNumber : Z; pbe_TransportState : pb_TransportState; pbe_EncryptionLevel : pb_EncryptionLevel; pbe_Frames : list pb_Frame }.
Record pb_Trace := mkPbTrace { DestinationConnectionId : list Z; SourceConnectionId : list Z; ProtocolVersion : list Z; pbt_Events : list pb_Event }.

(** * quictrace/tracer.go *)

Definition durationToUs (d : Z) : Z := u64 (Z.quot d 1000).
Definition getEventType (evType : Z) : outcome pb_EventType :=
  if evType =? PacketSent then Ok PACKET_SENT else if evType =? PacketReceived then Ok PACKET_RECEIVED else if evType =? PacketLost then Ok PACKET_LOST
  else Panic "unknown event type".
Definition getEncryptionLevel (encLevel : EncryptionLevel) : pb_EncryptionLevel :=
  match encLevel with EncryptionInitial => ENCRYPTION_INITIAL | EncryptionHandshake => ENCRYPTION_HANDSHAKE | Encryption1RTT => ENCRYPTION_1RTT | EncryptionUnspecified => ENCRYPTION_UNKNOWN end.
Fixpoint getFrames (wframes : list Frame) : list pb_Frame :=
  match wframes with
  | [] => []
  | FCrypto f :: l => CryptoFrameInfo (u64 (c_Offset f)) (u64 (len (c_Data f))) :: getFrames l
  | FStream f :: l => StreamFrameInfo (u64 (StreamID f)) (u64 (Offset f)) (u64 (DataLen f)) :: getFrames l
  | FAck f :: l => AckInfo (durationToUs (DelayTime f)) (map (λ r, (u64 (Smallest r), u64 (Largest r))) (AckRanges f)) :: getFrames l
  | _ :: l => getFrames l
  end.
(** The text of the state names the two flags. *)
Definition getTransportState (state : option TransportState) : outcome pb_TransportState :=
  match state with
  | None => Panic "nil pointer dereference"
  | Some s => Ok (mkPbState (durationToUs (ts_MinRTT s)) (durationToUs (ts_SmoothedRTT s)) (durationToUs (ts_LatestRTT s)) (u64 (ts_BytesInFlight s)) (u64 (ts_CongestionWindow s))
      (ts_InSlowStart s, ts_InRecovery s))
  end.
Definition emit_event (startTime : Z) (event : Event) : outcome pb_Event :=
  t ← getEventType (ev_EventType event);
  s ← getTransportState (ev_TransportState event);
  Ok (mkPbEvent (durationToUs (time_Sub (ev_Time event) startTime)) t (u64 (ev_PacketSize event)) (u64 (ev_PacketNumber event)) s (getEncryptionLevel (ev_EncryptionLevel event)) (getFrames (ev_Frames event))).
Fixpoint emit_events (startTime : Z) (events : list Event) : outcome (list pb_Event) :=
  match events with [] => Ok [] | e :: events => x ← emit_event startTime e; l ← emit_events startTime events; Ok (x :: l) end.
(** The queue between [Trace] and the goroutine, and the events by connection. *)
Record tracer := mkTracer { eventQueue : list (list Z * Event); tr_events : gmap (list Z) (list Event) }.
Definition NewTracer : tracer := mkTracer [] ∅.
Definition eventQueue_capacity : Z := 2 ^ 10.
(** [None]: the caller waits. *)
Definition Trace (t : tracer) (connID : list Z) (ev : Event) : option tracer :=
  if len (eventQueue t) <? eventQueue_capacity then Some (mkTracer (eventQueue t ++ [(connID, ev)]) (tr_events t)) else None.
(** A turn of the loop of [run]. *)
Definition tracer_run (t : tracer) : option tracer :=
  match eventQueue t with
  | [] => None
  | (key, ev) :: q => Some (mkTracer q (<[key := default [] (tr_events t !! key) ++ [ev]]> (tr_events t)))
  end.
Section Emit.
Context (Marshal : pb_Trace → list Z + goerr).
Definition the_trace (events : list pb_Event) : pb_Trace := mkPbTrace [1; 2; 3; 4; 5; 6; 7; 8] [1; 2; 3; 4; 5; 6; 7; 8] [0xff; 0; 0; 19] events.
Definition emitByConnIDAsString (t : tracer) (connID : list Z) : tracer * outcome (list Z) :=
  match tr_events t !! connID with
  | None => (t, Err (Errorf "no trace found for connection ID %s" []))
  | Some events =>
      match emit_events (match events with e :: _ => ev_Time e | [] => time_zero end) events with
      | Panic p => (t, Panic p)
      | Err e => (t, Err e)
      | Ok l => (mkTracer (eventQueue t) (delete connID (tr_events t)), match Marshal (the_trace l) with inl d => Ok d | inr e => Err e end)
      end
  end.
Definition Emit (t : tracer) (connID : list Z) : tracer * outcome (list Z) := emitByConnIDAsString t connID.
(** [order] is the order in which the map is visited. *)
Fixpoint all_traces (t : tracer) (order : list (list Z)) (traces : gmap (list Z) (list Z)) : tracer * outcome (gmap (list Z) (list Z)) :=
  match order with
  | [] => (t, Ok traces)
  | connID :: order =>
      match emitByConnIDAsString t connID with
      | (t, Ok data) => all_traces t order (<[connID := data]> traces)
      | (t, Err _) => (t, Panic "error")
      | (t, Panic p) => (t, Panic p)
      end
  end.
Definition GetAllTraces (t : tracer) (order : list (list Z)) : tracer * outcome (gmap (list Z) (list Z)) := all_traces t order ∅.
End Emit.

(** * What is emitted *)

(** Calls of [Trace] and turns of the goroutine, until all are recorded. *)
Inductive traced : list (list Z * Event) → tracer → Prop :=
  | traced_new : traced [] NewTracer
  | traced_event l t t' c ev : traced l t → Trace t c ev = Some t' → traced (l ++ [(c, ev)]) t'
  | traced_turn l t t' : traced l t → tracer_run t = Some t' → traced l t'.
Definition events_of (c : list Z) (l : list (list Z * Event)) : list Event := (filter (λ x, x.1 = c) l).*2.
Lemma events_of_app c l l' : events_of c (l ++ l') = events_of c l ++ events_of c l'.
Proof. unfold events_of. by rewrite filter_app, fmap_app. Qed.
Lemma traced_events l t c : traced l t → events_of c l = default [] (tr_events t !! c) ++ events_of c (eventQueue t) ∧ (tr_events t !! c ≠ Some []).
Proof.
  induction 1 as [|l t t' c' ev Ht [IH1 IH2] E|l t t' Ht [IH1 IH2] E].
  - cbn [NewTracer tr_events eventQueue]. by rewrite lookup_empty.
  - unfold Trace in E. destruct (_ <? _); [|done]. injection E as <-. cbn [eventQueue tr_events]. rewrite !events_of_app, IH1, app_assoc. done.
  - unfold tracer_run in E. destruct (eventQueue t) as [|[k ev] q]; [done|]. injection E as <-. cbn [eventQueue tr_events]. rewrite IH1. destruct (decide (k = c)) as [->|Hk].
    + rewrite lookup_insert_eq. unfold events_of. rewrite filter_cons_True by done. cbn. rewrite <- app_assoc. split; [done|]. intros [= Hn]. by destruct (default [] _).
    + rewrite lookup_insert_ne by done. unfold events_of. by rewrite filter_cons_False.
Qed.
(** Events as a session makes them. *)
Definition event_ok (e : Event) : Prop := ev_EventType e ∈ [PacketSent; PacketReceived; PacketLost] ∧ ev_TransportState e ≠ None.
Lemma emit_event_ok start e : event_ok e → start <= ev_Time e < start + 2 ^ 63 → ∃ x, emit_event start e = Ok x ∧ TimeUs x = (ev_Time e - start) / 1000 ∧ pbe_PacketNumber x = u64 (ev_PacketNumber e) ∧
  pbe_Frames x = getFrames (ev_Frames e).
Proof.
  intros [Ht Hs] Htime. unfold emit_event. assert (∃ t, getEventType (ev_EventType e) = Ok t) as [t ->].
  { repeat (apply elem_of_cons in Ht as [->|Ht]; [by eexists|]). by apply not_elem_of_nil in Ht. }
  destruct (ev_TransportState e); [|done]. cbn [mbind outcome_bind getTransportState]. eexists. split; [reflexivity|]. cbn. split; [|done].
  unfold durationToUs, time_Sub. rewrite Z.max_r, Z.min_r by lia. rewrite Z.quot_div_nonneg by lia. unfold u64. apply Z.mod_small. split; [apply Z.div_pos; lia|apply Z.div_lt_upper_bound; lia].
Qed.
Lemma emit_events_ok start l : Forall event_ok l → Forall (λ e, start <= ev_Time e < start + 2 ^ 63) l → ∃ xs, emit_events start l = Ok xs ∧
  Forall2 (λ e x, TimeUs x = (ev_Time e - start) / 1000 ∧ pbe_PacketNumber x = u64 (ev_PacketNumber e) ∧ pbe_Frames x = getFrames (ev_Frames e)) l xs.
Proof.
  induction 1 as [|e l He Hl IH]; intros Ht; [by exists []|]. apply Forall_cons in Ht as [Ht Hts]. destruct (emit_event_ok start e He Ht) as (x & Ex & Hx). destruct (IH Hts) as (xs & Exs & Hxs).
  exists (x :: xs). cbn [emit_events]. rewrite Ex, Exs. split; [done|]. by constructor.
Qed.

(** The trace of a connection has all of its events.  When the goroutine has caught up,
    [Emit] encodes the events that were traced for the connection, in the order of the
    calls, with their times in microseconds since the first, and forgets them: asked
    again, it has none, while the other connections keep theirs. *)
Theorem trace_complete Marshal l t c e0 es d : traced l t → eventQueue t = [] → events_of c l = e0 :: es → Forall event_ok (e0 :: es) →
  Forall (λ e, ev_Time e0 <= ev_Time e < ev_Time e0 + 2 ^ 63) es → (∀ x, Marshal x = inl (d x)) →
  ∃ xs t', Emit Marshal t c = (t', Ok (d (the_trace xs))) ∧
    Forall2 (λ e x, TimeUs x = (ev_Time e - ev_Time e0) / 1000 ∧ pbe_PacketNumber x = u64 (ev_PacketNumber e) ∧ pbe_Frames x = getFrames (ev_Frames e)) (e0 :: es) xs ∧
    is_ok (Emit Marshal t' c).2 = false ∧ (∀ c', c' ≠ c → tr_events t' !! c' = tr_events t !! c').
Proof.
  intros Ht Hq He Hok Htime Hm. destruct (traced_events l t c Ht) as [E Hne]. rewrite Hq, He in E. unfold events_of in E. cbn in E. rewrite app_nil_r in E.
  destruct (tr_events t !! c) as [evs|] eqn:Ec; [|done]. cbn in E. subst evs. destruct (emit_events_ok (ev_Time e0) (e0 :: es) Hok) as (xs & Exs & Hxs); [by constructor; [lia|]|].
  unfold Emit, emitByConnIDAsString. rewrite Ec, Exs, Hm. eexists xs, _. split; [reflexivity|]. split; [done|]. cbn [tr_events]. rewrite lookup_delete_eq. split; [done|]. intros c' Hc. by rewrite lookup_delete_ne.
Qed.
Definition an_event (t pn : Z) : Event := mkEvent t PacketSent (Some (mkTransportState 1 1 1 0 0 true false)) Encryption1RTT pn 100 [FPing; FCrypto (mkCrypto 5 [1; 2])].
Definition two_traced : tracer := mkTracer [] {[ [1] := [an_event 1000 7; an_event 6500 8] ]}.
Lemma trace_complete_witness : ∃ xs t', Emit (λ _, inl [0]) two_traced [1] = (t', Ok [0]) ∧ TimeUs <$> xs = [0; 5].
Proof.
  destruct (trace_complete (λ _, inl [0]) [([1], an_event 1000 7); ([1], an_event 6500 8)] two_traced [1] (an_event 1000 7) [an_event 6500 8] (λ _, [0])) as (xs & t' & E & Hx & _).
  - eapply traced_turn; [eapply traced_turn; [apply (traced_event [([1], an_event 1000 7)] (mkTracer [([1], an_event 1000 7)] ∅) _ [1] (an_event 6500 8)); [apply (traced_event [] NewTracer _ [1] (an_event 1000 7));
      [constructor|reflexivity]|reflexivity]|reflexivity]|reflexivity].
  - reflexivity.
  - reflexivity.
  - repeat constructor; discriminate.
  - repeat constructor; discriminate.
  - reflexivity.
  - exists xs, t'. split; [exact E|]. inversion Hx as [|? x1 ? ? [HT1 _] Hx']. inversion Hx' as [|? x2 ? ? [HT2 _] Hx'']. inversion Hx''. cbn. rewrite HT1, HT2. reflexivity.
Defined.
(** An event whose time is before that of the first gets a time of centuries. *)
Example time_wraps : (x ← emit_event 5000 (an_event 1000 7); Ok (TimeUs x)) = Ok (2 ^ 64 - 4).
Proof. reflexivity. Qed.
