(* ===== verification/Handshake.v ===== *)
(** Handshake: the goroutines of core/handshake/crypto_setup.go.  The session passes
    handshake messages on and waits for what TLS makes of them, TLS runs in a goroutine
    of its own, and [RunHandshake] waits for its end; they meet in channels.  Also the
    TLS extension of tls_extension_handler.go. *)

From S2P Require Import Prelude Utils Protocol Frames CryptoSetup.

(** * tls_extension_handler.go *)

Definition quicTLSExtensionType : Z := 0xffa5.
Definition GetExtensions (pers : Perspective) (ourParams : list Z) (msgType : Z) : list (Z * list Z) :=
  if (bool_decide (pers = PerspectiveClient) && negb (msgType =? typeClientHello)) || (bool_decide (pers = PerspectiveServer) && negb (msgType =? typeEncryptedExtensions))
  then [] else [(quicTLSExtensionType, ourParams)].
(** What is sent to [paramsChan], if anything; nil without the extension. *)
Definition ReceivedExtensions (pers : Perspective) (msgType : Z) (exts : list (Z * list Z)) : option (list Z) :=
  if (bool_decide (pers = PerspectiveClient) && negb (msgType =? typeEncryptedExtensions)) || (bool_decide (pers = PerspectiveServer) && negb (msgType =? typeClientHello))
  then None
  else Some (match find (λ e : Z * list Z, e.1 =? quicTLSExtensionType) exts with Some e => e.2 | None => [] end).

(** * TLS *)

(** What TLS does next, at the channels: it reads a message, passes the peer's
    transport parameters on, announces a key, writes a record of the Initial level,
    sends an alert, or returns from [Handshake]. *)
Inductive signal := SgParams (data : list Z) | SgReadKey | SgWriteKey.
Inductive tls :=
  | TlsRead (k : list Z → tls)
  | TlsSignal (s : signal) (k : tls)
  | TlsRecord (k : tls)
  | TlsAlert (alert : Z) (k : tls)
  | TlsReturn (err : option goerr).
Inductive tls_state := TRunning (t : tls) | TReturned (err : option goerr).

(** * The session's side *)

(** A select of the session: it receives a signal of one kind, [handshakeDone], and,
    if the flag is set, [writeRecord]. *)
Inductive signal_kind := KParams | KReadKey | KWriteKey.
#[export] Instance signal_kind_eq_dec : EqDecision signal_kind.
Proof. solve_decision. Defined.
Definition kind_of (s : signal) : signal_kind := match s with SgParams _ => KParams | SgReadKey => KReadKey | SgWriteKey => KWriteKey end.
Definition select_case : Type := bool * signal_kind.
(** The selects of [handleMessageForServer] and [handleMessageForClient], one after the
    other, and the result behind them. *)
Definition plan (pers : Perspective) (msgType : Z) : list select_case * bool :=
  match pers with
  | PerspectiveServer =>
      if msgType =? typeClientHello then ([(true, KParams); (false, KReadKey); (false, KWriteKey); (false, KWriteKey)], true)
      else if msgType =? typeFinished then ([(false, KReadKey)], true)
      else ([], false)
  | PerspectiveClient =>
      if msgType =? typeServerHello then ([(true, KWriteKey); (false, KReadKey)], true)
      else if msgType =? typeEncryptedExtensions then ([(false, KParams)], false)
      else if msgType =? typeFinished then ([(false, KReadKey); (false, KWriteKey)], true)
      else ([], false)
  end.
(** The session calls [HandleMessage], never with an empty message; [post] is what TLS
    makes of a message of the 1-RTT level.  At the end it calls [Close]. *)
Inductive call := CHandle (msgType : Z) (rest : list Z) (encLevel : EncryptionLevel) (post : option (Z * goerr)) | CClose.
Inductive session_state := SIdle | SWaits (ws : list select_case) (res : bool) | SPost (post : option (Z * goerr)) | SClosing.
(** [RunHandshake] is at its select, waits for the error of TLS after an alert or for
    its end after [Close], or has returned. *)
Inductive run_state := RSelect | RWaitErr (alert : Z) | RWaitDone | REnded.
Inductive hs_event := HsParams (data : list Z) | HsError (alert : Z) (e : goerr) | HsComplete | HsTicket (ticket : list Z).
Record hs := mkHS {
  hs_pers : Perspective; messageChan : list (list Z); messageClosed : bool; writeRecord : bool; closeChan : bool;
  hs_tls : tls_state; hs_run : run_state; hs_session : session_state; hs_calls : list call; hs_results : list bool; hs_events : list hs_event }.
Definition hs_new (pers : Perspective) (t : tls) (calls : list call) : hs := mkHS pers [] false false false (TRunning t) RSelect SIdle calls [] [].

Definition set_tls (h : hs) (t : tls_state) : hs :=
  mkHS (hs_pers h) (messageChan h) (messageClosed h) (writeRecord h) (closeChan h) t (hs_run h) (hs_session h) (hs_calls h) (hs_results h) (hs_events h).
Definition set_run (h : hs) (r : run_state) (ev : list hs_event) : hs :=
  mkHS (hs_pers h) (messageChan h) (messageClosed h) (writeRecord h) (closeChan h) (hs_tls h) r (hs_session h) (hs_calls h) (hs_results h) (hs_events h ++ ev).
Definition set_chans (h : hs) (q : list (list Z)) (closed record : bool) : hs :=
  mkHS (hs_pers h) q closed record (closeChan h) (hs_tls h) (hs_run h) (hs_session h) (hs_calls h) (hs_results h) (hs_events h).
Definition set_session (h : hs) (s : session_state) (res : list bool) (ev : list hs_event) : hs :=
  mkHS (hs_pers h) (messageChan h) (messageClosed h) (writeRecord h) (closeChan h) (hs_tls h) (hs_run h) s (hs_calls h) (hs_results h ++ res) (hs_events h ++ ev).
(** The next select, or the end of the call. *)
Definition continue_at (h : hs) (ws : list select_case) (res : bool) (ev : list hs_event) : hs :=
  match ws with [] => set_session h SIdle [res] ev | _ => set_session h (SWaits ws res) [] ev end.

Definition messageChan_capacity : Z := 100.
Definition errMessageChan : goerr := Errorf "error while handling the handshake message" [].
(** A step of the TLS goroutine; [None]: it waits. *)
Definition tls_step (h : hs) : option hs :=
  match hs_tls h with
  | TRunning (TlsRead k) =>
      match messageChan h with
      | m :: q => Some (set_tls (set_chans h q (messageClosed h) (writeRecord h)) (TRunning (k m)))
      | [] => if messageClosed h then Some (set_tls h (TReturned (Some errMessageChan))) else None
      end
  | TRunning (TlsSignal s k) =>
      match hs_session h with
      | SWaits ((_, kd) :: ws) res =>
          if bool_decide (kind_of s = kd)
          then Some (set_tls (continue_at h ws res (match s with SgParams data => [HsParams data] | _ => [] end)) (TRunning k))
          else None
      | _ => None
      end
  | TRunning (TlsRecord k) => if writeRecord h then None else Some (set_tls (set_chans h (messageChan h) (messageClosed h) true) (TRunning k))
  | TRunning (TlsAlert a k) => match hs_run h with RSelect => Some (set_tls (set_run h (RWaitErr a) []) (TRunning k)) | _ => None end
  | TRunning (TlsReturn e) => Some (set_tls h (TReturned e))
  | TReturned _ => None
  end.
(** [maybeSendSessionTicket]; [ticket] is what TLS returns for it. *)
Definition alertInternalError : Z := 80.
Definition maybeSendSessionTicket (ticket : option (list Z) + goerr) : list hs_event :=
  match ticket with inr e => [HsError alertInternalError e] | inl (Some t) => [HsTicket t] | inl None => [] end.
(** A step of [RunHandshake], at [closeChan] or elsewhere. *)
Definition run_close (h : hs) : option hs :=
  match hs_run h with
  | RSelect => if closeChan h then Some (set_run (set_chans h (messageChan h) true (writeRecord h)) RWaitDone []) else None
  | _ => None
  end.
Definition run_other (ticket : option (list Z) + goerr) (h : hs) : option hs :=
  match hs_run h, hs_tls h with
  | RSelect, TReturned None =>
      Some (set_run h REnded (HsComplete :: match hs_pers h with PerspectiveServer => maybeSendSessionTicket ticket | PerspectiveClient => [] end))
  | RWaitErr a, TReturned (Some e) => Some (set_run h REnded [HsError a e])
  | RWaitDone, TReturned _ => Some (set_run h REnded [])
  | _, _ => None
  end.
(** The session starts its next call. *)
Definition drop_call (h : hs) (cs : list call) : hs :=
  mkHS (hs_pers h) (messageChan h) (messageClosed h) (writeRecord h) (closeChan h) (hs_tls h) (hs_run h) (hs_session h) cs (hs_results h) (hs_events h).
Definition HandleMessage_start (h : hs) (msgType : Z) (rest : list Z) (encLevel : EncryptionLevel) (post : option (Z * goerr)) : option hs :=
  match checkEncryptionLevel msgType encLevel with
  | Some e => Some (set_session h SIdle [false] [HsError alertUnexpectedMessage e])
  | None =>
      if messageClosed h || negb (len (messageChan h) <? messageChan_capacity) then None
      else
        let h := set_chans h (messageChan h ++ [msgType :: rest]) (messageClosed h) (writeRecord h) in
        if bool_decide (encLevel = Encryption1RTT) then Some (set_session h (SPost post) [] [])
        else let '(ws, res) := plan (hs_pers h) msgType in Some (continue_at h ws res [])
  end.
Definition session_call (h : hs) : option hs :=
  match hs_session h, hs_calls h with
  | SIdle, CHandle mt rest lvl post :: cs => HandleMessage_start (drop_call h cs) mt rest lvl post
  | SIdle, CClose :: cs =>
      if closeChan h then None
      else Some (mkHS (hs_pers h) (messageChan h) (messageClosed h) (writeRecord h) true (hs_tls h) (hs_run h) SClosing cs (hs_results h) (hs_events h))
  | _, _ => None
  end.
(** It receives from [writeRecord], or [handshakeDone]. *)
Definition session_record (h : hs) : option hs :=
  match hs_session h with
  | SWaits ((true, _) :: _) _ => if writeRecord h then Some (set_session (set_chans h (messageChan h) (messageClosed h) false) SIdle [false] []) else None
  | _ => None
  end.
Definition session_done (h : hs) : option hs :=
  match hs_tls h, hs_session h with
  | TReturned _, SWaits _ _ => Some (set_session h SIdle [false] [])
  | TReturned _, SClosing => Some (set_session h SIdle [] [])
  | TReturned _, SPost post =>
      match messageChan h with
      | [] => None
      | _ :: q => Some (set_session (set_chans h q (messageClosed h) (writeRecord h)) SIdle [false] (match post with Some (a, e) => [HsError a e] | None => [] end))
      end
  | _, _ => None
  end.
Inductive hs_label := LTls | LRunClose | LRun (ticket : option (list Z) + goerr) | LCall | LRecord | LDone.
Definition hs_step (l : hs_label) (h : hs) : option hs :=
  match l with
  | LTls => tls_step h | LRunClose => run_close h | LRun ticket => run_other ticket h
  | LCall => session_call h | LRecord => session_record h | LDone => session_done h
  end.
