(* ===== verification/HandshakeSpec.v ===== *)
(** HandshakeSpec: no goroutine of a handshake is left waiting, as long as the session
    passes on at most a hundred messages, and does not close the connection while TLS
    fails. *)

From S2P Require Import Prelude Utils Protocol Frames Protection CryptoSetup Handshake.

(** * The selects are those of the code *)

Fixpoint run_plan (ws : list select_case) (res : bool) (rs : list received) : option (bool * list setup_event) :=
  match ws, rs with
  | [], _ => Some (res, [])
  | _, [] => None
  | _, RcvHandshakeDone :: _ => Some (false, [])
  | (b, _) :: _, RcvWriteRecord :: _ => if b then Some (false, []) else None
  | (_, KParams) :: ws, RcvParams data :: rs => '(r, ev) ← run_plan ws res rs; Some (r, EvReceivedParams data :: ev)
  | (_, KReadKey) :: ws, RcvReadKey :: rs => run_plan ws res rs
  | (_, KWriteKey) :: ws, RcvWriteKey :: rs => run_plan ws res rs
  | _, _ => None
  end.
(** Receiving one after the other, as [Handshake] does, gives the results of the two
    functions. *)
Lemma plan_server msgType rs : handleMessageForServer msgType rs = let '(ws, res) := plan PerspectiveServer msgType in run_plan ws res rs.
Proof.
  unfold handleMessageForServer, plan. destruct (msgType =? typeClientHello) eqn:E1.
  - destruct rs as [|[| | | |] rs]; try done. destruct rs as [|[| | | |] rs]; try done. destruct rs as [|[| | | |] rs]; try done. destruct rs as [|[| | | |] rs]; done.
  - destruct (msgType =? typeFinished) eqn:E2.
    + apply Z.eqb_eq in E2 as ->. cbn. destruct rs as [|[| | | |] rs]; done.
    + by destruct (_ || _).
Qed.
Lemma plan_client msgType rs : handleMessageForClient msgType rs = let '(ws, res) := plan PerspectiveClient msgType in run_plan ws res rs.
Proof.
  unfold handleMessageForClient, plan. destruct (msgType =? typeServerHello) eqn:E1.
  - destruct rs as [|[| | | |] rs]; try done. destruct rs as [|[| | | |] rs]; done.
  - destruct (msgType =? typeEncryptedExtensions) eqn:E2; [by destruct rs as [|[| | | |] rs]|]. destruct (msgType =? typeFinished) eqn:E3.
    + apply Z.eqb_eq in E3 as ->. cbn. destruct rs as [|[| | | |] rs]; try done. destruct rs as [|[| | | |] rs]; done.
    + by destruct (_ || _).
Qed.

(** * How TLS behaves *)

(** What TLS does with a message: signals, and records of the Initial level, which the
    session takes from the channel (a HelloRetryRequest and the answer to it) or which
    stay in it (a ServerHello). *)
Inductive act := ASignal (k : signal_kind) | AKept | ATaken.
Definition msg_type (m : list Z) : Z := match m with t :: _ => t | [] => 0 end.
(** [rec] is whether a record was written that stays. *)
Definition reactions (pers : Perspective) (rec : bool) (msgType : Z) : list (list act) :=
  match pers with
  | PerspectiveServer =>
      if msgType =? typeClientHello then
        if rec then [] else [[ATaken]; [ASignal KParams; AKept; ASignal KReadKey; ASignal KWriteKey; ASignal KWriteKey]]
      else if msgType =? typeFinished then [[ASignal KReadKey]]
      else [[]]
  | PerspectiveClient =>
      if msgType =? typeServerHello then if rec then [] else [[ATaken]; [ASignal KWriteKey; ASignal KReadKey]]
      else if msgType =? typeEncryptedExtensions then [[ASignal KParams]]
      else if msgType =? typeFinished then [[ASignal KReadKey; ASignal KWriteKey]]
      else [[]]
  end.
Section Conforming.
Context (pers : Perspective) (alerts : bool).
(** TLS that is given the messages [ms] reacts to each of them in one of these ways,
    and may return after it; or, if [alerts], it fails, with an alert, at any point. *)
Inductive conf : bool → list (list Z) → tls → Prop :=
  | conf_ok rec ms : conf rec ms (TlsReturn None)
  | conf_wait rec k : conf rec [] (TlsRead k)
  | conf_read rec m ms k l : l ∈ reactions pers rec (msg_type m) → follows l rec ms (k m) → conf rec (m :: ms) (TlsRead k)
  | conf_fail rec m ms k a e : alerts = true → k m = TlsAlert a (TlsReturn (Some e)) → conf rec (m :: ms) (TlsRead k)
with follows : list act → bool → list (list Z) → tls → Prop :=
  | follows_end rec ms t : conf rec ms t → follows [] rec ms t
  | follows_signal s l rec ms t : follows l rec ms t → follows (ASignal (kind_of s) :: l) rec ms (TlsSignal s t)
  | follows_kept l ms t : follows l true ms t → follows (AKept :: l) false ms (TlsRecord t)
  | follows_taken ms t : conf false ms t → follows [ATaken] false ms (TlsRecord t)
  | follows_alert l rec ms a e : alerts = true → follows l rec ms (TlsAlert a (TlsReturn (Some e))).

(** The messages that calls pass on. *)
Definition msg_of (c : call) : list (list Z) :=
  match c with CHandle mt rest lvl _ => match checkEncryptionLevel mt lvl with None => [mt :: rest] | Some _ => [] end | CClose => [] end.
Definition msgs_of (calls : list call) : list (list Z) := concat (map msg_of calls).
(** The calls of a session during the handshake: messages, and at the end [Close], if
    TLS does not fail. *)
Fixpoint calls_ok (calls : list call) : Prop :=
  match calls with
  | [] => True
  | CHandle _ _ lvl _ :: cs => lvl ≠ Encryption1RTT ∧ calls_ok cs
  | CClose :: cs => cs = [] ∧ alerts = false
  end.

(** * The invariant *)

Definition signals (l : list act) : list signal_kind := omap (λ a, match a with ASignal k => Some k | _ => None end) l.
(** Every rest of the reaction has a signal. *)
Fixpoint tidy (l : list act) : Prop := match l with [] => True | a :: l' => signals (a :: l') ≠ [] ∧ tidy l' end.
Definition calm (rec : bool) (m : list Z) : Prop := ∀ l, l ∈ reactions pers rec (msg_type m) → l = [].
Definition failing (t : tls) : Prop := (alerts = true ∧ ∃ a e, t = TlsAlert a (TlsReturn (Some e))) ∨ ∃ e, t = TlsReturn (Some e).
(** How far the session and TLS are, with the messages in the channel [q] and those to
    come [fut], and [buf] whether there is a record in the channel. *)
Inductive in_step (rec buf : bool) (q fut : list (list Z)) : session_state → tls_state → Prop :=
  | in_returned s e : (∀ p, s ≠ SPost p) → in_step rec buf q fut s (TReturned e)
  | in_failing s t : failing t → (∀ p, s ≠ SPost p) → in_step rec buf q fut s (TRunning t)
  | in_idle s t : s = SIdle ∨ s = SClosing → conf rec (q ++ fut) t → Forall (calm rec) q → (rec = false → buf = false) → in_step rec buf q fut s (TRunning t)
  | in_unread q0 m ws res t : q = q0 ++ [m] → Forall (calm rec) q0 → plan pers (msg_type m) = (ws, res) → ws ≠ [] → conf rec (q ++ fut) t → (rec = false → buf = false) →
      in_step rec buf q fut (SWaits ws res) (TRunning t)
  | in_reaction l b k ws res t : q = [] → follows l rec fut t → signals l = k :: ws.*2 → tidy l → ATaken ∉ l → (b = true → rec = false ∧ ∃ l', l = ASignal k :: l') → Forall (λ c, c.1 = false) ws → (rec = false → buf = false) →
      in_step rec buf q fut (SWaits ((b, k) :: ws) res) (TRunning t)
  | in_record k ws res t : q = [] → rec = false → (buf = false ∧ follows [ATaken] false fut t) ∨ (buf = true ∧ conf false fut t) →
      in_step rec buf q fut (SWaits ((true, k) :: ws) res) (TRunning t).
Definition run_ok (r : run_state) (t : tls_state) (closed : bool) : Prop :=
  match r with
  | RSelect => closed = false
  | RWaitErr _ => alerts = true ∧ closed = false ∧ ∃ e, t = TRunning (TlsReturn (Some e)) ∨ t = TReturned (Some e)
  | RWaitDone => alerts = false ∧ closed = true
  | REnded => ∃ e, t = TReturned e
  end.
Definition hs_ok (h : hs) : Prop :=
  hs_pers h = pers ∧ calls_ok (hs_calls h) ∧ len (messageChan h) + len (msgs_of (hs_calls h)) <= messageChan_capacity ∧
  run_ok (hs_run h) (hs_tls h) (messageClosed h) ∧ (messageClosed h = true → closeChan h = true) ∧
  (closeChan h = true → hs_calls h = [] ∧ alerts = false ∧ (hs_session h = SClosing ∨ hs_session h = SIdle)) ∧ (hs_session h = SClosing → closeChan h = true ∧ hs_calls h = []) ∧
  ∃ rec, in_step rec (writeRecord h) (messageChan h) (msgs_of (hs_calls h)) (hs_session h) (hs_tls h).

(** A reaction is what the session waits for. *)
Lemma reaction_fits rec mt l ws res : l ∈ reactions pers rec mt → plan pers mt = (ws, res) →
  (ws = [] ∧ l = []) ∨ (rec = false ∧ l = [ATaken] ∧ ∃ k ws', ws = (true, k) :: ws') ∨
  (∃ b k ws', ws = (b, k) :: ws' ∧ signals l = k :: ws'.*2 ∧ tidy l ∧ (ATaken ∉ l) ∧ (b = true → rec = false ∧ ∃ l', l = ASignal k :: l') ∧ Forall (λ c, c.1 = false) ws').
Proof.
  unfold reactions, plan. destruct pers; repeat case_match; intros Hl E; injection E as <- <-;
    repeat (apply elem_of_cons in Hl as [->|Hl]); try (by apply not_elem_of_nil in Hl); auto;
    try (right; left; by eauto); right; right; eexists _, _, _; (split; [reflexivity|]); split_and!; try done; try (by repeat constructor); try (intros _; split; [done|by eexists]); set_solver.
Qed.
Lemma plan_calm rec mt rest : (plan pers mt).1 = [] → calm rec (mt :: rest).
Proof. intros E l Hl. destruct (plan pers mt) as [ws res] eqn:Ep. cbn in E. destruct (reaction_fits rec mt l ws res Hl Ep) as [[_ ->]|[(_ & _ & k & ws' & ->)|(b & k & ws' & -> & _)]]; done. Qed.
Lemma record_calm m k ws res : plan pers (msg_type m) = ((true, k) :: ws, res) → calm true m.
Proof.
  intros Ep l Hl. destruct (reaction_fits true (msg_type m) l _ _ Hl Ep) as [[? _]|[(? & _)|(b & k' & ws' & [= <- <- <-] & _ & _ & _ & Hb & _)]]; try done. by destruct (Hb eq_refl).
Qed.
Lemma follows_nil rec ms t : follows [] rec ms t → conf rec ms t ∨ failing t.
Proof. inversion 1; subst; [by left|]. right. left. eauto. Qed.
(** What TLS reads: the reaction to a message, or a failure. *)
Lemma conf_message rec m ms k : conf rec (m :: ms) (TlsRead k) → (∃ l, l ∈ reactions pers rec (msg_type m) ∧ follows l rec ms (k m)) ∨ failing (k m).
Proof. inversion 1; subst; [left; eauto|]. right. left. eauto. Qed.
Lemma calm_message rec m ms k : conf rec (m :: ms) (TlsRead k) → calm rec m → conf rec ms (k m) ∨ failing (k m).
Proof. intros [(l & Hl & Hf)|Hf]%conf_message Hc; [|by right]. apply Hc in Hl as ->. by apply follows_nil. Qed.

(** TLS takes a step. *)
Lemma idle_or_failing rec buf q fut s t : s = SIdle ∨ s = SClosing → conf rec (q ++ fut) t ∨ failing t → Forall (calm rec) q → (rec = false → buf = false) → in_step rec buf q fut s (TRunning t).
Proof. intros Hs [Hc|Hf] Hq Hb; [by apply in_idle|]. apply in_failing; [done|]. destruct Hs as [-> | ->]; done. Qed.
Lemma read_in_step rec buf m q fut s k : (s = SClosing → fut = []) → in_step rec buf (m :: q) fut s (TRunning (TlsRead k)) → ∃ rec', in_step rec' buf q fut s (TRunning (k m)).
Proof.
  intros Hs H. inversion H as [| ? ? Hf|? ? Hs' Hc Hq Hb|q0 m' ws res ? Eq Hq Hp Hw Hc Hb| |]; subst; try done.
  - destruct Hf as [(_ & ? & ? & ?)|[? ?]]; done.
  - exists rec. apply Forall_cons in Hq as [Hm Hq]. apply idle_or_failing; try done. by apply calm_message.
  - destruct q0 as [|m0 q0]; cbn [app] in *.
    + injection Eq as -> ->. exists rec. apply conf_message in Hc as [(l & Hl & Hf)|Hf]; [|by apply in_failing].
      destruct (reaction_fits _ _ _ _ _ Hl Hp) as [[? _]|[(-> & -> & kd & ws' & ->)|(b & kd & ws' & -> & E1 & E2 & E3 & E4 & E5)]]; [done| |].
      * apply in_record; try done. left. split; [by apply Hb|done].
      * by eapply in_reaction.
    + injection Eq as -> ->. exists rec. apply Forall_cons in Hq as [Hm Hq]. rewrite <- app_assoc in Hc. cbn [app] in Hc. destruct (calm_message _ _ _ _ Hc Hm) as [Hc'|Hf]; [|by apply in_failing].
      eapply (in_unread _ _ _ _ q0); try done. by rewrite <- app_assoc.
Qed.
Lemma signal_in_step rec buf q fut b kd ws res s k : in_step rec buf q fut (SWaits ((b, kd) :: ws) res) (TRunning (TlsSignal s k)) → kind_of s = kd →
  in_step rec buf q fut (match ws with [] => SIdle | _ => SWaits ws res end) (TRunning k).
Proof.
  intros H Hk. inversion H as [| ? ? Hf|? ? Hs' Hc|? ? ? ? ? ? ? ? ? Hc|l ? ? ? ? ? Eq Hf Hsg Ht Hta Hb Hws Hbuf|? ? ? ? ? ? Hr]; subst.
  - destruct Hf as [(_ & ? & ? & ?)|[? ?]]; done.
  - by destruct Hs'.
  - inversion Hc.
  - inversion Hf as [? ? ? Hc|s' l' ? ? ? Hf'| | |]; subst; [inversion Hc|]. cbn in Hsg. injection Hsg as Hsg. cbn in Ht. destruct Ht as [_ Ht]. apply not_elem_of_cons in Hta as [_ Hta]. destruct ws as [|[b' k'] ws].
    + assert (l' = []) as ->. { destruct l' as [|x l']; [done|]. destruct Ht as [Hn _]. by destruct (Hn Hsg). }
      apply idle_or_failing; [by left| |done|done]. rewrite app_nil_l. by apply follows_nil.
    + apply Forall_cons in Hws as [Hb' Hws]. cbn in Hb'. subst b'. eapply in_reaction; try done.
  - destruct Hr as [[_ Hf]|[_ Hc]]; [inversion Hf|inversion Hc].
Qed.
Lemma record_in_step rec q fut s k : in_step rec false q fut s (TRunning (TlsRecord k)) → ∃ rec', in_step rec' true q fut s (TRunning k).
Proof.
  intros H. inversion H as [| ? ? Hf|? ? Hs' Hc|? ? ? ? ? ? ? ? ? Hc|l ? ? ? ? ? Eq Hf Hsg Ht Hta Hb Hws Hbuf|? ? ? ? ? ? Hr]; subst.
  - destruct Hf as [(_ & ? & ? & ?)|[? ?]]; done.
  - inversion Hc.
  - inversion Hc.
  - inversion Hf as [? ? ? Hc| |l' ? ? Hf'|? ? Hf'|]; subst; [inversion Hc| |by apply not_elem_of_cons in Hta as [? _]].
    exists true. cbn in Ht. destruct Ht as [_ Ht]. apply not_elem_of_cons in Hta as [_ Hta]. eapply in_reaction; try done. intros ->. destruct (Hb eq_refl) as [_ [? ?]]. done.
  - destruct Hr as [[_ Hf]|[? _]]; [|done]. inversion Hf; subst. exists false. apply in_record; try done. by right.
Qed.
Lemma in_step_session rec buf q fut s t : in_step rec buf q fut s t → ∀ p, s ≠ SPost p.
Proof. intros H p. inversion H as [| |? ? Hs| | |]; subst; try done. by destruct Hs as [-> | ->]. Qed.
Lemma tls_step_ok h h' : hs_ok h → tls_step h = Some h' → hs_ok h'.
Proof.
  intros (Hp & Hc & Hl & Hr & Hm & Hcl & Hsc & rec & Hin) E. pose proof (in_step_session _ _ _ _ _ _ Hin) as Hnp. destruct h as [pe q mc wr cc tl ru se ca re ev].
  cbn [hs_pers messageChan messageClosed writeRecord closeChan hs_tls hs_run hs_session hs_calls] in *. unfold tls_step in E. cbn [hs_tls] in E. destruct tl as [[k|sg k|k|a k|e]|e]; [| | | | |done].
  - cbn [messageChan messageClosed] in E. assert (∀ t', (∀ e, t' ≠ TReturned e) ∨ ru ≠ REnded → run_ok ru t' mc) as Hrun.
    { intros t' Ht'. destruct ru; cbn in *; try done; [by destruct Hr as (_ & _ & ? & [?|?])|by destruct Hr]. }
    destruct q as [|m q].
    + destruct mc; [|done]. injection E as <-. split_and!; try done; [apply Hrun; right; intros ->; by destruct Hr|]. exists rec. by apply in_returned.
    + injection E as <-. destruct (read_in_step rec wr m q (msgs_of ca) se k) as [rec' Hin']; [intros Hs; by destruct (Hsc Hs) as [_ ->]|done|].
      rewrite len_cons in Hl. split_and!; try done; [cbn [set_tls set_chans messageChan hs_calls]; lia|apply Hrun; by left|by exists rec'].
  - cbn [hs_session] in E. destruct se as [|[|[b kd] ws] res| |]; try done. case_bool_decide as Hk; [|done]. injection E as <-.
    assert (cc = false) as ->. { destruct cc; [|done]. destruct (Hcl eq_refl) as (_ & _ & [?|?]); done. }
    pose proof (signal_in_step _ _ _ _ _ _ _ _ _ _ Hin Hk) as Hin'. assert (run_ok ru (TRunning k) mc) as Hrun by (destruct ru; cbn in *; try done; [by destruct Hr as (_ & _ & ? & [?|?])|by destruct Hr]).
    destruct ws; split_and!; try done; by exists rec.
  - cbn [writeRecord] in E. destruct wr; [done|]. injection E as <-. destruct (record_in_step _ _ _ _ _ Hin) as [rec' Hin']. split_and!; try done; [|by exists rec'].
    destruct ru; cbn in *; try done; [by destruct Hr as (_ & _ & ? & [?|?])|by destruct Hr].
  - cbn [hs_run] in E. destruct ru; try done. injection E as <-. cbn in Hr. subst mc.
    assert (alerts = true ∧ ∃ e, k = TlsReturn (Some e)) as [Hal [e ->]].
    { clear -Hin. inversion Hin as [| ? ? Hf|? ? ? Hc|? ? ? ? ? ? ? ? ? Hc|? ? ? ? ? ? ? Hf|? ? ? ? ? ? Hr]; subst; try (inversion Hc; fail).
      - destruct Hf as [(? & ? & ? & [= -> ->])|[? ?]]; [eauto|done].
      - inversion Hf as [? ? ? Hc| | | |]; subst; [inversion Hc|eauto].
      - destruct Hr as [[_ Hf]|[_ Hc]]; [|inversion Hc]. inversion Hf; subst; eauto. }
    split_and!; try done; [cbn; split_and!; eauto|]. exists rec. apply in_failing; [right; eauto|done].
  - injection E as <-. split_and!; try done; [|exists rec; by apply in_returned]. destruct ru; cbn in *; try done; [|by destruct Hr]. destruct Hr as (? & ? & e' & [[= ->]|?]); [|done]. split_and!; eauto.
Qed.
Lemma handle_step_ok h h' mt rest lvl post cs : hs_ok h → hs_session h = SIdle → hs_calls h = CHandle mt rest lvl post :: cs → HandleMessage_start (drop_call h cs) mt rest lvl post = Some h' → hs_ok h'.
Proof.
  intros (Hp & Hc & Hl & Hr & Hm & Hcl & Hsc & rec & Hin) Hs Hca E. destruct h as [pe q mc wr cc tl ru se ca re ev].
  cbn [hs_pers messageChan messageClosed writeRecord closeChan hs_tls hs_run hs_session hs_calls] in *. subst se ca. destruct Hc as [Hlvl Hc].
  assert (cc = false) as ->. { destruct cc; [|done]. by destruct (Hcl eq_refl). }
  unfold HandleMessage_start, drop_call in E. cbn [messageClosed messageChan writeRecord hs_pers] in E. unfold msgs_of in Hl, Hin. cbn [map concat msg_of] in Hl, Hin. destruct (checkEncryptionLevel mt lvl).
  - injection E as <-. split_and!; try done. by exists rec.
  - destruct mc; [done|]. destruct (_ <? _); [|done]. cbn [orb negb] in E. rewrite bool_decide_false in E by done. subst pe. cbn [set_chans hs_pers] in E. destruct (plan pers mt) as [ws res] eqn:Ep. injection E as <-.
    fold (msgs_of cs) in *. cbn [app] in Hl, Hin. rewrite len_cons in Hl.
    assert (in_step rec wr (q ++ [mt :: rest]) (msgs_of cs) (match ws with [] => SIdle | _ => SWaits ws res end) tl) as Hin'.
    { inversion Hin as [| ? ? Hf|? ? _ Hcf Hq Hb| | |]; subst.
      - apply in_returned. by destruct ws.
      - apply in_failing; [done|by destruct ws].
      - assert (conf rec ((q ++ [mt :: rest]) ++ msgs_of cs) t) as Hcf' by (by rewrite <- app_assoc). destruct ws as [|w ws].
        + apply in_idle; try done; [by left|]. apply Forall_app. split; [done|]. apply Forall_singleton, plan_calm. by rewrite Ep.
        + eapply (in_unread _ _ _ _ q (mt :: rest)); done. }
    destruct ws; split_and!; try done; try (by exists rec); cbn [continue_at set_session set_chans messageChan hs_calls]; rewrite len_app; change (len [mt :: rest]) with 1; lia.
Qed.
Lemma session_step_ok l h h' : hs_ok h → l ∈ [LCall; LRecord; LDone] → hs_step l h = Some h' → hs_ok h'.
Proof.
  intros Hok Hl E. pose proof Hok as (Hp & Hc & Hln & Hr & Hm & Hcl & Hsc & rec & Hin). repeat (apply elem_of_cons in Hl as [-> |Hl]); [..|by apply not_elem_of_nil in Hl]; cbn [hs_step] in E.
  - unfold session_call in E. destruct (hs_session h) eqn:Es; try done. destruct (hs_calls h) as [|[mt rest lvl post|] cs] eqn:Ec; [done|by eapply handle_step_ok|].
    destruct (closeChan h) eqn:Ecl; [done|]. injection E as <-. destruct Hc as [-> Hal]. split_and!; try done; [intros _; split_and!; auto|]. exists rec. cbn.
    inversion Hin; subst; [by apply in_returned|by apply in_failing|apply in_idle; auto].
  - unfold session_record in E. destruct (hs_session h) as [|[|[[] k] ws] res| |] eqn:Es; try done. destruct (writeRecord h) eqn:Ew; [|done]. injection E as <-.
    assert (closeChan h = false) as Ecl. { destruct (closeChan h); [|done]. destruct (Hcl eq_refl) as (_ & _ & [?|?]); done. }
    split_and!; try done; [cbn; by rewrite Ecl|]. cbn [set_session set_chans messageChan hs_calls hs_session hs_tls writeRecord].
    inversion Hin as [| ? ? Hf|? ? Hs'|q0 m ? ? ? Eq Hq Hpl Hw Hcf Hb|? ? ? ? ? ? ? Hf ? ? ? Hb ? Hbuf|? ? ? ? ? Erec Hr']; subst.
    + exists rec. by apply in_returned.
    + exists rec. by apply in_failing.
    + by destruct Hs'.
    + exists rec. destruct rec; [|by discriminate Hb]. apply in_idle; try done; [by left|rewrite Eq; apply Forall_app; split; [done|apply Forall_singleton; by eapply record_calm]].
    + destruct (Hb eq_refl) as [-> _]. by discriminate Hbuf.
    + destruct Hr' as [[? _]|[_ Hcf]]; [done|]. exists false. match goal with Eq : messageChan h = [] |- _ => rewrite Eq end. apply in_idle; [by left|done|done|done].
  - unfold session_done in E. destruct (hs_tls h) as [|e] eqn:Et; [done|]. destruct (hs_session h) eqn:Es; try done.
    + injection E as <-. assert (closeChan h = false) as Ecl. { destruct (closeChan h); [|done]. destruct (Hcl eq_refl) as (_ & _ & [?|?]); done. }
      split_and!; try done; [by cbn; rewrite Et|by cbn; rewrite Ecl|exists rec; cbn; rewrite Et; by apply in_returned].
    + by destruct (in_step_session _ _ _ _ _ _ Hin post).
    + injection E as <-. split_and!; try done; [by cbn; rewrite Et|cbn; intros Hx; destruct (Hcl Hx) as (? & ? & _); auto|exists rec; cbn; rewrite Et; by apply in_returned].
Qed.
Lemma hs_step_ok l h h' : hs_ok h → hs_step l h = Some h' → hs_ok h'.
Proof.
  intros Hok. destruct l as [| |ticket| | |]; [by apply tls_step_ok| | |by apply session_step_ok; set_solver..]; intros E; pose proof Hok as (Hp & Hc & Hln & Hr & Hm & Hcl & Hsc & Hin); cbn [hs_step] in E.
  - unfold run_close in E. destruct (hs_run h); try done. destruct (closeChan h) eqn:Ecl; [|done]. injection E as <-. destruct (Hcl eq_refl) as (? & ? & ?). by split_and!.
  - unfold run_other in E. destruct (hs_run h) eqn:Er, (hs_tls h) as [|[e|]] eqn:Et; try done; injection E as <-; split_and!; try done; cbn; try rewrite Et; eauto.
Qed.
(** As long as a call has not returned, a goroutine can take a step. *)
Lemma waiting_steps rec h ws res t : hs_session h = SWaits ws res → hs_tls h = TRunning t → in_step rec (writeRecord h) (messageChan h) (msgs_of (hs_calls h)) (SWaits ws res) (TRunning t) →
  run_ok (hs_run h) (hs_tls h) (messageClosed h) → (∃ h', tls_step h = Some h') ∨ ∃ h', session_record h = Some h'.
Proof.
  intros Hs Ht Hin Hr. assert (∀ a k, t = TlsAlert a k → alerts = true → ∃ h', tls_step h = Some h') as Halert.
  { intros a k -> Hal. unfold tls_step. rewrite Ht. rewrite Ht in Hr. destruct (hs_run h); cbn in Hr; [by eexists|by destruct Hr as (_ & _ & ? & [?|?])|destruct Hr; congruence|by destruct Hr]. }
  assert (∀ e, t = TlsReturn e → ∃ h', tls_step h = Some h') as Hret by (intros e ->; unfold tls_step; rewrite Ht; by eexists).
  inversion Hin as [| ? ? Hf|? ? Hs'|q0 m ? ? ? Eq Hq Hpl Hw Hcf Hb|l b k ws' ? ? Eq Hf Hsg Htd Hta Hb Hws Hbuf|k ws' ? ? Eq Erec Hr']; subst.
  - left. destruct Hf as [(? & a & e & ->)|[e ->]]; eauto.
  - by destruct Hs'.
  - left. destruct (messageChan h) as [|m1 q1] eqn:Em; [by destruct q0|]. inversion Hcf; subst; [by eapply Hret|..]; unfold tls_step; rewrite Ht, Em; by eexists.
  - left. inversion Hf as [? ? ? ? Hc| sg ? ? ? ? ?|? ? ? ? | |]; subst; try done; [..|by eapply Halert].
    + cbn in Hsg. injection Hsg as Hk _. unfold tls_step. rewrite Ht, Hs. rewrite bool_decide_true by done. by eexists.
    + unfold tls_step. rewrite Ht, (Hbuf eq_refl). by eexists.
  - destruct Hr' as [[Ew Hf]|[Ew Hcf]]; [left|right; unfold session_record; rewrite Hs, Ew; by eexists]. inversion Hf; subst; [|by eapply Halert]. unfold tls_step. rewrite Ht, Ew. by eexists.
Qed.
Lemma closing_steps rec h t : hs_session h = SClosing → hs_tls h = TRunning t → in_step rec (writeRecord h) (messageChan h) (msgs_of (hs_calls h)) SClosing (TRunning t) →
  run_ok (hs_run h) (hs_tls h) (messageClosed h) → closeChan h = true → alerts = false → (∃ h', tls_step h = Some h') ∨ ∃ h', run_close h = Some h'.
Proof.
  intros Hs Ht Hin Hr Hc Hal. assert (∀ e, t = TlsReturn e → ∃ h', tls_step h = Some h') as Hret by (intros e ->; unfold tls_step; rewrite Ht; by eexists).
  inversion Hin as [| ? ? Hf|? ? ? Hcf| | |]; subst.
  - left. destruct Hf as [(? & _)|[e ->]]; [congruence|eauto].
  - destruct t as [k| | | |e]; try (inversion Hcf; fail); [|left; by eapply Hret]. destruct (messageClosed h) eqn:Emc.
    + left. unfold tls_step. rewrite Ht, Emc. destruct (messageChan h); by eexists.
    + right. unfold run_close. rewrite Hc. rewrite Ht in Hr. destruct (hs_run h); cbn in Hr; [by eexists|destruct Hr; congruence|by destruct Hr|by destruct Hr].
Qed.
Definition stuck (h : hs) : Prop := ∀ l, hs_step l h = None.
Lemma not_stuck h : hs_ok h → stuck h → hs_calls h = [] ∧ hs_session h = SIdle.
Proof.
  intros (Hp & Hc & Hl & Hr & Hm & Hcl & Hsc & rec & Hin) Hst. pose proof (in_step_session _ _ _ _ _ _ Hin) as Hnp. destruct (hs_session h) as [|ws res|post|] eqn:Es.
  - split; [|done]. destruct (hs_calls h) as [|[mt rest lvl post|] cs] eqn:Ec; [done|..]; specialize (Hst LCall); cbn in Hst; unfold session_call in Hst; rewrite Es, Ec in Hst; exfalso.
    + assert (messageClosed h = false) as Emc. { destruct (messageClosed h); [|done]. by destruct (Hcl (Hm eq_refl)). }
      unfold HandleMessage_start in Hst. cbn [drop_call messageChan messageClosed hs_pers] in Hst. unfold msgs_of in Hl. cbn [map concat msg_of] in Hl. destruct (checkEncryptionLevel mt lvl); [done|].
      cbn [app] in Hl. rewrite len_cons in Hl. pose proof (len_nonneg (concat (map msg_of cs))). rewrite Emc, (proj2 (Z.ltb_lt _ _)) in Hst by lia. cbn [orb negb] in Hst.
      destruct Hc as [Hlvl _]. rewrite bool_decide_false in Hst by done. by destruct (plan _ mt).
    + destruct (closeChan h) eqn:Ecl; [|done]. by destruct (Hcl eq_refl).
  - exfalso. destruct (hs_tls h) as [t|e] eqn:Et.
    + rewrite <- Et in Hr. destruct (waiting_steps rec h ws res t Es Et Hin Hr) as [[h' E]|[h' E]]; [specialize (Hst LTls); cbn in Hst; congruence|specialize (Hst LRecord); cbn in Hst; congruence].
    + specialize (Hst LDone). cbn in Hst. unfold session_done in Hst. by rewrite Et, Es in Hst.
  - by destruct (Hnp post).
  - exfalso. destruct (Hsc eq_refl) as [Ecl _]. destruct (Hcl Ecl) as (_ & Hal & _). destruct (hs_tls h) as [t|e] eqn:Et.
    + rewrite <- Et in Hr. destruct (closing_steps rec h t Es Et Hin Hr Ecl Hal) as [[h' E]|[h' E]]; [specialize (Hst LTls); cbn in Hst; congruence|specialize (Hst LRunClose); cbn in Hst; congruence].
    + specialize (Hst LDone). cbn in Hst. unfold session_done in Hst. by rewrite Et, Es in Hst.
Qed.
End Conforming.

(** * Every execution ends *)

Definition next (h' h : hs) : Prop := ∃ l, hs_step l h = Some h'.
Definition session_rank (s : session_state) : nat := match s with SIdle => 0 | _ => 1 end.
Definition run_rank (r : run_state) : nat := match r with RSelect => 2 | RWaitErr _ | RWaitDone => 1 | REnded => 0 end.
Definition rank (h : hs) : nat := (3 * length (hs_calls h) + session_rank (hs_session h) + run_rank (hs_run h))%nat.
Lemma continue_rank h ws res ev : (session_rank (hs_session (continue_at h ws res ev)) <= 1)%nat ∧ hs_calls (continue_at h ws res ev) = hs_calls h ∧ hs_run (continue_at h ws res ev) = hs_run h ∧
  hs_tls (continue_at h ws res ev) = hs_tls h.
Proof. destruct ws; cbn; split_and!; done || lia. Qed.
(** The others do something that is not repeated. *)
Lemma other_step_rank l h h' : l ≠ LTls → hs_step l h = Some h' → hs_tls h' = hs_tls h ∧ (rank h' < rank h)%nat.
Proof.
  intros Hl E. unfold rank. destruct l as [| |ticket| | |]; [done|..]; cbn [hs_step] in E.
  - unfold run_close in E. destruct (hs_run h) eqn:Er; try done. destruct (closeChan h); [|done]. injection E as <-. cbn. split; [done|lia].
  - unfold run_other in E. destruct (hs_run h) eqn:Er, (hs_tls h) as [|[|]] eqn:Et; try done; injection E as <-; cbn; rewrite Et; (split; [done|lia]).
  - unfold session_call in E. destruct (hs_session h) eqn:Es; try done. destruct (hs_calls h) as [|[mt rest lvl post|] cs] eqn:Ec; [done|..].
    + unfold HandleMessage_start in E. destruct (checkEncryptionLevel mt lvl); [injection E as <-; cbn; split; [done|lia]|]. destruct (_ || _); [done|]. case_bool_decide; [injection E as <-; cbn; split; [done|lia]|].
      destruct (plan _ mt) as [ws res]. injection E as <-. match goal with |- context [continue_at ?h0 ws res []] => destruct (continue_rank h0 ws res []) as (H1 & H2 & H3 & H4) end. rewrite H2, H3, H4. cbn. split; [done|lia].
    + destruct (closeChan h); [done|]. injection E as <-. cbn. split; [done|lia].
  - unfold session_record in E. destruct (hs_session h) as [|[|[[] k] ws] res| |] eqn:Es; try done. destruct (writeRecord h); [|done]. injection E as <-. cbn. split; [done|lia].
  - unfold session_done in E. destruct (hs_tls h) as [|e] eqn:Et; [done|]. destruct (hs_session h) eqn:Es; try done; [| |].
    + injection E as <-. cbn. rewrite Et. split; [done|lia].
    + destruct (messageChan h); [done|]. injection E as <-. cbn. rewrite Et. split; [done|lia].
    + injection E as <-. cbn. rewrite Et. split; [done|lia].
Qed.
(** By the rank, as long as TLS does not take a step. *)
Lemma ends_if_tls t h : (∀ h' h2, hs_tls h' = t → tls_step h' = Some h2 → Acc next h2) → hs_tls h = t → Acc next h.
Proof.
  intros Ht. remember (rank h) as n eqn:En. revert h En. induction (lt_wf n) as [n _ IH]. intros h En Eh. constructor. intros h' [l E]. destruct l as [| |ticket| | |].
  1: by eapply Ht.
  all: (apply other_step_rank in E as [E1 E2]; [|done]; eapply IH; [|reflexivity|congruence]; rewrite En; done).
Qed.
Lemma ends_returned h e : hs_tls h = TReturned e → Acc next h.
Proof. apply ends_if_tls. intros h' h2 Et E. unfold tls_step in E. by rewrite Et in E. Qed.
Lemma ends_running t h : hs_tls h = TRunning t → Acc next h.
Proof.
  revert h. induction t as [k IH|s k IH|k IH|a k IH|e]; intros h; apply ends_if_tls; intros h' h2 Et E; unfold tls_step in E; rewrite Et in E.
  - destruct (messageChan h') as [|m q]; [destruct (messageClosed h'); [|done]; injection E as <-; by eapply ends_returned|]. injection E as <-. by eapply IH.
  - destruct (hs_session h') as [|[|[b kd] ws] res| |]; [discriminate E|discriminate E| |discriminate E|discriminate E]. destruct (bool_decide _); [|discriminate E]. injection E as <-. apply IH. reflexivity.
  - destruct (writeRecord h'); [done|]. injection E as <-. by apply IH.
  - destruct (hs_run h'); [|discriminate E..]. injection E as <-. by apply IH.
  - injection E as <-. by eapply ends_returned.
Qed.
(** Every call of [HandleMessage] has a result. *)
Definition busy (s : session_state) : nat := match s with SWaits _ _ | SPost _ => 1 | _ => 0 end.
Fixpoint handles (calls : list call) : nat := match calls with [] => 0 | CHandle _ _ _ _ :: cs => S (handles cs) | CClose :: cs => handles cs end.
Definition counted (h : hs) : nat := (length (hs_results h) + busy (hs_session h) + handles (hs_calls h))%nat.
Lemma continue_counted h ws res ev : counted (continue_at h ws res ev) = S (length (hs_results h) + handles (hs_calls h)).
Proof. unfold counted. destruct ws; cbn [continue_at set_session hs_results hs_session hs_calls busy]; rewrite length_app; cbn; lia. Qed.
Lemma step_counted l h h' : hs_step l h = Some h' → counted h' = counted h.
Proof.
  intros E. destruct l as [| |ticket| | |]; cbn [hs_step] in E.
  - unfold tls_step in E. destruct (hs_tls h) as [[k|sg k|k|a k|e]|e].
    + destruct (messageChan h); [destruct (messageClosed h); [|done]|]; by injection E as <-.
    + destruct (hs_session h) as [|[|[b kd] ws] res| |] eqn:Es; [discriminate E|discriminate E| |discriminate E|discriminate E]. destruct (bool_decide _); [|done]. injection E as <-.
      change (counted (set_tls ?x _)) with (counted x). rewrite continue_counted. unfold counted. rewrite Es. cbn [busy]. lia.
    + destruct (writeRecord h); [done|]. by injection E as <-.
    + destruct (hs_run h); [|discriminate E..]. by injection E as <-.
    + by injection E as <-.
    + done.
  - unfold run_close in E. destruct (hs_run h); [|discriminate E..]. destruct (closeChan h); [|done]. by injection E as <-.
  - unfold run_other in E. destruct (hs_run h), (hs_tls h) as [|[|]]; try discriminate E; by injection E as <-.
  - unfold session_call in E. destruct (hs_session h) eqn:Es; [|discriminate E..]. unfold counted. destruct (hs_calls h) as [|[mt rest lvl post|] cs] eqn:Ec; [done|..].
    + rewrite Es. cbn [handles busy]. unfold HandleMessage_start in E. destruct (checkEncryptionLevel mt lvl).
      * injection E as <-. cbn. rewrite length_app. cbn. lia.
      * destruct (_ || _); [done|]. destruct (bool_decide _); [injection E as <-; cbn; rewrite length_app; cbn; lia|]. destruct (plan _ mt) as [ws res]. injection E as <-.
        match goal with |- context [continue_at ?h0 ws res []] => pose proof (continue_counted h0 ws res []) as Hn end. unfold counted in Hn. rewrite Hn. cbn. lia.
    + destruct (closeChan h); [done|]. injection E as <-. rewrite Es. cbn. lia.
  - unfold session_record in E. destruct (hs_session h) as [|[|[[] k] ws] res| |] eqn:Es; try discriminate E. destruct (writeRecord h); [|done]. injection E as <-. unfold counted. rewrite Es. cbn. rewrite length_app. cbn. lia.
  - unfold session_done in E. destruct (hs_tls h) as [|e]; [done|]. unfold counted. destruct (hs_session h) eqn:Es; try discriminate E; [| |].
    + injection E as <-. cbn. rewrite length_app. cbn. lia.
    + destruct (messageChan h); [done|]. injection E as <-. cbn. rewrite length_app. cbn. lia.
    + injection E as <-. cbn. rewrite length_app. cbn. lia.
Qed.

(** C6: The calls of a handshake return.  TLS, the session and [RunHandshake] meet in
    unbuffered channels.  If TLS reacts to handshake messages as it is meant to, or
    fails with an alert at any point, and the session passes on at most a hundred
    messages and, if TLS does not fail, closes the connection at any time, then
    however the goroutines are scheduled, the execution ends, and it ends with every
    call returned: no goroutine is left waiting for another. *)
Theorem handshake_calls_return pers alerts calls t : conf pers alerts false (msgs_of calls) t → calls_ok alerts calls → len (msgs_of calls) <= 100 →
  Acc next (hs_new pers t calls) ∧
  ∀ h, rtc (λ a b, next b a) (hs_new pers t calls) h → (∀ l, hs_step l h = None) → hs_calls h = [] ∧ hs_session h = SIdle ∧ length (hs_results h) = handles calls.
Proof.
  intros Hc Hok Hlen. split; [by eapply ends_running|]. intros h Hrun Hst.
  assert (∀ h0, rtc (λ a b, next b a) h0 h → hs_ok pers alerts h0 → hs_ok pers alerts h ∧ counted h = counted h0) as Hall.
  { clear. intros h0. induction 1 as [|h0 h1 h2 [l E] _ IH]; intros Hok; [done|]. destruct (IH (hs_step_ok pers alerts _ _ _ Hok E)) as [? ->]. split; [done|by eapply step_counted]. }
  destruct (Hall _ Hrun) as [Hh Hn]; [split_and!; try done; exists false; apply in_idle; try done; by left|].
  destruct (not_stuck _ _ h Hh Hst) as [E1 E2]. split_and!; try done. unfold counted in Hn. rewrite E1, E2 in Hn. cbn in Hn. lia.
Qed.
(** A server: a HelloRetryRequest, the second ClientHello, the Finished, and the end. *)
Definition a_server : tls :=
  TlsRead (λ _, TlsRecord (TlsRead (λ _, TlsSignal (SgParams [7]) (TlsRecord (TlsSignal SgReadKey (TlsSignal SgWriteKey (TlsSignal SgWriteKey (TlsRead (λ _, TlsSignal SgReadKey (TlsReturn None)))))))))).
Definition hello : call := CHandle typeClientHello [0; 0; 0] EncryptionInitial None.
Definition server_calls : list call := [hello; hello; CHandle typeFinished [0; 0; 0] EncryptionHandshake None; CClose].
Lemma handshake_calls_return_witness : Acc next (hs_new PerspectiveServer a_server server_calls) ∧
  ∀ h, rtc (λ a b, next b a) (hs_new PerspectiveServer a_server server_calls) h → (∀ l, hs_step l h = None) → hs_calls h = [] ∧ hs_session h = SIdle ∧ length (hs_results h) = 3%nat.
Proof.
  apply (handshake_calls_return PerspectiveServer false server_calls a_server).
  - cbn. eapply conf_read; [left|]. apply follows_taken. eapply conf_read; [right; left|]. apply (follows_signal _ _ (SgParams [7])), follows_kept, (follows_signal _ _ SgReadKey), (follows_signal _ _ SgWriteKey), (follows_signal _ _ SgWriteKey), follows_end.
    eapply conf_read; [left|]. apply (follows_signal _ _ SgReadKey), follows_end, conf_ok.
  - cbn. repeat split; discriminate.
  - vm_compute. discriminate.
Defined.
(** One such execution. *)
Fixpoint hs_steps (ls : list hs_label) (h : hs) : option hs := match ls with [] => Some h | l :: ls => match hs_step l h with Some h => hs_steps ls h | None => None end end.
Example server_handshake :
  (match hs_steps [LCall; LTls; LTls; LRecord; LCall; LTls; LTls; LTls; LTls; LTls; LTls; LCall; LTls; LTls; LTls; LRun (inl None); LCall; LDone] (hs_new PerspectiveServer a_server server_calls) with
   | Some h => Some (hs_results h, hs_events h) | None => None end) = Some ([false; true; true], [HsParams [7]; HsComplete]).
Proof. reflexivity. Qed.

(** * What is not covered *)

(** TLS fails with an alert at the first message; the session closes the connection at
    the same time, and [RunHandshake] sees that first: nobody takes the alert, so that
    TLS does not return, and [Close] waits for it for ever. *)
Definition failing_tls : tls := TlsRead (λ _, TlsAlert 50 (TlsReturn (Some EOF))).
Definition certificate : call := CHandle typeCertificate [0; 0; 0] EncryptionHandshake None.
Example close_blocks_on_alert : ∃ h, hs_steps [LCall; LCall; LRunClose; LTls] (hs_new PerspectiveServer failing_tls [certificate; CClose]) = Some h ∧ hs_session h = SClosing ∧ ∀ l, hs_step l h = None.
Proof. eexists. split; [reflexivity|]. split; [reflexivity|]. intros []; reflexivity. Qed.
(** A client sends more than a hundred messages: TLS fails at the first and reads no
    other, and the call for the hundred and second never returns, though [RunHandshake]
    has reported the error. *)
Example flood_blocks : ∃ h, hs_steps ([LCall; LTls; LTls; LTls; LRun (inl None); LDone] ++ concat (replicate 100 [LCall; LDone])) (hs_new PerspectiveServer failing_tls (replicate 102 hello)) = Some h ∧
  hs_calls h = [hello] ∧ hs_run h = REnded ∧ ∀ l, hs_step l h = None.
Proof. eexists. split; [vm_compute; reflexivity|]. split; [reflexivity|]. split; [reflexivity|]. intros []; reflexivity. Qed.
